(* ===== verification/_CoqProject ===== *)
-Q . S2P
Prelude.v
Placement.v
PlacementFacts.v
ApiTypes.v
Store.v
ServiceAdmission.v
Admission.v
AdmissionUsage.v
AdmissionSafety.v
AdmissionRuns.v
Runtime.v
Samples.v
PlacementProperties.v
AdmissionProperties.v
StatusMap.v
Names.v
Mlrun.v
MlrunFacts.v
MlrunLifecycle.v
MlrunProperties.v
Mlservice.v
MlserviceFacts.v
MlserviceSync.v
MlserviceProperties.v
TrafficPolicy.v
TrafficPolicyFacts.v
TrafficPolicyProperties.v
QuotaCache.v
ElasticQuota.v
ElasticQuotaProperties.v
HubTypes.v
HubBackend.v
Strconv.v
Listing.v
ArtifactHub.v
ArtifactHubFacts.v
ArtifactHubLifecycle.v
ArtifactHubProperties.v
DockerPaths.v
DockerEngine.v
DockerGPU.v
DockerFacts.v
DockerRender.v
DockerGateway.v
DockerRuntime.v
DockerInventory.v
DockerWorkloads.v
DockerApply.v
DockerHandlers.v
DockerExclusive.v
DockerSample.v
DockerProperties.v
Kube.v
OperatorTypes.v
OperatorConfig.v
OperatorRun.v
OperatorFacts.v
OperatorSample.v
OperatorProperties.v
ServingBase.v
OperatorService.v
OperatorPolicy.v
ServingSample.v
ServingFacts.v
ServingConverge.v
ServingProperties.v
TenantTypes.v
TenantValidate.v
OperatorTenant.v
TenantFacts.v
TenantProperties.v
CatalogStore.v
CatalogApi.v
CatalogHandlers.v
StandaloneCatalog.v
StandaloneFacts.v
CatalogFacts.v
CatalogProperties.v
KubeRuntime.v
KubeRuntimeProperties.v
