(* ===== verification/Prelude.v ===== *)
(** * AxisML: a verification development

    The compute service, the elastic-quota scheduler, the artifact hub, the
    standalone edition, the compute operator, the tenant operator and the
    cluster manager.

    AxisML is a machine-learning platform on Kubernetes.  Its compute-service
    ([src/axisml-system/compute-service]) accepts training runs (MLRun),
    online services and workspaces (MLService) and traffic policies
    (MLTrafficPolicy), stores them in PostgreSQL, decides when a workload may
    use cluster resources, hands admitted workloads to a compute runtime as
    custom resources, and folds what the runtime reports back into the rows.
    This development models that service: its data, every operation that
    changes a row, and the actors that run side by side.  The pods that result
    are placed by the axisml-scheduler ([src/axisml-infra/axisml-scheduler]),
    whose plugin enforces the elastic quotas of the tenants a second time;
    plugin, usage cache and quota controller are modelled as well.

    Five more programs are modelled.  The artifact hub
    ([src/axisml-system/artifact-hub]) keeps versioned models, datasets
    and images: a row per version, a two-phase upload, storage in an OCI
    registry or an S3 bucket, and a garbage collector.  The standalone edition
    ([src/axisml-standalone/internal/runtime/docker]) implements the runtime
    that compute-service talks to on one Docker host instead of a cluster.  The
    compute operator ([src/axisml-system/compute-operator]) is the other side
    of that runtime on a cluster: it turns an MLRun into a batch Job, an
    MLService into a Deployment or StatefulSet with its Service and route, and
    an MLTrafficPolicy into a weighted route, and writes the statuses
    compute-service reads.  The tenant operator
    ([src/axisml-system/tenant-operator]) gives a tenant its namespace, the
    elastic quotas the scheduler enforces, and its secrets, config maps,
    accounts and data volumes.  The cluster manager
    ([src/axisml-system/cluster-manager]) is the REST writer of resource pools,
    tenants and volumes; on one host its pools and tenants are in the database
    of the standalone edition ([src/axisml-standalone]).

    ** The parts of the program and how they interact

    - The three business modules ([internal/mlrun], [internal/mlservice],
      [internal/trafficpolicy]) each have a repository (SQL), a service (the
      API operations), a renderer ([ToCR]), an outbox reconciler, a status
      reflow, an informer and a poller.  They share the tables
      ([internal/store]), the errors ([pkg/errors], [pkg/extensions]), the
      status mapping ([pkg/statusmap]) and the workload names
      ([apis/pkg/workloadname]).
    - The admission controller ([internal/admission]) reads queued runs and
      services, the node inventory, tenant quotas and pool capacities, and
      moves rows from Queued to Creating.  It reserves service replicas as
      vectors ([internal/serviceadmission]).
    - The reconcilers submit admitted rows to the runtime; the informers and
      pollers bring the observed status back.
    - The scheduler plugin counts the pods of a quota in a cache that
      Reserve, Unreserve and the pod informer update; the quota controller
      recomputes the usage from the pods and publishes it.
    - A service asks the policies, before it is deleted, whether one of them
      routes to it; a policy asks the services, before it is created, whether
      its members exist and are Ready.
    - The HTTP lists of compute-service and artifact-hub page with continue
      tokens and filter with label selectors turned into SQL.
    - The artifact hub's handlers and its collector read and write the same
      rows; kind handlers send the requests to the storage backends.
    - The Docker runtime renders a workload to container plans, compares them
      with the containers the daemon holds, pins GPUs under a lock, writes
      gateway files for routed services and policies, and reports containers
      back as the status compute-service folds into its rows.
    - The operator's dispatcher picks the handler for a run's backend, anchors
      a fingerprint of the spec, keeps the run's ConfigMaps, lets the handler
      create or suspend the Job, and merges what the handler observed into the
      status, of which it is the only writer.  The dispatchers of services and
      policies follow the same plan; a service's immutable fields are guarded
      by a hash, and a policy's route is written only when all its members
      resolve.
    - The tenant operator validates a Tenant, then runs one subreconciler per
      kind of derived object and writes one status from their results.  It
      reads its own kinds from a cache restricted to objects it labelled, and
      source objects and volumes from the API server.
    - The cluster manager's routes validate a request, then read and write
      through a provider of pools and tenants: the API server, or the
      standalone stores.  An edit reads an object, changes it and patches it
      at the version it read, again after a conflict.  Quotas selected as
      units of a pool are folded into the minimum and maximum of a tenant's
      spec, which the tenant operator reads; the selection itself is kept in
      an annotation.  compute-service resolves pools, units and quotas from
      the same standalone stores.

    ** Files

    - [Prelude]: scope, hint databases, tactics, stable insertion sort, and
      the lemmas on lists, options, maps and relations the other files share.
    - [Placement], [PlacementFacts], [PlacementProperties]: resource lists of
      [internal/admission/controller.go] (sumLists, subtractList, fits,
      exceeds, orderedResourceNames) over the interface [Quantity] /
      [QuantityLaws] for apimachinery's quantities; nodeState, resourceBudget
      and admissionState of the same file: best-fit packing, pool budgets,
      exhausting the inventory.
    - [ApiTypes], [Store]: error values, jsonb columns and the custom resources
      of [src/axisml-system/apis]; the tables, with WHERE as a filter, ORDER BY
      as a stable sort and Updates as column assignments.
    - [ServiceAdmission]: replica vectors (Desired, Decode, Encode, Next,
      ClampToDesired, Apply).
    - [Admission]: loadActive, admitServicesLocked, admitLocked, runOnce and
      their helpers.  [AdmissionUsage] gives the recomputed usage a closed
      form; [AdmissionSafety] and [AdmissionRuns] hold the loop invariants;
      [AdmissionProperties] the theorems on a round.
    - [Runtime]: the runtime and resolver interfaces of [pkg/extensions] as
      classes, the [world] (tables and calls made so far), and
      [internal/resource].  [Samples]: the concrete rows of the witnesses.
    - [StatusMap]: [pkg/statusmap/statusmap.go].
    - [Names]: [pkg/strutil/dns.go] and the workload names.
    - [Mlrun] (modules Repository, Service, Reflow, Informer, Reconciler,
      Poller), [MlrunFacts] (interleavings on outdated rows),
      [MlrunLifecycle] (the state machine), [MlrunProperties].
    - [Mlservice] (SvcRepository, SvcService, SvcReflow, SvcInformer,
      SvcReconciler, SvcPoller), [MlserviceFacts], [MlserviceSync] (what
      observed_generation means), [MlserviceProperties].
    - [TrafficPolicy] (PolRepository, PolService, PolReflow, PolInformer,
      PolReconciler, PolPoller), [TrafficPolicyFacts],
      [TrafficPolicyProperties].
    - [QuotaCache]: [internal/quota/cache.go] of the scheduler, with its
      abstract contract.  [ElasticQuota]: the ElasticScheduling plugin and the
      ElasticQuota controller.  [ElasticQuotaProperties]: scheduling cycles and informer events as step
      relations, and their theorems.
    - [Strconv], [Listing]: the Go string functions the HTTP layers use; [internal/server/{pagination,labels,problem}.go] of
      compute-service and artifact-hub.
    - [HubTypes], [HubBackend], [ArtifactHub] (modules ArtRepository and the
      service, API and collector): errors, rows and bodies; OCI and S3 clients
      and kind handlers; repository, service, API and garbage collection.
      [ArtifactHubFacts] has the step relation and the row invariant,
      [ArtifactHubLifecycle] the state machine, the exact effect of a
      collection and what becomes of a row that is being deleted,
      [ArtifactHubProperties] the theorems.
    - [DockerPaths], [DockerEngine], [DockerGPU], [DockerRender],
      [DockerGateway], [DockerRuntime], [DockerInventory]: paths and names,
      plans and engine calls, the GPU allocator, rendering, gateway resources,
      the runtime's handlers, and the resource snapshot.  [DockerFacts],
      [DockerWorkloads], [DockerApply], [DockerHandlers] follow the containers
      through the loops of each handler; [DockerExclusive] is the step relation
      of concurrent Applies; [DockerSample] a small daemon for the witnesses;
      [DockerProperties] the theorems.
    - [Kube]: Kubernetes objects, the API client as a monad and a class with
      laws, and triples with interference to reason about programs over it.
      [OperatorTypes], [OperatorConfig], [OperatorRun]: objects and cluster,
      [internal/workloadconfig], and [internal/mlrun] (handler interface,
      dispatcher, (native, job) handler).  [OperatorFacts] holds the
      invariants, [OperatorSample] a small cluster for the witnesses,
      [OperatorProperties] the theorems.
    - [ServingBase], [OperatorService], [OperatorPolicy]: the objects and the
      helpers the two halves share, [internal/mlservice] (dispatcher,
      immutability, deployment and statefulset handlers) and
      [internal/mltrafficpolicy].  [ServingFacts] (which specs passes write),
      [ServingConverge] (what a successful pass leaves and reports),
      [ServingSample], and [ServingProperties], which also holds the theorems
      on where compute-service and the operator meet.
    - [TenantTypes], [TenantValidate], [OperatorTenant]: the Tenant and its
      cluster, [internal/validate] and [internal/config], and
      [internal/reconcile] with [internal/controller].  [TenantFacts] (what
      each subreconciler keeps, and what a successful pass leaves),
      [TenantProperties].
    - [CatalogStore]: the provider of [cluster-manager/pkg/extensions] as a
      class with laws, the two retry loops, and that an edit through them is
      atomic.  [CatalogApi]: [internal/server] (validation, conversions, quota
      folding, volumes).  [CatalogHandlers]: the routes of
      [internal/{resourcepool,tenant,volume}], the Kubernetes volume store and
      [internal/promql].  [StandaloneCatalog]: the configuration and stores of
      [src/axisml-standalone/*.go].  [StandaloneFacts] (the stores satisfy the
      laws of the provider), [CatalogFacts] (edits of units, folding, the
      annotation), [CatalogProperties].
    - [KubeRuntime]: the Kubernetes side of compute-service:
      [internal/kuberuntime] as an implementation of the runtime interface of
      [Runtime], [internal/tenantresolver], [internal/poolcache] and
      [internal/kubeinventory].  [KubeRuntimeProperties]: their contracts.

    ** How the code is modelled

    A Go method with a mutated receiver returns the new receiver.  The
    database is the record [DB] of three lists of rows; a repository method is
    a function of it.  An operation that can fail returns a sum with [error].
    A handler that reads a row and writes later takes both the row it read and
    the database it writes to, so a write computed from an outdated row is an
    ordinary instance of the definition.  The runtime, the resolver, the
    inventory, the quota provider and the hash of long names are parameters;
    the runtime's answers may depend on every call made before.  Concurrency
    is a step relation whose steps are the individual handlers ([run_step],
    [run_op], [svc_step], [pol_step]); theorems on it go by rule induction.
    Where a handler reads in several statements the reads are steps of their
    own: the three parts of a service reconciler's work set ([svc_step]), the
    rows the artifact hub's calls and collector hold while they verify and
    write ([step], until [st_return]).
    A jsonb column is [JEmpty], [JVal v] for the encoding of [v], or [JBad]
    for bytes that do not decode; documents are compared by value.  A read of
    the first row for a name relies on the unique index that makes it the
    only one.  Time is an argument.

    The scheduler's informer plumbing, listers and API client come from
    Kubernetes libraries: they are parameters, with the documented behaviour
    of the filtering handler, the key split and semantic equality as laws of
    the classes [FilteringHandler] and [KeyAndEquality].

    The transports of the storage backends (class [Storage]), the kind
    handlers ([Handler]), SHA-256, the Docker daemon ([Docker], with
    [DockerLaws] for what its documentation promises), the gateway directory
    ([GatewayDir]), the Kubernetes name checks and the image reference parser
    are parameters.  A daemon call may fail at any time.  A panic ends a call,
    so it is an error value; sums of GPU counts are taken to fit an int.  In
    the step relation of concurrent Applies containers may exit or disappear
    at any moment, but a container that has exited is not restarted by anyone
    else.

    The operators' API calls may fail with or without having taken effect, and
    others may act before and after each of them as far as the relation [rely]
    of [ClientLaws] allows ([others] says what that is for a run).  The
    operators and compute-service read through the manager's cache, so the laws
    of a read ([ClientLaws], [CachedLaws]) promise nothing about what is in the
    cluster: an object that is read has the key that was asked for and may be
    outdated or gone, and that nothing is read says nothing.  Where a theorem
    needs more it says so in its statement: [CurrentGets], [CurrentLists],
    [CurrentReads] and [CurrentCache] for reads that tell the state at the time
    of the call, collected in [ServingCurrent] and [TenantCurrent]; [stamp_seen]
    and [good_seen] for reads that are outdated but show a stamp or a stored
    version; [TenantCaughtUp] for complete lists.  Reads of volumes and source
    objects of the tenant operator go to the API server, as in the code.  What
    an outdated read can do is shown by [outdated_read_reruns],
    [stale_read_replaces_baseline] and [stale_hit_is_success].  JSON texts
    inside a spec are decoded by the parameters [Decoders];
    SetStatusCondition, semantic equality and owner references are the class
    [Machinery].

    The Kubernetes runtime of compute-service reads from a cache and updates
    at the version it read ([UpdaterLaws]).  Its state in [kubernetes_runtime],
    the instance of [ComputeRuntime], is what the calls made so far have led
    to.

    A store of the cluster manager is a catalog of objects with versions
    ([catalog]), which also records the versions an object has had.
    [ProviderLaws] says what each call of a provider does to it, with other
    writers before and after; that an object with the version it had is
    unchanged ([moves_at]) is a hypothesis of its own, which the standalone
    stores keep under patches and deletions ([competes_moves]) and break when a
    name is deleted and created anew ([recreated_pool_is_overwritten]).  The
    laws are about the collection; Docker volumes that a tenant store makes on
    the way are not part of it ([volumes_before_conflict]).  These stores are
    over single SQL statements ([RowStore]), each atomic.  Orders of Go maps
    are those of [map_to_list].

    Replica counts are int32 in the code and [Z] here; where a sum of int32
    can wrap (the weights of a policy) the wrap-around is written out.

    ** What the theorems show

    - Admission rounds: a round always returns; usage recomputed from the
      tables it leaves behind respects tenant quotas and pool capacities
      unless they were exceeded before; rows only move forward; the queue is
      ordered as documented.
    - Placement: greedy packing of identical replicas succeeds exactly when
      some assignment exists; each choice is a best fit; an exhausted
      inventory admits nothing more; stepwise admission reaches the desired
      vector.
    - MLRun: identity and uniqueness of rows under every interleaving, the
      state machine with its row invariants, its edges divided into the ones
      compute-service.md describes ([documented_edge]) and the others the code
      has ([undocumented_edge]), the contracts of Create and
      Patch, only admitted rows reach the runtime, dispatch recovery is a
      compare-and-set, and what happens where it is not.
    - MLService: observed_generation = generation means that the runtime
      accepted exactly the desired replicas, and, when no row is read into two
      parts of a work set, that they are admitted and dispatched
      ([handled_twice] shows one that is not); the contracts of Create, Scale,
      Delete; only admitted replicas are dispatched; the rollback when capacity
      is gone.
    - MLTrafficPolicy: a service belongs to at most one live policy; stored
      policies are well formed; observed_generation; rows evolve by versions;
      Promote and Rollback; services and policies together.
    - Elastic quotas: the cache refines a ledger of the requests recorded
      last; PreFilter decides exactly and fails closed; a quota's usage never
      passes its maximum over scheduling cycles; the controller publishes the
      number the plugin enforces, for quotas in which no entry has outlived its
      pod; where accounting does outlive a pod.
    - Names: physical names are DNS labels, are the logical names without a
      prefix, and identify the workload within a tenant but not across
      tenants.
    - Listing: following continue tokens returns every row once and ends; a
      label selector and its SQL fragment keep the same rows.
    - Artifact hub: the table stays well formed under every interleaving;
      coordinates never recycle; the lifecycle of a version; what Complete
      verifies; a version that is being deleted stays so and is gone once the
      collector handles it, unless a completion that read it before is still
      pending; the collector asks the backends to remove only what expired or
      was deleted.
    - Docker runtime: no two live containers hold the same GPU, and
      createPlans is a run of the step relation that shows it; what fits the
      snapshot is refused at Apply only if more cards are held by then; a
      handler leaves other workloads alone; Apply converges to the plans of the
      spec, from containers with distinct slots, and is idempotent; sub-paths stay inside their volume; a run's status is
      a function of its containers; a traffic policy is read back as written.
    - Compute operator: over current reads a finished run is not run again and
      Jobs follow the anchored spec; the Job built for a validated run has
      exactly the pods admission counted;
      ConfigMaps converge and foreign ones are left alone; a cancelled run
      stops and compute-service learns of it; a failed anchor patch is final.
      Workloads of a service follow its immutable baseline once the cache shows
      it; a policy's route is never a partial split, however outdated the
      reads; an undisturbed pass that succeeds leaves what the spec asks for;
      its pods are what admission reserved; the phase compute-service shows is
      the operator's.
    - Tenant operator: exactly which tenants are valid; data volumes are never
      removed or taken over; no Role it writes lets an account widen its own
      rights, however outdated its reads; objects of others survive; a
      successful pass over a cache that has caught up leaves exactly the
      declared quotas and reports them; and where a failed list or a lagging
      cache is reported as success or failure.
    - Cluster manager and standalone catalog: an edit of a pool is one edit of
      the pool as it stood, without lost updates; unit names stay unique;
      quota selections fold to exact sums, pass the tenant operator's checks
      where units are sane, and read back as they were set; the standalone
      stores implement the provider and never undo a deletion at start-up; a
      volume in use is not deleted.

    - Kubernetes adapters: every call of the runtime works on one physical
      object and leaves what the interface promises, with anything else going
      on in the cluster, as far as the cache it reads tells, and in the cluster
      when the cache is current; instance answers concern the workload's own pods; the
      inventory charges nodes as the scheduler reserves; where tenants that
      share a namespace collide.

    ** Bounds and fuel

    The service loop of [admitServicesLocked] has no structural measure;
    [admit_steps] runs it with one unit of fuel more than the replicas that
    are missing, and [admitLocked_total] proves that this never runs out.  The
    weights of a policy are summed in int32; [max_members] (20 million
    members) keeps a sum of percentages inside int32.  Itoa writes up to 20 digits,
    which is every 64-bit int; following a list of rows by tokens has one unit
    of fuel more than there are rows, and the theorem says it is enough;
    createAndStart tries 5 times and the event ring keeps 512 events, as in
    the code; an edit of a pool makes 2 attempts and one of a tenant 5.  The
    parser of durations and the expansion of environment references consume a
    character per step and have the length of the text as fuel.  Everything
    else is structural.

    ** What is not modelled

    Connection-level database errors, logging, metrics and contexts; HTTP
    routing, binding and authentication; timers and leader election around the
    ticks, whose order is arbitrary in the step relations; the list of a
    runtime's instances beyond its length; most error texts quoted with
    percent-q appear with single quotes.  PostgreSQL's statements are atomic, and one
    admission transaction is one step.  Of the Docker runtime: the bytes of
    ConfigMap projections, log streaming, the volume manager's listings, YAML,
    and the creation of the network.  Of the cluster manager: the rendering of
    metric queries to PromQL, and the Kubernetes store of pools and tenants,
    which passes calls on to the API client.

    Other programs of the repository are not modelled: the platform backend is
    REST glue over the services above; the frontend, generated clients and
    deployment files have no core logic. *)

From Stdlib Require Import ssreflect ZArith Lia Sorted Permutation.
From Stdlib Require OrderedTypeEx.
From stdpp Require Import base gmap list strings.

(** ** Notation scope and hint databases *)

Declare Scope axisml_scope.
Delimit Scope axisml_scope with axisml.
Open Scope axisml_scope.

(** [if] on every two-constructor type, [decide] included. *)
Open Scope general_if_scope.

(** [axisml] holds the introduction lemmas of the components; [axisml_rw] the
    lookup equations that [autorewrite] normalises goals with. *)
Create HintDb axisml discriminated.
#[export] Hint Constants Opaque : axisml.
#[export] Hint Variables Opaque : axisml.
Create Rewrite HintDb axisml_rw.

(** ** Tactics *)

(** [cases] destructs every [match]/[if] scrutinee of the goal and closes the
    branches that are immediate. *)
Ltac cases := repeat (case_match; simplify_eq/=; try done).

(** Boolean tests of the source as propositions. *)
Ltac unbool :=
  repeat match goal with
  | H : andb _ _ = true |- _ => apply andb_true_iff in H as [? ?]
  | H : negb _ = true |- _ => apply negb_true_iff in H
  | H : negb _ = false |- _ => apply negb_false_iff in H
  | H : Z.ltb _ _ = true |- _ => apply Z.ltb_lt in H
  | H : Z.ltb _ _ = false |- _ => apply Z.ltb_ge in H
  | H : Z.leb _ _ = true |- _ => apply Z.leb_le in H
  | H : Z.leb _ _ = false |- _ => apply Z.leb_gt in H
  | H : Z.eqb _ _ = true |- _ => apply Z.eqb_eq in H
  | H : Z.eqb _ _ = false |- _ => apply Z.eqb_neq in H
  | H : String.eqb _ _ = true |- _ => apply String.eqb_eq in H
  | H : String.eqb _ _ = false |- _ => apply String.eqb_neq in H
  | H : bool_decide _ = true |- _ => apply bool_decide_eq_true in H
  | H : bool_decide _ = false |- _ => apply bool_decide_eq_false in H
  end.

(** ** Go maps

    A Go [map[string]T] is a [gmap]; reading a missing key yields the zero
    value of [T]. *)

Definition map_get {A} (zero : A) (m : gmap string A) (k : string) : A :=
  default zero (m !! k).

Lemma map_get_insert {A} (z : A) m k v : map_get z (<[k := v]> m) k = v.
Proof. by rw /map_get lookup_insert_eq. Qed.

Lemma map_get_insert_ne {A} (z : A) m k k' v :
  k <> k' -> map_get z (<[k := v]> m) k' = map_get z m k'.
Proof. intros. by rw /map_get lookup_insert_ne. Qed.

Lemma map_get_empty {A} (z : A) k : map_get z ∅ k = z.
Proof. by rw /map_get lookup_empty. Qed.

#[export] Hint Rewrite @map_get_insert @map_get_empty : axisml_rw.

(** ** Fixed-width integers *)

Definition int32_min : Z := (-2147483648)%Z.
Definition int32_max : Z := 2147483647%Z.
Definition in_int32 (z : Z) : Prop := (int32_min <= z <= int32_max)%Z.

(** Two's complement wrap-around of an [int32] operation. *)
Definition wrap32 (z : Z) : Z := ((z + 2147483648) mod 4294967296 - 2147483648)%Z.

Lemma wrap32_id z : in_int32 z -> wrap32 z = z.
Proof.
  rw /in_int32 /wrap32 /int32_min /int32_max => ?.
  rw Z.mod_small; lia.
Qed.

Lemma wrap32_in z : in_int32 (wrap32 z).
Proof.
  rw /in_int32 /wrap32 /int32_min /int32_max.
  pose proof (Z.mod_pos_bound (z + 2147483648) 4294967296 ltac:(lia)). lia.
Qed.

#[export] Hint Resolve wrap32_in : axisml.

(** ** Loops over lists *)

(** A Go loop whose body may return an error: the first error ends it. *)
Section FoldResult.
Context {S A E : Type}.

Fixpoint fold_err (f : S -> A -> S + E) (s : S) (l : list A) : S + E :=
  match l with
  | [] => inl s
  | a :: l' => match f s a with inl s' => fold_err f s' l' | inr e => inr e end
  end.

(** An invariant that every successful iteration keeps holds after the loop. *)
Lemma fold_err_invariant (P : S -> Prop) f s l s' :
  P s ->
  (forall s a s1, a ∈ l -> P s -> f s a = inl s1 -> P s1) ->
  fold_err f s l = inl s' -> P s'.
Proof.
  revert s. induction l as [|a l IH]; intros s HP Hf; simpl.
  - by intros [= <-].
  - destruct (f s a) as [s1|e] eqn:Ha; [|done].
    apply IH; [by eapply Hf; [left| |]|].
    intros; eapply Hf; [by right|done|done].
Qed.

(** The same for an invariant that also speaks about the items still to come. *)
Lemma fold_err_rest (P : list A -> S -> Prop) f s l s' :
  P l s ->
  (forall s a rest s1, P (a :: rest) s -> f s a = inl s1 -> P rest s1) ->
  fold_err f s l = inl s' -> P [] s'.
Proof.
  intros HP Hf. revert s HP. induction l as [|a l IH]; intros s HP; simpl.
  - by intros [= <-].
  - destruct (f s a) as [s1|e] eqn:Ha; [|done]. apply IH. by eapply Hf.
Qed.

(** If the body never fails, neither does the loop. *)
Lemma fold_err_total (P : S -> Prop) f s l :
  P s ->
  (forall s a, a ∈ l -> P s -> exists s1, f s a = inl s1 /\ P s1) ->
  exists s', fold_err f s l = inl s' /\ P s'.
Proof.
  revert s. induction l as [|a l IH]; intros s HP Hf; simpl; [eauto|].
  destruct (Hf s a) as (s1 & -> & HP1); [by left|done|].
  apply IH; [done|]. intros; apply Hf; [by right|done].
Qed.
End FoldResult.

(** ** Stable sorting

    [sort.SliceStable] and SQL's ORDER BY, for a boolean [less]. *)
Section SortSlice.
Context {A : Type} (less : A -> A -> bool).

Fixpoint insert_by (x : A) (l : list A) : list A :=
  match l with
  | [] => [x]
  | y :: l' => if less y x then y :: insert_by x l' else x :: y :: l'
  end.

Definition sort_slice (l : list A) : list A := foldr insert_by [] l.

Lemma insert_by_perm x l : Permutation (insert_by x l) (x :: l).
Proof.
  induction l as [|y l IH]; simpl; [done|].
  destruct (less y x); [|done]. rw IH. constructor.
Qed.

Lemma sort_slice_perm l : Permutation (sort_slice l) l.
Proof. induction l as [|x l IH]; simpl; [done|]. by rw insert_by_perm IH. Qed.

Lemma elem_of_sort_slice x l : x ∈ sort_slice l <-> x ∈ l.
Proof. by rw sort_slice_perm. Qed.

Lemma length_sort_slice l : length (sort_slice l) = length l.
Proof. by rw sort_slice_perm. Qed.

Context (less_asym : forall x y, less x y = true -> less y x = false).

Lemma insert_by_sorted x l :
  Sorted (fun a b => less b a = false) l ->
  Sorted (fun a b => less b a = false) (insert_by x l).
Proof.
  induction l as [|y l IH]; simpl; [by constructor; constructor|].
  intros Hs. destruct (less y x) eqn:Hyx; [|by constructor; [done|constructor]].
  apply Sorted_inv in Hs as [Hs Hhd]. constructor; [by apply IH|].
  destruct l as [|z l]; simpl; [by constructor; apply less_asym|].
  destruct (less z x); [by inversion Hhd; constructor|].
  constructor. by apply less_asym.
Qed.

Lemma sort_slice_sorted l : Sorted (fun a b => less b a = false) (sort_slice l).
Proof. induction l; simpl; [constructor|by apply insert_by_sorted]. Qed.

(** Read against any transitive key relation that [less] refines, the result
    is sorted globally, not only between neighbours. *)
Lemma sort_slice_strongly_sorted (R : A -> A -> Prop) l :
  Transitive R -> (forall a b, less b a = false -> R a b) ->
  StronglySorted R (sort_slice l).
Proof.
  intros HT HR. apply Sorted_StronglySorted; [done|].
  pose proof (sort_slice_sorted l) as Hs. induction Hs as [|a l' Hs IH Hhd]; [done|].
  constructor; [done|]. inversion Hhd; constructor; auto.
Qed.
End SortSlice.

(** ** Go string order (bytewise) *)

Definition str_lt (a b : string) : bool :=
  match String.compare a b with Lt => true | _ => false end.

Lemma str_lt_asym a b : str_lt a b = true -> str_lt b a = false.
Proof.
  rw /str_lt (String.compare_antisym a b). by destruct (String.compare b a).
Qed.

Lemma str_lt_irrefl a : str_lt a a = false.
Proof. destruct (str_lt a a) eqn:H; [|done]. pose proof (str_lt_asym _ _ H). congruence. Qed.

(** Two strings neither of which is smaller are equal. *)
Lemma str_lt_total a b : str_lt a b = false -> str_lt b a = false -> a = b.
Proof.
  rw /str_lt (String.compare_antisym a b).
  destruct (String.compare b a) eqn:H; simpl; try done.
  by rw (String.compare_eq_iff b a H).
Qed.

Lemma str_lt_trans a b c : str_lt a b = true -> str_lt b c = true -> str_lt a c = true.
Proof.
  assert (Hlt : forall x y, str_lt x y = true <-> OrderedTypeEx.String_as_OT.lt x y).
  { intros x y. rw -OrderedTypeEx.String_as_OT.cmp_lt /str_lt /OrderedTypeEx.String_as_OT.cmp.
    by destruct (String.compare x y). }
  rw !Hlt. apply OrderedTypeEx.String_as_OT.lt_trans.
Qed.

(** ** Counting occurrences *)

Definition occurrences (i : nat) (w : list nat) : Z := Z.of_nat (count_occ Nat.eq_dec w i).

Lemma occurrences_cons i j w :
  occurrences i (j :: w) = ((if decide (j = i) then 1 else 0) + occurrences i w)%Z.
Proof.
  rw /occurrences /=. destruct (Nat.eq_dec j i); case_decide; simplify_eq; lia.
Qed.

Lemma occurrences_nonneg i w : (0 <= occurrences i w)%Z.
Proof. rw /occurrences. lia. Qed.

Lemma occurrences_pos i w : (0 < occurrences i w)%Z <-> i ∈ w.
Proof.
  rw list_elem_of_In (count_occ_In Nat.eq_dec) /occurrences. lia.
Qed.

(** A list that contains every index at least as often is at least as long. *)
Lemma occurrences_le_length f w :
  (forall i, (occurrences i f <= occurrences i w)%Z) -> length f <= length w.
Proof.
  revert w. induction f as [|x f IH]; intros w H; simpl; [lia|].
  assert (Hx : x ∈ w).
  { apply occurrences_pos. specialize (H x). rw occurrences_cons decide_True // in H.
    pose proof (occurrences_nonneg x f). lia. }
  apply list_elem_of_In, in_split in Hx as (w1 & w2 & ->).
  rw length_app /=. specialize (IH (w1 ++ w2)). rw length_app in IH.
  enough (length f <= length w1 + length w2) by lia. apply IH => i.
  specialize (H i). rw occurrences_cons in H. move: H.
  rw /occurrences !count_occ_app /=. destruct (Nat.eq_dec x i); case_decide; simplify_eq; lia.
Qed.

(** ** Keys *)

Lemma NoDup_map_inv {A B} (g : A -> B) l : NoDup (map g l) -> NoDup l.
Proof. intros H. by apply (NoDup_fmap_1 g). Qed.

Lemma unique_by {A B} (g : A -> B) l x y :
  NoDup (map g l) -> x ∈ l -> y ∈ l -> g x = g y -> x = y.
Proof.
  induction l as [|z l IH]; [by intros _ ?%elem_of_nil|].
  intros [Hz Hnd]%NoDup_cons Hx Hy Hg.
  apply elem_of_cons in Hx as [->|Hx]; apply elem_of_cons in Hy as [->|Hy].
  - done.
  - destruct Hz. rw Hg. by apply list_elem_of_fmap_2.
  - destruct Hz. rw -Hg. by apply list_elem_of_fmap_2.
  - by apply IH.
Qed.

(** ** Sums *)

Definition zsum (l : list Z) : Z := foldr Z.add 0%Z l.

Lemma zsum_app l1 l2 : zsum (l1 ++ l2) = (zsum l1 + zsum l2)%Z.
Proof. induction l1 as [|x l1 IH]; simpl; [done|]. rw IH. lia. Qed.

Lemma zsum_perm l1 l2 : Permutation l1 l2 -> zsum l1 = zsum l2.
Proof. induction 1; simpl; lia. Qed.

Lemma zsum_map_add {A} (f g : A -> Z) l :
  zsum (map (fun x => f x + g x)%Z l) = (zsum (map f l) + zsum (map g l))%Z.
Proof. induction l as [|x l IH]; simpl; [done|]. rw IH. lia. Qed.

Lemma zsum_map_ext {A} (f g : A -> Z) l :
  (forall x, x ∈ l -> f x = g x) -> zsum (map f l) = zsum (map g l).
Proof.
  intros H. f_equal. apply map_ext_in => x Hx. by apply H, list_elem_of_In.
Qed.

Lemma zsum_map_le {A} (f g : A -> Z) l :
  (forall x, x ∈ l -> (f x <= g x)%Z) -> (zsum (map f l) <= zsum (map g l))%Z.
Proof.
  induction l as [|x l IH]; simpl; intros H; [done|].
  apply Z.add_le_mono; [apply H; by left|]. apply IH => y Hy. apply H. by right.
Qed.

Lemma zsum_concat_map {A B} (g : B -> Z) (f : A -> list B) l :
  zsum (map g (concat (map f l))) = zsum (map (fun x => zsum (map g (f x))) l).
Proof. induction l as [|x l IH]; simpl; [done|]. by rw map_app zsum_app IH. Qed.

(** Sums over positions. *)
Lemma zsum_imap_add {A} (f g : nat -> A -> Z) l :
  zsum (imap (fun i x => f i x + g i x)%Z l) = (zsum (imap f l) + zsum (imap g l))%Z.
Proof.
  revert f g. induction l as [|x l IH]; intros f g; simpl; [done|].
  rw (IH (f ∘ S) (g ∘ S)). lia.
Qed.

Lemma zsum_imap_le {A} (f g : nat -> A -> Z) l :
  (forall i x, l !! i = Some x -> (f i x <= g i x)%Z) -> (zsum (imap f l) <= zsum (imap g l))%Z.
Proof.
  revert f g. induction l as [|x l IH]; intros f g H; simpl; [done|].
  apply Z.add_le_mono; [by apply (H 0)|]. apply IH => i y Hy. by apply (H (S i)).
Qed.

Lemma zsum_concat_imap {A B} (g : B -> Z) (f : nat -> A -> list B) l :
  zsum (map g (concat (imap f l))) = zsum (imap (fun i x => zsum (map g (f i x))) l).
Proof.
  revert f. induction l as [|x l IH]; intros f; simpl; [done|].
  by rw map_app zsum_app (IH (f ∘ S)).
Qed.

Lemma zsum_imap_zero {A} (l : list A) : zsum (imap (fun _ _ => 0%Z) l) = 0%Z.
Proof. induction l as [|x l IH]; [done|]. exact IH. Qed.

Lemma zsum_imap_ext {A} (f g : nat -> A -> Z) l :
  (forall i x, l !! i = Some x -> f i x = g i x) -> zsum (imap f l) = zsum (imap g l).
Proof. intros H. f_equal. by apply imap_ext. Qed.

Lemma zsum_imap_at {A} (g : A -> Z) (l : list A) j :
  zsum (imap (fun i x => if decide (i = j) then g x else 0%Z) l) =
  match l !! j with Some x => g x | None => 0%Z end.
Proof.
  revert j. induction l as [|x l IH]; intros j; [by destruct j|].
  destruct j as [|j]; simpl.
  - transitivity (g x + zsum (imap (fun _ _ => 0%Z) l))%Z; [|rw zsum_imap_zero; lia]. f_equal.
  - rw -IH. apply zsum_imap_ext => i y _ /=. repeat case_decide; naive_solver.
Qed.

(** Summing over a set of positions, or over the list with an indicator. *)
Lemma zsum_imap_indicator {A} (g : A -> Z) (l : list A) inc :
  NoDup inc ->
  zsum (imap (fun i x => if decide (i ∈ inc) then g x else 0%Z) l) =
  zsum (map (fun j => match l !! j with Some x => g x | None => 0%Z end) inc).
Proof.
  induction 1 as [|j inc Hj _ IH]; simpl.
  - transitivity (zsum (imap (fun _ _ => 0%Z) l)); [|apply zsum_imap_zero].
    apply zsum_imap_ext => i x _. by destruct (decide (i ∈ [])) as [Hi%elem_of_nil|].
  - rw -IH -zsum_imap_at -zsum_imap_add. apply zsum_imap_ext => i x _.
    destruct (decide (i = j)) as [->|Hne].
    + rw decide_True; [by left|]. rw decide_False //. lia.
    + destruct (decide (i ∈ inc)) as [Hi|Hi].
      * rw decide_True; [by right|done].
      * rw decide_False //. by intros [?|?]%elem_of_cons.
Qed.

(** A function related pointwise to the identity. *)
Lemma Forall2_map_r {A B} (R : A -> B -> Prop) (f : A -> B) l :
  (forall a, a ∈ l -> R a (f a)) -> Forall2 R l (map f l).
Proof.
  induction l as [|a l IH]; intros H; simpl; constructor; [apply H; by left|].
  apply IH => x Hx. apply H. by right.
Qed.

(** Where a related row comes from. *)
Lemma Forall2_back {A B} (R : A -> B -> Prop) l l' b :
  Forall2 R l l' -> b ∈ l' -> exists a, a ∈ l /\ R a b.
Proof.
  intros HF (i & Hi)%list_elem_of_lookup.
  destruct (Forall2_lookup_r _ _ _ _ _ HF Hi) as (a & Ha & Hab).
  exists a. split; [by eapply list_elem_of_lookup_2|done].
Qed.

Lemma find_elem {A} (p : A -> bool) l x : List.find p l = Some x -> x ∈ l /\ p x = true.
Proof. intros [? ?]%List.find_some. split; [by apply list_elem_of_In|done]. Qed.

Lemma find_snoc {A} (p : A -> bool) l x :
  existsb p l = false -> p x = true -> List.find p (l ++ [x]) = Some x.
Proof.
  induction l as [|a l IH]; simpl; [by intros _ ->|].
  intros [-> H]%orb_false_iff. by apply IH.
Qed.

Lemma foldl_map {A B C} (f : C -> B -> C) (g : A -> B) l c :
  foldl f c (map g l) = foldl (fun c a => f c (g a)) c l.
Proof. revert c. induction l as [|a l IH]; intros c; simpl; [done|apply IH]. Qed.
