(* ===== verification/Placement.v ===== *)
(** * Resource lists

    [corev1.ResourceList] is a map from resource names to
    [resource.Quantity].  The quantity type comes from apimachinery, so it is
    an interface here: [Quantity] has the operations the controller calls and
    [QuantityLaws] their documented meaning (exact fixed-point arithmetic,
    read through [q_val] in units of 10^-9).  The list operations of
    [internal/admission/controller.go] follow, each with the equation that
    gives its value at a resource name. *)

From Stdlib Require Import ssreflect ZArith Lia.
From stdpp Require Import base gmap list strings.
From S2P Require Import Prelude.

(** ** The quantity interface *)

Class Quantity (Q : Type) := {
  q_zero : Q;                    (** [resource.Quantity{}] *)
  q_add : Q -> Q -> Q;           (** [Add] *)
  q_sub : Q -> Q -> Q;           (** [Sub] *)
  q_cmp : Q -> Q -> comparison;  (** [Cmp] *)
  q_sign : Q -> Z;               (** [Sign] *)
  q_set : Z -> Q                 (** [Set] *)
}.

Class QuantityLaws (Q : Type) `{!Quantity Q} := {
  q_val : Q -> Z;
  q_val_zero : q_val q_zero = 0%Z;
  q_val_add a b : q_val (q_add a b) = (q_val a + q_val b)%Z;
  q_val_sub a b : q_val (q_sub a b) = (q_val a - q_val b)%Z;
  q_cmp_val a b : q_cmp a b = Z.compare (q_val a) (q_val b);
  q_sign_val a : q_sign a = Z.sgn (q_val a);
  q_val_set n : q_val (q_set n) = (n * 1000000000)%Z
}.

(** Nano-units as integers: the instance the witnesses run on. *)
#[export] Instance Z_Quantity : Quantity Z := {
  q_zero := 0%Z;
  q_add := Z.add;
  q_sub := Z.sub;
  q_cmp := Z.compare;
  q_sign := Z.sgn;
  q_set := fun n => (n * 1000000000)%Z
}.

#[export] Instance Z_QuantityLaws : QuantityLaws Z.
Proof. by refine {| q_val := fun z : Z => z |}. Defined.

Section ResourceList.
Context {Q : Type} `{!Quantity Q}.

(** [l[name]], the zero quantity for a missing name. *)
Definition rl_get (l : gmap string Q) (name : string) : Q := map_get q_zero l name.

(** [fits] *)
Definition fits (available requested : gmap string Q) : bool :=
  forallb (fun p => match q_cmp (rl_get available p.1) p.2 with Lt => false | _ => true end)
    (map_to_list requested).

(** [exceeds]: some used resource is above its limit; names without a limit
    do not count. *)
Definition exceeds (used max : gmap string Q) : bool :=
  existsb (fun p => match max !! p.1 with
                    | None => false
                    | Some limit => match q_cmp p.2 limit with Gt => true | _ => false end
                    end)
    (map_to_list used).

(** The loops of [sumLists] and [subtractList] touch every name of the second
    list once and independently of the others, so they are pointwise merges. *)
Definition sum_entry (a b : option Q) : option Q :=
  match b with
  | None => a
  | Some quantity => Some (q_add (default q_zero a) quantity)
  end.

Definition sumLists (a b : gmap string Q) : gmap string Q := merge sum_entry a b.

Definition subtract_entry (dst used : option Q) : option Q :=
  match used with
  | None => dst
  | Some quantity =>
      let current := q_sub (default q_zero dst) quantity in
      Some (if (q_sign current <? 0)%Z then q_set 0 else current)
  end.

Definition subtractList (dst used : gmap string Q) : gmap string Q :=
  merge subtract_entry dst used.

(** [copyList] makes an independent map with the same quantities. *)
Definition copyList (l : gmap string Q) : gmap string Q := l.

Definition preferredResourceNames : list string := ["nvidia.com/gpu"; "memory"; "cpu"].

(** [orderedResourceNames]: GPU, memory, CPU, then the other names sorted. *)
Definition orderedResourceNames (a b : gmap string Q) : list string :=
  let seen : gset string := dom a ∪ dom b in
  filter (fun name => name ∈ seen) preferredResourceNames ++
  sort_slice str_lt (elements (seen ∖ list_to_set preferredResourceNames)).

(** ** Values *)
Context `{!QuantityLaws Q}.

(** The value a list gives to a name. *)
Definition rl_val (l : gmap string Q) (name : string) : Z := q_val (rl_get l name).

Lemma rl_val_lookup l n q : l !! n = Some q -> rl_val l n = q_val q.
Proof. by rw /rl_val /rl_get /map_get => ->. Qed.

Lemma rl_val_None l n : l !! n = None -> rl_val l n = 0%Z.
Proof. rw /rl_val /rl_get /map_get => -> /=. apply q_val_zero. Qed.

Lemma rl_val_empty n : rl_val ∅ n = 0%Z.
Proof. by apply rl_val_None, lookup_empty. Qed.

Lemma rl_val_sum a b n : rl_val (sumLists a b) n = (rl_val a n + rl_val b n)%Z.
Proof.
  rw /rl_val /rl_get /map_get /sumLists lookup_merge.
  destruct (a !! n), (b !! n); simpl; rw ?q_val_add ?q_val_zero; lia.
Qed.

Lemma rl_val_subtract dst used n :
  rl_val (subtractList dst used) n =
  if decide (n ∈ dom used) then Z.max 0 (rl_val dst n - rl_val used n) else rl_val dst n.
Proof.
  rw /rl_val /rl_get /map_get /subtractList lookup_merge.
  destruct (used !! n) as [u|] eqn:Hu.
  - rw decide_True; [by apply elem_of_dom|].
    destruct (dst !! n) as [d|]; simpl; rw q_sign_val q_val_sub ?q_val_zero;
      case_match; unbool; rw ?q_val_set ?q_val_sub ?q_val_zero; lia.
  - rw decide_False; [by rw not_elem_of_dom|].
    by destruct (dst !! n).
Qed.

Lemma subtract_clamped dst used n :
  (0 <= rl_val dst n -> 0 <= rl_val (subtractList dst used) n)%Z.
Proof. rw rl_val_subtract. case_decide; lia. Qed.

Lemma fits_spec available requested :
  fits available requested = true <->
  (forall n, n ∈ dom requested -> (rl_val requested n <= rl_val available n)%Z).
Proof.
  rw /fits forallb_forall. split.
  - intros H n [q Hq]%elem_of_dom. rw (rl_val_lookup _ _ _ Hq).
    assert (Hin : In (n, q) (map_to_list requested))
      by by apply list_elem_of_In, elem_of_map_to_list.
    specialize (H _ Hin). simpl in H. rw q_cmp_val in H. rw /rl_val. destruct (Z.compare_spec (q_val (rl_get available n)) (q_val q)); [lia|done|lia].
  - intros H [n q] Hin%list_elem_of_In%elem_of_map_to_list. simpl.
    specialize (H n (elem_of_dom_2 _ _ _ Hin)).
    rw (rl_val_lookup _ _ _ Hin) /rl_val in H. rw q_cmp_val.
    destruct (Z.compare_spec (q_val (rl_get available n)) (q_val q)); [done|lia|done].
Qed.

Lemma exceeds_false used max :
  exceeds used max = false <->
  (forall n, n ∈ dom used -> n ∈ dom max -> (rl_val used n <= rl_val max n)%Z).
Proof.
  rw /exceeds -not_true_iff_false existsb_exists. split.
  - intros H n [u Hu]%elem_of_dom [m Hm]%elem_of_dom.
    rw (rl_val_lookup _ _ _ Hu) (rl_val_lookup _ _ _ Hm).
    destruct (Z.compare_spec (q_val u) (q_val m)) as [| |Hgt]; [lia..|].
    destruct H. exists (n, u). split; [by apply list_elem_of_In, elem_of_map_to_list|].
    simpl. rw Hm q_cmp_val. by apply Z.compare_gt_iff in Hgt as ->.
  - intros H [[n u] [Hin Hx]]. apply list_elem_of_In, elem_of_map_to_list in Hin.
    simpl in Hx. destruct (max !! n) as [m|] eqn:Hm; [|done].
    specialize (H n (elem_of_dom_2 _ _ _ Hin) (elem_of_dom_2 _ _ _ Hm)).
    rw (rl_val_lookup _ _ _ Hin) (rl_val_lookup _ _ _ Hm) in H.
    rw q_cmp_val in Hx.
    destruct (Z.compare_spec (q_val u) (q_val m)); [done|done|lia].
Qed.

(** A request that fits is subtracted exactly: the clamp at zero is idle. *)
Lemma subtract_fits available requested n :
  fits available requested = true ->
  rl_val (subtractList available requested) n = (rl_val available n - rl_val requested n)%Z.
Proof.
  rw fits_spec rl_val_subtract => H. case_decide as Hd; [specialize (H n Hd); lia|].
  rw (rl_val_None requested); [by apply not_elem_of_dom|lia].
Qed.

Lemma dom_sumLists a b : dom (sumLists a b) = dom a ∪ dom b.
Proof.
  apply set_eq => n. rw elem_of_union !elem_of_dom /sumLists lookup_merge.
  destruct (a !! n), (b !! n); simpl; split; naive_solver.
Qed.

Lemma dom_subtractList a b : dom (subtractList a b) = dom a ∪ dom b.
Proof.
  apply set_eq => n. rw elem_of_union !elem_of_dom /subtractList lookup_merge.
  destruct (a !! n), (b !! n); simpl; split; naive_solver.
Qed.

Lemma elem_of_orderedResourceNames a b n :
  n ∈ orderedResourceNames a b <-> n ∈ dom a \/ n ∈ dom b.
Proof.
  rw /orderedResourceNames elem_of_app list_elem_of_filter elem_of_sort_slice
    elem_of_elements elem_of_difference elem_of_list_to_set elem_of_union.
  destruct (decide (n ∈ preferredResourceNames)); tauto.
Qed.
End ResourceList.

#[export] Hint Rewrite @rl_val_sum @rl_val_empty using typeclasses eauto : axisml_rw.

(** ** Trial placement

    The in-memory capacity model of [internal/admission/controller.go]: node
    inventory with best-fit packing, per-pool capacity overrides, and the
    role/workload descriptions that are placed.  A Go method that mutates its
    receiver returns the new receiver here, also on the branches that fail
    after having consumed part of it. *)

(** ** Reasons (stable strings surfaced by the API) *)

Definition ReasonInventoryUnavailable : string := "InventoryUnavailable".
Definition ReasonQuotaUnavailable : string := "QuotaUnavailable".
Definition ReasonQuotaExceeded : string := "QuotaExceeded".
Definition ReasonResourcePoolUnavailable : string := "ResourcePoolUnavailable".
Definition ReasonNoMatchingNode : string := "NoMatchingNode".
Definition ReasonInsufficientResources : string := "InsufficientResources".

(** ** Scheduling vocabulary (the fields of the corev1 structs that are read) *)

Record Taint := { taint_Key : string; taint_Value : string; taint_Effect : string }.

Record Toleration := {
  tol_Key : string; tol_Operator : string; tol_Value : string; tol_Effect : string }.

(** [extensions.ResourceNode] / [ResourceAllocation] / [ResourceSnapshot] *)
Record ResourceNode {Q : Type} := {
  rn_Name : string;
  rn_Labels : gmap string string;
  rn_Taints : list Taint;
  rn_Allocatable : gmap string Q }.
Arguments ResourceNode : clear implicits.

Record ResourceAllocation {Q : Type} := {
  ra_NodeName : string;
  ra_WorkloadID : string;
  ra_Role : string;
  ra_Replica : string;
  ra_Requests : gmap string Q }.
Arguments ResourceAllocation : clear implicits.

Record ResourceSnapshot {Q : Type} := {
  rs_Nodes : list (ResourceNode Q);
  rs_Allocations : list (ResourceAllocation Q) }.
Arguments ResourceSnapshot : clear implicits.

(** [roleRequest] *)
Record roleRequest {Q : Type} := {
  rr_name : string;
  rr_replicas : Z;
  rr_requests : gmap string Q }.
Arguments roleRequest : clear implicits.

(** [desiredWorkload] *)
Record desiredWorkload {Q : Type} := {
  dw_id : string;
  dw_tenant : string;
  dw_pool : string;
  dw_nodeSelector : gmap string string;
  dw_tolerations : list Toleration;
  dw_roles : list (roleRequest Q);
  dw_reserveMissing : bool }.
Arguments desiredWorkload : clear implicits.

(** [nodeAvailable]; a [nodeState] is a list of them. *)
Record nodeAvailable {Q : Type} := {
  na_name : string;
  na_labels : gmap string string;
  na_taints : list Taint;
  na_available : gmap string Q }.
Arguments nodeAvailable : clear implicits.

(** [admissionState]: a [resourceBudget] is its [remaining] list. *)
Record admissionState {Q : Type} := {
  as_nodes : list (nodeAvailable Q);
  as_overrides : gmap string (gmap string Q);
  as_unavailable : gmap string string }.
Arguments admissionState : clear implicits.

(** [poolCapacityResult]: the capacity, or the error that replaced it. *)
Definition poolCapacityResult (Q : Type) : Type := (gmap string Q + string)%type.

Section Placement.
Context {Q : Type} `{!Quantity Q}.

Definition set_available (n : nodeAvailable Q) (l : gmap string Q) : nodeAvailable Q :=
  {| na_name := na_name n; na_labels := na_labels n; na_taints := na_taints n;
     na_available := l |}.

(** ** Matching *)

Definition isTolerated (taint : Taint) (tolerations : list Toleration) : bool :=
  existsb (fun tol =>
    if negb (String.eqb (tol_Effect tol) "") &&
       negb (String.eqb (tol_Effect tol) (taint_Effect taint))
    then false
    else
      (String.eqb (tol_Operator tol) "Exists" &&
         (String.eqb (tol_Key tol) "" || String.eqb (tol_Key tol) (taint_Key taint)))
      || ((String.eqb (tol_Operator tol) "" || String.eqb (tol_Operator tol) "Equal") &&
          String.eqb (tol_Key tol) (taint_Key taint) &&
          String.eqb (tol_Value tol) (taint_Value taint)))
    tolerations.

Definition matches (node : nodeAvailable Q) (selector : gmap string string)
    (tolerations : list Toleration) : bool :=
  forallb (fun p => String.eqb (map_get "" (na_labels node) p.1) p.2) (map_to_list selector) &&
  forallb (fun taint =>
    if negb (String.eqb (taint_Effect taint) "NoSchedule") &&
       negb (String.eqb (taint_Effect taint) "NoExecute")
    then true
    else isTolerated taint tolerations) (na_taints node).

(** ** Best fit *)

Fixpoint betterFit_names (names : list string) (candidate current : nodeAvailable Q)
    (requests : gmap string Q) : bool :=
  match names with
  | [] => str_lt (na_name candidate) (na_name current)
  | name :: rest =>
      let candidateRemaining := q_sub (rl_get (na_available candidate) name) (rl_get requests name) in
      let currentRemaining := q_sub (rl_get (na_available current) name) (rl_get requests name) in
      match q_cmp candidateRemaining currentRemaining with
      | Lt => true
      | Gt => false
      | Eq => betterFit_names rest candidate current requests
      end
  end.

Definition betterFit (candidate current : nodeAvailable Q) (requests : gmap string Q) : bool :=
  betterFit_names (orderedResourceNames requests ∅) candidate current requests.

(** The inner loop of [nodeState.place]: whether a node was eligible, and the
    index of the best one that fits. *)
Fixpoint scan_nodes (requests : gmap string Q) (selector : gmap string string)
    (tolerations : list Toleration) (i : nat) (nodes : list (nodeAvailable Q))
    (eligible : bool) (best : option (nat * nodeAvailable Q))
    : bool * option (nat * nodeAvailable Q) :=
  match nodes with
  | [] => (eligible, best)
  | node :: rest =>
      if matches node selector tolerations then
        if fits (na_available node) requests then
          let best' := match best with
                       | None => Some (i, node)
                       | Some (_, cur) =>
                           if betterFit node cur requests then Some (i, node) else best
                       end in
          scan_nodes requests selector tolerations (S i) rest true best'
        else scan_nodes requests selector tolerations (S i) rest true best
      else scan_nodes requests selector tolerations (S i) rest eligible best
  end.

Definition take_request (requests : gmap string Q) (n : nodeAvailable Q) : nodeAvailable Q :=
  set_available n (subtractList (na_available n) requests).

(** [nodeState.place]: one replica after the other; nodes consumed before a
    failing replica stay consumed. *)
Fixpoint nodeState_place (requests : gmap string Q) (selector : gmap string string)
    (tolerations : list Toleration) (replicas : nat) (nodes : list (nodeAvailable Q))
    : list (nodeAvailable Q) * (bool * string) :=
  match replicas with
  | O => (nodes, (true, ""))
  | S k =>
      match scan_nodes requests selector tolerations 0 nodes false None with
      | (_, Some (best, _)) =>
          nodeState_place requests selector tolerations k (alter (take_request requests) best nodes)
      | (eligible, None) =>
          (nodes, (false, if eligible then ReasonInsufficientResources else ReasonNoMatchingNode))
      end
  end.

Definition nodeState_clone (nodes : list (nodeAvailable Q)) : list (nodeAvailable Q) :=
  map (fun n => set_available n (copyList (na_available n))) nodes.

(** [nodeState.exhaust] sets every listed quantity to zero. *)
Definition nodeState_exhaust (nodes : list (nodeAvailable Q)) : list (nodeAvailable Q) :=
  map (fun n => set_available n ((fun _ => q_set 0) <$> na_available n)) nodes.

(** One allocation is charged to the first node of its name. *)
Fixpoint charge_allocation (a : ResourceAllocation Q) (nodes : list (nodeAvailable Q))
    : list (nodeAvailable Q) :=
  match nodes with
  | [] => []
  | n :: rest =>
      if String.eqb (na_name n) (ra_NodeName a)
      then set_available n (subtractList (na_available n) (ra_Requests a)) :: rest
      else n :: charge_allocation a rest
  end.

Definition newNodeState (snapshot : ResourceSnapshot Q) : list (nodeAvailable Q) :=
  foldl (fun nodes a => charge_allocation a nodes)
    (map (fun n => {| na_name := rn_Name n; na_labels := rn_Labels n; na_taints := rn_Taints n;
                      na_available := copyList (rn_Allocatable n) |}) (rs_Nodes snapshot))
    (rs_Allocations snapshot).

(** ** Pool budgets *)

(** [resourceBudget.place] *)
Fixpoint resourceBudget_place (requests : gmap string Q) (replicas : nat)
    (remaining : gmap string Q) : gmap string Q * bool :=
  match replicas with
  | O => (remaining, true)
  | S k =>
      if fits remaining requests
      then resourceBudget_place requests k (subtractList remaining requests)
      else (remaining, false)
  end.

Definition used_by_pool (usage : gmap (string * string) (gmap string Q))
    : gmap string (gmap string Q) :=
  map_fold (fun (key : string * string) resources acc =>
    <[key.2 := sumLists (map_get ∅ acc key.2) resources]> acc) ∅ usage.

(** [newAdmissionState]: a pool whose capacity could not be read is
    unavailable; one with a non-empty capacity has a budget of that capacity
    less what is in use; the others are bounded by the nodes. *)
Definition newAdmissionState (snapshot : ResourceSnapshot Q)
    (results : gmap string (poolCapacityResult Q))
    (usage : gmap (string * string) (gmap string Q)) : admissionState Q :=
  let usedByPool := used_by_pool usage in
  {| as_nodes := newNodeState snapshot;
     as_unavailable := omap (fun r => match r with inr e => Some e | inl _ => None end) results;
     as_overrides :=
       map_imap (fun pool r =>
         match r with
         | inr _ => None
         | inl capacity =>
             if decide (capacity = ∅) then None
             else Some (subtractList (copyList capacity) (map_get ∅ usedByPool pool))
         end) results |}.

Definition with_nodes (s : admissionState Q) (nodes : list (nodeAvailable Q)) : admissionState Q :=
  {| as_nodes := nodes; as_overrides := as_overrides s; as_unavailable := as_unavailable s |}.

Definition with_budget (s : admissionState Q) (pool : string) (b : gmap string Q)
    : admissionState Q :=
  {| as_nodes := as_nodes s; as_overrides := <[pool := b]> (as_overrides s);
     as_unavailable := as_unavailable s |}.

Definition admissionState_clone (s : admissionState Q) : admissionState Q :=
  {| as_nodes := nodeState_clone (as_nodes s);
     as_overrides := copyList <$> as_overrides s;
     as_unavailable := as_unavailable s |}.

(** [admissionState.place] *)
Definition admissionState_place (pool : string) (requests : gmap string Q) (replicas : Z)
    (selector : gmap string string) (tolerations : list Toleration) (s : admissionState Q)
    : admissionState Q * (bool * string) :=
  match as_unavailable s !! pool with
  | Some _ => (s, (false, ReasonResourcePoolUnavailable))
  | None =>
      match as_overrides s !! pool with
      | Some budget =>
          let '(budget', ok) := resourceBudget_place requests (Z.to_nat replicas) budget in
          let s' := with_budget s pool budget' in
          if ok then
            let '(nodes, _) :=
              nodeState_place requests selector tolerations (Z.to_nat replicas) (as_nodes s') in
            (with_nodes s' nodes, (true, ""))
          else (s', (false, ReasonInsufficientResources))
      | None =>
          let '(nodes, r) :=
            nodeState_place requests selector tolerations (Z.to_nat replicas) (as_nodes s) in
          (with_nodes s nodes, r)
      end
  end.

(** [admissionState.reserveMissing] *)
Definition admissionState_reserveMissing (pool : string) (requests : gmap string Q)
    (replicas : Z) (selector : gmap string string) (tolerations : list Toleration)
    (s : admissionState Q) : admissionState Q * bool :=
  let '(nodes, (ok, _)) :=
    nodeState_place requests selector tolerations (Z.to_nat replicas) (as_nodes s) in
  match as_overrides s !! pool with
  | Some _ => (with_nodes s nodes, true)
  | None =>
      if ok then (with_nodes s nodes, true)
      else (with_nodes s (nodeState_exhaust nodes), false)
  end.

(** ** Workloads *)

Fixpoint add_times (n : nat) (requests total : gmap string Q) : gmap string Q :=
  match n with O => total | S k => add_times k requests (sumLists total requests) end.

(** [desiredWorkload.totalRequests] *)
Definition totalRequests (roles : list (roleRequest Q)) : gmap string Q :=
  foldl (fun total role => add_times (Z.to_nat (rr_replicas role)) (rr_requests role) total)
    ∅ roles.

Fixpoint role_less_names (names : list string) (left right : roleRequest Q) : bool :=
  match names with
  | [] => str_lt (rr_name left) (rr_name right)
  | name :: rest =>
      match q_cmp (rl_get (rr_requests left) name) (rl_get (rr_requests right) name) with
      | Gt => true
      | Lt => false
      | Eq => role_less_names rest left right
      end
  end.

Definition role_less (left right : roleRequest Q) : bool :=
  role_less_names (orderedResourceNames (rr_requests left) (rr_requests right)) left right.

(** [stableRoleOrder] *)
Definition stableRoleOrder (roles : list (roleRequest Q)) : list (roleRequest Q) :=
  sort_slice role_less roles.
End Placement.
