(* ===== verification/PlacementFacts.v ===== *)
(** * Placement: soundness, completeness and best fit

    What [nodeState.place] promises to the admission loops: a successful call
    charges each replica to a matching node that had room for it, it succeeds
    whenever the matching nodes can hold the replicas at all, and each choice
    is the tightest one.  Budgets and the exhausted state follow. *)

From Stdlib Require Import ssreflect ZArith Lia.
From stdpp Require Import base gmap list strings.
From S2P Require Import Prelude Placement.

Section PlacementFacts.
Context {Q : Type} `{!Quantity Q} `{!QuantityLaws Q}.
Implicit Types (nodes : list (nodeAvailable Q)) (requests : gmap string Q).

(** [w] lists the node index of each replica. *)

(** Node [i] keeps its identity and loses the requests of its replicas. *)
Definition charged (requests : gmap string Q) (w : list nat)
    (nodes nodes' : list (nodeAvailable Q)) : Prop :=
  length nodes' = length nodes /\
  forall i n, nodes !! i = Some n ->
    exists n', nodes' !! i = Some n' /\
      na_name n' = na_name n /\ na_labels n' = na_labels n /\ na_taints n' = na_taints n /\
      forall r, rl_val (na_available n') r =
                (rl_val (na_available n) r - occurrences i w * rl_val requests r)%Z.

(** Every replica sits on a matching node and no node is overcommitted. *)
Definition feasible (requests : gmap string Q) (selector : gmap string string)
    (tolerations : list Toleration) (w : list nat) (nodes : list (nodeAvailable Q)) : Prop :=
  forall i, i ∈ w -> exists n, nodes !! i = Some n /\ matches n selector tolerations = true /\
    forall r, r ∈ dom requests ->
      (occurrences i w * rl_val requests r <= rl_val (na_available n) r)%Z.

Lemma matches_ext (n n' : nodeAvailable Q) selector tolerations :
  na_labels n' = na_labels n -> na_taints n' = na_taints n ->
  matches n' selector tolerations = matches n selector tolerations.
Proof. by rw /matches => -> ->. Qed.

(** ** The scan *)

Lemma scan_Some requests selector tolerations k nodes e best e' i n :
  scan_nodes requests selector tolerations k nodes e best = (e', Some (i, n)) ->
  best = Some (i, n) \/
  exists j, i = k + j /\ nodes !! j = Some n /\
    matches n selector tolerations = true /\ fits (na_available n) requests = true.
Proof.
  revert k e best. induction nodes as [|x nodes IH]; intros k e best; simpl.
  - intros [= -> ->]. by left.
  - assert (Hshift : forall j m, nodes !! j = Some m ->
      S k + j = k + S j /\ (x :: nodes) !! S j = Some m) by (intros; split; [lia|done]).
    repeat case_match; intros Hs; apply IH in Hs as [Hb|(j & -> & Hj & Hm & Hf)]; simplify_eq;
      auto; right; try (exists (S j); destruct (Hshift j n Hj); auto; fail).
    all: exists 0; rw Nat.add_0_r; auto.
Qed.

Lemma scan_None requests selector tolerations k nodes e best e' :
  scan_nodes requests selector tolerations k nodes e best = (e', None) ->
  best = None /\
  (forall n, n ∈ nodes -> matches n selector tolerations = true ->
             fits (na_available n) requests = false) /\
  e' = e || existsb (fun n => matches n selector tolerations) nodes.
Proof.
  revert k e best. induction nodes as [|x nodes IH]; intros k e best; simpl.
  - intros [= -> ->]. split_and!; [done|by intros n ?%elem_of_nil|by rw orb_false_r].
  - destruct (matches x selector tolerations) eqn:Hm;
      [destruct (fits (na_available x) requests) eqn:Hf|]; intros (Hb & Hn & ->)%IH.
    + by repeat case_match.
    + split_and!; [done| |by rw orb_true_l orb_true_r].
      intros n [->|?]%elem_of_cons; auto.
    + split_and!; [done| |by rw orb_false_l].
      intros n [->|?]%elem_of_cons ?; [congruence|auto].
Qed.

(** ** One step of [nodeState.place] *)

Lemma charged_nil requests nodes : charged requests [] nodes nodes.
Proof.
  split; [done|]. intros i n Hn. exists n. split_and!; try done.
  intros r. rw /occurrences /=. lia.
Qed.

Lemma charged_cons requests nodes nodes' i n w :
  nodes !! i = Some n -> fits (na_available n) requests = true ->
  charged requests w (alter (take_request requests) i nodes) nodes' ->
  charged requests (i :: w) nodes nodes'.
Proof.
  intros Hi Hfit [Hlen Hw]. split; [by rw Hlen length_alter|].
  intros j m Hm. destruct (decide (i = j)) as [<-|Hne].
  - rw Hi in Hm. simplify_eq.
    destruct (Hw i (take_request requests m)) as (n' & ? & ? & ? & ? & Hv).
    { by rw list_lookup_alter decide_True // Hi. }
    exists n'. split_and!; try done. intros r.
    rw Hv occurrences_cons decide_True // /take_request /= subtract_fits //. lia.
  - destruct (Hw j m) as (n' & ? & ? & ? & ? & Hv).
    { by rw list_lookup_alter decide_False. }
    exists n'. split_and!; try done. intros r. by rw Hv occurrences_cons decide_False.
Qed.

Lemma feasible_cons requests selector tolerations nodes i n w :
  nodes !! i = Some n -> matches n selector tolerations = true ->
  fits (na_available n) requests = true ->
  feasible requests selector tolerations w (alter (take_request requests) i nodes) ->
  feasible requests selector tolerations (i :: w) nodes.
Proof.
  intros Hi Hm Hfit Hw j Hj.
  assert (Hone : forall r, r ∈ dom requests -> (rl_val requests r <= rl_val (na_available n) r)%Z)
    by by apply fits_spec.
  destruct (decide (i = j)) as [<-|Hne].
  - exists n. split_and!; [done|done|]. intros r Hr. rw occurrences_cons decide_True //.
    destruct (decide (i ∈ w)) as [Hin|Hnin].
    + destruct (Hw i Hin) as (n' & Hn' & _ & Hv). specialize (Hv r Hr).
      rw list_lookup_alter decide_True // Hi /= in Hn'. simplify_eq.
      rw /take_request /= subtract_fits // in Hv. lia.
    + assert (occurrences i w = 0%Z) as ->
        by (pose proof (occurrences_nonneg i w); pose proof (occurrences_pos i w);
            destruct (decide (0 < occurrences i w)%Z); [naive_solver|lia]).
      specialize (Hone r Hr). lia.
  - apply elem_of_cons in Hj as [->|Hj]; [done|].
    destruct (Hw j Hj) as (n' & Hn' & Hm' & Hv).
    rw list_lookup_alter decide_False // in Hn'.
    exists n'. split_and!; [done|done|]. intros r Hr. rw occurrences_cons decide_False //. by apply Hv.
Qed.

(** What a call leaves behind, whether or not it succeeds: [w] are the
    replicas that were placed; when one was not, no matching node has room. *)
Lemma nodeState_place_trace requests selector tolerations k nodes nodes' ok reason :
  nodeState_place requests selector tolerations k nodes = (nodes', (ok, reason)) ->
  exists w, feasible requests selector tolerations w nodes /\ charged requests w nodes nodes' /\
    (if ok then length w = k else
       length w < k /\ forall n, n ∈ nodes' -> matches n selector tolerations = true ->
                                 fits (na_available n) requests = false).
Proof.
  revert nodes. induction k as [|k IH]; intros nodes; simpl.
  - intros [= -> <- <-]. exists []. split_and!; [by intros ? ?%elem_of_nil|apply charged_nil|done].
  - destruct (scan_nodes _ _ _ _ _ _ _) as [e [[i n]|]] eqn:Hscan.
    + intros (w & Hf & Hc & Hl)%IH.
      apply scan_Some in Hscan as [?|(j & -> & Hj & Hm & Hfit)]; [done|].
      exists (j :: w). split_and!; [by eapply feasible_cons|by eapply charged_cons|].
      destruct ok; simpl; [by rw Hl|]. destruct Hl. split; [lia|done].
    + intros [= <- <- _]. exists [].
      split_and!; [by intros ? ?%elem_of_nil|apply charged_nil|simpl; lia|].
      by apply scan_None in Hscan as (_ & ? & _).
Qed.

(** ** Consequences *)

Lemma nodeState_place_reason_ok requests selector tolerations k nodes nodes' reason :
  nodeState_place requests selector tolerations k nodes = (nodes', (true, reason)) -> reason = "".
Proof.
  revert nodes. induction k as [|k IH]; intros nodes; simpl; [by intros [= _ <-]|].
  destruct (scan_nodes _ _ _ _ _ _ _) as [e [[i n]|]]; [apply IH|done].
Qed.

(** A placed assignment exists: a success is a feasible assignment of exactly
    [k] replicas and the remaining capacity is what that assignment leaves. *)
Lemma nodeState_place_sound requests selector tolerations k nodes nodes' reason :
  nodeState_place requests selector tolerations k nodes = (nodes', (true, reason)) ->
  exists w, length w = k /\ feasible requests selector tolerations w nodes /\
            charged requests w nodes nodes'.
Proof. intros (w & ? & ? & ?)%nodeState_place_trace. eauto. Qed.

(** Greedy packing of identical replicas is complete. *)
Lemma nodeState_place_complete requests selector tolerations nodes f :
  (forall r, 0 <= rl_val requests r)%Z ->
  feasible requests selector tolerations f nodes ->
  exists nodes', nodeState_place requests selector tolerations (length f) nodes =
                 (nodes', (true, "")).
Proof.
  intros Hpos Hf.
  destruct (nodeState_place requests selector tolerations (length f) nodes)
    as [nodes' [ok reason]] eqn:Hp.
  destruct (nodeState_place_trace _ _ _ _ _ _ _ _ Hp) as (w & _ & [Hlen Hc] & Hok).
  destruct ok; [exists nodes'; by pose proof (nodeState_place_reason_ok _ _ _ _ _ _ _ Hp) as ->|].
  destruct Hok as [Hlt Hfull].
  enough (length f <= length w) by lia. apply occurrences_le_length => i.
  destruct (decide (i ∈ f)) as [Hin|Hnin]; last first.
  { rw -occurrences_pos in Hnin. pose proof (occurrences_nonneg i w). lia. }
  destruct (Hf i Hin) as (n & Hn & Hm & Hcap).
  destruct (Hc i n Hn) as (n' & Hn' & _ & Hlab & Htaint & Hv).
  assert (Hnofit : fits (na_available n') requests = false).
  { apply Hfull; [by eapply list_elem_of_lookup_2|]. by rw (matches_ext n). }
  destruct (decide (occurrences i f <= occurrences i w)%Z) as [|Hgt]; [done|].
  apply not_true_iff_false in Hnofit. destruct Hnofit. apply fits_spec => r Hr.
  specialize (Hcap r Hr). specialize (Hpos r). rw Hv. nia.
Qed.

(** ** Best fit *)

(** Subtracting the same request from both sides, [betterFit_names] compares
    the free capacity itself, resource by resource. *)
Lemma betterFit_names_cons name rest (a b : nodeAvailable Q) requests :
  betterFit_names (name :: rest) a b requests =
  match Z.compare (rl_val (na_available a) name) (rl_val (na_available b) name) with
  | Lt => true
  | Gt => false
  | Eq => betterFit_names rest a b requests
  end.
Proof.
  simpl. rw q_cmp_val !q_val_sub -/(rl_val _ _) -/(rl_val _ _) -/(rl_val _ _).
  destruct (Z.compare_spec (rl_val (na_available a) name) (rl_val (na_available b) name));
    match goal with |- match ?c with _ => _ end = _ => destruct (Z.compare_spec
      (rl_val (na_available a) name - rl_val requests name)
      (rl_val (na_available b) name - rl_val requests name)) end; try done; lia.
Qed.

Lemma betterFit_names_trans names (a b c : nodeAvailable Q) requests :
  betterFit_names names a b requests = true -> betterFit_names names b c requests = true ->
  betterFit_names names a c requests = true.
Proof.
  induction names as [|name names IH]; [apply str_lt_trans|].
  rw !betterFit_names_cons.
  destruct (Z.compare_spec (rl_val (na_available a) name) (rl_val (na_available b) name)),
    (Z.compare_spec (rl_val (na_available b) name) (rl_val (na_available c) name)),
    (Z.compare_spec (rl_val (na_available a) name) (rl_val (na_available c) name));
    try done; try lia; auto.
Qed.

Lemma betterFit_irrefl (a : nodeAvailable Q) requests : betterFit a a requests = false.
Proof.
  rw /betterFit. induction (orderedResourceNames requests ∅) as [|name names IH];
    [apply str_lt_irrefl|]. by rw betterFit_names_cons Z.compare_refl.
Qed.

(** The scan keeps the tightest candidate seen so far. *)
Lemma scan_minimal requests selector tolerations k nodes e best e' i n (seen : list (nodeAvailable Q)) :
  (forall m, m ∈ seen -> match best with
                         | Some (_, b) => betterFit m b requests = false
                         | None => False
                         end) ->
  scan_nodes requests selector tolerations k nodes e best = (e', Some (i, n)) ->
  forall m, m ∈ seen \/ (m ∈ nodes /\ matches m selector tolerations = true /\
                         fits (na_available m) requests = true) ->
    betterFit m n requests = false.
Proof.
  revert k e best seen. induction nodes as [|x nodes IH]; intros k e best seen Hseen; simpl.
  { intros [= _ ->] m [Hm|[?%elem_of_nil _]]; [exact (Hseen m Hm)|done]. }
  destruct (matches x selector tolerations) eqn:Hm;
    [destruct (fits (na_available x) requests) eqn:Hfit|].
  - intros Hs m Hin. refine (IH (S k) true _ (x :: seen) _ Hs m _).
    + intros y [->|Hy]%elem_of_cons.
      * destruct best as [[? b]|]; [|apply betterFit_irrefl].
        destruct (betterFit x b requests) eqn:Hb; [apply betterFit_irrefl|done].
      * specialize (Hseen y Hy). destruct best as [[? b]|]; [|done].
        destruct (betterFit x b requests) eqn:Hb; [|done].
        apply not_true_iff_false => Hyx. apply not_true_iff_false in Hseen.
        destruct Hseen. by eapply betterFit_names_trans.
    + destruct Hin as [?|([->|?]%elem_of_cons & ? & ?)]; [left; by right|left; by left|by right].
  - intros Hs m Hin. refine (IH (S k) true best seen Hseen Hs m _).
    destruct Hin as [?|([->|?]%elem_of_cons & ? & ?)]; [by left|congruence|by right].
  - intros Hs m Hin. refine (IH (S k) e best seen Hseen Hs m _).
    destruct Hin as [?|([->|?]%elem_of_cons & ? & ?)]; [by left|congruence|by right].
Qed.

(** Best fit: each replica goes to a node that matches the selector,
    tolerates the taints and has room for it, and no other such node is a
    strictly tighter fit. *)
Theorem scan_best_fit requests selector tolerations nodes e i n :
  scan_nodes requests selector tolerations 0 nodes false None = (e, Some (i, n)) ->
  nodes !! i = Some n /\ matches n selector tolerations = true /\
  fits (na_available n) requests = true /\
  forall m, m ∈ nodes -> matches m selector tolerations = true ->
    fits (na_available m) requests = true -> betterFit m n requests = false.
Proof.
  intros Hs. destruct (scan_Some _ _ _ _ _ _ _ _ _ _ Hs) as [|(j & -> & ? & ? & ?)]; [done|].
  split_and!; try done. intros m ? ? ?.
  eapply (scan_minimal _ _ _ _ _ _ _ _ _ _ []); [|exact Hs|by right].
  by intros ? ?%elem_of_nil.
Qed.

(** The reason of a failure says whether any node was eligible. *)
Lemma nodeState_place_reason requests selector tolerations k nodes nodes' reason :
  nodeState_place requests selector tolerations k nodes = (nodes', (false, reason)) ->
  reason = if existsb (fun n => matches n selector tolerations) nodes
           then ReasonInsufficientResources else ReasonNoMatchingNode.
Proof.
  revert nodes. induction k as [|k IH]; intros nodes; simpl; [done|].
  destruct (scan_nodes _ _ _ _ _ _ _) as [e [[i n]|]] eqn:Hs.
  - intros ->%IH. apply scan_Some in Hs as [|(j & -> & Hj & Hm & _)]; [done|].
    assert (existsb (fun n => matches n selector tolerations) nodes = true) as ->.
    { apply existsb_exists. exists n. split; [|done]. by eapply list_elem_of_In, list_elem_of_lookup_2. }
    assert (existsb (fun n => matches n selector tolerations)
              (alter (take_request requests) (0 + j) nodes) = true) as ->; [|done].
    apply existsb_exists. exists (take_request requests n). split.
    + apply list_elem_of_In. eapply (list_elem_of_lookup_2 _ (0 + j)).
      by rw list_lookup_alter decide_True // Hj.
    + by rw (matches_ext n).
  - apply scan_None in Hs as (_ & _ & ->). by intros [= _ <-].
Qed.

(** ** Budgets *)

Lemma resourceBudget_place_sound requests k remaining remaining' :
  resourceBudget_place requests k remaining = (remaining', true) ->
  forall r, rl_val remaining' r = (rl_val remaining r - Z.of_nat k * rl_val requests r)%Z /\
            (k <> 0%nat -> r ∈ dom requests -> (0 <= rl_val remaining' r)%Z).
Proof.
  revert remaining. induction k as [|k IH]; intros remaining; simpl.
  - intros [= <-] r. split; [lia|done].
  - destruct (fits remaining requests) eqn:Hf; [|done]. intros Hp r.
    destruct (IH _ Hp r) as [Hv Hpos]. rw subtract_fits // in Hv. split; [lia|].
    intros _ Hr. rw fits_spec in Hf. specialize (Hf r Hr).
    destruct k; [lia|by apply Hpos].
Qed.

(** ** Exhaustion *)

Lemma exhaust_no_fit requests nodes n r :
  (0 < rl_val requests r)%Z -> n ∈ nodeState_exhaust nodes ->
  fits (na_available n) requests = false.
Proof.
  intros Hr Hn. apply list_elem_of_In, in_map_iff in Hn as (m & <- & _). simpl.
  apply not_true_iff_false => Hf. rw fits_spec in Hf.
  assert (Hd : r ∈ dom requests).
  { apply elem_of_dom. destruct (requests !! r) eqn:E; [done|]. rw rl_val_None // in Hr. }
  specialize (Hf r Hd). rw {2}/rl_val /rl_get /map_get lookup_fmap in Hf.
  destruct (na_available m !! r); simpl in Hf; rw ?q_val_set ?q_val_zero in Hf; lia.
Qed.

(** Once a durable reservation could not be placed and the inventory was
    exhausted, no workload that asks for any amount of any resource is placed
    on a node for the rest of the round, and the inventory stays as it is. *)
Theorem exhausted_blocks_nodes requests selector tolerations k nodes r :
  (0 < rl_val requests r)%Z -> k <> 0%nat ->
  exists reason, nodeState_place requests selector tolerations k (nodeState_exhaust nodes) =
                 (nodeState_exhaust nodes, (false, reason)).
Proof.
  intros Hr Hk. destruct k as [|k]; [done|]. simpl.
  destruct (scan_nodes _ _ _ _ _ _ _) as [e [[i n]|]] eqn:Hs; [|eauto].
  apply scan_Some in Hs as [|(j & -> & Hj & _ & Hf)]; [done|].
  apply list_elem_of_lookup_2 in Hj. by rw (exhaust_no_fit _ _ _ _ Hr Hj) in Hf.
Qed.
End PlacementFacts.
