(* ===== verification/ApiTypes.v ===== *)
(** * Errors and JSON columns

    The error values that cross the compute-service layers (business errors
    of [pkg/errors], gorm's and the API server's not-found errors, and the
    runtime errors of [pkg/extensions/errors.go]), with the classification
    functions that unwrap them, and the shape of a jsonb column. *)

From Stdlib Require Import ssreflect ZArith.
From stdpp Require Import base gmap list strings.
From S2P Require Import Prelude Placement.

(** [errors.Code] *)
Inductive Code :=
| CodeValidation | CodeNotFound | CodeConflict | CodeImmutableField | CodePrecondition
| CodeUnauthorized | CodeForbidden | CodeUnavailable | CodeInternal | CodeQuotaExceeded.

#[export] Instance Code_eq_dec : EqDecision Code.
Proof. solve_decision. Defined.

Definition Code_string (c : Code) : string :=
  match c with
  | CodeValidation => "validation_failed"
  | CodeNotFound => "not_found"
  | CodeConflict => "conflict"
  | CodeImmutableField => "immutable-field"
  | CodePrecondition => "precondition_failed"
  | CodeUnauthorized => "unauthorized"
  | CodeForbidden => "forbidden"
  | CodeUnavailable => "service_unavailable"
  | CodeInternal => "internal_error"
  | CodeQuotaExceeded => "quota_exceeded"
  end.

(** [AllCodes], in declaration order. *)
Definition AllCodes : list string :=
  map Code_string [CodeValidation; CodeNotFound; CodeConflict; CodeImmutableField;
    CodePrecondition; CodeUnauthorized; CodeForbidden; CodeUnavailable; CodeInternal;
    CodeQuotaExceeded].

(** Go [error] values.  [Errorf msg cause] is [fmt.Errorf("msg: %w", cause)];
    the last constructor is an error the layer only passes on. *)
Inductive error :=
| E (code : Code) (msg : string)
| EWrapped (code : Code) (msg : string) (cause : error)
| Errorf (msg : string) (cause : error)
| ErrRecordNotFound
| ErrAPINotFound
| ResourceUnavailableError (msg : string)
| TerminalApplyError (err : error)
| ErrOther (msg : string).

(** [apperrors.New] *)
Definition New (code : Code) (msg : string) : error := E code msg.

(** [apperrors.Wrap] *)
Definition Wrap (code : Code) (msg : string) (cause : error) : error := EWrapped code msg cause.

(** [err.Error()] *)
Fixpoint Error (err : error) : string :=
  match err with
  | E code msg => (Code_string code ++ ": " ++ msg)%string
  | EWrapped code msg cause => (Code_string code ++ ": " ++ msg ++ ": " ++ Error cause)%string
  | Errorf msg cause => (msg ++ ": " ++ Error cause)%string
  | ErrRecordNotFound => "record not found"
  | ErrAPINotFound => "not found"
  | ResourceUnavailableError msg => msg
  | TerminalApplyError e => Error e
  | ErrOther msg => msg
  end.

(** [errors.As] walks the chain of wrapped errors. *)
Fixpoint IsResourceUnavailable (err : error) : bool :=
  match err with
  | ResourceUnavailableError _ => true
  | TerminalApplyError e => IsResourceUnavailable e
  | EWrapped _ _ cause | Errorf _ cause => IsResourceUnavailable cause
  | _ => false
  end.

Fixpoint IsTerminalApplyError (err : error) : bool :=
  match err with
  | TerminalApplyError _ => true
  | EWrapped _ _ cause | Errorf _ cause => IsTerminalApplyError cause
  | _ => false
  end.

(** [NewTerminalApplyError]: nil stays nil, a marked error is not wrapped
    twice. *)
Definition NewTerminalApplyError (err : option error) : option error :=
  match err with
  | None => None
  | Some e => if IsTerminalApplyError e then Some e else Some (TerminalApplyError e)
  end.

(** [IsNotFound] of the repositories. *)
Fixpoint IsNotFound (err : error) : bool :=
  match err with
  | ErrRecordNotFound => true
  | TerminalApplyError e => IsNotFound e
  | EWrapped _ _ cause | Errorf _ cause => IsNotFound cause
  | _ => false
  end.

(** [apierrors.IsNotFound] on what [Observe] returns. *)
Definition IsAPINotFound (err : error) : bool :=
  match err with ErrAPINotFound => true | _ => false end.

(** The code a business error carries: [errors.As] into [*E]. *)
Fixpoint As (err : error) : option Code :=
  match err with
  | E code _ | EWrapped code _ _ => Some code
  | Errorf _ e | TerminalApplyError e => As e
  | _ => None
  end.

(** ** JSON columns

    The bytes of a jsonb column: empty, not valid JSON ([json.Unmarshal]
    reports an error and leaves its target alone), or the encoding of a value.
    Encoding is canonical, so two columns hold the same bytes exactly when
    they are equal here. *)
Inductive json (A : Type) :=
| JEmpty
| JBad
| JVal (a : A).
Arguments JEmpty {A}.
Arguments JBad {A}.
Arguments JVal {A} a.

#[export] Instance json_eq_dec {A} `{EqDecision A} : EqDecision (json A).
Proof. solve_decision. Defined.

(** [var x T; _ = json.Unmarshal(raw, &x)] *)
Definition json_or {A} (zero : A) (raw : json A) : A :=
  match raw with JVal a => a | _ => zero end.

(** [if err := json.Unmarshal(raw, &x); err != nil { return err }] *)
Definition unmarshal {A} (raw : json A) : A + error :=
  match raw with
  | JVal a => inl a
  | JEmpty => inr (ErrOther "unexpected end of JSON input")
  | JBad => inr (ErrOther "invalid JSON")
  end.

(** [if len(raw) > 0 { if err := json.Unmarshal ... }] *)
Definition unmarshal_nonempty {A} (zero : A) (raw : json A) : A + error :=
  match raw with JEmpty => inl zero | _ => unmarshal raw end.

(** Marking an error terminal is idempotent and keeps both its text and the
    resource-unavailable marker underneath. *)
Lemma NewTerminalApplyError_idem err :
  NewTerminalApplyError (NewTerminalApplyError err) = NewTerminalApplyError err.
Proof.
  destruct err as [e|]; [|done]. simpl.
  destruct (IsTerminalApplyError e) eqn:He; simpl; [by rw He|done].
Qed.

(** ** API types

    The custom-resource contracts of [axisml-system/apis] that compute-service
    writes and reads.  Fields that hold Kubernetes structs the service never
    looks into are opaque JSON text. *)

Abbreviation RawJSON := string (only parsing).

(** ** Label and annotation keys *)

Definition LabelRunID : string := "compute.axisml.io/run-id".
Definition LabelServiceID : string := "compute.axisml.io/service-id".
Definition LabelServiceKind : string := "compute.axisml.io/service-kind".
Definition LabelTrafficPolicyID : string := "compute.axisml.io/traffic-policy-id".
Definition LabelTenant : string := "tenant.axisml.io/name".
Definition LabelQuota : string := "compute.axisml.io/quota".
Definition LabelResourcePool : string := "resource.axisml.io/pool".
Definition LabelResourceUnit : string := "resource.axisml.io/unit".
Definition AnnotationPriority : string := "scheduling.axisml.io/priority".

Definition ServiceKindService : string := "service".
Definition ServiceKindWorkspace : string := "workspace".
Definition ServiceKindTensorBoard : string := "tensorboard".

(** [tenantv1alpha1.ElasticQuotaName] *)
Definition ElasticQuotaName (tenantName poolName : string) : string :=
  ("axisml-" ++ tenantName ++ "-" ++ poolName)%string.

(** ** Shared pieces *)

(** [BackendSpec] of MLRun, [Backend] of MLService and MLTrafficPolicy. *)
Record BackendSpec := { be_Name : string; be_Engine : string; be_Config : option RawJSON }.

(** [SchedulingSpec] / [Scheduling] *)
Record SchedulingSpec := {
  sc_Quota : string;
  sc_PriorityClass : string;
  sc_NodeSelector : gmap string string;
  sc_Tolerations : list Toleration }.

(** [corev1.ResourceRequirements] *)
Record ResourceRequirements {Q : Type} := {
  rq_Requests : gmap string Q; rq_Limits : gmap string Q }.
Arguments ResourceRequirements : clear implicits.

(** [configapi.ConfigMap] *)
Record ConfigMap := { cm_Name : string; cm_Data : gmap string string }.

(** [PodTemplateSubset] / [PodTemplate] *)
Record PodTemplate {Q : Type} := {
  pt_Image : string;
  pt_ImagePullPolicy : string;
  pt_Command : list string;
  pt_Args : list string;
  pt_Env : list RawJSON;
  pt_EnvFrom : list RawJSON;
  pt_WorkingDir : string;
  pt_Ports : list RawJSON;
  pt_Resources : ResourceRequirements Q;
  pt_Volumes : list RawJSON;
  pt_VolumeMounts : list RawJSON }.
Arguments PodTemplate : clear implicits.

(** [RoleSpec] of both workload kinds ([RestartPolicy] is MLRun's). *)
Record RoleSpec {Q : Type} := {
  ro_Name : string;
  ro_Replicas : Z;
  ro_RestartPolicy : string;
  ro_Template : PodTemplate Q }.
Arguments RoleSpec : clear implicits.

(** [metav1.Condition], the fields that are read. *)
Record Condition := { co_Type : string; co_Status : string; co_Reason : string }.

(** [metav1.ObjectMeta] as far as rendering fills it. *)
Record ObjectMeta := {
  om_Name : string;
  om_Namespace : string;
  om_Labels : gmap string string;
  om_Annotations : gmap string string }.

(** ** MLRun *)

(** [MLRunPhase]; a status that was never written has no phase. *)
Inductive MLRunPhase :=
| MLRunPhaseUnset | MLRunPhasePending | MLRunPhaseRunning | MLRunPhaseSucceeded | MLRunPhaseFailed.

Record RunPolicySpec := {
  rp_Suspend : bool;
  rp_ActiveDeadlineSeconds : option Z;
  rp_TTLSecondsAfterFinished : option Z;
  rp_BackoffLimit : option Z }.

Definition RunPolicySpec_zero : RunPolicySpec :=
  {| rp_Suspend := false; rp_ActiveDeadlineSeconds := None;
     rp_TTLSecondsAfterFinished := None; rp_BackoffLimit := None |}.

Record MLRunSpec {Q : Type} := {
  rsp_Backend : BackendSpec;
  rsp_Scheduling : SchedulingSpec;
  rsp_ConfigMaps : list RawJSON;
  rsp_Roles : list (RoleSpec Q);
  rsp_RunPolicy : RunPolicySpec }.
Arguments MLRunSpec : clear implicits.

(** [MLRunStatus] of the CR, the fields compute-service reads. *)
Record MLRunCRStatus := {
  rcs_Phase : MLRunPhase;
  rcs_Message : string;
  rcs_StartedAt : option Z;
  rcs_FinishedAt : option Z;
  rcs_Conditions : list Condition }.

Definition ConditionSuspended : string := "Suspended".
Definition ReasonCancelRequested : string := "CancelRequested".

Record MLRunCR {Q : Type} := { rcr_Meta : ObjectMeta; rcr_Spec : MLRunSpec Q }.
Arguments MLRunCR : clear implicits.

(** ** MLService *)

(** [Phase] of MLService and MLTrafficPolicy. *)
Inductive Phase := PhaseUnset | PhasePending | PhaseReady | PhaseDegraded | PhaseFailed.

#[export] Instance Phase_eq_dec : EqDecision Phase.
Proof. solve_decision. Defined.

Record MLServiceSpec {Q : Type} := {
  ssp_Backend : BackendSpec;
  ssp_Scheduling : SchedulingSpec;
  ssp_ConfigMaps : list RawJSON;
  ssp_Roles : list (RoleSpec Q);
  ssp_ProgressDeadlineSeconds : option Z;
  ssp_Route : option RawJSON }.
Arguments MLServiceSpec : clear implicits.

Record MLServiceCRStatus := {
  scs_Phase : Phase;
  scs_Message : string;
  scs_Endpoint : string;
  scs_ReadyReplicas : Z }.

Record MLServiceCR {Q : Type} := { scr_Meta : ObjectMeta; scr_Spec : MLServiceSpec Q }.
Arguments MLServiceCR : clear implicits.

(** ** MLTrafficPolicy *)

Definition TrafficModeWeighted : string := "weighted".
Definition TrafficModeCanary : string := "canary".
Definition TrafficModeBlueGreen : string := "bluegreen".

Definition RoleStable : string := "stable".
Definition RoleCanary : string := "canary".

Definition BackendKindNative : string := "native".
Definition BackendKindKServe : string := "kserve".
Definition EngineHTTPRoute : string := "httproute".
Definition EngineInference : string := "inference".
Definition EndpointAuthJWT : string := "jwt".

Record EndpointAuth := { ea_Type : string; ea_JWT : option RawJSON }.

Record Endpoint := {
  ep_Path : string; ep_Hostname : string; ep_Auth : option EndpointAuth }.

Record BackendMember := { bm_ServiceName : string; bm_Role : string; bm_Weight : Z }.

#[export] Instance BackendMember_eq_dec : EqDecision BackendMember.
Proof. solve_decision. Defined.

Record MLTrafficPolicySpec := {
  tsp_Backend : BackendSpec;
  tsp_Mode : string;
  tsp_Endpoint : Endpoint;
  tsp_Backends : list BackendMember }.

Record BackendStatus := { bs_ServiceName : string; bs_Weight : Z; bs_Ready : bool }.

#[export] Instance BackendStatus_eq_dec : EqDecision BackendStatus.
Proof. solve_decision. Defined.

Record MLTrafficPolicyCRStatus := {
  tcs_Phase : Phase;
  tcs_Message : string;
  tcs_Endpoint : string;
  tcs_Backends : list BackendStatus }.

Record MLTrafficPolicyCR := { tcr_Meta : ObjectMeta; tcr_Spec : MLTrafficPolicySpec }.

(** ** ResourcePool *)

Record ResourceUnit {Q : Type} := {
  ru_Name : string;
  ru_Requests : gmap string Q;
  ru_Limits : gmap string Q;
  ru_NodeSelector : gmap string string;
  ru_Annotations : gmap string string }.
Arguments ResourceUnit : clear implicits.

Record ResourcePool {Q : Type} := {
  po_Name : string;
  po_NodeSelector : gmap string string;
  po_Capacity : gmap string Q;
  po_Units : list (ResourceUnit Q) }.
Arguments ResourcePool : clear implicits.
