(* ===== verification/Store.v ===== *)
(** * The PostgreSQL store

    The three tables of [internal/store/store.go] as lists of rows, the
    status sub-documents of [internal/server/*_dto.go], and the few SQL
    shapes the repositories use: WHERE as a boolean filter, ORDER BY as a
    stable sort, [Updates] as column assignments that also stamp
    [updated_at].  Timestamps are nanoseconds; ids are UUID text. *)

From Stdlib Require Import ssreflect ZArith Lia.
From stdpp Require Import base gmap list strings.
From S2P Require Import Prelude Placement ApiTypes.

(** ** Phases *)

(** [mlrun.Status] *)
Inductive run_phase :=
| RunQueued | RunCreating | RunPending | RunRunning | RunSucceeded | RunFailed
| RunCanceling | RunCancelled | RunDeleting | RunDeleted.

#[export] Instance run_phase_eq_dec : EqDecision run_phase.
Proof. solve_decision. Defined.

(** [mlrun.IsTerminal] *)
Definition IsTerminal (s : run_phase) : bool :=
  match s with RunSucceeded | RunFailed | RunCancelled | RunDeleted => true | _ => false end.

(** [mlservice.Status]; [trafficpolicy.Status] is the same set without
    [Queued]. *)
Inductive svc_phase :=
| SvcQueued | SvcCreating | SvcPending | SvcReady | SvcDegraded | SvcFailed
| SvcDeleting | SvcDeleted.

#[export] Instance svc_phase_eq_dec : EqDecision svc_phase.
Proof. solve_decision. Defined.

(** ** Status documents *)

(** [server.MLRunStatus] *)
Record MLRunStatus := {
  rst_Message : string;
  rst_QueueReason : string;
  rst_StartedAt : option Z;
  rst_FinishedAt : option Z }.

#[export] Instance MLRunStatus_eq_dec : EqDecision MLRunStatus.
Proof. solve_decision. Defined.

Definition MLRunStatus_zero : MLRunStatus :=
  {| rst_Message := ""; rst_QueueReason := ""; rst_StartedAt := None; rst_FinishedAt := None |}.

(** [server.MLServiceStatus] *)
Record MLServiceStatus := {
  sst_Message : string;
  sst_AdmissionReason : string;
  sst_AdmissionMessage : string;
  sst_AdmittedReplicas : Z;
  sst_ReadyReplicas : Z;
  sst_Endpoint : string }.

#[export] Instance MLServiceStatus_eq_dec : EqDecision MLServiceStatus.
Proof. solve_decision. Defined.

Definition MLServiceStatus_zero : MLServiceStatus :=
  {| sst_Message := ""; sst_AdmissionReason := ""; sst_AdmissionMessage := "";
     sst_AdmittedReplicas := 0; sst_ReadyReplicas := 0; sst_Endpoint := "" |}.

(** [server.TrafficPolicyStatus] *)
Record TrafficPolicyStatus := {
  tst_Message : string;
  tst_Endpoint : string;
  tst_Backends : list BackendStatus }.

#[export] Instance TrafficPolicyStatus_eq_dec : EqDecision TrafficPolicyStatus.
Proof. solve_decision. Defined.

Definition TrafficPolicyStatus_zero : TrafficPolicyStatus :=
  {| tst_Message := ""; tst_Endpoint := ""; tst_Backends := [] |}.

(** ** Rows *)

(** [store.MLRun] *)
Record MLRun {Q : Type} := {
  mr_ID : string;
  mr_Namespace : string;
  mr_Name : string;
  mr_DisplayName : string;
  mr_Description : string;
  mr_Owner : string;
  mr_Labels : json (gmap string string);
  mr_Annotations : json (gmap string string);
  mr_Spec : json (MLRunSpec Q);
  mr_Priority : Z;
  mr_Phase : run_phase;
  mr_StatusJSON : json MLRunStatus;
  mr_ScheduledAt : option Z;
  mr_CreatedAt : Z;
  mr_UpdatedAt : Z;
  mr_DeletedAt : option Z }.
Arguments MLRun : clear implicits.

(** [store.MLService] *)
Record MLService {Q : Type} := {
  ms_ID : string;
  ms_Namespace : string;
  ms_Kind : string;
  ms_Name : string;
  ms_DisplayName : string;
  ms_Description : string;
  ms_Owner : string;
  ms_Labels : json (gmap string string);
  ms_Annotations : json (gmap string string);
  ms_Spec : json (MLServiceSpec Q);
  ms_AdmittedReplicas : json (list Z);
  ms_DispatchedReplicas : json (list Z);
  ms_Generation : Z;
  ms_ObservedGeneration : Z;
  ms_Phase : svc_phase;
  ms_StatusJSON : json MLServiceStatus;
  ms_CreatedAt : Z;
  ms_UpdatedAt : Z;
  ms_DeletedAt : option Z }.
Arguments MLService : clear implicits.

(** [store.TrafficPolicy] *)
Record TrafficPolicy := {
  tp_ID : string;
  tp_Namespace : string;
  tp_Name : string;
  tp_Mode : string;
  tp_DisplayName : string;
  tp_Description : string;
  tp_Owner : string;
  tp_Labels : json (gmap string string);
  tp_Annotations : json (gmap string string);
  tp_Spec : json MLTrafficPolicySpec;
  tp_Generation : Z;
  tp_ObservedGeneration : Z;
  tp_Phase : svc_phase;
  tp_StatusJSON : json TrafficPolicyStatus;
  tp_CreatedAt : Z;
  tp_UpdatedAt : Z;
  tp_DeletedAt : option Z }.

Record DB {Q : Type} := {
  db_runs : list (MLRun Q);
  db_services : list (MLService Q);
  db_policies : list TrafficPolicy }.
Arguments DB : clear implicits.

Definition set_runs {Q} (db : DB Q) (rows : list (MLRun Q)) : DB Q :=
  {| db_runs := rows; db_services := db_services db; db_policies := db_policies db |}.

Definition set_services {Q} (db : DB Q) (rows : list (MLService Q)) : DB Q :=
  {| db_runs := db_runs db; db_services := rows; db_policies := db_policies db |}.

Definition set_policies {Q} (db : DB Q) (rows : list TrafficPolicy) : DB Q :=
  {| db_runs := db_runs db; db_services := db_services db; db_policies := rows |}.

(** ** Column updates: the [map[string]any] of gorm's [Updates] *)

Inductive run_col :=
| RPhase (p : run_phase)
| RStatus (s : json MLRunStatus)
| RScheduledAt (t : option Z)
| RDeletedAt (t : option Z)
| RUpdatedAt (t : Z)
| RDisplayName (s : string)
| RDescription (s : string)
| RLabels (m : json (gmap string string))
| RAnnotations (m : json (gmap string string)).

Inductive svc_col {Q : Type} :=
| SPhase (p : svc_phase)
| SStatus (s : json MLServiceStatus)
| SSpec (s : json (MLServiceSpec Q))
| SAdmitted (v : json (list Z))
| SDispatched (v : json (list Z))
| SGenerationInc
| SObservedGeneration (g : Z)
| SDeletedAt (t : option Z)
| SDisplayName (s : string)
| SDescription (s : string)
| SLabels (m : json (gmap string string))
| SAnnotations (m : json (gmap string string)).
Arguments svc_col : clear implicits.

Inductive pol_col :=
| TPhase (p : svc_phase)
| TStatus (s : json TrafficPolicyStatus)
| TSpec (s : json MLTrafficPolicySpec)
| TGenerationInc
| TObservedGeneration (g : Z)
| TDeletedAt (t : option Z)
| TDisplayName (s : string)
| TDescription (s : string)
| TLabels (m : json (gmap string string))
| TAnnotations (m : json (gmap string string)).

Section Columns.
Context {Q : Type}.

Definition set_run_col (r : MLRun Q) (c : run_col) : MLRun Q :=
  {| mr_ID := mr_ID r; mr_Namespace := mr_Namespace r; mr_Name := mr_Name r;
     mr_DisplayName := match c with RDisplayName s => s | _ => mr_DisplayName r end;
     mr_Description := match c with RDescription s => s | _ => mr_Description r end;
     mr_Owner := mr_Owner r;
     mr_Labels := match c with RLabels m => m | _ => mr_Labels r end;
     mr_Annotations := match c with RAnnotations m => m | _ => mr_Annotations r end;
     mr_Spec := mr_Spec r; mr_Priority := mr_Priority r;
     mr_Phase := match c with RPhase p => p | _ => mr_Phase r end;
     mr_StatusJSON := match c with RStatus s => s | _ => mr_StatusJSON r end;
     mr_ScheduledAt := match c with RScheduledAt t => t | _ => mr_ScheduledAt r end;
     mr_CreatedAt := mr_CreatedAt r;
     mr_UpdatedAt := match c with RUpdatedAt t => t | _ => mr_UpdatedAt r end;
     mr_DeletedAt := match c with RDeletedAt t => t | _ => mr_DeletedAt r end |}.

(** [Updates(cols)] at time [now]. *)
Definition run_Updates (now : Z) (cols : list run_col) (r : MLRun Q) : MLRun Q :=
  foldl set_run_col (set_run_col r (RUpdatedAt now)) cols.

Definition touch_service (now : Z) (r : MLService Q) : MLService Q :=
  {| ms_ID := ms_ID r; ms_Namespace := ms_Namespace r; ms_Kind := ms_Kind r; ms_Name := ms_Name r;
     ms_DisplayName := ms_DisplayName r; ms_Description := ms_Description r;
     ms_Owner := ms_Owner r; ms_Labels := ms_Labels r; ms_Annotations := ms_Annotations r;
     ms_Spec := ms_Spec r; ms_AdmittedReplicas := ms_AdmittedReplicas r;
     ms_DispatchedReplicas := ms_DispatchedReplicas r; ms_Generation := ms_Generation r;
     ms_ObservedGeneration := ms_ObservedGeneration r; ms_Phase := ms_Phase r;
     ms_StatusJSON := ms_StatusJSON r; ms_CreatedAt := ms_CreatedAt r;
     ms_UpdatedAt := now; ms_DeletedAt := ms_DeletedAt r |}.

Definition set_svc_col (r : MLService Q) (c : svc_col Q) : MLService Q :=
  {| ms_ID := ms_ID r; ms_Namespace := ms_Namespace r; ms_Kind := ms_Kind r; ms_Name := ms_Name r;
     ms_DisplayName := match c with SDisplayName s => s | _ => ms_DisplayName r end;
     ms_Description := match c with SDescription s => s | _ => ms_Description r end;
     ms_Owner := ms_Owner r;
     ms_Labels := match c with SLabels m => m | _ => ms_Labels r end;
     ms_Annotations := match c with SAnnotations m => m | _ => ms_Annotations r end;
     ms_Spec := match c with SSpec s => s | _ => ms_Spec r end;
     ms_AdmittedReplicas := match c with SAdmitted v => v | _ => ms_AdmittedReplicas r end;
     ms_DispatchedReplicas := match c with SDispatched v => v | _ => ms_DispatchedReplicas r end;
     ms_Generation := match c with SGenerationInc => (ms_Generation r + 1)%Z | _ => ms_Generation r end;
     ms_ObservedGeneration := match c with SObservedGeneration g => g | _ => ms_ObservedGeneration r end;
     ms_Phase := match c with SPhase p => p | _ => ms_Phase r end;
     ms_StatusJSON := match c with SStatus s => s | _ => ms_StatusJSON r end;
     ms_CreatedAt := ms_CreatedAt r; ms_UpdatedAt := ms_UpdatedAt r;
     ms_DeletedAt := match c with SDeletedAt t => t | _ => ms_DeletedAt r end |}.

Definition svc_Updates (now : Z) (cols : list (svc_col Q)) (r : MLService Q) : MLService Q :=
  foldl set_svc_col (touch_service now r) cols.
End Columns.

Definition touch_policy (now : Z) (r : TrafficPolicy) : TrafficPolicy :=
  {| tp_ID := tp_ID r; tp_Namespace := tp_Namespace r; tp_Name := tp_Name r; tp_Mode := tp_Mode r;
     tp_DisplayName := tp_DisplayName r; tp_Description := tp_Description r;
     tp_Owner := tp_Owner r; tp_Labels := tp_Labels r; tp_Annotations := tp_Annotations r;
     tp_Spec := tp_Spec r; tp_Generation := tp_Generation r;
     tp_ObservedGeneration := tp_ObservedGeneration r; tp_Phase := tp_Phase r;
     tp_StatusJSON := tp_StatusJSON r; tp_CreatedAt := tp_CreatedAt r;
     tp_UpdatedAt := now; tp_DeletedAt := tp_DeletedAt r |}.

Definition set_pol_col (r : TrafficPolicy) (c : pol_col) : TrafficPolicy :=
  {| tp_ID := tp_ID r; tp_Namespace := tp_Namespace r; tp_Name := tp_Name r; tp_Mode := tp_Mode r;
     tp_DisplayName := match c with TDisplayName s => s | _ => tp_DisplayName r end;
     tp_Description := match c with TDescription s => s | _ => tp_Description r end;
     tp_Owner := tp_Owner r;
     tp_Labels := match c with TLabels m => m | _ => tp_Labels r end;
     tp_Annotations := match c with TAnnotations m => m | _ => tp_Annotations r end;
     tp_Spec := match c with TSpec s => s | _ => tp_Spec r end;
     tp_Generation := match c with TGenerationInc => (tp_Generation r + 1)%Z | _ => tp_Generation r end;
     tp_ObservedGeneration := match c with TObservedGeneration g => g | _ => tp_ObservedGeneration r end;
     tp_Phase := match c with TPhase p => p | _ => tp_Phase r end;
     tp_StatusJSON := match c with TStatus s => s | _ => tp_StatusJSON r end;
     tp_CreatedAt := tp_CreatedAt r; tp_UpdatedAt := tp_UpdatedAt r;
     tp_DeletedAt := match c with TDeletedAt t => t | _ => tp_DeletedAt r end |}.

Definition pol_Updates (now : Z) (cols : list pol_col) (r : TrafficPolicy) : TrafficPolicy :=
  foldl set_pol_col (touch_policy now r) cols.

(** ** SQL shapes *)

(** UPDATE ... WHERE *)
Definition update_where {A} (p : A -> bool) (f : A -> A) (rows : list A) : list A :=
  map (fun r => if p r then f r else r) rows.

(** [result.RowsAffected] *)
Definition rows_affected {A} (p : A -> bool) (rows : list A) : nat := length (List.filter p rows).

Definition is_null {A} (o : option A) : bool := match o with None => true | Some _ => false end.

Section UpdateWhere.
Context {A : Type} (p : A -> bool) (f : A -> A).

Lemma elem_of_update_where rows x :
  x ∈ update_where p f rows <-> exists r, r ∈ rows /\ x = if p r then f r else r.
Proof.
  rw /update_where list_elem_of_In in_map_iff. setoid_rewrite list_elem_of_In. naive_solver.
Qed.

Lemma update_where_none rows :
  (forall r, r ∈ rows -> p r = false) -> update_where p f rows = rows.
Proof.
  intros H. rw /update_where -{2}(map_id rows). apply map_ext_in => r Hr.
  by rw H ?list_elem_of_In.
Qed.

Lemma length_update_where rows : length (update_where p f rows) = length rows.
Proof. apply length_map. Qed.

(** A key the update does not change keeps its column. *)
Lemma map_update_where {B} (key : A -> B) rows :
  (forall r, key (f r) = key r) -> map key (update_where p f rows) = map key rows.
Proof.
  intros H. rw /update_where map_map. apply map_ext => r. by destruct (p r).
Qed.

(** A relation every updated row satisfies holds between old and new table. *)
Lemma update_where_Forall2 (R : A -> A -> Prop) rows :
  Reflexive R -> (forall r, r ∈ rows -> p r = true -> R r (f r)) ->
  Forall2 R rows (update_where p f rows).
Proof.
  intros Hrefl. induction rows as [|r rows IH]; intros H; simpl; constructor.
  - destruct (p r) eqn:Hp; [apply H; [by left|done]|apply Hrefl].
  - apply IH => x Hx. apply H. by right.
Qed.
End UpdateWhere.
