(* ===== verification/ServiceAdmission.v ===== *)
(** * Replica vectors

    [internal/serviceadmission/replicas.go]: the vectors that carry desired,
    admitted and dispatched replicas of an MLService, indexed by the
    immutable order of [spec.roles]. *)

From Stdlib Require Import ssreflect ZArith Lia.
From stdpp Require Import base gmap list strings.
From S2P Require Import Prelude Placement ApiTypes.

(** [v[i]] *)
Definition vget (v : list Z) (i : nat) : Z := default 0%Z (v !! i).

Definition clip (n : Z) : Z := if (0 <? n)%Z then n else 0%Z.

(** [Desired] *)
Definition Desired {Q} (spec : MLServiceSpec Q) : list Z :=
  map (fun role => clip (ro_Replicas role)) (ssp_Roles spec).

(** [Zero] *)
Definition Zero {Q} (spec : MLServiceSpec Q) : list Z := replicate (length (ssp_Roles spec)) 0%Z.

(** [Decode]: only a missing column falls back, a stored [[]] is zero. *)
Definition Decode (raw : json (list Z)) (roleCount : nat) (fallback : list Z) : list Z :=
  let decoded := match raw with JEmpty => fallback | JBad => [] | JVal v => v end in
  map (fun i => clip (vget decoded i)) (seq 0 roleCount).

(** [Encode] *)
Definition Encode (replicas : list Z) : json (list Z) := JVal replicas.

(** [Equal] *)
Definition Equal (a b : list Z) : bool := bool_decide (a = b).

(** [Primary] *)
Definition Primary (replicas : list Z) : Z := vget replicas 0.

(** [ClampToDesired] *)
Definition ClampToDesired (admitted desired : list Z) : list Z :=
  imap (fun i d => if (bool_decide (i < length admitted)) && (vget admitted i <? d)%Z
                   then vget admitted i else d) desired.

(** [Next]: the vector after the next atomic step and the roles it grew. *)
Definition Next (admitted desired : list Z) : list Z * list nat :=
  let next := admitted ++ replicate (length desired - length admitted) 0%Z in
  if negb (existsb (fun n => 0 <? n)%Z admitted) then
    let increased := List.filter (fun i => 0 <? vget desired i)%Z (seq 0 (length desired)) in
    (foldl (fun v i => <[i := 1%Z]> v) next increased, increased)
  else
    match List.find (fun i => vget next i <? vget desired i)%Z (seq 0 (length desired)) with
    | Some i => (<[i := (vget next i + 1)%Z]> next, [i])
    | None => (next, [])
    end.

Definition set_replicas {Q} (r : RoleSpec Q) (n : Z) : RoleSpec Q :=
  {| ro_Name := ro_Name r; ro_Replicas := n; ro_RestartPolicy := ro_RestartPolicy r;
     ro_Template := ro_Template r |}.

Definition set_roles {Q} (s : MLServiceSpec Q) (roles : list (RoleSpec Q)) : MLServiceSpec Q :=
  {| ssp_Backend := ssp_Backend s; ssp_Scheduling := ssp_Scheduling s;
     ssp_ConfigMaps := ssp_ConfigMaps s; ssp_Roles := roles;
     ssp_ProgressDeadlineSeconds := ssp_ProgressDeadlineSeconds s; ssp_Route := ssp_Route s |}.

(** [Apply] *)
Definition Apply {Q} (spec : MLServiceSpec Q) (admitted : list Z) : MLServiceSpec Q :=
  set_roles spec (imap (fun i r => set_replicas r (clip (vget admitted i))) (ssp_Roles spec)).

(** ** Vectors *)

Definition nonneg (v : list Z) : Prop := forall i, (0 <= vget v i)%Z.

(** Pointwise order. *)
Definition vle (a b : list Z) : Prop := forall i, (vget a i <= vget b i)%Z.

(** Replicas still missing: the measure of the admission loop. *)
Definition gap (admitted desired : list Z) : nat :=
  foldr (fun i acc => Z.to_nat (vget desired i - vget admitted i) + acc) 0 (seq 0 (length desired)).

Lemma clip_nonneg n : (0 <= clip n)%Z.
Proof. rw /clip. case_match; unbool; lia. Qed.

Lemma clip_id n : (0 <= n)%Z -> clip n = n.
Proof. rw /clip. case_match; unbool; lia. Qed.

Lemma vget_ge v i : length v <= i -> vget v i = 0%Z.
Proof. intros. by rw /vget lookup_ge_None_2. Qed.

Lemma vget_insert v i j x :
  i < length v -> vget (<[i := x]> v) j = if decide (i = j) then x else vget v j.
Proof.
  intros. rw /vget. case_decide; subst; [by rw list_lookup_insert_eq|by rw list_lookup_insert_ne].
Qed.

Lemma vget_app_zeros v k i : vget (v ++ replicate k 0%Z) i = vget v i.
Proof.
  rw /vget. destruct (decide (i < length v)); [by rw lookup_app_l|].
  rw lookup_app_r; [lia|]. rw (lookup_ge_None_2 v); [lia|]. simpl.
  destruct (replicate k 0%Z !! (i - length v)) eqn:E; [|done].
  by apply lookup_replicate in E as [-> _].
Qed.

Lemma vget_ext a b : length a = length b -> (forall i, vget a i = vget b i) -> a = b.
Proof.
  intros Hl H. apply list_eq => i. specialize (H i). move: H. rw /vget.
  destruct (a !! i) eqn:Ha, (b !! i) eqn:Hb; simpl; try congruence.
  - apply lookup_lt_Some in Ha. apply lookup_ge_None in Hb. lia.
  - apply lookup_lt_Some in Hb. apply lookup_ge_None in Ha. lia.
Qed.

Lemma length_Desired {Q} (spec : MLServiceSpec Q) : length (Desired spec) = length (ssp_Roles spec).
Proof. apply length_map. Qed.

Lemma length_Decode raw n fb : length (Decode raw n fb) = n.
Proof. by rw /Decode length_map length_seq. Qed.

Lemma length_ClampToDesired a d : length (ClampToDesired a d) = length d.
Proof. apply length_imap. Qed.

Lemma vget_map_seq (f : nat -> Z) n i :
  vget (map f (seq 0 n)) i = if decide (i < n) then f i else 0%Z.
Proof.
  rw /vget list_lookup_fmap. case_decide.
  - by rw lookup_seq_lt.
  - by rw lookup_seq_ge; [lia|].
Qed.

Lemma nonneg_Desired {Q} (spec : MLServiceSpec Q) : nonneg (Desired spec).
Proof.
  intros i. rw /vget /Desired list_lookup_fmap.
  destruct (ssp_Roles spec !! i); simpl; [apply clip_nonneg|lia].
Qed.

Lemma nonneg_Decode raw n fb : nonneg (Decode raw n fb).
Proof. intros i. rw vget_map_seq. case_decide; [apply clip_nonneg|lia]. Qed.

#[export] Hint Resolve nonneg_Desired nonneg_Decode length_Desired length_Decode : axisml.

Lemma Equal_spec a b : Equal a b = true <-> a = b.
Proof. apply bool_decide_eq_true. Qed.

(** A normalised vector survives persistence. *)
Theorem Encode_Decode v fb : nonneg v -> Decode (Encode v) (length v) fb = v.
Proof.
  intros Hv. apply vget_ext; [apply length_Decode|]. intros i.
  rw /Decode /Encode vget_map_seq. case_decide; [by apply clip_id|by rw vget_ge; [lia|]].
Qed.

Lemma vget_ClampToDesired a d i :
  length a = length d -> vget (ClampToDesired a d) i = Z.min (vget a i) (vget d i).
Proof.
  intros Hl. rw /ClampToDesired {1}/vget list_lookup_imap.
  destruct (d !! i) as [x|] eqn:Hx; simpl.
  - assert (vget d i = x) as -> by by rw /vget Hx.
    apply lookup_lt_Some in Hx. rw bool_decide_true; [lia|]. simpl.
    case_match; unbool; lia.
  - apply lookup_ge_None in Hx. rw !vget_ge; lia.
Qed.

(** Clamping releases exactly what exceeds the desired vector. *)
Lemma ClampToDesired_le a d : length a = length d -> vle (ClampToDesired a d) d.
Proof. intros Hl i. rw vget_ClampToDesired //. lia. Qed.

Lemma nonneg_ClampToDesired a d :
  length a = length d -> nonneg a -> nonneg d -> nonneg (ClampToDesired a d).
Proof. intros Hl Ha Hd i. rw vget_ClampToDesired //. specialize (Ha i). specialize (Hd i). lia. Qed.

(** ** The admission step *)

Lemma foldl_insert_ones v l j :
  (forall i, i ∈ l -> i < length v) ->
  length (foldl (fun v i => <[i := 1%Z]> v) v l) = length v /\
  vget (foldl (fun v i => <[i := 1%Z]> v) v l) j = if decide (j ∈ l) then 1%Z else vget v j.
Proof.
  revert v. induction l as [|x l IH]; intros v Hl.
  { split; [done|]. case_decide as Hj; [by apply elem_of_nil in Hj|done]. }
  simpl foldl. destruct (IH (<[x := 1%Z]> v)) as [Hlen ->].
  { intros i Hi. rw length_insert. apply Hl. by right. }
  split; [by rw Hlen length_insert|].
  rw vget_insert; [apply Hl; by left|].
  destruct (decide (j ∈ l)) as [Hj|Hj].
  - rw decide_True //. by right.
  - destruct (decide (x = j)) as [->|]; [rw decide_True //; by left|].
    rw decide_False //. intros [->|]%elem_of_cons; done.
Qed.

(** The step grows each role it reports by one, from below the desired count,
    and reports none only when nothing is missing. *)
Record next_step (admitted desired next : list Z) (increased : list nat) : Prop := {
  ns_length : length next = length desired;
  ns_value i : vget next i = (vget admitted i + if decide (i ∈ increased) then 1 else 0)%Z;
  ns_below i : i ∈ increased -> i < length desired /\ (vget admitted i < vget desired i)%Z;
  ns_done : increased = [] -> vle desired admitted }.

Lemma Next_spec admitted desired next increased :
  length admitted = length desired -> nonneg admitted ->
  Next admitted desired = (next, increased) -> next_step admitted desired next increased.
Proof.
  intros Hl Hnn. rw /Next Hl Nat.sub_diag /= app_nil_r.
  destruct (existsb (fun n => 0 <? n)%Z admitted) eqn:Hany; simpl.
  - destruct (List.find _ _) as [i|] eqn:Hf; intros [= <- <-].
    + apply List.find_some in Hf as [Hi%in_seq Hlt]. unbool.
      split; [by rw length_insert| | |done].
      * intros j. rw vget_insert; [lia|].
        destruct (decide (i = j)) as [->|Hne]; [rw decide_True; [by left|lia]|].
        rw decide_False; [|lia]. intros ->%list_elem_of_singleton; done.
      * intros j ->%list_elem_of_singleton. split; [lia|done].
    + split; [done| | |].
      * intros j. case_decide as Hj; [by apply elem_of_nil in Hj|lia].
      * by intros j ?%elem_of_nil.
      * intros _ j. destruct (decide (j < length desired)); [|rw !vget_ge; lia].
        eapply List.find_none in Hf; [|apply in_seq; split; [apply Nat.le_0_l|done]].
        simpl in Hf. unbool. lia.
  - assert (Hzero : forall i, vget admitted i = 0%Z).
    { intros i. specialize (Hnn i). rw /vget in Hnn |- *.
      destruct (admitted !! i) as [n|] eqn:Hn; [|done]. simpl in *.
      destruct (decide (n = 0%Z)) as [|]; [done|]. exfalso.
      apply not_true_iff_false in Hany. apply Hany, existsb_exists. exists n. split; [|lia].
      by eapply list_elem_of_In, list_elem_of_lookup_2. }
    intros [= <- <-].
    set (inc := List.filter _ _).
    assert (Hinc : forall i, i ∈ inc <-> i < length desired /\ (0 < vget desired i)%Z).
    { intros i. rw /inc list_elem_of_In filter_In in_seq Z.ltb_lt. lia. }
    split.
    + destruct (foldl_insert_ones admitted inc 0) as [-> _]; [|done].
      intros i [? _]%Hinc. lia.
    + intros j. destruct (foldl_insert_ones admitted inc j) as [_ ->].
      { intros i [? _]%Hinc. lia. }
      rw Hzero. case_decide; lia.
    + intros i [? ?]%Hinc. rw Hzero. lia.
    + intros Hnil j. rw Hzero. destruct (decide (0 < vget desired j)%Z) as [Hp|]; [|lia].
      destruct (decide (j < length desired)); [|rw vget_ge in Hp; lia].
      assert (j ∈ inc) as Hj by by apply Hinc. rw Hnil in Hj. by apply elem_of_nil in Hj.
Qed.

(** Every step closes part of the gap, so the loop of [admitServicesLocked]
    ends. *)
Lemma gap_decreases admitted desired next increased :
  next_step admitted desired next increased -> increased <> [] ->
  (gap next desired < gap admitted desired)%nat.
Proof.
  intros Hs Hne.
  assert (Hle : forall l, (foldr (fun i acc => Z.to_nat (vget desired i - vget next i) + acc) 0 l <=
                    foldr (fun i acc => Z.to_nat (vget desired i - vget admitted i) + acc) 0 l)%nat).
  { induction l as [|x l IH]; simpl; [done|]. rw (ns_value _ _ _ _ Hs). case_decide; lia. }
  destruct increased as [|i inc]; [done|].
  assert (Hi : i ∈ i :: inc) by by left.
  pose proof (ns_below _ _ _ _ Hs i Hi) as [Hr Hb].
  assert (Hin : In i (seq 0 (length desired))) by (apply in_seq; lia).
  apply in_split in Hin as (l1 & l2 & Hsplit). rw /gap Hsplit !foldr_app /=.
  assert (Hmono : forall l (a b : nat), a < b ->
    (foldr (fun i acc => Z.to_nat (vget desired i - vget next i) + acc) a l <
     foldr (fun i acc => Z.to_nat (vget desired i - vget admitted i) + acc) b l)%nat).
  { induction l as [|x l IH]; simpl; intros a b Hab; [done|]. specialize (IH a b Hab).
    rw (ns_value _ _ _ _ Hs). case_decide; lia. }
  apply Hmono. specialize (Hle l2). rw (ns_value _ _ _ _ Hs) decide_True //. lia.
Qed.

Lemma Next_nodup admitted desired next increased :
  Next admitted desired = (next, increased) -> NoDup increased.
Proof.
  rw /Next. destruct (negb _).
  - intros [= _ <-]. apply NoDup_ListNoDup, List.NoDup_filter, seq_NoDup.
  - destruct (List.find _ _); intros [= _ <-]; [apply NoDup_singleton|constructor].
Qed.

Lemma next_step_nonneg admitted desired next increased :
  next_step admitted desired next increased -> nonneg admitted -> nonneg next.
Proof. intros Hs Hn i. rw (ns_value _ _ _ _ Hs). specialize (Hn i). case_decide; lia. Qed.

Lemma next_step_le admitted desired next increased :
  next_step admitted desired next increased -> vle admitted desired -> vle next desired.
Proof.
  intros Hs Hle i. rw (ns_value _ _ _ _ Hs). specialize (Hle i). case_decide as Hi; [|lia].
  destruct (ns_below _ _ _ _ Hs i Hi). lia.
Qed.

(** From nothing admitted, the first step takes one replica of every role
    that wants any: the minimum serving set. *)
Lemma Next_serving_set admitted desired next increased :
  (forall i, vget admitted i = 0%Z) -> Next admitted desired = (next, increased) ->
  forall i, i < length desired -> (0 < vget desired i)%Z -> i ∈ increased.
Proof.
  intros Hz. rw /Next. destruct (existsb _ admitted) eqn:Hany; simpl.
  - apply existsb_exists in Hany as (n & Hn & Hpos). unbool.
    apply list_elem_of_In, list_elem_of_lookup in Hn as (i & Hi). specialize (Hz i).
    rw /vget Hi /= in Hz. lia.
  - intros [= _ <-] i Hi Hd. apply list_elem_of_In, filter_In. split; [apply in_seq; lia|lia].
Qed.

(** ** Unblocked admission *)

(** Take up to [fuel] steps, as the admission loop does when quota and
    placement never refuse. *)
Fixpoint take_steps (fuel : nat) (admitted desired : list Z) : list Z :=
  match fuel with
  | O => admitted
  | S fuel' =>
      let '(next, increased) := Next admitted desired in
      match increased with [] => admitted | _ => take_steps fuel' next desired end
  end.

Lemma vle_antisym a b : length a = length b -> vle a b -> vle b a -> a = b.
Proof. intros Hl Hab Hba. apply vget_ext; [done|]. intros i. specialize (Hab i). specialize (Hba i). lia. Qed.

(** Admission steps reach the desired vector: from any reservation that is
    within the desired vector, after as many steps as there are replicas
    missing (fewer when one step grows several roles) the reservation is
    exactly the desired vector, and a first step taken from nothing reserves
    one replica of every role that wants any. *)
Theorem Next_reaches_desired admitted desired :
  length admitted = length desired -> nonneg admitted -> vle admitted desired ->
  take_steps (gap admitted desired) admitted desired = desired /\
  ((forall i, vget admitted i = 0%Z) ->
   forall i, i < length desired -> (0 < vget desired i)%Z -> vget (Next admitted desired).1 i = 1%Z).
Proof.
  intros Hl Hn Hle. split.
  - remember (gap admitted desired) as fuel eqn:Hfuel.
    assert (Hf : gap admitted desired <= fuel) by lia. clear Hfuel.
    revert admitted Hl Hn Hle Hf. induction fuel as [|fuel IH]; intros admitted Hl Hn Hle Hf; simpl.
    all: destruct (Next admitted desired) as [next increased] eqn:HN.
    all: pose proof (Next_spec _ _ _ _ Hl Hn HN) as Hs.
    + destruct increased as [|i inc]; [by apply vle_antisym, (ns_done _ _ _ _ Hs)|].
      pose proof (gap_decreases _ _ _ _ Hs ltac:(done)). lia.
    + destruct increased as [|i inc]; [by apply vle_antisym, (ns_done _ _ _ _ Hs)|].
      pose proof (gap_decreases _ _ _ _ Hs ltac:(done)).
      apply IH; [apply (ns_length _ _ _ _ Hs)|by eapply next_step_nonneg|by eapply next_step_le|lia].
  - intros Hz i Hi Hd. destruct (Next admitted desired) as [next increased] eqn:HN. simpl.
    rw (ns_value _ _ _ _ (Next_spec _ _ _ _ Hl Hn HN)) Hz decide_True //.
    by eapply Next_serving_set.
Qed.

Lemma Next_reaches_desired_witness :
  take_steps (gap [0%Z; 0%Z] [2%Z; 3%Z]) [0%Z; 0%Z] [2%Z; 3%Z] = [2%Z; 3%Z] /\
  vget (Next [0%Z; 0%Z] [2%Z; 3%Z]).1 1 = 1%Z.
Proof.
  assert (Hz : forall i, vget [0%Z; 0%Z] i = 0%Z) by (intros i; by destruct i as [|[|i]]).
  assert (Hd : vle [0%Z; 0%Z] [2%Z; 3%Z]) by (intros i; by destruct i as [|[|i]]; vm_compute).
  destruct (Next_reaches_desired [0%Z; 0%Z] [2%Z; 3%Z] eq_refl (fun i => Z.eq_le_incl _ _ (eq_sym (Hz i))) Hd)
    as [H1 H2].
  split; [exact H1|]. apply H2; [exact Hz|simpl; lia|done].
Defined.
