(* ===== verification/Admission.v ===== *)
(** * The admission controller

    [internal/admission/controller.go]: durable admission of MLService
    replicas and queued MLRuns against node inventory, pool budgets and
    tenant quotas.  [runOnce] reads inventory, quotas and pool capacities
    outside the transaction and runs [admitLocked] inside it; a decode error
    rolls the transaction back.  Connection-level database errors and metrics
    are left out. *)

From Stdlib Require Import ssreflect ZArith Lia.
From stdpp Require Import base gmap list strings.
From S2P Require Import Prelude Placement ApiTypes Store ServiceAdmission.

(** [quotaKey]: tenant and pool. *)
Abbreviation quotaKey := (string * string)%type.

(** [quotaResult]: the maximum, or the resolver's error. *)
Definition quotaResult (Q : Type) : Type := (gmap string Q + error)%type.

(** [poolFromLabels] *)
Definition poolFromLabels (raw : json (gmap string string)) : string :=
  map_get "" (json_or ∅ raw) LabelResourcePool.

(** ** Queries *)

Definition run_in (phases : list run_phase) {Q} (r : MLRun Q) : bool :=
  bool_decide (mr_Phase r ∈ phases).

Definition svc_in (phases : list svc_phase) {Q} (r : MLService Q) : bool :=
  bool_decide (ms_Phase r ∈ phases).

Definition activeRunPhases : list run_phase :=
  [RunCreating; RunPending; RunRunning; RunCanceling; RunDeleting].

Definition activeServicePhases : list svc_phase :=
  [SvcCreating; SvcPending; SvcReady; SvcDegraded; SvcFailed; SvcDeleting].

(** ORDER BY priority DESC, created_at ASC, id ASC *)
Definition queue_less {Q} (a b : MLRun Q) : bool :=
  if (mr_Priority b <? mr_Priority a)%Z then true
  else if (mr_Priority a <? mr_Priority b)%Z then false
  else if (mr_CreatedAt a <? mr_CreatedAt b)%Z then true
  else if (mr_CreatedAt b <? mr_CreatedAt a)%Z then false
  else str_lt (mr_ID a) (mr_ID b).

Definition is_queued {Q} (r : MLRun Q) : bool := run_in [RunQueued] r && is_null (mr_DeletedAt r).

Definition queuedRuns {Q} (db : DB Q) : list (MLRun Q) :=
  sort_slice queue_less (List.filter is_queued (db_runs db)).

(** ORDER BY created_at ASC, id ASC *)
Definition service_less {Q} (a b : MLService Q) : bool :=
  if (ms_CreatedAt a <? ms_CreatedAt b)%Z then true
  else if (ms_CreatedAt b <? ms_CreatedAt a)%Z then false
  else str_lt (ms_ID a) (ms_ID b).

Definition liveServices {Q} (db : DB Q) : list (MLService Q) :=
  sort_slice service_less
    (List.filter (fun r => negb (svc_in [SvcDeleting; SvcDeleted] r) && is_null (ms_DeletedAt r))
       (db_services db)).

(** ** Status documents *)

(** [statusWithQueue] *)
Definition statusWithQueue (raw : json MLRunStatus) (reason message : string) : json MLRunStatus :=
  let status := json_or MLRunStatus_zero raw in
  JVal {| rst_Message := message; rst_QueueReason := reason;
          rst_StartedAt := rst_StartedAt status; rst_FinishedAt := rst_FinishedAt status |}.

(** [serviceStatusWithAdmission] *)
Definition serviceStatusWithAdmission (raw : json MLServiceStatus) (reason message : string)
    : json MLServiceStatus :=
  let status := json_or MLServiceStatus_zero raw in
  JVal {| sst_Message := sst_Message status; sst_AdmissionReason := reason;
          sst_AdmissionMessage := message; sst_AdmittedReplicas := 0;
          sst_ReadyReplicas := sst_ReadyReplicas status; sst_Endpoint := sst_Endpoint status |}.

Section Admission.
Context {Q : Type} `{!Quantity Q}.

(** [setQueueReason] *)
Definition setQueueReason (now : Z) (run : MLRun Q) (reason message : string) (db : DB Q) : DB Q :=
  let next := statusWithQueue (mr_StatusJSON run) reason message in
  if decide (next = mr_StatusJSON run) then db
  else set_runs db (update_where
         (fun r => String.eqb (mr_ID r) (mr_ID run) && run_in [RunQueued] r)
         (run_Updates now [RStatus next]) (db_runs db)).

(** [setServiceAdmissionReason]: the row variable is updated along. *)
Definition setServiceAdmissionReason (now : Z) (service : MLService Q) (reason message : string)
    (db : DB Q) : DB Q * MLService Q :=
  let next := serviceStatusWithAdmission (ms_StatusJSON service) reason message in
  if decide (next = ms_StatusJSON service) then (db, service)
  else (set_services db (update_where
          (fun r => String.eqb (ms_ID r) (ms_ID service) && is_null (ms_DeletedAt r))
          (svc_Updates now [SStatus next]) (db_services db)),
        set_svc_col service (SStatus next)).

(** ** Workloads *)

Definition role_request (role : RoleSpec Q) (replicas : Z) : roleRequest Q :=
  {| rr_name := ro_Name role; rr_replicas := replicas;
     rr_requests := copyList (rq_Requests (pt_Resources (ro_Template role))) |}.

(** [runWorkload] *)
Definition runWorkload (row : MLRun Q) : desiredWorkload Q + error :=
  match unmarshal (mr_Spec row) with
  | inr e => inr e
  | inl spec =>
      inl {| dw_id := mr_ID row; dw_tenant := mr_Namespace row;
             dw_pool := poolFromLabels (mr_Labels row);
             dw_nodeSelector := sc_NodeSelector (rsp_Scheduling spec);
             dw_tolerations := sc_Tolerations (rsp_Scheduling spec);
             dw_roles := stableRoleOrder
               (map (fun role => role_request role (ro_Replicas role))
                  (List.filter (fun role => 0 <? ro_Replicas role)%Z (rsp_Roles spec)));
             dw_reserveMissing := negb (run_in [RunDeleting] row) |}
  end.

(** [serviceWorkloadFor] *)
Definition serviceWorkloadFor (row : MLService Q) (spec : MLServiceSpec Q) (replicas : list Z)
    : desiredWorkload Q :=
  {| dw_id := ms_ID row; dw_tenant := ms_Namespace row;
     dw_pool := poolFromLabels (ms_Labels row);
     dw_nodeSelector := sc_NodeSelector (ssp_Scheduling spec);
     dw_tolerations := sc_Tolerations (ssp_Scheduling spec);
     dw_roles := stableRoleOrder
       (concat (imap (fun i role => if (0 <? vget replicas i)%Z
                                    then [role_request role (vget replicas i)] else [])
                  (ssp_Roles spec)));
     dw_reserveMissing := negb (svc_in [SvcDeleting] row) |}.

(** [serviceWorkload] *)
Definition serviceWorkload (row : MLService Q) : desiredWorkload Q + error :=
  match unmarshal (ms_Spec row) with
  | inr e => inr e
  | inl spec =>
      inl (serviceWorkloadFor row spec
             (Decode (ms_AdmittedReplicas row) (length (ssp_Roles spec)) (Desired spec)))
  end.

(** ** Usage *)

Definition usage_get (usage : gmap quotaKey (gmap string Q)) (key : quotaKey) : gmap string Q :=
  default ∅ (usage !! key).

Definition add_usage (key : quotaKey) (requests : gmap string Q)
    (usage : gmap quotaKey (gmap string Q)) : gmap quotaKey (gmap string Q) :=
  <[key := sumLists (usage_get usage key) requests]> usage.

Definition dw_key (w : desiredWorkload Q) : quotaKey := (dw_tenant w, dw_pool w).

(** [actual[id][role]] *)
Definition actual_count (actual : gmap string (gmap string Z)) (id role : string) : Z :=
  map_get 0%Z (default ∅ (actual !! id)) role.

(** One runtime allocation: count it and charge its tenant. *)
Definition count_allocation (byID : gmap string (desiredWorkload Q))
    (st : gmap string (gmap string Z) * gmap quotaKey (gmap string Q))
    (allocation : ResourceAllocation Q)
    : gmap string (gmap string Z) * gmap quotaKey (gmap string Q) :=
  let '(actual, usage) := st in
  match actual !! ra_WorkloadID allocation, byID !! ra_WorkloadID allocation with
  | Some roles, Some w =>
      (<[ra_WorkloadID allocation :=
           <[ra_Role allocation := (map_get 0 roles (ra_Role allocation) + 1)%Z]> roles]> actual,
       add_usage (dw_key w) (ra_Requests allocation) usage)
  | _, _ => (actual, usage)
  end.

(** Admitted replicas that have not materialised yet. *)
Definition count_missing (actual : gmap string (gmap string Z))
    (usage : gmap quotaKey (gmap string Q)) (w : desiredWorkload Q)
    : gmap quotaKey (gmap string Q) :=
  if dw_reserveMissing w then
    foldl (fun usage role =>
      let missing := (rr_replicas role - actual_count actual (dw_id w) (rr_name role))%Z in
      Nat.iter (Z.to_nat missing) (add_usage (dw_key w) (rr_requests role)) usage)
      usage (dw_roles w)
  else usage.

(** The error loop that decodes a list of rows. *)
Fixpoint decode_rows {A} (f : A -> desiredWorkload Q + error) (rows : list A)
    : list (desiredWorkload Q) + error :=
  match rows with
  | [] => inl []
  | r :: rest =>
      match f r with
      | inr e => inr e
      | inl w => match decode_rows f rest with inr e => inr e | inl ws => inl (w :: ws) end
      end
  end.

(** [loadActive]: every workload that holds a reservation, the usage it
    amounts to per tenant and pool, and its running instances per role. *)
Definition loadActive (db : DB Q) (allocations : list (ResourceAllocation Q))
    : (list (desiredWorkload Q) * gmap quotaKey (gmap string Q) * gmap string (gmap string Z))
      + error :=
  match decode_rows runWorkload (List.filter (run_in activeRunPhases) (db_runs db)) with
  | inr e => inr e
  | inl ws1 =>
      match decode_rows serviceWorkload (List.filter (svc_in activeServicePhases) (db_services db)) with
      | inr e => inr e
      | inl ws2 =>
          let workloads := ws1 ++ ws2 in
          let actual0 := foldl (fun m w => <[dw_id w := (∅ : gmap string Z)]> m) ∅ workloads in
          let byID := foldl (fun m w => <[dw_id w := w]> m) ∅ workloads in
          let '(actual, usage) := foldl (count_allocation byID) (actual0, ∅) allocations in
          inl (workloads, foldl (count_missing actual) usage workloads, actual)
      end
  end.

(** ** One admission round *)

(** What the round threads: tables, remaining capacity, quota usage. *)
Record round := {
  rd_db : DB Q;
  rd_capacity : admissionState Q;
  rd_usage : gmap quotaKey (gmap string Q) }.

(** The reservation loop of [admitLocked] for one workload. *)
Fixpoint reserve_roles (actual : gmap string (gmap string Z)) (w : desiredWorkload Q)
    (roles : list (roleRequest Q)) (s : admissionState Q) : admissionState Q :=
  match roles with
  | [] => s
  | role :: rest =>
      let missing := (rr_replicas role - actual_count actual (dw_id w) (rr_name role))%Z in
      if (missing <=? 0)%Z then reserve_roles actual w rest s
      else
        let '(s', ok) := admissionState_reserveMissing (dw_pool w) (rr_requests role) missing
                           (dw_nodeSelector w) (dw_tolerations w) s in
        if ok then reserve_roles actual w rest s' else s'
  end.

Definition reserve_workload (actual : gmap string (gmap string Z)) (s : admissionState Q)
    (w : desiredWorkload Q) : admissionState Q :=
  if dw_reserveMissing w then reserve_roles actual w (dw_roles w) s else s.

(** Place the roles one after the other; stop at the first that does not
    fit. *)
Fixpoint place_roles (w : desiredWorkload Q) (roles : list (roleRequest Q)) (s : admissionState Q)
    : admissionState Q * (bool * string) :=
  match roles with
  | [] => (s, (true, ReasonInsufficientResources))
  | role :: rest =>
      let '(s', (placed, why)) :=
        admissionState_place (dw_pool w) (rr_requests role) (rr_replicas role)
          (dw_nodeSelector w) (dw_tolerations w) s in
      if placed then place_roles w rest s' else (s', (false, why))
  end.

Definition quota_message (q : option (quotaResult Q)) : string :=
  match q with Some (inr e) => Error e | _ => "tenant quota is not available" end.

Definition run_block_message (reason : string) : string :=
  if String.eqb reason ReasonNoMatchingNode then
    "no schedulable node matches the run's selector and tolerations"
  else if String.eqb reason ReasonResourcePoolUnavailable then
    "resource pool capacity is not available"
  else "no node has enough currently available resources".

Definition block_run (now : Z) (st : round) (run : MLRun Q) (reason message : string) : round :=
  {| rd_db := setQueueReason now run reason message (rd_db st);
     rd_capacity := rd_capacity st; rd_usage := rd_usage st |}.

(** The WHERE clause of the Queued to Creating update. *)
Definition still_queued (run r : MLRun Q) : bool := String.eqb (mr_ID r) (mr_ID run) && is_queued r.

(** The body of [admitLocked]'s loop over queued runs. *)
Definition admitRun (now : Z) (quotaResults : gmap quotaKey (quotaResult Q)) (st : round)
    (run : MLRun Q) : round + error :=
  match runWorkload run with
  | inr e => inr (Errorf ("decode queued MLRun " ++ mr_Namespace run ++ "/" ++ mr_Name run) e)
  | inl workload =>
      let key := (mr_Namespace run, dw_pool workload) in
      match quotaResults !! key with
      | Some (inl max) =>
          let requested := totalRequests (dw_roles workload) in
          if exceeds requested max then
            inl (block_run now st run ReasonQuotaExceeded "run request exceeds the tenant pool quota")
          else if exceeds (sumLists (usage_get (rd_usage st) key) requested) max then
            inl (block_run now st run ReasonQuotaUnavailable "tenant pool quota is currently in use")
          else
            let trial := admissionState_clone (rd_capacity st) in
            let '(trial', (placed, reason)) := place_roles workload (dw_roles workload) trial in
            if placed then
              let status := statusWithQueue (mr_StatusJSON run) "" "" in
              let db := rd_db st in
              let db' := set_runs db (update_where (still_queued run)
                           (run_Updates now [RPhase RunCreating; RStatus status]) (db_runs db)) in
              if Nat.eqb (rows_affected (still_queued run) (db_runs db)) 1 then
                inl {| rd_db := db'; rd_capacity := trial';
                       rd_usage := add_usage key requested (rd_usage st) |}
              else inl {| rd_db := db'; rd_capacity := rd_capacity st; rd_usage := rd_usage st |}
            else inl (block_run now st run reason (run_block_message reason))
      | q => inl (block_run now st run ReasonQuotaUnavailable (quota_message q))
      end
  end.

(** ** Services *)

Definition service_block_message (reason : string) : string :=
  if String.eqb reason ReasonNoMatchingNode then
    "no schedulable node matches the service selector and tolerations"
  else if String.eqb reason ReasonResourcePoolUnavailable then
    "resource pool capacity is not available"
  else "no node has enough currently available resources for the next service replica".

Definition block_service (now : Z) (st : round) (row : MLService Q) (reason message : string) : round :=
  {| rd_db := (setServiceAdmissionReason now row reason message (rd_db st)).1;
     rd_capacity := rd_capacity st; rd_usage := rd_usage st |}.

(** The roles of one step, one replica each. *)
Definition step_roles (spec : MLServiceSpec Q) (increased : list nat) : list (roleRequest Q) :=
  stableRoleOrder
    (concat (map (fun i => match ssp_Roles spec !! i with
                           | Some role => [role_request role 1]
                           | None => []
                           end) increased)).

Definition by_id (row r : MLService Q) : bool := String.eqb (ms_ID r) (ms_ID row).

(** The inner loop of [admitServicesLocked]: admit one step after the other
    until the desired vector is reached or a step is blocked.  [None] is a
    loop that is still running when the fuel ends. *)
Fixpoint admit_steps (fuel : nat) (now : Z) (max : gmap string Q) (spec : MLServiceSpec Q)
    (desired : list Z) (target : desiredWorkload Q) (key : quotaKey)
    (st : round) (row : MLService Q) (admitted : list Z) : option round :=
  match fuel with
  | O => None
  | S fuel' =>
      if Equal admitted desired then Some st
      else
        let '(next, increased) := Next admitted desired in
        if bool_decide (increased = []) then Some st
        else
          let delta := step_roles spec increased in
          let requested := totalRequests delta in
          if exceeds requested max || exceeds (sumLists (usage_get (rd_usage st) key) requested) max
          then
            if exceeds (totalRequests (dw_roles target)) max
            then Some (block_service now st row ReasonQuotaExceeded
                         "desired service replicas exceed the tenant pool quota")
            else Some (block_service now st row ReasonQuotaUnavailable
                         "tenant pool quota is currently in use")
          else
            let '(trial', (placed, reason)) :=
              place_roles target delta (admissionState_clone (rd_capacity st)) in
            if placed then
              let status := serviceStatusWithAdmission (ms_StatusJSON row) "" "" in
              let updates := [SAdmitted (Encode next); SStatus status] ++
                             (if svc_in [SvcQueued] row then [SPhase SvcCreating] else []) in
              let st' := {| rd_db := set_services (rd_db st)
                              (update_where (by_id row) (svc_Updates now updates)
                                 (db_services (rd_db st)));
                            rd_capacity := trial';
                            rd_usage := add_usage key requested (rd_usage st) |} in
              admit_steps fuel' now max spec desired target key st' (foldl set_svc_col row updates) next
            else Some (block_service now st row reason (service_block_message reason))
  end.

Definition ErrOutOfFuel : error := ErrOther "out of fuel".

(** The body of [admitServicesLocked]'s loop over service rows. *)
Definition admitService (now : Z) (quotaResults : gmap quotaKey (quotaResult Q)) (st : round)
    (row : MLService Q) : round + error :=
  match unmarshal (ms_Spec row) with
  | inr e => inr (Errorf ("decode MLService " ++ ms_Namespace row ++ "/" ++ ms_Name row) e)
  | inl spec =>
      let desired := Desired spec in
      let admitted := Decode (ms_AdmittedReplicas row) (length (ssp_Roles spec)) desired in
      if negb (svc_in [SvcQueued] row) && Equal admitted desired then inl st
      else if Equal admitted desired then
        let status := serviceStatusWithAdmission (ms_StatusJSON row) "" "" in
        inl {| rd_db := set_services (rd_db st)
                 (update_where (by_id row) (svc_Updates now [SPhase SvcCreating; SStatus status])
                    (db_services (rd_db st)));
               rd_capacity := rd_capacity st; rd_usage := rd_usage st |}
      else
        let key := (ms_Namespace row, poolFromLabels (ms_Labels row)) in
        match quotaResults !! key with
        | Some (inl max) =>
            match admit_steps (S (gap admitted desired)) now max spec desired
                    (serviceWorkloadFor row spec desired) key st row admitted with
            | Some st' => inl st'
            | None => inr ErrOutOfFuel
            end
        | q => inl (block_service now st row ReasonQuotaUnavailable (quota_message q))
        end
  end.

(** [admitServicesLocked] *)
Definition admitServicesLocked (now : Z) (quotaResults : gmap quotaKey (quotaResult Q)) (st : round)
    : round + error :=
  fold_err (admitService now quotaResults) st (liveServices (rd_db st)).

(** The state [admitLocked] starts its loops from. *)
Definition start_round (db : DB Q) (snapshot : ResourceSnapshot Q)
    (poolCapacities : gmap string (poolCapacityResult Q)) : round + error :=
  match loadActive db (rs_Allocations snapshot) with
  | inr e => inr e
  | inl (active, usage, actual) =>
      inl {| rd_db := db;
             rd_capacity := foldl (reserve_workload actual)
                              (newAdmissionState snapshot poolCapacities usage) active;
             rd_usage := usage |}
  end.

(** [admitLocked] *)
Definition admitLocked (now : Z) (db : DB Q) (snapshot : ResourceSnapshot Q)
    (quotaResults : gmap quotaKey (quotaResult Q))
    (poolCapacities : gmap string (poolCapacityResult Q)) : round + error :=
  match start_round db snapshot poolCapacities with
  | inr e => inr e
  | inl st =>
      match admitServicesLocked now quotaResults st with
      | inr e => inr e
      | inl st1 => fold_err (admitRun now quotaResults) st1 (queuedRuns (rd_db st1))
      end
  end.

(** ** The controller tick *)

(** [pendingServices]: live services that are queued or not fully admitted. *)
Fixpoint pending_rows (rows : list (MLService Q)) : list (MLService Q) + error :=
  match rows with
  | [] => inl []
  | row :: rest =>
      match unmarshal (ms_Spec row) with
      | inr e => inr (Errorf ("decode MLService " ++ ms_Namespace row ++ "/" ++ ms_Name row) e)
      | inl spec =>
          let desired := Desired spec in
          let admitted := Decode (ms_AdmittedReplicas row) (length (ssp_Roles spec)) desired in
          match pending_rows rest with
          | inr e => inr e
          | inl out =>
              inl (if svc_in [SvcQueued] row || negb (Equal admitted desired)
                   then row :: out else out)
          end
      end
  end.

Definition pendingServices (db : DB Q) : list (MLService Q) + error :=
  pending_rows (liveServices db).

(** [admissionPoolNames] *)
Definition admissionPoolNames (db : DB Q) (runs : list (MLRun Q)) (services : list (MLService Q))
    : gset string :=
  list_to_set (map (fun r => poolFromLabels (mr_Labels r)) runs) ∪
  list_to_set (map (fun r => poolFromLabels (ms_Labels r)) services) ∪
  list_to_set (map (fun r => poolFromLabels (mr_Labels r))
    (List.filter (fun r => run_in activeRunPhases r && is_null (mr_DeletedAt r)) (db_runs db))) ∪
  list_to_set (map (fun r => poolFromLabels (ms_Labels r))
    (List.filter (fun r => svc_in activeServicePhases r && is_null (ms_DeletedAt r))
       (db_services db))).

(** [resolvePoolCapacities]; [pools] is the optional resource resolver. *)
Definition resolve_capacity (pools : option (string -> ResourcePool Q + error)) (name : string)
    : poolCapacityResult Q :=
  if String.eqb name "" then inr "resource pool label is missing"
  else match pools with
       | None => inr "resource pool resolver is not configured"
       | Some resolve =>
           match resolve name with
           | inr e => inr (Error e)
           | inl pool => inl (copyList (po_Capacity pool))
           end
       end.

Definition resolvePoolCapacities (pools : option (string -> ResourcePool Q + error))
    (names : gset string) : gmap string (poolCapacityResult Q) :=
  set_to_map (fun name => (name, resolve_capacity pools name)) names.

(** Each quota key is resolved once. *)
Definition resolve_quota (quotas : string -> string -> quotaResult Q)
    (results : gmap quotaKey (quotaResult Q)) (key : quotaKey) : gmap quotaKey (quotaResult Q) :=
  match results !! key with
  | Some _ => results
  | None => <[key := quotas key.1 key.2]> results
  end.

Definition resolveQuotas (quotas : string -> string -> quotaResult Q)
    (services : list (MLService Q)) (queued : list (MLRun Q)) : gmap quotaKey (quotaResult Q) :=
  foldl (resolve_quota quotas) ∅
    (map (fun s => (ms_Namespace s, poolFromLabels (ms_Labels s))) services ++
     map (fun r => (mr_Namespace r, poolFromLabels (mr_Labels r))) queued).

(** [setAllQueueReason] / [setAllServiceAdmissionReason] *)
Definition setAllQueueReason (now : Z) (rows : list (MLRun Q)) (reason message : string)
    (db : DB Q) : DB Q :=
  foldl (fun db run => setQueueReason now run reason message db) db rows.

Definition setAllServiceAdmissionReason (now : Z) (rows : list (MLService Q))
    (reason message : string) (db : DB Q) : DB Q :=
  foldl (fun db row => (setServiceAdmissionReason now row reason message db).1) db rows.

(** [runOnce]: [db0] is the database the unlocked reads see, [db] the one the
    admission transaction (or the failure report) runs on; other writers may
    have moved the tables in between.  A transaction that fails leaves [db]
    as it was. *)
Definition runOnce (now : Z) (inventory : ResourceSnapshot Q + error)
    (quotas : string -> string -> quotaResult Q)
    (pools : option (string -> ResourcePool Q + error)) (db0 db : DB Q) : DB Q :=
  let queued := queuedRuns db0 in
  match pendingServices db0 with
  | inr _ => db
  | inl services =>
      if bool_decide (queued = []) && bool_decide (services = []) then db
      else
        match inventory with
        | inr e =>
            setAllServiceAdmissionReason now services ReasonInventoryUnavailable (Error e)
              (setAllQueueReason now queued ReasonInventoryUnavailable (Error e) db)
        | inl snapshot =>
            let quotaResults := resolveQuotas quotas services queued in
            let poolCapacities := resolvePoolCapacities pools
                                    (admissionPoolNames db0 queued services) in
            match admitLocked now db snapshot quotaResults poolCapacities with
            | inr _ => db
            | inl st => rd_db st
            end
        end
  end.
End Admission.
Arguments round : clear implicits.
