(* ===== verification/AdmissionUsage.v ===== *)
(** * Durable usage

    [loadActive] recomputes, from the rows and the runtime's allocations, how
    much of each tenant pool quota is taken.  This file gives that computation
    a closed form, the sum of what running instances use and of what admitted
    replicas without an instance will use, row by row, so that the effect of
    one row update on it can be read off. *)

From Stdlib Require Import ssreflect ZArith Lia Permutation.
From stdpp Require Import base gmap list strings.
From S2P Require Import Prelude Placement ApiTypes Store ServiceAdmission Admission.

Section Usage.
Context {Q : Type} `{!Quantity Q} `{!QuantityLaws Q}.
Implicit Types (usage : gmap quotaKey (gmap string Q)) (allocs : list (ResourceAllocation Q)).

Definition usage_val usage (key : quotaKey) (r : string) : Z := rl_val (usage_get usage key) r.

Lemma usage_val_add key req usage key' r :
  usage_val (add_usage key req usage) key' r =
  (usage_val usage key' r + if decide (key = key') then rl_val req r else 0)%Z.
Proof.
  rw /usage_val /add_usage /usage_get. case_decide as Hk.
  - by rw -Hk lookup_insert_eq /= rl_val_sum.
  - rw lookup_insert_ne // Z.add_0_r //.
Qed.

Lemma usage_val_add_times n key req usage key' r :
  usage_val (Nat.iter n (add_usage key req) usage) key' r =
  (usage_val usage key' r + if decide (key = key') then Z.of_nat n * rl_val req r else 0)%Z.
Proof.
  induction n as [|n IH]; simpl; [case_decide; lia|]. rw usage_val_add IH. case_decide; lia.
Qed.

(** ** What rows and allocations amount to *)

(** Running instances of one role of one workload. *)
Definition instances allocs (id role : string) : Z :=
  zsum (map (fun a => if decide (ra_WorkloadID a = id /\ ra_Role a = role) then 1%Z else 0%Z) allocs).

Lemma instances_nonneg allocs id role : (0 <= instances allocs id role)%Z.
Proof. rw /instances. induction allocs; simpl; [done|]. case_decide; lia. Qed.

(** What the replicas of one role that have no instance yet will take. *)
Definition missing_role allocs (id : string) (role : roleRequest Q) (r : string) : Z :=
  (Z.max 0 (rr_replicas role - instances allocs id (rr_name role)) * rl_val (rr_requests role) r)%Z.

Definition missing_usage allocs (key : quotaKey) (r : string) (w : desiredWorkload Q) : Z :=
  if dw_reserveMissing w && bool_decide (dw_key w = key)
  then zsum (map (fun role => missing_role allocs (dw_id w) role r) (dw_roles w)) else 0%Z.

(** What one running instance takes, when its workload is among [holders]. *)
Definition instance_usage (holders : list (string * quotaKey)) (key : quotaKey) (r : string)
    (a : ResourceAllocation Q) : Z :=
  if decide ((ra_WorkloadID a, key) ∈ holders) then rl_val (ra_Requests a) r else 0%Z.

Definition holder (w : desiredWorkload Q) : string * quotaKey := (dw_id w, dw_key w).

(** ** The loops of [loadActive] *)

Definition ids_of (ws : list (desiredWorkload Q)) : list string := map dw_id ws.

Lemma lookup_byID ws id w :
  NoDup (ids_of ws) ->
  foldl (fun m w => <[dw_id w := w]> m) (∅ : gmap string (desiredWorkload Q)) ws !! id = Some w <->
  w ∈ ws /\ dw_id w = id.
Proof.
  rw -(rev_involutive ws). generalize (rev ws) as l. clear ws. intros l.
  induction l as [|x l IH]; simpl.
  { intros _. rw lookup_empty. split; [done|by intros [?%elem_of_nil _]]. }
  rw foldl_app /= /ids_of map_app NoDup_app => -[Hnd [Hx _]].
  rw elem_of_app list_elem_of_singleton.
  destruct (decide (dw_id x = id)) as [<-|Hne].
  - rw lookup_insert_eq. split; [intros [= <-]; auto|].
    intros [[Hw| ->] Hid]; [|done]. exfalso. apply (Hx (dw_id w)).
    + by apply list_elem_of_fmap_2.
    + rw Hid. by left.
  - rw lookup_insert_ne // IH //. naive_solver.
Qed.

Lemma lookup_actual0 (ws : list (desiredWorkload Q)) id :
  foldl (fun m w => <[dw_id w := (∅ : gmap string Z)]> m) (∅ : gmap string (gmap string Z)) ws !! id =
  if decide (id ∈ ids_of ws) then Some (∅ : gmap string Z) else None.
Proof.
  rw -(rev_involutive ws). generalize (rev ws) as l. clear ws. intros l.
  induction l as [|x l IH].
  { by destruct (decide (id ∈ ids_of (rev []))) as [?%elem_of_nil|]. }
  cbn [rev]. rw foldl_app /= /ids_of map_app /=. destruct (decide (dw_id x = id)) as [<-|Hne].
  - rw lookup_insert_eq decide_True //. rw elem_of_app. right. by left.
  - rw lookup_insert_ne // IH. apply decide_ext. rw elem_of_app list_elem_of_singleton.
    naive_solver.
Qed.

(** After the loop over the allocations: every active workload has its
    instances counted, and its key charged with their requests. *)
Lemma count_allocations ws byID actual0 usage0 allocs actual usage :
  NoDup (ids_of ws) ->
  (forall id w, byID !! id = Some w <-> w ∈ ws /\ dw_id w = id) ->
  (forall id, is_Some (actual0 !! id) <-> id ∈ ids_of ws) ->
  foldl (count_allocation byID) (actual0, usage0) allocs = (actual, usage) ->
  (forall id role, id ∈ ids_of ws ->
     actual_count actual id role = (actual_count actual0 id role + instances allocs id role)%Z) /\
  (forall key r, usage_val usage key r =
     (usage_val usage0 key r + zsum (map (instance_usage (map holder ws) key r) allocs))%Z).
Proof.
  intros Hnd Hby. revert actual0 usage0.
  induction allocs as [|a allocs IH]; intros actual0 usage0 Hdom; simpl.
  { intros [= <- <-]. split; [intros; rw /instances /=; lia|intros; lia]. }
  assert (Hhold : forall key, (ra_WorkloadID a, key) ∈ map holder ws <->
    exists w, byID !! ra_WorkloadID a = Some w /\ dw_key w = key).
  { intros key. setoid_rewrite Hby. rw list_elem_of_fmap. rw /holder. split.
    - intros (w & [= -> ->] & Hw). eauto.
    - intros (w & [? ?] & <-). exists w. split; [congruence|done]. }
  destruct (actual0 !! ra_WorkloadID a) as [roles|] eqn:Ha.
  - assert (Hin : ra_WorkloadID a ∈ ids_of ws) by (apply Hdom; by rw Ha).
    apply list_elem_of_fmap in Hin as (w & Hid & Hw).
    assert (Hbw : byID !! ra_WorkloadID a = Some w) by by apply Hby.
    rw Hbw. intros Hf. apply IH in Hf as [Hc Hu]; last first.
    { intros id. rw -Hdom. destruct (decide (ra_WorkloadID a = id)) as [<-|Hne];
        [rw lookup_insert_eq Ha; split; eauto|by rw lookup_insert_ne]. }
    split.
    + intros id role Hi. rw Hc // /instances /=. rw /actual_count.
      destruct (decide (ra_WorkloadID a = id)) as [<-|Hne].
      * rw lookup_insert_eq Ha /=. rw /map_get. destruct (decide (ra_Role a = role)) as [<-|Hr].
        -- rw lookup_insert_eq decide_True //=. lia.
        -- rw lookup_insert_ne // decide_False; [naive_solver|]. lia.
      * rw lookup_insert_ne // decide_False; [naive_solver|]. lia.
    + intros key r. rw Hu usage_val_add /instance_usage.
      destruct (decide (dw_key w = key)) as [Hk|Hk].
      * rw decide_True; [apply Hhold; eauto|]. lia.
      * rw decide_False; [rw Hhold; naive_solver|]. lia.
  - assert (Hno : byID !! ra_WorkloadID a = None).
    { destruct (byID !! ra_WorkloadID a) as [w|] eqn:Hb; [|done].
      apply Hby in Hb as [Hw Hid].
      assert (is_Some (actual0 !! ra_WorkloadID a)) as [? ?]; [|congruence].
      apply Hdom. rw -Hid. by apply list_elem_of_fmap_2. }
    intros Hf. destruct (IH _ _ Hdom Hf) as [Hc Hu]. split.
    + intros id role Hi. rw Hc // /instances /= decide_False; [|lia].
      intros [<- _]. apply Hdom in Hi as [? ?]. congruence.
    + intros key r. rw Hu /instance_usage decide_False; [rw Hhold; naive_solver|]. lia.
Qed.

Lemma count_missing_val actual allocs usage w key r :
  (forall role, actual_count actual (dw_id w) role = instances allocs (dw_id w) role) ->
  usage_val (count_missing actual usage w) key r =
  (usage_val usage key r + missing_usage allocs key r w)%Z.
Proof.
  intros Hc. rw /count_missing /missing_usage. destruct (dw_reserveMissing w); simpl; [|lia].
  revert usage. induction (dw_roles w) as [|role roles IH]; intros usage; simpl;
    [case_bool_decide; lia|].
  rw IH usage_val_add_times Hc /missing_role. case_bool_decide; case_decide; try done; lia.
Qed.

Lemma count_missings actual allocs ws usage key r :
  (forall w role, w ∈ ws -> actual_count actual (dw_id w) role = instances allocs (dw_id w) role) ->
  usage_val (foldl (count_missing actual) usage ws) key r =
  (usage_val usage key r + zsum (map (missing_usage allocs key r) ws))%Z.
Proof.
  revert usage. induction ws as [|w ws IH]; intros usage Hc; simpl; [lia|].
  rw IH; [intros; apply Hc; by right|].
  rw (count_missing_val _ allocs); [intros; apply Hc; by left|]. lia.
Qed.

(** The closed form of [loadActive]'s usage, over the decoded workloads. *)
Lemma loadActive_workloads db allocs ws usage actual :
  loadActive db allocs = inl (ws, usage, actual) -> NoDup (ids_of ws) ->
  forall key r, usage_val usage key r =
    (zsum (map (instance_usage (map holder ws) key r) allocs) +
     zsum (map (missing_usage allocs key r) ws))%Z.
Proof.
  rw /loadActive. destruct (decode_rows runWorkload _) as [ws1|]; [|done].
  destruct (decode_rows serviceWorkload _) as [ws2|]; [|done].
  destruct (foldl (count_allocation _) _ allocs) as [act us] eqn:Hf.
  intros [= <- <- <-] Hnd key r.
  eapply count_allocations in Hf as [Hc Hu];
    [|exact Hnd|exact (fun id w => lookup_byID _ id w Hnd)|]; last first.
  { intros id. rw lookup_actual0. case_decide; split; try done; by intros [? ?]. }
  rw (count_missings _ allocs); [|rw Hu; rw {1}/usage_val /usage_get lookup_empty /= rl_val_empty; lia].
  intros w role Hw. rw Hc; [by apply list_elem_of_fmap_2|].
  rw /actual_count lookup_actual0. case_decide; rw /= map_get_empty; lia.
Qed.

(** ** The same over the rows *)

Definition run_key (row : MLRun Q) : quotaKey := (mr_Namespace row, poolFromLabels (mr_Labels row)).
Definition svc_key (row : MLService Q) : quotaKey := (ms_Namespace row, poolFromLabels (ms_Labels row)).

Definition run_missing allocs (key : quotaKey) (r : string) (row : MLRun Q) : Z :=
  if run_in activeRunPhases row then
    match runWorkload row with inl w => missing_usage allocs key r w | inr _ => 0%Z end
  else 0%Z.

Definition svc_missing allocs (key : quotaKey) (r : string) (row : MLService Q) : Z :=
  if svc_in activeServicePhases row then
    match serviceWorkload row with inl w => missing_usage allocs key r w | inr _ => 0%Z end
  else 0%Z.

Definition run_holder (row : MLRun Q) : list (string * quotaKey) :=
  if run_in activeRunPhases row then [(mr_ID row, run_key row)] else [].

Definition svc_holder (row : MLService Q) : list (string * quotaKey) :=
  if svc_in activeServicePhases row then [(ms_ID row, svc_key row)] else [].

Definition holders (db : DB Q) : list (string * quotaKey) :=
  concat (map run_holder (db_runs db)) ++ concat (map svc_holder (db_services db)).

(** Quota usage as the rows and the allocations determine it. *)
Definition durable_usage (db : DB Q) allocs (key : quotaKey) (r : string) : Z :=
  (zsum (map (instance_usage (holders db) key r) allocs) +
   (zsum (map (run_missing allocs key r) (db_runs db)) +
    zsum (map (svc_missing allocs key r) (db_services db))))%Z.

Definition row_ids (db : DB Q) : list string := map mr_ID (db_runs db) ++ map ms_ID (db_services db).

(** Every row that counts has a readable spec. *)
Definition decodable (db : DB Q) : Prop :=
  (forall row, row ∈ db_runs db -> run_in activeRunPhases row = true ->
     exists w, runWorkload row = inl w) /\
  (forall row, row ∈ db_services db -> svc_in activeServicePhases row = true ->
     exists w, serviceWorkload row = inl w).

Lemma runWorkload_holder row w :
  runWorkload row = inl w -> holder w = (mr_ID row, run_key row).
Proof. rw /runWorkload. destruct (unmarshal (mr_Spec row)); [|done]. by intros [= <-]. Qed.

Lemma serviceWorkload_holder row w :
  serviceWorkload row = inl w -> holder w = (ms_ID row, svc_key row).
Proof. rw /serviceWorkload. destruct (unmarshal (ms_Spec row)); [|done]. by intros [= <-]. Qed.

(** One table: its decoded active rows against the row-wise description. *)
Section Table.
Context {A : Type} (f : A -> desiredWorkload Q + error) (active : A -> bool)
  (h : A -> string * quotaKey).
Context (f_holder : forall row w, f row = inl w -> holder w = h row).

Lemma decode_rows_sums rows ws (g : desiredWorkload Q -> Z) :
  decode_rows f (List.filter active rows) = inl ws ->
  map holder ws = concat (map (fun row => if active row then [h row] else []) rows) /\
  zsum (map g ws) =
    zsum (map (fun row => if active row
                          then match f row with inl w => g w | inr _ => 0%Z end else 0%Z) rows).
Proof.
  revert ws. induction rows as [|row rows IH]; intros ws; simpl; [by intros [= <-]|].
  destruct (active row); simpl; [|by apply IH].
  destruct (f row) as [w|] eqn:Hw; [|done].
  destruct (decode_rows f _) as [ws'|]; [|done]. intros [= <-].
  destruct (IH ws' eq_refl) as [Hh Hs]. simpl. by rw Hh Hs (f_holder _ _ Hw).
Qed.

Lemma decode_rows_total rows :
  (forall row, row ∈ rows -> active row = true -> exists w, f row = inl w) ->
  exists ws, decode_rows f (List.filter active rows) = inl ws.
Proof.
  induction rows as [|row rows IH]; intros H; simpl; [by exists []|].
  destruct IH as [ws Hws]; [intros; apply H; [by right|done]|].
  destruct (active row) eqn:Ha; simpl; [|eauto].
  destruct (H row) as [w ->]; [by left|done|]. rw Hws. eauto.
Qed.

Lemma holder_ids rows :
  map fst (concat (map (fun row => if active row then [h row] else []) rows)) `sublist_of`
  map (fun row => (h row).1) rows.
Proof.
  induction rows as [|row rows IH]; simpl; [done|].
  destruct (active row); simpl; by constructor.
Qed.
End Table.

Lemma loadActive_parts db allocs ws usage actual :
  loadActive db allocs = inl (ws, usage, actual) ->
  map holder ws = holders db /\
  forall key r, zsum (map (missing_usage allocs key r) ws) =
    (zsum (map (run_missing allocs key r) (db_runs db)) +
     zsum (map (svc_missing allocs key r) (db_services db)))%Z.
Proof.
  rw /loadActive. destruct (decode_rows runWorkload _) as [ws1|] eqn:H1; [|done].
  destruct (decode_rows serviceWorkload _) as [ws2|] eqn:H2; [|done].
  destruct (foldl (count_allocation _) _ allocs) as [act us]. intros [= <- _ _].
  split; [|intros key r; rw map_app zsum_app; f_equal].
  - rw map_app /holders. f_equal.
    + by destruct (decode_rows_sums _ _ _ runWorkload_holder _ _ (fun _ => 0%Z) H1) as [-> _].
    + by destruct (decode_rows_sums _ _ _ serviceWorkload_holder _ _ (fun _ => 0%Z) H2) as [-> _].
  - by destruct (decode_rows_sums _ _ _ runWorkload_holder _ _ (missing_usage allocs key r) H1)
      as [_ ->].
  - by destruct (decode_rows_sums _ _ _ serviceWorkload_holder _ _ (missing_usage allocs key r) H2)
      as [_ ->].
Qed.

(** [loadActive] succeeds on decodable tables and computes [durable_usage]. *)
Lemma loadActive_durable db allocs ws usage actual :
  loadActive db allocs = inl (ws, usage, actual) -> NoDup (row_ids db) ->
  forall key r, usage_val usage key r = durable_usage db allocs key r.
Proof.
  intros Hl Hnd key r. destruct (loadActive_parts _ _ _ _ _ Hl) as [Hh Hm].
  rw (loadActive_workloads _ _ _ _ _ Hl); [|by rw Hh Hm].
  assert (ids_of ws = map fst (holders db)) as ->.
  { rw -Hh map_map. by apply map_ext. }
  eapply sublist_NoDup; [exact Hnd|]. rw /holders /row_ids map_app. apply sublist_app.
  - exact (holder_ids _ (fun row => (mr_ID row, run_key row)) (db_runs db)).
  - exact (holder_ids _ (fun row => (ms_ID row, svc_key row)) (db_services db)).
Qed.

Lemma loadActive_total db allocs :
  decodable db -> exists ws usage actual, loadActive db allocs = inl (ws, usage, actual).
Proof.
  intros [Hr Hs]. rw /loadActive.
  destruct (decode_rows_total _ _ _ Hr) as [ws1 ->].
  destruct (decode_rows_total _ _ _ Hs) as [ws2 ->].
  destruct (foldl (count_allocation _) _ allocs) as [act us]. eauto.
Qed.

Lemma loadActive_decodable db allocs x : loadActive db allocs = inl x -> decodable db.
Proof.
  assert (Hd : forall A (f : A -> desiredWorkload Q + error) active rows ws,
    decode_rows f (List.filter active rows) = inl ws ->
    forall row, row ∈ rows -> active row = true -> exists w, f row = inl w).
  { intros A f active rows. induction rows as [|y rows IH]; intros ws; simpl.
    - by intros _ row ?%elem_of_nil.
    - destruct (active y) eqn:Ha; simpl.
      + destruct (f y) as [w|] eqn:Hw; [|done].
        destruct (decode_rows f _) as [ws'|]; [|done]. intros _ row [->|Hin]%elem_of_cons; eauto.
      + intros Hdec row [->|Hin]%elem_of_cons; [congruence|eauto]. }
  rw /loadActive. destruct (decode_rows runWorkload _) as [ws1|] eqn:H1; [|done].
  destruct (decode_rows serviceWorkload _) as [ws2|] eqn:H2; [|done].
  intros _. split; eapply Hd; eassumption.
Qed.
End Usage.

(** ** Admission: quota and accounting

    The loops of [admitLocked] keep an in-memory usage per tenant and pool.
    Here that bookkeeping is tied to the durable state: after a round, the
    usage [loadActive] recomputes from the updated tables is covered by the
    bookkeeping, and the bookkeeping never passes a quota it was checked
    against. *)

(** ** Row updates *)

Section Updates.
Context {A : Type}.

Lemma update_where_other (p : A -> bool) f rows x :
  x ∈ rows -> p x = false -> x ∈ update_where p f rows.
Proof. intros Hx Hp. apply elem_of_update_where. exists x. by rw Hp. Qed.

(** The effect of updating one row on a sum over the table. *)
Lemma zsum_update_one (g : A -> Z) (p : A -> bool) f rows cur :
  NoDup rows -> cur ∈ rows -> p cur = true ->
  (forall x, x ∈ rows -> p x = true -> x = cur) ->
  zsum (map g (update_where p f rows)) = (zsum (map g rows) + (g (f cur) - g cur))%Z.
Proof.
  induction rows as [|x rows IH]; intros Hnd Hcur Hp Hu; [by apply elem_of_nil in Hcur|].
  apply NoDup_cons in Hnd as [Hx Hnd]. apply elem_of_cons in Hcur as [<-|Hcur]; simpl.
  - rw Hp. assert (update_where p f rows = rows) as ->; [|lia].
    apply update_where_none => y Hy. apply not_true_iff_false => Hpy.
    apply Hx. rw -(Hu y) //. by right.
  - rw IH //; [intros y Hy; apply Hu; by right|].
    destruct (p x) eqn:Hpx; [|lia]. exfalso. apply Hx. rw (Hu x) //. by left.
Qed.

(** Updates that leave [g] alone leave its sum alone. *)
Lemma zsum_update_frame (g : A -> Z) (p : A -> bool) f rows :
  (forall x, x ∈ rows -> p x = true -> g (f x) = g x) ->
  zsum (map g (update_where p f rows)) = zsum (map g rows).
Proof.
  intros H. rw /update_where map_map. apply zsum_map_ext => x Hx.
  destruct (p x) eqn:Hp; [by apply H|done].
Qed.

Lemma rows_affected_one (p : A -> bool) rows cur :
  NoDup rows -> cur ∈ rows -> p cur = true ->
  (forall x, x ∈ rows -> p x = true -> x = cur) -> rows_affected p rows = 1.
Proof.
  rw /rows_affected. induction rows as [|x rows IH]; intros Hnd Hcur Hp Hu;
    [by apply elem_of_nil in Hcur|].
  apply NoDup_cons in Hnd as [Hx Hnd]. simpl. apply elem_of_cons in Hcur as [<-|Hcur].
  - rw Hp /=. f_equal. destruct (List.filter p rows) as [|y l'] eqn:Hf; [done|]. exfalso.
    assert (Hy : In y (List.filter p rows)) by (rw Hf; by left).
    apply filter_In in Hy as [Hy Hys]. apply list_elem_of_In in Hy.
    apply Hx. rw -(Hu y) //. by right.
  - destruct (p x) eqn:Hpx.
    + exfalso. apply Hx. rw (Hu x) //. by left.
    + apply IH; [done..|]. intros y Hy. apply Hu. by right.
Qed.

Lemma elem_of_concat_map {B} (h : A -> list B) rows x :
  x ∈ concat (map h rows) <-> exists row, row ∈ rows /\ x ∈ h row.
Proof.
  rw list_elem_of_In in_concat. setoid_rewrite in_map_iff. setoid_rewrite list_elem_of_In.
  naive_solver.
Qed.

Lemma elem_of_concat_update {B} (h : A -> list B) (p : A -> bool) f rows x :
  (forall row, row ∈ rows -> p row = true -> x ∈ h (f row) <-> x ∈ h row) ->
  x ∈ concat (map h (update_where p f rows)) <-> x ∈ concat (map h rows).
Proof.
  intros H. rw !elem_of_concat_map. setoid_rewrite elem_of_update_where. split.
  - intros (row & (r & Hr & ->) & Hx). exists r. split; [done|].
    destruct (p r) eqn:Hp; [by apply H|done].
  - intros (row & Hr & Hx). exists (if p row then f row else row). split; [eauto|].
    destruct (p row) eqn:Hp; [by apply H|done].
Qed.
End Updates.

(** ** Requests *)

Section Facts.
Context {Q : Type} `{!Quantity Q} `{!QuantityLaws Q}.
Implicit Types (allocs : list (ResourceAllocation Q)) (st : round Q).

Lemma rl_val_add_times n (req total : gmap string Q) r :
  rl_val (add_times n req total) r = (rl_val total r + Z.of_nat n * rl_val req r)%Z.
Proof.
  revert total. induction n as [|n IH]; intros total; simpl; [lia|]. rw IH rl_val_sum. lia.
Qed.

Lemma rl_val_totalRequests (roles : list (roleRequest Q)) r :
  rl_val (totalRequests roles) r =
  zsum (map (fun role => Z.max 0 (rr_replicas role) * rl_val (rr_requests role) r)%Z roles).
Proof.
  enough (H : forall total, rl_val (foldl (fun total role =>
      add_times (Z.to_nat (rr_replicas role)) (rr_requests role) total) total roles) r =
    (rl_val total r + zsum (map (fun role =>
      Z.max 0 (rr_replicas role) * rl_val (rr_requests role) r) roles))%Z)
    by by rw /totalRequests H rl_val_empty.
  induction roles as [|role roles IH]; intros total; simpl; [lia|].
  rw IH rl_val_add_times. lia.
Qed.

Lemma stableRoleOrder_sum (g : roleRequest Q -> Z) roles :
  zsum (map g (stableRoleOrder roles)) = zsum (map g roles).
Proof. apply zsum_perm, Permutation_map, sort_slice_perm. Qed.

Definition no_instances allocs (id : string) : Prop :=
  forall a, a ∈ allocs -> ra_WorkloadID a <> id.

Lemma instances_none allocs id role : no_instances allocs id -> instances allocs id role = 0%Z.
Proof.
  intros H. rw /instances. induction allocs as [|a allocs IH]; simpl; [done|].
  rw decide_False; [intros [? _]; by apply (H a); [left|]|].
  rw IH //. intros x Hx. apply H. by right.
Qed.

Lemma missing_usage_fresh allocs key r (w : desiredWorkload Q) :
  no_instances allocs (dw_id w) -> dw_reserveMissing w = true ->
  missing_usage allocs key r w =
  if decide (dw_key w = key) then rl_val (totalRequests (dw_roles w)) r else 0%Z.
Proof.
  intros Hno Hres. rw /missing_usage Hres /=. case_bool_decide; case_decide; try done.
  rw rl_val_totalRequests. apply zsum_map_ext => role _.
  rw /missing_role instances_none //. by rw Z.sub_0_r.
Qed.

(** ** The replicas a service vector reserves *)

Definition role_val (role : RoleSpec Q) (r : string) : Z :=
  rl_val (rq_Requests (pt_Resources (ro_Template role))) r.

Definition vec_missing allocs (id : string) (roles : list (RoleSpec Q)) (v : list Z) (r : string) : Z :=
  zsum (imap (fun i role => Z.max 0 (vget v i - instances allocs id (ro_Name role)) *
                            role_val role r)%Z roles).

Lemma missing_usage_service allocs key r row spec v :
  dw_reserveMissing (serviceWorkloadFor row spec v) = true ->
  missing_usage allocs key r (serviceWorkloadFor row spec v) =
  if decide (svc_key row = key) then vec_missing allocs (ms_ID row) (ssp_Roles spec) v r else 0%Z.
Proof.
  intros Hres. rw /missing_usage Hres /=. rw {1}/dw_key /= -/(svc_key row).
  case_bool_decide; case_decide; try done.
  rw stableRoleOrder_sum zsum_concat_imap. apply zsum_imap_ext => i role _.
  pose proof (instances_nonneg allocs (ms_ID row) (ro_Name role)).
  case_match; unbool; simpl; rw ?/missing_role /= /role_val ?/copyList; [lia|].
  rw Z.max_l; lia.
Qed.

Lemma rl_val_step_roles spec increased r :
  (forall i, i ∈ increased -> i < length (ssp_Roles spec)) -> NoDup increased ->
  rl_val (totalRequests (step_roles spec increased)) r =
  zsum (imap (fun i role => if decide (i ∈ increased) then role_val role r else 0%Z) (ssp_Roles spec)).
Proof.
  intros Hlt Hnd. rw rl_val_totalRequests /step_roles stableRoleOrder_sum zsum_concat_map
    zsum_imap_indicator //. apply zsum_map_ext => i Hi.
  destruct (ssp_Roles spec !! i) as [role|]; rw /= /role_val ?/copyList ?Z.add_0_r; [lia|done].
Qed.

(** One step of the vector reserves at most what it asked for; less when
    instances left over from a scale-down are taken over. *)
Lemma vec_missing_step allocs id spec admitted desired next increased r :
  next_step admitted desired next increased -> NoDup increased ->
  length desired = length (ssp_Roles spec) ->
  (forall role, role ∈ ssp_Roles spec -> 0 <= role_val role r)%Z ->
  (vec_missing allocs id (ssp_Roles spec) next r <=
   vec_missing allocs id (ssp_Roles spec) admitted r +
   rl_val (totalRequests (step_roles spec increased)) r)%Z.
Proof.
  intros Hs Hnd Hlen Hpos. rw rl_val_step_roles //.
  { intros i Hi. rw -Hlen. by apply (ns_below _ _ _ _ Hs). }
  rw /vec_missing -zsum_imap_add. apply zsum_imap_le => i role Hi.
  specialize (Hpos role (list_elem_of_lookup_2 _ _ _ Hi)).
  rw (ns_value _ _ _ _ Hs). case_decide; nia.
Qed.

Lemma vec_missing_zero allocs id roles v r :
  (forall i, vget v i = 0%Z) -> vec_missing allocs id roles v r = 0%Z.
Proof.
  intros Hz. rw /vec_missing. transitivity (zsum (imap (fun _ _ => 0%Z) roles));
    [|apply zsum_imap_zero]. apply zsum_imap_ext => i role _.
  rw Hz. pose proof (instances_nonneg allocs id (ro_Name role)). rw Z.max_l; lia.
Qed.

(** ** What usage depends on *)

Definition run_core (x : MLRun Q) := (mr_ID x, mr_Namespace x, mr_Labels x, mr_Spec x, mr_Phase x).

Definition svc_core (x : MLService Q) :=
  (ms_ID x, ms_Namespace x, ms_Labels x, ms_Spec x, ms_AdmittedReplicas x, ms_Phase x).

Lemma runWorkload_core x y : run_core x = run_core y -> runWorkload x = runWorkload y.
Proof. rw /run_core /runWorkload /run_in. by intros [= -> -> -> -> ->]. Qed.

Lemma serviceWorkload_core x y : svc_core x = svc_core y -> serviceWorkload x = serviceWorkload y.
Proof.
  rw /svc_core /serviceWorkload /serviceWorkloadFor /svc_in. by intros [= -> -> -> -> -> ->].
Qed.

Lemma run_missing_core allocs key r x y :
  run_core x = run_core y -> run_missing allocs key r x = run_missing allocs key r y.
Proof.
  intros H. rw /run_missing (runWorkload_core _ _ H). move: H. rw /run_core /run_in.
  by intros [= _ _ _ _ ->].
Qed.

Lemma svc_missing_core allocs key r x y :
  svc_core x = svc_core y -> svc_missing allocs key r x = svc_missing allocs key r y.
Proof.
  intros H. rw /svc_missing (serviceWorkload_core _ _ H). move: H. rw /svc_core /svc_in.
  by intros [= _ _ _ _ _ ->].
Qed.

Lemma svc_holder_core x y : svc_core x = svc_core y -> svc_holder x = svc_holder y.
Proof. rw /svc_core /svc_holder /svc_key /svc_in. by intros [= -> -> -> _ _ ->]. Qed.

Lemma run_holder_core x y : run_core x = run_core y -> run_holder x = run_holder y.
Proof. rw /run_core /run_holder /run_key /run_in. by intros [= -> -> -> _ ->]. Qed.

(** ** Updates of one row *)

Lemma instance_usage_ext (h1 h2 : list (string * quotaKey)) allocs key r :
  (forall a, a ∈ allocs -> (ra_WorkloadID a, key) ∈ h1 <-> (ra_WorkloadID a, key) ∈ h2) ->
  zsum (map (instance_usage h1 key r) allocs) = zsum (map (instance_usage h2 key r) allocs).
Proof.
  intros H. apply zsum_map_ext => a Ha. rw /instance_usage. apply decide_ext, H, Ha.
Qed.

Section OneRow.
Context (allocs : list (ResourceAllocation Q)) (db : DB Q) (key : quotaKey) (r : string).

Lemma durable_services_frame (p : MLService Q -> bool) f :
  (forall x, x ∈ db_services db -> p x = true -> svc_core (f x) = svc_core x) ->
  durable_usage (set_services db (update_where p f (db_services db))) allocs key r =
  durable_usage db allocs key r.
Proof.
  intros H. rw /durable_usage /=. f_equal; [|f_equal].
  - apply instance_usage_ext => a _. rw /holders /= !elem_of_app. f_equiv.
    apply elem_of_concat_update => x Hx Hp. by rw (svc_holder_core _ _ (H x Hx Hp)).
  - apply zsum_update_frame => x Hx Hp. by apply svc_missing_core, H.
Qed.

Lemma durable_services_one (p : MLService Q -> bool) f cur :
  NoDup (db_services db) -> cur ∈ db_services db -> p cur = true ->
  (forall x, x ∈ db_services db -> p x = true -> x = cur) ->
  (forall a, a ∈ allocs ->
     (ra_WorkloadID a, key) ∈ svc_holder (f cur) <-> (ra_WorkloadID a, key) ∈ svc_holder cur) ->
  durable_usage (set_services db (update_where p f (db_services db))) allocs key r =
  (durable_usage db allocs key r + (svc_missing allocs key r (f cur) - svc_missing allocs key r cur))%Z.
Proof.
  intros Hnd Hin Hp Hu Hh. rw /durable_usage /= (zsum_update_one _ _ _ _ cur) //.
  rw (instance_usage_ext _ (holders db)); [|lia].
  intros a Ha. rw /holders /= !elem_of_app. f_equiv.
  apply elem_of_concat_update => x Hx Hpx. rw (Hu x) //. by apply Hh.
Qed.

Lemma durable_runs_frame (p : MLRun Q -> bool) f :
  (forall x, x ∈ db_runs db -> p x = true -> run_core (f x) = run_core x) ->
  durable_usage (set_runs db (update_where p f (db_runs db))) allocs key r =
  durable_usage db allocs key r.
Proof.
  intros H. rw /durable_usage /=. f_equal; [|f_equal].
  - apply instance_usage_ext => a _. rw /holders /= !elem_of_app. f_equiv.
    apply elem_of_concat_update => x Hx Hp. by rw (run_holder_core _ _ (H x Hx Hp)).
  - apply zsum_update_frame => x Hx Hp. by apply run_missing_core, H.
Qed.

Lemma durable_runs_one (p : MLRun Q -> bool) f cur :
  NoDup (db_runs db) -> cur ∈ db_runs db -> p cur = true ->
  (forall x, x ∈ db_runs db -> p x = true -> x = cur) ->
  (forall a, a ∈ allocs ->
     (ra_WorkloadID a, key) ∈ run_holder (f cur) <-> (ra_WorkloadID a, key) ∈ run_holder cur) ->
  durable_usage (set_runs db (update_where p f (db_runs db))) allocs key r =
  (durable_usage db allocs key r + (run_missing allocs key r (f cur) - run_missing allocs key r cur))%Z.
Proof.
  intros Hnd Hin Hp Hu Hh. rw /durable_usage /= (zsum_update_one _ _ _ _ cur) //.
  rw (instance_usage_ext _ (holders db)); [|lia].
  intros a Ha. rw /holders /= !elem_of_app. f_equiv.
  apply elem_of_concat_update => x Hx Hpx. rw (Hu x) //. by apply Hh.
Qed.
End OneRow.

Lemma decodable_services db p f :
  decodable db ->
  (forall x, x ∈ db_services db -> p x = true -> svc_in activeServicePhases (f x) = true ->
     exists w, serviceWorkload (f x) = inl w) ->
  decodable (set_services db (update_where p f (db_services db))).
Proof.
  intros [Hr Hs] Hf. split; [done|]. simpl.
  intros row (x & Hx & ->)%elem_of_update_where. destruct (p x) eqn:Hp; eauto.
Qed.

Lemma decodable_runs db p f :
  decodable db ->
  (forall x, x ∈ db_runs db -> p x = true -> run_in activeRunPhases (f x) = true ->
     exists w, runWorkload (f x) = inl w) ->
  decodable (set_runs db (update_where p f (db_runs db))).
Proof.
  intros [Hr Hs] Hf. split; [|done]. simpl.
  intros row (x & Hx & ->)%elem_of_update_where. destruct (p x) eqn:Hp; eauto.
Qed.
End Facts.

(** ** Services never touch runs *)

Section Frame.
Context {Q : Type} `{!Quantity Q}.

Lemma admit_steps_runs fuel now max (spec : MLServiceSpec Q) desired target key st row admitted st' :
  admit_steps fuel now max spec desired target key st row admitted = Some st' ->
  db_runs (rd_db st') = db_runs (rd_db st).
Proof.
  revert st row admitted. induction fuel as [|fuel IH]; intros st row admitted; [done|]. simpl.
  assert (Hb : forall reason message,
    db_runs (rd_db (block_service now st row reason message)) = db_runs (rd_db st)).
  { intros. rw /block_service /setServiceAdmissionReason /=. by case_decide. }
  destruct (Equal admitted desired); [by intros [= <-]|].
  destruct (Next admitted desired) as [next increased]. case_bool_decide; [by intros [= <-]|].
  destruct (_ || _); [case_match; intros [= <-]; apply Hb|].
  destruct (place_roles _ _ _) as [trial [[|] reason]]; [|intros [= <-]; apply Hb].
  by intros ->%IH.
Qed.

Lemma admitService_runs now quotas st (row : MLService Q) st' :
  admitService now quotas st row = inl st' -> db_runs (rd_db st') = db_runs (rd_db st).
Proof.
  rw /admitService. destruct (unmarshal _) as [spec|]; [|done].
  destruct (negb _ && _); [by intros [= <-]|]. destruct (Equal _ _); [by intros [= <-]|].
  destruct (quotas !! _) as [[max|]|].
  - destruct (admit_steps _ _ _ _ _ _ _ _ _ _) eqn:Hs; [|done]. intros [= <-].
    by eapply admit_steps_runs.
  - intros [= <-]. rw /block_service /setServiceAdmissionReason /=. by case_decide.
  - intros [= <-]. rw /block_service /setServiceAdmissionReason /=. by case_decide.
Qed.

Lemma admitServicesLocked_runs now quotas (st st' : round Q) :
  admitServicesLocked now quotas st = inl st' -> db_runs (rd_db st') = db_runs (rd_db st).
Proof.
  rw /admitServicesLocked => H.
  apply (fold_err_invariant (fun s => db_runs (rd_db s) = db_runs (rd_db st)) _ _ _ _ eq_refl
    (fun s a s1 _ Hs Hf => eq_trans (admitService_runs _ _ _ _ _ Hf) Hs) H).
Qed.

Lemma setAllServiceAdmissionReason_runs now rows reason message (db : DB Q) :
  db_runs (setAllServiceAdmissionReason now rows reason message db) = db_runs db.
Proof.
  rw /setAllServiceAdmissionReason. revert db. induction rows as [|row rows IH]; intros db; simpl; [done|].
  rw IH /setServiceAdmissionReason. by case_decide.
Qed.
End Frame.
