(* ===== verification/AdmissionSafety.v ===== *)
(** * Admission rounds: safety and termination

    The invariants of [admitServicesLocked] and of the run loop of
    [admitLocked], and what a round as a whole guarantees. *)

From Stdlib Require Import ssreflect ZArith Lia Permutation Sorted.
From stdpp Require Import base gmap list strings.
From S2P Require Import Prelude Placement ApiTypes Store ServiceAdmission Admission AdmissionUsage.

Section Safety.
Context {Q : Type} `{!Quantity Q} `{!QuantityLaws Q}.
Implicit Types (allocs : list (ResourceAllocation Q)) (st : round Q).

(** The bookkeeping covers what the tables durably promise. *)
Record accounted allocs st : Prop := {
  ac_ids : NoDup (row_ids (rd_db st));
  ac_dec : decodable (rd_db st);
  ac_cover key r : (durable_usage (rd_db st) allocs key r <= usage_val (rd_usage st) key r)%Z }.

(** Usage [u] against usage [u0] at the start: a limited resource passes its
    quota only if it was above it already; without a readable quota nothing is
    added. *)
Definition quota_ok (quotas : gmap quotaKey (quotaResult Q))
    (u0 u : gmap quotaKey (gmap string Q)) : Prop :=
  forall key r,
    match quotas !! key with
    | Some (inl max) =>
        r ∈ dom max -> (usage_val u key r <= Z.max (usage_val u0 key r) (rl_val max r))%Z
    | _ => usage_val u key r = usage_val u0 key r
    end.

Lemma quota_ok_refl quotas u : quota_ok quotas u u.
Proof. intros key r. destruct (quotas !! key) as [[]|]; lia. Qed.

Lemma quota_ok_add quotas u0 u key max req :
  quota_ok quotas u0 u -> quotas !! key = Some (inl max) ->
  exceeds (sumLists (usage_get u key) req) max = false ->
  quota_ok quotas u0 (add_usage key req u).
Proof.
  intros Hok Hq Hex key' r. specialize (Hok key' r). rw usage_val_add.
  destruct (decide (key = key')) as [<-|Hne]; [|by rw Z.add_0_r].
  rw Hq in Hok |- *. intros Hr. rw exceeds_false in Hex.
  destruct (decide (r ∈ dom (sumLists (usage_get u key) req))) as [Hd|Hd].
  - specialize (Hex r Hd Hr). rw rl_val_sum in Hex. rw /usage_val in Hok |- *. lia.
  - rw dom_sumLists not_elem_of_union !not_elem_of_dom in Hd. destruct Hd as [_ Hd].
    rw (rl_val_None req) //. specialize (Hok Hr). lia.
Qed.

(** ** Services *)

(** What the tables guarantee about a live service row. *)
Record good_service allocs (row : MLService Q) : Prop := {
  gs_live : ms_Phase row ∉ [SvcDeleting; SvcDeleted];
  gs_queued spec : ms_Phase row = SvcQueued -> unmarshal (ms_Spec row) = inl spec ->
    no_instances allocs (ms_ID row) /\
    forall i, vget (Decode (ms_AdmittedReplicas row) (length (ssp_Roles spec)) (Desired spec)) i = 0%Z;
  gs_nonneg spec role r : unmarshal (ms_Spec row) = inl spec -> role ∈ ssp_Roles spec ->
    (0 <= role_val role r)%Z }.

Lemma live_active (row : MLService Q) :
  ms_Phase row ∉ [SvcDeleting; SvcDeleted] -> ms_Phase row <> SvcQueued ->
  svc_in activeServicePhases row = true.
Proof.
  rw /svc_in bool_decide_eq_true. destruct (ms_Phase row); try set_solver.
Qed.

Lemma svc_missing_queued allocs key r (row : MLService Q) :
  ms_Phase row = SvcQueued -> svc_missing allocs key r row = 0%Z.
Proof. by rw /svc_missing /svc_in => ->. Qed.

Lemma svc_missing_vec allocs key r (row : MLService Q) spec :
  ms_Phase row ∉ [SvcDeleting; SvcDeleted] -> ms_Phase row <> SvcQueued ->
  unmarshal (ms_Spec row) = inl spec ->
  svc_missing allocs key r row =
  if decide (svc_key row = key)
  then vec_missing allocs (ms_ID row) (ssp_Roles spec)
         (Decode (ms_AdmittedReplicas row) (length (ssp_Roles spec)) (Desired spec)) r
  else 0%Z.
Proof.
  intros Hl Hq Hs. rw /svc_missing live_active // /serviceWorkload Hs missing_usage_service //=.
  rw /svc_in. rw bool_decide_false //. set_solver.
Qed.

(** The row after one admitted step. *)
Definition step_columns (row : MLService Q) (next : list Z) : list (svc_col Q) :=
  [SAdmitted (Encode next); SStatus (serviceStatusWithAdmission (ms_StatusJSON row) "" "")] ++
  (if svc_in [SvcQueued] row then [SPhase SvcCreating] else []).

Definition stepped (next : list Z) (row row' : MLService Q) : Prop :=
  ms_ID row' = ms_ID row /\ svc_key row' = svc_key row /\ ms_Spec row' = ms_Spec row /\
  ms_AdmittedReplicas row' = Encode next /\
  ms_Phase row' = if decide (ms_Phase row = SvcQueued) then SvcCreating else ms_Phase row.

Lemma svc_in_queued (row : MLService Q) :
  svc_in [SvcQueued] row = bool_decide (ms_Phase row = SvcQueued).
Proof. rw /svc_in. apply bool_decide_ext. set_solver. Qed.

Lemma step_columns_stepped now row cur next :
  svc_core cur = svc_core row -> stepped next cur (svc_Updates now (step_columns row next) cur).
Proof.
  rw /svc_core /stepped /svc_Updates /step_columns svc_in_queued. intros [= ? ? ? ? ? Hph].
  case_bool_decide as Hq; simpl; rw Hph; case_decide; try done.
Qed.

Lemma step_columns_core now row cur next :
  svc_core cur = svc_core row ->
  svc_core (svc_Updates now (step_columns row next) cur) =
  svc_core (foldl set_svc_col row (step_columns row next)).
Proof.
  rw /svc_core /svc_Updates /step_columns. intros [= ? ? ? ? ? ?].
  destruct (svc_in _ row); simpl; congruence.
Qed.

Lemma row_unique st allocs (row cur : MLService Q) :
  accounted allocs st -> cur ∈ db_services (rd_db st) -> ms_ID cur = ms_ID row ->
  forall x, x ∈ db_services (rd_db st) -> by_id row x = true -> x = cur.
Proof.
  intros Hac Hin Hid x Hx Hb. rw /by_id in Hb. unbool.
  eapply (unique_by ms_ID); [|done|done|congruence].
  by destruct (proj1 (NoDup_app _ _) (ac_ids _ _ Hac)) as (_ & _ & ?).
Qed.

Lemma services_NoDup st allocs : accounted allocs st -> NoDup (db_services (rd_db st)).
Proof.
  intros Hac. apply (NoDup_map_inv ms_ID).
  by destruct (proj1 (NoDup_app _ _) (ac_ids _ _ Hac)) as (_ & _ & ?).
Qed.

(** Leaving the status of a row aside, nothing changes. *)
Lemma accounted_services_frame allocs db cap u p f :
  accounted allocs {| rd_db := db; rd_capacity := cap; rd_usage := u |} ->
  (forall x, x ∈ db_services db -> p x = true -> svc_core (f x) = svc_core x) ->
  accounted allocs {| rd_db := set_services db (update_where p f (db_services db));
                      rd_capacity := cap; rd_usage := u |}.
Proof.
  intros [Hid Hdec Hcov] Hf. simpl in *. split; simpl.
  - rw /row_ids /=. replace (map ms_ID (update_where p f (db_services db)))
      with (map ms_ID (db_services db)); [done|].
    rw /update_where map_map. apply map_ext_in. intros x Hx%list_elem_of_In.
    destruct (p x) eqn:Hp; [|done]. specialize (Hf x Hx Hp). by injection Hf.
  - apply decodable_services; [done|]. intros x Hx Hp Ha. rw (serviceWorkload_core _ _ (Hf x Hx Hp)).
    apply Hdec; [done|]. move: Ha (Hf x Hx Hp). rw /svc_core /svc_in. by intros Ha [= _ _ _ _ _ <-].
  - intros key r. rw durable_services_frame //.
Qed.

Lemma set_reason_frame now (row : MLService Q) reason message db x :
  x ∈ db_services db -> ms_ID x <> ms_ID row ->
  x ∈ db_services (setServiceAdmissionReason now row reason message db).1.
Proof.
  intros Hx Hne. rw /setServiceAdmissionReason. case_decide; [done|]. simpl.
  apply update_where_other; [done|]. apply String.eqb_neq in Hne. by rw Hne.
Qed.

Lemma block_service_ok allocs now st row reason message :
  accounted allocs st -> accounted allocs (block_service now st row reason message).
Proof.
  destruct st as [db cap u]. rw /block_service /setServiceAdmissionReason /=.
  case_decide; simpl; [done|]. intros Hac. by apply accounted_services_frame.
Qed.

(** One admitted step: the row's reservation grows by at most the request. *)
Lemma svc_missing_stepped allocs key r (cur cur' : MLService Q) spec next increased :
  good_service allocs cur -> unmarshal (ms_Spec cur) = inl spec ->
  Next (Decode (ms_AdmittedReplicas cur) (length (ssp_Roles spec)) (Desired spec)) (Desired spec)
    = (next, increased) ->
  stepped next cur cur' ->
  (svc_missing allocs key r cur' <=
   svc_missing allocs key r cur +
   if decide (svc_key cur = key) then rl_val (totalRequests (step_roles spec increased)) r else 0)%Z.
Proof.
  intros Hg Hsp HN (Hid & Hk & Hs & Ha & Hph).
  set (admitted := Decode _ _ _) in HN.
  assert (Hlen : length admitted = length (Desired spec)) by by rw length_Decode length_Desired.
  pose proof (Next_spec _ _ _ _ Hlen (nonneg_Decode _ _ _) HN) as Hst.
  assert (Hdec : Decode (ms_AdmittedReplicas cur') (length (ssp_Roles spec)) (Desired spec) = next).
  { rw Ha -(length_Desired spec) -(ns_length _ _ _ _ Hst). apply Encode_Decode.
    apply (next_step_nonneg _ _ _ _ Hst), nonneg_Decode. }
  assert (Hlive' : ms_Phase cur' ∉ [SvcDeleting; SvcDeleted] /\ ms_Phase cur' <> SvcQueued).
  { pose proof (gs_live _ _ Hg). rw Hph. case_decide; [set_solver|done]. }
  destruct Hlive' as [Hl' Hq'].
  rw (svc_missing_vec _ _ _ cur' spec) //; [by rw Hs|]. rw Hdec Hk Hid.
  assert (Hstep : forall v, v = admitted -> (vec_missing allocs (ms_ID cur) (ssp_Roles spec) next r <=
    vec_missing allocs (ms_ID cur) (ssp_Roles spec) v r +
    rl_val (totalRequests (step_roles spec increased)) r)%Z).
  { intros v ->. eapply vec_missing_step; [done|by eapply Next_nodup|by rw length_Desired|].
    intros role Hr. by eapply gs_nonneg. }
  destruct (decide (ms_Phase cur = SvcQueued)) as [Hq|Hq].
  - rw svc_missing_queued //. case_decide; [|lia]. specialize (Hstep _ eq_refl).
    rw (vec_missing_zero _ _ _ admitted) in Hstep; [|lia].
    by destruct (gs_queued _ _ Hg spec Hq Hsp).
  - rw (svc_missing_vec _ _ _ cur spec) //; [by apply (gs_live _ _ Hg)|].
    case_decide; [by apply Hstep|lia].
Qed.

Lemma svc_holder_stepped allocs (cur cur' : MLService Q) spec next key a :
  good_service allocs cur -> unmarshal (ms_Spec cur) = inl spec -> stepped next cur cur' ->
  a ∈ allocs ->
  (ra_WorkloadID a, key) ∈ svc_holder cur' <-> (ra_WorkloadID a, key) ∈ svc_holder cur.
Proof.
  intros Hg Hsp (Hid & Hk & Hs & Ha & Hph) Hin.
  assert (svc_in activeServicePhases cur' = true) as Hact'.
  { pose proof (gs_live _ _ Hg). apply live_active; rw Hph; case_decide; set_solver. }
  rw /svc_holder Hact' Hid Hk. destruct (decide (ms_Phase cur = SvcQueued)) as [Hq|Hq].
  - rw {1}/svc_in Hq /=. destruct (gs_queued _ _ Hg spec Hq Hsp) as [Hno _].
    specialize (Hno a Hin). set_solver.
  - by rw (live_active cur (gs_live _ _ Hg) Hq).
Qed.

Lemma good_service_stepped allocs (cur cur' : MLService Q) next :
  good_service allocs cur -> stepped next cur cur' -> good_service allocs cur'.
Proof.
  intros [Hl Hq Hn] (Hid & Hk & Hs & Ha & Hph). split.
  - rw Hph. case_decide; [set_solver|done].
  - intros spec Hq'. rw Hph in Hq'. case_decide; done.
  - intros spec role r. rw Hs. apply Hn.
Qed.

Lemma accounted_stepped allocs now st (row cur : MLService Q) spec next increased trial :
  accounted allocs st -> good_service allocs cur -> unmarshal (ms_Spec cur) = inl spec ->
  cur ∈ db_services (rd_db st) -> svc_core cur = svc_core row ->
  Next (Decode (ms_AdmittedReplicas cur) (length (ssp_Roles spec)) (Desired spec)) (Desired spec)
    = (next, increased) ->
  accounted allocs
    {| rd_db := set_services (rd_db st)
         (update_where (by_id row) (svc_Updates now (step_columns row next)) (db_services (rd_db st)));
       rd_capacity := trial;
       rd_usage := add_usage (svc_key row) (totalRequests (step_roles spec increased)) (rd_usage st) |}.
Proof.
  intros Hac Hg Hsp Hin Hcore HN.
  assert (Hid : ms_ID cur = ms_ID row) by (move: Hcore; by intros [=]).
  assert (Hkey : svc_key cur = svc_key row).
  { move: Hcore. rw /svc_core /svc_key. by intros [= _ -> -> _ _ _]. }
  pose proof (step_columns_stepped now row cur next Hcore) as Hst.
  pose proof (row_unique _ _ _ _ Hac Hin Hid) as Hu.
  assert (Hby : by_id row cur = true) by (rw /by_id; by apply String.eqb_eq).
  split; simpl.
  - pose proof (ac_ids _ _ Hac) as Hnd. move: Hnd. rw /row_ids /= map_update_where //.
    intros x. rw /svc_Updates /step_columns. by destruct (svc_in _ row).
  - apply decodable_services; [apply (ac_dec _ _ Hac)|]. intros x Hx Hp _. rw (Hu x Hx Hp).
    destruct Hst as (_ & _ & Hs & _). rw /serviceWorkload Hs Hsp. eauto.
  - intros key r. rw (durable_services_one _ _ _ _ _ _ cur) //.
    + by eapply services_NoDup.
    + intros a Ha. by eapply svc_holder_stepped.
    + pose proof (svc_missing_stepped allocs key r cur _ spec next increased Hg Hsp HN Hst).
      pose proof (ac_cover _ _ Hac key r). rw usage_val_add -Hkey. lia.
Qed.

(** ** How a row evolves during a round *)

Definition svc_identity (x : MLService Q) :=
  (ms_ID x, ms_Namespace x, ms_Kind x, ms_Name x, ms_DisplayName x, ms_Description x, ms_Owner x,
   ms_Labels x, ms_Annotations x, ms_Spec x, ms_DispatchedReplicas x, ms_Generation x,
   ms_ObservedGeneration x, ms_CreatedAt x, ms_DeletedAt x).

Definition admitted_of (spec : MLServiceSpec Q) (x : MLService Q) : list Z :=
  Decode (ms_AdmittedReplicas x) (length (ssp_Roles spec)) (Desired spec).

(** Admission touches phase, status and admitted vector only; the phase moves
    from Queued to Creating or stays; the vector grows towards the desired
    one, its first growth covers every role that wants a replica, and a row
    that stays queued holds what it held. *)
Record svc_evolved (a b : MLService Q) : Prop := {
  se_identity : svc_identity b = svc_identity a;
  se_phase : ms_Phase b = ms_Phase a \/ (ms_Phase a = SvcQueued /\ ms_Phase b = SvcCreating);
  se_grows spec : unmarshal (ms_Spec a) = inl spec -> vle (admitted_of spec a) (admitted_of spec b);
  se_bounded spec i : unmarshal (ms_Spec a) = inl spec ->
    (vget (admitted_of spec b) i <= Z.max (vget (admitted_of spec a) i) (vget (Desired spec) i))%Z;
  se_serving spec : unmarshal (ms_Spec a) = inl spec ->
    (forall i, vget (admitted_of spec a) i = 0%Z) ->
    admitted_of spec b = admitted_of spec a \/
    forall i, i < length (Desired spec) -> (0 < vget (Desired spec) i)%Z ->
              (0 < vget (admitted_of spec b) i)%Z;
  se_column : ms_AdmittedReplicas b = ms_AdmittedReplicas a \/
    (ms_Phase b <> SvcQueued /\ exists v, ms_AdmittedReplicas b = Encode v) }.

Lemma svc_evolved_same a b :
  svc_identity b = svc_identity a ->
  ms_Phase b = ms_Phase a \/ (ms_Phase a = SvcQueued /\ ms_Phase b = SvcCreating) ->
  ms_AdmittedReplicas b = ms_AdmittedReplicas a -> svc_evolved a b.
Proof.
  intros Hi Hp Ha. assert (Hadm : forall spec, admitted_of spec b = admitted_of spec a)
    by by rw /admitted_of Ha.
  split; try done; [intros; rw Hadm; try intros i; try lia; by left..|by left].
Qed.

#[export] Instance svc_evolved_refl : Reflexive svc_evolved.
Proof. intros a. apply svc_evolved_same; auto. Qed.

#[export] Instance svc_evolved_trans : Transitive svc_evolved.
Proof.
  intros a b c Hab Hbc.
  assert (Hspec : ms_Spec b = ms_Spec a).
  { move: (se_identity _ _ Hab). rw /svc_identity. by intros [=]. }
  split.
  - by rw (se_identity _ _ Hbc) (se_identity _ _ Hab).
  - destruct (se_phase _ _ Hab) as [?|[? ?]], (se_phase _ _ Hbc) as [?|[? ?]];
      [left; congruence|right; split; congruence..|congruence].
  - intros spec Hs i. pose proof (se_grows _ _ Hab spec Hs i). rw -Hspec in Hs.
    pose proof (se_grows _ _ Hbc spec Hs i). lia.
  - intros spec i Hs. pose proof (se_bounded _ _ Hab spec i Hs). rw -Hspec in Hs.
    pose proof (se_bounded _ _ Hbc spec i Hs). lia.
  - intros spec Hs Hz. destruct (se_serving _ _ Hab spec Hs Hz) as [Heq|Hserv]; rw -Hspec in Hs.
    + rw -Heq in Hz |- *. by apply (se_serving _ _ Hbc).
    + right. intros i Hi Hd. specialize (Hserv i Hi Hd).
      pose proof (se_grows _ _ Hbc spec Hs i). lia.
  - destruct (se_column _ _ Hbc) as [->|]; [|by right].
    destruct (se_column _ _ Hab) as [->|[Hnq ?]]; [by left|]. right. split; [|done].
    destruct (se_phase _ _ Hbc) as [->|[? ->]]; done.
Qed.

Lemma svc_evolved_stepped now (row cur : MLService Q) spec next increased :
  svc_core cur = svc_core row -> unmarshal (ms_Spec cur) = inl spec ->
  Next (admitted_of spec cur) (Desired spec) = (next, increased) ->
  svc_evolved cur (svc_Updates now (step_columns row next) cur).
Proof.
  intros Hcore Hsp HN. set (cur' := svc_Updates _ _ _).
  destruct (step_columns_stepped now row cur next Hcore) as (_ & _ & _ & Ha & Hph).
  assert (Hlen : length (admitted_of spec cur) = length (Desired spec))
    by by rw length_Decode length_Desired.
  pose proof (Next_spec _ _ _ _ Hlen (nonneg_Decode _ _ _) HN) as Hst.
  assert (Hadm : admitted_of spec cur' = next).
  { rw /admitted_of Ha -(length_Desired spec) -(ns_length _ _ _ _ Hst). apply Encode_Decode.
    apply (next_step_nonneg _ _ _ _ Hst), nonneg_Decode. }
  split.
  - rw /cur' /svc_Updates /step_columns. by destruct (svc_in _ row).
  - rw Hph. case_decide; auto.
  - intros spec' Hs'. assert (spec' = spec) as -> by congruence. rw Hadm. intros i.
    rw (ns_value _ _ _ _ Hst). destruct (decide (i ∈ increased)); lia.
  - intros spec' i Hs'. assert (spec' = spec) as -> by congruence. rw Hadm (ns_value _ _ _ _ Hst).
    destruct (decide (i ∈ increased)) as [Hi|]; [|lia]. destruct (ns_below _ _ _ _ Hst i Hi). lia.
  - intros spec' Hs' Hz. assert (spec' = spec) as -> by congruence. right. intros i Hi Hd. rw Hadm (ns_value _ _ _ _ Hst).
    rw decide_True; [by eapply Next_serving_set|]. rw Hz. lia.
  - right. rw Hph Ha. split; [by case_decide|by exists next].
Qed.

(** What processing one service does to the tables. *)
Record service_effect (row : MLService Q) st st' : Prop := {
  ef_runs : db_runs (rd_db st') = db_runs (rd_db st);
  ef_policies : db_policies (rd_db st') = db_policies (rd_db st);
  ef_others x : x ∈ db_services (rd_db st) -> ms_ID x <> ms_ID row -> x ∈ db_services (rd_db st');
  ef_evolved : Forall2 svc_evolved (db_services (rd_db st)) (db_services (rd_db st')) }.

Lemma service_effect_refl row st : service_effect row st st.
Proof. split; [done..|]. by apply Forall_Forall2_diag, Forall_true. Qed.

Lemma service_effect_update (row : MLService Q) db cap u cap' u' p f :
  (forall x, p x = true -> ms_ID x = ms_ID row) ->
  (forall x, x ∈ db_services db -> p x = true -> svc_evolved x (f x)) ->
  service_effect row {| rd_db := db; rd_capacity := cap; rd_usage := u |}
    {| rd_db := set_services db (update_where p f (db_services db));
       rd_capacity := cap'; rd_usage := u' |}.
Proof.
  intros Hp Hf. split; [done..| |]; simpl.
  - intros x Hx Hne. apply update_where_other; [done|]. apply not_true_iff_false => H. by apply Hne, Hp.
  - by apply update_where_Forall2; [apply _|].
Qed.

Lemma block_service_effect now st (row row' : MLService Q) reason message :
  ms_ID row' = ms_ID row -> service_effect row st (block_service now st row' reason message).
Proof.
  intros Hid. destruct st as [db cap u]. rw /block_service /setServiceAdmissionReason /=.
  case_decide; simpl; [apply service_effect_refl|]. apply service_effect_update.
  - intros x Hx. unbool. congruence.
  - intros x _ _. by apply svc_evolved_same; auto.
Qed.

(** Two changes of the same service in a row. *)
Lemma service_effect_trans (row row1 : MLService Q) st st1 st2 :
  ms_ID row1 = ms_ID row ->
  service_effect row st st1 -> service_effect row1 st1 st2 -> service_effect row st st2.
Proof.
  intros Hid Hone Heff. split.
  - by rw (ef_runs _ _ _ Heff) (ef_runs _ _ _ Hone).
  - by rw (ef_policies _ _ _ Heff) (ef_policies _ _ _ Hone).
  - intros x Hx Hne. apply (ef_others _ _ _ Heff); [|congruence]. by apply (ef_others _ _ _ Hone).
  - etrans; [apply (ef_evolved _ _ _ Hone)|apply (ef_evolved _ _ _ Heff)].
Qed.

(** The vector a step stores is read back as it was computed. *)
Lemma Decode_next raw (spec : MLServiceSpec Q) next increased :
  Next (Decode raw (length (ssp_Roles spec)) (Desired spec)) (Desired spec) = (next, increased) ->
  Decode (Encode next) (length (ssp_Roles spec)) (Desired spec) = next.
Proof.
  intros HN. set (admitted := Decode raw _ _) in HN.
  assert (Hlen : length admitted = length (Desired spec)) by by rw /admitted length_Decode length_Desired.
  assert (Hnn : nonneg admitted) by apply nonneg_Decode.
  pose proof (Next_spec _ _ _ _ Hlen Hnn HN) as Hns.
  rw -(length_Desired spec) -(ns_length _ _ _ _ Hns). apply Encode_Decode.
  by eapply next_step_nonneg.
Qed.

Lemma admit_steps_ok allocs quotas u0 fuel now max spec target st (row cur : MLService Q) admitted st' :
  accounted allocs st -> quota_ok quotas u0 (rd_usage st) ->
  good_service allocs cur -> unmarshal (ms_Spec cur) = inl spec ->
  cur ∈ db_services (rd_db st) -> svc_core cur = svc_core row ->
  admitted = Decode (ms_AdmittedReplicas cur) (length (ssp_Roles spec)) (Desired spec) ->
  quotas !! svc_key row = Some (inl max) ->
  admit_steps fuel now max spec (Desired spec) target (svc_key row) st row admitted = Some st' ->
  accounted allocs st' /\ quota_ok quotas u0 (rd_usage st') /\ service_effect row st st'.
Proof.
  revert st row cur admitted. induction fuel as [|fuel IH]; intros st row cur admitted; [done|].
  intros Hac Hok Hg Hsp Hin Hcore Hadm Hq. simpl.
  assert (Hstay : accounted allocs st /\ quota_ok quotas u0 (rd_usage st) /\ service_effect row st st).
  { split_and!; [done|done|apply service_effect_refl]. }
  assert (Hblock : forall reason message,
    accounted allocs (block_service now st row reason message) /\
    quota_ok quotas u0 (rd_usage (block_service now st row reason message)) /\
    service_effect row st (block_service now st row reason message)).
  { intros. split; [by apply block_service_ok|split; [done|by apply block_service_effect]]. }
  destruct (Equal admitted (Desired spec)); [by intros [= <-]|].
  destruct (Next admitted (Desired spec)) as [next increased] eqn:HN.
  case_bool_decide; [by intros [= <-]|].
  destruct (_ || _) eqn:Hex; [case_match; intros [= <-]; apply Hblock|].
  apply orb_false_iff in Hex as [_ Hex].
  destruct (place_roles _ _ _) as [trial [[|] reason]]; [|intros [= <-]; apply Hblock].
  rw Hadm in HN. fold (step_columns row next).
  pose proof (accounted_stepped allocs now st row cur spec next increased trial Hac Hg Hsp Hin Hcore HN)
    as Hac'.
  set (st1 := {| rd_usage := _ |}) in Hac' |- *. intros Hrec.
  pose proof (step_columns_stepped now row cur next Hcore) as Hst.
  assert (Hid1 : ms_ID (foldl set_svc_col row (step_columns row next)) = ms_ID row).
  { rw /step_columns. by destruct (svc_in _ row). }
  assert (Hk1 : svc_key (foldl set_svc_col row (step_columns row next)) = svc_key row).
  { rw /step_columns. by destruct (svc_in _ row). }
  rw -Hk1 in Hrec. eapply (IH _ _ (svc_Updates now (step_columns row next) cur)) in Hrec.
  - destruct Hrec as (? & ? & Heff). split_and!; [done|done|].
    assert (Hidc : ms_ID cur = ms_ID row) by (move: Hcore; by intros [=]).
    assert (Hone : service_effect row st st1).
    { destruct st as [db cap u]. apply service_effect_update.
      - intros x Hx. rw /by_id in Hx. by unbool.
      - intros x Hx Hp. rw (row_unique _ _ row cur Hac Hin Hidc x Hx Hp).
        by eapply svc_evolved_stepped. }
    exact (service_effect_trans row _ st st1 st' Hid1 Hone Heff).
  - done.
  - by eapply quota_ok_add.
  - by eapply good_service_stepped.
  - by destruct Hst as (_ & _ & -> & _).
  - simpl. apply elem_of_update_where. exists cur. split; [done|].
    assert (by_id row cur = true) as ->; [|done]. rw /by_id. apply String.eqb_eq.
    move: Hcore. by intros [=].
  - by apply step_columns_core.
  - destruct Hst as (_ & _ & _ & -> & _).
    symmetry. by eapply Decode_next.
  - by rw Hk1.
Qed.

(** A service that wants nothing is activated without a reservation. *)
Lemma activate_ok allocs now db cap u (row : MLService Q) spec status :
  accounted allocs {| rd_db := db; rd_capacity := cap; rd_usage := u |} ->
  good_service allocs row -> unmarshal (ms_Spec row) = inl spec -> row ∈ db_services db ->
  ms_Phase row = SvcQueued ->
  accounted allocs
    {| rd_db := set_services db (update_where (by_id row)
         (svc_Updates now [SPhase SvcCreating; SStatus status]) (db_services db));
       rd_capacity := cap; rd_usage := u |}.
Proof.
  intros Hac Hg Hsp Hin Hq. pose proof (row_unique _ _ row row Hac Hin eq_refl) as Hu.
  destruct (gs_queued _ _ Hg spec Hq Hsp) as [Hno Hz]. split; simpl.
  - pose proof (ac_ids _ _ Hac) as Hnd. move: Hnd. by rw /row_ids /= map_update_where.
  - apply decodable_services; [apply (ac_dec _ _ Hac)|]. intros x Hx Hp _. rw (Hu x Hx Hp).
    rw /serviceWorkload /= Hsp. eauto.
  - intros key r. rw (durable_services_one _ _ _ _ _ _ row) //.
    + by apply (services_NoDup _ _ Hac).
    + rw /by_id. by apply String.eqb_eq.
    + intros a Ha. specialize (Hno a Ha). rw /svc_holder /svc_in /= Hq /=. set_solver.
    + rw (svc_missing_queued _ _ _ row) //.
      rw (svc_missing_vec _ _ _ _ spec) //=; [set_solver|].
      rw vec_missing_zero //. pose proof (ac_cover _ _ Hac key r). simpl in *. case_decide; lia.
Qed.

Lemma activate_effect now db cap u (row : MLService Q) status allocs :
  accounted allocs {| rd_db := db; rd_capacity := cap; rd_usage := u |} ->
  row ∈ db_services db -> ms_Phase row = SvcQueued ->
  service_effect row {| rd_db := db; rd_capacity := cap; rd_usage := u |}
    {| rd_db := set_services db (update_where (by_id row)
         (svc_Updates now [SPhase SvcCreating; SStatus status]) (db_services db));
       rd_capacity := cap; rd_usage := u |}.
Proof.
  intros Hac Hin Hq. apply service_effect_update.
  - intros x Hx. rw /by_id in Hx. by unbool.
  - intros x Hx Hp. rw (row_unique _ _ row row Hac Hin eq_refl x Hx Hp).
    apply svc_evolved_same; [done| |done]. by right.
Qed.

Lemma admitService_ok allocs quotas u0 now st (row : MLService Q) st' :
  accounted allocs st -> quota_ok quotas u0 (rd_usage st) ->
  good_service allocs row -> row ∈ db_services (rd_db st) ->
  admitService now quotas st row = inl st' ->
  accounted allocs st' /\ quota_ok quotas u0 (rd_usage st') /\ service_effect row st st'.
Proof.
  intros Hac Hok Hg Hin. rw /admitService.
  destruct (unmarshal (ms_Spec row)) as [spec|] eqn:Hsp; [|done].
  set (admitted := Decode _ _ _).
  assert (Hblock : forall reason message,
    accounted allocs (block_service now st row reason message) /\
    quota_ok quotas u0 (rd_usage (block_service now st row reason message)) /\
    service_effect row st (block_service now st row reason message)).
  { intros. split; [by apply block_service_ok|split; [done|by apply block_service_effect]]. }
  rw svc_in_queued. destruct (Equal admitted (Desired spec)) eqn:Heq; [case_bool_decide as Hq; cbn [negb andb]|].
  - intros [= <-]. destruct st as [db cap u].
    split_and!; [by eapply activate_ok|done|by eapply activate_effect].
  - intros [= <-]. split_and!; [done|done|apply service_effect_refl].
  - rw andb_false_r. fold (svc_key row).
    destruct (quotas !! svc_key row) as [[max|]|] eqn:Hquota; [|intros [= <-]; apply Hblock..].
    destruct (admit_steps _ _ _ _ _ _ _ _ _ _) as [st1|] eqn:Hsteps; [|done]. intros [= <-].
    by eapply admit_steps_ok.
Qed.

(** The loop over services. *)
Definition services_inv allocs quotas u0 db0 (rest : list (MLService Q)) st : Prop :=
  accounted allocs st /\ quota_ok quotas u0 (rd_usage st) /\
  db_runs (rd_db st) = db_runs db0 /\ db_policies (rd_db st) = db_policies db0 /\
  Forall2 svc_evolved (db_services db0) (db_services (rd_db st)) /\
  NoDup (map ms_ID rest) /\
  (forall row, row ∈ rest -> row ∈ db_services (rd_db st) /\ good_service allocs row).

Lemma services_loop allocs quotas u0 db0 now st rows st' :
  services_inv allocs quotas u0 db0 rows st ->
  fold_err (admitService now quotas) st rows = inl st' ->
  services_inv allocs quotas u0 db0 [] st'.
Proof.
  intros Hinv. apply (fold_err_rest (services_inv allocs quotas u0 db0)); [done|].
  clear st rows st' Hinv. intros st row rest st1 (Hac & Hok & Hr & Hp & Hev & Hnd & Hrest) Hstep.
  destruct (Hrest row) as [Hin Hg]; [by left|].
  destruct (admitService_ok _ _ _ _ _ _ _ Hac Hok Hg Hin Hstep) as (Hac' & Hok' & Heff).
  apply NoDup_cons in Hnd as [Hx Hnd]. rw /services_inv.
  rw (ef_runs _ _ _ Heff) (ef_policies _ _ _ Heff). split_and!; try done.
  - etrans; [exact Hev|apply (ef_evolved _ _ _ Heff)].
  - intros x Hxr. destruct (Hrest x) as [? ?]; [by right|]. split; [|done].
    apply (ef_others _ _ _ Heff); [done|]. intros E. apply Hx. rw -E.
    by apply list_elem_of_fmap_2.
Qed.
End Safety.
