(* ===== verification/AdmissionRuns.v ===== *)
(** * Admission rounds: the run loop and the round as a whole

    The queued runs are offered what the services left; the theorems on
    [admitLocked] put the two loops together. *)

From Stdlib Require Import ssreflect ZArith Lia Permutation Sorted.
From stdpp Require Import base gmap list strings.
From S2P Require Import Prelude Placement PlacementFacts ApiTypes Store ServiceAdmission Admission AdmissionUsage AdmissionSafety.

Section Runs.
Context {Q : Type} `{!Quantity Q} `{!QuantityLaws Q}.
Implicit Types (allocs : list (ResourceAllocation Q)) (st : round Q).

Definition run_identity (x : MLRun Q) :=
  (mr_ID x, mr_Namespace x, mr_Name x, mr_DisplayName x, mr_Description x, mr_Owner x, mr_Labels x,
   mr_Annotations x, mr_Spec x, mr_Priority x, mr_ScheduledAt x, mr_CreatedAt x, mr_DeletedAt x).

(** Admission touches phase and status only, and only moves a live queued run
    to Creating. *)
Record run_evolved (a b : MLRun Q) : Prop := {
  re_identity : run_identity b = run_identity a;
  re_phase : mr_Phase b = mr_Phase a \/
             (mr_Phase a = RunQueued /\ mr_DeletedAt a = None /\ mr_Phase b = RunCreating) }.

#[local] Instance run_evolved_refl : Reflexive run_evolved.
Proof. intros a. split; auto. Qed.

#[local] Instance run_evolved_trans : Transitive run_evolved.
Proof.
  intros a b c [Hi1 Hp1] [Hi2 Hp2]. split; [by rw Hi2|].
  destruct Hp1 as [?|(? & ? & ?)], Hp2 as [?|(? & ? & ?)];
    [left; congruence| |right; split_and!; congruence|congruence].
  right. split_and!; try congruence. move: Hi1. rw /run_identity. by intros [= _ _ _ _ _ _ _ _ _ _ _ _ <-].
Qed.

Record run_effect (run : MLRun Q) st st' : Prop := {
  rf_services : db_services (rd_db st') = db_services (rd_db st);
  rf_policies : db_policies (rd_db st') = db_policies (rd_db st);
  rf_others x : x ∈ db_runs (rd_db st) -> mr_ID x <> mr_ID run -> x ∈ db_runs (rd_db st');
  rf_evolved : Forall2 run_evolved (db_runs (rd_db st)) (db_runs (rd_db st')) }.

Lemma run_effect_update (run : MLRun Q) db cap u cap' u' p f :
  (forall x, p x = true -> mr_ID x = mr_ID run) ->
  (forall x, x ∈ db_runs db -> p x = true -> run_evolved x (f x)) ->
  run_effect run {| rd_db := db; rd_capacity := cap; rd_usage := u |}
    {| rd_db := set_runs db (update_where p f (db_runs db)); rd_capacity := cap'; rd_usage := u' |}.
Proof.
  intros Hp Hf. split; [done..| |]; simpl.
  - intros x Hx Hne. apply update_where_other; [done|]. apply not_true_iff_false => H. by apply Hne, Hp.
  - by apply update_where_Forall2; [apply _|].
Qed.

Lemma accounted_runs_frame allocs db cap u p f :
  accounted allocs {| rd_db := db; rd_capacity := cap; rd_usage := u |} ->
  (forall x, x ∈ db_runs db -> p x = true -> run_core (f x) = run_core x) ->
  accounted allocs {| rd_db := set_runs db (update_where p f (db_runs db));
                      rd_capacity := cap; rd_usage := u |}.
Proof.
  intros [Hid Hdec Hcov] Hf. simpl in *. split; simpl.
  - rw /row_ids /=. replace (map mr_ID (update_where p f (db_runs db)))
      with (map mr_ID (db_runs db)); [done|].
    rw /update_where map_map. apply map_ext_in. intros x Hx%list_elem_of_In.
    destruct (p x) eqn:Hp; [|done]. specialize (Hf x Hx Hp). by injection Hf.
  - apply decodable_runs; [done|]. intros x Hx Hp Ha. rw (runWorkload_core _ _ (Hf x Hx Hp)).
    apply Hdec; [done|]. move: Ha (Hf x Hx Hp). rw /run_core /run_in. by intros Ha [= _ _ _ _ <-].
  - intros key r. rw durable_runs_frame //.
Qed.

Lemma block_run_ok allocs now st run reason message :
  accounted allocs st -> accounted allocs (block_run now st run reason message).
Proof.
  destruct st as [db cap u]. rw /block_run /setQueueReason /=. case_decide; simpl; [done|].
  intros Hac. by apply accounted_runs_frame.
Qed.

Lemma block_run_effect now st (run : MLRun Q) reason message :
  run_effect run st (block_run now st run reason message).
Proof.
  destruct st as [db cap u]. rw /block_run /setQueueReason /=. case_decide; simpl.
  - split; [done..|]. by apply Forall_Forall2_diag, Forall_true.
  - apply run_effect_update; [intros x Hx; by unbool|]. intros x _ _. split; auto.
Qed.

Lemma runs_NoDup st allocs : accounted allocs st -> NoDup (map mr_ID (db_runs (rd_db st))).
Proof. intros Hac. by destruct (proj1 (NoDup_app _ _) (ac_ids _ _ Hac)) as (? & _ & _). Qed.

(** A queued run that is still there is the only row its update hits. *)
Lemma still_queued_unique allocs st (run : MLRun Q) :
  accounted allocs st -> run ∈ db_runs (rd_db st) ->
  forall x, x ∈ db_runs (rd_db st) -> still_queued run x = true -> x = run.
Proof.
  intros Hac Hin x Hx Hs. rw /still_queued in Hs. unbool.
  eapply (unique_by mr_ID); [by eapply runs_NoDup|done..].
Qed.

Lemma admit_run_update allocs now db cap u (run : MLRun Q) w status cap' :
  accounted allocs {| rd_db := db; rd_capacity := cap; rd_usage := u |} ->
  run ∈ db_runs db -> is_queued run = true -> no_instances allocs (mr_ID run) ->
  runWorkload run = inl w ->
  accounted allocs
    {| rd_db := set_runs db (update_where (still_queued run)
         (run_Updates now [RPhase RunCreating; RStatus status]) (db_runs db));
       rd_capacity := cap';
       rd_usage := add_usage (run_key run) (totalRequests (dw_roles w)) u |}.
Proof.
  intros Hac Hin Hq Hno Hw. pose proof (still_queued_unique _ _ run Hac Hin) as Hu. simpl in Hu.
  assert (Hph : mr_Phase run = RunQueued).
  { rw /is_queued /run_in in Hq. unbool. set_solver. }
  set (run' := run_Updates now [RPhase RunCreating; RStatus status] run).
  assert (Hw' : runWorkload run' = inl w).
  { move: Hw. rw /runWorkload /run_in /=. destruct (unmarshal (mr_Spec run)); [|done].
    intros [= <-]. by rw Hph. }
  split; simpl.
  - pose proof (ac_ids _ _ Hac) as Hnd. move: Hnd. by rw /row_ids /= map_update_where.
  - apply decodable_runs; [apply (ac_dec _ _ Hac)|]. intros x Hx Hp _. rw (Hu x Hx Hp).
    fold run'. eauto.
  - intros key r. rw (durable_runs_one _ _ _ _ _ _ run) //.
    + apply (NoDup_map_inv mr_ID). by apply (runs_NoDup _ _ Hac).
    + rw /still_queued Hq String.eqb_refl //.
    + intros a Ha. specialize (Hno a Ha). rw /run_holder /run_in /= Hph /=. set_solver.
    + fold run'. pose proof (ac_cover _ _ Hac key r) as Hc. simpl in Hc. rw usage_val_add.
      assert (run_missing allocs key r run = 0%Z) as -> by by rw /run_missing /run_in Hph.
      rw /run_missing Hw'. assert (run_in activeRunPhases run' = true) as -> by done.
      pose proof (f_equal fst (runWorkload_holder _ _ Hw)) as Hid.
      pose proof (f_equal snd (runWorkload_holder _ _ Hw)) as Hkey. simpl in Hid, Hkey.
      rw missing_usage_fresh; [by rw Hid| |rw Hkey; lia].
      move: Hw. rw /runWorkload /run_in Hph. destruct (unmarshal (mr_Spec run)); [|done].
      by intros [= <-].
Qed.

Lemma admitRun_ok allocs quotas u0 now st (run : MLRun Q) st' :
  accounted allocs st -> quota_ok quotas u0 (rd_usage st) ->
  run ∈ db_runs (rd_db st) -> is_queued run = true -> no_instances allocs (mr_ID run) ->
  admitRun now quotas st run = inl st' ->
  accounted allocs st' /\ quota_ok quotas u0 (rd_usage st') /\ run_effect run st st'.
Proof.
  intros Hac Hok Hin Hq Hno. rw /admitRun.
  destruct (runWorkload run) as [w|] eqn:Hw; [|done].
  assert (Hblock : forall reason message,
    accounted allocs (block_run now st run reason message) /\
    quota_ok quotas u0 (rd_usage (block_run now st run reason message)) /\
    run_effect run st (block_run now st run reason message)).
  { intros. split; [by apply block_run_ok|split; [done|by apply block_run_effect]]. }
  assert (Hkey : (mr_Namespace run, dw_pool w) = run_key run).
  { pose proof (f_equal snd (runWorkload_holder _ _ Hw)) as Hk. rw /= /dw_key /run_key in Hk.
    rw /run_key. congruence. }
  rw Hkey. destruct (quotas !! run_key run) as [[max|]|] eqn:Hquota;
    [|intros [= <-]; apply Hblock..].
  destruct (exceeds (totalRequests _) max); [intros [= <-]; apply Hblock|].
  destruct (exceeds (sumLists _ _) max) eqn:Hex; [intros [= <-]; apply Hblock|].
  destruct (place_roles _ _ _) as [trial [[|] reason]]; [|intros [= <-]; apply Hblock].
  destruct st as [db cap u]. cbn [rd_db rd_capacity rd_usage] in *.
  assert (Heff : forall cap' u', run_effect run {| rd_db := db; rd_capacity := cap; rd_usage := u |}
    {| rd_db := set_runs db (update_where (still_queued run)
         (run_Updates now [RPhase RunCreating; RStatus (statusWithQueue (mr_StatusJSON run) "" "")])
         (db_runs db)); rd_capacity := cap'; rd_usage := u' |}).
  { intros. apply run_effect_update.
    - intros x Hx. rw /still_queued in Hx. by unbool.
    - intros x _ Hx. rw /still_queued /is_queued /run_in in Hx. unbool. split; [done|]. right.
      split_and!; [set_solver| |done]. by destruct (mr_DeletedAt x). }
  destruct (Nat.eqb _ 1) eqn:Hone; intros [= <-]; split_and!; auto.
  - by eapply admit_run_update.
  - by eapply quota_ok_add.
  - exfalso. apply Nat.eqb_neq in Hone. apply Hone.
    apply (rows_affected_one _ _ run); [|done| |exact (still_queued_unique _ _ run Hac Hin)].
    + apply (NoDup_map_inv mr_ID), (runs_NoDup _ _ Hac).
    + rw /still_queued Hq String.eqb_refl //.
Qed.

(** ** The loop over queued runs *)

Definition runs_inv allocs quotas u0 db1 (rest : list (MLRun Q)) st : Prop :=
  accounted allocs st /\ quota_ok quotas u0 (rd_usage st) /\
  db_services (rd_db st) = db_services db1 /\ db_policies (rd_db st) = db_policies db1 /\
  Forall2 run_evolved (db_runs db1) (db_runs (rd_db st)) /\
  NoDup (map mr_ID rest) /\
  (forall run, run ∈ rest -> run ∈ db_runs (rd_db st) /\ is_queued run = true /\
                             no_instances allocs (mr_ID run)).

Lemma runs_loop allocs quotas u0 db1 now st runs st' :
  runs_inv allocs quotas u0 db1 runs st ->
  fold_err (admitRun now quotas) st runs = inl st' ->
  runs_inv allocs quotas u0 db1 [] st'.
Proof.
  intros Hinv. apply (fold_err_rest (runs_inv allocs quotas u0 db1)); [done|].
  clear st runs st' Hinv.
  intros st run rest st1 (Hac & Hok & Hr & Hp & Hev & Hnd & Hrest) Hstep.
  destruct (Hrest run) as (Hin & Hq & Hno); [by left|].
  destruct (admitRun_ok _ _ _ _ _ _ _ Hac Hok Hin Hq Hno Hstep) as (Hac' & Hok' & Heff).
  apply NoDup_cons in Hnd as [Hx Hnd]. rw /runs_inv.
  rw (rf_services _ _ _ Heff) (rf_policies _ _ _ Heff). split_and!; try done.
  - etrans; [exact Hev|apply (rf_evolved _ _ _ Heff)].
  - intros x Hxr. destruct (Hrest x) as (? & ? & ?); [by right|]. split_and!; [|done|done].
    apply (rf_others _ _ _ Heff); [done|]. intros E. apply Hx. rw -E.
    by apply list_elem_of_fmap_2.
Qed.

(** ** The round *)

(** What the other components guarantee about the tables a round starts
    from: ids are unique, a queued workload has no running instance, a queued
    service has no admitted replica, requests are not negative. *)
Record admissible (db : DB Q) allocs : Prop := {
  ad_ids : NoDup (row_ids db);
  ad_runs run : run ∈ db_runs db -> is_queued run = true -> no_instances allocs (mr_ID run);
  ad_queued row spec : row ∈ db_services db -> ms_Phase row = SvcQueued ->
    unmarshal (ms_Spec row) = inl spec ->
    no_instances allocs (ms_ID row) /\ forall i, vget (admitted_of spec row) i = 0%Z;
  ad_nonneg row spec role r : row ∈ db_services db -> unmarshal (ms_Spec row) = inl spec ->
    role ∈ ssp_Roles spec -> (0 <= role_val role r)%Z }.

Lemma elem_of_liveServices (db : DB Q) row :
  row ∈ liveServices db <->
  row ∈ db_services db /\ ms_Phase row ∉ [SvcDeleting; SvcDeleted] /\ ms_DeletedAt row = None.
Proof.
  rw /liveServices elem_of_sort_slice list_elem_of_In filter_In -list_elem_of_In andb_true_iff.
  rw /svc_in negb_true_iff bool_decide_eq_false. destruct (ms_DeletedAt row); naive_solver.
Qed.

Lemma elem_of_queuedRuns (db : DB Q) run :
  run ∈ queuedRuns db <-> run ∈ db_runs db /\ is_queued run = true.
Proof. by rw /queuedRuns elem_of_sort_slice list_elem_of_In filter_In -list_elem_of_In. Qed.

Lemma NoDup_sorted_filter {A} (key : A -> string) less p l :
  NoDup (map key l) -> NoDup (map key (sort_slice less (List.filter p l))).
Proof.
  intros H. rw (Permutation_map key (sort_slice_perm less (List.filter p l))).
  revert H. induction l as [|x l IH]; simpl; [done|]. intros [Hx Hnd]%NoDup_cons.
  destruct (p x); simpl; [|by apply IH]. constructor; [|by apply IH].
  intros (y & Hy & Hin)%list_elem_of_fmap. apply Hx, list_elem_of_fmap. exists y. split; [done|].
  apply list_elem_of_In, filter_In in Hin as [? _]. by apply list_elem_of_In.
Qed.

(** The usage [loadActive] reports, when it can read the tables. *)
Definition usage_of (db : DB Q) allocs : option (gmap quotaKey (gmap string Q)) :=
  match loadActive db allocs with inl (_, usage, _) => Some usage | inr _ => None end.

Record round_ok (db : DB Q) (snapshot : ResourceSnapshot Q)
    (quotas : gmap quotaKey (quotaResult Q)) st : Prop := {
  ro_accounted : accounted (rs_Allocations snapshot) st;
  ro_quota u0 : usage_of db (rs_Allocations snapshot) = Some u0 ->
    quota_ok quotas u0 (rd_usage st);
  ro_services : Forall2 svc_evolved (db_services db) (db_services (rd_db st));
  ro_runs : Forall2 run_evolved (db_runs db) (db_runs (rd_db st));
  ro_policies : db_policies (rd_db st) = db_policies db }.

Lemma admitLocked_ok now db snapshot quotas caps st :
  admissible db (rs_Allocations snapshot) ->
  admitLocked now db snapshot quotas caps = inl st -> round_ok db snapshot quotas st.
Proof.
  intros Had. rw /admitLocked /start_round.
  destruct (loadActive db (rs_Allocations snapshot)) as [[[active usage] actual]|] eqn:Hload; [|done].
  set (st0 := {| rd_usage := usage |}).
  destruct (admitServicesLocked now quotas st0) as [st1|] eqn:Hsvc; [|done]. intros Hruns.
  pose proof (proj1 (NoDup_app _ _) (ad_ids _ _ Had)) as (Hnd1 & _ & Hnd2).
  assert (Hac0 : accounted (rs_Allocations snapshot) st0).
  { split; [apply (ad_ids _ _ Had)|by eapply loadActive_decodable|]. intros key r.
    rw -(loadActive_durable _ _ _ _ _ Hload (ad_ids _ _ Had)). done. }
  assert (Hs1 : services_inv (rs_Allocations snapshot) quotas usage db [] st1).
  { eapply services_loop; [|exact Hsvc]. split_and!; try done.
    - apply quota_ok_refl.
    - by apply NoDup_sorted_filter.
    - intros row (Hin & Hl & _)%elem_of_liveServices. split; [done|]. split; [done| |].
      + intros spec Hq Hsp. by eapply (ad_queued _ _ Had).
      + intros spec role r. by apply (ad_nonneg _ _ Had). }
  destruct Hs1 as (Hac1 & Hok1 & Hr1 & Hp1 & Hev1 & _).
  assert (Hs2 : runs_inv (rs_Allocations snapshot) quotas usage (rd_db st1) [] st).
  { eapply runs_loop; [|exact Hruns]. split_and!; try done.
    - apply NoDup_sorted_filter. by rw Hr1.
    - intros run (Hin & Hq)%elem_of_queuedRuns. split_and!; [done|done|].
      apply (ad_runs _ _ Had); [by rw -Hr1|done]. }
  destruct Hs2 as (Hac2 & Hok2 & Hs2 & Hp2 & Hev2 & _).
  split; [done| | | |congruence].
  - intros u0. rw /usage_of Hload. by intros [= <-].
  - by rw Hs2.
  - by rw -Hr1.
Qed.
End Runs.

(** ** Admission rounds: pool capacity

    A resource pool with an explicit capacity is a budget.  Every workload
    that is admitted into the pool is charged to it exactly once, in the same
    round, by the same amount as it is charged to its tenant's quota; so what
    the pool's tenants hold together never outgrows the capacity. *)

Section Budget.
Context {Q : Type} `{!Quantity Q} `{!QuantityLaws Q}.
Implicit Types (usage : gmap quotaKey (gmap string Q)) (s : admissionState Q) (st : round Q).

(** ** Usage of a pool over all tenants *)

Definition pool_usage usage (pool r : string) : Z :=
  zsum (map (fun p => if decide (p.1.2 = pool) then rl_val p.2 r else 0%Z) (map_to_list usage)).

Lemma pool_usage_insert usage key l pool r :
  pool_usage (<[key := l]> usage) pool r =
  (pool_usage usage pool r +
   if decide (key.2 = pool) then rl_val l r - usage_val usage key r else 0)%Z.
Proof.
  assert (Hfresh : forall m : gmap quotaKey (gmap string Q), m !! key = None -> forall l,
    pool_usage (<[key := l]> m) pool r =
    (pool_usage m pool r + if decide (key.2 = pool) then rl_val l r else 0)%Z).
  { intros m Hm l'. rw /pool_usage (zsum_perm _ _ (Permutation_map _ (map_to_list_insert _ _ _ Hm))) /=.
    case_decide; lia. }
  rw -insert_delete_eq Hfresh; [apply lookup_delete_eq|].
  destruct (usage !! key) as [old|] eqn:Hold.
  - assert (Hval : usage_val usage key r = rl_val old r) by by rw /usage_val /usage_get Hold.
    rw -{2}(insert_delete_id usage key old Hold) Hfresh; [apply lookup_delete_eq|].
    rw Hval. case_decide; lia.
  - rw delete_id // /usage_val /usage_get Hold /= rl_val_empty. case_decide; lia.
Qed.

Lemma pool_usage_add key req usage pool r :
  pool_usage (add_usage key req usage) pool r =
  (pool_usage usage pool r + if decide (key.2 = pool) then rl_val req r else 0)%Z.
Proof.
  rw /add_usage pool_usage_insert rl_val_sum /usage_val. case_decide; lia.
Qed.

(** [newAdmissionState] subtracts exactly that from the pool's capacity. *)
Lemma used_by_pool_val usage pool r :
  rl_val (map_get ∅ (used_by_pool usage) pool) r = pool_usage usage pool r.
Proof.
  rw /used_by_pool. revert usage. apply (map_fold_weak_ind (fun acc usage =>
    rl_val (map_get ∅ acc pool) r = pool_usage usage pool r)).
  - by rw map_get_empty rl_val_empty /pool_usage map_to_list_empty.
  - intros [tenant p] l m acc Hm IH. rw pool_usage_insert /usage_val /usage_get Hm /= rl_val_empty.
    case_decide; subst; [rw map_get_insert rl_val_sum IH|rw map_get_insert_ne // IH]; lia.
Qed.

(** ** The budget of one pool across placements *)

Definition budget_val s (pool r : string) : option Z := (fun b => rl_val b r) <$> as_overrides s !! pool.

Lemma budget_val_clone s pool r : budget_val (admissionState_clone s) pool r = budget_val s pool r.
Proof. rw /budget_val /= lookup_fmap. by destruct (as_overrides s !! pool). Qed.

(** A successful placement of one role in [pool'] lowers that pool's budget by
    the request and leaves it nonnegative where it is drawn on. *)
Lemma admissionState_place_budget pool' req n selector tolerations s s' why pool r b :
  admissionState_place pool' req n selector tolerations s = (s', (true, why)) ->
  budget_val s pool r = Some b ->
  exists b', budget_val s' pool r = Some b' /\
    b' = (b - if decide (pool' = pool) then Z.max 0 n * rl_val req r else 0)%Z /\
    ((0 <= b)%Z -> (0 <= b')%Z).
Proof.
  rw /admissionState_place. destruct (as_unavailable s !! pool'); [done|].
  destruct (as_overrides s !! pool') as [budget|] eqn:Hov.
  - destruct (resourceBudget_place req (Z.to_nat n) budget) as [budget' ok] eqn:Hb.
    destruct ok; [|done]. destruct (nodeState_place _ _ _ _ _) as [nodes res].
    intros [= <- _]. rw /budget_val /=. destruct (decide (pool' = pool)) as [<-|Hne].
    + rw Hov lookup_insert_eq /=. intros [= <-]. eexists. split; [done|].
      destruct (resourceBudget_place_sound _ _ _ _ Hb r) as [Hv Hpos]. split; [lia|]. intros H0.
      destruct (decide (Z.to_nat n = 0)) as [Hz|Hz]; [rw Hv Hz; lia|].
      destruct (decide (r ∈ dom req)) as [Hd|Hd]; [by apply Hpos|].
      rw Hv (rl_val_None req); [by apply not_elem_of_dom|lia].
    + rw lookup_insert_ne //. intros ->. exists b. split_and!; [done|lia|done].
  - destruct (nodeState_place _ _ _ _ _) as [nodes [ok why']]. intros [= <- _ _].
    rw /budget_val /=. intros Hb. exists b. split; [done|].
    rw decide_False; [|split; lia]. intros ->. rw Hov in Hb. done.
Qed.

Lemma place_roles_budget (w : desiredWorkload Q) roles s s' why pool r b :
  place_roles w roles s = (s', (true, why)) -> budget_val s pool r = Some b ->
  exists b', budget_val s' pool r = Some b' /\
    b' = (b - if decide (dw_pool w = pool) then rl_val (totalRequests roles) r else 0)%Z /\
    ((0 <= b)%Z -> (0 <= b')%Z).
Proof.
  revert s b. induction roles as [|role roles IH]; intros s b; simpl.
  - intros [= <- _] Hb. exists b. split_and!; [done| |done].
    rw rl_val_totalRequests /=. case_decide; lia.
  - destruct (admissionState_place _ _ _ _ _ _) as [s1 [[|] why1]] eqn:Hp; [|done].
    intros Hrest Hb. destruct (admissionState_place_budget _ _ _ _ _ _ _ _ _ _ _ Hp Hb)
      as (b1 & Hb1 & Hv1 & Hp1).
    destruct (IH _ _ Hrest Hb1) as (b2 & Hb2 & Hv2 & Hp2).
    exists b2. split_and!; [done| |auto].
    rw Hv2 Hv1 !rl_val_totalRequests /=. case_decide; lia.
Qed.

(** ** The invariant of a round *)

(** Budget and pool usage move against each other; the budget of a resource
    that was nonnegative stays so. *)
Definition budget_inv (s0 : admissionState Q) (u0 : gmap quotaKey (gmap string Q)) st : Prop :=
  forall pool r b0, budget_val s0 pool r = Some b0 ->
    exists b, budget_val (rd_capacity st) pool r = Some b /\
      (b + pool_usage (rd_usage st) pool r = b0 + pool_usage u0 pool r)%Z /\
      ((0 <= b0)%Z -> (0 <= b)%Z).

Lemma budget_inv_admit s0 u0 db' st (w : desiredWorkload Q) roles trial why tenant :
  budget_inv s0 u0 st ->
  place_roles w roles (admissionState_clone (rd_capacity st)) = (trial, (true, why)) ->
  budget_inv s0 u0
    {| rd_db := db'; rd_capacity := trial;
       rd_usage := add_usage (tenant, dw_pool w) (totalRequests roles) (rd_usage st) |}.
Proof.
  intros Hinv Hp pool r b0 Hb0. destruct (Hinv pool r b0 Hb0) as (b & Hb & Hsum & Hpos).
  rw -budget_val_clone in Hb. destruct (place_roles_budget _ _ _ _ _ _ _ _ Hp Hb) as (b' & ? & -> & ?).
  eexists. split; [done|]. split; [|auto]. simpl. rw pool_usage_add /=. case_decide; lia.
Qed.

Lemma budget_inv_db s0 u0 db db' cap u :
  budget_inv s0 u0 {| rd_db := db; rd_capacity := cap; rd_usage := u |} ->
  budget_inv s0 u0 {| rd_db := db'; rd_capacity := cap; rd_usage := u |}.
Proof. done. Qed.

Lemma admit_steps_budget s0 u0 fuel now max spec desired target tenant st row admitted st' :
  budget_inv s0 u0 st ->
  admit_steps fuel now max spec desired target (tenant, dw_pool target) st row admitted = Some st' ->
  budget_inv s0 u0 st'.
Proof.
  revert st row admitted. induction fuel as [|fuel IH]; intros st row admitted Hinv; [done|]. simpl.
  destruct (Equal admitted desired); [by intros [= <-]|].
  destruct (Next admitted desired) as [next increased]. case_bool_decide; [by intros [= <-]|].
  destruct (_ || _); [case_match; intros [= <-]; by destruct st|].
  destruct (place_roles _ _ _) as [trial [[|] reason]] eqn:Hp; [|intros [= <-]; by destruct st].
  apply IH. by eapply budget_inv_admit.
Qed.

Lemma admitService_budget s0 u0 now quotas st row st' :
  budget_inv s0 u0 st -> admitService now quotas st row = inl st' -> budget_inv s0 u0 st'.
Proof.
  intros Hinv. rw /admitService. destruct (unmarshal (ms_Spec row)) as [spec|]; [|done].
  destruct (negb _ && _); [by intros [= <-]|].
  destruct (Equal _ _); [intros [= <-]; by destruct st|].
  destruct (quotas !! _) as [[max|]|]; [|intros [= <-]; by destruct st..].
  destruct (admit_steps _ _ _ _ _ _ _ _ _ _) as [st1|] eqn:Hs; [|done]. intros [= <-].
  exact (admit_steps_budget _ _ _ _ _ _ _ _ _ _ _ _ _ Hinv Hs).
Qed.

Lemma admitRun_budget s0 u0 now quotas st run st' :
  budget_inv s0 u0 st -> admitRun now quotas st run = inl st' -> budget_inv s0 u0 st'.
Proof.
  intros Hinv. rw /admitRun. destruct (runWorkload run) as [w|]; [|done].
  destruct (quotas !! _) as [[max|]|]; [|intros [= <-]; by destruct st..].
  destruct (exceeds _ _); [intros [= <-]; by destruct st|].
  destruct (exceeds _ _); [intros [= <-]; by destruct st|].
  destruct (place_roles _ _ _) as [trial [[|] reason]] eqn:Hp; [|intros [= <-]; by destruct st].
  destruct (Nat.eqb _ 1); intros [= <-]; [by eapply budget_inv_admit|by destruct st].
Qed.

(** Reserving what is promised already does not touch budgets: their initial
    value has it subtracted. *)
Lemma reserve_workload_budget actual s (w : desiredWorkload Q) :
  as_overrides (reserve_workload actual s w) = as_overrides s.
Proof.
  rw /reserve_workload. destruct (dw_reserveMissing w); [|done].
  revert s. induction (dw_roles w) as [|role roles IH]; intros s; simpl; [done|].
  destruct (_ <=? 0)%Z; [by apply IH|].
  rw /admissionState_reserveMissing. destruct (nodeState_place _ _ _ _ _) as [nodes [ok why]].
  destruct (as_overrides s !! _); [by rw IH|]. destruct ok; [by rw IH|done].
Qed.

Lemma reserve_all_budget actual s (ws : list (desiredWorkload Q)) :
  as_overrides (foldl (reserve_workload actual) s ws) = as_overrides s.
Proof.
  revert s. induction ws as [|w ws IH]; intros s; simpl; [done|]. by rw IH reserve_workload_budget.
Qed.

Lemma admitLocked_budget now db snapshot quotas caps st ws u0 actual :
  admitLocked now db snapshot quotas caps = inl st ->
  loadActive db (rs_Allocations snapshot) = inl (ws, u0, actual) ->
  budget_inv (newAdmissionState snapshot caps u0) u0 st.
Proof.
  rw /admitLocked /start_round => H Hl. rw Hl in H. move: H.
  set (st0 := {| rd_usage := u0 |}).
  destruct (admitServicesLocked now quotas st0) as [st1|] eqn:Hs; [|done]. intros Hr.
  assert (H0 : budget_inv (newAdmissionState snapshot caps u0) u0 st0).
  { intros pool r b Hb. exists b. split_and!; [|done|done].
    rw /budget_val /= reserve_all_budget. exact Hb. }
  eapply (fold_err_invariant (budget_inv _ u0)); [|intros; by eapply admitRun_budget|exact Hr].
  eapply (fold_err_invariant (budget_inv _ u0)); [exact H0|intros; by eapply admitService_budget|exact Hs].
Qed.

(** The initial budget of a pool with a capacity. *)
Lemma budget_val_new snapshot caps u0 pool capacity r :
  caps !! pool = Some (inl capacity) -> r ∈ dom capacity ->
  (0 <= rl_val capacity r)%Z ->
  exists b, budget_val (newAdmissionState snapshot caps u0) pool r = Some b /\ (0 <= b)%Z /\
    (b = Z.max 0 (rl_val capacity r - pool_usage u0 pool r) \/
     (b = rl_val capacity r /\ pool_usage u0 pool r = 0%Z)).
Proof.
  intros Hc Hr Hpos. rw /budget_val /newAdmissionState /= map_lookup_imap Hc /=.
  rw decide_False; [by intros ->; rw dom_empty in Hr; set_solver|]. simpl. eexists.
  split; [done|]. rw -used_by_pool_val rl_val_subtract /copyList. case_decide as Hd; [split; [lia|by left]|].
  split; [lia|]. right. split; [done|]. apply rl_val_None. by apply not_elem_of_dom.
Qed.

(** Pool usage over any list of keys that covers the map. *)
Lemma pool_usage_keys usage pool r (keys : list quotaKey) :
  NoDup keys -> (forall k, is_Some (usage !! k) -> k ∈ keys) ->
  pool_usage usage pool r =
  zsum (map (fun k => if decide (k.2 = pool) then usage_val usage k r else 0%Z) keys).
Proof.
  intros Hnd. revert usage. apply (map_ind (fun usage => (forall k, is_Some (usage !! k) -> k ∈ keys) -> _)).
  - intros _. rw /pool_usage map_to_list_empty /=. clear Hnd.
    induction keys as [|k keys IH]; simpl; [done|].
    rw -IH. rw /usage_val /usage_get lookup_empty /= rl_val_empty. case_decide; lia.
  - intros key l m Hm IH Hcov. rw pool_usage_insert IH.
    { intros k [x Hx]. apply Hcov. destruct (decide (key = k)) as [->|]; [by rw Hm in Hx|].
      rw lookup_insert_ne //. }
    assert (Hkey : key ∈ keys) by (apply Hcov; rw lookup_insert_eq; eauto).
    assert (Hold : usage_val m key r = 0%Z) by by rw /usage_val /usage_get Hm /= rl_val_empty.
    rw Hold. clear IH Hcov.
    assert (Hone : forall keys : list quotaKey, key ∉ keys ->
      zsum (map (fun k => if decide (k.2 = pool) then usage_val (<[key:=l]> m) k r else 0%Z) keys) =
      zsum (map (fun k => if decide (k.2 = pool) then usage_val m k r else 0%Z) keys)).
    { intros ks Hk. apply zsum_map_ext => k Hin.
      rw /usage_val /usage_get lookup_insert_ne //. by intros ->. }
    apply elem_of_Permutation in Hkey as [keys' Hperm].
    rw !(zsum_perm _ _ (Permutation_map _ Hperm)) /= Hone.
    { intros Hin. rw Hperm in Hnd. by apply NoDup_cons in Hnd as [? _]. }
    assert (usage_val (<[key:=l]> m) key r = rl_val l r) as ->
      by by rw /usage_val /usage_get lookup_insert_eq.
    rw Hold. case_decide; lia.
Qed.

Lemma pool_usage_mono u1 u2 pool r :
  (forall key, usage_val u1 key r <= usage_val u2 key r)%Z ->
  (pool_usage u1 pool r <= pool_usage u2 pool r)%Z.
Proof.
  intros H. set (keys := elements (dom u1 ∪ dom u2)).
  assert (Hk : forall u, u = u1 \/ u = u2 -> forall k, is_Some (u !! k) -> k ∈ keys).
  { intros u Hu k Hk. apply elem_of_elements, elem_of_union. rw !elem_of_dom. naive_solver. }
  rw (pool_usage_keys u1 _ _ keys); [apply NoDup_elements|apply Hk; auto|].
  rw (pool_usage_keys u2 _ _ keys); [apply NoDup_elements|apply Hk; auto|].
  apply zsum_map_le => k _. case_decide; [apply H|done].
Qed.
End Budget.
