(* ===== verification/Runtime.v ===== *)
(** * The runtime seam

    [pkg/extensions]: the [ComputeRuntime] and [ResourceResolver] contracts.
    Their implementations are parameters.  An operation's answer may depend on
    every call made before it, so the runtime is free to change state; the
    calls are recorded, so theorems can speak about what was asked of it.

    Also [internal/resource/resource.go], which merges what the resolver
    returned into a workload spec. *)

From Stdlib Require Import ssreflect ZArith.
From stdpp Require Import base gmap list strings.
From S2P Require Import Prelude Placement ApiTypes Store.

(** [types.NamespacedName] *)
Abbreviation NamespacedName := (string * string)%type.

Inductive call {Q : Type} :=
| CApplyMLRun (cr : MLRunCR Q)
| CObserveMLRun (key : NamespacedName)
| CCancelMLRun (key : NamespacedName)
| CDeleteMLRun (key : NamespacedName)
| CListMLRunInstances (key : NamespacedName)
| CApplyMLService (cr : MLServiceCR Q)
| CObserveMLService (key : NamespacedName)
| CDeleteMLService (key : NamespacedName)
| CListMLServiceInstances (key : NamespacedName)
| CApplyMLTrafficPolicy (cr : MLTrafficPolicyCR)
| CObserveMLTrafficPolicy (key : NamespacedName)
| CDeleteMLTrafficPolicy (key : NamespacedName).
Arguments call : clear implicits.

(** [ComputeRuntime], without logs and events.  An instance list is its
    length. *)
Class ComputeRuntime (Q : Type) := {
  rt_ApplyMLRun : list (call Q) -> MLRunCR Q -> option error;
  rt_ObserveMLRun : list (call Q) -> NamespacedName -> MLRunCRStatus + error;
  rt_CancelMLRun : list (call Q) -> NamespacedName -> option error;
  rt_DeleteMLRun : list (call Q) -> NamespacedName -> option error;
  rt_ListMLRunInstances : list (call Q) -> NamespacedName -> nat + error;
  rt_ApplyMLService : list (call Q) -> MLServiceCR Q -> option error;
  rt_ObserveMLService : list (call Q) -> NamespacedName -> MLServiceCRStatus + error;
  rt_DeleteMLService : list (call Q) -> NamespacedName -> option error;
  rt_ListMLServiceInstances : list (call Q) -> NamespacedName -> nat + error;
  rt_ApplyMLTrafficPolicy : list (call Q) -> MLTrafficPolicyCR -> option error;
  rt_ObserveMLTrafficPolicy : list (call Q) -> NamespacedName -> MLTrafficPolicyCRStatus + error;
  rt_DeleteMLTrafficPolicy : list (call Q) -> NamespacedName -> option error }.

(** The database and the calls made so far. *)
Record world {Q : Type} := { w_db : DB Q; w_calls : list (call Q) }.
Arguments world : clear implicits.

Definition with_db {Q} (w : world Q) (db : DB Q) : world Q := {| w_db := db; w_calls := w_calls w |}.

Definition record_call {Q} (w : world Q) (c : call Q) : world Q :=
  {| w_db := w_db w; w_calls := w_calls w ++ [c] |}.

(** The calls a loop adds come from its handler, row by row. *)
Lemma loop_calls {Q A} (h : world Q -> A -> world Q) (S : A -> call Q -> Prop) l w :
  (forall w j, exists added, w_calls (h w j) = w_calls w ++ added /\ forall c, c ∈ added -> S j c) ->
  exists added, w_calls (foldl h w l) = w_calls w ++ added /\
    forall c, c ∈ added -> exists j, j ∈ l /\ S j c.
Proof.
  intros Hh. revert w. induction l as [|j l IH]; intros w; simpl.
  { exists []. rw app_nil_r. split; [done|by intros ? ?%elem_of_nil]. }
  destruct (Hh w j) as (a1 & E1 & H1). destruct (IH (h w j)) as (a2 & E2 & H2).
  exists (a1 ++ a2). rw E2 E1 app_assoc. split; [done|].
  intros c [Hc|Hc]%elem_of_app; [exists j; split; [by left|auto]|].
  destruct (H2 c Hc) as (j' & ? & ?). exists j'. split; [by right|done].
Qed.

(** [ResourceResolver] *)
Class ResourceResolver (Q : Type) := {
  ResolveResourcePool : string -> ResourcePool Q + error;
  ResolveResourceUnit : string -> string -> ResourceUnit Q + error }.

(** ** internal/resource *)

(** [Expanded] *)
Record Expanded {Q : Type} := {
  ex_NodeSelector : gmap string string;
  ex_Requests : gmap string Q;
  ex_Limits : gmap string Q }.
Arguments Expanded : clear implicits.

(** [mergeNodeSelector]: pool keys win, unit-only keys fill the gaps. *)
Definition mergeNodeSelector (poolSel unitSel : gmap string string) : gmap string string :=
  map_fold (fun k v out => match out !! k with Some _ => out | None => <[k := v]> out end)
    poolSel unitSel.

(** [Expand] *)
Definition Expand {Q} (pool : ResourcePool Q) (unit : ResourceUnit Q) : Expanded Q :=
  {| ex_NodeSelector := mergeNodeSelector (po_NodeSelector pool) (ru_NodeSelector unit);
     ex_Requests := ru_Requests unit; ex_Limits := ru_Limits unit |}.

(** [BuildResources]; an empty list and a missing one are the same map. *)
Definition BuildResources {Q} (req lim : gmap string Q) : ResourceRequirements Q :=
  {| rq_Requests := req; rq_Limits := lim |}.

(** [role.Template.Resources = ...] *)
Definition set_resources {Q} (r : RoleSpec Q) (rr : ResourceRequirements Q) : RoleSpec Q :=
  let t := ro_Template r in
  {| ro_Name := ro_Name r; ro_Replicas := ro_Replicas r; ro_RestartPolicy := ro_RestartPolicy r;
     ro_Template :=
       {| pt_Image := pt_Image t; pt_ImagePullPolicy := pt_ImagePullPolicy t;
          pt_Command := pt_Command t; pt_Args := pt_Args t; pt_Env := pt_Env t;
          pt_EnvFrom := pt_EnvFrom t; pt_WorkingDir := pt_WorkingDir t; pt_Ports := pt_Ports t;
          pt_Resources := rr; pt_Volumes := pt_Volumes t;
          pt_VolumeMounts := pt_VolumeMounts t |} |}.

(** The merge is the left-biased union of the two selectors. *)
Lemma mergeNodeSelector_union poolSel unitSel :
  mergeNodeSelector poolSel unitSel = poolSel ∪ unitSel.
Proof.
  rw /mergeNodeSelector. revert unitSel.
  apply (map_fold_weak_ind (fun out unitSel => out = poolSel ∪ unitSel)).
  - by rw map_union_empty.
  - intros k v m out Hk ->. destruct (poolSel !! k) as [p|] eqn:Hp.
    + rw (lookup_union_Some_l _ _ _ p Hp). apply map_eq => i.
      rw !lookup_union. destruct (decide (i = k)) as [->|Hne].
      * by rw Hp Hk lookup_insert_eq.
      * by rw lookup_insert_ne.
    + rw lookup_union Hp Hk /=. rw insert_union_r //.
Qed.

(** ** Shared helpers of the workload services *)

(** [decodeMap] / [decodeStringMap] *)
Definition decodeMap (raw : json (gmap string string)) : gmap string string := json_or ∅ raw.

(** [mapBytes] *)
Definition mapBytes (m : gmap string string) : json (gmap string string) := JVal m.

(** [mergeLabels]: empty system values do not override. *)
Definition mergeLabels (user system : gmap string string) : gmap string string :=
  map_fold (fun k v out => if String.eqb v "" then out else <[k := v]> out) user system.

Lemma lookup_mergeLabels user system k :
  mergeLabels user system !! k =
  match system !! k with
  | Some v => if String.eqb v "" then user !! k else Some v
  | None => user !! k
  end.
Proof.
  rw /mergeLabels. revert system. apply (map_fold_weak_ind (fun out system => out !! k =
    match system !! k with Some v => if String.eqb v "" then user !! k else Some v
    | None => user !! k end)).
  - by rw lookup_empty.
  - intros i v m out Hi IH. destruct (decide (i = k)) as [->|Hne].
    + rw lookup_insert_eq. destruct (String.eqb v ""); [|by rw lookup_insert_eq]. by rw IH Hi.
    + rw lookup_insert_ne //. destruct (String.eqb v ""); [done|by rw lookup_insert_ne].
Qed.
