(* ===== verification/Samples.v ===== *)
(** * Concrete rows and collaborators

    The rows, resolver and runtimes on which the theorems of the other files
    are applied. *)

From Stdlib Require Import ssreflect ZArith Lia.
From stdpp Require Import base gmap list strings.
From S2P Require Import Prelude Placement ApiTypes Store Runtime.

Module Sample.
Definition cpu (n : Z) : gmap string Z := {["cpu" := n]}.

Lemma cpu_nonneg n r : (0 <= n)%Z -> (0 <= rl_val (cpu n) r)%Z.
Proof.
  intros. rw /rl_val /rl_get /map_get /cpu. destruct (decide ("cpu" = r)) as [<-|Hne].
  - by rw lookup_singleton_eq.
  - rw lookup_singleton_ne //.
Qed.

Definition template (n : Z) : PodTemplate Z :=
  {| pt_Image := "img"; pt_ImagePullPolicy := ""; pt_Command := []; pt_Args := []; pt_Env := [];
     pt_EnvFrom := []; pt_WorkingDir := ""; pt_Ports := [];
     pt_Resources := {| rq_Requests := cpu n; rq_Limits := ∅ |};
     pt_Volumes := []; pt_VolumeMounts := [] |}.

Definition role (name : string) (replicas n : Z) : RoleSpec Z :=
  {| ro_Name := name; ro_Replicas := replicas; ro_RestartPolicy := ""; ro_Template := template n |}.

Definition scheduling : SchedulingSpec :=
  {| sc_Quota := ""; sc_PriorityClass := ""; sc_NodeSelector := ∅; sc_Tolerations := [] |}.

Definition backend : BackendSpec := {| be_Name := "native"; be_Engine := ""; be_Config := None |}.

Definition labels : json (gmap string string) := JVal {[LabelResourcePool := "p"]}.

Definition service_spec : MLServiceSpec Z :=
  {| ssp_Backend := backend; ssp_Scheduling := scheduling; ssp_ConfigMaps := [];
     ssp_Roles := [role "api" 2 2; role "worker" 1 1];
     ssp_ProgressDeadlineSeconds := None; ssp_Route := None |}.

Definition service : MLService Z :=
  {| ms_ID := "s1"; ms_Namespace := "team"; ms_Kind := "service"; ms_Name := "svc";
     ms_DisplayName := ""; ms_Description := ""; ms_Owner := ""; ms_Labels := labels;
     ms_Annotations := JEmpty; ms_Spec := JVal service_spec;
     ms_AdmittedReplicas := JVal [0%Z; 0%Z]; ms_DispatchedReplicas := JVal [0%Z; 0%Z];
     ms_Generation := 1; ms_ObservedGeneration := 0; ms_Phase := SvcQueued;
     ms_StatusJSON := JVal MLServiceStatus_zero; ms_CreatedAt := 1; ms_UpdatedAt := 1;
     ms_DeletedAt := None |}.

Definition run_spec (n : Z) : MLRunSpec Z :=
  {| rsp_Backend := backend; rsp_Scheduling := scheduling; rsp_ConfigMaps := [];
     rsp_Roles := [role "main" 1 n]; rsp_RunPolicy := RunPolicySpec_zero |}.

(** A run in a given phase. *)
Definition run_in_phase (id : string) (phase : run_phase) (deleted : option Z) : MLRun Z :=
  {| mr_ID := id; mr_Namespace := "team"; mr_Name := id; mr_DisplayName := ""; mr_Description := "";
     mr_Owner := ""; mr_Labels := labels; mr_Annotations := JEmpty; mr_Spec := JVal (run_spec 1);
     mr_Priority := 0; mr_Phase := phase; mr_StatusJSON := JVal MLRunStatus_zero;
     mr_ScheduledAt := None; mr_CreatedAt := 2; mr_UpdatedAt := 2; mr_DeletedAt := deleted |}.

(** A queued run. *)
Definition run (id : string) (priority n : Z) : MLRun Z :=
  {| mr_ID := id; mr_Namespace := "team"; mr_Name := id; mr_DisplayName := ""; mr_Description := "";
     mr_Owner := ""; mr_Labels := labels; mr_Annotations := JEmpty; mr_Spec := JVal (run_spec n);
     mr_Priority := priority; mr_Phase := RunQueued; mr_StatusJSON := JEmpty;
     mr_ScheduledAt := None; mr_CreatedAt := 2; mr_UpdatedAt := 2; mr_DeletedAt := None |}.

Definition runs_db (rows : list (MLRun Z)) : DB Z :=
  {| db_runs := rows; db_services := []; db_policies := [] |}.

Definition at_rest (db : DB Z) : world Z := {| w_db := db; w_calls := [] |}.

(** A resolver with one pool and one unit. *)
#[export] Instance resolver : ResourceResolver Z := {
  ResolveResourcePool name :=
    inl {| po_Name := name; po_NodeSelector := {["zone" := "a"]}; po_Capacity := ∅; po_Units := [] |};
  ResolveResourceUnit _ name :=
    inl {| ru_Name := name; ru_Requests := cpu 1; ru_Limits := ∅; ru_NodeSelector := ∅;
           ru_Annotations := ∅ |} }.

Definition run_status (phase : MLRunPhase) : MLRunCRStatus :=
  {| rcs_Phase := phase; rcs_Message := ""; rcs_StartedAt := None; rcs_FinishedAt := None;
     rcs_Conditions := [] |}.

Definition service_status (phase : Phase) (ready : Z) : MLServiceCRStatus :=
  {| scs_Phase := phase; scs_Message := ""; scs_Endpoint := ""; scs_ReadyReplicas := ready |}.

Definition traffic_status (phase : Phase) : MLTrafficPolicyCRStatus :=
  {| tcs_Phase := phase; tcs_Message := ""; tcs_Endpoint := ""; tcs_Backends := [] |}.

(** A runtime that accepts everything and reports [phase] for runs. *)
Definition runtime (phase : MLRunPhase) : ComputeRuntime Z := {|
  rt_ApplyMLRun _ _ := None;
  rt_ObserveMLRun _ _ := inl (run_status phase);
  rt_CancelMLRun _ _ := None;
  rt_DeleteMLRun _ _ := None;
  rt_ListMLRunInstances _ _ := inl 0%nat;
  rt_ApplyMLService _ _ := None;
  rt_ObserveMLService _ _ := inl (service_status PhaseReady 1);
  rt_DeleteMLService _ _ := None;
  rt_ListMLServiceInstances _ _ := inl 0%nat;
  rt_ApplyMLTrafficPolicy _ _ := None;
  rt_ObserveMLTrafficPolicy _ _ := inl (traffic_status PhaseReady);
  rt_DeleteMLTrafficPolicy _ _ := None |}.
End Sample.
