(* ===== verification/PlacementProperties.v ===== *)
(** * Placement: properties

    Exactness of the greedy packing, its effect in pools with a capacity
    override, and concrete nodes on which the placement theorems are applied. *)

From Stdlib Require Import ssreflect ZArith Lia.
From stdpp Require Import base gmap list strings.
From S2P Require Import Prelude Placement PlacementFacts Samples.

Section Exact.
Context {Q : Type} `{!Quantity Q} `{!QuantityLaws Q}.

(** C37: greedy best-fit packing of identical replicas is exact: [k] replicas
    are placed if and only if some assignment of [k] replicas to matching
    nodes respects every node's capacity, and a success leaves on the nodes
    what such an assignment leaves. *)
Theorem place_exact (requests : gmap string Q) selector tolerations k nodes :
  (forall r, (0 <= rl_val requests r)%Z) ->
  let '(nodes', (ok, _)) := nodeState_place requests selector tolerations k nodes in
  (ok = true <-> exists f, length f = k /\ feasible requests selector tolerations f nodes) /\
  (ok = true -> exists f, length f = k /\ feasible requests selector tolerations f nodes /\
                          charged requests f nodes nodes').
Proof.
  intros Hpos. destruct (nodeState_place _ _ _ _ _) as [nodes' [ok reason]] eqn:Hp.
  assert (Hs : ok = true -> exists f, length f = k /\ feasible requests selector tolerations f nodes /\
                                      charged requests f nodes nodes').
  { intros ->. by eapply nodeState_place_sound. }
  split; [|done]. split.
  - intros (f & ? & ? & _)%Hs. eauto.
  - intros (f & <- & Hf). destruct (nodeState_place_complete _ _ _ _ _ Hpos Hf) as (nodes2 & E). congruence.
Qed.
End Exact.

(** ** Witnesses *)

Module PlaceSample.
Import Sample.

Definition node (name : string) (free : Z) : nodeAvailable Z :=
  {| na_name := name; na_labels := {["zone" := "a"]}; na_taints := []; na_available := cpu free |}.

Definition nodes : list (nodeAvailable Z) := [node "big" 8; node "small" 3].

(** Five replicas of 2 fit on nodes with 8 and 3, six do not. *)
Lemma place_exact_witness :
  (exists f, length f = 5 /\ feasible (cpu 2) ∅ [] f nodes) /\
  ~ (exists f, length f = 6 /\ feasible (cpu 2) ∅ [] f nodes).
Proof.
  split.
  - pose proof (place_exact (cpu 2) ∅ [] 5 nodes (fun r => cpu_nonneg 2 r ltac:(lia))) as H.
    destruct (nodeState_place (cpu 2) ∅ [] 5 nodes) as [nodes' [ok reason]] eqn:E.
    destruct H as [[H _] _]. apply H. vm_compute in E. by injection E.
  - pose proof (place_exact (cpu 2) ∅ [] 6 nodes (fun r => cpu_nonneg 2 r ltac:(lia))) as H.
    destruct (nodeState_place (cpu 2) ∅ [] 6 nodes) as [nodes' [ok reason]] eqn:E.
    destruct H as [[_ H] _]. intros Hf%H. vm_compute in E. by injection E as _ <- _.
Defined.

(** The tighter of the two nodes is chosen. *)
Lemma scan_best_fit_witness :
  match scan_nodes (cpu 2) ∅ [] 0 nodes false None with
  | (_, Some (i, n)) => i = 1 /\ fits (na_available n) (cpu 2) = true /\
                        betterFit (node "big" 8) n (cpu 2) = false
  | _ => False
  end.
Proof.
  destruct (scan_nodes (cpu 2) ∅ [] 0 nodes false None) as [e [[i n]|]] eqn:E; [|by vm_compute in E].
  destruct (scan_best_fit _ _ _ _ _ _ _ E) as (_ & _ & Hf & Hb).
  split_and!; [by vm_compute in E; injection E|done|].
  apply Hb; [by left|by vm_compute|by vm_compute].
Defined.

Lemma exhausted_blocks_nodes_witness :
  exists reason, nodeState_place (cpu 2) ∅ [] 1 (nodeState_exhaust nodes) =
                 (nodeState_exhaust nodes, (false, reason)).
Proof. by apply (exhausted_blocks_nodes (cpu 2) ∅ [] 1 nodes "cpu"). Defined.

(** A pool of capacity 4, in front of one node with 3 free. *)
Definition override : admissionState Z :=
  {| as_nodes := [node "n1" 3]; as_overrides := {["p" := cpu 4]}; as_unavailable := ∅ |}.

(** A pool with a capacity override admits two replicas of 2 although the
    only node, with 3 free, can hold just one; the second replica's failed
    placement leaves the first one charged to the node, so the node inventory
    that the other pools see has shrunk. *)
Theorem override_placement_consumes_nodes :
  let '(s, (ok, _)) := admissionState_place "p" (cpu 2) 2 ∅ [] override in
  ok = true /\
  (nodeState_place (cpu 2) ∅ [] 2 (as_nodes override)).2.1 = false /\
  map (fun n => rl_get (na_available n) "cpu") (as_nodes s) = [1%Z].
Proof. by vm_compute. Qed.
End PlaceSample.
