(* ===== verification/AdmissionProperties.v ===== *)
(** * Properties of the admission controller

    What one round of [admitLocked] and one tick of [runOnce] guarantee, each
    with a concrete round on which its hypotheses hold. *)

From Stdlib Require Import ssreflect ZArith Lia Permutation Sorted.
From stdpp Require Import base gmap list strings.
From S2P Require Import Prelude Placement PlacementFacts ApiTypes Store ServiceAdmission Admission AdmissionUsage AdmissionSafety AdmissionRuns Samples.

(** ** Termination of the service loop *)

Section Total.
Context {Q : Type} `{!Quantity Q}.

Lemma admit_steps_total fuel now max (spec : MLServiceSpec Q) desired target key st row admitted :
  length admitted = length desired -> nonneg admitted -> (gap admitted desired < fuel)%nat ->
  exists st', admit_steps fuel now max spec desired target key st row admitted = Some st'.
Proof.
  revert st row admitted. induction fuel as [|fuel IH]; intros st row admitted Hlen Hnn Hgap; [lia|].
  simpl. destruct (Equal admitted desired); [eauto|].
  destruct (Next admitted desired) as [next increased] eqn:HN. case_bool_decide as Hinc; [eauto|].
  destruct (_ || _); [case_match; eauto|].
  destruct (place_roles _ _ _) as [trial [[|] reason]]; [|eauto].
  pose proof (Next_spec _ _ _ _ Hlen Hnn HN) as Hst.
  apply IH; [apply (ns_length _ _ _ _ Hst)|by eapply next_step_nonneg|].
  pose proof (gap_decreases _ _ _ _ Hst Hinc). lia.
Qed.

Lemma admitService_total now quotas st (row : MLService Q) spec :
  unmarshal (ms_Spec row) = inl spec -> exists st', admitService now quotas st row = inl st'.
Proof.
  intros Hsp. rw /admitService Hsp. destruct (negb _ && _); [eauto|]. destruct (Equal _ _); [eauto|].
  destruct (quotas !! _) as [[max|]|]; [|eauto..].
  destruct (admit_steps_total (S (gap (Decode (ms_AdmittedReplicas row) (length (ssp_Roles spec))
      (Desired spec)) (Desired spec))) now max spec (Desired spec)
    (serviceWorkloadFor row spec (Desired spec)) (ms_Namespace row, poolFromLabels (ms_Labels row))
    st row (Decode (ms_AdmittedReplicas row) (length (ssp_Roles spec)) (Desired spec)))
    as [st' ->]; [by rw length_Decode length_Desired|apply nonneg_Decode|lia|eauto].
Qed.

Lemma admitRun_total now quotas st (run : MLRun Q) spec :
  unmarshal (mr_Spec run) = inl spec -> exists st', admitRun now quotas st run = inl st'.
Proof.
  intros Hsp. rw /admitRun. destruct (runWorkload run) as [w|] eqn:Hw;
    [|rw /runWorkload Hsp in Hw; done].
  destruct (quotas !! _) as [[max|]|]; [|eauto..].
  repeat (destruct (exceeds _ _); [eauto|]).
  destruct (place_roles _ _ _) as [trial [[|] reason]]; [|eauto]. case_match; eauto.
Qed.

(** C32: an admission round always completes: when every stored spec can be
    decoded, [admitLocked] returns a result, the fuel of the service loop (one
    more than the replicas that are missing) never running out, so no row can
    make the controller spin or fail. *)
Theorem admitLocked_total now (db : DB Q) snapshot quotas caps :
  (forall run, run ∈ db_runs db -> exists spec, unmarshal (mr_Spec run) = inl spec) ->
  (forall row, row ∈ db_services db -> exists spec, unmarshal (ms_Spec row) = inl spec) ->
  exists st, admitLocked now db snapshot quotas caps = inl st.
Proof.
  intros Hr Hs. rw /admitLocked /start_round.
  destruct (loadActive_total db (rs_Allocations snapshot)) as (ws & usage & actual & ->).
  { split; intros row Hin _; [destruct (Hr row Hin) as [spec Hsp]|destruct (Hs row Hin) as [spec Hsp]].
    - rw /runWorkload Hsp. eauto.
    - rw /serviceWorkload Hsp. eauto. }
  set (st0 := {| rd_usage := usage |}).
  destruct (fold_err_total (fun st => db_runs (rd_db st) = db_runs db) (admitService now quotas) st0
    (liveServices (rd_db st0))) as (st1 & Hst1 & Hruns); [done| |].
  { intros st row Hin Hst. apply elem_of_liveServices in Hin as [Hin _].
    destruct (Hs row Hin) as [spec Hsp]. destruct (admitService_total now quotas st row spec Hsp) as [st' Hst'].
    exists st'. split; [done|]. by rw (admitService_runs _ _ _ _ _ Hst'). }
  rw /admitServicesLocked Hst1.
  destruct (fold_err_total (fun _ => True) (admitRun now quotas) st1 (queuedRuns (rd_db st1)))
    as (st & Hst & _); [done| |eauto].
  intros st run [Hin _]%elem_of_queuedRuns _. rw Hruns in Hin.
  destruct (Hr run Hin) as [spec Hsp]. destruct (admitRun_total now quotas st run spec Hsp); eauto.
Qed.
End Total.

(** ** Safety *)

Section Properties.
Context {Q : Type} `{!Quantity Q} `{!QuantityLaws Q}.

(** The usage recomputed after a round is covered by the round's. *)
Lemma usage_of_covered (db : DB Q) snapshot quotas st :
  round_ok db snapshot quotas st ->
  exists u, usage_of (rd_db st) (rs_Allocations snapshot) = Some u /\
    forall key r, (usage_val u key r <= usage_val (rd_usage st) key r)%Z.
Proof.
  intros [[Hids Hdec Hcov] _ _ _ _].
  destruct (loadActive_total _ (rs_Allocations snapshot) Hdec) as (ws & u & actual & Hl).
  exists u. rw /usage_of Hl. split; [done|]. intros key r.
  by rw (loadActive_durable _ _ _ _ _ Hl Hids).
Qed.

Lemma admitLocked_usage now (db : DB Q) snapshot quotas caps st :
  admitLocked now db snapshot quotas caps = inl st ->
  exists ws u0 actual, loadActive db (rs_Allocations snapshot) = inl (ws, u0, actual).
Proof.
  rw /admitLocked /start_round.
  destruct (loadActive db (rs_Allocations snapshot)) as [[[ws u0] actual]|]; [eauto|done].
Qed.

(** C1: admission respects tenant quotas durably: recomputing usage from the
    tables a round leaves behind, running instances and admitted replicas
    together, no tenant pool is above its limit for a resource unless it was
    above it, by at least as much, before the round. *)
Theorem admission_quota_safe now (db : DB Q) snapshot quotas caps st :
  admissible db (rs_Allocations snapshot) ->
  admitLocked now db snapshot quotas caps = inl st ->
  exists u0 u, usage_of db (rs_Allocations snapshot) = Some u0 /\
    usage_of (rd_db st) (rs_Allocations snapshot) = Some u /\
    forall key max r, quotas !! key = Some (inl max) -> r ∈ dom max ->
      (usage_val u key r <= Z.max (usage_val u0 key r) (rl_val max r))%Z.
Proof.
  intros Had Hadm. pose proof (admitLocked_ok _ _ _ _ _ _ Had Hadm) as Hok.
  destruct (admitLocked_usage _ _ _ _ _ _ Hadm) as (ws & u0 & actual & Hl).
  destruct (usage_of_covered _ _ _ _ Hok) as (u & Hu & Hcov).
  assert (Hu0 : usage_of db (rs_Allocations snapshot) = Some u0) by by rw /usage_of Hl.
  exists u0, u. split_and!; [done|done|]. intros key max r Hq Hr.
  pose proof (ro_quota _ _ _ _ Hok u0 Hu0 key r) as Hb. rw Hq in Hb.
  specialize (Hb Hr). specialize (Hcov key r). lia.
Qed.

(** C11: admission respects explicit pool capacities durably: what all tenants
    of a pool hold together, recomputed from the tables after the round, does
    not pass the pool's capacity unless it did before. *)
Theorem admission_pool_safe now (db : DB Q) snapshot quotas caps st :
  admissible db (rs_Allocations snapshot) ->
  admitLocked now db snapshot quotas caps = inl st ->
  exists u0 u, usage_of db (rs_Allocations snapshot) = Some u0 /\
    usage_of (rd_db st) (rs_Allocations snapshot) = Some u /\
    forall pool capacity r, caps !! pool = Some (inl capacity) -> r ∈ dom capacity ->
      (0 <= rl_val capacity r)%Z ->
      (pool_usage u pool r <= Z.max (pool_usage u0 pool r) (rl_val capacity r))%Z.
Proof.
  intros Had Hadm. pose proof (admitLocked_ok _ _ _ _ _ _ Had Hadm) as Hok.
  destruct (admitLocked_usage _ _ _ _ _ _ Hadm) as (ws & u0 & actual & Hl).
  destruct (usage_of_covered _ _ _ _ Hok) as (u & Hu & Hcov).
  exists u0, u. split_and!; [by rw /usage_of Hl|done|]. intros pool capacity r Hc Hr Hpos.
  destruct (budget_val_new snapshot caps u0 pool capacity r Hc Hr Hpos) as (b0 & Hb0 & Hb0pos & Hb0v).
  destruct (admitLocked_budget _ _ _ _ _ _ _ _ _ Hadm Hl pool r b0 Hb0) as (b & _ & Hsum & Hbpos).
  specialize (Hbpos Hb0pos). pose proof (pool_usage_mono u (rd_usage st) pool r (fun key => Hcov key r)).
  lia.
Qed.

(** A round moves rows only forward: of a service it changes phase
    (Queued to Creating), status and admitted vector, which grows, stays
    within the desired vector and, when it leaves zero, holds a replica of
    every role that wants one; of a run it changes phase (live and Queued, to
    Creating) and status; policies are not touched. *)
Theorem admission_moves_forward now (db : DB Q) snapshot quotas caps st :
  admissible db (rs_Allocations snapshot) ->
  admitLocked now db snapshot quotas caps = inl st ->
  Forall2 svc_evolved (db_services db) (db_services (rd_db st)) /\
  Forall2 run_evolved (db_runs db) (db_runs (rd_db st)) /\
  db_policies (rd_db st) = db_policies db.
Proof.
  intros Had Hadm. destruct (admitLocked_ok _ _ _ _ _ _ Had Hadm) as [_ _ Hs Hr Hp]. done.
Qed.

(** ** Queue order *)

Definition queued_before (a b : MLRun Q) : Prop :=
  (mr_Priority b < mr_Priority a)%Z \/
  (mr_Priority a = mr_Priority b /\
   ((mr_CreatedAt a < mr_CreatedAt b)%Z \/
    (mr_CreatedAt a = mr_CreatedAt b /\ str_lt (mr_ID b) (mr_ID a) = false))).

Lemma queue_less_spec (a b : MLRun Q) : queue_less b a = false <-> queued_before a b.
Proof.
  rw /queue_less /queued_before.
  repeat (case_match; unbool); try (split; [lia|intros; lia]); split; try done.
  - intros Hs. right. split; [lia|]. right. split; [lia|done].
  - intros [?|(_ & [?|[_ Hs]])]; [lia|lia|done].
Qed.

Lemma queue_less_asym (a b : MLRun Q) : queue_less a b = true -> queue_less b a = false.
Proof.
  rw /queue_less. repeat (case_match; unbool); try done; try lia. apply str_lt_asym.
Qed.

#[local] Instance queued_before_trans : Transitive queued_before.
Proof.
  intros a b c. rw /queued_before.
  intros [?|(? & [?|[? Hab]])] [?|(? & [?|[? Hbc]])]; try (left; lia);
    try (right; split; [lia|]; left; lia).
  right. split; [lia|]. right. split; [lia|].
  destruct (str_lt (mr_ID c) (mr_ID a)) eqn:Hca; [|done]. exfalso.
  destruct (str_lt (mr_ID a) (mr_ID b)) eqn:Hlt.
  - pose proof (str_lt_trans _ _ _ Hca Hlt). congruence.
  - pose proof (str_lt_total _ _ Hlt Hab) as E. rw E in Hca. congruence.
Qed.

(** The queue the runs are admitted from holds exactly the live queued
    runs, each once, ordered by priority (highest first), then creation time,
    then id; the order is total over the whole list, not only between
    neighbours. *)
Theorem queue_order (db : DB Q) :
  Permutation (queuedRuns db) (List.filter is_queued (db_runs db)) /\
  StronglySorted queued_before (queuedRuns db).
Proof.
  split; [apply sort_slice_perm|].
  apply sort_slice_strongly_sorted; [apply queue_less_asym|apply _|].
  intros a b. by apply queue_less_spec.
Qed.
End Properties.

(** ** A concrete round

    One node, one pool with a capacity, one tenant with a quota; a queued
    service of two roles and two queued runs of different priority, the second
    of which no longer fits. *)
Module Round.
Import Sample.
Definition db : DB Z :=
  {| db_runs := [run "r1" 0 4; run "r2" 9 2]; db_services := [service]; db_policies := [] |}.

Definition snapshot : ResourceSnapshot Z :=
  {| rs_Nodes := [{| rn_Name := "n1"; rn_Labels := ∅; rn_Taints := []; rn_Allocatable := cpu 10 |}];
     rs_Allocations := [] |}.

Definition quotas : gmap quotaKey (quotaResult Z) := {[("team", "p") := inl (cpu 8)]}.
Definition caps : gmap string (poolCapacityResult Z) := {["p" := inl (cpu 9)]}.

Definition outcome : round Z + error := admitLocked 7 db snapshot quotas caps.

Lemma admissible_db : admissible db (rs_Allocations snapshot).
Proof.
  split.
  - apply (bool_decide_unpack _). by vm_compute.
  - by intros ? ? ? ? ?%elem_of_nil.
  - intros row spec ->%list_elem_of_singleton _ [= <-]. split; [by intros ? ?%elem_of_nil|].
    intros i. by destruct i as [|[|i]].
  - intros row spec ro r ->%list_elem_of_singleton [= <-] Hro.
    apply elem_of_cons in Hro as [->|Hro]; [by apply cpu_nonneg|].
    apply list_elem_of_singleton in Hro as ->. by apply cpu_nonneg.
Qed.

(** The service and the urgent run are admitted, the other run stays queued
    because the quota is used up. *)
Example outcome_phases :
  match outcome with
  | inl st => map ms_Phase (db_services (rd_db st)) = [SvcCreating] /\
              map ms_AdmittedReplicas (db_services (rd_db st)) = [JVal [2%Z; 1%Z]] /\
              map mr_Phase (db_runs (rd_db st)) = [RunQueued; RunCreating]
  | inr _ => False
  end.
Proof. by vm_compute. Qed.

Lemma quota_safe_witness :
  match outcome with
  | inl st => exists u0 u, usage_of db (rs_Allocations snapshot) = Some u0 /\
      usage_of (rd_db st) (rs_Allocations snapshot) = Some u /\
      forall key max r, quotas !! key = Some (inl max) -> r ∈ dom max ->
        (usage_val u key r <= Z.max (usage_val u0 key r) (rl_val max r))%Z
  | inr _ => False
  end.
Proof.
  destruct outcome as [st|e] eqn:E; [|by vm_compute in E].
  exact (admission_quota_safe 7 db snapshot quotas caps st admissible_db E).
Defined.

Lemma pool_safe_witness :
  match outcome with
  | inl st => exists u0 u, usage_of db (rs_Allocations snapshot) = Some u0 /\
      usage_of (rd_db st) (rs_Allocations snapshot) = Some u /\
      forall pool capacity r, caps !! pool = Some (inl capacity) -> r ∈ dom capacity ->
        (0 <= rl_val capacity r)%Z ->
        (pool_usage u pool r <= Z.max (pool_usage u0 pool r) (rl_val capacity r))%Z
  | inr _ => False
  end.
Proof.
  destruct outcome as [st|e] eqn:E; [|by vm_compute in E].
  exact (admission_pool_safe 7 db snapshot quotas caps st admissible_db E).
Defined.

Lemma moves_forward_witness :
  match outcome with
  | inl st => Forall2 svc_evolved (db_services db) (db_services (rd_db st)) /\
      Forall2 run_evolved (db_runs db) (db_runs (rd_db st)) /\
      db_policies (rd_db st) = db_policies db
  | inr _ => False
  end.
Proof.
  destruct outcome as [st|e] eqn:E; [|by vm_compute in E].
  exact (admission_moves_forward 7 db snapshot quotas caps st admissible_db E).
Defined.

Lemma total_witness : exists st, admitLocked 7 db snapshot quotas caps = inl st.
Proof.
  apply (admitLocked_total 7 db snapshot quotas caps).
  - intros r [->|Hr]%elem_of_cons; [by eexists|].
    apply list_elem_of_singleton in Hr as ->. by eexists.
  - intros row ->%list_elem_of_singleton. by eexists.
Defined.
End Round.
