(* ===== verification/StatusMap.v ===== *)
(** * Status mapping

    [pkg/statusmap/statusmap.go]: how the status a runtime reports moves the
    stored phase and status of runs, services and traffic policies. *)

From Stdlib Require Import ssreflect ZArith Lia.
From stdpp Require Import base gmap list strings.
From S2P Require Import Prelude Placement ApiTypes Store.

(** [statusmap.RunStatus] *)
Record RunStatus := {
  rs_Message : string; rs_StartedAt : option Z; rs_FinishedAt : option Z }.

(** [statusmap.ServiceStatus] *)
Record ServiceStatus := {
  ss_Message : string; ss_ReadyReplicas : Z; ss_Endpoint : string }.

(** [statusmap.TrafficStatus]; a [TrafficBackend] has the fields of the CR's
    backend status. *)
Record TrafficStatus := {
  ts_Message : string; ts_Endpoint : string; ts_Backends : list BackendStatus }.

(** [terminalTime] *)
Definition terminalTime (finishedAt : option Z) (now : Z) : Z := default now finishedAt.

(** [hasCondition] *)
Definition hasCondition (conds : list Condition) (kind reason : string) : bool :=
  existsb (fun c => String.eqb (co_Type c) kind && String.eqb (co_Reason c) reason &&
                    String.eqb (co_Status c) "True") conds.

(** [MapRun] *)
Definition MapRun (curPhase : run_phase) (cur : RunStatus) (observed : MLRunCRStatus) (now : Z)
    : run_phase * RunStatus :=
  let '(phase, next) :=
    match rcs_Phase observed with
    | MLRunPhasePending =>
        (if decide (curPhase = RunCreating) then RunPending else curPhase, cur)
    | MLRunPhaseRunning =>
        (if decide (curPhase = RunCreating \/ curPhase = RunPending) then RunRunning else curPhase,
         {| rs_Message := "";
            rs_StartedAt := match rs_StartedAt cur, rcs_StartedAt observed with
                            | None, Some t => Some t
                            | started, _ => started
                            end;
            rs_FinishedAt := rs_FinishedAt cur |})
    | MLRunPhaseSucceeded =>
        (RunSucceeded,
         {| rs_Message := rs_Message cur; rs_StartedAt := rs_StartedAt cur;
            rs_FinishedAt := Some (terminalTime (rcs_FinishedAt observed) now) |})
    | MLRunPhaseFailed =>
        (RunFailed,
         {| rs_Message := if String.eqb (rcs_Message observed) "" then rs_Message cur
                          else rcs_Message observed;
            rs_StartedAt := rs_StartedAt cur;
            rs_FinishedAt := Some (terminalTime (rcs_FinishedAt observed) now) |})
    | MLRunPhaseUnset => (curPhase, cur)
    end in
  if bool_decide (curPhase = RunCanceling) &&
     hasCondition (rcs_Conditions observed) ConditionSuspended ReasonCancelRequested
  then (RunCancelled,
        {| rs_Message := rs_Message next; rs_StartedAt := rs_StartedAt next;
           rs_FinishedAt := Some now |})
  else (phase, next).

(** [MapService] *)
Definition MapService (curPhase : svc_phase) (cur : ServiceStatus) (desiredReplicas : Z)
    (observed : MLServiceCRStatus) : svc_phase * ServiceStatus :=
  let ready := scs_ReadyReplicas observed in
  let phase :=
    if (desiredReplicas =? 0)%Z then SvcPending
    else if (ready =? 0)%Z && bool_decide (scs_Phase observed = PhasePending) then SvcPending
    else if (ready =? desiredReplicas)%Z then SvcReady
    else if (0 <? ready)%Z && (ready <? desiredReplicas)%Z then SvcDegraded
    else if (ready =? 0)%Z && bool_decide (scs_Phase observed = PhaseFailed) then SvcFailed
    else curPhase in
  let message :=
    if bool_decide (scs_Phase observed = PhaseFailed) && negb (String.eqb (scs_Message observed) "")
    then scs_Message observed else ss_Message cur in
  (phase,
   {| ss_Message := if decide (phase = SvcReady) then "" else message;
      ss_ReadyReplicas := ready; ss_Endpoint := scs_Endpoint observed |}).

(** [MapTraffic] *)
Definition MapTraffic (curPhase : svc_phase) (cur : TrafficStatus)
    (observed : MLTrafficPolicyCRStatus) : svc_phase * TrafficStatus :=
  (match tcs_Phase observed with
   | PhasePending => SvcPending
   | PhaseReady => SvcReady
   | PhaseDegraded => SvcDegraded
   | PhaseFailed => SvcFailed
   | PhaseUnset => curPhase
   end,
   {| ts_Message := tcs_Message observed; ts_Endpoint := tcs_Endpoint observed;
      ts_Backends := tcs_Backends observed |}).

(** ** Properties *)

(** The phases an observation can lead to. *)
Definition map_run_edge (a b : run_phase) : Prop :=
  b = a \/ (a = RunCreating /\ (b = RunPending \/ b = RunRunning)) \/
  (a = RunPending /\ b = RunRunning) \/ b = RunSucceeded \/ b = RunFailed \/
  (a = RunCanceling /\ b = RunCancelled).

Lemma MapRun_edge curPhase cur observed now :
  map_run_edge curPhase (MapRun curPhase cur observed now).1.
Proof.
  rw /map_run_edge /MapRun. destruct (hasCondition _ _ _), curPhase, (rcs_Phase observed);
    simpl; naive_solver.
Qed.

(** A phase that ends the run carries a finish time. *)
Lemma MapRun_finished curPhase cur observed now phase next :
  MapRun curPhase cur observed now = (phase, next) ->
  phase <> curPhase -> IsTerminal phase = true -> is_Some (rs_FinishedAt next).
Proof.
  rw /MapRun. destruct (rcs_Phase observed); repeat case_match; intros [= <- <-]; simpl; try done.
Qed.

(** Once recorded, the start time is never changed. *)
Lemma MapRun_started curPhase cur observed now t :
  rs_StartedAt cur = Some t -> rs_StartedAt (MapRun curPhase cur observed now).2 = Some t.
Proof.
  intros Ht. rw /MapRun. destruct (rcs_Phase observed); case_match; simpl; rw ?Ht //.
Qed.
