(* ===== verification/Names.v ===== *)
(** * Names

    [pkg/strutil/dns.go] (the name policy of the API) and
    [apis/pkg/workloadname/workloadname.go] (the physical workload names the
    runtimes use).  Strings are byte strings.  [strings.ToLower] followed by
    the rune loop only distinguishes ASCII letters and digits from everything
    else; two runes outside ASCII have an ASCII lower case (U+0130 and U+212A)
    and are recognised by their UTF-8 bytes. *)

From Stdlib Require Import ssreflect ZArith Lia Ascii String List.
From stdpp Require Import base gmap list strings.
From S2P Require Import Prelude Placement ApiTypes.

Abbreviation bytes := (list ascii).

Definition dash : ascii := "-"%char.

Definition in_range (lo hi : nat) (c : ascii) : bool :=
  (lo <=? nat_of_ascii c)%nat && (nat_of_ascii c <=? hi)%nat.

(** [[a-z0-9]] *)
Definition is_alnum (c : ascii) : bool := in_range 97 122 c || in_range 48 57 c.

(** [[a-z0-9-]] *)
Definition is_name_char (c : ascii) : bool := is_alnum c || Ascii.eqb c dash.

(** The expression [^[a-z0-9](?:[a-z0-9-]{1,38}[a-z0-9])?$]. *)
Definition dns1123Like (s : bytes) : bool :=
  match s with
  | [] => false
  | c :: rest =>
      is_alnum c &&
      match rest with
      | [] => true
      | d :: _ =>
          let middle := removelast rest in
          (1 <=? length middle)%nat && (length middle <=? 38)%nat &&
          forallb is_name_char middle && is_alnum (List.last rest d)
      end
  end.

(** The expression [--]. *)
Fixpoint consecutiveDash (s : bytes) : bool :=
  match s with
  | c :: ((d :: _) as rest) => (Ascii.eqb c dash && Ascii.eqb d dash) || consecutiveDash rest
  | _ => false
  end.

(** [IsValidName] *)
Definition IsValidName (name : string) : bool :=
  let s := list_ascii_of_string name in
  if (length s <? 3)%nat || (40 <? length s)%nat then false
  else if negb (dns1123Like s) then false
  else if consecutiveDash s then false
  else true.

(** ** workloadname *)

Definition AnnotationName : string := "compute.axisml.io/workload-name".
Definition AnnotationTenantPrefix : string := "compute.axisml.io/workload-tenant-prefix".

(** [strings.ToLower], as far as the result is ASCII. *)
Fixpoint ToLower (s : bytes) : bytes :=
  match s with
  | [] => []
  | c :: rest =>
      if in_range 65 90 c then ascii_of_nat (nat_of_ascii c + 32) :: ToLower rest
      else
        match nat_of_ascii c, rest with
        | 196, d :: rest' =>
            if (nat_of_ascii d =? 176)%nat then "i"%char :: ToLower rest' else c :: ToLower rest
        | 226, d :: ((e :: rest') as rest1) =>
            if (nat_of_ascii d =? 132)%nat && (nat_of_ascii e =? 170)%nat
            then "k"%char :: ToLower rest' else c :: ToLower rest
        | _, _ => c :: ToLower rest
        end
  end.

(** The rune loop of [dnsName]; [started] is [b.Len() > 0]. *)
Fixpoint dns_loop (s : bytes) (started lastDash : bool) : bytes :=
  match s with
  | [] => []
  | c :: rest =>
      if is_alnum c then c :: dns_loop rest true false
      else if negb lastDash && started then dash :: dns_loop rest true true
      else dns_loop rest started lastDash
  end.

(** [strings.TrimLeft(s, "-")] and [strings.TrimRight(s, "-")] *)
Fixpoint TrimLeft (s : bytes) : bytes :=
  match s with
  | c :: rest => if Ascii.eqb c dash then TrimLeft rest else s
  | [] => []
  end.

Definition TrimRight (s : bytes) : bytes := rev (TrimLeft (rev s)).

Definition Trim (s : bytes) : bytes := TrimRight (TrimLeft s).

(** The name before truncation. *)
Definition dns_clean (raw : bytes) : bytes :=
  let clean := Trim (dns_loop (ToLower raw) false false) in
  match clean with [] => list_ascii_of_string "workload" | _ :: _ => clean end.

Section WorkloadName.
(** The first eight hexadecimal digits of a SHA-256 sum. *)
Context (shortHash : bytes -> bytes).

(** [dnsName] *)
Definition dnsName (raw : bytes) (limit : nat) : bytes :=
  let clean := dns_clean raw in
  if (length clean <=? limit)%nat then clean
  else
    let hash := shortHash raw in
    TrimRight (firstn (limit - length hash - 1) clean) ++ [dash] ++ hash.

(** [Base] *)
Definition Base (tenant workload : string) (tenantPrefix : bool) : string :=
  let t := list_ascii_of_string tenant in
  let w := list_ascii_of_string workload in
  string_of_list_ascii
    (if tenantPrefix && negb (String.eqb tenant "")
     then dnsName (t ++ [dash] ++ shortHash t ++ [dash] ++ w) 63
     else dnsName w 63).

(** [Annotate] *)
Definition Annotate (obj : ObjectMeta) (tenant workload : string) (tenantPrefix : bool) : ObjectMeta :=
  {| om_Name := om_Name obj; om_Namespace := om_Namespace obj; om_Labels := om_Labels obj;
     om_Annotations :=
       <[AnnotationTenantPrefix := if tenantPrefix then "true" else "false"]>
         (<[AnnotationName := Base tenant workload tenantPrefix]> (om_Annotations obj)) |}.

(** [Workload] *)
Definition Workload (obj : ObjectMeta) : string :=
  let name := map_get "" (om_Annotations obj) AnnotationName in
  if negb (String.eqb name "") then name else om_Name obj.

(** [Role]; [workload[:prefixLen]] panics only when it is longer than the
    string, which a positive [prefixLen] never is here. *)
Definition Role (obj : ObjectMeta) (role : string) : string :=
  let workload := dnsName (list_ascii_of_string (Workload obj)) 63 in
  let role := dnsName (list_ascii_of_string role) 40 in
  let limit := 57%nat in
  let joined := workload ++ [dash] ++ role in
  string_of_list_ascii
    (if (length joined <=? limit)%nat then joined
     else
       let suffix := [dash] ++ shortHash workload ++ [dash] ++ role in
       if (Z.of_nat limit - Z.of_nat (length suffix) <? 1)%Z then dnsName joined limit
       else TrimRight (firstn (limit - length suffix) workload) ++ suffix).

(** [Related] *)
Definition Related (obj : ObjectMeta) (tenant logicalName : string) : string :=
  let enabled := String.eqb (map_get "" (om_Annotations obj) AnnotationTenantPrefix) "true" in
  Base tenant logicalName enabled.
End WorkloadName.

(** ** Properties *)

(** A DNS label: letters, digits and single inner dashes. *)
Record dns_label (s : bytes) : Prop := {
  dl_chars : forallb is_name_char s = true;
  dl_dashes : consecutiveDash s = false;
  dl_first c rest : s = c :: rest -> is_alnum c = true;
  dl_last c rest : s = rest ++ [c] -> is_alnum c = true;
  dl_nonempty : s <> [] }.

Lemma alnum_not_dash c : is_alnum c = true -> Ascii.eqb c dash = false.
Proof. intros H. destruct (Ascii.eqb_spec c dash) as [->|]; [done|done]. Qed.

Lemma name_char_cases c : is_name_char c = true -> is_alnum c = true \/ c = dash.
Proof. rw /is_name_char orb_true_iff Ascii.eqb_eq. done. Qed.

(** ** The cleaning loop *)

(** Characters are letters, digits or dashes; dashes are single; without a
    prefix it begins with a letter or digit. *)
Lemma dns_loop_ok s started lastDash :
  (lastDash = true -> started = true) ->
  forallb is_name_char (dns_loop s started lastDash) = true /\
  consecutiveDash (if lastDash then dash :: dns_loop s started lastDash
                   else dns_loop s started lastDash) = false /\
  (started = false -> forall c rest, dns_loop s started lastDash = c :: rest -> is_alnum c = true).
Proof.
  revert started lastDash. induction s as [|c s IH]; intros started lastDash Hd; simpl.
  { by destruct lastDash. }
  destruct (is_alnum c) eqn:Hc.
  - destruct (IH true false) as (H1 & H2 & _); [done|]. split_and!.
    + simpl. by rw {1}/is_name_char Hc.
    + assert (Hx : forall l, consecutiveDash l = false -> consecutiveDash (c :: l) = false).
      { intros [|d l] Hl; [done|]. simpl in *. by rw (alnum_not_dash c Hc). }
      destruct lastDash; [|by apply Hx]. change (Ascii.eqb dash dash && Ascii.eqb c dash ||
        consecutiveDash (c :: dns_loop s true false) = false). rw (alnum_not_dash c Hc) andb_false_r /=.
      by apply Hx.
    + by intros _ ? ? [= <- _].
  - destruct (negb lastDash && started) eqn:Hs.
    + unbool. subst. destruct (IH true true) as (H1 & H2 & _); [done|]. split_and!; done.
    + destruct (IH started lastDash Hd) as (H1 & H2 & H3). done.
Qed.

(** A cleaned string is a fixed point of the loop. *)
Lemma dns_loop_id s started :
  forallb is_name_char s = true -> consecutiveDash s = false ->
  (started = false -> forall c rest, s = c :: rest -> is_alnum c = true) ->
  dns_loop s started false = s.
Proof.
  revert started. induction s as [|c s IH]; intros started Hch Hdd Hf; simpl; [done|].
  simpl in Hch. unbool.
  assert (Hdd' : consecutiveDash s = false).
  { destruct s as [|d s]; [done|]. simpl in Hdd. by apply orb_false_iff in Hdd as [_ ?]. }
  destruct (name_char_cases c) as [Hc| ->]; [done| |].
  - rw Hc. f_equal. by apply IH.
  - destruct (is_alnum dash) eqn:Hd; [done|]. destruct started; [|by specialize (Hf eq_refl _ _ eq_refl)].
    simpl. f_equal. destruct s as [|d s]; [done|]. simpl in Hdd.
    assert (Hnd : is_alnum d = true).
    { simpl in H0. unbool. destruct (name_char_cases d) as [| ->]; [done|done|].
      simpl in Hdd. done. }
    simpl. rw Hnd. f_equal. specialize (IH true H0 Hdd').
    assert (Hi : dns_loop (d :: s) true false = d :: s) by by apply IH.
    simpl in Hi. rw Hnd in Hi. by injection Hi.
Qed.

Lemma TrimLeft_id s : (forall c rest, s = c :: rest -> is_alnum c = true) -> TrimLeft s = s.
Proof.
  destruct s as [|c s]; [done|]. intros H. simpl. by rw (alnum_not_dash c (H c s eq_refl)).
Qed.

Lemma TrimRight_id s : (forall c rest, s = rest ++ [c] -> is_alnum c = true) -> TrimRight s = s.
Proof.
  intros H. rw /TrimRight TrimLeft_id; [|apply rev_involutive].
  intros c rest Hr. apply (H c (rev rest)). by rw -(rev_involutive s) Hr.
Qed.

Lemma ToLower_id s : forallb is_name_char s = true -> ToLower s = s.
Proof.
  induction s as [|c s IH]; simpl; [done|]. intros H. unbool. rw IH //.
  assert (Hc : in_range 65 90 c = false /\ nat_of_ascii c <> 196 /\ nat_of_ascii c <> 226).
  { destruct c as [[] [] [] [] [] [] [] []]; vm_compute in H; try done; by vm_compute. }
  destruct Hc as (-> & H1 & H2).
  destruct (nat_of_ascii c) as [|n] eqn:Hn; [done|].
  do 226 (destruct n as [|n]; [done|]). done.
Qed.

(** ** Labels under truncation *)

Lemma consecutiveDash_app s t :
  consecutiveDash (s ++ t) = false -> consecutiveDash s = false.
Proof.
  induction s as [|c s IH]; [done|]. simpl. destruct s as [|d s]; [done|]. simpl in *.
  intros [H1 H2]%orb_false_iff. rw H1 /=. by apply IH.
Qed.

Lemma consecutiveDash_cons c s :
  is_alnum c = true -> consecutiveDash s = false -> consecutiveDash (c :: s) = false.
Proof. destruct s as [|d s]; [done|]. simpl. by intros ->%alnum_not_dash ->. Qed.

(** Joining at a letter or digit creates no double dash. *)
Lemma consecutiveDash_join s c t :
  is_alnum c = true -> consecutiveDash (s ++ [c]) = false -> consecutiveDash (c :: t) = false ->
  consecutiveDash (s ++ c :: t) = false.
Proof.
  intros Hc. induction s as [|a s IH]; [done|]. destruct s as [|b s]; simpl.
  - intros [H _]%orb_false_iff Ht. rw H. exact Ht.
  - intros [H1 H2]%orb_false_iff Ht. rw H1 /=. by apply IH.
Qed.

(** What is left of a string after trimming its dashes on the right. *)
Lemma TrimRight_prefix s : exists t, s = TrimRight s ++ t.
Proof.
  rw /TrimRight. rw -{1}(rev_involutive s). generalize (rev s) as l.
  induction l as [|c l IH]; simpl; [by exists []|].
  destruct (Ascii.eqb c dash); [|by exists []; rw app_nil_r].
  destruct IH as [t Ht]. exists (t ++ [c]). rw Ht. by rw -app_assoc.
Qed.

Lemma TrimRight_last s c rest : TrimRight s = rest ++ [c] -> c <> dash.
Proof.
  rw /TrimRight. generalize (rev s) as l. intros l H.
  assert (Hl : TrimLeft l = c :: rev rest) by by rw -(rev_involutive (TrimLeft l)) H rev_app_distr.
  clear H. induction l as [|d l IH]; simpl in *; [done|].
  destruct (Ascii.eqb_spec d dash); [by apply IH|]. by simplify_eq.
Qed.

(** Trimming a string that starts with a letter or digit gives a label. *)
Lemma TrimRight_label s :
  forallb is_name_char s = true -> consecutiveDash s = false ->
  (forall c rest, s = c :: rest -> is_alnum c = true) -> s <> [] -> dns_label (TrimRight s).
Proof.
  intros Hch Hdd Hf Hne. destruct (TrimRight_prefix s) as [t Ht].
  assert (Hch' : forallb is_name_char (TrimRight s) = true).
  { rw Ht forallb_app in Hch. by unbool. }
  assert (Hne' : TrimRight s <> []).
  { destruct s as [|c s]; [done|]. intros E.
    assert (Hc : is_alnum c = true) by by eapply Hf.
    assert (Hin : TrimLeft (rev (c :: s)) = []) by by rw -(rev_involutive (TrimLeft _)) -/(TrimRight _) E.
    simpl in Hin. revert Hin. generalize (rev s) as l. induction l as [|d l IH]; simpl.
    - by rw (alnum_not_dash c Hc).
    - by destruct (Ascii.eqb d dash). }
  split; try done.
  - apply (consecutiveDash_app _ t). by rw -Ht.
  - intros c rest E. apply (Hf c (rest ++ t)). by rw Ht E.
  - intros c rest E. pose proof (TrimRight_last _ _ _ E) as Hd.
    rw E forallb_app in Hch'. unbool. simpl in *. unbool. by destruct (name_char_cases c).
Qed.

Lemma label_split s : dns_label s -> exists rest c, s = rest ++ [c] /\ is_alnum c = true.
Proof.
  intros Hs. destruct (exists_last (dl_nonempty _ Hs)) as (rest & c & E).
  exists rest, c. split; [done|]. by eapply dl_last.
Qed.

(** Two labels joined by a dash make a label. *)
Lemma label_join s t : dns_label s -> dns_label t -> dns_label (s ++ [dash] ++ t).
Proof.
  intros Hs Ht. destruct (label_split s Hs) as (rest & c & E & Hc).
  assert (Htd : consecutiveDash (dash :: t) = false).
  { destruct t as [|d t]; [done|]. pose proof (dl_first _ Ht d t eq_refl) as Hd.
    change (Ascii.eqb dash dash && Ascii.eqb d dash || consecutiveDash (d :: t) = false).
    rw (alnum_not_dash d Hd) /=. apply (dl_dashes _ Ht). }
  split.
  - rw !forallb_app (dl_chars _ Hs) (dl_chars _ Ht). done.
  - rw E -app_assoc /=. apply consecutiveDash_join; [done|rw -E; apply (dl_dashes _ Hs)|].
    by apply consecutiveDash_cons.
  - intros d l. destruct s as [|a s]; [by destruct (dl_nonempty _ Hs)|]. intros [= <- _].
    by eapply (dl_first _ Hs).
  - intros d l Hl. destruct (label_split t Ht) as (r & e & Et & He).
    rw Et !app_assoc in Hl. apply app_inj_tail in Hl as [_ <-]. done.
  - destruct s; [by destruct (dl_nonempty _ Hs)|done].
Qed.

Section Hash.
Context (shortHash : bytes -> bytes).

(** What the naming relies on: eight hexadecimal digits. *)
Definition hash_digits : Prop :=
  forall raw, length (shortHash raw) = 8 /\ forallb is_alnum (shortHash raw) = true.

Lemma hash_label raw : hash_digits -> dns_label (shortHash raw).
Proof.
  intros H. destruct (H raw) as [Hl Ha]. generalize dependent (shortHash raw). intros s Hl Ha.
  assert (Hin : forall c, In c s -> is_alnum c = true) by by apply forallb_forall.
  split.
  - apply forallb_forall => c Hc. rw /is_name_char Hin //.
  - clear Hl Ha. induction s as [|c s IH]; [done|].
    apply consecutiveDash_cons; [apply Hin; by left|]. apply IH => d Hd. apply Hin. by right.
  - intros c rest ->. apply Hin. by left.
  - intros c rest ->. apply Hin, in_app_iff. right. by left.
  - by intros ->.
Qed.

(** The cleaned string, before truncation. *)
Lemma dns_clean_label raw :
  dns_label (dns_clean raw).
Proof.
  rw /dns_clean.
  destruct (dns_loop_ok (ToLower raw) false false) as (H1 & H2 & H3); [done|].
  specialize (H3 eq_refl). rw /Trim TrimLeft_id //.
  destruct (dns_loop (ToLower raw) false false) as [|c l] eqn:E.
  - split; try done.
    + by intros ? ? [= <- _].
    + intros c rest Hr. change (list_ascii_of_string "workload")
        with (list_ascii_of_string "workloa" ++ ["d"%char]) in Hr.
      by apply app_inj_tail in Hr as [_ <-].
  - assert (Hlab : dns_label (TrimRight (c :: l))) by by apply TrimRight_label.
    destruct (TrimRight (c :: l)) eqn:Et; [by destruct (dl_nonempty _ Hlab)|done].
Qed.

Lemma dnsName_label raw limit :
  hash_digits -> (10 <= limit)%nat ->
  dns_label (dnsName shortHash raw limit) /\ (length (dnsName shortHash raw limit) <= limit)%nat.
Proof.
  intros Hh Hlim. rw /dnsName. pose proof (dns_clean_label raw) as Hc.
  set (clean := dns_clean raw) in Hc |- *.
  destruct (Nat.leb_spec (length clean) limit) as [Hle|Hgt]; [done|].
  destruct (Hh raw) as [Hlen _]. rw Hlen.
  assert (Hpre : dns_label (TrimRight (firstn (limit - 8 - 1) clean))).
  { assert (Hsplit : clean = firstn (limit - 8 - 1) clean ++ skipn (limit - 8 - 1) clean)
      by by rw firstn_skipn.
    apply TrimRight_label.
    - pose proof (dl_chars _ Hc) as H. rw Hsplit forallb_app in H. by unbool.
    - pose proof (dl_dashes _ Hc) as H. rw Hsplit in H. by apply consecutiveDash_app in H.
    - intros c rest E. apply (dl_first _ Hc c (rest ++ skipn (limit - 8 - 1) clean)).
      rw {1}Hsplit E. done.
    - intros E. apply (f_equal length) in E. rw length_firstn /= in E. lia. }
  split; [apply label_join; [done|by apply hash_label]|].
  destruct (TrimRight_prefix (firstn (limit - 8 - 1) clean)) as [t Ht].
  apply (f_equal length) in Ht. rw length_app length_firstn in Ht.
  rw !length_app Hlen /=. lia.
Qed.

(** A label that is short enough is left alone. *)
Lemma dnsName_id s limit :
  dns_label s -> (length s <= limit)%nat -> dnsName shortHash s limit = s.
Proof.
  intros Hs Hl. rw /dnsName /dns_clean ToLower_id; [apply (dl_chars _ Hs)|].
  rw dns_loop_id; [apply (dl_chars _ Hs)|apply (dl_dashes _ Hs)|intros _; apply (dl_first _ Hs)|].
  rw /Trim TrimLeft_id; [apply (dl_first _ Hs)|]. rw TrimRight_id; [apply (dl_last _ Hs)|].
  destruct s as [|c s]; [by destruct (dl_nonempty _ Hs)|].
  assert (length (c :: s) <=? limit = true)%nat as -> by by apply Nat.leb_le. done.
Qed.
End Hash.

(** ** Valid names *)

Lemma IsValidName_label name :
  IsValidName name = true ->
  dns_label (list_ascii_of_string name) /\ (length (list_ascii_of_string name) <= 40)%nat.
Proof.
  rw /IsValidName. set (s := list_ascii_of_string name).
  destruct (Nat.ltb_spec (length s) 3); [done|]. destruct (Nat.ltb_spec 40 (length s)); [done|]. simpl.
  destruct (dns1123Like s) eqn:Hd; [|done]. destruct (consecutiveDash s) eqn:Hc; [done|].
  intros _. split; [|lia]. destruct s as [|c [|d rest]]; [done|simpl in *; lia|].
  rw /dns1123Like in Hd. set (tail := d :: rest) in *.
  apply andb_true_iff in Hd as [Hfirst Hd]. apply andb_true_iff in Hd as [Hd Hlast].
  apply andb_true_iff in Hd as [_ Hmid].
  assert (Hsplit : tail = removelast tail ++ [List.last tail d]) by by apply app_removelast_last.
  split; try done.
  - assert (Ht : forallb is_name_char tail = true)
      by by rw Hsplit forallb_app Hmid /= /is_name_char Hlast.
    rw /tail in Ht |- *. cbn [forallb]. by rw {1}/is_name_char Hfirst.
  - by intros ? ? [= <- _].
  - intros e l E. rw Hsplit app_comm_cons in E. apply app_inj_tail in E as [_ <-]. done.
Qed.

Lemma label_IsValidName s :
  dns_label s -> (3 <= length s <= 40)%nat -> IsValidName (string_of_list_ascii s) = true.
Proof.
  intros Hs [Hlo Hhi]. rw /IsValidName list_ascii_of_string_of_list_ascii (dl_dashes _ Hs).
  assert ((length s <? 3)%nat = false) as -> by by apply Nat.ltb_ge.
  assert ((40 <? length s)%nat = false) as -> by by apply Nat.ltb_ge. simpl.
  enough (dns1123Like s = true) as -> by done.
  destruct s as [|c [|d rest]]; [simpl in *; lia..|]. rw /dns1123Like (dl_first _ Hs c _ eq_refl).
  set (tail := d :: rest) in *.
  assert (Hsplit : tail = removelast tail ++ [List.last tail d]) by by apply app_removelast_last.
  pose proof (dl_last _ Hs (List.last tail d) (c :: removelast tail)) as Hlast.
  rw Hlast; [by rw /= {1}Hsplit|]. pose proof (dl_chars _ Hs) as Hch.
  cbn [forallb] in Hch. apply andb_true_iff in Hch as [_ Hch].
  rw Hsplit forallb_app in Hch. apply andb_true_iff in Hch as [-> _].
  apply (f_equal length) in Hsplit. rw length_app /= in Hsplit. cbn [length] in Hlo, Hhi.
  assert ((1 <=? length (removelast tail))%nat = true) as -> by (apply Nat.leb_le; rw /tail in Hsplit |- *; simpl in *; lia).
  assert ((length (removelast tail) <=? 38)%nat = true) as -> by (apply Nat.leb_le; rw /tail in Hsplit |- *; simpl in *; lia).
  done.
Qed.

(** Without a tenant prefix the physical name of a workload with a valid
    name is that name: naming loses and merges nothing. *)
Theorem Base_logical shortHash tenant workload :
  IsValidName workload = true -> Base shortHash tenant workload false = workload.
Proof.
  intros [Hl Hlen]%IsValidName_label. rw /Base /= dnsName_id //; [lia|].
  apply string_of_list_ascii_of_string.
Qed.

(** Whatever the tenant and workload names, a physical name is a DNS
    label: at most 63 characters, lower-case letters, digits and single inner
    dashes, beginning and ending with a letter or digit. *)
Theorem Base_label shortHash tenant workload tenantPrefix :
  hash_digits shortHash ->
  dns_label (list_ascii_of_string (Base shortHash tenant workload tenantPrefix)) /\
  (length (list_ascii_of_string (Base shortHash tenant workload tenantPrefix)) <= 63)%nat.
Proof.
  intros Hh. rw /Base list_ascii_of_string_of_list_ascii.
  destruct (tenantPrefix && _); apply dnsName_label; try done; lia.
Qed.

Lemma Base_prefixed shortHash t w :
  hash_digits shortHash -> dns_label t -> dns_label w -> (length t + length w <= 53)%nat ->
  Base shortHash (string_of_list_ascii t) (string_of_list_ascii w) true =
  string_of_list_ascii (t ++ [dash] ++ shortHash t ++ [dash] ++ w).
Proof.
  intros Hh Ht Hw Hlen. rw /Base !list_ascii_of_string_of_list_ascii.
  assert (String.eqb (string_of_list_ascii t) "" = false) as ->.
  { apply String.eqb_neq. intros E. apply (f_equal list_ascii_of_string) in E.
    rw list_ascii_of_string_of_list_ascii in E. by apply (dl_nonempty _ Ht). }
  simpl. f_equal. apply dnsName_id.
  - apply label_join; [done|]. apply label_join; [by apply hash_label|done].
  - destruct (Hh t) as [Hl _]. rw length_app /= length_app Hl /=. lia.
Qed.

(** Within one tenant, physical names that are not truncated identify the
    workload: different names give different physical names. *)
Theorem Base_same_tenant shortHash tenant w1 w2 :
  hash_digits shortHash ->
  IsValidName tenant = true -> IsValidName w1 = true -> IsValidName w2 = true ->
  (String.length tenant + String.length w1 <= 53)%nat ->
  (String.length tenant + String.length w2 <= 53)%nat ->
  w1 <> w2 -> Base shortHash tenant w1 true <> Base shortHash tenant w2 true.
Proof.
  intros Hh [Ht _]%IsValidName_label [H1 _]%IsValidName_label [H2 _]%IsValidName_label.
  assert (Hlen : forall s, String.length s = length (list_ascii_of_string s))
    by (induction s; simpl; congruence).
  rw !Hlen. intros L1 L2 Hne. contradict Hne. move: Hne.
  rw -(string_of_list_ascii_of_string tenant) -(string_of_list_ascii_of_string w1)
    -(string_of_list_ascii_of_string w2) !Base_prefixed //.
  intros E. apply (f_equal list_ascii_of_string) in E.
  rw !list_ascii_of_string_of_list_ascii in E.
  apply app_inv_head in E. simpl in E. injection E as E. apply app_inv_head in E.
  injection E as E. by rw E.
Qed.

(** Across tenants the prefix does not separate all pairs: for every hash
    there are two different (tenant, workload) pairs of valid names with the
    same physical name, the second tenant's name embedding the first one's
    prefix. *)
Theorem Base_not_injective shortHash :
  hash_digits shortHash ->
  exists t1 w1 t2 w2,
    IsValidName t1 = true /\ IsValidName w1 = true /\ IsValidName t2 = true /\
    IsValidName w2 = true /\ t1 <> t2 /\
    Base shortHash t1 w1 true = Base shortHash t2 w2 true.
Proof.
  intros Hh. set (a := list_ascii_of_string "aaa"). set (c := list_ascii_of_string "ccc").
  assert (Hlab : forall x, In x [a; c] -> dns_label x).
  { intros x [<-|[<-|[]]]; split; try done.
    all: try by intros ? ? [= <- _].
    all: intros e l E; destruct l as [|? [|? [|? [|]]]]; simplify_eq/=; done. }
  assert (Ha : dns_label a) by (apply Hlab; by left).
  assert (Hc : dns_label c) by (apply Hlab; right; by left).
  set (t2 := a ++ [dash] ++ shortHash a ++ [dash] ++ a).
  set (w1 := a ++ [dash] ++ shortHash t2 ++ [dash] ++ c).
  assert (Ht2 : dns_label t2 /\ length t2 = 16).
  { split; [repeat apply label_join; try done; by apply hash_label|].
    destruct (Hh a) as [Hl _]. rw /t2 !length_app Hl. done. }
  assert (Hw1 : dns_label w1 /\ length w1 = 16).
  { split; [repeat apply label_join; try done; by apply hash_label|].
    destruct (Hh t2) as [Hl _]. rw /w1 !length_app Hl. done. }
  destruct Ht2 as [Ht2 Lt2], Hw1 as [Hw1 Lw1].
  exists (string_of_list_ascii a), (string_of_list_ascii w1), (string_of_list_ascii t2),
    (string_of_list_ascii c).
  split_and!; try (apply label_IsValidName; [done|rw ?Lt2 ?Lw1 /=; lia]).
  - intros E. apply (f_equal list_ascii_of_string) in E.
    rw !list_ascii_of_string_of_list_ascii in E. apply (f_equal length) in E. rw Lt2 in E. done.
  - rw !Base_prefixed //; [rw Lw1 /=; lia|rw Lt2 /=; lia|].
    f_equal. by rw /w1 /t2 -!app_assoc.
Qed.

(** ** Concrete names *)
Module Sample.
Definition zeros : bytes := list_ascii_of_string "00000000".

Lemma zeros_digits : hash_digits (fun _ => zeros).
Proof. done. Qed.

Lemma Base_logical_witness : Base (fun _ => zeros) "team-a" "hello-world" false = "hello-world".
Proof. by apply (Base_logical (fun _ => zeros) "team-a" "hello-world"). Defined.

Lemma Base_label_witness :
  dns_label (list_ascii_of_string (Base (fun _ => zeros) "Team A" "x" true)) /\
  (length (list_ascii_of_string (Base (fun _ => zeros) "Team A" "x" true)) <= 63)%nat.
Proof. apply (Base_label (fun _ => zeros) "Team A" "x" true zeros_digits). Defined.

Lemma Base_same_tenant_witness :
  Base (fun _ => zeros) "team-a" "job-1" true <> Base (fun _ => zeros) "team-a" "job-2" true.
Proof.
  by apply (Base_same_tenant (fun _ => zeros) "team-a" "job-1" "job-2" zeros_digits); vm_compute; try lia.
Defined.

Lemma Base_not_injective_witness :
  exists t1 w1 t2 w2,
    IsValidName t1 = true /\ IsValidName w1 = true /\ IsValidName t2 = true /\
    IsValidName w2 = true /\ t1 <> t2 /\
    Base (fun _ => zeros) t1 w1 true = Base (fun _ => zeros) t2 w2 true.
Proof. apply (Base_not_injective (fun _ => zeros) zeros_digits). Defined.
End Sample.
