(* ===== verification/Mlrun.v ===== *)
(** * MLRun

    [internal/mlrun]: repository, business service, CR rendering, outbox
    reconciler, status reflow, informer and poller.  Database connection
    errors, logging and metrics are left out.  A handler that reads a row and
    writes later is a function of the row it read and of the database it
    writes to, so that writes based on an outdated row can be expressed. *)

From Stdlib Require Import ssreflect ZArith Lia Ascii String.
From stdpp Require Import base gmap list strings.
From S2P Require Import Prelude Placement ApiTypes Store StatusMap Names Runtime.

(** ** Priority *)

(** The digits of a decimal number. *)
Fixpoint parse_digits (acc : Z) (s : list ascii) : option Z :=
  match s with
  | [] => Some acc
  | c :: rest =>
      if in_range 48 57 c
      then parse_digits (acc * 10 + (Z.of_nat (nat_of_ascii c) - 48))%Z rest
      else None
  end.

(** [strconv.ParseInt(raw, 10, 32)]: an optional sign, at least one digit, a
    value in range. *)
Definition ParseInt32 (raw : string) : option Z :=
  let '(neg, digits) :=
    match list_ascii_of_string raw with
    | c :: rest => if Ascii.eqb c "-"%char then (true, rest)
                   else if Ascii.eqb c "+"%char then (false, rest) else (false, c :: rest)
    | [] => (false, [])
    end in
  match digits with
  | [] => None
  | _ =>
      match parse_digits 0 digits with
      | None => None
      | Some n =>
          let v := if neg then (- n)%Z else n in
          if (int32_min <=? v)%Z && (v <=? int32_max)%Z then Some v else None
      end
  end.

Definition priority_error : string :=
  "annotation " ++ AnnotationPriority ++ " must be a base-10 signed int32".

(** [PriorityFromAnnotations] *)
Definition PriorityFromAnnotations (annotations : gmap string string) : Z + error :=
  match annotations !! AnnotationPriority with
  | None => inl 0%Z
  | Some raw => match ParseInt32 raw with Some v => inl v | None => inr (ErrOther priority_error) end
  end.

(** ** Repository *)
Module Repository.
Section Repository.
Context {Q : Type}.
Implicit Types (db : DB Q) (r : MLRun Q).

(** [Get] *)
Definition Get (id : string) db : MLRun Q + error :=
  match List.find (fun r => String.eqb (mr_ID r) id) (db_runs db) with
  | Some r => inl r
  | None => inr ErrRecordNotFound
  end.

(** The rows the partial unique index (namespace, name) ranges over. *)
Definition live_named (namespace name : string) r : bool :=
  String.eqb (mr_Namespace r) namespace && String.eqb (mr_Name r) name && is_null (mr_DeletedAt r).

(** [GetByNamespaceName] *)
Definition GetByNamespaceName (namespace name : string) db : MLRun Q + error :=
  match List.find (live_named namespace name) (db_runs db) with
  | Some r => inl r
  | None => inr ErrRecordNotFound
  end.

(** ORDER BY created_at DESC LIMIT limit OFFSET offset *)
Definition page {A} (limit offset : nat) (rows : list A) : list A := firstn limit (skipn offset rows).

Definition newest_first (a b : MLRun Q) : bool := (mr_CreatedAt b <? mr_CreatedAt a)%Z.

(** [ListByNamespace]; [labelClause] is the WHERE fragment as a predicate. *)
Definition ListByNamespace (namespace : string) (limit offset : nat)
    (labelClause : MLRun Q -> bool) db : list (MLRun Q) * nat :=
  let q := List.filter (fun r => String.eqb (mr_Namespace r) namespace &&
                                 is_null (mr_DeletedAt r) && labelClause r) (db_runs db) in
  (page limit offset (sort_slice newest_first q), length q).

(** [ListPhasesByNames] *)
Definition ListPhasesByNames (namespace : string) (names : list string) db : list (MLRun Q) :=
  match names with
  | [] => []
  | _ => sort_slice (fun a b => str_lt (mr_Name a) (mr_Name b))
           (List.filter (fun r => String.eqb (mr_Namespace r) namespace &&
              bool_decide (mr_Name r ∈ names) && is_null (mr_DeletedAt r)) (db_runs db))
  end.

(** [ListPhasesBySelector] selects fewer columns of the same rows. *)
Definition ListPhasesBySelector (namespace : string) (limit offset : nat)
    (labelClause : MLRun Q -> bool) db : list (MLRun Q) * nat :=
  ListByNamespace namespace limit offset labelClause db.

Definition ErrDuplicateKey : error := ErrOther "duplicate key value violates unique constraint".

(** [Create], under the primary key and the partial unique index. *)
Definition Create (j : MLRun Q) db : DB Q + error :=
  if existsb (fun r => String.eqb (mr_ID r) (mr_ID j)) (db_runs db) then inr ErrDuplicateKey
  else if is_null (mr_DeletedAt j) &&
          existsb (live_named (mr_Namespace j) (mr_Name j)) (db_runs db)
  then inr ErrDuplicateKey
  else inl (set_runs db (db_runs db ++ [j])).

(** [Update] *)
Definition Update (now : Z) (id : string) (fields : list run_col) db : DB Q :=
  set_runs db (update_where (fun r => String.eqb (mr_ID r) id) (run_Updates now fields) (db_runs db)).

Definition cas (id : string) (phase : run_phase) r : bool :=
  String.eqb (mr_ID r) id && bool_decide (mr_Phase r = phase) && is_null (mr_DeletedAt r).

(** [UpdatePhase] *)
Definition UpdatePhase (now : Z) (id : string) (phase : run_phase) (fields : list run_col) db
    : DB Q * bool :=
  (set_runs db (update_where (cas id phase) (run_Updates now fields) (db_runs db)),
   Nat.eqb (rows_affected (cas id phase) (db_runs db)) 1).

(** [MarkDeleting] *)
Definition MarkDeleting (now : Z) (id : string) db : DB Q :=
  Update now id [RPhase RunDeleting; RDeletedAt (Some now)] db.

Definition workSetBatch : nat := 100.

Definition oldest_update (a b : MLRun Q) : bool := (mr_UpdatedAt a <? mr_UpdatedAt b)%Z.

Definition batch (p : MLRun Q -> bool) db : list (MLRun Q) :=
  firstn workSetBatch (sort_slice oldest_update (List.filter p (db_runs db))).

Definition phase_in (phases : list run_phase) r : bool := bool_decide (mr_Phase r ∈ phases).

(** [FindObservable] *)
Definition FindObservable db : list (MLRun Q) :=
  batch (phase_in [RunCreating; RunPending; RunRunning; RunCanceling; RunDeleting]) db.

(** [WorkSet] *)
Record WorkSet := {
  ws_Creating : list (MLRun Q); ws_Canceling : list (MLRun Q); ws_Deleting : list (MLRun Q) }.

(** [FindDispatchRecoverySet] *)
Definition FindDispatchRecoverySet (updatedBefore : Z) db : list (MLRun Q) :=
  batch (fun r => phase_in [RunCreating; RunPending] r && (mr_UpdatedAt r <=? updatedBefore)%Z &&
                  is_null (mr_DeletedAt r)) db.

(** [FindWorkSet] *)
Definition FindWorkSet db : WorkSet :=
  {| ws_Creating := batch (fun r => phase_in [RunCreating] r && is_null (mr_DeletedAt r)) db;
     ws_Canceling := batch (phase_in [RunCanceling]) db;
     ws_Deleting := batch (phase_in [RunDeleting]) db |}.
End Repository.
End Repository.

(** [mergeStatusFields] *)
Definition mergeStatusFields (raw : json MLRunStatus) (mutate : MLRunStatus -> MLRunStatus)
    : json MLRunStatus := JVal (mutate (json_or MLRunStatus_zero raw)).

(** ** Requests and views *)

(** [server.MLRunCreateRequest] *)
Record MLRunCreateRequest {Q : Type} := {
  rc_Name : string;
  rc_DisplayName : string;
  rc_Description : string;
  rc_Labels : gmap string string;
  rc_Annotations : gmap string string;
  rc_PoolName : string;
  rc_UnitName : string;
  rc_PriorityClass : string;
  rc_Backend : option BackendSpec;
  rc_ConfigMaps : list RawJSON;
  rc_Roles : list (RoleSpec Q);
  rc_RunPolicy : option RunPolicySpec }.
Arguments MLRunCreateRequest : clear implicits.

(** [server.MLRunPatchRequest]; an absent field is [None]. *)
Record MLRunPatchRequest := {
  rpa_DisplayName : option string;
  rpa_Description : option string;
  rpa_Labels : option (gmap string string);
  rpa_Annotations : option (gmap string string) }.

(** [server.MLRun] *)
Record MLRunView {Q : Type} := {
  rv_ID : string; rv_Namespace : string; rv_Name : string; rv_DisplayName : string;
  rv_Description : string; rv_Owner : string;
  rv_Labels : gmap string string; rv_Annotations : gmap string string;
  rv_Phase : run_phase; rv_Spec : MLRunSpec Q; rv_Status : MLRunStatus;
  rv_ScheduledAt : option Z; rv_CreatedAt : Z; rv_UpdatedAt : Z; rv_DeletedAt : option Z }.
Arguments MLRunView : clear implicits.

(** [server.MLRunPhase] *)
Record MLRunPhaseView := {
  pv_Name : string; pv_Phase : run_phase; pv_Message : string; pv_QueueReason : string;
  pv_ScheduledAt : option Z; pv_StartedAt : option Z; pv_FinishedAt : option Z }.

Definition BackendSpec_zero : BackendSpec := {| be_Name := ""; be_Engine := ""; be_Config := None |}.

Definition SchedulingSpec_zero : SchedulingSpec :=
  {| sc_Quota := ""; sc_PriorityClass := ""; sc_NodeSelector := ∅; sc_Tolerations := [] |}.

Definition MLRunSpec_zero {Q} : MLRunSpec Q :=
  {| rsp_Backend := BackendSpec_zero; rsp_Scheduling := SchedulingSpec_zero; rsp_ConfigMaps := [];
     rsp_Roles := []; rsp_RunPolicy := RunPolicySpec_zero |}.

(** [if in.Backend != nil { ... }]: non-empty fields override the default. *)
Definition override_backend (d : BackendSpec) (b : option BackendSpec) : BackendSpec :=
  match b with
  | None => d
  | Some b =>
      {| be_Name := if String.eqb (be_Name b) "" then be_Name d else be_Name b;
         be_Engine := if String.eqb (be_Engine b) "" then be_Engine d else be_Engine b;
         be_Config := be_Config b |}
  end.

(** ** Service *)
Module Service.
Section Service.
Context {Q : Type} `{!ResourceResolver Q}.
Implicit Types (db : DB Q) (j : MLRun Q).

(** [toView] *)
Definition toView j : MLRunView Q :=
  {| rv_ID := mr_ID j; rv_Namespace := mr_Namespace j; rv_Name := mr_Name j;
     rv_DisplayName := mr_DisplayName j; rv_Description := mr_Description j; rv_Owner := mr_Owner j;
     rv_Labels := decodeMap (mr_Labels j); rv_Annotations := decodeMap (mr_Annotations j);
     rv_Phase := mr_Phase j; rv_Spec := json_or MLRunSpec_zero (mr_Spec j);
     rv_Status := json_or MLRunStatus_zero (mr_StatusJSON j);
     rv_ScheduledAt := mr_ScheduledAt j; rv_CreatedAt := mr_CreatedAt j;
     rv_UpdatedAt := mr_UpdatedAt j; rv_DeletedAt := mr_DeletedAt j |}.

Definition conflict : error := New CodeConflict "job already exists".
Definition not_found : error := New CodeNotFound "job not found".

Definition system_labels (poolName unitName : string) : gmap string string :=
  <[LabelResourceUnit := unitName]> {[LabelResourcePool := poolName]}.

(** The spec [Create] builds from the request and the resolved pool. *)
Definition build_spec (namespace : string) (input : MLRunCreateRequest Q) (expanded : Expanded Q)
    (runPolicy : RunPolicySpec) : MLRunSpec Q :=
  {| rsp_Backend := override_backend {| be_Name := "native"; be_Engine := "job"; be_Config := None |}
                      (rc_Backend input);
     rsp_Scheduling :=
       {| sc_Quota := ElasticQuotaName namespace (rc_PoolName input);
          sc_PriorityClass := rc_PriorityClass input;
          sc_NodeSelector := ex_NodeSelector expanded;
          sc_Tolerations := [] |};
     rsp_ConfigMaps := rc_ConfigMaps input;
     rsp_Roles := map (fun r => set_resources r
                         (BuildResources (ex_Requests expanded) (ex_Limits expanded)))
                    (rc_Roles input);
     rsp_RunPolicy := runPolicy |}.

Definition new_row (now : Z) (id owner namespace : string) (input : MLRunCreateRequest Q)
    (priority : Z) (spec : MLRunSpec Q) : MLRun Q :=
  {| mr_ID := id; mr_Namespace := namespace; mr_Name := rc_Name input;
     mr_DisplayName := rc_DisplayName input; mr_Description := rc_Description input;
     mr_Owner := owner;
     mr_Labels := mapBytes (mergeLabels (rc_Labels input)
                    (system_labels (rc_PoolName input) (rc_UnitName input)));
     mr_Annotations := mapBytes (rc_Annotations input);
     mr_Spec := JVal spec; mr_Priority := priority; mr_Phase := RunQueued;
     mr_StatusJSON := JVal MLRunStatus_zero; mr_ScheduledAt := None;
     mr_CreatedAt := now; mr_UpdatedAt := now; mr_DeletedAt := None |}.

(** [Create]; [id] is the fresh UUID and [owner] the authenticated user. *)
Definition Create (now : Z) (id owner namespace : string) (input : MLRunCreateRequest Q) db
    : DB Q * (MLRunView Q + error) :=
  if negb (IsValidName (rc_Name input)) then (db, inr (New CodeValidation "invalid job name"))
  else match Repository.GetByNamespaceName namespace (rc_Name input) db with
  | inl _ => (db, inr conflict)
  | inr e =>
  if negb (IsNotFound e) then (db, inr e)
  else match PriorityFromAnnotations (rc_Annotations input) with
  | inr e => (db, inr (New CodeValidation (Error e)))
  | inl priority =>
  match ResolveResourcePool (rc_PoolName input) with
  | inr e => (db, inr e)
  | inl pool =>
  match ResolveResourceUnit (rc_PoolName input) (rc_UnitName input) with
  | inr e => (db, inr e)
  | inl unit =>
  let expanded := Expand pool unit in
  let runPolicy := default RunPolicySpec_zero (rc_RunPolicy input) in
  if rp_Suspend runPolicy then
    (db, inr (New CodeValidation
      "runPolicy.suspend=true is not allowed on Create; use POST /mlruns/{name}/cancel after submission"))
  else
    let j := new_row now id owner namespace input priority
               (build_spec namespace input expanded runPolicy) in
    match Repository.Create j db with
    | inr e => (db, inr e)
    | inl db' => (db', inl (toView j))
    end
  end end end end.

(** [Get] *)
Definition Get (namespace name : string) db : MLRunView Q + error :=
  match Repository.GetByNamespaceName namespace name db with
  | inl j => inl (toView j)
  | inr e => inr (if IsNotFound e then not_found else e)
  end.

(** [phaseView] *)
Definition phaseView j : MLRunPhaseView :=
  let status := json_or MLRunStatus_zero (mr_StatusJSON j) in
  {| pv_Name := mr_Name j; pv_Phase := mr_Phase j; pv_Message := rst_Message status;
     pv_QueueReason := rst_QueueReason status; pv_ScheduledAt := mr_ScheduledAt j;
     pv_StartedAt := rst_StartedAt status; pv_FinishedAt := rst_FinishedAt status |}.

(** [Phase] *)
Definition Phase (namespace name : string) db : MLRunPhaseView + error :=
  match Repository.GetByNamespaceName namespace name db with
  | inl j => inl (phaseView j)
  | inr e => inr (if IsNotFound e then not_found else e)
  end.

(** [PhasesByNames] and [PhasesBySelector] *)
Definition PhasesByNames (namespace : string) (names : list string) db : list MLRunPhaseView :=
  map phaseView (Repository.ListPhasesByNames namespace names db).

Definition PhasesBySelector (namespace : string) (limit offset : nat)
    (labelClause : MLRun Q -> bool) db : list MLRunPhaseView * nat :=
  let '(rows, total) := Repository.ListPhasesBySelector namespace limit offset labelClause db in
  (map phaseView rows, total).

(** [List] *)
Definition List (namespace : string) (limit offset : nat) (labelClause : MLRun Q -> bool) db
    : list (MLRunView Q) * nat :=
  let '(rows, total) := Repository.ListByNamespace namespace limit offset labelClause db in
  (map toView rows, total).

Definition set_row (j : MLRun Q) (now : Z) (cols : list run_col) : MLRun Q :=
  foldl set_run_col j (cols ++ [RUpdatedAt now]).

(** The part of [Cancel] that follows the read of [j]. *)
Definition cancel_row (now : Z) j db : DB Q * (MLRunView Q + error) :=
  match mr_Phase j with
  | RunQueued =>
      let next := mergeStatusFields (mr_StatusJSON j) (fun s =>
        {| rst_Message := "user cancelled"; rst_QueueReason := "";
           rst_StartedAt := rst_StartedAt s; rst_FinishedAt := Some now |}) in
      let cols := [RPhase RunCancelled; RStatus next] in
      (Repository.Update now (mr_ID j) cols db, inl (toView (set_row j now cols)))
  | RunCreating =>
      (db, inr (New CodePrecondition "job is still being created; use DELETE"))
  | RunCanceling | RunCancelled | RunDeleting | RunDeleted | RunSucceeded | RunFailed =>
      (db, inr (New CodePrecondition "job is not cancellable in current state"))
  | RunPending | RunRunning =>
      let next := mergeStatusFields (mr_StatusJSON j) (fun s =>
        {| rst_Message := "user cancelled"; rst_QueueReason := rst_QueueReason s;
           rst_StartedAt := rst_StartedAt s; rst_FinishedAt := rst_FinishedAt s |}) in
      let cols := [RPhase RunCanceling; RStatus next] in
      (Repository.Update now (mr_ID j) cols db, inl (toView (set_row j now cols)))
  end.

(** [Cancel] *)
Definition Cancel (now : Z) (namespace name : string) db : DB Q * (MLRunView Q + error) :=
  match Repository.GetByNamespaceName namespace name db with
  | inr e => (db, inr (if IsNotFound e then not_found else e))
  | inl j => cancel_row now j db
  end.

Definition ErrPriorityImmutable : error :=
  New CodeImmutableField "annotation scheduling.axisml.io/priority is immutable".

(** The column updates a patch asks for. *)
Definition patch_columns (input : MLRunPatchRequest) j : list run_col + error :=
  let base :=
    match rpa_DisplayName input with Some s => [RDisplayName s] | None => [] end ++
    match rpa_Description input with Some s => [RDescription s] | None => [] end ++
    match rpa_Labels input with
    | Some labels =>
        let current := decodeMap (mr_Labels j) in
        [RLabels (mapBytes (mergeLabels labels
           (system_labels (map_get "" current LabelResourcePool)
              (map_get "" current LabelResourceUnit))))]
    | None => []
    end in
  match rpa_Annotations input with
  | None => inl base
  | Some annotations =>
      match PriorityFromAnnotations annotations with
      | inr e => inr (New CodeValidation (Error e))
      | inl _ =>
          let current := decodeMap (mr_Annotations j) in
          if decide (current !! AnnotationPriority = annotations !! AnnotationPriority)
          then inl (base ++ [RAnnotations (mapBytes annotations)])
          else inr ErrPriorityImmutable
      end
  end.

Definition patch_row (now : Z) (input : MLRunPatchRequest) j db : DB Q * (MLRunView Q + error) :=
  match patch_columns input j with
  | inr e => (db, inr e)
  | inl [] => (db, inl (toView j))
  | inl updates =>
      let db' := Repository.Update now (mr_ID j) updates db in
      match Repository.Get (mr_ID j) db' with
      | inr e => (db', inr e)
      | inl fresh => (db', inl (toView fresh))
      end
  end.

(** [Patch] *)
Definition Patch (now : Z) (namespace name : string) (input : MLRunPatchRequest) db
    : DB Q * (MLRunView Q + error) :=
  match Repository.GetByNamespaceName namespace name db with
  | inr e => (db, inr (if IsNotFound e then not_found else e))
  | inl j => patch_row now input j db
  end.

(** The part of [Delete] that follows the read of [j]. *)
Definition delete_row (now : Z) j db : DB Q :=
  match mr_Phase j with
  | RunQueued => Repository.Update now (mr_ID j) [RPhase RunDeleted; RDeletedAt (Some now)] db
  | RunDeleting | RunDeleted => db
  | _ => Repository.MarkDeleting now (mr_ID j) db
  end.

(** [Delete] *)
Definition Delete (now : Z) (namespace name : string) db : DB Q * option error :=
  match Repository.GetByNamespaceName namespace name db with
  | inr e => (db, if IsNotFound e then None else Some e)
  | inl j => (delete_row now j db, None)
  end.
End Service.
End Service.

(** ** Rendering *)

(** [reservedAnnotations] *)
Definition reservedAnnotations (row : gmap string string) : gmap string string :=
  match row !! AnnotationPriority with
  | Some value => {[AnnotationPriority := value]}
  | None => ∅
  end.

(** Copy a provenance label when it is present and not empty. *)
Definition copy_label (row : gmap string string) (labels : gmap string string) (k : string)
    : gmap string string :=
  match row !! k with
  | Some v => if String.eqb v "" then labels else <[k := v]> labels
  | None => labels
  end.

(** [ToCR] *)
Definition ToCR {Q} (shortHash : bytes -> bytes) (j : MLRun Q) (tenantPrefix : bool)
    : MLRunCR Q + error :=
  match unmarshal_nonempty MLRunSpec_zero (mr_Spec j) with
  | inr e => inr e
  | inl spec =>
      let rowLabels := decodeMap (mr_Labels j) in
      let labels :=
        foldl (copy_label rowLabels)
          (<[LabelQuota := sc_Quota (rsp_Scheduling spec)]>
             (<[LabelTenant := mr_Namespace j]> {[LabelRunID := mr_ID j]}))
          [LabelResourcePool; LabelResourceUnit] in
      let meta := {| om_Name := mr_Name j; om_Namespace := mr_Namespace j; om_Labels := labels;
                     om_Annotations := reservedAnnotations (decodeMap (mr_Annotations j)) |} in
      inl {| rcr_Meta := Annotate shortHash meta (mr_Namespace j) (mr_Name j) tenantPrefix;
             rcr_Spec := spec |}
  end.

(** ** Status reflow *)
Module Reflow.
Section Reflow.
Context {Q : Type}.
Implicit Types (db : DB Q) (j : MLRun Q).

(** [reflectObserved] *)
Definition reflectObserved (now : Z) j (observed : MLRunCRStatus) db : DB Q :=
  let prevStatus := json_or MLRunStatus_zero (mr_StatusJSON j) in
  let '(newPhase, mapped) :=
    MapRun (mr_Phase j)
      {| rs_Message := rst_Message prevStatus; rs_StartedAt := rst_StartedAt prevStatus;
         rs_FinishedAt := rst_FinishedAt prevStatus |} observed now in
  let nextStatus :=
    {| rst_Message := rs_Message mapped; rst_QueueReason := rst_QueueReason prevStatus;
       rst_StartedAt := rs_StartedAt mapped; rst_FinishedAt := rs_FinishedAt mapped |} in
  if bool_decide (newPhase = mr_Phase j) && bool_decide (nextStatus = prevStatus) then db
  else Repository.Update now (mr_ID j) [RPhase newPhase; RStatus (JVal nextStatus)] db.

(** [reflectGone] *)
Definition reflectGone (now : Z) j db : DB Q :=
  match mr_Phase j with
  | RunDeleting =>
      Repository.Update now (mr_ID j) [RPhase RunDeleted; RDeletedAt (Some now)] db
  | RunPending =>
      let next := mergeStatusFields (mr_StatusJSON j) (fun s =>
        {| rst_Message := "runtime object is absent; waiting for readmission"; rst_QueueReason := "";
           rst_StartedAt := rst_StartedAt s; rst_FinishedAt := rst_FinishedAt s |}) in
      Repository.Update now (mr_ID j) [RPhase RunQueued; RStatus next; RScheduledAt None] db
  | RunRunning =>
      let next := mergeStatusFields (mr_StatusJSON j) (fun s =>
        {| rst_Message := "external delete"; rst_QueueReason := rst_QueueReason s;
           rst_StartedAt := rst_StartedAt s; rst_FinishedAt := Some now |}) in
      Repository.Update now (mr_ID j) [RPhase RunCancelled; RStatus next] db
  | RunCanceling =>
      let next := mergeStatusFields (mr_StatusJSON j) (fun s =>
        {| rst_Message := rst_Message s; rst_QueueReason := rst_QueueReason s;
           rst_StartedAt := rst_StartedAt s; rst_FinishedAt := Some now |}) in
      Repository.Update now (mr_ID j) [RPhase RunCancelled; RStatus next] db
  | _ => db
  end.
End Reflow.
End Reflow.

(** ** Informer: the handlers of CR events; [labels] are the CR's *)
Module Informer.
Section Informer.
Context {Q : Type}.

(** [onChange] *)
Definition onChange (now : Z) (labels : gmap string string) (status : MLRunCRStatus) (db : DB Q)
    : DB Q :=
  match labels !! LabelRunID with
  | None => db
  | Some id => match Repository.Get id db with
               | inr _ => db
               | inl j => Reflow.reflectObserved now j status db
               end
  end.

(** [onDelete] *)
Definition onDelete (now : Z) (labels : gmap string string) (db : DB Q) : DB Q :=
  match labels !! LabelRunID with
  | None => db
  | Some id => match Repository.Get id db with
               | inr _ => db
               | inl j => Reflow.reflectGone now j db
               end
  end.
End Informer.
End Informer.

(** ** Reconciler *)
Module Reconciler.
Section Reconciler.
Context {Q : Type} `{!ComputeRuntime Q} (shortHash : bytes -> bytes) (tenantPrefix : bool).
Implicit Types (w : world Q) (j : MLRun Q).

(** [dispatchTimeout], in nanoseconds. *)
Definition dispatchTimeout : Z := (2 * 60 * 1000000000)%Z.

Definition key_of j : NamespacedName := (mr_Namespace j, mr_Name j).

(** [handleDispatchRecovery] *)
Definition handleDispatchRecovery (now : Z) w j : world Q :=
  let observation := rt_ObserveMLRun (w_calls w) (key_of j) in
  let w := record_call w (CObserveMLRun (key_of j)) in
  match observation with
  | inr e =>
      if IsAPINotFound e then
        let next := mergeStatusFields (mr_StatusJSON j) (fun s =>
          {| rst_Message := "runtime object absent after dispatch timeout; waiting for readmission";
             rst_QueueReason := ""; rst_StartedAt := rst_StartedAt s;
             rst_FinishedAt := rst_FinishedAt s |}) in
        with_db w (Repository.UpdatePhase now (mr_ID j) (mr_Phase j)
                     [RPhase RunQueued; RStatus next; RScheduledAt None] (w_db w)).1
      else w
  | inl observed =>
      if decide (mr_Phase j = RunCreating) then
        let '(db, changed) := Repository.UpdatePhase now (mr_ID j) RunCreating
                                [RPhase RunPending; RScheduledAt (Some now)] (w_db w) in
        if changed then
          let j' := foldl set_run_col j [RPhase RunPending; RScheduledAt (Some now)] in
          with_db w (Reflow.reflectObserved now j' observed db)
        else with_db w db
      else
        let updates := [RUpdatedAt now] ++
                       (if is_null (mr_ScheduledAt j) then [RScheduledAt (Some now)] else []) in
        let '(db, _) := Repository.UpdatePhase now (mr_ID j) RunPending updates (w_db w) in
        with_db w (Reflow.reflectObserved now j observed db)
  end.

(** [handleCreate] *)
Definition handleCreate (now : Z) w j : world Q :=
  match ToCR shortHash j tenantPrefix with
  | inr _ => w
  | inl cr =>
      let answer := rt_ApplyMLRun (w_calls w) cr in
      let w := record_call w (CApplyMLRun cr) in
      match answer with
      | Some err =>
          let terminal := IsTerminalApplyError err in
          let next := mergeStatusFields (mr_StatusJSON j) (fun s =>
            {| rst_Message := Error err; rst_QueueReason := rst_QueueReason s;
               rst_StartedAt := rst_StartedAt s;
               rst_FinishedAt := if terminal then Some now else rst_FinishedAt s |}) in
          let updates := [RStatus next] ++ (if terminal then [RPhase RunFailed] else []) in
          let w := with_db w (Repository.Update now (mr_ID j) updates (w_db w)) in
          if terminal then w
          else if IsResourceUnavailable err then
            let instances := rt_ListMLRunInstances (w_calls w) (key_of j) in
            let w := record_call w (CListMLRunInstances (key_of j)) in
            match instances with
            | inl 0%nat =>
                let next := mergeStatusFields (mr_StatusJSON j) (fun s =>
                  {| rst_Message := Error err; rst_QueueReason := "InsufficientResources";
                     rst_StartedAt := rst_StartedAt s; rst_FinishedAt := rst_FinishedAt s |}) in
                with_db w (Repository.Update now (mr_ID j)
                             [RPhase RunQueued; RStatus next; RScheduledAt None] (w_db w))
            | _ => w
            end
          else w
      | None =>
          with_db w (Repository.Update now (mr_ID j)
                       [RPhase RunPending; RScheduledAt (Some now)] (w_db w))
      end
  end.

(** [handleCancel] *)
Definition handleCancel (now : Z) w j : world Q :=
  record_call w (CCancelMLRun (key_of j)).

(** [handleDelete] *)
Definition handleDelete (now : Z) w j : world Q :=
  let answer := rt_DeleteMLRun (w_calls w) (key_of j) in
  let w := record_call w (CDeleteMLRun (key_of j)) in
  match answer with
  | Some _ => w
  | None =>
      let observation := rt_ObserveMLRun (w_calls w) (key_of j) in
      let w := record_call w (CObserveMLRun (key_of j)) in
      match observation with
      | inr e =>
          if IsAPINotFound e then
            with_db w (Repository.Update now (mr_ID j)
                         [RPhase RunDeleted; RDeletedAt (Some now)] (w_db w))
          else w
      | inl _ => w
      end
  end.

(** [runOnce] *)
Definition runOnce (now : Z) w : world Q :=
  let w := foldl (handleDispatchRecovery now) w
             (Repository.FindDispatchRecoverySet (now - dispatchTimeout) (w_db w)) in
  let ws := Repository.FindWorkSet (w_db w) in
  let w := foldl (handleCreate now) w (Repository.ws_Creating ws) in
  let w := foldl (handleCancel now) w (Repository.ws_Canceling ws) in
  foldl (handleDelete now) w (Repository.ws_Deleting ws).
End Reconciler.
End Reconciler.

(** ** Status poller *)
Module Poller.
Section Poller.
Context {Q : Type} `{!ComputeRuntime Q}.

Definition poll_row (now : Z) (w : world Q) (row : MLRun Q) : world Q :=
  let key := (mr_Namespace row, mr_Name row) in
  let observation := rt_ObserveMLRun (w_calls w) key in
  let w := record_call w (CObserveMLRun key) in
  match observation with
  | inr e => if IsAPINotFound e then with_db w (Reflow.reflectGone now row (w_db w)) else w
  | inl observed => with_db w (Reflow.reflectObserved now row observed (w_db w))
  end.

(** [runOnce] *)
Definition runOnce (now : Z) (w : world Q) : world Q :=
  foldl (poll_row now) w (Repository.FindObservable (w_db w)).
End Poller.
End Poller.
