(* ===== verification/MlrunFacts.v ===== *)
(** * MLRun: what every interleaving preserves

    Each handler of [internal/mlrun] writes rows by id.  The first part looks
    at a handler as a sequence of such writes, whatever row it was computed
    from, however outdated: this is what holds under any interleaving of API
    calls, reconciler, informer, poller and admission. *)

From Stdlib Require Import ssreflect ZArith Lia Ascii String.
From stdpp Require Import base gmap list strings.
From S2P Require Import Prelude Placement ApiTypes Store StatusMap Names Runtime ServiceAdmission Admission AdmissionUsage AdmissionSafety AdmissionRuns Mlrun.

Section Frozen.
Context {Q : Type}.
Implicit Types (db : DB Q) (r j : MLRun Q).

(** Columns no handler may change, and the permanence of soft deletion. *)
Definition run_frozen (a b : MLRun Q) : Prop :=
  (mr_ID b, mr_Namespace b, mr_Name b, mr_Owner b, mr_Spec b, mr_Priority b, mr_CreatedAt b) =
  (mr_ID a, mr_Namespace a, mr_Name a, mr_Owner a, mr_Spec a, mr_Priority a, mr_CreatedAt a) /\
  (mr_DeletedAt a <> None -> mr_DeletedAt b <> None).

#[export] Instance run_frozen_refl : Reflexive run_frozen.
Proof. by intros a. Qed.

#[export] Instance run_frozen_trans : Transitive run_frozen.
Proof. intros a b c [H1 D1] [H2 D2]. split; [by rw H2|auto]. Qed.

(** Column lists that never revive a row. *)
Definition keeps_deleted (cols : list run_col) : Prop := RDeletedAt None ∉ cols.

Lemma set_run_col_frozen (a : MLRun Q) c : c <> RDeletedAt None -> run_frozen a (set_run_col a c).
Proof. intros Hc. split; [by destruct c|]. destruct c as [| | |[]| | | | |]; simpl; done. Qed.

Lemma run_Updates_frozen now cols (a : MLRun Q) :
  keeps_deleted cols -> run_frozen a (run_Updates now cols a).
Proof.
  rw /run_Updates /keeps_deleted => H. etrans; [by apply (set_run_col_frozen a (RUpdatedAt now))|].
  generalize (set_run_col a (RUpdatedAt now)) as b.
  induction cols as [|c cols IH]; intros b; simpl; [done|].
  apply not_elem_of_cons in H as [H1 H2].
  etrans; [by apply set_run_col_frozen; auto|]. by apply IH.
Qed.

(** [db'] results from [db] by row updates that freeze identity. *)
Record run_writes (db db' : DB Q) : Prop := {
  rw_rows : Forall2 run_frozen (db_runs db) (db_runs db');
  rw_services : db_services db' = db_services db;
  rw_policies : db_policies db' = db_policies db }.

#[export] Instance run_writes_refl : Reflexive run_writes.
Proof. intros db. split; [|done..]. by apply Forall_Forall2_diag, Forall_true. Qed.

#[export] Instance run_writes_trans : Transitive run_writes.
Proof. intros a b c [] []. split; [by etrans|congruence..]. Qed.

Lemma run_writes_update db p now cols :
  keeps_deleted cols -> run_writes db (set_runs db (update_where p (run_Updates now cols) (db_runs db))).
Proof.
  intros H. split; [|done..]. apply update_where_Forall2; [apply _|].
  intros r _ _. by apply run_Updates_frozen.
Qed.

Lemma Update_writes now id cols db :
  keeps_deleted cols -> run_writes db (Repository.Update now id cols db).
Proof. apply run_writes_update. Qed.

Lemma UpdatePhase_writes now id phase cols db :
  keeps_deleted cols -> run_writes db (Repository.UpdatePhase now id phase cols db).1.
Proof. apply run_writes_update. Qed.

(** A column list written out in the source is checked by computation. *)
Ltac keeps := rw /keeps_deleted; set_solver.

Lemma reflectObserved_writes now j observed db :
  run_writes db (Reflow.reflectObserved now j observed db).
Proof.
  rw /Reflow.reflectObserved. destruct (MapRun _ _ _ _). case_match; [done|].
  apply Update_writes. keeps.
Qed.

Lemma reflectGone_writes now j db : run_writes db (Reflow.reflectGone now j db).
Proof. rw /Reflow.reflectGone. destruct (mr_Phase j); try done; apply Update_writes; keeps. Qed.

Lemma onChange_writes now labels status db : run_writes db (Informer.onChange now labels status db).
Proof.
  rw /Informer.onChange. destruct (labels !! _); [|done].
  destruct (Repository.Get _ db); [apply reflectObserved_writes|done].
Qed.

Lemma onDelete_writes now labels db : run_writes db (Informer.onDelete now labels db).
Proof.
  rw /Informer.onDelete. destruct (labels !! _); [|done].
  destruct (Repository.Get _ db); [apply reflectGone_writes|done].
Qed.

Lemma cancel_writes now j db : run_writes db (Service.cancel_row now j db).1.
Proof. rw /Service.cancel_row. destruct (mr_Phase j); try done; apply Update_writes; keeps. Qed.

Lemma patch_columns_keeps input j cols :
  Service.patch_columns input j = inl cols -> keeps_deleted cols.
Proof.
  rw /Service.patch_columns /keeps_deleted.
  destruct (rpa_Annotations input); repeat case_match; intros [= <-]; set_solver.
Qed.

Lemma patch_writes now input j db : run_writes db (Service.patch_row now input j db).1.
Proof.
  rw /Service.patch_row. destruct (Service.patch_columns input j) as [[|c cols]|] eqn:Hc; try done.
  apply patch_columns_keeps in Hc. destruct (Repository.Get _ _); by apply Update_writes.
Qed.

Lemma delete_writes now j db : run_writes db (Service.delete_row now j db).
Proof. rw /Service.delete_row. destruct (mr_Phase j); try done; apply Update_writes; keeps. Qed.

Section Reconciler.
Context `{!ComputeRuntime Q} (shortHash : bytes -> bytes) (tenantPrefix : bool).

Lemma recovery_writes now (w : world Q) j :
  run_writes (w_db w) (w_db (Reconciler.handleDispatchRecovery now w j)).
Proof.
  rw /Reconciler.handleDispatchRecovery. destruct (rt_ObserveMLRun _ _) as [observed|e].
  - case_decide.
    + destruct (Repository.UpdatePhase _ _ _ _ _) as [db changed] eqn:Hu.
      assert (Hdb : run_writes (w_db w) db).
      { replace db with (db, changed).1 by done. rw -Hu. apply UpdatePhase_writes. keeps. }
      destruct changed; simpl; [|done]. etrans; [done|apply reflectObserved_writes].
    + destruct (Repository.UpdatePhase _ _ _ _ _) as [db changed] eqn:Hu.
      simpl. etrans; [|apply reflectObserved_writes].
      replace db with (db, changed).1 by done. rw -Hu. apply UpdatePhase_writes.
      destruct (is_null _); keeps.
  - destruct (IsAPINotFound e); [|done]. simpl. apply run_writes_update. keeps.
Qed.

Lemma create_writes now (w : world Q) j :
  run_writes (w_db w) (w_db (Reconciler.handleCreate shortHash tenantPrefix now w j)).
Proof.
  rw /Reconciler.handleCreate. destruct (ToCR _ _ _) as [cr|]; [|done].
  destruct (rt_ApplyMLRun _ _) as [err|]; [|apply Update_writes; keeps].
  assert (H1 : forall cols, keeps_deleted cols -> run_writes (w_db w)
    (Repository.Update now (mr_ID j) cols (w_db w))) by (intros; by apply Update_writes).
  destruct (IsTerminalApplyError err); simpl; [apply H1; keeps|].
  destruct (IsResourceUnavailable err); [|apply H1; keeps].
  destruct (rt_ListMLRunInstances _ _) as [[|n]|]; simpl; [|apply H1; keeps..].
  etrans; [|apply Update_writes; keeps]. apply H1. keeps.
Qed.

Lemma delete_cr_writes now (w : world Q) j :
  run_writes (w_db w) (w_db (Reconciler.handleDelete now w j)).
Proof.
  rw /Reconciler.handleDelete. destruct (rt_DeleteMLRun _ _); [done|].
  destruct (rt_ObserveMLRun _ _) as [|e]; [done|]. destruct (IsAPINotFound e); [|done].
  apply Update_writes. keeps.
Qed.
End Reconciler.

(** Admission rounds only move runs forward. *)
Lemma run_evolved_frozen (a b : MLRun Q) : run_evolved a b -> run_frozen a b.
Proof. intros [Hi _]. move: Hi. rw /run_identity /run_frozen. intros [=]. split; congruence. Qed.
End Frozen.

(** ** Any interleaving *)

Section Steps.
Context {Q : Type} `{!Quantity Q} `{!ResourceResolver Q} `{!ComputeRuntime Q}
  (shortHash : bytes -> bytes) (tenantPrefix : bool).
Implicit Types (w : world Q) (j : MLRun Q) (rows : list (MLRun Q)) (db : DB Q).

(** One atomic action of the system on the runs.  The row [j] a handler works
    from is arbitrary: it may be outdated or gone. *)
Inductive run_step : world Q -> world Q -> Prop :=
| step_Create now id owner namespace input w :
    run_step w (with_db w (Service.Create now id owner namespace input (w_db w)).1)
| step_Cancel now j w : run_step w (with_db w (Service.cancel_row now j (w_db w)).1)
| step_Patch now input j w : run_step w (with_db w (Service.patch_row now input j (w_db w)).1)
| step_Delete now j w : run_step w (with_db w (Service.delete_row now j (w_db w)))
| step_handleDispatchRecovery now j w : run_step w (Reconciler.handleDispatchRecovery now w j)
| step_handleCreate now j w : run_step w (Reconciler.handleCreate shortHash tenantPrefix now w j)
| step_handleCancel now j w : run_step w (Reconciler.handleCancel now w j)
| step_handleDelete now j w : run_step w (Reconciler.handleDelete now w j)
| step_reflectObserved now j observed w :
    run_step w (with_db w (Reflow.reflectObserved now j observed (w_db w)))
| step_reflectGone now j w : run_step w (with_db w (Reflow.reflectGone now j (w_db w)))
| step_admit now inventory quotas pools db0 w :
    run_step w (with_db w (runOnce now inventory quotas pools db0 (w_db w))).

(** Rows are only added, and keep what [run_frozen] freezes. *)
Definition run_extends (rows rows' : list (MLRun Q)) : Prop :=
  exists kept new, rows' = kept ++ new /\ Forall2 run_frozen rows kept.

Definition live_unique (rows : list (MLRun Q)) : Prop :=
  forall i k a b, rows !! i = Some a -> rows !! k = Some b ->
    mr_DeletedAt a = None -> mr_DeletedAt b = None ->
    mr_Namespace a = mr_Namespace b -> mr_Name a = mr_Name b -> i = k.

Lemma extends_frozen rows rows' : Forall2 run_frozen rows rows' -> run_extends rows rows'.
Proof. intros H. exists rows', []. by rw app_nil_r. Qed.

#[local] Instance run_extends_trans : Transitive run_extends.
Proof.
  intros a b c (k1 & n1 & -> & H1) (k2 & n2 & -> & H2).
  apply Forall2_app_inv_l in H2 as (x & y & Hx & Hy & ->).
  exists x, (y ++ n2). split; [by rw app_assoc|]. by etrans.
Qed.

Lemma frozen_ids rows rows' : Forall2 run_frozen rows rows' -> map mr_ID rows' = map mr_ID rows.
Proof.
  induction 1 as [|a b l l' [Hi _] _ IH]; simpl; [done|]. f_equal; [|done]. by injection Hi.
Qed.

Lemma frozen_live_unique rows rows' :
  Forall2 run_frozen rows rows' -> live_unique rows -> live_unique rows'.
Proof.
  intros HF Hu i k b1 b2 Hi Hk L1 L2 E1 E2.
  destruct (Forall2_lookup_r _ _ _ _ _ HF Hi) as (a1 & Ha1 & [I1 D1]).
  destruct (Forall2_lookup_r _ _ _ _ _ HF Hk) as (a2 & Ha2 & [I2 D2]).
  injection I1 as ? ? ? ? ? ? ?. injection I2 as ? ? ? ? ? ? ?.
  eapply (Hu i k a1 a2); try done.
  - destruct (mr_DeletedAt a1); [|done]. by destruct D1.
  - destruct (mr_DeletedAt a2); [|done]. by destruct D2.
  - congruence.
  - congruence.
Qed.

Lemma Create_inv now id owner namespace input db :
  let db' := (Service.Create now id owner namespace input db).1 in
  db' = db \/
  exists j, db_runs db' = db_runs db ++ [j] /\ mr_ID j = id /\ id ∉ map mr_ID (db_runs db) /\
    existsb (Repository.live_named (mr_Namespace j) (mr_Name j)) (db_runs db) = false.
Proof.
  rw /Service.Create. destruct (negb _); [by left|].
  destruct (Repository.GetByNamespaceName _ _ db) as [|e]; [by left|].
  destruct (negb (IsNotFound e)); [by left|].
  destruct (PriorityFromAnnotations _) as [priority|]; [|by left].
  destruct (ResolveResourcePool _) as [pool|]; [|by left].
  destruct (ResolveResourceUnit _ _) as [unit|]; [|by left].
  destruct (rp_Suspend _); [by left|].
  set (j := Service.new_row _ _ _ _ _ _ _).
  rw /Repository.Create. destruct (existsb _ (db_runs db)) eqn:Hid; [by left|].
  destruct (_ && _) eqn:Hlive; [by left|]. right. exists j. simpl in *.
  split_and!; [done|done| |done].
  intros (r & Hr & Hin)%list_elem_of_fmap. apply not_true_iff_false in Hid. apply Hid.
  apply existsb_exists. exists r. split; [by apply list_elem_of_In|]. by apply String.eqb_eq.
Qed.

Lemma live_unique_snoc rows (j : MLRun Q) :
  live_unique rows ->
  existsb (Repository.live_named (mr_Namespace j) (mr_Name j)) rows = false ->
  live_unique (rows ++ [j]).
Proof.
  intros Hu Hno.
  assert (Hnew : forall i a, rows !! i = Some a -> mr_DeletedAt a = None ->
    mr_Namespace a = mr_Namespace j -> mr_Name a = mr_Name j -> False).
  { intros i a Ha L E1 E2. apply not_true_iff_false in Hno. apply Hno, existsb_exists. exists a.
    split; [by eapply list_elem_of_In, list_elem_of_lookup_2|].
    by rw /Repository.live_named E1 E2 !String.eqb_refl L. }
  intros i k a b Hi Hk L1 L2 E1 E2.
  apply lookup_app_Some in Hi as [Hi|[Hi1 Hi]]; apply lookup_app_Some in Hk as [Hk|[Hk1 Hk]].
  - by eapply Hu.
  - apply list_lookup_singleton_Some in Hk as [_ <-]. exfalso. by eapply Hnew.
  - apply list_lookup_singleton_Some in Hi as [_ <-]. exfalso. by eapply Hnew.
  - apply list_lookup_singleton_Some in Hi as [? _]. apply list_lookup_singleton_Some in Hk as [? _]. lia.
Qed.

(** ** Admission, whatever the tables look like *)

Lemma setQueueReason_writes now (run : MLRun Q) reason message db :
  Forall2 run_frozen (db_runs db) (db_runs (setQueueReason now run reason message db)).
Proof.
  rw /setQueueReason. case_decide; [by apply Forall_Forall2_diag, Forall_true|].
  apply run_writes_update. rw /keeps_deleted. set_solver.
Qed.

Lemma admitRun_frozen now quotas (st : round Q) run st' :
  admitRun now quotas st run = inl st' ->
  Forall2 run_frozen (db_runs (rd_db st)) (db_runs (rd_db st')).
Proof.
  rw /admitRun. destruct (runWorkload run) as [wl|]; [|done].
  destruct (quotas !! _) as [[max|]|]; [|intros [= <-]; apply setQueueReason_writes..].
  destruct (exceeds _ _); [intros [= <-]; apply setQueueReason_writes|].
  destruct (exceeds _ _); [intros [= <-]; apply setQueueReason_writes|].
  destruct (place_roles _ _ _) as [trial [[|] reason]]; [|intros [= <-]; apply setQueueReason_writes].
  case_match; intros [= <-]; apply run_writes_update; rw /keeps_deleted; set_solver.
Qed.

Lemma frozen_diag rows : Forall2 run_frozen rows rows.
Proof. by apply Forall_Forall2_diag, Forall_true. Qed.

Lemma admission_frozen now inventory quotas pools db0 db :
  Forall2 run_frozen (db_runs db) (db_runs (runOnce now inventory quotas pools db0 db)).
Proof.
  rw /runOnce. destruct (pendingServices db0) as [services|]; [|apply frozen_diag].
  destruct (_ && _); [apply frozen_diag|]. destruct inventory as [snapshot|e].
  - destruct (admitLocked _ _ _ _ _) as [st|] eqn:Hadm; [|apply frozen_diag].
    move: Hadm. rw /admitLocked /start_round.
    destruct (loadActive _ _) as [[[active usage] actual]|]; [|done].
    destruct (admitServicesLocked _ _ _) as [st1|] eqn:Hs; [|done]. intros Hr.
    apply admitServicesLocked_runs in Hs. simpl in Hs. rw -Hs.
    apply (fold_err_invariant (fun s => Forall2 run_frozen (db_runs (rd_db st1)) (db_runs (rd_db s)))
      _ _ _ _ (frozen_diag _)
      (fun s a s1 _ H Hf => transitivity H (admitRun_frozen _ _ _ _ _ Hf)) Hr).
  - rw setAllServiceAdmissionReason_runs /setAllQueueReason.
    set (rs := queuedRuns db0). clearbody rs. revert db.
    induction rs as [|run rs IH]; intros db; simpl; [apply frozen_diag|].
    etrans; [apply setQueueReason_writes|apply IH].
Qed.

Lemma run_step_cases w w' :
  run_step w w' ->
  Forall2 run_frozen (db_runs (w_db w)) (db_runs (w_db w')) \/
  exists j, db_runs (w_db w') = db_runs (w_db w) ++ [j] /\
    mr_ID j ∉ map mr_ID (db_runs (w_db w)) /\
    existsb (Repository.live_named (mr_Namespace j) (mr_Name j)) (db_runs (w_db w)) = false.
Proof.
  destruct 1 as [now id owner namespace input w|now j w|now input j w|now j w|now j w|now j w|
    now j w|now j w|now j observed w|now j w|now inventory quotas pools db0 w].
  - destruct (Create_inv now id owner namespace input (w_db w)) as [E|(j & E & <- & ? & ?)].
    + left. simpl. rw E. apply frozen_diag.
    + right. exists j. done.
  - left. apply cancel_writes.
  - left. apply patch_writes.
  - left. apply delete_writes.
  - left. apply recovery_writes.
  - left. apply create_writes.
  - left. apply frozen_diag.
  - left. apply delete_cr_writes.
  - left. apply reflectObserved_writes.
  - left. apply reflectGone_writes.
  - left. apply admission_frozen.
Qed.

(** Under any interleaving of API calls, reconciler, informer, poller and
    admission, with handlers acting on rows that may be outdated, run ids stay
    unique, no two live runs of a namespace share a name, no row disappears,
    and a row's identity, owner, spec, priority and creation time never
    change, nor is a soft-deleted row ever revived. *)
Theorem run_rows_safe w w' :
  rtc run_step w w' ->
  NoDup (map mr_ID (db_runs (w_db w))) -> live_unique (db_runs (w_db w)) ->
  NoDup (map mr_ID (db_runs (w_db w'))) /\ live_unique (db_runs (w_db w')) /\
  run_extends (db_runs (w_db w)) (db_runs (w_db w')).
Proof.
  induction 1 as [w|w w1 w' Hstep _ IH]; intros Hnd Hu.
  { split_and!; [done|done|]. apply extends_frozen, frozen_diag. }
  destruct (run_step_cases _ _ Hstep) as [HF|(j & E & Hid & Hno)].
  - destruct IH as (? & ? & ?); [by rw (frozen_ids _ _ HF)|by eapply frozen_live_unique|].
    split_and!; [done|done|]. etrans; [by apply extends_frozen|done].
  - rw E in IH. destruct IH as (? & ? & ?).
    + rw map_app. apply NoDup_app. split_and!; [done| |apply NoDup_singleton].
      intros x Hx ->%list_elem_of_singleton. done.
    + by apply live_unique_snoc.
    + split_and!; [done|done|]. etrans; [|done]. exists (db_runs (w_db w)), [j].
      split; [done|apply frozen_diag].
Qed.
End Steps.
