(* ===== verification/MlrunLifecycle.v ===== *)
(** * MLRun: the lifecycle

    Operations that act on the row as it is: which phase changes each of them
    makes, and the well-formedness of rows they keep.  The loops of reconciler
    and poller read their rows up front; since every handler writes only its
    own row, the rows still to come are current when their turn comes. *)

From Stdlib Require Import ssreflect ZArith Lia Ascii String.
From stdpp Require Import base gmap list strings.
From S2P Require Import Prelude Placement ApiTypes Store StatusMap Names Runtime ServiceAdmission Admission AdmissionUsage AdmissionSafety AdmissionRuns Mlrun MlrunFacts.

(** The phase changes of a run that compute-service.md describes: the diagram
    and the table of section 4.1, and what section 5.5 says about objects that
    vanish and dispatches that time out.  (Of the step from Canceling to
    Cancelled it says that only the Suspended condition causes it; the code
    makes it also when the object vanishes, which phases do not tell apart.) *)
Inductive documented_edge : run_phase -> run_phase -> Prop :=
| doc_admit : documented_edge RunQueued RunCreating
| doc_dispatch : documented_edge RunCreating RunPending
| doc_running : documented_edge RunPending RunRunning
| doc_ended q : q = RunSucceeded \/ q = RunFailed -> documented_edge RunRunning q
| doc_cancel p : p = RunPending \/ p = RunRunning -> documented_edge p RunCanceling
| doc_cancelled : documented_edge RunCanceling RunCancelled
| doc_delete p : p ∉ [RunCanceling; RunDeleting; RunDeleted] -> documented_edge p RunDeleting
| doc_deleted : documented_edge RunDeleting RunDeleted
| doc_gone_pending : documented_edge RunPending RunQueued
| doc_gone_running : documented_edge RunRunning RunCancelled
| doc_timeout : documented_edge RunCreating RunQueued.

(** The others the code makes: a queued run is cancelled or deleted at once; an
    object that is observed before its dispatch is recorded makes it run; a run
    that is being cancelled can be deleted; and a run ends out of every phase,
    when its end is observed or when its dispatch fails for good. *)
Inductive undocumented_edge : run_phase -> run_phase -> Prop :=
| un_cancel_queued : undocumented_edge RunQueued RunCancelled
| un_delete_queued : undocumented_edge RunQueued RunDeleted
| un_running : undocumented_edge RunCreating RunRunning
| un_delete_canceling : undocumented_edge RunCanceling RunDeleting
| un_ended p q : p <> RunRunning -> q = RunSucceeded \/ q = RunFailed -> undocumented_edge p q.

Definition run_edge (p q : run_phase) : Prop := documented_edge p q \/ undocumented_edge p q.

Lemma edge_documented p q : documented_edge p q -> run_edge p q.
Proof. by left. Qed.

Lemma edge_undocumented p q : undocumented_edge p q -> run_edge p q.
Proof. by right. Qed.

Lemma edge_requeue p : p = RunCreating \/ p = RunPending -> run_edge p RunQueued.
Proof. intros [->| ->]; left; constructor. Qed.

Lemma edge_running p : p = RunCreating \/ p = RunPending -> run_edge p RunRunning.
Proof. intros [->| ->]; [right|left]; constructor. Qed.

Lemma edge_cancelled p : p = RunRunning \/ p = RunCanceling -> run_edge p RunCancelled.
Proof. intros [->| ->]; left; [apply doc_gone_running|apply doc_cancelled]. Qed.

Lemma edge_observed p q : q = RunSucceeded \/ q = RunFailed -> run_edge p q.
Proof. intros Hq. destruct (decide (p = RunRunning)) as [->|]; [left|right]; by constructor. Qed.

Lemma edge_delete p : p ∉ [RunQueued; RunDeleting; RunDeleted] -> run_edge p RunDeleting.
Proof. intros Hp. destruct (decide (p = RunCanceling)) as [->|]; [right|left]; constructor. set_solver. Qed.

Create HintDb lifecycle discriminated.
#[export] Hint Constructors documented_edge undocumented_edge : lifecycle.
#[export] Hint Resolve edge_documented edge_undocumented edge_requeue edge_running edge_cancelled edge_observed edge_delete : lifecycle.

Section Lifecycle.
Context {Q : Type}.
Implicit Types (db : DB Q) (j : MLRun Q) (rows : list (MLRun Q)).

Definition status_of j : MLRunStatus := json_or MLRunStatus_zero (mr_StatusJSON j).

(** A queued run has no dispatch time, a run that is being deleted is
    soft-deleted, a run that ended has a finish time. *)
Record run_wf j : Prop := {
  wf_queued : mr_Phase j = RunQueued -> mr_ScheduledAt j = None;
  wf_deleted : mr_Phase j = RunDeleting \/ mr_Phase j = RunDeleted -> mr_DeletedAt j <> None;
  wf_finished : mr_Phase j = RunSucceeded \/ mr_Phase j = RunFailed \/ mr_Phase j = RunCancelled ->
    rst_FinishedAt (status_of j) <> None }.

Record lifecycle (a b : MLRun Q) : Prop := {
  lc_id : mr_ID b = mr_ID a;
  lc_phase : rtc run_edge (mr_Phase a) (mr_Phase b);
  lc_wf : run_wf a -> run_wf b }.

#[export] Instance lifecycle_refl : Reflexive lifecycle.
Proof. intros a. by split. Qed.

#[export] Instance lifecycle_trans : Transitive lifecycle.
Proof. intros a b c [I1 P1 W1] [I2 P2 W2]. split; [congruence|by etrans|auto]. Qed.

(** ** Replacing one row *)

Definition put (j' : MLRun Q) rows : list (MLRun Q) :=
  map (fun a => if String.eqb (mr_ID a) (mr_ID j') then j' else a) rows.

Lemma put_ids j' rows : map mr_ID (put j' rows) = map mr_ID rows.
Proof.
  rw /put map_map. apply map_ext => a. destruct (String.eqb_spec (mr_ID a) (mr_ID j')); congruence.
Qed.

Lemma put_put j1 j2 rows : mr_ID j1 = mr_ID j2 -> put j2 (put j1 rows) = put j2 rows.
Proof.
  intros E. rw /put map_map. apply map_ext => a. rw E.
  destruct (String.eqb_spec (mr_ID a) (mr_ID j2)) as [Ha|Ha].
  - by rw E String.eqb_refl.
  - destruct (String.eqb_spec (mr_ID a) (mr_ID j2)); done.
Qed.

Lemma elem_of_put j j' rows : j ∈ rows -> mr_ID j = mr_ID j' -> j' ∈ put j' rows.
Proof.
  intros Hj E. apply list_elem_of_In, in_map_iff. exists j. rw E String.eqb_refl.
  split; [done|]. by apply list_elem_of_In.
Qed.

Lemma elem_of_put_other x j' rows : x ∈ rows -> mr_ID x <> mr_ID j' -> x ∈ put j' rows.
Proof.
  intros Hx E. apply list_elem_of_In, in_map_iff. exists x. apply String.eqb_neq in E. rw E.
  split; [done|]. by apply list_elem_of_In.
Qed.

Lemma put_same j rows : NoDup (map mr_ID rows) -> j ∈ rows -> put j rows = rows.
Proof.
  intros Hnd Hj. rw /put -{2}(map_id rows). apply map_ext_in. intros a Ha%list_elem_of_In.
  destruct (String.eqb_spec (mr_ID a) (mr_ID j)) as [E|]; [|done]. by eapply (unique_by mr_ID).
Qed.

Lemma put_lifecycle j j' rows :
  NoDup (map mr_ID rows) -> j ∈ rows -> lifecycle j j' -> Forall2 lifecycle rows (put j' rows).
Proof.
  intros Hnd Hj Hlc. rw /put. rw -{1}(map_id rows). apply Forall2_fmap_2, Forall_Forall2_diag.
  apply Forall_forall => a Ha. destruct (String.eqb_spec (mr_ID a) (mr_ID j')) as [E|]; [|done].
  rw (lc_id _ _ Hlc) in E. by rw (unique_by mr_ID _ _ _ Hnd Ha Hj E).
Qed.

Lemma update_by_put (p : MLRun Q -> bool) (f : MLRun Q -> MLRun Q) j rows :
  NoDup (map mr_ID rows) -> j ∈ rows -> p j = true ->
  (forall r, p r = true -> mr_ID r = mr_ID j) -> mr_ID (f j) = mr_ID j ->
  update_where p f rows = put (f j) rows.
Proof.
  intros Hnd Hj Hp Hid Hf. rw /update_where /put. apply map_ext_in. intros a Ha%list_elem_of_In.
  rw Hf. destruct (p a) eqn:Hpa.
  - pose proof (Hid a Hpa) as E. rw E String.eqb_refl. by rw (unique_by mr_ID _ _ _ Hnd Ha Hj E).
  - destruct (String.eqb_spec (mr_ID a) (mr_ID j)) as [E|]; [|done].
    rw (unique_by mr_ID _ _ _ Hnd Ha Hj E) in Hpa. congruence.
Qed.

Lemma run_Updates_id now cols j : mr_ID (run_Updates now cols j) = mr_ID j.
Proof.
  rw /run_Updates. change (mr_ID j) with (mr_ID (set_run_col j (RUpdatedAt now))).
  generalize (set_run_col j (RUpdatedAt now)) as b.
  induction cols as [|c cols IH]; intros b; simpl; [done|]. by rw IH.
Qed.

Lemma Update_put now cols j db :
  NoDup (map mr_ID (db_runs db)) -> j ∈ db_runs db ->
  db_runs (Repository.Update now (mr_ID j) cols db) = put (run_Updates now cols j) (db_runs db).
Proof.
  intros Hnd Hj. apply update_by_put; [done|done|apply String.eqb_refl| |apply run_Updates_id].
  intros r Hr. by unbool.
Qed.

Lemma UpdatePhase_put now cols j db :
  NoDup (map mr_ID (db_runs db)) -> j ∈ db_runs db -> mr_DeletedAt j = None ->
  db_runs (Repository.UpdatePhase now (mr_ID j) (mr_Phase j) cols db).1 =
    put (run_Updates now cols j) (db_runs db) /\
  (Repository.UpdatePhase now (mr_ID j) (mr_Phase j) cols db).2 = true.
Proof.
  intros Hnd Hj Hd. assert (Hcas : Repository.cas (mr_ID j) (mr_Phase j) j = true).
  { by rw /Repository.cas String.eqb_refl bool_decide_true // Hd. }
  assert (Hid : forall r : MLRun Q, Repository.cas (mr_ID j) (mr_Phase j) r = true -> mr_ID r = mr_ID j).
  { intros r Hr. rw /Repository.cas in Hr. by unbool. }
  split.
  - apply update_by_put; [done|done|done|done|apply run_Updates_id].
  - simpl. rw (rows_affected_one _ _ j) //; [by apply (NoDup_map_inv mr_ID)|].
    intros x Hx Hc. eapply (unique_by mr_ID); [done..|by apply Hid].
Qed.

(** ** Handlers on the current row *)

(** What a handler that acts on the current row [j] does to the table. *)
Definition acts_on j db db' : Prop :=
  exists j', db_runs db' = put j' (db_runs db) /\ lifecycle j j'.

Lemma acts_on_nothing j db : NoDup (map mr_ID (db_runs db)) -> j ∈ db_runs db -> acts_on j db db.
Proof. intros. exists j. by rw put_same. Qed.

Lemma acts_on_update now cols j db :
  NoDup (map mr_ID (db_runs db)) -> j ∈ db_runs db -> lifecycle j (run_Updates now cols j) ->
  acts_on j db (Repository.Update now (mr_ID j) cols db).
Proof. intros. exists (run_Updates now cols j). by rw Update_put. Qed.

Lemma acts_on_rows j db db' :
  NoDup (map mr_ID (db_runs db)) -> j ∈ db_runs db -> acts_on j db db' ->
  Forall2 lifecycle (db_runs db) (db_runs db') /\
  map mr_ID (db_runs db') = map mr_ID (db_runs db) /\
  (forall x, x ∈ db_runs db -> mr_ID x <> mr_ID j -> x ∈ db_runs db').
Proof.
  intros Hnd Hj (j' & -> & Hlc). split_and!; [by eapply put_lifecycle|apply put_ids|].
  intros x Hx Hne. apply elem_of_put_other; [done|]. by rw (lc_id _ _ Hlc).
Qed.

(** Close a lifecycle goal about a written-out column list. *)
Ltac lc Hph :=
  split; simpl;
  [ done
  | rw ?Hph; try done; apply rtc_once; eauto with lifecycle
  | intros [? ? ?]; split; simpl; try naive_solver ].

Lemma cancel_row_acts now j db :
  NoDup (map mr_ID (db_runs db)) -> j ∈ db_runs db ->
  acts_on j db (Service.cancel_row now j db).1.
Proof.
  intros Hnd Hj. rw /Service.cancel_row.
  destruct (mr_Phase j) eqn:Hph; try (by apply acts_on_nothing); apply acts_on_update; try done; lc Hph.
Qed.

Lemma delete_row_acts now j db :
  NoDup (map mr_ID (db_runs db)) -> j ∈ db_runs db ->
  acts_on j db (Service.delete_row now j db).
Proof.
  intros Hnd Hj. rw /Service.delete_row /Repository.MarkDeleting.
  destruct (mr_Phase j) eqn:Hph; try (by apply acts_on_nothing); apply acts_on_update; try done; lc Hph.
  all: apply edge_delete; set_solver.
Qed.

Lemma reflectGone_acts now j db :
  NoDup (map mr_ID (db_runs db)) -> j ∈ db_runs db ->
  acts_on j db (Reflow.reflectGone now j db).
Proof.
  intros Hnd Hj. rw /Reflow.reflectGone.
  destruct (mr_Phase j) eqn:Hph; try (by apply acts_on_nothing); apply acts_on_update; try done; lc Hph.
Qed.

(** Columns a patch writes leave phase, status and times alone. *)
Lemma patch_columns_display input j cols :
  Service.patch_columns input j = inl cols ->
  forall now (r : MLRun Q), mr_Phase (run_Updates now cols r) = mr_Phase r /\
    mr_StatusJSON (run_Updates now cols r) = mr_StatusJSON r /\
    mr_ScheduledAt (run_Updates now cols r) = mr_ScheduledAt r /\
    mr_DeletedAt (run_Updates now cols r) = mr_DeletedAt r.
Proof.
  rw /Service.patch_columns. destruct (rpa_DisplayName input), (rpa_Description input),
    (rpa_Labels input), (rpa_Annotations input); repeat case_match; intros [= <-]; done.
Qed.

Lemma lifecycle_same j j' :
  mr_ID j' = mr_ID j -> mr_Phase j' = mr_Phase j -> mr_StatusJSON j' = mr_StatusJSON j ->
  mr_ScheduledAt j' = mr_ScheduledAt j -> mr_DeletedAt j' = mr_DeletedAt j -> lifecycle j j'.
Proof.
  intros I P S T D. split; [done|by rw P|]. intros [H1 H2 H3].
  split; rw ?/status_of P ?S ?T ?D; auto.
Qed.

Lemma patch_row_acts now input j db :
  NoDup (map mr_ID (db_runs db)) -> j ∈ db_runs db ->
  acts_on j db (Service.patch_row now input j db).1.
Proof.
  intros Hnd Hj. rw /Service.patch_row.
  destruct (Service.patch_columns input j) as [[|c cols]|] eqn:Hc; try (by apply acts_on_nothing).
  assert (H : acts_on j db (Repository.Update now (mr_ID j) (c :: cols) db)).
  { apply acts_on_update; try done. destruct (patch_columns_display _ _ _ Hc now j) as (? & ? & ? & ?).
    apply lifecycle_same; try done. apply run_Updates_id. }
  by destruct (Repository.Get _ _).
Qed.

Lemma map_run_edge_run a b : map_run_edge a b -> rtc run_edge a b.
Proof.
  intros [->|[[-> [-> | ->]]|[[-> ->]|[->|[->|[-> ->]]]]]]; [done|apply rtc_once; eauto with lifecycle..].
Qed.

(** [c] is the row in the table; [j] the copy the mapping reads. *)
Lemma reflectObserved_acts now j c observed db :
  NoDup (map mr_ID (db_runs db)) -> c ∈ db_runs db ->
  mr_ID j = mr_ID c -> mr_Phase j = mr_Phase c -> mr_StatusJSON j = mr_StatusJSON c ->
  acts_on c db (Reflow.reflectObserved now j observed db).
Proof.
  intros Hnd Hc Hid Hph Hst. rw /Reflow.reflectObserved.
  set (prev := json_or MLRunStatus_zero (mr_StatusJSON j)).
  set (cur := {| rs_Message := _ |}).
  pose proof (MapRun_edge (mr_Phase j) cur observed now) as Hedge.
  destruct (MapRun (mr_Phase j) cur observed now) as [newPhase mapped] eqn:Hmap. simpl in Hedge.
  destruct (_ && _) eqn:Hsame; [by apply acts_on_nothing|]. rw Hid. apply acts_on_update; try done.
  split; simpl; [done|rw -Hph; by apply map_run_edge_run|]. intros [H1 H2 H3]. split; simpl.
  - intros ->. apply H1. rw -Hph. clear -Hedge. rw /map_run_edge in Hedge. naive_solver.
  - intros Hd. apply H2. rw -Hph. clear -Hedge Hd. rw /map_run_edge in Hedge. naive_solver.
  - intros Hf. rw /status_of /=. destruct (decide (newPhase = mr_Phase j)) as [->|Hne].
    + rw /MapRun in Hmap. rw -Hph /status_of -Hst -/prev in H3. specialize (H3 Hf).
      change (rst_FinishedAt prev) with (rs_FinishedAt cur) in H3.
      apply (f_equal snd) in Hmap. cbn [snd] in Hmap. subst mapped.
      destruct (rcs_Phase observed); case_match; simpl; done.
    + apply (MapRun_finished _ _ _ _ _ _ Hmap) in Hne as [t ->]; [done|].
      destruct Hf as [->|[->| ->]]; done.
Qed.
End Lifecycle.

(** ** The reconciler and the poller *)

Section Loops.
Context {Q : Type} `{!ComputeRuntime Q} (shortHash : bytes -> bytes) (tenantPrefix : bool).
Implicit Types (w : world Q) (j : MLRun Q) (rows : list (MLRun Q)) (db : DB Q).

Ltac lc Hph :=
  split; simpl;
  [ done
  | rw ?Hph; try done; apply rtc_once; eauto with lifecycle
  | intros [? ? ?]; split; simpl; try naive_solver ].

Lemma acts_on_trans j j1 db db1 db' :
  db_runs db1 = put j1 (db_runs db) -> lifecycle j j1 -> acts_on j1 db1 db' -> acts_on j db db'.
Proof.
  intros E Hlc (j' & E' & Hlc'). exists j'. split; [|by etrans].
  rw E' E put_put //. by rw (lc_id _ _ Hlc').
Qed.

Lemma handleCreate_acts now w j :
  NoDup (map mr_ID (db_runs (w_db w))) -> j ∈ db_runs (w_db w) -> mr_Phase j = RunCreating ->
  acts_on j (w_db w) (w_db (Reconciler.handleCreate shortHash tenantPrefix now w j)).
Proof.
  intros Hnd Hj Hph. rw /Reconciler.handleCreate.
  destruct (ToCR _ _ _) as [cr|]; [|by apply acts_on_nothing].
  destruct (rt_ApplyMLRun _ _) as [err|]; [|apply acts_on_update; try done; lc Hph].
  destruct (IsTerminalApplyError err) eqn:Ht; cbn [app].
  { apply acts_on_update; try done. lc Hph. }
  assert (Hstay : forall s, lifecycle j (run_Updates now [RStatus s] j)).
  { intros s. split; simpl; [done|done|]. intros [? ? ?]. split; simpl; try done. by rw Hph; naive_solver. }
  destruct (IsResourceUnavailable err); [|by apply acts_on_update].
  destruct (rt_ListMLRunInstances _ _) as [[|n]|]; [|by apply acts_on_update..].
  set (s1 := mergeStatusFields _ _). set (db1 := Repository.Update now (mr_ID j) [RStatus s1] (w_db w)).
  assert (E1 : db_runs db1 = put (run_Updates now [RStatus s1] j) (db_runs (w_db w))) by by apply Update_put.
  eapply (acts_on_trans _ (run_Updates now [RStatus s1] j) _ db1);
    [done|by apply Hstay|].
  change (mr_ID j) with (mr_ID (run_Updates now [RStatus s1] j)). apply acts_on_update.
  - by rw E1 put_ids.
  - rw E1. by eapply elem_of_put.
  - lc Hph.
Qed.

Lemma handleDelete_acts now w j :
  NoDup (map mr_ID (db_runs (w_db w))) -> j ∈ db_runs (w_db w) -> mr_Phase j = RunDeleting ->
  acts_on j (w_db w) (w_db (Reconciler.handleDelete now w j)).
Proof.
  intros Hnd Hj Hph. rw /Reconciler.handleDelete.
  destruct (rt_DeleteMLRun _ _); [by apply acts_on_nothing|].
  destruct (rt_ObserveMLRun _ _) as [|e]; [by apply acts_on_nothing|].
  destruct (IsAPINotFound e); [|by apply acts_on_nothing]. apply acts_on_update; try done. lc Hph.
Qed.

Lemma recovery_acts now w j :
  NoDup (map mr_ID (db_runs (w_db w))) -> j ∈ db_runs (w_db w) -> mr_DeletedAt j = None ->
  mr_Phase j = RunCreating \/ mr_Phase j = RunPending ->
  acts_on j (w_db w) (w_db (Reconciler.handleDispatchRecovery now w j)).
Proof.
  intros Hnd Hj Hd Hph. rw /Reconciler.handleDispatchRecovery.
  destruct (rt_ObserveMLRun _ _) as [observed|e].
  - assert (Hnext : forall phase cols db changed jr,
      phase = mr_Phase j ->
      Repository.UpdatePhase now (mr_ID j) phase cols (w_db w) = (db, changed) ->
      lifecycle j (run_Updates now cols j) -> mr_ID jr = mr_ID j ->
      mr_Phase jr = mr_Phase (run_Updates now cols j) ->
      mr_StatusJSON jr = mr_StatusJSON (run_Updates now cols j) ->
      changed = true /\ acts_on j (w_db w) (Reflow.reflectObserved now jr observed db)).
    { intros phase cols db changed jr -> Hu Hlc Hjr Hp Hs.
      destruct (UpdatePhase_put now cols j (w_db w) Hnd Hj Hd) as [E1 E2]. rw Hu /= in E1, E2.
      split; [done|]. eapply acts_on_trans; [exact E1|exact Hlc|].
      apply reflectObserved_acts; rw ?E1 ?put_ids ?run_Updates_id //.
      by eapply elem_of_put; [|symmetry; apply run_Updates_id]. }
    case_decide as Hc.
    + destruct (Repository.UpdatePhase _ _ _ _ _) as [db changed] eqn:Hu.
      eapply Hnext in Hu as [-> Hact]; [exact Hact|done|lc Hc|done|done|done].
    + destruct Hph as [Hph|Hph]; [done|].
      destruct (Repository.UpdatePhase _ _ _ _ _) as [db changed] eqn:Hu.
      eapply Hnext in Hu as [_ Hact]; [exact Hact|done| |done|by destruct (is_null _)|by destruct (is_null _)].
      destruct (is_null _); split; simpl; try done; intros [? ? ?]; split; simpl; rw ?Hph; naive_solver.
  - destruct (IsAPINotFound e); [|by apply acts_on_nothing]. simpl.
    set (s := mergeStatusFields _ _).
    exists (run_Updates now [RPhase RunQueued; RStatus s; RScheduledAt None] j). split.
    + exact (proj1 (UpdatePhase_put now _ j (w_db w) Hnd Hj Hd)).
    + split; simpl; [done|apply rtc_once; eauto with lifecycle|].
      intros [? ? ?]. split; simpl; naive_solver.
Qed.

Lemma poll_row_acts now w j :
  NoDup (map mr_ID (db_runs (w_db w))) -> j ∈ db_runs (w_db w) ->
  acts_on j (w_db w) (w_db (Poller.poll_row now w j)).
Proof.
  intros Hnd Hj. rw /Poller.poll_row. destruct (rt_ObserveMLRun _ _) as [observed|e].
  - by apply reflectObserved_acts.
  - destruct (IsAPINotFound e); [by apply reflectGone_acts|by apply acts_on_nothing].
Qed.

(** A loop over rows that were read before it, each with its own id. *)
Lemma loop_acts (h : world Q -> MLRun Q -> world Q) (ok : MLRun Q -> Prop) l w :
  (forall w j, NoDup (map mr_ID (db_runs (w_db w))) -> j ∈ db_runs (w_db w) -> ok j ->
     acts_on j (w_db w) (w_db (h w j))) ->
  NoDup (map mr_ID (db_runs (w_db w))) -> NoDup (map mr_ID l) ->
  (forall j, j ∈ l -> j ∈ db_runs (w_db w) /\ ok j) ->
  Forall2 lifecycle (db_runs (w_db w)) (db_runs (w_db (foldl h w l))) /\
  map mr_ID (db_runs (w_db (foldl h w l))) = map mr_ID (db_runs (w_db w)) /\
  (forall x, x ∈ db_runs (w_db w) -> mr_ID x ∉ map mr_ID l -> x ∈ db_runs (w_db (foldl h w l))).
Proof.
  intros Hh. revert w. induction l as [|j l IH]; intros w Hnd Hl Hin; simpl.
  { split_and!; [by apply Forall_Forall2_diag, Forall_true|done|done]. }
  destruct (Hin j) as [Hj Hok]; [by left|].
  destruct (acts_on_rows j _ _ Hnd Hj (Hh w j Hnd Hj Hok)) as (HF & Hids & Hkeep).
  apply NoDup_cons in Hl as [Hjl Hl].
  destruct (IH (h w j)) as (HF' & Hids' & Hkeep'); [by rw Hids|done| |].
  { intros x Hx. destruct (Hin x) as [Hx1 Hx2]; [by right|]. split; [|done]. apply Hkeep; [done|].
    intros E. apply Hjl. rw -E. by apply list_elem_of_fmap_2. }
  split_and!.
  - by etrans.
  - by rw Hids'.
  - intros x Hx [Hne Hxl]%not_elem_of_cons. by apply Hkeep'; [apply Hkeep|].
Qed.

Lemma elem_of_batch p db j : j ∈ Repository.batch p db -> j ∈ db_runs db /\ p j = true.
Proof.
  rw /Repository.batch => H. apply list_elem_of_lookup in H as (i & H).
  apply lookup_take_Some in H as [H _]. apply list_elem_of_lookup_2 in H.
  rw elem_of_sort_slice list_elem_of_In filter_In -list_elem_of_In in H. done.
Qed.

Lemma batch_NoDup p db :
  NoDup (map mr_ID (db_runs db)) -> NoDup (map mr_ID (Repository.batch p db)).
Proof.
  intros H. apply (NoDup_sorted_filter mr_ID Repository.oldest_update p) in H.
  rw /Repository.batch. eapply sublist_NoDup; [exact H|].
  rw -firstn_map. apply sublist_take.
Qed.

Lemma phase_in_spec phases j : Repository.phase_in phases j = true <-> mr_Phase j ∈ phases.
Proof. apply bool_decide_eq_true. Qed.

Lemma runOnce_lifecycle now w :
  NoDup (map mr_ID (db_runs (w_db w))) ->
  Forall2 lifecycle (db_runs (w_db w))
    (db_runs (w_db (Reconciler.runOnce shortHash tenantPrefix now w))).
Proof.
  intros Hnd. rw /Reconciler.runOnce. set (recovery := Repository.FindDispatchRecoverySet _ _).
  destruct (loop_acts (Reconciler.handleDispatchRecovery now)
    (fun j => mr_DeletedAt j = None /\ (mr_Phase j = RunCreating \/ mr_Phase j = RunPending))
    recovery w) as (HF1 & Hid1 & _); [|done|by apply batch_NoDup| |].
  { intros w' j ? ? [? ?]. by apply recovery_acts. }
  { intros j [Hj Hp]%elem_of_batch. unbool. split; [done|]. split; [by destruct (mr_DeletedAt j)|].
    apply phase_in_spec in H. set_solver. }
  set (w1 := foldl _ w recovery) in HF1, Hid1 |- *.
  assert (Hnd1 : NoDup (map mr_ID (db_runs (w_db w1)))) by by rw Hid1.
  set (ws := Repository.FindWorkSet (w_db w1)).
  destruct (loop_acts (Reconciler.handleCreate shortHash tenantPrefix now)
    (fun j => mr_Phase j = RunCreating) (Repository.ws_Creating ws) w1)
    as (HF2 & Hid2 & Hkeep2); [intros; by apply handleCreate_acts|done|by apply batch_NoDup| |].
  { intros j [Hj Hp]%elem_of_batch. unbool. apply phase_in_spec in H. split; [done|set_solver]. }
  set (w2 := foldl _ w1 _) in HF2, Hid2, Hkeep2 |- *.
  assert (Hcancel : forall l w, db_runs (w_db (foldl (Reconciler.handleCancel now) w l)) = db_runs (w_db w)).
  { induction l as [|x l IHl]; intros w'; simpl; [done|]. by rw IHl. }
  set (w3 := foldl (Reconciler.handleCancel now) w2 _).
  destruct (loop_acts (Reconciler.handleDelete now)
    (fun j => mr_Phase j = RunDeleting) (Repository.ws_Deleting ws) w3)
    as (HF3 & _ & _); [intros; by apply handleDelete_acts|by rw Hcancel Hid2|by apply batch_NoDup| |].
  { intros j [Hj Hp]%elem_of_batch. apply phase_in_spec in Hp.
    assert (Hd : mr_Phase j = RunDeleting) by set_solver. split; [|done]. rw Hcancel. apply Hkeep2; [done|].
    intros (y & E & Hy)%list_elem_of_fmap. apply elem_of_batch in Hy as [Hy Hyp]. unbool.
    apply phase_in_spec, list_elem_of_singleton in H.
    rw (unique_by mr_ID _ _ _ Hnd1 Hj Hy E) in Hd. congruence. }
  rw Hcancel in HF3. by do 2 (etrans; [eassumption|]).
Qed.

Lemma poller_lifecycle now w :
  NoDup (map mr_ID (db_runs (w_db w))) ->
  Forall2 lifecycle (db_runs (w_db w)) (db_runs (w_db (Poller.runOnce now w))).
Proof.
  intros Hnd. rw /Poller.runOnce.
  destruct (loop_acts (Poller.poll_row now) (fun _ => True) (Repository.FindObservable (w_db w)) w)
    as (HF & _ & _); [intros; by apply poll_row_acts|done|by apply batch_NoDup| |done].
  by intros j [? _]%elem_of_batch.
Qed.
End Loops.
