(* ===== verification/MlrunProperties.v ===== *)
(** * Properties of MLRun

    The lifecycle over whole operations, the API contracts of the service,
    what reaches the runtime, and three behaviours of stale or late
    observations. *)

From Stdlib Require Import ssreflect ZArith Lia Ascii String.
From stdpp Require Import base gmap list strings.
From S2P Require Import Prelude Placement ApiTypes Store StatusMap Names Runtime ServiceAdmission Admission AdmissionUsage AdmissionSafety AdmissionRuns Mlrun MlrunFacts MlrunLifecycle Samples.

Section Operations.
Context {Q : Type} `{!Quantity Q} `{!ResourceResolver Q} `{!ComputeRuntime Q}
  (shortHash : bytes -> bytes) (tenantPrefix : bool).
Implicit Types (w : world Q) (j : MLRun Q) (rows : list (MLRun Q)) (db : DB Q).

(** Whole operations, each acting on the current tables. *)
Inductive run_op : world Q -> world Q -> Prop :=
| op_Create now id owner namespace input w :
    run_op w (with_db w (Service.Create now id owner namespace input (w_db w)).1)
| op_Cancel now namespace name w : run_op w (with_db w (Service.Cancel now namespace name (w_db w)).1)
| op_Patch now namespace name input w :
    run_op w (with_db w (Service.Patch now namespace name input (w_db w)).1)
| op_Delete now namespace name w : run_op w (with_db w (Service.Delete now namespace name (w_db w)).1)
| op_reconcile now w : run_op w (Reconciler.runOnce shortHash tenantPrefix now w)
| op_poll now w : run_op w (Poller.runOnce now w)
| op_onChange now labels status w : run_op w (with_db w (Informer.onChange now labels status (w_db w)))
| op_onDelete now labels w : run_op w (with_db w (Informer.onDelete now labels (w_db w)))
| op_admission now inventory quotas pools w :
    run_op w (with_db w (runOnce now inventory quotas pools (w_db w) (w_db w))).

Lemma lifecycle_diag rows : Forall2 lifecycle rows rows.
Proof. by apply Forall_Forall2_diag, Forall_true. Qed.

Lemma setQueueReason_lifecycle now (run : MLRun Q) reason message db :
  Forall2 lifecycle (db_runs db) (db_runs (setQueueReason now run reason message db)).
Proof.
  rw /setQueueReason. case_decide; [apply lifecycle_diag|]. apply update_where_Forall2; [apply _|].
  intros r _ Hr. rw /run_in in Hr. unbool. apply list_elem_of_singleton in H1 as Hq.
  split; simpl; [done|done|]. intros [H2 H3 H4]. split; simpl; rw Hq; naive_solver.
Qed.

Lemma admitRun_lifecycle now quotas (st : round Q) run st' :
  admitRun now quotas st run = inl st' ->
  Forall2 lifecycle (db_runs (rd_db st)) (db_runs (rd_db st')).
Proof.
  rw /admitRun. destruct (runWorkload run) as [wl|]; [|done].
  destruct (quotas !! _) as [[max|]|]; [|intros [= <-]; apply setQueueReason_lifecycle..].
  destruct (exceeds _ _); [intros [= <-]; apply setQueueReason_lifecycle|].
  destruct (exceeds _ _); [intros [= <-]; apply setQueueReason_lifecycle|].
  destruct (place_roles _ _ _) as [trial [[|] reason]]; [|intros [= <-]; apply setQueueReason_lifecycle].
  assert (HF : forall s, Forall2 lifecycle (db_runs (rd_db st)) (update_where (still_queued run)
    (run_Updates now [RPhase RunCreating; RStatus s]) (db_runs (rd_db st)))).
  { intros s. apply update_where_Forall2; [apply _|]. intros r _ Hr.
    rw /still_queued /is_queued /run_in in Hr. unbool.
    assert (Hq : mr_Phase r = RunQueued) by set_solver.
    split; simpl; [done|rw Hq; apply rtc_once; eauto with lifecycle|].
    intros [? ? ?]. split; simpl; naive_solver. }
  case_match; intros [= <-]; apply HF.
Qed.

Lemma admission_lifecycle now inventory quotas pools db0 db :
  Forall2 lifecycle (db_runs db) (db_runs (runOnce now inventory quotas pools db0 db)).
Proof.
  rw /runOnce. destruct (pendingServices db0) as [services|]; [|apply lifecycle_diag].
  destruct (_ && _); [apply lifecycle_diag|]. destruct inventory as [snapshot|e].
  - destruct (admitLocked _ _ _ _ _) as [st|] eqn:Hadm; [|apply lifecycle_diag].
    move: Hadm. rw /admitLocked /start_round.
    destruct (loadActive _ _) as [[[active usage] actual]|]; [|done].
    destruct (admitServicesLocked _ _ _) as [st1|] eqn:Hs; [|done]. intros Hr.
    apply admitServicesLocked_runs in Hs. simpl in Hs. rw -Hs.
    apply (fold_err_invariant (fun s => Forall2 lifecycle (db_runs (rd_db st1)) (db_runs (rd_db s)))
      _ _ _ _ (lifecycle_diag _)
      (fun s a s1 _ H Hf => transitivity H (admitRun_lifecycle _ _ _ _ _ Hf)) Hr).
  - rw setAllServiceAdmissionReason_runs /setAllQueueReason.
    set (rs := queuedRuns db0). clearbody rs. revert db.
    induction rs as [|run rs IH]; intros db; simpl; [apply lifecycle_diag|].
    etrans; [apply setQueueReason_lifecycle|apply IH].
Qed.

Lemma GetByNamespaceName_elem namespace name db j :
  Repository.GetByNamespaceName namespace name db = inl j ->
  j ∈ db_runs db /\ mr_Namespace j = namespace /\ mr_Name j = name /\ mr_DeletedAt j = None.
Proof.
  rw /Repository.GetByNamespaceName. destruct (List.find _ _) as [r|] eqn:Hf; [|done]. intros [= <-].
  apply find_elem in Hf as [Hin Hp]. rw /Repository.live_named in Hp. unbool.
  split_and!; try done. by destruct (mr_DeletedAt r).
Qed.

Lemma Get_elem id db j : Repository.Get id db = inl j -> j ∈ db_runs db /\ mr_ID j = id.
Proof.
  rw /Repository.Get. destruct (List.find _ _) as [r|] eqn:Hf; [|done]. intros [= <-].
  apply find_elem in Hf as [Hin Hp]. by unbool.
Qed.

(** A new run: queued and well-formed. *)
Definition fresh_run j : Prop := mr_Phase j = RunQueued /\ run_wf j.

Definition run_history rows rows' : Prop :=
  exists kept new, rows' = kept ++ new /\ Forall2 lifecycle rows kept /\
    Forall (fun j => exists j0, fresh_run j0 /\ lifecycle j0 j) new.

Lemma history_lifecycle rows rows' : Forall2 lifecycle rows rows' -> run_history rows rows'.
Proof. intros H. exists rows', []. rw app_nil_r. split_and!; [done|done|constructor]. Qed.

#[local] Instance run_history_trans : Transitive run_history.
Proof.
  intros a b c (k1 & n1 & -> & H1 & N1) (k2 & n2 & -> & H2 & N2).
  apply Forall2_app_inv_l in H2 as (x & y & Hx & Hy & ->).
  exists x, (y ++ n2). split_and!; [by rw app_assoc|by etrans|].
  apply Forall_app. split; [|done]. apply Forall_forall => j Hj.
  apply list_elem_of_lookup in Hj as (i & Hi).
  destruct (Forall2_lookup_r _ _ _ _ _ Hy Hi) as (j1 & Hj1 & Hlc).
  rw Forall_forall in N1. destruct (N1 j1) as (j0 & Hf & Hlc0); [by eapply list_elem_of_lookup_2|].
  exists j0. split; [done|]. by etrans.
Qed.

Lemma Create_history now id owner namespace input db :
  run_history (db_runs db) (db_runs (Service.Create now id owner namespace input db).1).
Proof.
  rw /Service.Create. pose proof (history_lifecycle _ _ (lifecycle_diag (db_runs db))) as Hsame.
  destruct (negb _); [done|]. destruct (Repository.GetByNamespaceName _ _ db) as [|e]; [done|].
  destruct (negb (IsNotFound e)); [done|]. destruct (PriorityFromAnnotations _) as [priority|]; [|done].
  destruct (ResolveResourcePool _) as [pool|]; [|done].
  destruct (ResolveResourceUnit _ _) as [unit|]; [|done]. destruct (rp_Suspend _); [done|].
  set (j := Service.new_row _ _ _ _ _ _ _). rw /Repository.Create.
  destruct (existsb _ _); [done|]. destruct (_ && _); [done|]. simpl.
  exists (db_runs db), [j]. split_and!; [done|apply lifecycle_diag|]. constructor; [|constructor].
  exists j. split; [|done]. split; [done|]. split; simpl; naive_solver.
Qed.

Lemma run_op_history w w' :
  NoDup (map mr_ID (db_runs (w_db w))) -> run_op w w' ->
  run_history (db_runs (w_db w)) (db_runs (w_db w')).
Proof.
  intros Hnd Hop. pose proof (history_lifecycle _ _ (lifecycle_diag (db_runs (w_db w)))) as Hsame.
  assert (Hact : forall j db', j ∈ db_runs (w_db w) -> acts_on j (w_db w) db' ->
    run_history (db_runs (w_db w)) (db_runs db')).
  { intros j db' Hj Ha. apply history_lifecycle. by destruct (acts_on_rows j _ _ Hnd Hj Ha). }
  destruct Hop as [|now namespace name w|now namespace name input w|now namespace name w|now w|now w|
    now labels status w|now labels w|]; cbn [w_db with_db] in *.
  - apply Create_history.
  - rw /Service.Cancel. destruct (Repository.GetByNamespaceName _ _ _) as [j|e] eqn:Hg; [|done].
    apply GetByNamespaceName_elem in Hg as (Hj & _). by apply (Hact j), cancel_row_acts.
  - rw /Service.Patch. destruct (Repository.GetByNamespaceName _ _ _) as [j|e] eqn:Hg; [|done].
    apply GetByNamespaceName_elem in Hg as (Hj & _). by apply (Hact j), patch_row_acts.
  - rw /Service.Delete. destruct (Repository.GetByNamespaceName _ _ _) as [j|e] eqn:Hg; [|done].
    apply GetByNamespaceName_elem in Hg as (Hj & _). by apply (Hact j), delete_row_acts.
  - by apply history_lifecycle, runOnce_lifecycle.
  - by apply history_lifecycle, poller_lifecycle.
  - rw /Informer.onChange. destruct (labels !! _) as [id|]; [|done].
    destruct (Repository.Get _ _) as [j|] eqn:Hg; [|done]. apply Get_elem in Hg as [Hj _].
    by apply (Hact j), reflectObserved_acts.
  - rw /Informer.onDelete. destruct (labels !! _) as [id|]; [|done].
    destruct (Repository.Get _ _) as [j|] eqn:Hg; [|done]. apply Get_elem in Hg as [Hj _].
    by apply (Hact j), reflectGone_acts.
  - apply history_lifecycle, admission_lifecycle.
Qed.

Lemma run_op_ids w w' :
  run_op w w' -> NoDup (map mr_ID (db_runs (w_db w))) -> NoDup (map mr_ID (db_runs (w_db w'))).
Proof.
  intros Hop Hnd. assert (Hcreate : forall now id owner ns input,
    NoDup (map mr_ID (db_runs (Service.Create now id owner ns input (w_db w)).1))).
  { intros. destruct (Create_inv now id owner ns input (w_db w)) as [->|(j & -> & <- & Hid & _)]; [done|].
    rw map_app. apply NoDup_app. split_and!; [done| |apply NoDup_singleton].
    by intros x Hx ->%list_elem_of_singleton. }
  pose proof (run_op_history _ _ Hnd Hop) as (kept & new & E & HF & _).
  assert (Hkept : map mr_ID kept = map mr_ID (db_runs (w_db w))).
  { clear -HF. induction HF as [|a b l l' Hlc _ IH]; simpl; [done|]. by rw (lc_id _ _ Hlc) IH. }
  assert (Hlen : length (db_runs (w_db w')) = length (db_runs (w_db w)) ->
    NoDup (map mr_ID (db_runs (w_db w')))).
  { intros Hl. rw E length_app in Hl. apply Forall2_length in HF. destruct new as [|? ?]; [|simpl in Hl; lia].
    by rw E app_nil_r Hkept. }
  destruct Hop; cbn [w_db with_db] in *; [apply Hcreate|apply Hlen..].
  - rw /Service.Cancel. destruct (Repository.GetByNamespaceName _ _ _); [|done].
    symmetry. eapply Forall2_length, rw_rows, cancel_writes.
  - rw /Service.Patch. destruct (Repository.GetByNamespaceName _ _ _); [|done].
    symmetry. eapply Forall2_length, rw_rows, patch_writes.
  - rw /Service.Delete. destruct (Repository.GetByNamespaceName _ _ _); [|done].
    symmetry. eapply Forall2_length, rw_rows, delete_writes.
  - symmetry. by eapply Forall2_length, runOnce_lifecycle.
  - symmetry. by eapply Forall2_length, poller_lifecycle.
  - symmetry. eapply Forall2_length, rw_rows, onChange_writes.
  - symmetry. eapply Forall2_length, rw_rows, onDelete_writes.
  - symmetry. by eapply Forall2_length, admission_lifecycle.
Qed.

End Operations.

(** ** API contracts *)

Section Contracts.
Context {Q : Type} `{!ResourceResolver Q} `{!ComputeRuntime Q}
  (shortHash : bytes -> bytes) (tenantPrefix : bool).
Implicit Types (w : world Q) (j : MLRun Q) (db : DB Q).

(** Creating a run: an error leaves the tables as they were; a success
    adds one queued row, and reading the run back returns exactly what Create
    returned: the requested name and annotations, the priority they carry, and
    labels that name the resource pool and unit whatever the user supplied. *)
Theorem Create_Get now id owner namespace (input : MLRunCreateRequest Q) db db' result :
  Service.Create now id owner namespace input db = (db', result) ->
  match result with
  | inr _ => db' = db
  | inl v =>
      Service.Get namespace (rc_Name input) db' = inl v /\
      rv_Phase v = RunQueued /\ rv_Name v = rc_Name input /\ rv_Annotations v = rc_Annotations input /\
      (exists j, j ∈ db_runs db' /\ mr_ID j = id /\
         PriorityFromAnnotations (rc_Annotations input) = inl (mr_Priority j)) /\
      (rc_PoolName input <> "" -> rv_Labels v !! LabelResourcePool = Some (rc_PoolName input)) /\
      (rc_UnitName input <> "" -> rv_Labels v !! LabelResourceUnit = Some (rc_UnitName input))
  end.
Proof.
  rw /Service.Create. destruct (negb _); [by intros [= <- <-]|].
  destruct (Repository.GetByNamespaceName _ _ db) as [|e] eqn:Hg; [by intros [= <- <-]|].
  destruct (negb (IsNotFound e)); [by intros [= <- <-]|].
  destruct (PriorityFromAnnotations _) as [priority|] eqn:Hprio; [|by intros [= <- <-]].
  destruct (ResolveResourcePool _) as [pool|]; [|by intros [= <- <-]].
  destruct (ResolveResourceUnit _ _) as [unit|]; [|by intros [= <- <-]].
  destruct (rp_Suspend _); [by intros [= <- <-]|].
  set (j := Service.new_row _ _ _ _ _ _ _). rw /Repository.Create.
  destruct (existsb _ (db_runs db)); [by intros [= <- <-]|].
  destruct (_ && _) eqn:Hlive; [by intros [= <- <-]|]. intros [= <- <-]. split_and!.
  - rw /Service.Get /Repository.GetByNamespaceName /= find_snoc //.
    by rw /Repository.live_named /= !String.eqb_refl.
  - done.
  - done.
  - done.
  - exists j. split_and!; [apply elem_of_app; right; by left|done|done].
  - intros Hp. simpl. rw lookup_mergeLabels /Service.system_labels lookup_insert_ne //
      lookup_singleton_eq. apply String.eqb_neq in Hp. by rw Hp.
  - intros Hu. simpl. rw lookup_mergeLabels /Service.system_labels lookup_insert_eq.
    apply String.eqb_neq in Hu. by rw Hu.
Qed.

(** Patching a run changes display metadata only: phase, spec, status,
    identity and priority annotation stay, and so do the pool and unit labels
    that admission and the pre-delete check of pools read. *)
Theorem Patch_keeps now namespace name input j db db' v :
  NoDup (map mr_ID (db_runs db)) ->
  Repository.GetByNamespaceName namespace name db = inl j ->
  Service.Patch now namespace name input db = (db', inl v) ->
  rv_ID v = mr_ID j /\ rv_Phase v = mr_Phase j /\ rv_Spec v = json_or MLRunSpec_zero (mr_Spec j) /\
  rv_Status v = json_or MLRunStatus_zero (mr_StatusJSON j) /\
  rv_Annotations v !! AnnotationPriority = decodeMap (mr_Annotations j) !! AnnotationPriority /\
  (map_get "" (decodeMap (mr_Labels j)) LabelResourcePool <> "" ->
     map_get "" (rv_Labels v) LabelResourcePool = map_get "" (decodeMap (mr_Labels j)) LabelResourcePool) /\
  (map_get "" (decodeMap (mr_Labels j)) LabelResourceUnit <> "" ->
     map_get "" (rv_Labels v) LabelResourceUnit = map_get "" (decodeMap (mr_Labels j)) LabelResourceUnit).
Proof.
  intros Hnd Hg. pose proof (GetByNamespaceName_elem _ _ _ _ Hg) as (Hj & _).
  rw /Service.Patch Hg /Service.patch_row.
  assert (Hcols : forall cols, Service.patch_columns input j = inl cols ->
    let j' := run_Updates now cols j in
    mr_ID j' = mr_ID j /\ mr_Phase j' = mr_Phase j /\ mr_Spec j' = mr_Spec j /\
    mr_StatusJSON j' = mr_StatusJSON j /\
    decodeMap (mr_Annotations j') !! AnnotationPriority = decodeMap (mr_Annotations j) !! AnnotationPriority /\
    (forall k, k = LabelResourcePool \/ k = LabelResourceUnit ->
       map_get "" (decodeMap (mr_Labels j)) k <> "" ->
       map_get "" (decodeMap (mr_Labels j')) k = map_get "" (decodeMap (mr_Labels j)) k)).
  { assert (Hlab : forall user k, k = LabelResourcePool \/ k = LabelResourceUnit ->
      map_get "" (decodeMap (mr_Labels j)) k <> "" ->
      map_get "" (mergeLabels user (Service.system_labels
        (map_get "" (decodeMap (mr_Labels j)) LabelResourcePool)
        (map_get "" (decodeMap (mr_Labels j)) LabelResourceUnit))) k =
      map_get "" (decodeMap (mr_Labels j)) k).
    { intros user k Hk Hne. rw {1}/map_get lookup_mergeLabels /Service.system_labels.
      apply String.eqb_neq in Hne. destruct Hk as [-> | ->].
      - by rw lookup_insert_ne // lookup_singleton_eq Hne.
      - by rw lookup_insert_eq Hne. }
    intros cols. rw /Service.patch_columns.
    destruct (rpa_Annotations input) as [annotations|].
    - destruct (PriorityFromAnnotations annotations); [|done]. case_decide as Hp; [|done].
      intros [= <-]. destruct (rpa_DisplayName input), (rpa_Description input),
        (rpa_Labels input); simpl; split_and!; try done; try (intros; by apply Hlab).
    - intros [= <-]. destruct (rpa_DisplayName input), (rpa_Description input),
        (rpa_Labels input); simpl; split_and!; try done; try (intros; by apply Hlab). }
  destruct (Service.patch_columns input j) as [[|c cols]|] eqn:Hc; [|..|done].
  - intros [= <- <-]. destruct (Hcols [] eq_refl) as (? & ? & ? & ? & ? & ?). done.
  - destruct (Repository.Get _ _) as [fresh|] eqn:Hget; [|done]. intros [= <- <-].
    apply Get_elem in Hget as [Hin Hid]. rw Update_put // in Hin.
    assert (fresh = run_Updates now (c :: cols) j) as ->.
    { eapply (unique_by mr_ID (put (run_Updates now (c :: cols) j) (db_runs db)));
        [by rw put_ids|done| |by rw run_Updates_id].
      eapply elem_of_put; [done|by rw run_Updates_id]. }
    destruct (Hcols _ eq_refl) as (? & ? & E1 & E2 & ? & Hl). simpl. rw E1 E2.
    split_and!; auto.
Qed.

(** ** What reaches the runtime *)

(** Calls other than Apply, or the Apply of this very row. *)
Definition renders_row j (c : call Q) : Prop :=
  forall cr, c = CApplyMLRun cr -> ToCR shortHash j tenantPrefix = inl cr.

Definition no_apply j (c : call Q) : Prop := forall cr, c <> CApplyMLRun cr.

Lemma recovery_calls now w j :
  exists added, w_calls (Reconciler.handleDispatchRecovery now w j) = w_calls w ++ added /\
    forall c, c ∈ added -> no_apply j c.
Proof.
  exists [CObserveMLRun (Reconciler.key_of j)]. split; [|by intros c ->%list_elem_of_singleton].
  rw /Reconciler.handleDispatchRecovery. destruct (rt_ObserveMLRun _ _).
  - case_decide; [|done]. destruct (Repository.UpdatePhase _ _ _ _ _) as [? []]; done.
  - by destruct (IsAPINotFound _).
Qed.

Lemma handleCreate_calls now w j :
  exists added, w_calls (Reconciler.handleCreate shortHash tenantPrefix now w j) = w_calls w ++ added /\
    forall c, c ∈ added -> renders_row j c.
Proof.
  rw /Reconciler.handleCreate. destruct (ToCR _ _ _) as [cr|] eqn:Hcr.
  - assert (H1 : forall c, c ∈ [CApplyMLRun cr] -> renders_row j c).
    { intros c ->%list_elem_of_singleton cr' [= <-]. done. }
    destruct (rt_ApplyMLRun _ _) as [err|]; [|by exists [CApplyMLRun cr]].
    destruct (IsTerminalApplyError err); [by exists [CApplyMLRun cr]|].
    destruct (IsResourceUnavailable err); [|by exists [CApplyMLRun cr]].
    exists [CApplyMLRun cr; CListMLRunInstances (Reconciler.key_of j)]. split.
    + destruct (rt_ListMLRunInstances _ _) as [[|n]|]; simpl; by rw -app_assoc.
    + intros c [->|Hc]%elem_of_cons; [apply H1; by left|].
      by apply list_elem_of_singleton in Hc as ->.
  - exists []. rw app_nil_r. split; [done|by intros ? ?%elem_of_nil].
Qed.

Lemma handleDelete_calls now w j :
  exists added, w_calls (Reconciler.handleDelete now w j) = w_calls w ++ added /\
    forall c, c ∈ added -> no_apply j c.
Proof.
  rw /Reconciler.handleDelete. destruct (rt_DeleteMLRun _ _).
  - exists [CDeleteMLRun (Reconciler.key_of j)]. split; [done|by intros c ->%list_elem_of_singleton].
  - exists [CDeleteMLRun (Reconciler.key_of j); CObserveMLRun (Reconciler.key_of j)]. split.
    + destruct (rt_ObserveMLRun _ _) as [|e]; simpl; [by rw -app_assoc|].
      destruct (IsAPINotFound e); simpl; by rw -app_assoc.
    + intros c [->|Hc]%elem_of_cons; [done|]. by apply list_elem_of_singleton in Hc as ->.
Qed.

(** Only admitted work is submitted: every MLRun the reconciler applies in
    a tick is rendered from a row of the work set, which is in Creating and
    not deleted when the set is read. *)
Theorem only_admitted_applied now w :
  let w1 := foldl (Reconciler.handleDispatchRecovery now) w
              (Repository.FindDispatchRecoverySet (now - Reconciler.dispatchTimeout) (w_db w)) in
  exists added, w_calls (Reconciler.runOnce shortHash tenantPrefix now w) = w_calls w ++ added /\
    forall cr, CApplyMLRun cr ∈ added ->
      exists j, j ∈ db_runs (w_db w1) /\ mr_Phase j = RunCreating /\ mr_DeletedAt j = None /\
                ToCR shortHash j tenantPrefix = inl cr.
Proof.
  intros w1. destruct (loop_calls _ _ (Repository.FindDispatchRecoverySet
    (now - Reconciler.dispatchTimeout) (w_db w)) w (recovery_calls now)) as (a1 & E1 & H1).
  fold w1 in E1. rw /Reconciler.runOnce. fold w1. set (ws := Repository.FindWorkSet (w_db w1)).
  destruct (loop_calls _ _ (Repository.ws_Creating ws) w1 (handleCreate_calls now)) as (a2 & E2 & H2).
  set (w2 := foldl _ w1 _) in E2 |- *.
  destruct (loop_calls (Reconciler.handleCancel now) no_apply (Repository.ws_Canceling ws) w2)
    as (a3 & E3 & H3).
  { intros w0 j. exists [CCancelMLRun (Reconciler.key_of j)].
    split; [done|by intros c ->%list_elem_of_singleton]. }
  set (w3 := foldl _ w2 _) in E3 |- *.
  destruct (loop_calls _ _ (Repository.ws_Deleting ws) w3 (handleDelete_calls now)) as (a4 & E4 & H4).
  exists (a1 ++ a2 ++ a3 ++ a4). rw E4 E3 E2 E1 -!app_assoc. split; [done|].
  intros cr Hc. rw !elem_of_app in Hc. destruct Hc as [Hc|[Hc|[Hc|Hc]]];
    [by destruct (H1 _ Hc) as (j & _ & Hn); destruct (Hn cr)| |
     by destruct (H3 _ Hc) as (j & _ & Hn); destruct (Hn cr)|
     by destruct (H4 _ Hc) as (j & _ & Hn); destruct (Hn cr)].
  destruct (H2 _ Hc) as (j & Hj & Hr). exists j. specialize (Hr cr eq_refl).
  apply elem_of_batch in Hj as [Hj Hp]. unbool. apply phase_in_spec, list_elem_of_singleton in H.
  split_and!; try done. by destruct (mr_DeletedAt j).
Qed.
End Contracts.

(** ** Late and outdated observations *)

Section Late.
Context {Q : Type} `{!ComputeRuntime Q}.
Implicit Types (w : world Q) (j c : MLRun Q) (db : DB Q).

Lemma cas_misses id phase now cols db :
  (forall r, r ∈ db_runs db -> mr_ID r = id -> mr_Phase r <> phase \/ mr_DeletedAt r <> None) ->
  (Repository.UpdatePhase now id phase cols db).1 = db /\
  (Repository.UpdatePhase now id phase cols db).2 = false.
Proof.
  intros H. assert (Hf : forall r, r ∈ db_runs db -> Repository.cas id phase r = false).
  { intros r Hr. rw /Repository.cas. destruct (String.eqb_spec (mr_ID r) id) as [E|]; [|done].
    destruct (H r Hr E) as [Hp|Hd]; [by rw bool_decide_false|].
    destruct (mr_DeletedAt r); [by rw andb_false_r|done]. }
  split; simpl.
  - rw update_where_none //. by destruct db.
  - rw /rows_affected. enough (List.filter (Repository.cas id phase) (db_runs db) = []) as -> by done.
    induction (db_runs db) as [|r l IH]; simpl; [done|]. rw Hf; [by left|].
    apply IH; intros; [apply H; [by right|done]|apply Hf; by right].
Qed.

(** Dispatch recovery does not act on outdated rows: when the row has
    left the phase the recovery read, or was deleted, a recovery of a Creating
    row, and any recovery that found no runtime object, writes nothing. *)
Theorem recovery_compare_and_set now w j :
  (forall r, r ∈ db_runs (w_db w) -> mr_ID r = mr_ID j ->
     mr_Phase r <> mr_Phase j \/ mr_DeletedAt r <> None) ->
  mr_Phase j = RunCreating \/ (exists e, rt_ObserveMLRun (w_calls w) (Reconciler.key_of j) = inr e) ->
  w_db (Reconciler.handleDispatchRecovery now w j) = w_db w.
Proof.
  intros Hstale Hcase. rw /Reconciler.handleDispatchRecovery.
  destruct (rt_ObserveMLRun _ _) as [observed|e].
  - destruct Hcase as [Hc|[? ?]]; [|done]. rw decide_True //. cbn [w_db record_call].
    rw Hc in Hstale. destruct (cas_misses (mr_ID j) RunCreating now
      [RPhase RunPending; RScheduledAt (Some now)] (w_db w) Hstale) as [E1 E2].
    rw /= in E1, E2. by rw E2 /= E1.
  - destruct (IsAPINotFound e); [|done]. simpl. set (s := mergeStatusFields _ _).
    by destruct (cas_misses (mr_ID j) (mr_Phase j) now [RPhase RunQueued; RStatus s; RScheduledAt None]
      (w_db w) Hstale) as [E1 _].
Qed.

(** An observation that moves the phase is written, by id only. *)
Lemma reflectObserved_moves now j observed db p :
  (forall cur, (MapRun (mr_Phase j) cur observed now).1 = p) -> p <> mr_Phase j ->
  exists s, Reflow.reflectObserved now j observed db =
            Repository.Update now (mr_ID j) [RPhase p; RStatus s] db.
Proof.
  intros Hp Hne. rw /Reflow.reflectObserved. set (cur := {| rs_Message := _ |}). specialize (Hp cur).
  destruct (MapRun _ cur observed now) as [newPhase mapped]. simpl in Hp. subst newPhase.
  rw bool_decide_false // andb_false_l. eauto.
Qed.

(** The Pending branch of dispatch recovery is not guarded: when the user
    cancelled the run after the recovery read it as Pending, an observation
    of a running workload puts the run back to Running and the cancel request
    is lost. *)
Theorem recovery_loses_cancel now w j c observed :
  NoDup (map mr_ID (db_runs (w_db w))) -> c ∈ db_runs (w_db w) ->
  mr_ID j = mr_ID c -> mr_Phase j = RunPending -> mr_Phase c = RunCanceling ->
  rt_ObserveMLRun (w_calls w) (Reconciler.key_of j) = inl observed ->
  rcs_Phase observed = MLRunPhaseRunning ->
  exists c', c' ∈ db_runs (w_db (Reconciler.handleDispatchRecovery now w j)) /\
    mr_ID c' = mr_ID c /\ mr_Phase c' = RunRunning.
Proof.
  intros Hnd Hc Hid Hj Hph Hobs Hrun. rw /Reconciler.handleDispatchRecovery Hobs.
  destruct (decide (mr_Phase j = RunCreating)) as [?|_]; [congruence|].
  set (cols := [RUpdatedAt now] ++ _). change (w_db (record_call w _)) with (w_db w).
  assert (Hmiss : (Repository.UpdatePhase now (mr_ID j) RunPending cols (w_db w)).1 = w_db w).
  { apply cas_misses. intros r Hr E. left. rw Hid in E.
    by rw (unique_by mr_ID _ _ _ Hnd Hr Hc E) Hph. }
  rw (surjective_pairing (Repository.UpdatePhase now _ _ _ _)) Hmiss.
  change (w_db (with_db _ ?d)) with d.
  destruct (reflectObserved_moves now j observed (w_db w) RunRunning) as [s ->]; [|by rw Hj|].
  { intros cur. by rw Hj /MapRun Hrun. }
  exists (run_Updates now [RPhase RunRunning; RStatus s] c). rw Hid Update_put //.
  split_and!; [by eapply elem_of_put|done|done].
Qed.

(** An observation that arrives late undoes a deletion: a run in Deleting
    whose runtime object reports Succeeded goes to Succeeded while it stays
    soft-deleted, and is then found neither by name, nor by the reconciler's
    work set, nor by the poller, so its runtime object is never removed. *)
Theorem late_success_loses_delete now j observed db :
  NoDup (map mr_ID (db_runs db)) -> j ∈ db_runs db ->
  mr_Phase j = RunDeleting -> mr_DeletedAt j <> None -> rcs_Phase observed = MLRunPhaseSucceeded ->
  let db' := Reflow.reflectObserved now j observed db in
  exists j', j' ∈ db_runs db' /\ mr_ID j' = mr_ID j /\ mr_Phase j' = RunSucceeded /\
    mr_DeletedAt j' = mr_DeletedAt j /\
    j' ∉ Repository.ws_Deleting (Repository.FindWorkSet db') /\
    j' ∉ Repository.FindObservable db' /\
    (forall namespace name, Repository.GetByNamespaceName namespace name db' <> inl j').
Proof.
  intros Hnd Hj Hph Hdel Hobs.
  destruct (reflectObserved_moves now j observed db RunSucceeded) as [s ->]; [|by rw Hph|].
  { intros cur. rw Hph /MapRun Hobs. done. }
  set (j' := run_Updates now [RPhase RunSucceeded; RStatus s] j). intros db'.
  assert (E : db_runs db' = put j' (db_runs db)) by by apply Update_put.
  exists j'. split_and!; try done.
  - rw E. by eapply elem_of_put.
  - intros [_ Hp]%elem_of_batch. apply phase_in_spec in Hp. simpl in Hp. set_solver.
  - intros [_ Hp]%elem_of_batch. apply phase_in_spec in Hp. simpl in Hp. set_solver.
  - intros namespace name (_ & _ & _ & Hd)%GetByNamespaceName_elem. done.
Qed.
End Late.

(** ** Concrete cases *)
Module RunSample.
Import Sample.

#[local] Instance running : ComputeRuntime Z := runtime MLRunPhaseRunning.
Definition hash (_ : bytes) : bytes := list_ascii_of_string "00000000".

Definition w0 : world Z := at_rest (runs_db [run "r1" 0 1]).

Lemma NoDup_one (j : MLRun Z) : NoDup (map mr_ID [j]).
Proof. apply NoDup_singleton. Qed.

Lemma run_rows_safe_witness :
  let w' := with_db w0 (Service.cancel_row 9 (run "r1" 0 1) (w_db w0)).1 in
  NoDup (map mr_ID (db_runs (w_db w'))) /\ live_unique (db_runs (w_db w')) /\
  run_extends (db_runs (w_db w0)) (db_runs (w_db w')).
Proof.
  apply (run_rows_safe hash true w0).
  - apply rtc_once, step_Cancel.
  - apply NoDup_one.
  - intros i k a b Hi Hk _ _ _ _. destruct i, k; done.
Defined.


(** The phase of the run, where it was [p], after an operation. *)
Definition moved (p : run_phase) (op : MLRun Z -> DB Z -> DB Z) : list run_phase :=
  let j := run_in_phase "r1" p None in map mr_Phase (db_runs (op j (runs_db [j]))).

(** Cancel and Delete of a queued run, a run observed before its dispatch is
    recorded, Delete of a run that is being cancelled, and an end observed in
    other phases than Running. *)
Example undocumented_edges_are_taken :
  moved RunQueued (fun j db => (Service.cancel_row 9 j db).1) = [RunCancelled] /\
  moved RunQueued (Service.delete_row 9) = [RunDeleted] /\
  moved RunCreating (fun j => Reflow.reflectObserved 9 j (run_status MLRunPhaseRunning)) = [RunRunning] /\
  moved RunCanceling (Service.delete_row 9) = [RunDeleting] /\
  Forall (fun p => moved p (fun j => Reflow.reflectObserved 9 j (run_status MLRunPhaseSucceeded)) = [RunSucceeded])
    [RunQueued; RunCreating; RunPending; RunCanceling; RunCancelled; RunFailed; RunDeleting; RunDeleted] /\
  Forall (fun e => documented_edge e.1 e.2 -> False)
    [(RunQueued, RunCancelled); (RunQueued, RunDeleted); (RunCreating, RunRunning); (RunCanceling, RunDeleting);
     (RunPending, RunSucceeded); (RunDeleting, RunSucceeded); (RunCancelled, RunSucceeded)].
Proof.
  split_and!; try (vm_compute; reflexivity); repeat (constructor; [try (vm_compute; reflexivity)|]); try constructor;
    inversion 1; set_solver.
Qed.

Definition request : MLRunCreateRequest Z :=
  {| rc_Name := "train-1"; rc_DisplayName := ""; rc_Description := "";
     rc_Labels := {[LabelResourcePool := "shadow"]};
     rc_Annotations := {[AnnotationPriority := "-7"]}; rc_PoolName := "p"; rc_UnitName := "u";
     rc_PriorityClass := ""; rc_Backend := None; rc_ConfigMaps := [];
     rc_Roles := [role "main" 1 0]; rc_RunPolicy := None |}.

(** The user cannot shadow the pool, and the priority is read. *)
Lemma Create_Get_witness :
  match Service.Create 9 "id1" "u1" "team" request (runs_db []) with
  | (db', inl v) => Service.Get "team" "train-1" db' = inl v /\
                    rv_Labels v !! LabelResourcePool = Some "p" /\
                    map mr_Priority (db_runs db') = [(-7)%Z]
  | (_, inr _) => False
  end.
Proof.
  destruct (Service.Create 9 "id1" "u1" "team" request (runs_db [])) as [db' [v|e]] eqn:E.
  - destruct (Create_Get _ _ _ _ _ _ _ _ E) as (H1 & _ & _ & _ & _ & H2 & _).
    split_and!; [exact H1|by apply H2|]. vm_compute in E. by injection E as <- _.
  - by vm_compute in E.
Defined.

Definition relabel : MLRunPatchRequest :=
  {| rpa_DisplayName := None; rpa_Description := None; rpa_Labels := Some ∅; rpa_Annotations := None |}.

Lemma Patch_keeps_witness :
  match Service.Patch 9 "team" "r1" relabel (w_db w0) with
  | (_, inl v) => map_get "" (rv_Labels v) LabelResourcePool = "p"
  | (_, inr _) => False
  end.
Proof.
  destruct (Service.Patch 9 "team" "r1" relabel (w_db w0)) as [db' [v|e]] eqn:E; [|by vm_compute in E].
  destruct (Patch_keeps 9 "team" "r1" relabel (run "r1" 0 1) (w_db w0) db' v (NoDup_one _) eq_refl E)
    as (_ & _ & _ & _ & _ & H & _).
  by apply H.
Defined.

Definition canceling : world Z := at_rest (runs_db [run_in_phase "r1" RunCanceling None]).

Lemma recovery_compare_and_set_witness :
  w_db (Reconciler.handleDispatchRecovery 9 canceling (run_in_phase "r1" RunCreating None)) =
  w_db canceling.
Proof.
  apply (recovery_compare_and_set 9 canceling (run_in_phase "r1" RunCreating None)).
  - intros r ->%list_elem_of_singleton _. by left.
  - by left.
Defined.

Lemma recovery_loses_cancel_witness :
  exists c', c' ∈ db_runs (w_db (Reconciler.handleDispatchRecovery 9 canceling
                                   (run_in_phase "r1" RunPending None))) /\
    mr_ID c' = "r1" /\ mr_Phase c' = RunRunning.
Proof.
  apply (recovery_loses_cancel 9 canceling (run_in_phase "r1" RunPending None)
    (run_in_phase "r1" RunCanceling None) (run_status MLRunPhaseRunning)); try done.
  - apply NoDup_one.
  - by left.
Defined.

Definition deleting : MLRun Z := run_in_phase "r1" RunDeleting (Some 5%Z).

Lemma late_success_witness :
  let db' := Reflow.reflectObserved 9 deleting (run_status MLRunPhaseSucceeded) (runs_db [deleting]) in
  exists j', j' ∈ db_runs db' /\ mr_ID j' = "r1" /\ mr_Phase j' = RunSucceeded /\
    mr_DeletedAt j' = Some 5%Z /\
    j' ∉ Repository.ws_Deleting (Repository.FindWorkSet db') /\
    j' ∉ Repository.FindObservable db' /\
    (forall namespace name, Repository.GetByNamespaceName namespace name db' <> inl j').
Proof.
  apply (late_success_loses_delete 9 deleting (run_status MLRunPhaseSucceeded) (runs_db [deleting]));
    try done.
  - apply NoDup_one.
  - by left.
Defined.
End RunSample.
