(* ===== verification/Mlservice.v ===== *)
(** * MLService

    [internal/mlservice]: repository, business service, CR rendering, outbox
    reconciler, status reflow, informer and poller, with the same conventions
    as [Mlrun]: a handler is a function of the row it read and of the
    database it writes to. *)

From Stdlib Require Import ssreflect ZArith Lia Ascii String.
From stdpp Require Import base gmap list strings.
From S2P Require Import Prelude Placement ApiTypes Store ServiceAdmission StatusMap Names Runtime Mlrun.

(** ** Repository *)
Module SvcRepository.
Section SvcRepository.
Context {Q : Type}.
Implicit Types (db : DB Q) (r s : MLService Q).

(** [Get] *)
Definition Get (id : string) db : MLService Q + error :=
  match List.find (fun r => String.eqb (ms_ID r) id) (db_services db) with
  | Some r => inl r
  | None => inr ErrRecordNotFound
  end.

Definition live_named (namespace name : string) r : bool :=
  String.eqb (ms_Namespace r) namespace && String.eqb (ms_Name r) name && is_null (ms_DeletedAt r).

(** [GetByNamespaceName] *)
Definition GetByNamespaceName (namespace name : string) db : MLService Q + error :=
  match List.find (live_named namespace name) (db_services db) with
  | Some r => inl r
  | None => inr ErrRecordNotFound
  end.

Definition newest_first (a b : MLService Q) : bool := (ms_CreatedAt b <? ms_CreatedAt a)%Z.

(** [ListByNamespace] *)
Definition ListByNamespace (namespace kind : string) (limit offset : nat)
    (labelClause : MLService Q -> bool) db : list (MLService Q) * nat :=
  let q := List.filter (fun r => String.eqb (ms_Namespace r) namespace && is_null (ms_DeletedAt r) &&
                                 (String.eqb kind "" || String.eqb (ms_Kind r) kind) &&
                                 labelClause r) (db_services db) in
  (Repository.page limit offset (sort_slice newest_first q), length q).

(** [ListPhasesByNames] *)
Definition ListPhasesByNames (namespace : string) (names : list string) db : list (MLService Q) :=
  match names with
  | [] => []
  | _ => sort_slice (fun a b => str_lt (ms_Name a) (ms_Name b))
           (List.filter (fun r => String.eqb (ms_Namespace r) namespace &&
              bool_decide (ms_Name r ∈ names) && is_null (ms_DeletedAt r)) (db_services db))
  end.

(** [ListPhasesBySelector] selects fewer columns of the same rows. *)
Definition ListPhasesBySelector (namespace kind : string) (limit offset : nat)
    (labelClause : MLService Q -> bool) db : list (MLService Q) * nat :=
  ListByNamespace namespace kind limit offset labelClause db.

(** [Create], under the primary key and the partial unique index. *)
Definition Create (s : MLService Q) db : DB Q + error :=
  if existsb (fun r => String.eqb (ms_ID r) (ms_ID s)) (db_services db)
  then inr Repository.ErrDuplicateKey
  else if is_null (ms_DeletedAt s) &&
          existsb (live_named (ms_Namespace s) (ms_Name s)) (db_services db)
  then inr Repository.ErrDuplicateKey
  else inl (set_services db (db_services db ++ [s])).

Definition has_id (id : string) r : bool := String.eqb (ms_ID r) id.

(** [Update] *)
Definition Update (now : Z) (id : string) (fields : list (svc_col Q)) db : DB Q :=
  set_services db (update_where (has_id id) (svc_Updates now fields) (db_services db)).

(** [MarkDeleting] *)
Definition MarkDeleting (now : Z) (id : string) db : DB Q :=
  Update now id [SPhase SvcDeleting; SDeletedAt (Some now)] db.

(** [MarkDeleted] *)
Definition MarkDeleted (now : Z) (id : string) db : DB Q :=
  Update now id [SPhase SvcDeleted; SDeletedAt (Some now)] db.

Definition workSetBatch : nat := 100.

Definition oldest_update (a b : MLService Q) : bool := (ms_UpdatedAt a <? ms_UpdatedAt b)%Z.

Definition batch (p : MLService Q -> bool) db : list (MLService Q) :=
  firstn workSetBatch (sort_slice oldest_update (List.filter p (db_services db))).

Definition phase_in (phases : list svc_phase) r : bool := bool_decide (ms_Phase r ∈ phases).

Definition observablePhases : list svc_phase :=
  [SvcCreating; SvcPending; SvcReady; SvcDegraded; SvcFailed; SvcDeleting].

(** [FindObservable] *)
Definition FindObservable db : list (MLService Q) := batch (phase_in observablePhases) db.

(** [WorkSet] *)
Record WorkSet := {
  ws_Creating : list (MLService Q);
  ws_Deleting : list (MLService Q);
  ws_DispatchDirty : list (MLService Q) }.

(** [admitted_replicas <> dispatched_replicas] *)
Definition dispatch_dirty r : bool :=
  negb (phase_in [SvcQueued; SvcCreating; SvcDeleting; SvcDeleted] r) &&
  negb (bool_decide (ms_AdmittedReplicas r = ms_DispatchedReplicas r)) && is_null (ms_DeletedAt r).

(** [FindWorkSet]: three SELECTs without a transaction, each of the table as it
    is by then. *)
Definition FindCreating db : list (MLService Q) := batch (fun r => phase_in [SvcCreating] r && is_null (ms_DeletedAt r)) db.
Definition FindDeleting db : list (MLService Q) := batch (phase_in [SvcDeleting]) db.
Definition FindDispatchDirty db : list (MLService Q) := batch dispatch_dirty db.

Definition FindWorkSet (db1 db2 db3 : DB Q) : WorkSet :=
  {| ws_Creating := FindCreating db1; ws_Deleting := FindDeleting db2; ws_DispatchDirty := FindDispatchDirty db3 |}.
End SvcRepository.
End SvcRepository.

(** ** Requests and views *)

(** [server.MLServiceCreateRequest]; [RunPolicy] holds one field. *)
Record MLServiceCreateRequest {Q : Type} := {
  sq_Name : string;
  sq_Kind : string;
  sq_DisplayName : string;
  sq_Description : string;
  sq_Labels : gmap string string;
  sq_Annotations : gmap string string;
  sq_PoolName : string;
  sq_UnitName : string;
  sq_PriorityClass : string;
  sq_Backend : option BackendSpec;
  sq_ConfigMaps : list RawJSON;
  sq_Roles : list (RoleSpec Q);
  sq_ProgressDeadlineSeconds : option Z;
  sq_Route : option RawJSON }.
Arguments MLServiceCreateRequest : clear implicits.

(** [server.MLServicePatchRequest] *)
Record MLServicePatchRequest := {
  spa_DisplayName : option string;
  spa_Description : option string;
  spa_Labels : option (gmap string string);
  spa_Annotations : option (gmap string string) }.

(** [server.MLService] *)
Record MLServiceView {Q : Type} := {
  sv_ID : string; sv_Namespace : string; sv_Name : string; sv_Kind : string;
  sv_DisplayName : string; sv_Description : string; sv_Owner : string;
  sv_Labels : gmap string string; sv_Annotations : gmap string string;
  sv_Generation : Z; sv_ObservedGeneration : Z; sv_Phase : svc_phase;
  sv_Spec : MLServiceSpec Q; sv_Status : MLServiceStatus;
  sv_CreatedAt : Z; sv_UpdatedAt : Z; sv_DeletedAt : option Z }.
Arguments MLServiceView : clear implicits.

(** [server.MLServicePhase] *)
Record MLServicePhaseView := {
  spv_Name : string; spv_Phase : svc_phase; spv_Message : string;
  spv_AdmissionReason : string; spv_AdmissionMessage : string; spv_AdmittedReplicas : Z;
  spv_ReadyReplicas : Z; spv_Generation : Z; spv_ObservedGeneration : Z }.

Definition MLServiceSpec_zero {Q} : MLServiceSpec Q :=
  {| ssp_Backend := BackendSpec_zero; ssp_Scheduling := SchedulingSpec_zero; ssp_ConfigMaps := [];
     ssp_Roles := []; ssp_ProgressDeadlineSeconds := None; ssp_Route := None |}.

(** [ActivePolicyReferenceChecker]: the name of a live policy that routes to
    the service, or the empty string. *)
Definition ActivePolicyReferenceChecker (Q : Type) : Type := DB Q -> string -> string -> string + error.

(** ** Service *)
Module SvcService.
Section SvcService.
Context {Q : Type} `{!ResourceResolver Q} (policyRefs : option (ActivePolicyReferenceChecker Q)).
Implicit Types (db : DB Q) (s row : MLService Q).

(** [admittedPrimary] *)
Definition admittedPrimary s : Z := Primary (Decode (ms_AdmittedReplicas s) 1 []).

Definition with_admitted (st : MLServiceStatus) (n : Z) : MLServiceStatus :=
  {| sst_Message := sst_Message st; sst_AdmissionReason := sst_AdmissionReason st;
     sst_AdmissionMessage := sst_AdmissionMessage st; sst_AdmittedReplicas := n;
     sst_ReadyReplicas := sst_ReadyReplicas st; sst_Endpoint := sst_Endpoint st |}.

(** [toView] *)
Definition toView s : MLServiceView Q :=
  {| sv_ID := ms_ID s; sv_Namespace := ms_Namespace s; sv_Name := ms_Name s; sv_Kind := ms_Kind s;
     sv_DisplayName := ms_DisplayName s; sv_Description := ms_Description s; sv_Owner := ms_Owner s;
     sv_Labels := decodeMap (ms_Labels s); sv_Annotations := decodeMap (ms_Annotations s);
     sv_Generation := ms_Generation s; sv_ObservedGeneration := ms_ObservedGeneration s;
     sv_Phase := ms_Phase s; sv_Spec := json_or MLServiceSpec_zero (ms_Spec s);
     sv_Status := with_admitted (json_or MLServiceStatus_zero (ms_StatusJSON s)) (admittedPrimary s);
     sv_CreatedAt := ms_CreatedAt s; sv_UpdatedAt := ms_UpdatedAt s; sv_DeletedAt := ms_DeletedAt s |}.

Definition conflict : error := New CodeConflict "service already exists".
Definition not_found : error := New CodeNotFound "service not found".

Definition valid_kind (kind : string) : bool :=
  String.eqb kind ServiceKindService || String.eqb kind ServiceKindWorkspace ||
  String.eqb kind ServiceKindTensorBoard.

(** The spec [Create] builds. *)
Definition build_spec (namespace : string) (input : MLServiceCreateRequest Q) (expanded : Expanded Q)
    : MLServiceSpec Q :=
  {| ssp_Backend :=
       override_backend {| be_Name := "native"; be_Engine := "deployment"; be_Config := None |}
         (sq_Backend input);
     ssp_Scheduling :=
       {| sc_Quota := ElasticQuotaName namespace (sq_PoolName input);
          sc_PriorityClass := sq_PriorityClass input;
          sc_NodeSelector := ex_NodeSelector expanded; sc_Tolerations := [] |};
     ssp_ConfigMaps := sq_ConfigMaps input;
     ssp_Roles := map (fun r => set_resources r
                         (BuildResources (ex_Requests expanded) (ex_Limits expanded)))
                    (sq_Roles input);
     ssp_ProgressDeadlineSeconds := sq_ProgressDeadlineSeconds input;
     ssp_Route := sq_Route input |}.

Definition new_row (now : Z) (id owner namespace kind : string) (input : MLServiceCreateRequest Q)
    (spec : MLServiceSpec Q) : MLService Q :=
  {| ms_ID := id; ms_Namespace := namespace; ms_Kind := kind; ms_Name := sq_Name input;
     ms_DisplayName := sq_DisplayName input; ms_Description := sq_Description input;
     ms_Owner := owner;
     ms_Labels := mapBytes (mergeLabels (sq_Labels input)
                    (Service.system_labels (sq_PoolName input) (sq_UnitName input)));
     ms_Annotations := mapBytes (sq_Annotations input);
     ms_Spec := JVal spec;
     ms_AdmittedReplicas := Encode (Zero spec); ms_DispatchedReplicas := Encode (Zero spec);
     ms_Generation := 1; ms_ObservedGeneration := 0; ms_Phase := SvcQueued;
     ms_StatusJSON := JVal MLServiceStatus_zero;
     ms_CreatedAt := now; ms_UpdatedAt := now; ms_DeletedAt := None |}.

Definition kind_or_default (kind : string) : string :=
  if String.eqb kind "" then ServiceKindService else kind.

(** [Create] *)
Definition Create (now : Z) (id owner namespace : string) (input : MLServiceCreateRequest Q) db
    : DB Q * (MLServiceView Q + error) :=
  if negb (IsValidName (sq_Name input)) then (db, inr (New CodeValidation "invalid service name"))
  else
  let kind := kind_or_default (sq_Kind input) in
  if negb (valid_kind kind) then
    (db, inr (New CodeValidation
       "kind must be 'service', 'workspace' or 'tensorboard'"))
  else match SvcRepository.GetByNamespaceName namespace (sq_Name input) db with
  | inl _ => (db, inr conflict)
  | inr e =>
  if negb (IsNotFound e) then (db, inr e)
  else match ResolveResourcePool (sq_PoolName input) with
  | inr e => (db, inr e)
  | inl pool =>
  match ResolveResourceUnit (sq_PoolName input) (sq_UnitName input) with
  | inr e => (db, inr e)
  | inl unit =>
  let s := new_row now id owner namespace kind input (build_spec namespace input (Expand pool unit)) in
  match SvcRepository.Create s db with
  | inr e => (db, inr e)
  | inl db' => (db', inl (toView s))
  end
  end end end.

(** [Get] *)
Definition Get (namespace name : string) db : MLServiceView Q + error :=
  match SvcRepository.GetByNamespaceName namespace name db with
  | inl s => inl (toView s)
  | inr e => inr (if IsNotFound e then not_found else e)
  end.

(** [phaseView] *)
Definition phaseView s : MLServicePhaseView :=
  let status := json_or MLServiceStatus_zero (ms_StatusJSON s) in
  {| spv_Name := ms_Name s; spv_Phase := ms_Phase s; spv_Message := sst_Message status;
     spv_AdmissionReason := sst_AdmissionReason status;
     spv_AdmissionMessage := sst_AdmissionMessage status;
     spv_AdmittedReplicas := admittedPrimary s; spv_ReadyReplicas := sst_ReadyReplicas status;
     spv_Generation := ms_Generation s; spv_ObservedGeneration := ms_ObservedGeneration s |}.

(** [Phase] *)
Definition Phase (namespace name : string) db : MLServicePhaseView + error :=
  match SvcRepository.GetByNamespaceName namespace name db with
  | inl s => inl (phaseView s)
  | inr e => inr (if IsNotFound e then not_found else e)
  end.

(** [PhasesByNames] and [PhasesBySelector] *)
Definition PhasesByNames (namespace : string) (names : list string) db : list MLServicePhaseView :=
  map phaseView (SvcRepository.ListPhasesByNames namespace names db).

Definition PhasesBySelector (namespace kind : string) (limit offset : nat)
    (labelClause : MLService Q -> bool) db : list MLServicePhaseView * nat :=
  let '(rows, total) :=
    SvcRepository.ListPhasesBySelector namespace kind limit offset labelClause db in
  (map phaseView rows, total).

(** [List] *)
Definition List (namespace kind : string) (limit offset : nat) (labelClause : MLService Q -> bool) db
    : list (MLServiceView Q) * nat :=
  let '(rows, total) := SvcRepository.ListByNamespace namespace kind limit offset labelClause db in
  (map toView rows, total).

(** [spec.Roles[0].Replicas = n] *)
Definition set_primary (spec : MLServiceSpec Q) (n : Z) : MLServiceSpec Q :=
  set_roles spec (match ssp_Roles spec with [] => [] | r :: rest => set_replicas r n :: rest end).

(** The status with its admission fields cleared. *)
Definition clear_admission (st : MLServiceStatus) : MLServiceStatus :=
  {| sst_Message := sst_Message st; sst_AdmissionReason := ""; sst_AdmissionMessage := "";
     sst_AdmittedReplicas := 0; sst_ReadyReplicas := sst_ReadyReplicas st;
     sst_Endpoint := sst_Endpoint st |}.

(** The column updates of [Scale]. *)
Definition scale_columns (n : Z) row : list (svc_col Q) + error :=
  match unmarshal (ms_Spec row) with
  | inr e => inr e
  | inl spec =>
      match ssp_Roles spec with
      | [] => inr (New CodePrecondition "service has no roles")
      | _ =>
          let desiredBefore := Desired spec in
          let admitted := Decode (ms_AdmittedReplicas row) (length (ssp_Roles spec)) desiredBefore in
          let spec' := set_primary spec n in
          let admitted' := ClampToDesired admitted (Desired spec') in
          inl [SSpec (JVal spec'); SAdmitted (Encode admitted');
               SStatus (JVal (clear_admission (json_or MLServiceStatus_zero (ms_StatusJSON row))));
               SGenerationInc]
      end
  end.

(** [Scale]: the read and the write are one transaction under a row lock. *)
Definition Scale (now : Z) (namespace name : string) (n : Z) db : DB Q * (MLServiceView Q + error) :=
  match SvcRepository.GetByNamespaceName namespace name db with
  | inr e => (db, inr (if IsNotFound e then not_found else e))
  | inl row =>
      match scale_columns n row with
      | inr e => (db, inr (if IsNotFound e then not_found else e))
      | inl cols =>
          let db' := SvcRepository.Update now (ms_ID row) cols db in
          match SvcRepository.Get (ms_ID row) db' with
          | inr e => (db', inr e)
          | inl fresh => (db', inl (toView fresh))
          end
      end
  end.

(** The column updates a patch asks for. *)
Definition patch_columns (input : MLServicePatchRequest) : list (svc_col Q) :=
  match spa_DisplayName input with Some s => [SDisplayName s] | None => [] end ++
  match spa_Description input with Some s => [SDescription s] | None => [] end ++
  match spa_Labels input with Some m => [SLabels (mapBytes m)] | None => [] end ++
  match spa_Annotations input with Some m => [SAnnotations (mapBytes m)] | None => [] end.

Definition patch_row (now : Z) (input : MLServicePatchRequest) row db
    : DB Q * (MLServiceView Q + error) :=
  match patch_columns input with
  | [] => (db, inl (toView row))
  | updates =>
      let db' := SvcRepository.Update now (ms_ID row) updates db in
      match SvcRepository.Get (ms_ID row) db' with
      | inr e => (db', inr e)
      | inl fresh => (db', inl (toView fresh))
      end
  end.

(** [Patch] *)
Definition Patch (now : Z) (namespace name : string) (input : MLServicePatchRequest) db
    : DB Q * (MLServiceView Q + error) :=
  match SvcRepository.GetByNamespaceName namespace name db with
  | inr e => (db, inr (if IsNotFound e then not_found else e))
  | inl row => patch_row now input row db
  end.

(** [checkActivePolicyReference] *)
Definition checkActivePolicyReference (checker : ActivePolicyReferenceChecker Q)
    (namespace name : string) db : option error :=
  match checker db namespace name with
  | inr e => Some e
  | inl policyName =>
      if String.eqb policyName "" then None
      else Some (New CodeConflict ("service '" ++ name ++ "' is referenced by active traffic policy '"
                                   ++ policyName ++ "'")%string)
  end.

(** The check [Delete] makes before it writes. *)
Definition delete_check (namespace name : string) row db : option error :=
  match policyRefs with
  | Some checker =>
      if String.eqb (ms_Kind row) ServiceKindService
      then checkActivePolicyReference checker namespace name db else None
  | None => None
  end.

(** The write of [Delete], for the row it read. *)
Definition delete_row (now : Z) row db : DB Q :=
  match ms_Phase row with
  | SvcDeleting | SvcDeleted => db
  | SvcQueued => SvcRepository.MarkDeleted now (ms_ID row) db
  | _ => SvcRepository.MarkDeleting now (ms_ID row) db
  end.

(** [Delete] *)
Definition Delete (now : Z) (namespace name : string) db : DB Q * option error :=
  match SvcRepository.GetByNamespaceName namespace name db with
  | inr e => (db, if IsNotFound e then None else Some e)
  | inl row =>
      if SvcRepository.phase_in [SvcDeleting; SvcDeleted] row then (db, None)
      else match delete_check namespace name row db with
           | Some e => (db, Some e)
           | None => (delete_row now row db, None)
           end
  end.
End SvcService.
End SvcService.

(** ** Rendering *)

(** [ToCR] *)
Definition ServiceToCR {Q} (shortHash : bytes -> bytes) (s : MLService Q) (tenantPrefix : bool)
    : MLServiceCR Q + error :=
  match unmarshal_nonempty MLServiceSpec_zero (ms_Spec s) with
  | inr e => inr e
  | inl spec0 =>
      let desired := Desired spec0 in
      let admitted := Decode (ms_AdmittedReplicas s) (length (ssp_Roles spec0)) desired in
      let spec := Apply spec0 admitted in
      let kind := SvcService.kind_or_default (ms_Kind s) in
      let rowLabels := decodeMap (ms_Labels s) in
      let labels :=
        foldl (copy_label rowLabels)
          (<[LabelQuota := sc_Quota (ssp_Scheduling spec)]>
             (<[LabelTenant := ms_Namespace s]>
                (<[LabelServiceKind := kind]> {[LabelServiceID := ms_ID s]})))
          [LabelResourcePool; LabelResourceUnit] in
      let meta := {| om_Name := ms_Name s; om_Namespace := ms_Namespace s; om_Labels := labels;
                     om_Annotations := ∅ |} in
      inl {| scr_Meta := Annotate shortHash meta (ms_Namespace s) (ms_Name s) tenantPrefix;
             scr_Spec := spec |}
  end.

(** ** Status reflow *)
Module SvcReflow.
Section SvcReflow.
Context {Q : Type}.
Implicit Types (db : DB Q) (row : MLService Q).

(** [reflectObserved] *)
Definition reflectObserved (now : Z) row (desired : Z) (observed : MLServiceCRStatus) db : DB Q :=
  if SvcRepository.phase_in [SvcDeleting; SvcDeleted] row then db
  else
    let sf := json_or MLServiceStatus_zero (ms_StatusJSON row) in
    let '(newPhase, mapped) :=
      MapService (ms_Phase row)
        {| ss_Message := sst_Message sf; ss_ReadyReplicas := sst_ReadyReplicas sf;
           ss_Endpoint := sst_Endpoint sf |} desired observed in
    let next :=
      {| sst_Message := ss_Message mapped; sst_AdmissionReason := sst_AdmissionReason sf;
         sst_AdmissionMessage := sst_AdmissionMessage sf;
         sst_AdmittedReplicas := sst_AdmittedReplicas sf;
         sst_ReadyReplicas := ss_ReadyReplicas mapped; sst_Endpoint := ss_Endpoint mapped |} in
    SvcRepository.Update now (ms_ID row) [SPhase newPhase; SStatus (JVal next)] db.

Definition with_message (st : MLServiceStatus) (message : string) : MLServiceStatus :=
  {| sst_Message := message; sst_AdmissionReason := sst_AdmissionReason st;
     sst_AdmissionMessage := sst_AdmissionMessage st;
     sst_AdmittedReplicas := sst_AdmittedReplicas st; sst_ReadyReplicas := sst_ReadyReplicas st;
     sst_Endpoint := sst_Endpoint st |}.

(** [reflectGone] *)
Definition reflectGone (now : Z) row db : DB Q :=
  match ms_Phase row with
  | SvcDeleting =>
      SvcRepository.Update now (ms_ID row) [SPhase SvcDeleted; SDeletedAt (Some now)] db
  | SvcReady | SvcDegraded | SvcFailed =>
      let sf := json_or MLServiceStatus_zero (ms_StatusJSON row) in
      SvcRepository.Update now (ms_ID row)
        [SPhase SvcDeleting; SStatus (JVal (with_message sf "external delete"))] db
  | _ => db
  end.

(** [desiredReplicas] *)
Definition desiredReplicas row : Z :=
  match unmarshal (ms_Spec row) with
  | inr _ => 0
  | inl spec => match ssp_Roles spec with [] => 0 | r :: _ => ro_Replicas r end
  end%Z.
End SvcReflow.
End SvcReflow.

(** ** Informer *)
Module SvcInformer.
Section SvcInformer.
Context {Q : Type}.

(** [onChange] *)
Definition onChange (now : Z) (cr : MLServiceCR Q) (status : MLServiceCRStatus) (db : DB Q) : DB Q :=
  match om_Labels (scr_Meta cr) !! LabelServiceID with
  | None => db
  | Some id =>
      match SvcRepository.Get id db with
      | inr _ => db
      | inl row =>
          let desired := match ssp_Roles (scr_Spec cr) with [] => 0%Z | r :: _ => ro_Replicas r end in
          SvcReflow.reflectObserved now row desired status db
      end
  end.

(** [onDelete] *)
Definition onDelete (now : Z) (cr : MLServiceCR Q) (db : DB Q) : DB Q :=
  match om_Labels (scr_Meta cr) !! LabelServiceID with
  | None => db
  | Some id => match SvcRepository.Get id db with
               | inr _ => db
               | inl row => SvcReflow.reflectGone now row db
               end
  end.
End SvcInformer.
End SvcInformer.

(** ** Reconciler *)
Module SvcReconciler.
Section SvcReconciler.
Context {Q : Type} `{!ComputeRuntime Q} (shortHash : bytes -> bytes) (tenantPrefix : bool).
Implicit Types (w : world Q) (s : MLService Q) (db : DB Q).

(** [fullyAdmitted] *)
Definition fullyAdmitted s : bool :=
  match unmarshal (ms_Spec s) with
  | inr _ => false
  | inl spec =>
      let desired := Desired spec in
      Equal (Decode (ms_AdmittedReplicas s) (length (ssp_Roles spec)) desired) desired
  end.

(** [allZero] *)
Definition allZero (values : list Z) : bool := forallb (fun v => v =? 0)%Z values.

(** [setStatusMessage] *)
Definition setStatusMessage (now : Z) s (msg : string) db : DB Q :=
  let sf := json_or MLServiceStatus_zero (ms_StatusJSON s) in
  SvcRepository.Update now (ms_ID s) [SStatus (JVal (SvcReflow.with_message sf msg))] db.

(** The WHERE clause of [markDispatched]. *)
Definition may_mark (initial : bool) s (r : MLService Q) : bool :=
  SvcRepository.has_id (ms_ID s) r && is_null (ms_DeletedAt r) &&
  negb (SvcRepository.phase_in [SvcDeleting; SvcDeleted] r) &&
  (negb initial || SvcRepository.phase_in [SvcCreating] r).

(** [id = ? AND generation = ?] *)
Definition at_generation s (r : MLService Q) : bool :=
  SvcRepository.has_id (ms_ID s) r && (ms_Generation r =? ms_Generation s)%Z.

(** [markDispatched] *)
Definition markDispatched (now : Z) s (initial : bool) db : DB Q :=
  let updates := [SDispatched (ms_AdmittedReplicas s)] ++
                 (if initial then [SPhase SvcPending] else []) in
  let db' := set_services db (update_where (may_mark initial s) (svc_Updates now updates)
                                (db_services db)) in
  if Nat.eqb (rows_affected (may_mark initial s) (db_services db)) 0 then db
  else if fullyAdmitted s then
    set_services db' (update_where (at_generation s)
      (svc_Updates now [SObservedGeneration (ms_Generation s)]) (db_services db'))
  else db'.

Definition rollback_status (st : MLServiceStatus) (message : string) : MLServiceStatus :=
  {| sst_Message := sst_Message st; sst_AdmissionReason := "InsufficientResources";
     sst_AdmissionMessage := message; sst_AdmittedReplicas := 0;
     sst_ReadyReplicas := sst_ReadyReplicas st; sst_Endpoint := sst_Endpoint st |}.

(** The columns the rollback transaction writes, if any. *)
Definition rollback_columns (snapshot current : MLService Q) (message : string)
    : option (list (svc_col Q)) :=
  if SvcRepository.phase_in [SvcDeleting; SvcDeleted] current || negb (is_null (ms_DeletedAt current))
  then None
  else match unmarshal (ms_Spec current) with
  | inr _ => None
  | inl spec =>
      let desired := Desired spec in
      let n := length (ssp_Roles spec) in
      let currentAdmitted := Decode (ms_AdmittedReplicas current) n desired in
      let snapshotAdmitted := Decode (ms_AdmittedReplicas snapshot) n desired in
      if negb (Equal currentAdmitted snapshotAdmitted) then None
      else
        let dispatched := Decode (ms_DispatchedReplicas current) n (Zero spec) in
        let status := rollback_status (json_or MLServiceStatus_zero (ms_StatusJSON current)) message in
        Some ([SAdmitted (Encode dispatched); SStatus (JVal status)] ++
              (if allZero dispatched then [SPhase SvcQueued] else []))
  end.

(** [rollbackAdmission] *)
Definition rollbackAdmission (now : Z) (snapshot : MLService Q) (message : string) db : DB Q :=
  match SvcRepository.Get (ms_ID snapshot) db with
  | inr _ => db
  | inl current =>
      match rollback_columns snapshot current message with
      | None => db
      | Some cols => SvcRepository.Update now (ms_ID current) cols db
      end
  end.

(** [handleCreate] *)
Definition handleCreate (now : Z) w s : world Q :=
  match ServiceToCR shortHash s tenantPrefix with
  | inr _ => w
  | inl cr =>
      let answer := rt_ApplyMLService (w_calls w) cr in
      let w := record_call w (CApplyMLService cr) in
      match answer with
      | Some err =>
          if IsResourceUnavailable err
          then with_db w (rollbackAdmission now s (Error err) (w_db w))
          else with_db w (setStatusMessage now s (Error err) (w_db w))
      | None => with_db w (markDispatched now s true (w_db w))
      end
  end.

Definition svc_key_of s : NamespacedName := (ms_Namespace s, ms_Name s).

(** [handleDelete] *)
Definition handleDelete (now : Z) w s : world Q :=
  let key := svc_key_of s in
  let answer := rt_DeleteMLService (w_calls w) key in
  let w := record_call w (CDeleteMLService key) in
  match answer with
  | Some _ => w
  | None =>
      let observation := rt_ObserveMLService (w_calls w) key in
      let w := record_call w (CObserveMLService key) in
      match observation with
      | inr e =>
          if IsAPINotFound e
          then with_db w (SvcRepository.Update now (ms_ID s)
                            [SPhase SvcDeleted; SDeletedAt (Some now)] (w_db w))
          else w
      | inl _ => w
      end
  end.

(** [handleAdmissionSync] *)
Definition handleAdmissionSync (now : Z) w s : world Q :=
  match ServiceToCR shortHash s tenantPrefix with
  | inr _ => w
  | inl cr =>
      let answer := rt_ApplyMLService (w_calls w) cr in
      let w := record_call w (CApplyMLService cr) in
      match answer with
      | Some err =>
          if IsResourceUnavailable err
          then with_db w (rollbackAdmission now s (Error err) (w_db w)) else w
      | None => with_db w (markDispatched now s false (w_db w))
      end
  end.

(** [runOnce], with the tables the first two reads of the work set saw *)
Definition runOnce (now : Z) (db1 db2 : DB Q) w : world Q :=
  let ws := SvcRepository.FindWorkSet db1 db2 (w_db w) in
  let w := foldl (handleCreate now) w (SvcRepository.ws_Creating ws) in
  let w := foldl (handleDelete now) w (SvcRepository.ws_Deleting ws) in
  foldl (handleAdmissionSync now) w (SvcRepository.ws_DispatchDirty ws).
End SvcReconciler.
End SvcReconciler.

(** ** Status poller *)
Module SvcPoller.
Section SvcPoller.
Context {Q : Type} `{!ComputeRuntime Q}.

Definition poll_row (now : Z) (w : world Q) (row : MLService Q) : world Q :=
  let key := (ms_Namespace row, ms_Name row) in
  let observation := rt_ObserveMLService (w_calls w) key in
  let w := record_call w (CObserveMLService key) in
  match observation with
  | inr e => if IsAPINotFound e then with_db w (SvcReflow.reflectGone now row (w_db w)) else w
  | inl observed =>
      with_db w (SvcReflow.reflectObserved now row (SvcReflow.desiredReplicas row) observed (w_db w))
  end.

(** [runOnce] *)
Definition runOnce (now : Z) (w : world Q) : world Q :=
  foldl (poll_row now) w (SvcRepository.FindObservable (w_db w)).
End SvcPoller.
End SvcPoller.
