(* ===== verification/MlserviceFacts.v ===== *)
(** * MLService: what every interleaving preserves

    How each actor (API, admission, informer, poller, reconciler) changes a
    service row, and the invariants that survive any interleaving of them. *)

From Stdlib Require Import ssreflect ZArith Lia Ascii String.
From stdpp Require Import base gmap list strings.
From S2P Require Import Prelude Placement ApiTypes Store StatusMap Names Runtime ServiceAdmission Admission AdmissionUsage AdmissionSafety AdmissionRuns Mlrun Mlservice.

(** ** Admission rounds, whatever the tables hold besides unique ids *)

Section Admission.
Context {Q : Type} `{!Quantity Q}.
Implicit Types (st : round Q) (row cur : MLService Q) (db : DB Q).

Abbreviation ids rows := (map ms_ID rows).

Lemma evolved_ids (rows rows' : list (MLService Q)) :
  Forall2 svc_evolved rows rows' -> ids rows' = ids rows.
Proof.
  induction 1 as [|a b l l' H _ IH]; simpl; [done|]. f_equal; [|done].
  move: (se_identity _ _ H). rw /svc_identity. by intros [=].
Qed.

Lemma admit_steps_effect fuel now max spec target key st row cur admitted st' :
  NoDup (ids (db_services (rd_db st))) -> unmarshal (ms_Spec cur) = inl spec ->
  cur ∈ db_services (rd_db st) -> svc_core cur = svc_core row ->
  admitted = admitted_of spec cur ->
  admit_steps fuel now max spec (Desired spec) target key st row admitted = Some st' ->
  service_effect row st st'.
Proof.
  revert st row cur admitted. induction fuel as [|fuel IH]; intros st row cur admitted; [done|].
  intros Hnd Hsp Hin Hcore Hadm. simpl.
  destruct (Equal admitted (Desired spec)); [intros [= <-]; apply service_effect_refl|].
  destruct (Next admitted (Desired spec)) as [next increased] eqn:HN.
  case_bool_decide; [intros [= <-]; apply service_effect_refl|].
  destruct (_ || _) eqn:Hex; [case_match; intros [= <-]; by apply block_service_effect|].
  destruct (place_roles _ _ _) as [trial [[|] reason]]; [|intros [= <-]; by apply block_service_effect].
  fold (step_columns row next). rw Hadm in HN. set (st1 := {| rd_usage := _ |}). intros Hrec.
  assert (Hidc : ms_ID cur = ms_ID row) by (move: Hcore; by intros [=]).
  pose proof (svc_evolved_stepped now row cur spec next increased Hcore Hsp HN) as Hev.
  pose proof (step_columns_stepped now row cur next Hcore) as (_ & _ & Hs & Ha & _).
  assert (Hone : service_effect row st st1).
  { destruct st as [db cap u]. apply service_effect_update.
    - intros x Hx. rw /by_id in Hx. by unbool.
    - intros x Hx Hp. rw /by_id in Hp. unbool. assert (x = cur) as ->; [|done].
      apply (unique_by ms_ID (db_services db)); [done..|congruence]. }
  assert (Hid1 : ms_ID (foldl set_svc_col row (step_columns row next)) = ms_ID row).
  { rw /step_columns. by destruct (svc_in _ row). }
  eapply service_effect_trans; [exact Hid1|exact Hone|].
  eapply (IH _ _ (svc_Updates now (step_columns row next) cur)) in Hrec.
  - exact Hrec.
  - by rw (evolved_ids _ _ (ef_evolved _ _ _ Hone)).
  - by rw Hs.
  - simpl. apply elem_of_update_where. exists cur. split; [done|].
    assert (by_id row cur = true) as ->; [|done]. rw /by_id. by apply String.eqb_eq.
  - by apply step_columns_core.
  - assert (Hlen : length (admitted_of spec cur) = length (Desired spec))
      by by rw length_Decode length_Desired.
    pose proof (Next_spec _ _ _ _ Hlen (nonneg_Decode _ _ _) HN) as Hns.
    rw /admitted_of Ha -(length_Desired spec) -(ns_length _ _ _ _ Hns). symmetry. apply Encode_Decode.
    eapply next_step_nonneg; [done|apply nonneg_Decode].
Qed.

Lemma admitService_effect now quotas st row st' :
  NoDup (ids (db_services (rd_db st))) -> row ∈ db_services (rd_db st) ->
  admitService now quotas st row = inl st' -> service_effect row st st'.
Proof.
  intros Hnd Hin. rw /admitService. destruct (unmarshal (ms_Spec row)) as [spec|] eqn:Hsp; [|done].
  rw svc_in_queued.
  destruct (Equal _ (Desired spec)) eqn:Heq; [case_bool_decide as Hq; cbn [negb andb]|].
  - intros [= <-]. destruct st as [db cap u]. apply service_effect_update.
    + intros x Hx. rw /by_id in Hx. by unbool.
    + intros x Hx Hp. rw /by_id in Hp. unbool. rw (unique_by ms_ID _ _ _ Hnd Hx Hin) //.
      apply svc_evolved_same; [done| |done]. by right.
  - intros [= <-]. apply service_effect_refl.
  - rw andb_false_r.
    destruct (quotas !! _) as [[max|]|]; [|intros [= <-]; by apply block_service_effect..].
    destruct (admit_steps _ _ _ _ _ _ _ _ _ _) as [st1|] eqn:Hsteps; [|done]. intros [= <-].
    by eapply admit_steps_effect.
Qed.

Lemma admitServicesLocked_evolves now quotas st st' :
  NoDup (ids (db_services (rd_db st))) -> admitServicesLocked now quotas st = inl st' ->
  Forall2 svc_evolved (db_services (rd_db st)) (db_services (rd_db st')).
Proof.
  intros Hnd Hf. rw /admitServicesLocked in Hf.
  apply (fold_err_rest (fun rest s =>
    Forall2 svc_evolved (db_services (rd_db st)) (db_services (rd_db s)) /\ NoDup (ids rest) /\
    forall row, row ∈ rest -> row ∈ db_services (rd_db s))) in Hf; [by destruct Hf| |].
  - split_and!; [by apply Forall_Forall2_diag, Forall_true|by apply NoDup_sorted_filter|].
    by intros row (? & _)%elem_of_liveServices.
  - intros s row rest s1 (Hev & Hn & Hrest) Hstep.
    apply NoDup_cons in Hn as [Hx Hn].
    assert (Heff : service_effect row s s1).
    { eapply admitService_effect; [by rw (evolved_ids _ _ Hev)|apply Hrest; by left|done]. }
    split_and!; [etrans; [done|apply (ef_evolved _ _ _ Heff)]|done|].
    intros x Hxr. apply (ef_others _ _ _ Heff); [apply Hrest; by right|].
    intros E. apply Hx. rw -E. by apply list_elem_of_fmap_2.
Qed.

Lemma setQueueReason_services now (run : MLRun Q) reason message db :
  db_services (setQueueReason now run reason message db) = db_services db.
Proof. rw /setQueueReason. by case_decide. Qed.

Lemma admitRun_services now quotas st run st' :
  admitRun now quotas st run = inl st' -> db_services (rd_db st') = db_services (rd_db st).
Proof.
  rw /admitRun. destruct (runWorkload run) as [wl|]; [|done].
  destruct (quotas !! _) as [[max|]|]; [|intros [= <-]; apply setQueueReason_services..].
  destruct (exceeds _ _); [intros [= <-]; apply setQueueReason_services|].
  destruct (exceeds _ _); [intros [= <-]; apply setQueueReason_services|].
  destruct (place_roles _ _ _) as [trial [[|] reason]]; [|intros [= <-]; apply setQueueReason_services].
  case_match; by intros [= <-].
Qed.

Lemma setAllServiceAdmissionReason_evolves now rows reason message db :
  Forall2 svc_evolved (db_services db)
    (db_services (setAllServiceAdmissionReason now rows reason message db)).
Proof.
  rw /setAllServiceAdmissionReason. revert db. induction rows as [|row rows IH]; intros db; simpl.
  { by apply Forall_Forall2_diag, Forall_true. }
  etrans; [|apply IH]. rw /setServiceAdmissionReason.
  case_decide; simpl; [by apply Forall_Forall2_diag, Forall_true|].
  apply update_where_Forall2; [apply _|]. intros x _ _. apply svc_evolved_same; auto.
Qed.

(** A controller tick evolves every service row. *)
Lemma runOnce_evolves now inventory quotas pools db0 db :
  NoDup (ids (db_services db)) ->
  Forall2 svc_evolved (db_services db) (db_services (runOnce now inventory quotas pools db0 db)).
Proof.
  intros Hnd. assert (Hrefl : Forall2 svc_evolved (db_services db) (db_services db))
    by by apply Forall_Forall2_diag, Forall_true.
  rw /runOnce. destruct (pendingServices db0) as [services|]; [|done].
  destruct (_ && _); [done|]. destruct inventory as [snapshot|e].
  - destruct (admitLocked _ _ _ _ _) as [st|] eqn:Hadm; [|done].
    move: Hadm. rw /admitLocked /start_round.
    destruct (loadActive _ _) as [[[active usage] actual]|]; [|done].
    destruct (admitServicesLocked _ _ _) as [st1|] eqn:Hs; [|done]. intros Hr.
    apply admitServicesLocked_evolves in Hs; [|done]. simpl in Hs.
    replace (db_services (rd_db st)) with (db_services (rd_db st1)); [done|].
    apply (fold_err_invariant (fun s => db_services (rd_db st1) = db_services (rd_db s))
      _ _ _ _ eq_refl) in Hr; [done|].
    intros s a s1 _ E Ha. by rw (admitRun_services _ _ _ _ _ Ha).
  - etrans; [|apply setAllServiceAdmissionReason_evolves].
    replace (db_services (setAllQueueReason _ _ _ _ db)) with (db_services db); [done|].
    rw /setAllQueueReason. set (rs := queuedRuns db0). clearbody rs. clear. revert db.
    induction rs as [|run rs IH]; intros db; simpl; [done|]. by rw -IH setQueueReason_services.
Qed.
End Admission.

(** ** How rows drift while the reconciler is not looking *)

Section Rows.
Context {Q : Type}.
Implicit Types (a b c row s : MLService Q) (db : DB Q).

(** Columns no actor changes, and the permanence of soft deletion. *)
Definition svc_frozen a b : Prop :=
  (ms_ID b, ms_Namespace b, ms_Kind b, ms_Name b, ms_Owner b, ms_CreatedAt b) =
  (ms_ID a, ms_Namespace a, ms_Kind a, ms_Name a, ms_Owner a, ms_CreatedAt a) /\
  (ms_DeletedAt a <> None -> ms_DeletedAt b <> None).

#[export] Instance svc_frozen_refl : Reflexive svc_frozen.
Proof. by intros a. Qed.

#[export] Instance svc_frozen_trans : Transitive svc_frozen.
Proof. intros a b c [H1 D1] [H2 D2]. split; [by rw H2|auto]. Qed.

Lemma frozen_id a b : svc_frozen a b -> ms_ID b = ms_ID a.
Proof. by intros [[=] _]. Qed.

(** What API calls, admission and status reflow do to a row: they leave the
    dispatch bookkeeping alone, and change the spec only together with the
    generation; within a generation admission only grows, up to the desired
    vector. *)
Record drift a b : Prop := {
  dr_frozen : svc_frozen a b;
  dr_dispatched : ms_DispatchedReplicas b = ms_DispatchedReplicas a;
  dr_observed : ms_ObservedGeneration b = ms_ObservedGeneration a;
  dr_generation : (ms_Generation a <= ms_Generation b)%Z;
  dr_same : ms_Generation b = ms_Generation a ->
    ms_Spec b = ms_Spec a /\
    forall spec i, unmarshal (ms_Spec a) = inl spec ->
      (vget (admitted_of spec a) i <= vget (admitted_of spec b) i <=
       Z.max (vget (admitted_of spec a) i) (vget (Desired spec) i))%Z;
  dr_column : ms_AdmittedReplicas a <> JEmpty -> ms_AdmittedReplicas b <> JEmpty }.

#[export] Instance drift_refl : Reflexive drift.
Proof. intros a. split; try done. intros _. split; [done|]. intros. lia. Qed.

#[export] Instance drift_trans : Transitive drift.
Proof.
  intros a b c [F1 D1 O1 G1 S1 C1] [F2 D2 O2 G2 S2 C2].
  split; [by etrans|congruence|congruence|lia| |auto].
  intros E. destruct S1 as [Hs1 H1]; [lia|]. destruct S2 as [Hs2 H2]; [lia|].
  split; [congruence|]. intros spec i Hsp. specialize (H1 spec i Hsp).
  rw -Hs1 in Hsp. specialize (H2 spec i Hsp). lia.
Qed.

Lemma drift_evolved a b : svc_evolved a b -> drift a b.
Proof.
  intros He. pose proof (se_identity _ _ He) as Hi.
  rw /svc_identity in Hi. injection Hi as E1 E2 E3 E4 E5 E6 E7 E8 E9 E10 E11 E12 E13 E14 E15.
  split; [split; congruence|done|done|lia| |].
  - intros _. split; [done|]. intros spec i Hsp. pose proof (se_grows _ _ He spec Hsp i).
    pose proof (se_bounded _ _ He spec i Hsp). lia.
  - destruct (se_column _ _ He) as [->|(_ & v & ->)]; done.
Qed.

(** Columns that concern neither replicas nor generations. *)
Definition harmless (c : svc_col Q) : Prop :=
  match c with
  | SSpec _ | SAdmitted _ | SDispatched _ | SGenerationInc | SObservedGeneration _
  | SDeletedAt None => False
  | _ => True
  end.

Lemma drift_col a (c : svc_col Q) : harmless c -> drift a (set_svc_col a c).
Proof.
  intros Hc. split; try by destruct c as [[]| | | | | | |[]| | | |].
  intros _. split; [by destruct c|]. intros spec i _.
  assert (admitted_of spec (set_svc_col a c) = admitted_of spec a) as ->; [|lia].
  rw /admitted_of /=. by destruct c.
Qed.

Lemma drift_touch now a : drift a (touch_service now a).
Proof. split; try done. intros _. split; [done|]. intros. rw /admitted_of /=. lia. Qed.

Lemma drift_Updates now cols a : Forall harmless cols -> drift a (svc_Updates now cols a).
Proof.
  rw /svc_Updates. intros H. etrans; [apply (drift_touch now)|].
  generalize (touch_service now a) as b. induction H as [|c cols Hc _ IH]; intros b; simpl; [done|].
  etrans; [by apply (drift_col b c)|]. apply IH.
Qed.

(** Tables: old rows drift, new ones may be appended. *)
Definition drifts (rows rows' : list (MLService Q)) : Prop := Forall2 drift rows rows'.

Lemma drifts_refl rows : drifts rows rows.
Proof. by apply Forall_Forall2_diag, Forall_true. Qed.

Lemma drifts_update p now cols db :
  Forall harmless cols ->
  drifts (db_services db) (db_services (set_services db
    (update_where p (svc_Updates now cols) (db_services db)))).
Proof. intros H. apply update_where_Forall2; [apply _|]. intros. by apply drift_Updates. Qed.

Ltac harm := repeat constructor.

Lemma delete_drifts now row db : drifts (db_services db) (db_services (SvcService.delete_row now row db)).
Proof.
  rw /SvcService.delete_row. destruct (ms_Phase row); try apply drifts_refl; apply drifts_update; harm.
Qed.

Lemma patch_drifts now input row db :
  drifts (db_services db) (db_services (SvcService.patch_row now input row db).1).
Proof.
  rw /SvcService.patch_row.
  assert (H : Forall harmless (SvcService.patch_columns (Q := Q) input)).
  { rw /SvcService.patch_columns. repeat (apply Forall_app; split); case_match; harm. }
  destruct (SvcService.patch_columns input) as [|col cols]; [apply drifts_refl|].
  destruct (SvcRepository.Get _ _); by apply drifts_update.
Qed.

Lemma gone_drifts now row db : drifts (db_services db) (db_services (SvcReflow.reflectGone now row db)).
Proof.
  rw /SvcReflow.reflectGone. destruct (ms_Phase row); try apply drifts_refl; apply drifts_update; harm.
Qed.

Lemma observed_drifts now row desired observed db :
  drifts (db_services db) (db_services (SvcReflow.reflectObserved now row desired observed db)).
Proof.
  rw /SvcReflow.reflectObserved. case_match; [apply drifts_refl|].
  destruct (MapService _ _ _ _) as [newPhase mapped]. apply drifts_update. harm.
Qed.

Lemma svc_Get_elem id db row :
  SvcRepository.Get id db = inl row -> row ∈ db_services db /\ ms_ID row = id.
Proof.
  rw /SvcRepository.Get. destruct (List.find _ _) eqn:H; [|done]. intros [= <-].
  apply find_elem in H as [? H]. by unbool.
Qed.

End Rows.

(** ** Scale *)

Section Scale.
Context {Q : Type}.
Implicit Types (row : MLService Q) (db : DB Q).

Lemma length_set_primary (spec : MLServiceSpec Q) n :
  length (ssp_Roles (SvcService.set_primary spec n)) = length (ssp_Roles spec).
Proof. rw /SvcService.set_primary /=. by destruct (ssp_Roles spec). Qed.

Lemma admitted_of_encode (spec : MLServiceSpec Q) row v :
  ms_AdmittedReplicas row = Encode v -> length v = length (ssp_Roles spec) -> nonneg v ->
  admitted_of spec row = v.
Proof. intros Ha Hl Hn. rw /admitted_of Ha -Hl. by apply Encode_Decode. Qed.

(** The row [Scale] leaves behind: new spec and generation, and of the
    admitted vector what the new desired vector still covers. *)
Lemma scale_row now n row cols :
  SvcService.scale_columns n row = inl cols ->
  let row' := svc_Updates now cols row in
  exists spec, unmarshal (ms_Spec row) = inl spec /\ ssp_Roles spec <> [] /\
    ms_Spec row' = JVal (SvcService.set_primary spec n) /\
    admitted_of (SvcService.set_primary spec n) row' =
      ClampToDesired (admitted_of spec row) (Desired (SvcService.set_primary spec n)) /\
    ms_AdmittedReplicas row' <> JEmpty /\
    ms_Generation row' = (ms_Generation row + 1)%Z /\
    ms_DispatchedReplicas row' = ms_DispatchedReplicas row /\
    ms_ObservedGeneration row' = ms_ObservedGeneration row /\
    ms_Phase row' = ms_Phase row /\ ms_DeletedAt row' = ms_DeletedAt row /\ svc_frozen row row'.
Proof.
  rw /SvcService.scale_columns. destruct (unmarshal (ms_Spec row)) as [spec|] eqn:Hsp; [|done].
  destruct (ssp_Roles spec) as [|r rest] eqn:Hroles; [done|]. intros [= <-].
  set (row' := svc_Updates _ _ row). exists spec. rw Hroles. split_and!; try done.
  assert (Hl : length (admitted_of spec row) = length (Desired (SvcService.set_primary spec n))).
  { by rw length_Decode length_Desired length_set_primary. }
  apply admitted_of_encode.
  - by rw /row' /= /admitted_of Hroles.
  - by rw length_ClampToDesired length_Desired.
  - apply nonneg_ClampToDesired; [done|apply nonneg_Decode|apply nonneg_Desired].
Qed.

Lemma scale_drift now n row cols :
  SvcService.scale_columns n row = inl cols -> drift row (svc_Updates now cols row).
Proof.
  intros Hc. destruct (scale_row now n row cols Hc)
    as (spec & Hsp & _ & Hs & Ha & Hne & Hg & Hd & Ho & Hp & _ & Hf).
  by split; [done|done|done|lia|lia|].
Qed.

Lemma Scale_drifts now namespace name n db :
  NoDup (map ms_ID (db_services db)) ->
  drifts (db_services db) (db_services (SvcService.Scale now namespace name n db).1).
Proof.
  intros Hnd. rw /SvcService.Scale.
  destruct (SvcRepository.GetByNamespaceName namespace name db) as [row|] eqn:Hg; [|apply drifts_refl].
  destruct (SvcService.scale_columns n row) as [cols|] eqn:Hc; [|apply drifts_refl].
  assert (H : drifts (db_services db) (db_services (SvcRepository.Update now (ms_ID row) cols db))).
  { apply update_where_Forall2; [apply _|]. intros x Hx Hp. rw /SvcRepository.has_id in Hp. unbool.
    rw /SvcRepository.GetByNamespaceName in Hg.
    destruct (List.find _ _) as [r|] eqn:Hfd; [|done]. injection Hg as ->.
    apply find_elem in Hfd as [Hr _].
    assert (x = row) as -> by by apply (unique_by ms_ID (db_services db)).
    by eapply scale_drift. }
  by destruct (SvcRepository.Get _ _).
Qed.
End Scale.
