(* ===== verification/MlserviceSync.v ===== *)
(** * MLService: dispatch bookkeeping

    The reconciler is one leader that loads a work set with three reads and then
    handles its rows one after the other, while API calls, admission and status
    reflow keep changing the table.  The step relation of this file has exactly
    this shape, and the invariants say what [observed_generation] means: one that
    always holds, and a stronger one for as long as no row is read into two
    parts of a work set. *)

From Stdlib Require Import ssreflect ZArith Lia Ascii String.
From stdpp Require Import base gmap list strings.
From S2P Require Import Prelude Placement ApiTypes Store StatusMap Names Runtime ServiceAdmission Admission AdmissionUsage AdmissionSafety AdmissionRuns Mlrun Mlservice MlserviceFacts.

Section Sync.
Context {Q : Type} `{!ComputeRuntime Q} (shortHash : bytes -> bytes) (tenantPrefix : bool).
Implicit Types (a b row s cur : MLService Q) (db : DB Q) (calls : list (call Q)) (w : world Q).

(** The runtime was asked to apply [cr] and reported no error. *)
Definition accepted calls (cr : MLServiceCR Q) : Prop :=
  exists pre post, calls = pre ++ CApplyMLService cr :: post /\ rt_ApplyMLService pre cr = None.

Lemma accepted_mono calls more cr : accepted calls cr -> accepted (calls ++ more) cr.
Proof.
  intros (pre & post & -> & H). exists pre, (post ++ more). split; [|done]. by rw -app_assoc.
Qed.

(** Everything desired is admitted and dispatched, and the runtime accepted a
    resource with the desired replicas. *)
Definition synced calls row : Prop :=
  exists spec cr, unmarshal (ms_Spec row) = inl spec /\
    admitted_of spec row = Desired spec /\
    Decode (ms_DispatchedReplicas row) (length (ssp_Roles spec)) (Zero spec) = Desired spec /\
    accepted calls cr /\ scr_Spec cr = Apply spec (Desired spec) /\
    om_Labels (scr_Meta cr) !! LabelServiceID = Some (ms_ID row).

(** The runtime has accepted a resource with the desired replicas. *)
Definition reached calls row : Prop :=
  exists spec cr, unmarshal (ms_Spec row) = inl spec /\ accepted calls cr /\ scr_Spec cr = Apply spec (Desired spec) /\
    om_Labels (scr_Meta cr) !! LabelServiceID = Some (ms_ID row).

Record reach_row calls row : Prop := {
  rr_bound : (ms_ObservedGeneration row <= ms_Generation row)%Z;
  rr_reached : ms_ObservedGeneration row = ms_Generation row -> reached calls row }.

Lemma reach_mono calls more row : reach_row calls row -> reach_row (calls ++ more) row.
Proof.
  intros [B R]. split; [done|]. intros E. destruct (R E) as (spec & cr & H1 & H2 & H3). exists spec, cr.
  split_and!; try done; [by apply accepted_mono|apply H3..].
Qed.

(** A later version of a row: the spec changes with the generation only. *)
Definition later a b : Prop :=
  svc_frozen a b /\ (ms_Generation a <= ms_Generation b)%Z /\ (ms_Generation b = ms_Generation a -> ms_Spec b = ms_Spec a).

#[export] Instance later_refl : Reflexive later.
Proof. by intros a. Qed.

#[export] Instance later_trans : Transitive later.
Proof.
  intros a b c (F1 & G1 & S1) (F2 & G2 & S2). split; [by etrans|]. split; [lia|]. intros E. rw S2; [lia|]. apply S1. lia.
Qed.

Lemma drift_later a b : drift a b -> later a b.
Proof. intros Hd. split; [apply Hd|]. split; [apply Hd|]. intros E. by apply (dr_same _ _ Hd). Qed.

Lemma drift_reach calls a b : drift a b -> reach_row calls a -> reach_row calls b.
Proof.
  intros Hd [B R]. pose proof (dr_generation _ _ Hd). pose proof (dr_observed _ _ Hd) as Ho. split; [lia|]. intros E.
  destruct R as (spec & cr & H1 & H2 & H3 & H4); [lia|]. destruct (drift_later _ _ Hd) as (_ & _ & Hs).
  exists spec, cr. rw Hs; [lia|]. by rw (frozen_id _ _ (dr_frozen _ _ Hd)).
Qed.

Record sync_inv calls row : Prop := {
  si_column : ms_AdmittedReplicas row <> JEmpty;
  si_bound : (ms_ObservedGeneration row <= ms_Generation row)%Z;
  si_synced : ms_ObservedGeneration row = ms_Generation row -> synced calls row }.

Lemma sync_reach calls row : sync_inv calls row -> reach_row calls row.
Proof. intros [_ B S]. split; [done|]. intros E. destruct (S E) as (spec & cr & H1 & _ & _ & H4 & H5 & H6). by exists spec, cr. Qed.

Lemma sync_mono calls more row : sync_inv calls row -> sync_inv (calls ++ more) row.
Proof.
  intros [C B S]. split; [done|done|]. intros E.
  destruct (S E) as (spec & cr & H1 & H2 & H3 & H4 & H5). exists spec, cr.
  split_and!; try done; [by apply accepted_mono|apply H5..].
Qed.

Lemma decode_fallback raw n fb fb' : raw <> JEmpty -> Decode raw n fb = Decode raw n fb'.
Proof. by destruct raw. Qed.

(** Between two versions of a generation, full admission stays full. *)
Lemma drift_full a b spec :
  drift a b -> ms_Generation b = ms_Generation a -> unmarshal (ms_Spec a) = inl spec ->
  admitted_of spec a = Desired spec -> admitted_of spec b = Desired spec.
Proof.
  intros Hd E Hsp Ha. destruct (dr_same _ _ Hd E) as [_ H].
  apply vget_ext; [by rw length_Decode length_Desired|]. intros i. specialize (H spec i Hsp).
  rw Ha in H. lia.
Qed.

Lemma drift_sync calls a b : drift a b -> sync_inv calls a -> sync_inv calls b.
Proof.
  intros Hd [C B S]. pose proof (dr_generation _ _ Hd). pose proof (dr_observed _ _ Hd) as Ho.
  split; [by apply (dr_column _ _ Hd)|lia|]. intros E.
  assert (Eg : ms_Generation b = ms_Generation a) by lia.
  destruct S as (spec & cr & H1 & H2 & H3 & H4 & H5 & H6); [lia|].
  destruct (dr_same _ _ Hd Eg) as [Hs _]. exists spec, cr. rw Hs (dr_dispatched _ _ Hd).
  split_and!; try done; [by eapply drift_full|]. by rw (frozen_id _ _ (dr_frozen _ _ Hd)).
Qed.

(** ** Rendering *)

Lemma copy_label_ne (m labels : gmap string string) k k' : k <> k' -> copy_label m labels k' !! k = labels !! k.
Proof.
  intros. rw /copy_label. destruct (m !! k') as [v|]; [|done].
  destruct (String.eqb v ""); [done|]. by rw lookup_insert_ne.
Qed.

(** The rendered resource asks for the admitted replicas and carries the row's
    id. *)
Lemma ServiceToCR_spec s spec cr :
  unmarshal (ms_Spec s) = inl spec -> ServiceToCR shortHash s tenantPrefix = inl cr ->
  scr_Spec cr = Apply spec (admitted_of spec s) /\
  om_Labels (scr_Meta cr) !! LabelServiceID = Some (ms_ID s).
Proof.
  intros Hsp. rw /ServiceToCR.
  assert (unmarshal_nonempty MLServiceSpec_zero (ms_Spec s) = inl spec) as ->.
  { by destruct (ms_Spec s). }
  intros [= <-]. split; [done|]. simpl.
  by rw !copy_label_ne.
Qed.

Lemma fullyAdmitted_spec s :
  SvcReconciler.fullyAdmitted s = true <->
  exists spec, unmarshal (ms_Spec s) = inl spec /\ admitted_of spec s = Desired spec.
Proof.
  rw /SvcReconciler.fullyAdmitted. destruct (unmarshal (ms_Spec s)) as [spec|]; [|naive_solver].
  rw Equal_spec. naive_solver.
Qed.

(** ** What handling the snapshot [s] does to a row *)

Record touched s calls a b : Prop := {
  to_frozen : svc_frozen a b;
  to_other : ms_ID a <> ms_ID s -> b = a;
  to_later : later a b;
  to_reach : ms_ID a = ms_ID s -> later s a -> reach_row calls a -> reach_row calls b;
  to_sync : ms_ID a = ms_ID s -> drift s a -> sync_inv calls s -> sync_inv calls a -> sync_inv calls b }.

Lemma touched_same s calls a : touched s calls a a.
Proof. by split. Qed.

Lemma touched_refl s calls rows : Forall2 (touched s calls) rows rows.
Proof. apply Forall_Forall2_diag, Forall_forall. intros; apply touched_same. Qed.

(** Columns that concern neither replicas nor generations. *)
Lemma touched_update s calls now cols db :
  Forall harmless cols ->
  Forall2 (touched s calls) (db_services db)
    (db_services (SvcRepository.Update now (ms_ID s) cols db)).
Proof.
  intros H. apply Forall2_map_r. intros a _.
  destruct (SvcRepository.has_id (ms_ID s) a) eqn:Hp; [|apply touched_same].
  rw /SvcRepository.has_id in Hp. unbool.
  pose proof (drift_Updates now cols a H) as Hd.
  split; [apply (dr_frozen _ _ Hd)|done|by apply drift_later|by intros _ _; apply drift_reach|].
  intros _ _ _. by apply drift_sync.
Qed.

(** *** markDispatched *)

(** The row [markDispatched] makes of the current one. *)
Definition marked (now : Z) s (initial : bool) cur : MLService Q :=
  let cur1 := svc_Updates now ([SDispatched (ms_AdmittedReplicas s)] ++
                               (if initial then [SPhase SvcPending] else [])) cur in
  if SvcReconciler.fullyAdmitted s && (ms_Generation cur =? ms_Generation s)%Z
  then svc_Updates now [SObservedGeneration (ms_Generation s)] cur1 else cur1.

Lemma marked_fields now s initial cur :
  let b := marked now s initial cur in
  svc_frozen cur b /\ ms_Spec b = ms_Spec cur /\ ms_Generation b = ms_Generation cur /\
  ms_AdmittedReplicas b = ms_AdmittedReplicas cur /\
  ms_DispatchedReplicas b = ms_AdmittedReplicas s /\
  ms_Phase b = (if initial then SvcPending else ms_Phase cur) /\
  ms_ObservedGeneration b =
    (if SvcReconciler.fullyAdmitted s && (ms_Generation cur =? ms_Generation s)%Z
     then ms_Generation s else ms_ObservedGeneration cur).
Proof. rw /marked. destruct initial, (_ && _); simpl; done. Qed.

Lemma marked_sync calls now s initial cur cr :
  ServiceToCR shortHash s tenantPrefix = inl cr -> accepted calls cr ->
  ms_ID cur = ms_ID s -> drift s cur -> sync_inv calls s -> sync_inv calls cur ->
  sync_inv calls (marked now s initial cur).
Proof.
  intros Hcr Hacc Hid Hd [Cs Bs Ss] [C B S].
  destruct (marked_fields now s initial cur) as (Hf & Hspec & Hg & Ha & Hdis & _ & Ho).
  pose proof (dr_generation _ _ Hd). pose proof (dr_observed _ _ Hd).
  assert (Hfull : ms_ObservedGeneration cur = ms_Generation cur -> SvcReconciler.fullyAdmitted s = true).
  { intros E. destruct Ss as (spec & _ & ? & ? & _); [lia|]. apply fullyAdmitted_spec. eauto. }
  split; [congruence| |].
  { rw Ho Hg. destruct (_ && _) eqn:Hc; [|done]. unbool. lia. }
  rw Ho Hg => E.
  assert (Hc : SvcReconciler.fullyAdmitted s = true /\ ms_Generation cur = ms_Generation s).
  { destruct (_ && _) eqn:Hc; [by unbool|]. split; [by apply Hfull|lia]. }
  destruct Hc as [Hfa Eg]. apply fullyAdmitted_spec in Hfa as (spec & Hsp & Hadm).
  destruct (dr_same _ _ Hd Eg) as [Hs _].
  destruct (ServiceToCR_spec s spec cr Hsp Hcr) as [Hcs Hlab].
  exists spec, cr. rw Hspec Hs Hdis. split_and!; try done.
  - rw /admitted_of Ha. by eapply drift_full.
  - rw -Hadm. by apply decode_fallback.
  - by rw Hcs Hadm.
  - by rw (frozen_id _ _ Hf) Hid.
Qed.

Lemma marked_later now s initial cur : later cur (marked now s initial cur).
Proof. destruct (marked_fields now s initial cur) as (Hf & Hs & Hg & _). split; [done|]. split; [lia|done]. Qed.

Lemma marked_reach calls now s initial cur cr :
  ServiceToCR shortHash s tenantPrefix = inl cr -> accepted calls cr ->
  ms_ID cur = ms_ID s -> later s cur -> reach_row calls cur -> reach_row calls (marked now s initial cur).
Proof.
  intros Hcr Hacc Hid (_ & Hgen & Hsame) [B R]. destruct (marked_fields now s initial cur) as (Hf & Hspec & Hg & _ & _ & _ & Ho).
  destruct (_ && _) eqn:Hc.
  - apply andb_true_iff in Hc as [Hfa Eg%Z.eqb_eq]. split; [lia|]. intros _.
    apply fullyAdmitted_spec in Hfa as (spec & Hsp & Hadm). destruct (ServiceToCR_spec s spec cr Hsp Hcr) as [Hcs Hlab].
    exists spec, cr. rw Hspec Hsame //. split_and!; try done; [by rw Hcs Hadm|]. by rw (frozen_id _ _ Hf) Hid.
  - split; [lia|]. rw Ho Hg => E. destruct (R E) as (spec & cr' & H1 & H2 & H3 & H4). exists spec, cr'.
    by rw Hspec (frozen_id _ _ Hf).
Qed.

Lemma mark_first_fields now s (initial : bool) cur :
  let cur1 := svc_Updates now ([SDispatched (ms_AdmittedReplicas s)] ++
                               (if initial then [SPhase SvcPending] else [])) cur in
  ms_ID cur1 = ms_ID cur /\ ms_Generation cur1 = ms_Generation cur.
Proof. by destruct initial. Qed.

(** When the guarded update hits a row, it is the row of the snapshot. *)
Lemma mark_rows now s initial db x :
  NoDup (map ms_ID (db_services db)) -> x ∈ db_services db ->
  SvcReconciler.may_mark initial s x = true ->
  db_services (SvcReconciler.markDispatched now s initial db) =
  map (fun a => if String.eqb (ms_ID a) (ms_ID s) then marked now s initial a else a)
    (db_services db).
Proof.
  intros Hnd Hx Hmx. rw /SvcReconciler.markDispatched /rows_affected.
  assert (Hidx : ms_ID x = ms_ID s).
  { rw /SvcReconciler.may_mark /SvcRepository.has_id in Hmx. by unbool. }
  destruct (List.filter _ _) as [|y rest] eqn:Hfl.
  { assert (Hin : In x (List.filter (SvcReconciler.may_mark initial s) (db_services db))).
    { apply filter_In. split; [by apply list_elem_of_In|done]. }
    by rw Hfl in Hin. }
  assert (Hmay : forall a, a ∈ db_services db ->
    SvcReconciler.may_mark initial s a = String.eqb (ms_ID a) (ms_ID s)).
  { intros a Ha. destruct (String.eqb_spec (ms_ID a) (ms_ID s)) as [E|E].
    - assert (a = x) as -> by (apply (unique_by ms_ID (db_services db)); [done..|congruence]). done.
    - apply String.eqb_neq in E. by rw /SvcReconciler.may_mark /SvcRepository.has_id E. }
  rw /marked. destruct (SvcReconciler.fullyAdmitted s);
    cbn [length Nat.eqb andb db_services set_services]; rw /update_where ?map_map;
    apply map_ext_in; intros a Ha%list_elem_of_In; rw Hmay //.
  rw /SvcReconciler.at_generation /SvcRepository.has_id.
  destruct (String.eqb_spec (ms_ID a) (ms_ID s)) as [E|E]; [|by apply String.eqb_neq in E; rw E].
  destruct (mark_first_fields now s initial a) as [-> ->]. by rw E String.eqb_refl.
Qed.

Lemma mark_touched calls now s initial db cr :
  NoDup (map ms_ID (db_services db)) ->
  ServiceToCR shortHash s tenantPrefix = inl cr -> accepted calls cr ->
  Forall2 (touched s calls) (db_services db)
    (db_services (SvcReconciler.markDispatched now s initial db)).
Proof.
  intros Hnd Hcr Hacc.
  destruct (List.filter (SvcReconciler.may_mark initial s) (db_services db)) as [|x rest] eqn:Hfl.
  { rw /SvcReconciler.markDispatched /rows_affected Hfl /=. apply touched_refl. }
  assert (Hx : In x (x :: rest)) by by left. rw -Hfl filter_In -list_elem_of_In in Hx.
  destruct Hx as [Hx Hmx]. rw (mark_rows now s initial db x) //.
  apply Forall2_map_r. intros a _.
  destruct (String.eqb_spec (ms_ID a) (ms_ID s)) as [E|E]; [|apply touched_same].
  split; [by destruct (marked_fields now s initial a)|done|apply marked_later|intros; by eapply marked_reach|intros; by eapply marked_sync].
Qed.

(** *** rollbackAdmission *)

Lemma allZero_vget v : SvcReconciler.allZero v = true -> forall i, vget v i = 0%Z.
Proof.
  rw /SvcReconciler.allZero forallb_forall => H i. rw /vget.
  destruct (v !! i) as [z|] eqn:Hz; [|done]. simpl.
  apply list_elem_of_lookup_2, list_elem_of_In, H in Hz. by unbool.
Qed.

(** The rollback gives back exactly what was not dispatched, and requeues the
    service when nothing was. *)
Lemma rollback_row now s cur message cols :
  SvcReconciler.rollback_columns s cur message = Some cols ->
  let b := svc_Updates now cols cur in
  exists spec, unmarshal (ms_Spec cur) = inl spec /\
    let dispatched := Decode (ms_DispatchedReplicas cur) (length (ssp_Roles spec)) (Zero spec) in
    admitted_of spec cur = admitted_of spec s /\
    ms_DeletedAt cur = None /\ ms_Phase cur ∉ [SvcDeleting; SvcDeleted] /\
    svc_frozen cur b /\ ms_Spec b = ms_Spec cur /\ ms_Generation b = ms_Generation cur /\
    ms_ObservedGeneration b = ms_ObservedGeneration cur /\
    ms_DispatchedReplicas b = ms_DispatchedReplicas cur /\
    ms_AdmittedReplicas b = Encode dispatched /\ admitted_of spec b = dispatched /\
    ms_Phase b = if SvcReconciler.allZero dispatched then SvcQueued else ms_Phase cur.
Proof.
  rw /SvcReconciler.rollback_columns. destruct (_ || _) eqn:Hl; [done|].
  apply orb_false_iff in Hl as [Hl1 Hl2]. apply negb_false_iff in Hl2.
  destruct (unmarshal (ms_Spec cur)) as [spec|]; [|done].
  destruct (Equal _ _) eqn:He; simpl; [|done]. apply Equal_spec in He. intros [= <-].
  exists spec. set (dispatched := Decode (ms_DispatchedReplicas cur) _ _).
  assert (Hadm : forall b, ms_AdmittedReplicas b = Encode dispatched -> admitted_of spec b = dispatched).
  { intros b Hb. apply admitted_of_encode; [done|apply length_Decode|apply nonneg_Decode]. }
  assert (ms_DeletedAt cur = None) as Hd by by destruct (ms_DeletedAt cur).
  assert (ms_Phase cur ∉ [SvcDeleting; SvcDeleted]) as Hp.
  { rw /SvcRepository.phase_in in Hl1. by apply bool_decide_eq_false in Hl1. }
  destruct (SvcReconciler.allZero dispatched); split_and!; try done; by apply Hadm.
Qed.

Lemma rollback_touched calls now s message db :
  NoDup (map ms_ID (db_services db)) ->
  Forall2 (touched s calls) (db_services db)
    (db_services (SvcReconciler.rollbackAdmission now s message db)).
Proof.
  intros Hnd. rw /SvcReconciler.rollbackAdmission.
  destruct (SvcRepository.Get (ms_ID s) db) as [cur|] eqn:Hg; [|apply touched_refl].
  apply svc_Get_elem in Hg as [Hin Hid].
  destruct (SvcReconciler.rollback_columns s cur message) as [cols|] eqn:Hc; [|apply touched_refl].
  destruct (rollback_row now s cur message cols Hc)
    as (spec & Hsp & _ & _ & _ & Hf & Hs & Hgen & Ho & Hdis & Ha & Hadm & Hph).
  apply Forall2_map_r. intros a Hain. rw /SvcRepository.has_id.
  destruct (String.eqb_spec (ms_ID a) (ms_ID cur)) as [E|E]; [|apply touched_same].
  assert (a = cur) as -> by by apply (unique_by ms_ID (db_services db)).
  assert (later cur (svc_Updates now cols cur)) as Hlater by (split; [done|split; [lia|done]]).
  split; [done|congruence|done| |].
  - intros _ _ [B R]. split; [lia|]. rw Ho Hgen => Eg. destruct (R Eg) as (spec' & cr & H1 & H2). exists spec', cr.
    by rw Hs (frozen_id _ _ Hf).
  - intros _ _ _ [C B S]. split; [by rw Ha|lia|]. rw Ho Hgen => Eg.
    destruct (S Eg) as (spec' & cr & H1 & H2 & H3 & H4 & H5 & H6).
    assert (spec' = spec) as -> by congruence. exists spec, cr. rw Hs Hdis (frozen_id _ _ Hf) Hadm.
    done.
Qed.

(** ** Handlers *)

Lemma apply_accepted calls cr :
  rt_ApplyMLService calls cr = None -> accepted (calls ++ [CApplyMLService cr]) cr.
Proof. intros H. by exists calls, []. Qed.

(** What handling one snapshot does: the calls grow, and rows are touched. *)
Definition handled s w w' : Prop :=
  (exists more, w_calls w' = w_calls w ++ more) /\
  Forall2 (touched s (w_calls w')) (db_services (w_db w)) (db_services (w_db w')).

Lemma handleCreate_handled now w s :
  NoDup (map ms_ID (db_services (w_db w))) ->
  handled s w (SvcReconciler.handleCreate shortHash tenantPrefix now w s).
Proof.
  intros Hnd. rw /SvcReconciler.handleCreate.
  destruct (ServiceToCR _ _ _) as [cr|] eqn:Hcr.
  2: { split; [exists []; by rw app_nil_r|apply touched_refl]. }
  destruct (rt_ApplyMLService _ _) as [err|] eqn:Ha.
  - destruct (IsResourceUnavailable err); (split; [by eexists|]).
    + by apply rollback_touched.
    + apply touched_update. repeat constructor.
  - split; [by eexists|]. eapply mark_touched; [done..|]. by apply apply_accepted.
Qed.

Lemma handleAdmissionSync_handled now w s :
  NoDup (map ms_ID (db_services (w_db w))) ->
  handled s w (SvcReconciler.handleAdmissionSync shortHash tenantPrefix now w s).
Proof.
  intros Hnd. rw /SvcReconciler.handleAdmissionSync.
  destruct (ServiceToCR _ _ _) as [cr|] eqn:Hcr.
  2: { split; [exists []; by rw app_nil_r|apply touched_refl]. }
  destruct (rt_ApplyMLService _ _) as [err|] eqn:Ha.
  - destruct (IsResourceUnavailable err); (split; [by eexists|]);
      [by apply rollback_touched|apply touched_refl].
  - split; [by eexists|]. eapply mark_touched; [done..|]. by apply apply_accepted.
Qed.

Lemma handleDelete_handled now w s : handled s w (SvcReconciler.handleDelete now w s).
Proof.
  rw /SvcReconciler.handleDelete. destruct (rt_DeleteMLService _ _).
  { split; [by eexists|apply touched_refl]. }
  destruct (rt_ObserveMLService _ _) as [|e].
  { split; [eexists; by rw /= -app_assoc|apply touched_refl]. }
  destruct (IsAPINotFound e); (split; [eexists; by rw /= -app_assoc|]); [|apply touched_refl].
  apply touched_update. repeat constructor.
Qed.
End Sync.

(** ** Interleavings *)

(** The reconciler's pending work. *)
Inductive job {Q : Type} :=
| JCreate (s : MLService Q)
| JDelete (s : MLService Q)
| JSync (s : MLService Q).
Arguments job : clear implicits.

Definition job_row {Q} (j : job Q) : MLService Q :=
  match j with JCreate s | JDelete s | JSync s => s end.

(** The order in which [runOnce] handles a work set. *)
Definition jobs_of {Q} (ws : SvcRepository.WorkSet) : list (job Q) :=
  map JCreate (SvcRepository.ws_Creating ws) ++ map JDelete (SvcRepository.ws_Deleting ws) ++
  map JSync (SvcRepository.ws_DispatchDirty ws).

(** What the leader is doing: it has the answer of one of the three reads of a
    work set, or of two, or handles what they gave; with nothing left to handle
    it waits for the next tick. *)
Inductive leader {Q : Type} :=
| ReadCreating (jobs : list (job Q))
| ReadDeleting (jobs : list (job Q))
| Handling (jobs : list (job Q)).
Arguments leader : clear implicits.

Definition jobs {Q} (l : leader Q) : list (job Q) :=
  match l with ReadCreating js | ReadDeleting js | Handling js => js end.

Section Steps.
Context {Q : Type} `{!Quantity Q} `{!ResourceResolver Q} `{!ComputeRuntime Q}
  (shortHash : bytes -> bytes) (tenantPrefix : bool).
Implicit Types (a b row s cur : MLService Q) (db : DB Q) (w : world Q) (rest : list (job Q)) (l : leader Q).

Definition run_job (now : Z) w (j : job Q) : world Q :=
  match j with
  | JCreate s => SvcReconciler.handleCreate shortHash tenantPrefix now w s
  | JDelete s => SvcReconciler.handleDelete now w s
  | JSync s => SvcReconciler.handleAdmissionSync shortHash tenantPrefix now w s
  end.

(** Handling the whole work set at once is the reconciler's tick. *)
Lemma runOnce_jobs now db1 db2 w :
  SvcReconciler.runOnce shortHash tenantPrefix now db1 db2 w =
  foldl (run_job now) w (jobs_of (SvcRepository.FindWorkSet db1 db2 (w_db w))).
Proof.
  rw /SvcReconciler.runOnce /jobs_of !foldl_app. by rw !foldl_map.
Qed.

Definition services_of w : list (MLService Q) := db_services (w_db w).
Abbreviation ids rows := (map ms_ID rows).

(** One action of one actor.  Rows that a handler read earlier ([Patch],
    [Delete], the informer, the poller, the jobs of the reconciler) may be outdated when it
    writes; [Scale] and admission lock what they read.  The leader reads the
    three parts of its work set at different moments, and gives up when a read
    fails.  With [disjoint] the work sets that it comes to handle have no row in
    two parts. *)
Inductive svc_step (disjoint : bool) : world Q * leader Q -> world Q * leader Q -> Prop :=
| ss_Create now id owner namespace input w l :
    svc_step disjoint (w, l) (with_db w (SvcService.Create now id owner namespace input (w_db w)).1, l)
| ss_Scale now namespace name n w l :
    svc_step disjoint (w, l) (with_db w (SvcService.Scale now namespace name n (w_db w)).1, l)
| ss_Patch now input row w l :
    svc_step disjoint (w, l) (with_db w (SvcService.patch_row now input row (w_db w)).1, l)
| ss_Delete now row w l :
    svc_step disjoint (w, l) (with_db w (SvcService.delete_row now row (w_db w)), l)
| ss_onChange now row desired observed w l :
    svc_step disjoint (w, l) (with_db w (SvcReflow.reflectObserved now row desired observed (w_db w)), l)
| ss_onDelete now row w l :
    svc_step disjoint (w, l) (with_db w (SvcReflow.reflectGone now row (w_db w)), l)
| ss_poll now row w l :
    svc_step disjoint (w, l) (SvcPoller.poll_row now w row, l)
| ss_admit now inventory quotas pools db0 w l :
    svc_step disjoint (w, l) (with_db w (runOnce now inventory quotas pools db0 (w_db w)), l)
| ss_other w w' more l :
    db_services (w_db w') = db_services (w_db w) -> w_calls w' = w_calls w ++ more ->
    svc_step disjoint (w, l) (w', l)
| ss_creating w :
    svc_step disjoint (w, Handling []) (w, ReadCreating (map JCreate (SvcRepository.FindCreating (w_db w))))
| ss_deleting w js :
    svc_step disjoint (w, ReadCreating js) (w, ReadDeleting (js ++ map JDelete (SvcRepository.FindDeleting (w_db w))))
| ss_dirty w js :
    let js' := js ++ map JSync (SvcRepository.FindDispatchDirty (w_db w)) in
    (disjoint = true -> NoDup (ids (map job_row js'))) ->
    svc_step disjoint (w, ReadDeleting js) (w, Handling js')
| ss_gave_up w l : svc_step disjoint (w, l) (w, Handling [])
| ss_job now j w rest : svc_step disjoint (w, Handling (j :: rest)) (run_job now w j, Handling rest).

(** An informer event that nothing interrupts is a step, or none when the row is
    not found. *)
Lemma informer_steps disjoint now cr status w l :
  rtc (svc_step disjoint) (w, l) (with_db w (SvcInformer.onChange now cr status (w_db w)), l) /\
  rtc (svc_step disjoint) (w, l) (with_db w (SvcInformer.onDelete now cr (w_db w)), l).
Proof.
  assert (with_db w (w_db w) = w) as Hw by by destruct w.
  rw /SvcInformer.onChange /SvcInformer.onDelete. destruct (_ !! _) as [id|]; [|by rw Hw].
  destruct (SvcRepository.Get id (w_db w)) as [row|]; [|by rw Hw]. split; apply rtc_once; constructor.
Qed.

(** The three reads together are the work set. *)
Lemma reads_work_set db1 db2 db3 :
  (map JCreate (SvcRepository.FindCreating db1) ++ map JDelete (SvcRepository.FindDeleting db2)) ++
  map JSync (SvcRepository.FindDispatchDirty db3) = jobs_of (SvcRepository.FindWorkSet db1 db2 db3).
Proof. by rw /jobs_of -app_assoc. Qed.

(** What the leader goes on with after a read or after giving up: jobs it had,
    and rows that are in the table. *)
Definition reads (w : world Q) l l' : Prop :=
  forall j, j ∈ jobs l' -> j ∈ jobs l \/ job_row j ∈ services_of w.

(** Handling starts without duplicates. *)
Definition distinct l : Prop := match l with Handling js => NoDup (ids (map job_row js)) | _ => True end.

(** Four shapes of steps: rows drift, a row is added, the leader reads, a job is
    handled. *)
Inductive svc_shape (disjoint : bool) : world Q * leader Q -> world Q * leader Q -> Prop :=
| sh_drift w w' more l :
    w_calls w' = w_calls w ++ more -> drifts (services_of w) (services_of w') ->
    svc_shape disjoint (w, l) (w', l)
| sh_insert w w' l s :
    w_calls w' = w_calls w -> services_of w' = services_of w ++ [s] ->
    ms_ID s ∉ ids (services_of w) -> sync_inv (w_calls w') s ->
    svc_shape disjoint (w, l) (w', l)
| sh_read w l l' : reads w l l' -> (disjoint = true -> distinct l') -> svc_shape disjoint (w, l) (w, l')
| sh_job w w' j rest : handled (job_row j) w w' -> svc_shape disjoint (w, Handling (j :: rest)) (w', Handling rest).

Lemma svc_Create_inv now id owner namespace input db :
  let db' := (SvcService.Create now id owner namespace input db).1 in
  db_services db' = db_services db \/
  exists s spec, db_services db' = db_services db ++ [s] /\ ms_ID s = id /\
    id ∉ ids (db_services db) /\ ms_Spec s = JVal spec /\
    ms_AdmittedReplicas s = Encode (Zero spec) /\ ms_Generation s = 1%Z /\
    ms_ObservedGeneration s = 0%Z.
Proof.
  rw /SvcService.Create. destruct (negb _); [by left|]. destruct (negb (SvcService.valid_kind _)); [by left|].
  destruct (SvcRepository.GetByNamespaceName _ _ db) as [|e]; [by left|].
  destruct (negb (IsNotFound e)); [by left|].
  destruct (ResolveResourcePool _) as [pool|]; [|by left].
  destruct (ResolveResourceUnit _ _) as [unit|]; [|by left].
  set (s := SvcService.new_row _ _ _ _ _ _ _).
  rw /SvcRepository.Create. destruct (existsb _ (db_services db)) eqn:Hid; [by left|].
  destruct (_ && _); [by left|]. right. eexists s, _. simpl in *. split_and!; try done.
  intros (r & Hr & Hin)%list_elem_of_fmap. apply not_true_iff_false in Hid. apply Hid.
  apply existsb_exists. exists r. split; [by apply list_elem_of_In|]. by apply String.eqb_eq.
Qed.

Lemma svc_phase_is p s : SvcRepository.phase_in [p] s = true <-> ms_Phase s = p.
Proof. rw /SvcRepository.phase_in bool_decide_eq_true. apply list_elem_of_singleton. Qed.

Lemma svc_elem_of_batch p db s : s ∈ SvcRepository.batch p db -> s ∈ db_services db /\ p s = true.
Proof.
  rw /SvcRepository.batch => H. apply list_elem_of_lookup in H as (i & H).
  apply lookup_take_Some in H as [H _]. apply list_elem_of_lookup_2 in H.
  rw elem_of_sort_slice list_elem_of_In filter_In -list_elem_of_In in H. done.
Qed.

Lemma read_rows (f : MLService Q -> job Q) p db j :
  (forall s, job_row (f s) = s) -> j ∈ map f (SvcRepository.batch p db) -> job_row j ∈ db_services db.
Proof. intros Hf (s & -> & Hs)%list_elem_of_fmap. rw Hf. by apply svc_elem_of_batch in Hs as [? _]. Qed.

Lemma svc_step_shape disjoint x y :
  NoDup (ids (services_of x.1)) -> svc_step disjoint x y -> svc_shape disjoint x y.
Proof.
  intros Hnd Hs. destruct Hs; simpl in Hnd.
  1: { destruct (svc_Create_inv now id owner namespace input (w_db w))
         as [E|(s & spec & E & <- & Hid & Hsp & Ha & Hg & Ho)].
       - apply (sh_drift _ _ _ []); [by rw app_nil_r|]. rw /services_of /= E. apply drifts_refl.
       - eapply sh_insert; [done|done|done|].
         + split; [by rw Ha|lia|lia]. }
  1-5: apply (sh_drift _ _ _ []); [by rw app_nil_r|].
  - by apply Scale_drifts.
  - apply patch_drifts.
  - apply delete_drifts.
  - apply observed_drifts.
  - apply gone_drifts.
  - apply (sh_drift _ _ _ [CObserveMLService (ms_Namespace row, ms_Name row)]).
    + rw /SvcPoller.poll_row. repeat case_match; done.
    + rw /SvcPoller.poll_row. destruct (rt_ObserveMLService _ _) as [observed|e].
      * apply observed_drifts.
      * destruct (IsAPINotFound e); [apply gone_drifts|apply drifts_refl].
  - apply (sh_drift _ _ _ []); [by rw app_nil_r|]. eapply Forall2_impl; [by apply runOnce_evolves|].
    apply drift_evolved.
  - eapply sh_drift; [done|]. rw /services_of H. apply drifts_refl.
  - apply sh_read; [|done]. intros j Hj. right. by refine (read_rows JCreate _ _ j _ Hj).
  - apply sh_read; [|done]. intros j [Hj|Hj]%elem_of_app; [by left|right]. by refine (read_rows JDelete _ _ j _ Hj).
  - apply sh_read; [|done]. intros j [Hj|Hj]%elem_of_app; [by left|right]. by refine (read_rows JSync _ _ j _ Hj).
  - apply sh_read; [by intros j Hj%elem_of_nil|intros _; constructor].
  - constructor. destruct j; simpl; [by apply handleCreate_handled|apply handleDelete_handled|
      by apply handleAdmissionSync_handled].
Qed.
(** A job's row is still in the table, and the table row is a later version of
    it. *)
Record job_ok w s : Prop := {
  jo_in : ms_ID s ∈ ids (services_of w);
  jo_sync : sync_inv (w_calls w) s;
  jo_drift cur : cur ∈ services_of w -> ms_ID cur = ms_ID s -> drift s cur }.

Record sys_inv (x : world Q * leader Q) : Prop := {
  in_ids : NoDup (ids (services_of x.1));
  in_sync row : row ∈ services_of x.1 -> sync_inv (w_calls x.1) row;
  in_distinct : distinct x.2;
  in_work s : s ∈ map job_row (jobs x.2) -> job_ok x.1 s }.

Lemma Forall2_ids (R : MLService Q -> MLService Q -> Prop) rows rows' :
  (forall a b, R a b -> ms_ID b = ms_ID a) -> Forall2 R rows rows' -> ids rows' = ids rows.
Proof. intros HR. induction 1; simpl; [done|]. f_equal; [by apply HR|done]. Qed.

Lemma drifts_ids (rows rows' : list (MLService Q)) : drifts rows rows' -> ids rows' = ids rows.
Proof. apply Forall2_ids. intros a b H. by apply frozen_id, dr_frozen. Qed.

Lemma drift_inv w w' more l :
  w_calls w' = w_calls w ++ more -> drifts (services_of w) (services_of w') ->
  sys_inv (w, l) -> sys_inv (w', l).
Proof.
  intros Hc Hd [N S WN WO]. pose proof (drifts_ids _ _ Hd) as Hid. simpl in *.
  assert (Hback : forall b, b ∈ services_of w' -> exists a, a ∈ services_of w /\ drift a b).
  { intros b. by apply Forall2_back. }
  split; simpl; rw ?Hid ?Hc; [done| |done|].
  - intros b Hb. destruct (Hback b Hb) as (a & Ha & Hab). apply sync_mono. eapply drift_sync; [exact Hab|auto].
  - intros s Hs. destruct (WO s Hs) as [I Y D].
    split; [by rw Hid|rw Hc; by apply sync_mono|].
    intros b Hb E. destruct (Hback b Hb) as (a & Ha & Hab). etrans; [|exact Hab].
    apply D; [done|]. rw -E. symmetry. by apply frozen_id, dr_frozen.
Qed.

Lemma insert_inv w w' l s :
  w_calls w' = w_calls w -> services_of w' = services_of w ++ [s] ->
  ms_ID s ∉ ids (services_of w) -> sync_inv (w_calls w') s ->
  sys_inv (w, l) -> sys_inv (w', l).
Proof.
  intros Hc Hr Hid Hs [N S WN WO]. simpl in *. split; simpl; rw ?Hr; [| |done|].
  - rw map_app. apply NoDup_app. split_and!; [done| |apply NoDup_singleton].
    intros x Hx ->%list_elem_of_singleton. done.
  - intros r [Hin|Hin]%elem_of_app; [rw Hc; auto|]. by apply list_elem_of_singleton in Hin as ->.
  - intros t Ht. destruct (WO t Ht) as [I Y D]. split; [|by rw Hc|].
    + rw Hr map_app. apply elem_of_app. by left.
    + rw Hr. intros cur [Hin|Hin]%elem_of_app E; [auto|].
      apply list_elem_of_singleton in Hin as ->. congruence.
Qed.

Lemma handled_inv w w' j rest :
  handled (job_row j) w w' -> sys_inv (w, Handling (j :: rest)) -> sys_inv (w', Handling rest).
Proof.
  intros [[more Hc] HF] [N S WN WO]. simpl in *. apply NoDup_cons in WN as [Hj WN].
  set (s := job_row j) in *. destruct (WO s) as [I Y D]; [by left|].
  assert (Hid : ids (services_of w') = ids (services_of w)).
  { eapply Forall2_ids; [|exact HF]. intros a b H. by apply frozen_id, (to_frozen _ _ _ _ H). }
  assert (Hback : forall b, b ∈ services_of w' ->
    exists a, a ∈ services_of w /\ touched s (w_calls w') a b).
  { intros b. by apply Forall2_back. }
  split; simpl; rw ?Hid; [done| |done|].
  - intros b Hb. destruct (Hback b Hb) as (a & Ha & Hab).
    destruct (decide (ms_ID a = ms_ID s)) as [E|E].
    + apply (to_sync _ _ _ _ Hab); [done|by apply D|rw Hc; by apply sync_mono|].
      rw Hc. apply sync_mono. auto.
    + rw (to_other _ _ _ _ Hab E) Hc. apply sync_mono. auto.
  - intros t Ht. destruct (WO t) as [I' Y' D']; [by right|].
    split; [by rw Hid|rw Hc; by apply sync_mono|].
    intros b Hb E. destruct (Hback b Hb) as (a & Ha & Hab).
    assert (Hne : ms_ID a <> ms_ID s).
    { intros Ea. apply Hj. rw -Ea -(frozen_id _ _ (to_frozen _ _ _ _ Hab)) E.
      by apply list_elem_of_fmap_2. }
    rw (to_other _ _ _ _ Hab Hne). apply D'; [done|].
    by rw -E (frozen_id _ _ (to_frozen _ _ _ _ Hab)).
Qed.

Lemma read_inv w l l' : reads w l l' -> distinct l' -> sys_inv (w, l) -> sys_inv (w, l').
Proof.
  intros Hr Hd [N S _ WO]. split; simpl; [done..|]. intros s (j & -> & Hj)%list_elem_of_fmap.
  destruct (Hr j Hj) as [Hj'|Hin]; [apply WO; by apply list_elem_of_fmap_2|].
  split; [by apply list_elem_of_fmap_2|by apply S|]. intros cur Hc E. by rw (unique_by ms_ID _ _ _ N Hc Hin E).
Qed.

Lemma sys_reach x y : rtc (svc_step true) x y -> sys_inv x -> sys_inv y.
Proof.
  induction 1 as [|x y z Hstep _ IH]; [done|]. intros Hinv. apply IH.
  pose proof (svc_step_shape _ _ _ (in_ids _ Hinv) Hstep) as Hsh. clear Hstep.
  destruct Hsh; [by eapply drift_inv|by eapply insert_inv|eapply read_inv; by eauto|by eapply handled_inv].
Qed.

(** *** What holds whatever is read *)

(** Every row has reached what its observed generation says, and the row of a
    job is still in the table in this or a later version. *)
Record row_inv (x : world Q * leader Q) : Prop := {
  rn_ids : NoDup (ids (services_of x.1));
  rn_reach row : row ∈ services_of x.1 -> reach_row (w_calls x.1) row;
  rn_in s : s ∈ map job_row (jobs x.2) -> ms_ID s ∈ ids (services_of x.1);
  rn_later s cur : s ∈ map job_row (jobs x.2) -> cur ∈ services_of x.1 -> ms_ID cur = ms_ID s -> later s cur }.

Lemma Forall2_impl_in (P R : MLService Q -> MLService Q -> Prop) rows rows' :
  Forall2 P rows rows' -> (forall a b, a ∈ rows -> P a b -> R a b) -> Forall2 R rows rows'.
Proof.
  induction 1 as [|a b rows rows' Hab _ IH]; intros HR; constructor; [apply HR; [left|done]|].
  apply IH. intros c d Hc. apply HR. by right.
Qed.

(** Rows that became later versions, and jobs that were there before. *)
Lemma row_inv_later w w' more l l' :
  w_calls w' = w_calls w ++ more -> jobs l' ⊆ jobs l ->
  Forall2 (fun a b => later a b /\ (reach_row (w_calls w') a -> reach_row (w_calls w') b)) (services_of w) (services_of w') ->
  row_inv (w, l) -> row_inv (w', l').
Proof.
  intros Hc Hj HF [N R I L]. simpl in *.
  assert (ids (services_of w') = ids (services_of w)) as Hid.
  { eapply Forall2_ids; [|exact HF]. intros a b [(Hf & _) _]. by apply frozen_id. }
  assert (Hback : forall b, b ∈ services_of w' -> exists a, a ∈ services_of w /\ later a b /\
    (reach_row (w_calls w') a -> reach_row (w_calls w') b)).
  { intros b Hb. destruct (Forall2_back _ _ _ _ HF Hb) as (a & Ha & Hab). by exists a. }
  assert (forall s, s ∈ map job_row (jobs l') -> s ∈ map job_row (jobs l)) as Hjs.
  { intros s (j & -> & H)%list_elem_of_fmap. apply list_elem_of_fmap_2. set_solver. }
  split; simpl; rw ?Hid; [done| |auto|].
  - intros b Hb. destruct (Hback b Hb) as (a & Ha & _ & Hr). apply Hr. rw Hc. apply reach_mono. auto.
  - intros s b Hs Hb E. destruct (Hback b Hb) as (a & Ha & Hab & _). etrans; [|exact Hab].
    apply L; [auto|done|]. rw -E. symmetry. apply frozen_id, Hab.
Qed.

Lemma row_reach disjoint x y : rtc (svc_step disjoint) x y -> row_inv x -> row_inv y.
Proof.
  induction 1 as [|x y z Hstep _ IH]; [done|]. intros Hinv. apply IH.
  pose proof (svc_step_shape _ _ _ (rn_ids _ Hinv) Hstep) as Hsh. clear Hstep IH.
  destruct Hsh as [w w' more l Hc Hd|w w' l s Hc Hr Hid Hs|w l l' Hr _|w w' j rest [[more Hc] HF]].
  - eapply row_inv_later; [exact Hc|done| |exact Hinv]. eapply Forall2_impl; [exact Hd|]. intros a b Hab.
    split; [by apply drift_later|by apply drift_reach].
  - destruct Hinv as [N R I L]. simpl in *. split; simpl; rw ?Hr.
    + rw map_app. apply NoDup_app. split_and!; [done| |apply NoDup_singleton]. intros x Hx ->%list_elem_of_singleton. done.
    + intros r [Hin|Hin]%elem_of_app; [rw Hc; auto|]. apply list_elem_of_singleton in Hin as ->. by apply sync_reach.
    + intros t Ht. rw map_app. apply elem_of_app. left. auto.
    + intros t cur Ht [Hin|Hin]%elem_of_app E; [auto|]. apply list_elem_of_singleton in Hin as ->. exfalso. apply Hid. rw E. auto.
  - destruct Hinv as [N R I L]. simpl in *. split; simpl; [done|done| |].
    + intros s (j & -> & Hj)%list_elem_of_fmap. destruct (Hr j Hj) as [Hj'|Hin]; [apply I|]; by apply list_elem_of_fmap_2.
    + intros s cur (j & -> & Hj)%list_elem_of_fmap Hcur E. destruct (Hr j Hj) as [Hj'|Hin]; [apply L; [by apply list_elem_of_fmap_2|done|done]|].
      by rw (unique_by ms_ID _ _ _ N Hcur Hin E).
  - eapply row_inv_later; [exact Hc| | |exact Hinv]; [set_solver|]. destruct Hinv as [N R I L]. simpl in *.
    eapply Forall2_impl_in; [exact HF|]. intros a b Ha Hab. split; [apply Hab|]. intros Hra.
    destruct (decide (ms_ID a = ms_ID (job_row j))) as [E|E]; [|by rw (to_other _ _ _ _ Hab E)].
    apply (to_reach _ _ _ _ Hab); [done| |done]. apply L; [left|done|done].
Qed.

(** Rows are only added, and keep what [svc_frozen] freezes. *)
Definition svc_extends (rows rows' : list (MLService Q)) : Prop :=
  exists kept new, rows' = kept ++ new /\ Forall2 svc_frozen rows kept.

Lemma extends_rows rows rows' : Forall2 svc_frozen rows rows' -> svc_extends rows rows'.
Proof. intros H. exists rows', []. by rw app_nil_r. Qed.

Lemma svc_extends_trans rows1 rows2 rows3 :
  svc_extends rows1 rows2 -> svc_extends rows2 rows3 -> svc_extends rows1 rows3.
Proof.
  intros (k1 & n1 & -> & H1) (k2 & n2 & -> & H2).
  apply Forall2_app_inv_l in H2 as (x & y & Hx & Hy & ->).
  exists x, (y ++ n2). split; [by rw app_assoc|]. by etrans.
Qed.

Lemma shape_extends disjoint x y :
  svc_shape disjoint x y -> svc_extends (services_of x.1) (services_of y.1).
Proof.
  destruct 1 as [w w' more l _ Hd|w w' l s _ Hr _ _|w l l' _ _|w w' j rest [_ HF]]; simpl.
  - apply extends_rows. eapply Forall2_impl; [exact Hd|]. apply dr_frozen.
  - rw Hr. exists (services_of w), [s]. split; [done|]. by apply Forall_Forall2_diag, Forall_true.
  - apply extends_rows. by apply Forall_Forall2_diag, Forall_true.
  - apply extends_rows. eapply Forall2_impl; [exact HF|]. apply to_frozen.
Qed.
End Steps.
