(* ===== verification/MlserviceProperties.v ===== *)
(** * MLService: properties

    What observed_generation guarantees over all interleavings, the contracts of
    Create, Scale, Patch and Delete, what reaches the runtime, and the rollback
    of a reservation. *)

From Stdlib Require Import ssreflect ZArith Lia Ascii String.
From stdpp Require Import base gmap list strings.
From S2P Require Import Prelude Placement ApiTypes Store StatusMap Names Runtime ServiceAdmission Admission AdmissionUsage AdmissionSafety AdmissionRuns Samples Mlrun Mlservice MlserviceFacts MlserviceSync.

Section Interleavings.
Context {Q : Type} `{!Quantity Q} `{!ResourceResolver Q} `{!ComputeRuntime Q}
  (shortHash : bytes -> bytes) (tenantPrefix : bool).
Implicit Types (w : world Q) (row : MLService Q) (l : leader Q).

(** What the theorems ask of the table to start with; an empty one will do. *)
Definition sound_start w : Prop :=
  NoDup (map ms_ID (services_of w)) /\ forall row, row ∈ services_of w -> sync_inv (w_calls w) row.

(** C2: what a service's observed generation means.  Under any interleaving of
    API calls, admission, informer, poller and reconciler, where the reconciler
    reads the three parts of its work set one after the other and the rows it
    handles may have been scaled, admitted further or handled already since
    they were read, observed_generation never runs ahead of generation; and when
    the two are equal, the runtime has accepted, at some time, an MLService with
    exactly the replica counts that are desired now.  If besides no row is read
    into two parts of one work set, all desired replicas are also admitted and
    dispatched; [handled_twice] shows a row for which they are not.  A handler's
    call of the runtime and the statements that record its outcome are one
    step. *)
Theorem observed_generation_sound disjoint w w' l row :
  sound_start w -> rtc (svc_step shortHash tenantPrefix disjoint) (w, Handling []) (w', l) ->
  row ∈ services_of w' ->
  (ms_ObservedGeneration row <= ms_Generation row)%Z /\
  (ms_ObservedGeneration row = ms_Generation row -> reached (w_calls w') row /\ (disjoint = true -> synced (w_calls w') row)).
Proof.
  intros [N H] Hr Hin.
  assert (row_inv (w, Handling [])) as H0.
  { split; simpl; [done|intros r Hin0; by apply sync_reach, H|by intros s ?%elem_of_nil|by intros s cur ?%elem_of_nil]. }
  destruct (rn_reach _ (row_reach _ _ _ _ _ Hr H0) row Hin) as [B R]. split; [done|]. intros E. split; [by apply R|]. intros ->.
  assert (sys_inv (w, Handling [])) as H1 by (split; simpl; [done|done|constructor|by intros s ?%elem_of_nil]).
  by apply (si_synced _ _ (in_sync _ (sys_reach _ _ _ _ Hr H1) row Hin)).
Qed.

Lemma shape_ids disjoint x y :
  svc_shape disjoint x y -> NoDup (map ms_ID (services_of x.1)) -> NoDup (map ms_ID (services_of y.1)).
Proof.
  destruct 1 as [w w' more l _ Hd|w w' l s _ Hr Hid _|w l l' _ _|w w' j rest [_ HF]]; simpl; intros N.
  - by rw (drifts_ids _ _ Hd).
  - rw Hr map_app. apply NoDup_app. split_and!; [done| |apply NoDup_singleton].
    intros z Hz ->%list_elem_of_singleton. done.
  - done.
  - rw (Forall2_ids _ _ _ _ HF); [|done]. intros a b H. by apply frozen_id, (to_frozen _ _ _ _ H).
Qed.

(** Under the same interleavings, from any table with unique ids and any
    pending work, service rows are only ever added, ids stay unique, and a row
    keeps its id, namespace, kind, name, owner and creation time; a
    soft-deleted row is never revived. *)
Theorem service_rows_safe disjoint x y :
  NoDup (map ms_ID (services_of x.1)) -> rtc (svc_step shortHash tenantPrefix disjoint) x y ->
  NoDup (map ms_ID (services_of y.1)) /\ svc_extends (services_of x.1) (services_of y.1).
Proof.
  intros N Hr. induction Hr as [x|x y z Hstep _ IH].
  { split; [done|]. apply extends_rows. by apply Forall_Forall2_diag, Forall_true. }
  pose proof (svc_step_shape _ _ _ _ _ N Hstep) as Hs.
  destruct IH as [Nz Hz]; [by eapply shape_ids|]. split; [done|].
  eapply svc_extends_trans; [by eapply shape_extends|done].
Qed.
End Interleavings.

(** ** Operations *)

Section Operations.
Context {Q : Type} `{!ResourceResolver Q} `{!ComputeRuntime Q}
  (shortHash : bytes -> bytes) (tenantPrefix : bool).
Implicit Types (w : world Q) (row s cur : MLService Q) (db : DB Q).

Lemma svc_GetByNamespaceName_elem namespace name db row :
  SvcRepository.GetByNamespaceName namespace name db = inl row ->
  row ∈ db_services db /\ ms_Namespace row = namespace /\ ms_Name row = name /\ ms_DeletedAt row = None.
Proof.
  rw /SvcRepository.GetByNamespaceName. destruct (List.find _ _) as [r|] eqn:Hf; [|done]. intros [= <-].
  apply find_elem in Hf as [Hin Hp]. rw /SvcRepository.live_named in Hp. unbool.
  split_and!; try done. by destruct (ms_DeletedAt r).
Qed.

Lemma Get_current cur db :
  NoDup (map ms_ID (db_services db)) -> cur ∈ db_services db ->
  SvcRepository.Get (ms_ID cur) db = inl cur.
Proof.
  intros Hnd Hin. rw /SvcRepository.Get. destruct (List.find _ _) as [r|] eqn:Hf.
  - apply find_elem in Hf as [Hr E]. unbool. f_equal. by apply (unique_by ms_ID (db_services db)).
  - apply list_elem_of_In in Hin. apply (List.find_none _ _ Hf) in Hin. unbool. congruence.
Qed.

(** Reading a row back after an update by id. *)
Lemma Get_updated now cols row db :
  NoDup (map ms_ID (db_services db)) -> row ∈ db_services db ->
  ms_ID (svc_Updates now cols row) = ms_ID row ->
  SvcRepository.Get (ms_ID row) (SvcRepository.Update now (ms_ID row) cols db) =
  inl (svc_Updates now cols row).
Proof.
  rw /SvcRepository.Get /SvcRepository.Update /= /update_where /SvcRepository.has_id.
  intros Hnd Hin Hid.
  induction (db_services db) as [|x rows IH]; [by apply elem_of_nil in Hin|]. simpl in *.
  apply NoDup_cons in Hnd as [Hx Hnd].
  destruct (String.eqb_spec (ms_ID x) (ms_ID row)) as [E|E].
  - apply elem_of_cons in Hin as [->|Hin]; [by rw Hid String.eqb_refl|].
    exfalso. apply Hx. rw E. by apply list_elem_of_fmap_2.
  - apply elem_of_cons in Hin as [->|Hin]; [done|]. apply String.eqb_neq in E. rw E. by apply IH.
Qed.

Lemma update_others now id cols db x :
  x ∈ db_services db -> ms_ID x <> id -> x ∈ db_services (SvcRepository.Update now id cols db).
Proof.
  intros Hx Hne. apply elem_of_update_where. exists x. split; [done|].
  rw /SvcRepository.has_id. apply String.eqb_neq in Hne. by rw Hne.
Qed.

(** C6: scaling a live service: the primary role's desired count becomes the
    requested one, every role keeps of its admitted replicas what the new
    desired vector still covers (growth has to be admitted first, shrinkage
    is released at once), the generation goes up by one while dispatched
    replicas, observed generation and phase stay, the returned view is the
    stored row, and no other service is touched. *)
Theorem Scale_ok now namespace name n row spec db :
  NoDup (map ms_ID (db_services db)) ->
  SvcRepository.GetByNamespaceName namespace name db = inl row ->
  unmarshal (ms_Spec row) = inl spec -> ssp_Roles spec <> [] ->
  let '(db', result) := SvcService.Scale now namespace name n db in
  let spec' := SvcService.set_primary spec n in
  exists row', result = inl (SvcService.toView row') /\
    SvcRepository.Get (ms_ID row) db' = inl row' /\ ms_Spec row' = JVal spec' /\
    (forall i, vget (admitted_of spec' row') i =
       Z.min (vget (admitted_of spec row) i) (vget (Desired spec') i)) /\
    ms_Generation row' = (ms_Generation row + 1)%Z /\
    ms_DispatchedReplicas row' = ms_DispatchedReplicas row /\
    ms_ObservedGeneration row' = ms_ObservedGeneration row /\ ms_Phase row' = ms_Phase row /\
    svc_frozen row row' /\
    (forall x, x ∈ db_services db -> ms_ID x <> ms_ID row -> x ∈ db_services db').
Proof.
  intros Hnd Hg Hsp Hne. rw /SvcService.Scale Hg.
  destruct (SvcService.scale_columns n row) as [cols|e] eqn:Hc.
  2: { exfalso. rw /SvcService.scale_columns Hsp in Hc. by destruct (ssp_Roles spec). }
  apply svc_GetByNamespaceName_elem in Hg as [Hin _].
  destruct (scale_row now n row cols Hc)
    as (spec0 & Hsp0 & _ & Hs & Ha & _ & Hgen & Hd & Ho & Hp & _ & Hf).
  assert (spec0 = spec) as -> by congruence.
  rw Get_updated //; [by apply frozen_id|]. exists (svc_Updates now cols row).
  split_and!; try done.
  - rw Get_updated //. by apply frozen_id.
  - intros i. rw Ha vget_ClampToDesired //. by rw length_Decode length_Desired length_set_primary.
  - intros x Hx Hxid. by apply update_others.
Qed.
(** Creating a service: an error leaves the tables as they were; a
    success adds one queued row with generation 1 and nothing admitted or
    dispatched, and reading the service back returns exactly the view Create
    returned, whose pool and unit labels are the requested ones whatever the
    user's labels say. *)
Theorem service_Create_Get now id owner namespace (input : MLServiceCreateRequest Q) db db' result :
  SvcService.Create now id owner namespace input db = (db', result) ->
  match result with
  | inr _ => db' = db
  | inl v =>
      SvcService.Get namespace (sq_Name input) db' = inl v /\
      (exists row, db_services db' = db_services db ++ [row] /\ v = SvcService.toView row /\
         ms_ID row = id /\ db_runs db' = db_runs db /\ db_policies db' = db_policies db) /\
      sv_Phase v = SvcQueued /\ sv_Generation v = 1%Z /\ sv_ObservedGeneration v = 0%Z /\
      sst_AdmittedReplicas (sv_Status v) = 0%Z /\ SvcService.valid_kind (sv_Kind v) = true /\
      map ro_Replicas (ssp_Roles (sv_Spec v)) = map ro_Replicas (sq_Roles input) /\
      (sq_PoolName input <> "" -> sv_Labels v !! LabelResourcePool = Some (sq_PoolName input)) /\
      (sq_UnitName input <> "" -> sv_Labels v !! LabelResourceUnit = Some (sq_UnitName input))
  end.
Proof.
  rw /SvcService.Create. destruct (negb _); [by intros [= <- <-]|].
  destruct (negb (SvcService.valid_kind _)) eqn:Hk; [by intros [= <- <-]|].
  destruct (SvcRepository.GetByNamespaceName _ _ db) as [|e]; [by intros [= <- <-]|].
  destruct (negb (IsNotFound e)); [by intros [= <- <-]|].
  destruct (ResolveResourcePool _) as [pool|]; [|by intros [= <- <-]].
  destruct (ResolveResourceUnit _ _) as [unit|]; [|by intros [= <- <-]].
  set (s := SvcService.new_row _ _ _ _ _ _ _). rw /SvcRepository.Create.
  destruct (existsb _ (db_services db)); [by intros [= <- <-]|].
  destruct (_ && _) eqn:Hlive; [by intros [= <- <-]|]. intros [= <- <-]. split_and!; try done.
  - rw /SvcService.Get /SvcRepository.GetByNamespaceName /= find_snoc //.
    by rw /SvcRepository.live_named /= !String.eqb_refl.
  - by exists s.
  - rw /SvcService.toView /SvcService.admittedPrimary /s /=. rw /Zero /=.
    by destruct (sq_Roles input).
  - by apply negb_false_iff in Hk.
  - rw /s /= map_map. by apply map_ext.
  - intros Hp. simpl. rw lookup_mergeLabels /Service.system_labels lookup_insert_ne //
      lookup_singleton_eq. apply String.eqb_neq in Hp. by rw Hp.
  - intros Hu. simpl. rw lookup_mergeLabels /Service.system_labels lookup_insert_eq.
    apply String.eqb_neq in Hu. by rw Hu.
Qed.

(** ** What reaches the runtime *)

Definition renders_service (j : job Q) (c : call Q) : Prop :=
  forall cr, c = CApplyMLService cr ->
    ServiceToCR shortHash (job_row j) tenantPrefix = inl cr /\ (forall s, j <> JDelete s).

Lemma apply_call s j cr :
  job_row j = s -> (forall s, j <> JDelete s) -> ServiceToCR shortHash s tenantPrefix = inl cr ->
  forall c, c ∈ [CApplyMLService cr] -> renders_service j c.
Proof. by intros <- Hj Hcr c ->%list_elem_of_singleton cr' [= <-]. Qed.

Lemma job_calls now w j :
  exists added, w_calls (run_job shortHash tenantPrefix now w j) = w_calls w ++ added /\
    forall c, c ∈ added -> renders_service j c.
Proof.
  destruct j as [s|s|s]; simpl.
  - rw /SvcReconciler.handleCreate. destruct (ServiceToCR _ _ _) as [cr|] eqn:Hcr.
    2: { exists []. rw app_nil_r. split; [done|by intros ? ?%elem_of_nil]. }
    exists [CApplyMLService cr]. split; [|by eapply apply_call].
    destruct (rt_ApplyMLService _ _) as [err|]; [by destruct (IsResourceUnavailable err)|done].
  - rw /SvcReconciler.handleDelete. destruct (rt_DeleteMLService _ _).
    { exists [CDeleteMLService (SvcReconciler.svc_key_of s)].
      split; [done|by intros c ->%list_elem_of_singleton]. }
    exists [CDeleteMLService (SvcReconciler.svc_key_of s); CObserveMLService (SvcReconciler.svc_key_of s)].
    split.
    + destruct (rt_ObserveMLService _ _) as [|e]; [|destruct (IsAPINotFound e)]; simpl; by rw -app_assoc.
    + intros c [->|Hc]%elem_of_cons; [done|]. by apply list_elem_of_singleton in Hc as ->.
  - rw /SvcReconciler.handleAdmissionSync. destruct (ServiceToCR _ _ _) as [cr|] eqn:Hcr.
    2: { exists []. rw app_nil_r. split; [done|by intros ? ?%elem_of_nil]. }
    exists [CApplyMLService cr]. split; [|by eapply apply_call].
    destruct (rt_ApplyMLService _ _) as [err|]; [by destruct (IsResourceUnavailable err)|done].
Qed.

(** Scale-up never reaches the runtime before it is admitted: every
    MLService the reconciler applies in a tick comes from a service that was,
    when it was read, neither queued nor being deleted, and asks, role by role,
    for exactly the replicas admitted then. *)
Theorem applied_is_admitted now db1 db2 w :
  exists added,
    w_calls (SvcReconciler.runOnce shortHash tenantPrefix now db1 db2 w) = w_calls w ++ added /\
    forall cr, CApplyMLService cr ∈ added ->
      exists s, (s ∈ db_services db1 \/ s ∈ db_services (w_db w)) /\ ms_DeletedAt s = None /\
        ms_Phase s ∉ [SvcQueued; SvcDeleting; SvcDeleted] /\
        forall spec, unmarshal (ms_Spec s) = inl spec ->
          om_Labels (scr_Meta cr) !! LabelServiceID = Some (ms_ID s) /\
          length (ssp_Roles (scr_Spec cr)) = length (ssp_Roles spec) /\
          forall i r, ssp_Roles (scr_Spec cr) !! i = Some r ->
            ro_Replicas r = vget (admitted_of spec s) i.
Proof.
  rw runOnce_jobs. destruct (loop_calls (run_job shortHash tenantPrefix now) renders_service
    (jobs_of (SvcRepository.FindWorkSet db1 db2 (w_db w))) w (job_calls now)) as (added & E & H).
  exists added. split; [done|]. intros cr Hc. destruct (H _ Hc) as (j & Hj & Hr).
  destruct (Hr cr eq_refl) as [Hcr Hnd]. exists (job_row j).
  assert (Hin : (job_row j ∈ db_services db1 \/ job_row j ∈ db_services (w_db w)) /\ ms_DeletedAt (job_row j) = None /\
    ms_Phase (job_row j) ∉ [SvcQueued; SvcDeleting; SvcDeleted]).
  { rw /jobs_of !elem_of_app in Hj. destruct Hj as [Hj|[Hj|Hj]];
      apply list_elem_of_fmap in Hj as (s & -> & Hs); simpl; [|by destruct (Hnd s)|];
      apply svc_elem_of_batch in Hs as [Hs Hp].
    - apply andb_true_iff in Hp as [Hp%svc_phase_is Hd]. rw Hp.
      split_and!; [by left|by destruct (ms_DeletedAt s)|set_solver].
    - rw /SvcRepository.dispatch_dirty in Hp. apply andb_true_iff in Hp as [Hp Hd].
      apply andb_true_iff in Hp as [Hp _]. apply negb_true_iff, bool_decide_eq_false in Hp.
      split_and!; [by right|by destruct (ms_DeletedAt s)|set_solver]. }
  destruct Hin as (Hin & Hd & Hp). split_and!; [done..|]. intros spec Hsp.
  destruct (ServiceToCR_spec _ _ _ _ _ Hsp Hcr) as [Hs Hl]. rw Hs /Apply /=.
  split_and!; [done|by rw length_imap|]. intros i r. rw list_lookup_imap.
  destruct (ssp_Roles spec !! i); simpl; [|done]. intros [= <-]. simpl.
  apply clip_id, nonneg_Decode.
Qed.
(** When the runtime reports that capacity is gone, the reservation is
    rolled back to what has been dispatched: the admitted vector becomes the
    dispatched one and the service returns to the queue exactly when nothing
    is dispatched; dispatched replicas, spec and generations stay.  If
    admission moved on since the snapshot was taken, or the service is being
    deleted, nothing is changed. *)
Theorem rollback_to_dispatched now s cur spec message db :
  NoDup (map ms_ID (db_services db)) -> cur ∈ db_services db -> ms_ID cur = ms_ID s ->
  unmarshal (ms_Spec cur) = inl spec ->
  let db' := SvcReconciler.rollbackAdmission now s message db in
  let dispatched := Decode (ms_DispatchedReplicas cur) (length (ssp_Roles spec)) (Zero spec) in
  if decide (ms_DeletedAt cur = None /\ ms_Phase cur ∉ [SvcDeleting; SvcDeleted] /\
             admitted_of spec cur = admitted_of spec s)
  then exists b, SvcRepository.Get (ms_ID s) db' = inl b /\ admitted_of spec b = dispatched /\
         ms_Phase b = (if SvcReconciler.allZero dispatched then SvcQueued else ms_Phase cur) /\
         ms_DispatchedReplicas b = ms_DispatchedReplicas cur /\ ms_Spec b = ms_Spec cur /\
         ms_Generation b = ms_Generation cur /\
         ms_ObservedGeneration b = ms_ObservedGeneration cur /\ svc_frozen cur b
  else db' = db.
Proof.
  intros Hnd Hin Hid Hsp db' dispatched.
  pose proof (Get_current cur db Hnd Hin) as Hget. rw Hid in Hget.
  rw /db' /SvcReconciler.rollbackAdmission Hget.
  destruct (SvcReconciler.rollback_columns s cur message) as [cols|] eqn:Hc.
  - destruct (rollback_row now s cur message cols Hc)
      as (spec0 & Hsp0 & Hadm & Hd & Hp & Hf & Hs & Hg & Ho & Hdis & _ & Hb & Hph).
    assert (spec0 = spec) as -> by congruence. rw decide_True; [done|].
    exists (svc_Updates now cols cur). rw -Hid. rw Get_updated; [done|done|by apply frozen_id|]. done.
  - destruct (decide _) as [(Hd & Hp & Ha)|]; [|done]. exfalso.
    rw /SvcReconciler.rollback_columns /SvcRepository.phase_in bool_decide_false // Hd /= Hsp in Hc.
    rw /admitted_of in Ha. rw Ha in Hc. by rw (proj2 (Equal_spec _ _)) in Hc.
Qed.

(** An online service cannot be deleted while a live traffic policy
    routes to it: the call reports a conflict and changes nothing.  Otherwise
    the service disappears from every by-name read, is Deleted at once when
    it was still queued, and goes through Deleting when the runtime may hold
    something for it. *)
Theorem service_Delete_guarded (checker : ActivePolicyReferenceChecker Q) now namespace name row db :
  NoDup (map ms_ID (db_services db)) ->
  SvcRepository.GetByNamespaceName namespace name db = inl row ->
  ms_Phase row ∉ [SvcDeleting; SvcDeleted] -> ms_Kind row = ServiceKindService ->
  let '(db', err) := SvcService.Delete (Some checker) now namespace name db in
  match checker db namespace name with
  | inr e => err = Some e /\ db' = db
  | inl policy =>
      if decide (policy = "") then
        err = None /\
        exists row', SvcRepository.Get (ms_ID row) db' = inl row' /\ ms_DeletedAt row' = Some now /\
          ms_Phase row' = (if decide (ms_Phase row = SvcQueued) then SvcDeleted else SvcDeleting) /\
          (forall ns n, SvcRepository.GetByNamespaceName ns n db' <> inl row')
      else db' = db /\ exists e, err = Some e /\ As e = Some CodeConflict
  end.
Proof.
  intros Hnd Hg Hp Hk. rw /SvcService.Delete Hg /SvcRepository.phase_in bool_decide_false //.
  rw /SvcService.delete_check Hk String.eqb_refl /SvcService.checkActivePolicyReference.
  destruct (checker db namespace name) as [policy|e]; [|done].
  destruct (String.eqb_spec policy "") as [->|Hne].
  2: { destruct (decide (policy = "")); [done|]. split; [done|]. by eexists. }
  destruct (decide ("" = "")) as [_|]; [|done]. split; [done|]. apply svc_GetByNamespaceName_elem in Hg as [Hin _].
  assert (Hupd : forall p, exists row',
    SvcRepository.Get (ms_ID row)
      (SvcRepository.Update now (ms_ID row) [SPhase p; SDeletedAt (Some now)] db) = inl row' /\
    ms_DeletedAt row' = Some now /\ ms_Phase row' = p).
  { intros p. eexists. by rw Get_updated. }
  rw /SvcService.delete_row /SvcRepository.MarkDeleted /SvcRepository.MarkDeleting.
  assert (Hgone : forall db' row', ms_DeletedAt row' = Some now ->
    forall ns n, SvcRepository.GetByNamespaceName ns n db' <> inl row').
  { intros db' row' Hd ns n (_ & _ & _ & Hn)%svc_GetByNamespaceName_elem. congruence. }
  destruct (ms_Phase row); try set_solver;
    (match goal with |- context [SPhase ?p] => destruct (Hupd p) as (row' & ? & ? & ?) end);
    exists row'; split_and!; try done; by apply Hgone.
Qed.

(** Patching the labels of a service replaces them as given; when the new
    labels leave the resource-pool label out, the service no longer counts
    against any pool, whatever it was created in (the MLRun patch keeps the
    label). *)
Theorem service_Patch_drops_pool now namespace name input labels row db :
  NoDup (map ms_ID (db_services db)) ->
  SvcRepository.GetByNamespaceName namespace name db = inl row ->
  spa_Labels input = Some labels -> labels !! LabelResourcePool = None ->
  exists row', (SvcService.Patch now namespace name input db).2 = inl (SvcService.toView row') /\
    ms_ID row' = ms_ID row /\ row' ∈ db_services (SvcService.Patch now namespace name input db).1 /\
    ms_AdmittedReplicas row' = ms_AdmittedReplicas row /\ poolFromLabels (ms_Labels row') = "".
Proof.
  intros Hnd Hg Hl Hn. rw /SvcService.Patch Hg /SvcService.patch_row.
  apply svc_GetByNamespaceName_elem in Hg as [Hin _].
  set (cols := SvcService.patch_columns input).
  assert (Hcols : Forall harmless cols /\ cols <> [] /\ forall now,
    ms_Labels (svc_Updates now cols row) = mapBytes labels /\
    ms_AdmittedReplicas (svc_Updates now cols row) = ms_AdmittedReplicas row).
  { rw /cols /SvcService.patch_columns Hl. destruct (spa_DisplayName input), (spa_Description input),
      (spa_Annotations input); simpl; (split; [repeat constructor|]); by split. }
  destruct Hcols as (Hh & Hne & Hv). destruct cols as [|c rest] eqn:Ec; [done|]. rw -Ec in Hh Hv |- *.
  pose proof (frozen_id _ _ (dr_frozen _ _ (drift_Updates now cols row Hh))) as Hid.
  destruct (Hv now) as [Hlab Hadm]. rw Get_updated //.
  exists (svc_Updates now cols row). split_and!; try done.
  - apply elem_of_update_where. exists row. split; [done|]. by rw /SvcRepository.has_id String.eqb_refl.
  - by rw Hlab /poolFromLabels /= /map_get Hn.
Qed.
(** Rolling back a scale-down restores the larger vector: when the
    runtime reports a lack of capacity while a service whose dispatched
    replicas exceed the desired ones is being synced, the admitted vector
    ends up above the desired one, and since admitted and dispatched now agree
    the reconciler does not look at the service again. *)
Theorem rollback_undoes_scale_down now cur spec dispatched i message db :
  NoDup (map ms_ID (db_services db)) -> cur ∈ db_services db -> unmarshal (ms_Spec cur) = inl spec ->
  ms_DeletedAt cur = None -> ms_Phase cur ∉ [SvcDeleting; SvcDeleted] ->
  ms_DispatchedReplicas cur = Encode dispatched -> length dispatched = length (ssp_Roles spec) ->
  nonneg dispatched -> (vget (Desired spec) i < vget dispatched i)%Z ->
  exists b, SvcRepository.Get (ms_ID cur) (SvcReconciler.rollbackAdmission now cur message db) = inl b /\
    (vget (Desired spec) i < vget (admitted_of spec b) i)%Z /\ ms_Phase b = ms_Phase cur /\
    ms_Spec b = ms_Spec cur /\ SvcRepository.dispatch_dirty b = false.
Proof.
  intros Hnd Hin Hsp Hd Hp Hdis Hl Hnn Hi.
  pose proof (Get_current cur db Hnd Hin) as Hget.
  rw /SvcReconciler.rollbackAdmission Hget.
  destruct (SvcReconciler.rollback_columns cur cur message) as [cols|] eqn:Hc.
  2: { rw /SvcReconciler.rollback_columns /SvcRepository.phase_in bool_decide_false // Hd /= Hsp in Hc.
       by rw (proj2 (Equal_spec _ _)) in Hc. }
  destruct (rollback_row now cur cur message cols Hc)
    as (spec0 & Hsp0 & _ & _ & _ & Hf & Hs & _ & _ & Hdb & Hab & Hb & Hph).
  assert (spec0 = spec) as -> by congruence.
  assert (Hdec : Decode (ms_DispatchedReplicas cur) (length (ssp_Roles spec)) (Zero spec) = dispatched).
  { rw Hdis -Hl. by apply Encode_Decode. }
  rw Hdec in Hab, Hb, Hph.
  destruct (SvcReconciler.allZero dispatched) eqn:Hz.
  { pose proof (allZero_vget _ Hz i). pose proof (nonneg_Desired spec i). lia. }
  exists (svc_Updates now cols cur). rw Hb.
  split_and!; [apply Get_updated; [done|done|by apply frozen_id]|done|done|done|].
  by rw /SvcRepository.dispatch_dirty Hab Hdb Hdis bool_decide_true //= andb_false_r.
Qed.
End Operations.

(** ** Witnesses *)

Module SvcSample.
Import Sample.

#[local] Instance accepting : ComputeRuntime Z := runtime MLRunPhaseRunning.
Definition hash (_ : bytes) : bytes := list_ascii_of_string "00000000".

(** A service of two roles, [2] and [1] replicas desired. *)
Definition service_with (phase : svc_phase) (admitted dispatched : list Z) (gen observed : Z)
    : MLService Z :=
  {| ms_ID := "s1"; ms_Namespace := "team"; ms_Kind := "service"; ms_Name := "svc";
     ms_DisplayName := ""; ms_Description := ""; ms_Owner := ""; ms_Labels := labels;
     ms_Annotations := JEmpty; ms_Spec := JVal service_spec;
     ms_AdmittedReplicas := Encode admitted; ms_DispatchedReplicas := Encode dispatched;
     ms_Generation := gen; ms_ObservedGeneration := observed; ms_Phase := phase;
     ms_StatusJSON := JVal MLServiceStatus_zero; ms_CreatedAt := 1; ms_UpdatedAt := 1;
     ms_DeletedAt := None |}.

Definition services_db (rows : list (MLService Z)) : DB Z :=
  {| db_runs := []; db_services := rows; db_policies := [] |}.

Lemma NoDup_one_service (s : MLService Z) : NoDup (map ms_ID (db_services (services_db [s]))).
Proof. apply NoDup_singleton. Qed.

(** Admitted in full and waiting for its first dispatch. *)
Definition creating : MLService Z := service_with SvcCreating [2%Z; 1%Z] [0%Z; 0%Z] 1 0.
Definition w_creating : world Z := at_rest (services_db [creating]).

Lemma creating_start (rt : ComputeRuntime Z) : sound_start (ComputeRuntime0 := rt) w_creating.
Proof.
  split; [apply NoDup_one_service|]. intros row ->%list_elem_of_singleton.
  split; [done|simpl; lia|done].
Qed.

Definition w_dispatched : world Z := SvcReconciler.handleCreate hash true 9 w_creating creating.

(** The reconciler loads its work and dispatches the service. *)
Lemma dispatch_steps : rtc (svc_step hash true true) (w_creating, Handling []) (w_dispatched, Handling []).
Proof.
  eapply rtc_l; [apply ss_creating|]. eapply rtc_l; [apply ss_deleting|].
  eapply rtc_l; [apply ss_dirty; intros _; apply NoDup_singleton|]. apply rtc_once, (ss_job _ _ _ 9 (JCreate creating)).
Qed.

Definition dispatched : MLService Z :=
  svc_Updates 9 [SObservedGeneration 1] (svc_Updates 9 [SDispatched (Encode [2%Z; 1%Z]); SPhase SvcPending] creating).

Lemma dispatched_in : dispatched ∈ services_of w_dispatched.
Proof. by left. Qed.

Lemma observed_generation_sound_witness :
  ms_ObservedGeneration dispatched = ms_Generation dispatched /\
  synced (w_calls w_dispatched) dispatched.
Proof.
  split; [done|].
  apply (observed_generation_sound hash true true w_creating w_dispatched (Handling []) dispatched);
    [apply creating_start|apply dispatch_steps|apply dispatched_in|done|done].
Defined.

(** A runtime that has no room at first, and room for the second attempt. *)
Definition fickle : ComputeRuntime Z := {|
  rt_ApplyMLRun := rt_ApplyMLRun; rt_ObserveMLRun := rt_ObserveMLRun;
  rt_CancelMLRun := rt_CancelMLRun; rt_DeleteMLRun := rt_DeleteMLRun;
  rt_ListMLRunInstances := rt_ListMLRunInstances;
  rt_ApplyMLService calls _ := match calls with [] => Some (ResourceUnavailableError "no room") | _ => None end;
  rt_ObserveMLService := rt_ObserveMLService; rt_DeleteMLService := rt_DeleteMLService;
  rt_ListMLServiceInstances := rt_ListMLServiceInstances;
  rt_ApplyMLTrafficPolicy := rt_ApplyMLTrafficPolicy;
  rt_ObserveMLTrafficPolicy := rt_ObserveMLTrafficPolicy;
  rt_DeleteMLTrafficPolicy := rt_DeleteMLTrafficPolicy |}.

Definition one_ready : MLServiceCRStatus :=
  {| scs_Phase := PhaseDegraded; scs_Message := ""; scs_Endpoint := ""; scs_ReadyReplicas := 1 |}.

(** The service is read as Creating; an informer event makes it Degraded before
    the third read, which finds it again.  The first handler gives the
    reservation back and queues it; the second dispatches it and records the
    generation as observed: a queued service without a reservation runs with all
    its replicas. *)
Example handled_twice :
  exists w row, rtc (svc_step (ComputeRuntime0 := fickle) hash true false) (w_creating, Handling []) (w, Handling []) /\
    services_of w = [row] /\ ms_Phase row = SvcQueued /\ ms_ObservedGeneration row = ms_Generation row /\
    admitted_of service_spec row = [0%Z; 0%Z] /\ ms_DispatchedReplicas row = Encode [2%Z; 1%Z].
Proof.
  set (w1 := with_db w_creating (SvcReflow.reflectObserved 5 creating 2 one_ready (w_db w_creating))).
  set (degraded := hd creating (services_of w1)).
  set (w2 := SvcReconciler.handleCreate (ComputeRuntime0 := fickle) hash true 9 w1 creating).
  set (w3 := SvcReconciler.handleAdmissionSync (ComputeRuntime0 := fickle) hash true 9 w2 degraded).
  exists w3, (hd creating (services_of w3)). split; [| vm_compute; by split_and!].
  eapply rtc_l; [apply ss_creating|]. eapply rtc_l; [apply (ss_onChange (ComputeRuntime0 := fickle) _ _ _ 5 creating 2 one_ready)|].
  eapply rtc_l; [apply ss_deleting|]. eapply rtc_l; [by apply ss_dirty|].
  eapply rtc_l; [apply (ss_job (ComputeRuntime0 := fickle) _ _ _ 9 (JCreate creating) w1 [JSync degraded])|].
  apply rtc_once, (ss_job (ComputeRuntime0 := fickle) _ _ _ 9 (JSync degraded) w2 []).
Qed.

Lemma service_rows_safe_witness :
  NoDup (map ms_ID (services_of w_dispatched)) /\
  svc_extends (services_of w_creating) (services_of w_dispatched).
Proof.
  apply (service_rows_safe hash true true (w_creating, Handling []) (w_dispatched, Handling []));
    [apply NoDup_one_service|apply dispatch_steps].
Defined.

(** Scaling the primary role from 2 to 1 releases one of its replicas. *)
Definition ready : MLService Z := service_with SvcReady [2%Z; 1%Z] [2%Z; 1%Z] 1 1.

Lemma Scale_ok_witness :
  let '(db', result) := SvcService.Scale 9 "team" "svc" 1 (services_db [ready]) in
  exists row', result = inl (SvcService.toView row') /\ ms_Generation row' = 2%Z /\
    vget (admitted_of (SvcService.set_primary service_spec 1) row') 0 = 1%Z /\
    vget (admitted_of (SvcService.set_primary service_spec 1) row') 1 = 1%Z.
Proof.
  pose proof (Scale_ok 9 "team" "svc" 1 ready service_spec (services_db [ready])
    (NoDup_one_service _) eq_refl eq_refl) as H.
  destruct (SvcService.Scale 9 "team" "svc" 1 (services_db [ready])) as [db' result].
  destruct H as (row' & H1 & _ & _ & H2 & H3 & _); [done|].
  exists row'. split_and!; [exact H1|exact H3|by rw H2|by rw H2].
Defined.

Definition service_request : MLServiceCreateRequest Z :=
  {| sq_Name := "svc-1"; sq_Kind := ""; sq_DisplayName := ""; sq_Description := "";
     sq_Labels := {[LabelResourcePool := "shadow"]}; sq_Annotations := ∅; sq_PoolName := "p";
     sq_UnitName := "u"; sq_PriorityClass := ""; sq_Backend := None; sq_ConfigMaps := [];
     sq_Roles := [role "api" 2 0]; sq_ProgressDeadlineSeconds := None; sq_Route := None |}.

Lemma service_Create_Get_witness :
  match SvcService.Create 9 "id1" "u1" "team" service_request (services_db []) with
  | (db', inl v) => SvcService.Get "team" "svc-1" db' = inl v /\
                    sv_Labels v !! LabelResourcePool = Some "p" /\ sv_Kind v = "service"
  | (_, inr _) => False
  end.
Proof.
  destruct (SvcService.Create 9 "id1" "u1" "team" service_request (services_db [])) as [db' [v|e]] eqn:E.
  - destruct (service_Create_Get _ _ _ _ _ _ _ _ E) as (H1 & _ & _ & _ & _ & _ & _ & _ & H2 & _).
    split_and!; [exact H1|by apply H2|]. vm_compute in E. by injection E as _ <-.
  - by vm_compute in E.
Defined.

(** A third replica was admitted but the runtime has no room for it. *)
Lemma rollback_to_dispatched_witness :
  let cur := service_with SvcReady [2%Z; 1%Z] [1%Z; 1%Z] 2 1 in
  exists b, SvcRepository.Get "s1" (SvcReconciler.rollbackAdmission 9 cur "no room" (services_db [cur]))
              = inl b /\
    admitted_of service_spec b = [1%Z; 1%Z] /\ ms_Phase b = SvcReady.
Proof.
  intros cur.
  pose proof (rollback_to_dispatched 9 cur cur service_spec "no room" (services_db [cur])
    (NoDup_one_service _)) as H.
  destruct H as (b & H1 & H2 & H3 & _); [by left|done|done|].
  by exists b.
Defined.

Definition no_policy : ActivePolicyReferenceChecker Z := fun _ _ _ => inl "".

Lemma service_Delete_guarded_witness :
  let '(db', err) := SvcService.Delete (Some no_policy) 9 "team" "svc" (services_db [ready]) in
  err = None /\ exists row', SvcRepository.Get "s1" db' = inl row' /\ ms_Phase row' = SvcDeleting.
Proof.
  pose proof (service_Delete_guarded no_policy 9 "team" "svc" ready (services_db [ready])
    (NoDup_one_service _) eq_refl) as H.
  destruct (SvcService.Delete (Some no_policy) 9 "team" "svc" (services_db [ready])) as [db' err].
  destruct H as (H1 & row' & H2 & _ & H3 & _); [simpl; set_solver|done|].
  split; [exact H1|]. by exists row'.
Defined.

Definition relabel_service : MLServicePatchRequest :=
  {| spa_DisplayName := None; spa_Description := None; spa_Labels := Some ∅; spa_Annotations := None |}.

Lemma service_Patch_drops_pool_witness :
  poolFromLabels (ms_Labels ready) = "p" /\
  exists row', row' ∈ db_services (SvcService.Patch 9 "team" "svc" relabel_service (services_db [ready])).1 /\
    poolFromLabels (ms_Labels row') = "".
Proof.
  split; [done|].
  destruct (service_Patch_drops_pool 9 "team" "svc" relabel_service ∅ ready (services_db [ready])
    (NoDup_one_service _) eq_refl eq_refl eq_refl) as (row' & _ & _ & H1 & _ & H2).
  by exists row'.
Defined.

(** Scaled down from 2 to 1: the desired vector is [1; 1]. *)
Definition shrunk : MLService Z :=
  svc_Updates 9 [SSpec (JVal (SvcService.set_primary service_spec 1)); SAdmitted (Encode [1%Z; 1%Z])] ready.

Lemma rollback_undoes_scale_down_witness :
  Desired (SvcService.set_primary service_spec 1) = [1%Z; 1%Z] /\
  exists b, SvcRepository.Get "s1"
              (SvcReconciler.rollbackAdmission 9 shrunk "no room" (services_db [shrunk])) = inl b /\
    (1 < vget (admitted_of (SvcService.set_primary service_spec 1) b) 0)%Z /\
    SvcRepository.dispatch_dirty b = false.
Proof.
  split; [done|].
  destruct (rollback_undoes_scale_down 9 shrunk (SvcService.set_primary service_spec 1) [2%Z; 1%Z] 0
    "no room" (services_db [shrunk])) as (b & H1 & H2 & _ & _ & H3);
    [apply NoDup_one_service|by left|done|done|simpl; set_solver|done|done| |done|by exists b].
  intros i. by destruct i as [|[|i]]; vm_compute.
Defined.
End SvcSample.
