(* ===== verification/TrafficPolicy.v ===== *)
(** * MLTrafficPolicy

    [internal/trafficpolicy]: validation, repository, business service, CR
    rendering, outbox reconciler, status reflow, informer and poller. *)

From Stdlib Require Import ssreflect ZArith Lia Ascii String.
From stdpp Require Import base gmap list strings.
From S2P Require Import Prelude Placement ApiTypes Store StatusMap Names Runtime Mlrun Mlservice.

(** ** Validation *)

(** [roleIndex]; -1 is [None]. *)
Fixpoint roleIndex (backends : list BackendMember) (role : string) : option nat :=
  match backends with
  | [] => None
  | b :: rest => if String.eqb (bm_Role b) role then Some 0 else S <$> roleIndex rest role
  end.

(** The duplicate check of [validateModeShape]. *)
Fixpoint duplicate_member (seen : gset string) (backends : list BackendMember) : option error :=
  match backends with
  | [] => None
  | b :: rest =>
      if bool_decide (bm_ServiceName b ∈ seen)
      then Some (New CodeValidation ("duplicate member service '" ++ bm_ServiceName b ++ "'")%string)
      else duplicate_member ({[bm_ServiceName b]} ∪ seen) rest
  end.

(** [validateModeShape] *)
Definition validateModeShape (mode : string) (backends : list BackendMember) : option error :=
  let shape :=
    if String.eqb mode TrafficModeWeighted then
      if Nat.ltb (length backends) 2
      then Some (New CodeValidation "weighted mode requires at least 2 backends") else None
    else if String.eqb mode TrafficModeCanary then
      if negb (Nat.eqb (length backends) 2)
      then Some (New CodeValidation "canary mode requires exactly 2 backends")
      else match roleIndex backends RoleStable, roleIndex backends RoleCanary with
           | Some _, Some _ => None
           | _, _ => Some (New CodeValidation
               "canary mode requires exactly one role=stable and one role=canary backend")
           end
    else if String.eqb mode TrafficModeBlueGreen then
      if negb (Nat.eqb (length backends) 2)
      then Some (New CodeValidation "bluegreen mode requires exactly 2 backends") else None
    else None in
  match shape with Some e => Some e | None => duplicate_member ∅ backends end.

(** The range check and the int32 sum of [validateWeights]. *)
Fixpoint sum_weights (sum : Z) (backends : list BackendMember) : Z + error :=
  match backends with
  | [] => inl sum
  | b :: rest =>
      if (bm_Weight b <? 0)%Z || (100 <? bm_Weight b)%Z
      then inr (New CodeValidation ("backend '" ++ bm_ServiceName b ++ "' weight must be 0..100")%string)
      else sum_weights (wrap32 (sum + bm_Weight b)) rest
  end.

Definition count_weight (w : Z) (backends : list BackendMember) : nat :=
  length (List.filter (fun b => bm_Weight b =? w)%Z backends).

(** [validateWeights] *)
Definition validateWeights (mode : string) (backends : list BackendMember) : option error :=
  match sum_weights 0 backends with
  | inr e => Some e
  | inl sum =>
      if String.eqb mode TrafficModeWeighted || String.eqb mode TrafficModeCanary then
        if (sum =? 100)%Z then None
        else Some (New CodeValidation "backend weights must sum to 100")
      else if String.eqb mode TrafficModeBlueGreen then
        if negb (Nat.eqb (count_weight 100 backends) 1) ||
           negb (Nat.eqb (count_weight 0 backends) (length backends - 1))
        then Some (New CodeValidation
               "bluegreen mode requires exactly one backend at weight 100 and the rest at 0")
        else None
      else None
  end.

(** ** Repository *)
Module PolRepository.
Section PolRepository.
Context {Q : Type}.
Implicit Types (db : DB Q) (p r : TrafficPolicy).

(** [Get] *)
Definition Get (id : string) db : TrafficPolicy + error :=
  match List.find (fun r => String.eqb (tp_ID r) id) (db_policies db) with
  | Some r => inl r
  | None => inr ErrRecordNotFound
  end.

Definition live_named (namespace name : string) r : bool :=
  String.eqb (tp_Namespace r) namespace && String.eqb (tp_Name r) name && is_null (tp_DeletedAt r).

(** [GetByNamespaceName] *)
Definition GetByNamespaceName (namespace name : string) db : TrafficPolicy + error :=
  match List.find (live_named namespace name) (db_policies db) with
  | Some r => inl r
  | None => inr ErrRecordNotFound
  end.

Definition newest_first (a b : TrafficPolicy) : bool := (tp_CreatedAt b <? tp_CreatedAt a)%Z.

(** [ListByNamespace] *)
Definition ListByNamespace (namespace : string) (limit offset : nat)
    (labelClause : TrafficPolicy -> bool) db : list TrafficPolicy * nat :=
  let q := List.filter (fun r => String.eqb (tp_Namespace r) namespace && is_null (tp_DeletedAt r) &&
                                 labelClause r) (db_policies db) in
  (Repository.page limit offset (sort_slice newest_first q), length q).

(** [Create], under the primary key and the partial unique index. *)
Definition Create p db : DB Q + error :=
  if existsb (fun r => String.eqb (tp_ID r) (tp_ID p)) (db_policies db)
  then inr Repository.ErrDuplicateKey
  else if is_null (tp_DeletedAt p) &&
          existsb (live_named (tp_Namespace p) (tp_Name p)) (db_policies db)
  then inr Repository.ErrDuplicateKey
  else inl (set_policies db (db_policies db ++ [p])).

(** [jsonb_array_elements(spec->'backends')]: the members a stored spec names. *)
Definition members_of r : list string :=
  match tp_Spec r with JVal spec => map bm_ServiceName (tsp_Backends spec) | _ => [] end.

(** The WHERE clause of the occupancy queries. *)
Definition active_referencing (namespace serviceName : string) r : bool :=
  String.eqb (tp_Namespace r) namespace && is_null (tp_DeletedAt r) &&
  existsb (String.eqb serviceName) (members_of r).

(** [FindActiveReferencing] *)
Definition FindActiveReferencing (namespace serviceName : string) db : list TrafficPolicy :=
  List.filter (active_referencing namespace serviceName) (db_policies db).

(** [ActiveReferenceName] *)
Definition ActiveReferenceName db (namespace serviceName : string) : string + error :=
  match FindActiveReferencing namespace serviceName db with
  | [] => inl ""
  | r :: _ => inl (tp_Name r)
  end.

(** The occupancy check of [CreateGuarded]. *)
Fixpoint check_free (namespace : string) (names : list string) db : option error :=
  match names with
  | [] => None
  | name :: rest =>
      match FindActiveReferencing namespace name db with
      | [] => check_free namespace rest db
      | _ => Some (New CodeConflict ("member '" ++ name ++ "' is already used by an active policy")%string)
      end
  end.

(** [CreateGuarded]: the advisory locks make check and insert one step. *)
Definition CreateGuarded p (memberNames : list string) db : DB Q + error :=
  let sorted := sort_slice str_lt memberNames in
  match check_free (tp_Namespace p) sorted db with
  | Some e => inr e
  | None => Create p db
  end.

Definition has_id (id : string) r : bool := String.eqb (tp_ID r) id.

(** [Update] *)
Definition Update (now : Z) (id : string) (fields : list pol_col) db : DB Q :=
  set_policies db (update_where (has_id id) (pol_Updates now fields) (db_policies db)).

(** [MarkDeleting] *)
Definition MarkDeleting (now : Z) (id : string) db : DB Q :=
  Update now id [TPhase SvcDeleting; TDeletedAt (Some now)] db.

Definition workSetBatch : nat := 100.

Definition oldest_update (a b : TrafficPolicy) : bool := (tp_UpdatedAt a <? tp_UpdatedAt b)%Z.

Definition batch (f : TrafficPolicy -> bool) db : list TrafficPolicy :=
  firstn workSetBatch (sort_slice oldest_update (List.filter f (db_policies db))).

Definition phase_in (phases : list svc_phase) r : bool := bool_decide (tp_Phase r ∈ phases).

(** [FindObservable] *)
Definition FindObservable db : list TrafficPolicy :=
  batch (phase_in [SvcCreating; SvcPending; SvcReady; SvcDegraded; SvcFailed; SvcDeleting]) db.

(** [WorkSet] *)
Record WorkSet := {
  ws_Creating : list TrafficPolicy;
  ws_Deleting : list TrafficPolicy;
  ws_SpecDirty : list TrafficPolicy }.

(** [generation <> observed_generation] *)
Definition spec_dirty r : bool :=
  negb (tp_Generation r =? tp_ObservedGeneration r)%Z && is_null (tp_DeletedAt r).

(** [FindWorkSet] *)
Definition FindWorkSet db : WorkSet :=
  {| ws_Creating := batch (fun r => phase_in [SvcCreating] r && is_null (tp_DeletedAt r)) db;
     ws_Deleting := batch (phase_in [SvcDeleting]) db;
     ws_SpecDirty := batch spec_dirty db |}.
End PolRepository.
End PolRepository.

(** ** Requests and views *)

(** [server.TrafficPolicyCreateRequest] *)
Record TrafficPolicyCreateRequest := {
  tq_Name : string;
  tq_DisplayName : string;
  tq_Description : string;
  tq_Labels : gmap string string;
  tq_Annotations : gmap string string;
  tq_Mode : string;
  tq_Endpoint : Endpoint;
  tq_Backends : list BackendMember }.

(** [server.TrafficPolicyWeightUpdate]; a split request is a list of them. *)
Record TrafficPolicyWeightUpdate := { wu_ServiceName : string; wu_Weight : Z }.

(** [server.TrafficPolicyPatchRequest] *)
Record TrafficPolicyPatchRequest := {
  tpa_DisplayName : option string;
  tpa_Description : option string;
  tpa_Labels : option (gmap string string);
  tpa_Annotations : option (gmap string string) }.

(** [server.TrafficPolicy] *)
Record TrafficPolicyView := {
  tv_ID : string; tv_Namespace : string; tv_Name : string; tv_Mode : string;
  tv_DisplayName : string; tv_Description : string; tv_Owner : string;
  tv_Labels : gmap string string; tv_Annotations : gmap string string;
  tv_Generation : Z; tv_ObservedGeneration : Z; tv_Phase : svc_phase;
  tv_Spec : MLTrafficPolicySpec; tv_Status : TrafficPolicyStatus;
  tv_CreatedAt : Z; tv_UpdatedAt : Z; tv_DeletedAt : option Z }.

Definition MLTrafficPolicySpec_zero : MLTrafficPolicySpec :=
  {| tsp_Backend := BackendSpec_zero; tsp_Mode := "";
     tsp_Endpoint := {| ep_Path := ""; ep_Hostname := ""; ep_Auth := None |}; tsp_Backends := [] |}.

Definition set_backends (spec : MLTrafficPolicySpec) (bs : list BackendMember) : MLTrafficPolicySpec :=
  {| tsp_Backend := tsp_Backend spec; tsp_Mode := tsp_Mode spec; tsp_Endpoint := tsp_Endpoint spec;
     tsp_Backends := bs |}.

Definition set_weight (b : BackendMember) (w : Z) : BackendMember :=
  {| bm_ServiceName := bm_ServiceName b; bm_Role := bm_Role b; bm_Weight := w |}.

Definition set_role_weight (role : string) (w : Z) (b : BackendMember) : BackendMember :=
  {| bm_ServiceName := bm_ServiceName b; bm_Role := role; bm_Weight := w |}.

(** ** Service *)
Module PolService.
Section PolService.
Context {Q : Type} (members : bool).
Implicit Types (db : DB Q) (row p : TrafficPolicy).

(** [toView] *)
Definition toView p : TrafficPolicyView :=
  {| tv_ID := tp_ID p; tv_Namespace := tp_Namespace p; tv_Name := tp_Name p; tv_Mode := tp_Mode p;
     tv_DisplayName := tp_DisplayName p; tv_Description := tp_Description p; tv_Owner := tp_Owner p;
     tv_Labels := decodeMap (tp_Labels p); tv_Annotations := decodeMap (tp_Annotations p);
     tv_Generation := tp_Generation p; tv_ObservedGeneration := tp_ObservedGeneration p;
     tv_Phase := tp_Phase p; tv_Spec := json_or MLTrafficPolicySpec_zero (tp_Spec p);
     tv_Status := json_or TrafficPolicyStatus_zero (tp_StatusJSON p);
     tv_CreatedAt := tp_CreatedAt p; tv_UpdatedAt := tp_UpdatedAt p; tv_DeletedAt := tp_DeletedAt p |}.

Definition not_found : error := New CodeNotFound "traffic policy not found".

(** One member of the loop in [validateMembers]: its backend family joins the
    set. *)
Definition member_family (namespace : string) db (families : gset string) (b : BackendMember)
    : gset string + error :=
  let name := bm_ServiceName b in
  if String.eqb name "" then inr (New CodeValidation "backends[].serviceName is required")
  else match SvcRepository.GetByNamespaceName namespace name db with
  | inr e => inr (if IsNotFound e
                  then New CodeValidation ("member service '" ++ name ++ "' not found")%string else e)
  | inl row =>
  if negb (String.eqb (ms_Kind row) ServiceKindService)
  then inr (New CodeValidation ("member '" ++ name ++ "' is a workspace, not a service")%string)
  else if negb (bool_decide (ms_Phase row = SvcReady))
  then inr (New CodePrecondition ("member '" ++ name ++ "' is not Ready")%string)
  else match PolRepository.FindActiveReferencing namespace name db with
  | r :: _ => inr (New CodeConflict ("member '" ++ name ++ "' is already used by active policy '" ++
                                     tp_Name r ++ "'")%string)
  | [] =>
      let fam := be_Name (ssp_Backend (json_or MLServiceSpec_zero (ms_Spec row))) in
      inl ({[if String.eqb fam "" then BackendKindNative else fam]} ∪ families)
  end end.

(** [validateMembers]; [members = false] is a module without a services
    repository. *)
Definition validateMembers (namespace mode : string) (backends : list BackendMember) db
    : (string * string) + error :=
  if negb members then inl (BackendKindNative, EngineHTTPRoute)
  else match fold_err (member_family namespace db) ∅ backends with
  | inr e => inr e
  | inl families =>
      match elements families with
      | [family] =>
          if String.eqb family BackendKindNative then inl (BackendKindNative, EngineHTTPRoute)
          else if String.eqb family BackendKindKServe then
            if negb (String.eqb mode TrafficModeCanary) || negb (Nat.eqb (length backends) 2)
            then inr (New CodeValidation "kserve members require mode=canary with exactly 2 backends")
            else inl (BackendKindKServe, EngineInference)
          else inr (New CodeValidation ("unsupported backend family '" ++ family ++ "'")%string)
      | _ => inr (New CodeValidation
               "all member services must share the same backend family (all native or all kserve)")
      end
  end.

Definition known_mode (mode : string) : bool :=
  String.eqb mode TrafficModeWeighted || String.eqb mode TrafficModeCanary ||
  String.eqb mode TrafficModeBlueGreen.

Definition wants_jwt (e : Endpoint) : bool :=
  match ep_Auth e with Some a => String.eqb (ea_Type a) EndpointAuthJWT | None => false end.

(** The default path of the endpoint. *)
Definition with_path (e : Endpoint) (namespace name : string) : Endpoint :=
  if String.eqb (ep_Path e) ""
  then {| ep_Path := ("/services/" ++ namespace ++ "/" ++ name ++ "/")%string;
          ep_Hostname := ep_Hostname e; ep_Auth := ep_Auth e |}
  else e.

Definition new_row (now : Z) (id owner namespace : string) (input : TrafficPolicyCreateRequest)
    (spec : MLTrafficPolicySpec) : TrafficPolicy :=
  {| tp_ID := id; tp_Namespace := namespace; tp_Name := tq_Name input; tp_Mode := tq_Mode input;
     tp_DisplayName := tq_DisplayName input; tp_Description := tq_Description input;
     tp_Owner := owner; tp_Labels := mapBytes (tq_Labels input);
     tp_Annotations := mapBytes (tq_Annotations input); tp_Spec := JVal spec;
     tp_Generation := 1; tp_ObservedGeneration := 0; tp_Phase := SvcCreating;
     tp_StatusJSON := JVal TrafficPolicyStatus_zero; tp_CreatedAt := now; tp_UpdatedAt := now;
     tp_DeletedAt := None |}.

(** The checks of [Create], up to the row it inserts. *)
Definition prepare (now : Z) (id owner namespace : string) (input : TrafficPolicyCreateRequest) db
    : TrafficPolicy + error :=
  if negb (IsValidName (tq_Name input)) then inr (New CodeValidation "invalid traffic-policy name")
  else if negb (known_mode (tq_Mode input))
  then inr (New CodeValidation ("unknown mode '" ++ tq_Mode input ++ "'")%string)
  else if wants_jwt (tq_Endpoint input)
  then inr (New CodeValidation
    "endpoint.auth=jwt is not yet supported (SecurityPolicy derivation pending); omit auth or use type=none")
  else match PolRepository.GetByNamespaceName namespace (tq_Name input) db with
  | inl _ => inr (New CodeConflict "traffic policy already exists")
  | inr e =>
  if negb (IsNotFound e) then inr e
  else match validateModeShape (tq_Mode input) (tq_Backends input) with
  | Some e => inr e
  | None =>
  match validateWeights (tq_Mode input) (tq_Backends input) with
  | Some e => inr e
  | None =>
  match validateMembers namespace (tq_Mode input) (tq_Backends input) db with
  | inr e => inr e
  | inl (family, engine) =>
      inl (new_row now id owner namespace input
        {| tsp_Backend := {| be_Name := family; be_Engine := engine; be_Config := None |};
           tsp_Mode := tq_Mode input;
           tsp_Endpoint := with_path (tq_Endpoint input) namespace (tq_Name input);
           tsp_Backends := tq_Backends input |})
  end end end end.

(** The insert of [Create]. *)
Definition insert_row row (backends : list BackendMember) db : DB Q * (TrafficPolicyView + error) :=
  match PolRepository.CreateGuarded row (map bm_ServiceName backends) db with
  | inr e => (db, inr e)
  | inl db' => (db', inl (toView row))
  end.

(** [Create]: the checks read [db0], the guarded insert runs on [db]; other
    writers may have come in between. *)
Definition Create (now : Z) (id owner namespace : string) (input : TrafficPolicyCreateRequest)
    (db0 db : DB Q) : DB Q * (TrafficPolicyView + error) :=
  match prepare now id owner namespace input db0 with
  | inr e => (db, inr e)
  | inl row => insert_row row (tq_Backends input) db
  end.

(** [Get] *)
Definition Get (namespace name : string) db : TrafficPolicyView + error :=
  match PolRepository.GetByNamespaceName namespace name db with
  | inl row => inl (toView row)
  | inr e => inr (if IsNotFound e then not_found else e)
  end.

(** [List] *)
Definition List (namespace : string) (limit offset : nat) (labelClause : TrafficPolicy -> bool) db
    : list TrafficPolicyView * nat :=
  let '(rows, total) := PolRepository.ListByNamespace namespace limit offset labelClause db in
  (map toView rows, total).

(** [reread] *)
Definition reread (id : string) db : TrafficPolicyView + error :=
  match PolRepository.Get id db with inr e => inr e | inl fresh => inl (toView fresh) end.

(** The column updates a patch asks for. *)
Definition patch_columns (input : TrafficPolicyPatchRequest) : list pol_col :=
  match tpa_DisplayName input with Some s => [TDisplayName s] | None => [] end ++
  match tpa_Description input with Some s => [TDescription s] | None => [] end ++
  match tpa_Labels input with Some m => [TLabels (mapBytes m)] | None => [] end ++
  match tpa_Annotations input with Some m => [TAnnotations (mapBytes m)] | None => [] end.

Definition patch_row (now : Z) (input : TrafficPolicyPatchRequest) row db
    : DB Q * (TrafficPolicyView + error) :=
  match patch_columns input with
  | [] => (db, inl (toView row))
  | updates =>
      let db' := PolRepository.Update now (tp_ID row) updates db in (db', reread (tp_ID row) db')
  end.

(** [Patch] *)
Definition Patch (now : Z) (namespace name : string) (input : TrafficPolicyPatchRequest) db
    : DB Q * (TrafficPolicyView + error) :=
  match PolRepository.GetByNamespaceName namespace name db with
  | inr e => (db, inr (if IsNotFound e then not_found else e))
  | inl row => patch_row now input row db
  end.

Definition delete_row (now : Z) row db : DB Q :=
  match tp_Phase row with
  | SvcDeleting | SvcDeleted => db
  | _ => PolRepository.MarkDeleting now (tp_ID row) db
  end.

(** [Delete] *)
Definition Delete (now : Z) (namespace name : string) db : DB Q * option error :=
  match PolRepository.GetByNamespaceName namespace name db with
  | inr e => (db, if IsNotFound e then None else Some e)
  | inl row => (delete_row now row db, None)
  end.

(** [load] *)
Definition load (namespace name : string) db : (TrafficPolicy * MLTrafficPolicySpec) + error :=
  match PolRepository.GetByNamespaceName namespace name db with
  | inr e => inr (if IsNotFound e then not_found else e)
  | inl row => match unmarshal (tp_Spec row) with inr e => inr e | inl spec => inl (row, spec) end
  end.

(** [persistSpec] *)
Definition persistSpec (now : Z) row (spec : MLTrafficPolicySpec) db
    : DB Q * (TrafficPolicyView + error) :=
  let db' := PolRepository.Update now (tp_ID row) [TSpec (JVal spec); TGenerationInc] db in
  (db', reread (tp_ID row) db').

(** [weightByName]: the last update of a name wins. *)
Definition weightByName (updates : list TrafficPolicyWeightUpdate) : gmap string Z :=
  foldl (fun m u => <[wu_ServiceName u := wu_Weight u]> m) ∅ updates.

(** The spec [Split] writes. *)
Definition split_spec (updates : list TrafficPolicyWeightUpdate) (spec : MLTrafficPolicySpec)
    : MLTrafficPolicySpec + error :=
  let weights := weightByName updates in
  let spec' := set_backends spec (map (fun b =>
    match weights !! bm_ServiceName b with Some w => set_weight b w | None => b end)
    (tsp_Backends spec)) in
  match validateWeights (tsp_Mode spec') (tsp_Backends spec') with
  | Some e => inr e
  | None => inl spec'
  end.

Definition canary_shape : error :=
  New CodePrecondition "canary policy must have one stable and one canary backend".

(** The spec [Promote] writes. *)
Definition promote_spec (spec : MLTrafficPolicySpec) : MLTrafficPolicySpec + error :=
  if negb (String.eqb (tsp_Mode spec) TrafficModeCanary)
  then inr (New CodePrecondition "promote is only valid for canary policies")
  else match roleIndex (tsp_Backends spec) RoleStable, roleIndex (tsp_Backends spec) RoleCanary with
  | Some si, Some ci =>
      inl (set_backends spec (alter (set_role_weight RoleCanary 0) si
             (alter (set_role_weight RoleStable 100) ci (tsp_Backends spec))))
  | _, _ => inr canary_shape
  end.

(** The spec [Rollback] writes. *)
Definition rollback_spec (spec : MLTrafficPolicySpec) : MLTrafficPolicySpec + error :=
  if negb (String.eqb (tsp_Mode spec) TrafficModeCanary)
  then inr (New CodePrecondition "rollback is only valid for canary policies")
  else match roleIndex (tsp_Backends spec) RoleStable, roleIndex (tsp_Backends spec) RoleCanary with
  | Some si, Some ci =>
      inl (set_backends spec (alter (fun b => set_weight b 100) si
             (alter (fun b => set_weight b 0) ci (tsp_Backends spec))))
  | _, _ => inr canary_shape
  end.

(** The requests that rewrite a spec. *)
Inductive spec_change := DoSplit (updates : list TrafficPolicyWeightUpdate) | DoPromote | DoRollback.

Definition change_spec (c : spec_change) (spec : MLTrafficPolicySpec) : MLTrafficPolicySpec + error :=
  match c with
  | DoSplit updates => split_spec updates spec
  | DoPromote => promote_spec spec
  | DoRollback => rollback_spec spec
  end.

(** Their common frame: [load] on [db0], compute, [persistSpec] on [db]. *)
Definition change (c : spec_change) (now : Z) (namespace name : string) (db0 db : DB Q)
    : DB Q * (TrafficPolicyView + error) :=
  match load namespace name db0 with
  | inr e => (db, inr e)
  | inl (row, spec) =>
      match change_spec c spec with
      | inr e => (db, inr e)
      | inl spec' => persistSpec now row spec' db
      end
  end.

(** [Split], [Promote] and [Rollback] *)
Definition Split (now : Z) (namespace name : string) (updates : list TrafficPolicyWeightUpdate)
    (db0 db : DB Q) : DB Q * (TrafficPolicyView + error) :=
  change (DoSplit updates) now namespace name db0 db.

Definition Promote (now : Z) (namespace name : string) (db0 db : DB Q)
    : DB Q * (TrafficPolicyView + error) := change DoPromote now namespace name db0 db.

Definition Rollback (now : Z) (namespace name : string) (db0 db : DB Q)
    : DB Q * (TrafficPolicyView + error) := change DoRollback now namespace name db0 db.
End PolService.
End PolService.

(** ** Rendering *)

(** [ToCR] *)
Definition PolicyToCR (shortHash : bytes -> bytes) (p : TrafficPolicy) (tenantPrefix : bool)
    : MLTrafficPolicyCR + error :=
  match unmarshal_nonempty MLTrafficPolicySpec_zero (tp_Spec p) with
  | inr e => inr e
  | inl spec =>
      let labels := <[LabelTenant := tp_Namespace p]> {[LabelTrafficPolicyID := tp_ID p]} in
      let meta := {| om_Name := tp_Name p; om_Namespace := tp_Namespace p; om_Labels := labels;
                     om_Annotations := ∅ |} in
      inl {| tcr_Meta := Annotate shortHash meta (tp_Namespace p) (tp_Name p) tenantPrefix;
             tcr_Spec := spec |}
  end.

(** ** Status reflow *)
Module PolReflow.
Section PolReflow.
Context {Q : Type}.
Implicit Types (db : DB Q) (row : TrafficPolicy).

(** [reflectObserved] *)
Definition reflectObserved (now : Z) row (observed : MLTrafficPolicyCRStatus) db : DB Q :=
  if PolRepository.phase_in [SvcDeleting; SvcDeleted] row then db
  else
    let sf := json_or TrafficPolicyStatus_zero (tp_StatusJSON row) in
    let cur := {| ts_Message := tst_Message sf; ts_Endpoint := tst_Endpoint sf;
                  ts_Backends := tst_Backends sf |} in
    let '(newPhase, mapped) := MapTraffic (tp_Phase row) cur observed in
    let next := {| tst_Message := ts_Message mapped; tst_Endpoint := ts_Endpoint mapped;
                   tst_Backends := ts_Backends mapped |} in
    PolRepository.Update now (tp_ID row) [TPhase newPhase; TStatus (JVal next)] db.

(** [reflectGone] *)
Definition reflectGone (now : Z) row db : DB Q :=
  match tp_Phase row with
  | SvcDeleting =>
      PolRepository.Update now (tp_ID row) [TPhase SvcDeleted; TDeletedAt (Some now)] db
  | SvcPending | SvcReady | SvcDegraded | SvcFailed =>
      PolRepository.Update now (tp_ID row) [TObservedGeneration (tp_Generation row - 1)] db
  | _ => db
  end.
End PolReflow.
End PolReflow.

(** ** Informer *)
Module PolInformer.
Section PolInformer.
Context {Q : Type}.

(** [onChange] *)
Definition onChange (now : Z) (labels : gmap string string) (status : MLTrafficPolicyCRStatus)
    (db : DB Q) : DB Q :=
  match labels !! LabelTrafficPolicyID with
  | None => db
  | Some id => match PolRepository.Get id db with
               | inr _ => db
               | inl row => PolReflow.reflectObserved now row status db
               end
  end.

(** [onDelete] *)
Definition onDelete (now : Z) (labels : gmap string string) (db : DB Q) : DB Q :=
  match labels !! LabelTrafficPolicyID with
  | None => db
  | Some id => match PolRepository.Get id db with
               | inr _ => db
               | inl row => PolReflow.reflectGone now row db
               end
  end.
End PolInformer.
End PolInformer.

(** ** Reconciler *)
Module PolReconciler.
Section PolReconciler.
Context {Q : Type} `{!ComputeRuntime Q} (shortHash : bytes -> bytes) (tenantPrefix : bool).
Implicit Types (w : world Q) (p : TrafficPolicy).

(** [handleCreate] *)
Definition handleCreate (now : Z) w p : world Q :=
  match PolicyToCR shortHash p tenantPrefix with
  | inr _ => w
  | inl cr =>
      let answer := rt_ApplyMLTrafficPolicy (w_calls w) cr in
      let w := record_call w (CApplyMLTrafficPolicy cr) in
      match answer with
      | Some err =>
          let sf := json_or TrafficPolicyStatus_zero (tp_StatusJSON p) in
          let next := {| tst_Message := Error err; tst_Endpoint := tst_Endpoint sf;
                         tst_Backends := tst_Backends sf |} in
          with_db w (PolRepository.Update now (tp_ID p) [TStatus (JVal next)] (w_db w))
      | None =>
          with_db w (PolRepository.Update now (tp_ID p) [TObservedGeneration (tp_Generation p)] (w_db w))
      end
  end.

(** [handleDelete] *)
Definition handleDelete (now : Z) w p : world Q :=
  let key := (tp_Namespace p, tp_Name p) in
  let answer := rt_DeleteMLTrafficPolicy (w_calls w) key in
  let w := record_call w (CDeleteMLTrafficPolicy key) in
  match answer with
  | Some _ => w
  | None =>
      let observation := rt_ObserveMLTrafficPolicy (w_calls w) key in
      let w := record_call w (CObserveMLTrafficPolicy key) in
      match observation with
      | inr e =>
          if IsAPINotFound e
          then with_db w (PolRepository.Update now (tp_ID p)
                            [TPhase SvcDeleted; TDeletedAt (Some now)] (w_db w))
          else w
      | inl _ => w
      end
  end.

(** [handleSpecSync] *)
Definition handleSpecSync (now : Z) w p : world Q :=
  match PolicyToCR shortHash p tenantPrefix with
  | inr _ => w
  | inl cr =>
      let answer := rt_ApplyMLTrafficPolicy (w_calls w) cr in
      let w := record_call w (CApplyMLTrafficPolicy cr) in
      match answer with
      | Some _ => w
      | None =>
          with_db w (PolRepository.Update now (tp_ID p) [TObservedGeneration (tp_Generation p)] (w_db w))
      end
  end.

(** [runOnce] *)
Definition runOnce (now : Z) w : world Q :=
  let ws := PolRepository.FindWorkSet (w_db w) in
  let w := foldl (handleCreate now) w (PolRepository.ws_Creating ws) in
  let w := foldl (handleDelete now) w (PolRepository.ws_Deleting ws) in
  foldl (handleSpecSync now) w (PolRepository.ws_SpecDirty ws).
End PolReconciler.
End PolReconciler.

(** ** Status poller *)
Module PolPoller.
Section PolPoller.
Context {Q : Type} `{!ComputeRuntime Q}.

Definition poll_row (now : Z) (w : world Q) (row : TrafficPolicy) : world Q :=
  let key := (tp_Namespace row, tp_Name row) in
  let observation := rt_ObserveMLTrafficPolicy (w_calls w) key in
  let w := record_call w (CObserveMLTrafficPolicy key) in
  match observation with
  | inr e => if IsAPINotFound e then with_db w (PolReflow.reflectGone now row (w_db w)) else w
  | inl observed => with_db w (PolReflow.reflectObserved now row observed (w_db w))
  end.

(** [runOnce] *)
Definition runOnce (now : Z) (w : world Q) : world Q :=
  foldl (poll_row now) w (PolRepository.FindObservable (w_db w)).
End PolPoller.
End PolPoller.
