(* ===== verification/TrafficPolicyFacts.v ===== *)
(** * MLTrafficPolicy: validation and its preservation

    What [validateModeShape] and [validateWeights] accept, that Split, Promote
    and Rollback keep it, and how a policy row may change from one version to
    the next. *)

From Stdlib Require Import ssreflect ZArith Lia Ascii String.
From stdpp Require Import base gmap list strings.
From S2P Require Import Prelude Placement ApiTypes Store StatusMap Names Runtime Mlrun Mlservice TrafficPolicy.

(** ** What validation establishes *)

Definition weights (bs : list BackendMember) : list Z := map bm_Weight bs.
Definition names (bs : list BackendMember) : list string := map bm_ServiceName bs.

(** Every weight is a percentage. *)
Definition percentages (bs : list BackendMember) : Prop :=
  Forall (fun b => (0 <= bm_Weight b <= 100)%Z) bs.

(** Below this many members the int32 sum of weights cannot wrap. *)
Definition max_members : Z := 20000000%Z.

Lemma sum_weights_spec bs sum :
  (0 <= sum)%Z -> (sum + 100 * Z.of_nat (length bs) <= int32_max)%Z ->
  match sum_weights sum bs with
  | inl total => percentages bs /\ total = (sum + zsum (weights bs))%Z
  | inr _ => ~ percentages bs
  end.
Proof.
  revert sum. induction bs as [|b bs IH]; intros sum H0 Hb; cbn [sum_weights length weights map] in *.
  { split; [constructor|]. rw /zsum /=. lia. }
  destruct (_ || _) eqn:Hr.
  - rw /percentages Forall_cons. intros [[? ?] _]. apply orb_true_iff in Hr as [?|?]; unbool; lia.
  - apply orb_false_iff in Hr as [Hr1 Hr2]. unbool.
    rw wrap32_id. { rw /in_int32 /int32_min. lia. }
    specialize (IH (sum + bm_Weight b)%Z). destruct (sum_weights _ bs) as [total|].
    + destruct IH as [HP ->]; [lia|lia|]. split; [constructor; [lia|done]|]. rw /weights /=. lia.
    + rw /percentages Forall_cons. intros [_ HP]. apply IH; [lia|lia|done].
Qed.

Lemma count_weight_cons w b bs :
  count_weight w (b :: bs) = ((if (bm_Weight b =? w)%Z then 1 else 0) + count_weight w bs)%nat.
Proof. rw /count_weight /=. by destruct (_ =? _)%Z. Qed.

(** Weights that are all 0 or 100 add up to 100 exactly when one of them is
    100 and the others are 0. *)
Lemma bluegreen_counts bs :
  percentages bs -> bs <> [] ->
  (count_weight 100 bs = 1 /\ count_weight 0 bs = length bs - 1)%nat <->
  Forall (fun b => bm_Weight b = 0%Z \/ bm_Weight b = 100%Z) bs /\ zsum (weights bs) = 100%Z.
Proof.
  intros HP Hne.
  assert (Hle : (count_weight 100 bs + count_weight 0 bs <= length bs)%nat /\
    ((count_weight 100 bs + count_weight 0 bs = length bs)%nat <->
     Forall (fun b => bm_Weight b = 0%Z \/ bm_Weight b = 100%Z) bs) /\
    (Forall (fun b => bm_Weight b = 0%Z \/ bm_Weight b = 100%Z) bs ->
     zsum (weights bs) = (100 * Z.of_nat (count_weight 100 bs))%Z)).
  { clear HP Hne. induction bs as [|b bs (IH1 & IH2 & IH3)].
    { split_and!; [done|split; [constructor|done]|done]. }
    rw !count_weight_cons Forall_cons.
    assert (zsum (weights (b :: bs)) = (bm_Weight b + zsum (weights bs))%Z) as -> by done.
    cbn [length].
    destruct (Z.eqb_spec (bm_Weight b) 100), (Z.eqb_spec (bm_Weight b) 0); try lia.
    - split_and!; [lia| |].
      + split; [intros; split; [auto|apply IH2; lia]|intros [_ ?%IH2]; lia].
      + intros [_ ?%IH3]. lia.
    - split_and!; [lia| |].
      + split; [intros; split; [auto|apply IH2; lia]|intros [_ ?%IH2]; lia].
      + intros [_ ?%IH3]. lia. }
  destruct Hle as (H1 & H2 & H3).
  assert (0 < length bs)%nat by (destruct bs; simpl; [done|lia]). split.
  - intros [E1 E2]. assert (HF : Forall (fun b => bm_Weight b = 0%Z \/ bm_Weight b = 100%Z) bs).
    { apply H2. lia. }
    split; [done|]. rw H3 // E1. lia.
  - intros [HF Hs]. rw H3 // in Hs. apply H2 in HF. lia.
Qed.

(** [validateWeights] accepts exactly the weightings that send all traffic
    somewhere: percentages that add up to 100, all of it to one backend in
    blue/green mode. *)
Lemma validateWeights_iff mode bs :
  PolService.known_mode mode = true -> bs <> [] -> (Z.of_nat (length bs) <= max_members)%Z ->
  validateWeights mode bs = None <->
  percentages bs /\ zsum (weights bs) = 100%Z /\
  (mode = TrafficModeBlueGreen -> Forall (fun b => bm_Weight b = 0%Z \/ bm_Weight b = 100%Z) bs).
Proof.
  intros Hm Hne Hlen. rw /validateWeights.
  pose proof (sum_weights_spec bs 0) as Hs. destruct (sum_weights 0 bs) as [sum|e].
  2: { split; [done|]. intros [HP _]. exfalso. apply Hs; [lia| |done].
       rw /max_members in Hlen. rw /int32_max. lia. }
  destruct Hs as [HP ->]; [lia|rw /max_members in Hlen; rw /int32_max; lia|]. rw Z.add_0_l.
  rw /PolService.known_mode in Hm.
  destruct (String.eqb_spec mode TrafficModeWeighted) as [->|]; simpl.
  { case_match; unbool; naive_solver. }
  destruct (String.eqb_spec mode TrafficModeCanary) as [->|]; simpl.
  { case_match; unbool; naive_solver. }
  destruct (String.eqb_spec mode TrafficModeBlueGreen) as [->|]; simpl; [|done].
  pose proof (bluegreen_counts bs HP Hne) as Hbg.
  destruct (Nat.eqb_spec (count_weight 100 bs) 1), (Nat.eqb_spec (count_weight 0 bs) (length bs - 1));
    simpl; naive_solver.
Qed.

(** ** Shape *)

Lemma duplicate_member_spec seen bs :
  duplicate_member seen bs = None <->
  NoDup (names bs) /\ forall n, n ∈ names bs -> n ∉ seen.
Proof.
  revert seen. induction bs as [|b bs IH]; intros seen; simpl.
  { split; [intros _; split; [constructor|by intros ? ?%elem_of_nil]|done]. }
  rw /names /= -/(names bs). case_bool_decide as Hb.
  - split; [done|]. intros [_ H]. exfalso. apply (H (bm_ServiceName b)); [by left|done].
  - rw IH NoDup_cons. split.
    + intros [Hnd H]. split_and!; [|done|].
      * intros Hin. apply (H _ Hin). set_solver.
      * intros n [->|Hn]%elem_of_cons; [done|]. specialize (H n Hn). set_solver.
    + intros [[Hb' Hnd] H]. split; [done|]. intros n Hn. specialize (H n).
      rw not_elem_of_union not_elem_of_singleton. split; [by intros ->|]. apply H. by right.
Qed.

(** The number of members a mode asks for. *)
Definition enough_members (mode : string) (bs : list BackendMember) : Prop :=
  if String.eqb mode TrafficModeWeighted then (2 <= length bs)%nat else length bs = 2%nat.

Definition canary_pair (bs : list BackendMember) : Prop :=
  exists s c, bm_Role s = RoleStable /\ bm_Role c = RoleCanary /\ (bs = [s; c] \/ bs = [c; s]).

Lemma roleIndex_pair b1 b2 :
  is_Some (roleIndex [b1; b2] RoleStable) -> is_Some (roleIndex [b1; b2] RoleCanary) ->
  canary_pair [b1; b2].
Proof.
  simpl. destruct (String.eqb_spec (bm_Role b1) RoleStable) as [E1|N1].
  - intros _. rw E1. change (String.eqb RoleStable RoleCanary) with false. cbv iota.
    destruct (String.eqb_spec (bm_Role b2) RoleCanary) as [E2|]; [|by intros [? ?]].
    intros _. exists b1, b2. auto.
  - destruct (String.eqb_spec (bm_Role b2) RoleStable) as [E2|]; [|by intros [? ?]]. intros _.
    destruct (String.eqb_spec (bm_Role b1) RoleCanary) as [E1|].
    + intros _. exists b2, b1. auto.
    + rw E2. change (String.eqb RoleStable RoleCanary) with false. by intros [? ?].
Qed.

Lemma canary_pair_roles bs :
  canary_pair bs -> is_Some (roleIndex bs RoleStable) /\ is_Some (roleIndex bs RoleCanary).
Proof.
  intros (s & c & Es & Ec & [-> | ->]); simpl; rw Es Ec !String.eqb_refl;
    split; try (by eexists); case_match; by eexists.
Qed.

(** [validateModeShape] for a known mode. *)
Lemma validateModeShape_iff mode bs :
  PolService.known_mode mode = true ->
  validateModeShape mode bs = None <->
  NoDup (names bs) /\ enough_members mode bs /\ (mode = TrafficModeCanary -> canary_pair bs).
Proof.
  intros Hm. rw /validateModeShape /enough_members.
  assert (Hdup : duplicate_member ∅ bs = None <-> NoDup (names bs)).
  { rw duplicate_member_spec. split; [by intros [? _]|]. intros H. split; [done|]. set_solver. }
  rw /PolService.known_mode in Hm.
  destruct (String.eqb_spec mode TrafficModeWeighted) as [->|].
  { destruct (Nat.ltb_spec (length bs) 2); [|naive_solver].
    split; [done|]. intros (_ & ? & _). lia. }
  destruct (String.eqb_spec mode TrafficModeCanary) as [->|].
  { destruct (Nat.eqb_spec (length bs) 2) as [Hl|Hl]; simpl; [|naive_solver].
    destruct bs as [|b1 [|b2 [|]]]; try done.
    destruct (roleIndex [b1; b2] RoleStable) as [si|] eqn:Hs;
      destruct (roleIndex [b1; b2] RoleCanary) as [ci|] eqn:Hc.
    { rw Hdup. split; [|naive_solver]. intros ?. split_and!; [done|done|intros _].
      apply roleIndex_pair; eauto. }
    all: split; [done|]; intros (_ & _ & H); destruct (canary_pair_roles _ (H eq_refl)) as [[? H1] [? H2]];
      congruence. }
  destruct (String.eqb_spec mode TrafficModeBlueGreen) as [->|]; [|done].
  destruct (Nat.eqb_spec (length bs) 2) as [Hl|Hl]; simpl; naive_solver.
Qed.

(** A spec that passed both checks. *)
Definition valid_spec (spec : MLTrafficPolicySpec) : Prop :=
  PolService.known_mode (tsp_Mode spec) = true /\
  validateModeShape (tsp_Mode spec) (tsp_Backends spec) = None /\
  validateWeights (tsp_Mode spec) (tsp_Backends spec) = None.

(** What never changes after creation. *)
Definition fixed_part (spec : MLTrafficPolicySpec) :=
  (tsp_Backend spec, tsp_Mode spec, tsp_Endpoint spec, names (tsp_Backends spec)).

(** *** Split *)

Lemma split_valid updates spec spec' :
  PolService.split_spec updates spec = inl spec' -> valid_spec spec ->
  valid_spec spec' /\ fixed_part spec' = fixed_part spec /\
  map bm_Role (tsp_Backends spec') = map bm_Role (tsp_Backends spec).
Proof.
  rw /PolService.split_spec. set (f := fun b => match _ !! _ with Some w => set_weight b w | None => b end).
  destruct (validateWeights _ _) eqn:Hw; [done|]. intros [= <-] (Hm & Hs & _). simpl in *.
  assert (Hn : names (map f (tsp_Backends spec)) = names (tsp_Backends spec)).
  { rw /names map_map. apply map_ext => b. rw /f. by case_match. }
  assert (Hr : map bm_Role (map f (tsp_Backends spec)) = map bm_Role (tsp_Backends spec)).
  { rw map_map. apply map_ext => b. rw /f. by case_match. }
  split_and!; [|by rw /fixed_part /= Hn|done]. split_and!; [done| |done].
  apply validateModeShape_iff in Hs as (H1 & H2 & H3); [|done].
  apply validateModeShape_iff; [done|]. rw Hn. split_and!; [done| |].
  - move: H2. rw /enough_members length_map. done.
  - intros E. destruct (H3 E) as (s & c & Es & Ec & H). exists (f s), (f c).
    assert (forall b, bm_Role (f b) = bm_Role b) as Hf by (intros b; rw /f; by case_match).
    rw !Hf. split_and!; [done|done|]. destruct H as [->| ->]; auto.
Qed.

(** *** Promote and Rollback *)

(** On a canary policy, [Promote] exchanges the roles and gives all traffic to
    the former canary; [Rollback] gives it to the stable backend. *)
Lemma canary_changes spec s c :
  tsp_Mode spec = TrafficModeCanary -> bm_Role s = RoleStable -> bm_Role c = RoleCanary ->
  tsp_Backends spec = [s; c] \/ tsp_Backends spec = [c; s] ->
  let pick x y := if decide (tsp_Backends spec = [s; c]) then [x; y] else [y; x] in
  PolService.promote_spec spec =
    inl (set_backends spec (pick (set_role_weight RoleCanary 0 s) (set_role_weight RoleStable 100 c))) /\
  PolService.rollback_spec spec =
    inl (set_backends spec (pick (set_weight s 100) (set_weight c 0))).
Proof.
  intros Hm Es Ec Hb pick.
  rw /PolService.promote_spec /PolService.rollback_spec Hm String.eqb_refl.
  destruct Hb as [Hb|Hb]; rw Hb; simpl; rw Es Ec !String.eqb_refl; simpl.
  - rw /pick Hb. by destruct (decide ([s; c] = [s; c])).
  - rw /pick Hb. destruct (decide ([c; s] = [s; c])) as [[= E _]|]; [|done].
    exfalso. rw E Es in Ec. done.
Qed.

(** A canary pair with weights 100 and 0 is a valid canary policy. *)
Lemma canary_valid spec bs s c :
  tsp_Mode spec = TrafficModeCanary -> bm_Role s = RoleStable -> bm_Role c = RoleCanary ->
  bm_Weight s = 100%Z -> bm_Weight c = 0%Z -> NoDup (names bs) -> bs = [s; c] \/ bs = [c; s] ->
  valid_spec (set_backends spec bs).
Proof.
  intros Hm Es Ec Ws Wc Hnd Hbs.
  assert (Hk : PolService.known_mode TrafficModeCanary = true) by done.
  rw /valid_spec /= Hm. split_and!; [done| |].
  - apply validateModeShape_iff; [done|]. split_and!; [done|by destruct Hbs as [->| ->]|].
    intros _. by exists s, c.
  - apply validateWeights_iff; [done|by destruct Hbs as [->| ->]|by destruct Hbs as [->| ->]|].
    destruct Hbs as [->| ->]; (split_and!; [|rw /zsum /= Ws Wc; lia|done]);
      repeat constructor; lia.
Qed.

Lemma change_valid ch spec spec' :
  PolService.change_spec ch spec = inl spec' -> valid_spec spec ->
  valid_spec spec' /\ fixed_part spec' = fixed_part spec.
Proof.
  destruct ch as [updates| |]; simpl.
  { intros H Hv. by destruct (split_valid _ _ _ H Hv) as (? & ? & _). }
  all: intros H (Hk & Hs & Hw).
  all: assert (Hm : tsp_Mode spec = TrafficModeCanary)
    by (move: H; rw /PolService.promote_spec /PolService.rollback_spec;
        by destruct (String.eqb_spec (tsp_Mode spec) TrafficModeCanary)).
  all: apply validateModeShape_iff in Hs as (Hnd & _ & Hp); [|done].
  all: destruct (Hp Hm) as (s & c & Es & Ec & Hb).
  all: destruct (canary_changes spec s c Hm Es Ec Hb) as [Hpro Hrol].
  - rw Hpro in H. injection H as <-.
    assert (Hn : names (if decide (tsp_Backends spec = [s; c])
       then [set_role_weight RoleCanary 0 s; set_role_weight RoleStable 100 c]
       else [set_role_weight RoleStable 100 c; set_role_weight RoleCanary 0 s]) = names (tsp_Backends spec)).
    { destruct (decide _) as [->|]; [done|]. by destruct Hb as [?| ->]. }
    split; [|by rw /fixed_part /= Hn].
    eapply (canary_valid _ _ (set_role_weight RoleStable 100 c) (set_role_weight RoleCanary 0 s));
      try done; [by rw Hn|]. destruct (decide _); auto.
  - rw Hrol in H. injection H as <-.
    assert (Hn : names (if decide (tsp_Backends spec = [s; c])
       then [set_weight s 100; set_weight c 0] else [set_weight c 0; set_weight s 100])
       = names (tsp_Backends spec)).
    { destruct (decide _) as [->|]; [done|]. by destruct Hb as [?| ->]. }
    split; [|by rw /fixed_part /= Hn].
    eapply (canary_valid _ _ (set_weight s 100) (set_weight c 0)); try done; [by rw Hn|].
    destruct (decide _); auto.
Qed.

(** ** Rows *)

Section Rows.
Context {Q : Type} `{!ComputeRuntime Q} (shortHash : bytes -> bytes) (tenantPrefix : bool).
Implicit Types (a b c r row p : TrafficPolicy) (db : DB Q) (calls : list (call Q)) (w : world Q).

(** The row stores a valid spec of its mode. *)
Definition row_valid r : Prop :=
  exists spec, tp_Spec r = JVal spec /\ tsp_Mode spec = tp_Mode r /\ valid_spec spec.

Definition row_fixed r :=
  match tp_Spec r with JVal spec => Some (fixed_part spec) | _ => None end.

(** [b] is a later version of [a]. *)
Record pol_version a b : Prop := {
  pv_frozen : (tp_ID b, tp_Namespace b, tp_Name b, tp_Mode b, tp_Owner b, tp_CreatedAt b) =
              (tp_ID a, tp_Namespace a, tp_Name a, tp_Mode a, tp_Owner a, tp_CreatedAt a);
  pv_deleted : tp_DeletedAt a <> None -> tp_DeletedAt b <> None;
  pv_generation : (tp_Generation a <= tp_Generation b)%Z;
  pv_spec : tp_Generation b = tp_Generation a -> tp_Spec b = tp_Spec a;
  pv_fixed : row_fixed b = row_fixed a;
  pv_valid : row_valid a -> row_valid b }.

#[export] Instance pol_version_refl : Reflexive pol_version.
Proof. by intros a. Qed.

#[export] Instance pol_version_trans : Transitive pol_version.
Proof.
  intros a b c [F1 D1 G1 S1 X1 V1] [F2 D2 G2 S2 X2 V2].
  split; [by rw F2|auto|lia| |congruence|auto].
  intros E. rw S2; [lia|]. apply S1. lia.
Qed.

Lemma version_id a b : pol_version a b -> tp_ID b = tp_ID a.
Proof. intros H. by injection (pv_frozen _ _ H). Qed.

(** The runtime accepted a resource with the row's spec and id. *)
Definition pol_accepted calls r : Prop :=
  exists cr pre post, calls = pre ++ CApplyMLTrafficPolicy cr :: post /\
    rt_ApplyMLTrafficPolicy pre cr = None /\ tp_Spec r = JVal (tcr_Spec cr) /\
    om_Labels (tcr_Meta cr) !! LabelTrafficPolicyID = Some (tp_ID r).

Record pol_sync calls r : Prop := {
  ps_bound : (tp_ObservedGeneration r <= tp_Generation r)%Z;
  ps_accepted : tp_ObservedGeneration r = tp_Generation r -> pol_accepted calls r }.

Lemma pol_sync_mono calls more r : pol_sync calls r -> pol_sync (calls ++ more) r.
Proof.
  intros [B A]. split; [done|]. intros (cr & pre & post & -> & H)%A.
  exists cr, pre, (post ++ more). by rw -app_assoc.
Qed.

(** What a step does to a row; [calls] are the calls made by its end. *)
Record pol_moves calls a b : Prop := {
  pm_version : pol_version a b;
  pm_sync : pol_sync calls a -> pol_sync calls b }.

Lemma pol_moves_same calls a : pol_moves calls a a.
Proof. by split. Qed.

(** Columns that concern neither spec nor generations. *)
Definition plain_col (col : pol_col) : Prop :=
  match col with
  | TSpec _ | TGenerationInc | TObservedGeneration _ | TDeletedAt None => False
  | _ => True
  end.

Lemma plain_moves calls now cols a : Forall plain_col cols -> pol_moves calls a (pol_Updates now cols a).
Proof.
  rw /pol_Updates.
  assert (H0 : pol_moves calls a (touch_policy now a)).
  { split; [by split|]. intros [B A]. by split. }
  intros H. revert H0. generalize (touch_policy now a) as b.
  induction H as [|col cols Hc _ IH]; intros b H0; simpl; [done|]. apply IH.
  destruct H0 as [V S].
  assert (Hcol : pol_version b (set_pol_col b col) /\
    tp_Generation (set_pol_col b col) = tp_Generation b /\
    tp_ObservedGeneration (set_pol_col b col) = tp_ObservedGeneration b /\
    tp_Spec (set_pol_col b col) = tp_Spec b).
  { split_and!; [|by destruct col..]. destruct col as [| | | | |[]| | | |]; try done; by split. }
  destruct Hcol as (Hv & Hg & Ho & Hs). split; [by etrans|].
  intros [B A]%S. split; [lia|]. rw Ho Hg => E. destruct (A E) as (cr & pre & post & H).
  exists cr, pre, post. by rw Hs (version_id _ _ Hv).
Qed.

(** The write of [persistSpec], computed from a version [row] of the row. *)
Lemma persist_moves calls now row a spec ch spec' :
  pol_version row a -> row_valid row -> tp_Spec row = JVal spec ->
  PolService.change_spec ch spec = inl spec' ->
  pol_moves calls a (pol_Updates now [TSpec (JVal spec'); TGenerationInc] a).
Proof.
  intros Hv (spec0 & E0 & Hm & Hok) Hsp Hch. assert (spec0 = spec) as -> by congruence.
  destruct (change_valid _ _ _ Hch Hok) as [Hok' Hfix].
  split.
  - split; simpl; try done; [lia|lia| |].
    + rw /row_fixed /= Hfix. rw -/(row_fixed a) (pv_fixed _ _ Hv) /row_fixed Hsp. done.
    + intros _. exists spec'. simpl. split_and!; [done| |done].
      injection (pv_frozen _ _ Hv) as _ _ _ -> _ _. rw -Hm. by injection Hfix.
  - intros [B A]. split; simpl; lia.
Qed.

(** Recording a generation after the resource of version [p] was accepted. *)
Lemma observe_moves calls now p a cr :
  pol_version p a -> PolicyToCR shortHash p tenantPrefix = inl cr -> row_valid p ->
  rt_ApplyMLTrafficPolicy calls cr = None ->
  pol_moves (calls ++ [CApplyMLTrafficPolicy cr]) a
    (pol_Updates now [TObservedGeneration (tp_Generation p)] a).
Proof.
  intros Hv Hcr (spec & Hsp & _) Hacc. split; [by split|].
  intros _. pose proof (pv_generation _ _ Hv). split; simpl; [done|]. intros E.
  rw /PolicyToCR Hsp /= in Hcr. injection Hcr as <-.
  eexists _, calls, []. split_and!; [done|done| |].
  - simpl. rw (pv_spec _ _ Hv); [lia|done].
  - simpl. rw lookup_insert_ne // lookup_singleton_eq. f_equal. symmetry. by apply version_id.
Qed.

(** Asking for a re-emission of version [row]. *)
Lemma reemit_moves calls now row a :
  pol_version row a ->
  pol_moves calls a (pol_Updates now [TObservedGeneration (tp_Generation row - 1)] a).
Proof.
  intros Hv. split; [by split|]. intros _. pose proof (pv_generation _ _ Hv). split; simpl; lia.
Qed.
End Rows.
