(* ===== verification/TrafficPolicyProperties.v ===== *)
(** * MLTrafficPolicy: properties

    The step relation lets every actor work with any row version it has read
    before ([ps_read]), however outdated. *)

From Stdlib Require Import ssreflect ZArith Lia Ascii String.
From stdpp Require Import base gmap list strings.
From S2P Require Import Prelude Placement ApiTypes Store StatusMap Names Runtime AdmissionUsage Samples Mlrun Mlservice TrafficPolicy TrafficPolicyFacts.

Section Steps.
Context {Q : Type} `{!ComputeRuntime Q} (members : bool) (shortHash : bytes -> bytes)
  (tenantPrefix : bool).
Implicit Types (a b r row p : TrafficPolicy) (db : DB Q) (w : world Q) (seen : list TrafficPolicy).

Definition policies w : list TrafficPolicy := db_policies (w_db w).
Abbreviation ids rows := (map tp_ID rows).

(** One action of one actor; [seen] are the rows anybody has read so far. *)
Inductive pol_step : world Q * list TrafficPolicy -> world Q * list TrafficPolicy -> Prop :=
| ps_read w seen : pol_step (w, seen) (w, policies w ++ seen)
| ps_Create now id owner namespace input db0 w seen :
    pol_step (w, seen)
      (with_db w (PolService.Create members now id owner namespace input db0 (w_db w)).1, seen)
| ps_change ch now row spec spec' w seen :
    row ∈ seen -> unmarshal (tp_Spec row) = inl spec -> PolService.change_spec ch spec = inl spec' ->
    pol_step (w, seen) (with_db w (PolService.persistSpec now row spec' (w_db w)).1, seen)
| ps_Patch now input row w seen :
    pol_step (w, seen) (with_db w (PolService.patch_row now input row (w_db w)).1, seen)
| ps_Delete now row w seen :
    pol_step (w, seen) (with_db w (PolService.delete_row now row (w_db w)), seen)
| ps_reflectObserved now row observed w seen :
    pol_step (w, seen) (with_db w (PolReflow.reflectObserved now row observed (w_db w)), seen)
| ps_reflectGone now row w seen :
    row ∈ seen -> pol_step (w, seen) (with_db w (PolReflow.reflectGone now row (w_db w)), seen)
| ps_handleCreate now p w seen :
    p ∈ seen ->
    pol_step (w, seen) (PolReconciler.handleCreate shortHash tenantPrefix now w p, seen)
| ps_handleSpecSync now p w seen :
    p ∈ seen ->
    pol_step (w, seen) (PolReconciler.handleSpecSync shortHash tenantPrefix now w p, seen)
| ps_handleDelete now p w seen : pol_step (w, seen) (PolReconciler.handleDelete now w p, seen)
| ps_other w w' more seen :
    policies w' = policies w -> w_calls w' = w_calls w ++ more -> pol_step (w, seen) (w', seen).

(** A service is a member of at most one live policy of its namespace. *)
Definition exclusive (rows : list TrafficPolicy) : Prop :=
  forall i k a b n, rows !! i = Some a -> rows !! k = Some b ->
    tp_DeletedAt a = None -> tp_DeletedAt b = None -> tp_Namespace a = tp_Namespace b ->
    n ∈ PolRepository.members_of a -> n ∈ PolRepository.members_of b -> i = k.

Record pol_inv (x : world Q * list TrafficPolicy) : Prop := {
  pi_ids : NoDup (ids (policies x.1));
  pi_exclusive : exclusive (policies x.1);
  pi_valid r : r ∈ policies x.1 -> row_valid r;
  pi_sync r : r ∈ policies x.1 -> pol_sync (w_calls x.1) r;
  pi_seen h : h ∈ x.2 -> row_valid h /\ tp_ID h ∈ ids (policies x.1) /\
    forall cur, cur ∈ policies x.1 -> tp_ID cur = tp_ID h -> pol_version h cur }.

(** ** Steps that move rows *)

Lemma version_members a b : pol_version a b -> PolRepository.members_of b = PolRepository.members_of a.
Proof.
  intros H. pose proof (pv_fixed _ _ H) as Hf. move: Hf. rw /row_fixed /PolRepository.members_of.
  destruct (tp_Spec a), (tp_Spec b); try done. rw /fixed_part /names. by intros [= _ _ _ ->].
Qed.

Lemma moves_inv w w' more seen :
  w_calls w' = w_calls w ++ more ->
  Forall2 (pol_moves (w_calls w')) (policies w) (policies w') ->
  pol_inv (w, seen) -> pol_inv (w', seen).
Proof.
  intros Hc HF [N X V S H]. simpl in *.
  assert (Hid : ids (policies w') = ids (policies w)).
  { clear -HF. induction HF as [|a b l l' [Hv _] _ IH]; simpl; [done|].
    f_equal; [by apply version_id|done]. }
  assert (Hback : forall b, b ∈ policies w' -> exists a, a ∈ policies w /\ pol_moves (w_calls w') a b).
  { intros b. by apply Forall2_back. }
  split; simpl; rw ?Hid; [done| | | |].
  - intros i k b1 b2 n Hi Hk L1 L2 E M1 M2.
    destruct (Forall2_lookup_r _ _ _ _ _ HF Hi) as (a1 & Ha1 & [V1 _]).
    destruct (Forall2_lookup_r _ _ _ _ _ HF Hk) as (a2 & Ha2 & [V2 _]).
    rw (version_members _ _ V1) in M1. rw (version_members _ _ V2) in M2.
    eapply (X i k a1 a2 n); try done.
    + destruct (tp_DeletedAt a1) eqn:E1; [|done]. exfalso. apply (pv_deleted _ _ V1); [by rw E1|done].
    + destruct (tp_DeletedAt a2) eqn:E2; [|done]. exfalso. apply (pv_deleted _ _ V2); [by rw E2|done].
    + injection (pv_frozen _ _ V1). injection (pv_frozen _ _ V2). congruence.
  - intros b (a & Ha & [Vab _])%Hback. apply (pv_valid _ _ Vab). auto.
  - intros b (a & Ha & [_ Sab])%Hback. apply Sab. rw Hc. apply pol_sync_mono. auto.
  - intros h Hh. destruct (H h Hh) as (Vh & Ih & Ch). split_and!; [done|done|].
    intros b Hb E. destruct (Hback b Hb) as (a & Ha & [Vab _]). etrans; [|exact Vab].
    apply Ch; [done|]. rw -E. symmetry. by apply version_id.
Qed.

Lemma update_moves calls now id cols db :
  (forall a, a ∈ db_policies db -> tp_ID a = id -> pol_moves calls a (pol_Updates now cols a)) ->
  Forall2 (pol_moves calls) (db_policies db) (db_policies (PolRepository.Update now id cols db)).
Proof.
  intros H. apply Forall2_map_r. intros a Ha. rw /PolRepository.has_id.
  destruct (String.eqb_spec (tp_ID a) id); [by apply H|apply pol_moves_same].
Qed.

Lemma moves_refl calls rows : Forall2 (pol_moves calls) rows rows.
Proof. apply Forall_Forall2_diag, Forall_forall. intros; apply pol_moves_same. Qed.

(** ** Creation *)

Lemma check_free_spec namespace ns db :
  PolRepository.check_free namespace ns db = None ->
  forall n, n ∈ ns -> PolRepository.FindActiveReferencing namespace n db = [].
Proof.
  induction ns as [|m ns IH]; simpl; [by intros _ n ?%elem_of_nil|].
  destruct (PolRepository.FindActiveReferencing namespace m db) eqn:E; [|done].
  intros H n [->|Hn]%elem_of_cons; [done|]. by apply IH.
Qed.

Lemma prepare_spec now id owner namespace input db0 row :
  PolService.prepare members now id owner namespace input db0 = inl row ->
  tp_ID row = id /\ tp_Namespace row = namespace /\ tp_DeletedAt row = None /\ row_valid row /\
  tp_Generation row = 1%Z /\ tp_ObservedGeneration row = 0%Z /\
  PolRepository.members_of row = map bm_ServiceName (tq_Backends input).
Proof.
  rw /PolService.prepare. destruct (negb _); [done|].
  destruct (negb (PolService.known_mode _)) eqn:Hm; [done|]. destruct (PolService.wants_jwt _); [done|].
  destruct (PolRepository.GetByNamespaceName _ _ _) as [|e]; [done|].
  destruct (negb (IsNotFound e)); [done|].
  destruct (validateModeShape _ _) eqn:Hs; [done|]. destruct (validateWeights _ _) eqn:Hw; [done|].
  destruct (PolService.validateMembers _ _ _ _ _) as [[family engine]|]; [|done]. intros [= <-].
  split_and!; try done. eexists. split_and!; [done|done|]. apply negb_false_iff in Hm. by split.
Qed.

Lemma pol_Create_inv now id owner namespace input db0 db :
  let db' := (PolService.Create members now id owner namespace input db0 db).1 in
  db' = db \/
  exists row, db_policies db' = db_policies db ++ [row] /\ tp_ID row ∉ ids (db_policies db) /\
    row_valid row /\ tp_Generation row = 1%Z /\ tp_ObservedGeneration row = 0%Z /\
    forall n, n ∈ PolRepository.members_of row ->
      PolRepository.FindActiveReferencing (tp_Namespace row) n db = [].
Proof.
  rw /PolService.Create. destruct (PolService.prepare _ _ _ _ _ _ _) as [row|] eqn:Hp; [|by left].
  destruct (prepare_spec _ _ _ _ _ _ _ Hp) as (_ & Hns & _ & Hv & Hg & Ho & Hm).
  rw /PolService.insert_row /PolRepository.CreateGuarded.
  destruct (PolRepository.check_free _ _ db) eqn:Hf; [by left|]. rw /PolRepository.Create.
  destruct (existsb _ (db_policies db)) eqn:Hid; [by left|]. destruct (_ && _); [by left|].
  right. exists row. split_and!; try done.
  - intros (r & Hr & Hin)%list_elem_of_fmap. apply not_true_iff_false in Hid. apply Hid.
    apply existsb_exists. exists r. split; [by apply list_elem_of_In|]. by apply String.eqb_eq.
  - intros n Hn. eapply check_free_spec; [exact Hf|]. apply elem_of_sort_slice. by rw -Hm.
Qed.

Lemma exclusive_snoc rows row :
  exclusive rows ->
  (forall n a, n ∈ PolRepository.members_of row -> a ∈ rows ->
     PolRepository.active_referencing (tp_Namespace row) n a = false) ->
  exclusive (rows ++ [row]).
Proof.
  intros X Hfree i k a b n Hi Hk L1 L2 E M1 M2.
  assert (Hno : forall j x, rows !! j = Some x -> tp_DeletedAt x = None ->
    tp_Namespace x = tp_Namespace row -> n ∈ PolRepository.members_of x ->
    n ∈ PolRepository.members_of row -> False).
  { intros j x Hx Lx Ex Mx Mr. apply list_elem_of_lookup_2 in Hx. specialize (Hfree n x Mr Hx).
    rw /PolRepository.active_referencing Ex String.eqb_refl Lx /= in Hfree.
    apply not_true_iff_false in Hfree. apply Hfree, existsb_exists. exists n.
    split; [by apply list_elem_of_In|apply String.eqb_refl]. }
  apply lookup_app_Some in Hi as [Hi|[Hi1 Hi]]; apply lookup_app_Some in Hk as [Hk|[Hk1 Hk]].
  - by eapply X.
  - apply list_lookup_singleton_Some in Hk as [_ <-]. exfalso. by eapply Hno.
  - apply list_lookup_singleton_Some in Hi as [_ <-]. exfalso. by eapply Hno.
  - apply list_lookup_singleton_Some in Hi as [? _]. apply list_lookup_singleton_Some in Hk as [? _]. lia.
Qed.

Lemma create_inv now id owner namespace input db0 w seen :
  pol_inv (w, seen) ->
  pol_inv (with_db w (PolService.Create members now id owner namespace input db0 (w_db w)).1, seen).
Proof.
  intros Hinv. destruct (pol_Create_inv now id owner namespace input db0 (w_db w))
    as [E|(row & E & Hid & Hv & Hg & Ho & Hfree)]; [by rw E; destruct w|].
  destruct Hinv as [N X V S H]. simpl in *.
  split; rw /policies /= E; fold (policies w).
  - rw map_app. apply NoDup_app. split_and!; [done| |apply NoDup_singleton].
    intros x Hx ->%list_elem_of_singleton. done.
  - apply exclusive_snoc; [done|]. intros n a Hn Ha. specialize (Hfree n Hn).
    apply not_true_iff_false. intros Hr.
    assert (Hin : In a (PolRepository.FindActiveReferencing (tp_Namespace row) n (w_db w))).
    { apply filter_In. split; [by apply list_elem_of_In|done]. }
    by rw Hfree in Hin.
  - intros r [Hr|Hr]%elem_of_app; [auto|]. by apply list_elem_of_singleton in Hr as ->.
  - intros r [Hr|Hr]%elem_of_app; [auto|]. apply list_elem_of_singleton in Hr as ->. split; lia.
  - intros h Hh. destruct (H h Hh) as (Vh & Ih & Ch). split_and!; [done| |].
    + rw map_app. apply elem_of_app. by left.
    + intros cur [Hc|Hc]%elem_of_app E'; [auto|]. apply list_elem_of_singleton in Hc as ->. exfalso. apply Hid. by rw E'.
Qed.
(** ** All steps *)

Lemma seen_version w seen row a :
  pol_inv (w, seen) -> row ∈ seen -> a ∈ policies w -> tp_ID a = tp_ID row ->
  row_valid row /\ pol_version row a.
Proof. intros Hinv Hr Ha E. destruct (pi_seen _ Hinv row Hr) as (Hv & _ & Hc). split; [done|by apply Hc]. Qed.

Lemma plain_inv w seen now id cols :
  Forall plain_col cols -> pol_inv (w, seen) ->
  pol_inv (with_db w (PolRepository.Update now id cols (w_db w)), seen).
Proof.
  intros Hp. apply (moves_inv w _ []); [by rw app_nil_r|]. apply update_moves. intros.
  by apply plain_moves.
Qed.

Lemma same_inv w seen : pol_inv (w, seen) -> pol_inv (with_db w (w_db w), seen).
Proof. by destruct w. Qed.

(** The two handlers that apply a resource differ in what they do on errors. *)
Lemma apply_inv w seen now p cr :
  pol_inv (w, seen) -> p ∈ seen -> PolicyToCR shortHash p tenantPrefix = inl cr ->
  rt_ApplyMLTrafficPolicy (w_calls w) cr = None ->
  pol_inv (with_db (record_call w (CApplyMLTrafficPolicy cr))
    (PolRepository.Update now (tp_ID p) [TObservedGeneration (tp_Generation p)] (w_db w)), seen).
Proof.
  intros Hinv Hp Hcr Ha. eapply (moves_inv w); [done| |exact Hinv]. apply update_moves. intros a Hin E.
  destruct (seen_version _ _ _ _ Hinv Hp Hin E). by apply (observe_moves shortHash tenantPrefix).
Qed.

Lemma call_inv w seen c : pol_inv (w, seen) -> pol_inv (record_call w c, seen).
Proof. apply (moves_inv _ _ [c]); [done|]. apply moves_refl. Qed.

Ltac plain := repeat constructor.

Lemma pol_step_inv x y : pol_step x y -> pol_inv x -> pol_inv y.
Proof.
  destruct 1 as [w seen|now id owner namespace input db0 w seen|ch now row spec spec' w seen Hr Hsp Hch|
    now input row w seen|now row w seen|now row observed w seen|now row w seen Hr|now p w seen Hp|
    now p w seen Hp|now p w seen|w w' more seen Hrows Hc]; intros Hinv.
  - destruct Hinv as [N X V S H]. simpl in *. split; simpl; try done.
    intros h [Hh|Hh]%elem_of_app; [|by apply H]. split_and!; [auto|by apply list_elem_of_fmap_2|].
    intros cur Hc E. by rw (unique_by tp_ID _ _ _ N Hc Hh E).
  - by apply create_inv.
  - eapply (moves_inv w _ []); [by rw app_nil_r| |exact Hinv]. apply update_moves. intros a Ha E.
    destruct (seen_version _ _ _ _ Hinv Hr Ha E) as [Hv Hver]. eapply persist_moves; [done|done| |exact Hch].
    destruct Hv as (spec0 & Hs & _). rw Hs in Hsp |- *. by injection Hsp as ->.
  - rw /PolService.patch_row.
    assert (H : Forall plain_col (PolService.patch_columns input)).
    { rw /PolService.patch_columns. repeat (apply Forall_app; split); case_match; plain. }
    destruct (PolService.patch_columns input); [by apply same_inv|by apply plain_inv].
  - rw /PolService.delete_row. destruct (tp_Phase row); try (by apply same_inv); (apply plain_inv; [plain|done]).
  - rw /PolReflow.reflectObserved. case_match; [by apply same_inv|]. destruct (MapTraffic _ _ _).
    apply plain_inv; [plain|done].
  - assert (Hre : pol_inv (with_db w (PolRepository.Update now (tp_ID row)
      [TObservedGeneration (tp_Generation row - 1)] (w_db w)), seen)).
    { eapply (moves_inv w _ []); [by rw app_nil_r| |exact Hinv]. apply update_moves. intros a Ha E.
      apply reemit_moves. by eapply seen_version. }
    rw /PolReflow.reflectGone. destruct (tp_Phase row); try done; try (by apply same_inv).
    apply plain_inv; [plain|done].
  - rw /PolReconciler.handleCreate. destruct (PolicyToCR _ _ _) as [cr|] eqn:Hcr; [|done].
    destruct (rt_ApplyMLTrafficPolicy _ _) as [err|] eqn:Ha; [|by apply (apply_inv w)].
    apply (plain_inv (record_call w _)); [plain|by apply call_inv].
  - rw /PolReconciler.handleSpecSync. destruct (PolicyToCR _ _ _) as [cr|] eqn:Hcr; [|done].
    destruct (rt_ApplyMLTrafficPolicy _ _) as [err|] eqn:Ha; [by apply call_inv|by apply (apply_inv w)].
  - rw /PolReconciler.handleDelete. destruct (rt_DeleteMLTrafficPolicy _ _); [by apply call_inv|].
    destruct (rt_ObserveMLTrafficPolicy _ _) as [|e]; [by apply call_inv, call_inv|].
    destruct (IsAPINotFound e); [|by apply call_inv, call_inv].
    apply (plain_inv (record_call (record_call w _) _)); [plain|by apply call_inv, call_inv].
  - eapply (moves_inv w); [done| |exact Hinv]. rw Hrows. apply moves_refl.
Qed.

Lemma pol_reach_inv x y : rtc pol_step x y -> pol_inv x -> pol_inv y.
Proof. induction 1 as [|x y z Hs _ IH]; [done|]. intros. by apply IH, (pol_step_inv x). Qed.
(** What the theorems ask of the table to start with; an empty one will do. *)
Definition sound_policies w : Prop :=
  NoDup (ids (policies w)) /\ exclusive (policies w) /\
  forall r, r ∈ policies w -> row_valid r /\ pol_sync (w_calls w) r.

Lemma policies_start w : sound_policies w -> pol_inv (w, []).
Proof.
  intros (N & X & H). split; simpl; [done|done|intros r Hr; by apply H..|by intros ? ?%elem_of_nil].
Qed.

(** C10: a service is a member of at most one live traffic policy of its
    namespace, under any interleaving of API calls (whose validation may have
    read an outdated database), reconciler and status reflow. *)
Theorem one_policy_per_service w w' seen :
  sound_policies w -> rtc pol_step (w, []) (w', seen) ->
  forall a b n, a ∈ policies w' -> b ∈ policies w' ->
    tp_DeletedAt a = None -> tp_DeletedAt b = None -> tp_Namespace a = tp_Namespace b ->
    n ∈ PolRepository.members_of a -> n ∈ PolRepository.members_of b -> a = b.
Proof.
  intros H0 Hr a b n Ha Hb L1 L2 E M1 M2.
  pose proof (pi_exclusive _ (pol_reach_inv _ _ Hr (policies_start _ H0))) as X.
  apply list_elem_of_lookup in Ha as (i & Hi). apply list_elem_of_lookup in Hb as (k & Hk).
  assert (i = k) as -> by by eapply X. simpl in *. congruence.
Qed.

(** C5: every stored traffic policy is well formed at any time, under the
    same interleavings: its mode is the one it was created with, its members
    are distinct, it has as many as its mode asks for, a canary policy has
    one stable and one canary backend, and (below 20 million members, where
    the int32 sum cannot wrap) the weights are percentages that add up to
    100, all of it on one backend in blue/green mode. *)
Theorem policies_well_formed w w' seen r :
  sound_policies w -> rtc pol_step (w, []) (w', seen) -> r ∈ policies w' ->
  exists spec, tp_Spec r = JVal spec /\ tsp_Mode spec = tp_Mode r /\
    PolService.known_mode (tp_Mode r) = true /\
    let bs := tsp_Backends spec in
    NoDup (names bs) /\ enough_members (tp_Mode r) bs /\
    (tp_Mode r = TrafficModeCanary -> canary_pair bs) /\
    ((Z.of_nat (length bs) <= max_members)%Z ->
     percentages bs /\ zsum (weights bs) = 100%Z /\
     (tp_Mode r = TrafficModeBlueGreen ->
      Forall (fun m => bm_Weight m = 0%Z \/ bm_Weight m = 100%Z) bs)).
Proof.
  intros H0 Hr Hin.
  destruct (pi_valid _ (pol_reach_inv _ _ Hr (policies_start _ H0)) r Hin)
    as (spec & Hs & Hm & Hk & Hsh & Hw).
  exists spec. rw -Hm. apply validateModeShape_iff in Hsh as (H1 & H2 & H3); [|done].
  split_and!; try done. intros bs. split_and!; try done. intros Hl.
  apply validateWeights_iff; try done. intros E. move: H2. rw /enough_members. rw /bs in E. rw E.
  case_match; simpl; lia.
Qed.

(** What a policy's observed generation means, under the same
    interleavings: it never runs ahead of the generation, and when the two
    are equal the runtime has accepted a resource with exactly the stored
    spec and the policy's id. *)
Theorem policy_observed_generation w w' seen r :
  sound_policies w -> rtc pol_step (w, []) (w', seen) -> r ∈ policies w' ->
  (tp_ObservedGeneration r <= tp_Generation r)%Z /\
  (tp_ObservedGeneration r = tp_Generation r -> pol_accepted (w_calls w') r).
Proof.
  intros H0 Hr Hin.
  destruct (pi_sync _ (pol_reach_inv _ _ Hr (policies_start _ H0)) r Hin) as [B A]. split; [done|apply A].
Qed.

(** A policy row once read stays what it was: whatever happens later, the
    table still holds a row with its id, namespace, name, mode, owner and
    creation time, the same members, endpoint and backend, a generation that
    is no smaller, and the same spec while the generation is the same; it is
    not revived once deleted. *)
Theorem policy_rows_evolve w w' seen r :
  sound_policies w -> rtc pol_step (w, policies w) (w', seen) -> r ∈ policies w ->
  exists r', r' ∈ policies w' /\ pol_version r r'.
Proof.
  intros H0 Hr Hin.
  assert (Hinv : pol_inv (w, policies w)).
  { pose proof (pol_step_inv _ _ (ps_read w []) (policies_start _ H0)) as H. by rw app_nil_r in H. }
  pose proof (pol_reach_inv _ _ Hr Hinv) as Hinv'.
  assert (Hseen : forall x y, rtc pol_step x y -> forall h, h ∈ x.2 -> h ∈ y.2).
  { induction 1 as [|x y z Hs _ IH]; [done|]. intros h Hh. apply IH. destruct Hs; simpl in *; try done.
    apply elem_of_app. by right. }
  destruct (pi_seen _ Hinv' r (Hseen _ _ Hr r Hin)) as (_ & Hid & Hv).
  apply list_elem_of_fmap in Hid as (r' & E & Hr'). exists r'. split; [done|]. by apply Hv.
Qed.
End Steps.

(** ** Operations *)

Section Operations.
Context {Q : Type}.
Implicit Types (r row p : TrafficPolicy) (db : DB Q).

Lemma pol_GetByNamespaceName_elem namespace name db row :
  PolRepository.GetByNamespaceName namespace name db = inl row ->
  row ∈ db_policies db /\ tp_Namespace row = namespace /\ tp_Name row = name /\ tp_DeletedAt row = None.
Proof.
  rw /PolRepository.GetByNamespaceName. destruct (List.find _ _) as [r|] eqn:Hf; [|done]. intros [= <-].
  apply find_elem in Hf as [Hin Hp]. rw /PolRepository.live_named in Hp. unbool.
  split_and!; try done. by destruct (tp_DeletedAt r).
Qed.

Lemma pol_Get_updated now cols row db :
  NoDup (map tp_ID (db_policies db)) -> row ∈ db_policies db ->
  tp_ID (pol_Updates now cols row) = tp_ID row ->
  PolRepository.Get (tp_ID row) (PolRepository.Update now (tp_ID row) cols db) =
  inl (pol_Updates now cols row).
Proof.
  rw /PolRepository.Get /PolRepository.Update /= /update_where /PolRepository.has_id.
  intros Hnd Hin Hid.
  induction (db_policies db) as [|x rows IH]; [by apply elem_of_nil in Hin|]. simpl in *.
  apply NoDup_cons in Hnd as [Hx Hnd].
  destruct (String.eqb_spec (tp_ID x) (tp_ID row)) as [E|E].
  - apply elem_of_cons in Hin as [->|Hin]; [by rw Hid String.eqb_refl|].
    exfalso. apply Hx. rw E. by apply list_elem_of_fmap_2.
  - apply elem_of_cons in Hin as [->|Hin]; [done|]. apply String.eqb_neq in E. rw E. by apply IH.
Qed.

(** A canary backend of the given role, service and weight. *)
Definition has_backend (spec : MLTrafficPolicySpec) (name role : string) (w : Z) : Prop :=
  {| bm_ServiceName := name; bm_Role := role; bm_Weight := w |} ∈ tsp_Backends spec.

(** Promote and Rollback on a canary policy whose stable backend is [s]
    and whose canary is [c]: both bump the generation by one, return the
    stored policy and keep the pair of members; Promote makes [c] the stable
    backend with all traffic and [s] the canary with none, Rollback gives all
    traffic to [s] and leaves the roles. *)
Theorem Promote_Rollback_shift now namespace name row spec s c db :
  NoDup (map tp_ID (db_policies db)) ->
  PolRepository.GetByNamespaceName namespace name db = inl row -> tp_Spec row = JVal spec ->
  tsp_Mode spec = TrafficModeCanary -> bm_Role s = RoleStable -> bm_Role c = RoleCanary ->
  tsp_Backends spec = [s; c] \/ tsp_Backends spec = [c; s] ->
  (exists r, (PolService.Promote now namespace name db db).2 = inl (PolService.toView r) /\
     PolRepository.Get (tp_ID row) (PolService.Promote now namespace name db db).1 = inl r /\
     tp_Generation r = (tp_Generation row + 1)%Z /\
     exists spec', tp_Spec r = JVal spec' /\ length (tsp_Backends spec') = 2%nat /\
       has_backend spec' (bm_ServiceName c) RoleStable 100 /\
       has_backend spec' (bm_ServiceName s) RoleCanary 0) /\
  (exists r, (PolService.Rollback now namespace name db db).2 = inl (PolService.toView r) /\
     PolRepository.Get (tp_ID row) (PolService.Rollback now namespace name db db).1 = inl r /\
     tp_Generation r = (tp_Generation row + 1)%Z /\
     exists spec', tp_Spec r = JVal spec' /\ length (tsp_Backends spec') = 2%nat /\
       has_backend spec' (bm_ServiceName s) RoleStable 100 /\
       has_backend spec' (bm_ServiceName c) RoleCanary 0).
Proof.
  intros Hnd Hg Hsp Hm Es Ec Hb.
  destruct (canary_changes spec s c Hm Es Ec Hb) as [Hp Hr].
  rw /PolService.Promote /PolService.Rollback /PolService.change /PolService.load Hg Hsp /= Hp Hr.
  apply pol_GetByNamespaceName_elem in Hg as [Hin _].
  rw /PolService.persistSpec /PolService.reread /= !pol_Get_updated //.
  destruct (decide (tsp_Backends spec = [s; c]));
    (split; eexists; (split_and!; [done|done|done|]); eexists; (split; [done|]);
     rw /has_backend -?Es -?Ec /=; destruct s, c; simpl in *; subst; split_and!; set_solver).
Qed.

(** The services module and the policy repository together: while a live
    policy of the namespace names an online service, deleting the service is
    refused with a conflict and nothing changes. *)
Theorem referenced_service_kept now namespace name svc p db :
  SvcRepository.GetByNamespaceName namespace name db = inl svc ->
  ms_Phase svc ∉ [SvcDeleting; SvcDeleted] -> ms_Kind svc = ServiceKindService ->
  p ∈ db_policies db -> tp_Namespace p = namespace -> tp_DeletedAt p = None ->
  name ∈ PolRepository.members_of p ->
  (forall r, r ∈ db_policies db -> tp_Name r <> "") ->
  let '(db', err) := SvcService.Delete (Some PolRepository.ActiveReferenceName) now namespace name db in
  db' = db /\ exists e, err = Some e /\ As e = Some CodeConflict.
Proof.
  intros Hg Hp Hk Hin Hns Hd Hm Hnames.
  rw /SvcService.Delete Hg /SvcRepository.phase_in bool_decide_false //.
  rw /SvcService.delete_check Hk String.eqb_refl /SvcService.checkActivePolicyReference.
  rw /PolRepository.ActiveReferenceName /PolRepository.FindActiveReferencing.
  destruct (List.filter _ _) as [|r rest] eqn:Hf.
  - exfalso. assert (H : In p (List.filter (PolRepository.active_referencing namespace name)
      (db_policies db))); [|by rw Hf in H].
    apply filter_In. split; [by apply list_elem_of_In|].
    rw /PolRepository.active_referencing Hns String.eqb_refl Hd /=. apply existsb_exists. exists name.
    split; [by apply list_elem_of_In|apply String.eqb_refl].
  - assert (H : In r (r :: rest)) by by left. rw -Hf filter_In -list_elem_of_In in H.
    destruct H as [H _]. specialize (Hnames r H). apply String.eqb_neq in Hnames. rw Hnames.
    split; [done|]. by eexists.
Qed.
End Operations.

(** ** Witnesses *)

Module PolSample.
Import Sample.

#[local] Instance accepting : ComputeRuntime Z := runtime MLRunPhaseRunning.
Definition hash (_ : bytes) : bytes := list_ascii_of_string "00000000".

(** Two online services. *)
Definition online (id name : string) : MLService Z :=
  {| ms_ID := id; ms_Namespace := "team"; ms_Kind := "service"; ms_Name := name;
     ms_DisplayName := ""; ms_Description := ""; ms_Owner := ""; ms_Labels := labels;
     ms_Annotations := JEmpty; ms_Spec := JVal service_spec;
     ms_AdmittedReplicas := JVal [2%Z; 1%Z]; ms_DispatchedReplicas := JVal [2%Z; 1%Z];
     ms_Generation := 1; ms_ObservedGeneration := 1; ms_Phase := SvcReady;
     ms_StatusJSON := JVal MLServiceStatus_zero; ms_CreatedAt := 1; ms_UpdatedAt := 1;
     ms_DeletedAt := None |}.

Definition two_services : DB Z :=
  {| db_runs := []; db_services := [online "s1" "a"; online "s2" "b"]; db_policies := [] |}.

Definition stable : BackendMember := {| bm_ServiceName := "a"; bm_Role := RoleStable; bm_Weight := 90 |}.
Definition canary : BackendMember := {| bm_ServiceName := "b"; bm_Role := RoleCanary; bm_Weight := 10 |}.

Definition canary_request : TrafficPolicyCreateRequest :=
  {| tq_Name := "entry"; tq_DisplayName := ""; tq_Description := ""; tq_Labels := ∅;
     tq_Annotations := ∅; tq_Mode := TrafficModeCanary;
     tq_Endpoint := {| ep_Path := ""; ep_Hostname := ""; ep_Auth := None |};
     tq_Backends := [stable; canary] |}.

Definition w_start : world Z := at_rest two_services.

Definition w_created : world Z :=
  with_db w_start (PolService.Create true 9 "p1" "u1" "team" canary_request two_services two_services).1.

Definition entry_spec : MLTrafficPolicySpec :=
  {| tsp_Backend := {| be_Name := "native"; be_Engine := "httproute"; be_Config := None |};
     tsp_Mode := TrafficModeCanary;
     tsp_Endpoint := {| ep_Path := "/services/team/entry/"; ep_Hostname := ""; ep_Auth := None |};
     tsp_Backends := [stable; canary] |}.

Definition entry : TrafficPolicy := PolService.new_row 9 "p1" "u1" "team" canary_request entry_spec.

Lemma created_rows : db_policies (w_db w_created) = [entry].
Proof. by vm_compute. Qed.

(** The reconciler reads the policy and applies it. *)
Definition w_applied : world Z := PolReconciler.handleCreate hash true 9 w_created entry.

Definition applied : TrafficPolicy := pol_Updates 9 [TObservedGeneration 1] entry.

Lemma applied_rows : policies w_applied = [applied].
Proof. by vm_compute. Qed.

Lemma start_sound : sound_policies w_start.
Proof.
  split_and!; [constructor| |by intros r ?%elem_of_nil].
  intros i k a b n Hi. by rw lookup_nil in Hi.
Qed.

Lemma entry_steps : rtc (pol_step true hash true) (w_start, []) (w_applied, [entry]).
Proof.
  eapply rtc_l; [apply (ps_Create true hash true 9 "p1" "u1" "team" canary_request two_services)|].
  eapply rtc_l; [apply ps_read|]. rw app_nil_r. rw /policies.
  change (with_db w_start _) with w_created. rw created_rows.
  apply rtc_once, ps_handleCreate. by left.
Qed.

Lemma applied_in : applied ∈ policies w_applied.
Proof. rw applied_rows. by left. Qed.

Lemma one_policy_per_service_witness :
  "a" ∈ PolRepository.members_of applied /\
  ~ exists b, b ∈ policies w_applied /\ applied <> b /\ tp_DeletedAt b = None /\
      tp_Namespace b = "team" /\ "a" ∈ PolRepository.members_of b.
Proof.
  split; [by left|]. intros (b & Hb & Hne & Hd & Hn & Hm). apply Hne.
  apply (one_policy_per_service true hash true w_start w_applied [entry] start_sound entry_steps
    applied b "a" applied_in Hb eq_refl Hd); [by rw Hn|by left|done].
Defined.

Lemma policies_well_formed_witness :
  zsum (weights [stable; canary]) = 100%Z /\ canary_pair [stable; canary].
Proof.
  destruct (policies_well_formed true hash true w_start w_applied [entry] applied start_sound entry_steps
    applied_in) as (spec & E & _ & _ & _ & _ & Hc & Hw).
  injection E as <-. split; [by apply Hw|by apply Hc].
Defined.

Lemma policy_observed_generation_witness : pol_accepted (w_calls w_applied) applied.
Proof.
  apply (policy_observed_generation true hash true w_start w_applied [entry] applied start_sound
    entry_steps applied_in). done.
Defined.

Lemma entry_valid : row_valid entry.
Proof. exists entry_spec. split_and!; [done|done|]. by split_and!; vm_compute. Qed.

Lemma created_sound : sound_policies w_created.
Proof.
  split_and!; rw /policies created_rows.
  - apply NoDup_singleton.
  - intros i k a b n Hi Hk _ _ _ _ _. destruct i, k; done.
  - intros r ->%list_elem_of_singleton. split; [apply entry_valid|]. by split.
Qed.

Lemma policy_rows_evolve_witness : exists r', r' ∈ policies w_applied /\ pol_version entry r'.
Proof.
  apply (policy_rows_evolve true hash true w_created w_applied [entry] entry created_sound).
  - rw {1}/policies created_rows. apply rtc_once, ps_handleCreate. by left.
  - rw /policies created_rows. by left.
Defined.

Definition db_entry : DB Z :=
  {| db_runs := []; db_services := [online "s1" "a"; online "s2" "b"]; db_policies := [entry] |}.

Lemma Promote_Rollback_shift_witness :
  exists r, (PolService.Promote 9 "team" "entry" db_entry db_entry).2 = inl (PolService.toView r) /\
    tp_Generation r = 2%Z /\
    exists spec', tp_Spec r = JVal spec' /\ has_backend spec' "b" RoleStable 100.
Proof.
  destruct (Promote_Rollback_shift 9 "team" "entry" entry entry_spec stable canary db_entry)
    as [(r & H1 & _ & H2 & spec' & H3 & _ & H4 & _) _];
    [apply NoDup_singleton|reflexivity|reflexivity|reflexivity|reflexivity|reflexivity|by left|].
  exists r. split_and!; [exact H1|exact H2|]. by exists spec'.
Defined.

Lemma referenced_service_kept_witness :
  let '(db', err) := SvcService.Delete (Some PolRepository.ActiveReferenceName) 9 "team" "a" db_entry in
  db' = db_entry /\ exists e, err = Some e /\ As e = Some CodeConflict.
Proof.
  apply (referenced_service_kept 9 "team" "a" (online "s1" "a") entry db_entry);
    [reflexivity| |reflexivity|by left|reflexivity|reflexivity|by left|].
  - simpl. set_solver.
  - by intros r ->%list_elem_of_singleton.
Defined.

(** The reference check of a service deletion is not covered by the
    advisory lock of policy creation: when a policy is validated, then the
    service is found unreferenced and deleted, then the policy is inserted,
    all three succeed and a live policy routes to a service that is gone. *)
Theorem delete_races_create :
  let db0 := two_services in
  exists row db1 db2 view,
    PolService.prepare true 9 "p1" "u1" "team" canary_request db0 = inl row /\
    SvcService.delete_check (Some PolRepository.ActiveReferenceName) "team" "a" (online "s1" "a") db0 = None /\
    db1 = SvcService.delete_row 10 (online "s1" "a") db0 /\
    PolService.insert_row row [stable; canary] db1 = (db2, inl view) /\
    PolRepository.ActiveReferenceName db2 "team" "a" = inl "entry" /\
    SvcRepository.GetByNamespaceName "team" "a" db2 = inr ErrRecordNotFound.
Proof. do 4 eexists. split_and!; by vm_compute. Qed.
End PolSample.
