(* ===== verification/QuotaCache.v ===== *)
(** * The quota usage cache of the scheduler

    [axisml-scheduler/internal/quota/cache.go]: resource requests of the pods
    accounted to each quota, with a running total per quota.  The mutex makes
    every method one step.

    The abstract contract of the cache is a map from (quota, pod) to the
    request recorded last; [Used] is the sum over it.  [cache_ok] relates the
    running totals to it. *)

From Stdlib Require Import ssreflect ZArith Lia.
From stdpp Require Import base gmap list strings.
From S2P Require Import Prelude Placement.

(** [LabelQuota] *)
Definition LabelQuota : string := "scheduling.axisml.io/quota".

(** [Key] *)
Definition Key (namespace name : string) : string := (namespace ++ "/" ++ name)%string.

Section QuotaCache.
Context {Q : Type} `{!Quantity Q}.

(** [info] *)
Record info := {
  in_pods : gmap string (gmap string Q);
  in_total : gmap string Q }.

(** [Cache] *)
Definition Cache : Type := gmap string info.

(** [New] *)
Definition New_cache : Cache := ∅.

(** [add] *)
Definition add (total req : gmap string Q) : gmap string Q := merge sum_entry total req.

(** [Quantity.IsZero] *)
Definition IsZero (q : Q) : bool := (q_sign q =? 0)%Z.

(** One name of [sub]: a quantity that reaches zero leaves the map. *)
Definition sub_entry (total req : option Q) : option Q :=
  match req with
  | None => total
  | Some q =>
      let cur := q_sub (default q_zero total) q in
      if IsZero cur then None else Some cur
  end.

(** [sub] *)
Definition sub (total req : gmap string Q) : gmap string Q := merge sub_entry total req.

Definition empty_info : info := {| in_pods := ∅; in_total := ∅ |}.

(** [AddPod] *)
Definition AddPod (quotaKey podKey : string) (req : gmap string Q) (c : Cache) : Cache :=
  let i := default empty_info (c !! quotaKey) in
  let total := match in_pods i !! podKey with
               | Some prev => sub (in_total i) prev
               | None => in_total i
               end in
  <[quotaKey := {| in_pods := <[podKey := req]> (in_pods i); in_total := add total req |}]> c.

(** [RemovePod] *)
Definition RemovePod (quotaKey podKey : string) (c : Cache) : Cache :=
  match c !! quotaKey with
  | None => c
  | Some i =>
      let i' := match in_pods i !! podKey with
                | Some prev => {| in_pods := delete podKey (in_pods i);
                                  in_total := sub (in_total i) prev |}
                | None => i
                end in
      if decide (in_pods i' = ∅) then delete quotaKey c else <[quotaKey := i']> c
  end.

(** [Used] *)
Definition Used (c : Cache) (quotaKey : string) : gmap string Q :=
  match c !! quotaKey with None => ∅ | Some i => in_total i end.

(** ** The abstract contract *)

(** What is recorded for a pod under a quota. *)
Definition recorded (c : Cache) (quotaKey podKey : string) : option (gmap string Q) :=
  c !! quotaKey ≫= fun i => in_pods i !! podKey.

Definition pods_of (c : Cache) (quotaKey : string) : gmap string (gmap string Q) :=
  in_pods (default empty_info (c !! quotaKey)).

Lemma recorded_pods c k u : recorded c k u = pods_of c k !! u.
Proof. rw /recorded /pods_of. by destruct (c !! k); simpl; rw ?lookup_empty. Qed.

Lemma pods_AddPod k u req c k' :
  pods_of (AddPod k u req c) k' = if decide (k' = k) then <[u := req]> (pods_of c k) else pods_of c k'.
Proof.
  rw /pods_of /AddPod. case_decide as Hk; [subst; by rw lookup_insert_eq|].
  by rw lookup_insert_ne.
Qed.

Lemma pods_RemovePod k u c k' :
  pods_of (RemovePod k u c) k' = if decide (k' = k) then delete u (pods_of c k) else pods_of c k'.
Proof.
  rw /pods_of /RemovePod. destruct (c !! k) as [i|] eqn:Hi; simpl; last first.
  { case_decide as Hk; [subst; by rw Hi /= delete_empty|done]. }
  assert (Hd : in_pods (match in_pods i !! u with
                        | Some prev => {| in_pods := delete u (in_pods i); in_total := sub (in_total i) prev |}
                        | None => i end) = delete u (in_pods i)).
  { destruct (in_pods i !! u) eqn:Hu; [done|]. by rw delete_id. }
  rw Hd. case_decide as He; case_decide as Hk; subst.
  - by rw lookup_delete_eq /= He.
  - by rw lookup_delete_ne.
  - by rw lookup_insert_eq.
  - by rw lookup_insert_ne.
Qed.

Lemma recorded_AddPod k u req c k' u' :
  recorded (AddPod k u req c) k' u' =
  if decide (k' = k /\ u' = u) then Some req else recorded c k' u'.
Proof.
  rw !recorded_pods pods_AddPod. repeat case_decide; try naive_solver.
  - destruct_and!. subst. by rw lookup_insert_eq.
  - subst. by rw lookup_insert_ne; [naive_solver|].
Qed.

Lemma recorded_RemovePod k u c k' u' :
  recorded (RemovePod k u c) k' u' =
  if decide (k' = k /\ u' = u) then None else recorded c k' u'.
Proof.
  rw !recorded_pods pods_RemovePod. repeat case_decide; try naive_solver.
  - destruct_and!. subst. by rw lookup_delete_eq.
  - subst. by rw lookup_delete_ne; [naive_solver|].
Qed.

(** ** Totals *)
Context `{!QuantityLaws Q}.

Lemma rl_val_add total req r : rl_val (add total req) r = (rl_val total r + rl_val req r)%Z.
Proof. apply rl_val_sum. Qed.

Lemma rl_val_sub total req r : rl_val (sub total req) r = (rl_val total r - rl_val req r)%Z.
Proof.
  rw /rl_val /rl_get /map_get /sub lookup_merge.
  destruct (total !! r) as [t|], (req !! r) as [q|]; simpl; rw ?q_val_zero; try lia.
  all: rw /IsZero q_sign_val q_val_sub ?q_val_zero; case_match; unbool; simpl;
    rw ?q_val_zero ?q_val_sub ?q_val_zero; lia.
Qed.

(** The value of resource [r] over all recorded requests. *)
Definition requested (pods : gmap string (gmap string Q)) (r : string) : Z :=
  zsum (map (fun p => rl_val p.2 r) (map_to_list pods)).

Lemma requested_empty r : requested ∅ r = 0%Z.
Proof. by rw /requested map_to_list_empty. Qed.

Lemma requested_insert pods u req r :
  pods !! u = None -> requested (<[u := req]> pods) r = (rl_val req r + requested pods r)%Z.
Proof.
  intros Hu. rw /requested. rw (zsum_perm _ (map (fun p => rl_val p.2 r) ((u, req) :: map_to_list pods))) //.
  apply Permutation_map. by apply map_to_list_insert.
Qed.

Lemma requested_delete pods u req r :
  pods !! u = Some req -> requested (delete u pods) r = (requested pods r - rl_val req r)%Z.
Proof.
  intros Hu. rw -{2}(insert_id pods u req) // -(insert_delete_eq pods).
  rw requested_insert; [by rw lookup_delete_eq|lia].
Qed.

(** Every running total is the sum over the pods recorded with it. *)
Definition cache_ok (c : Cache) : Prop :=
  forall k i r, c !! k = Some i -> rl_val (in_total i) r = requested (in_pods i) r.

Lemma New_ok : cache_ok New_cache.
Proof. by intros k i r; rw lookup_empty. Qed.

Lemma Used_requested c k r : cache_ok c -> rl_val (Used c k) r = requested (pods_of c k) r.
Proof.
  intros H. rw /Used /pods_of. destruct (c !! k) as [i|] eqn:Hi; simpl; [by apply H with k|].
  by rw rl_val_empty requested_empty.
Qed.

Lemma AddPod_ok k u req c : cache_ok c -> cache_ok (AddPod k u req c).
Proof.
  intros H k' i' r. rw /AddPod.
  destruct (decide (k = k')) as [<-|Hk]; [rw lookup_insert_eq|by rw lookup_insert_ne //; apply H].
  intros [= <-]. simpl. rw rl_val_add.
  assert (Ht : rl_val (in_total (default empty_info (c !! k))) r =
               requested (in_pods (default empty_info (c !! k))) r).
  { destruct (c !! k) as [i|] eqn:Hi; simpl; [by apply H with k|]. by rw rl_val_empty requested_empty. }
  set (i := default empty_info (c !! k)) in *.
  destruct (in_pods i !! u) as [prev|] eqn:Hu.
  - rw rl_val_sub Ht -insert_delete_eq requested_insert; [by rw lookup_delete_eq|].
    rw (requested_delete _ _ _ _ Hu). lia.
  - rw requested_insert // Ht. lia.
Qed.

Lemma RemovePod_ok k u c : cache_ok c -> cache_ok (RemovePod k u c).
Proof.
  intros H. rw /RemovePod. destruct (c !! k) as [i|] eqn:Hi; [|done].
  set (i' := match in_pods i !! u with Some _ => _ | None => _ end).
  assert (Hi' : forall r, rl_val (in_total i') r = requested (in_pods i') r).
  { intros r. rw /i'. destruct (in_pods i !! u) as [prev|] eqn:Hu; simpl; [|by apply H with k].
    rw rl_val_sub (requested_delete _ _ _ _ Hu) (H k i r Hi) //. }
  case_decide; intros k' j r.
  - destruct (decide (k = k')) as [<-|Hk]; [by rw lookup_delete_eq|]. rw lookup_delete_ne //. apply H.
  - destruct (decide (k = k')) as [<-|Hk]; [|rw lookup_insert_ne //; apply H].
    rw lookup_insert_eq. intros [= <-]. apply Hi'.
Qed.
End QuotaCache.
Arguments info : clear implicits.
Arguments Cache : clear implicits.

#[export] Hint Resolve New_ok AddPod_ok RemovePod_ok : axisml.
