(* ===== verification/ElasticQuota.v ===== *)
(** * The elastic quota scheduler plugin and controller

    [axisml-scheduler/internal/plugins/elasticscheduling] rejects pods that
    would take a quota past [spec.max]; it accounts a pod when it reserves a
    node for it and follows the pod informer.  [internal/controllers]
    publishes the usage of a quota in its status.

    Parameters: the helper that computes a pod's request, the informer's
    filtering handler, the cached client, the listers, the split of a
    namespaced key and semantic equality, all of Kubernetes' libraries. *)

From Stdlib Require Import ssreflect ZArith Lia Ascii.
From stdpp Require Import base gmap list strings.
From S2P Require Import Prelude Placement ApiTypes QuotaCache.

(** ** Objects *)

(** The parts of a pod the scheduler looks at; [P] are its containers. *)
Record Pod {P : Type} := {
  pod_UID : string;
  pod_Namespace : string;
  pod_Labels : gmap string string;
  pod_NodeName : string;
  pod_Phase : string;
  pod_Containers : P }.
Arguments Pod : clear implicits.

(** [v1alpha1.ElasticQuota]; a nil usage map is [None]. *)
Record ElasticQuota {Q : Type} := {
  eq_Namespace : string;
  eq_Name : string;
  eq_Max : gmap string Q;
  eq_Used : option (gmap string Q) }.
Arguments ElasticQuota : clear implicits.

(** What an informer hands to a handler: a pod, a tombstone with the last
    known object, or anything else. *)
Inductive obj {P : Type} :=
| ObjPod (pod : Pod P)
| DeletedFinalStateUnknown (last : option (Pod P))
| ObjOther.
Arguments obj : clear implicits.

Inductive event {P : Type} :=
| OnAdd (o : obj P)
| OnUpdate (old new : obj P)
| OnDelete (o : obj P).
Arguments event : clear implicits.

(** client-go's [FilteringResourceEventHandler]: an object that starts to
    pass the filter is an add, one that stops is a delete. *)
Class FilteringHandler (P : Type) := {
  route : (obj P -> bool) -> event P -> option (event P);
  route_add f o : route f (OnAdd o) = if f o then Some (OnAdd o) else None;
  route_update f old new : route f (OnUpdate old new) =
    match f new, f old with
    | true, true => Some (OnUpdate old new)
    | true, false => Some (OnAdd new)
    | false, true => Some (OnDelete old)
    | false, false => None
    end;
  route_delete f o : route f (OnDelete o) = if f o then Some (OnDelete o) else None }.

(** Names of Kubernetes objects hold no slash. *)
Definition no_slash (s : string) : Prop := "/"%char ∉ String.list_ascii_of_string s.

#[export] Instance no_slash_dec s : Decision (no_slash s).
Proof. rw /no_slash. apply _. Defined.

(** Split of a "namespace/name" key and [Semantic.DeepEqual] on usage. *)
Class KeyAndEquality (Q : Type) `{!Quantity Q} `{!QuantityLaws Q} := {
  SplitMetaNamespaceKey : string -> option (string * string);
  split_key namespace name :
    no_slash namespace -> no_slash name ->
    SplitMetaNamespaceKey (Key namespace name) = Some (namespace, name);
  DeepEqual : option (gmap string Q) -> option (gmap string Q) -> bool;
  DeepEqual_refl a : DeepEqual a a = true;
  DeepEqual_val a b r : DeepEqual a b = true -> rl_val (default ∅ a) r = rl_val (default ∅ b) r }.

Section Pods.
Context {Q P : Type} `{!Quantity Q} (PodRequests : P -> gmap string Q).
Implicit Types (pod : Pod P) (c : Cache Q).

(** [Terminal] *)
Definition Terminal pod : bool :=
  String.eqb (pod_Phase pod) "Succeeded" || String.eqb (pod_Phase pod) "Failed".

(** [PodRequest] *)
Definition PodRequest pod : gmap string Q := PodRequests (pod_Containers pod).

(** [pod.Labels[quota.LabelQuota]] *)
Definition quota_of pod : string := map_get "" (pod_Labels pod) LabelQuota.

(** [quota.Key(pod.Namespace, pod.Labels[quota.LabelQuota])] *)
Definition pod_key pod : string := Key (pod_Namespace pod) (quota_of pod).

(** ** The plugin *)

(** [managedPod] *)
Definition managedPod pod : bool :=
  negb (String.eqb (pod_NodeName pod) "") && negb (String.eqb (quota_of pod) "") && negb (Terminal pod).

(** The informer's [FilterFunc]. *)
Definition FilterFunc (o : obj P) : bool :=
  match o with
  | ObjPod pod => managedPod pod
  | DeletedFinalStateUnknown (Some pod) => managedPod pod
  | DeletedFinalStateUnknown None | ObjOther => false
  end.

(** The reasons [PreFilter] reports. *)
Inductive reason :=
| MissingLabel
| QuotaNotFound (namespace name : string)
| Exceeded (namespace name resource : string) (total max : Q).

(** [fwk.Status] *)
Inductive Status :=
| Success
| Unschedulable (why : reason)
| AsStatus (err : error).

(** The loop body of [PreFilter] for one constrained resource: the usage with
    the pod's request. *)
Definition with_request (used req : gmap string Q) (name : string) : Q :=
  match req !! name with
  | Some r => q_add (rl_get used name) r
  | None => rl_get used name
  end.

Definition over (used req : gmap string Q) (p : string * Q) : bool :=
  match q_cmp (with_request used req p.1) p.2 with Gt => true | _ => false end.

(** [PreFilter]; [Get] reads the cached ElasticQuota.  A Go map is iterated in
    some order; the first offending resource is reported. *)
Definition PreFilter (Get : string -> string -> ElasticQuota Q + error) c pod : Status :=
  let eqName := quota_of pod in
  if String.eqb eqName "" then Unschedulable MissingLabel
  else match Get (pod_Namespace pod) eqName with
  | inr err =>
      if IsAPINotFound err then Unschedulable (QuotaNotFound (pod_Namespace pod) eqName)
      else AsStatus (Errorf ("get elasticquota " ++ pod_Namespace pod ++ "/" ++ eqName) err)
  | inl eq =>
      if decide (eq_Max eq = ∅) then Success
      else
        let req := PodRequest pod in
        let used := Used c (Key (pod_Namespace pod) eqName) in
        match List.find (over used req) (map_to_list (eq_Max eq)) with
        | Some (name, max) =>
            Unschedulable (Exceeded (pod_Namespace pod) eqName name (with_request used req name) max)
        | None => Success
        end
  end.

(** [Reserve] *)
Definition Reserve pod c : Cache Q :=
  if String.eqb (quota_of pod) "" then c
  else AddPod (pod_key pod) (pod_UID pod) (PodRequest pod) c.

(** [Unreserve] *)
Definition Unreserve pod c : Cache Q :=
  if String.eqb (quota_of pod) "" then c
  else RemovePod (pod_key pod) (pod_UID pod) c.

(** [onPodAdd] *)
Definition onPodAdd (o : obj P) c : Cache Q :=
  match o with
  | ObjPod pod => AddPod (pod_key pod) (pod_UID pod) (PodRequest pod) c
  | _ => c
  end.

(** [onPodUpdate] *)
Definition onPodUpdate (old new : obj P) c : Cache Q :=
  match new with
  | ObjPod newPod =>
      let newKey := pod_key newPod in
      let c := match old with
               | ObjPod oldPod =>
                   if negb (String.eqb (pod_key oldPod) newKey)
                   then RemovePod (pod_key oldPod) (pod_UID oldPod) c else c
               | _ => c
               end in
      if Terminal newPod then RemovePod newKey (pod_UID newPod) c
      else AddPod newKey (pod_UID newPod) (PodRequest newPod) c
  | _ => c
  end.

(** [onPodDelete] *)
Definition onPodDelete (o : obj P) c : Cache Q :=
  match o with
  | ObjPod pod | DeletedFinalStateUnknown (Some pod) => RemovePod (pod_key pod) (pod_UID pod) c
  | DeletedFinalStateUnknown None | ObjOther => c
  end.

Definition handle (e : event P) c : Cache Q :=
  match e with
  | OnAdd o => onPodAdd o c
  | OnUpdate old new => onPodUpdate old new c
  | OnDelete o => onPodDelete o c
  end.

(** An informer event goes through the filter that [New] installs. *)
Definition deliver `{!FilteringHandler P} (e : event P) c : Cache Q :=
  match route FilterFunc e with Some e' => handle e' c | None => c end.

(** ** The controller *)

(** [podFrom] *)
Definition podFrom (o : obj P) : option (Pod P) :=
  match o with
  | ObjPod pod => Some pod
  | DeletedFinalStateUnknown last => last
  | ObjOther => None
  end.

(** [enqueuePod]: the key that is added to the queue. *)
Definition enqueuePod (o : obj P) : option string :=
  match podFrom o with
  | None => None
  | Some pod => if String.eqb (quota_of pod) "" then None else Some (pod_key pod)
  end.

(** The usage loop of [reconcile]. *)
Definition count_pod (used : gmap string Q) pod : gmap string Q :=
  if String.eqb (pod_NodeName pod) "" || Terminal pod then used
  else merge sum_entry used (PodRequest pod).

Definition published (pods : list (Pod P)) : option (gmap string Q) :=
  let used := foldl count_pod ∅ pods in
  if decide (used = ∅) then None else Some used.

(** [reconcile]: the object written, if any.  [Get] and [List] are the
    listers, [UpdateStatus] the API call. *)
Definition reconcile `{!QuantityLaws Q} `{!KeyAndEquality Q}
    (Get : string -> string -> ElasticQuota Q + error)
    (List : string -> string -> list (Pod P) + error)
    (UpdateStatus : ElasticQuota Q -> option error) (key : string)
    : option (ElasticQuota Q) + error :=
  match SplitMetaNamespaceKey key with
  | None => inl None
  | Some (namespace, name) =>
      match Get namespace name with
      | inr err => if IsAPINotFound err then inl None else inr err
      | inl eq =>
          match List namespace name with
          | inr err => inr err
          | inl pods =>
              let used := published pods in
              if DeepEqual (eq_Used eq) used then inl None
              else
                let updated := {| eq_Namespace := eq_Namespace eq; eq_Name := eq_Name eq;
                                  eq_Max := eq_Max eq; eq_Used := used |} in
                match UpdateStatus updated with
                | Some err => inr (Errorf "update status" err)
                | None => inl (Some updated)
                end
          end
      end
  end.

(** What [processNext] does with the key afterwards. *)
Inductive queue_action := AddRateLimited | Forget.

Definition processNext {A} (result : A + error) : queue_action :=
  match result with inr _ => AddRateLimited | inl _ => Forget end.
End Pods.
Arguments reason : clear implicits.
Arguments Status : clear implicits.
