(* ===== verification/ElasticQuotaProperties.v ===== *)
(** * Elastic quotas: how the handlers move the accounting

    The plugin's scheduling cycle and its informer as step relations, with
    their invariants. *)

From Stdlib Require Import ssreflect ZArith Lia Ascii Permutation.
From stdpp Require Import base gmap list strings relations.
From S2P Require Import Prelude Placement ApiTypes QuotaCache ElasticQuota.

(** A key determines namespace and name. *)
Lemma Key_inj ns1 n1 ns2 n2 :
  no_slash ns1 -> no_slash ns2 -> Key ns1 n1 = Key ns2 n2 -> ns1 = ns2 /\ n1 = n2.
Proof.
  rw /Key /no_slash. revert ns2. induction ns1 as [|a s1 IH]; intros [|b s2] H1 H2; cbn [String.append].
  - intros [= E]. exact (conj eq_refl E).
  - intros [= <- _]. destruct H2. by left.
  - intros [= -> _]. destruct H1. by left.
  - intros [= -> E]. destruct (IH s2) as [-> ->]; simpl in *; [set_solver|set_solver|done|done].
Qed.

Section Facts.
Context {Q P : Type} `{!Quantity Q} `{!QuantityLaws Q} `{!FilteringHandler P}
        (PodRequests : P -> gmap string Q).
Implicit Types (pod p : Pod P) (c : Cache Q).

(** ** PreFilter *)

Lemma with_request_val (used req : gmap string Q) name :
  q_val (with_request used req name) = (rl_val used name + rl_val req name)%Z.
Proof.
  rw /with_request. destruct (req !! name) as [r|] eqn:Hr.
  - by rw q_val_add (rl_val_lookup _ _ _ Hr).
  - rw (rl_val_None _ _ Hr) /rl_val. lia.
Qed.

Lemma over_spec (used req : gmap string Q) name max :
  over used req (name, max) = true <-> (q_val max < rl_val used name + rl_val req name)%Z.
Proof.
  rw /over /= q_cmp_val with_request_val.
  destruct (Z.compare_spec (rl_val used name + rl_val req name) (q_val max)); split; try done; lia.
Qed.

(** No constrained resource would be exceeded. *)
Definition within (max used req : gmap string Q) : Prop :=
  forall r, r ∈ dom max -> (rl_val used r + rl_val req r <= rl_val max r)%Z.

Lemma find_over_None (used req max : gmap string Q) :
  List.find (over used req) (map_to_list max) = None <-> within max used req.
Proof.
  split.
  - intros H r [m Hm]%elem_of_dom. rw (rl_val_lookup _ _ _ Hm).
    assert (Hin : In (r, m) (map_to_list max)) by by apply list_elem_of_In, elem_of_map_to_list.
    pose proof (find_none _ _ H _ Hin) as Ho. apply not_true_iff_false in Ho. rw over_spec in Ho. lia.
  - intros H. destruct (List.find _ _) as [[r m]|] eqn:Hf; [|done].
    apply find_some in Hf as [Hin%list_elem_of_In%elem_of_map_to_list Ho].
    apply over_spec in Ho. specialize (H r (elem_of_dom_2 _ _ _ Hin)).
    rw (rl_val_lookup _ _ _ Hin) in H. lia.
Qed.

(** ** Recording one pod *)

Definition nonneg_requests : Prop := forall s r, (0 <= rl_val (PodRequests s) r)%Z.

(** Everything recorded is non-negative. *)
Definition cache_nonneg c : Prop :=
  forall k u req r, recorded c k u = Some req -> (0 <= rl_val req r)%Z.

Definition recorded_val c k u r : Z :=
  match recorded c k u with Some prev => rl_val prev r | None => 0%Z end.

Lemma requested_recorded c k u r :
  requested (pods_of c k) r = (requested (delete u (pods_of c k)) r + recorded_val c k u r)%Z.
Proof.
  rw /recorded_val recorded_pods. destruct (pods_of c k !! u) as [prev|] eqn:Hu.
  - rw (requested_delete _ _ _ _ Hu). lia.
  - rw delete_id //. lia.
Qed.

Lemma Used_AddPod k u req c k' r :
  cache_ok c ->
  rl_val (Used (AddPod k u req c) k') r =
  (rl_val (Used c k') r + if decide (k' = k) then rl_val req r - recorded_val c k u r else 0)%Z.
Proof.
  intros Hc. rw !Used_requested //; [by apply AddPod_ok|]. rw pods_AddPod. case_decide; [subst|lia].
  rw -insert_delete_eq requested_insert; [by rw lookup_delete_eq|]. rw (requested_recorded c k u). lia.
Qed.

Lemma Used_RemovePod k u c k' r :
  cache_ok c ->
  rl_val (Used (RemovePod k u c) k') r =
  (rl_val (Used c k') r - if decide (k' = k) then recorded_val c k u r else 0)%Z.
Proof.
  intros Hc. rw !Used_requested //; [by apply RemovePod_ok|]. rw pods_RemovePod. case_decide; [subst|lia].
  rw (requested_recorded c k u). lia.
Qed.

Lemma recorded_val_nonneg c k u r : cache_nonneg c -> (0 <= recorded_val c k u r)%Z.
Proof. intros H. rw /recorded_val. destruct (recorded c k u) eqn:E; [by eapply H|done]. Qed.

Lemma AddPod_nonneg k u req c :
  (forall r, (0 <= rl_val req r)%Z) -> cache_nonneg c -> cache_nonneg (AddPod k u req c).
Proof. intros Hr Hc k' u' q r. rw recorded_AddPod. case_decide; [intros [= <-]; auto|apply Hc]. Qed.

Lemma RemovePod_nonneg k u c : cache_nonneg c -> cache_nonneg (RemovePod k u c).
Proof. intros Hc k' u' q r. rw recorded_RemovePod. case_decide; [done|apply Hc]. Qed.
End Facts.

(** ** Elastic quotas: properties

    The cache against its abstract contract, enforcement of [spec.max] over
    scheduling cycles, and the agreement of the plugin's accounting with the
    usage the controller publishes. *)

(** ** The cache refines a map of recorded requests *)
Section Refinement.
Context {Q : Type} `{!Quantity Q} `{!QuantityLaws Q}.

Inductive op :=
| OpAdd (quotaKey podKey : string) (req : gmap string Q)
| OpRemove (quotaKey podKey : string).

Definition apply_op (c : Cache Q) (o : op) : Cache Q :=
  match o with OpAdd k u req => AddPod k u req c | OpRemove k u => RemovePod k u c end.

(** The abstract state: the request recorded last for a quota and a pod. *)
Abbreviation ledger := (gmap (string * string) (gmap string Q)).

Definition spec_op (m : ledger) (o : op) : ledger :=
  match o with OpAdd k u req => <[(k, u) := req]> m | OpRemove k u => delete (k, u) m end.

Definition entry_val (k r : string) (x : (string * string) * gmap string Q) : Z :=
  if decide (x.1.1 = k) then rl_val x.2 r else 0%Z.

(** The sum of everything on record for a quota. *)
Definition ledger_usage (m : ledger) (k r : string) : Z := zsum (map (entry_val k r) (map_to_list m)).

Lemma ledger_insert (m : ledger) x req k r :
  m !! x = None -> ledger_usage (<[x := req]> m) k r = (entry_val k r (x, req) + ledger_usage m k r)%Z.
Proof.
  intros Hx. rw /ledger_usage.
  rw (zsum_perm _ (map (entry_val k r) ((x, req) :: map_to_list m))) //.
  apply Permutation_map. by apply map_to_list_insert.
Qed.

Lemma ledger_delete (m : ledger) x k r :
  ledger_usage (delete x m) k r =
  (ledger_usage m k r - match m !! x with Some req => entry_val k r (x, req) | None => 0 end)%Z.
Proof.
  destruct (m !! x) as [req|] eqn:Hx; [|rw delete_id //; lia].
  rw -{2}(insert_id m x req) // -(insert_delete_eq m).
  rw ledger_insert; [by rw lookup_delete_eq|lia].
Qed.

Definition represents (c : Cache Q) (m : ledger) : Prop :=
  cache_ok c /\ (forall k u, recorded c k u = m !! (k, u)) /\
  forall k r, rl_val (Used c k) r = ledger_usage m k r.

Lemma represents_step c m o : represents c m -> represents (apply_op c o) (spec_op m o).
Proof.
  intros (Hok & Hrec & Hu). destruct o as [k u req|k u]; simpl.
  - split_and!; [by apply AddPod_ok| |].
    + intros k' u'. rw recorded_AddPod Hrec. case_decide as He.
      * destruct He as [-> ->]. by rw lookup_insert_eq.
      * rw lookup_insert_ne //. naive_solver.
    + intros k' r. rw Used_AddPod // Hu -insert_delete_eq.
      rw ledger_insert; [by rw lookup_delete_eq|]. rw ledger_delete /recorded_val Hrec /entry_val /=.
      destruct (m !! (k, u)); repeat case_decide; subst; simpl in *; try done; lia.
  - split_and!; [by apply RemovePod_ok| |].
    + intros k' u'. rw recorded_RemovePod Hrec. case_decide as He.
      * destruct He as [-> ->]. by rw lookup_delete_eq.
      * rw lookup_delete_ne //. naive_solver.
    + intros k' r. rw Used_RemovePod // Hu ledger_delete /recorded_val Hrec /entry_val /=.
      destruct (m !! (k, u)); repeat case_decide; subst; simpl in *; try done; lia.
Qed.

Lemma represents_ops ops c m :
  represents c m -> represents (foldl apply_op c ops) (foldl spec_op m ops).
Proof. revert c m. induction ops as [|o ops IH]; intros c m H; [done|]. by apply IH, represents_step. Qed.

(** The cache implements a ledger: after any sequence of AddPod and
    RemovePod, in which pods are added twice, re-added with another request
    or removed without having been added, exactly the request recorded last
    for each quota and pod is held, and Used is, for every resource, the sum
    of them. *)
Theorem cache_refines_ledger (ops : list op) :
  let c := foldl apply_op New_cache ops in
  let m := foldl spec_op ∅ ops in
  (forall k u, recorded c k u = m !! (k, u)) /\
  (forall k r, rl_val (Used c k) r = ledger_usage m k r).
Proof.
  assert (H : represents (New_cache : Cache Q) ∅).
  { split_and!; [apply New_ok|by intros k u; rw /recorded !lookup_empty|].
    intros k r. rw /Used /ledger_usage lookup_empty map_to_list_empty. apply rl_val_empty. }
  by destruct (represents_ops ops _ _ H) as (_ & ? & ?).
Qed.
End Refinement.
Arguments op : clear implicits.

(** ** Enforcement *)
Section Enforcement.
Context {Q P : Type} `{!Quantity Q} `{!QuantityLaws Q} `{!FilteringHandler P}
        (PodRequests : P -> gmap string Q).
Implicit Types (p pod : Pod P) (c : Cache Q).

Lemma PreFilter_Success Get c pod :
  PreFilter PodRequests Get c pod = Success <->
  quota_of pod <> "" /\
  exists eq, Get (pod_Namespace pod) (quota_of pod) = inl eq /\
    within (eq_Max eq) (Used c (pod_key pod)) (PodRequest PodRequests pod).
Proof.
  rw /PreFilter /=. destruct (String.eqb_spec (quota_of pod) "") as [He|He].
  { split; [done|]. by intros [? _]. }
  destruct (Get (pod_Namespace pod) (quota_of pod)) as [eq|err] eqn:HG; last first.
  { split; [by case_match|]. intros (_ & eq & Heq & _). done. }
  split.
  - intros H. split; [done|]. exists eq. split; [done|]. case_decide as Hm.
    + rw Hm. intros r. by rw dom_empty_L elem_of_empty.
    + destruct (List.find _ _) as [[]|] eqn:Hf; [done|]. by apply find_over_None.
  - intros (_ & eq' & [= <-] & Hw). case_decide; [done|].
    apply find_over_None in Hw. rw /pod_key in Hw. by rw Hw.
Qed.

(** PreFilter fails closed and decides exactly: a pod passes if and only
    if it carries the quota label, its ElasticQuota can be read, and for every
    resource the quota constrains, usage plus the pod's request stays within
    the maximum; a missing quota makes the pod unschedulable, any other read
    error is an error. *)
Theorem PreFilter_exact Get c pod :
  let result := PreFilter PodRequests Get c pod in
  (result = Success <->
     quota_of pod <> "" /\
     exists eq, Get (pod_Namespace pod) (quota_of pod) = inl eq /\
       within (eq_Max eq) (Used c (pod_key pod)) (PodRequest PodRequests pod)) /\
  (forall err, quota_of pod <> "" -> Get (pod_Namespace pod) (quota_of pod) = inr err ->
     if IsAPINotFound err then result = Unschedulable (QuotaNotFound (pod_Namespace pod) (quota_of pod))
     else exists e, result = AsStatus e).
Proof.
  split; [apply PreFilter_Success|]. intros err He HG. rw /PreFilter HG.
  destruct (String.eqb_spec (quota_of pod) ""); [done|]. case_match; by eauto.
Qed.

Context (k : string) (max : gmap string Q).

(** The pod an event brings to the plugin's attention. *)
Definition subject (e : event P) : option (Pod P) :=
  match e with
  | OnAdd (ObjPod pod) | OnUpdate _ (ObjPod pod) => if managedPod pod then Some pod else None
  | _ => None
  end.

(** The event shows nothing that was not reserved before. *)
Definition known c (e : event P) : Prop :=
  forall pod, subject e = Some pod -> pod_key pod = k ->
    exists prev, recorded c k (pod_UID pod) = Some prev /\
      forall r, (rl_val (PodRequest PodRequests pod) r <= rl_val prev r)%Z.

(** The scheduler runs one scheduling cycle at a time; binding, and with it
    Unreserve, and informer events run beside it. *)
Inductive cycle : Cache Q * option (Pod P) -> Cache Q * option (Pod P) -> Prop :=
| cy_PreFilter Get p c :
    PreFilter PodRequests Get c p = Success ->
    (pod_key p = k -> forall eq, Get (pod_Namespace p) (quota_of p) = inl eq -> eq_Max eq = max) ->
    cycle (c, None) (c, Some p)
| cy_Reserve p c : cycle (c, Some p) (Reserve PodRequests p c, None)
| cy_abandon p c : cycle (c, Some p) (c, None)
| cy_Unreserve p c o : cycle (c, o) (Unreserve p c, o)
| cy_event e c o : known c e -> cycle (c, o) (deliver PodRequests e c, o).

Definition sound_cache c : Prop := cache_ok c /\ cache_nonneg c.

(** What the cycle in progress will add. *)
Definition pending (o : option (Pod P)) (r : string) : Z :=
  match o with
  | Some p => if decide (pod_key p = k) then rl_val (PodRequest PodRequests p) r else 0%Z
  | None => 0%Z
  end.

Definition bounded (x : Cache Q * option (Pod P)) : Prop :=
  sound_cache x.1 /\
  forall r, r ∈ dom max -> (rl_val (Used x.1 k) r + pending x.2 r <= rl_val max r)%Z.

Context (Hreq : nonneg_requests PodRequests).

Lemma request_nonneg pod r : (0 <= rl_val (PodRequest PodRequests pod) r)%Z.
Proof. apply Hreq. Qed.

Lemma add_sound pod key c : sound_cache c -> sound_cache (AddPod key (pod_UID pod) (PodRequest PodRequests pod) c).
Proof. intros [? ?]. split; [by apply AddPod_ok|]. apply AddPod_nonneg; [apply request_nonneg|done]. Qed.

Lemma remove_sound key u c : sound_cache c -> sound_cache (RemovePod key u c).
Proof. intros [? ?]. split; [by apply RemovePod_ok|by apply RemovePod_nonneg]. Qed.

(** A change that keeps the cache sound and does not raise usage. *)
Definition harmless c c' : Prop :=
  sound_cache c' /\ forall r, (rl_val (Used c' k) r <= rl_val (Used c k) r)%Z.

Lemma remove_harmless key u c : sound_cache c -> harmless c (RemovePod key u c).
Proof.
  intros H. split; [by apply remove_sound|]. intros r. destruct H as [? Hn].
  rw Used_RemovePod //. pose proof (recorded_val_nonneg c key u r Hn). case_decide; lia.
Qed.

Lemma add_harmless pod c :
  sound_cache c ->
  (pod_key pod = k -> exists prev, recorded c k (pod_UID pod) = Some prev /\
     forall r, (rl_val (PodRequest PodRequests pod) r <= rl_val prev r)%Z) ->
  harmless c (AddPod (pod_key pod) (pod_UID pod) (PodRequest PodRequests pod) c).
Proof.
  intros H Hk. split; [by apply add_sound|]. intros r. rw Used_AddPod; [by destruct H|].
  case_decide as E; [|lia]. destruct Hk as (prev & Hp & Hle); [done|].
  rw /recorded_val -E Hp. specialize (Hle r). lia.
Qed.

Lemma harmless_trans c1 c2 c3 : harmless c1 c2 -> harmless c2 c3 -> harmless c1 c3.
Proof. intros [_ H1] [? H2]. split; [done|]. intros r. specialize (H1 r). specialize (H2 r). lia. Qed.

Lemma harmless_refl c : sound_cache c -> harmless c c.
Proof. by split. Qed.

Lemma managed_not_terminal pod : managedPod pod = true -> Terminal pod = false.
Proof. rw /managedPod. intros H. by unbool. Qed.

Lemma update_harmless old pod c :
  sound_cache c -> managedPod pod = true ->
  (pod_key pod = k -> exists prev, recorded c k (pod_UID pod) = Some prev /\
     forall r, (rl_val (PodRequest PodRequests pod) r <= rl_val prev r)%Z) ->
  harmless c (onPodUpdate PodRequests old (ObjPod pod) c).
Proof.
  intros Hs Hm Hk. rw /onPodUpdate (managed_not_terminal _ Hm).
  destruct old as [o|?|]; [|by apply add_harmless..].
  destruct (String.eqb_spec (pod_key o) (pod_key pod)) as [E|E]; simpl; [by apply add_harmless|].
  eapply harmless_trans; [by apply remove_harmless|].
  apply add_harmless; [by apply remove_sound|]. intros Ek. destruct (Hk Ek) as (prev & Hp & Hle).
  exists prev. split; [|done]. rw recorded_RemovePod. rw decide_False //. naive_solver.
Qed.

Lemma delete_harmless (o : obj P) c : sound_cache c -> harmless c (onPodDelete o c).
Proof. intros H. destruct o as [?|[?|]|]; simpl; by (apply remove_harmless || apply harmless_refl). Qed.

Lemma deliver_harmless e c : sound_cache c -> known c e -> harmless c (deliver PodRequests e c).
Proof.
  intros Hs Hk. rw /deliver. destruct e as [o|old o|o].
  - rw route_add. destruct (FilterFunc o) eqn:Hf; [|by apply harmless_refl].
    destruct o as [p|?|]; simpl; [|by apply harmless_refl..].
    apply add_harmless; [done|]. apply Hk. simpl in *. by rw Hf.
  - rw route_update. destruct (FilterFunc o) eqn:Hn, (FilterFunc old) eqn:Ho;
      [|..|by apply harmless_refl]; simpl.
    + destruct o as [p|?|]; [|by apply harmless_refl..]. simpl in Hn.
      apply update_harmless; [done|done|]. apply Hk. by rw /= Hn.
    + destruct o as [p|?|]; simpl; [|by apply harmless_refl..]. simpl in Hn.
      apply add_harmless; [done|]. apply Hk. by rw /= Hn.
    + by apply delete_harmless.
  - rw route_delete. destruct (FilterFunc o); [|by apply harmless_refl]. by apply delete_harmless.
Qed.

Lemma cycle_bounded x y : cycle x y -> bounded x -> bounded y.
Proof.
  intros Hxy [Hs Hb]. destruct Hxy as [Get p c Hp Hm|p c|p c|p c o|e c o Hk]; simpl in *.
  - split; [done|]. intros r Hr. simpl. case_decide as E; [|by apply Hb].
    apply PreFilter_Success in Hp as (_ & eq & HG & Hw).
    rw (Hm E eq HG) E in Hw. by apply Hw.
  - rw /Reserve. destruct (String.eqb_spec (quota_of p) "") as [He|He].
    + split; [done|]. intros r Hr. specialize (Hb r Hr). simpl in *.
      case_decide; [pose proof (request_nonneg p r)|]; lia.
    + split; [by apply add_sound|]. intros r Hr. specialize (Hb r Hr). simpl in *.
      rw Used_AddPod; [by destruct Hs|].
      pose proof (recorded_val_nonneg c (pod_key p) (pod_UID p) r (proj2 Hs)).
      repeat case_decide; try congruence; lia.
  - split; [done|]. intros r Hr. specialize (Hb r Hr). simpl in *.
    case_decide; [pose proof (request_nonneg p r)|]; lia.
  - rw /Unreserve. destruct (String.eqb _ _); [done|].
    destruct (remove_harmless (pod_key p) (pod_UID p) c Hs) as [? Hle].
    split; [done|]. intros r Hr. specialize (Hb r Hr). specialize (Hle r). simpl in *. lia.
  - destruct (deliver_harmless e c Hs Hk) as [? Hle].
    split; [done|]. intros r Hr. specialize (Hb r Hr). specialize (Hle r). simpl in *. lia.
Qed.

(** C15: the quota is never exceeded: from an accounting within the maximum,
    over any interleaving of scheduling cycles (PreFilter and Reserve as
    separate steps), Unreserve calls and informer events about pods that were
    reserved before, the usage of a quota stays within its maximum for every
    resource the quota constrains. *)
Theorem quota_enforced c c' o :
  sound_cache c -> (forall r, r ∈ dom max -> (rl_val (Used c k) r <= rl_val max r)%Z) ->
  rtc cycle (c, None) (c', o) ->
  forall r, r ∈ dom max -> (rl_val (Used c' k) r <= rl_val max r)%Z.
Proof.
  intros Hs Hb Hsteps r Hr.
  assert (Hx : bounded (c, None)).
  { split; [done|]. intros r' Hr'. specialize (Hb r' Hr'). simpl. lia. }
  assert (Hy : bounded (c', o)).
  { revert Hx. eapply (rtc_ind_l (fun x => bounded x -> bounded (c', o))); [done| |done].
    intros x y Hxy _ IH Hx. by apply IH, (cycle_bounded x). }
  destruct Hy as [_ Hy]. specialize (Hy r Hr). simpl in Hy.
  assert (0 <= pending o r)%Z; [|lia]. rw /pending. destruct o; [|done].
  case_decide; [apply request_nonneg|done].
Qed.
End Enforcement.

(** ** Agreement of plugin and controller *)
Section Agreement.
Context {Q P : Type} `{!Quantity Q} `{!QuantityLaws Q} `{!FilteringHandler P} `{!KeyAndEquality Q}
        (PodRequests : P -> gmap string Q).
Implicit Types (p pod old : Pod P) (c : Cache Q).

(** The informer's store, the plugin's cache, the reservations whose binding
    the informer has not shown yet, and the quotas in which an entry has
    outlived its pod. *)
Record view := {
  vw_seen : gmap string (Pod P);
  vw_cache : Cache Q;
  vw_inflight : gmap string (string * gmap string Q);
  vw_leaked : gset string }.

Definition observe pod (inflight : gmap string (string * gmap string Q))
    : gmap string (string * gmap string Q) :=
  if managedPod pod then delete (pod_UID pod) inflight else inflight.

(** A pod that turns up bound under another quota than it was reserved in
    leaves the reservation behind: [onPodUpdate] and [onPodAdd] do not know of
    it. *)
Definition relabelled pod (inflight : gmap string (string * gmap string Q)) : gset string :=
  match inflight !! pod_UID pod with
  | Some (key, _) => if managedPod pod && negb (String.eqb key (pod_key pod)) then {[key]} else ∅
  | None => ∅
  end.

(** An update that replaces a pod by one with another UID in the same quota
    leaves the entry of the old UID behind. *)
Definition replaced old pod : gset string :=
  if managedPod old && managedPod pod && String.eqb (pod_key old) (pod_key pod) then {[pod_key old]} else ∅.

(** The events of the informer, and the scheduler's reservations: a pod is
    reserved while it is not bound, and unreserved only while its binding has
    not been seen. *)
Inductive sync_step : view -> view -> Prop :=
| sy_add pod v :
    vw_seen v !! pod_UID pod = None ->
    sync_step v {| vw_seen := <[pod_UID pod := pod]> (vw_seen v);
                   vw_cache := deliver PodRequests (OnAdd (ObjPod pod)) (vw_cache v);
                   vw_inflight := observe pod (vw_inflight v);
                   vw_leaked := relabelled pod (vw_inflight v) ∪ vw_leaked v |}
| sy_update old pod v :
    vw_seen v !! pod_UID pod = Some old ->
    sync_step v {| vw_seen := <[pod_UID pod := pod]> (vw_seen v);
                   vw_cache := deliver PodRequests (OnUpdate (ObjPod old) (ObjPod pod)) (vw_cache v);
                   vw_inflight := observe pod (vw_inflight v);
                   vw_leaked := relabelled pod (vw_inflight v) ∪ vw_leaked v |}
| sy_replace old pod v :
    vw_seen v !! pod_UID old = Some old -> vw_seen v !! pod_UID pod = None ->
    sync_step v {| vw_seen := <[pod_UID pod := pod]> (delete (pod_UID old) (vw_seen v));
                   vw_cache := deliver PodRequests (OnUpdate (ObjPod old) (ObjPod pod)) (vw_cache v);
                   vw_inflight := observe pod (vw_inflight v);
                   vw_leaked := relabelled pod (vw_inflight v) ∪ (replaced old pod ∪ vw_leaked v) |}
| sy_delete old o v :
    vw_seen v !! pod_UID old = Some old -> podFrom o = Some old ->
    sync_step v {| vw_seen := delete (pod_UID old) (vw_seen v);
                   vw_cache := deliver PodRequests (OnDelete o) (vw_cache v);
                   vw_inflight := vw_inflight v; vw_leaked := vw_leaked v |}
| sy_reserve pod v :
    quota_of pod <> "" -> vw_inflight v !! pod_UID pod = None ->
    (forall p, vw_seen v !! pod_UID pod = Some p -> managedPod p = false) ->
    sync_step v {| vw_seen := vw_seen v; vw_cache := Reserve PodRequests pod (vw_cache v);
                   vw_inflight := <[pod_UID pod := (pod_key pod, PodRequest PodRequests pod)]>
                                    (vw_inflight v); vw_leaked := vw_leaked v |}
| sy_unreserve pod req v :
    quota_of pod <> "" -> vw_inflight v !! pod_UID pod = Some (pod_key pod, req) ->
    sync_step v {| vw_seen := vw_seen v; vw_cache := Unreserve pod (vw_cache v);
                   vw_inflight := delete (pod_UID pod) (vw_inflight v); vw_leaked := vw_leaked v |}.

(** The pod holds an entry under key and UID. *)
Definition claims p (key u : string) : Prop :=
  managedPod p = true /\ pod_key p = key /\ pod_UID p = u.

#[local] Instance claims_dec p key u : Decision (claims p key u).
Proof. rw /claims. apply _. Defined.

(** Decide every claim and key comparison in sight. *)
Ltac settle_claims :=
  rw ?recorded_AddPod ?recorded_RemovePod; repeat case_decide;
  unfold claims in *; destruct_and?; first [congruence | naive_solver].

Lemma recorded_add pod c key u :
  recorded (deliver PodRequests (OnAdd (ObjPod pod)) c) key u =
  if decide (claims pod key u) then Some (PodRequest PodRequests pod) else recorded c key u.
Proof. rw /deliver route_add /=. destruct (managedPod pod) eqn:Hm; simpl; settle_claims. Qed.

Lemma recorded_delete old o c key u :
  podFrom o = Some old ->
  recorded (deliver PodRequests (OnDelete o) c) key u =
  if decide (claims old key u) then None else recorded c key u.
Proof.
  intros Ho. rw /deliver route_delete.
  assert (Hf : FilterFunc o = managedPod old) by (destruct o as [?|[?|]|]; naive_solver).
  rw Hf. destruct (managedPod old) eqn:Hm; [|settle_claims].
  destruct o as [?|[?|]|]; simplify_eq/=; settle_claims.
Qed.

Lemma recorded_update old pod c key u :
  pod_UID old = pod_UID pod ->
  recorded (deliver PodRequests (OnUpdate (ObjPod old) (ObjPod pod)) c) key u =
  if decide (claims pod key u) then Some (PodRequest PodRequests pod)
  else if decide (claims old key u) then None else recorded c key u.
Proof.
  intros HU. rw /deliver route_update /=.
  destruct (managedPod pod) eqn:Hm, (managedPod old) eqn:Ho; simpl; [|settle_claims..].
  rw (managed_not_terminal _ Hm).
  destruct (String.eqb_spec (pod_key old) (pod_key pod)); simpl; settle_claims.
Qed.

(** With another UID. *)
Lemma recorded_replace old pod c key u :
  pod_UID old <> pod_UID pod -> replaced old pod = ∅ ->
  recorded (deliver PodRequests (OnUpdate (ObjPod old) (ObjPod pod)) c) key u =
  if decide (claims pod key u) then Some (PodRequest PodRequests pod)
  else if decide (claims old key u) then None else recorded c key u.
Proof.
  intros HU. rw /replaced /deliver route_update /=.
  destruct (managedPod pod) eqn:Hm, (managedPod old) eqn:Ho; simpl; [|intros _; settle_claims..].
  rw (managed_not_terminal _ Hm).
  destruct (String.eqb_spec (pod_key old) (pod_key pod)); simpl; intros He; [set_solver|settle_claims].
Qed.

Lemma recorded_leak old pod c key u :
  replaced old pod <> ∅ ->
  recorded (deliver PodRequests (OnUpdate (ObjPod old) (ObjPod pod)) c) key u =
  if decide (claims pod key u) then Some (PodRequest PodRequests pod) else recorded c key u.
Proof.
  rw /replaced /deliver route_update /=.
  destruct (managedPod pod) eqn:Hm, (managedPod old) eqn:Ho; simpl; [|done..].
  rw (managed_not_terminal _ Hm).
  destruct (String.eqb_spec (pod_key old) (pod_key pod)); simpl; intros He; [settle_claims|done].
Qed.

(** What the cache should hold. *)
Definition reserved_entry v (key u : string) : option (gmap string Q) :=
  match vw_inflight v !! u with
  | Some (key', req) => if decide (key' = key) then Some req else None
  | None => None
  end.

Definition expected v (key u : string) : option (gmap string Q) :=
  match vw_seen v !! u with
  | Some p => if managedPod p
              then if decide (pod_key p = key) then Some (PodRequest PodRequests p) else None
              else reserved_entry v key u
  | None => reserved_entry v key u
  end.

Record tracked v : Prop := {
  tk_ok : cache_ok (vw_cache v);
  tk_uid u p : vw_seen v !! u = Some p -> pod_UID p = u;
  tk_bound u p : vw_seen v !! u = Some p -> managedPod p = true -> vw_inflight v !! u = None;
  tk_entries key u : key ∉ vw_leaked v -> recorded (vw_cache v) key u = expected v key u }.

Lemma deliver_ok e c : cache_ok c -> cache_ok (deliver PodRequests e c).
Proof.
  intros H. rw /deliver. destruct (route FilterFunc e) as [[o|old o|o]|]; [| | |done]; simpl.
  - destruct o; simpl; auto with axisml.
  - destruct o as [pod|?|]; [|done..]. simpl.
    destruct (Terminal pod), old as [p|?|]; simpl; [destruct (negb _)| | |destruct (negb _)| |];
      auto with axisml.
  - destruct o as [?|[?|]|]; simpl; auto with axisml.
Qed.

Lemma observe_ne pod inflight u : u <> pod_UID pod -> observe pod inflight !! u = inflight !! u.
Proof. intros. rw /observe. destruct (managedPod pod); [|done]. by rw lookup_delete_ne. Qed.

(** The informer shows a pod, known before as [prior]. *)
Lemma tracked_show v pod prior c' :
  tracked v -> vw_seen v !! pod_UID pod = prior -> cache_ok c' ->
  (forall key u, recorded c' key u =
     if decide (claims pod key u) then Some (PodRequest PodRequests pod)
     else match prior with
          | Some old => if decide (claims old key u) then None else recorded (vw_cache v) key u
          | None => recorded (vw_cache v) key u
          end) ->
  tracked {| vw_seen := <[pod_UID pod := pod]> (vw_seen v); vw_cache := c';
             vw_inflight := observe pod (vw_inflight v);
             vw_leaked := relabelled pod (vw_inflight v) ∪ vw_leaked v |}.
Proof.
  intros [Hok Huid Hb He] Hp Hok' Hrec. split; simpl; [done|..].
  - intros u p. destruct (decide (u = pod_UID pod)) as [->|Hu].
    + rw lookup_insert_eq. by intros [= <-].
    + rw lookup_insert_ne //. apply Huid.
  - intros u p. destruct (decide (u = pod_UID pod)) as [->|Hu].
    + rw lookup_insert_eq /observe. intros [= <-] ->. apply lookup_delete_eq.
    + rw lookup_insert_ne // observe_ne //. apply Hb.
  - intros key u [Hkey Hleak]%not_elem_of_union. rw Hrec (He _ _ Hleak) /expected /reserved_entry /=.
    destruct (decide (u = pod_UID pod)) as [->|Hu]; last first.
    { rw lookup_insert_ne // observe_ne // decide_False; [unfold claims; naive_solver|].
      destruct prior as [old|]; [|done]. rw decide_False //.
      intros (_ & _ & Hold). apply Hu. rw -Hold. apply (Huid _ _ Hp). }
    rw lookup_insert_eq Hp /observe.
    destruct (managedPod pod) eqn:Hm.
    + destruct (decide (pod_key pod = key)) as [Hk|Hk].
      { rw decide_True //. }
      rw decide_False; [by intros (_ & ? & _)|].
      assert (Hother : forall key' req, vw_inflight v !! pod_UID pod = Some (key', req) -> key' <> key).
      { intros key' req Hi <-. apply Hkey. rw /relabelled Hi Hm. simpl.
        destruct (String.eqb_spec key' (pod_key pod)) as [E|_]; [by rw E in Hk|set_solver]. }
      destruct prior as [old|]; [case_decide as Hcl; [done|]|].
      * destruct (managedPod old) eqn:Ho.
        { rw decide_False //. intros E. apply Hcl. split_and!; [done|done|]. apply (Huid _ _ Hp). }
        destruct (vw_inflight v !! pod_UID pod) as [[key' req]|] eqn:Hi; [|done].
        rw decide_False //. by eapply Hother.
      * destruct (vw_inflight v !! pod_UID pod) as [[key' req]|] eqn:Hi; [|done].
        rw decide_False //. by eapply Hother.
    + rw decide_False; [unfold claims; rw Hm; naive_solver|].
      destruct prior as [old|]; [|done].
      destruct (managedPod old) eqn:Ho.
      * rw (Hb _ _ Hp Ho). repeat case_decide; try done. unfold claims in *.
        destruct_and?. exfalso. pose proof (Huid _ _ Hp). naive_solver.
      * rw decide_False //. unfold claims. rw Ho. naive_solver.
Qed.

(** The informer drops a pod. *)
Lemma tracked_delete v old o :
  tracked v -> vw_seen v !! pod_UID old = Some old -> podFrom o = Some old ->
  tracked {| vw_seen := delete (pod_UID old) (vw_seen v); vw_cache := deliver PodRequests (OnDelete o) (vw_cache v);
             vw_inflight := vw_inflight v; vw_leaked := vw_leaked v |}.
Proof.
  intros [Hok Huid Hb He] Hs Ho. split; simpl; [by apply deliver_ok|..].
  - intros u p [_ ?]%lookup_delete_Some. by apply Huid.
  - intros u p [_ ?]%lookup_delete_Some. by apply Hb.
  - intros key u Hleak. rw (recorded_delete old) // (He _ _ Hleak) /expected /reserved_entry /=.
    destruct (decide (u = pod_UID old)) as [->|Hu].
    + rw lookup_delete_eq Hs. destruct (managedPod old) eqn:Hm.
      { rw (Hb _ _ Hs Hm). settle_claims. }
      rw decide_False //. unfold claims. rw Hm. naive_solver.
    + rw lookup_delete_ne // decide_False //. unfold claims. naive_solver.
Qed.

(** The informer forgets a pod whose entry stays. *)
Lemma tracked_leak v old pod :
  tracked v -> vw_seen v !! pod_UID old = Some old -> replaced old pod <> ∅ ->
  tracked {| vw_seen := delete (pod_UID old) (vw_seen v); vw_cache := vw_cache v;
             vw_inflight := vw_inflight v; vw_leaked := replaced old pod ∪ vw_leaked v |}.
Proof.
  intros [Hok Huid Hb He] Hs Hr. split; simpl; [done|..].
  - intros u p [_ ?]%lookup_delete_Some. by apply Huid.
  - intros u p [_ ?]%lookup_delete_Some. by apply Hb.
  - intros key u [Hkey Hleak]%not_elem_of_union. rw (He _ _ Hleak) /expected /reserved_entry /=.
    destruct (decide (u = pod_UID old)) as [->|Hu]; [|by rw lookup_delete_ne].
    rw lookup_delete_eq Hs. rw /replaced in Hkey Hr. destruct (managedPod old) eqn:Hm; [|done].
    rw (Hb _ _ Hs Hm). destruct (_ && _) eqn:Hand; [|done].
    rw decide_False //. set_solver.
Qed.

Lemma tracked_replace v old pod :
  tracked v -> vw_seen v !! pod_UID old = Some old -> vw_seen v !! pod_UID pod = None ->
  tracked {| vw_seen := <[pod_UID pod := pod]> (delete (pod_UID old) (vw_seen v));
             vw_cache := deliver PodRequests (OnUpdate (ObjPod old) (ObjPod pod)) (vw_cache v);
             vw_inflight := observe pod (vw_inflight v);
             vw_leaked := relabelled pod (vw_inflight v) ∪ (replaced old pod ∪ vw_leaked v) |}.
Proof.
  intros Ht Hs Hnew. assert (Hne : pod_UID old <> pod_UID pod) by (intros E; congruence).
  assert (Hnew' : delete (pod_UID old) (vw_seen v) !! pod_UID pod = None) by (by rw lookup_delete_ne).
  destruct (decide (replaced old pod = ∅)) as [Hr|Hr].
  - rw Hr. rw (left_id_L ∅ (∪)).
    apply (tracked_show _ pod None _ (tracked_delete v old (ObjPod old) Ht Hs eq_refl)); [done|by apply deliver_ok, Ht|].
    intros key u. simpl. rw recorded_replace // (recorded_delete old) //.
  - apply (tracked_show _ pod None _ (tracked_leak v old pod Ht Hs Hr)); [done|by apply deliver_ok, Ht|].
    intros key u. simpl. by rw recorded_leak.
Qed.

Lemma tracked_step v v' : sync_step v v' -> tracked v -> tracked v'.
Proof.
  intros Hst Ht. pose proof Ht as [Hok Huid Hb He].
  destruct Hst as [pod v Hs|old pod v Hs|old pod v Hs Hnew|old o v Hs Ho|pod v Hq Hi Hn|pod req v Hq Hi].
  - apply (tracked_show v pod None); [done..|by apply deliver_ok|]. intros. apply recorded_add.
  - apply (tracked_show v pod (Some old)); [done..|by apply deliver_ok|].
    intros. apply recorded_update. apply (Huid _ _ Hs).
  - apply (tracked_replace v old pod Ht Hs Hnew).
  - by apply tracked_delete.
  - rw /Reserve. destruct (String.eqb_spec (quota_of pod) "") as [|_]; [done|].
    split; simpl; [by apply AddPod_ok|done| |].
    + intros u p Hu Hm. rw lookup_insert_ne; [|by apply Hb with p].
      intros <-. rw (Hn _ Hu) in Hm. done.
    + intros key u Hleak. rw recorded_AddPod (He _ _ Hleak) /expected /reserved_entry /=.
      destruct (decide (u = pod_UID pod)) as [->|Hu].
      * rw lookup_insert_eq Hi. destruct (vw_seen v !! pod_UID pod) as [p|] eqn:Hp;
          [rw (Hn _ eq_refl)|]; settle_claims.
      * rw lookup_insert_ne // decide_False //. naive_solver.
  - rw /Unreserve. destruct (String.eqb_spec (quota_of pod) "") as [|_]; [done|].
    split; simpl; [by apply RemovePod_ok|done| |].
    + intros u p Hu Hm. apply lookup_delete_None. right. by apply Hb with p.
    + intros key u Hleak. rw recorded_RemovePod (He _ _ Hleak) /expected /reserved_entry /=.
      destruct (decide (u = pod_UID pod)) as [->|Hu].
      * rw lookup_delete_eq Hi. destruct (vw_seen v !! pod_UID pod) as [p|] eqn:Hp; [|settle_claims].
        destruct (managedPod p) eqn:Hm; [|settle_claims]. rw (Hb _ _ Hp Hm) in Hi. done.
      * rw lookup_delete_ne // decide_False //. naive_solver.
Qed.

(** ** Sums over the informer's store *)

(** The entry a pod has under a key. *)
Definition entry_of (key : string) p : option (gmap string Q) :=
  if managedPod p && String.eqb (pod_key p) key then Some (PodRequest PodRequests p) else None.

Definition entry_amount (key r : string) p : Z :=
  match entry_of key p with Some req => rl_val req r | None => 0%Z end.

Lemma requested_omap (f : Pod P -> option (gmap string Q)) (seen : gmap string (Pod P)) r :
  requested (omap f seen) r =
  zsum (map (fun x => match f x.2 with Some req => rl_val req r | None => 0%Z end) (map_to_list seen)).
Proof.
  induction seen as [|u p seen Hu IH] using map_ind.
  { by rw omap_empty requested_empty map_to_list_empty. }
  rw (zsum_perm _ (map (fun x => match f x.2 with Some req => rl_val req r | None => 0%Z end)
                     ((u, p) :: map_to_list seen))); [by apply Permutation_map, map_to_list_insert|].
  simpl. rw -IH omap_insert. destruct (f p) as [req|].
  - rw requested_insert //. by rw lookup_omap Hu.
  - rw delete_id //. by rw lookup_omap Hu.
Qed.

(** No pod is on its way into the quota, and none has left an entry there. *)
Record settled v (key : string) : Prop := {
  st_inflight u req : vw_inflight v !! u <> Some (key, req);
  st_leaked : key ∉ vw_leaked v }.

Lemma tracked_pods v key :
  tracked v -> settled v key -> pods_of (vw_cache v) key = omap (entry_of key) (vw_seen v).
Proof.
  intros [_ _ _ He] [Hi Hl]. apply map_eq => u.
  assert (Hres : reserved_entry v key u = None).
  { rw /reserved_entry. destruct (vw_inflight v !! u) as [[key' req]|] eqn:E; [|done].
    rw decide_False //. intros ->. by eapply Hi. }
  rw -recorded_pods He // lookup_omap /expected Hres.
  destruct (vw_seen v !! u) as [p|]; [|done]. simpl. rw /entry_of.
  destruct (managedPod p); [|done]. simpl.
  destruct (String.eqb_spec (pod_key p) key); case_decide; done.
Qed.

(** What the controller counts of a pod. *)
Definition counted r p : Z :=
  if String.eqb (pod_NodeName p) "" || Terminal p then 0%Z else rl_val (PodRequest PodRequests p) r.

Lemma count_pods_val pods used r :
  rl_val (foldl (count_pod PodRequests) used pods) r = (rl_val used r + zsum (map (counted r) pods))%Z.
Proof.
  revert used. induction pods as [|p pods IH]; intros used; simpl; [lia|].
  rw IH /count_pod /counted. case_match; [lia|].
  pose proof (rl_val_sum used (PodRequest PodRequests p) r) as Hv. rw /sumLists in Hv. rw Hv. lia.
Qed.

Lemma published_val pods r :
  rl_val (default ∅ (published PodRequests pods)) r = zsum (map (counted r) pods).
Proof.
  rw -(Z.add_0_l (zsum _)) -{1}(rl_val_empty r) -count_pods_val /published.
  case_decide as E; simpl; [by rw E|done].
Qed.

Lemma zsum_filter {A} (R : A -> Prop) `{!forall x, Decision (R x)} (g : A -> Z) l :
  zsum (map g (filter R l)) = zsum (map (fun x => if decide (R x) then g x else 0%Z) l).
Proof.
  induction l as [|x l IH]; simpl; [done|]. rw filter_cons. destruct (decide (R x)); simpl; rw IH; lia.
Qed.

(** The listers read the informer's store. *)
Definition selected (namespace name : string) p : Prop :=
  pod_Namespace p = namespace /\ quota_of p = name.

#[local] Instance selected_dec namespace name p : Decision (selected namespace name p).
Proof. rw /selected. apply _. Defined.

Definition lists (seen : gmap string (Pod P)) (List : string -> string -> list (Pod P) + error) : Prop :=
  forall namespace name, exists pods, List namespace name = inl pods /\
    Permutation pods (filter (selected namespace name) (map snd (map_to_list seen))).

Lemma counted_amount namespace name r p :
  no_slash namespace -> no_slash (pod_Namespace p) -> name <> "" ->
  (if decide (selected namespace name p) then counted r p else 0%Z) =
  entry_amount (Key namespace name) r p.
Proof.
  intros H1 H2 Hn. rw /entry_amount /entry_of /counted /managedPod.
  destruct (String.eqb_spec (pod_key p) (Key namespace name)) as [E|E].
  - destruct (Key_inj _ _ _ _ H2 H1 E) as [<- Hq]. rw decide_True; [by split|]. rw Hq.
    destruct (String.eqb_spec name ""); [done|].
    by destruct (String.eqb (pod_NodeName p) ""), (Terminal p).
  - rw decide_False; [|by rw andb_false_r]. intros [<- <-]. by apply E.
Qed.

Lemma store_usage v namespace name List pods r :
  tracked v -> settled v (Key namespace name) -> no_slash namespace -> name <> "" ->
  (forall u p, vw_seen v !! u = Some p -> no_slash (pod_Namespace p)) ->
  lists (vw_seen v) List -> List namespace name = inl pods ->
  zsum (map (counted r) pods) = rl_val (Used (vw_cache v) (Key namespace name)) r.
Proof.
  intros Ht Hi Hs Hn Hpods Hl HL. destruct (Hl namespace name) as (pods' & E & Hperm).
  rw HL in E. injection E as <-.
  rw (zsum_perm _ _ (Permutation_map (counted r) Hperm)) zsum_filter map_map.
  rw Used_requested; [apply Ht|]. rw tracked_pods // requested_omap.
  apply zsum_map_ext. intros [u p] Hx%elem_of_map_to_list. simpl.
  apply counted_amount; [done|by eapply Hpods|done].
Qed.

Definition empty_view : view := {| vw_seen := ∅; vw_cache := New_cache; vw_inflight := ∅; vw_leaked := ∅ |}.

Lemma tracked_reach v : rtc sync_step empty_view v -> tracked v.
Proof.
  assert (H : tracked empty_view).
  { split; simpl; [apply New_ok|by intros ? ?; rw lookup_empty|by intros ? ?; rw lookup_empty|].
    intros key u _. by rw /recorded /expected /reserved_entry /= !lookup_empty. }
  revert H. intros H Hv. revert H.
  eapply (rtc_ind_l (fun x => tracked x -> tracked v)); [done| |done].
  intros x y Hxy _ IH Hx. by apply IH, (tracked_step x).
Qed.


(** Two cases in which accounting outlives its pod.  A pod whose quota
    label changes between Reserve and the first event that shows it bound
    stays on record in the old quota, and a pod that the informer replaces by
    one of the same quota with another UID stays on record with its old UID;
    deleting the pod that is known then does not remove the entry. *)
Theorem stale_accounting old pod c :
  managedPod pod = true ->
  (managedPod old = false -> quota_of old <> "" -> pod_key old <> pod_key pod ->
   recorded (deliver PodRequests (OnDelete (ObjPod pod))
     (deliver PodRequests (OnUpdate (ObjPod old) (ObjPod pod)) (Reserve PodRequests old c)))
     (pod_key old) (pod_UID old) = Some (PodRequest PodRequests old)) /\
  (managedPod old = true -> pod_key old = pod_key pod -> pod_UID old <> pod_UID pod ->
   recorded (deliver PodRequests (OnDelete (ObjPod pod))
     (deliver PodRequests (OnUpdate (ObjPod old) (ObjPod pod))
       (deliver PodRequests (OnAdd (ObjPod old)) c)))
     (pod_key old) (pod_UID old) = Some (PodRequest PodRequests old)).
Proof.
  intros Hm. split.
  - intros Ho Hq Hk. rw (recorded_delete pod) //. rw decide_False; [unfold claims; naive_solver|].
    rw /deliver route_update /= Hm Ho /= recorded_AddPod. rw decide_False; [naive_solver|].
    rw /Reserve. destruct (String.eqb_spec (quota_of old) "") as [|_]; [done|].
    by rw recorded_AddPod decide_True.
  - intros Ho Hk HU. rw (recorded_delete pod) //. rw decide_False; [unfold claims; naive_solver|].
    rw {1}/deliver route_update /= Hm Ho /= (managed_not_terminal _ Hm).
    destruct (String.eqb_spec (pod_key old) (pod_key pod)) as [_|]; [|done]. simpl.
    rw recorded_AddPod. rw decide_False; [naive_solver|]. by rw recorded_add decide_True.
Qed.
End Agreement.

Arguments view : clear implicits.

(** ** Witnesses *)

Module QuotaSample.
(** Pods that ask for a number of cores. *)
Definition cores (n : nat) : gmap string Z := {["cpu" := Z.of_nat n]}.

Lemma cores_nonneg : nonneg_requests cores.
Proof.
  intros n r. rw /rl_val /rl_get /map_get /cores. destruct (decide ("cpu" = r)) as [<-|Hne].
  - rw lookup_singleton_eq /=. lia.
  - rw lookup_singleton_ne //.
Qed.

Definition routes (f : obj nat -> bool) (e : event nat) : option (event nat) :=
  match e with
  | OnAdd o => if f o then Some (OnAdd o) else None
  | OnUpdate old new =>
      match f new, f old with
      | true, true => Some (OnUpdate old new)
      | true, false => Some (OnAdd new)
      | false, true => Some (OnDelete old)
      | false, false => None
      end
  | OnDelete o => if f o then Some (OnDelete o) else None
  end.

#[local] Instance routing : FilteringHandler nat.
Proof. by exists routes. Defined.

Fixpoint split_slash (s : string) : option (string * string) :=
  match s with
  | EmptyString => None
  | String.String a rest =>
      if decide (a = "/"%char) then Some (EmptyString, rest)
      else match split_slash rest with
           | Some (namespace, name) => Some (String.String a namespace, name)
           | None => None
           end
  end.

Lemma split_slash_Key namespace name :
  no_slash namespace -> split_slash (Key namespace name) = Some (namespace, name).
Proof.
  rw /no_slash /Key. induction namespace as [|a s IH]; [done|]. intros H.
  change (String.list_ascii_of_string (String.String a s)) with
    (a :: String.list_ascii_of_string s) in H.
  change (String.append (String.String a s) (String.append "/" name)) with
    (String.String a (String.append s (String.append "/" name))).
  change (split_slash (String.String a ?x)) with
    (if decide (a = "/"%char) then Some (EmptyString, x)
     else match split_slash x with
          | Some (n1, n2) => Some (String.String a n1, n2)
          | None => None
          end).
  case_decide as Ha; [subst; destruct H; by left|]. rw IH //. set_solver.
Qed.

#[local] Instance splitting : KeyAndEquality Z.
Proof.
  refine {| SplitMetaNamespaceKey := split_slash; DeepEqual a b := bool_decide (a = b) |}.
  - intros. by apply split_slash_Key.
  - intros. by apply bool_decide_eq_true.
  - intros a b r ->%bool_decide_eq_true. done.
Defined.

Definition a_pod (uid node quota : string) (n : nat) : Pod nat :=
  {| pod_UID := uid; pod_Namespace := "team"; pod_Labels := {[LabelQuota := quota]};
     pod_NodeName := node; pod_Phase := "Running"; pod_Containers := n |}.

Definition quota (max : nat) : ElasticQuota Z :=
  {| eq_Namespace := "team"; eq_Name := "q"; eq_Max := cores max; eq_Used := None |}.

Definition read (_ _ : string) : ElasticQuota Z + error := inl (quota 4).

(** Three of four cores are reserved. *)
Lemma quota_enforced_witness :
  (rl_val (Used (Reserve cores (a_pod "u1" "" "q" 3) New_cache) (Key "team" "q")) "cpu" <= 4)%Z.
Proof.
  apply (quota_enforced cores (Key "team" "q") (cores 4) cores_nonneg New_cache _ None) with (r := "cpu").
  - split; [apply New_ok|by intros k u req r; rw /recorded lookup_empty].
  - intros r _. rw /Used lookup_empty rl_val_empty /rl_val /rl_get /map_get /cores.
    destruct (decide ("cpu" = r)) as [<-|Hne]; [by rw lookup_singleton_eq|by rw lookup_singleton_ne].
  - eapply rtc_l; [apply (cy_PreFilter _ _ _ read (a_pod "u1" "" "q" 3)); [by vm_compute|by intros _ ? [= <-]]|].
    apply rtc_once, cy_Reserve.
  - rw /cores dom_singleton_L. set_solver.
Defined.

(** A pod is reserved, then seen bound. *)
Definition reserved_view : view Z nat :=
  {| vw_seen := ∅; vw_cache := Reserve cores (a_pod "u1" "" "q" 3) New_cache;
     vw_inflight := <["u1" := (Key "team" "q", cores 3)]> ∅; vw_leaked := ∅ |}.

Definition bound_view : view Z nat :=
  {| vw_seen := <["u1" := a_pod "u1" "n1" "q" 3]> ∅;
     vw_cache := deliver cores (OnAdd (ObjPod (a_pod "u1" "n1" "q" 3))) (vw_cache reserved_view);
     vw_inflight := delete "u1" (vw_inflight reserved_view);
     vw_leaked := relabelled (a_pod "u1" "n1" "q" 3) (vw_inflight reserved_view) ∪ ∅ |}.

Lemma bound_steps : rtc (sync_step cores) empty_view bound_view.
Proof.
  eapply rtc_l; [apply (sy_reserve cores (a_pod "u1" "" "q" 3)); [done|done|by intros p; rw lookup_empty]|].
  apply rtc_once. apply (sy_add cores (a_pod "u1" "n1" "q" 3) reserved_view). done.
Qed.

Definition list_pods (namespace name : string) : list (Pod nat) + error :=
  inl (filter (selected namespace name) (map snd (map_to_list (vw_seen bound_view)))).

Lemma plain_names : no_slash "team" /\ no_slash "q".
Proof. split; [by apply (bool_decide_unpack (no_slash "team"))|by apply (bool_decide_unpack (no_slash "q"))]. Qed.


Lemma stale_accounting_witness :
  recorded (deliver cores (OnDelete (ObjPod (a_pod "u2" "n1" "q" 3)))
    (deliver cores (OnUpdate (ObjPod (a_pod "u1" "n1" "q" 3)) (ObjPod (a_pod "u2" "n1" "q" 3)))
      (deliver cores (OnAdd (ObjPod (a_pod "u1" "n1" "q" 3))) New_cache)))
    (Key "team" "q") "u1" = Some (cores 3).
Proof.
  apply (stale_accounting cores (a_pod "u1" "n1" "q" 3) (a_pod "u2" "n1" "q" 3) New_cache);
    by vm_compute.
Defined.
End QuotaSample.
