(* ===== verification/HubTypes.v ===== *)
(** * Artifact hub: data

    The errors of [artifact-hub/pkg/errors], the row and its columns
    ([internal/store/artifact.go], [internal/artifact/model.go]), the request
    and response bodies of [internal/server/artifact.go] and the version policy
    of [pkg/strutil/dns.go].  A jsonb column is a [json] as in [Errors]. *)

From Stdlib Require Import ssreflect ZArith Ascii String.
From stdpp Require Import base gmap list strings.
From S2P Require Import Prelude ApiTypes Names.

(** ** Errors *)

(** [errors.Code] *)
Inductive HubCode :=
| HubValidation | HubNotFound | HubConflict | HubPrecondition | HubUnauthorized
| HubForbidden | HubUnavailable | HubInternal | HubGone.

#[export] Instance HubCode_eq_dec : EqDecision HubCode.
Proof. solve_decision. Defined.

Definition HubCode_string (c : HubCode) : string :=
  match c with
  | HubValidation => "validation_failed"
  | HubNotFound => "not_found"
  | HubConflict => "conflict"
  | HubPrecondition => "precondition_failed"
  | HubUnauthorized => "unauthorized"
  | HubForbidden => "forbidden"
  | HubUnavailable => "service_unavailable"
  | HubInternal => "internal_error"
  | HubGone => "gone"
  end.

(** [AllCodes], in declaration order. *)
Definition HubAllCodes : list string :=
  map HubCode_string [HubValidation; HubNotFound; HubConflict; HubPrecondition;
    HubUnauthorized; HubForbidden; HubUnavailable; HubInternal; HubGone].

(** Go [error] values of the hub: the business error [*E], the sentinels the
    layers test for, the errors of gin's binding, [fmt.Errorf] with %w, and
    texts that are only passed on. *)
Inductive hub_error :=
| HE (code : HubCode) (msg : string) (cause : option hub_error)
| HRecordNotFound
| HUniqueViolation
| HOCINotFound
| HS3NotFound
| HValidationErrors (text : string)
| HSyntaxError (text : string)
| HUnmarshalTypeError (text : string)
| HEOF
| HUnexpectedEOF
| HErrorf (msg : string) (cause : hub_error)
| HOther (text : string).

(** [apperrors.New], [apperrors.Wrap] *)
Definition HNew (code : HubCode) (msg : string) : hub_error := HE code msg None.
Definition HWrap (code : HubCode) (msg : string) (cause : hub_error) : hub_error :=
  HE code msg (Some cause).

(** [err.Error()] *)
Fixpoint HError (err : hub_error) : string :=
  match err with
  | HE code msg (Some cause) => (HubCode_string code ++ ": " ++ msg ++ ": " ++ HError cause)%string
  | HE code msg None => (HubCode_string code ++ ": " ++ msg)%string
  | HRecordNotFound => "record not found"
  | HUniqueViolation => "duplicate key value violates unique constraint (SQLSTATE 23505)"
  | HOCINotFound => "oci: manifest not found"
  | HS3NotFound => "s3: object not found"
  | HEOF => "EOF"
  | HUnexpectedEOF => "unexpected EOF"
  | HErrorf msg cause => (msg ++ ": " ++ HError cause)%string
  | HValidationErrors text | HSyntaxError text | HUnmarshalTypeError text | HOther text => text
  end.

(** [errors.As(err, *E)]: the outermost business error of the chain. *)
Fixpoint HAs (err : hub_error) : option (HubCode * string) :=
  match err with
  | HE code msg _ => Some (code, msg)
  | HErrorf _ cause => HAs cause
  | _ => None
  end.

(** [errors.Is] / [errors.As] against one of the leaves: the chain ends in a
    leaf that satisfies [p]. *)
Fixpoint herr_is (p : hub_error -> bool) (err : hub_error) : bool :=
  p err ||
  match err with
  | HE _ _ (Some cause) | HErrorf _ cause => herr_is p cause
  | _ => false
  end.

(** [artifact.IsNotFound] *)
Definition HIsNotFound : hub_error -> bool :=
  herr_is (fun e => match e with HRecordNotFound => true | _ => false end).

(** [dbjson.IsUniqueViolation] *)
Definition IsUniqueViolation : hub_error -> bool :=
  herr_is (fun e => match e with HUniqueViolation => true | _ => false end).

Definition HIsOCINotFound : hub_error -> bool :=
  herr_is (fun e => match e with HOCINotFound => true | _ => false end).

Definition HIsS3NotFound : hub_error -> bool :=
  herr_is (fun e => match e with HS3NotFound => true | _ => false end).

(** ** Versions *)

(** [[A-Za-z0-9_.-]] *)
Definition is_tag_char (c : ascii) : bool :=
  in_range 65 90 c || in_range 97 122 c || in_range 48 57 c ||
  Ascii.eqb c "_" || Ascii.eqb c "." || Ascii.eqb c "-".

(** [ociTagSafe]: the class repeated 1 to 128 times. *)
Definition ociTagSafe (s : bytes) : bool :=
  (1 <=? length s)%nat && (length s <=? 128)%nat && forallb is_tag_char s.

(** [IsValidVersion] *)
Definition IsValidVersion (version : string) : bool :=
  let s := list_ascii_of_string version in
  if String.eqb version "" || (128 <? length s)%nat then false else ociTagSafe s.

(** ** The row *)

(** [artifact.Status*] *)
Inductive art_status := Uploading | Ready | Failed | Deleting | Deleted.

#[export] Instance art_status_eq_dec : EqDecision art_status.
Proof. solve_decision. Defined.

Definition Status_string (s : art_status) : string :=
  match s with
  | Uploading => "Uploading" | Ready => "Ready" | Failed => "Failed"
  | Deleting => "Deleting" | Deleted => "Deleted"
  end.

Definition VisibilityTenant : string := "tenant".
Definition VisibilityPublic : string := "public".
Definition SourceWebUpload : string := "webUpload".
Definition SourceExternal : string := "external".
Definition PublicVisibilityNamespace : string := "default".

(** A value of [map[string]any]: a string, or a value of another JSON type by
    its encoding. *)
Inductive any := AnyString (s : string) | AnyJSON (text : string).

#[export] Instance any_eq_dec : EqDecision any.
Proof. solve_decision. Defined.

(** [handler.Spec] *)
Abbreviation Spec := (gmap string any).

(** [store.Artifact] *)
Record Artifact := {
  a_ID : string;
  a_Namespace : string;
  a_Kind : string;
  a_Name : string;
  a_Version : string;
  a_Visibility : string;
  a_DisplayName : string;
  a_Description : string;
  a_Labels : json (gmap string string);
  a_Annotations : json (gmap string string);
  a_OwnerUser : string;
  a_Spec : json Spec;
  a_Status : art_status;
  a_Source : string;
  a_Message : string;
  a_Digest : string;
  a_ReadyAt : option Z;
  a_CreatedAt : Z;
  a_UpdatedAt : Z;
  a_DeletedAt : option Z }.

#[export] Instance Artifact_eq_dec : EqDecision Artifact.
Proof. solve_decision. Defined.

(** The columns the hub updates: keys of gorm's [map[string]any]. *)
Inductive art_col :=
| AStatus (s : art_status)
| AMessage (m : string)
| ADigest (d : string)
| AReadyAt (t : Z)
| ADeletedAt (t : Z)
| ADisplayName (s : string)
| ADescription (s : string)
| ALabels (m : json (gmap string string))
| AAnnotations (m : json (gmap string string)).

Definition set_art_col (r : Artifact) (c : art_col) : Artifact :=
  {| a_ID := a_ID r; a_Namespace := a_Namespace r; a_Kind := a_Kind r; a_Name := a_Name r;
     a_Version := a_Version r; a_Visibility := a_Visibility r;
     a_DisplayName := match c with ADisplayName s => s | _ => a_DisplayName r end;
     a_Description := match c with ADescription s => s | _ => a_Description r end;
     a_Labels := match c with ALabels m => m | _ => a_Labels r end;
     a_Annotations := match c with AAnnotations m => m | _ => a_Annotations r end;
     a_OwnerUser := a_OwnerUser r; a_Spec := a_Spec r;
     a_Status := match c with AStatus s => s | _ => a_Status r end;
     a_Source := a_Source r;
     a_Message := match c with AMessage m => m | _ => a_Message r end;
     a_Digest := match c with ADigest d => d | _ => a_Digest r end;
     a_ReadyAt := match c with AReadyAt t => Some t | _ => a_ReadyAt r end;
     a_CreatedAt := a_CreatedAt r; a_UpdatedAt := a_UpdatedAt r;
     a_DeletedAt := match c with ADeletedAt t => Some t | _ => a_DeletedAt r end |}.

Definition touch_artifact (now : Z) (r : Artifact) : Artifact :=
  {| a_ID := a_ID r; a_Namespace := a_Namespace r; a_Kind := a_Kind r; a_Name := a_Name r;
     a_Version := a_Version r; a_Visibility := a_Visibility r; a_DisplayName := a_DisplayName r;
     a_Description := a_Description r; a_Labels := a_Labels r; a_Annotations := a_Annotations r;
     a_OwnerUser := a_OwnerUser r; a_Spec := a_Spec r; a_Status := a_Status r;
     a_Source := a_Source r; a_Message := a_Message r; a_Digest := a_Digest r;
     a_ReadyAt := a_ReadyAt r; a_CreatedAt := a_CreatedAt r; a_UpdatedAt := now;
     a_DeletedAt := a_DeletedAt r |}.

(** [Updates(fields)] at time [now]. *)
Definition art_Updates (now : Z) (cols : list art_col) (r : Artifact) : Artifact :=
  foldl set_art_col (touch_artifact now r) cols.

(** ** Bodies *)

(** [oci.Credentials] *)
Record Credentials := { c_Username : string; c_Password : string; c_ExpiresAt : option Z }.

(** [server.ArtifactInitiateRequest] *)
Record InitiateRequest := {
  ir_Kind : string;
  ir_Version : string;
  ir_Spec : Spec;
  ir_Source : string;
  ir_SourceURI : string;
  ir_Visibility : string;
  ir_DisplayName : string;
  ir_Description : string;
  ir_Labels : gmap string string;
  ir_Annotations : gmap string string }.

(** [server.ArtifactPatchRequest]; a nil map is [None]. *)
Record ArtPatchRequest := {
  pr_DisplayName : option string;
  pr_Description : option string;
  pr_Labels : option (gmap string string);
  pr_Annotations : option (gmap string string) }.

(** [server.Artifact] *)
Record ArtifactView := {
  v_ID : string; v_Namespace : string; v_Kind : string; v_Name : string; v_Version : string;
  v_Visibility : string; v_DisplayName : string; v_Description : string;
  v_Labels : option (gmap string string); v_Annotations : option (gmap string string);
  v_Owner : string; v_Spec : option Spec; v_Status : art_status; v_Source : string;
  v_Message : string; v_Digest : string; v_ReadyAt : option Z; v_CreatedAt : Z;
  v_UpdatedAt : Z; v_DeletedAt : option Z }.

(** [server.UploadCredentials] *)
Record UploadCredentials := {
  u_StorageKind : string; u_URI : string; u_Credentials : Credentials }.

(** [server.ArtifactInitiateResponse] *)
Record InitiateResponse := { irs_Artifact : ArtifactView; irs_Upload : UploadCredentials }.

(** [server.ArtifactResolveResponse] *)
Record ResolveResponse := {
  rr_StorageKind : string; rr_URI : string; rr_Digest : string; rr_Visibility : string;
  rr_PullCredentials : option Credentials }.

(** ** dbjson *)

(** [MapToJSON]: empty maps are written as the empty object. *)
Definition MapToJSON (m : gmap string string) : json (gmap string string) := JVal m.

(** [DecodeStringMap]: nil for an empty or undecodable column. *)
Definition DecodeStringMap (j : json (gmap string string)) : option (gmap string string) :=
  match j with JVal m => Some m | _ => None end.

(** [toView] *)
Definition toView (row : Artifact) : ArtifactView :=
  {| v_ID := a_ID row; v_Namespace := a_Namespace row; v_Kind := a_Kind row; v_Name := a_Name row;
     v_Version := a_Version row; v_Visibility := a_Visibility row;
     v_DisplayName := a_DisplayName row; v_Description := a_Description row;
     v_Labels := DecodeStringMap (a_Labels row); v_Annotations := DecodeStringMap (a_Annotations row);
     v_Owner := a_OwnerUser row;
     v_Spec := match a_Spec row with JVal s => Some s | _ => None end;
     v_Status := a_Status row; v_Source := a_Source row; v_Message := a_Message row;
     v_Digest := a_Digest row; v_ReadyAt := a_ReadyAt row; v_CreatedAt := a_CreatedAt row;
     v_UpdatedAt := a_UpdatedAt row; v_DeletedAt := a_DeletedAt row |}.
