(* ===== verification/HubBackend.v ===== *)
(** * Artifact hub: storage backends and kind handlers

    [internal/storage/oci/client.go] and [internal/storage/s3/client.go] on
    top of the transports they call (net/http and minio-go), the per-kind
    handlers of [internal/artifact/handler] and their registry.  The
    transports are parameters ([Storage]); their answers may depend on every
    request made before, and the requests are recorded, so that theorems can
    say what a backend was asked.  SHA-256 is a parameter too. *)

From Stdlib Require Import ssreflect ZArith Ascii String.
From stdpp Require Import base gmap list strings pretty.
From S2P Require Import Prelude ApiTypes Names HubTypes.

(** ** The transports *)

Inductive http_method := HEAD | DELETE.

#[export] Instance http_method_eq_dec : EqDecision http_method.
Proof. solve_decision. Defined.

Record http_response := { rs_StatusCode : Z; rs_ContentDigest : string }.

(** A request to a storage backend. *)
Inductive backend_call :=
| CHttp (method : http_method) (url : string)
| CGetObject (bucket key : string)
| CRemoveObjects (bucket prefix : string).

#[export] Instance backend_call_eq_dec : EqDecision backend_call.
Proof. solve_decision. Defined.

(** [minio.ErrorResponse]: its code, and the text of the error. *)
Record s3_error := { se_Code : string; se_Text : string }.

(** [mc.GetObject] opens lazily: it can fail when opened or when read. *)
Inductive get_result := GetOK (body : string) | GetOpenError (e : s3_error) | GetReadError (e : s3_error).

Class Storage := {
  http_NewRequest : string -> option string;
  http_Do : list backend_call -> http_method -> string -> http_response + string;
  mc_GetObject : list backend_call -> string -> string -> get_result;
  mc_RemoveObjects : list backend_call -> string -> string -> list (string * s3_error);
  sha256_hex : string -> string }.

(** A backend operation: what it returns and the requests made up to then. *)
Abbreviation backend A := (list backend_call -> A * list backend_call).

(** [strings.TrimPrefix] *)
Definition TrimPrefix (s prefix : string) : string :=
  if String.prefix prefix s
  then String.substring (String.length prefix) (String.length s - String.length prefix) s
  else s.

(** ** The OCI client *)

Record oci_Config := { og_Endpoint : string; og_Scheme : string; og_Username : string; og_Password : string }.

Record oci_Client := { oc_baseURL : string; oc_scheme : string; oc_username : string; oc_password : string }.

(** [oci.New] *)
Definition oci_New (cfg : oci_Config) : oci_Client :=
  let '(scheme, endpoint) :=
    if String.prefix "http://" (og_Endpoint cfg) then ("http", TrimPrefix (og_Endpoint cfg) "http://")
    else if String.prefix "https://" (og_Endpoint cfg) then ("https", TrimPrefix (og_Endpoint cfg) "https://")
    else (og_Scheme cfg, og_Endpoint cfg) in
  {| oc_baseURL := endpoint; oc_scheme := if String.eqb scheme "" then "http" else scheme;
     oc_username := og_Username cfg; oc_password := og_Password cfg |}.

(** The URL of a manifest. *)
Definition manifest_url (c : oci_Client) (repoPath reference : string) : string :=
  (oc_scheme c ++ "://" ++ oc_baseURL c ++ "/v2/" ++ repoPath ++ "/manifests/" ++ reference)%string.

(** [IssueUploadCredentials]; [IssuePullCredentials] is the same. *)
Definition IssueUploadCredentials (c : oci_Client) (now ttl : Z) : Credentials :=
  {| c_Username := oc_username c; c_Password := oc_password c; c_ExpiresAt := Some (now + ttl)%Z |}.

Definition oci_IssuePullCredentials (c : oci_Client) (now ttl : Z) : Credentials :=
  {| c_Username := oc_username c; c_Password := oc_password c; c_ExpiresAt := Some (now + ttl)%Z |}.

Section Clients.
Context `{Storage}.

(** [HeadManifest] *)
Definition HeadManifest (c : oci_Client) (repoPath reference : string) : backend (string + hub_error) :=
  fun calls =>
  let url := manifest_url c repoPath reference in
  match http_NewRequest url with
  | Some err => (inr (HOther err), calls)
  | None =>
      let calls' := calls ++ [CHttp HEAD url] in
      match http_Do calls HEAD url with
      | inr err => (inr (HErrorf ("HEAD " ++ url) (HOther err)), calls')
      | inl resp =>
          (if (rs_StatusCode resp =? 200)%Z
           then if String.eqb (rs_ContentDigest resp) ""
                then inr (HOther ("HEAD " ++ url ++ ": empty Docker-Content-Digest"))
                else inl (rs_ContentDigest resp)
           else if (rs_StatusCode resp =? 404)%Z then inr HOCINotFound
           else inr (HOther ("HEAD " ++ url ++ ": unexpected status " ++ pretty (rs_StatusCode resp))),
           calls')
      end
  end.

(** [DeleteManifest] *)
Definition DeleteManifest (c : oci_Client) (repoPath digest : string) : backend (option hub_error) :=
  fun calls =>
  let url := manifest_url c repoPath digest in
  match http_NewRequest url with
  | Some err => (Some (HOther err), calls)
  | None =>
      let calls' := calls ++ [CHttp DELETE url] in
      match http_Do calls DELETE url with
      | inr err => (Some (HErrorf ("DELETE " ++ url) (HOther err)), calls')
      | inl resp =>
          (if bool_decide (rs_StatusCode resp ∈ [200; 202; 204]%Z) then None
           else if (rs_StatusCode resp =? 404)%Z then None
           else Some (HOther ("DELETE " ++ url ++ ": unexpected status " ++ pretty (rs_StatusCode resp))),
           calls')
      end
  end.

(** ** The S3 client *)

Definition isNoSuchKey (err : s3_error) : bool :=
  String.eqb (se_Code err) "NoSuchKey" || String.eqb (se_Code err) "NoSuchBucket".

(** [GetObject] *)
Definition GetObject (bucket key : string) : backend (string + hub_error) :=
  fun calls =>
  (match mc_GetObject calls bucket key with
   | GetOK body => inl body
   | GetOpenError err => inr (HErrorf ("s3: get '" ++ key ++ "'") (HOther (se_Text err)))
   | GetReadError err =>
       if isNoSuchKey err then inr HS3NotFound
       else inr (HErrorf ("s3: read '" ++ key ++ "'") (HOther (se_Text err)))
   end, calls ++ [CGetObject bucket key]).

(** The loop of [DeletePrefix] over the errors RemoveObjects reports. *)
Fixpoint first_removal_error (errs : list (string * s3_error)) : option hub_error :=
  match errs with
  | [] => None
  | (name, err) :: rest =>
      if isNoSuchKey err then first_removal_error rest
      else Some (HErrorf ("s3: remove '" ++ name ++ "'") (HOther (se_Text err)))
  end.

(** [DeletePrefix] *)
Definition DeletePrefix (bucket prefix : string) : backend (option hub_error) :=
  fun calls =>
  (first_removal_error (mc_RemoveObjects calls bucket prefix), calls ++ [CRemoveObjects bucket prefix]).

(** ** Handlers *)

(** [handler.Artifact] *)
Record hArtifact := {
  ha_Kind : string;
  ha_Namespace : string;
  ha_Name : string;
  ha_Version : string;
  ha_Spec : Spec;
  ha_Digest : string }.

(** [handler.Handler] *)
Record Handler := {
  h_Kind : string;
  h_StorageKind : string;
  h_BuildStorageURI : string -> string -> string -> string;
  h_BuildPullURI : string -> string -> string -> string -> string;
  h_ValidateSpec : Spec -> option hub_error;
  h_InitiateUpload : Z -> hArtifact -> Z -> Credentials + hub_error;
  h_IssuePullCredentials : Z -> hArtifact -> Z -> Credentials + hub_error;
  h_VerifyComplete : hArtifact -> string -> backend (string + hub_error);
  h_GCBackend : hArtifact -> backend (option hub_error) }.

(** [stringField] *)
Definition stringField (s : Spec) (key : string) : option string :=
  match s !! key with Some (AnyString v) => Some v | _ => None end.

(** ** ociBacked *)

Record ociBacked := { ob_oci : oci_Client; ob_kind : string; ob_subpath : string }.

Definition contentDigestPrefix : string := "sha256:".

Section OciBacked.
Context (h : ociBacked).

(** [ociBacked.repoPath] *)
Definition repoPath (namespace name : string) : string :=
  ("namespaces/" ++ namespace ++ "/" ++ ob_subpath h ++ "/" ++ name)%string.

(** [ociBacked.BuildStorageURI] *)
Definition oci_BuildStorageURI (namespace name version : string) : string :=
  (oc_baseURL (ob_oci h) ++ "/namespaces/" ++ namespace ++ "/" ++ ob_subpath h ++ "/" ++ name ++
   ":" ++ version)%string.

(** [ociBacked.BuildPullURI] *)
Definition oci_BuildPullURI (namespace name version digest : string) : string :=
  if negb (String.prefix contentDigestPrefix digest) then oci_BuildStorageURI namespace name version
  else
    (oc_baseURL (ob_oci h) ++ "/namespaces/" ++ namespace ++ "/" ++ ob_subpath h ++ "/" ++ name ++
     "@" ++ digest)%string.

(** [ociBacked.InitiateUpload], [ociBacked.IssuePullCredentials] *)
Definition oci_InitiateUpload (now : Z) (a : hArtifact) (ttl : Z) : Credentials + hub_error :=
  inl (IssueUploadCredentials (ob_oci h) now ttl).

Definition oci_PullCredentials (now : Z) (a : hArtifact) (ttl : Z) : Credentials + hub_error :=
  inl (oci_IssuePullCredentials (ob_oci h) now ttl).

(** [ociBacked.VerifyComplete] *)
Definition oci_VerifyComplete (a : hArtifact) (claim : string) : backend (string + hub_error) :=
  fun calls =>
  let path := repoPath (ha_Namespace a) (ha_Name a) in
  match HeadManifest (ob_oci h) path (ha_Version a) calls with
  | (inr err, calls') =>
      (inr (if HIsOCINotFound err
            then HNew HubPrecondition (ob_kind h ++ " manifest " ++ path ++ ":" ++ ha_Version a ++
                   " not found in registry")
            else HWrap HubUnavailable "head manifest" err), calls')
  | (inl digest, calls') =>
      (if String.eqb claim "" then inr (HNew HubValidation "complete: digest is required")
       else if negb (String.eqb digest claim)
       then inr (HNew HubConflict ("digest mismatch: registry has " ++ digest ++ ", claim is " ++ claim))
       else inl digest, calls')
  end.

(** [ociBacked.GCBackend] *)
Definition oci_GCBackend (a : hArtifact) : backend (option hub_error) :=
  fun calls =>
  if String.eqb (ha_Digest a) "" then (None, calls)
  else DeleteManifest (ob_oci h) (repoPath (ha_Namespace a) (ha_Name a)) (ha_Digest a) calls.

(** The handler a kind builds on [ociBacked] by adding its [ValidateSpec]. *)
Definition ociBacked_handler (ValidateSpec : Spec -> option hub_error) : Handler :=
  {| h_Kind := ob_kind h; h_StorageKind := "oci";
     h_BuildStorageURI := oci_BuildStorageURI; h_BuildPullURI := oci_BuildPullURI;
     h_ValidateSpec := ValidateSpec;
     h_InitiateUpload := oci_InitiateUpload; h_IssuePullCredentials := oci_PullCredentials;
     h_VerifyComplete := oci_VerifyComplete; h_GCBackend := oci_GCBackend |}.
End OciBacked.

(** ** model and image *)

Definition validFrameworks : list string :=
  ["pytorch"; "tensorflow"; "onnx"; "safetensors"; "gguf"; "custom"].

(** [ModelHandler.ValidateSpec] *)
Definition model_ValidateSpec (spec : Spec) : option hub_error :=
  match stringField spec "framework" with
  | None => Some (HNew HubValidation "spec.framework is required")
  | Some framework =>
      if negb (bool_decide (framework ∈ validFrameworks))
      then Some (HNew HubValidation ("spec.framework '" ++ framework ++
             "' is not in {pytorch,tensorflow,onnx,safetensors,gguf,custom}"))
      else
        match stringField spec "format" with
        | None => Some (HNew HubValidation "spec.format is required")
        | Some format =>
            if String.eqb format "" then Some (HNew HubValidation "spec.format is required") else None
        end
  end.

(** [NewModelHandler] *)
Definition NewModelHandler (client : oci_Client) : Handler :=
  ociBacked_handler {| ob_oci := client; ob_kind := "model"; ob_subpath := "models" |} model_ValidateSpec.

Definition validImagePurposes : list string := ["training"; "inference"; "dev"].

(** [ImageHandler.ValidateSpec] *)
Definition image_ValidateSpec (spec : Spec) : option hub_error :=
  match stringField spec "purpose" with
  | None => Some (HNew HubValidation "spec.purpose is required")
  | Some purpose =>
      if String.eqb purpose "" then Some (HNew HubValidation "spec.purpose is required")
      else if negb (bool_decide (purpose ∈ validImagePurposes))
      then Some (HNew HubValidation ("spec.purpose '" ++ purpose ++ "' is not in {training,inference,dev}"))
      else None
  end.

(** [NewImageHandler] *)
Definition NewImageHandler (client : oci_Client) : Handler :=
  ociBacked_handler {| ob_oci := client; ob_kind := "image"; ob_subpath := "images" |} image_ValidateSpec.

(** ** dataset *)

Definition datasetManifestObject : string := "artifact-manifest.json".

Definition validDatasetFormats : list string :=
  ["parquet"; "jsonl"; "csv"; "webdataset"; "tfrecord"; "custom"].

(** [DatasetHandler.prefix] *)
Definition dataset_prefix (namespace name version : string) : string :=
  ("namespaces/" ++ namespace ++ "/datasets/" ++ name ++ "/" ++ version ++ "/")%string.

(** [DatasetHandler.ValidateSpec] *)
Definition dataset_ValidateSpec (spec : Spec) : option hub_error :=
  match stringField spec "format" with
  | None => Some (HNew HubValidation "spec.format is required")
  | Some format =>
      if String.eqb format "" then Some (HNew HubValidation "spec.format is required")
      else if negb (bool_decide (format ∈ validDatasetFormats))
      then Some (HNew HubValidation ("spec.format '" ++ format ++
             "' is not in {parquet,jsonl,csv,webdataset,tfrecord,custom}"))
      else None
  end.

Section Dataset.
(** The bucket, and the S3 client, which is optional: its bucket. *)
Context (bucket : string) (s3c : option string).

Definition dataset_BuildStorageURI (namespace name version : string) : string :=
  ("s3://" ++ bucket ++ "/namespaces/" ++ namespace ++ "/datasets/" ++ name ++ "/" ++ version ++ "/")%string.

Definition dataset_credentials (user : string) (now : Z) (a : hArtifact) (ttl : Z) : Credentials + hub_error :=
  inl {| c_Username := user;
         c_Password := ("prefix:" ++ dataset_prefix (ha_Namespace a) (ha_Name a) (ha_Version a))%string;
         c_ExpiresAt := Some (now + ttl)%Z |}.

(** [DatasetHandler.VerifyComplete] *)
Definition dataset_VerifyComplete (a : hArtifact) (claim : string) : backend (string + hub_error) :=
  fun calls =>
  if String.eqb claim "" then (inr (HNew HubValidation "complete: digest is required"), calls)
  else
    match s3c with
    | None => (inl claim, calls)
    | Some cbucket =>
        let key := (dataset_prefix (ha_Namespace a) (ha_Name a) (ha_Version a) ++ datasetManifestObject)%string in
        match GetObject cbucket key calls with
        | (inr err, calls') =>
            (inr (if HIsS3NotFound err
                  then HNew HubPrecondition ("dataset manifest " ++ key ++ " not found in object store")
                  else HWrap HubUnavailable "get dataset manifest" err), calls')
        | (inl body, calls') =>
            let digest := ("sha256:" ++ sha256_hex body)%string in
            (if negb (String.eqb digest claim)
             then inr (HNew HubConflict ("digest mismatch: manifest hashes to " ++ digest ++ ", claim is " ++ claim))
             else inl digest, calls')
        end
    end.

(** [DatasetHandler.GCBackend] *)
Definition dataset_GCBackend (a : hArtifact) : backend (option hub_error) :=
  fun calls =>
  match s3c with
  | None => (None, calls)
  | Some cbucket =>
      DeletePrefix cbucket (dataset_prefix (ha_Namespace a) (ha_Name a) (ha_Version a)) calls
  end.
End Dataset.

(** [NewDatasetHandler] *)
Definition NewDatasetHandler (bucket : string) (s3c : option string) : Handler :=
  let bucket := if String.eqb bucket "" then "axisml-artifact-hub" else bucket in
  {| h_Kind := "dataset"; h_StorageKind := "s3";
     h_BuildStorageURI := dataset_BuildStorageURI bucket;
     h_BuildPullURI := fun namespace name version _ => dataset_BuildStorageURI bucket namespace name version;
     h_ValidateSpec := dataset_ValidateSpec;
     h_InitiateUpload := dataset_credentials "axisml-dataset-upload";
     h_IssuePullCredentials := dataset_credentials "axisml-dataset-pull";
     h_VerifyComplete := dataset_VerifyComplete s3c;
     h_GCBackend := dataset_GCBackend s3c |}.

(** ** The registry *)

Abbreviation registry := (gmap string Handler).

(** [Register]; [None] is the panic on a duplicate kind. *)
Definition Register (h : Handler) (reg : registry) : option registry :=
  match reg !! h_Kind h with Some _ => None | None => Some (<[h_Kind h := h]> reg) end.

(** [handler.Get] *)
Definition Get (reg : registry) (kind : string) : option Handler := reg !! kind.

(** [registerHandlers] *)
Definition registerHandlers (client : oci_Client) (s3c : option string) (bucket : string)
  (reg : registry) : option registry :=
  match Get reg "model" with
  | Some _ => Some reg
  | None =>
      reg1 ← Register (NewModelHandler client) reg;
      reg2 ← Register (NewImageHandler client) reg1;
      Register (NewDatasetHandler bucket s3c) reg2
  end.

(** ** Facts on the handlers *)

(** What the hub may assume of a handler: a completed upload has a digest, and
    the requests of an operation are added to those made before. *)
Class HandlerOK (h : Handler) : Prop := {
  hok_digest a claim calls digest calls' :
    h_VerifyComplete h a claim calls = (inl digest, calls') -> digest <> "" /\ digest = claim;
  hok_verify_calls a claim calls : exists new, (h_VerifyComplete h a claim calls).2 = calls ++ new /\
    Forall (fun c => match c with CHttp DELETE _ | CRemoveObjects _ _ => False | _ => True end) new;
  hok_gc_calls a calls : exists new, (h_GCBackend h a calls).2 = calls ++ new }.

Lemma HeadManifest_calls c path ref calls :
  exists new, (HeadManifest c path ref calls).2 = calls ++ new /\
    Forall (fun c => match c with CHttp DELETE _ | CRemoveObjects _ _ => False | _ => True end) new.
Proof.
  rw /HeadManifest. destruct (http_NewRequest _) as [e|]; [exists []; by rw app_nil_r|].
  destruct (http_Do _ _ _) as [r|e]; eexists; split; try done; by repeat constructor.
Qed.

Lemma GetObject_calls bucket key calls :
  (GetObject bucket key calls).2 = calls ++ [CGetObject bucket key].
Proof. done. Qed.

#[export] Instance ociBacked_ok h v : HandlerOK (ociBacked_handler h v).
Proof.
  split; simpl.
  - intros a claim calls digest calls'. rw /oci_VerifyComplete.
    destruct (HeadManifest _ _ _ _) as [[d|e] cs]; [|done].
    destruct (String.eqb_spec claim "") as [|Hc]; [done|].
    destruct (String.eqb_spec d claim) as [->|]; [|done]. by intros [= <- _].
  - intros a claim calls. destruct (HeadManifest_calls (ob_oci h)
      (repoPath h (ha_Namespace a) (ha_Name a)) (ha_Version a) calls) as (new & Hn & Hf).
    exists new. split; [|done]. rw -Hn /oci_VerifyComplete.
    by destruct (HeadManifest _ _ _ _) as [[d|e] cs].
  - intros a calls. rw /oci_GCBackend /DeleteManifest.
    destruct (String.eqb _ _); [exists []; by rw app_nil_r|].
    destruct (http_NewRequest _); [exists []; by rw app_nil_r|].
    destruct (http_Do _ _ _); by eexists.
Qed.

#[export] Instance dataset_ok b s : HandlerOK (NewDatasetHandler b s).
Proof.
  split; simpl.
  - intros a claim calls digest calls'. rw /dataset_VerifyComplete.
    destruct (String.eqb_spec claim "") as [|Hc]; [done|].
    destruct s as [bk|]; [|by intros [= <- _]].
    destruct (GetObject _ _ _) as [[d|e] cs]; [|done].
    case: String.eqb_spec => [<-|]; [|done]. by intros [= <- _].
  - intros a claim calls. rw /dataset_VerifyComplete.
    destruct (String.eqb claim ""); [exists []; by rw app_nil_r|].
    destruct s as [bk|]; [|exists []; by rw app_nil_r].
    generalize (dataset_prefix (ha_Namespace a) (ha_Name a) (ha_Version a) ++ datasetManifestObject)%string as key.
    intros key. exists [CGetObject bk key]. split; [|by apply Forall_singleton].
    rw -(GetObject_calls bk key calls). by destruct (GetObject _ _ _) as [[d|e] cs].
  - intros a calls. rw /dataset_GCBackend. destruct s as [bk|]; [|exists []; by rw app_nil_r].
    by eexists.
Qed.
End Clients.

Abbreviation registry := (gmap string Handler).

(** ** Prefixes of datasets *)

Fixpoint no_slash (s : string) : bool :=
  match s with EmptyString => true | String c rest => negb (Ascii.eqb c "/") && no_slash rest end.

Lemma append_assoc a b c : ((a ++ b) ++ c = a ++ (b ++ c))%string.
Proof. induction a as [|x a IH]; [done|]. exact (f_equal (String x) IH). Qed.

(** A component without a slash ends at the first one. *)
Lemma slash_split a a' r r' :
  no_slash a = true -> no_slash a' = true -> (a ++ String "/" r = a' ++ String "/" r')%string -> a = a' /\ r = r'.
Proof.
  revert a'. induction a as [|c a IH]; intros [|c' a'] Ha Ha' E.
  - by injection E as ->.
  - change (String "/" r = String c' (a' ++ String "/" r')%string) in E. injection E as <- _. done.
  - change (String c (a ++ String "/" r)%string = String "/" r') in E. injection E as -> _. done.
  - change (String c (a ++ String "/" r)%string = String c' (a' ++ String "/" r')%string) in E.
    injection E as -> E. simpl in Ha, Ha'. unbool. by destruct (IH a') as [-> ->].
Qed.

(** An object under the prefix of one dataset version is under the prefix of
    no other. *)
Lemma dataset_prefix_isolated ns name v ns' name' v' x y :
  forallb no_slash [ns; name; v; ns'; name'; v'] = true ->
  (dataset_prefix ns name v ++ x = dataset_prefix ns' name' v' ++ y)%string ->
  ns = ns' /\ name = name' /\ v = v'.
Proof.
  simpl. intros Hs E. unbool. rw /dataset_prefix !append_assoc in E.
  apply (String.app_inj "namespaces/") in E.
  apply (slash_split ns ns') in E as [-> E]; [|done..]. apply (String.app_inj "datasets/") in E.
  apply (slash_split name name') in E as [-> E]; [|done..].
  apply (slash_split v v') in E as [-> E]; done.
Qed.
