(* ===== verification/Strconv.v ===== *)
(** * Strings of the Go library

    What the HTTP layers use of [strconv] (Itoa, Atoi on a 64-bit int),
    [encoding/base64] (RawURLEncoding) and [strings] (TrimSpace, Split), on
    byte strings, with the round trips of the two encodings. *)

From Stdlib Require Import ssreflect ZArith Lia Ascii String.
From stdpp Require Import base list strings.
From S2P Require Import Prelude Names.

Open Scope Z_scope.

(** ** Decimal numbers *)

Definition int64_max : Z := 9223372036854775807.
Definition int64_min : Z := (-9223372036854775808).
Definition in_int64 (z : Z) : Prop := int64_min <= z <= int64_max.

(** Two's complement wrap-around of an [int] or [int64] operation. *)
Definition wrap64 (z : Z) : Z :=
  (z + 9223372036854775808) mod 18446744073709551616 - 9223372036854775808.

Lemma wrap64_id z : in_int64 z -> wrap64 z = z.
Proof. rw /in_int64 /wrap64 /int64_min /int64_max => ?. rw Z.mod_small; lia. Qed.

Definition digit_char (d : Z) : ascii := ascii_of_nat (48 + Z.to_nat d).

Definition char_digit (c : ascii) : option Z :=
  if in_range 48 57 c then Some (Z.of_nat (nat_of_ascii c) - 48) else None.

(** The digits of a number below [10 ^ fuel], most significant first, in front
    of [acc]. *)
Fixpoint format_digits (fuel : nat) (n : Z) (acc : bytes) : bytes :=
  match fuel with
  | O => acc
  | S f => if n <? 10 then digit_char n :: acc
           else format_digits f (n / 10) (digit_char (n mod 10) :: acc)
  end.

(** [strconv.Itoa] of a 64-bit int. *)
Definition Itoa (n : Z) : bytes :=
  if n <? 0 then dash :: format_digits 20 (- n) [] else format_digits 20 n [].

(** Digits to a number; [None] on any other character. *)
Fixpoint parse_digits (s : bytes) (n : Z) : option Z :=
  match s with
  | [] => Some n
  | c :: rest => match char_digit c with Some d => parse_digits rest (n * 10 + d) | None => None end
  end.

(** [strconv.Atoi]: an optional sign, at least one digit, in range. *)
Definition Atoi (s : bytes) : option Z :=
  let '(neg, digits) :=
    match s with
    | c :: rest => if Ascii.eqb c dash then (true, rest) else if Ascii.eqb c "+" then (false, rest) else (false, s)
    | [] => (false, [])
    end in
  match digits with
  | [] => None
  | _ =>
      match parse_digits digits 0 with
      | None => None
      | Some n =>
          let v := if neg then - n else n in
          if (int64_min <=? v) && (v <=? int64_max) then Some v else None
      end
  end.

Lemma char_digit_char d : 0 <= d < 10 -> char_digit (digit_char d) = Some d.
Proof.
  intros Hd. rw /char_digit /digit_char /in_range nat_ascii_embedding; [lia|].
  replace ((48 <=? 48 + Z.to_nat d)%nat && (48 + Z.to_nat d <=? 57)%nat) with true; [f_equal; lia|].
  symmetry. apply andb_true_iff. rw !Nat.leb_le. lia.
Qed.

Lemma digit_char_neq d : 0 <= d < 10 -> digit_char d <> dash /\ digit_char d <> "+"%char.
Proof. intros Hd. split; intros E; pose proof (char_digit_char d Hd) as H; by rw E in H. Qed.

(** Parsing what [format_digits] wrote continues with [acc]. *)
Lemma parse_format fuel n acc k :
  0 <= n < 10 ^ Z.of_nat fuel -> (0 < fuel)%nat ->
  exists m, 0 <= m /\ parse_digits (format_digits fuel n acc) k = parse_digits acc (k * 10 ^ m + n).
Proof.
  revert n acc k. induction fuel as [|fuel IH]; intros n acc k Hn Hf; [lia|]. cbn [format_digits].
  destruct (Z.ltb_spec n 10) as [Hlt|Hge].
  - exists 1. split; [lia|]. cbn [parse_digits]. rw char_digit_char; [lia|]. by rw Z.pow_1_r.
  - assert (Hn' : 0 <= n / 10 < 10 ^ Z.of_nat fuel).
    { split; [apply Z.div_pos; lia|]. apply Z.div_lt_upper_bound; [lia|].
      rw Nat2Z.inj_succ Z.pow_succ_r in Hn; lia. }
    destruct fuel as [|fuel']; [simpl in Hn'; lia|].
    destruct (IH (n / 10) (digit_char (n mod 10) :: acc) k Hn') as (m & Hm & E); [lia|].
    exists (m + 1). split; [lia|]. rw E. cbn [parse_digits].
    rw char_digit_char; [by apply Z.mod_pos_bound|].
    f_equal. rw Z.pow_add_r // Z.pow_1_r. pose proof (Z.div_mod n 10). lia.
Qed.

Lemma format_digits_head fuel n acc :
  (0 < fuel)%nat -> 0 <= n ->
  exists d rest, 0 <= d < 10 /\ format_digits fuel n acc = digit_char d :: rest.
Proof.
  revert n acc. induction fuel as [|fuel IH]; intros n acc Hf Hn; [lia|]. cbn [format_digits].
  destruct (Z.ltb_spec n 10); [exists n, acc; by split; [lia|]|].
  destruct fuel as [|fuel'].
  { exists (n mod 10), acc. split; [by apply Z.mod_pos_bound|done]. }
  apply IH; [lia|]. by apply Z.div_pos.
Qed.

(** [Atoi] inverts [Itoa] on every int. *)
Lemma Atoi_Itoa n : in_int64 n -> Atoi (Itoa n) = Some n.
Proof.
  rw /in_int64 /int64_min /int64_max => Hn.
  assert (Hd : forall m, 0 <= m < 10 ^ Z.of_nat 20 ->
    parse_digits (format_digits 20 m []) 0 = Some m /\
    exists d rest, 0 <= d < 10 /\ format_digits 20 m [] = digit_char d :: rest).
  { intros m Hm. split; [|apply format_digits_head; lia].
    destruct (parse_format 20 m [] 0 Hm) as (k & _ & E); [lia|]. by rw E. }
  rw /Itoa /Atoi. destruct (Z.ltb_spec n 0) as [Hneg|Hpos].
  - destruct (Hd (- n)) as [E (d & rest & Hr & F)]; [lia|]. rw Ascii.eqb_refl F.
    rw -F E. rw (_ : _ && _ = true); [|f_equal; lia].
    apply andb_true_iff. rw !Z.leb_le /int64_min /int64_max. lia.
  - destruct (Hd n) as [E (d & rest & Hr & F)]; [lia|]. rw F. destruct (digit_char_neq d Hr) as [N1 N2].
    apply Ascii.eqb_neq in N1, N2. rw N1 N2 -F E. rw (_ : _ && _ = true); [|done].
    apply andb_true_iff. rw !Z.leb_le /int64_min /int64_max. lia.
Qed.

(** ** base64, RawURLEncoding *)

Definition b64_alphabet : bytes :=
  list_ascii_of_string "ABCDEFGHIJKLMNOPQRSTUVWXYZabcdefghijklmnopqrstuvwxyz0123456789-_".

Definition b64_char (i : N) : ascii := nth (N.to_nat i) b64_alphabet "A"%char.

Fixpoint b64_find (c : ascii) (l : bytes) (i : N) : option N :=
  match l with
  | [] => None
  | d :: rest => if Ascii.eqb c d then Some i else b64_find c rest (i + 1)%N
  end.

Definition b64_index (c : ascii) : option N := b64_find c b64_alphabet 0.

(** [EncodeToString] without padding. *)
Fixpoint b64_encode (s : bytes) : bytes :=
  match s with
  | [] => []
  | [a] =>
      let v := (N_of_ascii a * 16)%N in [b64_char (v / 64); b64_char (v mod 64)]%N
  | [a; b] =>
      let v := ((N_of_ascii a * 256 + N_of_ascii b) * 4)%N in
      [b64_char (v / 4096); b64_char (v / 64 mod 64); b64_char (v mod 64)]%N
  | a :: b :: c :: rest =>
      let v := ((N_of_ascii a * 256 + N_of_ascii b) * 256 + N_of_ascii c)%N in
      b64_char (v / 262144)%N :: b64_char (v / 4096 mod 64)%N :: b64_char (v / 64 mod 64)%N ::
      b64_char (v mod 64)%N :: b64_encode rest
  end.

(** The decoder skips line breaks. *)
Definition b64_newline (c : ascii) : bool := Ascii.eqb c "010"%char || Ascii.eqb c "013"%char.

(** Groups of four digits; a last group of two or three stands for one or two
    bytes, whose spare low bits are ignored; one digit alone is an error. *)
Fixpoint b64_groups (l : list N) : option bytes :=
  match l with
  | [] => Some []
  | [_] => None
  | [a; b] => Some [ascii_of_N ((a * 64 + b) / 16)]
  | [a; b; c] =>
      let v := ((a * 64 + b) * 64 + c)%N in Some [ascii_of_N (v / 1024); ascii_of_N (v / 4 mod 256)]
  | a :: b :: c :: d :: rest =>
      let v := (((a * 64 + b) * 64 + c) * 64 + d)%N in
      match b64_groups rest with
      | Some out => Some (ascii_of_N (v / 65536) :: ascii_of_N (v / 256 mod 256) :: ascii_of_N (v mod 256) :: out)
      | None => None
      end
  end%N.

(** [DecodeString] *)
Definition b64_decode (s : bytes) : option bytes :=
  match mapM b64_index (filter (fun c => b64_newline c = false) s) with
  | Some l => b64_groups l
  | None => None
  end.

Lemma b64_char_ok i :
  (i < 64)%N -> b64_index (b64_char i) = Some i /\ b64_newline (b64_char i) = false.
Proof.
  intros Hi. pose (ok := fun i : N =>
    match b64_index (b64_char i) with Some j => N.eqb i j | None => false end && negb (b64_newline (b64_char i))).
  assert (Hall : forallb ok (map N.of_nat (List.seq 0 64)) = true) by (vm_compute; reflexivity).
  assert (Hok : ok i = true).
  { rw forallb_forall in Hall. apply Hall, in_map_iff. exists (N.to_nat i).
    rw N2Nat.id in_seq. split; [done|lia]. }
  move: Hok. rw /ok andb_true_iff negb_true_iff. intros [H1 H2]. split; [|done].
  destruct (b64_index _) as [j|]; [|done]. by apply N.eqb_eq in H1 as ->.
Qed.

Lemma b64_decode_chars l :
  Forall (fun i => i < 64)%N l -> b64_decode (map b64_char l) = b64_groups l.
Proof.
  intros Hl. rw /b64_decode. replace (filter _ _) with (map b64_char l).
  - replace (mapM b64_index (map b64_char l)) with (Some l); [done|].
    symmetry. apply mapM_Some. induction Hl as [|i l Hi _ IH]; [constructor|].
    constructor; [by apply b64_char_ok|done].
  - symmetry. induction Hl as [|i l Hi _ IH]; [done|]. simpl. destruct (b64_char_ok i Hi) as [_ E].
    rw filter_cons_True //. by f_equal.
Qed.

(** The digits of an encoding. *)
Fixpoint b64_digits (s : bytes) : list N :=
  match s with
  | [] => []
  | [a] => let v := (N_of_ascii a * 16)%N in [v / 64; v mod 64]%N
  | [a; b] =>
      let v := ((N_of_ascii a * 256 + N_of_ascii b) * 4)%N in [v / 4096; v / 64 mod 64; v mod 64]%N
  | a :: b :: c :: rest =>
      let v := ((N_of_ascii a * 256 + N_of_ascii b) * 256 + N_of_ascii c)%N in
      (v / 262144 :: v / 4096 mod 64 :: v / 64 mod 64 :: v mod 64 :: b64_digits rest)%N
  end.

(** Induction three bytes at a time. *)
Lemma bytes_ind3 (P : bytes -> Prop) :
  P [] -> (forall a, P [a]) -> (forall a b, P [a; b]) ->
  (forall a b c rest, P rest -> P (a :: b :: c :: rest)) -> forall s, P s.
Proof.
  intros H0 H1 H2 H3. enough (Hn : forall n s, (length s <= n)%nat -> P s) by (intros s; by eapply Hn).
  induction n as [|n IH]; intros [|a [|b [|c rest]]] Hl; simpl in Hl; try done; try lia.
  apply H3, IH. lia.
Qed.

Lemma b64_encode_digits s : b64_encode s = map b64_char (b64_digits s).
Proof. induction s as [| | |a b c rest IH] using bytes_ind3; try done. simpl. by rw IH. Qed.

Lemma ascii_N_bound c : (N_of_ascii c < 256)%N.
Proof. apply N_ascii_bounded. Qed.

Lemma b64_digits_bound s : Forall (fun i => i < 64)%N (b64_digits s).
Proof.
  induction s as [|a|a b|a b c rest IH] using bytes_ind3; [constructor|..];
    cbn [b64_digits]; repeat (apply Forall_cons; split); try done;
    try (by apply N.mod_lt); apply N.Div0.div_lt_upper_bound;
    pose proof (ascii_N_bound a); try pose proof (ascii_N_bound b); try pose proof (ascii_N_bound c); lia.
Qed.

Lemma ascii_back c n : n = N_of_ascii c -> ascii_of_N n = c.
Proof. intros ->. apply ascii_N_embedding. Qed.

Lemma b64_groups_digits s : b64_groups (b64_digits s) = Some s.
Proof.
  induction s as [|a|a b|a b c rest IH] using bytes_ind3; [done|..]; cbn [b64_digits b64_groups];
    pose proof (ascii_N_bound a); try pose proof (ascii_N_bound b); try pose proof (ascii_N_bound c);
    try rw IH; repeat f_equal; apply ascii_back; zify; Z.to_euclidean_division_equations; lia.
Qed.

(** Decoding an encoding gives the bytes back. *)
Lemma b64_decode_encode s : b64_decode (b64_encode s) = Some s.
Proof. rw b64_encode_digits b64_decode_chars; [apply b64_digits_bound|apply b64_groups_digits]. Qed.

Lemma b64_encode_nil s : b64_encode s = [] -> s = [].
Proof. by destruct s as [|a [|b [|c rest]]]. Qed.

(** ** strings.TrimSpace *)

(** The UTF-8 encodings of the white space of Unicode. *)
Definition space_encodings : list bytes :=
  map (map ascii_of_nat)
    ([[9]; [10]; [11]; [12]; [13]; [32]; [194; 133]; [194; 160]; [225; 154; 128]] ++
     map (fun b => [226; 128; b]) [128; 129; 130; 131; 132; 133; 134; 135; 136; 137; 138; 168; 169; 175] ++
     [[226; 129; 159]; [227; 128; 128]])%nat.

Fixpoint strip_prefix (p s : bytes) : option bytes :=
  match p, s with
  | [], _ => Some s
  | a :: p', b :: s' => if Ascii.eqb a b then strip_prefix p' s' else None
  | _ :: _, [] => None
  end.

(** Removes encodings from the front, at most [fuel] of them. *)
Fixpoint trim_front (encs : list bytes) (fuel : nat) (s : bytes) : bytes :=
  match fuel with
  | O => s
  | S f => match list_find (fun e => is_Some (strip_prefix e s)) encs with
           | Some (_, e) => match strip_prefix e s with Some s' => trim_front encs f s' | None => s end
           | None => s
           end
  end.

(** [strings.TrimSpace] *)
Definition TrimSpace (s : bytes) : bytes :=
  let t := trim_front space_encodings (length s) s in
  rev (trim_front (map (@rev ascii) space_encodings) (length t) (rev t)).

(** [strings.Split(s, ",")] *)
Fixpoint SplitComma (s : bytes) : list bytes :=
  match s with
  | [] => [[]]
  | c :: rest =>
      if Ascii.eqb c "," then [] :: SplitComma rest
      else match SplitComma rest with part :: parts => (c :: part) :: parts | [] => [[c]] end
  end.

(** ** Messages *)

(** A number in a message ([%d]). *)
Definition decimal (n : Z) : string := string_of_list_ascii (Itoa n).

(** A field of the [i]-th element. *)
Definition at_index (path : string) (i : nat) : string :=
  (path ++ "[" ++ decimal (Z.of_nat i) ++ "]")%string.
