(* ===== verification/Listing.v ===== *)
(** * Listing: pagination, label selectors, error responses

    [internal/server/pagination.go], [labels.go] and [problem.go], which
    compute-service and artifact-hub each carry a copy of.  The two copies
    differ in the constructor of a validation error, which is the argument
    [invalid] here.  [labels.Parse] of apimachinery is a parameter; what it
    returns is a list of requirements with the operators of
    [selection.Operator].  A WHERE fragment is kept as its clauses, with the
    SQL text and the bound arguments they are rendered to, and evaluated in
    SQL's three-valued logic. *)

From Stdlib Require Import ssreflect ZArith Lia Ascii String.
From stdpp Require Import base gmap list strings.
From S2P Require Import Prelude ApiTypes Names Strconv HubTypes.

Open Scope Z_scope.

(** ** Pagination *)

Record Pagination := { Limit : Z; Offset : Z }.

Definition defaultLimit : Z := 50.
Definition maxLimit : Z := 200.

Definition decodeContinue (raw : string) : option Z :=
  b ← b64_decode (list_ascii_of_string raw); Atoi b.

(** [EncodeContinue] *)
Definition EncodeContinue (offset count total : Z) : string :=
  if total <=? wrap64 (offset + count) then ""
  else string_of_list_ascii (b64_encode (Itoa (wrap64 (offset + count)))).

Section Parse.
Context {E : Type} (invalid : string -> E).

(** [ParsePagination] on the [limit] and [continue] query parameters. *)
Definition ParsePagination (limit cont : string) : Pagination + E :=
  let with_limit (n : Z) : Pagination + E :=
    if String.eqb cont "" then inl {| Limit := n; Offset := 0 |}
    else match decodeContinue cont with
         | Some o => if o <? 0 then inr (invalid "continue token is invalid")
                     else inl {| Limit := n; Offset := o |}
         | None => inr (invalid "continue token is invalid")
         end in
  if String.eqb limit "" then with_limit defaultLimit
  else match Atoi (list_ascii_of_string limit) with
       | Some n => if n <=? 0 then inr (invalid "limit must be a positive integer")
                   else with_limit (if maxLimit <? n then maxLimit else n)
       | None => inr (invalid "limit must be a positive integer")
       end.
End Parse.

Definition server_ParsePagination : string -> string -> Pagination + error := ParsePagination (New CodeValidation).
Definition hub_ParsePagination : string -> string -> Pagination + hub_error := ParsePagination (HNew HubValidation).

(** LIMIT and OFFSET. *)
Definition page {A} (rows : list A) (p : Pagination) : list A :=
  take (Z.to_nat (Limit p)) (drop (Z.to_nat (Offset p)) rows).

(** A list response: the items of the page, the total and the token. *)
Record list_response {A : Type} := { lr_items : list A; lr_total : Z; lr_continueToken : string }.
Arguments list_response : clear implicits.

(** What a list endpoint returns for rows in ORDER BY order. *)
Definition list_page {A} (rows : list A) (p : Pagination) : list_response A :=
  let items := page rows p in
  let total := Z.of_nat (length rows) in
  {| lr_items := items; lr_total := total;
     lr_continueToken := EncodeContinue (Offset p) (Z.of_nat (length items)) total |}.

(** A client that asks for pages until there is no token. *)
Fixpoint follow {A} (fuel : nat) (rows : list A) (limit token : string) : option (list A) :=
  match fuel with
  | O => None
  | S f =>
      match server_ParsePagination limit token with
      | inr _ => None
      | inl p =>
          let r := list_page rows p in
          if String.eqb (lr_continueToken r) "" then Some (lr_items r)
          else rest ← follow f rows limit (lr_continueToken r); Some (lr_items r ++ rest)
      end
  end.

(** [QueryCSV] on the values of a repeated query parameter. *)
Definition QueryCSV (values : list string) : list string :=
  foldl (fun out raw =>
    foldl (fun out part =>
      let v := string_of_list_ascii (TrimSpace part) in
      if String.eqb v "" then out
      else if bool_decide (v ∈ out) then out
      else out ++ [v]) out (SplitComma (list_ascii_of_string raw))) [] values.

(** ** Label selectors *)

(** [selection.Operator] *)
Inductive Operator :=
| Equals | DoubleEquals | NotEquals | Exists | DoesNotExist | In | NotIn | GreaterThan | LessThan.

#[export] Instance Operator_eq_dec : EqDecision Operator.
Proof. solve_decision. Defined.

(** [labels.Requirement]; the values are a set, listed in some order. *)
Record Requirement := { rq_Key : string; rq_Operator : Operator; rq_Values : list string }.

(** What [labels.NewRequirement] checks. *)
Definition req_valid (r : Requirement) : bool :=
  match rq_Operator r with
  | In | NotIn => negb (bool_decide (rq_Values r = []))
  | Equals | DoubleEquals | NotEquals | GreaterThan | LessThan => bool_decide (length (rq_Values r) = 1%nat)
  | Exists | DoesNotExist => bool_decide (rq_Values r = [])
  end.

(** The documented meaning of a requirement on a label set. *)
Definition Matches (r : Requirement) (ls : gmap string string) : bool :=
  let has := bool_decide (is_Some (ls !! rq_Key r)) in
  let elem := match ls !! rq_Key r with Some v => bool_decide (v ∈ rq_Values r) | None => false end in
  let cmp (lt : Z -> Z -> bool) :=
    match ls !! rq_Key r, rq_Values r with
    | Some v, [w] =>
        match Atoi (list_ascii_of_string v), Atoi (list_ascii_of_string w) with
        | Some a, Some b => lt a b
        | _, _ => false
        end
    | _, _ => false
    end in
  match rq_Operator r with
  | In | Equals | DoubleEquals => elem
  | NotIn | NotEquals => negb elem
  | Exists => has
  | DoesNotExist => negb has
  | GreaterThan => cmp (fun a b => b <? a)
  | LessThan => cmp (fun a b => a <? b)
  end.

(** The clauses the fragment is made of, on [(column ->> key)]. *)
Inductive clause :=
| WEq (key val : string)
| WDistinct (key val : string)
| WNotNull (key : string)
| WNull (key : string)
| WIn (key : string) (vals : list string)
| WNullOrNotIn (key : string) (vals : list string).

(** One iteration of the loop over the requirements. *)
Definition req_clause (r : Requirement) : option clause :=
  match rq_Operator r with
  | Equals | DoubleEquals => match rq_Values r with [v] => Some (WEq (rq_Key r) v) | _ => None end
  | NotEquals => match rq_Values r with [v] => Some (WDistinct (rq_Key r) v) | _ => None end
  | Exists => Some (WNotNull (rq_Key r))
  | DoesNotExist => Some (WNull (rq_Key r))
  | In => match rq_Values r with [] => None | vals => Some (WIn (rq_Key r) vals) end
  | NotIn => match rq_Values r with [] => None | vals => Some (WNullOrNotIn (rq_Key r) vals) end
  | GreaterThan | LessThan => None
  end.

(** [strings.Join] *)
Fixpoint Join (parts : list string) (sep : string) : string :=
  match parts with
  | [] => ""
  | [p] => p
  | p :: rest => p ++ sep ++ Join rest sep
  end.

Definition placeholders (vals : list string) : string := Join (map (fun _ => "?") vals) ",".

Definition clause_sql (column : string) (c : clause) : string :=
  match c with
  | WEq _ _ => "(" ++ column ++ " ->> ?) = ?"
  | WDistinct _ _ => "(" ++ column ++ " ->> ?) IS DISTINCT FROM ?"
  | WNotNull _ => "(" ++ column ++ " ->> ?) IS NOT NULL"
  | WNull _ => "(" ++ column ++ " ->> ?) IS NULL"
  | WIn _ vals => "(" ++ column ++ " ->> ?) IN (" ++ placeholders vals ++ ")"
  | WNullOrNotIn _ vals =>
      "((" ++ column ++ " ->> ?) IS NULL OR (" ++ column ++ " ->> ?) NOT IN (" ++ placeholders vals ++ "))"
  end.

Definition clause_args (c : clause) : list string :=
  match c with
  | WEq key v | WDistinct key v => [key; v]
  | WNotNull key | WNull key => [key]
  | WIn key vals => key :: vals
  | WNullOrNotIn key vals => key :: key :: vals
  end.

(** SQL truth values: [None] is NULL. *)
Definition sql_not (b : option bool) : option bool := option_map negb b.

Definition sql_or (a b : option bool) : option bool :=
  match a, b with
  | Some true, _ | _, Some true => Some true
  | Some false, Some false => Some false
  | _, _ => None
  end.

Definition sql_and (a b : option bool) : option bool :=
  match a, b with
  | Some false, _ | _, Some false => Some false
  | Some true, Some true => Some true
  | _, _ => None
  end.

(** [x = v] and [x IN (vs)] are NULL when [x] is. *)
Definition sql_in (x : option string) (vs : list string) : option bool :=
  match x with Some s => Some (bool_decide (s ∈ vs)) | None => None end.

Definition clause_eval (ls : gmap string string) (c : clause) : option bool :=
  match c with
  | WEq key v => sql_in (ls !! key) [v]
  | WDistinct key v => Some (negb (bool_decide (ls !! key = Some v)))
  | WNotNull key => Some (bool_decide (is_Some (ls !! key)))
  | WNull key => Some (bool_decide (ls !! key = None))
  | WIn key vs => sql_in (ls !! key) vs
  | WNullOrNotIn key vs =>
      sql_or (Some (bool_decide (ls !! key = None))) (sql_not (sql_in (ls !! key) vs))
  end.

(** WHERE keeps a row when the conjunction is true, not when it is NULL. *)
Definition where_labels (cs : list clause) (ls : gmap string string) : bool :=
  match foldr sql_and (Some true) (map (clause_eval ls) cs) with Some true => true | _ => false end.

Section Selectors.
Context {E : Type} (invalid : string -> E).
(** [labels.Parse]: the requirements, or the text of the error. *)
Context (labels_Parse : string -> list Requirement + string).

(** The clauses a raw selector asks for. *)
Definition selector_clauses (raw : string) : list clause + E :=
  match TrimSpace (list_ascii_of_string raw) with
  | [] => inl []
  | _ =>
      match labels_Parse raw with
      | inr err => inr (invalid ("labelSelector parse: " ++ err)%string)
      | inl reqs => inl (omap req_clause reqs)
      end
  end.

(** [JSONLabelsSQL]: the fragment and the arguments bound to it. *)
Definition JSONLabelsSQL (column raw : string) : string * list string + E :=
  match selector_clauses raw with
  | inr err => inr err
  | inl cs => inl (Join (map (clause_sql column) cs) " AND ", concat (map clause_args cs))
  end.
End Selectors.

Definition server_JSONLabelsSQL parse : string -> string -> string * list string + error :=
  JSONLabelsSQL (New CodeValidation) parse.
Definition hub_JSONLabelsSQL parse : string -> string -> string * list string + hub_error :=
  JSONLabelsSQL (HNew HubValidation) parse.

(** ** Error responses *)

(** [server.Error], RFC 7807. *)
Record Problem := {
  p_Type : string; p_Title : string; p_Status : Z; p_Detail : string; p_Instance : string; p_Code : string }.

(** [statusFor] of compute-service. *)
Definition statusFor (code : Code) : Z :=
  match code with
  | CodeValidation => 400
  | CodeNotFound => 404
  | CodeConflict | CodeImmutableField => 409
  | CodePrecondition => 412
  | CodeUnauthorized => 401
  | CodeForbidden => 403
  | CodeUnavailable => 503
  | CodeQuotaExceeded => 422
  | CodeInternal => 500
  end.

(** [statusFor] of artifact-hub. *)
Definition hub_statusFor (code : HubCode) : Z :=
  match code with
  | HubValidation => 400
  | HubNotFound => 404
  | HubConflict => 409
  | HubPrecondition => 412
  | HubUnauthorized => 401
  | HubForbidden => 403
  | HubUnavailable => 503
  | HubGone => 410
  | HubInternal => 500
  end.

(** [isBindingError] *)
Definition isBindingError : hub_error -> bool :=
  herr_is (fun e => match e with
    | HValidationErrors _ | HSyntaxError _ | HUnmarshalTypeError _ | HEOF | HUnexpectedEOF => true
    | _ => false
    end).

Definition errors_uri (code : string) : string := "https://axisml.io/errors/" ++ code.

(** The text of the business error [errors.As] finds in the chain. *)
Fixpoint business_text (err : hub_error) : string :=
  match err with HErrorf _ cause => business_text cause | _ => HError err end.

(** [WriteError] of artifact-hub. *)
Definition WriteError (path : string) (err : hub_error) : Problem :=
  match HAs err with
  | Some (code, msg) =>
      {| p_Type := errors_uri (HubCode_string code); p_Title := msg; p_Status := hub_statusFor code;
         p_Detail := business_text err; p_Instance := path; p_Code := HubCode_string code |}
  | None =>
      if isBindingError err
      then {| p_Type := errors_uri (HubCode_string HubValidation); p_Title := "invalid request body";
              p_Status := 400; p_Detail := HError err; p_Instance := path; p_Code := HubCode_string HubValidation |}
      else {| p_Type := errors_uri "internal_error"; p_Title := "internal error"; p_Status := 500;
              p_Detail := HError err; p_Instance := path; p_Code := HubCode_string HubInternal |}
  end.

(** ** Properties of pagination *)

(** What ParsePagination returns is in range. *)
Lemma ParsePagination_bounds {E} (invalid : string -> E) limit cont p :
  ParsePagination invalid limit cont = inl p -> 1 <= Limit p <= maxLimit /\ 0 <= Offset p.
Proof.
  rw /ParsePagination. destruct (String.eqb limit "").
  - cases; intros; simplify_eq/=; unbool; rw /defaultLimit /maxLimit; lia.
  - destruct (Atoi _) as [n|]; [|done]. destruct (Z.leb_spec n 0); [done|].
    cases; intros; simplify_eq/=; unbool; unfold maxLimit in *; lia.
Qed.

(** A token given out leads back to the offset it was made for. *)
Lemma decode_EncodeContinue offset count total :
  in_int64 (offset + count) -> EncodeContinue offset count total <> "" ->
  decodeContinue (EncodeContinue offset count total) = Some (offset + count).
Proof.
  intros Hr. rw /EncodeContinue wrap64_id //. destruct (total <=? _); [done|].
  intros _. rw /decodeContinue list_ascii_of_string_of_list_ascii b64_decode_encode. simpl.
  by apply Atoi_Itoa.
Qed.

Lemma format_digits_acc fuel n acc : acc <> [] -> format_digits fuel n acc <> [].
Proof.
  revert n acc. induction fuel as [|f IH]; intros n acc Ha; [done|]. cbn [format_digits].
  destruct (n <? 10); [done|by apply IH].
Qed.

Lemma Itoa_nonempty n : Itoa n <> [].
Proof.
  rw /Itoa. destruct (n <? 0); [done|]. cbn [format_digits].
  destruct (n <? 10); [done|by apply (format_digits_acc 19)].
Qed.

Lemma EncodeContinue_empty offset count total :
  EncodeContinue offset count total = "" <-> total <= wrap64 (offset + count).
Proof.
  rw /EncodeContinue. destruct (Z.leb_spec total (wrap64 (offset + count))); [done|].
  split; [|lia]. intros E. apply (f_equal list_ascii_of_string) in E.
  rw list_ascii_of_string_of_list_ascii in E. apply b64_encode_nil in E. by apply Itoa_nonempty in E.
Qed.

(** The walk from offset [o] with a token [t] that stands for it collects the
    rest of the rows. *)
Lemma follow_from {A} fuel (rows : list A) limit n token o :
  (forall t, server_ParsePagination limit t =
     if String.eqb t "" then inl {| Limit := n; Offset := 0 |}
     else match decodeContinue t with
          | Some o => if o <? 0 then inr (New CodeValidation "continue token is invalid")
                      else inl {| Limit := n; Offset := o |}
          | None => inr (New CodeValidation "continue token is invalid")
          end) ->
  1 <= n <= maxLimit -> Z.of_nat (length rows) <= int64_max ->
  server_ParsePagination limit token = inl {| Limit := n; Offset := Z.of_nat o |} ->
  (o <= length rows)%nat -> (length rows - o < fuel)%nat ->
  follow fuel rows limit token = Some (drop o rows).
Proof.
  intros Hparse Hn Hlen. revert token o. induction fuel as [|fuel IH]; intros token o Htok Ho Hf; [lia|].
  cbn [follow]. rw Htok /list_page /page; cbn [Limit Offset lr_items lr_continueToken]. rw Nat2Z.id.
  set (items := take (Z.to_nat n) (drop o rows)).
  assert (Hil : length items = Nat.min (Z.to_nat n) (length rows - o)).
  { by rw /items length_take length_drop. }
  assert (Hin : in_int64 (Z.of_nat o + Z.of_nat (length items))).
  { rw Hil /in_int64 /int64_min. lia. }
  destruct (String.eqb_spec (EncodeContinue (Z.of_nat o) (Z.of_nat (length items)) (Z.of_nat (length rows))) "")
    as [E|E].
  - apply EncodeContinue_empty in E. rw wrap64_id // in E. f_equal.
    rw /items take_ge //. rw length_drop. lia.
  - assert (Hmore : (length items < length rows - o)%nat).
    { destruct (decide (length items < length rows - o)%nat); [done|]. exfalso. apply E.
      apply EncodeContinue_empty. rw wrap64_id //. lia. }
    rw (IH _ (o + length items)%nat); [|lia|lia|].
    + rw Hparse. apply String.eqb_neq in E as E'. rw E' decode_EncodeContinue //.
      destruct (Z.ltb_spec (Z.of_nat o + Z.of_nat (length items)) 0); [lia|]. do 2 f_equal. lia.
    + simpl. f_equal. rw -drop_drop. rw (_ : length items = Z.to_nat n); [lia|].
      by rw /items take_drop.
Qed.

(** ** Properties of selectors *)

Definition supported (r : Requirement) : bool :=
  match rq_Operator r with GreaterThan | LessThan => false | _ => true end.

(** One valid requirement and its clause. *)
Lemma req_clause_exact r ls :
  req_valid r = true -> supported r = true ->
  exists c, req_clause r = Some c /\ bool_decide (clause_eval ls c = Some true) = Matches r ls.
Proof.
  rw /req_valid /supported /req_clause /Matches.
  destruct r as [key op vals]; simpl. intros Hv Hs.
  destruct op; try done; unbool;
    try (destruct vals as [|v [|v2 vals]]; simpl in *; try done); (eexists; split; [done|]); simpl;
    destruct (ls !! key) as [x|]; simpl; repeat case_bool_decide; simplify_eq/=; try done;
    exfalso; try set_solver; by destruct H.
Qed.

Lemma req_clause_unsupported r : supported r = false -> req_clause r = None.
Proof. rw /supported /req_clause. by destruct (rq_Operator r). Qed.

Lemma where_labels_cons c cs ls :
  where_labels (c :: cs) ls = bool_decide (clause_eval ls c = Some true) && where_labels cs ls.
Proof.
  rw /where_labels /=. destruct (clause_eval ls c) as [[]|], (foldr _ _ _) as [[]|]; done.
Qed.

Lemma where_labels_exact reqs ls :
  forallb req_valid reqs = true ->
  where_labels (omap req_clause reqs) ls = forallb (fun r => Matches r ls) (List.filter supported reqs).
Proof.
  induction reqs as [|r reqs IH]; simpl; [done|]. intros [Hr Hrs]%andb_true_iff.
  destruct (supported r) eqn:Hs.
  - destruct (req_clause_exact r ls Hr Hs) as (c & -> & E). by rw where_labels_cons E IH.
  - rw req_clause_unsupported //. by apply IH.
Qed.

(** The question marks of a text. *)
Fixpoint question_marks (s : string) : nat :=
  match s with
  | EmptyString => 0
  | String c rest => (if Ascii.eqb c "?" then 1 else 0) + question_marks rest
  end%nat.

Lemma question_marks_app a b : question_marks (a ++ b) = (question_marks a + question_marks b)%nat.
Proof.
  induction a as [|c a IH]; [done|]. change (String c a ++ b)%string with (String c (a ++ b)%string).
  simpl. rw IH. lia.
Qed.

Lemma question_marks_Join parts sep :
  question_marks sep = 0%nat -> question_marks (Join parts sep) = sum_list (map question_marks parts).
Proof.
  intros Hs. induction parts as [|p [|q parts] IH]; [done| |].
  - simpl. lia.
  - change (Join (p :: q :: parts) sep) with (p ++ sep ++ Join (q :: parts) sep)%string.
    rw !question_marks_app IH Hs. simpl. lia.
Qed.

Lemma placeholders_marks vals : question_marks (placeholders vals) = length vals.
Proof.
  rw /placeholders question_marks_Join //. induction vals as [|v vals IH]; [done|]. simpl in *. by rw IH.
Qed.

(** One clause has as many placeholders as arguments. *)
Lemma clause_marks column c :
  question_marks column = 0%nat -> question_marks (clause_sql column c) = length (clause_args c).
Proof.
  intros Hc. destruct c; rw /clause_sql !question_marks_app Hc ?placeholders_marks /=; lia.
Qed.

(** ** Properties of query lists *)

Lemma QueryCSV_inner (parts : list bytes) out :
  NoDup out -> "" ∉ out ->
  let f out part :=
    let v := string_of_list_ascii (TrimSpace part) in
    if String.eqb v "" then out else if bool_decide (v ∈ out) then out else out ++ [v] in
  NoDup (foldl f out parts) /\ "" ∉ foldl f out parts /\
  forall v, v ∈ foldl f out parts <->
    v ∈ out \/ v <> "" /\ exists part, part ∈ parts /\ v = string_of_list_ascii (TrimSpace part).
Proof.
  intros Hnd He f. revert out Hnd He. induction parts as [|p parts IH]; intros out Hnd He; simpl.
  { split_and!; [done|done|]. set_solver. }
  set (w := string_of_list_ascii (TrimSpace p)).
  assert (Hstep : NoDup (f out p) /\ "" ∉ f out p /\ forall v, v ∈ f out p <-> v ∈ out \/ v <> "" /\ v = w).
  { rw /f -/w. destruct (String.eqb_spec w "") as [Hw|Hw]; [set_solver|].
    case_bool_decide as Hin; [set_solver|]. split_and!; [|set_solver|set_solver].
    apply NoDup_app. split_and!; [done|set_solver|apply NoDup_singleton]. }
  destruct Hstep as (H1 & H2 & H3). destruct (IH _ H1 H2) as (I1 & I2 & I3). split_and!; [done|done|].
  intros v. rw I3 H3. rw /w. split; [intros [[?|[??]]|(?&q&?&?)]|intros [?|(?&q&[->|?]%elem_of_cons&?)]]; eauto 8 using list_elem_of_here, list_elem_of_further.
Qed.

(** ** Listing: theorems

    Following continue tokens returns every row once; a label selector and
    its SQL fragment keep the same rows; the fragment binds exactly its
    arguments. *)

Open Scope Z_scope.

Section Properties.
Context (labels_Parse : string -> list Requirement + string).

(** Pagination.  For every [limit] the server accepts and every list of
    rows (no longer than an int can count), a client that starts without a
    token and follows the tokens it is given is never refused, stops after at
    most one request per row plus one, and has then received every row exactly
    once and in order. *)
Theorem follow_all {A} (rows : list A) limit p :
  server_ParsePagination limit "" = inl p ->
  Z.of_nat (length rows) <= int64_max ->
  follow (S (length rows)) rows limit "" = Some rows.
Proof.
  intros Hp Hlen. pose proof (ParsePagination_bounds _ _ _ _ Hp) as [Hn _].
  rw (follow_from _ rows limit (Limit p) "" 0); [|done|done| |lia|lia|by rw drop_0].
  - intros t. move: Hp. rw /server_ParsePagination /ParsePagination.
    destruct (String.eqb limit ""); [by intros [= <-]|].
    destruct (Atoi _) as [n|]; [|done]. destruct (n <=? 0); [done|]. by intros [= <-].
  - rw Hp. f_equal. move: Hp. rw /server_ParsePagination /ParsePagination.
    destruct (String.eqb limit ""); [by intros [= <-]|].
    destruct (Atoi _) as [n|]; [|done]. destruct (n <=? 0); [done|]. by intros [= <-].
Qed.

(** Label selectors.  For every selector that parses into valid
    requirements, a row passes the WHERE clause of [JSONLabelsSQL] exactly
    when its labels satisfy every requirement with the operators =, ==, !=,
    in, notin, exists and ! in the Kubernetes sense, absent keys included;
    SQL's NULL never changes the answer.  Requirements with gt and lt are left
    out of the clause. *)
Theorem selector_where_exact raw reqs cs ls :
  labels_Parse raw = inl reqs -> forallb req_valid reqs = true ->
  selector_clauses (New CodeValidation) labels_Parse raw = inl cs ->
  TrimSpace (list_ascii_of_string raw) <> [] ->
  where_labels cs ls = forallb (fun r => Matches r ls) (List.filter supported reqs).
Proof.
  intros Hp Hv. rw /selector_clauses Hp. destruct (TrimSpace _) as [|c s] eqn:E; [done|].
  intros [= <-] _. by apply where_labels_exact.
Qed.

(** The fragment [JSONLabelsSQL] returns has exactly one placeholder for
    each argument it returns, whatever the keys and values of the selector
    contain: they only ever travel as bound arguments. *)
Theorem fragment_binds_arguments column raw sql args :
  question_marks column = 0%nat ->
  server_JSONLabelsSQL labels_Parse column raw = inl (sql, args) ->
  question_marks sql = length args.
Proof.
  intros Hc. rw /server_JSONLabelsSQL /JSONLabelsSQL.
  destruct (selector_clauses _ _ _) as [cs|e]; [|done]. intros [= <- <-].
  rw question_marks_Join // length_concat !map_map. f_equal. apply map_ext => c. by apply clause_marks.
Qed.
End Properties.

(** ** Witnesses *)

(** The three requirements of ["app=web,tier notin (db),canary"]. *)
Definition sample_reqs : list Requirement :=
  [{| rq_Key := "app"; rq_Operator := Equals; rq_Values := ["web"] |};
   {| rq_Key := "tier"; rq_Operator := NotIn; rq_Values := ["db"; "cache"] |};
   {| rq_Key := "canary"; rq_Operator := Exists; rq_Values := [] |}].

Definition sample_parse (raw : string) : list Requirement + string := inl sample_reqs.

Definition sample_selector : string := "app=web,tier notin (db,cache),canary".

Lemma follow_all_witness :
  follow 8 [1; 2; 3; 4; 5; 6; 7]%nat "3" "" = Some [1; 2; 3; 4; 5; 6; 7]%nat.
Proof.
  apply (follow_all [1; 2; 3; 4; 5; 6; 7]%nat "3" {| Limit := 3; Offset := 0 |}).
  - vm_compute. reflexivity.
  - vm_compute. congruence.
Defined.

Lemma selector_where_exact_witness :
  where_labels (omap req_clause sample_reqs) {[ "app" := "web"; "canary" := "" ]} = true /\
  forallb (fun r => Matches r {[ "app" := "web"; "canary" := "" ]}) (List.filter supported sample_reqs) = true.
Proof.
  split; [|vm_compute; reflexivity].
  rewrite (selector_where_exact sample_parse sample_selector sample_reqs (omap req_clause sample_reqs));
    try (vm_compute; reflexivity).
  vm_compute. congruence.
Defined.

Lemma fragment_binds_arguments_witness :
  question_marks "(labels ->> ?) = ? AND ((labels ->> ?) IS NULL OR (labels ->> ?) NOT IN (?,?)) AND (labels ->> ?) IS NOT NULL"
  = length ["app"; "web"; "tier"; "tier"; "db"; "cache"; "canary"].
Proof.
  apply (fragment_binds_arguments sample_parse "labels" sample_selector); vm_compute; reflexivity.
Defined.
