(* ===== verification/ArtifactHub.v ===== *)
(** * Artifact hub: repository, service, API and garbage collection

    [internal/artifact/{repository,service,handler}.go] and
    [internal/gc/worker.go].  The state is the table of artifacts and the
    requests made to the storage backends.  An operation that reads a row and
    writes later takes the row it read ([...On], [..._finish]) next to the
    state it writes to, so an outdated row is an ordinary argument. *)

From Stdlib Require Import ssreflect ZArith Lia Ascii String.
From stdpp Require Import base gmap list strings.
From S2P Require Import Prelude ApiTypes Names HubTypes HubBackend Listing.

Record hub := { hub_rows : list Artifact; hub_calls : list backend_call }.

Definition with_rows (w : hub) (rows : list Artifact) : hub :=
  {| hub_rows := rows; hub_calls := hub_calls w |}.

Definition with_calls (w : hub) (calls : list backend_call) : hub :=
  {| hub_rows := hub_rows w; hub_calls := calls |}.

(** ** The repository *)

Module ArtRepository.

(** The natural key, a unique index over all rows, deleted ones included. *)
Definition coord_is (namespace name version : string) (r : Artifact) : bool :=
  String.eqb (a_Namespace r) namespace && String.eqb (a_Name r) name && String.eqb (a_Version r) version.

Definition GetByID (id : string) (rows : list Artifact) : Artifact + hub_error :=
  match List.find (fun r => String.eqb (a_ID r) id) rows with
  | Some r => inl r
  | None => inr HRecordNotFound
  end.

Definition GetByCoordIncludingDeleted (namespace name version : string) (rows : list Artifact)
  : Artifact + hub_error :=
  match List.find (coord_is namespace name version) rows with
  | Some r => inl r
  | None => inr HRecordNotFound
  end.

(** The WHERE conditions of [ListByCoord]; an empty filter is no filter. *)
Definition list_where (namespace kind name status : string) (labels : list clause) (r : Artifact) : bool :=
  String.eqb (a_Namespace r) namespace && bool_decide (a_DeletedAt r = None) &&
  (String.eqb kind "" || String.eqb (a_Kind r) kind) &&
  (String.eqb name "" || String.eqb (a_Name r) name) &&
  (String.eqb status "" || String.eqb (Status_string (a_Status r)) status) &&
  (match labels with [] => true | _ => where_labels labels (json_or ∅ (a_Labels r)) end).

Definition newest_first (a b : Artifact) : bool := (a_CreatedAt b <? a_CreatedAt a)%Z.

(** [ListByCoord]: the page and the total. *)
Definition ListByCoord (namespace kind name status : string) (p : Pagination) (labels : list clause)
  (rows : list Artifact) : list Artifact * Z :=
  let matching := List.filter (list_where namespace kind name status labels) rows in
  (page (sort_slice newest_first matching) p, Z.of_nat (length matching)).

(** [Create], under the primary key and the unique coordinate; gorm fills the
    two timestamps in. *)
Definition Create (now : Z) (row : Artifact) (rows : list Artifact) : (Artifact * list Artifact) + hub_error :=
  if existsb (fun r => String.eqb (a_ID r) (a_ID row) ||
                       coord_is (a_Namespace row) (a_Name row) (a_Version row) r) rows
  then inr HUniqueViolation
  else
    let row' :=
      {| a_ID := a_ID row; a_Namespace := a_Namespace row; a_Kind := a_Kind row; a_Name := a_Name row;
         a_Version := a_Version row; a_Visibility := a_Visibility row; a_DisplayName := a_DisplayName row;
         a_Description := a_Description row; a_Labels := a_Labels row; a_Annotations := a_Annotations row;
         a_OwnerUser := a_OwnerUser row; a_Spec := a_Spec row; a_Status := a_Status row;
         a_Source := a_Source row; a_Message := a_Message row; a_Digest := a_Digest row;
         a_ReadyAt := a_ReadyAt row; a_CreatedAt := now; a_UpdatedAt := now; a_DeletedAt := a_DeletedAt row |} in
    inl (row', rows ++ [row']).

(** [Update] *)
Definition Update (now : Z) (id : string) (fields : list art_col) (rows : list Artifact) : list Artifact :=
  map (fun r => if String.eqb (a_ID r) id then art_Updates now fields r else r) rows.

(** [UpdateIfStatus]: compare and set; also whether a row was updated. *)
Definition UpdateIfStatus (now : Z) (id : string) (expect : art_status) (fields : list art_col)
  (rows : list Artifact) : list Artifact * bool :=
  let hit r := String.eqb (a_ID r) id && bool_decide (a_Status r = expect) in
  (map (fun r => if hit r then art_Updates now fields r else r) rows, existsb hit rows).

(** [CountUploadingByKind] *)
Definition CountUploadingByKind (rows : list Artifact) : gmap string Z :=
  foldl (fun m r => <[a_Kind r := (map_get 0 m (a_Kind r) + 1)%Z]> m) ∅
    (List.filter (fun r => bool_decide (a_Status r = Uploading) && bool_decide (a_DeletedAt r = None)) rows).

(** [GCRow] *)
Record GCRow := {
  g_ID : string; g_Namespace : string; g_Kind : string; g_Name : string; g_Version : string; g_Digest : string }.

Definition toGCRow (r : Artifact) : GCRow :=
  {| g_ID := a_ID r; g_Namespace := a_Namespace r; g_Kind := a_Kind r; g_Name := a_Name r;
     g_Version := a_Version r; g_Digest := a_Digest r |}.

Definition is_stale (cutoff : Z) (r : Artifact) : bool :=
  bool_decide (a_Status r = Uploading) && (a_CreatedAt r <? cutoff)%Z && bool_decide (a_DeletedAt r = None).

(** [FindStaleUploading], [FindDeleting] *)
Definition FindStaleUploading (cutoff : Z) (rows : list Artifact) : list GCRow :=
  map toGCRow (List.filter (is_stale cutoff) rows).

Definition FindDeleting (rows : list Artifact) : list GCRow :=
  map toGCRow (List.filter (fun r => bool_decide (a_Status r = Deleting)) rows).
End ArtRepository.

Import ArtRepository.

Section Hub.
Context `{Storage} (reg : registry) (uploadTokenTTL : Z).

(** ** The service *)

(** [loadRow] *)
Definition loadRow (namespace name version : string) (w : hub) : Artifact + hub_error :=
  match GetByCoordIncludingDeleted namespace name version (hub_rows w) with
  | inl r => inl r
  | inr err =>
      inr (if HIsNotFound err
           then HNew HubNotFound ("artifact " ++ namespace ++ "/" ++ name ++ "@" ++ version ++ " not found")
           else HWrap HubInternal "lookup artifact" err)
  end.

(** The checks of [Initiate] in front of the lookup, with the handler and the
    visibility they settle on. *)
Definition Initiate_validate (namespace : string) (req : InitiateRequest) : (Handler * string) + hub_error :=
  if negb (IsValidVersion (ir_Version req))
  then inr (HNew HubValidation "version does not satisfy OCI tag-safe charset (A-Za-z0-9_.-) or length 1..128")
  else
    match Get reg (ir_Kind req) with
    | None => inr (HNew HubValidation ("kind '" ++ ir_Kind req ++ "' has no registered handler"))
    | Some h =>
        match h_ValidateSpec h (ir_Spec req) with
        | Some err => inr err
        | None =>
            let visibility := if String.eqb (ir_Visibility req) "" then VisibilityTenant else ir_Visibility req in
            if negb (String.eqb visibility VisibilityTenant) && negb (String.eqb visibility VisibilityPublic)
            then inr (HNew HubValidation "visibility must be 'tenant' or 'public'")
            else if String.eqb visibility VisibilityPublic && negb (String.eqb namespace PublicVisibilityNamespace)
            then inr (HNew HubForbidden "visibility='public' is only allowed under the 'default' namespace")
            else inl (h, visibility)
        end
    end.

(** The row [Initiate] inserts; an external version is born Ready. *)
Definition Initiate_row (now : Z) (id namespace name owner visibility source : string) (req : InitiateRequest)
  : Artifact :=
  let external := String.eqb source SourceExternal in
  {| a_ID := id; a_Namespace := namespace; a_Kind := ir_Kind req; a_Name := name; a_Version := ir_Version req;
     a_Visibility := visibility; a_DisplayName := ir_DisplayName req; a_Description := ir_Description req;
     a_Labels := MapToJSON (ir_Labels req); a_Annotations := MapToJSON (ir_Annotations req);
     a_OwnerUser := owner; a_Spec := JVal (ir_Spec req);
     a_Status := if external then Ready else Uploading;
     a_Source := source; a_Message := "";
     a_Digest := if external then ir_SourceURI req else "";
     a_ReadyAt := if external then Some now else None;
     a_CreatedAt := 0; a_UpdatedAt := 0; a_DeletedAt := None |}.

(** The handler's view of a row; [Initiate] passes the spec as well. *)
Definition hArt_of (kind namespace name version : string) (spec : Spec) (digest : string) : hArtifact :=
  {| ha_Kind := kind; ha_Namespace := namespace; ha_Name := name; ha_Version := version;
     ha_Spec := spec; ha_Digest := digest |}.

(** [Initiate] after the lookup returned [existing]; [id] is the new UUID. *)
Definition InitiateOn (existing : Artifact + hub_error) (now : Z) (id namespace name owner : string)
  (req : InitiateRequest) (w : hub) : (InitiateResponse + hub_error) * hub :=
  match Initiate_validate namespace req with
  | inr err => (inr err, w)
  | inl (h, visibility) =>
      match existing with
      | inl e =>
          (inr (HNew HubConflict ("version " ++ ir_Version req ++ " already exists for " ++ namespace ++ "/" ++
                 name ++ " (kind=" ++ a_Kind e ++ ", status=" ++ Status_string (a_Status e) ++ ")")), w)
      | inr err =>
          if negb (HIsNotFound err) then (inr (HWrap HubInternal "lookup artifact" err), w)
          else
            let source := if String.eqb (ir_Source req) "" then SourceWebUpload else ir_Source req in
            let external := String.eqb source SourceExternal in
            if external && String.eqb (ir_SourceURI req) ""
            then (inr (HNew HubValidation "sourceUri is required when source=external"), w)
            else
              match Create now (Initiate_row now id namespace name owner visibility source req) (hub_rows w) with
              | inr err =>
                  (inr (if IsUniqueViolation err
                        then HNew HubConflict ("version " ++ ir_Version req ++ " already exists for " ++
                               namespace ++ "/" ++ name)
                        else HWrap HubInternal "insert artifact" err), w)
              | inl (row, rows) =>
                  let w' := with_rows w rows in
                  if external
                  then (inl {| irs_Artifact := toView row;
                               irs_Upload := {| u_StorageKind := h_StorageKind h; u_URI := ir_SourceURI req;
                                 u_Credentials := {| c_Username := ""; c_Password := ""; c_ExpiresAt := None |} |} |}, w')
                  else
                    match h_InitiateUpload h now
                            (hArt_of (ir_Kind req) namespace name (ir_Version req) (ir_Spec req) "") uploadTokenTTL with
                    | inr err => (inr (HWrap HubUnavailable "issue upload credentials" err), w')
                    | inl creds =>
                        (inl {| irs_Artifact := toView row;
                                irs_Upload := {| u_StorageKind := h_StorageKind h;
                                  u_URI := h_BuildStorageURI h namespace name (ir_Version req);
                                  u_Credentials := creds |} |}, w')
                    end
              end
      end
  end.

(** [Initiate] *)
Definition Initiate (now : Z) (id namespace name owner : string) (req : InitiateRequest) (w : hub)
  : (InitiateResponse + hub_error) * hub :=
  InitiateOn (GetByCoordIncludingDeleted namespace name (ir_Version req) (hub_rows w))
    now id namespace name owner req w.

(** The first half of [Complete] on the row it read: an answer at once, or
    the handler that has to verify the upload. *)
Definition Complete_gate (row : Artifact) (claim : string) : Handler + (Artifact + hub_error) :=
  match a_Status row with
  | Uploading =>
      match Get reg (a_Kind row) with
      | Some h => inl h
      | None => inr (inr (HNew HubValidation ("kind '" ++ a_Kind row ++ "' has no registered handler")))
      end
  | Ready =>
      inr (if String.eqb (a_Digest row) claim then inl row
           else inr (HNew HubConflict ("digest mismatch: artifact already Ready with digest " ++ a_Digest row)))
  | s => inr (inr (HNew HubPrecondition ("artifact is " ++ Status_string s ++ ", cannot complete")))
  end.

(** The errors of a verification that end the upload. *)
Definition fails_upload (err : hub_error) : option string :=
  match HAs err with
  | Some (code, msg) =>
      if bool_decide (code ∈ [HubConflict; HubPrecondition; HubValidation]) then Some msg else None
  | None => None
  end.

(** The second half of [Complete]: what [VerifyComplete] returned is written
    to the row that was read, whatever its status is by now. *)
Definition Complete_finish (now : Z) (row : Artifact) (verdict : string + hub_error) (w : hub)
  : (Artifact + hub_error) * hub :=
  match verdict with
  | inr err =>
      (inr err,
       match fails_upload err with
       | Some msg => with_rows w (Update now (a_ID row) [AStatus Failed; AMessage msg] (hub_rows w))
       | None => w
       end)
  | inl digest =>
      let cols := [AStatus Ready; ADigest digest; AReadyAt now; AMessage ""] in
      (inl (art_Updates now cols row), with_rows w (Update now (a_ID row) cols (hub_rows w)))
  end.

(** The handler's answer for the row that was read. *)
Definition Complete_verify (h : Handler) (row : Artifact) (claim : string) (w : hub)
  : (string + hub_error) * hub :=
  let '(verdict, calls) :=
    h_VerifyComplete h (hArt_of (a_Kind row) (a_Namespace row) (a_Name row) (a_Version row) ∅ "") claim (hub_calls w) in
  (verdict, with_calls w calls).

(** [Complete] *)
Definition Complete (now : Z) (namespace name version claim : string) (w : hub)
  : (Artifact + hub_error) * hub :=
  match loadRow namespace name version w with
  | inr err => (inr err, w)
  | inl row =>
      match Complete_gate row claim with
      | inr answer => (answer, w)
      | inl h => let '(verdict, w') := Complete_verify h row claim w in Complete_finish now row verdict w'
      end
  end.

(** [Resolve]; [usage] is the query parameter. *)
Definition Resolve (now : Z) (namespace name version usage : string) (w : hub) : ResolveResponse + hub_error :=
  match loadRow namespace name version w with
  | inr err => inr err
  | inl row =>
      match a_Status row with
      | (Uploading | Failed) as s => inr (HNew HubPrecondition ("artifact is " ++ Status_string s ++ ", not Ready"))
      | Deleting | Deleted => inr (HNew HubGone "artifact has been deleted")
      | Ready =>
          match Get reg (a_Kind row) with
          | None => inr (HNew HubValidation ("kind '" ++ a_Kind row ++ "' has no registered handler"))
          | Some h =>
              let res creds :=
                {| rr_StorageKind := h_StorageKind h;
                   rr_URI := h_BuildPullURI h namespace name version (a_Digest row);
                   rr_Digest := a_Digest row; rr_Visibility := a_Visibility row; rr_PullCredentials := creds |} in
              let usage := if String.eqb usage "" then "inspect" else usage in
              if String.eqb usage "inspect" then inl (res None)
              else if String.eqb usage "download"
              then
                match h_IssuePullCredentials h now
                        (hArt_of (a_Kind row) namespace name version ∅ (a_Digest row)) uploadTokenTTL with
                | inr err => inr (HWrap HubUnavailable "issue pull credentials" err)
                | inl creds => inl (res (Some creds))
                end
              else inr (HNew HubValidation ("usage must be inspect or download (got '" ++ usage ++ "')"))
          end
      end
  end.

(** The columns [Patch] writes. *)
Definition patch_updates (req : ArtPatchRequest) : list art_col :=
  match pr_DisplayName req with Some s => [ADisplayName s] | None => [] end ++
  match pr_Description req with Some s => [ADescription s] | None => [] end ++
  match pr_Labels req with Some m => [ALabels (MapToJSON m)] | None => [] end ++
  match pr_Annotations req with Some m => [AAnnotations (MapToJSON m)] | None => [] end.

(** The write of [Patch] on the row it read. *)
Definition PatchOn (now : Z) (row : Artifact) (req : ArtPatchRequest) (w : hub) : (Artifact + hub_error) * hub :=
  match a_Status row with
  | (Deleting | Deleted) as s =>
      (inr (HNew HubConflict ("artifact is " ++ Status_string s ++ "; patch rejected")), w)
  | _ =>
      match patch_updates req with
      | [] => (inl row, w)
      | cols =>
          let w' := with_rows w (Update now (a_ID row) cols (hub_rows w)) in
          (loadRow (a_Namespace row) (a_Name row) (a_Version row) w', w')
      end
  end.

(** [Service.Patch] *)
Definition Patch (now : Z) (namespace name version : string) (req : ArtPatchRequest) (w : hub)
  : (Artifact + hub_error) * hub :=
  match loadRow namespace name version w with
  | inr err => (inr err, w)
  | inl row => PatchOn now row req w
  end.

(** The write of [MarkDeleting] on the row it read. *)
Definition MarkDeletingOn (now : Z) (row : Artifact) (w : hub) : hub :=
  match a_Status row with
  | Deleting | Deleted => w
  | _ => with_rows w (Update now (a_ID row) [AStatus Deleting; AMessage ""] (hub_rows w))
  end.

(** [MarkDeleting] *)
Definition MarkDeleting (now : Z) (namespace name version : string) (w : hub) : option hub_error * hub :=
  match loadRow namespace name version w with
  | inr err => (Some err, w)
  | inl row => (None, MarkDeletingOn now row w)
  end.

(** ** The API handlers *)

(** A JSON value of a PATCH body, as far as the four fields distinguish it. *)
Inductive raw_json := RawNull | RawString (s : string) | RawMap (m : gmap string string) | RawOther.

Definition patchAllowedFields : list string := ["displayName"; "description"; "labels"; "annotations"].

(** [json.Unmarshal] of one field into the request: null leaves it nil. *)
Definition decode_field (raw : gmap string raw_json) (key : string) {A} (value : raw_json -> option A)
  : option A + hub_error :=
  match raw !! key with
  | None | Some RawNull => inl None
  | Some v =>
      match value v with
      | Some a => inl (Some a)
      | None => inr (HUnmarshalTypeError ("json: cannot unmarshal field " ++ key))
      end
  end.

Definition decode_patch (raw : gmap string raw_json) : ArtPatchRequest + hub_error :=
  let str v := match v with RawString s => Some s | _ => None end in
  let mp v := match v with RawMap m => Some m | _ => None end in
  match decode_field raw "displayName" str, decode_field raw "description" str,
        decode_field raw "labels" mp, decode_field raw "annotations" mp with
  | inl dn, inl de, inl la, inl an =>
      inl {| pr_DisplayName := dn; pr_Description := de; pr_Labels := la; pr_Annotations := an |}
  | inr e, _, _, _ | _, inr e, _, _ | _, _, inr e, _ | _, _, _, inr e => inr e
  end.

(** [Handler.Patch] on a decoded body, whose keys are visited in some order. *)
Definition handler_Patch (now : Z) (namespace name version : string) (keys : list string)
  (raw : gmap string raw_json) (w : hub) : (ArtifactView + hub_error) * hub :=
  match List.find (fun k => negb (bool_decide (k ∈ patchAllowedFields))) keys with
  | Some k =>
      (inr (HNew HubValidation ("field '" ++ k ++
             "' is immutable; only displayName / description / labels / annotations may be patched")), w)
  | None =>
      match decode_patch raw with
      | inr err => (inr err, w)
      | inl req =>
          match Patch now namespace name version req w with
          | (inl row, w') => (inl (toView row), w')
          | (inr err, w') => (inr err, w')
          end
      end
  end.

(** [Handler.Delete] *)
Definition handler_Delete (now : Z) (namespace name version : string) (w : hub)
  : (ArtifactView + hub_error) * hub :=
  match MarkDeleting now namespace name version w with
  | (Some err, w') => (inr err, w')
  | (None, w') =>
      (match loadRow namespace name version w' with inl row => inl (toView row) | inr err => inr err end, w')
  end.

(** [Handler.ListAll]; [Handler.List] passes the name of its path instead. *)
Definition handler_List (parse : string -> list Requirement + string)
  (namespace kind name status limit cont selector : string) (w : hub) : list_response ArtifactView + hub_error :=
  match hub_ParsePagination limit cont with
  | inr err => inr err
  | inl p =>
      match selector_clauses (HNew HubValidation) parse selector with
      | inr err => inr err
      | inl labels =>
          let '(rows, total) := ListByCoord namespace kind name status p labels (hub_rows w) in
          inl {| lr_items := map toView rows; lr_total := total;
                 lr_continueToken := EncodeContinue (Offset p) (Z.of_nat (length rows)) total |}
      end
  end.

(** ** Garbage collection *)

(** [gcArtifact] *)
Definition gcArtifact (row : GCRow) : hArtifact :=
  hArt_of (g_Kind row) (g_Namespace row) (g_Name row) (g_Version row) ∅ (g_Digest row).

(** The backend cleanup of a row, when its kind is registered. *)
Definition run_GCBackend (row : GCRow) (w : hub) : option hub_error * hub :=
  match Get reg (g_Kind row) with
  | None => (None, w)
  | Some h => let '(err, calls) := h_GCBackend h (gcArtifact row) (hub_calls w) in (err, with_calls w calls)
  end.

Definition ttl_message : string := "upload TTL exceeded; cleaned up by GC".

(** One iteration of [processStaleUploading]: claim the row, then clean up;
    an error of the cleanup is only logged. *)
Definition expire_upload (now : Z) (w : hub) (row : GCRow) : hub :=
  let '(rows, updated) :=
    UpdateIfStatus now (g_ID row) Uploading [AStatus Failed; AMessage ttl_message] (hub_rows w) in
  let w' := with_rows w rows in
  if negb updated then w' else (run_GCBackend row w').2.

(** [processStaleUploading] *)
Definition processStaleUploading (now uploadingTTL : Z) (w : hub) : hub :=
  foldl (expire_upload now) w (FindStaleUploading (now - uploadingTTL) (hub_rows w)).

(** One iteration of [processDeleting]: clean up, then finalize. *)
Definition finish_delete (now : Z) (w : hub) (row : GCRow) : hub :=
  match run_GCBackend row w with
  | (Some _, w') => w'
  | (None, w') => with_rows w' (Update now (g_ID row) [AStatus Deleted; ADeletedAt now] (hub_rows w'))
  end.

(** [processDeleting] *)
Definition processDeleting (now : Z) (w : hub) : hub :=
  foldl (finish_delete now) w (FindDeleting (hub_rows w)).

(** [refreshGauges]: the gauge of every registered kind. *)
Definition refreshGauges (w : hub) : gmap string Z :=
  let counts := CountUploadingByKind (hub_rows w) in
  map_imap (fun kind _ => Some (map_get 0%Z counts kind)) reg.

(** [Tick]; the gauges it sets are returned. *)
Definition Tick (now uploadingTTL : Z) (w : hub) : hub * gmap string Z :=
  let w1 := processStaleUploading now uploadingTTL w in
  let w2 := processDeleting now w1 in
  (w2, refreshGauges w2).
End Hub.
