(* ===== verification/ArtifactHubFacts.v ===== *)
(** * Artifact hub: invariants

    The hub as a step relation whose steps are the single reads, requests and
    writes of its operations, so that every interleaving of API calls and
    garbage collection is a run of it; the invariant of rows under all of
    them; and the lifecycle of a row when operations do not overlap. *)

From Stdlib Require Import ssreflect ZArith Lia Ascii String.
From stdpp Require Import base gmap list strings relations.
From S2P Require Import Prelude ApiTypes Names HubTypes HubBackend Listing AdmissionUsage ArtifactHub.

Import ArtRepository.

(** ** Rows *)

(** What no operation changes of a row. *)
Record frozen (a b : Artifact) : Prop := {
  fz_id : a_ID b = a_ID a;
  fz_namespace : a_Namespace b = a_Namespace a;
  fz_kind : a_Kind b = a_Kind a;
  fz_name : a_Name b = a_Name a;
  fz_version : a_Version b = a_Version a;
  fz_visibility : a_Visibility b = a_Visibility a;
  fz_owner : a_OwnerUser b = a_OwnerUser a;
  fz_spec : a_Spec b = a_Spec a;
  fz_source : a_Source b = a_Source a;
  fz_created : a_CreatedAt b = a_CreatedAt a }.

#[export] Instance frozen_refl : Reflexive frozen.
Proof. by split. Qed.

#[export] Instance frozen_trans : Transitive frozen.
Proof. intros a b c [] []. split; congruence. Qed.

(** The well-formedness of a row. *)
Record row_ok (r : Artifact) : Prop := {
  ok_version : IsValidVersion (a_Version r) = true;
  ok_visibility : a_Visibility r = VisibilityTenant \/
    a_Visibility r = VisibilityPublic /\ a_Namespace r = PublicVisibilityNamespace;
  ok_uploading : a_Status r = Uploading -> a_Digest r = "" /\ a_ReadyAt r = None;
  ok_ready : a_Status r = Ready -> a_Digest r <> "" /\ a_ReadyAt r <> None;
  ok_deleted : a_Status r = Deleted -> a_DeletedAt r <> None;
  ok_external : a_Source r = SourceExternal -> a_Status r <> Uploading /\ a_Status r <> Failed }.

Lemma art_Updates_frozen now cols r : frozen r (art_Updates now cols r).
Proof.
  rw /art_Updates. assert (Ht : frozen r (touch_artifact now r)) by by split.
  revert Ht. generalize (touch_artifact now r) as b.
  induction cols as [|c cols IH]; intros b Hb; simpl; [done|]. apply IH.
  etrans; [done|]. by split.
Qed.

Definition coord (r : Artifact) : string * string * string := (a_Namespace r, a_Name r, a_Version r).

Lemma coord_is_spec ns n v r : coord_is ns n v r = true <-> coord r = (ns, n, v).
Proof.
  rw /coord_is /coord !andb_true_iff !String.eqb_eq. split; [intros [[-> ->] ->]; done|by intros [= -> -> ->]].
Qed.

(** The table. *)
Record table_ok (rows : list Artifact) : Prop := {
  tok_ids : NoDup (map a_ID rows);
  tok_coords : NoDup (map coord rows);
  tok_rows : Forall row_ok rows }.

(** ** Updates *)

Lemma Update_frozen now id cols rows : Forall2 frozen rows (Update now id cols rows).
Proof.
  apply Forall2_map_r => r _. destruct (String.eqb _ _); [apply art_Updates_frozen|done].
Qed.

Lemma frozen_map {B} (f : Artifact -> B) rows rows' :
  (forall a b, frozen a b -> f b = f a) -> Forall2 frozen rows rows' -> map f rows' = map f rows.
Proof. intros Hf. induction 1 as [|a b l l' Hab _ IH]; [done|]. simpl. by rw (Hf a b Hab) IH. Qed.

(** A table whose rows changed only in what may change. *)
Lemma frozen_table rows rows' :
  Forall2 frozen rows rows' -> Forall row_ok rows' -> table_ok rows -> table_ok rows'.
Proof.
  intros HF Hok [Hi Hc _]. split; [| |done].
  - rw (frozen_map a_ID rows) //. by intros a b [].
  - rw (frozen_map coord rows) //. intros a b []. rw /coord. congruence.
Qed.

(** Writing columns to the row with a given id keeps the table well formed if
    it keeps that row well formed. *)
Lemma Update_table now id cols rows :
  table_ok rows ->
  (forall r, r ∈ rows -> a_ID r = id -> row_ok r -> row_ok (art_Updates now cols r)) ->
  table_ok (Update now id cols rows).
Proof.
  intros Ht Hw. eapply frozen_table; [apply Update_frozen| |done].
  apply Forall_forall. intros x (r & <- & Hr%list_elem_of_In)%list_elem_of_In%in_map_iff.
  pose proof (proj1 (Forall_forall _ _) (tok_rows _ Ht) r Hr) as Hok.
  destruct (String.eqb_spec (a_ID r) id); [by apply Hw|done].
Qed.

Lemma UpdateIfStatus_frozen now id s cols rows :
  Forall2 frozen rows (UpdateIfStatus now id s cols rows).1.
Proof.
  apply Forall2_map_r => r _. case_match; [apply art_Updates_frozen|done].
Qed.

Lemma UpdateIfStatus_table now id s cols rows :
  table_ok rows ->
  (forall r, r ∈ rows -> a_ID r = id -> a_Status r = s -> row_ok r -> row_ok (art_Updates now cols r)) ->
  table_ok (UpdateIfStatus now id s cols rows).1.
Proof.
  intros Ht Hw. eapply frozen_table; [apply UpdateIfStatus_frozen| |done].
  apply Forall_forall. intros x (r & <- & Hr%list_elem_of_In)%list_elem_of_In%in_map_iff.
  pose proof (proj1 (Forall_forall _ _) (tok_rows _ Ht) r Hr) as Hok.
  case_match; [|done]. unbool. by apply Hw.
Qed.

(** The writes of the hub keep a row well formed. *)
Lemma fail_row_ok now msg r :
  row_ok r -> a_Source r <> SourceExternal -> row_ok (art_Updates now [AStatus Failed; AMessage msg] r).
Proof. intros [] Hs. by split. Qed.

Lemma ready_row_ok now digest r :
  row_ok r -> digest <> "" ->
  row_ok (art_Updates now [AStatus Ready; ADigest digest; AReadyAt now; AMessage ""] r).
Proof. intros [] Hd. by split. Qed.

Lemma deleting_row_ok now r : row_ok r -> row_ok (art_Updates now [AStatus Deleting; AMessage ""] r).
Proof. intros []. by split. Qed.

Lemma deleted_row_ok now r : row_ok r -> row_ok (art_Updates now [AStatus Deleted; ADeletedAt now] r).
Proof. intros []. by split. Qed.

(** The columns of a patch are not part of the invariant. *)
Definition display_col (c : art_col) : Prop :=
  match c with ADisplayName _ | ADescription _ | ALabels _ | AAnnotations _ => True | _ => False end.

Lemma patch_updates_display req : Forall display_col (patch_updates req).
Proof.
  rw /patch_updates. destruct req as [[] [] [] []]; simpl; repeat constructor.
Qed.

(** What a patch leaves alone beyond the frozen columns. *)
Record same_state (a b : Artifact) : Prop := {
  ss_frozen : frozen a b;
  ss_status : a_Status b = a_Status a;
  ss_digest : a_Digest b = a_Digest a;
  ss_ready : a_ReadyAt b = a_ReadyAt a;
  ss_deleted : a_DeletedAt b = a_DeletedAt a;
  ss_message : a_Message b = a_Message a }.

Lemma display_same_state now cols r : Forall display_col cols -> same_state r (art_Updates now cols r).
Proof.
  intros Hc. rw /art_Updates. assert (Ht : same_state r (touch_artifact now r)) by by split.
  revert Ht. generalize (touch_artifact now r) as b.
  induction Hc as [|c cols Hc _ IH]; intros b Hb; simpl; [done|]. apply IH.
  destruct Hb as [Hf]. split; try (by destruct c); etrans; [done|]; by split.
Qed.

Lemma same_state_ok a b : same_state a b -> row_ok a -> row_ok b.
Proof.
  intros [F Hs Hd Hr Hx _] [V1 V2 V3 V4 V5 V6].
  split; rewrite ?Hs ?Hd ?Hr ?Hx ?(fz_version _ _ F) ?(fz_visibility _ _ F) ?(fz_namespace _ _ F)
    ?(fz_source _ _ F); done.
Qed.

(** A new row joins the table. *)
Lemma Create_table now row rows row' rows' :
  Create now row rows = inl (row', rows') -> table_ok rows -> row_ok row ->
  table_ok rows' /\ rows' = rows ++ [row'] /\ coord row' = coord row.
Proof.
  rw /Create. case_match eqn:Hex; [done|]. intros [= <- <-] [Hi Hc Hr] Hok. split; [|done].
  assert (Hn : forall r, r ∈ rows -> a_ID r <> a_ID row /\ coord r <> coord row).
  { intros r Hin%list_elem_of_In. split; intros E; (enough (true = false) by done); rw -Hex; symmetry;
      apply existsb_exists; exists r; (split; [done|]); apply orb_true_iff; [left; by apply String.eqb_eq|].
    right. by apply coord_is_spec. }
  split.
  - rw map_app. apply NoDup_app. split_and!; [done| |apply NoDup_singleton].
    intros x (r & -> & Hin)%list_elem_of_fmap E%list_elem_of_singleton.
    by destruct (Hn r Hin).
  - rw map_app. apply NoDup_app. split_and!; [done| |apply NoDup_singleton].
    intros x (r & -> & Hin)%list_elem_of_fmap E%list_elem_of_singleton.
    by destruct (Hn r Hin).
  - apply Forall_app. split; [done|]. apply Forall_singleton. destruct Hok. by split.
Qed.

(** ** All interleavings *)

(** The hub, the rows that requests and the worker have read and may still act
    on, and the verdicts of verifications whose write is still to come.  A
    call that returns holds its rows no more. *)
Record sys := {
  sy_hub : hub;
  sy_reads : list Artifact;
  sy_verdicts : list (Artifact * (string + hub_error)) }.

Definition with_hub (s : sys) (w : hub) : sys :=
  {| sy_hub := w; sy_reads := sy_reads s; sy_verdicts := sy_verdicts s |}.

Definition sys_rows (s : sys) : list Artifact := hub_rows (sy_hub s).

Definition empty_sys : sys :=
  {| sy_hub := {| hub_rows := []; hub_calls := [] |}; sy_reads := []; sy_verdicts := [] |}.

Section Interleavings.
Context `{Storage} (reg : registry) (ttl : Z).

Inductive step : sys -> sys -> Prop :=
| st_read s r : r ∈ sys_rows s ->
    step s {| sy_hub := sy_hub s; sy_reads := r :: sy_reads s; sy_verdicts := sy_verdicts s |}
| st_initiate s existing now id namespace name owner req :
    step s (with_hub s (InitiateOn reg ttl existing now id namespace name owner req (sy_hub s)).2)
| st_verify s row claim h : row ∈ sy_reads s -> Complete_gate reg row claim = inl h ->
    step s {| sy_hub := (Complete_verify h row claim (sy_hub s)).2; sy_reads := sy_reads s;
              sy_verdicts := (row, (Complete_verify h row claim (sy_hub s)).1) :: sy_verdicts s |}
| st_finish s now row verdict : (row, verdict) ∈ sy_verdicts s ->
    step s (with_hub s (Complete_finish now row verdict (sy_hub s)).2)
| st_patch s now row req : row ∈ sy_reads s ->
    step s (with_hub s (PatchOn now row req (sy_hub s)).2)
| st_delete s now row : row ∈ sy_reads s ->
    step s (with_hub s (MarkDeletingOn now row (sy_hub s)))
| st_expire s now cutoff row : row ∈ sy_reads s -> is_stale cutoff row = true ->
    step s (with_hub s (expire_upload reg now (sy_hub s) (toGCRow row)))
| st_collect s now row : row ∈ sy_reads s -> a_Status row = Deleting ->
    step s (with_hub s (finish_delete reg now (sy_hub s) (toGCRow row)))
| st_return s reads verdicts :
    reads ⊆ sy_reads s -> verdicts ⊆ sy_verdicts s -> (forall row v, (row, v) ∈ verdicts -> row ∈ reads) ->
    step s {| sy_hub := sy_hub s; sy_reads := reads; sy_verdicts := verdicts |}.

Definition registry_ok : Prop := forall kind h, reg !! kind = Some h -> HandlerOK h /\ h_Kind h = kind.

(** ** What one write does to the table *)

Lemma GCBackend_rows row w : hub_rows (run_GCBackend reg row w).2 = hub_rows w.
Proof. rw /run_GCBackend. destruct (Get _ _) as [h|]; [|done]. by destruct (h_GCBackend _ _ _). Qed.

Lemma Initiate_row_ok now id ns name owner req h vis src :
  Initiate_validate reg ns req = inl (h, vis) ->
  (String.eqb src SourceExternal && String.eqb (ir_SourceURI req) "" = false) ->
  row_ok (Initiate_row now id ns name owner vis src req).
Proof.
  rw /Initiate_validate. destruct (IsValidVersion _) eqn:Hv; [|done]. simpl.
  destruct (Get _ _) as [h'|]; [|done]. destruct (h_ValidateSpec _ _); [done|].
  set (v := if String.eqb (ir_Visibility req) "" then _ else _).
  destruct (String.eqb_spec v VisibilityTenant) as [Ht|Ht]; simpl.
  - rw Ht. change (String.eqb VisibilityTenant VisibilityPublic) with false. simpl.
    intros [= _ <-] Hs. split; simpl; try done; [by left|..];
      destruct (String.eqb_spec src SourceExternal); try done; by destruct (String.eqb_spec (ir_SourceURI req) "").
  - destruct (String.eqb_spec v VisibilityPublic) as [Hp|]; [|done]. simpl.
    destruct (String.eqb_spec ns PublicVisibilityNamespace) as [Hn|]; [|done]. simpl.
    intros [= _ <-] Hs. split; simpl; try done; [by right|..];
      destruct (String.eqb_spec src SourceExternal); try done; by destruct (String.eqb_spec (ir_SourceURI req) "").
Qed.

(** Initiate inserts at most one row. *)
Lemma InitiateOn_rows existing now id ns name owner req w :
  table_ok (hub_rows w) ->
  let w' := (InitiateOn reg ttl existing now id ns name owner req w).2 in
  table_ok (hub_rows w') /\ hub_calls w' = hub_calls w /\
  (hub_rows w' = hub_rows w \/ exists r, hub_rows w' = hub_rows w ++ [r] /\ coord r = (ns, name, ir_Version req)).
Proof.
  intros Ht. rw /InitiateOn. destruct (Initiate_validate _ _ _) as [[h vis]|] eqn:Hv; [|by eauto].
  destruct existing as [e|err]; [by eauto|]. destruct (HIsNotFound err); [|by eauto].
  cbn [negb]. set (src := if String.eqb (ir_Source req) "" then _ else _).
  destruct (String.eqb src SourceExternal && String.eqb (ir_SourceURI req) "") eqn:He; [by eauto|].
  destruct (Create _ _ _) as [[row rows]|err'] eqn:Hc; [|by eauto].
  destruct (Create_table _ _ _ _ _ Hc Ht) as (H1 & H2 & H3); [by eapply Initiate_row_ok|].
  assert (Hw : forall x : InitiateResponse + hub_error, let w' := (x, with_rows w rows).2 in
    table_ok (hub_rows w') /\ hub_calls w' = hub_calls w /\
    (hub_rows w' = hub_rows w \/ exists r, hub_rows w' = hub_rows w ++ [r] /\ coord r = (ns, name, ir_Version req))).
  { intros x. split_and!; [done|done|]. right. by exists row. }
  case_match; [apply Hw|]. case_match; apply Hw.
Qed.

(** ** The invariant *)

Record sys_ok (s : sys) : Prop := {
  sok_table : table_ok (sys_rows s);
  sok_reads r : r ∈ sy_reads s -> row_ok r /\ exists cur, cur ∈ sys_rows s /\ frozen r cur;
  sok_verdicts row v : (row, v) ∈ sy_verdicts s ->
    row ∈ sy_reads s /\ a_Status row = Uploading /\ (forall d, v = inl d -> d <> "") }.

(** A write that keeps the table well formed and its rows recognisable keeps
    the invariant. *)
Lemma sys_ok_frozen s w :
  sys_ok s -> table_ok (hub_rows w) -> Forall2 frozen (sys_rows s) (hub_rows w) -> sys_ok (with_hub s w).
Proof.
  intros [Ht Hr Hv] Ht' HF. split; [done| |done]. intros r Hin. destruct (Hr r Hin) as [Hok (cur & Hc & Hf)].
  split; [done|]. apply list_elem_of_lookup in Hc as [i Hi].
  destruct (Forall2_lookup_l _ _ _ _ _ HF Hi) as (cur' & Hi' & Hf').
  exists cur'. split; [by eapply list_elem_of_lookup_2|by etrans].
Qed.

(** The current version of a row that was read is the only one with its id. *)
Lemma read_current s row r :
  sys_ok s -> row ∈ sy_reads s -> r ∈ sys_rows s -> a_ID r = a_ID row -> row_ok row /\ frozen row r.
Proof.
  intros [Ht Hr _] Hin Hrow E. destruct (Hr row Hin) as [Hok (cur & Hc & Hf)]. split; [done|].
  rw (unique_by a_ID (sys_rows s) r cur) //; [apply Ht|]. by rw E (fz_id _ _ Hf).
Qed.

(** An upload is not external, whatever became of the row since. *)
Lemma uploading_not_external s row r :
  sys_ok s -> row ∈ sy_reads s -> a_Status row = Uploading -> r ∈ sys_rows s -> a_ID r = a_ID row ->
  a_Source r <> SourceExternal.
Proof.
  intros Hs Hin Hst Hr E. destruct (read_current s row r) as [Hok Hf]; [done..|].
  rw (fz_source _ _ Hf). intros Hx. by destruct (ok_external _ Hok Hx).
Qed.

(** The rows each writer leaves behind. *)
Lemma finish_rows now row verdict w :
  let rows' := hub_rows (Complete_finish now row verdict w).2 in
  (exists d, verdict = inl d /\
     rows' = Update now (a_ID row) [AStatus Ready; ADigest d; AReadyAt now; AMessage ""] (hub_rows w)) \/
  (exists msg, rows' = Update now (a_ID row) [AStatus Failed; AMessage msg] (hub_rows w)) \/
  rows' = hub_rows w.
Proof. rw /Complete_finish. destruct verdict as [d|err]; [|destruct (fails_upload err)]; simpl; eauto. Qed.

Lemma patch_rows now row req w :
  let rows' := hub_rows (PatchOn now row req w).2 in
  rows' = Update now (a_ID row) (patch_updates req) (hub_rows w) \/ rows' = hub_rows w.
Proof.
  rw /PatchOn. destruct (a_Status row); try (by right); destruct (patch_updates req); ((by left) || (by right)).
Qed.

Lemma delete_rows now row w :
  let rows' := hub_rows (MarkDeletingOn now row w) in
  rows' = Update now (a_ID row) [AStatus Deleting; AMessage ""] (hub_rows w) \/ rows' = hub_rows w.
Proof. rw /MarkDeletingOn. destruct (a_Status row); ((by left) || (by right)). Qed.

Lemma expire_rows now row w :
  hub_rows (expire_upload reg now w row) =
  (UpdateIfStatus now (g_ID row) Uploading [AStatus Failed; AMessage ttl_message] (hub_rows w)).1.
Proof.
  rw /expire_upload. destruct (UpdateIfStatus _ _ _ _ _) as [rows []]; [|done]. by rw GCBackend_rows.
Qed.

Lemma collect_rows now row w :
  let rows' := hub_rows (finish_delete reg now w row) in
  rows' = Update now (g_ID row) [AStatus Deleted; ADeletedAt now] (hub_rows w) \/ rows' = hub_rows w.
Proof.
  rw /finish_delete. pose proof (GCBackend_rows row w) as E.
  destruct (run_GCBackend _ _ _) as [[err|] w']; simpl in *; rw E; ((by left) || (by right)).
Qed.

(** A write of columns keeps the invariant if it keeps rows well formed. *)
Lemma sys_ok_update s w now id cols :
  sys_ok s -> hub_rows w = Update now id cols (sys_rows s) ->
  (forall r, r ∈ sys_rows s -> a_ID r = id -> row_ok r -> row_ok (art_Updates now cols r)) ->
  sys_ok (with_hub s w).
Proof.
  intros Hs E Hw. apply sys_ok_frozen; [done|rw E|rw E; apply Update_frozen].
  apply Update_table; [apply Hs|done].
Qed.

Lemma sys_ok_same s w : sys_ok s -> hub_rows w = sys_rows s -> sys_ok (with_hub s w).
Proof. intros Hs E. apply sys_ok_frozen; [done|rw E; apply Hs|by rw E]. Qed.

Lemma verify_ok s row claim h :
  registry_ok -> sys_ok s -> row ∈ sy_reads s -> Complete_gate reg row claim = inl h ->
  sys_ok {| sy_hub := (Complete_verify h row claim (sy_hub s)).2; sy_reads := sy_reads s;
            sy_verdicts := (row, (Complete_verify h row claim (sy_hub s)).1) :: sy_verdicts s |}.
Proof.
  intros Hreg [Ht Hrd Hv] Hin Hg. rw /Complete_verify.
  destruct (h_VerifyComplete _ _ _ _) as [verdict cs] eqn:E. split; [done|done|]. simpl.
  intros row' v [Ex|Hin']%elem_of_cons; [|by apply Hv]. injection Ex as -> ->. split; [done|].
  move: Hg. rw /Complete_gate. destruct (a_Status row); try done.
  destruct (Get reg _) as [h'|] eqn:Hh; [|done]. intros [= ->]. split; [done|]. intros d ->.
  destruct (Hreg _ _ Hh) as [Hok _]. by destruct (hok_digest _ _ _ _ _ E).
Qed.

Lemma step_ok s s' : registry_ok -> sys_ok s -> step s s' -> sys_ok s'.
Proof.
  intros Hreg Hs Hst. destruct Hst as [s r Hr|s ex now id ns name owner req|s row claim h Hin Hg
    |s now row verdict Hin|s now row req Hin|s now row Hin|s now cutoff row Hin Hstale|s now row Hin Hd
    |s reads verdicts Hrs Hvs Hrv].
  - destruct Hs as [Ht Hrd Hv]. split; [done| |].
    + intros r' [->|Hin]%elem_of_cons; [|by apply Hrd]. split; [|by exists r].
      by eapply Forall_forall; [apply Ht|].
    + intros row v Hin. destruct (Hv row v Hin) as (?&?&?). split_and!; [by right|done|done].
  - destruct (InitiateOn_rows ex now id ns name owner req (sy_hub s)) as (Ht & _ & [E|(r & E & _)]);
      [apply Hs|..]; destruct Hs as [Ht0 Hrd Hv]; split; try done; rw /sys_rows /=; rw E; try done.
    intros r' Hin. destruct (Hrd r' Hin) as [? (cur & ? & ?)]. split; [done|].
    exists cur. split; [|done]. apply elem_of_app. by left.
  - by apply verify_ok.
  - destruct (sok_verdicts _ Hs _ _ Hin) as (Hrd & Hup & Hd).
    destruct (finish_rows now row verdict (sy_hub s)) as [(d & -> & E)|[(msg & E)|E]];
      [eapply sys_ok_update..|by apply sys_ok_same]; try done; intros r Hr Eid Hok.
    + apply ready_row_ok; [done|by apply Hd].
    + apply fail_row_ok; [done|by eapply uploading_not_external].
  - destruct (patch_rows now row req (sy_hub s)) as [E|E]; [eapply sys_ok_update|by apply sys_ok_same]; try done.
    intros r _ _. apply same_state_ok. apply display_same_state, patch_updates_display.
  - destruct (delete_rows now row (sy_hub s)) as [E|E]; [eapply sys_ok_update|by apply sys_ok_same]; try done.
    intros r _ _. apply deleting_row_ok.
  - rw /is_stale in Hstale. unbool. pose proof (expire_rows now (toGCRow row) (sy_hub s)) as E.
    apply sys_ok_frozen; [done|rw E|rw E; apply UpdateIfStatus_frozen].
    apply UpdateIfStatus_table; [apply Hs|]. intros r Hr Eid _ Hok. apply fail_row_ok; [done|].
    by eapply uploading_not_external.
  - destruct (collect_rows now (toGCRow row) (sy_hub s)) as [E|E]; [eapply sys_ok_update|by apply sys_ok_same]; try done.
    intros r _ _. apply deleted_row_ok.
  - destruct Hs as [Ht Hrd Hv]. split; [done|intros r Hr; by apply Hrd, Hrs|].
    intros row v Hin. destruct (Hv row v (Hvs _ Hin)) as (_ & ? & ?). split_and!; [by eapply Hrv|done..].
Qed.

(** Rows stay where they are and keep their frozen columns; new ones join at
    the end. *)
Definition grows (rows rows' : list Artifact) : Prop :=
  exists upd new, rows' = upd ++ new /\ Forall2 frozen rows upd.

Lemma grows_frozen rows rows' : Forall2 frozen rows rows' -> grows rows rows'.
Proof. intros HF. exists rows', []. by rw app_nil_r. Qed.

Lemma grows_elem rows rows' r : grows rows rows' -> r ∈ rows -> exists r', r' ∈ rows' /\ frozen r r'.
Proof.
  intros (upd & new & -> & HF) [i Hi]%list_elem_of_lookup.
  destruct (Forall2_lookup_l _ _ _ _ _ HF Hi) as (r' & Hi' & Hf). exists r'. split; [|done].
  apply elem_of_app. left. by eapply list_elem_of_lookup_2.
Qed.

Lemma step_grows s s' : sys_ok s -> step s s' -> grows (sys_rows s) (sys_rows s').
Proof.
  intros Hs Hst. destruct Hst as [s r Hr|s ex now id ns name owner req|s row claim h Hin Hg
    |s now row verdict Hin|s now row req Hin|s now row Hin|s now cutoff row Hin Hstale|s now row Hin Hd
    |s reads verdicts Hrs Hvs Hrv];
    rw /sys_rows /=.
  - by apply grows_frozen.
  - destruct (InitiateOn_rows ex now id ns name owner req (sy_hub s)) as (_ & _ & [E|(r & E & _)]);
      [apply Hs|..]; simpl in E; rw E; [by apply grows_frozen|]. by exists (hub_rows (sy_hub s)), [r].
  - apply grows_frozen. rw /Complete_verify. by destruct (h_VerifyComplete _ _ _ _).
  - apply grows_frozen. destruct (finish_rows now row verdict (sy_hub s)) as [(d & _ & ->)|[(m & ->)| ->]];
      try apply Update_frozen; done.
  - apply grows_frozen. destruct (patch_rows now row req (sy_hub s)) as [-> | ->]; [apply Update_frozen|done].
  - apply grows_frozen. destruct (delete_rows now row (sy_hub s)) as [-> | ->]; [apply Update_frozen|done].
  - apply grows_frozen. rw expire_rows. apply UpdateIfStatus_frozen.
  - apply grows_frozen. destruct (collect_rows now (toGCRow row) (sy_hub s)) as [-> | ->]; [apply Update_frozen|done].
  - by apply grows_frozen.
Qed.

Lemma fresh_sys_ok w : table_ok (hub_rows w) -> sys_ok {| sy_hub := w; sy_reads := []; sy_verdicts := [] |}.
Proof.
  intros Ht. split; [done|intros r Hr; by apply elem_of_nil in Hr|intros r v Hr; by apply elem_of_nil in Hr].
Qed.

Lemma empty_sys_ok : sys_ok empty_sys.
Proof. apply fresh_sys_ok. split; constructor. Qed.

(** Every state an interleaving leads to. *)
Lemma reachable_ok s s' : registry_ok -> sys_ok s -> rtc step s s' -> sys_ok s'.
Proof. intros Hreg Hs. induction 1 as [|s s1 s' Hst _ IH]; [done|]. apply IH. by eapply step_ok. Qed.
End Interleavings.
