(* ===== verification/ArtifactHubLifecycle.v ===== *)
(** * Artifact hub: the lifecycle of an artifact

    The state machine of a row for operations that do not overlap, the exact
    effect of a garbage collection pass on the table, and what becomes of a
    row that is being deleted when operations do overlap. *)

From Stdlib Require Import ssreflect ZArith Lia Ascii String.
From stdpp Require Import base gmap list strings relations.
From S2P Require Import Prelude ApiTypes Names HubTypes HubBackend Listing AdmissionUsage ArtifactHub ArtifactHubFacts.

Import ArtRepository.

(** The status changes of an artifact. *)
Inductive art_edge : art_status -> art_status -> Prop :=
| ae_ready : art_edge Uploading Ready
| ae_failed : art_edge Uploading Failed
| ae_delete s : s <> Deleting -> s <> Deleted -> art_edge s Deleting
| ae_deleted : art_edge Deleting Deleted.

Create HintDb artifact discriminated.
#[export] Hint Constructors art_edge : artifact.

Lemma art_edge_uploading s s' : rtc art_edge s s' -> s <> Uploading -> s' <> Uploading.
Proof. induction 1 as [|s s1 s' He _ IH]; [done|]. intros. apply IH. by destruct He. Qed.

Lemma art_edge_deleted s : rtc art_edge Deleted s -> s = Deleted.
Proof. intros H. apply rtc_inv in H as [->|(y & He & _)]; [done|]. by inversion He. Qed.

Lemma art_edge_deleting s : rtc art_edge Deleting s -> s = Deleting \/ s = Deleted.
Proof.
  intros H. apply rtc_inv in H as [<-|(y & He & Hr)]; [by left|]. inversion He; subst; try done.
  right. by apply art_edge_deleted.
Qed.

(** How a row may evolve: its content is settled once it is not an upload any
    more, and its deletion is final. *)
Record lives (a b : Artifact) : Prop := {
  lv_frozen : frozen a b;
  lv_status : rtc art_edge (a_Status a) (a_Status b);
  lv_content : a_Status a <> Uploading -> a_Digest b = a_Digest a /\ a_ReadyAt b = a_ReadyAt a;
  lv_deleted : a_Status a = Deleted -> a_DeletedAt b = a_DeletedAt a }.

#[export] Instance lives_refl : Reflexive lives.
Proof. by split. Qed.

#[export] Instance lives_trans : Transitive lives.
Proof.
  intros a b c [F1 S1 C1 D1] [F2 S2 C2 D2]. split; [by etrans|by etrans| |].
  - intros Ha. destruct (C1 Ha) as [E1 E2], (C2 (art_edge_uploading _ _ S1 Ha)) as [E3 E4]. split; congruence.
  - intros Ha. rw D2; [|by apply D1]. apply art_edge_deleted. by rw -Ha.
Qed.

(** The table after some operations: rows live on, new ones are added. *)
Definition live_table (rows rows' : list Artifact) : Prop :=
  exists upd new, rows' = upd ++ new /\ Forall2 lives rows upd.

#[export] Instance live_table_refl : Reflexive live_table.
Proof. intros rows. exists rows, []. rw app_nil_r. split; [done|]. by apply Forall_Forall2_diag, Forall_true. Qed.

Lemma live_table_upd rows rows' : Forall2 lives rows rows' -> live_table rows rows'.
Proof. intros HF. exists rows', []. by rw app_nil_r. Qed.

#[export] Instance live_table_trans : Transitive live_table.
Proof.
  intros r1 r2 r3 (u1 & n1 & -> & H1) (u2 & n2 & -> & H2).
  apply Forall2_app_inv_l in H2 as (v1 & v2 & Ha & Hb & ->).
  exists v1, (v2 ++ n2). rw app_assoc. split; [done|]. by etrans.
Qed.

Lemma live_table_elem rows rows' r : live_table rows rows' -> r ∈ rows -> exists r', r' ∈ rows' /\ lives r r'.
Proof.
  intros (upd & new & -> & HF) [i Hi]%list_elem_of_lookup.
  destruct (Forall2_lookup_l _ _ _ _ _ HF Hi) as (r' & Hi' & Hf). exists r'. split; [|done].
  apply elem_of_app. left. by eapply list_elem_of_lookup_2.
Qed.

(** Writing to the current version of a row. *)
Lemma Update_lives now cols r rows :
  NoDup (map a_ID rows) -> r ∈ rows -> lives r (art_Updates now cols r) ->
  Forall2 lives rows (Update now (a_ID r) cols rows).
Proof.
  intros Hnd Hr Hl. apply Forall2_map_r => a Ha.
  destruct (String.eqb_spec (a_ID a) (a_ID r)) as [E|]; [|done].
  by rw (unique_by a_ID rows a r).
Qed.

Lemma ready_lives now d r :
  a_Status r = Uploading -> lives r (art_Updates now [AStatus Ready; ADigest d; AReadyAt now; AMessage ""] r).
Proof.
  intros E. split; [apply art_Updates_frozen| |by rw E|by rw E]. simpl. rw E. eauto using rtc_once with artifact.
Qed.

Lemma failed_lives now m r : a_Status r = Uploading -> lives r (art_Updates now [AStatus Failed; AMessage m] r).
Proof.
  intros E. split; [apply art_Updates_frozen| |by rw E|by rw E]. simpl. rw E. eauto using rtc_once with artifact.
Qed.

Lemma deleting_lives now r :
  a_Status r <> Deleting -> a_Status r <> Deleted -> lives r (art_Updates now [AStatus Deleting; AMessage ""] r).
Proof. intros. split; [apply art_Updates_frozen| |done|done]. simpl. eauto using rtc_once with artifact. Qed.

Lemma deleted_lives now r :
  a_Status r = Deleting -> lives r (art_Updates now [AStatus Deleted; ADeletedAt now] r).
Proof.
  intros E. split; [apply art_Updates_frozen| |done|by rw E]. simpl. rw E. eauto using rtc_once with artifact.
Qed.

Lemma display_lives now cols r : Forall display_col cols -> lives r (art_Updates now cols r).
Proof.
  intros Hc. destruct (display_same_state now cols r Hc) as [F S D R X _].
  split; [done|by rw S|done|done].
Qed.

(** ** A pass of the garbage collector *)

Section Pass.
Context `{Storage} (reg : registry).

Definition fail_row (now : Z) (r : Artifact) : Artifact :=
  art_Updates now [AStatus Failed; AMessage ttl_message] r.

Definition delete_row (now : Z) (r : Artifact) : Artifact :=
  art_Updates now [AStatus Deleted; ADeletedAt now] r.

(** The backend cleanup of a row succeeds, whatever was asked before. *)
Definition backend_works (g : GCRow) : Prop :=
  forall h calls, Get reg (g_Kind g) = Some h -> (h_GCBackend h (gcArtifact g) calls).1 = None.

(** It fails, whatever was asked before. *)
Definition backend_fails (g : GCRow) : Prop :=
  exists h, Get reg (g_Kind g) = Some h /\ forall calls, (h_GCBackend h (gcArtifact g) calls).1 <> None.

Lemma expire_all now w L :
  hub_rows (foldl (expire_upload reg now) w L) =
  map (fun r => if bool_decide (a_Status r = Uploading /\ a_ID r ∈ map g_ID L) then fail_row now r else r)
    (hub_rows w).
Proof.
  revert w. induction L as [|g L IH]; intros w; simpl.
  - rw -{1}(map_id (hub_rows w)). apply map_ext => r. rw bool_decide_false //. by intros [_ ?%elem_of_nil].
  - rw IH expire_rows. simpl. rw map_map. apply map_ext => r.
    destruct (String.eqb_spec (a_ID r) (g_ID g)) as [E|E]; simpl.
    + assert (Hin : a_ID r ∈ g_ID g :: map g_ID L) by (rw E; by left).
      repeat case_bool_decide; destruct_and?; try done; naive_solver.
    + repeat case_bool_decide; set_solver.
Qed.

(** The upload rows that are too old fail; nothing else changes. *)
Lemma processStaleUploading_rows now ttl w :
  NoDup (map a_ID (hub_rows w)) ->
  hub_rows (processStaleUploading reg now ttl w) =
  map (fun r => if is_stale (now - ttl) r then fail_row now r else r) (hub_rows w).
Proof.
  intros Hnd. rw /processStaleUploading expire_all. apply map_ext_in. intros r Hr%list_elem_of_In.
  rw /FindStaleUploading map_map. simpl. destruct (is_stale (now - ttl) r) eqn:Hs.
  - rw bool_decide_true //. split; [rw /is_stale in Hs; by unbool|].
    apply list_elem_of_In, in_map_iff. exists r. split; [done|]. apply filter_In. by rw -list_elem_of_In.
  - rw bool_decide_false //. intros [_ (r' & E & [Hr' Hs']%filter_In)%list_elem_of_In%in_map_iff].
    rw -list_elem_of_In in Hr'. rw (unique_by a_ID (hub_rows w) r' r) // in Hs'. congruence.
Qed.

Lemma finish_delete_cases now w g :
  ~ backend_works g /\ hub_rows (finish_delete reg now w g) = hub_rows w \/
  ~ backend_fails g /\ hub_rows (finish_delete reg now w g) =
    map (fun r => if String.eqb (a_ID r) (g_ID g) then delete_row now r else r) (hub_rows w).
Proof.
  rw /finish_delete /run_GCBackend. destruct (Get reg (g_Kind g)) as [h|] eqn:Hh.
  2: { right. split; [|done]. intros (h & ? & _). congruence. }
  destruct (h_GCBackend _ _ _) as [[err|] calls] eqn:E; [left|right]; (split; [|done]).
  - intros Hb. specialize (Hb h (hub_calls w) Hh). by rw E in Hb.
  - intros (h' & Hh' & Hb). rw Hh in Hh'. injection Hh' as <-. specialize (Hb (hub_calls w)). by rw E in Hb.
Qed.

(** The loop finalizes a set of rows that contains every row whose backend
    works and none whose backend fails. *)
Lemma delete_all now w L :
  exists fin : list string, (forall id, id ∈ fin -> exists g, g ∈ L /\ g_ID g = id /\ ~ backend_fails g) /\
  (forall g, g ∈ L -> backend_works g -> g_ID g ∈ fin) /\
  hub_rows (foldl (finish_delete reg now) w L) =
  map (fun r => if bool_decide (a_ID r ∈ fin) then delete_row now r else r) (hub_rows w).
Proof.
  revert w. induction L as [|g L IH]; intros w; simpl.
  { exists []. split_and!; [by intros ? ?%elem_of_nil|by intros ? ?%elem_of_nil|]. by rw map_id. }
  destruct (IH (finish_delete reg now w g)) as (fin & Hs & Hw & E).
  assert (Hs' : forall id, id ∈ fin -> exists g', g' ∈ g :: L /\ g_ID g' = id /\ ~ backend_fails g').
  { intros id Hid. destruct (Hs id Hid) as (g' & ? & ?). exists g'. split; [by right|done]. }
  destruct (finish_delete_cases now w g) as [[Hno Hg]|[Hno Hg]].
  - exists fin. split_and!; [done| |by rw E Hg]. by intros g' [->|Hg']%elem_of_cons Hb; [|auto].
  - exists (g_ID g :: fin). split_and!.
    + intros id [->|Hid]%elem_of_cons; [exists g; split; [by left|done]|by apply Hs'].
    + intros g' [->|Hg']%elem_of_cons Hb; [by left|right; auto].
    + rw E Hg map_map. apply map_ext => r. destruct (String.eqb_spec (a_ID r) (g_ID g)) as [Er|Er].
      * rw (bool_decide_true (a_ID r ∈ _ :: _)); [rw Er; by left|]. by case_bool_decide.
      * repeat case_bool_decide; set_solver.
Qed.

(** Which rows a pass finalizes. *)
Record finalized (rows : list Artifact) (fin : list string) : Prop := {
  fin_works r : r ∈ rows -> a_Status r = Deleting -> backend_works (toGCRow r) -> a_ID r ∈ fin;
  fin_fails r : r ∈ rows -> a_Status r = Deleting -> backend_fails (toGCRow r) -> a_ID r ∉ fin }.

(** The rows being deleted are finalized where the backend works; nothing else
    changes. *)
Lemma processDeleting_rows now w :
  NoDup (map a_ID (hub_rows w)) ->
  exists fin : list string, finalized (hub_rows w) fin /\
  hub_rows (processDeleting reg now w) =
  map (fun r => if bool_decide (a_Status r = Deleting /\ a_ID r ∈ fin) then delete_row now r else r) (hub_rows w).
Proof.
  intros Hnd. rw /processDeleting /FindDeleting.
  destruct (delete_all now w (map toGCRow
    (List.filter (fun r => bool_decide (a_Status r = Deleting)) (hub_rows w)))) as (fin & Hs & Hw & E).
  assert (Hfrom : forall r, r ∈ hub_rows w -> a_ID r ∈ fin ->
    a_Status r = Deleting /\ ~ backend_fails (toGCRow r)).
  { intros r Hr Hf. destruct (Hs _ Hf) as (g & (r' & <- & [Hr' Hd]%filter_In)%list_elem_of_In%in_map_iff & Eg & Hno).
    rw -list_elem_of_In in Hr'. simpl in Eg. rw (unique_by a_ID (hub_rows w) r' r) // in Hd Hno. by unbool. }
  exists fin. split; [split|].
  - intros r Hr Hd Hb. apply (Hw (toGCRow r)); [|done].
    apply list_elem_of_In, in_map_iff. exists r. split; [done|]. apply filter_In.
    rw -list_elem_of_In. split; [done|by apply bool_decide_true].
  - intros r Hr Hd Hb Hf. by destruct (Hfrom r Hr Hf).
  - rw E. apply map_ext_in. intros r Hr%list_elem_of_In. case_bool_decide as Hf.
    + rw bool_decide_true //. split; [|done]. by apply Hfrom.
    + by rw bool_decide_false; [naive_solver|].
Qed.

(** What a pass does to a row if every backend works. *)
Definition tick_row (now ttl : Z) (r : Artifact) : Artifact :=
  if is_stale (now - ttl) r then fail_row now r
  else if bool_decide (a_Status r = Deleting) then delete_row now r
  else r.

Lemma fail_rows_ids now ttl rows :
  map a_ID (map (fun r => if is_stale (now - ttl) r then fail_row now r else r) rows) = map a_ID rows.
Proof. rw map_map. apply map_ext => r. by case_match. Qed.

Lemma Tick_rows now ttl w :
  NoDup (map a_ID (hub_rows w)) ->
  exists fin : list string, finalized (hub_rows w) fin /\
  hub_rows (Tick reg now ttl w).1 =
  map (fun r => if bool_decide (a_Status r = Deleting -> a_ID r ∈ fin) then tick_row now ttl r else r) (hub_rows w).
Proof.
  intros Hnd. rw /Tick /=. destruct (processDeleting_rows now (processStaleUploading reg now ttl w))
    as (fin & [Hw Hx] & E); [by rw processStaleUploading_rows // fail_rows_ids|].
  assert (Hkeep : forall r, r ∈ hub_rows w -> a_Status r = Deleting ->
    r ∈ hub_rows (processStaleUploading reg now ttl w)).
  { intros r Hr Hd. rw processStaleUploading_rows //. apply list_elem_of_In, in_map_iff. exists r.
    rw -list_elem_of_In. split; [|done]. by rw /is_stale Hd. }
  exists fin. split; [split; auto|].
  rw E processStaleUploading_rows // map_map. apply map_ext => r. rw /tick_row.
  destruct (is_stale (now - ttl) r) eqn:Hs.
  - assert (Hu : a_Status r = Uploading) by (rw /is_stale in Hs; by unbool).
    rw bool_decide_false; [by intros [? _]|]. rw bool_decide_true //. by rw Hu.
  - repeat case_bool_decide; naive_solver.
Qed.
End Pass.

(** ** Operations that do not overlap *)

Section Operations.
Context `{Storage} (reg : registry) (ttl : Z).

(** One API call or one pass of the worker, from beginning to end.  In the
    code they may overlap (a completion reads the row, verifies, and writes
    later): that is the relation [step], and what is shown over [hub_op] holds
    of operations that do not. *)
Inductive hub_op (w : hub) : hub -> Prop :=
| op_initiate now id namespace name owner req :
    hub_op w (Initiate reg ttl now id namespace name owner req w).2
| op_complete now namespace name version claim :
    hub_op w (Complete reg now namespace name version claim w).2
| op_patch now namespace name version req :
    hub_op w (Patch now namespace name version req w).2
| op_delete now namespace name version :
    hub_op w (MarkDeleting now namespace name version w).2
| op_tick now uploadingTTL :
    hub_op w (Tick reg now uploadingTTL w).1.

Lemma loadRow_elem ns name version w row :
  loadRow ns name version w = inl row -> row ∈ hub_rows w /\ coord row = (ns, name, version).
Proof.
  rw /loadRow /GetByCoordIncludingDeleted. destruct (List.find _ _) as [r|] eqn:E; [|done].
  intros [= <-]. apply find_elem in E as [? E]. split; [done|by apply coord_is_spec].
Qed.

(** *** They are runs of the interleaving relation *)

Notation run := (rtc (step reg ttl)).

Lemma run_read s r : r ∈ sys_rows s -> exists s', run s s' /\ sy_hub s' = sy_hub s /\ r ∈ sy_reads s' /\
  sy_reads s ⊆ sy_reads s'.
Proof.
  intros Hr. eexists. split; [apply rtc_once, st_read, Hr|]. simpl. split_and!; [done|by left|]. set_solver.
Qed.

Lemma run_reads s (L : list Artifact) : (forall r, r ∈ L -> r ∈ sys_rows s) ->
  exists s', run s s' /\ sy_hub s' = sy_hub s /\ forall r, r ∈ L -> r ∈ sy_reads s'.
Proof.
  induction L as [|r L IH]; intros HL.
  { exists s. split_and!; [done|done|]. by intros ? ?%elem_of_nil. }
  destruct IH as (s1 & H1 & E1 & R1); [intros; apply HL; by right|].
  destruct (run_read s1 r) as (s2 & H2 & E2 & R2 & Sub).
  { rw /sys_rows E1. apply HL. by left. }
  exists s2. split_and!; [by etrans|congruence|]. intros x [->|Hx]%elem_of_cons; [done|]. by apply Sub, R1.
Qed.

(** A loop whose iterations are steps on rows that were read is a run. *)
Lemma run_loop (f : hub -> GCRow -> hub) (P : Artifact -> Prop) (L : list Artifact) s :
  (forall s r, r ∈ sy_reads s -> P r -> step reg ttl s (with_hub s (f (sy_hub s) (toGCRow r)))) ->
  (forall r, r ∈ L -> r ∈ sy_reads s /\ P r) ->
  exists s', run s s' /\ sy_hub s' = foldl f (sy_hub s) (map toGCRow L).
Proof.
  intros Hf. revert s. induction L as [|r L IH]; intros s HL; simpl.
  { by exists s. }
  destruct (HL r) as [Hr HP]; [by left|].
  destruct (IH (with_hub s (f (sy_hub s) (toGCRow r)))) as (s' & Hrun & E).
  { intros x Hx. apply HL. by right. }
  exists s'. split; [|done]. eapply rtc_l; [by apply Hf|done].
Qed.

Lemma run_Tick s now uttl : exists s', run s s' /\ sy_hub s' = (Tick reg now uttl (sy_hub s)).1.
Proof.
  destruct (run_reads s (List.filter (is_stale (now - uttl)) (sys_rows s))) as (s1 & H1 & E1 & R1).
  { intros r. rw !list_elem_of_In filter_In. by intros []. }
  destruct (run_loop (expire_upload reg now) (fun r => is_stale (now - uttl) r = true)
    (List.filter (is_stale (now - uttl)) (sys_rows s)) s1) as (s2 & H2 & E2).
  { intros s0 r Hr HP. by eapply st_expire. }
  { intros r Hr. split; [by apply R1|]. apply list_elem_of_In, filter_In in Hr. by destruct Hr. }
  rw E1 in E2. set (dels := List.filter (fun r => bool_decide (a_Status r = Deleting)) (sys_rows s2)).
  destruct (run_reads s2 dels) as (s3 & H3 & E3 & R3).
  { intros r. rw !list_elem_of_In filter_In. by intros []. }
  destruct (run_loop (finish_delete reg now) (fun r => a_Status r = Deleting) dels s3) as (s4 & H4 & E4).
  { intros s0 r Hr HP. by eapply st_collect. }
  { intros r Hr. split; [by apply R3|]. apply list_elem_of_In, filter_In in Hr. destruct Hr. by unbool. }
  exists s4. split; [do 3 (etrans; [done|]); done|]. rw E4 E3 /dels /sys_rows E2. done.
Qed.

(** Every operation is a run of single steps. *)
Lemma op_run s w' : hub_op (sy_hub s) w' -> exists s', run s s' /\ sy_hub s' = w'.
Proof.
  intros Hop. destruct Hop as [now id ns name owner req|now ns name v claim|now ns name v req|now ns name v|now uttl].
  - eexists. split; [apply rtc_once, st_initiate|]. done.
  - rw /Complete. destruct (loadRow _ _ _ _) as [row|] eqn:El; [|by exists s].
    apply loadRow_elem in El as [Hr _]. destruct (Complete_gate _ _ _) as [h|a] eqn:Hg; [|by exists s].
    destruct (run_read s row Hr) as (s1 & H1 & E1 & R1 & _).
    destruct (Complete_verify h row claim (sy_hub s)) as [verdict w1] eqn:Ev.
    eexists. split; [etrans; [exact H1|]; eapply rtc_l; [by eapply st_verify|];
      apply rtc_once; eapply (st_finish _ _ _ now row verdict); simpl; rw E1 Ev; by left|].
    simpl. by rw E1 Ev.
  - rw /Patch. destruct (loadRow _ _ _ _) as [row|] eqn:El; [|by exists s].
    apply loadRow_elem in El as [Hr _]. destruct (run_read s row Hr) as (s1 & H1 & E1 & R1 & _).
    eexists. split; [etrans; [exact H1|]; by apply rtc_once, (st_patch _ _ _ now row req)|]. simpl. by rw E1.
  - rw /MarkDeleting. destruct (loadRow _ _ _ _) as [row|] eqn:El; [|by exists s].
    apply loadRow_elem in El as [Hr _]. destruct (run_read s row Hr) as (s1 & H1 & E1 & R1 & _).
    eexists. split; [etrans; [exact H1|]; by apply rtc_once, (st_delete _ _ _ now row)|]. simpl. by rw E1.
  - apply run_Tick.
Qed.

Lemma op_table w w' : registry_ok reg -> table_ok (hub_rows w) -> hub_op w w' -> table_ok (hub_rows w').
Proof.
  intros Hreg Ht Hop.
  destruct (op_run {| sy_hub := w; sy_reads := []; sy_verdicts := [] |} w' Hop) as (s' & Hrun & <-).
  eapply reachable_ok in Hrun as [? _ _]; [done|done|]. by apply fresh_sys_ok.
Qed.

(** *** Rows live on *)

Lemma tick_row_lives now uttl r : lives r (tick_row now uttl r).
Proof.
  rw /tick_row. destruct (is_stale _ r) eqn:Hs; [|case_bool_decide; [by apply deleted_lives|done]].
  apply failed_lives. rw /is_stale in Hs. by unbool.
Qed.

Lemma op_lives w w' : table_ok (hub_rows w) -> hub_op w w' -> live_table (hub_rows w) (hub_rows w').
Proof.
  intros Ht Hop. pose proof (tok_ids _ Ht) as Hnd.
  destruct Hop as [now id ns name owner req|now ns name v claim|now ns name v req|now ns name v|now uttl].
  - destruct (InitiateOn_rows reg ttl (GetByCoordIncludingDeleted ns name (ir_Version req) (hub_rows w))
      now id ns name owner req w Ht) as (_ & _ & [E|(r & E & _)]); rw /Initiate; simpl in E; rw E; [done|].
    exists (hub_rows w), [r]. split; [done|]. by apply Forall_Forall2_diag, Forall_true.
  - rw /Complete. destruct (loadRow _ _ _ _) as [row|] eqn:El; [|done]. apply loadRow_elem in El as [Hr _].
    destruct (Complete_gate _ _ _) as [h|a] eqn:Hg; [|done].
    assert (Hu : a_Status row = Uploading) by (move: Hg; rw /Complete_gate; by destruct (a_Status row)).
    rw /Complete_verify. destruct (h_VerifyComplete _ _ _ _) as [verdict cs].
    destruct (finish_rows now row verdict (with_calls w cs)) as [(d & _ & ->)|[(m & ->)| ->]]; [..|done];
      apply live_table_upd, Update_lives; auto using ready_lives, failed_lives.
  - rw /Patch. destruct (loadRow _ _ _ _) as [row|] eqn:El; [|done]. apply loadRow_elem in El as [Hr _].
    destruct (patch_rows now row req w) as [-> | ->]; [|done].
    apply live_table_upd, Update_lives; [done..|]. apply display_lives, patch_updates_display.
  - rw /MarkDeleting. destruct (loadRow _ _ _ _) as [row|] eqn:El; [|done]. apply loadRow_elem in El as [Hr _].
    simpl. rw /MarkDeletingOn. destruct (a_Status row) eqn:Es; try done;
      (apply live_table_upd, Update_lives; [done..|]; apply deleting_lives; congruence).
  - destruct (Tick_rows reg now uttl w Hnd) as (fin & _ & ->).
    apply live_table_upd, Forall2_map_r => r _. case_match; [apply tick_row_lives|done].
Qed.

Lemma ops_live w w' :
  registry_ok reg -> table_ok (hub_rows w) -> rtc hub_op w w' ->
  table_ok (hub_rows w') /\ live_table (hub_rows w) (hub_rows w').
Proof.
  intros Hreg Ht. induction 1 as [w|w w1 w' Hop _ IH]; [done|].
  destruct IH as [H1 H2]; [by eapply op_table|]. split; [done|]. etrans; [by apply op_lives|done].
Qed.

(** *** Rows that are being deleted, under every interleaving *)

Definition going (st : art_status) : Prop := st = Deleting \/ st = Deleted.

(** Every call that holds a version of the row read it after its deletion was
    asked for: none is about to complete or to delete it on the strength of an
    earlier read. *)
Definition none_pending (s : sys) (id : string) : Prop :=
  forall row, row ∈ sy_reads s -> a_ID row = id -> going (a_Status row).

(** What may become of such a row: it keeps its digest and is finalized at
    most. *)
Record goes (a b : Artifact) : Prop := {
  go_frozen : frozen a b;
  go_digest : a_Digest b = a_Digest a;
  go_status : a_Status b = a_Status a \/ a_Status b = Deleted }.

#[export] Instance goes_refl : Reflexive goes.
Proof. split; [done|done|by left]. Qed.

#[export] Instance goes_trans : Transitive goes.
Proof.
  intros a b c [F1 D1 S1] [F2 D2 S2]. split; [by etrans|congruence|].
  destruct S2 as [->|]; [done|by right].
Qed.

Lemma goes_going a b : goes a b -> going (a_Status a) -> going (a_Status b).
Proof. intros [_ _ [->| ->]]; [done|by right]. Qed.

Lemma Update_goes now id cols r rows :
  r ∈ rows -> (a_ID r = id -> goes r (art_Updates now cols r)) ->
  exists r', r' ∈ Update now id cols rows /\ goes r r'.
Proof.
  intros Hr Hg. eexists. split; [apply list_elem_of_In, in_map_iff; exists r; rw -list_elem_of_In; done|].
  destruct (String.eqb_spec (a_ID r) id); [auto|done].
Qed.

Lemma step_goes s s' r :
  registry_ok reg -> sys_ok s -> step reg ttl s s' -> r ∈ sys_rows s -> going (a_Status r) ->
  none_pending s (a_ID r) ->
  exists r', r' ∈ sys_rows s' /\ goes r r' /\ none_pending s' (a_ID r').
Proof.
  intros Hreg Hs Hst Hr Hgo Hnp.
  enough (Hrow : exists r', r' ∈ sys_rows s' /\ goes r r').
  { destruct Hrow as (r' & Hr' & Hg). exists r'. split_and!; [done|done|]. rw (fz_id _ _ (go_frozen _ _ Hg)).
    destruct Hst as [s x Hx| | | | | | | |s reads verdicts Hrs _ _]; try exact Hnp; intros row.
    - intros [->|Hin]%elem_of_cons Eid; [|by apply Hnp]. by rw (unique_by a_ID (sys_rows s) x r); [apply Hs|..].
    - intros Hin. by apply Hnp, Hrs. }
  assert (Hbefore : forall row, row ∈ sy_reads s -> ~ going (a_Status row) -> a_ID r <> a_ID row).
  { intros row Hin Hno Eid. apply Hno. by apply Hnp. }
  destruct Hst as [s x Hx|s ex now id ns name owner req|s row claim h Hin Hg
    |s now row verdict Hin|s now row req Hin|s now row Hin|s now cutoff row Hin Hstale|s now row Hin Hd
    |s reads verdicts Hrs Hvs Hrv]; rw /sys_rows /=.
  - by exists r.
  - exists r. split; [|done].
    destruct (InitiateOn_rows reg ttl ex now id ns name owner req (sy_hub s) (sok_table _ Hs)) as (_ & _ & [E|(x & E & _)]);
      simpl in E; rw E; [done|]. apply elem_of_app. by left.
  - exists r. split; [|done]. rw /Complete_verify. by destruct (h_VerifyComplete _ _ _ _).
  - destruct (sok_verdicts _ Hs _ _ Hin) as (Hrd & Hup & _).
    assert (Hne : a_ID r <> a_ID row) by (apply Hbefore; [done|rw Hup; by intros []]).
    destruct (finish_rows now row verdict (sy_hub s)) as [(d & _ & ->)|[(m & ->)| ->]];
      [apply Update_goes; [done|by intros ?]..|by exists r].
  - destruct (patch_rows now row req (sy_hub s)) as [-> | ->]; [|by exists r].
    apply Update_goes; [done|]. intros _.
    destruct (display_same_state now _ r (patch_updates_display req)) as [F S D _ _ _]. split; [done|done|by left].
  - rw /MarkDeletingOn. destruct (a_Status row) eqn:Es; try (by exists r);
      (apply Update_goes; [done|]; intros E; exfalso; revert E; apply Hbefore; [done|rw Es; by intros []]).
  - rw expire_rows. exists r. split; [|done]. apply list_elem_of_In, in_map_iff. exists r. rw -list_elem_of_In.
    split; [|done]. rw bool_decide_false; [by destruct Hgo as [-> | ->]|by rw andb_false_r].
  - destruct (collect_rows reg now (toGCRow row) (sy_hub s)) as [-> | ->]; [|by exists r].
    apply Update_goes; [done|]. intros _. split; [apply art_Updates_frozen|done|by right].
  - by exists r.
Qed.

Lemma run_goes s s' r :
  registry_ok reg -> sys_ok s -> run s s' -> r ∈ sys_rows s -> going (a_Status r) -> none_pending s (a_ID r) ->
  sys_ok s' /\ exists r', r' ∈ sys_rows s' /\ goes r r' /\ none_pending s' (a_ID r').
Proof.
  intros Hreg Hs Hrun. revert r Hs. induction Hrun as [s|s s1 s' Hst _ IH]; intros r Hs Hr Hgo Hnp.
  { split; [done|]. by exists r. }
  destruct (step_goes s s1 r) as (r1 & Hr1 & G1 & N1); [done..|].
  destruct (IH r1) as (Hs' & r' & Hr' & G' & N'); [by eapply step_ok|done|by eapply goes_going|done|].
  split; [done|]. exists r'. split_and!; [done|by etrans|done].
Qed.

(** The collector takes care of the row while its backend works: by an
    iteration of its loop for a version it has read, whatever came between the
    read and the iteration, or by a whole pass. *)
Inductive collects (id : string) (s : sys) : sys -> Prop :=
| collects_row now row :
    row ∈ sy_reads s -> a_ID row = id -> a_Status row = Deleting -> backend_works reg (toGCRow row) ->
    collects id s (with_hub s (finish_delete reg now (sy_hub s) (toGCRow row)))
| collects_pass now uploadingTTL :
    (forall r, r ∈ sys_rows s -> a_ID r = id -> backend_works reg (toGCRow r)) ->
    collects id s (with_hub s (Tick reg now uploadingTTL (sy_hub s)).1).

(** The row an operation left behind is the one row with that id. *)
Lemma live_by_id w w' r r' :
  table_ok (hub_rows w') -> live_table (hub_rows w) (hub_rows w') -> r ∈ hub_rows w -> r' ∈ hub_rows w' ->
  a_ID r' = a_ID r -> lives r r'.
Proof.
  intros Ht Hl Hr Hr' E. destruct (live_table_elem _ _ _ Hl Hr) as (x & Hx & Hlx).
  rw (unique_by a_ID (hub_rows w') r' x) //; [apply Ht|]. by rw (fz_id _ _ (lv_frozen _ _ Hlx)).
Qed.

(** A pass with a working backend finalizes a row that is being deleted. *)
Lemma Tick_deletes now uttl w r :
  table_ok (hub_rows w) -> r ∈ hub_rows w -> a_Status r = Deleting -> backend_works reg (toGCRow r) ->
  delete_row now r ∈ hub_rows (Tick reg now uttl w).1.
Proof.
  intros Ht Hr Hd Hb. destruct (Tick_rows reg now uttl w (tok_ids _ Ht)) as (fin & Hf & ->).
  apply list_elem_of_In, in_map_iff. exists r. rw -list_elem_of_In. split; [|done].
  rw bool_decide_true; [intros _; by apply (fin_works _ _ _ Hf)|].
  rw /tick_row. replace (is_stale (now - uttl) r) with false; [by rw bool_decide_true|].
  by rw /is_stale Hd.
Qed.

(** A row whose backend fails is left for the next pass. *)
Lemma Tick_retries now uttl w r :
  table_ok (hub_rows w) -> r ∈ hub_rows w -> a_Status r = Deleting -> backend_fails reg (toGCRow r) ->
  r ∈ hub_rows (Tick reg now uttl w).1.
Proof.
  intros Ht Hr Hd Hb. destruct (Tick_rows reg now uttl w (tok_ids _ Ht)) as (fin & Hf & ->).
  apply list_elem_of_In, in_map_iff. exists r. rw -list_elem_of_In. split; [|done].
  rw bool_decide_false //. intros Hx. by apply (fin_fails _ _ _ Hf r Hr Hd Hb), Hx.
Qed.

(** A pass leaves what a run leaves. *)
Lemma with_hub_ok s w : registry_ok reg -> sys_ok s -> hub_op (sy_hub s) w -> sys_ok (with_hub s w).
Proof.
  intros Hreg Hs Hop. destruct (op_run s w Hop) as (s' & Hrun & <-).
  destruct (op_lives _ _ (sok_table _ Hs) Hop) as (upd & new & E & HF).
  pose proof (reachable_ok reg ttl _ _ Hreg Hs Hrun) as [Ht _ _]. destruct Hs as [_ Hrd Hv].
  split; [done| |done]. intros r Hr. destruct (Hrd r Hr) as (Hok & cur & Hcur & F). split; [done|].
  destruct (live_table_elem (sys_rows s) (hub_rows (sy_hub s')) cur) as (cur' & Hc' & L'); [by exists upd, new|done|].
  exists cur'. split; [done|]. etrans; [done|apply L'].
Qed.

(** After that the row is final. *)
Lemma collects_deletes s s' r :
  registry_ok reg -> sys_ok s -> r ∈ sys_rows s -> going (a_Status r) -> none_pending s (a_ID r) ->
  collects (a_ID r) s s' ->
  sys_ok s' /\ exists r', r' ∈ sys_rows s' /\ goes r r' /\ a_Status r' = Deleted /\ none_pending s' (a_ID r').
Proof.
  intros Hreg Hs Hr Hgo Hnp [now row Hin Eid Hd Hb|now uttl Hb].
  - split; [by eapply (step_ok reg ttl); [..|eapply st_collect]|]. rw /sys_rows /=.
    destruct (finish_delete_cases reg now (sy_hub s) (toGCRow row)) as [[Hno _]|[_ ->]]; [done|].
    eexists. split; [apply list_elem_of_In, in_map_iff; exists r; rw -list_elem_of_In; done|]. simpl.
    rw Eid String.eqb_refl. split_and!; [split; [apply art_Updates_frozen|done|by right]|done|done].
  - assert (Hop : hub_op (sy_hub s) (Tick reg now uttl (sy_hub s)).1) by constructor.
    split; [by apply with_hub_ok|]. rw /sys_rows /=. pose proof (sok_table _ Hs) as Ht. destruct Hgo as [Hd|Hd].
    + exists (delete_row now r). split_and!; [apply Tick_deletes; auto|split; [apply art_Updates_frozen|done|by right]|done|done].
    + destruct (live_table_elem _ _ r (op_lives _ _ Ht Hop) Hr) as (r' & Hr' & [F S C _]).
      rw Hd in S C. apply art_edge_deleted in S. exists r'. rw (fz_id _ _ F).
      split_and!; [done|split; [done|by apply C|by right]|done|done].
Qed.
End Operations.

(** ** A concrete hub *)

(** A registry that knows one manifest and accepts every deletion, and an
    object store whose objects all read as the same manifest. *)
#[export] Instance sample_storage : Storage := {|
  http_NewRequest := fun _ => None;
  http_Do := fun _ m _ =>
    match m with
    | HEAD => inl {| rs_StatusCode := 200; rs_ContentDigest := "sha256:abc" |}
    | DELETE => inl {| rs_StatusCode := 202; rs_ContentDigest := "" |}
    end;
  mc_GetObject := fun _ _ _ => GetOK "{}";
  mc_RemoveObjects := fun _ _ _ => [];
  sha256_hex := fun _ => "abc" |}.

Definition sample_client : oci_Client :=
  oci_New {| og_Endpoint := "http://zot:5000"; og_Scheme := ""; og_Username := "admin"; og_Password := "pw" |}.

Definition sample_artifact (id kind version : string) (st : art_status) : Artifact :=
  {| a_ID := id; a_Namespace := "team"; a_Kind := kind; a_Name := "llama"; a_Version := version;
     a_Visibility := "tenant"; a_DisplayName := ""; a_Description := ""; a_Labels := JVal ∅;
     a_Annotations := JVal ∅; a_OwnerUser := "ada"; a_Spec := JVal ∅; a_Status := st;
     a_Source := "webUpload"; a_Message := "";
     a_Digest := match st with Uploading | Failed => "" | _ => "sha256:abc" end;
     a_ReadyAt := match st with Uploading | Failed => None | _ => Some 5%Z end;
     a_CreatedAt := 1; a_UpdatedAt := 1;
     a_DeletedAt := match st with Deleted => Some 9%Z | _ => None end |}.

(** A model being deleted, a Ready one with the same content, an upload of a
    model and one of a dataset. *)
Definition sample_hub : hub :=
  {| hub_rows := [sample_artifact "1" "model" "v1" Deleting; sample_artifact "2" "model" "v2" Ready;
                  sample_artifact "3" "model" "v3" Uploading; sample_artifact "4" "dataset" "v4" Uploading];
     hub_calls := [] |}.

Lemma sample_table_ok : table_ok (hub_rows sample_hub).
Proof.
  split; [apply (bool_decide_unpack _); vm_compute; done..|].
  repeat constructor; try done; by left.
Qed.

Definition sample_request : InitiateRequest :=
  {| ir_Kind := "model"; ir_Version := "v9";
     ir_Spec := {[ "framework" := AnyString "pytorch"; "format" := AnyString "safetensors" ]};
     ir_Source := ""; ir_SourceURI := ""; ir_Visibility := ""; ir_DisplayName := "Llama";
     ir_Description := ""; ir_Labels := ∅; ir_Annotations := ∅ |}.
