(* ===== verification/ArtifactHubProperties.v ===== *)
(** * Artifact hub: theorems

    Well-formed tables under every interleaving, coordinates that never
    recycle, the lifecycle, the two-phase upload, what a failed verification
    does, deletion as liveness, what the garbage collector asks the backends
    to remove, and three places where it removes or keeps too much. *)

From Stdlib Require Import ssreflect ZArith Lia Ascii String.
From stdpp Require Import base gmap list strings relations.
From S2P Require Import Prelude ApiTypes Names HubTypes HubBackend Listing AdmissionUsage ArtifactHub ArtifactHubFacts ArtifactHubLifecycle.

Import ArtRepository.

Section Properties.
Context `{Storage} (client : oci_Client) (s3c : option string) (bucket : string) (ttl : Z).

(** The three handlers, as the module registers them at start-up. *)
Definition hub_registry : registry :=
  <["dataset" := NewDatasetHandler bucket s3c]>
    (<["image" := NewImageHandler client]> (<["model" := NewModelHandler client]> ∅)).

Lemma registerHandlers_registry : registerHandlers client s3c bucket ∅ = Some hub_registry.
Proof. done. Qed.

Notation reg := hub_registry.

Lemma hub_registry_ok : registry_ok reg.
Proof.
  intros kind h. rw /hub_registry. intros [[<- <-]|[_ [[<- <-]|[_ [[<- <-]|[_ Hx]]%lookup_insert_Some]]%lookup_insert_Some]]%lookup_insert_Some;
    [split; [apply _|done]..|]. by rw lookup_empty in Hx.
Qed.

Lemma GetByCoord_unique rows r :
  table_ok rows -> r ∈ rows ->
  GetByCoordIncludingDeleted (a_Namespace r) (a_Name r) (a_Version r) rows = inl r.
Proof.
  intros Ht Hr. rw /GetByCoordIncludingDeleted. destruct (List.find _ _) as [r'|] eqn:E.
  - apply find_elem in E as [Hr' Hc%coord_is_spec]. f_equal.
    by eapply (unique_by coord); [apply Ht|..].
  - apply list_elem_of_In in Hr. pose proof (find_none _ _ E r Hr) as Hc.
    by rw (proj2 (coord_is_spec _ _ _ _) (eq_refl (coord r))) in Hc.
Qed.

Lemma loadRow_unique w r :
  table_ok (hub_rows w) -> r ∈ hub_rows w -> loadRow (a_Namespace r) (a_Name r) (a_Version r) w = inl r.
Proof. intros Ht Hr. rw /loadRow. by rw GetByCoord_unique. Qed.

(** C4: the table under every interleaving.  Whatever API calls and collector
    passes overlap, in every state the hub can reach ids and (namespace, name,
    version) are unique over all rows, versions are tag-safe, public rows are
    in the default namespace, an upload has no digest, a Ready row has a
    digest and a ready time, a Deleted row has a deletion time, and an
    external row is never an upload nor Failed.  The last clause is what the
    code does and not what the design says (artifact-hub.md, 5.1: an external
    version is pulled asynchronously, becomes Ready after a HEAD and Failed
    otherwise): [Initiate] inserts it as Ready at once, with the remote URI as
    its digest, and nothing in the repository pulls or verifies it;
    [external_ready_at_once] is such a row. *)
Theorem hub_table_well_formed s : rtc (step reg ttl) empty_sys s -> table_ok (sys_rows s).
Proof.
  intros Hrun. eapply reachable_ok in Hrun as [Ht _ _]; [done|apply hub_registry_ok|apply empty_sys_ok].
Qed.

(** A coordinate never recycles.  A row of a reachable state is still
    there after any further interleaving, with the same id, kind, visibility,
    owner, spec, source and creation time; from then on [Initiate] for its
    coordinate is refused with an error and changes nothing, also after the
    row was deleted. *)
Theorem coordinate_never_recycles s s' r :
  rtc (step reg ttl) empty_sys s -> rtc (step reg ttl) s s' -> r ∈ sys_rows s ->
  exists r', r' ∈ sys_rows s' /\ frozen r r' /\
    forall now id owner req, ir_Version req = a_Version r ->
      exists err, Initiate reg ttl now id (a_Namespace r) (a_Name r) owner req (sy_hub s') = (inr err, sy_hub s').
Proof.
  intros H1 H2 Hr. assert (Hs : sys_ok s) by (eapply reachable_ok; [apply hub_registry_ok|apply empty_sys_ok|done]).
  clear H1. revert r Hr. induction H2 as [s|s s1 s' Hst Hrest IH]; intros r Hr.
  - exists r. split_and!; [done|done|]. intros now id owner req Ev.
    rw /Initiate Ev GetByCoord_unique //; [apply Hs|]. rw /InitiateOn.
    destruct (Initiate_validate _ _ _) as [[h vis]|e]; by eexists.
  - destruct (grows_elem _ _ r (step_grows _ _ _ _ Hs Hst) Hr) as (r1 & Hr1 & F1).
    destruct (IH (step_ok _ _ _ _ hub_registry_ok Hs Hst) r1 Hr1) as (r' & Hr' & F2 & Hn).
    exists r'. split_and!; [done|by etrans|]. intros now id owner req Ev.
    rw -(fz_namespace _ _ F1) -(fz_name _ _ F1). apply Hn. by rw (fz_version _ _ F1).
Qed.

(** The lifecycle.  Over any sequence of complete operations (Initiate,
    Complete, Patch, Delete, collector passes) a row only moves along
    Uploading to Ready or Failed, any of these to Deleting, and Deleting to
    Deleted; its digest and ready time never change once it has left
    Uploading, its deletion time never changes once it is Deleted, and its
    identity, kind, spec and visibility never change. *)
Theorem artifact_lifecycle w w' r r' :
  table_ok (hub_rows w) -> rtc (hub_op reg ttl) w w' ->
  r ∈ hub_rows w -> r' ∈ hub_rows w' -> a_ID r' = a_ID r -> lives r r'.
Proof.
  intros Ht Hops Hr Hr' E. destruct (ops_live reg ttl w w' hub_registry_ok Ht Hops) as [Ht' Hl].
  by eapply live_by_id.
Qed.

(** A fresh upload can be loaded again. *)
Lemma Initiate_loads now id ns name owner req w resp w1 :
  table_ok (hub_rows w) -> ir_Source req <> SourceExternal ->
  Initiate reg ttl now id ns name owner req w = (inl resp, w1) ->
  table_ok (hub_rows w1) /\ hub_calls w1 = hub_calls w /\
  exists row, row ∈ hub_rows w1 /\ a_Status row = Uploading /\ a_Kind row = ir_Kind req /\
    coord row = (ns, name, ir_Version req).
Proof.
  intros Ht Hsrc. rw /Initiate.
  pose proof (InitiateOn_rows reg ttl (GetByCoordIncludingDeleted ns name (ir_Version req) (hub_rows w))
    now id ns name owner req w Ht) as (H1 & H2 & _). move: H1 H2. rw /InitiateOn.
  destruct (Initiate_validate _ _ _) as [[h vis]|]; [|done].
  destruct (GetByCoordIncludingDeleted _ _ _ _); [done|]. destruct (HIsNotFound _); [|done]. cbn [negb].
  set (src := if String.eqb (ir_Source req) "" then _ else _).
  assert (Hx : String.eqb src SourceExternal = false).
  { apply String.eqb_neq. rw /src. by destruct (String.eqb _ _). }
  rw Hx. cbn [andb]. destruct (Create _ _ _) as [[row rows]|] eqn:Hc; [|done].
  destruct (h_InitiateUpload _ _ _ _); [|done]. cbn [snd]. intros H1 H2 [= _ <-]. split_and!; [done|done|].
  exists row. move: Hc. rw /Create. destruct (existsb _ _); [done|]. intros [= <- <-].
  split_and!; simpl; [apply elem_of_app; right; by left|by rw Hx|done|done].
Qed.

(** C39: the two-phase write.  After a successful Initiate of an upload, when
    the kind's handler confirms digest [d] for the claim, Complete answers with
    the row Ready under [d]; Resolve then returns the handler's pull URI for
    [d] (for OCI kinds pinned by it) and [d]; and a repeated Complete changes
    nothing: it repeats the answer for [d] and is a conflict for any other
    digest. *)
Theorem two_phase_upload w now0 id ns name owner req resp w1 h d calls now claim :
  table_ok (hub_rows w) -> ir_Source req <> SourceExternal ->
  Initiate reg ttl now0 id ns name owner req w = (inl resp, w1) ->
  Get reg (ir_Kind req) = Some h ->
  h_VerifyComplete h (hArt_of (ir_Kind req) ns name (ir_Version req) ∅ "") claim (hub_calls w1) = (inl d, calls) ->
  exists row w2, Complete reg now ns name (ir_Version req) claim w1 = (inl row, w2) /\
    a_Status row = Ready /\ a_Digest row = d /\ a_ReadyAt row = Some now /\
    Resolve reg ttl now ns name (ir_Version req) "" w2 =
      inl {| rr_StorageKind := h_StorageKind h; rr_URI := h_BuildPullURI h ns name (ir_Version req) d;
             rr_Digest := d; rr_Visibility := a_Visibility row; rr_PullCredentials := None |} /\
    forall now' claim', exists answer,
      Complete reg now' ns name (ir_Version req) claim' w2 = (answer, w2) /\
      (claim' = d -> answer = inl row) /\
      (claim' <> d -> exists msg, answer = inr (HNew HubConflict msg)).
Proof.
  intros Ht Hsrc HI Hh Hv. destruct (Initiate_loads _ _ _ _ _ _ _ _ _ Ht Hsrc HI)
    as (Ht1 & _ & row0 & Hr0 & Hst & Hk & Hc). injection Hc as En Em Ev.
  pose proof (loadRow_unique w1 row0 Ht1 Hr0) as HL. rw En Em Ev in HL.
  set (cols := [AStatus Ready; ADigest d; AReadyAt now; AMessage ""]).
  set (row := art_Updates now cols row0). set (w2 := with_rows (with_calls w1 calls)
    (Update now (a_ID row0) cols (hub_rows w1))).
  assert (HC : Complete reg now ns name (ir_Version req) claim w1 = (inl row, w2)).
  { rw /Complete HL /Complete_gate Hst Hk Hh /Complete_verify Hk En Em Ev Hv. done. }
  assert (Ht2 : table_ok (hub_rows w2)).
  { eapply (op_table reg ttl w1); [apply hub_registry_ok|done|].
    replace w2 with (Complete reg now ns name (ir_Version req) claim w1).2; [constructor|by rw HC]. }
  assert (Hr2 : row ∈ hub_rows w2).
  { apply list_elem_of_In, in_map_iff. exists row0. rw String.eqb_refl -list_elem_of_In. done. }
  pose proof (loadRow_unique w2 row Ht2 Hr2) as HL2. simpl in HL2. rw En Em Ev in HL2.
  exists row, w2. split_and!; [done..| |].
  - rw /Resolve HL2. simpl. by rw Hk Hh.
  - intros now' claim'. rw /Complete HL2. eexists. split; [done|]. simpl.
    destruct (String.eqb_spec d claim') as [->|Hne]; split; try done; by eauto.
Qed.

(** The answers a registry can give to the HEAD of an upload. *)
Inductive head_answer := HeadTransportError (e : string) | HeadStatus (code : Z) | HeadMissing | HeadDigest (d : string).

Definition head_of (row : Artifact) (path : string) (calls : list backend_call) : head_answer :=
  let url := manifest_url client path (a_Version row) in
  match http_NewRequest url with
  | Some e => HeadTransportError e
  | None =>
      match http_Do calls HEAD url with
      | inr e => HeadTransportError e
      | inl resp =>
          if (rs_StatusCode resp =? 404)%Z then HeadMissing
          else if (rs_StatusCode resp =? 200)%Z && negb (String.eqb (rs_ContentDigest resp) "")
          then HeadDigest (rs_ContentDigest resp)
          else HeadStatus (rs_StatusCode resp)
      end
  end.

(** Completing an upload that cannot be verified.  For a model upload,
    Complete with a non-empty claim: when the registry cannot be reached or
    answers neither with a digest nor with 404, the table is left exactly as
    it was and the error is service_unavailable, so the client can try again;
    when the manifest is missing, or has another digest, the row becomes
    Failed with the error's message (precondition_failed, conflict) and no
    other row changes; only the claimed digest makes it Ready. *)
Theorem complete_outcomes now claim w row :
  table_ok (hub_rows w) -> row ∈ hub_rows w -> a_Status row = Uploading -> a_Kind row = "model" -> claim <> "" ->
  let path := ("namespaces/" ++ a_Namespace row ++ "/models/" ++ a_Name row)%string in
  let '(answer, w') := Complete reg now (a_Namespace row) (a_Name row) (a_Version row) claim w in
  match head_of row path (hub_calls w) with
  | HeadTransportError _ | HeadStatus _ =>
      hub_rows w' = hub_rows w /\ exists cause, answer = inr (HWrap HubUnavailable "head manifest" cause)
  | HeadMissing =>
      exists msg, answer = inr (HNew HubPrecondition msg) /\
        hub_rows w' = Update now (a_ID row) [AStatus Failed; AMessage msg] (hub_rows w)
  | HeadDigest d =>
      if decide (d = claim)
      then hub_rows w' = Update now (a_ID row) [AStatus Ready; ADigest d; AReadyAt now; AMessage ""] (hub_rows w) /\
           exists row', answer = inl row' /\ a_Status row' = Ready
      else exists msg, answer = inr (HNew HubConflict msg) /\
           hub_rows w' = Update now (a_ID row) [AStatus Failed; AMessage msg] (hub_rows w)
  end.
Proof.
  intros Ht Hr Hst Hk Hc path. rw /Complete (loadRow_unique w row) // /Complete_gate Hst Hk.
  change (Get reg "model") with (Some (NewModelHandler client)). cbv iota.
  rw /Complete_verify Hk. cbn [h_VerifyComplete NewModelHandler ociBacked_handler].
  rw /oci_VerifyComplete. cbn [ha_Namespace ha_Name ha_Version hArt_of ob_oci].
  change (repoPath _ (a_Namespace row) (a_Name row)) with path.
  rw /HeadManifest /head_of. set (url := manifest_url client path (a_Version row)).
  destruct (http_NewRequest url) as [e|]; [split; [done|by eexists]|].
  destruct (http_Do (hub_calls w) HEAD url) as [resp|e]; [|split; [done|by eexists]].
  destruct (Z.eqb_spec (rs_StatusCode resp) 200) as [E2|E2]; simpl.
  - rw E2. simpl. destruct (String.eqb_spec (rs_ContentDigest resp) "") as [Ed|Ed]; simpl; [split; [done|by eexists]|].
    apply String.eqb_neq in Hc. rw Hc. destruct (String.eqb_spec (rs_ContentDigest resp) claim) as [E|E]; simpl.
    + rw decide_True //. split; [done|]. by eexists.
    + rw decide_False //. by eexists.
  - destruct (Z.eqb_spec (rs_StatusCode resp) 404) as [E4|E4]; simpl; [by eexists|split; [done|by eexists]].
Qed.

(** PATCH.  Whatever the body, a patch leaves every row's identity, kind,
    spec, visibility, source, status, digest, message and times of creation,
    readiness and deletion alone; a body with any other key than the four
    display fields is refused as a validation error; and an error never
    changes the table. *)
Theorem patch_display_only now ns name version keys raw w :
  table_ok (hub_rows w) -> (forall k, k ∈ keys <-> is_Some (raw !! k)) ->
  let '(answer, w') := handler_Patch now ns name version keys raw w in
  Forall2 same_state (hub_rows w) (hub_rows w') /\
  ((exists k, is_Some (raw !! k) /\ k ∉ patchAllowedFields) -> exists msg, answer = inr (HNew HubValidation msg)) /\
  ((exists err, answer = inr err) -> w' = w).
Proof.
  intros Ht Hkeys. assert (Hsame : Forall2 same_state (hub_rows w) (hub_rows w)).
  { apply Forall_Forall2_diag, Forall_true. by split. }
  rw /handler_Patch. destruct (List.find _ keys) as [k|] eqn:Ef; [split_and!; eauto|].
  assert (Hall : (exists k, is_Some (raw !! k) /\ k ∉ patchAllowedFields) -> False).
  { intros (k & Hk%Hkeys & Hn). apply list_elem_of_In in Hk. pose proof (find_none _ _ Ef k Hk) as Hx.
    cbv beta in Hx. unbool. done. }
  destruct (decode_patch raw) as [req|e]; [|by split_and!].
  rw /Patch. destruct (loadRow _ _ _ _) as [row|e] eqn:El; [|by split_and!].
  apply loadRow_elem in El as [Hr _]. rw /PatchOn.
  assert (Hw : let w' := with_rows w (Update now (a_ID row) (patch_updates req) (hub_rows w)) in
    Forall2 same_state (hub_rows w) (hub_rows w') /\
    exists row', loadRow (a_Namespace row) (a_Name row) (a_Version row) w' = inl row').
  { set (row' := art_Updates now (patch_updates req) row).
    pose proof (display_same_state now _ row (patch_updates_display req)) as [F _ _ _ _ _]. split.
    - apply Forall2_map_r => r _. case_match; [apply display_same_state, patch_updates_display|by split].
    - exists row'. rw -(fz_namespace _ _ F) -(fz_name _ _ F) -(fz_version _ _ F). apply loadRow_unique.
      + apply Update_table; [done|]. intros r _ _. apply same_state_ok, display_same_state, patch_updates_display.
      + apply list_elem_of_In, in_map_iff. exists row. rw String.eqb_refl -list_elem_of_In. done. }
  destruct Hw as (HF & row' & EL).
  destruct (a_Status row); try (by split_and!); destruct (patch_updates req) as [|c cols] eqn:Ec;
    (try (by split_and!; [..|intros [? ?]])); rw EL; split_and!; try done; by intros [? ?].
Qed.

(** ** Garbage collection *)

(** The removal a row of the table may lead to. *)
Definition gc_request (g : GCRow) (c : backend_call) : Prop :=
  (exists sub, (g_Kind g, sub) ∈ [("model", "models"); ("image", "images")] /\ g_Digest g <> "" /\
     c = CHttp DELETE (manifest_url client
           ("namespaces/" ++ g_Namespace g ++ "/" ++ sub ++ "/" ++ g_Name g)%string (g_Digest g))) \/
  g_Kind g = "dataset" /\ (exists b, s3c = Some b) /\
  exists b, c = CRemoveObjects b (dataset_prefix (g_Namespace g) (g_Name g) (g_Version g)).

Lemma oci_GC_calls h g calls c new :
  (oci_GCBackend h (gcArtifact g) calls).2 = calls ++ new -> c ∈ new ->
  g_Digest g <> "" /\
  c = CHttp DELETE (manifest_url (ob_oci h) (repoPath h (g_Namespace g) (g_Name g)) (g_Digest g)).
Proof.
  rw /oci_GCBackend /DeleteManifest. simpl. destruct (String.eqb_spec (g_Digest g) "") as [|Hd].
  { simpl. rw -{1}(app_nil_r calls). by intros <-%app_inv_head ?%elem_of_nil. }
  set (url := manifest_url _ _ _). destruct (http_NewRequest url).
  { simpl. rw -{1}(app_nil_r calls). by intros <-%app_inv_head ?%elem_of_nil. }
  destruct (http_Do _ _ _); simpl; intros <-%app_inv_head ->%list_elem_of_singleton; done.
Qed.

Lemma run_GCBackend_calls g w :
  exists new, hub_calls (run_GCBackend reg g w).2 = hub_calls w ++ new /\ forall c, c ∈ new -> gc_request g c.
Proof.
  rw /run_GCBackend. destruct (Get reg (g_Kind g)) as [h|] eqn:Hh.
  2: { exists []. rw app_nil_r. split; [done|]. by intros ? ?%elem_of_nil. }
  destruct (hub_registry_ok _ _ Hh) as [Hok _].
  destruct (hok_gc_calls (gcArtifact g) (hub_calls w)) as (new & E). exists new.
  destruct (h_GCBackend h (gcArtifact g) (hub_calls w)) as [err calls] eqn:Eg. simpl in E |- *. split; [done|].
  intros c Hc. rw /Get /hub_registry in Hh. rw /gc_request.
  apply lookup_insert_Some in Hh as [[Hk <-]|[_ [[Hk <-]|[_ [[Hk <-]|[_ Hx]]%lookup_insert_Some]]%lookup_insert_Some]].
  - right. split; [done|]. simpl in Eg. rw /dataset_GCBackend in Eg. destruct s3c as [b|].
    + split; [by eexists|]. exists b. rw /DeletePrefix in Eg. injection Eg as _ <-.
      apply app_inv_head in E as <-. by apply list_elem_of_singleton in Hc as ->.
    + injection Eg as _ <-. rw -{1}(app_nil_r (hub_calls w)) in E. apply app_inv_head in E as <-.
      by apply elem_of_nil in Hc.
  - left. exists "images". rw -Hk. split; [set_solver|].
    eapply (oci_GC_calls {| ob_oci := client; ob_kind := "image"; ob_subpath := "images" |} g (hub_calls w)); [|done].
    rw -E. by apply (f_equal snd) in Eg.
  - left. exists "models". rw -Hk. split; [set_solver|].
    eapply (oci_GC_calls {| ob_oci := client; ob_kind := "model"; ob_subpath := "models" |} g (hub_calls w)); [|done].
    rw -E. by apply (f_equal snd) in Eg.
  - by rw lookup_empty in Hx.
Qed.

Lemma hub_loop_calls (f : hub -> GCRow -> hub) L w :
  (forall w g, exists new, hub_calls (f w g) = hub_calls w ++ new /\ forall c, c ∈ new -> gc_request g c) ->
  exists new, hub_calls (foldl f w L) = hub_calls w ++ new /\
    forall c, c ∈ new -> exists g, g ∈ L /\ gc_request g c.
Proof.
  intros Hf. revert w. induction L as [|g L IH]; intros w; simpl.
  { exists []. rw app_nil_r. split; [done|by intros ? ?%elem_of_nil]. }
  destruct (Hf w g) as (n1 & E1 & H1). destruct (IH (f w g)) as (n2 & E2 & H2).
  exists (n1 ++ n2). rw E2 E1 app_assoc. split; [done|].
  intros c [Hc|Hc]%elem_of_app; [exists g; split; [by left|auto]|].
  destruct (H2 c Hc) as (g' & ? & ?). exists g'. split; [by right|done].
Qed.

Lemma expire_calls now w g :
  exists new, hub_calls (expire_upload reg now w g) = hub_calls w ++ new /\ forall c, c ∈ new -> gc_request g c.
Proof.
  rw /expire_upload. destruct (UpdateIfStatus _ _ _ _ _) as [rows []]; simpl.
  - apply (run_GCBackend_calls g (with_rows w rows)).
  - exists []. rw app_nil_r. split; [done|by intros ? ?%elem_of_nil].
Qed.

Lemma collect_calls now w g :
  exists new, hub_calls (finish_delete reg now w g) = hub_calls w ++ new /\ forall c, c ∈ new -> gc_request g c.
Proof.
  rw /finish_delete. destruct (run_GCBackend_calls g w) as (new & E & Hn).
  exists new. by destruct (run_GCBackend _ _ _) as [[err|] w'].
Qed.

(** What a collector pass removes.  Every request of a pass belongs to a
    row of the table: the deletion of its manifest for a model or image that
    is being deleted (never for an upload that timed out, which has no
    digest), or the removal of its prefix for a dataset that is being deleted
    or timed out.  When names hold no slash, the objects of no other row lie
    under that prefix. *)
Theorem collector_requests now uttl w :
  table_ok (hub_rows w) ->
  (forall r, r ∈ hub_rows w -> forallb no_slash [a_Namespace r; a_Name r; a_Version r] = true) ->
  exists new, hub_calls (Tick reg now uttl w).1 = hub_calls w ++ new /\
  forall c, c ∈ new -> exists r, r ∈ hub_rows w /\
    (a_Status r = Deleting /\ a_Kind r <> "dataset" /\
     (exists path, c = CHttp DELETE (manifest_url client path (a_Digest r)) /\
        exists sub, path = ("namespaces/" ++ a_Namespace r ++ "/" ++ sub ++ "/" ++ a_Name r)%string) \/
     (a_Status r = Deleting \/ is_stale (now - uttl) r = true) /\ a_Kind r = "dataset" /\
     exists b, c = CRemoveObjects b (dataset_prefix (a_Namespace r) (a_Name r) (a_Version r)) /\
       forall r' x y, r' ∈ hub_rows w -> a_ID r' <> a_ID r ->
         (dataset_prefix (a_Namespace r') (a_Name r') (a_Version r') ++ x <>
          dataset_prefix (a_Namespace r) (a_Name r) (a_Version r) ++ y)%string).
Proof.
  intros Ht Hslash. rw /Tick. simpl. set (w1 := processStaleUploading reg now uttl w).
  destruct (hub_loop_calls (expire_upload reg now) (FindStaleUploading (now - uttl) (hub_rows w)) w)
    as (n1 & E1 & H1); [apply expire_calls|].
  destruct (hub_loop_calls (finish_delete reg now) (FindDeleting (hub_rows w1)) w1)
    as (n2 & E2 & H2); [apply collect_calls|].
  exists (n1 ++ n2). split.
  { rw /processDeleting E2 /w1 /processStaleUploading E1. by rw app_assoc. }
  assert (Hpre : forall r r' x y, r ∈ hub_rows w -> r' ∈ hub_rows w -> a_ID r' <> a_ID r ->
    (dataset_prefix (a_Namespace r') (a_Name r') (a_Version r') ++ x <>
     dataset_prefix (a_Namespace r) (a_Name r) (a_Version r) ++ y)%string).
  { intros r r' x y Hr Hr' Hne Eq. apply dataset_prefix_isolated in Eq as (Ea & Eb & Ec).
    - apply Hne. f_equal. eapply (unique_by coord); [apply Ht|done..|]. rw /coord. congruence.
    - change (forallb no_slash ([a_Namespace r'; a_Name r'; a_Version r'] ++
        [a_Namespace r; a_Name r; a_Version r]) = true).
      by rw forallb_app (Hslash r' Hr') (Hslash r Hr). }
  intros c [Hc|Hc]%elem_of_app.
  - destruct (H1 c Hc) as (g & (r & <- & [Hr Hs]%filter_In)%list_elem_of_In%in_map_iff & Hg).
    rw -list_elem_of_In in Hr. exists r. split; [done|].
    destruct Hg as [(sub & _ & Hd & _)|(Hk & _ & b & ->)].
    + pose proof (proj1 (Forall_forall _ _) (tok_rows _ Ht) r Hr) as Hok. rw /is_stale in Hs. unbool.
      by destruct (ok_uploading _ Hok) as [? _].
    + right. split_and!; [by right|done|]. exists b. split; [done|]. intros. by apply Hpre.
  - destruct (H2 c Hc) as (g & (r1 & <- & [Hr1 Hs]%filter_In)%list_elem_of_In%in_map_iff & Hg). unbool.
    rw /w1 processStaleUploading_rows in Hr1; [apply Ht|]. apply in_map_iff in Hr1 as (r & E & Hr).
    rw -list_elem_of_In in Hr. assert (r1 = r) as ->.
    { destruct (is_stale _ r); [|done]. by rw -E in Hs. }
    exists r. split; [done|]. destruct Hg as [(sub & Hk & Hd & ->)|(Hk & _ & b & ->)].
    + left. split_and!; [done| |eexists; split; [done|by exists sub]].
      simpl in Hk. intros E'. rw E' in Hk. set_solver.
    + right. split_and!; [by left|done|]. exists b. split; [done|]. intros. by apply Hpre.
Qed.

(** C9: deletions complete.  Take a reachable state in which a row is being
    deleted and every call in flight that holds the row read it after the
    deletion was asked for, so that no Complete or Delete is about to write on
    the strength of an earlier read.  However the calls and the collector
    interleave from then on, the row stays Deleting or Deleted with its
    identity and digest; once the collector handles it while its backend works
    (an iteration of the loop, or a whole pass) it is Deleted with a deletion
    time, and it stays so under every interleaving after that.  Without the
    condition on the calls in flight it would not: [completion_undoes_deletion]
    below. *)
Theorem deletion_completes s r s1 :
  rtc (step reg ttl) empty_sys s -> r ∈ sys_rows s -> a_Status r = Deleting -> none_pending s (a_ID r) ->
  rtc (step reg ttl) s s1 ->
  (exists r1, r1 ∈ sys_rows s1 /\ frozen r r1 /\ a_Digest r1 = a_Digest r /\ going (a_Status r1)) /\
  forall s2 s3, collects reg (a_ID r) s1 s2 -> rtc (step reg ttl) s2 s3 ->
  exists r3, r3 ∈ sys_rows s3 /\ frozen r r3 /\ a_Digest r3 = a_Digest r /\
    a_Status r3 = Deleted /\ a_DeletedAt r3 <> None.
Proof.
  intros H0 Hr Hd Hnp H1. pose proof (hub_registry_ok) as Hreg.
  eapply reachable_ok in H0 as Hs; [|done|apply empty_sys_ok].
  destruct (run_goes reg ttl s s1 r) as (Hs1 & r1 & Hr1 & G1 & N1); [done..|by left|done|].
  assert (Hgo : going (a_Status r1)) by (eapply goes_going; [done|by left]).
  split; [exists r1; split_and!; [done|apply G1|apply G1|done]|]. intros s2 s3 Hc H3.
  rw -(fz_id _ _ (go_frozen _ _ G1)) in Hc.
  destruct (collects_deletes reg ttl s1 s2 r1) as (Hs2 & r2 & Hr2 & G2 & E2 & N2); [done..|].
  destruct (run_goes reg ttl s2 s3 r2) as (Hs3 & r3 & Hr3 & G3 & _); [done..|by right|done|].
  assert (E3 : a_Status r3 = Deleted) by (destruct (go_status _ _ G3); congruence).
  assert (G : goes r r3) by (etrans; [exact G1|]; by etrans).
  pose proof (proj1 (Forall_forall _ _) (tok_rows _ (sok_table _ Hs3)) r3 Hr3) as Hok.
  exists r3. split_and!; [done|apply G|apply G|done|by apply ok_deleted].
Qed.
End Properties.

(** ** Witnesses *)

Definition sample_reg : registry := hub_registry sample_client (Some "bucket") "bucket".

Definition sample_sys : sys :=
  with_hub empty_sys (InitiateOn sample_reg 3600 (inr HRecordNotFound) 7 "9" "team" "llama" "ada" sample_request
    (sy_hub empty_sys)).2.

Lemma hub_table_well_formed_witness : table_ok (sys_rows sample_sys) /\ length (sys_rows sample_sys) = 1%nat.
Proof.
  split; [|vm_compute; reflexivity].
  apply (hub_table_well_formed sample_client (Some "bucket") "bucket" 3600). apply rtc_once, st_initiate.
Defined.

(** An external version is Ready under its remote URI as soon as it is
    registered; no request was sent to any backend. *)
Example external_ready_at_once :
  let w := (Initiate sample_reg 3600 7 "9" "team" "llama" "ada"
    {| ir_Kind := "model"; ir_Version := "v9"; ir_Spec := ir_Spec sample_request; ir_Source := SourceExternal;
       ir_SourceURI := "s3://gone/llama"; ir_Visibility := ""; ir_DisplayName := ""; ir_Description := "";
       ir_Labels := ∅; ir_Annotations := ∅ |} {| hub_rows := []; hub_calls := [] |}).2 in
  map (fun r => (a_Status r, a_Digest r)) (hub_rows w) = [(Ready, "s3://gone/llama")] /\ hub_calls w = [].
Proof. split; vm_compute; reflexivity. Qed.

Lemma coordinate_never_recycles_witness :
  exists r', r' ∈ sys_rows sample_sys /\ frozen (default (sample_artifact "" "" "" Ready) (head (sys_rows sample_sys))) r'.
Proof.
  destruct (coordinate_never_recycles sample_client (Some "bucket") "bucket" 3600 sample_sys sample_sys
    (default (sample_artifact "" "" "" Ready) (head (sys_rows sample_sys)))) as (r' & Hr' & F & _).
  - apply rtc_once, st_initiate.
  - apply rtc_refl.
  - vm_compute. left.
  - exists r'. by split.
Defined.

Lemma artifact_lifecycle_witness :
  lives (sample_artifact "1" "model" "v1" Deleting) (delete_row 50 (sample_artifact "1" "model" "v1" Deleting)).
Proof.
  apply (artifact_lifecycle sample_client (Some "bucket") "bucket" 3600 sample_hub
    (Tick sample_reg 50 1000 sample_hub).1).
  - apply sample_table_ok.
  - apply rtc_once, op_tick.
  - left.
  - vm_compute. left.
  - reflexivity.
Defined.

Lemma two_phase_upload_witness :
  exists row w2, Complete sample_reg 8 "team" "llama" "v9" "sha256:abc"
      (Initiate sample_reg 3600 7 "9" "team" "llama" "ada" sample_request sample_hub).2 = (inl row, w2) /\
    a_Status row = Ready.
Proof.
  edestruct (two_phase_upload sample_client (Some "bucket") "bucket" 3600 sample_hub 7 "9" "team" "llama" "ada"
    sample_request) with (claim := "sha256:abc") (now := 8%Z) as (row & w2 & E & Es & _).
  - apply sample_table_ok.
  - vm_compute. congruence.
  - vm_compute. reflexivity.
  - reflexivity.
  - vm_compute. reflexivity.
  - exists row, w2. split; [|exact Es]. exact E.
Defined.

Lemma complete_outcomes_witness :
  exists msg, (Complete sample_reg 8 "team" "llama" "v3" "sha256:other" sample_hub).1 = inr (HNew HubConflict msg).
Proof.
  pose proof (complete_outcomes sample_client (Some "bucket") "bucket" 8 "sha256:other" sample_hub
    (sample_artifact "3" "model" "v3" Uploading) sample_table_ok) as Hc.
  cbv zeta in Hc.
  assert (Hin : sample_artifact "3" "model" "v3" Uploading ∈ hub_rows sample_hub) by (right; right; left).
  specialize (Hc Hin eq_refl eq_refl ltac:(congruence)).
  destruct (Complete _ _ _ _ _ _ _) as [answer w'] eqn:E. vm_compute in Hc. destruct Hc as (msg & -> & _).
  exists msg. reflexivity.
Defined.

Lemma collector_requests_witness :
  exists new, hub_calls (Tick sample_reg 5000 1000 sample_hub).1 = [] ++ new /\ length new = 2%nat.
Proof.
  destruct (collector_requests sample_client (Some "bucket") "bucket" 5000 1000 sample_hub) as (new & E & _).
  - apply sample_table_ok.
  - intros r Hr. unfold sample_hub in Hr. simpl in Hr.
    repeat (apply elem_of_cons in Hr as [->|Hr]; [reflexivity|]). by apply elem_of_nil in Hr.
  - exists new. split; [exact E|]. apply (f_equal (@length _)) in E. revert E. vm_compute. congruence.
Defined.

(** An upload that is deleted while no other call is in flight. *)
Definition deleting_sys : sys :=
  {| sy_hub := (MarkDeleting 8 "team" "llama" (ir_Version sample_request) (sy_hub sample_sys)).2;
     sy_reads := []; sy_verdicts := [] |}.

Definition deleting_row : Artifact := default (sample_artifact "" "" "" Ready) (head (sys_rows deleting_sys)).

Lemma deleting_sys_reachable : rtc (step sample_reg 3600) empty_sys deleting_sys.
Proof.
  eapply rtc_l; [apply (st_initiate _ _ _ (inr HRecordNotFound) 7 "9" "team" "llama" "ada" sample_request)|].
  eapply rtc_l; [apply (st_read _ _ _ (default (sample_artifact "" "" "" Ready) (head (sys_rows sample_sys)))); vm_compute; left|].
  eapply rtc_l; [apply (st_delete _ _ _ 8 (default (sample_artifact "" "" "" Ready) (head (sys_rows sample_sys)))); left|].
  apply rtc_once. match goal with |- step _ _ ?s _ =>
    replace deleting_sys with {| sy_hub := sy_hub s; sy_reads := []; sy_verdicts := [] |} by (vm_compute; reflexivity)
  end.
  apply st_return; [apply list_subseteq_nil..|]. by intros ? ? ?%elem_of_nil.
Qed.

Lemma deletion_completes_witness :
  exists r3, r3 ∈ hub_rows (Tick sample_reg 50 1000 (sy_hub deleting_sys)).1 /\ a_Status r3 = Deleted.
Proof.
  destruct (deletion_completes sample_client (Some "bucket") "bucket" 3600 deleting_sys deleting_row deleting_sys)
    as [_ Hdone].
  - exact deleting_sys_reachable.
  - vm_compute. left.
  - vm_compute. reflexivity.
  - intros row Hin. by apply elem_of_nil in Hin.
  - apply rtc_refl.
  - destruct (Hdone (with_hub deleting_sys (Tick sample_reg 50 1000 (sy_hub deleting_sys)).1)
      (with_hub deleting_sys (Tick sample_reg 50 1000 (sy_hub deleting_sys)).1)) as (r3 & Hr3 & _ & _ & E & _).
    + apply collects_pass. intros r Hr _ h calls Hh. apply list_elem_of_singleton in Hr as ->.
      change (Some (NewModelHandler sample_client) = Some h) in Hh. injection Hh as <-. reflexivity.
    + apply rtc_refl.
    + by exists r3.
Defined.

Lemma patch_display_only_witness :
  let raw := {[ "labels" := RawMap {[ "team" := "nlp" ]}; "visibility" := RawString "public" ]} in
  (handler_Patch 60 "team" "llama" "v2" ["labels"; "visibility"] raw sample_hub).2 = sample_hub.
Proof.
  intros raw.
  pose proof (patch_display_only 60 "team" "llama" "v2" ["labels"; "visibility"]
    raw sample_hub sample_table_ok) as Hp.
  destruct (handler_Patch _ _ _ _ _ _ _) as [answer w'] eqn:E.
  destruct Hp as (_ & Hbad & Herr).
  - intros k. unfold raw. rewrite lookup_insert_is_Some lookup_singleton_is_Some. set_solver.
  - apply Herr. destruct Hbad as [msg ->]; [|by eexists].
    exists "visibility". split; [by eexists|]. apply (bool_decide_unpack _). vm_compute. exact I.
Defined.

(** ** Artifact hub: where deletion and completion disagree

    A completion writes Ready whatever became of the row since it was read;
    a manifest is removed by a digest that another version may share; and an
    external version hands its remote URI to the registry as a digest. *)

Import ArtRepository.

Section Races.
Context `{Storage} (client : oci_Client) (s3c : option string) (bucket : string) (ttl : Z).

Notation reg := (hub_registry client s3c bucket).

Lemma Update_elem now r cols rows :
  r ∈ rows -> art_Updates now cols r ∈ Update now (a_ID r) cols rows.
Proof.
  intros Hr. apply list_elem_of_In, in_map_iff. exists r. rw String.eqb_refl -list_elem_of_In. done.
Qed.

(** A completion that was verified before the collector came wins over it.
    For an upload that is read and verified, then expired by the collector
    (Failed, and for a dataset with an object store its prefix removed), the
    pending write of Complete makes the row Ready again, and Resolve hands the
    artifact out. *)
Theorem completion_overrides_expiry now now' d w row b :
  table_ok (hub_rows w) -> row ∈ hub_rows w -> a_Status row = Uploading -> a_Kind row = "dataset" ->
  s3c = Some b -> d <> "" ->
  let w1 := expire_upload reg now w (toGCRow row) in
  let w2 := (Complete_finish now' row (inl d) w1).2 in
  a_Status (fail_row now row) = Failed /\ fail_row now row ∈ hub_rows w1 /\
  CRemoveObjects b (dataset_prefix (a_Namespace row) (a_Name row) (a_Version row)) ∈ hub_calls w2 /\
  exists res, Resolve reg ttl now' (a_Namespace row) (a_Name row) (a_Version row) "" w2 = inl res /\ rr_Digest res = d.
Proof.
  intros Ht Hr Hu Hk Hb Hd w1 w2. split; [done|].
  pose proof (expire_rows reg now (toGCRow row) w) as E1. fold w1 in E1.
  assert (H1 : fail_row now row ∈ hub_rows w1).
  { rw E1. apply list_elem_of_In, in_map_iff. exists row. simpl.
    rw String.eqb_refl bool_decide_true // -list_elem_of_In. done. }
  assert (Ht1 : table_ok (hub_rows w1)).
  { rw E1. apply UpdateIfStatus_table; [done|]. intros r Hr1 _ Hs Hok. apply fail_row_ok; [done|].
    intros Hx. by destruct (ok_external _ Hok Hx). }
  split_and!; [done| |].
  - replace (hub_calls w2) with (hub_calls w1) by done. rw /w1 /expire_upload.
    assert (Hhit : (UpdateIfStatus now (g_ID (toGCRow row)) Uploading
      [AStatus Failed; AMessage ttl_message] (hub_rows w)).2 = true).
    { apply existsb_exists. exists row. rw -list_elem_of_In. split; [done|]. simpl.
      by rw String.eqb_refl bool_decide_true. }
    destruct (UpdateIfStatus _ _ _ _ _) as [rows hit]. simpl in Hhit. rw Hhit. simpl.
    rw /run_GCBackend. simpl. rw Hk. change (Get reg "dataset") with (Some (NewDatasetHandler bucket s3c)).
    simpl. rw /dataset_GCBackend Hb. simpl. apply elem_of_app. right. by left.
  - set (row2 := art_Updates now' [AStatus Ready; ADigest d; AReadyAt now'; AMessage ""] (fail_row now row)).
    assert (H2 : row2 ∈ hub_rows w2) by apply (Update_elem now' (fail_row now row) _ _ H1).
    assert (Ht2 : table_ok (hub_rows w2)).
    { apply Update_table; [done|]. intros r _ _ Hok. by apply ready_row_ok. }
    pose proof (loadRow_unique w2 row2 Ht2 H2) as HL. simpl in HL.
    rw /Resolve HL. simpl. rw Hk.
    change (Get reg "dataset") with (Some (NewDatasetHandler bucket s3c)). by eexists.
Qed.

(** A completion also undoes a deletion.  For an upload that is read, then
    deleted by the API and finalized by the collector, the pending write of
    Complete leaves a row that is Ready and can be resolved, but still carries
    the deletion time, so no list shows it. *)
Theorem completion_undoes_deletion now now1 now' d w row :
  table_ok (hub_rows w) -> row ∈ hub_rows w -> a_Status row = Uploading -> d <> "" ->
  Get reg (a_Kind row) <> None -> backend_works reg (toGCRow row) ->
  let w1 := (MarkDeleting now (a_Namespace row) (a_Name row) (a_Version row) w).2 in
  let w2 := processDeleting reg now1 w1 in
  let w3 := (Complete_finish now' row (inl d) w2).2 in
  (exists gone, gone ∈ hub_rows w2 /\ a_ID gone = a_ID row /\ a_Status gone = Deleted) /\
  (exists res, Resolve reg ttl now' (a_Namespace row) (a_Name row) (a_Version row) "" w3 = inl res /\ rr_Digest res = d) /\
  forall ns kind name status labels r, r ∈ hub_rows w3 -> a_ID r = a_ID row ->
    list_where ns kind name status labels r = false.
Proof.
  intros Ht Hr Hu Hd Hk Hb w1 w2 w3.
  set (row1 := art_Updates now [AStatus Deleting; AMessage ""] row).
  assert (E1 : w1 = with_rows w (Update now (a_ID row) [AStatus Deleting; AMessage ""] (hub_rows w))).
  { rw /w1 /MarkDeleting (loadRow_unique w row) //. simpl. by rw /MarkDeletingOn Hu. }
  assert (H1 : row1 ∈ hub_rows w1) by (rw E1; by apply Update_elem).
  assert (Ht1 : table_ok (hub_rows w1)).
  { rw E1. apply Update_table; [done|]. intros r _ _. apply deleting_row_ok. }
  destruct (processDeleting_rows reg now1 w1 (tok_ids _ Ht1)) as (fin & Hf & E2). fold w2 in E2.
  assert (H2 : delete_row now1 row1 ∈ hub_rows w2).
  { rw E2. apply list_elem_of_In, in_map_iff. exists row1. rw -list_elem_of_In. split; [|done].
    rw bool_decide_true //. split; [done|]. apply (fin_works _ _ _ Hf); [done|done|]. exact Hb. }
  assert (Ht2 : table_ok (hub_rows w2)).
  { eapply frozen_table; [| |exact Ht1]; rw E2.
    - apply Forall2_map_r => r _. case_match; [apply art_Updates_frozen|done].
    - apply Forall_forall. intros x (r & <- & Hin%list_elem_of_In)%list_elem_of_In%in_map_iff.
      pose proof (proj1 (Forall_forall _ _) (tok_rows _ Ht1) r Hin). case_match; [by apply deleted_row_ok|done]. }
  set (row3 := art_Updates now' [AStatus Ready; ADigest d; AReadyAt now'; AMessage ""] (delete_row now1 row1)).
  assert (H3 : row3 ∈ hub_rows w3) by apply (Update_elem now' (delete_row now1 row1) _ _ H2).
  assert (Ht3 : table_ok (hub_rows w3)).
  { apply Update_table; [done|]. intros r _ _ Hok. by apply ready_row_ok. }
  split_and!.
  - by exists (delete_row now1 row1).
  - pose proof (loadRow_unique w3 row3 Ht3 H3) as HL. simpl in HL. rw /Resolve HL. simpl.
    destruct (Get reg (a_Kind row)); [|done]. by eexists.
  - intros ns kind name status labels r Hin Eid.
    assert (r = row3) as -> by (by eapply (unique_by a_ID); [apply Ht3|..]).
    rw /list_where. change (a_DeletedAt row3) with (Some now1).
    rw (bool_decide_false (Some now1 = None)) //. by rw andb_false_r.
Qed.

(** Removal by digest reaches a sibling.  When a model version is being
    deleted and another version of the same model is Ready with the same
    digest, a pass asks the registry to delete the very manifest the Ready
    version is resolved to. *)
Theorem shared_digest_removed now uttl w gone kept :
  table_ok (hub_rows w) -> gone ∈ hub_rows w -> kept ∈ hub_rows w ->
  a_Status gone = Deleting -> a_Status kept = Ready -> a_Kind gone = "model" -> a_Kind kept = "model" ->
  a_Namespace gone = a_Namespace kept -> a_Name gone = a_Name kept -> a_Digest gone = a_Digest kept ->
  String.prefix "sha256:" (a_Digest kept) = true ->
  (forall url, http_NewRequest url = None) ->
  let path := ("namespaces/" ++ a_Namespace kept ++ "/models/" ++ a_Name kept)%string in
  let w' := (Tick reg now uttl w).1 in
  CHttp DELETE (manifest_url client path (a_Digest kept)) ∈ hub_calls w' /\
  exists res, Resolve reg ttl now (a_Namespace kept) (a_Name kept) (a_Version kept) "" w' = inl res /\
    rr_URI res = (oc_baseURL client ++ "/" ++ path ++ "@" ++ a_Digest kept)%string.
Proof.
  intros Ht Hg Hk Sg Sk Kg Kk En Em Ed Hp Hreq path w'. split.
  - rw /w' /Tick. simpl. set (w1 := processStaleUploading reg now uttl w).
    assert (Hin : toGCRow gone ∈ FindDeleting (hub_rows w1)).
    { apply list_elem_of_In, in_map_iff. exists gone. split; [done|]. apply filter_In.
      split; [|by apply bool_decide_true]. rw /w1 processStaleUploading_rows; [apply Ht|].
      apply in_map_iff. exists gone. rw -list_elem_of_In. split; [|done]. by rw /is_stale Sg. }
    rw /processDeleting. revert Hin. generalize (FindDeleting (hub_rows w1)) as L. generalize w1 as u.
    assert (Hmono : forall u g, exists new, hub_calls (finish_delete reg now u g) = hub_calls u ++ new).
    { intros u g. destruct (collect_calls client s3c bucket now u g) as (new & E & _). by exists new. }
    intros u L. revert u. induction L as [|g L IH]; intros u Hin; [by apply elem_of_nil in Hin|]. simpl.
    apply elem_of_cons in Hin as [<-|Hin]; [|by apply IH].
    assert (Hnow : CHttp DELETE (manifest_url client path (a_Digest kept)) ∈
      hub_calls (finish_delete reg now u (toGCRow gone))).
    { rw /finish_delete /run_GCBackend. simpl. rw Kg. change (Get reg "model") with (Some (NewModelHandler client)).
      simpl. rw /oci_GCBackend. simpl. rw Ed.
      destruct (String.eqb_spec (a_Digest kept) "") as [E0|_]; [by rw E0 in Hp|].
      rw /DeleteManifest Hreq /repoPath. simpl. rw En Em.
      destruct (http_Do _ _ _); simpl; [case_match; [|case_match]|];
        simpl; apply elem_of_app; right; by left. }
    revert Hnow. generalize (finish_delete reg now u (toGCRow gone)) as v. clear -Hmono.
    induction L as [|g L IH]; intros v Hv; [done|]. simpl. apply IH.
    destruct (Hmono v g) as (new & ->). apply elem_of_app. by left.
  - assert (Hop : hub_op reg ttl w w') by constructor.
    pose proof (op_table reg ttl w w' (hub_registry_ok client s3c bucket) Ht Hop) as Ht'.
    destruct (Tick_rows reg now uttl w (tok_ids _ Ht)) as (fin & _ & E).
    assert (Hk' : kept ∈ hub_rows w').
    { rw /w' E. apply list_elem_of_In, in_map_iff. exists kept. rw -list_elem_of_In. split; [|done].
      case_bool_decide; [|done]. by rw /tick_row /is_stale Sk. }
    rw /Resolve (loadRow_unique w' kept) // Sk Kk.
    change (Get reg "model") with (Some (NewModelHandler client)). eexists. split; [done|]. simpl.
    by rw /oci_BuildPullURI Hp /path !append_assoc.
Qed.

(** An external model cannot be deleted if the registry refuses its URI
    (the digest column of an external version holds its remote URI).
    The collector asks the registry to delete the manifest whose digest is the
    remote URI of the version; when the registry answers with any status but
    200, 202, 204 and 404, the row is left Deleting, in this pass and in
    every later one. *)
Theorem external_delete_stuck now uttl w row :
  table_ok (hub_rows w) -> row ∈ hub_rows w -> a_Status row = Deleting -> a_Kind row = "model" ->
  a_Digest row <> "" ->
  (forall calls, exists code,
     http_Do calls DELETE (manifest_url client ("namespaces/" ++ a_Namespace row ++ "/models/" ++ a_Name row)%string
       (a_Digest row)) = inl {| rs_StatusCode := code; rs_ContentDigest := "" |} /\
     code ∉ [200; 202; 204; 404]%Z) ->
  row ∈ hub_rows (Tick reg now uttl w).1.
Proof.
  intros Ht Hr Hs Hk Hd Hrefuse. apply (Tick_retries reg now uttl w row Ht Hr Hs).
  exists (NewModelHandler client). split; [simpl; by rw Hk|]. intros calls. simpl. rw /oci_GCBackend. simpl.
  apply String.eqb_neq in Hd. rw Hd /DeleteManifest. set (url := manifest_url _ _ _).
  destruct (http_NewRequest url); [done|]. destruct (Hrefuse calls) as (code & E & Hc).
  change (http_Do calls DELETE url = inl {| rs_StatusCode := code; rs_ContentDigest := "" |}) in E. rw E. simpl.
  rw bool_decide_false; [set_solver|]. destruct (Z.eqb_spec code 404) as [->|]; [set_solver|done].
Qed.
End Races.

(** ** Witnesses *)

Lemma completion_overrides_expiry_witness :
  let row := sample_artifact "4" "dataset" "v4" Uploading in
  let w1 := expire_upload sample_reg 5000 sample_hub (toGCRow row) in
  let w2 := (Complete_finish 5001 row (inl "sha256:abc") w1).2 in
  CRemoveObjects "bucket" "namespaces/team/datasets/llama/v4/" ∈ hub_calls w2 /\
  exists res, Resolve sample_reg 3600 5001 "team" "llama" "v4" "" w2 = inl res /\ rr_Digest res = "sha256:abc".
Proof.
  apply (completion_overrides_expiry sample_client (Some "bucket") "bucket" 3600 5000 5001 "sha256:abc" sample_hub
    (sample_artifact "4" "dataset" "v4" Uploading) "bucket").
  - apply sample_table_ok.
  - right; right; right; left.
  - reflexivity.
  - reflexivity.
  - reflexivity.
  - congruence.
Defined.

Lemma completion_undoes_deletion_witness :
  let row := sample_artifact "3" "model" "v3" Uploading in
  let w1 := (MarkDeleting 10 "team" "llama" "v3" sample_hub).2 in
  let w3 := (Complete_finish 12 row (inl "sha256:abc") (processDeleting sample_reg 11 w1)).2 in
  exists res, Resolve sample_reg 3600 12 "team" "llama" "v3" "" w3 = inl res /\ rr_Digest res = "sha256:abc".
Proof.
  apply (completion_undoes_deletion sample_client (Some "bucket") "bucket" 3600 10 11 12 "sha256:abc" sample_hub
    (sample_artifact "3" "model" "v3" Uploading)).
  - apply sample_table_ok.
  - right; right; left.
  - reflexivity.
  - congruence.
  - vm_compute. congruence.
  - intros h calls Hh. change (Some (NewModelHandler sample_client) = Some h) in Hh. injection Hh as <-.
    reflexivity.
Defined.

Lemma shared_digest_removed_witness :
  CHttp DELETE "http://zot:5000/v2/namespaces/team/models/llama/manifests/sha256:abc"
    ∈ hub_calls (Tick sample_reg 50 1000 sample_hub).1.
Proof.
  apply (shared_digest_removed sample_client (Some "bucket") "bucket" 3600 50 1000 sample_hub
    (sample_artifact "1" "model" "v1" Deleting) (sample_artifact "2" "model" "v2" Ready));
    try reflexivity.
  - apply sample_table_ok.
  - left.
  - right; left.
Defined.

(** A registry that answers every deletion with 400. *)
Definition refusing_storage : Storage := {|
  http_NewRequest := fun _ => None;
  http_Do := fun _ _ _ => inl {| rs_StatusCode := 400; rs_ContentDigest := "" |};
  mc_GetObject := fun _ _ _ => GetOK "{}";
  mc_RemoveObjects := fun _ _ _ => [];
  sha256_hex := fun _ => "abc" |}.

Lemma external_delete_stuck_witness :
  sample_artifact "1" "model" "v1" Deleting ∈
  hub_rows (Tick (@hub_registry refusing_storage sample_client None "") 50 1000 sample_hub).1.
Proof.
  apply (@external_delete_stuck refusing_storage sample_client None "" 50 1000 sample_hub
    (sample_artifact "1" "model" "v1" Deleting)).
  - apply sample_table_ok.
  - left.
  - reflexivity.
  - reflexivity.
  - vm_compute. congruence.
  - intros calls. exists 400%Z. split; [reflexivity|]. set_solver.
Defined.
