(* ===== verification/DockerPaths.v ===== *)
(** * Standalone runtime: paths and resource names

    Which directories a workload may name: the [subPath] of a volume mount
    ([service.go]), the files of a ConfigMap projection ([configmap.go]), and
    the Docker names the runtime derives from a (namespace, name) pair
    ([runtime.go], [service.go], [volume.go], [service_route.go],
    [traffic.go]).  [path.Clean], [path.Join] and [path.IsAbs] are Go's, on
    slash-separated components. *)

From Stdlib Require Import ssreflect ZArith Lia Ascii String.
From stdpp Require Import base gmap list strings.
From S2P Require Import Prelude ApiTypes Names Strconv.

(** ** package path *)

Definition slash : ascii := "/"%char.
Definition dot_name : bytes := ["."%char].
Definition dotdot : bytes := ["."%char; "."%char].

(** [strings.Split(s, "/")]; never empty. *)
Fixpoint SplitSlash (s : bytes) : list bytes :=
  match s with
  | [] => [[]]
  | c :: rest =>
      if Ascii.eqb c slash then [] :: SplitSlash rest
      else match SplitSlash rest with part :: parts => (c :: part) :: parts | [] => [[c]] end
  end.

(** [strings.Join(parts, "/")] *)
Fixpoint JoinSlash (parts : list bytes) : bytes :=
  match parts with
  | [] => []
  | [p] => p
  | p :: rest => p ++ slash :: JoinSlash rest
  end.

(** [path.IsAbs] *)
Definition IsAbs (s : bytes) : bool := match s with c :: _ => Ascii.eqb c slash | [] => false end.

(** One component of [path.Clean], on the components kept so far, last first. *)
Definition clean_step (rooted : bool) (kept : list bytes) (c : bytes) : list bytes :=
  if bool_decide (c = [] \/ c = dot_name) then kept
  else if bool_decide (c = dotdot)
  then match kept with
       | top :: rest => if bool_decide (top = dotdot) then dotdot :: kept else rest
       | [] => if rooted then [] else [dotdot]
       end
  else c :: kept.

(** [path.Clean] *)
Definition Clean (s : bytes) : bytes :=
  let kept := rev (foldl (clean_step (IsAbs s)) [] (SplitSlash s)) in
  if IsAbs s then slash :: JoinSlash kept
  else match kept with [] => dot_name | _ => JoinSlash kept end.

(** [path.Join]: empty elements are ignored. *)
Definition PathJoin (parts : list bytes) : bytes :=
  match List.filter (fun p => negb (bool_decide (p = []))) parts with
  | [] => []
  | ps => Clean (JoinSlash ps)
  end.

(** [strings.HasPrefix] *)
Definition HasPrefix (s p : bytes) : bool := bool_decide (p `prefix_of` s).

(** ** Sub-paths and projections *)

(** [capabilityError] *)
Definition capabilityError (msg : string) : error := ErrOther msg.

(** [corev1.VolumeMount] *)
Record VolumeMount := {
  vm_Name : string;
  vm_MountPath : string;
  vm_SubPath : string;
  vm_SubPathExpr : string;
  vm_ReadOnly : bool }.

(** [clean == ".." || strings.HasPrefix(clean, "../")] *)
Definition escapes (clean : bytes) : bool :=
  bool_decide (clean = dotdot) || HasPrefix clean (dotdot ++ [slash]).

(** [validateSubPath] *)
Definition validateSubPath (vm : VolumeMount) : string + error :=
  let sub := list_ascii_of_string (vm_SubPath vm) in
  let clean := Clean sub in
  if negb (String.eqb (vm_SubPathExpr vm) "")
  then inr (capabilityError ("volumeMount '" ++ vm_Name vm ++ "' subPathExpr is unsupported in standalone"))
  else if String.eqb (vm_SubPath vm) "" then inl ""
  else if IsAbs sub
  then inr (capabilityError ("volumeMount '" ++ vm_Name vm ++ "' subPath '" ++ vm_SubPath vm ++ "' must be relative"))
  else if escapes clean
  then inr (capabilityError ("volumeMount '" ++ vm_Name vm ++ "' subPath '" ++ vm_SubPath vm ++ "' must not escape the volume"))
  else inl (string_of_list_ascii clean).

(** [validateProjectionPath] *)
Definition validateProjectionPath (value : string) : option error :=
  let v := list_ascii_of_string value in
  let clean := Clean v in
  if bool_decide (v = []) || IsAbs v || bool_decide (clean = dot_name) || escapes clean || negb (bool_decide (clean = v))
  then Some (capabilityError "must be a clean relative path that stays inside the volume")
  else None.

(** A path segment that names no other directory. *)
Definition bad_segment (part : bytes) : bool :=
  bool_decide (part = []) || bool_decide (part = dot_name) || bool_decide (part = dotdot) ||
  existsb (fun c => Ascii.eqb c slash || Ascii.eqb c "\"%char) part.

(** [projectionPath] *)
Definition projectionPath (kind namespace name role volume : string) : string + error :=
  let parts := map list_ascii_of_string [kind; namespace; name; role; volume] in
  match List.find bad_segment parts with
  | Some part => inr (capabilityError ("ConfigMap projection path segment '" ++ string_of_list_ascii part ++ "' is invalid"))
  | None => inl (string_of_list_ascii (PathJoin parts))
  end.

(** [configMapWorkloadDir], with [filepath.Join] as [path.Join]. *)
Definition configMapWorkloadDir (configMapsDir kind namespace name : string) : string + error :=
  let parts := map list_ascii_of_string [kind; namespace; name] in
  if String.eqb configMapsDir "" then inl ""
  else match List.find bad_segment parts with
       | Some part => inr (ErrOther ("invalid ConfigMap workload path segment '" ++ string_of_list_ascii part ++ "'"))
       | None => inl (string_of_list_ascii (PathJoin (list_ascii_of_string configMapsDir :: parts)))
       end.

(** [configMapProjectionDir] *)
Definition configMapProjectionDir (configMapsDir kind namespace name relative : string) : string + error :=
  let rel := list_ascii_of_string relative in
  let clean := Clean rel in
  let prefix := PathJoin (map list_ascii_of_string [kind; namespace; name]) ++ [slash] in
  if IsAbs rel || bool_decide (clean = dot_name) || escapes clean || negb (bool_decide (clean = rel))
  then inr (ErrOther ("invalid ConfigMap projection manifest path '" ++ relative ++ "'"))
  else if negb (HasPrefix clean prefix)
  then inr (ErrOther ("ConfigMap projection manifest path '" ++ relative ++ "' is outside workload " ++
              kind ++ "/" ++ namespace ++ "/" ++ name))
  else inl (string_of_list_ascii (PathJoin [list_ascii_of_string configMapsDir; clean])).

(** ** Docker names *)

(** [[a-zA-Z0-9_.-]] *)
Definition docker_char (c : ascii) : bool :=
  in_range 97 122 c || in_range 65 90 c || in_range 48 57 c ||
  Ascii.eqb c "_"%char || Ascii.eqb c "."%char || Ascii.eqb c dash.

(** [nameSanitizer.ReplaceAllString(raw, "-")]: a run of other bytes becomes
    one dash; [in_run] is set inside a run. *)
Fixpoint sanitize (in_run : bool) (raw : bytes) : bytes :=
  match raw with
  | [] => []
  | c :: rest =>
      if docker_char c then c :: sanitize false rest
      else if in_run then sanitize true rest else dash :: sanitize true rest
  end.

Section Names.
Context (shortHash : bytes -> bytes).

(** The raw name when Docker accepts it, a hash of it otherwise. *)
Definition safe_name (fallback raw : string) : string :=
  let r := list_ascii_of_string raw in
  let clean := sanitize false r in
  if bool_decide (clean = r) && (length clean <=? 100)%nat then raw
  else (fallback ++ string_of_list_ascii (shortHash r))%string.

(** [instanceName]; [suffix] is the random suffix. *)
Definition instanceName (suffix base : string) (replica : Z) (stableOrdinal : bool) : string :=
  let raw := if stableOrdinal then list_ascii_of_string base ++ [dash] ++ Itoa replica
             else list_ascii_of_string base ++ [dash] ++ list_ascii_of_string suffix in
  let clean := sanitize false raw in
  string_of_list_ascii
    (if bool_decide (clean = raw) && (length clean <=? 63)%nat then clean
     else TrimRight (take 54 clean) ++ [dash] ++ shortHash raw).

Definition volumeName (namespace name vol : string) : string :=
  safe_name "axisml-vol-" ("axisml-vol-" ++ namespace ++ "-" ++ name ++ "-" ++ vol).

Definition pvcVolumeName (namespace claimName : string) : string :=
  safe_name "axisml-vol-" ("axisml-" ++ namespace ++ "-" ++ claimName).

Definition serviceResourceName (namespace name : string) : string :=
  safe_name "axisml-svc-" ("axisml-svc-" ++ namespace ++ "-" ++ name).

Definition trafficResourceName (namespace name : string) : string :=
  safe_name "axisml-tp-" ("axisml-" ++ namespace ++ "-" ++ name).

Definition trafficMemberResourceName (namespace policyName serviceName : string) : string :=
  safe_name "axisml-tp-backend-" ("axisml-tp-" ++ namespace ++ "-" ++ policyName ++ "-" ++ serviceName).
End Names.

(** ** Lexical resolution *)

(** Walking a relative path from a directory, innermost component first. *)
Definition walk_step (dir : list bytes) (c : bytes) : list bytes :=
  if bool_decide (c = [] \/ c = dot_name) then dir
  else if bool_decide (c = dotdot) then tail dir
  else c :: dir.

Definition walk (dir : list bytes) (s : bytes) : list bytes := foldl walk_step dir (SplitSlash s).

(** A component that names an entry of its directory. *)
Definition proper (c : bytes) : Prop := c <> [] /\ c <> dot_name /\ c <> dotdot /\ slash ∉ c.

Lemma SplitSlash_no_slash s c : c ∈ SplitSlash s -> slash ∉ c.
Proof.
  revert c. induction s as [|x s IH]; intros c; cbn [SplitSlash].
  { intros ->%list_elem_of_singleton. apply not_elem_of_nil. }
  destruct (Ascii.eqb_spec x slash) as [->|Hx].
  - intros [->|Hc]%elem_of_cons; [apply not_elem_of_nil|by apply IH].
  - destruct (SplitSlash s) as [|p ps] eqn:Es.
    + intros ->%list_elem_of_singleton. rw list_elem_of_singleton. congruence.
    + intros [->|Hc]%elem_of_cons; [|apply IH; by right].
      apply not_elem_of_cons. split; [congruence|]. apply IH. by left.
Qed.

Lemma SplitSlash_last p : slash ∉ p -> SplitSlash p = [p].
Proof.
  induction p as [|c p IH]; [done|]. rw not_elem_of_cons. intros [Hc Hp]. cbn [SplitSlash].
  destruct (Ascii.eqb_spec c slash) as [->|]; [done|]. by rw IH.
Qed.

Lemma SplitSlash_cons p rest : slash ∉ p -> SplitSlash (p ++ slash :: rest) = p :: SplitSlash rest.
Proof.
  induction p as [|c p IH]; [done|]. rw not_elem_of_cons. intros [Hc Hp]. cbn [app SplitSlash].
  destruct (Ascii.eqb_spec c slash) as [->|]; [done|]. by rw IH.
Qed.

Lemma SplitSlash_Join parts : parts <> [] -> Forall (fun p => slash ∉ p) parts -> SplitSlash (JoinSlash parts) = parts.
Proof.
  intros Hne HF. induction HF as [|p parts Hp HF IH]; [done|]. destruct parts as [|q parts].
  - by apply SplitSlash_last.
  - change (JoinSlash (p :: q :: parts)) with (p ++ slash :: JoinSlash (q :: parts)).
    rw SplitSlash_cons // IH //.
Qed.

(** A parent reference that was kept is kept for good. *)
Lemma clean_keeps_up comps kept : dotdot ∈ kept -> dotdot ∈ foldl (clean_step false) kept comps.
Proof.
  revert kept. induction comps as [|c comps IH]; intros kept Hk; [done|]. simpl. apply IH.
  rw /clean_step. case_bool_decide; [done|]. case_bool_decide; [|by right].
  destruct kept as [|top rest]; [by left|]. case_bool_decide; [by left|].
  by apply elem_of_cons in Hk as [?|?].
Qed.

(** Components kept are proper, except for leading parent references. *)
Lemma clean_proper rooted comps kept :
  Forall (fun c => slash ∉ c) comps -> Forall (fun c => proper c \/ c = dotdot) kept ->
  Forall (fun c => proper c \/ c = dotdot) (foldl (clean_step rooted) kept comps).
Proof.
  revert kept. induction comps as [|c comps IH]; intros kept Hc Hk; [done|]. simpl.
  apply Forall_cons in Hc as [Hc Hcs]. apply IH; [done|]. rw /clean_step.
  case_bool_decide as H1; [done|]. case_bool_decide as H2.
  - destruct kept as [|top rest]; [destruct rooted; [done|repeat constructor; by right]|].
    case_bool_decide; [constructor; [by right|done]|by apply Forall_cons in Hk as [_ ?]].
  - constructor; [left; rw /proper; naive_solver|done].
Qed.

(** While no parent reference is kept, cleaning is walking. *)
Lemma clean_walk comps kept dir :
  dotdot ∉ foldl (clean_step false) kept comps ->
  foldl walk_step (kept ++ dir) comps = foldl (clean_step false) kept comps ++ dir.
Proof.
  revert kept. induction comps as [|c comps IH]; intros kept Hno; [done|]. simpl in *.
  rw -IH //. f_equal. rw /walk_step /clean_step. case_bool_decide; [done|]. case_bool_decide as H2; [|done].
  destruct kept as [|top rest].
  { destruct Hno. apply clean_keeps_up. rw H2. change (clean_step false [] dotdot) with [dotdot]. by left. }
  rw bool_decide_false //. intros ->. destruct Hno. apply clean_keeps_up.
  rw /clean_step. case_bool_decide; [by left|]. case_bool_decide; [|by right]. rw bool_decide_true //. by left.
Qed.

Lemma walk_avoids u comps dir : u ∉ comps -> u ∉ dir -> u ∉ foldl walk_step dir comps.
Proof.
  revert dir. induction comps as [|c comps IH]; intros dir Hc Hd; [done|]. simpl.
  apply not_elem_of_cons in Hc as [Hc Hcs]. apply IH; [done|]. rw /walk_step.
  case_bool_decide; [done|]. case_bool_decide; [|by apply not_elem_of_cons].
  destruct dir; [done|]. by apply not_elem_of_cons in Hd as [_ ?].
Qed.

(** Once a parent reference is kept, the walk has left its directory. *)
Lemma clean_walk_leaves u comps kept :
  u ∉ comps -> u ∉ kept -> dotdot ∉ kept -> dotdot ∈ foldl (clean_step false) kept comps ->
  u ∉ foldl walk_step (kept ++ [u]) comps.
Proof.
  revert kept. induction comps as [|c comps IH]; intros kept Hc Hk Hno Hup; [done|]. simpl in *.
  apply not_elem_of_cons in Hc as [Hc Hcs]. rw /walk_step /clean_step in Hup |- *.
  case_bool_decide as H1; [by apply IH|]. case_bool_decide as H2.
  - destruct kept as [|top rest]; simpl.
    + apply walk_avoids; [done|apply not_elem_of_nil].
    + apply not_elem_of_cons in Hno as [Htop Hno]. apply not_elem_of_cons in Hk as [_ Hk].
      rw bool_decide_false in Hup; [congruence|]. by apply IH.
  - apply (IH (c :: kept)); [done|by apply not_elem_of_cons| |done]. apply not_elem_of_cons. split; congruence.
Qed.

(** The components of a relative path after cleaning. *)
Definition kept_of (s : bytes) : list bytes := foldl (clean_step false) [] (SplitSlash s).

Lemma kept_of_proper s : Forall (fun c => proper c \/ c = dotdot) (kept_of s).
Proof.
  apply clean_proper; [|constructor]. apply Forall_forall. intros c. apply SplitSlash_no_slash.
Qed.

Lemma kept_no_slash s : Forall (fun c => slash ∉ c) (rev (kept_of s)).
Proof.
  rw -Permutation_rev. eapply Forall_impl; [apply kept_of_proper|]. intros c [(_ & _ & _ & ?) | ->]; [done|].
  intros H. repeat (apply elem_of_cons in H as [H|H]; [done|]). by apply elem_of_nil in H.
Qed.

Lemma prefix_up_split s : (dotdot ++ [slash]) `prefix_of` s -> exists rest, SplitSlash s = dotdot :: SplitSlash rest.
Proof. intros [rest ->]. exists rest. rw -app_assoc. apply SplitSlash_cons. by rw !not_elem_of_cons elem_of_nil; naive_solver. Qed.

(** Parent references are kept in front only. *)
Lemma clean_up_first comps kept :
  (dotdot ∈ kept -> last kept = Some dotdot) ->
  dotdot ∈ foldl (clean_step false) kept comps -> last (foldl (clean_step false) kept comps) = Some dotdot.
Proof.
  revert kept. induction comps as [|c comps IH]; intros kept Hk; [done|]. simpl. apply IH.
  rw /clean_step. case_bool_decide; [done|]. case_bool_decide as H2.
  - destruct kept as [|top rest]; [done|]. case_bool_decide as H3; intros Hin.
    + rw last_cons_cons. apply Hk. rw H3. by left.
    + destruct rest as [|r rest]; [by apply elem_of_nil in Hin|]. rw last_cons_cons in Hk. apply Hk. by right.
  - intros [?|Hin]%elem_of_cons; [congruence|]. destruct kept; [by apply elem_of_nil in Hin|].
    rw last_cons_cons. by apply Hk.
Qed.

Lemma Clean_relative s : IsAbs s = false ->
  Clean s = match rev (kept_of s) with [] => dot_name | _ => JoinSlash (rev (kept_of s)) end.
Proof. rw /Clean /kept_of. by move => ->. Qed.

Lemma SplitSlash_Clean s : IsAbs s = false -> kept_of s <> [] -> SplitSlash (Clean s) = rev (kept_of s).
Proof.
  intros Ha Hne. rw Clean_relative //. assert (Hr : rev (kept_of s) <> []).
  { intros E. apply (f_equal (@rev bytes)) in E. by rw rev_involutive in E. }
  destruct (rev (kept_of s)) as [|c cs] eqn:E; [done|]. rw -E. apply SplitSlash_Join; [by rw E|]. apply kept_no_slash.
Qed.

Lemma escapes_kept s : IsAbs s = false -> escapes (Clean s) = true <-> dotdot ∈ kept_of s.
Proof.
  intros Ha. split.
  - destruct (decide (kept_of s = [])) as [E|Hne].
    { rw Clean_relative // E. by vm_compute. }
    intros He. rw list_elem_of_In in_rev -list_elem_of_In -SplitSlash_Clean //. apply orb_true_iff in He as [He|He].
    + apply bool_decide_eq_true in He. rw He SplitSlash_last; [by rw !not_elem_of_cons elem_of_nil; naive_solver|by left].
    + apply bool_decide_eq_true in He. apply prefix_up_split in He as [rest ->]. by left.
  - intros Hin. pose proof (clean_up_first (SplitSlash s) [] ltac:(by intros ?%elem_of_nil) Hin) as Hl.
    fold (kept_of s) in Hl. apply last_Some in Hl as [l Hl]. rw Clean_relative // Hl rev_app_distr /=.
    apply orb_true_iff. destruct (rev l) as [|c cs]; [by left|].
    right. apply bool_decide_eq_true. by eexists.
Qed.

(** What an accepted, non-empty sub-path is: the walk of the requested path
    from any directory ends at the directory the accepted one names, below it. *)
Lemma validateSubPath_spec vm p :
  validateSubPath vm = inl p -> vm_SubPath vm <> "" ->
  let sub := list_ascii_of_string (vm_SubPath vm) in
  IsAbs sub = false /\ dotdot ∉ kept_of sub /\ list_ascii_of_string p = Clean sub.
Proof.
  intros E Hne sub. rw /validateSubPath -/sub in E.
  destruct (negb (String.eqb (vm_SubPathExpr vm) "")); [done|].
  destruct (String.eqb_spec (vm_SubPath vm) ""); [done|]. destruct (IsAbs sub) eqn:Ha; [done|].
  destruct (escapes (Clean sub)) eqn:He; [done|]. injection E as <-.
  rw list_ascii_of_string_of_list_ascii. split_and!; [done| |done]. rw -escapes_kept // He. done.
Qed.

Lemma walk_Clean s dir : IsAbs s = false -> dotdot ∉ kept_of s ->
  walk dir s = kept_of s ++ dir /\ walk dir (Clean s) = kept_of s ++ dir.
Proof.
  intros Ha Hup. split; [by apply (clean_walk _ [])|]. rw /walk.
  destruct (decide (kept_of s = [])) as [E|Hne].
  { rw Clean_relative // E. by vm_compute. }
  rw SplitSlash_Clean // -{2}(rev_involutive (kept_of s)).
  assert (HF : Forall (fun c => proper c) (rev (kept_of s))).
  { apply Forall_forall. intros c Hc. rw list_elem_of_In -in_rev -list_elem_of_In in Hc.
    pose proof (kept_of_proper s) as HP. rw Forall_forall in HP. destruct (HP c Hc) as [? | ->]; done. }
  revert dir. induction HF as [|c cs (H1 & H2 & H3 & _) HF IH]; intros dir; [done|]. simpl.
  rw {2}/walk_step !bool_decide_false; [naive_solver..|]. rw IH. by rw -app_assoc.
Qed.
