(* ===== verification/DockerEngine.v ===== *)
(** * Standalone runtime: container plans and the Docker engine

    [axisml-standalone/internal/runtime/docker]: the container plan and its
    translation ([plan.go]), the engine calls ([engine.go]) and the normalized
    container states ([states.go]).  The Docker daemon is a parameter, the
    class [Docker], whose operations may fail at any time; [DockerLaws] states
    what its documentation promises about the containers it holds. *)

From Stdlib Require Import ssreflect ZArith Lia Ascii String.
From stdpp Require Import base gmap list strings.
From S2P Require Import Prelude ApiTypes Names Strconv Listing DockerPaths.

(** ** Labels *)

Definition LabelManaged : string := "io.axisml.managed".
Definition LabelResourceKind : string := "io.axisml.resource-kind".
Definition LabelNamespace : string := "io.axisml.resource-namespace".
Definition LabelName : string := "io.axisml.resource-name".
Definition LabelReplicaIndex : string := "io.axisml.replica-index".
Definition LabelRole : string := "compute.axisml.io/role".
Definition LabelTenant : string := "tenant.axisml.io/name".
Definition LabelSpecHash : string := "io.axisml.spec-hash".
Definition LabelGPUDevices : string := "io.axisml.gpu-devices".

Definition KindRun : string := "run".
Definition KindService : string := "service".

(** [baseLabels] *)
Definition baseLabels (kind namespace name : string) : gmap string string :=
  {[ LabelManaged := "true"; LabelResourceKind := kind; LabelNamespace := namespace;
     LabelName := name; LabelTenant := namespace ]}.

(** ** Errors *)

(** What a call to the daemon fails with: its class and its text. *)
Inductive docker_error := DockerNotFound (text : string) | DockerConflict (text : string) | DockerFailed (text : string).

Definition docker_text (e : docker_error) : string :=
  match e with DockerNotFound t | DockerConflict t | DockerFailed t => t end.

Definition IsNotFoundErr (e : docker_error) : bool := match e with DockerNotFound _ => true | _ => false end.
Definition IsConflictErr (e : docker_error) : bool := match e with DockerConflict _ => true | _ => false end.

(** A daemon error as a Go error. *)
Definition docker_err (e : docker_error) : error := ErrOther (docker_text e).

(** ** Plans *)

Record PortPlan := { pp_Name : string; pp_ContainerPort : Z; pp_Protocol : string }.

Record ConfigMapFile := { cf_Data : string; cf_Mode : Z }.

Record MountPlan := {
  mp_Type : string;
  mp_Source : string;
  mp_Target : string;
  mp_SubPath : string;
  mp_ReadOnly : bool;
  mp_ConfigMapPath : string;
  mp_ConfigMapFiles : gmap string ConfigMapFile }.

Record ResourcePlan := {
  rp_NanoCPUs : Z;
  rp_MemoryBytes : Z;
  rp_GPUCount : Z;
  rp_GPUDeviceIDs : list string }.

(** [ContainerPlan]; no handler of the runtime sets a health check. *)
Record ContainerPlan := {
  cp_Name : string;
  cp_NamePrefix : string;
  cp_Replica : Z;
  cp_StableOrdinal : bool;
  cp_Image : string;
  cp_ImagePullPolicy : string;
  cp_Command : list string;
  cp_Args : list string;
  cp_Env : list string;
  cp_WorkingDir : string;
  cp_Labels : gmap string string;
  cp_Ports : list PortPlan;
  cp_Mounts : list MountPlan;
  cp_Resources : ResourcePlan;
  cp_RestartPolicy : string }.

Definition with_name (p : ContainerPlan) (name : string) : ContainerPlan :=
  {| cp_Name := name; cp_NamePrefix := cp_NamePrefix p; cp_Replica := cp_Replica p;
     cp_StableOrdinal := cp_StableOrdinal p; cp_Image := cp_Image p; cp_ImagePullPolicy := cp_ImagePullPolicy p;
     cp_Command := cp_Command p; cp_Args := cp_Args p; cp_Env := cp_Env p; cp_WorkingDir := cp_WorkingDir p;
     cp_Labels := cp_Labels p; cp_Ports := cp_Ports p; cp_Mounts := cp_Mounts p;
     cp_Resources := cp_Resources p; cp_RestartPolicy := cp_RestartPolicy p |}.

(** A plan with its labels and pinned devices replaced. *)
Definition with_devices (p : ContainerPlan) (ids : list string) (labels : gmap string string) : ContainerPlan :=
  {| cp_Name := cp_Name p; cp_NamePrefix := cp_NamePrefix p; cp_Replica := cp_Replica p;
     cp_StableOrdinal := cp_StableOrdinal p; cp_Image := cp_Image p; cp_ImagePullPolicy := cp_ImagePullPolicy p;
     cp_Command := cp_Command p; cp_Args := cp_Args p; cp_Env := cp_Env p; cp_WorkingDir := cp_WorkingDir p;
     cp_Labels := labels; cp_Ports := cp_Ports p; cp_Mounts := cp_Mounts p;
     cp_Resources := {| rp_NanoCPUs := rp_NanoCPUs (cp_Resources p); rp_MemoryBytes := rp_MemoryBytes (cp_Resources p);
                        rp_GPUCount := rp_GPUCount (cp_Resources p); rp_GPUDeviceIDs := ids |};
     cp_RestartPolicy := cp_RestartPolicy p |}.

(** [container.DeviceRequest] *)
Record DeviceRequest := {
  dr_Driver : string;
  dr_Count : Z;
  dr_DeviceIDs : list string;
  dr_Capabilities : list (list string) }.

(** The GPU part of [toDocker]: pinned cards, or a count. *)
Definition device_requests (rp : ResourcePlan) : list DeviceRequest :=
  if negb (bool_decide (rp_GPUDeviceIDs rp = []))
  then [{| dr_Driver := "nvidia"; dr_Count := 0; dr_DeviceIDs := rp_GPUDeviceIDs rp; dr_Capabilities := [["gpu"]] |}]
  else if (0 <? rp_GPUCount rp)%Z
  then [{| dr_Driver := "nvidia"; dr_Count := rp_GPUCount rp; dr_DeviceIDs := []; dr_Capabilities := [["gpu"]] |}]
  else [].

(** [mount.Mount]; [dm_Subpath] is [VolumeOptions.Subpath]. *)
Record DockerMount := {
  dm_Type : string;
  dm_Source : string;
  dm_Target : string;
  dm_ReadOnly : bool;
  dm_Subpath : option string }.

(** [path.Join(m.Source, m.SubPath)] *)
Definition sub_source (m : MountPlan) : string :=
  string_of_list_ascii (PathJoin [list_ascii_of_string (mp_Source m); list_ascii_of_string (mp_SubPath m)]).

(** The loop over the mounts: a writable bind of a subtree is a bind string,
    anything else a mount. *)
Definition docker_mount (m : MountPlan) : string + DockerMount :=
  if String.eqb (mp_Type m) "bind" && negb (String.eqb (mp_SubPath m) "") && negb (mp_ReadOnly m)
  then inl (sub_source m ++ ":" ++ mp_Target m)%string
  else inr {| dm_Type := mp_Type m;
              dm_Source := if negb (String.eqb (mp_SubPath m) "") && String.eqb (mp_Type m) "bind"
                           then sub_source m else mp_Source m;
              dm_Target := mp_Target m; dm_ReadOnly := mp_ReadOnly m;
              dm_Subpath := if negb (String.eqb (mp_SubPath m) "") && String.eqb (mp_Type m) "volume"
                            then Some (mp_SubPath m) else None |}.

(** [dockerPort], of a valid port number. *)
Definition dockerPort (p : PortPlan) : string :=
  let proto := if String.eqb (pp_Protocol p) "" then "tcp" else pp_Protocol p in
  (string_of_list_ascii (Itoa (pp_ContainerPort p)) ++ "/" ++ proto)%string.

(** [gatewayBackendHostname] *)
Definition gatewayBackendHostname (containerName : string) : string := (containerName ++ ".axisml.local")%string.

(** The three structs [toDocker] returns, in one record; [cr_Aliases] are the
    DNS aliases on the network. *)
Record CreateRequest := {
  cr_Image : string;
  cr_Env : list string;
  cr_WorkingDir : string;
  cr_Labels : gmap string string;
  cr_Entrypoint : list string;
  cr_Cmd : list string;
  cr_ExposedPorts : gset string;
  cr_NetworkMode : string;
  cr_RestartPolicy : string;
  cr_NanoCPUs : Z;
  cr_Memory : Z;
  cr_DeviceRequests : list DeviceRequest;
  cr_Binds : list string;
  cr_Mounts : list DockerMount;
  cr_Aliases : list string }.

(** [toDocker] *)
Definition toDocker (net : string) (p : ContainerPlan) : CreateRequest :=
  {| cr_Image := cp_Image p; cr_Env := cp_Env p; cr_WorkingDir := cp_WorkingDir p; cr_Labels := cp_Labels p;
     cr_Entrypoint := cp_Command p; cr_Cmd := cp_Args p;
     cr_ExposedPorts := list_to_set (map dockerPort (cp_Ports p));
     cr_NetworkMode := net; cr_RestartPolicy := cp_RestartPolicy p;
     cr_NanoCPUs := rp_NanoCPUs (cp_Resources p); cr_Memory := rp_MemoryBytes (cp_Resources p);
     cr_DeviceRequests := device_requests (cp_Resources p);
     cr_Binds := omap (fun m => match docker_mount m with inl b => Some b | inr _ => None end) (cp_Mounts p);
     cr_Mounts := omap (fun m => match docker_mount m with inl _ => None | inr dm => Some dm end) (cp_Mounts p);
     cr_Aliases := if negb (String.eqb (cp_Name p) "") then [gatewayBackendHostname (cp_Name p)] else [] |}.

(** ** The daemon *)

(** A container as list and inspect show it; times of zero are [None]. *)
Record Container := {
  ct_ID : string;
  ct_Name : string;
  ct_Image : string;
  ct_Labels : gmap string string;
  ct_State : string;
  ct_ExitCode : Z;
  ct_OOMKilled : bool;
  ct_StartedAt : option Z;
  ct_FinishedAt : option Z;
  ct_Health : string;
  ct_NanoCPUs : Z;
  ct_Memory : Z;
  ct_DeviceRequests : list DeviceRequest;
  ct_ExposedPorts : list Z;
  ct_Aliases : list string }.

(** A message of the pull progress stream. *)
Record PullMessage := { pm_Error : string; pm_ErrorDetail : option string }.

(** A pull that was accepted: its messages, and how the stream ends
    ([None] is the end of the file). *)
Record PullStream := { ps_Messages : list PullMessage; ps_End : option docker_error }.

(** The Docker API the runtime uses.  A label filter is a list of pairs. *)
Class Docker (D : Type) := {
  d_ContainerList : D -> list (string * string) -> list Container + docker_error;
  d_ContainerInspect : D -> string -> Container + docker_error;
  d_ContainerCreate : D -> CreateRequest -> string -> (string + docker_error) * D;
  d_ContainerStart : D -> string -> option docker_error * D;
  d_ContainerRemove : D -> string -> option docker_error * D;
  d_ContainerStop : D -> string -> option docker_error * D;
  d_VolumeCreate : D -> string -> gmap string string -> option docker_error * D;
  d_ImageInspect : D -> string -> option docker_error;
  d_ImagePull : D -> string -> string -> (PullStream + docker_error) * D }.

Definition has_labels (f : list (string * string)) (c : Container) : bool :=
  forallb (fun kv => bool_decide (ct_Labels c !! kv.1 = Some kv.2)) f.

(** [gpuAlive]: the states in which a container still holds its cards. *)
Definition gpuAlive (state : string) : bool :=
  bool_decide (state ∈ ["running"; "restarting"; "created"; "paused"]).

(** What a container was created with. *)
Definition same_config (c c' : Container) : Prop :=
  ct_ID c' = ct_ID c /\ ct_Name c' = ct_Name c /\ ct_Labels c' = ct_Labels c /\
  ct_DeviceRequests c' = ct_DeviceRequests c /\ ct_Aliases c' = ct_Aliases c.

(** What the runtime relies on, in terms of the containers the daemon holds. *)
Class DockerLaws (D : Type) `{Docker D} := {
  containers : D -> list Container;
  (** a list holds exactly the containers with the labels, in some order *)
  law_list d f cs : d_ContainerList d f = inl cs -> cs ≡ₚ List.filter (has_labels f) (containers d);
  (** inspect shows the container with the id *)
  law_inspect d id c : d_ContainerInspect d id = inl c -> c ∈ containers d /\ ct_ID c = id;
  (** create adds one container with the configuration and a new id; a failed
      create adds none *)
  law_create d req name : match d_ContainerCreate d req name with
    | (inl id, d') => exists c, containers d' = containers d ++ [c] /\ ct_ID c = id /\ ct_Name c = name /\
        ct_Labels c = cr_Labels req /\ ct_Aliases c = cr_Aliases req /\
        ct_DeviceRequests c = cr_DeviceRequests req /\ forall c', c' ∈ containers d -> ct_ID c' <> id
    | (inr _, d') => containers d' = containers d
    end;
  (** start and stop change at most the state of their container, not what it
      was created with *)
  law_start d id : Forall2 (fun c c' => same_config c c' /\ (ct_ID c <> id -> c' = c))
    (containers d) (containers (d_ContainerStart d id).2);
  law_stop d id : Forall2 (fun c c' => same_config c c' /\ (ct_ID c <> id -> c' = c))
    (containers d) (containers (d_ContainerStop d id).2);
  (** after a successful remove, or one that finds nothing, its container is
      gone; another failed remove may have taken it away *)
  law_remove d id : match d_ContainerRemove d id with
    | (None, d') | (Some (DockerNotFound _), d') => containers d' = filter (fun c => ct_ID c <> id) (containers d)
    | (Some _, d') => containers d' = containers d \/ containers d' = filter (fun c => ct_ID c <> id) (containers d)
    end;
  (** ids are unique *)
  law_ids d : NoDup (map ct_ID (containers d));
  (** a device request has a count or a list of devices, not both *)
  law_devices d c dr : c ∈ containers d -> dr ∈ ct_DeviceRequests c -> dr_Count dr <> 0%Z -> dr_DeviceIDs dr = [];
  law_volume d name labels : containers (d_VolumeCreate d name labels).2 = containers d;
  law_pull d ref auth : containers (d_ImagePull d ref auth).2 = containers d }.

Lemma law_list_elem {D} `{DockerLaws D} d f cs c :
  d_ContainerList d f = inl cs -> c ∈ cs <-> c ∈ containers d /\ has_labels f c = true.
Proof. intros ->%law_list. by rw list_elem_of_In filter_In -list_elem_of_In. Qed.

(** ** Engine calls *)

Section Engine.
Context {D : Type} `{Docker D}.
(** The network of the workloads, the hash of long names, and the random
    suffixes, numbered in the order they are drawn. *)
Context (net : string) (shortHash : bytes -> bytes) (suffixes : nat -> string).
(** The registry credentials, when a Docker configuration file is given. *)
Context (resolveAuth : option (string -> string + error)).

(** [managedFilter] *)
Definition managedFilter (kind namespace name : string) : list (string * string) :=
  [(LabelManaged, "true"); (LabelResourceKind, kind); (LabelNamespace, namespace); (LabelName, name)].

(** [listContainers] *)
Definition listContainers (kind namespace name : string) (d : D) : list Container + docker_error :=
  d_ContainerList d (managedFilter kind namespace name).

(** The loop of [pullImage] over the progress messages. *)
Definition pull_message_error (m : PullMessage) : option string :=
  match pm_ErrorDetail m with
  | Some message => if negb (String.eqb message "") then Some message
                    else if negb (String.eqb (pm_Error m) "") then Some (pm_Error m) else None
  | None => if negb (String.eqb (pm_Error m) "") then Some (pm_Error m) else None
  end.

Definition read_pull (ref : string) (st : PullStream) : option error :=
  match head (omap pull_message_error (ps_Messages st)) with
  | Some text => Some (Errorf ("pull image '" ++ ref ++ "'") (ErrOther text))
  | None => match ps_End st with
            | None => None
            | Some e => Some (Errorf ("read pull response for image '" ++ ref ++ "'") (docker_err e))
            end
  end.

(** [pullImage] *)
Definition pullImage (ref : string) (d : D) : option error * D :=
  match match resolveAuth with Some resolve => resolve ref | None => inl "" end with
  | inr e => (Some (Errorf ("resolve registry credentials for image '" ++ ref ++ "'") e), d)
  | inl auth =>
      match d_ImagePull d ref auth with
      | (inr e, d') => (Some (Errorf ("pull image '" ++ ref ++ "'") (docker_err e)), d')
      | (inl st, d') => (read_pull ref st, d')
      end
  end.

(** [ensureImage] *)
Definition ensureImage (ref policy : string) (d : D) : option error * D :=
  let pull := let '(err, d') := pullImage ref d in (NewTerminalApplyError err, d') in
  let inspect_error e := Some (Errorf ("inspect image '" ++ ref ++ "'") (docker_err e)) in
  if String.eqb policy "Always" then pull
  else if String.eqb policy "IfNotPresent"
  then match d_ImageInspect d ref with
       | None => (None, d)
       | Some e => if negb (IsNotFoundErr e) then (inspect_error e, d) else pull
       end
  else if String.eqb policy "Never"
  then match d_ImageInspect d ref with
       | None => (None, d)
       | Some e =>
           (if IsNotFoundErr e
            then NewTerminalApplyError (Some (ErrOther ("image '" ++ ref ++
                   "' is not present locally and imagePullPolicy is Never")))
            else inspect_error e, d)
       end
  else (NewTerminalApplyError (Some (ErrOther ("unsupported imagePullPolicy '" ++ policy ++ "' for image '" ++ ref ++ "'"))), d).

(** The retry loop of [createAndStart]: a name conflict of a generated name
    gets a new suffix, [attempts] times.  The request is not rebuilt.  It
    returns the plan with the name last tried. *)
Fixpoint create_retry (attempts suffix : nat) (last : docker_error) (req : CreateRequest) (p : ContainerPlan) (d : D)
  : (string + error) * ContainerPlan * D :=
  match attempts with
  | O => (inr (Errorf ("create container '" ++ cp_Name p ++ "' after suffix retries") (docker_err last)), p, d)
  | S n =>
      match d_ContainerCreate d req (cp_Name p) with
      | (inl id, d') => (inl id, p, d')
      | (inr e, d') =>
          if negb (IsConflictErr e) || cp_StableOrdinal p || String.eqb (cp_NamePrefix p) ""
          then (inr (Errorf ("create container '" ++ cp_Name p ++ "'") (docker_err e)), p, d')
          else create_retry n (S suffix) e req
                 (with_name p (instanceName shortHash (suffixes suffix) (cp_NamePrefix p) (cp_Replica p) false)) d'
      end
  end.

(** [createAndStart]; it draws at most five suffixes from [suffix] on. *)
Definition createAndStart (suffix : nat) (p : ContainerPlan) (d : D) : option error * ContainerPlan * D :=
  match create_retry 5 suffix (DockerFailed "") (toDocker net p) p d with
  | (inr e, p', d') => (Some e, p', d')
  | (inl id, p', d') =>
      match d_ContainerStart d' id with
      | (None, d2) => (None, p', d2)
      | (Some e, d2) =>
          (Some (Errorf ("start container '" ++ cp_Name p' ++ "'") (docker_err e)), p', (d_ContainerRemove d2 id).2)
      end
  end.

(** [removeContainer], [stopContainer]: a missing container is no error. *)
Definition removeContainer (id : string) (d : D) : option error * D :=
  match d_ContainerRemove d id with
  | (Some e, d') => (if negb (IsNotFoundErr e) then Some (docker_err e) else None, d')
  | (None, d') => (None, d')
  end.

Definition stopContainer (id : string) (d : D) : option error * D :=
  match d_ContainerStop d id with
  | (Some e, d') => (if negb (IsNotFoundErr e) then Some (docker_err e) else None, d')
  | (None, d') => (None, d')
  end.

(** [ensureVolume] *)
Definition ensureVolume (name : string) (labels : gmap string string) (d : D) : option error * D :=
  match d_VolumeCreate d name labels with
  | (Some e, d') => (Some (docker_err e), d')
  | (None, d') => (None, d')
  end.

(** ** States *)

(** [instState] *)
Record instState := {
  is_name : string;
  is_id : string;
  is_image : string;
  is_status : string;
  is_exitCode : Z;
  is_oom : bool;
  is_startedAt : option Z;
  is_finishedAt : option Z;
  is_health : string;
  is_tenant : string;
  is_role : string;
  is_replica : string }.

(** [containerSlot], [planSlot] *)
Definition slot_of (labels : gmap string string) : string :=
  (map_get "" labels LabelRole ++ "/" ++ map_get "" labels LabelReplicaIndex)%string.

Definition containerSlot (c : Container) : string := slot_of (ct_Labels c).
Definition planSlot (p : ContainerPlan) : string := slot_of (cp_Labels p).

(** [indexBySlot]: later containers win. *)
Definition indexBySlot (conts : list Container) : gmap string Container :=
  foldl (fun m c => <[containerSlot c := c]> m) ∅ conts.

(** The normalized state of one inspected container. *)
Definition inst_state (c ins : Container) : instState :=
  {| is_name := ct_Name c; is_id := ct_ID c; is_image := ct_Image c; is_status := ct_State ins;
     is_exitCode := ct_ExitCode ins; is_oom := ct_OOMKilled ins; is_startedAt := ct_StartedAt ins;
     is_finishedAt := ct_FinishedAt ins; is_health := ct_Health ins;
     is_tenant := map_get "" (ct_Labels c) LabelTenant; is_role := map_get "" (ct_Labels c) LabelRole;
     is_replica := map_get "" (ct_Labels c) LabelReplicaIndex |}.

(** [inspectAll] *)
Fixpoint inspectAll (conts : list Container) (d : D) : list instState + docker_error :=
  match conts with
  | [] => inl []
  | c :: rest =>
      match d_ContainerInspect d (ct_ID c) with
      | inr e => inr e
      | inl ins => match inspectAll rest d with inl out => inl (inst_state c ins :: out) | inr e => inr e end
      end
  end.

(** [ready] *)
Definition ready (s : instState) : bool :=
  if negb (String.eqb (is_status s) "running") then false
  else if String.eqb (is_health s) "" then true
  else String.eqb (is_health s) "healthy".
End Engine.
