(* ===== verification/DockerGPU.v ===== *)
(** * Standalone runtime: GPU allocation

    [gpu.go]: which cards the host hands out, which of them live containers
    hold according to their labels, and the assignment of cards to the
    containers about to be created. *)

From Stdlib Require Import ssreflect ZArith Lia Ascii String.
From stdpp Require Import base gmap list strings sorting.
From S2P Require Import Prelude ApiTypes Names Strconv Listing DockerEngine.

Open Scope Z_scope.

(** ** Device lists *)

(** [parseDeviceList]: parts that are not numbers are skipped. *)
Definition parseDeviceList (s : string) : list Z :=
  omap (fun part => let t := TrimSpace part in match t with [] => None | _ => Atoi t end)
    (SplitComma (list_ascii_of_string s)).

(** [strings.Join(ids, ",")] of the indices in decimal. *)
Definition device_id (d : Z) : string := string_of_list_ascii (Itoa d).
Definition device_label (ids : list string) : string := Join ids ",".

(** The loop of [newGPUAllocator]: non-negative, first occurrence only. *)
Definition add_device (out : list Z) (d : Z) : list Z :=
  if (0 <=? d) && negb (bool_decide (d ∈ out)) then out ++ [d] else out.

Definition int_less (a b : Z) : bool := a <? b.

(** [newGPUAllocator]: the schedulable cards. *)
Definition newGPUAllocator (devices : list Z) : list Z := sort_slice int_less (foldl add_device [] devices).

(** [ResolveGPUDevices] *)
Definition ResolveGPUDevices (spec : string) : list Z + error :=
  let parts := SplitComma (TrimSpace (list_ascii_of_string spec)) in
  match TrimSpace (list_ascii_of_string spec) with
  | [] => inl []
  | _ =>
      match fold_err (fun out part =>
        let t := TrimSpace part in
        match t with
        | [] => inl out
        | _ =>
            match Atoi t with
            | Some n =>
                if n <? 0
                then inr (ErrOther ("invalid GPU device index '" ++ string_of_list_ascii t ++ "' in gpu.devices"))
                else inl (if bool_decide (n ∈ out) then out else out ++ [n])
            | None => inr (ErrOther ("invalid GPU device index '" ++ string_of_list_ascii t ++ "' in gpu.devices"))
            end
        end) [] parts with
      | inl out => inl (sort_slice int_less out)
      | inr e => inr e
      end
  end.

(** ** Occupancy *)

(** [capsHaveGPU] *)
Definition capsHaveGPU (caps : list (list string)) : bool :=
  existsb (existsb (fun c => String.eqb c "gpu")) caps.

(** The cards the device requests of a container without a label reserve. *)
Definition requested_gpus (drs : list DeviceRequest) : Z :=
  foldl (fun n dr =>
    if negb (String.eqb (dr_Driver dr) "nvidia") && negb (capsHaveGPU (dr_Capabilities dr)) then n
    else if 0 <? dr_Count dr then n + dr_Count dr
    else n + Z.of_nat (length (dr_DeviceIDs dr))) 0 drs.

(** [dockerGPUCount] of [inventory.go]; a negative count asks for all cards. *)
Definition dockerGPUCount (drs : list DeviceRequest) (assigned : string) (managedCapacity : Z) : Z :=
  if negb (String.eqb assigned "") then Z.of_nat (length (parseDeviceList assigned))
  else foldl (fun n dr =>
    if negb (String.eqb (dr_Driver dr) "nvidia") && negb (capsHaveGPU (dr_Capabilities dr)) then n
    else if 0 <? dr_Count dr then n + dr_Count dr
    else if dr_Count dr <? 0 then n + managedCapacity
    else n + Z.of_nat (length (dr_DeviceIDs dr))) 0 drs.

(** The cards a container's label names. *)
Definition label_devices (c : Container) : list Z := parseDeviceList (map_get "" (ct_Labels c) LabelGPUDevices).

Section Scan.
Context {D : Type} `{Docker D}.

(** [legacyGPUCount] *)
Definition legacyGPUCount (id : string) (d : D) : Z + docker_error :=
  match d_ContainerInspect d id with
  | inr e => inr e
  | inl ins => inl (requested_gpus (ct_DeviceRequests ins))
  end.

(** One iteration of the scan: busy cards and cards of unknown position. *)
Definition scan_container (d : D) (acc : list Z * Z) (c : Container) : (list Z * Z) + docker_error :=
  let '(busy, untracked) := acc in
  if negb (gpuAlive (ct_State c)) then inl acc
  else if negb (String.eqb (map_get "" (ct_Labels c) LabelGPUDevices) "")
  then inl (busy ++ label_devices c, untracked)
  else match legacyGPUCount (ct_ID c) d with
       | inr e => inr e
       | inl n => inl (busy, untracked + n)
       end.

(** [busyGPUDevices]; the set of busy cards is a list here. *)
Definition busyGPUDevices (d : D) : (list Z * Z) + docker_error :=
  match d_ContainerList d [(LabelManaged, "true")] with
  | inr e => inr e
  | inl conts => fold_err (scan_container d) ([], 0) conts
  end.
End Scan.

(** ** Assignment *)

(** The loop that hands the free cards out; [None] is the panic of a negative
    length. *)
Fixpoint hand_out (free : list Z) (needs : list Z) : option (list (list Z)) :=
  match needs with
  | [] => Some []
  | n :: rest =>
      if n <? 0 then None
      else out ← hand_out (drop (Z.to_nat n) free) rest; Some (take (Z.to_nat n) free :: out)
  end.

Definition total_needs (needs : list Z) : Z := foldl Z.add 0 needs.

(** The cards that are neither busy nor set aside for unlabelled containers. *)
Definition free_devices (schedulable busy : list Z) (untracked : Z) : list Z :=
  let free := List.filter (fun d => negb (bool_decide (d ∈ busy))) schedulable in
  if 0 <? untracked
  then if Z.of_nat (length free) <=? untracked then [] else drop (Z.to_nat untracked) free
  else free.

Inductive unavailable := ExceedsCapacity (total capacity : Z) | WaitForFree (total free : Z).

(** [computeAssignment] *)
Definition computeAssignment (schedulable busy : list Z) (untracked : Z) (needs : list Z)
  : option (list (list Z) + unavailable) :=
  let total := total_needs needs in
  if Z.of_nat (length schedulable) <? total
  then Some (inr (ExceedsCapacity total (Z.of_nat (length schedulable))))
  else
    let free := free_devices schedulable busy untracked in
    if Z.of_nat (length free) <? total then Some (inr (WaitForFree total (Z.of_nat (length free))))
    else out ← hand_out free needs; Some (inl out).

(** Pinning a plan to its cards: device ids and label. *)
Definition pin_devices (p : ContainerPlan) (devs : list Z) : ContainerPlan :=
  match devs with
  | [] => p
  | _ =>
      let ids := map device_id devs in
      with_devices p ids (<[LabelGPUDevices := device_label ids]> (cp_Labels p))
  end.

(** The error of a failed assignment. *)
Definition unavailable_error (u : unavailable) : error :=
  match u with
  | ExceedsCapacity total capacity =>
      ResourceUnavailableError ("请求 " ++ device_id total ++ " 张 GPU 超过可调度容量 " ++ device_id capacity)
  | WaitForFree total free =>
      ResourceUnavailableError ("等待可用 GPU（需 " ++ device_id total ++ "，空闲 " ++ device_id free ++ "）")
  end.

Section Assign.
Context {D : Type} `{Docker D} (schedulable : list Z).

(** [assignGPUsLocked] *)
Definition assignGPUsLocked (toCreate : list ContainerPlan) (d : D) : option (list ContainerPlan + error) :=
  match busyGPUDevices d with
  | inr e => Some (inr (docker_err e))
  | inl (busy, untracked) =>
      match computeAssignment schedulable busy untracked (map (fun p => rp_GPUCount (cp_Resources p)) toCreate) with
      | None => None
      | Some (inr u) => Some (inr (unavailable_error u))
      | Some (inl assign) => Some (inl (zip_with pin_devices toCreate assign))
      end
  end.
End Assign.

(** ** The assignment is exact *)

Lemma total_needs_cons n needs : total_needs (n :: needs) = n + total_needs needs.
Proof.
  rw /total_needs /=. assert (Hg : forall l a, foldl Z.add a l = a + foldl Z.add 0 l).
  { induction l as [|x l IH]; intros a; simpl; [lia|]. rw IH (IH x). lia. }
  rw (Hg needs (0 + n)). lia.
Qed.

Lemma total_needs_nonneg needs : Forall (fun n => 0 <= n) needs -> 0 <= total_needs needs.
Proof. induction 1 as [|n needs Hn _ IH]; [done|]. rw total_needs_cons. lia. Qed.

(** Handing out enough cards gives each plan its number, from the front. *)
Lemma hand_out_spec free needs :
  Forall (fun n => 0 <= n) needs -> total_needs needs <= Z.of_nat (length free) ->
  exists out, hand_out free needs = Some out /\ Forall2 (fun n devs => Z.of_nat (length devs) = n) needs out /\
    concat out = take (Z.to_nat (total_needs needs)) free.
Proof.
  intros Hn. revert free. induction Hn as [|n needs Hn Hns IH]; intros free Ht; simpl.
  { exists []. by split_and!. }
  rw total_needs_cons in Ht. pose proof (total_needs_nonneg _ Hns) as Hpos.
  destruct (Z.ltb_spec n 0); [lia|].
  destruct (IH (drop (Z.to_nat n) free)) as (out & E & HF & Hc); [rw length_drop; lia|].
  exists (take (Z.to_nat n) free :: out). rw E. split_and!; [done| |].
  - constructor; [rw length_take; lia|done].
  - simpl. rw Hc total_needs_cons Z2Nat.inj_add //. by rw take_take_drop.
Qed.

Lemma free_devices_elem schedulable busy untracked d :
  d ∈ free_devices schedulable busy untracked -> d ∈ schedulable /\ d ∉ busy.
Proof.
  assert (Hf : forall x, x ∈ List.filter (fun d => negb (bool_decide (d ∈ busy))) schedulable -> x ∈ schedulable /\ x ∉ busy).
  { intros x. rw list_elem_of_In filter_In -list_elem_of_In. intros [? ?]. by unbool. }
  rw /free_devices. case_match; [|apply Hf]. case_match; [by intros ?%elem_of_nil|].
  intros Hd. apply Hf. rw -(take_drop (Z.to_nat untracked) (List.filter _ _)). apply elem_of_app. by right.
Qed.

Lemma free_devices_NoDup schedulable busy untracked :
  NoDup schedulable -> NoDup (free_devices schedulable busy untracked).
Proof.
  intros Hnd. assert (Hf : NoDup (List.filter (fun d => negb (bool_decide (d ∈ busy))) schedulable)).
  { apply NoDup_ListNoDup, List.NoDup_filter. by apply NoDup_ListNoDup. }
  rw /free_devices. case_match; [|done]. case_match; [constructor|].
  eapply sublist_NoDup; [exact Hf|apply sublist_drop].
Qed.

Lemma concat_NoDup_parts {A} (ls : list (list A)) i j l1 l2 x :
  NoDup (concat ls) -> ls !! i = Some l1 -> ls !! j = Some l2 -> x ∈ l1 -> x ∈ l2 -> i = j.
Proof.
  revert i j. induction ls as [|l ls IH]; intros i j Hnd Hi Hj H1 H2; [done|]. simpl in Hnd.
  apply NoDup_app in Hnd as (_ & Hdis & Hnd).
  assert (Hin : forall k l', ls !! k = Some l' -> x ∈ l' -> x ∈ concat ls).
  { intros k l' Hk Hx. apply list_elem_of_In, in_concat. exists l'.
    rw -!list_elem_of_In. split; [by eapply list_elem_of_lookup_2|done]. }
  destruct i as [|i], j as [|j]; simpl in *; simplify_eq; [done|..].
  - exfalso. by eapply Hdis, Hin.
  - exfalso. by eapply Hdis, Hin.
  - f_equal. by eapply IH.
Qed.

Lemma concat_NoDup_part {A} (ls : list (list A)) l : NoDup (concat ls) -> l ∈ ls -> NoDup l.
Proof.
  intros Hnd Hl. induction Hl as [l ls|l l' ls Hl IH]; simpl in Hnd; apply NoDup_app in Hnd as (?&?&?); auto.
Qed.

(** What an assignment gives to the plans. *)
Record assigned (schedulable busy needs : list Z) (out : list (list Z)) : Prop := {
  as_counts : Forall2 (fun n devs => Z.of_nat (length devs) = n) needs out;
  as_distinct : NoDup (concat out);
  as_free d : d ∈ concat out -> d ∈ schedulable /\ d ∉ busy }.

Lemma computeAssignment_spec schedulable busy untracked needs :
  NoDup schedulable -> Forall (fun n => 0 <= n) needs ->
  (total_needs needs <= Z.of_nat (length (free_devices schedulable busy untracked)) /\
   exists out, computeAssignment schedulable busy untracked needs = Some (inl out) /\
     assigned schedulable busy needs out) \/
  (Z.of_nat (length (free_devices schedulable busy untracked)) < total_needs needs /\
   exists u, computeAssignment schedulable busy untracked needs = Some (inr u)).
Proof.
  intros Hnd Hn. rw /computeAssignment. set (free := free_devices schedulable busy untracked).
  assert (Hle : Z.of_nat (length free) <= Z.of_nat (length schedulable)).
  { apply Nat2Z.inj_le, submseteq_length, NoDup_submseteq; [by apply free_devices_NoDup|].
    intros d Hd. by apply free_devices_elem in Hd as [? _]. }
  destruct (Z.ltb_spec (Z.of_nat (length schedulable)) (total_needs needs)) as [Hc|Hc].
  { right. split; [lia|]. by eexists. }
  destruct (Z.ltb_spec (Z.of_nat (length free)) (total_needs needs)) as [Hf|Hf].
  { right. split; [lia|]. by eexists. }
  left. split; [lia|]. destruct (hand_out_spec free needs Hn Hf) as (out & E & HF & Hcat).
  exists out. rw E. split; [done|]. split; [done|..]; rw Hcat.
  - eapply sublist_NoDup; [by apply free_devices_NoDup|apply sublist_take].
  - intros d Hd. eapply (free_devices_elem _ _ untracked). rw -/free -(take_drop (Z.to_nat (total_needs needs)) free).
    apply elem_of_app. by left.
Qed.
