(* ===== verification/DockerFacts.v ===== *)
(** * Standalone runtime: facts on devices and containers

    The device label is read back as it was written; what the occupancy scan
    sees; and how the engine calls change the set of containers. *)

From Stdlib Require Import ssreflect ZArith Lia Ascii String.
From stdpp Require Import base gmap list strings.
From S2P Require Import Prelude ApiTypes Names Strconv Listing DockerEngine DockerGPU.

Open Scope Z_scope.

(** ** The device label *)

Definition is_digit (c : ascii) : bool := in_range 48 57 c.

Lemma digit_char_digit d : 0 <= d < 10 -> is_digit (digit_char d) = true.
Proof.
  intros Hd. pose proof (char_digit_char d Hd) as H. rw /char_digit in H. rw /is_digit. by destruct (in_range 48 57 _).
Qed.

Lemma format_digits_digits fuel n acc :
  0 <= n -> forallb is_digit acc = true -> forallb is_digit (format_digits fuel n acc) = true.
Proof.
  revert n acc. induction fuel as [|f IH]; intros n acc Hn Ha; [done|]. cbn [format_digits].
  destruct (Z.ltb_spec n 10).
  - cbn [forallb]. by rw Ha digit_char_digit; [lia|].
  - apply IH; [by apply Z.div_pos|]. cbn [forallb].
    by rw Ha digit_char_digit; [apply Z.mod_pos_bound|].
Qed.

Lemma Itoa_digits n : 0 <= n -> forallb is_digit (Itoa n) = true.
Proof. intros Hn. rw /Itoa. destruct (Z.ltb_spec n 0); [lia|]. by apply format_digits_digits. Qed.

(** Digits are not white space. *)
Lemma digit_no_space c : is_digit c = true ->
  forallb (fun e => match e with d :: _ => negb (Ascii.eqb d c) | [] => false end)
    (space_encodings ++ map (@rev ascii) space_encodings) = true.
Proof. destruct c as [[] [] [] [] [] [] [] []]; vm_compute; congruence. Qed.

Lemma trim_front_none encs fuel c s :
  forallb (fun e => match e with d :: _ => negb (Ascii.eqb d c) | [] => false end) encs = true ->
  trim_front encs fuel (c :: s) = c :: s.
Proof.
  intros He. destruct fuel as [|f]; [done|]. cbn [trim_front].
  destruct (list_find _ encs) as [[i e]|] eqn:E; [|done].
  apply list_find_Some in E as (Hi & [s' Hs] & _).
  rw forallb_forall in He. specialize (He e (proj1 (list_elem_of_In _ _) (list_elem_of_lookup_2 _ _ _ Hi))).
  destruct e as [|d e]; [done|]. unbool. cbn [strip_prefix] in Hs. by rw He in Hs.
Qed.

Lemma TrimSpace_digits s : forallb is_digit s = true -> TrimSpace s = s.
Proof.
  intros Hs. destruct s as [|c s]; [done|]. cbn [forallb] in Hs. apply andb_true_iff in Hs as [Hc Hs].
  pose proof (digit_no_space c Hc) as H1. rw forallb_app in H1. apply andb_true_iff in H1 as [H1 _].
  rw /TrimSpace trim_front_none //.
  destruct (rev (c :: s)) as [|l r] eqn:Er; [by apply (f_equal (@rev ascii)) in Er; rw rev_involutive in Er|].
  assert (Hl : is_digit l = true).
  { assert (Hin : l ∈ c :: s) by (apply list_elem_of_In, in_rev; rw Er; by left).
    apply elem_of_cons in Hin as [->|Hin]; [done|]. rw forallb_forall in Hs.
    by apply Hs, list_elem_of_In. }
  pose proof (digit_no_space l Hl) as H2. rw forallb_app in H2. apply andb_true_iff in H2 as [_ H2].
  rw trim_front_none // -Er. apply rev_involutive.
Qed.

Lemma bytes_app a b : list_ascii_of_string (a ++ b) = list_ascii_of_string a ++ list_ascii_of_string b.
Proof.
  induction a as [|c a IH]; [done|]. change (String c a ++ b)%string with (String c (a ++ b)%string).
  simpl. by rw IH.
Qed.

Lemma SplitComma_part p rest :
  forallb is_digit p = true -> SplitComma (p ++ ","%char :: rest) = p :: SplitComma rest.
Proof.
  induction p as [|c p IH]; [done|]. cbn [forallb app SplitComma]. intros [Hc Hp]%andb_true_iff.
  destruct (Ascii.eqb_spec c ","%char) as [->|]; [done|]. by rw IH.
Qed.

Lemma SplitComma_last p : forallb is_digit p = true -> SplitComma p = [p].
Proof.
  induction p as [|c p IH]; [done|]. cbn [forallb SplitComma]. intros [Hc Hp]%andb_true_iff.
  destruct (Ascii.eqb_spec c ","%char) as [->|]; [done|]. by rw IH.
Qed.

(** Reading a device label back gives the devices. *)
Lemma device_label_roundtrip devs :
  Forall (fun d => 0 <= d <= int64_max) devs -> devs <> [] ->
  parseDeviceList (device_label (map device_id devs)) = devs.
Proof.
  intros Hd Hne. rw /parseDeviceList.
  assert (Hsplit : SplitComma (list_ascii_of_string (device_label (map device_id devs))) = map Itoa devs).
  { induction Hd as [|d devs Hd Hds IH]; [done|]. destruct devs as [|d2 devs].
    - simpl. rw /device_id list_ascii_of_string_of_list_ascii. apply SplitComma_last, Itoa_digits. lia.
    - change (device_label (map device_id (d :: d2 :: devs)))
        with (device_id d ++ "," ++ device_label (map device_id (d2 :: devs)))%string.
      rw bytes_app {1}/device_id list_ascii_of_string_of_list_ascii.
      change (list_ascii_of_string ("," ++ device_label (map device_id (d2 :: devs))))
        with (","%char :: list_ascii_of_string (device_label (map device_id (d2 :: devs)))).
      rw SplitComma_part; [apply Itoa_digits; lia|]. by rw IH. }
  rw Hsplit. clear Hsplit Hne. induction Hd as [|d devs Hd Hds IH]; [done|]. simpl.
  rw TrimSpace_digits; [apply Itoa_digits; lia|].
  destruct (Itoa d) as [|c s] eqn:E; [by apply Itoa_nonempty in E|]. rw -E Atoi_Itoa.
  - rw /in_int64 /int64_min. lia.
  - f_equal. exact IH.
Qed.

(** ** What the scan sees *)

Section Scan.
Context {D : Type} `{DockerLaws D}.
Implicit Types (d : D) (c : Container).

Definition managed c : bool := has_labels [(LabelManaged, "true")] c.

Lemma scan_busy d conts acc busy untracked :
  fold_err (scan_container d) acc conts = inl (busy, untracked) ->
  acc.1 ⊆ busy /\ forall c, c ∈ conts -> gpuAlive (ct_State c) = true -> label_devices c ⊆ busy.
Proof.
  revert acc. induction conts as [|c conts IH]; intros [b u]; simpl.
  { intros [= <- <-]. split; [done|]. by intros ? ?%elem_of_nil. }
  destruct (gpuAlive (ct_State c)) eqn:Ha; cbn [negb].
  - destruct (String.eqb_spec (map_get "" (ct_Labels c) LabelGPUDevices) "") as [El|El]; cbn [negb].
    + destruct (legacyGPUCount (ct_ID c) d) as [n|e]; [|done]. intros E. destruct (IH _ E) as [H1 H2].
      split; [done|]. intros c' [->|Hc]%elem_of_cons Hl; [|by apply H2].
      rw /label_devices El. by intros x Hx%elem_of_nil.
    + intros E. destruct (IH _ E) as [H1 H2]. simpl in H1. split; [set_solver|].
      intros c' [->|Hc]%elem_of_cons Hl; [set_solver|by apply H2].
  - intros E. destruct (IH _ E) as [H1 H2]. split; [done|].
    intros c' [->|Hc]%elem_of_cons Hl; [congruence|by apply H2].
Qed.

Lemma busyGPUDevices_complete d busy untracked c :
  busyGPUDevices d = inl (busy, untracked) -> c ∈ containers d -> managed c = true ->
  gpuAlive (ct_State c) = true -> label_devices c ⊆ busy.
Proof.
  rw /busyGPUDevices. destruct (d_ContainerList d _) as [conts|e] eqn:El; [|done].
  intros [_ Hb]%scan_busy Hc Hm. apply Hb. by apply (law_list_elem d _ conts _ El).
Qed.

(** ** How calls change the containers *)

(** The container a plan becomes. *)
Definition made_from req c : Prop :=
  ct_Labels c = cr_Labels req /\ ct_Aliases c = cr_Aliases req /\ ct_DeviceRequests c = cr_DeviceRequests req.

Lemma create_retry_containers hash suffixes n k last req p d :
  match create_retry hash suffixes n k last req p d with
  | (inl id, p', d') => exists c, containers d' = containers d ++ [c] /\ ct_ID c = id /\ ct_Name c = cp_Name p' /\
      made_from req c /\ forall c', c' ∈ containers d -> ct_ID c' <> id
  | (inr _, p', d') => containers d' = containers d
  end.
Proof.
  revert k last p d. induction n as [|n IH]; intros k last p d; simpl; [done|].
  pose proof (law_create d req (cp_Name p)) as Hl. destruct (d_ContainerCreate d req (cp_Name p)) as [[id|e] d'] eqn:E.
  { destruct Hl as (c & Ec & Hid & Hn & Hlab & Hal & Hdev & Hfr). by exists c. }
  destruct (negb (IsConflictErr e) || cp_StableOrdinal p || String.eqb (cp_NamePrefix p) ""); [done|].
  match goal with |- context [create_retry _ _ n (S k) e req ?p' d'] => specialize (IH (S k) e p' d') end.
  destruct (create_retry _ _ _ _ _ _ _ _) as [[[id|e2] p2] d2].
  - destruct IH as (c & Ec & Hid & Hn & Hm & Hfr). exists c. rw Ec Hl. split_and!; try done. by rw -Hl.
  - by rw IH.
Qed.

(** What a call may do to a list of containers: change the state of those with
    an id, and keep everything else. *)
Lemma same_config_others l l' id :
  Forall2 (fun c c' => same_config c c' /\ (ct_ID c <> id -> c' = c)) l l' ->
  (forall c, c ∈ l -> ct_ID c <> id) -> l' = l.
Proof.
  induction 1 as [|x y lx ly [_ Hx] _ IH]; intros Hfr; [done|].
  f_equal; [apply Hx, Hfr; by left|]. apply IH. intros. apply Hfr. by right.
Qed.

Lemma filter_other_ids (l : list Container) id :
  (forall c, c ∈ l -> ct_ID c <> id) -> filter (fun c => ct_ID c <> id) l = l.
Proof.
  induction l as [|x l IH]; intros Hfr; [done|]. rw filter_cons_True; [apply Hfr; by left|].
  f_equal. apply IH. intros. apply Hfr. by right.
Qed.

(** Creating and starting a container adds at most one container, made from
    the plan, and changes no other; on success it adds one, with the name of
    the plan it returns. *)
Lemma createAndStart_containers net hash suffixes k p d :
  match createAndStart net hash suffixes k p d with
  | (err, p', d') =>
    (err <> None /\ containers d' = containers d) \/
    exists c, containers d' = containers d ++ [c] /\ ct_Name c = cp_Name p' /\ made_from (toDocker net p) c /\
      forall c', c' ∈ containers d -> ct_ID c' <> ct_ID c
  end.
Proof.
  rw /createAndStart. pose proof (create_retry_containers hash suffixes 5 k (DockerFailed "") (toDocker net p) p d) as Hc.
  destruct (create_retry _ _ _ _ _ _ _ _) as [[[id|e] p'] d1]; [|by left].
  destruct Hc as (c & Ec & Hid & Hn & (Hlab & Hal & Hdev) & Hfr).
  pose proof (law_start d1 id) as Hs. rw Ec in Hs. destruct (d_ContainerStart d1 id) as [r d2]. simpl in Hs.
  apply Forall2_app_inv_l in Hs as (l1 & l2 & Hs1 & Hs2 & E2).
  apply Forall2_cons_inv_l in Hs2 as (c' & l3 & [(Ii & In & Il & Id & Ia) _] & Hnil & ->). apply Forall2_nil_inv_l in Hnil as ->.
  apply same_config_others in Hs1 as ->; [|done].
  assert (Hsucc : exists c, containers d2 = containers d ++ [c] /\ ct_Name c = cp_Name p' /\ made_from (toDocker net p) c /\
    forall c', c' ∈ containers d -> ct_ID c' <> ct_ID c).
  { exists c'. split_and!; [done|congruence| |]; [rw /made_from; split_and!; congruence|].
    intros x Hx. rw Ii Hid. by apply Hfr. }
  destruct r as [e|]; [|by right]. simpl.
  pose proof (law_remove d2 id) as Hr. destruct (d_ContainerRemove d2 id) as [re d3]. simpl.
  assert (Hf : filter (fun c => ct_ID c <> id) (containers d2) = containers d).
  { rw E2 filter_app (filter_cons_False _ c') ?filter_nil ?app_nil_r; [by rw Ii Hid; intros []|]. by apply filter_other_ids. }
  destruct re as [[]|]; try (destruct Hr as [Hr|Hr]); rw Hr; ((by right) || (left; by rw Hf)).
Qed.

(** Removing a container takes away at most the container with the id, and
    exactly that one when no error is returned. *)
Lemma removeContainer_containers id d :
  match removeContainer id d with
  | (None, d') => containers d' = filter (fun c => ct_ID c <> id) (containers d)
  | (Some _, d') => containers d' = containers d \/ containers d' = filter (fun c => ct_ID c <> id) (containers d)
  end.
Proof.
  rw /removeContainer. pose proof (law_remove d id) as Hr.
  destruct (d_ContainerRemove d id) as [[[]|] d']; simpl; done.
Qed.

(** Stopping changes at most the state of the container with the id. *)
Lemma stopContainer_containers id d :
  Forall2 (fun c c' => same_config c c' /\ (ct_ID c <> id -> c' = c)) (containers d) (containers (stopContainer id d).2).
Proof. rw /stopContainer. pose proof (law_stop d id) as Hs. by destruct (d_ContainerStop d id) as [[e|] d']. Qed.
End Scan.
