(* ===== verification/DockerRender.v ===== *)
(** * Standalone runtime: rendering workloads

    From a workload to container plans: ConfigMap references and environment
    ([configmap.go]), volume mounts ([service.go]), pull policy and limits
    ([plan.go]), and one plan per replica ([run.go], [service.go]).  The
    Kubernetes name checks, the image reference parser and the hashes are
    parameters. *)

From Stdlib Require Import ssreflect ZArith Lia Ascii String.
From stdpp Require Import base gmap list strings.
From S2P Require Import Prelude Placement ApiTypes Names Strconv Listing DockerPaths DockerEngine.

(** ** The workload objects *)

(** [corev1.EnvFromSource]; the reference is a name and its optional flag. *)
Record EnvFromSource := { ef_Prefix : string; ef_ConfigMapRef : option (string * option bool) }.

(** [corev1.ConfigMapKeySelector] *)
Record ConfigMapKeySelector := { ck_Name : string; ck_Key : string; ck_Optional : option bool }.

(** [corev1.EnvVar]; [ValueFrom] holds the key selector, if that is its kind. *)
Record EnvVar := {
  ev_Name : string;
  ev_Value : string;
  ev_ValueFrom : option (option ConfigMapKeySelector) }.

(** [corev1.KeyToPath] *)
Record KeyToPath := { kp_Key : string; kp_Path : string; kp_Mode : option Z }.

(** [corev1.ConfigMapVolumeSource] *)
Record ConfigMapVolumeSource := {
  cv_Name : string;
  cv_Optional : option bool;
  cv_DefaultMode : option Z;
  cv_Items : list KeyToPath }.

(** [corev1.Volume]; a claim is its name. *)
Record Volume := {
  vo_Name : string;
  vo_ConfigMap : option ConfigMapVolumeSource;
  vo_PersistentVolumeClaim : option string }.

(** [corev1.ContainerPort] *)
Record ContainerPort := { po_Name : string; po_ContainerPort : Z; po_Protocol : string }.

(** The pod template, decoded. *)
Record Template {Q : Type} := {
  te_Image : string;
  te_ImagePullPolicy : string;
  te_Command : list string;
  te_Args : list string;
  te_Env : list EnvVar;
  te_EnvFrom : list EnvFromSource;
  te_WorkingDir : string;
  te_Ports : list ContainerPort;
  te_Limits : gmap string Q;
  te_Volumes : list Volume;
  te_VolumeMounts : list VolumeMount }.
Arguments Template : clear implicits.

Record WorkloadRole {Q : Type} := { wr_Name : string; wr_Replicas : Z; wr_Template : Template Q }.
Arguments WorkloadRole : clear implicits.

(** An MLRun or MLService as the runtime receives it, without its route. *)
Record Workload {Q : Type} := {
  wl_Meta : ObjectMeta;
  wl_Backend : BackendSpec;
  wl_ConfigMaps : list ConfigMap;
  wl_Roles : list (WorkloadRole Q) }.
Arguments Workload : clear implicits.

(** The part of [Config] rendering reads. *)
Record Config := {
  cfg_ConfigMapsDir : string;
  cfg_ConfigMapsVolume : string;
  cfg_HostPathVolumes : gmap string string }.

(** ** Code outside the repository *)

(** The name checks of apimachinery return what is wrong with a name. *)
Record NameChecks := {
  IsDNS1123Subdomain : string -> list string;
  IsConfigMapKey : string -> list string;
  IsEnvVarName : string -> list string }.

(** What [reference.ParseNormalizedNamed] returns: whether the reference has a
    digest, and its tag. *)
Record NamedImage := { ni_Digested : bool; ni_Tag : option string }.

(** How a quantity is read: [MilliValue] and [Value]. *)
Class QuantityRead (Q : Type) := { MilliValue : Q -> Z; Value : Q -> Z }.

(** [planIdentity] *)
Record PlanIdentity := {
  pi_Image : string;
  pi_ImagePullPolicy : string;
  pi_Command : list string;
  pi_Args : list string;
  pi_Env : list string;
  pi_WorkingDir : string;
  pi_Ports : list PortPlan;
  pi_Mounts : list MountPlan;
  pi_NanoCPUs : Z;
  pi_MemoryBytes : Z;
  pi_GPUCount : Z;
  pi_RestartPolicy : string }.

Definition planIdentity (p : ContainerPlan) : PlanIdentity :=
  {| pi_Image := cp_Image p; pi_ImagePullPolicy := cp_ImagePullPolicy p; pi_Command := cp_Command p;
     pi_Args := cp_Args p; pi_Env := cp_Env p; pi_WorkingDir := cp_WorkingDir p; pi_Ports := cp_Ports p;
     pi_Mounts := cp_Mounts p; pi_NanoCPUs := rp_NanoCPUs (cp_Resources p);
     pi_MemoryBytes := rp_MemoryBytes (cp_Resources p); pi_GPUCount := rp_GPUCount (cp_Resources p);
     pi_RestartPolicy := cp_RestartPolicy p |}.

(** [formatLabelInt] *)
Definition formatLabelInt (i : Z) : string := string_of_list_ascii (Itoa i).

(** The items of a list with their index. *)
Definition indexed {A} (l : list A) : list (Z * A) := imap (fun i a => (Z.of_nat i, a)) l.

(** [strings.Join(errs, "; ")] in an error text. *)
Definition name_error (what name : string) (errs : list string) : error :=
  capabilityError (what ++ " '" ++ name ++ "' is invalid: " ++ Join errs "; ").

Section Render.
Context (chk : NameChecks).
Context (ParseNormalizedNamed : string -> NamedImage + error).
Context (shortHash : bytes -> bytes) (specHash : PlanIdentity -> string).
Context (cfg : Config).
Context {Q : Type} `{QuantityRead Q}.

(** ** ConfigMaps and environment *)

(** [newConfigMapSet]; which of several bad keys is reported is not
    determined. *)
Definition newConfigMapSet (specs : list ConfigMap) : gmap string (gmap string string) + error :=
  fold_err (fun out '(i, spec) =>
    let at_i := ("configMaps[" ++ formatLabelInt i ++ "]")%string in
    match IsDNS1123Subdomain chk (cm_Name spec) with
    | (_ :: _) as errs => inr (name_error (at_i ++ ".name") (cm_Name spec) errs)
    | [] =>
        match out !! cm_Name spec with
        | Some _ => inr (capabilityError (at_i ++ ".name '" ++ cm_Name spec ++ "' is duplicated"))
        | None =>
            match List.find (fun kv => negb (bool_decide (IsConfigMapKey chk kv.1 = []))) (map_to_list (cm_Data spec)) with
            | Some kv => inr (name_error (at_i ++ ".data key") kv.1 (IsConfigMapKey chk kv.1))
            | None => inl (<[cm_Name spec := cm_Data spec]> out)
            end
        end
    end) ∅ (indexed specs).

(** [referencedConfigMap]; [None] is a missing map that is optional. *)
Definition referencedConfigMap (configMaps : gmap string (gmap string string)) (name : string) (optional : option bool)
  : option (gmap string string) + error :=
  match configMaps !! name with
  | Some data => inl (Some data)
  | None =>
      match optional with
      | Some true => inl None
      | _ => inr (capabilityError ("ConfigMap '" ++ name ++ "' is not declared in spec.configMaps"))
      end
  end.

(** One [envFrom] source: keys that cannot name a variable are skipped. *)
Definition env_from (configMaps : gmap string (gmap string string)) (values : gmap string string)
    (item : Z * EnvFromSource) : gmap string string + error :=
  let '(i, source) := item in
  match ef_ConfigMapRef source with
  | None => inr (capabilityError ("envFrom[" ++ formatLabelInt i ++ "] is unsupported in standalone (only configMapRef is supported)"))
  | Some (name, optional) =>
      match referencedConfigMap configMaps name optional with
      | inr e => inr (Errorf ("envFrom[" ++ formatLabelInt i ++ "]") e)
      | inl None => inl values
      | inl (Some data) =>
          inl (map_fold (fun key value out =>
                 let name := (ef_Prefix source ++ key)%string in
                 match IsEnvVarName chk name with [] => <[name := value]> out | _ => out end) values data)
      end
  end.

(** One [env] entry. *)
Definition env_item (configMaps : gmap string (gmap string string)) (values : gmap string string)
    (it : Z * EnvVar) : gmap string string + error :=
  let '(i, item) := it in
  match ev_ValueFrom item with
  | None => inl (<[ev_Name item := ev_Value item]> values)
  | Some None => inr (capabilityError ("env[" ++ formatLabelInt i ++ "].valueFrom is unsupported in standalone (only configMapKeyRef is supported)"))
  | Some (Some selector) =>
      match referencedConfigMap configMaps (ck_Name selector) (ck_Optional selector) with
      | inr e => inr (Errorf ("env[" ++ formatLabelInt i ++ "].valueFrom.configMapKeyRef") e)
      | inl None => inl values
      | inl (Some data) =>
          match data !! ck_Key selector with
          | Some value => inl (<[ev_Name item := value]> values)
          | None =>
              match ck_Optional selector with
              | Some true => inl values
              | _ => inr (capabilityError ("ConfigMap '" ++ ck_Name selector ++ "' has no key '" ++ ck_Key selector ++ "'"))
              end
          end
      end
  end.

(** The variables [resolveEnv] collects. *)
Definition env_values (configMaps : gmap string (gmap string string)) (envFrom : list EnvFromSource) (env : list EnvVar)
  : gmap string string + error :=
  match fold_err (env_from configMaps) ∅ (indexed envFrom) with
  | inr e => inr e
  | inl values => fold_err (env_item configMaps) values (indexed env)
  end.

(** [resolveEnv] *)
Definition resolveEnv (configMaps : gmap string (gmap string string)) (envFrom : list EnvFromSource) (env : list EnvVar)
  : list string + error :=
  match env_values configMaps envFrom env with
  | inr e => inr e
  | inl values =>
      inl (map (fun name => (name ++ "=" ++ map_get "" values name)%string)
             (sort_slice str_lt (map fst (map_to_list values))))
  end.

(** ** ConfigMap volumes *)

(** [validateFileMode]: 0777 is 511. *)
Definition validateFileMode (mode : Z) : option error :=
  if (mode <? 0)%Z || (511 <? mode)%Z
  then Some (capabilityError (formatLabelInt mode ++ " is outside 0000-0777")) else None.

(** One key of a ConfigMap projected whole. *)
Definition project_key (source : ConfigMapVolumeSource) (mode : Z) (out : gmap string ConfigMapFile) (kv : string * string)
  : gmap string ConfigMapFile + error :=
  match validateProjectionPath kv.1 with
  | Some e => inr (Errorf ("ConfigMap '" ++ cv_Name source ++ "' key '" ++ kv.1 ++ "' cannot be projected") e)
  | None => inl (<[kv.1 := {| cf_Data := kv.2; cf_Mode := mode |}]> out)
  end.

(** One listed item. *)
Definition project_item (source : ConfigMapVolumeSource) (data : gmap string string) (defaultMode : Z)
    (out : gmap string ConfigMapFile) (item : KeyToPath) : gmap string ConfigMapFile + error :=
  match data !! kp_Key item with
  | None =>
      match cv_Optional source with
      | Some true => inl out
      | _ => inr (capabilityError ("ConfigMap '" ++ cv_Name source ++ "' has no key '" ++ kp_Key item ++ "'"))
      end
  | Some value =>
      match validateProjectionPath (kp_Path item) with
      | Some e => inr (Errorf ("ConfigMap '" ++ cv_Name source ++ "' item path '" ++ kp_Path item ++ "'") e)
      | None =>
          match out !! kp_Path item with
          | Some _ => inr (capabilityError ("ConfigMap '" ++ cv_Name source ++ "' projects more than one key to path '" ++ kp_Path item ++ "'"))
          | None =>
              let mode := default defaultMode (kp_Mode item) in
              match validateFileMode mode with
              | Some e => inr (Errorf ("ConfigMap '" ++ cv_Name source ++ "' item '" ++ kp_Key item ++ "' mode") e)
              | None => inl (<[kp_Path item := {| cf_Data := value; cf_Mode := mode |}]> out)
              end
          end
      end
  end.

(** [configMapFiles]; 0644 is 420. *)
Definition configMapFiles (configMaps : gmap string (gmap string string)) (source : ConfigMapVolumeSource)
  : gmap string ConfigMapFile + error :=
  match referencedConfigMap configMaps (cv_Name source) (cv_Optional source) with
  | inr e => inr e
  | inl None => inl ∅
  | inl (Some data) =>
      let defaultMode := default 420%Z (cv_DefaultMode source) in
      match validateFileMode defaultMode with
      | Some e => inr (Errorf ("ConfigMap '" ++ cv_Name source ++ "' defaultMode") e)
      | None =>
          match cv_Items source with
          | [] => fold_err (project_key source defaultMode) ∅ (map_to_list data)
          | items => fold_err (project_item source data defaultMode) ∅ items
          end
      end
  end.

(** ** Mounts *)

(** [hostPathFor] *)
Definition hostPathFor (vol : Volume) : string :=
  match vo_PersistentVolumeClaim vol with
  | None => ""
  | Some claim => map_get "" (cfg_HostPathVolumes cfg) claim
  end.

(** The mount of a ConfigMap volume. *)
Definition configmap_mount (kind namespace name role : string) (configMaps : gmap string (gmap string string))
    (vm : VolumeMount) (vol : Volume) (source : ConfigMapVolumeSource) : MountPlan + error :=
  match configMapFiles configMaps source with
  | inr e => inr (Errorf ("volume '" ++ vo_Name vol ++ "'") e)
  | inl files =>
      match projectionPath kind namespace name role (vo_Name vol) with
      | inr e => inr e
      | inl projection =>
          let mount type src sub :=
            {| mp_Type := type; mp_Source := src; mp_Target := vm_MountPath vm; mp_SubPath := sub;
               mp_ReadOnly := true; mp_ConfigMapPath := projection; mp_ConfigMapFiles := files |} in
          if negb (String.eqb (cfg_ConfigMapsVolume cfg) "")
          then inl (mount "volume" (cfg_ConfigMapsVolume cfg) projection)
          else if String.eqb (cfg_ConfigMapsDir cfg) ""
          then inr (capabilityError "ConfigMap volume projection is not configured in standalone")
          else inl (mount "bind" (string_of_list_ascii
                 (PathJoin [list_ascii_of_string (cfg_ConfigMapsDir cfg); list_ascii_of_string projection])) "")
      end
  end.

(** One mount. *)
Definition volume_mount (kind namespace name role : string) (configMaps : gmap string (gmap string string))
    (declared : gmap string Volume) (vm : VolumeMount) : MountPlan + error :=
  match declared !! vm_Name vm with
  | None => inr (capabilityError ("volumeMount '" ++ vm_Name vm ++ "' references an undeclared volume"))
  | Some vol =>
      match validateSubPath vm with
      | inr e => inr e
      | inl subPath =>
          let plain type src :=
            {| mp_Type := type; mp_Source := src; mp_Target := vm_MountPath vm; mp_SubPath := subPath;
               mp_ReadOnly := vm_ReadOnly vm; mp_ConfigMapPath := ""; mp_ConfigMapFiles := ∅ |} in
          match vo_ConfigMap vol with
          | Some source =>
              if negb (String.eqb subPath "")
              then inr (capabilityError ("ConfigMap volumeMount '" ++ vm_Name vm ++ "' subPath is unsupported in standalone"))
              else configmap_mount kind namespace name role configMaps vm vol source
          | None =>
              if negb (String.eqb (hostPathFor vol) "") then inl (plain "bind" (hostPathFor vol))
              else inl (plain "volume"
                     match vo_PersistentVolumeClaim vol with
                     | Some claim => pvcVolumeName shortHash namespace claim
                     | None => volumeName shortHash namespace name (vm_Name vm)
                     end)
          end
      end
  end.

(** [volumeMounts] *)
Definition volumeMounts (kind namespace name role : string) (configMaps : gmap string (gmap string string))
    (volumes : list Volume) (mounts : list VolumeMount) : list MountPlan + error :=
  let declared := foldl (fun m v => <[vo_Name v := v]> m) ∅ volumes in
  fold_err (fun out vm =>
    match volume_mount kind namespace name role configMaps declared vm with
    | inl mount => inl (out ++ [mount])
    | inr e => inr e
    end) [] mounts.

(** ** Plans *)

(** [resolveImagePullPolicy] *)
Definition resolveImagePullPolicy (imageRef policy : string) : string + error :=
  if bool_decide (policy ∈ ["Always"; "IfNotPresent"; "Never"]) then inl policy
  else if negb (String.eqb policy "") then inr (capabilityError ("unsupported imagePullPolicy '" ++ policy ++ "'"))
  else match ParseNormalizedNamed imageRef with
       | inr e => inr (capabilityError ("invalid image reference '" ++ imageRef ++ "': " ++ Error e))
       | inl named =>
           if ni_Digested named then inl "IfNotPresent"
           else match ni_Tag named with
                | Some tag => if String.eqb tag "latest" then inl "Always" else inl "IfNotPresent"
                | None => inl "Always"
                end
       end.

(** [resourcePlan]: 64-bit arithmetic. *)
Definition resourcePlan (limits : gmap string Q) : ResourcePlan :=
  {| rp_NanoCPUs := match limits !! "cpu" with Some cpu => wrap64 (MilliValue cpu * 1000000) | None => 0 end;
     rp_MemoryBytes := match limits !! "memory" with Some mem => Value mem | None => 0 end;
     rp_GPUCount := match limits !! "nvidia.com/gpu" with Some gpu => Value gpu | None => 0 end;
     rp_GPUDeviceIDs := [] |}.

(** [protoString], [roleOr] *)
Definition protoString (p : string) : string := if String.eqb p "UDP" then "udp" else "tcp".
Definition roleOr (role : string) : string := if String.eqb role "" then "worker" else role.

(** [p.Labels[LabelSpecHash] = specHash(planIdentity(&p))] *)
Definition stamp_hash (p : ContainerPlan) : ContainerPlan :=
  with_devices p (rp_GPUDeviceIDs (cp_Resources p)) (<[LabelSpecHash := specHash (planIdentity p)]> (cp_Labels p)).

(** The parts of a plan that all replicas of a role share. *)
Record RoleParts := {
  rt_PullPolicy : string;
  rt_Env : list string;
  rt_Ports : list PortPlan;
  rt_Mounts : list MountPlan }.

(** The plan of one replica. *)
Definition replica_plan (kind idLabel restart : string) (stable : bool) (obj : ObjectMeta) (role : string)
    (tmpl : Template Q) (parts : RoleParts) (i : Z) : ContainerPlan :=
  let labels := <[LabelReplicaIndex := formatLabelInt i]> (<[LabelRole := role]>
    (<[idLabel := map_get "" (om_Labels obj) idLabel]> (baseLabels kind (om_Namespace obj) (om_Name obj)))) in
  stamp_hash
    {| cp_Name := ""; cp_NamePrefix := Role shortHash obj role; cp_Replica := i; cp_StableOrdinal := stable;
       cp_Image := te_Image tmpl; cp_ImagePullPolicy := rt_PullPolicy parts; cp_Command := te_Command tmpl;
       cp_Args := te_Args tmpl; cp_Env := rt_Env parts; cp_WorkingDir := te_WorkingDir tmpl; cp_Labels := labels;
       cp_Ports := rt_Ports parts; cp_Mounts := rt_Mounts parts; cp_Resources := resourcePlan (te_Limits tmpl);
       cp_RestartPolicy := restart |}.

(** [for i := 0; i < int(role.Replicas); i++] *)
Definition replica_indices (replicas : Z) : list Z := map Z.of_nat (seq 0 (Z.to_nat replicas)).

(** One role of [renderRunPlans]. *)
Definition run_role (obj : ObjectMeta) (configMaps : gmap string (gmap string string)) (plans : list ContainerPlan)
    (role : WorkloadRole Q) : list ContainerPlan + error :=
  let tmpl := wr_Template role in
  if (wr_Replicas role <=? 0)%Z then inl plans
  else
    match resolveImagePullPolicy (te_Image tmpl) (te_ImagePullPolicy tmpl) with
    | inr e => inr e
    | inl policy =>
        match resolveEnv configMaps (te_EnvFrom tmpl) (te_Env tmpl) with
        | inr e => inr e
        | inl env =>
            match volumeMounts KindRun (om_Namespace obj) (om_Name obj) (wr_Name role) configMaps
                    (te_Volumes tmpl) (te_VolumeMounts tmpl) with
            | inr e => inr e
            | inl mounts =>
                let parts := {| rt_PullPolicy := policy; rt_Env := env; rt_Ports := []; rt_Mounts := mounts |} in
                inl (plans ++ map (replica_plan KindRun LabelRunID "no" false obj (wr_Name role) tmpl parts)
                       (replica_indices (wr_Replicas role)))
            end
        end
    end.

(** [renderRunPlans] *)
Definition renderRunPlans (run : Workload Q) : list ContainerPlan + error :=
  let backend := wl_Backend run in
  let obj := wl_Meta run in
  if negb (String.eqb (be_Name backend) "native") || negb (String.eqb (be_Engine backend) "job")
  then inr (capabilityError ("MLRun backend " ++ be_Name backend ++ "/" ++ be_Engine backend ++
              " is unsupported in standalone (only native/job)"))
  else
    match newConfigMapSet (wl_ConfigMaps run) with
    | inr e => inr e
    | inl configMaps =>
        match fold_err (run_role obj configMaps) [] (wl_Roles run) with
        | inr e => inr e
        | inl [] => inr (capabilityError ("MLRun " ++ om_Namespace obj ++ "/" ++ om_Name obj ++ " has no enabled role replicas"))
        | inl plans => inl plans
        end
    end.

(** [renderServicePlans] *)
Definition renderServicePlans (svc : Workload Q) : list ContainerPlan + error :=
  let backend := wl_Backend svc in
  let obj := wl_Meta svc in
  if negb (String.eqb (be_Name backend) "native") ||
     (negb (String.eqb (be_Engine backend) "deployment") && negb (String.eqb (be_Engine backend) "statefulset"))
  then inr (capabilityError ("MLService backend " ++ be_Name backend ++ "/" ++ be_Engine backend ++
              " is unsupported in standalone (only native/deployment|statefulset)"))
  else
    match wl_Roles svc with
    | [] => inr (capabilityError ("MLService " ++ om_Namespace obj ++ "/" ++ om_Name obj ++ " has no roles"))
    | role :: _ =>
        let tmpl := wr_Template role in
        match resolveImagePullPolicy (te_Image tmpl) (te_ImagePullPolicy tmpl) with
        | inr e => inr e
        | inl policy =>
            match newConfigMapSet (wl_ConfigMaps svc) with
            | inr e => inr e
            | inl configMaps =>
                match resolveEnv configMaps (te_EnvFrom tmpl) (te_Env tmpl) with
                | inr e => inr e
                | inl env =>
                    match volumeMounts KindService (om_Namespace obj) (om_Name obj) (roleOr (wr_Name role)) configMaps
                            (te_Volumes tmpl) (te_VolumeMounts tmpl) with
                    | inr e => inr e
                    | inl mounts =>
                        let ports := map (fun p => {| pp_Name := po_Name p; pp_ContainerPort := po_ContainerPort p;
                                                      pp_Protocol := protoString (po_Protocol p) |}) (te_Ports tmpl) in
                        let parts := {| rt_PullPolicy := policy; rt_Env := env; rt_Ports := ports; rt_Mounts := mounts |} in
                        inl (map (replica_plan KindService LabelServiceID "unless-stopped"
                                    (String.eqb (be_Engine backend) "statefulset") obj (roleOr (wr_Name role)) tmpl parts)
                               (replica_indices (wr_Replicas role)))
                    end
                end
            end
        end
    end.
End Render.
