(* ===== verification/DockerGateway.v ===== *)
(** * Standalone runtime: gateway resources

    The Envoy Gateway resources the runtime writes for a routed service or a
    traffic policy and reads back for their status ([gateway.go],
    [service_route.go], [traffic.go]).  The configuration directory is the
    class [GatewayDir]: writing and removing a file may fail; YAML encoding
    and decoding of the documents belong to it. *)

From Stdlib Require Import ssreflect ZArith Lia Ascii String.
From stdpp Require Import base gmap list strings.
From S2P Require Import Prelude Placement ApiTypes Names Strconv DockerPaths DockerEngine DockerRender.

(** ** Resources *)

Definition gatewayAPIVersion : string := "gateway.networking.k8s.io/v1".
Definition envoyGatewayAPIVersion : string := "gateway.envoyproxy.io/v1alpha1".
Definition gatewayParentName : string := "axisml-gateway".
Definition gatewayBackendGroup : string := "gateway.envoyproxy.io".
Definition gatewayServiceAnnotation : string := "standalone.axisml.io/service-name".

(** [gatewayEndpoint]: a name or an address, with a port. *)
Inductive gatewayEndpoint := FQDN (hostname : string) (port : Z) | IP (address : string) (port : Z).

Record gatewayBackendRef := { gr_Group : string; gr_Kind : string; gr_Name : string; gr_Weight : option Z }.

Record gatewayRouteRule := { gl_Matches : list (string * string); gl_BackendRefs : list gatewayBackendRef }.

Record gatewayHTTPRouteSpec := {
  gh_ParentRefs : list string;
  gh_Hostnames : list string;
  gh_Rules : list gatewayRouteRule }.

Inductive gatewaySpec := BackendSpec_of (endpoints : list gatewayEndpoint) | HTTPRouteSpec_of (spec : gatewayHTTPRouteSpec).

Record gatewayResource := {
  gw_APIVersion : string;
  gw_Kind : string;
  gw_Name : string;
  gw_Annotations : gmap string string;
  gw_Spec : gatewaySpec }.

(** [gatewayBackend]: without endpoints, a closed loopback port. *)
Definition gatewayBackend (name serviceName : string) (endpoints : list gatewayEndpoint) : gatewayResource :=
  {| gw_APIVersion := envoyGatewayAPIVersion; gw_Kind := "Backend"; gw_Name := name;
     gw_Annotations := {[ gatewayServiceAnnotation := serviceName ]};
     gw_Spec := BackendSpec_of match endpoints with [] => [IP "127.0.0.1" 1] | _ => endpoints end |}.

(** [gatewayHTTPRoute] *)
Definition gatewayHTTPRoute (name hostname path : string) (refs : list gatewayBackendRef) : gatewayResource :=
  {| gw_APIVersion := gatewayAPIVersion; gw_Kind := "HTTPRoute"; gw_Name := name; gw_Annotations := ∅;
     gw_Spec := HTTPRouteSpec_of
       {| gh_ParentRefs := [gatewayParentName];
          gh_Hostnames := if negb (String.eqb hostname "") then [hostname] else [];
          gh_Rules := [{| gl_Matches := [("PathPrefix", if String.eqb path "" then "/" else path)];
                          gl_BackendRefs := refs |}] |} |}.

(** [gatewayContainerEndpoint] *)
Definition gatewayContainerEndpoint (containerName : string) (port : Z) : gatewayEndpoint :=
  FQDN (gatewayBackendHostname containerName) port.

(** ** Documents read back *)

(** [gatewayFileDocument] *)
Record gatewayFileDocument := {
  gd_Kind : string;
  gd_Name : string;
  gd_Annotations : gmap string string;
  gd_Hostnames : list string;
  gd_Rules : list gatewayRouteRule }.

(** What a written resource reads back as. *)
Definition document_of (g : gatewayResource) : gatewayFileDocument :=
  {| gd_Kind := gw_Kind g; gd_Name := gw_Name g; gd_Annotations := gw_Annotations g;
     gd_Hostnames := match gw_Spec g with HTTPRouteSpec_of s => gh_Hostnames s | BackendSpec_of _ => [] end;
     gd_Rules := match gw_Spec g with HTTPRouteSpec_of s => gh_Rules s | BackendSpec_of _ => [] end |}.

(** The path of the first match of the first rule. *)
Definition route_path (doc : gatewayFileDocument) : string :=
  match gd_Rules doc with
  | rule :: _ => match gl_Matches rule with (_, value) :: _ => if negb (String.eqb value "") then value else "/" | [] => "/" end
  | [] => "/"
  end.

(** [gatewayRouteEndpoint] *)
Definition gatewayRouteEndpoint (doc : gatewayFileDocument) : string :=
  match gd_Hostnames doc with
  | host :: _ => if negb (String.eqb host "") then ("http://" ++ host ++ route_path doc)%string else route_path doc
  | [] => route_path doc
  end.

(** How reading or opening a file fails. *)
Inductive file_error := NotExist | FileFailed (text : string).
Definition file_err (e : file_error) : error :=
  match e with NotExist => ErrOther "file does not exist" | FileFailed t => ErrOther t end.

(** The gateway configuration directory, by file name.  [gw_read] is
    [readGatewayDocuments], [gw_write] is [marshalGatewayResources] followed by
    [writeGatewayFile], [gw_remove] is [os.Remove]. *)
Class GatewayDir (G : Type) := {
  gw_read : G -> string -> list gatewayFileDocument + file_error;
  gw_write : G -> string -> list gatewayResource -> option error * G;
  gw_remove : G -> string -> option file_error * G }.

(** A file holds what was last written to it. *)
Class GatewayDirLaws (G : Type) `{GatewayDir G} := {
  law_write g file resources g' : gw_write g file resources = (None, g') ->
    gw_read g' file = inl (map document_of resources) /\ forall file', file' <> file -> gw_read g' file' = gw_read g file';
  law_unlink g file res g' : gw_remove g file = (res, g') -> res = None \/ res = Some NotExist ->
    gw_read g' file = inr NotExist /\ forall file', file' <> file -> gw_read g' file' = gw_read g file' }.

(** ** Traffic policies *)

Record trafficMember := { tm_service : string; tm_weight : Z; tm_path : string; tm_host : string }.

Record trafficBackend := {
  tb_serviceName : string;
  tb_resourceName : string;
  tb_endpoints : list gatewayEndpoint;
  tb_weight : Z }.

Section Traffic.
Context (shortHash : bytes -> bytes).

(** [gatewayTrafficResources] *)
Definition gatewayTrafficResources (p : MLTrafficPolicyCR) (backends : list trafficBackend) : list gatewayResource :=
  map (fun b => gatewayBackend (tb_resourceName b) (tb_serviceName b) (tb_endpoints b)) backends ++
  [gatewayHTTPRoute (trafficResourceName shortHash (om_Namespace (tcr_Meta p)) (om_Name (tcr_Meta p)))
     (ep_Hostname (tsp_Endpoint (tcr_Spec p))) (ep_Path (tsp_Endpoint (tcr_Spec p)))
     (map (fun b => {| gr_Group := gatewayBackendGroup; gr_Kind := "Backend"; gr_Name := tb_resourceName b;
                       gr_Weight := Some (tb_weight b) |}) backends)].
End Traffic.

(** The documents of [readTrafficMembers]: the services of the backends, by
    name, and the last route. *)
Definition backend_services (docs : list gatewayFileDocument) : gmap string string :=
  foldl (fun m doc => if String.eqb (gd_Kind doc) "Backend"
    then <[gd_Name doc := map_get "" (gd_Annotations doc) gatewayServiceAnnotation]> m else m) ∅ docs.

Definition last_route (docs : list gatewayFileDocument) : option gatewayFileDocument :=
  foldl (fun r doc => if String.eqb (gd_Kind doc) "HTTPRoute" then Some doc else r) None docs.

(** [readTrafficMembers] on the documents of a file. *)
Definition readTrafficMembers (docs : list gatewayFileDocument) : list trafficMember :=
  match last_route docs with
  | None => []
  | Some route =>
      match gd_Rules route with
      | [] => []
      | rule :: _ =>
          map (fun ref => {| tm_service := map_get "" (backend_services docs) (gr_Name ref);
                             tm_weight := default 1%Z (gr_Weight ref); tm_path := route_path route;
                             tm_host := default "" (head (gd_Hostnames route)) |}) (gl_BackendRefs rule)
      end
  end.

(** [trafficEndpoint] *)
Definition trafficEndpoint (members : list trafficMember) : string :=
  match members with
  | [] => ""
  | m :: _ => if negb (String.eqb (tm_host m) "") then ("http://" ++ tm_host m ++ tm_path m)%string else tm_path m
  end.

(** The phase a policy reports for its members' readiness. *)
Definition traffic_phase (backends : list BackendStatus) : Phase :=
  let live := List.filter (fun b => (0 <? bs_Weight b)%Z) backends in
  let ready := List.filter bs_Ready live in
  if (length live =? 0)%nat then PhasePending
  else if (length ready =? length live)%nat then PhaseReady
  else if (0 <? length ready)%nat then PhaseDegraded
  else PhasePending.

(** ** Service routes *)

(** [Route] of an MLService, decoded; the auth type is "none" or a scheme. *)
Record Route := {
  ro_Enabled : bool;
  ro_Hostname : string;
  ro_Path : string;
  ro_PortName : string;
  ro_AuthType : option string;
  ro_RateLimit : bool }.

Definition RouteAuthNone : string := "none".

(** [resolveServicePort] *)
Definition resolveServicePort {Q} (svc : Workload Q) (route : Route) : Z :=
  match wl_Roles svc with
  | [] => 80
  | role :: _ =>
      let ports := te_Ports (wr_Template role) in
      let first := match ports with p :: _ => po_ContainerPort p | [] => 80%Z end in
      if negb (String.eqb (ro_PortName route) "")
      then match List.find (fun p => String.eqb (po_Name p) (ro_PortName route)) ports with
           | Some p => po_ContainerPort p
           | None => first
           end
      else first
  end.

(** The resources of [applyServiceRoute]. *)
Definition service_route_resources {Q} (shortHash : bytes -> bytes) (svc : Workload Q) (route : Route)
    (plans : list ContainerPlan) : list gatewayResource :=
  let name := serviceResourceName shortHash (om_Namespace (wl_Meta svc)) (om_Name (wl_Meta svc)) in
  let port := resolveServicePort svc route in
  [gatewayBackend name (om_Name (wl_Meta svc)) (map (fun p => gatewayContainerEndpoint (cp_Name p) port) plans);
   gatewayHTTPRoute name (ro_Hostname route) (ro_Path route)
     [{| gr_Group := gatewayBackendGroup; gr_Kind := "Backend"; gr_Name := name; gr_Weight := None |}]].

(** [serviceRouteFileName], [trafficFileName], in the configuration directory. *)
Definition serviceRouteFileName (namespace name : string) : string := ("service-" ++ namespace ++ "-" ++ name ++ ".yaml")%string.
Definition trafficFileName (namespace name : string) : string := ("traffic-policy-" ++ namespace ++ "-" ++ name ++ ".yaml")%string.

Section Files.
Context {G : Type} `{GatewayDir G}.

(** [deleteServiceRoute] *)
Definition remove_file (file : string) (g : G) : option error * G :=
  match gw_remove g file with
  | (Some (FileFailed t), g') => (Some (ErrOther t), g')
  | (_, g') => (None, g')
  end.

Definition deleteServiceRoute (namespace name : string) (g : G) : option error * G :=
  remove_file (serviceRouteFileName namespace name) g.

(** [applyServiceRoute] *)
Definition applyServiceRoute {Q} (shortHash : bytes -> bytes) (svc : Workload Q) (r : option Route)
    (plans : list ContainerPlan) (g : G) : option error * G :=
  let ns := om_Namespace (wl_Meta svc) in
  let name := om_Name (wl_Meta svc) in
  match r with
  | None => deleteServiceRoute ns name g
  | Some route =>
      if negb (ro_Enabled route) then deleteServiceRoute ns name g
      else
        let auth := default "" (ro_AuthType route) in
        if negb (String.eqb auth "") && negb (String.eqb auth RouteAuthNone)
        then (Some (capabilityError ("MLService route auth '" ++ auth ++ "' is unsupported in standalone")), g)
        else if ro_RateLimit route
        then (Some (capabilityError "MLService route rateLimit is unsupported in standalone"), g)
        else gw_write g (serviceRouteFileName ns name) (service_route_resources shortHash svc route plans)
  end.

(** [serviceRouteEndpoint] *)
Definition serviceRouteEndpoint (namespace name : string) (g : G) : string :=
  match gw_read g (serviceRouteFileName namespace name) with
  | inr _ => ""
  | inl docs => match List.find (fun doc => String.eqb (gd_Kind doc) "HTTPRoute") docs with
                | Some doc => gatewayRouteEndpoint doc
                | None => ""
                end
  end.
End Files.
