(* ===== verification/DockerRuntime.v ===== *)
(** * Standalone runtime: the compute runtime over Docker

    The [ComputeRuntime] handlers of [run.go], [service.go] and [traffic.go],
    the creation of plans ([gpu.go]), the event ring ([events.go]), the
    instance projection ([pod.go]) and the resource snapshot
    ([inventory.go]).  A handler returns its error and the new state.  A panic
    ends a call, so it is an error value here.  Sums of GPU counts are taken
    to fit an [int]. *)

From Stdlib Require Import ssreflect ZArith Lia Ascii String.
From stdpp Require Import base gmap list strings.
From S2P Require Import Prelude Placement ApiTypes Names Strconv Listing DockerPaths DockerEngine DockerGPU DockerRender DockerGateway.

Open Scope Z_scope.

(** ** Events *)

Definition KindTraffic : string := "traffic-policy".

Record eventRec := {
  er_kind : string;
  er_namespace : string;
  er_name : string;
  er_instance : string;
  er_reason : string;
  er_message : string;
  er_at : Z }.

(** [eventRing.record] on a ring of positive capacity. *)
Definition ring_record (cap : nat) (buf : list eventRec) (rec : eventRec) : list eventRec :=
  if (cap <=? length buf)%nat then drop 1 buf ++ [rec] else buf ++ [rec].

(** [eventsv1.Event], as [toEvent] fills it. *)
Record Event := {
  ee_Name : string;
  ee_Namespace : string;
  ee_EventTime : Z;
  ee_Reason : string;
  ee_Note : string;
  ee_RegardingKind : string;
  ee_RegardingName : string }.

(** [regardingFor] *)
Definition regardingFor (r : eventRec) : string * string :=
  if negb (String.eqb (er_instance r) "") then ("Pod", er_instance r)
  else if String.eqb (er_kind r) KindRun then ("MLRun", er_name r)
  else if String.eqb (er_kind r) KindService then ("MLService", er_name r)
  else if String.eqb (er_kind r) KindTraffic then ("MLTrafficPolicy", er_name r)
  else (er_kind r, er_name r).

(** [toEvent]; times are in nanoseconds. *)
Definition toEvent (r : eventRec) : Event :=
  let '(kind, name) := regardingFor r in
  {| ee_Name := name ++ "." ++ formatLabelInt (er_at r); ee_Namespace := er_namespace r; ee_EventTime := er_at r;
     ee_Reason := er_reason r; ee_Note := er_message r; ee_RegardingKind := kind; ee_RegardingName := name |}.

(** [eventRing.list] *)
Definition ring_list (buf : list eventRec) (kind namespace name instance : string) : list Event :=
  map toEvent (List.filter (fun r => String.eqb (er_kind r) kind && String.eqb (er_namespace r) namespace &&
    String.eqb (er_name r) name && String.eqb (er_instance r) instance) buf).

Definition event_capacity : nat := 512.

(** ** State *)

(** What a runtime is started with. *)
Record Host := {
  ho_net : string;
  ho_shortHash : bytes -> bytes;
  ho_specHash : PlanIdentity -> string;
  ho_projectionHash : gmap string ConfigMapFile -> string;
  ho_suffixes : nat -> string;
  ho_resolveAuth : option (string -> string + error);
  ho_checks : NameChecks;
  ho_ParseNormalizedNamed : string -> NamedImage + error;
  ho_cfg : Config;
  ho_gpus : list Z }.

(** The files of the ConfigMap projections: bringing a workload's directory to
    a set of projections, and removing it. *)
Class Projections (F : Type) := {
  pr_reconcile : F -> string -> gmap string (gmap string ConfigMapFile) -> option error * F;
  pr_remove : F -> string -> option error * F }.

(** [Runtime]: the daemon, the two directories, the event ring, the cancelled
    runs, and how many random suffixes were drawn. *)
Record Runtime {D F G : Type} := {
  st_docker : D;
  st_files : F;
  st_gateway : G;
  st_events : list eventRec;
  st_cancelled : gset string;
  st_draws : nat }.
Arguments Runtime : clear implicits.

Section Runtime.
Context {D F G : Type} `{Docker D} `{Projections F} `{GatewayDir G}.
Context {Q : Type} `{QuantityRead Q}.
Context (host : Host) (now : Z).
Abbreviation rt := (Runtime D F G).

Definition with_docker (r : rt) (d : D) : rt :=
  {| st_docker := d; st_files := st_files r; st_gateway := st_gateway r; st_events := st_events r;
     st_cancelled := st_cancelled r; st_draws := st_draws r |}.
Definition with_files (r : rt) (f : F) : rt :=
  {| st_docker := st_docker r; st_files := f; st_gateway := st_gateway r; st_events := st_events r;
     st_cancelled := st_cancelled r; st_draws := st_draws r |}.
Definition with_gateway (r : rt) (g : G) : rt :=
  {| st_docker := st_docker r; st_files := st_files r; st_gateway := g; st_events := st_events r;
     st_cancelled := st_cancelled r; st_draws := st_draws r |}.
Definition with_events (r : rt) (e : list eventRec) : rt :=
  {| st_docker := st_docker r; st_files := st_files r; st_gateway := st_gateway r; st_events := e;
     st_cancelled := st_cancelled r; st_draws := st_draws r |}.
Definition with_cancelled (r : rt) (c : gset string) : rt :=
  {| st_docker := st_docker r; st_files := st_files r; st_gateway := st_gateway r; st_events := st_events r;
     st_cancelled := c; st_draws := st_draws r |}.
Definition with_draws (r : rt) (n : nat) : rt :=
  {| st_docker := st_docker r; st_files := st_files r; st_gateway := st_gateway r; st_events := st_events r;
     st_cancelled := st_cancelled r; st_draws := n |}.

(** [r.events.record] *)
Definition record (r : rt) (kind namespace name instance reason message : string) : rt :=
  with_events r (ring_record event_capacity (st_events r)
    {| er_kind := kind; er_namespace := namespace; er_name := name; er_instance := instance;
       er_reason := reason; er_message := message; er_at := now |}).

(** [cancelKey], [markCancelled], [isCancelled], [clearCancelled] *)
Definition cancelKey (namespace name : string) : string := namespace ++ "/" ++ name.
Definition markCancelled (r : rt) (namespace name : string) : rt :=
  with_cancelled r ({[ cancelKey namespace name ]} ∪ st_cancelled r).
Definition isCancelled (r : rt) (namespace name : string) : bool :=
  bool_decide (cancelKey namespace name ∈ st_cancelled r).
Definition clearCancelled (r : rt) (namespace name : string) : rt :=
  with_cancelled r (st_cancelled r ∖ {[ cancelKey namespace name ]}).

(** [notFound] *)
Definition notFound : error := ErrAPINotFound.

(** ** ConfigMap projections *)

(** The projections the plans expect; two roles must agree on a path. *)
Definition expected_projections (plans : list ContainerPlan) : gmap string (gmap string ConfigMapFile) + error :=
  fold_err (fun expected m =>
    if String.eqb (mp_ConfigMapPath m) "" then inl expected
    else
      let conflict := match expected !! mp_ConfigMapPath m with
        | Some current => negb (String.eqb (ho_projectionHash host current) (ho_projectionHash host (mp_ConfigMapFiles m)))
        | None => false
        end in
      if conflict then inr (capabilityError ("ConfigMap projection '" ++ mp_ConfigMapPath m ++ "' has conflicting role definitions"))
      else inl (<[mp_ConfigMapPath m := mp_ConfigMapFiles m]> expected)) ∅ (concat (map cp_Mounts plans)).

(** [reconcileConfigMapProjections]; writing the files is [pr_reconcile]. *)
Definition reconcileConfigMapProjections (kind namespace name : string) (plans : list ContainerPlan) (r : rt) : option error * rt :=
  match expected_projections plans with
  | inr e => (Some e, r)
  | inl expected =>
      match configMapWorkloadDir (cfg_ConfigMapsDir (ho_cfg host)) kind namespace name with
      | inr e => (Some e, r)
      | inl root =>
          if bool_decide (expected = ∅)
          then if String.eqb root "" then (None, r)
               else let '(err, f) := pr_remove (st_files r) root in (err, with_files r f)
          else if String.eqb root ""
          then (Some (capabilityError "ConfigMap volume projection is not configured in standalone"), r)
          else let '(err, f) := pr_reconcile (st_files r) root expected in (err, with_files r f)
      end
  end.

(** [removeConfigMapProjections] *)
Definition removeConfigMapProjections (kind namespace name : string) (r : rt) : option error * rt :=
  match configMapWorkloadDir (cfg_ConfigMapsDir (ho_cfg host)) kind namespace name with
  | inr e => (Some e, r)
  | inl root =>
      if String.eqb root "" then (None, r)
      else let '(err, f) := pr_remove (st_files r) root in (err, with_files r f)
  end.

(** ** Creating containers *)

(** The loop over the images. *)
Fixpoint ensure_images (plans : list ContainerPlan) (d : D) : option error * D :=
  match plans with
  | [] => (None, d)
  | p :: rest =>
      match ensureImage (ho_resolveAuth host) (cp_Image p) (cp_ImagePullPolicy p) d with
      | (Some e, d') => (Some e, d')
      | (None, d') => ensure_images rest d'
      end
  end.

(** The loop over the plans to create; it returns them with their final names,
    those not reached as they were. *)
Fixpoint create_all (plans : list ContainerPlan) (draws : nat) (d : D) : option error * list ContainerPlan * nat * D :=
  match plans with
  | [] => (None, [], draws, d)
  | p :: rest =>
      match createAndStart (ho_net host) (ho_shortHash host) (ho_suffixes host) draws p d with
      | (Some e, p', d') => (Some e, p' :: rest, (draws + 5)%nat, d')
      | (None, p', d') =>
          let '(err, rest', draws', d2) := create_all rest (draws + 5)%nat d' in (err, p' :: rest', draws', d2)
      end
  end.

Definition panic (text : string) : error := ErrOther ("panic: " ++ text).

(** The GPU reservation of [createPlans]. *)
Definition reserve (toCreate : list ContainerPlan) (d : D) : list ContainerPlan + error :=
  let need := total_needs (map (fun p => rp_GPUCount (cp_Resources p)) toCreate) in
  if (0 <? need) && negb (bool_decide (ho_gpus host = []))
  then match assignGPUsLocked (ho_gpus host) toCreate d with
       | None => inr (panic "makeslice: len out of range")
       | Some res => res
       end
  else inl toCreate.

(** [createPlans] *)
Definition createPlans (kind namespace name : string) (toCreate : list ContainerPlan) (r : rt)
  : option error * list ContainerPlan * rt :=
  match ensure_images toCreate (st_docker r) with
  | (Some e, d) => (Some e, toCreate, record (with_docker r d) kind namespace name "" "ImagePullFailed" (Error e))
  | (None, d) =>
      let r1 := with_docker r d in
      match reserve toCreate d with
      | inr e => (Some e, toCreate, r1)
      | inl pinned =>
          let '(err, created, draws, d2) := create_all pinned (st_draws r1) d in
          let r2 := with_draws (with_docker r1 d2) draws in
          match err with
          | Some e => (Some e, created, record r2 kind namespace name "" "ApplyFailed" (Error e))
          | None => (None, created, r2)
          end
      end
  end.

(** ** Applying *)

(** The loop over the volumes of the plans. *)
Fixpoint ensure_volumes (mounts : list MountPlan) (labels : gmap string string) (d : D) : option error * D :=
  match mounts with
  | [] => (None, d)
  | m :: rest =>
      if negb (String.eqb (mp_Type m) "volume") then ensure_volumes rest labels d
      else match ensureVolume (mp_Source m) labels d with
           | (Some e, d') => (Some (Errorf ("ensure volume '" ++ mp_Source m ++ "'") e), d')
           | (None, d') => ensure_volumes rest labels d'
           end
  end.

(** A plan keeps its container, or is to be created under a new name. *)
Inductive planned := Keep (p : ContainerPlan) | Make (p : ContainerPlan).

Definition plan_of (x : planned) : ContainerPlan := match x with Keep p | Make p => p end.
Definition makes (l : list planned) : list ContainerPlan :=
  omap (fun x => match x with Make p => Some p | Keep _ => None end) l.

(** The loop that compares plans with the existing containers and removes the
    outdated ones. *)
Fixpoint plan_changes (bySlot : gmap string Container) (plans : list ContainerPlan) (draws : nat) (d : D)
  : (list planned + error) * nat * D :=
  match plans with
  | [] => (inl [], draws, d)
  | p :: rest =>
      let make d' :=
        let p' := with_name p (instanceName (ho_shortHash host) (ho_suffixes host draws) (cp_NamePrefix p) (cp_Replica p)
                                 (cp_StableOrdinal p)) in
        match plan_changes bySlot rest (S draws) d' with
        | (inl out, n, d2) => (inl (Make p' :: out), n, d2)
        | (inr e, n, d2) => (inr e, n, d2)
        end in
      match bySlot !! planSlot p with
      | Some cur =>
          if String.eqb (map_get "" (ct_Labels cur) LabelSpecHash) (map_get "" (cp_Labels p) LabelSpecHash)
          then match plan_changes bySlot rest draws d with
               | (inl out, n, d2) => (inl (Keep (with_name p (ct_Name cur)) :: out), n, d2)
               | (inr e, n, d2) => (inr e, n, d2)
               end
          else match removeContainer (ct_ID cur) d with
               | (Some e, d') => (inr e, draws, d')
               | (None, d') => make d'
               end
      | None => make d
      end
  end.

(** The plans with the names their containers got. *)
Fixpoint fill (l : list planned) (created : list ContainerPlan) : list ContainerPlan :=
  match l, created with
  | [], _ => []
  | Keep p :: rest, _ => p :: fill rest created
  | Make p :: rest, [] => p :: fill rest []
  | Make _ :: rest, p' :: created' => p' :: fill rest created'
  end.

(** The common part of the two Apply handlers: projections, existing
    containers, volumes, changes. *)
Definition prepare (kind namespace name : string) (plans : list ContainerPlan) (r : rt)
  : (list Container * list planned + error) * rt :=
  match reconcileConfigMapProjections kind namespace name plans r with
  | (Some e, r1) => (inr e, r1)
  | (None, r1) =>
      match listContainers kind namespace name (st_docker r1) with
      | inr e => (inr (docker_err e), r1)
      | inl existing =>
          match ensure_volumes (concat (map cp_Mounts plans)) (baseLabels kind namespace name) (st_docker r1) with
          | (Some e, d) => (inr e, with_docker r1 d)
          | (None, d) =>
              match plan_changes (indexBySlot existing) plans (st_draws r1) d with
              | (inr e, n, d2) => (inr e, with_draws (with_docker r1 d2) n)
              | (inl changes, n, d2) => (inl (existing, changes), with_draws (with_docker r1 d2) n)
              end
          end
      end
  end.

Definition render_run (run : Workload Q) : list ContainerPlan + error :=
  renderRunPlans (ho_checks host) (ho_ParseNormalizedNamed host) (ho_shortHash host) (ho_specHash host) (ho_cfg host) run.
Definition render_service (svc : Workload Q) : list ContainerPlan + error :=
  renderServicePlans (ho_checks host) (ho_ParseNormalizedNamed host) (ho_shortHash host) (ho_specHash host) (ho_cfg host) svc.

(** [ApplyMLRun] *)
Definition ApplyMLRun (desired : Workload Q) (r : rt) : option error * rt :=
  let ns := om_Namespace (wl_Meta desired) in
  let name := om_Name (wl_Meta desired) in
  match render_run desired with
  | inr e => (Some e, r)
  | inl plans =>
      match prepare KindRun ns name plans r with
      | (inr e, r1) => (Some e, r1)
      | (inl (_, changes), r1) =>
          match makes changes with
          | [] => (None, r1)
          | toCreate =>
              match createPlans KindRun ns name toCreate r1 with
              | (Some e, _, r2) => (Some e, r2)
              | (None, _, r2) => (None, record r2 KindRun ns name "" "Created" "run containers created")
              end
          end
      end
  end.

(** The scale-down loop: containers whose slot is not wanted. *)
Fixpoint remove_unwanted (wanted : gset string) (conts : list Container) (d : D) : option error * D :=
  match conts with
  | [] => (None, d)
  | c :: rest =>
      if bool_decide (containerSlot c ∈ wanted) then remove_unwanted wanted rest d
      else match removeContainer (ct_ID c) d with
           | (Some e, d') => (Some e, d')
           | (None, d') => remove_unwanted wanted rest d'
           end
  end.

(** [ApplyMLService] after the creations. *)
Definition finish_service (desired : Workload Q) (route : option Route) (plans : list ContainerPlan)
    (existing : list Container) (r : rt) : option error * rt :=
  let ns := om_Namespace (wl_Meta desired) in
  let name := om_Name (wl_Meta desired) in
  match remove_unwanted (list_to_set (map planSlot plans)) existing (st_docker r) with
  | (Some e, d) => (Some e, with_docker r d)
  | (None, d) =>
      let r1 := with_docker r d in
      match applyServiceRoute (ho_shortHash host) desired route plans (st_gateway r1) with
      | (Some e, g) => (Some e, record (with_gateway r1 g) KindService ns name "" "RouteFailed" (Error e))
      | (None, g) => (None, record (with_gateway r1 g) KindService ns name "" "Applied" "service converged")
      end
  end.

(** [ApplyMLService] *)
Definition ApplyMLService (desired : Workload Q) (route : option Route) (r : rt) : option error * rt :=
  let ns := om_Namespace (wl_Meta desired) in
  let name := om_Name (wl_Meta desired) in
  match render_service desired with
  | inr e => (Some e, r)
  | inl plans =>
      match prepare KindService ns name plans r with
      | (inr e, r1) => (Some e, r1)
      | (inl (existing, changes), r1) =>
          match makes changes with
          | [] => finish_service desired route (fill changes []) existing r1
          | toCreate =>
              match createPlans KindService ns name toCreate r1 with
              | (Some e, _, r2) => (Some e, r2)
              | (None, created, r2) => finish_service desired route (fill changes created) existing r2
              end
          end
      end
  end.

(** ** Observing *)

(** The counters of [ObserveMLRun]. *)
Record run_counts := {
  rc_running : nat;
  rc_succeeded : nat;
  rc_failed : nat;
  rc_pending : nat;
  rc_startedAt : option Z;
  rc_finishedAt : option Z;
  rc_failMsg : string }.

Definition no_counts : run_counts :=
  {| rc_running := 0; rc_succeeded := 0; rc_failed := 0; rc_pending := 0; rc_startedAt := None;
     rc_finishedAt := None; rc_failMsg := "" |}.

(** One iteration: the first start time, the last finish time. *)
Definition count_state (k : run_counts) (s : instState) : run_counts :=
  let started := match rc_startedAt k with Some t => Some t | None => is_startedAt s end in
  let finished := match is_finishedAt s with Some t => Some t | None => rc_finishedAt k end in
  if String.eqb (is_status s) "running"
  then {| rc_running := S (rc_running k); rc_succeeded := rc_succeeded k; rc_failed := rc_failed k;
          rc_pending := rc_pending k; rc_startedAt := started; rc_finishedAt := rc_finishedAt k; rc_failMsg := rc_failMsg k |}
  else if String.eqb (is_status s) "exited" && (is_exitCode s =? 0)
  then {| rc_running := rc_running k; rc_succeeded := S (rc_succeeded k); rc_failed := rc_failed k;
          rc_pending := rc_pending k; rc_startedAt := started; rc_finishedAt := finished; rc_failMsg := rc_failMsg k |}
  else if String.eqb (is_status s) "exited"
  then {| rc_running := rc_running k; rc_succeeded := rc_succeeded k; rc_failed := S (rc_failed k);
          rc_pending := rc_pending k; rc_startedAt := started; rc_finishedAt := finished;
          rc_failMsg := if is_oom s then "container OOMKilled" else "container exited with non-zero status" |}
  else {| rc_running := rc_running k; rc_succeeded := rc_succeeded k; rc_failed := rc_failed k;
          rc_pending := S (rc_pending k); rc_startedAt := started; rc_finishedAt := rc_finishedAt k; rc_failMsg := rc_failMsg k |}.

(** The status for the states, with or without a cancel. *)
Definition run_status (states : list instState) (cancelled : bool) : MLRunCRStatus :=
  let k := foldl count_state no_counts states in
  let conditions := if cancelled
    then [{| co_Type := ConditionSuspended; co_Status := "True"; co_Reason := ReasonCancelRequested |}] else [] in
  let status phase message finished :=
    {| rcs_Phase := phase; rcs_Message := message; rcs_StartedAt := rc_startedAt k; rcs_FinishedAt := finished;
       rcs_Conditions := conditions |} in
  if (0 <? rc_failed k)%nat then status MLRunPhaseFailed (rc_failMsg k) (rc_finishedAt k)
  else if (rc_succeeded k =? length states)%nat then status MLRunPhaseSucceeded "" (rc_finishedAt k)
  else if (0 <? rc_running k)%nat then status MLRunPhaseRunning "" None
  else status MLRunPhasePending "" None.

(** [ObserveMLRun] *)
Definition ObserveMLRun (namespace name : string) (r : rt) : MLRunCRStatus + error :=
  match listContainers KindRun namespace name (st_docker r) with
  | inr e => inr (docker_err e)
  | inl [] => inr notFound
  | inl conts =>
      match inspectAll conts (st_docker r) with
      | inr e => inr (docker_err e)
      | inl states => inl (run_status states (isCancelled r namespace name))
      end
  end.

(** The status [ObserveMLService] builds; the endpoint is the route's. *)
Definition service_status (states : list instState) (endpoint : string) : MLServiceCRStatus :=
  let nready := length (List.filter ready states) in
  let nfailed := length (List.filter (fun s => negb (ready s) && String.eqb (is_status s) "exited" &&
                                               negb (is_exitCode s =? 0)) states) in
  let total := length states in
  let status phase message :=
    {| scs_Phase := phase; scs_Message := message; scs_Endpoint := endpoint; scs_ReadyReplicas := wrap32 (Z.of_nat nready) |} in
  if (nready =? total)%nat then status PhaseReady ""
  else if (0 <? nready)%nat then status PhaseDegraded ""
  else if (nfailed =? total)%nat then status PhaseFailed "all replicas failed"
  else status PhasePending "".

(** [ObserveMLService] *)
Definition ObserveMLService (namespace name : string) (r : rt) : MLServiceCRStatus + error :=
  match listContainers KindService namespace name (st_docker r) with
  | inr e => inr (docker_err e)
  | inl [] => inr notFound
  | inl conts =>
      match inspectAll conts (st_docker r) with
      | inr e => inr (docker_err e)
      | inl states => inl (service_status states (serviceRouteEndpoint namespace name (st_gateway r)))
      end
  end.

(** ** Cancelling and deleting *)

Fixpoint stop_all (conts : list Container) (d : D) : option error * D :=
  match conts with
  | [] => (None, d)
  | c :: rest => match stopContainer (ct_ID c) d with (Some e, d') => (Some e, d') | (None, d') => stop_all rest d' end
  end.

Fixpoint remove_all (conts : list Container) (d : D) : option error * D :=
  match conts with
  | [] => (None, d)
  | c :: rest => match removeContainer (ct_ID c) d with (Some e, d') => (Some e, d') | (None, d') => remove_all rest d' end
  end.

(** [CancelMLRun] *)
Definition CancelMLRun (namespace name : string) (r : rt) : option error * rt :=
  let r1 := markCancelled r namespace name in
  match listContainers KindRun namespace name (st_docker r1) with
  | inr e => (Some (docker_err e), r1)
  | inl conts =>
      match stop_all conts (st_docker r1) with
      | (Some e, d) => (Some e, with_docker r1 d)
      | (None, d) => (None, record (with_docker r1 d) KindRun namespace name "" "Cancelled" "run cancel requested")
      end
  end.

(** [DeleteMLRun] *)
Definition DeleteMLRun (namespace name : string) (r : rt) : option error * rt :=
  match listContainers KindRun namespace name (st_docker r) with
  | inr e => (Some (docker_err e), r)
  | inl conts =>
      match remove_all conts (st_docker r) with
      | (Some e, d) => (Some e, with_docker r d)
      | (None, d) =>
          match removeConfigMapProjections KindRun namespace name (with_docker r d) with
          | (Some e, r1) => (Some e, r1)
          | (None, r1) =>
              let r2 := clearCancelled r1 namespace name in
              (None, if (0 <? length conts)%nat
                     then record r2 KindRun namespace name "" "Deleted" "run containers removed" else r2)
          end
      end
  end.

(** [DeleteMLService] *)
Definition DeleteMLService (namespace name : string) (r : rt) : option error * rt :=
  match listContainers KindService namespace name (st_docker r) with
  | inr e => (Some (docker_err e), r)
  | inl conts =>
      match remove_all conts (st_docker r) with
      | (Some e, d) => (Some e, with_docker r d)
      | (None, d) =>
          let r1 := with_docker r d in
          match deleteServiceRoute namespace name (st_gateway r1) with
          | (Some e, g) => (Some e, with_gateway r1 g)
          | (None, g) =>
              match removeConfigMapProjections KindService namespace name (with_gateway r1 g) with
              | (Some e, r2) => (Some e, r2)
              | (None, r2) =>
                  (None, if (0 <? length conts)%nat
                         then record r2 KindService namespace name "" "Deleted" "service containers removed" else r2)
              end
          end
      end
  end.

(** ** Instances *)

(** A projected pod, as far as [projectPod] fills it; the container state is
    the branch of [containerStatus] taken. *)
Inductive pod_state :=
| PodRunning (startedAt : option Z)
| PodTerminated (exitCode : Z) (reason : string) (finishedAt : option Z)
| PodWaiting (reason : string).

Record Pod := {
  pod_Name : string;
  pod_Namespace : string;
  pod_Labels : gmap string string;
  pod_Image : string;
  pod_Phase : string;
  pod_State : pod_state;
  pod_StartTime : option Z;
  pod_Ready : bool }.

(** [containerStatus] *)
Definition containerStatus (s : instState) : string * pod_state :=
  if String.eqb (is_status s) "running" then ("Running", PodRunning (is_startedAt s))
  else if String.eqb (is_status s) "exited" && (is_exitCode s =? 0)
  then ("Succeeded", PodTerminated 0 "Completed" (is_finishedAt s))
  else if String.eqb (is_status s) "exited"
  then ("Failed", PodTerminated (wrap32 (is_exitCode s)) (if is_oom s then "OOMKilled" else "Error") (is_finishedAt s))
  else ("Pending", PodWaiting "ContainerCreating").

(** [projectPod] *)
Definition projectPod (namespace : string) (s : instState) : Pod :=
  let '(phase, state) := containerStatus s in
  {| pod_Name := is_name s; pod_Namespace := namespace;
     pod_Labels := {[ DockerEngine.LabelTenant := is_tenant s; LabelRole := is_role s; LabelReplicaIndex := is_replica s ]};
     pod_Image := is_image s; pod_Phase := phase; pod_State := state; pod_StartTime := is_startedAt s;
     pod_Ready := ready s |}.

(** [projectPods], [ListMLRunInstances], [ListMLServiceInstances] *)
Definition projectPods (namespace : string) (conts : list Container) (d : D) : list Pod + error :=
  match inspectAll conts d with
  | inr e => inr (docker_err e)
  | inl states => inl (map (projectPod namespace) states)
  end.

Definition list_instances (kind namespace name : string) (r : rt) : list Pod + error :=
  match listContainers kind namespace name (st_docker r) with
  | inr e => inr (docker_err e)
  | inl conts => projectPods namespace conts (st_docker r)
  end.

Definition ListMLRunInstances : string -> string -> rt -> list Pod + error := list_instances KindRun.
Definition ListMLServiceInstances : string -> string -> rt -> list Pod + error := list_instances KindService.

Definition ErrInstanceNotOwned : error := ErrOther "instance not owned by workload".

(** [verifyInstance]: inspect takes a name as well as an id. *)
Definition verifyInstance (kind namespace name instance : string) (r : rt) : option error :=
  match listContainers kind namespace name (st_docker r) with
  | inr e => Some (docker_err e)
  | inl conts =>
      if existsb (fun c => String.eqb (ct_Name c) instance) conts then None
      else match d_ContainerInspect (st_docker r) instance with
           | inr e => if IsNotFoundErr e then Some notFound else Some (docker_err e)
           | inl _ => Some ErrInstanceNotOwned
           end
  end.

(** [GetMLRunInstanceEvents], [GetMLServiceInstanceEvents] *)
Definition instance_events (kind namespace name instance : string) (r : rt) : list Event + error :=
  match verifyInstance kind namespace name instance r with
  | Some e => inr e
  | None => inl (ring_list (st_events r) kind namespace name instance)
  end.

(** [GetMLRunEvents], [GetMLServiceEvents], [GetMLTrafficPolicyEvents] *)
Definition resource_events (kind namespace name : string) (r : rt) : list Event :=
  ring_list (st_events r) kind namespace name "".

(** ** Traffic policies *)

(** [firstExposedPort] *)
Definition firstExposedPort (id : string) (d : D) : Z :=
  match d_ContainerInspect d id with
  | inr _ => 80
  | inl ins => match sort_slice int_less (ct_ExposedPorts ins) with p :: _ => p | [] => 80 end
  end.

(** [memberEndpoints] *)
Definition memberEndpoints (namespace serviceName : string) (d : D) : list gatewayEndpoint + docker_error :=
  match listContainers KindService namespace serviceName d with
  | inr e => inr e
  | inl conts =>
      inl (map (fun c => gatewayContainerEndpoint (ct_Name c) (firstExposedPort (ct_ID c) d))
             (List.filter (fun c => String.eqb (ct_State c) "running") conts))
  end.

(** [renderGatewayTraffic]: the backends of the members, in order. *)
Definition traffic_backend (p : MLTrafficPolicyCR) (d : D) (m : BackendMember) : trafficBackend + docker_error :=
  let ns := om_Namespace (tcr_Meta p) in
  match memberEndpoints ns (bm_ServiceName m) d with
  | inr e => inr e
  | inl endpoints =>
      inl {| tb_serviceName := bm_ServiceName m;
             tb_resourceName := trafficMemberResourceName (ho_shortHash host) ns (om_Name (tcr_Meta p)) (bm_ServiceName m);
             tb_endpoints := endpoints; tb_weight := bm_Weight m |}
  end.

Definition renderGatewayTraffic (p : MLTrafficPolicyCR) (d : D) : list gatewayResource + docker_error :=
  match fold_err (fun out m => match traffic_backend p d m with inl b => inl (out ++ [b]) | inr e => inr e end)
          [] (tsp_Backends (tcr_Spec p)) with
  | inr e => inr e
  | inl backends => inl (gatewayTrafficResources (ho_shortHash host) p backends)
  end.

(** [ApplyMLTrafficPolicy] *)
Definition ApplyMLTrafficPolicy (desired : MLTrafficPolicyCR) (r : rt) : option error * rt :=
  let ns := om_Namespace (tcr_Meta desired) in
  let name := om_Name (tcr_Meta desired) in
  let backend := tsp_Backend (tcr_Spec desired) in
  if negb (String.eqb (be_Name backend) "native") || negb (String.eqb (be_Engine backend) "httproute")
  then (Some (capabilityError ("MLTrafficPolicy backend " ++ be_Name backend ++ "/" ++ be_Engine backend ++
                " is unsupported in standalone (only native/httproute)")), r)
  else
    match renderGatewayTraffic desired (st_docker r) with
    | inr e => (Some (docker_err e), r)
    | inl resources =>
        match gw_write (st_gateway r) (trafficFileName ns name) resources with
        | (Some e, g) => (Some e, with_gateway r g)
        | (None, g) => (None, record (with_gateway r g) KindTraffic ns name "" "Applied" "traffic policy config written")
        end
    end.

(** [serviceHasReady] *)
Definition serviceHasReady (namespace serviceName : string) (d : D) : bool :=
  match listContainers KindService namespace serviceName d with
  | inr _ => false
  | inl conts => match inspectAll conts d with inr _ => false | inl states => existsb ready states end
  end.

(** [ObserveMLTrafficPolicy] *)
Definition ObserveMLTrafficPolicy (namespace name : string) (r : rt) : MLTrafficPolicyCRStatus + error :=
  match gw_read (st_gateway r) (trafficFileName namespace name) with
  | inr NotExist => inr notFound
  | inr (FileFailed t) => inr (ErrOther t)
  | inl docs =>
      let members := readTrafficMembers docs in
      let backends := map (fun m => {| bs_ServiceName := tm_service m; bs_Weight := tm_weight m;
                                       bs_Ready := serviceHasReady namespace (tm_service m) (st_docker r) |}) members in
      inl {| tcs_Phase := traffic_phase backends; tcs_Message := ""; tcs_Endpoint := trafficEndpoint members;
             tcs_Backends := backends |}
  end.

(** [DeleteMLTrafficPolicy] *)
Definition DeleteMLTrafficPolicy (namespace name : string) (r : rt) : option error * rt :=
  match remove_file (trafficFileName namespace name) (st_gateway r) with
  | (Some e, g) => (Some e, with_gateway r g)
  | (None, g) => (None, record (with_gateway r g) KindTraffic namespace name "" "Deleted" "traffic policy config removed")
  end.
End Runtime.
