(* ===== verification/DockerInventory.v ===== *)
(** * Standalone runtime: the resource snapshot

    [inventory.go]: the Docker host as one node for queue admission, and how
    the GPUs the snapshot reports as used compare with the ones the allocator
    finds busy when it scans the host again, which is later and may see other
    containers. *)

From Stdlib Require Import ssreflect ZArith Lia Ascii String.
From stdpp Require Import base gmap list strings.
From S2P Require Import Prelude Placement ApiTypes Names Strconv Listing DockerPaths DockerEngine DockerGPU DockerFacts.

Open Scope Z_scope.

(** [NewQuantity] and [NewMilliQuantity] of apimachinery. *)
Class QuantityNew (Q : Type) := { NewQuantity : Z -> Q; NewMilliQuantity : Z -> Q }.
Class QuantityNewLaws (Q : Type) `{QuantityLaws Q} `{!QuantityNew Q} := {
  new_val n : q_val (NewQuantity n) = n * 1000000000;
  new_milli_val n : q_val (NewMilliQuantity n) = n * 1000000 }.

(** What [cli.Info] returns. *)
Record DaemonInfo := { di_Name : string; di_NCPU : Z; di_MemTotal : Z }.

Definition ResourceGPU : string := "nvidia.com/gpu".

Section Inventory.
Context {Q : Type} `{!Quantity Q} `{!QuantityNew Q}.
Context {D : Type} `{Docker D}.
Context (gpus : list Z) (reserved : gmap string Q).

(** [subtractReserved] is the pointwise subtraction that stops at zero. *)
Definition subtractReserved (allocatable : gmap string Q) : gmap string Q := subtractList allocatable reserved.

(** The requests of a container, from its inspected configuration. *)
Definition snapshot_requests (summary inspect : Container) : gmap string Q :=
  let cpu (m : gmap string Q) := if 0 <? ct_NanoCPUs inspect
    then <["cpu" := NewMilliQuantity (ct_NanoCPUs inspect / 1000000)]> m else m in
  let memory (m : gmap string Q) := if 0 <? ct_Memory inspect then <["memory" := NewQuantity (ct_Memory inspect)]> m else m in
  let count := dockerGPUCount (ct_DeviceRequests inspect) (map_get "" (ct_Labels summary) LabelGPUDevices)
                 (Z.of_nat (length gpus)) in
  let gpu (m : gmap string Q) := if 0 <? count then <[ResourceGPU := NewQuantity count]> m else m in
  gpu (memory (cpu ∅)).

Definition snapshot_allocation (nodeName : string) (summary inspect : Container) : ResourceAllocation Q :=
  let run := map_get "" (ct_Labels summary) LabelRunID in
  {| ra_NodeName := nodeName;
     ra_WorkloadID := if String.eqb run "" then map_get "" (ct_Labels summary) LabelServiceID else run;
     ra_Role := map_get "" (ct_Labels summary) LabelRole; ra_Replica := map_get "" (ct_Labels summary) LabelReplicaIndex;
     ra_Requests := snapshot_requests summary inspect |}.

(** The loop over the containers: those that are not alive hold nothing. *)
Definition snapshot_step (nodeName : string) (d : D) (out : list (ResourceAllocation Q)) (summary : Container)
  : list (ResourceAllocation Q) + docker_error :=
  if negb (gpuAlive (ct_State summary)) then inl out
  else match d_ContainerInspect d (ct_ID summary) with
       | inr e => inr e
       | inl inspect => inl (out ++ [snapshot_allocation nodeName summary inspect])
       end.

(** The allocatable resources of the host. *)
Definition host_allocatable (inf : DaemonInfo) : gmap string Q :=
  let base : gmap string Q := {[ "cpu" := NewMilliQuantity (di_NCPU inf * 1000); "memory" := NewQuantity (di_MemTotal inf) ]} in
  let count := Z.of_nat (length gpus) in
  subtractReserved (if 0 <? count then <[ResourceGPU := NewQuantity count]> base else base).

(** [Snapshot], without its time and version stamps. *)
Definition Snapshot (info : DaemonInfo + docker_error) (d : D) : ResourceSnapshot Q + docker_error :=
  match info with
  | inr e => inr e
  | inl inf =>
      let nodeName := if String.eqb (di_Name inf) "" then "standalone" else di_Name inf in
      match d_ContainerList d [] with
      | inr e => inr e
      | inl conts =>
          match fold_err (snapshot_step nodeName d) [] conts with
          | inr e => inr e
          | inl allocations =>
              inl {| rs_Nodes := [{| rn_Name := nodeName; rn_Labels := {[ "kubernetes.io/hostname" := nodeName ]};
                                     rn_Taints := []; rn_Allocatable := host_allocatable inf |}];
                     rs_Allocations := allocations |}
          end
      end
  end.
End Inventory.

(** ** The snapshot covers what the allocator counts *)

Section Cover.
Context {Q : Type} `{QuantityNewLaws Q} {D : Type} `{DockerLaws D}.
Context (gpus : list Z).

(** GPUs the allocations of a snapshot take, in billionths. *)
Definition allocated (l : list (ResourceAllocation Q)) : Z :=
  zsum (map (fun a => rl_val (ra_Requests a) ResourceGPU) l).

(** What the snapshot counts for a container, and what the allocator's scan
    finds it holds. *)
Definition counted (d : D) (c : Container) : Z :=
  if gpuAlive (ct_State c)
  then match d_ContainerInspect d (ct_ID c) with
       | inl ins => Z.max 0 (dockerGPUCount (ct_DeviceRequests ins) (map_get "" (ct_Labels c) LabelGPUDevices)
                               (Z.of_nat (length gpus)))
       | inr _ => 0
       end
  else 0.

Definition held (d : D) (c : Container) : Z :=
  if gpuAlive (ct_State c)
  then if negb (String.eqb (map_get "" (ct_Labels c) LabelGPUDevices) "") then Z.of_nat (length (label_devices c))
       else match d_ContainerInspect d (ct_ID c) with inl ins => requested_gpus (ct_DeviceRequests ins) | inr _ => 0 end
  else 0.

Lemma snapshot_requests_gpu summary inspect :
  rl_val (snapshot_requests (Q:=Q) gpus summary inspect) ResourceGPU =
  Z.max 0 (dockerGPUCount (ct_DeviceRequests inspect) (map_get "" (ct_Labels summary) LabelGPUDevices)
             (Z.of_nat (length gpus))) * 1000000000.
Proof.
  rw /snapshot_requests. set (n := dockerGPUCount _ _ _).
  assert (Hb : forall m : gmap string Q, m = (if 0 <? ct_NanoCPUs inspect then <["cpu" := NewMilliQuantity (ct_NanoCPUs inspect / 1000000)]> ∅ else ∅) ->
    rl_val (if 0 <? ct_Memory inspect then <["memory" := NewQuantity (ct_Memory inspect)]> m else m) ResourceGPU = 0).
  { intros m ->. rw /rl_val /rl_get. repeat case_match; rw ?map_get_insert_ne // map_get_empty q_val_zero //. }
  destruct (Z.ltb_spec 0 n).
  - rw /rl_val /rl_get map_get_insert new_val. lia.
  - rw Hb //. lia.
Qed.

(** The allocations of the snapshot take what is counted. *)
Lemma snapshot_counted node d conts out out' :
  fold_err (snapshot_step gpus node d) out conts = inl out' ->
  allocated out' = allocated out + zsum (map (counted d) conts) * 1000000000.
Proof.
  revert out. induction conts as [|c conts IH]; intros out; simpl.
  { intros [= <-]. lia. }
  rw {1}/snapshot_step /counted. destruct (gpuAlive (ct_State c)); simpl; [|intros E; rw (IH _ E) /counted /=; lia].
  destruct (d_ContainerInspect d (ct_ID c)) as [ins|e]; [|done]. intros E. rw (IH _ E).
  rw /allocated map_app zsum_app /= snapshot_requests_gpu. rw /counted. lia.
Qed.

(** The scan finds what is held. *)
Lemma scan_held d conts acc busy untracked :
  fold_err (scan_container d) acc conts = inl (busy, untracked) ->
  Z.of_nat (length busy) + untracked = Z.of_nat (length acc.1) + acc.2 + zsum (map (held d) conts).
Proof.
  revert acc. induction conts as [|c conts IH]; intros [b u]; simpl.
  { intros [= <- <-]. lia. }
  rw {1}/scan_container /held. destruct (gpuAlive (ct_State c)); simpl; [|intros E; rw (IH _ E) /held /=; lia].
  destruct (negb _).
  - intros E. rw (IH _ E) /held /= length_app. lia.
  - rw /legacyGPUCount. destruct (d_ContainerInspect d (ct_ID c)) as [ins|e]; [|done].
    intros E. rw (IH _ E) /held /=. lia.
Qed.

(** The two counts of device requests, for requests that name devices only
    when they have no count. *)
Definition request_sum (f : DeviceRequest -> Z) (drs : list DeviceRequest) : Z :=
  zsum (map (fun dr => if negb (String.eqb (dr_Driver dr) "nvidia") && negb (capsHaveGPU (dr_Capabilities dr)) then 0 else f dr) drs).

(** A counting loop is a sum. *)
Ltac sum_loop :=
  match goal with |- foldl ?F 0 ?l = zsum (map ?g ?l) =>
    assert (Hg : forall n, foldl F n l = n + zsum (map g l)); [|by rw Hg];
    induction l as [|x l IH]; intros n; simpl; [lia|]; rw IH; repeat case_match; lia
  end.

Lemma requested_sum drs :
  requested_gpus drs = request_sum (fun dr => if 0 <? dr_Count dr then dr_Count dr else Z.of_nat (length (dr_DeviceIDs dr))) drs.
Proof.
  rw /requested_gpus /request_sum. sum_loop.
Qed.

Lemma docker_count_sum drs cap :
  dockerGPUCount drs "" cap = request_sum (fun dr => if 0 <? dr_Count dr then dr_Count dr
    else if dr_Count dr <? 0 then cap else Z.of_nat (length (dr_DeviceIDs dr))) drs.
Proof.
  rw /dockerGPUCount /request_sum. change (negb (String.eqb "" "")) with false. cbv iota. sum_loop.
Qed.

Lemma requested_nonneg drs : 0 <= requested_gpus drs.
Proof.
  rw requested_sum /request_sum. induction drs as [|dr drs IH]; simpl; [done|].
  assert (Hz : forall b : bool, 0 <= (if b then 0 else if 0 <? dr_Count dr then dr_Count dr else Z.of_nat (length (dr_DeviceIDs dr)))).
  { intros []; [done|]. destruct (Z.ltb_spec 0 (dr_Count dr)); lia. }
  pose proof (Hz (negb (String.eqb (dr_Driver dr) "nvidia") && negb (capsHaveGPU (dr_Capabilities dr)))). lia.
Qed.

Lemma requested_counted drs cap : 0 <= cap ->
  (forall dr, dr ∈ drs -> dr_Count dr <> 0 -> dr_DeviceIDs dr = []) -> requested_gpus drs <= dockerGPUCount drs "" cap.
Proof.
  intros Hcap Hd. rw requested_sum docker_count_sum /request_sum. apply zsum_map_le. intros dr Hdr. simpl.
  destruct (_ && _); [done|]. destruct (Z.ltb_spec 0 (dr_Count dr)); [done|].
  destruct (Z.ltb_spec (dr_Count dr) 0); [|done]. rw (Hd dr Hdr); [lia|]. simpl. lia.
Qed.

Lemma held_nonneg d c : 0 <= held d c.
Proof. rw /held. repeat case_match; try lia. apply requested_nonneg. Qed.

(** A snapshot that succeeds counts at least what each container holds. *)
Lemma snapshot_inspected node d conts out out' c :
  fold_err (snapshot_step (Q:=Q) gpus node d) out conts = inl out' -> c ∈ conts -> gpuAlive (ct_State c) = true ->
  exists ins, d_ContainerInspect d (ct_ID c) = inl ins.
Proof.
  revert out. induction conts as [|x conts IH]; intros out E Hc Ha; [by apply elem_of_nil in Hc|]. simpl in E.
  destruct (snapshot_step gpus node d out x) as [o|] eqn:Ex; [|done].
  apply elem_of_cons in Hc as [->|Hc]; [|by eapply IH]. rw /snapshot_step Ha /= in Ex.
  destruct (d_ContainerInspect d (ct_ID x)); [eauto|done].
Qed.

Lemma held_counted d c ins :
  (gpuAlive (ct_State c) = true -> d_ContainerInspect d (ct_ID c) = inl ins) -> held d c <= counted d c.
Proof.
  rw /held /counted. destruct (gpuAlive (ct_State c)); [|done]. intros Hi. specialize (Hi eq_refl). rw Hi.
  destruct (String.eqb_spec (map_get "" (ct_Labels c) LabelGPUDevices) "") as [El|El]; simpl.
  - rw El. apply Z.max_le_iff. right. apply requested_counted; [lia|]. intros dr Hdr.
    apply law_inspect in Hi as [Hin _]. by eapply law_devices.
  - rw /dockerGPUCount (proj2 (String.eqb_neq _ _) El) /= /label_devices. lia.
Qed.

(** Busy and unknown cards leave this many free ones. *)
Lemma free_devices_length busy untracked : NoDup gpus -> 0 <= untracked ->
  Z.of_nat (length gpus) - (Z.of_nat (length busy) + untracked) <= Z.of_nat (length (free_devices gpus busy untracked)).
Proof.
  intros Hnd Hu. rw /free_devices. set (free := List.filter _ gpus).
  assert (Hf : (length gpus <= length free + length busy)%nat).
  { assert (Hs : gpus ⊆+ free ++ busy).
    { apply NoDup_submseteq; [done|]. intros x Hx. rw elem_of_app. destruct (decide (x ∈ busy)); [by right|left].
      apply list_elem_of_In, filter_In. rw -list_elem_of_In. split; [done|]. by rw bool_decide_false. }
    apply submseteq_length in Hs. by rw length_app in Hs. }
  destruct (Z.ltb_spec 0 untracked); [|lia]. destruct (Z.leb_spec (Z.of_nat (length free)) untracked); [simpl; lia|].
  rw length_drop. lia.
Qed.

Lemma zsum_filter_le {A} (f : A -> Z) (p : A -> bool) l :
  (forall x, 0 <= f x) -> zsum (map f (List.filter p l)) <= zsum (map f l).
Proof. intros Hf. induction l as [|x l IH]; simpl; [done|]. specialize (Hf x). destruct (p x); simpl; lia. Qed.

Lemma scan_untracked d conts acc busy untracked :
  0 <= acc.2 -> fold_err (scan_container d) acc conts = inl (busy, untracked) -> 0 <= untracked.
Proof.
  revert acc. induction conts as [|c conts IH]; intros [b u] Ha; simpl in *; [by intros [= <- <-]|].
  rw {1}/scan_container. destruct (negb (gpuAlive (ct_State c))); [by apply IH|].
  destruct (negb _); [by apply IH|]. rw /legacyGPUCount. destruct (d_ContainerInspect d (ct_ID c)) as [ins|]; [|done].
  apply IH. simpl. pose proof (requested_nonneg (ct_DeviceRequests ins)). lia.
Qed.

(** The node never offers more cards than the host hands out. *)
Lemma allocatable_gpus (reserved : gmap string Q) inf : (forall k, 0 <= rl_val reserved k) ->
  rl_val (host_allocatable gpus reserved inf) ResourceGPU <= Z.of_nat (length gpus) * 1000000000.
Proof.
  intros Hres. rw /host_allocatable /subtractReserved rl_val_subtract. specialize (Hres ResourceGPU). set (base := if 0 <? _ then _ else _).
  assert (Hb : rl_val base ResourceGPU <= Z.of_nat (length gpus) * 1000000000).
  { rw /base. destruct (Z.ltb_spec 0 (Z.of_nat (length gpus))).
    - rw /rl_val /rl_get map_get_insert new_val. lia.
    - rw rl_val_None; [done|lia]. }
  case_decide; lia.
Qed.

(** The cards the managed containers hold, by the allocator's count. *)
Definition cards_held (d : D) : Z := zsum (map (held d) (List.filter managed (containers d))).

Lemma managed_list d conts : d_ContainerList d [(LabelManaged, "true")] = inl conts -> conts ≡ₚ List.filter managed (containers d).
Proof. apply law_list. Qed.

(** The snapshot counts at least as many. *)
Lemma snapshot_counts_held reserved info (d : D) (snap : ResourceSnapshot Q) :
  Snapshot gpus reserved info d = inl snap -> cards_held d * 1000000000 <= allocated (rs_Allocations snap).
Proof.
  intros HS. rw /Snapshot in HS. destruct info as [inf|]; [|done].
  destruct (d_ContainerList d []) as [conts|] eqn:Hl; [|done].
  destruct (fold_err _ _ conts) as [out|] eqn:Hf; [|done]. injection HS as <-. simpl.
  rw (snapshot_counted _ _ _ _ _ Hf) {1}/allocated /=.
  enough (cards_held d <= zsum (map (counted d) conts)) by lia.
  apply law_list in Hl as Hpl. transitivity (zsum (map (held d) (containers d))); [apply zsum_filter_le, held_nonneg|].
  assert (Hall : conts ≡ₚ containers d) by (rw Hpl; clear; induction (containers d) as [|x l IH]; simpl; [done|by constructor]).
  rw -(zsum_perm _ _ (Permutation_map (held d) Hall)). apply zsum_map_le. intros c Hc.
  destruct (gpuAlive (ct_State c)) eqn:Ha.
  - destruct (snapshot_inspected _ _ _ _ _ _ Hf Hc Ha) as [ins Hi]. by eapply held_counted.
  - by rw /held /counted Ha.
Qed.

(** The free cards the allocator finds later are at least the ones the
    snapshot leaves, when the containers hold no more cards than before. *)
Lemma snapshot_leaves_free reserved info (d d' : D) (snap : ResourceSnapshot Q) node busy untracked :
  NoDup gpus -> (forall k, 0 <= rl_val reserved k) ->
  Snapshot gpus reserved info d = inl snap -> rs_Nodes snap = [node] -> busyGPUDevices d' = inl (busy, untracked) ->
  cards_held d' <= cards_held d ->
  rl_val (rn_Allocatable node) ResourceGPU - allocated (rs_Allocations snap) <=
  Z.of_nat (length (free_devices gpus busy untracked)) * 1000000000.
Proof.
  intros Hnd Hres HS Hnode HB Hmore. pose proof (snapshot_counts_held _ _ _ _ HS) as Hcount.
  rw /Snapshot in HS. destruct info as [inf|]; [|done]. destruct (d_ContainerList d []) as [conts|]; [|done].
  destruct (fold_err _ _ conts) as [out|]; [|done]. injection HS as <-. simpl in Hnode, Hcount |- *. injection Hnode as <-. simpl.
  rw /busyGPUDevices in HB. destruct (d_ContainerList d' [(LabelManaged, "true")]) as [mconts|] eqn:Hm; [|done].
  pose proof (scan_held _ _ _ _ _ HB) as Hheld. simpl in Hheld.
  assert (Hle : zsum (map (held d') mconts) = cards_held d').
  { apply zsum_perm, Permutation_map. by apply managed_list. }
  pose proof (scan_untracked _ _ _ _ _ (Z.le_refl 0 : 0 <= ([] : list Z, 0).2) HB) as Hu.
  pose proof (free_devices_length busy untracked Hnd Hu) as Hfree.
  pose proof (allocatable_gpus reserved inf Hres) as Halloc. lia.
Qed.
End Cover.
