(* ===== verification/DockerWorkloads.v ===== *)
(** * Standalone runtime: what the handlers do to the containers

    How the loops of Apply, Cancel and Delete change the containers the daemon
    holds: which are removed, which are added, and that the containers of
    other workloads are never touched. *)

From Stdlib Require Import ssreflect ZArith Lia Ascii String.
From stdpp Require Import base gmap list strings.
From S2P Require Import Prelude Placement ApiTypes Names Strconv Listing DockerPaths DockerEngine DockerGPU DockerFacts DockerRender DockerGateway DockerRuntime.

Open Scope Z_scope.

(** ** Slots *)

Lemma indexBySlot_Some conts s c : indexBySlot conts !! s = Some c -> c ∈ conts /\ containerSlot c = s.
Proof.
  rw /indexBySlot. assert (Hg : forall l (m : gmap string Container), (forall c, m !! s = Some c -> c ∈ conts /\ containerSlot c = s) -> l ⊆ conts ->
    foldl (fun m c => <[containerSlot c := c]> m) m l !! s = Some c -> c ∈ conts /\ containerSlot c = s).
  { induction l as [|x l IH]; intros m Hm Hl; simpl; [apply Hm|]. apply IH; [|set_solver].
    intros c'. destruct (decide (containerSlot x = s)) as [<-|Hne].
    - rw lookup_insert_eq. intros [= <-]. set_solver.
    - rw lookup_insert_ne //. apply Hm. }
  apply Hg; [|done]. intros c'. by rw lookup_empty.
Qed.

Lemma indexBySlot_unique conts c :
  NoDup (map containerSlot conts) -> c ∈ conts -> indexBySlot conts !! containerSlot c = Some c.
Proof.
  rw /indexBySlot. generalize (∅ : gmap string Container). induction conts as [|x l IH]; intros m Hnd Hc; [by apply elem_of_nil in Hc|].
  simpl in *. apply NoDup_cons in Hnd as [Hx Hnd]. apply elem_of_cons in Hc as [->|Hc]; [|by apply IH].
  assert (Hk : forall l (m : gmap string Container), containerSlot x ∉ map containerSlot l ->
    foldl (fun m c => <[containerSlot c := c]> m) m l !! containerSlot x = m !! containerSlot x).
  { clear. induction l as [|y l IH]; intros m Hx; [done|]. simpl in *. apply not_elem_of_cons in Hx as [Hxy Hx].
    rw IH // lookup_insert_ne //. }
  rw Hk // lookup_insert_eq //.
Qed.

(** The hash label of a plan or a container. *)
Definition plan_hash (p : ContainerPlan) : string := map_get "" (cp_Labels p) LabelSpecHash.
Definition container_hash (c : Container) : string := map_get "" (ct_Labels c) LabelSpecHash.

(** The plan whose container is already there and up to date. *)
Definition up_to_date (bySlot : gmap string Container) (p : ContainerPlan) : bool :=
  match bySlot !! planSlot p with
  | Some cur => String.eqb (container_hash cur) (plan_hash p)
  | None => false
  end.

(** The ids of the containers a plan replaces. *)
Definition outdated (bySlot : gmap string Container) (plans : list ContainerPlan) : list string :=
  omap (fun p => match bySlot !! planSlot p with
    | Some cur => if String.eqb (container_hash cur) (plan_hash p) then None else Some (ct_ID cur)
    | None => None
    end) plans.

(** How a plan was decided upon. *)
Definition decided (bySlot : gmap string Container) (p : ContainerPlan) (x : planned) : Prop :=
  exists name, x = if up_to_date bySlot p then Keep (with_name p name) else Make (with_name p name).

Lemma filter_drop_id (l : list Container) id R :
  filter (fun c => ct_ID c ∉ R) (filter (fun c => ct_ID c <> id) l) = filter (fun c => ct_ID c ∉ id :: R) l.
Proof.
  rw list_filter_filter. apply list_filter_iff. intros c. rw not_elem_of_cons. naive_solver.
Qed.

Lemma filter_no_ids (l : list Container) : filter (fun c => ct_ID c ∉ @nil string) l = l.
Proof. induction l as [|c l IH]; [done|]. rw filter_cons_True ?IH //. apply not_elem_of_nil. Qed.

Section Loops.
Context {D : Type} `{DockerLaws D} (host : Host).
Implicit Types (d : D) (c : Container).

(** ** The loops *)

Lemma ensureImage_containers auth ref policy d : containers (ensureImage auth ref policy d).2 = containers d.
Proof.
  assert (Hp : containers (pullImage auth ref d).2 = containers d).
  { rw /pullImage. destruct (match auth with Some _ => _ | None => _ end) as [a|]; [|done].
    pose proof (law_pull d ref a) as Hl. by destruct (d_ImagePull d ref a) as [[st|e] d']. }
  rw /ensureImage. destruct (pullImage auth ref d) as [err d'] eqn:E. simpl in Hp.
  repeat case_match; done.
Qed.

Lemma ensure_images_containers plans d : containers (ensure_images host plans d).2 = containers d.
Proof.
  revert d. induction plans as [|p plans IH]; intros d; simpl; [done|].
  pose proof (ensureImage_containers (ho_resolveAuth host) (cp_Image p) (cp_ImagePullPolicy p) d) as Hi.
  destruct (ensureImage _ _ _ _) as [[e|] d']; [done|]. by rw IH.
Qed.

Lemma ensure_volumes_containers mounts labels d : containers (ensure_volumes mounts labels d).2 = containers d.
Proof.
  revert d. induction mounts as [|m mounts IH]; intros d; simpl; [done|].
  destruct (negb _); [by apply IH|]. rw /ensureVolume. pose proof (law_volume d (mp_Source m) labels) as Hv.
  destruct (d_VolumeCreate d (mp_Source m) labels) as [[e|] d']; simpl in *; [done|]. by rw IH.
Qed.

(** Deciding on the plans removes outdated containers only, and all of them
    when it succeeds. *)
Lemma plan_changes_containers bySlot plans n d :
  match plan_changes host bySlot plans n d with
  | (inl changes, _, d') => Forall2 (decided bySlot) plans changes /\
      containers d' = filter (fun c => ct_ID c ∉ outdated bySlot plans) (containers d)
  | (inr _, _, d') => exists R, R ⊆ outdated bySlot plans /\ containers d' = filter (fun c => ct_ID c ∉ R) (containers d)
  end.
Proof.
  revert n d. induction plans as [|p plans IH]; intros n d; cbn [plan_changes].
  { split; [constructor|]. symmetry. apply filter_no_ids. }
  cbn [outdated omap list_omap]. fold (outdated bySlot plans).
  destruct (bySlot !! planSlot p) as [cur|] eqn:Hs; [rw -/(container_hash cur) -/(plan_hash p); destruct (String.eqb (container_hash cur) (plan_hash p)) eqn:Hh|].
  - specialize (IH n d). destruct (plan_changes host bySlot plans n d) as [[[out|e] n'] d2]; [|done].
    destruct IH as [HF Hc]. split; [|done]. constructor; [|done]. exists (ct_Name cur). by rw /up_to_date Hs Hh.
  - pose proof (removeContainer_containers (ct_ID cur) d) as Hr. destruct (removeContainer (ct_ID cur) d) as [[e|] d'].
    { destruct Hr as [Hr|Hr]; rw Hr.
      - exists []. split; [by intros ? ?%elem_of_nil|]. symmetry. apply filter_no_ids.
      - exists [ct_ID cur]. split; [set_solver|]. by rw -filter_drop_id filter_no_ids. }
    specialize (IH (S n) d'). destruct (plan_changes host bySlot plans (S n) d') as [[[out|e] n'] d2].
    + destruct IH as [HF Hc]. split; [|by rw Hc Hr filter_drop_id]. constructor; [|done]. eexists. by rw /up_to_date Hs Hh.
    + destruct IH as (R & HR & Hc). exists (ct_ID cur :: R). split; [set_solver|]. by rw Hc Hr filter_drop_id.
  - specialize (IH (S n) d). destruct (plan_changes host bySlot plans (S n) d) as [[[out|e] n'] d2]; [|done].
    destruct IH as [HF Hc]. split; [|done]. constructor; [|done]. eexists. by rw /up_to_date Hs.
Qed.

(** Creating plans adds containers made from them, one each on success. *)
Lemma create_all_containers plans n d :
  match create_all host plans n d with
  | (err, plans', _, d') => exists new, containers d' = containers d ++ new /\
      (forall c, c ∈ new -> exists p, p ∈ plans /\ made_from (toDocker (ho_net host) p) c) /\
      (err = None -> Forall2 (fun p c => made_from (toDocker (ho_net host) p) c) plans new /\
                     Forall2 (fun p' c => ct_Name c = cp_Name p') plans' new)
  end.
Proof.
  revert n d. induction plans as [|p plans IH]; intros n d; cbn [create_all].
  { exists []. rw app_nil_r. split_and!; [done|by intros ? ?%elem_of_nil|]. by repeat constructor. }
  pose proof (createAndStart_containers (ho_net host) (ho_shortHash host) (ho_suffixes host) n p d) as Hc.
  destruct (createAndStart _ _ _ _ _ _) as [[[e|] p'] d'].
  - destruct Hc as [[_ Hc]|(c & Hc & Hn & Hm & _)].
    + exists []. rw app_nil_r. split_and!; [done|by intros ? ?%elem_of_nil|done].
    + exists [c]. split_and!; [done| |done]. intros x ->%list_elem_of_singleton. exists p. split; [by left|done].
  - destruct Hc as [[? _]|(c & Hc & Hn & Hm & _)]; [done|].
    specialize (IH (n + 5)%nat d'). destruct (create_all host plans (n + 5) d') as [[[err plans'] n'] d2].
    destruct IH as (new & E & Hmade & Hok). exists (c :: new). split_and!.
    + by rw E Hc -app_assoc.
    + intros x [->|Hx]%elem_of_cons; [exists p; split; [by left|done]|].
      destruct (Hmade x Hx) as (q & ? & ?). exists q. split; [by right|done].
    + intros He. destruct (Hok He) as [H1 H2]. split; constructor; done.
Qed.

Lemma remove_all_containers conts d :
  match remove_all conts d with
  | (None, d') => containers d' = filter (fun c => ct_ID c ∉ map ct_ID conts) (containers d)
  | (Some _, d') => exists R, R ⊆ map ct_ID conts /\ containers d' = filter (fun c => ct_ID c ∉ R) (containers d)
  end.
Proof.
  revert d. induction conts as [|c conts IH]; intros d; cbn [remove_all]; [symmetry; apply filter_no_ids|].
  pose proof (removeContainer_containers (ct_ID c) d) as Hr. destruct (removeContainer (ct_ID c) d) as [[e|] d'].
  { destruct Hr as [Hr|Hr]; rw Hr.
    - exists []. split; [by intros ? ?%elem_of_nil|]. symmetry. apply filter_no_ids.
    - exists [ct_ID c]. split; [set_solver|]. by rw -filter_drop_id filter_no_ids. }
  specialize (IH d'). destruct (remove_all conts d') as [[e|] d2].
  - destruct IH as (R & HR & Hc). exists (ct_ID c :: R). split; [set_solver|]. by rw Hc Hr filter_drop_id.
  - by rw IH Hr filter_drop_id.
Qed.

(** The containers the scale-down loop removes. *)
Lemma remove_unwanted_all wanted conts d :
  remove_unwanted wanted conts d = remove_all (List.filter (fun c => negb (bool_decide (containerSlot c ∈ wanted))) conts) d.
Proof.
  revert d. induction conts as [|c conts IH]; intros d; [done|]. cbn [remove_unwanted List.filter].
  destruct (bool_decide (containerSlot c ∈ wanted)); cbn [negb]; [apply IH|]. cbn [remove_all].
  destruct (removeContainer (ct_ID c) d) as [[e|] d']; [done|apply IH].
Qed.

Lemma stop_all_containers conts d :
  Forall2 (fun c c' => same_config c c' /\ (ct_ID c ∉ map ct_ID conts -> c' = c)) (containers d) (containers (stop_all conts d).2).
Proof.
  revert d. induction conts as [|x conts IH]; intros d; cbn [stop_all].
  { apply Forall_Forall2_diag, Forall_forall. intros c _. split; [done|done]. }
  pose proof (stopContainer_containers (ct_ID x) d) as Hs. destruct (stopContainer (ct_ID x) d) as [[e|] d']; simpl in Hs.
  { eapply Forall2_impl; [exact Hs|]. intros c c' [Hc Hid]. split; [done|]. intros Hn. apply Hid. set_solver. }
  specialize (IH d'). eapply Forall2_trans; [|exact Hs|exact IH].
  intros a b c [(A1 & A2 & A3 & A4 & A5) Aid] [(B1 & B2 & B3 & B4 & B5) Bid]. split.
  - rw /same_config. split_and!; congruence.
  - simpl. rw not_elem_of_cons. intros [N1 N2]. rw (Aid N1) in Bid. by rw Bid.
Qed.
End Loops.

(** ** One workload and the others *)

Section Workload.
Context {D : Type} `{DockerLaws D} (host : Host) (kind ns name : string).
Implicit Types (d : D) (c : Container).

(** The containers with the workload's labels, and the rest. *)
Definition mine c : bool := has_labels (managedFilter kind ns name) c.
Definition own d : list Container := List.filter mine (containers d).
Definition others d : list Container := List.filter (fun c => negb (mine c)) (containers d).

Lemma elem_own d c : c ∈ own d <-> c ∈ containers d /\ mine c = true.
Proof. by rw /own list_elem_of_In filter_In -list_elem_of_In. Qed.

(** Every container that has one of the ids is the workload's. *)
Definition ours (ids : list string) d : Prop := forall c, c ∈ containers d -> ct_ID c ∈ ids -> mine c = true.

Lemma listed_ours d conts : listContainers kind ns name d = inl conts -> ours (map ct_ID conts) d.
Proof.
  intros Hl c Hc Hid. apply list_elem_of_In, in_map_iff in Hid as (x & Ex & Hx%list_elem_of_In).
  apply (law_list_elem _ _ _ x Hl) in Hx as [Hx Hm]. rw (unique_by ct_ID (containers d) c x) //. apply law_ids.
Qed.

Lemma listed_own d conts : listContainers kind ns name d = inl conts -> conts ≡ₚ own d.
Proof. apply law_list. Qed.

(** What a step of a handler may do: remove containers with the ids, add the
    workload's own. *)
Lemma removed_frame ids R d d' :
  ours ids d -> R ⊆ ids -> containers d' = filter (fun c => ct_ID c ∉ R) (containers d) ->
  others d' = others d /\ ours ids d'.
Proof.
  intros Ho HR E. split.
  - rw /others E. assert (Hl : forall c, c ∈ containers d -> ct_ID c ∈ R -> mine c = true).
    { intros c Hc Hr. apply Ho; [done|by apply HR]. }
    clear -Hl. induction (containers d) as [|c l IH]; [done|]. rw filter_cons. case_decide as Hd.
    + cbn [List.filter]. rw IH //. intros; apply Hl; [by right|done].
    + cbn [List.filter]. rw (Hl c); [by left|exact Hd|]. apply IH. intros; apply Hl; [by right|done].
  - intros c Hc Hid. apply Ho; [|done]. rw E in Hc. by apply list_elem_of_filter in Hc as [_ ?].
Qed.

Lemma added_frame ids new d d' :
  ours ids d -> containers d' = containers d ++ new -> (forall c, c ∈ new -> mine c = true) ->
  others d' = others d /\ ours ids d'.
Proof.
  intros Ho E Hn. split.
  - rw /others E List.filter_app. rw (_ : List.filter _ new = []); [|by rw app_nil_r].
    clear -Hn. induction new as [|c new IH]; [done|]. cbn [List.filter]. rw Hn; [by left|].
    apply IH. intros. apply Hn. by right.
  - intros c Hc Hid. rw E in Hc. apply elem_of_app in Hc as [Hc|Hc]; [by apply Ho|by apply Hn].
Qed.

Lemma stopped_frame conts d d' :
  ours (map ct_ID conts) d ->
  Forall2 (fun c c' => same_config c c' /\ (ct_ID c ∉ map ct_ID conts -> c' = c)) (containers d) (containers d') ->
  others d' = others d.
Proof.
  rw /others /ours. generalize (map ct_ID conts) as ids. intros ids Ho HF. induction HF as [|c c' l l' [(_ & _ & Hlab & _) Hid] HF IH]; [done|].
  cbn [List.filter]. rw IH; [intros; apply Ho; [by right|done]|].
  destruct (decide (ct_ID c ∈ ids)) as [Hin|Hin]; [|by rw Hid].
  assert (Hm : mine c = true) by (apply Ho; [by left|done]).
  assert (Hm' : mine c' = true) by (move: Hm; by rw /mine /has_labels Hlab). by rw Hm Hm'.
Qed.

(** ** Plans of the workload *)

Definition labels_have (f : list (string * string)) (labels : gmap string string) : bool :=
  forallb (fun kv => bool_decide (labels !! kv.1 = Some kv.2)) f.

Definition my_plan (p : ContainerPlan) : Prop := labels_have (managedFilter kind ns name) (cp_Labels p) = true.

Lemma made_mine net p c : my_plan p -> made_from (toDocker net p) c -> mine c = true.
Proof. intros Hp (Hl & _). rw /mine /has_labels Hl. exact Hp. Qed.

(** Pinning a plan to cards keeps its slot, hash and workload. *)
Definition same_labels (p p' : ContainerPlan) : Prop :=
  (my_plan p -> my_plan p') /\ planSlot p' = planSlot p /\ plan_hash p' = plan_hash p.

Lemma pin_same_labels p devs : same_labels p (pin_devices p devs).
Proof.
  rw /pin_devices. destruct devs as [|x devs]; [done|].
  rw /same_labels /my_plan /planSlot /slot_of /plan_hash /labels_have /= !map_get_insert_ne //.
  split; [|done]. by rw !lookup_insert_ne.
Qed.

Lemma hand_out_length free needs out : hand_out free needs = Some out -> length out = length needs.
Proof.
  revert free out. induction needs as [|n needs IH]; intros free out; simpl; [by intros [= <-]|].
  destruct (n <? 0); [done|]. destruct (hand_out (drop (Z.to_nat n) free) needs) as [o|] eqn:E; [|done].
  intros [= <-]. simpl. f_equal. by eapply IH.
Qed.

Lemma reserve_same_labels plans pinned d : reserve host plans d = inl pinned -> Forall2 same_labels plans pinned.
Proof.
  assert (Hrefl : Forall2 same_labels plans plans) by (apply Forall_Forall2_diag, Forall_forall; done).
  rw /reserve. destruct (_ && _); [|by intros [= <-]]. rw /assignGPUsLocked.
  destruct (busyGPUDevices d) as [[busy untracked]|]; [|done]. rw /computeAssignment.
  destruct (_ <? _); [done|]. destruct (_ <? _); [done|].
  destruct (hand_out _ _) as [out|] eqn:Eh; [|done]. intros [= <-].
  apply hand_out_length in Eh. rw length_map in Eh. clear Hrefl. revert out Eh. induction plans as [|p plans IH]; intros [|o out] Eh; try done.
  simpl. constructor; [apply pin_same_labels|]. apply IH. by injection Eh.
Qed.
End Workload.
