(* ===== verification/DockerApply.v ===== *)
(** * Standalone runtime: Apply, Cancel and Delete

    The container-level meaning of the handlers: rendered plans belong to
    their workload and have distinct slots, applying removes the outdated
    containers and creates the missing ones, and every handler leaves the
    containers of other workloads alone. *)

From Stdlib Require Import ssreflect ZArith Lia Ascii String.
From stdpp Require Import base gmap list strings.
From S2P Require Import Prelude Placement ApiTypes Names Strconv Listing DockerPaths DockerEngine DockerGPU DockerFacts DockerRender DockerGateway DockerRuntime DockerWorkloads.

Open Scope Z_scope.

(** ** Rendered plans *)

(** Slots of roles and indices are distinct. *)
Lemma slot_text_inj a b x y : slash ∉ x -> slash ∉ y -> a ++ slash :: x = b ++ slash :: y -> a = b /\ x = y.
Proof.
  revert b. induction a as [|c a IH]; intros [|d b] Hx Hy; simpl; intros E.
  - by injection E as ->.
  - injection E as <- E. destruct Hx. rw E. apply elem_of_app. right. by left.
  - injection E as -> E. destruct Hy. rw -E. apply elem_of_app. right. by left.
  - injection E as -> E. by destruct (IH b Hx Hy E) as [-> ->].
Qed.

Lemma Itoa_no_slash n : 0 <= n -> slash ∉ Itoa n.
Proof.
  intros Hn Hin. pose proof (Itoa_digits n Hn) as Hd. rw forallb_forall in Hd. by specialize (Hd _ (proj1 (list_elem_of_In _ _) Hin)).
Qed.

Lemma slot_inj (ra rb : string) i j : 0 <= i <= int64_max -> 0 <= j <= int64_max ->
  (ra ++ "/" ++ formatLabelInt i)%string = (rb ++ "/" ++ formatLabelInt j)%string -> ra = rb /\ i = j.
Proof.
  intros Hi Hj E. apply (f_equal list_ascii_of_string) in E. rw !bytes_app /formatLabelInt !list_ascii_of_string_of_list_ascii in E.
  apply slot_text_inj in E as [E1 E2]; [|apply Itoa_no_slash; lia..]. split.
  - apply (f_equal string_of_list_ascii) in E1. by rw !string_of_list_ascii_of_string in E1.
  - apply (f_equal Atoi) in E2. rw !Atoi_Itoa in E2; [rw /in_int64 /int64_min; lia..|]. by injection E2.
Qed.

Section Rendered.
Context (host : Host) {Q : Type} `{QuantityRead Q}.
Implicit Types (w : Workload Q) (p : ContainerPlan).

(** What rendering gives: plans of the workload with the hash of their
    identity, role and index. *)
Record rendered (kind ns name : string) (p : ContainerPlan) : Prop := {
  re_mine : my_plan kind ns name p;
  re_hash : plan_hash p = ho_specHash host (planIdentity p);
  re_name : cp_Name p = "" }.

Lemma labels_have_insert f k v labels : k ∉ map fst f -> labels_have f (<[k := v]> labels) = labels_have f labels.
Proof.
  induction f as [|[k' v'] f IH]; [done|]. simpl. rw not_elem_of_cons. intros [Hk Hf].
  rw IH // lookup_insert_ne //.
Qed.

(** The keys that identify a workload. *)
Definition is_identity_key (k : string) : bool :=
  bool_decide (k ∈ [LabelManaged; LabelResourceKind; LabelNamespace; LabelName]).

Lemma reserved_keys kind ns name k : is_identity_key k = false -> k ∉ map fst (managedFilter kind ns name).
Proof. intros Hk. by apply bool_decide_eq_false in Hk. Qed.

Lemma baseLabels_have kind ns name : labels_have (managedFilter kind ns name) (baseLabels kind ns name) = true.
Proof. rw /labels_have /managedFilter /baseLabels /=. rw !bool_decide_true //; by simplify_map_eq. Qed.

Definition id_label (l : string) : Prop := l = LabelRunID \/ l = LabelServiceID.

Lemma replica_plan_rendered kind idLabel restart stable obj role (tmpl : Template Q) parts i :
  id_label idLabel ->
  rendered kind (om_Namespace obj) (om_Name obj)
    (replica_plan (ho_shortHash host) (ho_specHash host) kind idLabel restart stable obj role tmpl parts i).
Proof.
  intros Hid. split; [|by rw /plan_hash /= map_get_insert|done].
  rw /my_plan /replica_plan /stamp_hash. cbn [with_devices cp_Labels].
  assert (Hk : is_identity_key idLabel = false) by (by destruct Hid as [-> | ->]; vm_compute).
  do 3 (rw labels_have_insert; [by apply reserved_keys; vm_compute|]). rw labels_have_insert; [by apply reserved_keys|apply baseLabels_have].
Qed.

(** A role as the API server accepts it: an [int32] of replicas. *)
Definition replicas_ok (roles : list (WorkloadRole Q)) : Prop := Forall (fun r => in_int32 (wr_Replicas r)) roles.

Lemma replica_plan_slot kind idLabel restart stable obj role (tmpl : Template Q) parts i :
  planSlot (replica_plan (ho_shortHash host) (ho_specHash host) kind idLabel restart stable obj role tmpl parts i) =
  (role ++ "/" ++ formatLabelInt i)%string.
Proof.
  rw /planSlot /slot_of /replica_plan /stamp_hash. cbn [with_devices cp_Labels].
  rw (map_get_insert_ne _ _ LabelSpecHash LabelRole) // (map_get_insert_ne _ _ LabelReplicaIndex LabelRole) // map_get_insert.
  rw (map_get_insert_ne _ _ LabelSpecHash LabelReplicaIndex) // map_get_insert //.
Qed.

Lemma replica_indices_elem n i : in_int32 n -> i ∈ replica_indices n -> 0 <= i <= int64_max.
Proof.
  rw /in_int32 /int32_min /int32_max /int64_max /replica_indices. intros Hn Hi.
  apply list_elem_of_fmap in Hi as (k & -> & Hk%list_elem_of_In%in_seq). lia.
Qed.

(** The plans of one role: distinct slots under the role's name. *)
Lemma role_plans kind idLabel restart stable obj role (tmpl : Template Q) parts n :
  id_label idLabel -> in_int32 n ->
  let plans := map (replica_plan (ho_shortHash host) (ho_specHash host) kind idLabel restart stable obj role tmpl parts)
                 (replica_indices n) in
  Forall (rendered kind (om_Namespace obj) (om_Name obj)) plans /\ NoDup (map planSlot plans) /\
  forall p, p ∈ plans -> exists i, 0 <= i <= int64_max /\ planSlot p = (role ++ "/" ++ formatLabelInt i)%string.
Proof.
  intros Hid Hn plans. split_and!.
  - apply Forall_forall. intros p (i & -> & Hi)%list_elem_of_fmap. by apply replica_plan_rendered.
  - rw /plans map_map. rw (map_ext _ (fun i => (role ++ "/" ++ formatLabelInt i)%string)); [intros; apply replica_plan_slot|].
    assert (Hnd : NoDup (replica_indices n)).
    { apply NoDup_fmap_2; [intros ? ?; lia|]. apply NoDup_ListNoDup, seq_NoDup. }
    pose proof (fun i => replica_indices_elem n i Hn) as Hb. induction Hnd as [|i l Hi Hnd IH]; simpl; [constructor|].
    constructor; [|apply IH; intros; apply Hb; by right]. intros (j & E & Hj)%list_elem_of_fmap.
    apply slot_inj in E as [_ ->]; [done|apply Hb; by left|apply Hb; by right].
  - intros p (i & -> & Hi)%list_elem_of_fmap. exists i. split; [by eapply replica_indices_elem|apply replica_plan_slot].
Qed.

(** The plans of a run. *)
Lemma run_roles_plans obj configMaps roles plans out :
  replicas_ok roles ->
  fold_err (run_role (ho_checks host) (ho_ParseNormalizedNamed host) (ho_shortHash host) (ho_specHash host) (ho_cfg host) obj configMaps)
    plans roles = inl out ->
  exists more, out = plans ++ more /\ Forall (rendered KindRun (om_Namespace obj) (om_Name obj)) more /\
    (forall p, p ∈ more -> exists role i, role ∈ map wr_Name roles /\ 0 <= i <= int64_max /\
       planSlot p = (role ++ "/" ++ formatLabelInt i)%string) /\
    (NoDup (map wr_Name roles) -> NoDup (map planSlot more)).
Proof.
  intros Hr. revert plans. induction Hr as [|role roles Hn Hr IH]; intros plans; simpl.
  { intros [= <-]. exists []. rw app_nil_r. split_and!; [done|constructor|by intros ? ?%elem_of_nil|constructor]. }
  destruct (run_role _ _ _ _ _ _ _ plans role) as [plans1|] eqn:E1; [|done]. intros (more & -> & HF & Hs & Hd)%IH.
  rw /run_role in E1. destruct (wr_Replicas role <=? 0).
  { injection E1 as <-. exists more. split_and!; [done|done| |].
    - intros p Hp. destruct (Hs p Hp) as (r & i & ? & ?). exists r, i. split; [by right|done].
    - intros [_ ?]%NoDup_cons. by apply Hd. }
  repeat (case_match; [|done]). injection E1 as <-.
  match goal with |- context [map ?f (replica_indices ?n)] => set (mine_plans := map f (replica_indices n)) end.
  destruct (role_plans KindRun LabelRunID "no" false obj (wr_Name role) (wr_Template role)
    {| rt_PullPolicy := s; rt_Env := l; rt_Ports := []; rt_Mounts := l0 |} (wr_Replicas role) (or_introl eq_refl) Hn) as (R1 & R2 & R3).
  fold mine_plans in R1, R2, R3. exists (mine_plans ++ more). split_and!.
  - by rw app_assoc.
  - by apply Forall_app.
  - intros p [Hp|Hp]%elem_of_app.
    + destruct (R3 p Hp) as (i & ? & ?). exists (wr_Name role), i. split; [by left|done].
    + destruct (Hs p Hp) as (r & i & ? & ?). exists r, i. split; [by right|done].
  - intros [Hnew Hnd]%NoDup_cons. rw map_app. apply NoDup_app. split_and!; [done| |by apply Hd].
    intros x (p & -> & Hp)%list_elem_of_fmap (q & Eq & Hq)%list_elem_of_fmap.
    destruct (R3 p Hp) as (i & Hi & Ei). destruct (Hs q Hq) as (r & j & Hrn & Hj & Ej).
    rw Ei Ej in Eq. apply slot_inj in Eq as [<- _]; done.
Qed.

Lemma render_run_plans w plans :
  replicas_ok (wl_Roles w) -> render_run host w = inl plans ->
  Forall (rendered KindRun (om_Namespace (wl_Meta w)) (om_Name (wl_Meta w))) plans /\
  (NoDup (map wr_Name (wl_Roles w)) -> NoDup (map planSlot plans)).
Proof.
  intros Hr. rw /render_run /renderRunPlans. destruct (_ || _); [done|]. destruct (newConfigMapSet _ _) as [cms|]; [|done].
  destruct (fold_err _ [] (wl_Roles w)) as [[|p out]|] eqn:E; [done| |done]. intros [= <-].
  destruct (run_roles_plans _ _ _ _ _ Hr E) as (more & Em & HF & _ & Hd). simpl in Em. by rw Em.
Qed.

Lemma render_service_plans w plans :
  replicas_ok (wl_Roles w) -> render_service host w = inl plans ->
  Forall (rendered KindService (om_Namespace (wl_Meta w)) (om_Name (wl_Meta w))) plans /\ NoDup (map planSlot plans).
Proof.
  intros Hr. rw /render_service /renderServicePlans. destruct (_ || _); [done|].
  destruct (wl_Roles w) as [|role roles]; [done|]. apply Forall_cons in Hr as [Hn _].
  repeat (case_match; [|done]). intros [= <-].
  edestruct role_plans as (R1 & R2 & _); [|exact Hn|split; [exact R1|exact R2]]. by right.
Qed.
End Rendered.

(** ** The handlers *)

Section Handlers.
Context {D F G : Type} `{DockerLaws D} `{Projections F} `{GatewayDir G}.
Context {Q : Type} `{QuantityRead Q} (host : Host).
Implicit Types (r : Runtime D F G) (p : ContainerPlan).

Lemma reconcile_docker kind ns name plans r :
  st_docker (reconcileConfigMapProjections host kind ns name plans r).2 = st_docker r.
Proof. rw /reconcileConfigMapProjections. repeat (case_match; simpl; try done). Qed.

Lemma removeProjections_docker kind ns name r : st_docker (removeConfigMapProjections host kind ns name r).2 = st_docker r.
Proof. rw /removeConfigMapProjections. repeat (case_match; simpl; try done). Qed.

Section Workload.
Context (kind ns name : string).

(** What [prepare] does to the containers. *)
Lemma prepare_containers plans r :
  match prepare host kind ns name plans r with
  | (inl (existing, changes), r1) => exists d, containers d = containers (st_docker r) /\
      listContainers kind ns name d = inl existing /\ Forall2 (decided (indexBySlot existing)) plans changes /\
      containers (st_docker r1) = filter (fun c => ct_ID c ∉ outdated (indexBySlot existing) plans) (containers (st_docker r))
  | (inr _, r1) => containers (st_docker r1) = containers (st_docker r) \/
      exists existing R, listContainers kind ns name (st_docker r) = inl existing /\
        R ⊆ outdated (indexBySlot existing) plans /\
        containers (st_docker r1) = filter (fun c => ct_ID c ∉ R) (containers (st_docker r))
  end.
Proof.
  rw /prepare. pose proof (reconcile_docker kind ns name plans r) as Hdk.
  destruct (reconcileConfigMapProjections host kind ns name plans r) as [[e|] r1]; simpl in Hdk; [left; by rw Hdk|].
  destruct (listContainers kind ns name (st_docker r1)) as [existing|e] eqn:El; [|left; by rw Hdk].
  pose proof (ensure_volumes_containers (concat (map cp_Mounts plans)) (baseLabels kind ns name) (st_docker r1)) as Hv.
  destruct (ensure_volumes _ _ _) as [[e|] d]; simpl in Hv; [left; simpl; by rw Hv Hdk|].
  pose proof (plan_changes_containers host (indexBySlot existing) plans (st_draws r1) d) as Hp.
  destruct (plan_changes _ _ _ _ _) as [[[changes|e] n] d2]; simpl.
  - exists (st_docker r1). destruct Hp as [HF Hc]. split_and!; [by rw Hdk|done|done|]. by rw Hc Hv Hdk.
  - destruct Hp as (R & HR & Hc). right. exists existing, R. rw -Hdk. split_and!; [done|done|]. by rw Hc Hv.
Qed.

(** What [createPlans] does to the containers. *)
Lemma createPlans_containers now k n m toCreate r :
  Forall (my_plan kind ns name) toCreate ->
  match createPlans host now k n m toCreate r with
  | (err, created, r') => exists new, containers (st_docker r') = containers (st_docker r) ++ new /\
      (forall c, c ∈ new -> mine kind ns name c = true) /\
      (err = None -> Forall2 (fun p c => containerSlot c = planSlot p /\ container_hash c = plan_hash p) toCreate new)
  end.
Proof.
  intros Hm. rw /createPlans. pose proof (ensure_images_containers host toCreate (st_docker r)) as Hi.
  destruct (ensure_images host toCreate (st_docker r)) as [[e|] d]; simpl in Hi.
  { exists []. rw app_nil_r. split_and!; [done|by intros ? ?%elem_of_nil|done]. }
  destruct (reserve host toCreate d) as [pinned|e] eqn:Er.
  2:{ exists []. rw app_nil_r. split_and!; [done|by intros ? ?%elem_of_nil|done]. }
  apply (reserve_same_labels host kind ns name) in Er.
  pose proof (create_all_containers host pinned (st_draws (with_docker r d)) d) as Hc.
  destruct (create_all host pinned _ d) as [[[err created] n'] d2]. destruct Hc as (new & E & Hmade & Hok).
  assert (Hmine : forall c, c ∈ new -> mine kind ns name c = true).
  { intros c Hcn. destruct (Hmade c Hcn) as (p & Hp & Hmf). eapply made_mine; [|exact Hmf].
    apply list_elem_of_lookup in Hp as [i Hp]. destruct (Forall2_lookup_r _ _ _ _ _ Er Hp) as (p0 & Hp0 & Hs & _).
    apply Hs. rw Forall_lookup in Hm. by eapply Hm. }
  destruct err as [e|]; exists new; simpl; (split_and!; [by rw E Hi|done|]); [done|]. intros _.
  destruct (Hok eq_refl) as [HF _]. eapply Forall2_trans; [|exact Er|exact HF].
  intros p p' c (_ & Hs & Hh) (Hl & _). rw /containerSlot /container_hash Hl. by split.
Qed.

Lemma outdated_listed existing plans : outdated (indexBySlot existing) plans ⊆ map ct_ID existing.
Proof.
  intros id (p & Hp & E)%list_elem_of_omap. destruct (indexBySlot existing !! planSlot p) as [cur|] eqn:Ec; [|done].
  apply indexBySlot_Some in Ec as [Hc _]. destruct (String.eqb _ _); [done|]. injection E as <-. by apply list_elem_of_fmap_2.
Qed.

(** ** Other workloads *)

Lemma own_of_containers d d' : containers d = containers d' -> own kind ns name d = own kind ns name d'.
Proof. by rw /own => ->. Qed.

Lemma prepare_frame plans r :
  match prepare host kind ns name plans r with
  | (res, r1) => others kind ns name (st_docker r1) = others kind ns name (st_docker r) /\
      forall existing changes, res = inl (existing, changes) -> ours kind ns name (map ct_ID existing) (st_docker r1)
  end.
Proof.
  pose proof (prepare_containers plans r) as Hp. destruct (prepare host kind ns name plans r) as [[[existing changes]|e] r1].
  - destruct Hp as (d & Ed & Hl & _ & Hc). pose proof (listed_ours kind ns name d existing Hl) as Ho.
    assert (Ho' : ours kind ns name (map ct_ID existing) (st_docker r)) by (intros c; rw -Ed; apply Ho).
    destruct (removed_frame kind ns name _ (outdated (indexBySlot existing) plans) (st_docker r) (st_docker r1) Ho') as [Hdk Hdk2]; [apply outdated_listed|exact Hc|].
    split; [done|]. by intros ? ? [= <- <-].
  - split; [|done]. destruct Hp as [Hp|(existing & R & Hl & HR & Hc)]; [by rw /others Hp|].
    destruct (removed_frame kind ns name _ R (st_docker r) (st_docker r1) (listed_ours kind ns name _ _ Hl)); [|exact Hc|done].
    intros x Hx. by eapply outdated_listed, HR.
Qed.

Lemma createPlans_frame now k n m toCreate r ids :
  Forall (my_plan kind ns name) toCreate -> ours kind ns name ids (st_docker r) ->
  let r' := (createPlans host now k n m toCreate r).2 in
  others kind ns name (st_docker r') = others kind ns name (st_docker r) /\ ours kind ns name ids (st_docker r').
Proof.
  intros Hm Ho. pose proof (createPlans_containers now k n m toCreate r Hm) as Hc.
  destruct (createPlans host now k n m toCreate r) as [[err created] r']. destruct Hc as (new & E & Hn & _). simpl.
  by eapply added_frame.
Qed.

Lemma remove_all_frame conts ids (d : D) :
  ours kind ns name ids d -> map ct_ID conts ⊆ ids ->
  others kind ns name (remove_all conts d).2 = others kind ns name d /\ ours kind ns name ids (remove_all conts d).2.
Proof.
  intros Ho Hs. pose proof (remove_all_containers conts d) as Hr. destruct (remove_all conts d) as [[e|] d']; simpl.
  - destruct Hr as (R & HR & Hc). eapply removed_frame; [done| |done]. set_solver.
  - eapply removed_frame; [done| |done]. done.
Qed.

Lemma makes_mine plans changes bySlot :
  Forall (my_plan kind ns name) plans -> Forall2 (decided bySlot) plans changes -> Forall (my_plan kind ns name) (makes changes).
Proof.
  intros Hm HF. induction HF as [|p x plans changes [nm ->] HF IH]; [constructor|].
  apply Forall_cons in Hm as [Hp Hm]. rw /makes. destruct (up_to_date bySlot p); simpl; [by apply IH|].
  constructor; [done|by apply IH].
Qed.

(** ** Convergence *)

Lemma decided_slots bySlot plans changes :
  Forall2 (decided bySlot) plans changes -> map planSlot (map plan_of changes) = map planSlot plans.
Proof.
  intros HF. induction HF as [|p x plans changes [nm ->] HF IH]; [done|]. simpl. rw IH. by destruct (up_to_date bySlot p).
Qed.

(** Each plan has its container, and slots are unique. *)
Record converged (plans : list ContainerPlan) (d : D) : Prop := {
  cv_slots : NoDup (map containerSlot (own kind ns name d));
  cv_plans p : p ∈ plans -> exists c, c ∈ own kind ns name d /\ containerSlot c = planSlot p /\ container_hash c = plan_hash p }.

Lemma decided_makes bySlot plans changes p :
  Forall2 (decided bySlot) plans changes -> p ∈ plans -> up_to_date bySlot p = false ->
  exists q, q ∈ makes changes /\ planSlot q = planSlot p /\ plan_hash q = plan_hash p.
Proof.
  intros HF. induction HF as [|p' x plans changes [nm ->] HF IH]; [by intros ?%elem_of_nil|].
  intros [->|Hp]%elem_of_cons Hu; rw /makes /=.
  - rw Hu /=. eexists. split; [by left|done].
  - destruct (IH Hp Hu) as (q & Hq & ?). exists q. split; [|done]. destruct (up_to_date bySlot p'); [done|by right].
Qed.

Lemma makes_decided bySlot plans changes q :
  Forall2 (decided bySlot) plans changes -> q ∈ makes changes ->
  exists p, p ∈ plans /\ up_to_date bySlot p = false /\ planSlot q = planSlot p /\ plan_hash q = plan_hash p.
Proof.
  intros HF. induction HF as [|p' x plans changes [nm ->] HF IH]; [by intros ?%elem_of_nil|].
  rw /makes /=. destruct (up_to_date bySlot p') eqn:Hu; simpl.
  - intros Hq. destruct (IH Hq) as (p & ? & ?). exists p. split; [by right|done].
  - intros [->|Hq]%elem_of_cons; [exists p'; split; [by left|done]|].
    destruct (IH Hq) as (p & ? & ?). exists p. split; [by right|done].
Qed.

Lemma makes_slots bySlot plans changes :
  Forall2 (decided bySlot) plans changes -> NoDup (map planSlot plans) -> NoDup (map planSlot (makes changes)).
Proof.
  intros HF. induction HF as [|p x plans changes [nm ->] HF IH]; [done|]. intros [Hp Hnd]%NoDup_cons.
  rw /makes /=. destruct (up_to_date bySlot p); simpl; [by apply IH|]. constructor; [|by apply IH].
  intros (q & E & Hq)%list_elem_of_fmap. destruct (makes_decided _ _ _ _ HF Hq) as (p' & Hp' & _ & Es & _).
  apply Hp. change (planSlot (with_name p nm)) with (planSlot p) in E. rw E Es. by apply list_elem_of_fmap_2.
Qed.

Lemma own_sublist (ids : list string) (d0 d1 : D) :
  containers d1 = filter (fun c => ct_ID c ∉ ids) (containers d0) -> own kind ns name d1 `sublist_of` own kind ns name d0.
Proof.
  intros E. rw /own E. clear. induction (containers d0) as [|c l IH]; [done|].
  rw filter_cons. case_decide; cbn [List.filter]; destruct (mine kind ns name c); ((exact IH) || (by constructor)).
Qed.

(** A container that is up to date for its plan is outdated for none. *)
Lemma current_not_outdated existing plans cur p (d0 : D) :
  NoDup (map planSlot plans) -> (forall c, c ∈ existing -> c ∈ containers d0) -> p ∈ plans ->
  cur ∈ existing -> containerSlot cur = planSlot p -> container_hash cur = plan_hash p ->
  ct_ID cur ∉ outdated (indexBySlot existing) plans.
Proof.
  intros Hps Hin Hp Hcur Es Eh (p2 & Hp2 & E)%list_elem_of_omap.
  destruct (indexBySlot existing !! planSlot p2) as [cur2|] eqn:Ec2; [|done].
  apply indexBySlot_Some in Ec2 as [Hcur2 Es2].
  destruct (String.eqb_spec (container_hash cur2) (plan_hash p2)) as [|Hne]; [done|]. injection E as E.
  assert (cur2 = cur) as -> by (apply (unique_by ct_ID (containers d0)); [apply law_ids|by apply Hin..|done]).
  assert (p2 = p) as ->; [|done]. apply (unique_by planSlot plans); congruence.
Qed.

(** Removing the outdated containers and adding the missing ones converges. *)
Lemma changes_converge existing changes plans new (d0 d1 d2 : D) :
  existing ≡ₚ own kind ns name d0 -> NoDup (map containerSlot (own kind ns name d0)) -> NoDup (map planSlot plans) ->
  Forall2 (decided (indexBySlot existing)) plans changes ->
  containers d1 = filter (fun c => ct_ID c ∉ outdated (indexBySlot existing) plans) (containers d0) ->
  containers d2 = containers d1 ++ new -> (forall c, c ∈ new -> mine kind ns name c = true) ->
  Forall2 (fun p c => containerSlot c = planSlot p /\ container_hash c = plan_hash p) (makes changes) new ->
  converged plans d2 /\ (forall c, containerSlot c ∉ map planSlot plans -> c ∈ own kind ns name d2 <-> c ∈ existing).
Proof.
  intros Hperm Hs0 Hps HF E1 E2 Hnew HFn.
  assert (Hs : NoDup (map containerSlot existing)) by (by rw Hperm).
  assert (Hidx : forall c, c ∈ existing -> indexBySlot existing !! containerSlot c = Some c) by (intros; by apply indexBySlot_unique).
  assert (Hown1 : forall c, c ∈ own kind ns name d1 -> c ∈ existing /\ ct_ID c ∉ outdated (indexBySlot existing) plans).
  { intros c [Hc Hm]%elem_own. rw E1 in Hc. apply list_elem_of_filter in Hc as [? ?]. split; [|done]. rw Hperm. by apply elem_own. }
  assert (Hown2 : own kind ns name d2 = own kind ns name d1 ++ new).
  { rw /own E2 List.filter_app. f_equal. clear -Hnew. induction new as [|c new IH]; [done|]. cbn [List.filter].
    rw Hnew; [by left|]. f_equal. apply IH. intros. apply Hnew. by right. }
  assert (Hstale : forall c p, c ∈ own kind ns name d1 -> p ∈ plans -> up_to_date (indexBySlot existing) p = false -> containerSlot c <> planSlot p).
  { intros c p Hc Hp Hu E. destruct (Hown1 c Hc) as [Hex Hnot]. apply Hnot.
    apply list_elem_of_omap. exists p. split; [done|]. rw /up_to_date -E (Hidx c Hex) in Hu. by rw -E (Hidx c Hex) Hu. }
  assert (Hsub : forall c, c ∈ existing -> ct_ID c ∉ outdated (indexBySlot existing) plans -> c ∈ own kind ns name d1).
  { intros c Hc Hid. rw Hperm in Hc. apply elem_own in Hc as [Hc Hm]. apply elem_own. split; [|done].
    rw E1. by apply list_elem_of_filter. }
  split; [split|].
  - rw Hown2 map_app. apply NoDup_app. split_and!.
    + eapply sublist_NoDup; [exact Hs0|]. apply (fmap_sublist containerSlot). by eapply own_sublist.
    + intros s (c & -> & Hc)%list_elem_of_fmap (c' & E & Hc')%list_elem_of_fmap.
      apply list_elem_of_lookup in Hc' as [i Hi]. destruct (Forall2_lookup_r _ _ _ _ _ HFn Hi) as (q & Hq & Es & _).
      apply list_elem_of_lookup_2 in Hq. destruct (makes_decided _ _ _ _ HF Hq) as (p & Hp & Hu & Eq & _).
      apply (Hstale c p Hc Hp Hu). congruence.
    + assert (Heq : map containerSlot new = map planSlot (makes changes)).
      { clear -HFn. induction HFn as [|p c l l' [E _] _ IH]; [done|]. simpl. by rw E IH. }
      rw Heq. by eapply makes_slots.
  - intros p Hp. destruct (up_to_date (indexBySlot existing) p) eqn:Hu.
    + rw /up_to_date in Hu. destruct (indexBySlot existing !! planSlot p) as [cur|] eqn:Ec; [|done].
      apply String.eqb_eq in Hu. apply indexBySlot_Some in Ec as [Hcur Es]. exists cur. split_and!; [|done|done].
      rw Hown2. apply elem_of_app. left. apply Hsub; [done|]. eapply current_not_outdated; [exact Hps| |exact Hp|done..].
      intros x Hx. rw Hperm in Hx. by apply elem_own in Hx as [? _].
    + destruct (decided_makes _ _ _ _ HF Hp Hu) as (q & Hq & Eq & Eh). apply list_elem_of_lookup in Hq as [i Hi].
      destruct (Forall2_lookup_l _ _ _ _ _ HFn Hi) as (c & Hc & Es & Ehh). exists c.
      split_and!; [rw Hown2; apply elem_of_app; right; by eapply list_elem_of_lookup_2|congruence|congruence].
  - intros c Hno. rw Hown2 elem_of_app. split.
    + intros [Hc|Hc]; [by apply Hown1|]. destruct Hno. apply list_elem_of_lookup in Hc as [i Hi].
      destruct (Forall2_lookup_r _ _ _ _ _ HFn Hi) as (q & Hq & -> & _). apply list_elem_of_lookup_2 in Hq.
      destruct (makes_decided _ _ _ _ HF Hq) as (p & Hp & _ & -> & _). by apply list_elem_of_fmap_2.
    + intros Hc. left. apply Hsub; [done|]. intros (p & Hp & E)%list_elem_of_omap.
      destruct (indexBySlot existing !! planSlot p) as [cur|] eqn:Ec; [|done]. apply indexBySlot_Some in Ec as [Hcur Es].
      destruct (String.eqb _ _); [done|]. injection E as E. destruct Hno.
      rw (unique_by ct_ID (containers d0) c cur) ?Es; [apply law_ids|..|by apply list_elem_of_fmap_2];
        [rw Hperm in Hc; by apply elem_own in Hc as [? _]|rw Hperm in Hcur; by apply elem_own in Hcur as [? _]|done].
Qed.

(** In a converged state there is nothing to do. *)
Lemma converged_current plans (d : D) existing :
  converged plans d -> existing ≡ₚ own kind ns name d ->
  (forall p, p ∈ plans -> up_to_date (indexBySlot existing) p = true) /\ outdated (indexBySlot existing) plans = [].
Proof.
  intros [Hs Hp] Hperm.
  assert (Hc : forall p, p ∈ plans -> exists c, indexBySlot existing !! planSlot p = Some c /\ container_hash c = plan_hash p).
  { intros p Hin. destruct (Hp p Hin) as (c & Hc & Es & Eh). exists c. split; [|done]. rw -Es.
    apply indexBySlot_unique; by rw Hperm. }
  split.
  - intros p Hin. destruct (Hc p Hin) as (c & Ec & Eh). rw /up_to_date Ec. by apply String.eqb_eq.
  - clear -Hc. induction plans as [|p plans IH]; [done|]. cbn [outdated omap list_omap]. destruct (Hc p) as (c & Ec & Eh); [by left|].
    rw Ec (proj2 (String.eqb_eq _ _) Eh). apply IH. intros; apply Hc; by right.
Qed.

Lemma current_makes bySlot plans changes :
  Forall2 (decided bySlot) plans changes -> (forall p, p ∈ plans -> up_to_date bySlot p = true) -> makes changes = [].
Proof.
  intros HF. induction HF as [|p x plans changes [nm ->] HF IH]; intros Hu; [done|].
  rw /makes /= Hu; [by left|]. apply IH. intros. apply Hu. by right.
Qed.

Lemma prepare_quiet plans r :
  converged plans (st_docker r) ->
  match prepare host kind ns name plans r with
  | (res, r1) => containers (st_docker r1) = containers (st_docker r) /\
      forall existing changes, res = inl (existing, changes) ->
        existing ≡ₚ own kind ns name (st_docker r) /\ makes changes = [] /\ map planSlot (map plan_of changes) = map planSlot plans
  end.
Proof.
  intros Hcv. pose proof (prepare_containers plans r) as Hp.
  destruct (prepare host kind ns name plans r) as [[[existing changes]|e] r1].
  - destruct Hp as (d & Ed & Hl & HF & Hc). apply listed_own in Hl. rw (own_of_containers _ _ Ed) in Hl.
    destruct (converged_current _ _ _ Hcv Hl) as [Hu Ho]. rw Ho filter_no_ids in Hc. split; [done|].
    intros ? ? [= <- <-]. split_and!; [done|by eapply current_makes|].
    by eapply decided_slots.
  - split; [|done]. destruct Hp as [Hp|(existing & R & Hl & HR & Hc)]; [done|]. apply listed_own in Hl.
    destruct (converged_current _ _ _ Hcv Hl) as [_ Ho]. rw Ho in HR. rw Hc.
    rw (_ : R = []); [|apply filter_no_ids]. destruct R as [|x R]; [done|]. by destruct (not_elem_of_nil x); apply HR; left.
Qed.
End Workload.

(** ** Apply *)

(** The workload of a desired object. *)
Abbreviation wns := (fun w => om_Namespace (wl_Meta w)) (only parsing).
Abbreviation wname := (fun w => om_Name (wl_Meta w)) (only parsing).

Lemma rendered_mine kind ns name plans : Forall (rendered host kind ns name) plans -> Forall (my_plan kind ns name) plans.
Proof. intros HF. eapply Forall_impl; [exact HF|]. by intros p []. Qed.

(** A successful preparation followed by the creations converges. *)
Lemma apply_converges kind ns name now plans existing changes created r r1 r2 :
  Forall (my_plan kind ns name) plans -> NoDup (map planSlot plans) ->
  NoDup (map containerSlot (own kind ns name (st_docker r))) ->
  prepare host kind ns name plans r = (inl (existing, changes), r1) ->
  (makes changes = [] /\ r2 = r1) \/ createPlans host now kind ns name (makes changes) r1 = (None, created, r2) ->
  converged kind ns name plans (st_docker r2) /\
  (forall c, containerSlot c ∉ map planSlot plans -> c ∈ own kind ns name (st_docker r2) <-> c ∈ existing) /\
  map planSlot (map plan_of changes) = map planSlot plans.
Proof.
  intros Hm Hps Hs Hp Hc. pose proof (prepare_containers kind ns name plans r) as Hpc. rw Hp in Hpc.
  destruct Hpc as (d & Ed & Hl & HF & E1). apply listed_own in Hl. rw (own_of_containers _ _ _ _ _ Ed) in Hl.
  rw and_assoc. split; [|by eapply decided_slots]. destruct Hc as [[Hno ->]|Hc].
  - eapply (changes_converge _ _ _ existing changes plans []); [exact Hl|exact Hs|exact Hps|exact HF|exact E1|by rw app_nil_r| |by rw Hno].
    by intros ? ?%elem_of_nil.
  - pose proof (createPlans_containers kind ns name now kind ns name (makes changes) r1 (makes_mine _ _ _ _ _ _ Hm HF)) as Hcc.
    rw Hc in Hcc. destruct Hcc as (new & E2 & Hnew & Hok).
    eapply changes_converge; [exact Hl|exact Hs|exact Hps|exact HF|exact E1|exact E2|exact Hnew|by apply Hok].
Qed.

Lemma ApplyMLRun_converges now (w : Workload Q) plans r r' :
  replicas_ok (wl_Roles w) -> NoDup (map wr_Name (wl_Roles w)) -> render_run host w = inl plans ->
  NoDup (map containerSlot (own KindRun (wns w) (wname w) (st_docker r))) ->
  ApplyMLRun host now w r = (None, r') -> converged KindRun (wns w) (wname w) plans (st_docker r').
Proof.
  intros Hr Hn Hren Hs. destruct (render_run_plans host w plans Hr Hren) as [HF Hd]. rw /ApplyMLRun Hren.
  destruct (prepare host KindRun _ _ plans r) as [[[existing changes]|e] r1] eqn:Hp; [|done].
  destruct (makes changes) as [|q qs] eqn:Em.
  - intros [= <-]. eapply (apply_converges _ _ _ now _ _ _ [] _ r1 r1); [by apply rendered_mine|by apply Hd|exact Hs|exact Hp|by left].
  - destruct (createPlans _ _ _ _ _ _ _) as [[[e|] created] r2] eqn:Hc; [done|]. intros [= <-].
    eapply (apply_converges _ _ _ now _ _ _ created _ r1 r2); [by apply rendered_mine|by apply Hd|exact Hs|exact Hp|right; by rw Em].
Qed.

Lemma ApplyMLRun_quiet now (w : Workload Q) plans r :
  render_run host w = inl plans -> converged KindRun (wns w) (wname w) plans (st_docker r) ->
  containers (st_docker (ApplyMLRun host now w r).2) = containers (st_docker r).
Proof.
  intros Hren Hcv. rw /ApplyMLRun Hren. pose proof (prepare_quiet KindRun _ _ plans r Hcv) as Hp.
  destruct (prepare host KindRun _ _ plans r) as [[[existing changes]|e] r1]; [|exact (proj1 Hp)].
  destruct Hp as [Hc Hm]. destruct (Hm _ _ eq_refl) as (_ & -> & _). exact Hc.
Qed.
End Handlers.
