(* ===== verification/DockerHandlers.v ===== *)
(** * Standalone runtime: services, cancel and delete

    The service handler converges to exactly the replicas of the spec, Delete
    leaves no container of the workload, and no handler touches the containers
    of another workload. *)

From Stdlib Require Import ssreflect ZArith Lia Ascii String.
From stdpp Require Import base gmap list strings.
From S2P Require Import Prelude Placement ApiTypes Names Strconv Listing DockerPaths DockerEngine DockerGPU DockerFacts DockerRender DockerGateway DockerRuntime DockerWorkloads DockerApply.

Open Scope Z_scope.

Abbreviation wns := (fun w => om_Namespace (wl_Meta w)) (only parsing).
Abbreviation wname := (fun w => om_Name (wl_Meta w)) (only parsing).

(** ** Names of created plans *)

Section Names.
Context {D : Type} `{Docker D} (host : Host).

Lemma create_retry_labels n k last req p (d : D) :
  cp_Labels (create_retry (ho_shortHash host) (ho_suffixes host) n k last req p d).1.2 = cp_Labels p.
Proof.
  revert k last p d. induction n as [|n IH]; intros k last p d; simpl; [done|].
  destruct (d_ContainerCreate d req (cp_Name p)) as [[id|e] d']; [done|]. destruct (_ || _); [done|]. by rw IH.
Qed.

Lemma createAndStart_labels k p (d : D) :
  cp_Labels (createAndStart (ho_net host) (ho_shortHash host) (ho_suffixes host) k p d).1.2 = cp_Labels p.
Proof.
  rw /createAndStart. pose proof (create_retry_labels 5 k (DockerFailed "") (toDocker (ho_net host) p) p d) as Hl.
  destruct (create_retry _ _ _ _ _ _ _ _) as [[[id|e] p'] d']; [|done]. simpl in Hl.
  by destruct (d_ContainerStart d' id) as [[e|] d2].
Qed.

Lemma create_all_slots plans n (d : D) : map planSlot (create_all host plans n d).1.1.2 = map planSlot plans.
Proof.
  revert n d. induction plans as [|p plans IH]; intros n d; [done|]. cbn [create_all].
  pose proof (createAndStart_labels n p d) as Hl. destruct (createAndStart _ _ _ _ _ _) as [[[e|] p'] d']; simpl in Hl.
  - simpl. by rw /planSlot Hl.
  - specialize (IH (n + 5)%nat d'). destruct (create_all host plans (n + 5) d') as [[[err plans'] n'] d2]. simpl in *.
    by rw IH /planSlot Hl.
Qed.
End Names.

Lemma fill_slots changes created :
  map planSlot created = map planSlot (makes changes) -> map planSlot (fill changes created) = map planSlot (map plan_of changes).
Proof.
  revert created. induction changes as [|[p|p] changes IH]; intros created; [done|..]; rw /makes /=.
  - intros E. by rw IH.
  - destruct created as [|q created]; [done|]. simpl. intros [= E1 E2]. by rw E1 IH.
Qed.

Section Handlers.
Context {D F G : Type} `{DockerLaws D} `{Projections F} `{GatewayDir G}.
Context {Q : Type} `{QuantityRead Q} (host : Host).
Implicit Types (r : Runtime D F G).

Lemma createPlans_slots now k n m toCreate created r r' :
  createPlans host now k n m toCreate r = (None, created, r') -> map planSlot created = map planSlot toCreate.
Proof.
  rw /createPlans. destruct (ensure_images host toCreate (st_docker r)) as [[e|] d]; [done|].
  destruct (reserve host toCreate d) as [pinned|] eqn:Er; [|done]. apply (reserve_same_labels host "" "" "") in Er.
  pose proof (create_all_slots host pinned (st_draws (with_docker r d)) d) as Hs.
  destruct (create_all _ _ _ _) as [[[[e|] cr] n'] d2]; [done|]. intros [= <- <-]. simpl in Hs. rw Hs.
  clear -Er. induction Er as [|p p' l l' (_ & E & _) _ IH]; [done|]. simpl. by rw E IH.
Qed.

(** ** Services *)

(** The end of [ApplyMLService] removes the replicas that are not wanted. *)
Lemma finish_service_containers now (w : Workload Q) route plans existing r :
  match finish_service host now w route plans existing r with
  | (err, r') =>
    let unwanted := List.filter (fun c => negb (bool_decide (containerSlot c ∈ (list_to_set (map planSlot plans) : gset string)))) existing in
    exists R, R ⊆ map ct_ID unwanted /\ (err = None -> R = map ct_ID unwanted) /\
      containers (st_docker r') = filter (fun c => ct_ID c ∉ R) (containers (st_docker r))
  end.
Proof.
  rw /finish_service remove_unwanted_all. set (unwanted := List.filter _ existing).
  pose proof (remove_all_containers unwanted (st_docker r)) as Hr.
  destruct (remove_all unwanted (st_docker r)) as [[e|] d].
  - destruct Hr as (R & HR & Hc). exists R. by split_and!.
  - destruct (applyServiceRoute _ _ _ _ _) as [[e|] g]; exists (map ct_ID unwanted); by split_and!.
Qed.

(** Every container of the workload is a replica of a plan. *)
Definition exact kind ns name (plans : list ContainerPlan) (d : D) : Prop :=
  converged kind ns name plans d /\ map containerSlot (own kind ns name d) ≡ₚ map planSlot plans.

Lemma wanted_slot plans (c : Container) :
  negb (bool_decide (containerSlot c ∈ (list_to_set (map planSlot plans) : gset string))) = true <-> containerSlot c ∉ map planSlot plans.
Proof. rw negb_true_iff bool_decide_eq_false elem_of_list_to_set. done. Qed.

(** Scaling down after convergence leaves exactly the plans' replicas. *)
Lemma scale_down_exact kind ns name now (w : Workload Q) route plans plans' existing r r' :
  NoDup (map planSlot plans) -> map planSlot plans' = map planSlot plans ->
  converged kind ns name plans (st_docker r) ->
  (forall c, containerSlot c ∉ map planSlot plans -> c ∈ own kind ns name (st_docker r) <-> c ∈ existing) ->
  finish_service host now w route plans' existing r = (None, r') -> exact kind ns name plans (st_docker r').
Proof.
  intros Hps Hpl [Hs Hp] Hex Hf. pose proof (finish_service_containers now w route plans' existing r) as Hc. rw Hf in Hc.
  destruct Hc as (R & _ & HR & Hc). specialize (HR eq_refl). rw Hpl in HR.
  set (unwanted := List.filter _ existing) in HR.
  assert (Hun : forall c, c ∈ unwanted <-> c ∈ existing /\ containerSlot c ∉ map planSlot plans).
  { intros c. rw /unwanted list_elem_of_In filter_In -list_elem_of_In wanted_slot. done. }
  assert (Hown : forall c, c ∈ own kind ns name (st_docker r') -> c ∈ own kind ns name (st_docker r) /\ containerSlot c ∈ map planSlot plans).
  { intros c [Hin Hm]%elem_own. rw Hc in Hin. apply list_elem_of_filter in Hin as [Hn Hin].
    assert (Ho : c ∈ own kind ns name (st_docker r)) by (by apply elem_own). split; [done|].
    destruct (decide (containerSlot c ∈ map planSlot plans)) as [|Hno]; [done|]. destruct Hn. rw HR.
    apply list_elem_of_fmap_2, Hun. split; [by apply Hex|done]. }
  assert (Hkeep : forall c, c ∈ own kind ns name (st_docker r) -> containerSlot c ∈ map planSlot plans -> c ∈ own kind ns name (st_docker r')).
  { intros c Ho Hsl. apply elem_own in Ho as [Hin Hm]. apply elem_own. split; [|done]. rw Hc. apply list_elem_of_filter. split; [|done].
    rw HR. intros (u & E & [Hu Hno]%Hun)%list_elem_of_fmap. apply (Hex u Hno) in Hu. apply elem_own in Hu as [Hu _].
    by rw -(unique_by ct_ID _ c u (law_ids (st_docker r)) Hin Hu E) in Hno. }
  assert (Hnd : NoDup (map containerSlot (own kind ns name (st_docker r')))).
  { eapply sublist_NoDup; [exact Hs|]. apply (fmap_sublist containerSlot). by eapply own_sublist. }
  assert (Hpl' : forall p, p ∈ plans -> exists c, c ∈ own kind ns name (st_docker r') /\ containerSlot c = planSlot p /\ container_hash c = plan_hash p).
  { intros p Hin. destruct (Hp p Hin) as (c & Ho & Es & Eh). exists c. split; [|done]. apply Hkeep; [done|].
    rw Es. by apply list_elem_of_fmap_2. }
  split; [by split|]. apply NoDup_Permutation; [done|done|]. intros s. split.
  - intros (c & -> & Hin)%list_elem_of_fmap. by apply Hown.
  - intros (p & -> & Hin)%list_elem_of_fmap. destruct (Hpl' p Hin) as (c & Ho & <- & _). by apply list_elem_of_fmap_2.
Qed.

Lemma ApplyMLService_exact now (w : Workload Q) route plans r r' :
  replicas_ok (wl_Roles w) -> render_service host w = inl plans ->
  NoDup (map containerSlot (own KindService (wns w) (wname w) (st_docker r))) ->
  ApplyMLService host now w route r = (None, r') -> exact KindService (wns w) (wname w) plans (st_docker r').
Proof.
  intros Hr Hren Hs. destruct (render_service_plans host w plans Hr Hren) as [HF Hps]. rw /ApplyMLService Hren.
  destruct (prepare host KindService _ _ plans r) as [[[existing changes]|e] r1] eqn:Hp; [|done].
  destruct (makes changes) as [|q qs] eqn:Em.
  - destruct (apply_converges host _ _ _ now plans existing changes [] r r1 r1 (rendered_mine _ _ _ _ _ HF) Hps Hs Hp) as (Hcv & Hex & Hsl); [by left|].
    intros Hf. eapply scale_down_exact; [done| |exact Hcv|exact Hex|exact Hf]. rw fill_slots //. by rw Em.
  - destruct (createPlans _ _ _ _ _ _ _) as [[[e|] created] r2] eqn:Hc; [done|].
    destruct (apply_converges host _ _ _ now plans existing changes created r r1 r2 (rendered_mine _ _ _ _ _ HF) Hps Hs Hp) as (Hcv & Hex & Hsl); [right; by rw Em|].
    intros Hf. eapply scale_down_exact; [done| |exact Hcv|exact Hex|exact Hf]. rw fill_slots //. rw Em. by eapply createPlans_slots.
Qed.

Lemma ApplyMLService_quiet now (w : Workload Q) route plans r :
  render_service host w = inl plans -> exact KindService (wns w) (wname w) plans (st_docker r) ->
  containers (st_docker (ApplyMLService host now w route r).2) = containers (st_docker r).
Proof.
  intros Hren [Hcv Hperm]. rw /ApplyMLService Hren. pose proof (prepare_quiet host KindService _ _ plans r Hcv) as Hp.
  destruct (prepare host KindService _ _ plans r) as [[[existing changes]|e] r1]; [|exact (proj1 Hp)].
  destruct Hp as [Hc Hm]. destruct (Hm _ _ eq_refl) as (Hex & Hmk & Hsl). rw Hmk.
  pose proof (finish_service_containers now w route (fill changes []) existing r1) as Hf.
  destruct (finish_service _ _ _ _ _ _ _) as [err r2]. destruct Hf as (R & HR & _ & Hcc). simpl.
  rw Hcc Hc. rw (_ : R = []); [|apply filter_no_ids]. destruct R as [|x R]; [done|]. exfalso.
  assert (Hx : x ∈ x :: R) by (by left). apply HR in Hx as (c & _ & Hin)%list_elem_of_fmap.
  apply list_elem_of_In, filter_In in Hin as [Hin Hw]. apply list_elem_of_In in Hin. apply wanted_slot in Hw. destruct Hw.
  rw fill_slots; [by rw Hmk|]. rw Hsl -Hperm. apply list_elem_of_fmap_2. by rw -Hex.
Qed.

(** ** Frames *)

Section Frame.
Context (kind ns name : string).

Lemma finish_service_frame now (w : Workload Q) route plans existing r :
  ours kind ns name (map ct_ID existing) (st_docker r) ->
  others kind ns name (st_docker (finish_service host now w route plans existing r).2) = others kind ns name (st_docker r).
Proof.
  intros Ho. pose proof (finish_service_containers now w route plans existing r) as Hf.
  destruct (finish_service _ _ _ _ _ _ _) as [err r2]. destruct Hf as (R & HR & _ & Hc). simpl.
  eapply removed_frame; [exact Ho| |exact Hc]. intros x Hx. apply HR in Hx as (c & -> & Hin)%list_elem_of_fmap.
  apply list_elem_of_In, filter_In in Hin as [Hin _]. apply list_elem_of_In in Hin. by apply list_elem_of_fmap_2.
Qed.
End Frame.

Lemma ApplyMLRun_frame now (w : Workload Q) r : replicas_ok (wl_Roles w) ->
  others KindRun (wns w) (wname w) (st_docker (ApplyMLRun host now w r).2) = others KindRun (wns w) (wname w) (st_docker r).
Proof.
  intros Hr. rw /ApplyMLRun. destruct (render_run host w) as [plans|] eqn:Hren; [|done].
  destruct (render_run_plans host w plans Hr Hren) as [HF _]. apply rendered_mine in HF.
  pose proof (prepare_frame host KindRun (wns w) (wname w) plans r) as Hp. pose proof (prepare_containers host KindRun (wns w) (wname w) plans r) as Hpc.
  destruct (prepare host KindRun _ _ plans r) as [[[existing changes]|e] r1]; [|exact (proj1 Hp)].
  destruct Hp as [Hf Ho]. specialize (Ho _ _ eq_refl). destruct Hpc as (d & _ & _ & HFd & _).
  destruct (makes changes) as [|q qs] eqn:Em; [exact Hf|]. rw -Em.
  destruct (createPlans_frame host KindRun (wns w) (wname w) now KindRun (wns w) (wname w) (makes changes) r1 _
    (makes_mine _ _ _ _ _ _ HF HFd) Ho) as [Hc _].
  destruct (createPlans _ _ _ _ _ _ _) as [[[e|] created] r2]; simpl in *; by rw Hc.
Qed.

Lemma ApplyMLService_frame now (w : Workload Q) route r : replicas_ok (wl_Roles w) ->
  others KindService (wns w) (wname w) (st_docker (ApplyMLService host now w route r).2) =
  others KindService (wns w) (wname w) (st_docker r).
Proof.
  intros Hr. rw /ApplyMLService. destruct (render_service host w) as [plans|] eqn:Hren; [|done].
  destruct (render_service_plans host w plans Hr Hren) as [HF _]. apply rendered_mine in HF.
  pose proof (prepare_frame host KindService (wns w) (wname w) plans r) as Hp. pose proof (prepare_containers host KindService (wns w) (wname w) plans r) as Hpc.
  destruct (prepare host KindService _ _ plans r) as [[[existing changes]|e] r1]; [|exact (proj1 Hp)].
  destruct Hp as [Hf Ho]. specialize (Ho _ _ eq_refl). destruct Hpc as (d & _ & _ & HFd & _).
  destruct (makes changes) as [|q qs] eqn:Em; [rw finish_service_frame //|]. rw -Em.
  destruct (createPlans_frame host KindService (wns w) (wname w) now KindService (wns w) (wname w) (makes changes) r1 _
    (makes_mine _ _ _ _ _ _ HF HFd) Ho) as [Hc Ho2].
  destruct (createPlans _ _ _ _ _ _ _) as [[[e|] created] r2]; simpl in *; [by rw Hc|]. rw finish_service_frame //. by rw Hc.
Qed.

Lemma CancelMLRun_frame now ns name r :
  others KindRun ns name (st_docker (CancelMLRun now ns name r).2) = others KindRun ns name (st_docker r).
Proof.
  rw /CancelMLRun. simpl. destruct (listContainers KindRun ns name (st_docker r)) as [conts|] eqn:Hl; [|done].
  pose proof (stopped_frame KindRun ns name conts _ _ (listed_ours _ _ _ _ _ Hl) (stop_all_containers conts (st_docker r))) as Hs.
  by destruct (stop_all conts (st_docker r)) as [[e|] d].
Qed.

(** Removing the listed containers of a workload. *)
Lemma delete_loop kind ns name conts r :
  listContainers kind ns name (st_docker r) = inl conts ->
  match remove_all conts (st_docker r) with
  | (err, d) => others kind ns name d = others kind ns name (st_docker r) /\ (err = None -> own kind ns name d = [])
  end.
Proof.
  intros Hl. destruct (remove_all_frame kind ns name conts _ (st_docker r) (listed_ours _ _ _ _ _ Hl) ltac:(done)) as [Hf _].
  pose proof (remove_all_containers conts (st_docker r)) as Hr. destruct (remove_all conts (st_docker r)) as [[e|] d]; [done|].
  split; [done|]. intros _. destruct (own kind ns name d) as [|c l] eqn:Eo; [done|]. exfalso.
  assert (Hc : c ∈ own kind ns name d) by (rw Eo; by left). apply elem_own in Hc as [Hc Hm]. rw Hr in Hc.
  apply list_elem_of_filter in Hc as [Hn Hc]. apply Hn, list_elem_of_fmap_2. apply listed_own in Hl. rw Hl. by apply elem_own.
Qed.

Lemma DeleteMLRun_spec now ns name r :
  match DeleteMLRun host now ns name r with
  | (err, r') => others KindRun ns name (st_docker r') = others KindRun ns name (st_docker r) /\
      (err = None -> own KindRun ns name (st_docker r') = [] /\ isCancelled r' ns name = false)
  end.
Proof.
  rw /DeleteMLRun. destruct (listContainers KindRun ns name (st_docker r)) as [conts|] eqn:Hl; [|done].
  pose proof (delete_loop _ _ _ _ _ Hl) as Hd. destruct (remove_all conts (st_docker r)) as [[e|] d]; [by destruct Hd|].
  destruct Hd as [Hf Ho]. specialize (Ho eq_refl). pose proof (removeProjections_docker host KindRun ns name (with_docker r d)) as Hp.
  destruct (removeConfigMapProjections host KindRun ns name (with_docker r d)) as [[e|] r1]; simpl in Hp; [by rw Hp|].
  destruct (0 <? length conts)%nat; simpl; rw Hp; (split; [done|]); intros _; (split; [done|]);
    rw /isCancelled /=; apply bool_decide_eq_false; set_solver.
Qed.

Lemma DeleteMLService_spec now ns name r :
  match DeleteMLService host now ns name r with
  | (err, r') => others KindService ns name (st_docker r') = others KindService ns name (st_docker r) /\
      (err = None -> own KindService ns name (st_docker r') = [])
  end.
Proof.
  rw /DeleteMLService. destruct (listContainers KindService ns name (st_docker r)) as [conts|] eqn:Hl; [|done].
  pose proof (delete_loop _ _ _ _ _ Hl) as Hd. destruct (remove_all conts (st_docker r)) as [[e|] d]; [by destruct Hd|].
  destruct Hd as [Hf Ho]. specialize (Ho eq_refl).
  destruct (deleteServiceRoute ns name (st_gateway (with_docker r d))) as [[e|] g]; [done|].
  pose proof (removeProjections_docker host KindService ns name (with_gateway (with_docker r d) g)) as Hp.
  destruct (removeConfigMapProjections host KindService ns name _) as [[e|] r1]; simpl in Hp; [by rw Hp|].
  by destruct (0 <? length conts)%nat; simpl; rw Hp.
Qed.
End Handlers.
