(* ===== verification/DockerExclusive.v ===== *)
(** * Standalone runtime: one workload per GPU

    Concurrent Applies as interleaved steps: the reservation under the
    allocator's lock, the creations that follow while it is held, creations
    without pinned cards, and containers that exit or disappear at any moment.
    The invariant is that no two live containers carry the same card. *)

From Stdlib Require Import ssreflect ZArith Lia Ascii String.
From stdpp Require Import base gmap list strings relations.
From S2P Require Import Prelude ApiTypes Names Strconv Listing DockerPaths DockerEngine DockerGPU DockerFacts DockerRender DockerGateway DockerRuntime.

Open Scope Z_scope.

(** The cards a plan is pinned to. *)
Definition plan_devices (p : ContainerPlan) : list Z := parseDeviceList (map_get "" (cp_Labels p) LabelGPUDevices).

Definition unpinned (p : ContainerPlan) : Prop := cp_Labels p !! LabelGPUDevices = None.

Lemma unpinned_devices p : unpinned p -> plan_devices p = [].
Proof. rw /unpinned /plan_devices /map_get => ->. by vm_compute. Qed.

Section Exclusive.
Context {D : Type} `{DockerLaws D} (host : Host).
Implicit Types (d : D) (c : Container) (p : ContainerPlan).

(** The daemon, and the plans the lock holder has still to create. *)
Record gpu_state := { gs_docker : D; gs_lock : option (list ContainerPlan) }.

(** A live managed container. *)
Definition holds c : Prop := managed c = true /\ gpuAlive (ct_State c) = true.

(** Containers exit or are removed; none comes back to life. *)
Definition fades d d' : Prop :=
  forall c', c' ∈ containers d' -> holds c' -> exists c, c ∈ containers d /\ holds c /\ same_config c c'.

Definition create (k : nat) p d := createAndStart (ho_net host) (ho_shortHash host) (ho_suffixes host) k p d.

Inductive gpu_step : gpu_state -> gpu_state -> Prop :=
| step_reserve d plans pinned :
    Forall unpinned plans -> assignGPUsLocked (ho_gpus host) plans d = Some (inl pinned) ->
    gpu_step {| gs_docker := d; gs_lock := None |} {| gs_docker := d; gs_lock := Some pinned |}
| step_create d p rest k p' d' :
    create k p d = (None, p', d') ->
    gpu_step {| gs_docker := d; gs_lock := Some (p :: rest) |} {| gs_docker := d'; gs_lock := Some rest |}
| step_create_fails d p rest k e p' d' :
    create k p d = (Some e, p', d') ->
    gpu_step {| gs_docker := d; gs_lock := Some (p :: rest) |} {| gs_docker := d'; gs_lock := None |}
| step_release d : gpu_step {| gs_docker := d; gs_lock := Some [] |} {| gs_docker := d; gs_lock := None |}
| step_unpinned d lock p k err p' d' :
    unpinned p -> create k p d = (err, p', d') ->
    gpu_step {| gs_docker := d; gs_lock := lock |} {| gs_docker := d'; gs_lock := lock |}
| step_fade d lock d' :
    fades d d' -> gpu_step {| gs_docker := d; gs_lock := lock |} {| gs_docker := d'; gs_lock := lock |}.

(** The plans the lock holder has reserved cards for. *)
Definition pending (s : gpu_state) : list ContainerPlan := default [] (gs_lock s).

(** No card is carried twice, by containers or by reservations. *)
Record exclusive (s : gpu_state) : Prop := {
  ex_containers c1 c2 : c1 ∈ containers (gs_docker s) -> c2 ∈ containers (gs_docker s) -> holds c1 -> holds c2 ->
    ct_ID c1 <> ct_ID c2 -> forall x, x ∈ label_devices c1 -> x ∈ label_devices c2 -> False;
  ex_reserved c p : c ∈ containers (gs_docker s) -> holds c -> p ∈ pending s ->
    forall x, x ∈ label_devices c -> x ∈ plan_devices p -> False;
  ex_pending : NoDup (concat (map plan_devices (pending s))) }.

(** ** Reserving *)

Lemma hand_out_nonneg free needs out : hand_out free needs = Some out -> Forall (fun n => 0 <= n) needs.
Proof.
  revert free out. induction needs as [|n needs IH]; intros free out; simpl; [constructor|].
  destruct (Z.ltb_spec n 0); [done|]. destruct (hand_out _ needs) as [o|] eqn:E; [|done]. intros _.
  constructor; [lia|by eapply IH].
Qed.

(** Cards as the host may hand them out. *)
Definition cards_ok : Prop := NoDup (ho_gpus host) /\ Forall (fun x => 0 <= x <= int64_max) (ho_gpus host).

Lemma pin_plan_devices p devs :
  unpinned p -> Forall (fun x => 0 <= x <= int64_max) devs -> plan_devices (pin_devices p devs) = devs.
Proof.
  intros Hp Hd. destruct devs as [|x devs]; [by apply unpinned_devices|].
  rw /plan_devices /pin_devices. cbn [with_devices cp_Labels]. rw map_get_insert. by apply device_label_roundtrip.
Qed.

(** A reservation gives out distinct cards no live container carries. *)
Lemma assign_free plans pinned d :
  cards_ok -> Forall unpinned plans -> assignGPUsLocked (ho_gpus host) plans d = Some (inl pinned) ->
  NoDup (concat (map plan_devices pinned)) /\
  forall c p, c ∈ containers d -> holds c -> p ∈ pinned -> forall x, x ∈ label_devices c -> x ∈ plan_devices p -> False.
Proof.
  intros [Hnd Hrange] Hu. rw /assignGPUsLocked. destruct (busyGPUDevices d) as [[busy untracked]|] eqn:Hb; [|done].
  set (needs := map _ plans). destruct (computeAssignment (ho_gpus host) busy untracked needs) as [[assign|]|] eqn:Ea; [|done..].
  intros [= <-].
  assert (Hnn : Forall (fun n => 0 <= n) needs).
  { rw /computeAssignment in Ea. destruct (_ <? _); [done|]. destruct (_ <? _); [done|].
    destruct (hand_out _ needs) as [o|] eqn:Eh; [|done]. by eapply hand_out_nonneg. }
  destruct (computeAssignment_spec _ busy untracked needs Hnd Hnn) as [[_ (out & Eo & [HF Hdis Hfree])]|[_ (u & Eu)]]; [|congruence].
  rw Ea in Eo. injection Eo as <-.
  assert (Hdev : map plan_devices (zip_with pin_devices plans assign) = assign).
  { assert (Hr : Forall (Forall (fun x => 0 <= x <= int64_max)) assign).
    { apply Forall_forall. intros devs Hin. apply Forall_forall. intros x Hx.
      rw Forall_forall in Hrange. apply Hrange, Hfree, list_elem_of_In, in_concat. exists devs. by rw -!list_elem_of_In. }
    clear -Hu HF Hr. subst needs. revert assign HF Hr. induction Hu as [|p plans Hp Hu IH]; intros assign HF Hr.
    - by apply Forall2_nil_inv_l in HF as ->.
    - apply Forall2_cons_inv_l in HF as (devs & assign' & _ & HF & ->). apply Forall_cons in Hr as [Hr1 Hr].
      simpl. rw pin_plan_devices // IH //. }
  split; [by rw Hdev|]. intros c p Hc [Hm Hal] Hp x Hxc Hxp.
  assert (Hx : x ∈ concat assign).
  { rw -Hdev. apply list_elem_of_In, in_concat. exists (plan_devices p).
    rw -!list_elem_of_In. split; [by apply list_elem_of_fmap_2|done]. }
  apply Hfree in Hx as [_ Hnb]. apply Hnb. by eapply (busyGPUDevices_complete d busy untracked c).
Qed.

(** ** The invariant *)

(** A creation adds at most one container, with the cards of its plan. *)
Lemma create_adds k p d err p' d' :
  create k p d = (err, p', d') ->
  containers d' = containers d \/
  exists c, containers d' = containers d ++ [c] /\ label_devices c = plan_devices p.
Proof.
  intros E. pose proof (createAndStart_containers (ho_net host) (ho_shortHash host) (ho_suffixes host) k p d) as Hc.
  rw /create in E. rw E in Hc. destruct Hc as [[_ ?]|(c & Hc & _ & (Hl & _) & _)]; [by left|right].
  exists c. split; [done|]. rw /label_devices Hl. done.
Qed.

(** Adding a container that carries free cards keeps the containers apart. *)
Lemma add_container d d' c devs :
  containers d' = containers d ++ [c] -> label_devices c = devs ->
  (forall c1 c2, c1 ∈ containers d -> c2 ∈ containers d -> holds c1 -> holds c2 -> ct_ID c1 <> ct_ID c2 ->
     forall x, x ∈ label_devices c1 -> x ∈ label_devices c2 -> False) ->
  (forall c1, c1 ∈ containers d -> holds c1 -> forall x, x ∈ label_devices c1 -> x ∈ devs -> False) ->
  forall c1 c2, c1 ∈ containers d' -> c2 ∈ containers d' -> holds c1 -> holds c2 -> ct_ID c1 <> ct_ID c2 ->
    forall x, x ∈ label_devices c1 -> x ∈ label_devices c2 -> False.
Proof.
  intros E El Hex Hfree c1 c2 Hc1 Hc2 H1' H2' Hid x Hx1 Hx2. rw E in Hc1, Hc2.
  apply elem_of_app in Hc1 as [Hc1| ->%list_elem_of_singleton], Hc2 as [Hc2| ->%list_elem_of_singleton].
  - by eapply (Hex c1 c2).
  - rw El in Hx2. by eapply (Hfree c1).
  - rw El in Hx1. by eapply (Hfree c2).
  - done.
Qed.

Lemma exclusive_step s s' : cards_ok -> gpu_step s s' -> exclusive s -> exclusive s'.
Proof.
  intros Hok Hs. destruct Hs as [d plans pinned Hu Ea|d p rest k p' d' Ec|d p rest k e p' d' Ec|d|d lock p k err p' d' Hu Ec|d lock d' Hf];
    intros [Hc Hr Hp]; rw /pending /= in Hc Hr Hp.
  - destruct (assign_free _ _ _ Hok Hu Ea) as [Hnd Hfree]. split; [exact Hc|exact Hfree|exact Hnd].
  - apply NoDup_app in Hp as (_ & Hdis & Hp). destruct (create_adds _ _ _ _ _ _ Ec) as [E|(c & E & El)]; split; rw /pending /=.
    + by rw E.
    + rw E. intros c0 q Hc0 Hh Hq. apply (Hr c0 q Hc0 Hh). by right.
    + done.
    + eapply add_container; [exact E|exact El|exact Hc|]. intros c1 Hc1 Hh. apply (Hr c1 p Hc1 Hh). by left.
    + rw E. intros c0 q [Hc0| ->%list_elem_of_singleton]%elem_of_app Hh Hq; [apply (Hr c0 q Hc0 Hh); by right|].
      intros x Hx1 Hx2. rw El in Hx1. apply (Hdis x Hx1). apply list_elem_of_In, in_concat. exists (plan_devices q).
      rw -!list_elem_of_In. split; [by apply list_elem_of_fmap_2|done].
    + done.
  - destruct (create_adds _ _ _ _ _ _ Ec) as [E|(c & E & El)]; split; rw /pending /=; try (by constructor); try (by intros ? ? ? ? ?%elem_of_nil).
    + by rw E.
    + eapply add_container; [exact E|exact El|exact Hc|]. intros c1 Hc1 Hh. apply (Hr c1 p Hc1 Hh). by left.
  - by split.
  - destruct (create_adds _ _ _ _ _ _ Ec) as [E|(c & E & El)]; [|rw (unpinned_devices _ Hu) in El]; split; rw /pending /=; try done.
    + by rw E.
    + by rw E.
    + eapply add_container; [exact E|exact El|exact Hc|]. by intros c1 _ _ x _ ?%elem_of_nil.
    + rw E. intros c0 q [Hc0| ->%list_elem_of_singleton]%elem_of_app Hh Hq; [by apply (Hr c0 q Hc0 Hh)|].
      intros x Hx. rw El in Hx. by apply elem_of_nil in Hx.
  - split; rw /pending /=; [| |done].
    + intros c1 c2 Hc1 Hc2 Hh1 Hh2 Hid x Hx1 Hx2. destruct (Hf c1 Hc1 Hh1) as (b1 & Hb1 & Hbh1 & (Hi1 & _ & Hl1 & _)).
      destruct (Hf c2 Hc2 Hh2) as (b2 & Hb2 & Hbh2 & (Hi2 & _ & Hl2 & _)).
      apply (Hc b1 b2 Hb1 Hb2 Hbh1 Hbh2) with x; [congruence|by rw /label_devices -Hl1|by rw /label_devices -Hl2].
    + intros c p Hc' Hh Hq x Hx1 Hx2. destruct (Hf c Hc' Hh) as (b & Hb & Hbh & (_ & _ & Hl & _)).
      apply (Hr b p Hb Hbh Hq x); [by rw /label_devices -Hl|done].
Qed.

(** ** The code takes these steps *)

Lemma create_all_locked plans n d err plans' n' d' :
  create_all host plans n d = (err, plans', n', d') ->
  rtc gpu_step {| gs_docker := d; gs_lock := Some plans |} {| gs_docker := d'; gs_lock := None |}.
Proof.
  revert n d err plans' n' d'. induction plans as [|p plans IH]; intros n d err plans' n' d'; cbn [create_all].
  { intros [= <- <- <- <-]. apply rtc_once, step_release. }
  destruct (createAndStart _ _ _ n p d) as [[[e|] p'] d1] eqn:Ec.
  - intros [= <- <- <- <-]. apply rtc_once. by eapply step_create_fails.
  - destruct (create_all host plans (n + 5) d1) as [[[err1 plans1] n1] d2] eqn:E1. intros [= <- <- <- <-].
    eapply rtc_l; [by eapply step_create|by eapply IH].
Qed.

Lemma create_all_unpinned plans lock n d err plans' n' d' :
  Forall unpinned plans -> create_all host plans n d = (err, plans', n', d') ->
  rtc gpu_step {| gs_docker := d; gs_lock := lock |} {| gs_docker := d'; gs_lock := lock |}.
Proof.
  intros Hu. revert n d err plans' n' d'. induction Hu as [|p plans Hp Hu IH]; intros n d err plans' n' d'; cbn [create_all].
  { by intros [= <- <- <- <-]. }
  destruct (createAndStart _ _ _ n p d) as [[[e|] p'] d1] eqn:Ec.
  - intros [= <- <- <- <-]. apply rtc_once. by eapply step_unpinned.
  - destruct (create_all host plans (n + 5) d1) as [[[err1 plans1] n1] d2] eqn:E1. intros [= <- <- <- <-].
    eapply rtc_l; [by eapply step_unpinned|by eapply IH].
Qed.
End Exclusive.
Arguments gpu_state : clear implicits.
