(* ===== verification/DockerSample.v ===== *)
(** * Standalone runtime: a small daemon

    A daemon that keeps its containers in a list of slots and never fails
    except where Docker must: the instance the witnesses run on.  A container's
    id is its position in the list, so ids are never used twice. *)

From Stdlib Require Import ssreflect ZArith Lia Ascii String.
From stdpp Require Import base gmap list strings.
From S2P Require Import Prelude ApiTypes Names Strconv DockerPaths DockerEngine.

(** The id of a position: that many letters. *)
Fixpoint id_of (n : nat) : string := match n with O => "" | S n => String "x" (id_of n) end.

Lemma length_id_of n : String.length (id_of n) = n.
Proof. induction n as [|n IH]; simpl; [done|by f_equal]. Qed.

Lemma id_of_inj m n : id_of m = id_of n -> m = n.
Proof. intros E. by rw -(length_id_of m) -(length_id_of n) E. Qed.

(** Containers by position; a removed one leaves a hole. *)
Record daemon := { dn_slots : list (option Container) }.

(** A request never has both a count and devices. *)
Definition fix_request (dr : DeviceRequest) : DeviceRequest :=
  if (dr_Count dr =? 0)%Z then dr
  else {| dr_Driver := dr_Driver dr; dr_Count := dr_Count dr; dr_DeviceIDs := []; dr_Capabilities := dr_Capabilities dr |}.

Definition show (i : nat) (c : Container) : Container :=
  {| ct_ID := id_of i; ct_Name := ct_Name c; ct_Image := ct_Image c; ct_Labels := ct_Labels c; ct_State := ct_State c;
     ct_ExitCode := ct_ExitCode c; ct_OOMKilled := ct_OOMKilled c; ct_StartedAt := ct_StartedAt c;
     ct_FinishedAt := ct_FinishedAt c; ct_Health := ct_Health c; ct_NanoCPUs := ct_NanoCPUs c; ct_Memory := ct_Memory c;
     ct_DeviceRequests := map fix_request (ct_DeviceRequests c); ct_ExposedPorts := ct_ExposedPorts c;
     ct_Aliases := ct_Aliases c |}.

(** The containers from position [i] on. *)
Fixpoint visible (i : nat) (l : list (option Container)) : list Container :=
  match l with
  | [] => []
  | Some c :: rest => show i c :: visible (S i) rest
  | None :: rest => visible (S i) rest
  end.

Definition all_containers (d : daemon) : list Container := visible 0 (dn_slots d).

(** Docker refuses a request with both a count and devices. *)
Definition both (dr : DeviceRequest) : bool := negb (dr_Count dr =? 0)%Z && negb (bool_decide (dr_DeviceIDs dr = [])).

Definition new_container (req : CreateRequest) (name : string) : Container :=
  {| ct_ID := ""; ct_Name := name; ct_Image := cr_Image req; ct_Labels := cr_Labels req; ct_State := "created";
     ct_ExitCode := 0; ct_OOMKilled := false; ct_StartedAt := None; ct_FinishedAt := None; ct_Health := "";
     ct_NanoCPUs := cr_NanoCPUs req; ct_Memory := cr_Memory req; ct_DeviceRequests := cr_DeviceRequests req;
     ct_ExposedPorts := []; ct_Aliases := cr_Aliases req |}.

Definition with_state (state : string) (c : Container) : Container :=
  {| ct_ID := ct_ID c; ct_Name := ct_Name c; ct_Image := ct_Image c; ct_Labels := ct_Labels c; ct_State := state;
     ct_ExitCode := ct_ExitCode c; ct_OOMKilled := ct_OOMKilled c; ct_StartedAt := ct_StartedAt c;
     ct_FinishedAt := ct_FinishedAt c; ct_Health := ct_Health c; ct_NanoCPUs := ct_NanoCPUs c; ct_Memory := ct_Memory c;
     ct_DeviceRequests := ct_DeviceRequests c; ct_ExposedPorts := ct_ExposedPorts c; ct_Aliases := ct_Aliases c |}.

(** Changing the containers with an id. *)
Fixpoint update (f : Container -> option Container) (id : string) (i : nat) (l : list (option Container)) : list (option Container) :=
  match l with
  | [] => []
  | Some c :: rest => (if String.eqb (id_of i) id then f c else Some c) :: update f id (S i) rest
  | None :: rest => None :: update f id (S i) rest
  end.

Definition daemon_create (d : daemon) (req : CreateRequest) (name : string) : (string + docker_error) * daemon :=
  if existsb (fun c => String.eqb (ct_Name c) name) (all_containers d)
  then (inr (DockerConflict ("the container name " ++ name ++ " is already in use")), d)
  else if existsb both (cr_DeviceRequests req) then (inr (DockerFailed "cannot set both Count and DeviceIDs"), d)
  else (inl (id_of (length (dn_slots d))), {| dn_slots := dn_slots d ++ [Some (new_container req name)] |}).

#[export] Instance daemon_Docker : Docker daemon := {
  d_ContainerList d f := inl (List.filter (has_labels f) (all_containers d));
  d_ContainerInspect d id :=
    match List.find (fun c => String.eqb (ct_ID c) id) (all_containers d) with
    | Some c => inl c
    | None => inr (DockerNotFound ("no such container: " ++ id))
    end;
  d_ContainerCreate := daemon_create;
  d_ContainerStart d id := (None, {| dn_slots := update (fun c => Some (with_state "running" c)) id 0 (dn_slots d) |});
  d_ContainerRemove d id := (None, {| dn_slots := update (fun _ => None) id 0 (dn_slots d) |});
  d_ContainerStop d id := (None, {| dn_slots := update (fun c => Some (with_state "exited" c)) id 0 (dn_slots d) |});
  d_VolumeCreate d _ _ := (None, d);
  d_ImageInspect _ _ := None;
  d_ImagePull d _ _ := (inl {| ps_Messages := []; ps_End := None |}, d) }.

Lemma visible_app i l1 l2 : visible i (l1 ++ l2) = visible i l1 ++ visible (i + length l1) l2.
Proof.
  revert i. induction l1 as [|[c|] l1 IH]; intros i; simpl; rw ?Nat.add_0_r //; rw IH -Nat.add_succ_comm //.
Qed.

Lemma visible_ids i l c : c ∈ visible i l -> exists j, (i <= j < i + length l)%nat /\ ct_ID c = id_of j.
Proof.
  revert i. induction l as [|[x|] l IH]; intros i; simpl; [by intros ?%elem_of_nil| |].
  - intros [->|Hc]%elem_of_cons; [exists i; split; [lia|done]|]. destruct (IH _ Hc) as (j & ? & ?). exists j. split; [lia|done].
  - intros Hc. destruct (IH _ Hc) as (j & ? & ?). exists j. split; [lia|done].
Qed.

Lemma visible_NoDup i l : NoDup (map ct_ID (visible i l)).
Proof.
  revert i. induction l as [|[x|] l IH]; intros i; simpl; [constructor| |apply IH]. constructor; [|apply IH].
  intros (c & E & Hc)%list_elem_of_fmap. apply visible_ids in Hc as (j & Hj & Ej). rw Ej in E. simpl in E. apply id_of_inj in E. lia.
Qed.

Lemma visible_remove id i l : visible i (update (fun _ => None) id i l) = filter (fun c => ct_ID c <> id) (visible i l).
Proof.
  revert i. induction l as [|[x|] l IH]; intros i; simpl; [done| |apply IH].
  destruct (String.eqb_spec (id_of i) id) as [E|E].
  - rw filter_cons_False; [simpl; naive_solver|]. apply IH.
  - rw filter_cons_True; [done|]. simpl. f_equal. apply IH.
Qed.

Lemma visible_state state id i l :
  Forall2 (fun c c' => same_config c c' /\ (ct_ID c <> id -> c' = c)) (visible i l)
    (visible i (update (fun c => Some (with_state state c)) id i l)).
Proof.
  revert i. induction l as [|[x|] l IH]; intros i; simpl; [done| |apply IH].
  destruct (String.eqb_spec (id_of i) id) as [E|E]; simpl; (constructor; [|apply IH]); by split.
Qed.

Lemma fix_requests drs : existsb both drs = false -> map fix_request drs = drs.
Proof.
  induction drs as [|dr drs IH]; simpl; [done|]. intros [Hb Hd]%orb_false_iff. rw IH //. f_equal.
  rw /fix_request. rw /both in Hb. destruct (dr_Count dr =? 0)%Z; [done|]. simpl in Hb.
  apply negb_false_iff, bool_decide_eq_true in Hb. destruct dr; simpl in *. by rw Hb.
Qed.

#[export] Instance daemon_DockerLaws : DockerLaws daemon.
Proof.
  refine {| containers := all_containers |}.
  - intros d f cs [= <-]. done.
  - intros d id c. simpl. destruct (List.find _ _) as [x|] eqn:E; [|done]. intros [= <-].
    apply find_some in E as [Hin Hid]. apply String.eqb_eq in Hid. by rw list_elem_of_In.
  - intros d req name. simpl. rw /daemon_create. destruct (existsb _ (all_containers d)); [done|].
    destruct (existsb both _) eqn:Hb; [done|]. eexists. split; [by rw /all_containers visible_app|].
    simpl. split_and!; [done..|by apply fix_requests|]. intros c' Hc'. apply visible_ids in Hc' as (j & Hj & ->).
    intros E%id_of_inj. lia.
  - intros d id. apply visible_state.
  - intros d id. apply visible_state.
  - intros d id. apply visible_remove.
  - intros d. apply visible_NoDup.
  - intros d c dr Hc Hdr Hcount. rw /all_containers in Hc. revert Hc. generalize 0%nat.
    induction (dn_slots d) as [|[x|] l IH]; intros i; simpl; [by intros ?%elem_of_nil| |apply IH].
    intros [->|Hc]%elem_of_cons; [|by apply (IH (S i))]. simpl in Hdr.
    apply list_elem_of_fmap in Hdr as (dr0 & -> & _). move: Hcount. rw /fix_request.
    destruct (Z.eqb_spec (dr_Count dr0) 0); [done|]. by simpl.
  - done.
  - done.
Defined.
