(* ===== verification/DockerProperties.v ===== *)
(** * Standalone runtime: properties

    What the standalone runtime promises to the compute service: workloads
    stay inside the directories they were given, keep their GPUs to
    themselves, converge to their specification without touching each other,
    and are reported as they are. *)

From Stdlib Require Import ssreflect ZArith Lia Ascii String Permutation.
From stdpp Require Import base gmap list strings relations.
From S2P Require Import Prelude Placement ApiTypes Store StatusMap Names Strconv Listing DockerPaths DockerEngine DockerGPU DockerFacts DockerRender DockerGateway DockerRuntime DockerInventory DockerWorkloads DockerApply DockerHandlers DockerExclusive DockerSample.

Open Scope Z_scope.

(** ** Sample host *)

Definition no_errors : NameChecks :=
  {| IsDNS1123Subdomain := fun _ => []; IsConfigMapKey := fun _ => []; IsEnvVarName := fun _ => [] |}.

(** A host with two cards. *)
Definition sample_host : Host :=
  {| ho_net := "axisml"; ho_shortHash := fun _ => list_ascii_of_string "0123abcd";
     ho_specHash := fun pi => (pi_Image pi ++ formatLabelInt (pi_GPUCount pi))%string; ho_projectionHash := fun _ => "";
     ho_suffixes := fun n => id_of n; ho_resolveAuth := None; ho_checks := no_errors;
     ho_ParseNormalizedNamed := fun _ => inl {| ni_Digested := false; ni_Tag := Some "1" |};
     ho_cfg := {| cfg_ConfigMapsDir := ""; cfg_ConfigMapsVolume := ""; cfg_HostPathVolumes := ∅ |};
     ho_gpus := [0; 1] |}.

#[export] Instance unit_Projections : Projections unit := {
  pr_reconcile f _ _ := (None, f); pr_remove f _ := (None, f) }.

(** Files by name. *)
#[export] Instance map_GatewayDir : GatewayDir (gmap string (list gatewayResource)) := {
  gw_read g file := match g !! file with Some l => inl (map document_of l) | None => inr NotExist end;
  gw_write g file resources := (None, <[file := resources]> g);
  gw_remove g file := (None, delete file g) }.

#[export] Instance map_GatewayDirLaws : GatewayDirLaws (gmap string (list gatewayResource)).
Proof.
  split.
  - intros g file resources g' [= <-]. simpl. split; [by rw lookup_insert_eq|].
    intros file' Hne. by rw lookup_insert_ne.
  - intros g file res g' [= <- <-] _. simpl. split; [by rw lookup_delete_eq|]. intros file' Hne. by rw lookup_delete_ne.
Defined.

#[export] Instance Z_QuantityRead : QuantityRead Z := {
  MilliValue q := q / 1000000; Value q := q / 1000000000 }.

#[export] Instance Z_QuantityNew : QuantityNew Z := {
  NewQuantity n := n * 1000000000; NewMilliQuantity n := n * 1000000 }.
#[export] Instance Z_QuantityNewLaws : QuantityNewLaws Z.
Proof. done. Defined.

Definition sample_template (gpus : Z) : Template Z :=
  {| te_Image := "busybox:1"; te_ImagePullPolicy := ""; te_Command := []; te_Args := []; te_Env := []; te_EnvFrom := [];
     te_WorkingDir := ""; te_Ports := []; te_Limits := {[ "nvidia.com/gpu" := gpus * 1000000000 ]}; te_Volumes := [];
     te_VolumeMounts := [] |}.

Definition sample_workload (engine name : string) (replicas gpus : Z) : Workload Z :=
  {| wl_Meta := {| om_Name := name; om_Namespace := "team"; om_Labels := ∅; om_Annotations := ∅ |};
     wl_Backend := {| be_Name := "native"; be_Engine := engine; be_Config := None |};
     wl_ConfigMaps := []; wl_Roles := [{| wr_Name := "main"; wr_Replicas := replicas; wr_Template := sample_template gpus |}] |}.

Abbreviation sample_runtime := (Runtime daemon unit (gmap string (list gatewayResource))).

Definition empty_runtime : sample_runtime :=
  {| st_docker := {| dn_slots := [] |}; st_files := (); st_gateway := ∅; st_events := []; st_cancelled := ∅; st_draws := 0 |}.

(** ** Paths *)

(** A relative sub-path is accepted exactly when walking it from any
    directory ends inside that directory, and then the accepted path leads to
    the same place as the requested one; absolute paths are refused. *)
Theorem subPath_stays_inside vm :
  vm_SubPathExpr vm = "" -> vm_SubPath vm <> "" ->
  let sub := list_ascii_of_string (vm_SubPath vm) in
  ((exists p, validateSubPath vm = inl p) <-> IsAbs sub = false /\ forall dir, dir `suffix_of` walk dir sub) /\
  (forall p dir, validateSubPath vm = inl p -> walk dir (list_ascii_of_string p) = walk dir sub /\ dir `suffix_of` walk dir sub).
Proof.
  intros He Hne sub.
  assert (Hacc : forall p dir, validateSubPath vm = inl p ->
    walk dir (list_ascii_of_string p) = walk dir sub /\ dir `suffix_of` walk dir sub).
  { intros p dir Hv. destruct (validateSubPath_spec vm p Hv Hne) as (Ha & Hup & ->).
    destruct (walk_Clean sub dir Ha Hup) as [E1 E2]. rw -/sub E1 E2. split; [done|by eexists]. }
  split; [|done]. split.
  - intros [p Hp]. destruct (validateSubPath_spec vm p Hp Hne) as (Ha & _). split; [done|]. intros dir. by eapply Hacc.
  - intros [Ha Hin]. rw /validateSubPath -/sub He /= (proj2 (String.eqb_neq _ _) Hne) Ha.
    destruct (escapes (Clean sub)) eqn:Hesc; [|by eexists]. exfalso. apply escapes_kept in Hesc; [|done].
    specialize (Hin [[slash]]). destruct Hin as [l Hl].
    assert (Hout : [slash] ∉ walk [[slash]] sub).
    { apply (clean_walk_leaves [slash] (SplitSlash sub) []); [|apply not_elem_of_nil..|done].
      intros Hs%SplitSlash_no_slash. apply Hs. by left. }
    apply Hout. rw Hl. apply elem_of_app. right. by left.
Qed.

Definition sample_mount : VolumeMount :=
  {| vm_Name := "data"; vm_MountPath := "/data"; vm_SubPath := "runs/../sets//a"; vm_SubPathExpr := ""; vm_ReadOnly := false |}.

Lemma subPath_stays_inside_witness :
  validateSubPath sample_mount = inl "sets/a" /\
  walk [list_ascii_of_string "vol"] (list_ascii_of_string "sets/a") =
  walk [list_ascii_of_string "vol"] (list_ascii_of_string (vm_SubPath sample_mount)).
Proof.
  split; [by vm_compute|]. destruct (subPath_stays_inside sample_mount eq_refl ltac:(done)) as [_ H].
  apply (H "sets/a"). by vm_compute.
Defined.

(** ** GPUs *)

(** C3: However reservations, creations, failures and exits of containers
    interleave, two distinct live containers never carry the same GPU, and no
    GPU reserved under the lock is carried by a live container. *)
Theorem gpu_exclusive {D} `{DockerLaws D} (host : Host) (s s' : gpu_state D) :
  cards_ok host -> exclusive s -> rtc (gpu_step host) s s' ->
  (forall c1 c2 x, c1 ∈ containers (gs_docker s') -> c2 ∈ containers (gs_docker s') -> holds c1 -> holds c2 ->
     ct_ID c1 <> ct_ID c2 -> x ∈ label_devices c1 -> x ∈ label_devices c2 -> False) /\
  (forall c p x, c ∈ containers (gs_docker s') -> holds c -> p ∈ pending s' ->
     x ∈ label_devices c -> x ∈ plan_devices p -> False).
Proof.
  intros Hok Hex Hsteps. assert (Hinv : exclusive s').
  { induction Hsteps as [s|s s1 s2 Hs _ IH]; [done|]. apply IH. by eapply exclusive_step. }
  destruct Hinv as [Hc Hr _]. split.
  - intros c1 c2 x M1 M2 L1 L2 Hid. by apply (Hc c1 c2 M1 M2 L1 L2 Hid).
  - intros c p x M L Hp. by apply (Hr c p M L Hp).
Qed.

(** Two plans of one card each, on the empty sample host. *)
Definition sample_plan (name : string) : ContainerPlan :=
  {| cp_Name := name; cp_NamePrefix := ""; cp_Replica := 0; cp_StableOrdinal := false; cp_Image := "busybox:1";
     cp_ImagePullPolicy := "IfNotPresent"; cp_Command := []; cp_Args := []; cp_Env := []; cp_WorkingDir := "";
     cp_Labels := {[ LabelManaged := "true" ]}; cp_Ports := []; cp_Mounts := [];
     cp_Resources := {| rp_NanoCPUs := 0; rp_MemoryBytes := 0; rp_GPUCount := 1; rp_GPUDeviceIDs := [] |};
     cp_RestartPolicy := "no" |}.

Definition pinned_plan (name : string) (card : Z) : ContainerPlan := pin_devices (sample_plan name) [card].

Lemma gpu_exclusive_witness :
  let d2 := (create sample_host 5 (pinned_plan "b" 1) (create sample_host 0 (pinned_plan "a" 0) {| dn_slots := [] |}).2).2 in
  length (containers d2) = 2%nat /\
  forall c1 c2 x, c1 ∈ containers d2 -> c2 ∈ containers d2 -> holds c1 -> holds c2 -> ct_ID c1 <> ct_ID c2 ->
    x ∈ label_devices c1 -> x ∈ label_devices c2 -> False.
Proof.
  intros d2. split; [by vm_compute|].
  apply (gpu_exclusive sample_host {| gs_docker := {| dn_slots := [] |}; gs_lock := None |} {| gs_docker := d2; gs_lock := Some [] |}).
  - split; [by apply NoDup_cons; split; [set_solver|apply NoDup_singleton]|repeat constructor; vm_compute; discriminate].
  - split; [by intros c1 c2 H1%elem_of_nil|by intros c p H1%elem_of_nil|constructor].
  - eapply rtc_l; [apply (step_reserve _ _ [sample_plan "a"; sample_plan "b"] [pinned_plan "a" 0; pinned_plan "b" 1])|].
    { by repeat constructor. }
    { by vm_compute. }
    eapply rtc_l; [eapply (step_create _ _ _ _ 0%nat); vm_compute; reflexivity|].
    eapply rtc_l; [eapply (step_create _ _ _ _ 5%nat); vm_compute; reflexivity|]. apply rtc_refl.
Defined.

(** Creating the containers of a workload is a run of the lock's steps:
    reserve, create one by one, release, or, without a reservation, plain
    creations; when the cards are not available, nothing is created. *)
Theorem createPlans_takes_steps {D F G} `{DockerLaws D} (host : Host) now kind ns name toCreate (r : Runtime D F G) err created r' :
  Forall unpinned toCreate ->
  createPlans host now kind ns name toCreate r = (err, created, r') ->
  rtc (gpu_step host) {| gs_docker := st_docker r; gs_lock := None |} {| gs_docker := st_docker r'; gs_lock := None |} /\
  (forall e, reserve host toCreate (ensure_images host toCreate (st_docker r)).2 = inr e ->
     containers (st_docker r') = containers (st_docker r)).
Proof.
  intros Hu Hc. pose proof (ensure_images_containers host toCreate (st_docker r)) as Hi. rw /createPlans in Hc.
  assert (Hfade : forall d, containers d = containers (st_docker r) ->
    gpu_step host {| gs_docker := st_docker r; gs_lock := None |} {| gs_docker := d; gs_lock := None |}).
  { intros d E. apply step_fade. intros c Hin Hh. rw E in Hin. exists c. split_and!; [done|done|by rw /same_config]. }
  destruct (ensure_images host toCreate (st_docker r)) as [[e|] d]; simpl in Hi |- *.
  { injection Hc as <- <- <-. split; [by apply rtc_once, Hfade|done]. }
  destruct (reserve host toCreate d) as [pinned|e] eqn:Er.
  2:{ injection Hc as <- <- <-. split; [by apply rtc_once, Hfade|done]. }
  split; [|done]. destruct (create_all host pinned _ d) as [[[err1 cr] n'] d2] eqn:Ea.
  assert (Hd : st_docker r' = d2) by (by destruct err1; injection Hc as <- <- <-). rw Hd.
  eapply rtc_l; [by apply Hfade|]. rw /reserve in Er. destruct (_ && _).
  - destruct (assignGPUsLocked _ _ _) as [[p|e]|] eqn:Eg; [|done..]. injection Er as ->.
    eapply rtc_l; [by eapply step_reserve|by eapply create_all_locked].
  - injection Er as ->. by eapply create_all_unpinned.
Qed.

Lemma createPlans_takes_steps_witness :
  let res := createPlans sample_host 0 KindRun "team" "job" [sample_plan "a"; sample_plan "b"; sample_plan "c"] empty_runtime in
  res.1.1 = Some (ResourceUnavailableError "请求 3 张 GPU 超过可调度容量 2") /\
  containers (st_docker res.2) = containers (st_docker empty_runtime).
Proof.
  intros res. split; [by vm_compute|].
  destruct (createPlans_takes_steps sample_host 0 KindRun "team" "job" [sample_plan "a"; sample_plan "b"; sample_plan "c"]
    empty_runtime res.1.1 res.1.2 res.2) as [_ H]; [by repeat constructor|by vm_compute|].
  eapply H. vm_compute. reflexivity.
Defined.

(** C38: Admission by a resource snapshot of the host and the reservation at
    Apply, which scans the host again.  When the GPUs a workload asks for fit
    what the snapshot leaves free, the reservation is refused for want of GPUs
    only if the managed containers hold more cards by then than they held when
    the snapshot was taken; otherwise it succeeds, or the scan of the host
    fails with a Docker error.  It never panics. *)
Theorem admitted_gpus_are_free {Q} `{QuantityNewLaws Q} {D} `{DockerLaws D} (gpus : list Z) (reserved : gmap string Q) info (d d' : D)
    (snap : ResourceSnapshot Q) node toCreate :
  NoDup gpus -> (forall k, 0 <= rl_val reserved k) ->
  Snapshot gpus reserved info d = inl snap -> rs_Nodes snap = [node] ->
  Forall (fun p => 0 <= rp_GPUCount (cp_Resources p)) toCreate ->
  total_needs (map (fun p => rp_GPUCount (cp_Resources p)) toCreate) * 1000000000 <=
    rl_val (rn_Allocatable node) ResourceGPU - allocated (rs_Allocations snap) ->
  (exists pinned, assignGPUsLocked gpus toCreate d' = Some (inl pinned)) \/
  (exists e, busyGPUDevices d' = inr e /\ assignGPUsLocked gpus toCreate d' = Some (inr (docker_err e))) \/
  (cards_held d < cards_held d' /\
   exists why, assignGPUsLocked gpus toCreate d' = Some (inr (ResourceUnavailableError why))).
Proof.
  intros Hnd Hres Hsnap Hnode Hn Hfit. rw /assignGPUsLocked. destruct (busyGPUDevices d') as [[busy untracked]|e] eqn:Hscan.
  2: { right. left. by exists e. }
  set (needs := map _ toCreate) in Hfit |- *.
  assert (Hneeds : Forall (fun n => 0 <= n) needs) by (by apply Forall_map).
  destruct (computeAssignment_spec gpus busy untracked needs Hnd Hneeds) as [[_ (out & -> & _)]|[Hlt (u & ->)]]; [left; by eexists|].
  right. right. split; [|destruct u; by eexists]. destruct (Z.lt_ge_cases (cards_held d) (cards_held d')) as [|Hge]; [done|].
  pose proof (snapshot_leaves_free gpus reserved info d d' snap node busy untracked Hnd Hres Hsnap Hnode Hscan Hge). lia.
Qed.

(** Two cards; one is held when the snapshot is taken, so that one more is
    admitted.  It is reserved if nothing happens meanwhile, and refused if
    another container takes the second card first. *)
Definition one_held : daemon := (create sample_host 0 (pinned_plan "a" 0) {| dn_slots := [] |}).2.
Definition both_held : daemon := (create sample_host 5 (pinned_plan "c" 1) one_held).2.

Lemma admitted_gpus_are_free_witness :
  (exists pinned, assignGPUsLocked [0; 1] [sample_plan "b"] one_held = Some (inl pinned)) /\
  cards_held one_held < cards_held both_held /\
  exists why, assignGPUsLocked [0; 1] [sample_plan "b"] both_held = Some (inr (ResourceUnavailableError why)).
Proof.
  assert (Hnd : NoDup [0; 1]) by (apply NoDup_cons; split; [set_solver|apply NoDup_singleton]).
  assert (Hres : forall k, 0 <= rl_val (∅ : gmap string Z) k) by (intros k; by rw rl_val_empty).
  assert (Hall : forall d', (exists pinned, assignGPUsLocked [0; 1] [sample_plan "b"] d' = Some (inl pinned)) \/
    (exists e, busyGPUDevices d' = inr e /\ assignGPUsLocked [0; 1] [sample_plan "b"] d' = Some (inr (docker_err e))) \/
    (cards_held one_held < cards_held d' /\
     exists why, assignGPUsLocked [0; 1] [sample_plan "b"] d' = Some (inr (ResourceUnavailableError why)))).
  { intros d'. eapply (admitted_gpus_are_free [0; 1] (∅ : gmap string Z) (inl {| di_Name := ""; di_NCPU := 4; di_MemTotal := 1024 |})
      one_held d'); [exact Hnd|exact Hres|vm_compute; reflexivity|reflexivity|by repeat constructor|by vm_compute]. }
  split.
  - destruct (Hall one_held) as [H|[(e & He & _)|[Hlt _]]]; [exact H|by vm_compute in He|by apply Z.lt_irrefl in Hlt].
  - destruct (Hall both_held) as [(p & Hp)|[(e & He & _)|H]]; [by vm_compute in Hp|by vm_compute in He|exact H].
Defined.

(** ** Convergence and isolation *)

Section Workloads.
Context {D F G : Type} `{DockerLaws D} `{Projections F} `{GatewayDir G} {Q : Type} `{QuantityRead Q}.

(** C7: No handler changes a container of another workload: applying,
    cancelling and deleting a run or a service leaves every container without
    the workload's labels exactly as it was, in every outcome. *)
Theorem workload_isolation (host : Host) now (w : Workload Q) route ns name (r : Runtime D F G) :
  replicas_ok (wl_Roles w) ->
  others KindRun (wns w) (wname w) (st_docker (ApplyMLRun host now w r).2) = others KindRun (wns w) (wname w) (st_docker r) /\
  others KindService (wns w) (wname w) (st_docker (ApplyMLService host now w route r).2) =
    others KindService (wns w) (wname w) (st_docker r) /\
  others KindRun ns name (st_docker (CancelMLRun now ns name r).2) = others KindRun ns name (st_docker r) /\
  others KindRun ns name (st_docker (DeleteMLRun host now ns name r).2) = others KindRun ns name (st_docker r) /\
  others KindService ns name (st_docker (DeleteMLService host now ns name r).2) = others KindService ns name (st_docker r).
Proof.
  intros Hr. split_and!; [by apply ApplyMLRun_frame|by apply ApplyMLService_frame|apply CancelMLRun_frame|..].
  - pose proof (DeleteMLRun_spec host now ns name r) as Hd. by destruct (DeleteMLRun host now ns name r), Hd.
  - pose proof (DeleteMLService_spec host now ns name r) as Hd. by destruct (DeleteMLService host now ns name r), Hd.
Qed.

(** C21: A successful Apply of a service, whose containers had distinct slots
    before, leaves exactly one container per replica of the specification, with
    its hash, and no other container of the service; applying the same
    specification again changes no container, whether it succeeds or not.
    The replicas have distinct slots, so the next Apply starts from distinct
    slots again.  When two containers of a service share a slot, [indexBySlot]
    keeps the last and Apply leaves the other in place:
    [duplicate_slot_stays]. *)
Theorem service_converges (host : Host) now (w : Workload Q) route plans (r r' : Runtime D F G) :
  replicas_ok (wl_Roles w) -> render_service host w = inl plans ->
  NoDup (map containerSlot (own KindService (wns w) (wname w) (st_docker r))) ->
  ApplyMLService host now w route r = (None, r') ->
  map containerSlot (own KindService (wns w) (wname w) (st_docker r')) ≡ₚ map planSlot plans /\
  (forall p, p ∈ plans -> exists c, c ∈ own KindService (wns w) (wname w) (st_docker r') /\
     containerSlot c = planSlot p /\ container_hash c = ho_specHash host (planIdentity p)) /\
  (forall now', containers (st_docker (ApplyMLService host now' w route r').2) = containers (st_docker r')).
Proof.
  intros Hr Hren Hs Ha. pose proof (ApplyMLService_exact host now w route plans r r' Hr Hren Hs Ha) as Hex.
  destruct (render_service_plans host w plans Hr Hren) as [HF _]. destruct Hex as [Hcv Hperm]. split_and!; [done| |].
  - intros p Hp. destruct (cv_plans _ _ _ _ _ Hcv p Hp) as (c & Hc & Es & Eh). exists c. split_and!; [done|done|].
    rw Forall_forall in HF. by rw Eh (re_hash _ _ _ _ _ (HF p Hp)).
  - intros now'. by eapply ApplyMLService_quiet.
Qed.

(** A successful Apply of a run with distinct role names leaves a container
    with the right hash for every replica of every role and at most one
    container per replica; applying it again changes no container. *)
Theorem run_converges (host : Host) now (w : Workload Q) plans (r r' : Runtime D F G) :
  replicas_ok (wl_Roles w) -> NoDup (map wr_Name (wl_Roles w)) -> render_run host w = inl plans ->
  NoDup (map containerSlot (own KindRun (wns w) (wname w) (st_docker r))) ->
  ApplyMLRun host now w r = (None, r') ->
  NoDup (map containerSlot (own KindRun (wns w) (wname w) (st_docker r'))) /\
  (forall p, p ∈ plans -> exists c, c ∈ own KindRun (wns w) (wname w) (st_docker r') /\
     containerSlot c = planSlot p /\ container_hash c = ho_specHash host (planIdentity p)) /\
  (forall now', containers (st_docker (ApplyMLRun host now' w r').2) = containers (st_docker r')).
Proof.
  intros Hr Hn Hren Hs Ha. pose proof (ApplyMLRun_converges host now w plans r r' Hr Hn Hren Hs Ha) as Hcv.
  destruct (render_run_plans host w plans Hr Hren) as [HF _]. split_and!; [apply Hcv| |].
  - intros p Hp. destruct (cv_plans _ _ _ _ _ Hcv p Hp) as (c & Hc & Es & Eh). exists c. split_and!; [done|done|].
    rw Forall_forall in HF. by rw Eh (re_hash _ _ _ _ _ (HF p Hp)).
  - intros now'. by eapply ApplyMLRun_quiet.
Qed.
End Workloads.

(** Two workloads on the sample host: a service of two replicas beside a run. *)
Definition with_run : sample_runtime := (ApplyMLRun sample_host 1 (sample_workload "job" "train" 1 1) empty_runtime).2.

Lemma sample_roles_ok engine name n gpus : in_int32 n -> replicas_ok (wl_Roles (sample_workload engine name n gpus)).
Proof. intros Hn. by constructor. Qed.

(** A call that was checked to succeed. *)
Definition plans_of {A E} (x : list A + E) : list A := match x with inl p => p | inr _ => [] end.
Lemma succeeded {A B} (x : option A * B) : x.1 = None -> x = (None, x.2).
Proof. destruct x. simpl. by intros ->. Qed.
Lemma rendered_ok {A E} (x : list A + E) : (if x then true else false) = true -> x = inl (plans_of x).
Proof. by destruct x. Qed.

Lemma workload_isolation_witness :
  let r := (ApplyMLService sample_host 2 (sample_workload "deployment" "web" 2 0) None with_run).2 in
  length (containers (st_docker r)) = 3%nat /\
  others KindService "team" "web" (st_docker r) = others KindService "team" "web" (st_docker with_run).
Proof.
  intros r. split; [by vm_compute|].
  destruct (workload_isolation sample_host 2 (sample_workload "deployment" "web" 2 0) None "team" "web" with_run) as (_ & H & _).
  - by apply sample_roles_ok.
  - exact H.
Defined.

Definition served : sample_runtime := (ApplyMLService sample_host 2 (sample_workload "deployment" "web" 2 0) None with_run).2.

Lemma service_converges_witness :
  map containerSlot (own KindService "team" "web" (st_docker served)) ≡ₚ ["main/0"; "main/1"] /\
  containers (st_docker (ApplyMLService sample_host 9 (sample_workload "deployment" "web" 2 0) None served).2) =
  containers (st_docker served).
Proof.
  destruct (service_converges sample_host 2 (sample_workload "deployment" "web" 2 0) None
    (plans_of (render_service sample_host (sample_workload "deployment" "web" 2 0))) with_run served) as (H1 & _ & H3).
  - by apply sample_roles_ok.
  - apply rendered_ok. by vm_compute.
  - vm_compute. constructor.
  - rw /served. apply succeeded. by vm_compute.
  - split; [|apply H3]. etransitivity; [exact H1|]. by vm_compute.
Defined.

(** Two containers in slot 0 of the service; a successful Apply of two replicas
    leaves three. *)
Definition twice_served : sample_runtime :=
  match plans_of (render_service sample_host (sample_workload "deployment" "web" 2 0)) with
  | p :: _ => with_docker served (create sample_host 7 p (st_docker served)).2
  | [] => served
  end.

Example duplicate_slot_stays :
  let res := ApplyMLService sample_host 9 (sample_workload "deployment" "web" 2 0) None twice_served in
  res.1 = None /\ map containerSlot (own KindService "team" "web" (st_docker res.2)) = ["main/0"; "main/1"; "main/0"].
Proof. by vm_compute. Qed.

Lemma run_converges_witness :
  exists c, c ∈ own KindRun "team" "train" (st_docker with_run) /\ containerSlot c = "main/0" /\ container_hash c = "busybox:11".
Proof.
  destruct (run_converges sample_host 1 (sample_workload "job" "train" 1 1)
    (plans_of (render_run sample_host (sample_workload "job" "train" 1 1))) empty_runtime with_run) as (_ & H2 & _).
  - by apply sample_roles_ok.
  - simpl. apply NoDup_singleton.
  - apply rendered_ok. by vm_compute.
  - constructor.
  - rw /with_run. apply succeeded. by vm_compute.
  - assert (Hp : exists p, head (plans_of (render_run sample_host (sample_workload "job" "train" 1 1))) = Some p /\
      planSlot p = "main/0" /\ ho_specHash sample_host (planIdentity p) = "busybox:11").
    { exists (default (sample_plan "") (head (plans_of (render_run sample_host (sample_workload "job" "train" 1 1))))).
      by vm_compute. }
    destruct Hp as (p & Hp & <- & <-). apply H2. apply head_Some_elem_of in Hp. exact Hp.
Defined.

(** ** Standalone runtime: what is observed

    The status of a run as a function of its containers and its way into the
    stored phase, the round trip of a traffic policy through the gateway
    directory, and the event ring. *)

Open Scope Z_scope.

(** ** Runs *)

Definition is_running (s : instState) : bool := String.eqb (is_status s) "running".
Definition exited_ok (s : instState) : bool := String.eqb (is_status s) "exited" && (is_exitCode s =? 0).
Definition exited_bad (s : instState) : bool := String.eqb (is_status s) "exited" && negb (is_exitCode s =? 0).

Lemma count_states k states :
  let k' := foldl count_state k states in
  rc_running k' = (rc_running k + length (List.filter is_running states))%nat /\
  rc_succeeded k' = (rc_succeeded k + length (List.filter exited_ok states))%nat /\
  rc_failed k' = (rc_failed k + length (List.filter exited_bad states))%nat.
Proof.
  revert k. induction states as [|s states IH]; intros k; simpl; [lia|].
  destruct (IH (count_state k s)) as (-> & -> & ->). rw /count_state /is_running /exited_ok /exited_bad.
  destruct (String.eqb_spec (is_status s) "running") as [->|]; simpl; [lia|].
  destruct (String.eqb (is_status s) "exited"); simpl; [|lia]. destruct (is_exitCode s =? 0); simpl; lia.
Qed.

Lemma existsb_length {A} (f : A -> bool) l : (0 <? length (List.filter f l))%nat = existsb f l.
Proof. induction l as [|x l IH]; simpl; [done|]. by destruct (f x). Qed.

Lemma forallb_length {A} (f : A -> bool) l : (length (List.filter f l) =? length l)%nat = forallb f l.
Proof.
  induction l as [|x l IH]; simpl; [done|]. destruct (f x); simpl; [done|].
  apply Nat.eqb_neq. pose proof (filter_length_le f l). lia.
Qed.

(** The phase of a run, as a reference definition. *)
Definition phase_of (states : list instState) : MLRunPhase :=
  if existsb exited_bad states then MLRunPhaseFailed
  else if forallb exited_ok states then MLRunPhaseSucceeded
  else if existsb is_running states then MLRunPhaseRunning
  else MLRunPhasePending.

Lemma run_status_phase states cancelled : rcs_Phase (run_status states cancelled) = phase_of states.
Proof.
  rw /run_status /phase_of. destruct (count_states no_counts states) as (-> & -> & ->). simpl.
  rw existsb_length forallb_length existsb_length. by repeat case_match.
Qed.

Lemma filter_length_perm {A} (f : A -> bool) l l' : l ≡ₚ l' -> length (List.filter f l) = length (List.filter f l').
Proof. induction 1; simpl; repeat case_match; simpl; congruence. Qed.

(** The phase of an observed run depends only on the states of its
    containers, in any order: failed when one exited with an error, succeeded
    when all exited cleanly, running when one runs, pending otherwise; and
    once a cancel was recorded, the status moves a cancelling run to Cancelled
    whatever the containers' exit codes are. *)
Theorem run_observation states states' cancelled :
  states ≡ₚ states' ->
  rcs_Phase (run_status states cancelled) = phase_of states /\
  rcs_Phase (run_status states' cancelled) = phase_of states /\
  forall cur now, (MapRun RunCanceling cur (run_status states true) now).1 = RunCancelled.
Proof.
  intros Hp. rw !run_status_phase. split_and!; [done| |].
  - rw /phase_of -!existsb_length -!forallb_length (Permutation_length Hp) !(filter_length_perm _ _ _ Hp) //.
  - intros cur now. assert (Hc : rcs_Conditions (run_status states true) =
      [{| co_Type := ConditionSuspended; co_Status := "True"; co_Reason := ReasonCancelRequested |}]).
    { rw /run_status. by repeat case_match. }
    rw /MapRun Hc. by repeat case_match.
Qed.

Definition sample_state (status : string) (code : Z) : instState :=
  {| is_name := "a"; is_id := "1"; is_image := "busybox:1"; is_status := status; is_exitCode := code; is_oom := false;
     is_startedAt := Some 1; is_finishedAt := None; is_health := ""; is_tenant := "team"; is_role := "main"; is_replica := "0" |}.

Lemma run_observation_witness :
  rcs_Phase (run_status [sample_state "running" 0; sample_state "exited" 137] false) = MLRunPhaseFailed /\
  rcs_Phase (run_status [sample_state "exited" 137; sample_state "running" 0] false) = MLRunPhaseFailed.
Proof.
  destruct (run_observation [sample_state "running" 0; sample_state "exited" 137]
    [sample_state "exited" 137; sample_state "running" 0] false) as (H1 & H2 & _); [apply perm_swap|].
  split; [exact H1|exact H2].
Defined.

(** ** Traffic policies *)

Section Traffic.
Context {D F G : Type} `{Docker D} `{GatewayDirLaws G}.

(** The backends of a policy carry its members. *)
Lemma traffic_backends host p (d : D) members out backends :
  fold_err (fun out m => match traffic_backend host p d m with inl b => inl (out ++ [b]) | inr e => inr e end) out members = inl backends ->
  exists more, backends = out ++ more /\
    Forall2 (fun m b => tb_serviceName b = bm_ServiceName m /\ tb_weight b = bm_Weight m /\
      tb_resourceName b = trafficMemberResourceName (ho_shortHash host) (om_Namespace (tcr_Meta p)) (om_Name (tcr_Meta p)) (bm_ServiceName m))
    members more.
Proof.
  revert out. induction members as [|m members IH]; intros out; simpl.
  { intros [= <-]. exists []. by rw app_nil_r. }
  destruct (traffic_backend host p d m) as [b|] eqn:Eb; [|done]. intros (more & -> & HF)%IH.
  exists (b :: more). rw -app_assoc. split; [done|]. constructor; [|done].
  rw /traffic_backend in Eb. destruct (memberEndpoints _ _ _); [|done]. by injection Eb as <-.
Qed.

(** The services of the written backends, by resource name. *)
Lemma backend_services_spec docs bs b m :
  NoDup (map tb_resourceName bs) -> b ∈ bs ->
  docs = map (fun b => document_of (gatewayBackend (tb_resourceName b) (tb_serviceName b) (tb_endpoints b))) bs ->
  map_get "" (foldl (fun m doc => if String.eqb (gd_Kind doc) "Backend"
    then <[gd_Name doc := map_get "" (gd_Annotations doc) gatewayServiceAnnotation]> m else m) m docs) (tb_resourceName b) = tb_serviceName b.
Proof.
  intros Hnd Hb ->. revert m. induction bs as [|x bs IH]; intros m; [by apply elem_of_nil in Hb|].
  simpl in Hnd. apply NoDup_cons in Hnd as [Hx Hnd]. cbn [map foldl].
  apply elem_of_cons in Hb as [->|Hb]; [|by apply IH].
  set (m' := if String.eqb _ _ then _ else _).
  assert (Hm : map_get "" m' (tb_resourceName x) = tb_serviceName x).
  { rw /m' /= map_get_insert. by rw /map_get lookup_singleton_eq. }
  clearbody m'. clear IH Hnd. revert m' Hm. induction bs as [|y bs IH]; intros m' Hm; [exact Hm|].
  simpl in Hx. apply not_elem_of_cons in Hx as [Hxy Hx]. cbn [map foldl]. apply IH; [done|]. simpl. by rw map_get_insert_ne.
Qed.

Lemma last_route_app docs doc : gd_Kind doc = "HTTPRoute" -> last_route (docs ++ [doc]) = Some doc.
Proof. intros Hk. rw /last_route foldl_app /= Hk //. Qed.

(** The endpoint of a policy. *)
Definition policy_endpoint (p : MLTrafficPolicyCR) : string :=
  let path := if String.eqb (ep_Path (tsp_Endpoint (tcr_Spec p))) "" then "/" else ep_Path (tsp_Endpoint (tcr_Spec p)) in
  if String.eqb (ep_Hostname (tsp_Endpoint (tcr_Spec p))) "" then path
  else ("http://" ++ ep_Hostname (tsp_Endpoint (tcr_Spec p)) ++ path)%string.

(** What is read back from the resources of a policy. *)
Lemma members_read hash p bs :
  NoDup (map tb_resourceName bs) ->
  let members := readTrafficMembers (map document_of (gatewayTrafficResources hash p bs)) in
  map (fun m => (tm_service m, tm_weight m)) members = map (fun b => (tb_serviceName b, tb_weight b)) bs /\
  (bs <> [] -> trafficEndpoint members = policy_endpoint p).
Proof.
  intros Hnd. rw /gatewayTrafficResources map_app. cbn [map]. set (route := document_of (gatewayHTTPRoute _ _ _ _)).
  rw map_map. set (docs := map (fun b => document_of (gatewayBackend _ _ _)) bs).
  rw /readTrafficMembers last_route_app //. cbn [route document_of gw_Spec gatewayHTTPRoute gd_Rules gh_Rules gl_BackendRefs]. split.
  - rw !map_map. apply map_ext_in. intros b Hb%list_elem_of_In. cbn [tm_service tm_weight gr_Name gr_Weight default]. f_equal.
    rw /backend_services foldl_app. cbn [foldl]. by eapply backend_services_spec.
  - intros Hne. destruct bs as [|b bs]; [done|]. rw /trafficEndpoint. cbn [map tm_host tm_path]. rw /policy_endpoint /route_path /=.
    destruct (String.eqb_spec (ep_Hostname (tsp_Endpoint (tcr_Spec p))) "") as [Eh|Eh]; simpl;
      rw ?(proj2 (String.eqb_neq _ _) Eh) /=; destruct (String.eqb_spec (ep_Path (tsp_Endpoint (tcr_Spec p))) "") as [Ep|Ep];
      rw ?(proj2 (String.eqb_neq _ _) Ep) //.
Qed.

(** A traffic policy that was applied is observed with its members in
    order, each with its service and weight, and at its endpoint; after a
    successful Delete it is not found. *)
Theorem traffic_roundtrip host now p (r r' : Runtime D F G) :
  let ns := om_Namespace (tcr_Meta p) in
  let name := om_Name (tcr_Meta p) in
  let members := tsp_Backends (tcr_Spec p) in
  NoDup (map (fun m => trafficMemberResourceName (ho_shortHash host) ns name (bm_ServiceName m)) members) ->
  ApplyMLTrafficPolicy host now p r = (None, r') ->
  (exists status, ObserveMLTrafficPolicy ns name r' = inl status /\
     map (fun b => (bs_ServiceName b, bs_Weight b)) (tcs_Backends status) = map (fun m => (bm_ServiceName m, bm_Weight m)) members /\
     (members <> [] -> tcs_Endpoint status = policy_endpoint p)) /\
  forall r2, DeleteMLTrafficPolicy now ns name r' = (None, r2) -> ObserveMLTrafficPolicy ns name r2 = inr ErrAPINotFound.
Proof.
  intros ns name members Hnd Ha. split.
  - rw /ApplyMLTrafficPolicy in Ha. destruct (_ || _); [done|]. rw /renderGatewayTraffic in Ha.
    destruct (fold_err _ [] (tsp_Backends (tcr_Spec p))) as [bs|] eqn:Ef; [|done].
    apply traffic_backends in Ef as (more & -> & HF). simpl in Ha.
    destruct (gw_write (st_gateway r) _ _) as [[e|] g] eqn:Ew; [done|]. injection Ha as <-.
    apply law_write in Ew as [Hread _]. rw /ObserveMLTrafficPolicy /= Hread.
    assert (Hnames : map tb_resourceName more = map (fun m => trafficMemberResourceName (ho_shortHash host) ns name (bm_ServiceName m)) members).
    { clear -HF. rw /members. induction HF as [|m b l l' (_ & _ & E) _ IH]; [done|]. simpl. by rw E IH. }
    rw -Hnames in Hnd. destruct (members_read (ho_shortHash host) p more Hnd) as [Hm He]. eexists. split; [done|]. simpl. split.
    + rw map_map. etransitivity; [exact Hm|]. clear -HF. rw /members. induction HF as [|m b l l' (E1 & E2 & _) _ IH]; [done|]. simpl. by rw E1 E2 IH.
    + intros Hne. apply He. intros ->. by apply Forall2_nil_inv_r in HF.
  - intros r2 Hd. rw /DeleteMLTrafficPolicy /remove_file in Hd. destruct (gw_remove (st_gateway r') (trafficFileName ns name)) as [res g] eqn:Er.
    assert (Hres : res = None \/ res = Some NotExist) by (destruct res as [[|t]|]; [by right|done|by left]).
    destruct (law_unlink _ _ _ _ Er Hres) as [Hread _].
    assert (E2 : st_gateway r2 = g) by (by destruct Hres as [-> | ->]; injection Hd as <-).
    rw /ObserveMLTrafficPolicy E2 Hread //.
Qed.
End Traffic.

Definition sample_policy : MLTrafficPolicyCR :=
  {| tcr_Meta := {| om_Name := "split"; om_Namespace := "team"; om_Labels := ∅; om_Annotations := ∅ |};
     tcr_Spec := {| tsp_Backend := {| be_Name := "native"; be_Engine := "httproute"; be_Config := None |};
                    tsp_Mode := TrafficModeWeighted;
                    tsp_Endpoint := {| ep_Path := "/v1"; ep_Hostname := "ml.example"; ep_Auth := None |};
                    tsp_Backends := [{| bm_ServiceName := "web"; bm_Role := ""; bm_Weight := 90 |};
                                     {| bm_ServiceName := "next"; bm_Role := ""; bm_Weight := 10 |}] |} |}.

Lemma traffic_roundtrip_witness :
  exists status, ObserveMLTrafficPolicy "team" "split" (ApplyMLTrafficPolicy sample_host 5 sample_policy empty_runtime).2 = inl status /\
    map (fun b => (bs_ServiceName b, bs_Weight b)) (tcs_Backends status) = [("web", 90); ("next", 10)].
Proof.
  destruct (traffic_roundtrip sample_host 5 sample_policy empty_runtime (ApplyMLTrafficPolicy sample_host 5 sample_policy empty_runtime).2)
    as [(status & H1 & H2 & _) _].
  - vm_compute. apply NoDup_cons; split; [set_solver|apply NoDup_singleton].
  - apply succeeded. by vm_compute.
  - exists status. split; [exact H1|exact H2].
Defined.

(** ** Names *)

(** Namespace and claim are joined by a dash that both may contain: two
    namespaces can share a volume. *)
Lemma volume_names_collide hash :
  pvcVolumeName hash "team-a" "data" = pvcVolumeName hash "team" "a-data" /\
  serviceRouteFileName "team-a" "web" = serviceRouteFileName "team" "a-web".
Proof. split; by vm_compute. Qed.

(** A container created after a name conflict keeps the network alias of the
    name that was taken, while the route of its service uses the new name. *)
Definition retried_plan : ContainerPlan :=
  {| cp_Name := "web-x"; cp_NamePrefix := "web"; cp_Replica := 0; cp_StableOrdinal := false; cp_Image := "busybox:1";
     cp_ImagePullPolicy := "IfNotPresent"; cp_Command := []; cp_Args := []; cp_Env := []; cp_WorkingDir := "";
     cp_Labels := ∅; cp_Ports := []; cp_Mounts := [];
     cp_Resources := {| rp_NanoCPUs := 0; rp_MemoryBytes := 0; rp_GPUCount := 0; rp_GPUDeviceIDs := [] |};
     cp_RestartPolicy := "no" |}.

Lemma retried_alias :
  let create := createAndStart (ho_net sample_host) (ho_shortHash sample_host) (ho_suffixes sample_host) in
  let '(_, _, d1) := create 0%nat retried_plan {| dn_slots := [] |} in
  let '(err, p, d2) := create 7%nat retried_plan d1 in
  err = None /\ cp_Name p = "web-xxxxxxx" /\
  gatewayContainerEndpoint (cp_Name p) 80 = FQDN "web-xxxxxxx.axisml.local" 80 /\
  map (fun c => (ct_Name c, ct_Aliases c)) (containers d2) =
    [("web-x", ["web-x.axisml.local"]); ("web-xxxxxxx", ["web-x.axisml.local"])].
Proof. by vm_compute. Qed.
