(* ===== verification/Kube.v ===== *)
(** * Kubernetes objects and the API client

    What the operators see of Kubernetes: objects with metadata, a spec and a
    status, and the controller-runtime client as a state and error monad.  The
    client is a parameter, the class [Client].  [ClientLaws] states what the
    API documentation promises about one call, under a relation [rely] that
    says what everybody else may do to the cluster before and after the call
    takes effect.  Properties of programs over the client are triples, proved
    from assertions that [rely] keeps. *)

From Stdlib Require Import ssreflect ZArith Ascii String.
From stdpp Require Import base gmap list strings relations.
From S2P Require Import Prelude ApiTypes.

(** ** Objects *)

(** [metav1.OwnerReference]; a nil pointer to a bool is false. *)
Record OwnerReference := {
  ow_APIVersion : string;
  ow_Kind : string;
  ow_Name : string;
  ow_UID : string;
  ow_Controller : bool;
  ow_BlockOwnerDeletion : bool }.

#[export] Instance OwnerReference_eq_dec : EqDecision OwnerReference.
Proof. solve_decision. Defined.

(** [metav1.ObjectMeta]; an empty map stands for a nil one. *)
Record Meta := {
  me_Obj : ObjectMeta;
  me_UID : string;
  me_Generation : Z;
  me_Owners : list OwnerReference }.

Record object {B S : Type} := { ob_Meta : Meta; ob_Spec : B; ob_Status : S }.
Arguments object : clear implicits.
Arguments Build_object {B S}.

(** [types.NamespacedName] *)
Abbreviation key := (string * string)%type (only parsing).

Section Objects.
Context {B S : Type}.
Implicit Types o : object B S.

Definition ob_Name o : string := om_Name (me_Obj (ob_Meta o)).
Definition ob_Namespace o : string := om_Namespace (me_Obj (ob_Meta o)).
Definition ob_key o : key := (ob_Namespace o, ob_Name o).
Definition ob_UID o : string := me_UID (ob_Meta o).
Definition ob_Labels o : gmap string string := om_Labels (me_Obj (ob_Meta o)).
Definition ob_Annotations o : gmap string string := om_Annotations (me_Obj (ob_Meta o)).
Definition ob_Owners o : list OwnerReference := me_Owners (ob_Meta o).
Definition ob_Generation o : Z := me_Generation (ob_Meta o).

Definition set_spec (b : B) o : object B S :=
  {| ob_Meta := ob_Meta o; ob_Spec := b; ob_Status := ob_Status o |}.

Definition set_status (st : S) o : object B S :=
  {| ob_Meta := ob_Meta o; ob_Spec := ob_Spec o; ob_Status := st |}.

Definition set_obj (m : ObjectMeta) o : object B S :=
  {| ob_Meta := {| me_Obj := m; me_UID := ob_UID o; me_Generation := ob_Generation o; me_Owners := ob_Owners o |};
     ob_Spec := ob_Spec o; ob_Status := ob_Status o |}.

Definition set_labels (l : gmap string string) o : object B S :=
  set_obj {| om_Name := ob_Name o; om_Namespace := ob_Namespace o; om_Labels := l;
             om_Annotations := ob_Annotations o |} o.

Definition set_annotations (a : gmap string string) o : object B S :=
  set_obj {| om_Name := ob_Name o; om_Namespace := ob_Namespace o; om_Labels := ob_Labels o;
             om_Annotations := a |} o.

Definition set_owners (refs : list OwnerReference) o : object B S :=
  {| ob_Meta := {| me_Obj := me_Obj (ob_Meta o); me_UID := ob_UID o; me_Generation := ob_Generation o; me_Owners := refs |};
     ob_Spec := ob_Spec o; ob_Status := ob_Status o |}.
End Objects.

(** ** Errors and the monad of API calls *)

(** Go errors of the operators.  [Wrapped msg cause] is
    [fmt.Errorf("msg: %w", cause)]; a panic is an error that nothing below
    handles. *)
Inductive api_error :=
| APINotFound
| APIAlreadyExists
| APIConflict
| APIInvalid (msg : string)
| APIBadRequest (msg : string)
| APIForbidden (msg : string)
| CapabilityUnavailable
| APIError (msg : string)
| Errored (msg : string)
| Wrapped (msg : string) (cause : api_error)
| OwnershipConflictError (namespace name ownerKind ownerName : string)
| Panicked (msg : string).

(** [err.Error()] *)
Fixpoint error_text (e : api_error) : string :=
  match e with
  | APINotFound => "not found"
  | APIAlreadyExists => "already exists"
  | APIConflict => "the object has been modified"
  | CapabilityUnavailable => "capability unavailable in this deployment form"
  | APIInvalid msg | APIBadRequest msg | APIForbidden msg | APIError msg | Errored msg | Panicked msg => msg
  | Wrapped msg cause => (msg ++ ": " ++ error_text cause)%string
  | OwnershipConflictError namespace name kind owner =>
      ("ConfigMap " ++ namespace ++ "/" ++ name ++ " already exists and is not owned by " ++ kind ++ " "
         ++ owner)%string
  end.

(** [apierrors.IsNotFound]: the API status is looked for in the chain. *)
Fixpoint IsNotFound (e : api_error) : bool :=
  match e with APINotFound => true | Wrapped _ cause => IsNotFound cause | _ => false end.

(** [apierrors.IsAlreadyExists] *)
Fixpoint IsAlreadyExists (e : api_error) : bool :=
  match e with APIAlreadyExists => true | Wrapped _ cause => IsAlreadyExists cause | _ => false end.

(** [apierrors.IsConflict], [IsInvalid], [IsBadRequest], [IsForbidden], and
    [errors.Is(err, ErrCapabilityUnavailable)] *)
Fixpoint IsConflict (e : api_error) : bool :=
  match e with APIConflict => true | Wrapped _ cause => IsConflict cause | _ => false end.

Fixpoint IsInvalid (e : api_error) : bool :=
  match e with APIInvalid _ => true | Wrapped _ cause => IsInvalid cause | _ => false end.

Fixpoint IsBadRequest (e : api_error) : bool :=
  match e with APIBadRequest _ => true | Wrapped _ cause => IsBadRequest cause | _ => false end.

Fixpoint IsForbidden (e : api_error) : bool :=
  match e with APIForbidden _ => true | Wrapped _ cause => IsForbidden cause | _ => false end.

Fixpoint IsUnavailable (e : api_error) : bool :=
  match e with CapabilityUnavailable => true | Wrapped _ cause => IsUnavailable cause | _ => false end.

Definition api (K A : Type) : Type := K -> (A + api_error) * K.

Section Monad.
Context {K : Type}.

Definition ret {A} (a : A) : api K A := fun s => (inl a, s).
Definition fail {A} (e : api_error) : api K A := fun s => (inr e, s).
Definition bind {A B} (m : api K A) (f : A -> api K B) : api K B := fun s =>
  match m s with (inl a, s') => f a s' | (inr e, s') => (inr e, s') end.

(** The outcome of a call as a value: [if err := ...; err != nil]. *)
Definition try {A} (m : api K A) : api K (A + api_error) := fun s => let '(r, s') := m s in (inl r, s').

(** [return fmt.Errorf("msg: %w", err)] *)
Definition wrap {A} (msg : string) (m : api K A) : api K A := fun s =>
  match m s with (inl a, s') => (inl a, s') | (inr e, s') => (inr (Wrapped msg e), s') end.

(** The result of a pure function that may fail. *)
Definition lift {A} (r : A + api_error) : api K A := match r with inl a => ret a | inr e => fail e end.

(** A loop that ends at the first error. *)
Fixpoint each {A} (f : A -> api K unit) (l : list A) : api K unit :=
  match l with [] => ret tt | a :: l => bind (f a) (fun _ => each f l) end.
End Monad.

Declare Scope api_scope.
Delimit Scope api_scope with api.
Bind Scope api_scope with api.
Notation "'let*' x := m 'in' f" := (bind m (fun x => f)) (at level 200, x name, m at level 100, f at level 200) : api_scope.

(** ** The client *)

(** A kind of object with its table in the cluster [C].  [defaulted b b'] says
    that the API server may store [b'] when asked to create [b]: it fills in
    what was left unset.  [spec_merged before after b b'] says that the merge
    patch between two specs may turn [b] into [b']; where [b] is as in [before],
    [b'] is as in [after], up to what the server fills in. *)
Class Kind (C B S : Type) := {
  tab : C -> gmap key (object B S);
  set_tab : gmap key (object B S) -> C -> C;
  zero_status : S;
  defaulted : B -> B -> Prop;
  spec_merged : B -> B -> B -> B -> Prop }.

(** The calls for one kind; a patch is given by the objects it leads from and
    to. *)
Class Client (K B S : Type) := {
  k_Get : key -> api K (object B S);
  k_Create : object B S -> api K (object B S);
  k_Patch : object B S -> object B S -> api K (object B S);
  k_PatchStatus : object B S -> object B S -> api K (object B S);
  k_Delete : object B S -> api K unit;
  k_List : string -> gmap string string -> api K (list (object B S)) }.

Definition put {C B S} `{Kind C B S} (o : object B S) (c : C) : C := set_tab (<[ob_key o := o]> (tab c)) c.

(** [client.InNamespace] and [client.MatchingLabels] *)
Definition selected {B S} (namespace : string) (labels : gmap string string) (o : object B S) : bool :=
  String.eqb (ob_Namespace o) namespace && bool_decide (labels ⊆ ob_Labels o).

(** What the server stores for a created object. *)
Definition stored {C B S} `{Kind C B S} (o o' : object B S) : Prop :=
  me_Obj (ob_Meta o') = me_Obj (ob_Meta o) /\ ob_Owners o' = ob_Owners o /\
  defaulted (ob_Spec o) (ob_Spec o') /\ ob_Status o' = zero_status.

(** A merge patch on a map sets the keys in which its two sides differ. *)
Definition merged_map (before after cur new : gmap string string) : Prop :=
  forall k, new !! k = if decide (before !! k = after !! k) then cur !! k else after !! k.

(** The merge patch from [before] to [after], applied to [o]: the status is a
    subresource and stays; a part that the patch does not mention stays; lists
    are replaced as a whole; what becomes of a changed spec is the kind's. *)
Definition patched {B S} (merged : B -> B -> B -> B -> Prop) (before after o o' : object B S) : Prop :=
  ob_Status o' = ob_Status o /\ ob_UID o' = ob_UID o /\ ob_key o' = ob_key o /\
  ob_Owners o' = (if decide (ob_Owners before = ob_Owners after) then ob_Owners o else ob_Owners after) /\
  merged_map (ob_Labels before) (ob_Labels after) (ob_Labels o) (ob_Labels o') /\
  merged_map (ob_Annotations before) (ob_Annotations after) (ob_Annotations o) (ob_Annotations o') /\
  (ob_Spec before = ob_Spec after -> ob_Spec o' = ob_Spec o /\ ob_Generation o' = ob_Generation o) /\
  merged (ob_Spec before) (ob_Spec after) (ob_Spec o) (ob_Spec o').

Definition patched_status {B S} (before after o o' : object B S) : Prop :=
  ob_Meta o' = ob_Meta o /\ ob_Spec o' = ob_Spec o /\
  (ob_Status o = ob_Status before -> ob_Status o' = ob_Status after).

(** Effects of calls on the cluster. *)
Definition replaced {C B S} `{Kind C B S} (k : key) (how : object B S -> object B S -> Prop) (o' : object B S)
    (c c' : C) : Prop :=
  exists o, tab c !! k = Some o /\ how o o' /\ c' = set_tab (<[k := o']> (tab c)) c.

Definition unchanged {C} (c c' : C) : Prop := c' = c.

(** The reads of a client that answers from a cache of its own, which may be
    restricted to some objects. *)
Class CachedReader (K B S : Type) := {
  r_Get : key -> api K (object B S);
  r_List : string -> gmap string string -> api K (list (object B S)) }.

Section Laws.
Context {C K : Type}.

(** A call takes effect between steps of everybody else. *)
Definition did (rely : C -> C -> Prop) (objects : K -> C) (eff : C -> C -> Prop) (s s' : K) : Prop :=
  exists c c', rely (objects s) c /\ eff c c' /\ rely c' (objects s').

(** A manager's client reads from an informer cache that may lag behind: a read
    changes nothing and returns what was asked for, but says nothing about what
    is in the cluster by then.  Writes go to the API server; one that reports an
    error may still have taken effect. *)
Class ClientLaws {B S} `{!Kind C B S} `{!Client K B S} (objects : K -> C) (rely : C -> C -> Prop) := {
  law_get k s :
    match k_Get k s with
    | (inl o, s') => did rely objects (fun c c' => c' = c /\ ob_key o = k) s s'
    | (inr _, s') => did rely objects unchanged s s'
    end;
  law_create (o : object B S) s :
    let eff o' c c' := tab c !! ob_key o = None /\ stored o o' /\ c' = put o' c in
    match k_Create o s with
    | (inl o', s') => did rely objects (eff o') s s'
    | (inr e, s') => did rely objects (fun c c' => if IsAlreadyExists e then c' = c /\ is_Some (tab c !! ob_key o)
                                                  else c' = c \/ exists o', eff o' c c') s s'
    end;
  law_patch (before after : object B S) s :
    let eff o' := replaced (ob_key after) (patched (spec_merged (C := C)) before after) o' in
    match k_Patch before after s with
    | (inl o', s') => did rely objects (eff o') s s'
    | (inr _, s') => did rely objects (fun c c' => c' = c \/ exists o', eff o' c c') s s'
    end;
  law_patch_status (before after : object B S) s :
    let eff o' := replaced (ob_key after) (patched_status before after) o' in
    match k_PatchStatus before after s with
    | (inl o', s') => did rely objects (eff o') s s'
    | (inr _, s') => did rely objects (fun c c' => c' = c \/ exists o', eff o' c c') s s'
    end;
  law_delete (o : object B S) s :
    let gone c c' := c' = set_tab (delete (ob_key o) (tab c)) c in
    match k_Delete o s with
    | (inl _, s') => did rely objects gone s s'
    | (inr e, s') => did rely objects (fun c c' => if IsNotFound e then c' = c /\ tab c !! ob_key o = None
                                                  else c' = c \/ gone c c') s s'
    end;
  law_list namespace labels s :
    match k_List namespace labels s with
    | (inl os, s') => did rely objects (fun c c' => c' = c /\ forall o, o ∈ os -> selected namespace labels o = true) s s'
    | (inr _, s') => did rely objects unchanged s s'
    end }.

(** Reads that are current: from the API server, or from a cache that has caught
    up with the cluster when it is asked.  Hypotheses of their own of the
    theorems that need them, for the kinds they need them for. *)
Class CurrentGets {B S} `{!Kind C B S} `{!Client K B S} (objects : K -> C) (rely : C -> C -> Prop) :=
  current_get k s :
    match k_Get k s with
    | (inl o, s') => did rely objects (fun c c' => c' = c /\ tab c !! k = Some o /\ ob_key o = k) s s'
    | (inr e, s') => did rely objects (fun c c' => c' = c /\ (IsNotFound e = true -> tab c !! k = None)) s s'
    end.

Class CurrentLists {B S} `{!Kind C B S} `{!Client K B S} (objects : K -> C) (rely : C -> C -> Prop) :=
  current_list namespace labels s :
    match k_List namespace labels s with
    | (inl os, s') => did rely objects (fun c c' => c' = c /\
        forall o, o ∈ os <-> tab c !! ob_key o = Some o /\ selected namespace labels o = true) s s'
    | (inr _, s') => did rely objects unchanged s s'
    end.

Class CurrentReads {B S} `{!Kind C B S} `{!Client K B S} (objects : K -> C) (rely : C -> C -> Prop) := {
  current_gets :: CurrentGets (B := B) (S := S) objects rely;
  current_lists :: CurrentLists (B := B) (S := S) objects rely }.

(** A cache restricted to visible objects.  What it returns was asked for and is
    visible; it may be outdated. *)
Class CachedLaws {B S} `{!Kind C B S} `{!CachedReader K B S} (visible : object B S -> bool) (objects : K -> C)
    (rely : C -> C -> Prop) := {
  law_cached_get k s :
    match r_Get k s with
    | (inl o, s') => did rely objects (fun c c' => c' = c /\ ob_key o = k /\ visible o = true) s s'
    | (inr _, s') => did rely objects unchanged s s'
    end;
  law_cached_list namespace labels s :
    match r_List namespace labels s with
    | (inl os, s') => did rely objects (fun c c' => c' = c /\
        forall o, o ∈ os -> selected namespace labels o = true /\ visible o = true) s s'
    | (inr _, s') => did rely objects unchanged s s'
    end }.

(** What the cache returns is current; that it has no such object says nothing
    about the cluster. *)
Class CurrentCache {B S} `{!Kind C B S} `{!CachedReader K B S} (visible : object B S -> bool) (objects : K -> C)
    (rely : C -> C -> Prop) := {
  current_cached_get k s o s' : r_Get k s = (inl o, s') ->
    did rely objects (fun c c' => c' = c /\ tab c !! k = Some o /\ ob_key o = k /\ visible o = true) s s';
  current_cached_list namespace labels s os s' : r_List namespace labels s = (inl os, s') ->
    did rely objects (fun c c' => c' = c /\
      forall o, o ∈ os -> tab c !! ob_key o = Some o /\ selected namespace labels o = true /\ visible o = true) s s' }.

(** A cache whose lists have caught up with the cluster. *)
Class CaughtUp {B S} `{!Kind C B S} `{!CachedReader K B S} (visible : object B S -> bool) (objects : K -> C)
    (rely : C -> C -> Prop) :=
  law_caught_up namespace labels s os s' : r_List namespace labels s = (inl os, s') ->
    did rely objects (fun c c' => c' = c /\
      forall o, o ∈ os <-> tab c !! ob_key o = Some o /\ selected namespace labels o = true /\ visible o = true) s s'.

(** Laws without interference hold with any. *)
Lemma did_weaken_eq (objects : K -> C) (rely : C -> C -> Prop) : (forall c, rely c c) ->
  forall eff s s', did eq objects eff s s' -> did rely objects eff s s'.
Proof. intros Hrefl eff s s' (c & c' & <- & He & ->). by exists (objects s), (objects s'). Qed.

Lemma current_weaken {B S} `{!Kind C B S} `{!Client K B S} (objects : K -> C) (rely : C -> C -> Prop) :
  (forall c, rely c c) -> CurrentReads (B := B) (S := S) objects eq -> CurrentReads (B := B) (S := S) objects rely.
Proof.
  intros Hrefl [Hgets Hlists]. pose proof (did_weaken_eq objects rely Hrefl) as Hdid. split.
  - intros k s. generalize (current_get (objects := objects) (rely := eq) k s). destruct (k_Get k s) as [[|]]; apply Hdid.
  - intros n l s. generalize (current_list (objects := objects) (rely := eq) n l s). destruct (k_List n l s) as [[|]]; apply Hdid.
Qed.

Lemma laws_weaken {B S} `{!Kind C B S} `{!Client K B S} (objects : K -> C) (rely : C -> C -> Prop) :
  (forall c, rely c c) -> ClientLaws objects eq -> ClientLaws objects rely.
Proof.
  intros Hrefl Hlaws. pose proof (did_weaken_eq objects rely Hrefl) as Hdid. split.
  - intros k s. generalize (law_get (objects := objects) (rely := eq) k s). destruct (k_Get k s) as [[|]]; apply Hdid.
  - intros o s. generalize (law_create (objects := objects) (rely := eq) o s). destruct (k_Create o s) as [[|]]; apply Hdid.
  - intros o o' s. generalize (law_patch (objects := objects) (rely := eq) o o' s).
    destruct (k_Patch o o' s) as [[|]]; apply Hdid.
  - intros o o' s. generalize (law_patch_status (objects := objects) (rely := eq) o o' s).
    destruct (k_PatchStatus o o' s) as [[|]]; apply Hdid.
  - intros o s. generalize (law_delete (objects := objects) (rely := eq) o s). destruct (k_Delete o s) as [[|]]; apply Hdid.
  - intros n l s. generalize (law_list (objects := objects) (rely := eq) n l s). destruct (k_List n l s) as [[|]]; apply Hdid.
Qed.
End Laws.

(** ** Triples

    [triple P m R]: from a cluster with [P], whatever [m] returns satisfies [R]
    together with the cluster it leaves.  [P] and [R] speak about one moment;
    an assertion that holds across the steps of others is [Stable]. *)

Section Triples.
Context {C K : Type} (objects : K -> C) (rely : C -> C -> Prop).

Definition triple {A} (P : C -> Prop) (m : api K A) (R : A + api_error -> C -> Prop) : Prop :=
  forall s, P (objects s) -> R (m s).1 (objects (m s).2).

Class Stable (P : C -> Prop) : Prop := stable : forall c c', rely c c' -> P c -> P c'.

#[export] Instance stable_pure (phi : Prop) : Stable (fun _ => phi).
Proof. by intros c c' _. Qed.

#[export] Instance stable_and (P R : C -> Prop) : Stable P -> Stable R -> Stable (fun c => P c /\ R c).
Proof. intros SP SR c c' Hr [??]. split; [by eapply SP | by eapply SR]. Qed.

#[export] Instance stable_or (P R : C -> Prop) : Stable P -> Stable R -> Stable (fun c => P c \/ R c).
Proof. intros SP SR c c' Hr [? | ?]; [left; by eapply SP | right; by eapply SR]. Qed.

#[export] Instance stable_imp (phi : Prop) (P : C -> Prop) : Stable P -> Stable (fun c => phi -> P c).
Proof. intros SP c c' Hr HP Hphi. eapply SP; [done | by apply HP]. Qed.

Lemma triple_ret {A} (a : A) (R : A + api_error -> C -> Prop) : triple (R (inl a)) (ret a) R.
Proof. by intros s. Qed.

Lemma triple_fail {A} e (R : A + api_error -> C -> Prop) : triple (R (inr e)) (fail e) R.
Proof. by intros s. Qed.

Lemma triple_bind {A B} P (m : api K A) (f : A -> api K B) R R' :
  triple P m R -> (forall a, triple (R (inl a)) (f a) R') -> (forall e c, R (inr e) c -> R' (inr e) c) ->
  triple P (bind m f) R'.
Proof.
  intros Hm Hf He s HP. pose proof (Hm s HP) as HR. rw /bind. destruct (m s) as [[a | e] s']; simpl in *.
  - by apply Hf. - by apply He.
Qed.

Lemma triple_lift_bind {A B} P (a : A) (f : A -> api K B) R : triple P (f a) R -> triple P (bind (lift (inl a)) f) R.
Proof. done. Qed.

Lemma triple_try {A} P (m : api K A) (R : (A + api_error) + api_error -> C -> Prop) :
  triple P m (fun r => R (inl r)) -> triple P (try m) R.
Proof. intros Hm s HP. pose proof (Hm s HP) as HR. rw /try. by destruct (m s). Qed.

Lemma triple_wrap {A} msg P (m : api K A) R R' :
  triple P m R -> (forall a c, R (inl a) c -> R' (inl a) c) ->
  (forall e c, R (inr e) c -> R' (inr (Wrapped msg e)) c) -> triple P (wrap msg m) R'.
Proof.
  intros Hm Ha He s HP. pose proof (Hm s HP) as HR. rw /wrap. destruct (m s) as [[a | e] s']; simpl in *; auto.
Qed.

(** [X] when a call returns a value, [E] when it returns an error. *)
Definition either (A : Type) (X E : C -> Prop) (r : A + api_error) (c : C) : Prop :=
  match r with inl _ => X c | inr _ => E c end.

Lemma triple_wrap_then {A B} msg P (m : api K A) (b : A -> B) X E :
  triple P m (either A X E) -> triple P (bind (wrap msg m) (fun a => ret (b a))) (either B X E).
Proof.
  intros Hm s HP. pose proof (Hm s HP) as HR. rw /bind /wrap. by destruct (m s) as [[a | e] s'].
Qed.

Lemma triple_consequence {A} (P P' : C -> Prop) (m : api K A) (R R' : A + api_error -> C -> Prop) :
  triple P m R -> (forall c, P' c -> P c) -> (forall r c, R r c -> R' r c) -> triple P' m R'.
Proof. intros Hm HP HR s Hs. apply HR, Hm, HP, Hs. Qed.

Lemma triple_ex {A X} (P : X -> C -> Prop) (m : api K A) R :
  (forall x, triple (P x) m R) -> triple (fun c => exists x, P x c) m R.
Proof. intros Hm s [x Hx]. by apply (Hm x). Qed.

Lemma triple_pure {A} (phi : Prop) (P : C -> Prop) (m : api K A) R :
  (phi -> triple P m R) -> triple (fun c => P c /\ phi) m R.
Proof. intros Hm s [HP Hphi]. by apply Hm. Qed.

(** A call: [P] up to the moment it takes effect, [R r] right after it. *)
Lemma did_elim {eff} (P R : C -> Prop) s s' :
  Stable P -> Stable R -> P (objects s) -> did rely objects eff s s' ->
  (forall c c', P c -> eff c c' -> R c') -> R (objects s').
Proof. intros SP SR HP (c & c' & H1 & He & H2) Himp. eapply SR; [done |]. eapply Himp; [| done]. by eapply SP. Qed.

Section Calls.
Context {B S : Type} `{!Kind C B S} `{!Client K B S} `{!ClientLaws objects rely}.

Lemma triple_read k P (R : object B S + api_error -> C -> Prop) :
  Stable P -> (forall r, Stable (R r)) -> (forall c o, P c -> ob_key o = k -> R (inl o) c) -> (forall c e, P c -> R (inr e) c) ->
  triple P (k_Get k) R.
Proof.
  intros SP SR Ho He s HP. pose proof (law_get k s) as Hl. destruct (k_Get k s) as [[o | e] s']; simpl in *.
  - eapply did_elim; [done | done | done | exact Hl |]. intros c c' Hc [-> Hk]. by apply Ho.
  - eapply did_elim; [done | done | done | exact Hl |]. intros c c' Hc ->. by apply He.
Qed.

Lemma triple_read_list namespace labels P (R : list (object B S) + api_error -> C -> Prop) :
  Stable P -> (forall r, Stable (R r)) ->
  (forall c os, P c -> (forall o, o ∈ os -> selected namespace labels o = true) -> R (inl os) c) ->
  (forall c e, P c -> R (inr e) c) -> triple P (k_List namespace labels) R.
Proof.
  intros SP SR Ho He s HP. pose proof (law_list namespace labels s) as Hl. destruct (k_List namespace labels s) as [[os | e] s']; simpl in *.
  - eapply did_elim; [done | done | done | exact Hl |]. intros c c' Hc [-> Hos]. by apply Ho.
  - eapply did_elim; [done | done | done | exact Hl |]. intros c c' Hc ->. by apply He.
Qed.

Lemma triple_get `{!CurrentGets (B := B) (S := S) objects rely} k P (R : object B S + api_error -> C -> Prop) :
  Stable P -> (forall r, Stable (R r)) ->
  (forall c o, P c -> tab c !! k = Some o -> ob_key o = k -> R (inl o) c) ->
  (forall c e, P c -> (IsNotFound e = true -> tab c !! k = None) -> R (inr e) c) ->
  triple P (k_Get k) R.
Proof.
  intros SP SR Ho He s HP. pose proof (current_get k s) as Hl. destruct (k_Get k s) as [[o | e] s']; simpl in *;
    eapply did_elim; [done | done | done | exact Hl | naive_solver | done | done | done | exact Hl | naive_solver].
Qed.

Lemma triple_create_known (o : object B S) P (R : object B S + api_error -> C -> Prop) :
  Stable P -> (forall r, Stable (R r)) ->
  (forall c o', P c -> tab c !! ob_key o = None -> stored o o' -> R (inl o') (put o' c)) ->
  (forall c o' e, P c -> tab c !! ob_key o = None -> stored o o' -> IsAlreadyExists e = false -> R (inr e) (put o' c)) ->
  (forall c e, P c -> (IsAlreadyExists e = true -> is_Some (tab c !! ob_key o)) -> R (inr e) c) ->
  triple P (k_Create o) R.
Proof.
  intros SP SR Ho He Hn s HP. pose proof (law_create o s) as Hl. destruct (k_Create o s) as [[o' | e] s']; simpl in *.
  - eapply did_elim; [done | done | done | exact Hl | naive_solver].
  - eapply did_elim; [done | done | done | exact Hl |]. intros c c' Hc.
    destruct (IsAlreadyExists e) eqn:Ha; [intros [-> ?]; by apply Hn | intros [-> | (o' & ? & ? & ->)]; [apply Hn; [done | by rw Ha] | by apply He]].
Qed.

Lemma triple_create (o : object B S) P (R : object B S + api_error -> C -> Prop) :
  Stable P -> (forall r, Stable (R r)) ->
  (forall c o', P c -> tab c !! ob_key o = None -> stored o o' -> R (inl o') (put o' c)) ->
  (forall c o' e, P c -> tab c !! ob_key o = None -> stored o o' -> R (inr e) (put o' c)) ->
  (forall c e, P c -> R (inr e) c) ->
  triple P (k_Create o) R.
Proof. intros. apply triple_create_known; auto. Qed.

Lemma triple_patch (before after : object B S) P (R : object B S + api_error -> C -> Prop) :
  Stable P -> (forall r, Stable (R r)) ->
  (forall c o o', P c -> tab c !! ob_key after = Some o -> patched (spec_merged (C := C)) before after o o' ->
     R (inl o') (set_tab (<[ob_key after := o']> (tab c)) c) /\
     forall e, R (inr e) (set_tab (<[ob_key after := o']> (tab c)) c)) ->
  (forall c e, P c -> R (inr e) c) ->
  triple P (k_Patch before after) R.
Proof.
  intros SP SR Ho Hn s HP. pose proof (law_patch before after s) as Hl.
  destruct (k_Patch before after s) as [[o' | e] s']; simpl in *; rw /replaced in Hl;
    eapply did_elim; [done | done | done | exact Hl | naive_solver | done | done | done | exact Hl | naive_solver].
Qed.

Lemma triple_patch_status (before after : object B S) P (R : object B S + api_error -> C -> Prop) :
  Stable P -> (forall r, Stable (R r)) ->
  (forall c o o', P c -> tab c !! ob_key after = Some o -> patched_status before after o o' ->
     R (inl o') (set_tab (<[ob_key after := o']> (tab c)) c) /\
     forall e, R (inr e) (set_tab (<[ob_key after := o']> (tab c)) c)) ->
  (forall c e, P c -> R (inr e) c) ->
  triple P (k_PatchStatus before after) R.
Proof.
  intros SP SR Ho Hn s HP. pose proof (law_patch_status before after s) as Hl.
  destruct (k_PatchStatus before after s) as [[o' | e] s']; simpl in *; rw /replaced in Hl;
    eapply did_elim; [done | done | done | exact Hl | naive_solver | done | done | done | exact Hl | naive_solver].
Qed.

Lemma triple_delete (o : object B S) P (R : unit + api_error -> C -> Prop) :
  Stable P -> (forall r, Stable (R r)) ->
  (forall c r, P c -> R r (set_tab (delete (ob_key o) (tab c)) c)) ->
  (forall c e, P c -> (IsNotFound e = true -> tab c !! ob_key o = None) -> R (inr e) c) ->
  triple P (k_Delete o) R.
Proof.
  intros SP SR Ho He s HP. pose proof (law_delete o s) as Hl.
  destruct (k_Delete o s) as [[[] | e] s']; simpl in *.
  - eapply did_elim; [done | done | done | exact Hl | naive_solver].
  - eapply did_elim; [done | done | done | exact Hl |]. intros c c' Hc.
    destruct (IsNotFound e) eqn:He'; [intros [-> ?]; by apply He | intros [-> | ->]; [apply He; [done |] | by apply Ho]].
    by rw He'.
Qed.

Lemma triple_list `{!CurrentLists (B := B) (S := S) objects rely} namespace labels P (R : list (object B S) + api_error -> C -> Prop) :
  Stable P -> (forall r, Stable (R r)) ->
  (forall c os, P c -> (forall o, o ∈ os <-> tab c !! ob_key o = Some o /\ selected namespace labels o = true) ->
     R (inl os) c) ->
  (forall c e, P c -> R (inr e) c) ->
  triple P (k_List namespace labels) R.
Proof.
  intros SP SR Ho He s HP. pose proof (current_list namespace labels s) as Hl.
  destruct (k_List namespace labels s) as [[os | e] s']; simpl in *.
  - eapply did_elim; [done | done | done | exact Hl |]. intros c c' Hc [-> Hos]. by apply Ho.
  - eapply did_elim; [done | done | done | exact Hl |]. intros c c' Hc ->. by apply He.
Qed.
End Calls.

Section CachedCalls.
Context {B S : Type} `{!Kind C B S} `{!CachedReader K B S} (visible : object B S -> bool).

Lemma triple_cached_read `{!CachedLaws visible objects rely} k P (R : object B S + api_error -> C -> Prop) :
  Stable P -> (forall r, Stable (R r)) -> (forall c o, P c -> ob_key o = k -> visible o = true -> R (inl o) c) ->
  (forall c e, P c -> R (inr e) c) -> triple P (r_Get k) R.
Proof.
  intros SP SR Ho He s HP. pose proof (law_cached_get (visible := visible) k s) as Hl. destruct (r_Get k s) as [[o | e] s']; simpl in *.
  - eapply did_elim; [done | done | done | exact Hl |]. intros c c' Hc (-> & ? & ?). by apply Ho.
  - eapply did_elim; [done | done | done | exact Hl |]. intros c c' Hc ->. by apply He.
Qed.

Lemma triple_cached_read_list `{!CachedLaws visible objects rely} namespace labels P (R : list (object B S) + api_error -> C -> Prop) :
  Stable P -> (forall r, Stable (R r)) ->
  (forall c os, P c -> (forall o, o ∈ os -> selected namespace labels o = true /\ visible o = true) -> R (inl os) c) ->
  (forall c e, P c -> R (inr e) c) -> triple P (r_List namespace labels) R.
Proof.
  intros SP SR Ho He s HP. pose proof (law_cached_list (visible := visible) namespace labels s) as Hl.
  destruct (r_List namespace labels s) as [[os | e] s']; simpl in *.
  - eapply did_elim; [done | done | done | exact Hl |]. intros c c' Hc [-> Hos]. by apply Ho.
  - eapply did_elim; [done | done | done | exact Hl |]. intros c c' Hc ->. by apply He.
Qed.

Lemma triple_cached_get `{!CachedLaws visible objects rely} `{!CurrentCache visible objects rely} k P
    (R : object B S + api_error -> C -> Prop) :
  Stable P -> (forall r, Stable (R r)) ->
  (forall c o, P c -> tab c !! k = Some o -> ob_key o = k -> visible o = true -> R (inl o) c) ->
  (forall c e, P c -> R (inr e) c) ->
  triple P (r_Get k) R.
Proof.
  intros SP SR Ho He s HP. pose proof (law_cached_get (visible := visible) k s) as Hl. destruct (r_Get k s) as [[o | e] s'] eqn:Hr; simpl in *.
  - apply current_cached_get in Hr. eapply did_elim; [done | done | done | exact Hr |]. intros c c' Hc (-> & ? & ? & ?). by apply Ho.
  - eapply did_elim; [done | done | done | exact Hl |]. intros c c' Hc ->. by apply He.
Qed.

Lemma triple_cached_list `{!CachedLaws visible objects rely} `{!CurrentCache visible objects rely} namespace labels P
    (R : list (object B S) + api_error -> C -> Prop) :
  Stable P -> (forall r, Stable (R r)) ->
  (forall c os, P c ->
     (forall o, o ∈ os -> tab c !! ob_key o = Some o /\ selected namespace labels o = true /\ visible o = true) -> R (inl os) c) ->
  (forall c e, P c -> R (inr e) c) ->
  triple P (r_List namespace labels) R.
Proof.
  intros SP SR Ho He s HP. pose proof (law_cached_list (visible := visible) namespace labels s) as Hl.
  destruct (r_List namespace labels s) as [[os | e] s'] eqn:Hr; simpl in *.
  - apply current_cached_list in Hr. eapply did_elim; [done | done | done | exact Hr |]. intros c c' Hc [-> Hos]. by apply Ho.
  - eapply did_elim; [done | done | done | exact Hl |]. intros c c' Hc ->. by apply He.
Qed.

Lemma triple_caught_up `{!CachedLaws visible objects rely} `{!CaughtUp visible objects rely} namespace labels P
    (R : list (object B S) + api_error -> C -> Prop) :
  Stable P -> (forall r, Stable (R r)) ->
  (forall c os, P c ->
     (forall o, o ∈ os <-> tab c !! ob_key o = Some o /\ selected namespace labels o = true /\ visible o = true) -> R (inl os) c) ->
  (forall c e, P c -> R (inr e) c) ->
  triple P (r_List namespace labels) R.
Proof.
  intros SP SR Ho He s HP. pose proof (law_cached_list (visible := visible) namespace labels s) as Hl.
  destruct (r_List namespace labels s) as [[os | e] s'] eqn:Hr; simpl in *.
  - apply law_caught_up in Hr. eapply did_elim; [done | done | done | exact Hr |]. intros c c' Hc [-> Hos]. by apply Ho.
  - eapply did_elim; [done | done | done | exact Hl |]. intros c c' Hc ->. by apply He.
Qed.
End CachedCalls.

(** An invariant survives a loop. *)
Lemma triple_each {A} (P : C -> Prop) (f : A -> api K unit) l :
  (forall a, a ∈ l -> triple P (f a) (fun _ => P)) -> triple P (each f l) (fun _ => P).
Proof.
  induction l as [| a l IH]; intros Hf; [by intros s |]. simpl.
  apply (triple_bind _ _ _ (fun _ => P)); [apply Hf; constructor | intros _; apply IH | done].
  intros b Hb. apply Hf. by constructor.
Qed.

(** A loop works off its list: [I] speaks about what is left to do, [E] holds
    when it stops early. *)
Lemma triple_each_rest {A} (I : list A -> C -> Prop) (E : C -> Prop) (f : A -> api K unit) l :
  (forall a rest, triple (I (a :: rest)) (f a) (either unit (I rest) E)) ->
  triple (I l) (each f l) (either unit (I []) E).
Proof.
  intros Hf. induction l as [| a l IH]; [by intros s |]. simpl.
  by apply (triple_bind _ _ _ (either unit (I l) E)).
Qed.
End Triples.
Arguments either {C A}.

(** Without interference everything is stable. *)
#[export] Instance stable_eq {C} (P : C -> Prop) : Stable eq P.
Proof. by intros c c' <-. Qed.

(** An assertion does not look at a table: it is the same after a change. *)
Ltac untouched := intros ? ? HX; exact HX.

(** ** Calls that keep an assertion *)

Section Keeps.
Context {C K : Type} (objects : K -> C) (rely : C -> C -> Prop).

(** [X] holds before and after, whatever the outcome. *)
Definition keeps {A} (X : C -> Prop) (m : api K A) : Prop := triple objects X m (fun _ => X).

Lemma keeps_ret {A} X (a : A) : keeps X (ret a).
Proof. by intros s. Qed.

Lemma keeps_fail {A} X e : keeps (A := A) X (fail e).
Proof. by intros s. Qed.

Lemma keeps_lift {A} X (r : A + api_error) : keeps X (lift r).
Proof. by destruct r; intros s. Qed.

Lemma keeps_bind {A B} X (m : api K A) (f : A -> api K B) : keeps X m -> (forall a, keeps X (f a)) -> keeps X (bind m f).
Proof. intros Hm Hf. by apply (triple_bind objects _ _ _ (fun _ => X)). Qed.

Lemma keeps_try {A} X (m : api K A) : keeps X m -> keeps X (try m).
Proof. intros Hm. by apply triple_try. Qed.

Lemma keeps_wrap {A} X msg (m : api K A) : keeps X m -> keeps X (wrap msg m).
Proof. intros Hm. by apply (triple_wrap objects _ _ _ (fun _ => X)). Qed.

Lemma keeps_lift_bind {A B} X (r : A + api_error) (f : A -> api K B) :
  (forall a, r = inl a -> keeps X (f a)) -> keeps X (bind (lift r) f).
Proof. intros Hf s HX. destruct r as [a | e]; [by apply (Hf a) | done]. Qed.

Lemma keeps_wrap_lift_bind {A B} X msg (r : A + api_error) (f : A -> api K B) :
  (forall a, r = inl a -> keeps X (f a)) -> keeps X (bind (wrap msg (lift r)) f).
Proof. intros Hf s HX. destruct r as [a | e]; [by apply (Hf a) | done]. Qed.

Section OneKind.
Context {B S : Type} `{!Kind C B S} `{!Client K B S} `{!ClientLaws (B := B) (S := S) objects rely}.
Context (X : C -> Prop) `{!Stable rely X}.

Lemma keeps_get (k : key) : keeps X (k_Get k : api K (object B S)).
Proof using All. by apply (triple_read objects rely); try apply _. Qed.

Lemma keeps_list namespace labels : keeps X (k_List namespace labels : api K (list (object B S))).
Proof using All. by apply (triple_read_list objects rely); try apply _. Qed.

Context (HX : forall c (t : gmap key (object B S)), X c -> X (set_tab t c)).

Lemma keeps_create (o : object B S) : keeps X (k_Create o).
Proof using All. apply (triple_create objects rely); [done | by intros _ | | | done]; intros; by apply HX. Qed.

Lemma keeps_patch (before after : object B S) : keeps X (k_Patch before after).
Proof using All. apply (triple_patch objects rely); [done | by intros _ | | done]. intros; split; intros; by apply HX. Qed.

Lemma keeps_patch_status (before after : object B S) : keeps X (k_PatchStatus before after).
Proof using All. apply (triple_patch_status objects rely); [done | by intros _ | | done]. intros; split; intros; by apply HX. Qed.

Lemma keeps_delete (o : object B S) : keeps X (k_Delete o).
Proof using All. apply (triple_delete objects rely); [done | by intros _ | | done]. intros; by apply HX. Qed.
End OneKind.

Lemma keeps_each {A} (X : C -> Prop) (f : A -> api K unit) l : (forall a, a ∈ l -> keeps X (f a)) -> keeps X (each f l).
Proof. apply triple_each. Qed.

Section OneCache.
Context {B S : Type} `{!Kind C B S} `{!CachedReader K B S} (visible : object B S -> bool) `{!CachedLaws visible objects rely}.
Context (X : C -> Prop) `{!Stable rely X}.

Lemma keeps_cached_get (k : key) : keeps X (r_Get k : api K (object B S)).
Proof using All. by apply (triple_cached_read objects rely visible); try apply _. Qed.

Lemma keeps_cached_list namespace labels : keeps X (r_List namespace labels : api K (list (object B S))).
Proof using All. by apply (triple_cached_read_list objects rely visible); try apply _. Qed.
End OneCache.
End Keeps.

(** ** Specs of the operator's own objects *)

Section Specs.
Context {C K : Type} (objects : K -> C) (rely : C -> C -> Prop).
Context {B S : Type} `{!Kind (C) B S} `{!Client K B S} `{!ClientLaws (B := B) (S := S) objects rely}.
Context (mine : key -> Prop) (ok : key -> B -> Prop) (X : C -> Prop) `{!Stable rely X}.

(** Others do not write the specs of objects under our names, and do not create
    any. *)
Definition specs_stay (c c' : C) : Prop :=
  forall dk (d' : object B S), mine dk -> tab c' !! dk = Some d' -> exists d, tab c !! dk = Some d /\ ob_Spec d' = ob_Spec d.

Definition specs_ok (c : C) : Prop := forall dk (d : object B S), mine dk -> tab c !! dk = Some d -> ok dk (ob_Spec d).

Definition spec_is (dk : key) (b : B) (c : C) : Prop :=
  forall d : object B S, mine dk -> tab c !! dk = Some d -> ob_Spec d = b.

Context (Hrely : forall c c', rely c c' -> specs_stay c c').
Context (Htab : forall (t : gmap key (object B S)) c, tab (set_tab t c) = t).
Context (HX : forall c (t : gmap key (object B S)), X c -> X (set_tab t c)).
Context (Hmerge : forall before after cur new : B,
  spec_merged (C := C) before after cur new -> cur = before -> defaulted (C := C) after new).

#[local] Instance stable_specs_ok : Stable rely specs_ok.
Proof using Hrely. intros c c' Hr Hok dk d' Hm Hl. destruct (Hrely _ _ Hr _ _ Hm Hl) as (d & Hd & ->). by apply Hok. Qed.

#[local] Instance stable_spec_is dk b : Stable rely (spec_is dk b).
Proof using Hrely. intros c c' Hr Hok d' Hm Hl. destruct (Hrely _ _ Hr _ _ Hm Hl) as (d & Hd & ->). by apply Hok. Qed.

Lemma specs_ok_set dk (o : object B S) c :
  specs_ok c -> (mine dk -> ok dk (ob_Spec o)) -> specs_ok (set_tab (<[dk := o]> (tab c)) c).
Proof using Htab.
  intros Hok Ho dk' d Hm. rw Htab. destruct (decide (dk = dk')) as [<- | ?]; [rw lookup_insert_eq => [= <-]; by apply Ho |].
  rw lookup_insert_ne //. by apply Hok.
Qed.

(** The rest of an invariant together with the specs. *)
Definition with_specs (c : C) : Prop := X c /\ specs_ok c.
Local Notation I := with_specs.

#[local] Instance stable_with_specs : Stable rely I.
Proof using All. apply _. Qed.

(** A patch to a spec that may be stored, from the one that is there. *)
Lemma patch_ok (cur after : object B S) :
  ob_key after = ob_key cur -> (forall b', defaulted (C := C) (ob_Spec after) b' -> ok (ob_key cur) b') ->
  triple objects (fun c => I c /\ spec_is (ob_key cur) (ob_Spec cur) c) (k_Patch cur after) (fun _ => I).
Proof using All.
  intros Hk Hd. apply (triple_patch objects rely); [apply _ | apply _ | | by intros c e' [? _]]. rw Hk.
  intros c o o' [[HXc Hok] His] Ho Hp. assert (I (set_tab (<[ob_key cur := o']> (tab c)) c)) as HI; [| by split].
  split; [by apply HX |]. apply specs_ok_set; [done |]. intros Hm.
  destruct Hp as (_ & _ & _ & _ & _ & _ & _ & Hmg). apply Hd. eapply Hmerge; [exact Hmg | by apply His].
Qed.

Lemma create_ok (desired : object B S) :
  (forall b', defaulted (C := C) (ob_Spec desired) b' -> ok (ob_key desired) b') ->
  triple objects I (k_Create desired) (fun _ => I).
Proof using All.
  intros Hd. assert (forall c o', I c -> stored desired o' -> I (put o' c)) as Hput.
  { intros c o' [HXc Hok] (Hobj & _ & Hdef & _). split; [by apply HX |]. apply specs_ok_set; [done | intros _].
    assert (ob_key o' = ob_key desired) as -> by (rw /ob_key /ob_Name /ob_Namespace Hobj //). by apply Hd. }
  by apply (triple_create objects rely); [apply _ | apply _ | intros; apply Hput | intros; apply Hput |].
Qed.

Lemma delete_ok (o : object B S) : triple objects I (k_Delete o) (fun _ => I).
Proof using All.
  apply (triple_delete objects rely); [apply _ | apply _ | | done]. intros c _ [HXc Hok]. split; [by apply HX |].
  intros dk d Hm. rw Htab. intros [_ Hl]%lookup_delete_Some. by apply Hok.
Qed.

(** What a read tells about the spec until the next write. *)
Definition read_spec (k : key) (r : object B S + api_error) (c : C) : Prop :=
  I c /\ forall cur, r = inl cur -> ob_key cur = k /\ spec_is (ob_key cur) (ob_Spec cur) c.

#[local] Instance stable_read_spec k r : Stable rely (read_spec k r).
Proof using All.
  intros c c' Hr [HI Hs]. split; [by eapply stable_with_specs | intros cur Heq].
  destruct (Hs cur Heq) as [Hk Hsp]. split; [done |]. by eapply stable_spec_is.
Qed.

Lemma read_specs k c (o : object B S) : I c -> tab c !! k = Some o -> ob_key o = k -> read_spec k (inl o) c.
Proof using All. intros HI Ho Hk. split; [done |]. intros cur [= <-]. split; [done |]. rw Hk. intros d _ Hd'. by simplify_eq. Qed.

Lemma get_ok `{!CurrentGets (B := B) (S := S) objects rely} k : triple objects I (k_Get k : api K (object B S)) (read_spec k).
Proof using All. apply (triple_get objects rely); [apply _ | apply _ | apply read_specs | by intros; split]. Qed.

Lemma cached_get_ok visible `{!CachedReader K B S} `{!CachedLaws (B := B) (S := S) visible objects rely}
    `{!CurrentCache (B := B) (S := S) visible objects rely} k :
  triple objects I (r_Get k : api K (object B S)) (read_spec k).
Proof using All. apply (triple_cached_get objects rely visible); [apply _ | apply _ | | by intros; split]. intros. by apply read_specs. Qed.

(** Go on from a read. *)
Lemma triple_read_spec {A} k (cur : object B S) (m : api K A) :
  (ob_key cur = k -> triple objects (fun c => I c /\ spec_is (ob_key cur) (ob_Spec cur) c) m (fun _ => I)) ->
  triple objects (read_spec k (inl cur)) m (fun _ => I).
Proof. intros Hm s [HI Hs]. destruct (Hs cur eq_refl) as [Hk Hsp]. by apply Hm. Qed.

Lemma triple_not_read {A} k e (m : api K A) :
  triple objects I m (fun _ => I) -> triple objects (read_spec k (inr e)) m (fun _ => I).
Proof. intros Hm s [HI _]. by apply Hm. Qed.
End Specs.

(** ** Controllers

    Passes of a controller at any times, with anything others may do between
    and, through the laws of the client, during them. *)
Inductive controller_step {C K A : Type} (objects : K -> C) (rely : C -> C -> Prop) (pass : Z -> api K A) : K -> K -> Prop :=
| step_pass now s : controller_step objects rely pass s (pass now s).2
| step_others s s' : rely (objects s) (objects s') -> controller_step objects rely pass s s'.

(** An assertion that passes and others keep holds along every run. *)
Lemma controller_invariant {C K A : Type} (objects : K -> C) (rely : C -> C -> Prop) (pass : Z -> api K A) (P : C -> Prop) s s' :
  (forall now, triple objects P (pass now) (fun _ => P)) -> Stable rely P ->
  rtc (controller_step objects rely pass) s s' -> P (objects s) -> P (objects s').
Proof.
  intros Hpass Hst. induction 1 as [| s1 s2 s3 Hstep _ IH]; [done |]. intros HP. apply IH.
  destruct Hstep as [now s | s s2 Ho]; [by apply (Hpass now) | by eapply Hst].
Qed.
