(* ===== verification/OperatorTypes.v ===== *)
(** * Compute operator: objects

    The statuses the operator writes, the batch/v1 Job it creates, and the
    cluster they live in ([compute-operator/internal/mlrun],
    [apis/mlrun/v1alpha1]).  JSON texts inside a spec are decoded by the
    functions of [Decoders]; what the operator uses of apimachinery is the
    class [Machinery]. *)

From Stdlib Require Import ssreflect ZArith Ascii String.
From stdpp Require Import base gmap list strings.
From S2P Require Import Prelude Placement ApiTypes Names Strconv Listing Kube.

Open Scope string_scope.

(** ** Labels *)

Definition LabelRole : string := "compute.axisml.io/role".
Definition LabelSchedulerQuota : string := "scheduling.axisml.io/quota".
Definition AnnotationAppliedSpec : string := "compute.axisml.io/applied-spec".
Definition SchedulerName : string := "axisml-scheduler".
Definition DefaultRoleName : string := "worker".
Definition ContainerName : string := "main".

(** ** Status of an MLRun *)

#[export] Instance MLRunPhase_eq_dec : EqDecision MLRunPhase.
Proof. solve_decision. Defined.

(** [metav1.Condition]; no time is the zero time. *)
Record MetaCondition := {
  mc_Type : string;
  mc_Status : string;
  mc_ObservedGeneration : Z;
  mc_LastTransitionTime : option Z;
  mc_Reason : string;
  mc_Message : string }.

#[export] Instance MetaCondition_eq_dec : EqDecision MetaCondition.
Proof. solve_decision. Defined.

(** [RoleStatus] *)
Record RoleStatus := {
  rl_Name : string;
  rl_Replicas : Z;
  rl_ActiveReplicas : Z;
  rl_ReadyReplicas : Z;
  rl_SucceededReplicas : Z;
  rl_FailedReplicas : Z }.

#[export] Instance RoleStatus_eq_dec : EqDecision RoleStatus.
Proof. solve_decision. Defined.

(** [MLRunStatus] *)
Record RunStatus := {
  st_ObservedGeneration : Z;
  st_Phase : MLRunPhase;
  st_Message : string;
  st_StartedAt : option Z;
  st_FinishedAt : option Z;
  st_Conditions : list MetaCondition;
  st_Roles : list RoleStatus }.

#[export] Instance RunStatus_eq_dec : EqDecision RunStatus.
Proof. solve_decision. Defined.

Definition RunStatus_zero : RunStatus :=
  {| st_ObservedGeneration := 0; st_Phase := MLRunPhaseUnset; st_Message := ""; st_StartedAt := None;
     st_FinishedAt := None; st_Conditions := []; st_Roles := [] |}.

(** What compute-service reads of the status. *)
Definition observed_status (st : RunStatus) : MLRunCRStatus :=
  {| rcs_Phase := st_Phase st; rcs_Message := st_Message st; rcs_StartedAt := st_StartedAt st;
     rcs_FinishedAt := st_FinishedAt st;
     rcs_Conditions := map (fun c => {| co_Type := mc_Type c; co_Status := mc_Status c; co_Reason := mc_Reason c |})
                         (st_Conditions st) |}.

(** ** Jobs *)

(** [corev1.ContainerPort] *)
Record ContainerPort := { cp_Name : string; cp_ContainerPort : Z; cp_Protocol : string }.

#[export] Instance ContainerPort_eq_dec : EqDecision ContainerPort.
Proof. solve_decision. Defined.

(** [corev1.Container] as the handlers fill it. *)
Record Container {Q : Type} := {
  ct_Name : string;
  ct_Image : string;
  ct_ImagePullPolicy : string;
  ct_Command : list string;
  ct_Args : list string;
  ct_Env : list RawJSON;
  ct_EnvFrom : list RawJSON;
  ct_WorkingDir : string;
  ct_Resources : ResourceRequirements Q;
  ct_VolumeMounts : list RawJSON;
  ct_Ports : list ContainerPort }.
Arguments Container : clear implicits.

(** [corev1.PodTemplateSpec] *)
Record PodTemplateSpec {Q : Type} := {
  pts_Labels : gmap string string;
  pts_RestartPolicy : string;
  pts_Volumes : list RawJSON;
  pts_Containers : list (Container Q);
  pts_SchedulerName : string;
  pts_PriorityClassName : string;
  pts_NodeSelector : gmap string string;
  pts_Tolerations : list Toleration }.
Arguments PodTemplateSpec : clear implicits.

(** [batchv1.JobSpec] *)
Record JobSpec {Q : Type} := {
  js_Parallelism : option Z;
  js_Completions : option Z;
  js_Template : PodTemplateSpec Q;
  js_ActiveDeadlineSeconds : option Z;
  js_TTLSecondsAfterFinished : option Z;
  js_BackoffLimit : option Z;
  js_CompletionMode : option string;
  js_PodFailurePolicy : option RawJSON;
  js_Suspend : option bool }.
Arguments JobSpec : clear implicits.

(** [batchv1.JobCondition] *)
Record JobCondition := {
  jc_Type : string; jc_Status : string; jc_Message : string; jc_LastTransitionTime : Z }.

(** [batchv1.JobStatus] *)
Record JobStatus := {
  jo_Active : Z;
  jo_Succeeded : Z;
  jo_Failed : Z;
  jo_StartTime : option Z;
  jo_CompletionTime : option Z;
  jo_Conditions : list JobCondition }.

Definition JobStatus_zero : JobStatus :=
  {| jo_Active := 0; jo_Succeeded := 0; jo_Failed := 0; jo_StartTime := None; jo_CompletionTime := None;
     jo_Conditions := [] |}.

Definition set_suspend {Q} (b : option bool) (j : JobSpec Q) : JobSpec Q :=
  {| js_Parallelism := js_Parallelism j; js_Completions := js_Completions j; js_Template := js_Template j;
     js_ActiveDeadlineSeconds := js_ActiveDeadlineSeconds j;
     js_TTLSecondsAfterFinished := js_TTLSecondsAfterFinished j; js_BackoffLimit := js_BackoffLimit j;
     js_CompletionMode := js_CompletionMode j; js_PodFailurePolicy := js_PodFailurePolicy j; js_Suspend := b |}.

(** ** The cluster *)

Abbreviation Run Q := (object (MLRunSpec Q) RunStatus) (only parsing).
Abbreviation Job Q := (object (JobSpec Q) JobStatus) (only parsing).
(** A ConfigMap is its [Data]. *)
Abbreviation ConfigMapObject := (object (gmap string string) unit) (only parsing).

Record cluster {Q : Type} := {
  cl_Runs : gmap key (Run Q);
  cl_Jobs : gmap key (Job Q);
  cl_ConfigMaps : gmap key ConfigMapObject }.
Arguments cluster : clear implicits.

#[export] Instance run_kind Q : Kind (cluster Q) (MLRunSpec Q) RunStatus := {|
  tab := cl_Runs;
  set_tab t c := {| cl_Runs := t; cl_Jobs := cl_Jobs c; cl_ConfigMaps := cl_ConfigMaps c |};
  zero_status := RunStatus_zero;
  defaulted _ _ := True;
  spec_merged before after cur new := cur = before -> new = after |}.

(** A value that was set is stored. *)
Definition kept {A} (sent stored : option A) : Prop := forall a, sent = Some a -> stored = Some a.

(** [t'] makes the pods of [t]: defaulting fills unset fields and adds labels. *)
Definition pods_as {Q} (t t' : PodTemplateSpec Q) : Prop :=
  pts_Labels t ⊆ pts_Labels t' /\ pts_SchedulerName t' = pts_SchedulerName t /\
  Forall2 (fun c c' => ct_Name c' = ct_Name c /\ ct_Image c' = ct_Image c /\
    rq_Requests (ct_Resources c) ⊆ rq_Requests (ct_Resources c')) (pts_Containers t) (pts_Containers t').

Lemma pods_as_refl {Q} (t : PodTemplateSpec Q) : pods_as t t.
Proof. split_and!; [done | done | by apply Forall_Forall2_diag, Forall_true]. Qed.

(** [b'] runs the pods of [b]. *)
Definition runs_as {Q} (b b' : JobSpec Q) : Prop :=
  kept (js_Parallelism b) (js_Parallelism b') /\ kept (js_Completions b) (js_Completions b') /\
  pods_as (js_Template b) (js_Template b').

(** The parts of a Job that cannot be edited. *)
Definition same_pods {Q} (b b' : JobSpec Q) : Prop :=
  js_Template b' = js_Template b /\ js_Parallelism b' = js_Parallelism b /\ js_Completions b' = js_Completions b.

#[export] Instance job_kind Q : Kind (cluster Q) (JobSpec Q) JobStatus := {|
  tab := cl_Jobs;
  set_tab t c := {| cl_Runs := cl_Runs c; cl_Jobs := t; cl_ConfigMaps := cl_ConfigMaps c |};
  zero_status := JobStatus_zero;
  defaulted b b' := runs_as b b' /\ kept (js_Suspend b) (js_Suspend b');
  spec_merged before after cur new :=
    (js_Template before = js_Template after -> js_Parallelism before = js_Parallelism after ->
     js_Completions before = js_Completions after -> same_pods cur new) /\ (cur = before -> new = after) |}.

#[export] Instance configmap_kind Q : Kind (cluster Q) (gmap string string) unit := {|
  tab := cl_ConfigMaps;
  set_tab t c := {| cl_Runs := cl_Runs c; cl_Jobs := cl_Jobs c; cl_ConfigMaps := t |};
  zero_status := tt;
  defaulted := eq;
  spec_merged before after cur new := cur = before -> new = after |}.

(** The client of the operator: the three kinds over one cluster. *)
Class OperatorClient (Q K : Type) := {
  oc_runs :: Client K (MLRunSpec Q) RunStatus;
  oc_jobs :: Client K (JobSpec Q) JobStatus;
  oc_configmaps :: Client K (gmap string string) unit }.

Class OperatorLaws {Q K : Type} `{!OperatorClient Q K} (objects : K -> cluster Q)
    (rely : cluster Q -> cluster Q -> Prop) := {
  ol_runs :: ClientLaws (B := MLRunSpec Q) (S := RunStatus) objects rely;
  ol_jobs :: ClientLaws (B := JobSpec Q) (S := JobStatus) objects rely;
  ol_configmaps :: ClientLaws (B := gmap string string) (S := unit) objects rely }.

(** The operator's cache has caught up with the cluster whenever it is read. *)
Class OperatorCurrent {Q K : Type} `{!OperatorClient Q K} (objects : K -> cluster Q)
    (rely : cluster Q -> cluster Q -> Prop) := {
  on_runs :: CurrentReads (B := MLRunSpec Q) (S := RunStatus) objects rely;
  on_jobs :: CurrentReads (B := JobSpec Q) (S := JobStatus) objects rely;
  on_configmaps :: CurrentReads (B := gmap string string) (S := unit) objects rely }.

(** ** Code outside the repository *)

(** The field errors of [k8s.io/apimachinery/pkg/util/validation/field]. *)
Inductive ErrorType := ErrorRequired | ErrorInvalid | ErrorNotSupported | ErrorDuplicate.

Record FieldError := { fe_Type : ErrorType; fe_Field : string; fe_Value : string; fe_Detail : string }.

Definition field_required (path detail : string) : FieldError :=
  {| fe_Type := ErrorRequired; fe_Field := path; fe_Value := ""; fe_Detail := detail |}.
Definition field_invalid (path value detail : string) : FieldError :=
  {| fe_Type := ErrorInvalid; fe_Field := path; fe_Value := value; fe_Detail := detail |}.
Definition field_not_supported (path value : string) (allowed : list string) : FieldError :=
  {| fe_Type := ErrorNotSupported; fe_Field := path; fe_Value := value;
     fe_Detail := "supported values: " ++ Join allowed ", " |}.
Definition field_duplicate (path value : string) : FieldError :=
  {| fe_Type := ErrorDuplicate; fe_Field := path; fe_Value := value; fe_Detail := "" |}.

(** What [spec.backend.config] of a run decodes to ([backendConfig]). *)
Record backendConfig := { bc_CompletionMode : string; bc_PodFailurePolicy : option RawJSON }.

(** Decoding of the JSON texts inside a spec: the names of volumes and mounts,
    a ConfigMap, the backend configuration (unknown fields are errors), and
    the hash of a marshalled spec. *)
Record Decoders {Q : Type} := {
  volume_name : RawJSON -> string;
  mount_name : RawJSON -> string;
  configmap_of : RawJSON -> ConfigMap;
  decode_config : RawJSON -> backendConfig + api_error;
  marshal_spec : MLRunSpec Q -> string + string;
  sha256_hex : string -> string }.
Arguments Decoders : clear implicits.

Definition condition (t : string) (conds : list MetaCondition) : option MetaCondition :=
  List.find (fun c => String.eqb (mc_Type c) t) conds.

(** What the operator uses of apimachinery, with its documentation. *)
Class Machinery := {
  (** what is wrong with a name; the text of several field errors *)
  dns1123_subdomain : string -> list string;
  config_map_key : string -> list string;
  aggregate : list FieldError -> string;
  (** [meta.SetStatusCondition] at a time: updates the condition of this type,
      or appends it; a condition that says the same stays as it is *)
  SetStatusCondition : Z -> list MetaCondition -> MetaCondition -> list MetaCondition;
  set_condition_same now conds c : exists c',
    condition (mc_Type c) (SetStatusCondition now conds c) = Some c' /\
    mc_Status c' = mc_Status c /\ mc_Reason c' = mc_Reason c /\ mc_Message c' = mc_Message c;
  set_condition_other now conds c t : t <> mc_Type c ->
    condition t (SetStatusCondition now conds c) = condition t conds;
  set_condition_again now conds c c' : condition (mc_Type c) conds = Some c' -> mc_LastTransitionTime c = None ->
    mc_Status c' = mc_Status c -> mc_Reason c' = mc_Reason c -> mc_Message c' = mc_Message c ->
    mc_ObservedGeneration c' = mc_ObservedGeneration c -> SetStatusCondition now conds c = conds;
  (** [equality.Semantic.DeepEqual] on statuses and on string maps *)
  status_equal : RunStatus -> RunStatus -> bool;
  status_equal_spec a b : status_equal a b = true <-> a = b;
  map_equal : gmap string string -> gmap string string -> bool;
  map_equal_spec a b : map_equal a b = true <-> a = b;
  (** [metav1.NewControllerRef], [GetControllerOf] and [IsControlledBy] *)
  NewControllerRef : string -> string -> Meta -> OwnerReference;
  new_ref_controller version kind m : ow_Controller (NewControllerRef version kind m) = true;
  new_ref_uid version kind m : ow_UID (NewControllerRef version kind m) = me_UID m;
  GetControllerOf : list OwnerReference -> option OwnerReference;
  controller_some refs r : GetControllerOf refs = Some r -> r ∈ refs /\ ow_Controller r = true;
  controller_one r : ow_Controller r = true -> GetControllerOf [r] = Some r }.

(** [metav1.IsControlledBy] *)
Definition controlled_by `{Machinery} (uid : string) (refs : list OwnerReference) : bool :=
  match GetControllerOf refs with Some r => String.eqb (ow_UID r) uid | None => false end.
