(* ===== verification/OperatorConfig.v ===== *)
(** * Compute operator: workload ConfigMaps

    [compute-operator/internal/workloadconfig/configmap.go]: the ConfigMaps a
    run or service declares are created, corrected when they drift, and
    removed when they are no longer declared, as long as the workload controls
    them. *)

From Stdlib Require Import ssreflect ZArith Ascii String.
From stdpp Require Import base gmap list strings.
From S2P Require Import Prelude ApiTypes Names Strconv Listing Kube OperatorTypes.

Open Scope string_scope.
Open Scope list_scope.

Definition LabelManagedConfig : string := "compute.axisml.io/managed-configmap".
Definition LabelOwnerUID : string := "compute.axisml.io/config-owner-uid".
Definition ManagedValue : string := "true".

(** [path.Index(i)] *)
Definition index_path (path : string) (i : nat) : string :=
  path +:+ "[" +:+ string_of_list_ascii (Itoa (Z.of_nat i)) +:+ "]".

(** [IsOwnershipConflict] *)
Fixpoint IsOwnershipConflict (e : api_error) : bool :=
  match e with OwnershipConflictError _ _ _ _ => true | Wrapped _ cause => IsOwnershipConflict cause | _ => false end.

Section Config.
Context {K : Type} `{!Client K (gmap string string) unit} `{!Machinery}.

(** The name checks of one ConfigMap; [seen] are the names before it. *)
Definition validate_name (seen : gset string) (itemPath name : string) : list FieldError :=
  if String.eqb name "" then [field_required (itemPath +:+ ".name") "name is required"]
  else map (field_invalid (itemPath +:+ ".name") name) (dns1123_subdomain name) ++
    (if decide (name ∈ seen) then [field_duplicate (itemPath +:+ ".name") name] else []).

(** The loop of [Validate] *)
Fixpoint validate_from (path : string) (i : nat) (seen : gset string) (configMaps : list ConfigMap)
    : list FieldError :=
  match configMaps with
  | [] => []
  | cm :: rest =>
      let itemPath := index_path path i in
      validate_name seen itemPath (cm_Name cm) ++
      concat (map (fun k => map (field_invalid (itemPath +:+ ".data[" +:+ k +:+ "]") k) (config_map_key k))
                (map fst (map_to_list (cm_Data cm)))) ++
      validate_from path (S i) (if String.eqb (cm_Name cm) "" then seen else {[cm_Name cm]} ∪ seen) rest
  end.

(** [Validate] *)
Definition Validate (configMaps : list ConfigMap) (path : string) : list FieldError :=
  validate_from path 0 ∅ configMaps.

Context {B S : Type}.
Implicit Types owner : object B S.

(** [managedLabels] *)
Definition managedLabels owner (extra : gmap string string) : gmap string string :=
  filter (fun kv => kv.2 <> "") extra ∪
  <[LabelOwnerUID := ob_UID owner]> {[LabelManagedConfig := ManagedValue]}.

Definition configmap_text (what : string) (k : key) : string :=
  what +:+ " workload ConfigMap " +:+ k.1 +:+ "/" +:+ k.2.

(** The ConfigMap [upsert] creates. *)
Definition desired_configmap owner (ownerGVK : string * string) (spec : ConfigMap) (extra : gmap string string)
    : ConfigMapObject :=
  {| ob_Meta :=
       {| me_Obj := {| om_Name := cm_Name spec; om_Namespace := ob_Namespace owner;
                       om_Labels := managedLabels owner extra; om_Annotations := ∅ |};
          me_UID := ""; me_Generation := 0;
          me_Owners := [NewControllerRef ownerGVK.1 ownerGVK.2 (ob_Meta owner)] |};
     ob_Spec := cm_Data spec; ob_Status := tt |}.

(** [upsert]; the GVK is the API version and the kind. *)
Definition upsert owner (ownerGVK : string * string) (extra : gmap string string) (spec : ConfigMap) : api K unit :=
  let k := (ob_Namespace owner, cm_Name spec) in
  (let* r := try (k_Get k : api K ConfigMapObject) in
   match r with
   | inr e =>
       if IsNotFound e then
         let* _ := wrap (configmap_text "create" k) (k_Create (desired_configmap owner ownerGVK spec extra)) in ret tt
       else fail (Wrapped (configmap_text "get" k) e)
   | inl current =>
       if controlled_by (ob_UID owner) (ob_Owners current) then
         let next := set_labels (managedLabels owner extra ∪ ob_Labels current) (set_spec (cm_Data spec) current) in
         if map_equal (ob_Spec current) (ob_Spec next) && map_equal (ob_Labels current) (ob_Labels next) then ret tt
         else let* _ := wrap (configmap_text "patch" k) (k_Patch current next) in ret tt
       else fail (OwnershipConflictError k.1 k.2 ownerGVK.2 (ob_Name owner))
   end)%api.

(** The loop body of [deleteObsolete] *)
Definition delete_one owner (desiredNames : gset string) (cm : ConfigMapObject) : api K unit :=
  if decide (ob_Name cm ∈ desiredNames) then ret tt
  else if negb (controlled_by (ob_UID owner) (ob_Owners cm)) then ret tt
  else (let* r := try (k_Delete cm) in
        match r with
        | inl _ => ret tt
        | inr e => if IsNotFound e then ret tt
                   else fail (Wrapped ("delete obsolete workload ConfigMap " +:+ ob_Namespace cm +:+ "/" +:+ ob_Name cm) e)
        end)%api.

(** [deleteObsolete] *)
Definition deleteObsolete owner (desiredNames : gset string) : api K unit :=
  (let* items := wrap "list workload ConfigMaps"
     (k_List (ob_Namespace owner) (<[LabelOwnerUID := ob_UID owner]> {[LabelManagedConfig := ManagedValue]})) in
   each (delete_one owner desiredNames) items)%api.

(** [Reconcile] *)
Definition Reconcile owner (ownerGVK : string * string) (configMaps : list ConfigMap) (extra : gmap string string)
    : api K unit :=
  (let* _ := each (upsert owner ownerGVK extra) configMaps in
   deleteObsolete owner (list_to_set (map cm_Name configMaps)))%api.
End Config.

(** ** ConfigMap calls *)

(** An assertion that does not look at ConfigMaps survives their upkeep. *)
Section ConfigCalls.
Context {C K : Type} `{!Kind C (gmap string string) unit} `{!Client K (gmap string string) unit} `{!Machinery}.
Context (objects : K -> C) (rely : C -> C -> Prop) `{!ClientLaws (B := gmap string string) (S := unit) objects rely}.
Context {B S : Type} (owner : object B S) (X : C -> Prop) `{!Stable rely X}.
Context (HX : forall c (t : gmap key ConfigMapObject), X c -> X (set_tab t c)).

Lemma upsert_keeps gvk extra spec : triple objects X (upsert owner gvk extra spec) (fun _ => X).
Proof using All.
  rw /upsert. apply (triple_bind objects _ _ _ (fun _ => X)); [| intros [cm | e] | done].
  - apply triple_try, (triple_read objects rely); by try apply _.
  - repeat case_match; try by intros s.
    apply (triple_bind objects _ _ _ (fun _ => X)); [| by intros ? s | done].
    apply (triple_wrap objects _ _ _ (fun _ => X)); [| done | done].
    apply (triple_patch objects rely); [done | by intros _ | | done]. intros c o o' Hc _ _. split; [| intros _]; by apply HX.
  - case_match; [| by intros s]. apply (triple_bind objects _ _ _ (fun _ => X)); [| by intros ? s | done].
    apply (triple_wrap objects _ _ _ (fun _ => X)); [| done | done].
    apply (triple_create objects rely); [done | by intros _ | | | done]; intros; by apply HX.
Qed.

Lemma config_keeps gvk configMaps extra :
  triple objects X (Reconcile owner gvk configMaps extra) (fun _ => X).
Proof using All.
  rw /Reconcile. apply (triple_bind objects _ _ _ (fun _ => X)); [| intros _ | done].
  { apply (triple_each objects X). intros cm _. apply upsert_keeps. }
  rw /deleteObsolete. apply (triple_bind objects _ _ _ (fun _ => X)); [| intros os | done].
  - apply (triple_wrap objects _ _ _ (fun _ => X)); [| done | done]. by apply (triple_read_list objects rely); try apply _.
  - apply (triple_each objects X). intros cm _. rw /delete_one. repeat case_match; try by intros s.
    apply (triple_bind objects _ _ _ (fun _ => X)); [| intros [|]; repeat case_match; by intros s | done].
    apply triple_try, (triple_delete objects rely); [done | by intros _ | | done]. intros; by apply HX.
Qed.
End ConfigCalls.
