(* ===== verification/OperatorRun.v ===== *)
(** * Compute operator: MLRun

    [compute-operator/internal/mlrun]: the handler interface, the dispatcher
    (registry, status merge, spec fingerprint, Reconcile) and the (native, job)
    handler.  The dispatcher is the only writer of an MLRun's status. *)

From Stdlib Require Import ssreflect ZArith Ascii String.
From stdpp Require Import base gmap list strings.
From S2P Require Import Prelude Placement ApiTypes Names Strconv Listing Kube OperatorTypes OperatorConfig.

Open Scope string_scope.
Open Scope list_scope.

(** ** The handler interface *)

(** [MapStatusResult]; [Roles] may be nil. *)
Record MapStatusResult := {
  mp_Phase : MLRunPhase;
  mp_Message : string;
  mp_StartedAt : option Z;
  mp_FinishedAt : option Z;
  mp_Conditions : list MetaCondition;
  mp_Roles : option (list RoleStatus) }.

(** A result with a phase and a message only. *)
Definition phase_result (phase : MLRunPhase) (message : string) : MapStatusResult :=
  {| mp_Phase := phase; mp_Message := message; mp_StartedAt := None; mp_FinishedAt := None;
     mp_Conditions := []; mp_Roles := None |}.

(** [ReconcileResult] *)
Record ReconcileResult := {
  rr_SuspendCompleted : bool;
  rr_SuspendReason : string;
  rr_Warnings : list string;
  rr_RequeueAfterSeconds : Z }.

Definition ReconcileResult_zero : ReconcileResult :=
  {| rr_SuspendCompleted := false; rr_SuspendReason := ""; rr_Warnings := []; rr_RequeueAfterSeconds := 0 |}.

(** The [any] a handler passes from Reconcile to MapStatus, when not nil. *)
Inductive underlying {Q : Type} := UnderlyingJob (job : Job Q) | UnderlyingOther.
Arguments underlying : clear implicits.

(** [Handler], with the optional [Sweeper]. *)
Record Handler {Q K : Type} := {
  h_Key : string * string;
  h_Validate : Run Q -> list FieldError;
  h_Reconcile : Run Q -> api K (option (underlying Q) * ReconcileResult);
  h_MapStatus : option (underlying Q) -> MapStatusResult;
  h_Sweep : option (Run Q -> api K Z) }.
Arguments Handler : clear implicits.

(** [Registry]: handlers by backend and engine. *)
Abbreviation Registry Q K := (gmap (string * string) (Handler Q K)) (only parsing).

(** [Register] panics on a second handler for a key. *)
Definition Register {Q K} (h : Handler Q K) (r : Registry Q K) : Registry Q K + string :=
  match r !! h_Key h with
  | Some _ => inr ("dispatcher: duplicate handler for backend=" +:+ (h_Key h).1 +:+ " engine=" +:+ (h_Key h).2)
  | None => inl (<[h_Key h := h]> r)
  end.

(** [Lookup] *)
Definition Lookup {Q K} (r : Registry Q K) (backend engine : string) : option (Handler Q K) := r !! (backend, engine).

(** ** The status merge *)

(** [isTerminal] *)
Definition isTerminal (p : MLRunPhase) : bool :=
  match p with MLRunPhaseSucceeded | MLRunPhaseFailed => true | _ => false end.

Definition suspended_message : string := "Handler completed suspend; underlying resources paused or torn down".

(** The condition the dispatcher sets when a handler completed a suspend. *)
Definition suspended_condition (reason : string) : MetaCondition :=
  {| mc_Type := ConditionSuspended; mc_Status := "True"; mc_ObservedGeneration := 0; mc_LastTransitionTime := None;
     mc_Reason := if String.eqb reason "" then ReasonCancelRequested else reason; mc_Message := suspended_message |}.

(** The message: the handler's, or the one that is there, and the warnings. *)
Definition merge_message (existing : string) (mapRes : MapStatusResult) (recRes : ReconcileResult) : string :=
  let message := if String.eqb (mp_Message mapRes) "" then existing else mp_Message mapRes in
  match rr_Warnings recRes with
  | [] => message
  | ws => if String.eqb message "" then Join ws "; " else message +:+ " | warnings: " +:+ Join ws "; "
  end.

Section Dispatcher.
Context `{!Machinery}.

(** [mergeStatus] *)
Definition mergeStatus (now : Z) (existing : RunStatus) (mapRes : MapStatusResult) (recRes : ReconcileResult)
    (generation : Z) : RunStatus :=
  let phase := if isTerminal (st_Phase existing) then st_Phase existing else mp_Phase mapRes in
  let conds := foldl (SetStatusCondition now) (st_Conditions existing) (mp_Conditions mapRes) in
  {| st_ObservedGeneration := generation;
     st_Phase := phase;
     st_Message := merge_message (st_Message existing) mapRes recRes;
     st_StartedAt := match mp_StartedAt mapRes, st_StartedAt existing with
                     | Some t, None => Some t
                     | Some t, Some old => if (t <? old)%Z then Some t else Some old
                     | None, old => old
                     end;
     st_FinishedAt := match mp_FinishedAt mapRes with Some t => Some t | None => st_FinishedAt existing end;
     st_Conditions := if rr_SuspendCompleted recRes && negb (isTerminal phase)
                      then SetStatusCondition now conds (suspended_condition (rr_SuspendReason recRes))
                      else conds;
     st_Roles := match mp_Roles mapRes with Some r => r | None => st_Roles existing end |}.

Context {Q K : Type} `{!OperatorClient Q K} (dec : Decoders Q) (now : Z).
Implicit Types mlJob : Run Q.

(** [writeStatus]; returns the object, which the response replaces. *)
Definition writeStatus mlJob (mapRes : MapStatusResult) (recRes : ReconcileResult) : api K (Run Q) :=
  let next := mergeStatus now (ob_Status mlJob) mapRes recRes (ob_Generation mlJob) in
  if status_equal (ob_Status mlJob) next then ret mlJob
  else wrap "patch MLRun status" (k_PatchStatus mlJob (set_status next mlJob)).

(** [RunPolicy.Suspend = false] on a copy *)
Definition without_suspend (spec : MLRunSpec Q) : MLRunSpec Q :=
  {| rsp_Backend := rsp_Backend spec; rsp_Scheduling := rsp_Scheduling spec; rsp_ConfigMaps := rsp_ConfigMaps spec;
     rsp_Roles := rsp_Roles spec;
     rsp_RunPolicy := {| rp_Suspend := false;
       rp_ActiveDeadlineSeconds := rp_ActiveDeadlineSeconds (rsp_RunPolicy spec);
       rp_TTLSecondsAfterFinished := rp_TTLSecondsAfterFinished (rsp_RunPolicy spec);
       rp_BackoffLimit := rp_BackoffLimit (rsp_RunPolicy spec) |} |}.

(** [specFingerprint] *)
Definition specFingerprint mlJob : string :=
  match marshal_spec dec (without_suspend (ob_Spec mlJob)) with
  | inl raw => sha256_hex dec raw
  | inr msg => "marshal-error:" +:+ msg
  end.

(** The anchor [assertSpecImmutable] reads. *)
Definition anchor mlJob : string := map_get "" (ob_Annotations mlJob) AnnotationAppliedSpec.

Definition set_anchor (fp : string) mlJob : Run Q :=
  set_annotations (<[AnnotationAppliedSpec := fp]> (ob_Annotations mlJob)) mlJob.

Definition immutable_message (was attempted : string) : string :=
  "immutable spec fields changed after creation (everything except runPolicy.suspend); fingerprint was '" +:+ was +:+
  "', attempted '" +:+ attempted +:+ "'".

(** [assertSpecImmutable]: the object to go on with, and the error.  A failed
    patch leaves the new annotation on the local object. *)
Definition assertSpecImmutable mlJob : api K (Run Q * option api_error) :=
  let want := specFingerprint mlJob in
  if String.eqb (anchor mlJob) "" then
    (let* r := try (k_Patch mlJob (set_anchor want mlJob)) in
     match r with
     | inl fresh => ret (fresh, None)
     | inr e => ret (set_anchor want mlJob, Some (Wrapped "anchor applied-spec annotation" e))
     end)%api
  else if negb (String.eqb (anchor mlJob) want) then
    ret (mlJob, Some (Errored (immutable_message (anchor mlJob) want)))
  else ret (mlJob, None).

(** [ctrl.Result{RequeueAfter: ...}] in seconds; zero is the empty result. *)
Definition Result : Type := Z.

(** Write Failed with a message and end the pass. *)
Definition fail_run mlJob (message : string) : api K Result :=
  (let* _ := writeStatus mlJob (phase_result MLRunPhaseFailed message) ReconcileResult_zero in ret 0%Z)%api.

(** Report an error that will be retried: the phase stays, or is Pending. *)
Definition retry_run mlJob (message : string) (err : api_error) : api K Result :=
  let phase := match st_Phase (ob_Status mlJob) with MLRunPhaseUnset => MLRunPhasePending | p => p end in
  (let* _ := try (writeStatus mlJob (phase_result phase message) ReconcileResult_zero) in fail err)%api.

(** The part of [Reconcile] for a terminal phase. *)
Definition reconcile_terminal (h : option (Handler Q K)) mlJob : api K Result :=
  (let* mlJob := (if (st_ObservedGeneration (ob_Status mlJob) =? ob_Generation mlJob)%Z then ret mlJob
                  else writeStatus mlJob (phase_result (st_Phase (ob_Status mlJob)) "") ReconcileResult_zero) in
   match h with
   | Some h =>
       match h_Sweep h with
       | Some sweep => let* requeueAfter := sweep mlJob in ret (if (0 <? requeueAfter)%Z then requeueAfter else 0%Z)
       | None => ret 0%Z
       end
   | None => ret 0%Z
   end)%api.

(** The labels of a run's ConfigMaps. *)
Definition config_labels mlJob : gmap string string :=
  <[LabelTenant := map_get "" (ob_Labels mlJob) LabelTenant]>
    {[LabelRunID := map_get "" (ob_Labels mlJob) LabelRunID]}.

Definition run_configmaps mlJob : list ConfigMap := map (configmap_of dec) (rsp_ConfigMaps (ob_Spec mlJob)).

Definition GroupVersion : string := "axisml.io/v1alpha1".

(** The handler's turn: reconcile the underlying resource, map its status. *)
Definition run_handler (h : Handler Q K) mlJob : api K Result :=
  (let* r := try (h_Reconcile h mlJob) in
   match r with
   | inr err => retry_run mlJob ("reconcile error: " +:+ error_text err) err
   | inl (u, recRes) =>
       let* _ := writeStatus mlJob (h_MapStatus h u) recRes in
       ret (if (0 <? rr_RequeueAfterSeconds recRes)%Z then rr_RequeueAfterSeconds recRes else 0%Z)
   end)%api.

(** The ConfigMaps, then the handler. *)
Definition run_config (h : Handler Q K) mlJob : api K Result :=
  (let* r := try (OperatorConfig.Reconcile mlJob (GroupVersion, "MLRun") (run_configmaps mlJob) (config_labels mlJob)) in
   match r with
   | inl _ => run_handler h mlJob
   | inr err =>
       let message := "reconcile ConfigMaps: " +:+ error_text err in
       if IsOwnershipConflict err then fail_run mlJob message else retry_run mlJob message err
   end)%api.

(** The pass over a run that is not terminal; backend and engine are those of
    the read. *)
Definition reconcile_active (backend engine : string) (h : option (Handler Q K)) mlJob : api K Result :=
  (let* checked := assertSpecImmutable mlJob in
   let '(mlJob, err) := checked in
   match err with
   | Some e => fail_run mlJob (error_text e)
   | None =>
       match h with
       | None => fail_run mlJob ("no handler for backend=" +:+ backend +:+ " engine=" +:+ engine)
       | Some h =>
           match h_Validate h mlJob with
           | _ :: _ as errs => fail_run mlJob (aggregate errs)
           | [] =>
               match Validate (run_configmaps mlJob) "spec.configMaps" with
               | _ :: _ as errs => fail_run mlJob (aggregate errs)
               | [] => run_config h mlJob
               end
           end
       end
   end)%api.

(** [Reconcile] *)
Definition Reconcile (registry : Registry Q K) (req : key) : api K Result :=
  (let* r := try (k_Get req : api K (Run Q)) in
   match r with
   | inr e => if IsNotFound e then ret 0%Z else fail e
   | inl mlJob =>
       let backend := be_Name (rsp_Backend (ob_Spec mlJob)) in
       let engine := be_Engine (rsp_Backend (ob_Spec mlJob)) in
       let h := Lookup registry backend engine in
       if isTerminal (st_Phase (ob_Status mlJob)) then reconcile_terminal h mlJob
       else reconcile_active backend engine h mlJob
   end)%api.
End Dispatcher.

(** ** The (native, job) handler *)

Section NativeJob.
Context `{!Machinery} {Q K : Type} `{!OperatorClient Q K} (dec : Decoders Q) (shortHash : bytes -> bytes).
Implicit Types mlJob : Run Q.

Definition BackendName : string := "native".
Definition BackendEngine : string := "job".

(** [jobName] *)
Definition jobName mlJob : string := Role shortHash (me_Obj (ob_Meta mlJob)) DefaultRoleName.

(** [EnsureRequiredCRLabels] *)
Definition EnsureRequiredCRLabels mlJob : list FieldError :=
  let required := [LabelRunID; LabelQuota] in
  if decide (ob_Labels mlJob = ∅) then
    [field_required "metadata.labels" ("missing required labels [" +:+ Join required " " +:+ "] (set by Compute)")]
  else concat (map (fun k =>
    if String.eqb (map_get "" (ob_Labels mlJob) k) "" then
      [field_required ("metadata.labels[" +:+ k +:+ "]") "Compute must set this label before creating the CR"]
    else []) required).

Definition role_path : string := "spec.roles[0]".

(** [decodeConfig] *)
Definition decodeConfig mlJob : option backendConfig + api_error :=
  match be_Config (rsp_Backend (ob_Spec mlJob)) with
  | None => inl None
  | Some raw => if String.eqb raw "" then inl None
                else match decode_config dec raw with
                     | inl cfg => inl (Some cfg)
                     | inr e => inr (Wrapped "decode backend.config" e)
                     end
  end.

(** The checks of [Validate] on the backend configuration. *)
Definition validate_config mlJob : list FieldError :=
  match be_Config (rsp_Backend (ob_Spec mlJob)) with
  | None => []
  | Some raw =>
      if String.eqb raw "" then []
      else match decode_config dec raw with
           | inr e => [field_invalid "spec.backend.config" raw ("invalid backend.config: " +:+ error_text e)]
           | inl cfg =>
               let mode := bc_CompletionMode cfg in
               if bool_decide (mode ∈ [""; "NonIndexed"; "Indexed"]) then []
               else [field_not_supported "spec.backend.config.completionMode" mode ["NonIndexed"; "Indexed"]]
           end
  end.

(** Every mount names a declared volume. *)
Definition validate_mounts (role : RoleSpec Q) : list FieldError :=
  let declared := map (volume_name dec) (pt_Volumes (ro_Template role)) in
  concat (imap (fun i vm =>
    if bool_decide (mount_name dec vm ∈ declared) then []
    else [field_invalid (index_path (role_path +:+ ".template.volumeMounts") i +:+ ".name") (mount_name dec vm)
            "no matching volume declared in template.volumes"]) (pt_VolumeMounts (ro_Template role))).

(** The checks of [Validate] on the only role. *)
Definition validate_role (role : RoleSpec Q) : list FieldError :=
  (if String.eqb (ro_Name role) DefaultRoleName then []
   else [field_invalid (role_path +:+ ".name") (ro_Name role)
           ("(native, job) requires role name '" +:+ DefaultRoleName +:+ "'")]) ++
  (if (ro_Replicas role <? 1)%Z then
     [field_invalid (role_path +:+ ".replicas") (string_of_list_ascii (Itoa (ro_Replicas role))) "must be >= 1"]
   else []) ++
  (if String.eqb (pt_Image (ro_Template role)) "" then
     [field_required (role_path +:+ ".template.image") "image is required"] else []) ++
  (if bool_decide (ro_RestartPolicy role ∈ [""; "OnFailure"; "Never"]) then []
   else [field_not_supported (role_path +:+ ".restartPolicy") (ro_RestartPolicy role) ["OnFailure"; "Never"]]) ++
  validate_mounts role.

(** [Validate] *)
Definition JobValidate mlJob : list FieldError :=
  EnsureRequiredCRLabels mlJob ++
  match rsp_Roles (ob_Spec mlJob) with
  | [role] =>
      validate_role role ++
      (if String.eqb (sc_Quota (rsp_Scheduling (ob_Spec mlJob))) "" then
         [field_required "spec.scheduling.quota" "quota is required"] else []) ++
      validate_config mlJob
  | roles => [field_invalid "spec.roles" (string_of_list_ascii (Itoa (Z.of_nat (length roles))))
                "(native, job) requires exactly one role"]
  end.

(** [BuildContainer] *)
Definition BuildContainer (role : RoleSpec Q) : Container Q :=
  let t := ro_Template role in
  {| ct_Name := ContainerName; ct_Image := pt_Image t; ct_ImagePullPolicy := pt_ImagePullPolicy t;
     ct_Command := pt_Command t; ct_Args := pt_Args t; ct_Env := pt_Env t; ct_EnvFrom := pt_EnvFrom t;
     ct_WorkingDir := pt_WorkingDir t; ct_Resources := pt_Resources t; ct_VolumeMounts := pt_VolumeMounts t;
     ct_Ports := [] |}.

(** [OwnerRef] *)
Definition OwnerRef mlJob : OwnerReference :=
  {| ow_APIVersion := GroupVersion; ow_Kind := "MLRun"; ow_Name := ob_Name mlJob; ow_UID := ob_UID mlJob;
     ow_Controller := true; ow_BlockOwnerDeletion := true |}.

Definition run_text mlJob : string := "MLRun " +:+ ob_Namespace mlJob +:+ "/" +:+ ob_Name mlJob.

(** [InjectAxisMLLabels] *)
Definition InjectAxisMLLabels (tmpl : PodTemplateSpec Q) mlJob (role : RoleSpec Q) (extraLabels : gmap string string)
    : PodTemplateSpec Q + api_error :=
  let label k := map_get "" (ob_Labels mlJob) k in
  let sched := rsp_Scheduling (ob_Spec mlJob) in
  if String.eqb (label LabelRunID) "" then
    inr (Errored (run_text mlJob +:+ " is missing required label " +:+ LabelRunID))
  else if String.eqb (label LabelQuota) "" then
    inr (Errored (run_text mlJob +:+ " is missing required label " +:+ LabelQuota))
  else if String.eqb (sc_Quota sched) "" then inr (Errored (run_text mlJob +:+ " spec.scheduling.quota is empty"))
  else inl
    {| pts_Labels := extraLabels ∪
         <[LabelSchedulerQuota := sc_Quota sched]> (<[LabelRole := ro_Name role]>
           (<[LabelQuota := label LabelQuota]> (<[LabelRunID := label LabelRunID]> (pts_Labels tmpl))));
       pts_RestartPolicy := pts_RestartPolicy tmpl; pts_Volumes := pts_Volumes tmpl;
       pts_Containers := pts_Containers tmpl;
       pts_SchedulerName := SchedulerName; pts_PriorityClassName := sc_PriorityClass sched;
       pts_NodeSelector := sc_NodeSelector sched ∪ pts_NodeSelector tmpl;
       pts_Tolerations := pts_Tolerations tmpl ++ sc_Tolerations sched |}.

(** [defaultRestartPolicy] *)
Definition defaultRestartPolicy (p : string) : string := if String.eqb p "" then "OnFailure" else p.

(** The pod template before its labels. *)
Definition bare_template (role : RoleSpec Q) : PodTemplateSpec Q :=
  {| pts_Labels := ∅; pts_RestartPolicy := defaultRestartPolicy (ro_RestartPolicy role);
     pts_Volumes := pt_Volumes (ro_Template role); pts_Containers := [BuildContainer role];
     pts_SchedulerName := ""; pts_PriorityClassName := ""; pts_NodeSelector := ∅; pts_Tolerations := [] |}.

(** [buildJob] *)
Definition buildJob mlJob : Job Q + api_error :=
  match rsp_Roles (ob_Spec mlJob) with
  | [] => inr (Panicked "index out of range")
  | role :: _ =>
      match decodeConfig mlJob with
      | inr e => inr e
      | inl cfg =>
          match InjectAxisMLLabels (bare_template role) mlJob role ∅ with
          | inr e => inr e
          | inl tmpl =>
              let policy := rsp_RunPolicy (ob_Spec mlJob) in
              inl {| ob_Meta := {| me_Obj := {| om_Name := jobName mlJob; om_Namespace := ob_Namespace mlJob;
                                               om_Labels := pts_Labels tmpl; om_Annotations := ∅ |};
                                   me_UID := ""; me_Generation := 0; me_Owners := [OwnerRef mlJob] |};
                     ob_Spec :=
                       {| js_Parallelism := Some (ro_Replicas role); js_Completions := Some (ro_Replicas role);
                          js_Template := tmpl;
                          js_ActiveDeadlineSeconds := rp_ActiveDeadlineSeconds policy;
                          js_TTLSecondsAfterFinished := rp_TTLSecondsAfterFinished policy;
                          js_BackoffLimit := rp_BackoffLimit policy;
                          js_CompletionMode := match cfg with
                            | Some c => if String.eqb (bc_CompletionMode c) "" then None
                                        else Some (bc_CompletionMode c)
                            | None => None end;
                          js_PodFailurePolicy := match cfg with Some c => bc_PodFailurePolicy c | None => None end;
                          js_Suspend := if rp_Suspend policy then Some true else None |};
                     ob_Status := JobStatus_zero |}
          end
      end
  end.

Definition cancel_completed : ReconcileResult :=
  {| rr_SuspendCompleted := true; rr_SuspendReason := ReasonCancelRequested; rr_Warnings := [];
     rr_RequeueAfterSeconds := 0 |}.

(** [Reconcile] of the handler *)
Definition JobReconcile mlJob : api K (option (underlying Q) * ReconcileResult) :=
  let suspend := rp_Suspend (rsp_RunPolicy (ob_Spec mlJob)) in
  (let* r := try (k_Get (ob_Namespace mlJob, jobName mlJob) : api K (Job Q)) in
   match r with
   | inr e =>
       if IsNotFound e then
         if suspend then ret (None, cancel_completed)
         else match buildJob mlJob with
              | inr err => fail err
              | inl want => let* made := wrap "create Job" (k_Create want) in
                            ret (Some (UnderlyingJob made), ReconcileResult_zero)
              end
       else fail e
   | inl existing =>
       if suspend then
         match js_Suspend (ob_Spec existing) with
         | Some true => ret (Some (UnderlyingJob existing), cancel_completed)
         | _ => let* fresh := wrap "patch Job suspend"
                  (k_Patch existing (set_spec (set_suspend (Some true) (ob_Spec existing)) existing)) in
                ret (Some (UnderlyingJob fresh), cancel_completed)
         end
       else ret (Some (UnderlyingJob existing), ReconcileResult_zero)
   end)%api.

(** [deref32] *)
Definition deref32 (p : option Z) : Z := default 0%Z p.

(** The first condition that ends a Job: [Complete] or [Failed]. *)
Fixpoint job_outcome (conds : list JobCondition) : option (MLRunPhase * JobCondition) :=
  match conds with
  | [] => None
  | c :: rest =>
      if negb (String.eqb (jc_Status c) "True") then job_outcome rest
      else if String.eqb (jc_Type c) "Complete" then Some (MLRunPhaseSucceeded, c)
      else if String.eqb (jc_Type c) "Failed" then Some (MLRunPhaseFailed, c)
      else job_outcome rest
  end.

(** [MapStatus] *)
Definition JobMapStatus (u : option (underlying Q)) : MapStatusResult :=
  match u with
  | None => phase_result MLRunPhasePending ""
  | Some UnderlyingOther => phase_result MLRunPhaseFailed "internal: unexpected underlying type for (native, job)"
  | Some (UnderlyingJob job) =>
      let st := ob_Status job in
      let roles := [{| rl_Name := DefaultRoleName; rl_Replicas := deref32 (js_Parallelism (ob_Spec job));
                       rl_ActiveReplicas := jo_Active st; rl_ReadyReplicas := 0;
                       rl_SucceededReplicas := jo_Succeeded st; rl_FailedReplicas := jo_Failed st |}] in
      match job_outcome (jo_Conditions st) with
      | Some (phase, c) =>
          {| mp_Phase := phase;
             mp_Message := match phase with MLRunPhaseFailed => jc_Message c | _ => "" end;
             mp_StartedAt := jo_StartTime st;
             mp_FinishedAt := match jo_CompletionTime st with Some t => Some t | None => Some (jc_LastTransitionTime c) end;
             mp_Conditions := []; mp_Roles := Some roles |}
      | None =>
          {| mp_Phase := if (0 <? jo_Active st)%Z then MLRunPhaseRunning else MLRunPhasePending;
             mp_Message := ""; mp_StartedAt := jo_StartTime st; mp_FinishedAt := jo_CompletionTime st;
             mp_Conditions := []; mp_Roles := Some roles |}
      end
  end.

(** [nativejob.New()] *)
Definition nativejob : Handler Q K :=
  {| h_Key := (BackendName, BackendEngine); h_Validate := JobValidate; h_Reconcile := JobReconcile;
     h_MapStatus := JobMapStatus; h_Sweep := None |}.
End NativeJob.
