(* ===== verification/OperatorFacts.v ===== *)
(** * Compute operator: facts

    What others may do to a run while the operator works on it, and the
    invariants of the dispatcher under that interference: a finished run stays
    finished, and Jobs are built from the anchored spec. *)

From Stdlib Require Import ssreflect ZArith Ascii String.
From stdpp Require Import base gmap list strings.
From S2P Require Import Prelude Placement ApiTypes Store Names Strconv Listing StatusMap Kube OperatorTypes OperatorConfig OperatorRun.

(** ** Interference *)

(** While the operator works on the run [k], others may edit or delete the run
    but write neither its status nor its anchor, and do not create it again
    within the step; they may do anything to ConfigMaps; they may remove Jobs
    and write their status, and create Jobs under names that are not [mine]. *)
Definition others {Q} (k : key) (mine : key -> Prop) (c c' : cluster Q) : Prop :=
  (forall r', cl_Runs c' !! k = Some r' -> exists r, cl_Runs c !! k = Some r /\ ob_Status r' = ob_Status r /\
     anchor r' = anchor r) /\
  (forall jk j', mine jk -> cl_Jobs c' !! jk = Some j' -> exists j, cl_Jobs c !! jk = Some j /\
     same_pods (ob_Spec j) (ob_Spec j')).

Lemma others_refl {Q} (k : key) (mine : key -> Prop) (c : cluster Q) : others k mine c c.
Proof. split; [by intros r ?; exists r | by intros jk j _ ?; exists j]. Qed.

(** The registry of the operator holds one handler. *)
Lemma only_native {Q K} `{!OperatorClient Q K} (dec : Decoders Q) (shortHash : bytes -> bytes) (registry : Registry Q K)
    backend engine :
  map_Forall (fun _ h => h = nativejob dec shortHash) registry ->
  Lookup registry backend engine = None \/ Lookup registry backend engine = Some (nativejob dec shortHash).
Proof. intros Hreg. destruct (Lookup _ _ _) as [h |] eqn:Hh; [right; f_equal; by apply (Hreg _ _ Hh) | by left]. Qed.

(** The run, if it is there, has this status; or this phase. *)
Definition status_is {Q} (k : key) (st : RunStatus) (c : cluster Q) : Prop :=
  forall r, cl_Runs c !! k = Some r -> ob_Status r = st.

Definition finished {Q} (k : key) (p : MLRunPhase) (c : cluster Q) : Prop :=
  forall r, cl_Runs c !! k = Some r -> st_Phase (ob_Status r) = p.

Definition no_job {Q} (jk : key) (c : cluster Q) : Prop := cl_Jobs c !! jk = None.

Lemma finished_status {Q} k p (c : cluster Q) : finished k p c <-> exists st, st_Phase st = p /\ status_is k st c.
Proof.
  split.
  - intros Hf. destruct (cl_Runs c !! k) as [r |] eqn:Hr.
    + exists (ob_Status r). split; [by apply Hf |]. intros r' Hr'. by simplify_eq.
    + exists {| st_ObservedGeneration := 0; st_Phase := p; st_Message := ""; st_StartedAt := None;
                st_FinishedAt := None; st_Conditions := []; st_Roles := [] |}.
      split; [done |]. intros r' Hr'. by simplify_eq.
  - intros (st & <- & Hst) r Hr. by rw (Hst r Hr).
Qed.

Section Facts.
Context `{!Machinery} {Q K : Type} `{!OperatorClient Q K} (objects : K -> cluster Q).
Context (rely : cluster Q -> cluster Q -> Prop) `{!OperatorLaws objects rely}.
Context (dec : Decoders Q) (now : Z).

(** The status writer: from [P] to [R], through one status patch at most. *)
Lemma writeStatus_triple (P R : cluster Q -> Prop) mlJob m r :
  let next := mergeStatus now (ob_Status mlJob) m r (ob_Generation mlJob) in
  Stable rely P -> Stable rely R -> (forall c, P c -> R c) ->
  (forall c o o', P c -> cl_Runs c !! ob_key mlJob = Some o -> patched_status mlJob (set_status next mlJob) o o' ->
     R (set_tab (<[ob_key mlJob := o']> (cl_Runs c)) c)) ->
  triple objects P (writeStatus now mlJob m r) (fun _ => R).
Proof.
  intros next SP SR HPR Hpatch. rw /writeStatus -/next. case_match.
  - apply (triple_consequence objects R _ _ (fun _ => R)); [apply (triple_ret objects mlJob (fun _ => R)) | done | done].
  - apply (triple_wrap objects _ P _ (fun _ => R)); [| done | done].
    apply (triple_patch_status objects rely); [done | by intros _ | | intros; by apply HPR].
    intros c o o' HP Ho Hp. split; [| intros _]; by apply (Hpatch c o).
Qed.

(** Runs are read as they are; what is read of Jobs and ConfigMaps may be
    outdated. *)
Context `{!CurrentReads (B := MLRunSpec Q) (S := RunStatus) objects rely}.

(** ** Finished runs *)

Section Finished.
Context (k : key) (mine : key -> Prop) (Hrely : forall c c', rely c c' -> others k mine c c').

#[export] Instance stable_status st : Stable rely (status_is k st).
Proof. intros c c' [Hr _]%Hrely Hst r' Hr'. destruct (Hr r' Hr') as (r & Hl & -> & _). by apply Hst. Qed.

#[export] Instance stable_finished p : Stable rely (finished k p).
Proof. intros c c' [Hr _]%Hrely Hst r' Hr'. destruct (Hr r' Hr') as (r & Hl & -> & _). by apply Hst. Qed.

Lemma stable_no_job jk : mine jk -> Stable rely (no_job jk).
Proof.
  intros Hm c c' [_ Hj]%Hrely Hno. rw /no_job. destruct (cl_Jobs c' !! jk) eqn:Hl; [| done].
  destruct (Hj _ _ Hm Hl) as (? & ? & _). rw /no_job in Hno. by simplify_eq.
Qed.

Lemma reconcile_finished registry p jk :
  mine jk -> isTerminal p = true -> map_Forall (fun _ h => h_Sweep h = None) registry ->
  triple objects (fun c => finished k p c /\ no_job jk c) (Reconcile dec now registry k)
    (fun _ c => finished k p c /\ no_job jk c).
Proof.
  intros Hm Hp Hsweep. pose proof (stable_no_job _ Hm) as Hstable.
  set (I := fun c => finished k p c /\ no_job jk c).
  apply (triple_consequence objects (fun c => exists st, (status_is k st c /\ no_job jk c) /\ st_Phase st = p) _ _ (fun _ => I));
    [| intros c [(st & Hph & Hst)%finished_status Hno]; by exists st | done].
  apply triple_ex => st. apply triple_pure => Hph.
  assert (Himp : forall c, status_is k st c /\ no_job jk c -> I c).
  { intros c [Hst Hno]. split; [apply finished_status; by exists st | done]. }
  rw /Reconcile. apply (triple_bind objects _ _ _ (fun r c =>
    (status_is k st c /\ no_job jk c) /\ forall o, r = inl (inl o) -> ob_Status o = st /\ ob_key o = k)).
  - apply triple_try, (triple_get objects rely); [apply _ | apply _ | | done].
    intros c o [Hst Hno] Ho Hk. split; [done |]. intros o' [= <-]. split; [by apply Hst | done].
  - intros [mlJob | e].
    + apply triple_pure => Ho. destruct (Ho mlJob eq_refl) as [Hstat Hkey].
      rw Hstat Hph Hp. rw /reconcile_terminal. apply (triple_bind objects _ _ _ (fun _ => I)); [| | done].
      * case_match; [intros s Hs; by apply Himp |].
        apply writeStatus_triple; [apply _ | apply _ | done |]. rw Hkey. intros c o o' [Hst Hno] Hl Hpa. split; [| done].
        intros r'. rw lookup_insert_eq => [= <-]. destruct Hpa as (_ & _ & Hs). rw Hs; [by rw (Hst _ Hl) Hstat |].
        by rw /= Hstat Hph Hp.
      * intros mlJob'. case_match eqn:Hh; [rw (Hsweep _ _ Hh) |]; by intros s.
    + apply (triple_consequence objects I _ _ (fun _ => I)); [| naive_solver | done]. case_match; by intros s.
  - intros e c [HP _]. by apply Himp.
Qed.
End Finished.

(** ** Anchored runs *)

Section Anchored.
Context (shortHash : bytes -> bytes).
Context (k : key) (mine : key -> Prop) (Hrely : forall c c', rely c c' -> others k mine c c').

(** The Job runs the pods of a spec with this fingerprint. *)
Definition built_from (fp : string) (j : Job Q) : Prop :=
  exists (run : Run Q) j0, specFingerprint dec run = fp /\ buildJob dec shortHash run = inl j0
    /\ runs_as (ob_Spec j0) (ob_Spec j).

(** The anchor of the run is [fp]; Jobs are from [before], or built from it. *)
Definition anchored (fp : string) (before : gmap key (Job Q)) (c : cluster Q) : Prop :=
  (forall r, cl_Runs c !! k = Some r -> anchor r = fp) /\
  (forall jk j, mine jk -> cl_Jobs c !! jk = Some j ->
     (exists j0, before !! jk = Some j0 /\ same_pods (ob_Spec j0) (ob_Spec j)) \/ built_from fp j).

Lemma built_from_same_pods fp (j j' : Job Q) :
  same_pods (ob_Spec j) (ob_Spec j') -> built_from fp j -> built_from fp j'.
Proof.
  intros (Ht & Hp & Hc) (run & j0 & Hfp & Hb & Hr). exists run, j0. split_and!; [done | done |].
  move: Hr. by rw /runs_as Ht Hp Hc.
Qed.

(** A Job with the same pods may replace one. *)
Lemma anchored_job fp before jk j j' (c : cluster Q) :
  anchored fp before c -> cl_Jobs c !! jk = Some j -> same_pods (ob_Spec j) (ob_Spec j') ->
  anchored fp before (set_tab (<[jk := j']> (cl_Jobs c)) c).
Proof.
  intros [Ha Hj] Hl Hs. split; [done |]. intros jk' j1 Hm. simpl.
  destruct (decide (jk = jk')) as [<- | ?]; [rw lookup_insert_eq => [= <-] | rw lookup_insert_ne //; by apply Hj].
  destruct (Hj jk j Hm Hl) as [(j0 & Hb & H1) | Hb]; [left | right; by eapply built_from_same_pods].
  exists j0. split; [done |]. destruct H1 as (?&?&?), Hs as (?&?&?). split_and!; congruence.
Qed.

#[export] Instance stable_anchored fp before : Stable rely (anchored fp before).
Proof.
  intros c c' [Hr Hjobs]%Hrely [Ha Hj]. split.
  - intros r' Hl. destruct (Hr r' Hl) as (r & Hl' & _ & ->). by apply Ha.
  - intros jk j' Hm Hl. destruct (Hjobs jk j' Hm Hl) as (j & Hl' & Hs).
    destruct (anchored_job fp before jk j j' c) as [_ Hj']; [done | done | done |].
    apply (Hj' jk j' Hm). by rw /= lookup_insert_eq.
Qed.

Lemma writeStatus_anchored fp before mlJob m r :
  triple objects (anchored fp before) (writeStatus now mlJob m r) (fun _ => anchored fp before).
Proof using All.
  apply writeStatus_triple; [apply _ | apply _ | done |]. intros c o o' [Ha Hj] Hl (Hm & _). split; [| done].
  intros r'. simpl. destruct (decide (ob_key mlJob = k)) as [<- | ?]; [| by rw lookup_insert_ne //; apply Ha].
  rw lookup_insert_eq => [= <-]. rw -(Ha _ Hl) /anchor /ob_Annotations Hm //.
Qed.

Lemma fail_run_anchored fp before mlJob msg :
  triple objects (anchored fp before) (fail_run now mlJob msg) (fun _ => anchored fp before).
Proof using All.
  apply (triple_bind objects _ _ _ (fun _ => anchored fp before)); [apply writeStatus_anchored | by intros ? s | done].
Qed.

Lemma retry_run_anchored fp before mlJob msg err :
  triple objects (anchored fp before) (retry_run now mlJob msg err) (fun _ => anchored fp before).
Proof using All.
  apply (triple_bind objects _ _ _ (fun _ => anchored fp before)); [| by intros ? s | done].
  apply triple_try, (writeStatus_anchored fp before).
Qed.

(** The handler creates a Job of this spec, or suspends the one that exists. *)
Lemma JobReconcile_anchored fp before mlJob :
  specFingerprint dec mlJob = fp ->
  triple objects (anchored fp before) (JobReconcile dec shortHash mlJob) (fun _ => anchored fp before).
Proof using All.
  intros Hfp. set (I := anchored fp before). rw /JobReconcile.
  apply (triple_bind objects _ _ _ (fun _ => I)); [| intros [existing | e] | done].
  - apply triple_try, (triple_read objects rely); by try apply _.
  - repeat case_match; try by intros s.
    all: apply (triple_bind objects _ _ _ (fun _ => I)); [| by intros ? s | done].
    all: apply (triple_wrap objects _ _ _ (fun _ => I)); [| done | done].
    all: apply (triple_patch objects rely); [apply _ | apply _ | | done].
    all: intros c o o' Hc Hl (_ & _ & _ & _ & _ & _ & _ & Hmerge & _).
    all: assert (anchored fp before (set_tab (<[ob_key existing := o']> (cl_Jobs c)) c)) as HI
           by (eapply anchored_job; [done | done | by apply Hmerge]); by split.
  - case_match; [| by intros s]. case_match; [by intros s |].
    destruct (buildJob dec shortHash mlJob) as [want | err] eqn:Hb; [| by intros s].
    apply (triple_bind objects _ _ _ (fun _ => I)); [| by intros ? s | done].
    apply (triple_wrap objects _ _ _ (fun _ => I)); [| done | done].
    assert (forall c o', I c -> stored want o' -> I (put o' c)) as Hput.
    { intros c o' [Ha Hj] (Hobj & _ & [Hruns _] & _). split; [done |]. intros jk j Hm. simpl.
      destruct (decide (ob_key o' = jk)) as [<- | ?]; [| by rw lookup_insert_ne //; apply Hj].
      rw lookup_insert_eq => [= <-]. right. by exists mlJob, want. }
    by apply (triple_create objects rely); [apply _ | apply _ | intros; apply Hput | intros; apply Hput |].
Qed.

Lemma reconcile_anchored fp before registry :
  fp <> "" -> map_Forall (fun _ h => h = nativejob dec shortHash) registry ->
  triple objects (anchored fp before) (OperatorRun.Reconcile dec now registry k) (fun _ => anchored fp before).
Proof using All.
  intros Hfp Hreg. set (I := anchored fp before). rw /OperatorRun.Reconcile.
  apply (triple_bind objects _ _ _ (fun r c => I c /\ forall o, r = inl (inl o) -> anchor o = fp)).
  - apply triple_try, (triple_get objects rely); [apply _ | apply _ | | done].
    intros c o HI Ho Hk. split; [done |]. intros o' [= <-]. by apply HI.
  - intros [mlJob | e]; apply triple_pure; [| intros _; case_match; by intros s].
    intros Ho. pose proof (Ho _ eq_refl) as Hanchor. clear Ho.
    pose proof (only_native dec shortHash registry (be_Name (rsp_Backend (ob_Spec mlJob)))
      (be_Engine (rsp_Backend (ob_Spec mlJob))) Hreg) as Hh. case_match.
    + rw /reconcile_terminal. apply (triple_bind objects _ _ _ (fun _ => I)); [| | done].
      * case_match; [by intros s | apply writeStatus_anchored].
      * intros mlJob'. by destruct Hh as [-> | ->]; intros s.
    + rw /reconcile_active.
      apply (triple_bind objects _ _ _ (fun r c => I c /\ forall o, r = inl (o, None) -> specFingerprint dec o = fp)).
      * rw /assertSpecImmutable Hanchor. rw (proj2 (String.eqb_neq fp "") Hfp).
        case_match eqn:Heq; intros s HI; (split; [done |]); intros o; simpl; intros [=]; subst.
        by apply negb_false_iff, String.eqb_eq in Heq.
      * intros [mlJob' [e |]]; apply triple_pure; intros Hspec; [apply fail_run_anchored |].
        destruct Hh as [-> | ->]; [apply fail_run_anchored |].
        destruct (h_Validate _ _); [| apply fail_run_anchored].
        destruct (Validate _ _); [| apply fail_run_anchored].
        rw /run_config. apply (triple_bind objects _ _ _ (fun _ => I)); [| | done].
        { by apply triple_try, (config_keeps objects rely); [apply _ |]. }
        intros [[] | err]; [| case_match; [apply fail_run_anchored | apply retry_run_anchored]].
        rw /run_handler. apply (triple_bind objects _ _ _ (fun _ => I)); [| | done].
        { by apply triple_try, JobReconcile_anchored, Hspec. }
        intros [[u recRes] | err]; [| apply retry_run_anchored].
        apply (triple_bind objects _ _ _ (fun _ => I)); [apply writeStatus_anchored | by intros ? s | done].
      * naive_solver.
  - naive_solver.
Qed.
End Anchored.
End Facts.

(** ** Compute operator: facts on ConfigMaps

    One upkeep of a workload's ConfigMaps on a cluster nobody else writes:
    what it leaves alone, what holds when it succeeds, and that a second one
    changes nothing. *)

Lemma merged_map_fresh before after new : merged_map before after before new -> new = after.
Proof. intros Hm. apply map_eq => k. rw Hm. case_decide; congruence. Qed.

Section Facts.
Context `{!Machinery} {Q K : Type} `{!OperatorClient Q K} (objects : K -> cluster Q) `{!OperatorLaws objects eq}
  `{!OperatorCurrent objects eq}.
Context {B S : Type} (owner : object B S) (gvk : string * string) (extra : gmap string string).
Context (configMaps : list ConfigMap).

Let mine (o : ConfigMapObject) : bool := controlled_by (ob_UID owner) (ob_Owners o).

(** Runs, Jobs and the ConfigMaps of others are as in [c0]. *)
Definition foreign_kept (c0 c : cluster Q) : Prop :=
  cl_Runs c = cl_Runs c0 /\ cl_Jobs c = cl_Jobs c0 /\
  forall k o, cl_ConfigMaps c0 !! k = Some o -> controlled_by (ob_UID owner) (ob_Owners o) = false ->
    cl_ConfigMaps c !! k = Some o.

(** The declared ConfigMap exists with its data and labels, under our control. *)
Definition declared (spec : ConfigMap) (c : cluster Q) : Prop :=
  exists o, cl_ConfigMaps c !! (ob_Namespace owner, cm_Name spec) = Some o /\ ob_Spec o = cm_Data spec /\
    managedLabels owner extra ⊆ ob_Labels o /\ controlled_by (ob_UID owner) (ob_Owners o) = true.

(** A ConfigMap the workload manages but does not declare. *)
Definition obsolete (c : cluster Q) (o : ConfigMapObject) : Prop :=
  cl_ConfigMaps c !! ob_key o = Some o /\
  selected (ob_Namespace owner) (<[LabelOwnerUID := ob_UID owner]> {[LabelManagedConfig := ManagedValue]}) o = true /\
  controlled_by (ob_UID owner) (ob_Owners o) = true /\ ob_Name o ∉ map cm_Name configMaps.

Definition converged (c : cluster Q) : Prop :=
  (forall spec, spec ∈ configMaps -> declared spec c) /\ forall o, ~ obsolete c o.

(** Replacing what is ours keeps what is not. *)
Lemma foreign_kept_set c0 c k o' :
  foreign_kept c0 c -> (forall o, cl_ConfigMaps c !! k = Some o -> mine o = true) ->
  foreign_kept c0 (set_tab (<[k := o']> (cl_ConfigMaps c)) c).
Proof.
  intros (Hr & Hj & Hf) Hk. split_and!; [done | done |]. intros k' o Ho Hc. simpl.
  rw lookup_insert_ne; [intros <-; specialize (Hk o (Hf _ _ Ho Hc)); rw /mine in Hk; congruence |]. by apply Hf.
Qed.

Lemma foreign_kept_delete c0 c k :
  foreign_kept c0 c -> (forall o, cl_ConfigMaps c !! k = Some o -> mine o = true) ->
  foreign_kept c0 (set_tab (delete k (cl_ConfigMaps c)) c).
Proof.
  intros (Hr & Hj & Hf) Hk. split_and!; [done | done |]. intros k' o Ho Hc. simpl.
  rw lookup_delete_ne; [intros <-; specialize (Hk o (Hf _ _ Ho Hc)); rw /mine in Hk; congruence |]. by apply Hf.
Qed.

(** What [upsert] stores is the declared ConfigMap. *)
Lemma created_declared spec o' (c : cluster Q) :
  stored (C := cluster Q) (desired_configmap owner gvk spec extra) o' -> declared spec (put o' c).
Proof.
  intros (Hobj & Hown & Hdef & _). exists o'. rw /put /ob_key /ob_Namespace /ob_Name Hobj /= lookup_insert_eq.
  split_and!; [done | done | by rw /ob_Labels Hobj |].
  rw Hown /= /controlled_by controller_one; [by rw new_ref_controller |]. rw new_ref_uid. apply String.eqb_refl.
Qed.

Lemma patched_declared spec o o' (c : cluster Q) :
  let next := set_labels (managedLabels owner extra ∪ ob_Labels o) (set_spec (cm_Data spec) o) in
  ob_key o = (ob_Namespace owner, cm_Name spec) -> mine o = true ->
  patched (spec_merged (C := cluster Q)) o next o o' ->
  declared spec (set_tab (<[ob_key next := o']> (cl_ConfigMaps c)) c).
Proof.
  intros next Hk Hm (_ & _ & _ & Hown & Hl & _ & _ & Hspec). exists o'.
  split_and!; [by rw /= -Hk lookup_insert_eq | by rw Hspec | | by rw Hown decide_True].
  rw (merged_map_fresh _ _ _ Hl). apply map_union_subseteq_l.
Qed.

(** A declared ConfigMap survives a write to another name. *)
Lemma declared_set spec k o (c : cluster Q) :
  k <> (ob_Namespace owner, cm_Name spec) -> declared spec c -> declared spec (set_tab (<[k := o]> (cl_ConfigMaps c)) c).
Proof. intros Hk (o0 & Hl & Ho). exists o0. by rw /= lookup_insert_ne. Qed.

(** [upsert]: nothing foreign changes; on success the ConfigMap is declared and
    the others still are. *)
Definition upserted (c0 : cluster Q) (rest : list ConfigMap) (c : cluster Q) : Prop :=
  rest ⊆ configMaps /\ foreign_kept c0 c /\ forall spec, spec ∈ configMaps -> spec ∈ rest \/ declared spec c.

Lemma upserted_next c0 spec rest c c' :
  NoDup (map cm_Name configMaps) -> upserted c0 (spec :: rest) c -> foreign_kept c0 c' -> declared spec c' ->
  (forall spec', cm_Name spec' <> cm_Name spec -> declared spec' c -> declared spec' c') -> upserted c0 rest c'.
Proof.
  intros Hnd (Hsub & _ & Hall) Hf Hd Hkeep. split_and!; [set_solver | done |]. intros spec' Hin.
  destruct (decide (cm_Name spec' = cm_Name spec)) as [Hname | Hname].
  - right. assert (spec' = spec) as ->; [| done]. apply (unique_by cm_Name configMaps); [done | done | | done].
    apply Hsub. left.
  - destruct (Hall spec' Hin) as [Hr | Hd']; [| right; by apply Hkeep]. left.
    apply elem_of_cons in Hr as [-> | Hr]; [done | done].
Qed.

(** The ConfigMap at the name is [current], which we control. *)
Lemma upsert_patch c0 spec rest current :
  let next := set_labels (managedLabels owner extra ∪ ob_Labels current) (set_spec (cm_Data spec) current) in
  let k := (ob_Namespace owner, cm_Name spec) in
  NoDup (map cm_Name configMaps) -> mine current = true ->
  triple objects (fun c => upserted c0 (spec :: rest) c /\ cl_ConfigMaps c !! k = Some current /\ ob_key current = k)
    (k_Patch current next) (either (upserted c0 rest) (foreign_kept c0)).
Proof using All.
  intros next k Hnd Hmine. apply (triple_patch objects eq); [apply _ | apply _ | | intros c e [HP _]; apply HP].
  change (ob_key next) with (ob_key current). intros c o o' [HP [Hl Hk]] Ho Hp.
  rw Hk in Ho. simplify_eq/=.
  assert (foreign_kept c0 (set_tab (<[ob_key current := o']> (cl_ConfigMaps c)) c)) as Hkept.
  { apply foreign_kept_set; [apply HP |]. intros o1 Ho1. rw Hk in Ho1. by simplify_eq. }
  split; [| done]. apply (upserted_next c0 spec rest c); try done; [by apply patched_declared |].
  intros spec' Hne. apply declared_set. rw Hk. congruence.
Qed.

(** The name is free. *)
Lemma upsert_create c0 spec rest :
  NoDup (map cm_Name configMaps) ->
  triple objects (upserted c0 (spec :: rest)) (k_Create (desired_configmap owner gvk spec extra))
    (either (upserted c0 rest) (foreign_kept c0)).
Proof using All.
  intros Hnd. set (k := (ob_Namespace owner, cm_Name spec)).
  assert (forall c o', upserted c0 (spec :: rest) c -> cl_ConfigMaps c !! k = None ->
    stored (C := cluster Q) (desired_configmap owner gvk spec extra) o' -> upserted c0 rest (put o' c)) as Hput.
  { intros c o' HP Hno Hst. assert (ob_key o' = k) as Hk by (rw /ob_key /ob_Namespace /ob_Name (proj1 Hst) //).
    apply (upserted_next c0 spec rest c); try done; [| by apply created_declared |]; rw /put Hk.
    - apply foreign_kept_set; [apply HP |]. intros o Ho. simpl in *. congruence.
    - intros spec' Hne. apply declared_set. rw /k. congruence. }
  apply (triple_create objects eq); [apply _ | apply _ | intros; by apply Hput | | intros c e HP; apply HP].
  intros c o' e HP Hno Hst. apply (Hput c o' HP Hno Hst).
Qed.

Lemma upsert_step c0 spec rest :
  NoDup (map cm_Name configMaps) ->
  triple objects (upserted c0 (spec :: rest)) (upsert owner gvk extra spec) (either (upserted c0 rest) (foreign_kept c0)).
Proof using All.
  intros Hnd. set (k := (ob_Namespace owner, cm_Name spec)).
  rw /upsert -/k. apply (triple_bind objects _ _ _ (fun r c => upserted c0 (spec :: rest) c /\
    match r with inl (inl o) => cl_ConfigMaps c !! k = Some o /\ ob_key o = k | _ => True end)).
  - by apply triple_try, (triple_get objects eq); try apply _.
  - intros [current | e].
    + destruct (controlled_by _ _) eqn:Hmine; [| intros s [HP _]; apply HP].
      case_match eqn:Heq; [| by apply triple_wrap_then, upsert_patch].
      intros s [HP [Hl Hk]]. apply (upserted_next c0 spec rest (objects s)); try done; [apply HP |].
      apply andb_true_iff in Heq as [Hspec%map_equal_spec Hlab%map_equal_spec]. exists current.
      split_and!; [done | done | | done]. rw Hlab. apply map_union_subseteq_l.
    + case_match; [| intros s [HP _]; apply HP].
      apply (triple_consequence objects (upserted c0 (spec :: rest)) _ _ (either (upserted c0 rest) (foreign_kept c0)));
        [by apply triple_wrap_then, upsert_create | by intros c [? _] | done].
  - intros e c [HP _]. apply HP.
Qed.

(** [deleteObsolete]: what is left of the list holds every obsolete one. *)
Definition cleaning (c0 : cluster Q) (rest : list ConfigMapObject) (c : cluster Q) : Prop :=
  foreign_kept c0 c /\ (forall spec, spec ∈ configMaps -> declared spec c) /\
  (forall o, o ∈ rest -> mine o = true -> forall o', cl_ConfigMaps c !! ob_key o = Some o' -> mine o' = true) /\
  (forall o, obsolete c o -> o ∈ rest) /\ (forall o, o ∈ rest -> ob_Namespace o = ob_Namespace owner).

(** The first of the list is gone, or was none of the obsolete ones. *)
Lemma cleaning_skip c0 o rest c :
  cleaning c0 (o :: rest) c -> ~ obsolete c o -> cleaning c0 rest c.
Proof.
  intros (Hf & Hd & Hm & Ho & Hn) Hno. split_and!; [done | done | | |].
  - intros o' Ho'. apply Hm. by right.
  - intros o' Hob. destruct (proj1 (elem_of_cons _ _ _) (Ho o' Hob)) as [-> | ?]; done.
  - intros o' Ho'. apply Hn. by right.
Qed.

Lemma cleaning_delete c0 o rest c :
  cleaning c0 (o :: rest) c -> mine o = true -> ob_Name o ∉ map cm_Name configMaps ->
  cleaning c0 rest (set_tab (delete (ob_key o) (cl_ConfigMaps c)) c).
Proof.
  intros Hc Hmine Hname. pose proof Hc as (Hf & Hd & Hm & Ho & Hn).
  assert (cleaning c0 (o :: rest) (set_tab (delete (ob_key o) (cl_ConfigMaps c)) c)) as Hc'.
  { split_and!; [apply foreign_kept_delete; [done | apply Hm; [by left | done]] | | | | done].
    - intros spec Hin. destruct (Hd spec Hin) as (o0 & Hl & Ho0). exists o0. split; [| done].
      rw /= lookup_delete_ne; [| done]. rw /ob_key => [= _ Heq]. apply Hname. rw Heq. by apply list_elem_of_fmap_2.
    - intros o1 Ho1 Hm1 o2. rw /= lookup_delete_Some => -[_]. by apply Hm.
    - intros o1 (Hl & Hrest). apply Ho. split; [| done]. move: Hl. rw /= lookup_delete_Some. by intros [_ ?]. }
  apply (cleaning_skip c0 o rest _ Hc'). intros (Hl & _). by rw /= lookup_delete_eq in Hl.
Qed.

Lemma delete_step c0 o rest :
  triple objects (cleaning c0 (o :: rest)) (delete_one owner (list_to_set (map cm_Name configMaps)) o)
    (either (cleaning c0 rest) (foreign_kept c0)).
Proof using All.
  rw /delete_one. case_decide as Hin; last case_match eqn:Hctl.
  - intros s HP. apply (cleaning_skip c0 o rest _ HP). intros (_ & _ & _ & Hn). by apply elem_of_list_to_set in Hin.
  - intros s HP. apply (cleaning_skip c0 o rest _ HP). intros (_ & _ & Hm & _). by rw Hm in Hctl.
  - apply negb_false_iff in Hctl. assert (ob_Name o ∉ map cm_Name configMaps) as Hn by (move: Hin; by rw elem_of_list_to_set).
    apply (triple_bind objects _ _ _ (fun r c => match r with
      | inl (inl _) => cleaning c0 rest c
      | inl (inr e) => foreign_kept c0 c /\ (IsNotFound e = true -> cleaning c0 rest c)
      | inr _ => foreign_kept c0 c end)); [| | done].
    + apply triple_try, (triple_delete objects eq); [apply _ | apply _ | |].
      * intros c r HP. assert (cleaning c0 rest (set_tab (delete (ob_key o) (cl_ConfigMaps c)) c)) as Hc
          by by apply cleaning_delete. destruct r as [[] | e]; [done | split; [apply Hc | by intros _]].
      * intros c e HP Hno. split; [apply HP |]. intros Hnf. apply (cleaning_skip c0 o rest _ HP).
        intros (Hl & _). simpl in *. by rw (Hno Hnf) in Hl.
    + intros [[] | e]; [by intros s |].
      destruct (IsNotFound e) eqn:Hnf; intros s [Hf Hc]; [by apply Hc | done].
Qed.

(** [Reconcile]: foreign objects are kept; success means convergence. *)
Lemma config_converges c0 :
  NoDup (map cm_Name configMaps) ->
  triple objects (fun c => c = c0) (OperatorConfig.Reconcile owner gvk configMaps extra)
    (either (fun c => foreign_kept c0 c /\ converged c) (foreign_kept c0)).
Proof using All.
  intros Hnd. rw /OperatorConfig.Reconcile.
  apply (triple_bind objects _ _ _ (either (upserted c0 []) (foreign_kept c0))); [| | done].
  { apply (triple_consequence objects (upserted c0 configMaps) _ _ (either (upserted c0 []) (foreign_kept c0))); [| | done].
    - apply (triple_each_rest objects (upserted c0) (foreign_kept c0)). intros spec rest. by apply upsert_step.
    - intros c ->. split_and!; [done | done |]. intros spec Hin. by left. }
  intros []. rw /deleteObsolete.
  apply (triple_bind objects _ _ _ (fun r c => match r with inl os => cleaning c0 os c | inr _ => foreign_kept c0 c end)); [| | done].
  - apply (triple_wrap objects _ _ _ (fun r c => match r with inl os => cleaning c0 os c | inr _ => foreign_kept c0 c end)); [| done | done].
    apply (triple_list objects eq); [apply _ | apply _ | | intros c e HP; apply HP].
    intros c os (_ & Hf & Hd) Hos. split_and!; [done | | | |].
    + intros spec Hin. destruct (Hd spec Hin) as [?%elem_of_nil | ?]; done.
    + intros o [Hl _]%Hos Hm o' Hl'. simpl in *. by simplify_eq.
    + intros o (Hl & Hsel & _). by apply Hos.
    + intros o [_ Hsel]%Hos. by apply andb_true_iff in Hsel as [?%String.eqb_eq _].
  - intros os. apply (triple_consequence objects (cleaning c0 os) _ _ (either (cleaning c0 []) (foreign_kept c0))); [| done |].
    + apply (triple_each_rest objects (cleaning c0) (foreign_kept c0)). apply delete_step.
    + intros [[] | e] c; [| done]. intros (Hf & Hd & _ & Ho & _). split; [done |]. split; [done |].
      by intros o ?%Ho%elem_of_nil.
Qed.

(** On a converged cluster nothing is written. *)
Lemma config_settled c0 :
  converged c0 ->
  triple objects (fun c => c = c0) (OperatorConfig.Reconcile owner gvk configMaps extra) (fun _ c => c = c0).
Proof using All.
  intros [Hd Ho]. rw /OperatorConfig.Reconcile. apply (triple_bind objects _ _ _ (fun _ c => c = c0)); [| intros _ | done].
  - apply (triple_each objects (fun c => c = c0)). intros spec (o & Hl & Hdata & Hlab & Hm)%Hd. rw /upsert.
    set (k := (_, cm_Name spec)). apply (triple_bind objects _ _ _ (fun r c => c = c0 /\ match r with
      | inl (inl o') => o' = o | inl (inr e) => IsNotFound e = false | inr _ => True end)); [| | by intros e c [? _]].
    + apply triple_try, (triple_get objects eq); [apply _ | apply _ | intros c o' -> Hl' _; simpl in *; rw Hl in Hl'; by simplify_eq |].
      intros c e -> Hno. split; [done |]. destruct (IsNotFound e); [| done]. simpl in *. by rw Hl in Hno; discriminate Hno.
    + intros [o' | e]; apply triple_pure; [intros -> | intros ->; by intros s]. rw Hm.
      rw (proj2 (map_equal_spec _ _)); [by rw /= Hdata |].
      rw (proj2 (map_equal_spec _ _)); [by rw /= map_subseteq_union |]. by intros s.
  - rw /deleteObsolete. apply (triple_bind objects _ _ _ (fun r c => c = c0 /\ forall os, r = inl os ->
      forall o, o ∈ os -> cl_ConfigMaps c0 !! ob_key o = Some o /\ selected (ob_Namespace owner)
        (<[LabelOwnerUID := ob_UID owner]> {[LabelManagedConfig := ManagedValue]}) o = true)); [| | by intros e c [? _]].
    + eapply (triple_wrap objects); [apply (triple_list objects eq (B := gmap string string) (S := unit) _ _ _
        (fun r c => c = c0 /\ forall os, r = inl os ->
      forall o, o ∈ os -> cl_ConfigMaps c0 !! ob_key o = Some o /\ selected (ob_Namespace owner)
        (<[LabelOwnerUID := ob_UID owner]> {[LabelManagedConfig := ManagedValue]}) o = true)) | done | by intros e c [? _]];
        [apply _ | apply _ | | by intros c e ->].
      intros c os -> Hos. split; [done |]. intros os' [= <-] o ?%Hos. done.
    + intros os. apply triple_pure => Hos. apply (triple_each objects (fun c => c = c0)). intros o Hin.
      destruct (Hos os eq_refl o Hin) as [Hl Hsel]. rw /delete_one. case_decide as Hn; [by intros s |].
      destruct (controlled_by _ _) eqn:Hm; [| by intros s]. exfalso. apply (Ho o). split_and!; try done.
      move: Hn. by rw elem_of_list_to_set.
Qed.
End Facts.

(** ** Compute operator: cancelling a run

    One pass over a run whose [runPolicy.suspend] is set, on a cluster nobody
    else writes: when the pass succeeds the run is terminal, or its Job is
    absent or suspended and the status says so in the words compute-service
    waits for. *)

Section Cancel.
Context `{!Machinery} {Q K : Type} `{!OperatorClient Q K} (objects : K -> cluster Q) `{!OperatorLaws objects eq}
  `{!OperatorCurrent objects eq}.
Context (dec : Decoders Q) (now : Z) (shortHash : bytes -> bytes) (k : key).
Implicit Types r : Run Q.

(** The Job of the run, if there is one, is suspended. *)
Definition job_stopped r (jobs : gmap key (Job Q)) : Prop :=
  forall j, jobs !! (ob_Namespace r, jobName shortHash r) = Some j -> js_Suspend (ob_Spec j) = Some true.

Definition cancelled_status (st : RunStatus) : Prop :=
  hasCondition (rcs_Conditions (observed_status st)) ConditionSuspended ReasonCancelRequested = true.

Definition stopped (c : cluster Q) : Prop :=
  forall r, cl_Runs c !! k = Some r ->
    isTerminal (st_Phase (ob_Status r)) = true \/ (cancelled_status (ob_Status r) /\ job_stopped r (cl_Jobs c)).

(** The cluster holds this run, and Jobs with [J]. *)
Definition holds r (J : gmap key (Job Q) -> Prop) (c : cluster Q) : Prop :=
  cl_Runs c !! k = Some r /\ J (cl_Jobs c).

Lemma holds_status r (J : gmap key (Job Q) -> Prop) c : holds r J c -> status_is k (ob_Status r) c.
Proof. intros [Hr _] r' Hr'. rw Hr in Hr'. by simplify_eq. Qed.

Lemma writeStatus_holds r (m : MapStatusResult) (rr : ReconcileResult) (J : gmap key (Job Q) -> Prop) :
  ob_key r = k ->
  triple objects (holds r J) (writeStatus now r m rr)
    (either (holds (set_status (mergeStatus now (ob_Status r) m rr (ob_Generation r)) r) J) (fun _ => True)).
Proof using All.
  intros Hk. rw /writeStatus. case_match eqn:Heq.
  - intros s [Hr HJ]. apply status_equal_spec in Heq. split; [| done]. rw Hr -Heq. by destruct r.
  - apply (triple_wrap objects _ _ _ (either (holds (set_status (mergeStatus now (ob_Status r) m rr (ob_Generation r)) r) J) (fun _ => True)));
      [| done | done].
    apply (triple_patch_status objects eq); [apply _ | apply _ | | done].
    change (ob_key (set_status _ r)) with (ob_key r). rw Hk.
    intros c o o' [Hr HJ] Ho (Hm & Hs & Hst). split; [| done]. split; [| done].
    simpl in Ho. rw Hr in Ho. simplify_eq. rw /= lookup_insert_eq. f_equal.
    destruct o', o; simpl in *; subst. by rw Hst.
Qed.

(** A condition found by its type is one compute-service sees. *)
Lemma condition_observed st c :
  condition ConditionSuspended (st_Conditions st) = Some c -> mc_Status c = "True" -> mc_Reason c = ReasonCancelRequested ->
  cancelled_status st.
Proof.
  intros [Hin Ht%String.eqb_eq]%List.find_some Hs Hr. rw /cancelled_status /hasCondition. apply existsb_exists.
  exists {| co_Type := mc_Type c; co_Status := mc_Status c; co_Reason := mc_Reason c |}.
  split; [by apply (in_map (fun c => {| co_Type := mc_Type c; co_Status := mc_Status c; co_Reason := mc_Reason c |})) |].
  by rw /= Ht Hs Hr.
Qed.

(** The merge reports a completed cancel unless the run has finished. *)
Lemma mergeStatus_cancelled existing m (rr : ReconcileResult) g :
  rr_SuspendCompleted rr = true -> rr_SuspendReason rr = ReasonCancelRequested ->
  let next := mergeStatus now existing m rr g in
  isTerminal (st_Phase next) = true \/ cancelled_status next.
Proof.
  intros Hc Hreason next. destruct (isTerminal (st_Phase next)) eqn:Ht; [by left | right].
  set (conds := foldl (SetStatusCondition now) (st_Conditions existing) (mp_Conditions m)).
  destruct (set_condition_same now conds (suspended_condition (rr_SuspendReason rr))) as (c & Hl & Hs & Hr & _).
  apply (condition_observed _ c); [| done | by rw Hr /= Hreason].
  rw /next /mergeStatus in Ht |- *. simpl in *. by rw Ht Hc -/conds.
Qed.

(** The status writer when only the status is known. *)
Lemma writeStatus_next r (m : MapStatusResult) (rr : ReconcileResult) :
  ob_key r = k ->
  triple objects (status_is k (ob_Status r)) (writeStatus now r m rr)
    (either (status_is k (mergeStatus now (ob_Status r) m rr (ob_Generation r))) (fun _ => True)).
Proof using All.
  intros Hk. set (next := mergeStatus _ _ _ _ _). rw /writeStatus -/next. case_match eqn:Heq.
  - apply status_equal_spec in Heq. intros s Hst. by rw /= -Heq.
  - apply (triple_wrap objects _ _ _ (either (status_is k next) (fun _ => True))); [| done | done].
    apply (triple_patch_status objects eq); [apply _ | apply _ | | done].
    change (ob_key (set_status next r)) with (ob_key r). rw Hk.
    intros c o o' Hst Ho (_ & _ & Hs). split; [| done]. intros r'. rw /= lookup_insert_eq => [= <-].
    rw Hs //. by apply Hst.
Qed.

Lemma fail_run_stopped r message :
  ob_key r = k -> isTerminal (st_Phase (ob_Status r)) = false ->
  triple objects (status_is k (ob_Status r)) (fail_run now r message) (either stopped (fun _ => True)).
Proof using All.
  intros Hk Ht. apply (triple_bind objects _ _ _ _ _ (writeStatus_next r _ _ Hk)); [| done].
  intros o s Hst r' Hr'. left. by rw (Hst r' Hr') /= Ht.
Qed.

(** The anchor changes neither spec nor status. *)
Lemma assert_holds r :
  ob_key r = k ->
  triple objects (holds r (fun _ => True)) (assertSpecImmutable dec r)
    (fun res c => exists r' e, res = inl (r', e) /\ ob_key r' = k /\ ob_Spec r' = ob_Spec r /\ ob_Status r' = ob_Status r /\
       status_is k (ob_Status r) c /\ (e = None -> holds r' (fun _ => True) c)).
Proof using All.
  intros Hk. pose proof (holds_status r (fun _ => True)) as Hst.
  rw /assertSpecImmutable. case_match; last first.
  { case_match; intros s HP; do 2 eexists; split_and!; [done | done | done | done | by apply Hst | done
      | done | done | done | done | by apply Hst | done]. }
  set (r1 := set_anchor _ r).
  apply (triple_bind objects _ _ _ (fun res c => exists x, res = inl x /\ status_is k (ob_Status r) c /\
    forall r', x = inl r' -> ob_key r' = k /\ ob_Spec r' = ob_Spec r /\ ob_Status r' = ob_Status r /\ holds r' (fun _ => True) c));
    [| | naive_solver].
  - apply triple_try, (triple_patch objects eq); [apply _ | apply _ | | intros c e HP; eexists; split_and!; [done | by apply Hst | done]].
    change (ob_key r1) with (ob_key r). rw Hk. intros c o o' [Hr _] Ho (Hs & _ & Hkey & _ & _ & _ & Hspec & _).
    simpl in Ho. rw Hr in Ho. injection Ho as <-.
    assert (status_is k (ob_Status r) (set_tab (<[k := o']> (tab c)) c)) as Hst'.
    { intros r'. rw /= lookup_insert_eq => [= <-]. done. }
    split; [| intros e]; eexists; (split; [done |]); (split; [done |]); [| done].
    intros r' [= <-]. destruct (Hspec eq_refl) as [-> _]. split_and!; [by rw Hkey | done | done |]. split; [| done].
    by rw /= lookup_insert_eq.
  - intros [fresh | e] s (x & [= <-] & Hs & Hx); do 2 eexists; (split; [done |]); [| by split_and!].
    destruct (Hx fresh eq_refl) as (?&?&?&?). by split_and!.
Qed.

(** The handler stops the Job, or finds none. *)
Lemma JobReconcile_stops r :
  rp_Suspend (rsp_RunPolicy (ob_Spec r)) = true ->
  triple objects (holds r (fun _ => True)) (JobReconcile dec shortHash r)
    (fun res c => forall u rr, res = inl (u, rr) -> rr = cancel_completed /\ holds r (job_stopped r) c).
Proof using All.
  intros Hs. rw /JobReconcile Hs. set (jk := (ob_Namespace r, jobName shortHash r)).
  apply (triple_bind objects _ _ _ (fun res c => holds r (fun _ => True) c /\ match res with
    | inl (inl j) => cl_Jobs c !! jk = Some j /\ ob_key j = jk
    | inl (inr e) => IsNotFound e = true -> cl_Jobs c !! jk = None
    | inr _ => True end)); [by apply triple_try, (triple_get objects eq); try apply _ | | done].
  intros [existing | e]; last first.
  { destruct (IsNotFound e); [| by intros s]. intros s [[Hr _] Hno] u rr [= <- <-]. split; [done |]. split; [done |].
    intros j Hj. rw (Hno eq_refl) in Hj. done. }
  assert (forall (j : Job Q) s, js_Suspend (ob_Spec j) = Some true -> cl_Runs (objects s) !! k = Some r -> cl_Jobs (objects s) !! jk = Some j ->
    holds r (job_stopped r) (objects s)) as Hstop.
  { intros j s Hj Hr Hl. split; [done |]. intros j' Hj'. rw -/jk Hl in Hj'. by simplify_eq. }
  set (after := set_spec (set_suspend (Some true) (ob_Spec existing)) existing).
  destruct (js_Suspend (ob_Spec existing)) as [[] |] eqn:Hj.
  { intros s [[Hr _] [Hl _]] u rr [= <- <-]. by split; [| eapply Hstop]. }
  all: apply (triple_consequence objects (fun c => holds r (fun _ => True) c /\ cl_Jobs c !! jk = Some existing /\ ob_key existing = jk)
    _ _ (fun res c => (exists e, res = inr e) \/ exists u, res = inl (u, cancel_completed) /\ holds r (job_stopped r) c));
    [| done | intros res c [[e ->] | (u & -> & Hc)] u' rr' Heq; by simplify_eq].
  all: apply (triple_bind objects _ _ _ (either (holds r (job_stopped r)) (fun _ => True)));
    [| intros fresh s Hc; right; by eexists | intros e c _; left; by eexists].
  all: apply (triple_wrap objects _ _ _ (either (holds r (job_stopped r)) (fun _ => True))); [| done | done].
  all: apply (triple_patch objects eq); [apply _ | apply _ | | done].
  all: change (ob_key after) with (ob_key existing); intros c o o' [[Hr _] [Hl Hk]] Ho Hp.
  all: split; [| done]; rw Hk; (split; [done |]); intros j'; rw -/jk /= lookup_insert_eq => [= <-].
  all: rw Hk in Ho; simpl in Ho; rw Hl in Ho; simplify_eq.
  all: destruct Hp as (_ & _ & _ & _ & _ & _ & _ & _ & Hspec); by rw Hspec.
Qed.

(** ConfigMaps, handler and status of a run to be cancelled. *)
Lemma run_config_stops r :
  ob_key r = k -> isTerminal (st_Phase (ob_Status r)) = false -> rp_Suspend (rsp_RunPolicy (ob_Spec r)) = true ->
  triple objects (holds r (fun _ => True)) (run_config dec now (nativejob dec shortHash) r) (either stopped (fun _ => True)).
Proof using All.
  intros Hk Ht Hs. rw /run_config. apply (triple_bind objects _ _ _ (fun _ => holds r (fun _ => True))); [| | done].
  { apply triple_try, (config_keeps objects eq); [apply _ | by intros c t [??]]. }
  assert (forall msg err, triple objects (holds r (fun _ => True)) (retry_run now r msg err) (either stopped (fun _ => True))) as Hretry.
  { intros msg err s HP. rw /retry_run /bind /try. by destruct (writeStatus _ _ _ _ s). }
  intros [[] | err]; last first.
  { case_match; [| apply Hretry]. eapply (triple_consequence objects); [by apply fail_run_stopped | apply holds_status | done]. }
  rw /run_handler. apply (triple_bind objects _ _ _ (fun res c => forall u rr, res = inl (inl (u, rr)) ->
    rr = cancel_completed /\ holds r (job_stopped r) c)); [| | done].
  { apply triple_try. eapply (triple_consequence objects); [by apply (JobReconcile_stops r) | done |].
    intros res c Hres u rr [= Hr]. by apply (Hres u). }
  intros [[u rr] | err]; last first.
  { intros s _. rw /retry_run /bind /try. by destruct (writeStatus _ _ _ _ s). }
  intros s HP. destruct (HP u rr eq_refl) as [-> Hh]. clear HP.
  pose proof (writeStatus_holds r (JobMapStatus u) cancel_completed (job_stopped r) Hk s Hh) as Hw.
  rw /bind. destruct (writeStatus _ _ _ _ s) as [[o | e] s']; [| done]. destruct Hw as [Hr Hj].
  intros r' Hr'. simpl in *. rw Hr in Hr'. simplify_eq.
  destruct (mergeStatus_cancelled (ob_Status r) (JobMapStatus u) cancel_completed (ob_Generation r)); [done | done | by left | by right].
Qed.

(** A pass over a run to be cancelled. *)
Lemma reconcile_stops registry :
  map_Forall (fun _ h => h = nativejob dec shortHash) registry ->
  triple objects (fun c => forall r, cl_Runs c !! k = Some r -> rp_Suspend (rsp_RunPolicy (ob_Spec r)) = true)
    (OperatorRun.Reconcile dec now registry k) (either stopped (fun _ => True)).
Proof using All.
  intros Hreg. rw /OperatorRun.Reconcile.
  apply (triple_bind objects _ _ _ (fun res c => exists x, res = inl x /\ match x with
    | inl r => holds r (fun _ => True) c /\ ob_key r = k /\ rp_Suspend (rsp_RunPolicy (ob_Spec r)) = true
    | inr e => IsNotFound e = true -> cl_Runs c !! k = None end)); [| | naive_solver].
  { apply triple_try, (triple_get objects eq); [apply _ | apply _ | |]; intros; eexists; (split; [done |]); [| done].
    split_and!; [done | done | by eauto]. }
  intros [r | e]; last first.
  { destruct (IsNotFound e) eqn:Hnf; intros s (x & [= <-] & Hx); [| done]. intros r Hr. by rw (Hx Hnf) in Hr. }
  apply (triple_consequence objects (fun c => holds r (fun _ => True) c /\ ob_key r = k /\ rp_Suspend (rsp_RunPolicy (ob_Spec r)) = true)
    _ _ (either stopped (fun _ => True))); [| intros c (x & [= <-] & Hx); done | done].
  apply triple_pure => -[Hk Hs].
  pose proof (only_native dec shortHash registry (be_Name (rsp_Backend (ob_Spec r))) (be_Engine (rsp_Backend (ob_Spec r))) Hreg) as Hh.
  case_match eqn:Ht.
  - rw /reconcile_terminal. apply (triple_bind objects _ _ _ (either stopped (fun _ => True))); [| | done].
    + case_match.
      * intros s [Hr _] r' Hr'. rw Hr in Hr'. simplify_eq. by left.
      * eapply (triple_consequence objects); [by apply writeStatus_next | apply holds_status |].
        intros [o | e] c; [| done]. intros Hst r' Hr'. left. by rw (Hst r' Hr') /= Ht.
    + intros o. by destruct Hh as [-> | ->]; intros s.
  - rw /reconcile_active. apply (triple_bind objects _ _ _ _ _ (assert_holds r Hk)); [| naive_solver].
    intros [r' e]. apply (triple_consequence objects (fun c => (status_is k (ob_Status r) c /\ (e = None -> holds r' (fun _ => True) c)) /\
      (ob_key r' = k /\ ob_Spec r' = ob_Spec r /\ ob_Status r' = ob_Status r)) _ _ (either stopped (fun _ => True))); [| | done].
    2: { intros c (r1 & e1 & [= <- <-] & ?). naive_solver. }
    apply triple_pure => -[Hk' [Hspec Hstat]]. rw -Hstat in Ht |- *. clear Hstat.
    assert (forall msg, triple objects (fun c => status_is k (ob_Status r') c /\ (e = None -> holds r' (fun _ => True) c))
      (fail_run now r' msg) (either stopped (fun _ => True))) as Hfail.
    { intros msg. eapply (triple_consequence objects); [by apply (fail_run_stopped r' msg) | by intros c [? _] | done]. }
    destruct e as [e |]; [apply Hfail |]. destruct Hh as [-> | ->]; [apply Hfail |].
    destruct (h_Validate _ _); [| apply Hfail]. destruct (Validate _ _); [| apply Hfail].
    apply (triple_consequence objects (holds r' (fun _ => True)) _ _ (either stopped (fun _ => True))); [| | done].
    2: { intros c [_ Hc]. by apply Hc. }
    apply run_config_stops; [done | done | by rw Hspec].
Qed.
End Cancel.
