(* ===== verification/OperatorSample.v ===== *)
(** * Compute operator: a small cluster

    A client that keeps its objects in the cluster itself, never fails without
    a reason and shares it with nobody: the instance the witnesses run on.  And
    plain versions of what the operator uses of apimachinery. *)

From Stdlib Require Import ssreflect ZArith Ascii String.
From stdpp Require Import base gmap list strings.
From S2P Require Import Prelude Placement ApiTypes Names Strconv Listing Kube OperatorTypes OperatorConfig OperatorRun.

(** ** Conditions and names *)

Fixpoint put_condition (now : Z) (conds : list MetaCondition) (c : MetaCondition) : list MetaCondition :=
  match conds with
  | [] => [{| mc_Type := mc_Type c; mc_Status := mc_Status c; mc_ObservedGeneration := mc_ObservedGeneration c;
              mc_LastTransitionTime := Some (default now (mc_LastTransitionTime c));
              mc_Reason := mc_Reason c; mc_Message := mc_Message c |}]
  | old :: rest =>
      if String.eqb (mc_Type old) (mc_Type c) then
        {| mc_Type := mc_Type old; mc_Status := mc_Status c; mc_ObservedGeneration := mc_ObservedGeneration c;
           mc_LastTransitionTime := if String.eqb (mc_Status old) (mc_Status c) then mc_LastTransitionTime old
                                    else Some (default now (mc_LastTransitionTime c));
           mc_Reason := mc_Reason c; mc_Message := mc_Message c |} :: rest
      else old :: put_condition now rest c
  end.

#[export] Program Instance plain_machinery : Machinery := {|
  dns1123_subdomain _ := [];
  config_map_key _ := [];
  aggregate errs := Join (map fe_Field errs) ", ";
  SetStatusCondition := put_condition;
  status_equal a b := bool_decide (a = b);
  map_equal a b := bool_decide (a = b);
  NewControllerRef version kind m :=
    {| ow_APIVersion := version; ow_Kind := kind; ow_Name := om_Name (me_Obj m); ow_UID := me_UID m;
       ow_Controller := true; ow_BlockOwnerDeletion := true |};
  GetControllerOf := List.find ow_Controller |}.
Next Obligation.
  intros now conds c. induction conds as [| old rest IH]; simpl.
  - rw String.eqb_refl. by eexists.
  - destruct (String.eqb (mc_Type old) (mc_Type c)) eqn:Ht; simpl; rw Ht; [by eexists | done].
Qed.
Next Obligation.
  intros now conds c t Ht. induction conds as [| old rest IH]; simpl.
  - by rw (proj2 (String.eqb_neq _ _)) //; congruence.
  - destruct (String.eqb_spec (mc_Type old) (mc_Type c)) as [-> | ?]; simpl; [| by rw /condition /= in IH |- *; rw IH].
    by rw (proj2 (String.eqb_neq _ _)) //; congruence.
Qed.
Next Obligation.
  intros now conds c c'. induction conds as [| old rest IH]; simpl; [done |].
  destruct (String.eqb (mc_Type old) (mc_Type c)) eqn:Ht; simpl; last first.
  { intros. f_equal. by apply IH. }
  intros [= <-] _ Hs Hr Hm Ho. by rw -Hs String.eqb_refl -Hr -Hm -Ho; destruct old.
Qed.
Next Obligation. intros a b. apply bool_decide_eq_true. Qed.
Next Obligation. intros a b. apply bool_decide_eq_true. Qed.
Next Obligation. done. Qed.
Next Obligation. done. Qed.
Next Obligation. intros refs r [Hin Hc]%List.find_some. split; [by apply list_elem_of_In | done]. Qed.
Next Obligation. intros r Hr. simpl. by rw Hr. Qed.

(** ** Decidable specs *)

#[export] Instance Toleration_eq_dec : EqDecision Toleration.
Proof. solve_decision. Defined.
#[export] Instance ResourceRequirements_eq_dec {Q} `{EqDecision Q} : EqDecision (ResourceRequirements Q).
Proof. solve_decision. Defined.
#[export] Instance PodTemplate_eq_dec {Q} `{EqDecision Q} : EqDecision (PodTemplate Q).
Proof. solve_decision. Defined.
#[export] Instance RoleSpec_eq_dec {Q} `{EqDecision Q} : EqDecision (RoleSpec Q).
Proof. solve_decision. Defined.
#[export] Instance BackendSpec_eq_dec : EqDecision BackendSpec.
Proof. solve_decision. Defined.
#[export] Instance SchedulingSpec_eq_dec : EqDecision SchedulingSpec.
Proof. solve_decision. Defined.
#[export] Instance RunPolicySpec_eq_dec : EqDecision RunPolicySpec.
Proof. solve_decision. Defined.
#[export] Instance MLRunSpec_eq_dec {Q} `{EqDecision Q} : EqDecision (MLRunSpec Q).
Proof. solve_decision. Defined.
#[export] Instance Container_eq_dec {Q} `{EqDecision Q} : EqDecision (Container Q).
Proof. solve_decision. Defined.
#[export] Instance PodTemplateSpec_eq_dec {Q} `{EqDecision Q} : EqDecision (PodTemplateSpec Q).
Proof. solve_decision. Defined.
#[export] Instance JobSpec_eq_dec {Q} `{EqDecision Q} : EqDecision (JobSpec Q).
Proof. solve_decision. Defined.

(** ** The client *)

Definition merge_maps (before after cur : gmap string string) : gmap string string :=
  filter (fun kv => before !! kv.1 <> after !! kv.1) after ∪ filter (fun kv => before !! kv.1 = after !! kv.1) cur.

Lemma merge_maps_merged before after cur : merged_map before after cur (merge_maps before after cur).
Proof.
  intros k. rw /merge_maps. case_decide as Hk.
  - rw lookup_union_r; [apply map_lookup_filter_None; right; intros x Hx; naive_solver |].
    apply option_eq => x. rw map_lookup_filter_Some /=. naive_solver.
  - rw lookup_union. destruct (after !! k) as [x |] eqn:Ha.
    + rw (proj2 (map_lookup_filter_Some _ _ _ x)); [by split; [| rw /= Ha] |]. by destruct (filter _ cur !! k).
    + rw (proj2 (map_lookup_filter_None _ _ _)); [by left |].
      rw (proj2 (map_lookup_filter_None _ _ _)); [by right; rw /= Ha |]. done.
Qed.

Section Perfect.
Context {C B S : Type} `{!Kind C B S} `{!EqDecision B}.
Implicit Types o : object B S.

Definition get_object (k : key) (c : C) : (object B S + api_error) * C :=
  (match tab c !! k with
   | Some o => if decide (ob_key o = k) then inl o else inr (APIError "damaged object")
   | None => inr APINotFound
   end, c).

(** The server numbers new objects by the size of the table. *)
Definition create_object o (c : C) : (object B S + api_error) * C :=
  match tab c !! ob_key o with
  | Some _ => (inr APIAlreadyExists, c)
  | None =>
      let o' := {| ob_Meta := {| me_Obj := me_Obj (ob_Meta o); me_UID := string_of_list_ascii (Itoa (Z.of_nat (size (tab c))));
                                 me_Generation := 1; me_Owners := ob_Owners o |};
                   ob_Spec := ob_Spec o; ob_Status := zero_status |} in
      (inl o', put o' c)
  end.

Definition patch_object (before after : object B S) (c : C) : (object B S + api_error) * C :=
  match tab c !! ob_key after with
  | None => (inr APINotFound, c)
  | Some o =>
      if decide (ob_Spec before = ob_Spec after \/ ob_Spec o = ob_Spec before) then
        let o' := {| ob_Meta := {| me_Obj :=
                       {| om_Name := ob_Name o; om_Namespace := ob_Namespace o;
                          om_Labels := merge_maps (ob_Labels before) (ob_Labels after) (ob_Labels o);
                          om_Annotations := merge_maps (ob_Annotations before) (ob_Annotations after) (ob_Annotations o) |};
                       me_UID := ob_UID o;
                       me_Generation := if decide (ob_Spec before = ob_Spec after) then ob_Generation o
                                        else (ob_Generation o + 1)%Z;
                       me_Owners := if decide (ob_Owners before = ob_Owners after) then ob_Owners o else ob_Owners after |};
                     ob_Spec := if decide (ob_Spec before = ob_Spec after) then ob_Spec o else ob_Spec after;
                     ob_Status := ob_Status o |} in
        (inl o', set_tab (<[ob_key after := o']> (tab c)) c)
      else (inr (APIError "conflict"), c)
  end.

Definition patch_object_status (before after : object B S) (c : C) : (object B S + api_error) * C :=
  match tab c !! ob_key after with
  | None => (inr APINotFound, c)
  | Some o => (inl (set_status (ob_Status after) o),
               set_tab (<[ob_key after := set_status (ob_Status after) o]> (tab c)) c)
  end.

Definition delete_object o (c : C) : (unit + api_error) * C :=
  match tab c !! ob_key o with
  | None => (inr APINotFound, c)
  | Some _ => (inl tt, set_tab (delete (ob_key o) (tab c)) c)
  end.

Definition list_objects (namespace : string) (labels : gmap string string) (c : C) : (list (object B S) + api_error) * C :=
  (inl (map snd (List.filter (fun kv => bool_decide (ob_key kv.2 = kv.1) && selected namespace labels kv.2)
          (map_to_list (tab c)))), c).

#[export] Instance perfect_client : Client C B S := {|
  k_Get := get_object; k_Create := create_object; k_Patch := patch_object; k_PatchStatus := patch_object_status;
  k_Delete := delete_object; k_List := list_objects |}.

Context (Hdefault : forall b : B, defaulted (C := C) b b).
Context (Hmerge : forall before after : B, spec_merged (C := C) before after before after).
Context (Hkeep : forall before cur : B, spec_merged (C := C) before before cur cur).

Lemma did_eq (eff : C -> C -> Prop) (c c' : C) : eff c c' -> did eq id eff c c'.
Proof. by exists c, c'. Qed.

Lemma perfect_current : CurrentReads (K := C) (B := B) (S := S) id eq.
Proof.
  split.
  - intros k c. simpl. rw /get_object. destruct (tab c !! k) eqn:Hl; [case_decide |]; by apply did_eq.
  - intros namespace labels c. apply did_eq. split; [done |]. intros o. rw list_elem_of_In in_map_iff. split.
    + intros ([k o'] & <- & [Hin [Hk%bool_decide_eq_true Hsel]%andb_true_iff]%filter_In). simpl in *. subst k.
      split; [| done]. by apply elem_of_map_to_list, list_elem_of_In.
    + intros [Hl Hsel]. exists (ob_key o, o). split; [done |]. apply filter_In. split.
      * by apply list_elem_of_In, elem_of_map_to_list.
      * by rw /= bool_decide_true.
Qed.

Lemma perfect_laws : ClientLaws (K := C) (B := B) (S := S) id eq.
Proof using All.
  split.
  - intros k c. simpl. rw /get_object. destruct (tab c !! k) eqn:Hl; [case_decide |]; by apply did_eq.
  - intros o c. simpl. rw /create_object. destruct (tab c !! ob_key o) eqn:Hl; apply did_eq; [by split |].
    split; [done |]. split; [| done]. split_and!; [done | done | apply Hdefault | done].
  - intros before after c. simpl. rw /patch_object. destruct (tab c !! ob_key after) as [o |] eqn:Hl; [| apply did_eq; by left].
    case_decide as Hspec; [| apply did_eq; by left]. apply did_eq. exists o. split; [done |]. split; [| done].
    split_and!; try done; try apply merge_maps_merged; simpl.
    + intros Heq. by destruct (decide _).
    + case_decide as He; [by rw -He; apply Hkeep | destruct Hspec as [? | ->]; [done | apply Hmerge]].
  - intros before after c. simpl. rw /patch_object_status. destruct (tab c !! ob_key after) as [o |] eqn:Hl; apply did_eq;
      [by exists o | by left].
  - intros o c. simpl. rw /delete_object. destruct (tab c !! ob_key o) eqn:Hl; by apply did_eq.
  - intros namespace labels c. apply did_eq. split; [done |]. intros o Ho. apply list_elem_of_In, in_map_iff in Ho.
    by destruct Ho as ([k o'] & <- & [_ [_ Hsel]%andb_true_iff]%filter_In).
Qed.
End Perfect.

#[export] Instance operator_client Q `{EqDecision Q} : OperatorClient Q (cluster Q) := {|
  oc_runs := perfect_client; oc_jobs := perfect_client; oc_configmaps := perfect_client |}.

Lemma runs_as_refl {Q} (b : JobSpec Q) : runs_as b b.
Proof. split_and!; [by intros a | by intros a | apply pods_as_refl]. Qed.

#[export] Instance operator_laws Q `{EqDecision Q} : OperatorLaws (Q := Q) (K := cluster Q) id eq.
Proof.
  split; apply perfect_laws; try done; try by intros ? ? ->.
  intros b. split; [apply runs_as_refl | by intros a].
Qed.

#[export] Instance operator_current Q `{EqDecision Q} : OperatorCurrent (Q := Q) (K := cluster Q) id eq.
Proof. split; apply perfect_current. Qed.

(** A client whose merge patches of runs fail, and nothing else. *)
Definition flaky_client : OperatorClient Z (cluster Z) := {|
  oc_runs := {| k_Get := get_object; k_Create := create_object;
                k_Patch _ _ c := (inr (APIError "timeout"), c); k_PatchStatus := patch_object_status;
                k_Delete := delete_object; k_List := list_objects |};
  oc_jobs := perfect_client; oc_configmaps := perfect_client |}.

(** ** A run *)

Open Scope string_scope.

(** The fingerprint of a sample spec is its first image. *)
Definition sample_decoders : Decoders Z := {|
  volume_name v := v; mount_name m := m;
  configmap_of name := {| cm_Name := name; cm_Data := {["LEVEL" := "debug"]} |};
  decode_config _ := inl {| bc_CompletionMode := "Indexed"; bc_PodFailurePolicy := None |};
  marshal_spec spec := inl (match rsp_Roles spec with role :: _ => pt_Image (ro_Template role) | [] => "none" end);
  sha256_hex raw := "sha:" ++ raw |}.

Definition sample_spec (image : string) (suspend : bool) : MLRunSpec Z := {|
  rsp_Backend := {| be_Name := "native"; be_Engine := "job"; be_Config := None |};
  rsp_Scheduling := {| sc_Quota := "axisml-team-a-gpu"; sc_PriorityClass := ""; sc_NodeSelector := {["pool" := "gpu"]};
                       sc_Tolerations := [] |};
  rsp_ConfigMaps := ["settings"];
  rsp_Roles := [{| ro_Name := "worker"; ro_Replicas := 2; ro_RestartPolicy := "Never";
                   ro_Template := {| pt_Image := image; pt_ImagePullPolicy := ""; pt_Command := ["train"]; pt_Args := [];
                     pt_Env := []; pt_EnvFrom := []; pt_WorkingDir := ""; pt_Ports := [];
                     pt_Resources := {| rq_Requests := {["cpu" := 4%Z]}; rq_Limits := ∅ |};
                     pt_Volumes := []; pt_VolumeMounts := [] |} |}];
  rsp_RunPolicy := {| rp_Suspend := suspend; rp_ActiveDeadlineSeconds := None; rp_TTLSecondsAfterFinished := Some 60%Z;
                      rp_BackoffLimit := None |} |}.

Definition sample_status (phase : MLRunPhase) : RunStatus :=
  {| st_ObservedGeneration := 1; st_Phase := phase; st_Message := ""; st_StartedAt := None; st_FinishedAt := None;
     st_Conditions := []; st_Roles := [] |}.

Definition sample_run (image fp : string) (suspend : bool) (phase : MLRunPhase) : Run Z := {|
  ob_Meta := {| me_Obj := {| om_Name := "smoke"; om_Namespace := "team-a";
                             om_Labels := <[LabelQuota := "gpu"]> {[LabelRunID := "r-1"]};
                             om_Annotations := if String.eqb fp "" then ∅ else {[AnnotationAppliedSpec := fp]} |};
                me_UID := "u-1"; me_Generation := 1; me_Owners := [] |};
  ob_Spec := sample_spec image suspend; ob_Status := sample_status phase |}.

Definition sample_key : key := ("team-a", "smoke").

(** A cluster with this run and nothing else. *)
Definition sample_cluster (r : Run Z) : cluster Z :=
  {| cl_Runs := {[sample_key := r]}; cl_Jobs := ∅; cl_ConfigMaps := ∅ |}.

Lemma sample_only (r r' : Run Z) : cl_Runs (sample_cluster r) !! sample_key = Some r' -> r' = r.
Proof. simpl. by intros [_ ->]%lookup_singleton_Some. Qed.

Lemma sample_get (r : Run Z) : ob_key r = sample_key -> get_object sample_key (sample_cluster r) = (inl r, sample_cluster r).
Proof. intros Hk. by rw /get_object /= lookup_singleton_eq decide_True. Qed.

Lemma sample_patch_status (r before after : Run Z) : ob_key after = sample_key ->
  patch_object_status before after (sample_cluster r) =
    (inl (set_status (ob_Status after) r), sample_cluster (set_status (ob_Status after) r)).
Proof. intros Hk. rw /patch_object_status Hk /= lookup_singleton_eq. by rw insert_singleton_eq. Qed.

Definition sample_hash (_ : bytes) : bytes := list_ascii_of_string "00000000".

Definition sample_registry {K} `{!OperatorClient Z K} : Registry Z K :=
  {[("native", "job") := nativejob sample_decoders sample_hash]}.

Definition sample_job_key : key := ("team-a", "smoke-worker").

Lemma sample_registry_native {K} `{!OperatorClient Z K} :
  map_Forall (fun _ h => h = nativejob sample_decoders sample_hash) (sample_registry (K := K)).
Proof.
  intros i h Hh. rw /sample_registry in Hh. by apply lookup_singleton_Some in Hh as [_ <-].
Qed.

(** A first pass creates the Job and the ConfigMap and anchors the spec. *)
Example sample_pass :
  let '(res, c) := Reconcile sample_decoders 100 sample_registry sample_key
                     (sample_cluster (sample_run "img" "" false MLRunPhaseUnset)) in
  res = inl 0%Z /\ is_Some (cl_Jobs c !! sample_job_key) /\ is_Some (cl_ConfigMaps c !! ("team-a", "settings")) /\
  (anchor <$> cl_Runs c !! sample_key) = Some "sha:img".
Proof. vm_compute. split_and!; [done | by eexists | by eexists | done]. Qed.
