(* ===== verification/OperatorProperties.v ===== *)
(** * Compute operator: theorems

    Finished runs are not run again, Jobs follow the anchored spec, the
    ConfigMaps of a workload converge and foreign ones are left alone, a
    cancelled run stops, and the pods of a Job are the ones admission counted;
    and three places where the dispatcher is less forgiving than it means to
    be. *)

From Stdlib Require Import ssreflect ZArith Ascii String Lia.
From stdpp Require Import base gmap list strings relations.
From S2P Require Import Prelude Placement ApiTypes Store Admission Runtime Names Mlrun QuotaCache ElasticQuota Strconv Listing StatusMap Kube OperatorTypes OperatorConfig OperatorRun OperatorFacts OperatorSample.

(** ** Passes and interference *)

(** Passes over the run [k], with anything others may do between and during
    them. *)
Abbreviation operator_step objects dec registry k mine :=
  (controller_step objects (others k mine) (fun now => Reconcile dec now registry k)).

(** C18: passes that read the run as it stands do not run a finished run again.
    Once the phase is Succeeded or Failed and the Job is gone, passes leave the
    phase as it is and create no Job, whatever others do to the spec, to
    ConfigMaps and to Jobs under other names before, between and during the
    passes, whichever calls fail, and however outdated what is read of Jobs and
    ConfigMaps is.  Assumed are reads of runs that are current (through a cache
    that lags the conclusion fails, see [outdated_read_reruns]), that nobody
    else writes the run's status or creates its Job, and handlers without a
    sweep, as the only one of the operator is. *)
Theorem finished_runs_stay_finished `{!Machinery} {Q K : Type} `{!OperatorClient Q K} (objects : K -> cluster Q)
    (dec : Decoders Q) (registry : Registry Q K) (k : key) (mine : key -> Prop)
    (Hlaws : OperatorLaws objects (others k mine))
    (Hcurrent : CurrentReads (B := MLRunSpec Q) (S := RunStatus) objects (others k mine)) (p : MLRunPhase) (jk : key) (s s' : K) :
  isTerminal p = true -> mine jk -> map_Forall (fun _ h => h_Sweep h = None) registry ->
  rtc (operator_step objects dec registry k mine) s s' ->
  finished k p (objects s) -> no_job jk (objects s) ->
  finished k p (objects s') /\ no_job jk (objects s').
Proof.
  intros Hp Hm Hsweep Hrtc Hf Hno.
  eapply (controller_invariant objects (others k mine) (fun now => Reconcile dec now registry k) (fun c => finished k p c /\ no_job jk c)); [| | done | done].
  - intros now. by apply (reconcile_finished objects (others k mine) dec now k mine).
  - apply stable_and; [by apply (stable_finished (others k mine) k mine) | by apply (stable_no_job (others k mine) k mine)].
Qed.

(** The sample cluster with anybody's interference. *)
Lemma sample_laws (k : key) (mine : key -> Prop) : OperatorLaws (Q := Z) (K := cluster Z) id (others k mine).
Proof. split; (apply laws_weaken; [apply others_refl | apply _]). Qed.

Lemma sample_current (k : key) (mine : key -> Prop) :
  CurrentReads (K := cluster Z) (B := MLRunSpec Z) (S := RunStatus) id (others k mine).
Proof. apply current_weaken; [apply others_refl | apply perfect_current]. Qed.

(** A succeeded run whose Job is gone: two passes and a spec edit later it is
    still succeeded and has no Job. *)
Lemma finished_runs_stay_finished_witness :
  let c := sample_cluster (sample_run "img" "sha:img" false MLRunPhaseSucceeded) in
  let edited := sample_cluster (sample_run "other" "sha:img" false MLRunPhaseSucceeded) in
  let c' := (Reconcile sample_decoders 200 sample_registry sample_key edited).2 in
  finished sample_key MLRunPhaseSucceeded c' /\ no_job sample_job_key c'.
Proof.
  intros c edited c'.
  apply (finished_runs_stay_finished id sample_decoders sample_registry sample_key (fun _ => True)
    (sample_laws sample_key (fun _ => True)) (sample_current sample_key (fun _ => True)) MLRunPhaseSucceeded sample_job_key c c').
  - reflexivity.
  - exact I.
  - intros i h ->%(sample_registry_native i). reflexivity.
  - apply (rtc_l _ c edited); [apply step_others | apply rtc_once, (step_pass _ _ (fun now => Reconcile sample_decoders now sample_registry sample_key) 200)].
    split; [| intros jk j _ Hj; exists j; by split].
    intros r' ->%sample_only. by exists (sample_run "img" "sha:img" false MLRunPhaseSucceeded).
  - by intros r ->%sample_only.
  - reflexivity.
Defined.

(** C26: a pass that begins while the run carries the fingerprint of a spec
    creates for it only a Job that runs the pods of a spec with exactly this
    fingerprint, whatever users write into the spec before, between and during
    such passes and whichever calls fail: a changed spec is refused, not
    applied.  Reads of Jobs and ConfigMaps may be outdated; reads of runs are
    current, and nobody else writes the fingerprint or the pods of Jobs under
    the run's names.  The pass that stamps the fingerprint is not covered: see
    [stamping_pass_races] for an edit between its read and its patch. *)
Theorem jobs_follow_the_anchor `{!Machinery} {Q K : Type} `{!OperatorClient Q K} (objects : K -> cluster Q)
    (dec : Decoders Q) (shortHash : bytes -> bytes) (registry : Registry Q K) (k : key) (mine : key -> Prop)
    (Hlaws : OperatorLaws objects (others k mine))
    (Hcurrent : CurrentReads (B := MLRunSpec Q) (S := RunStatus) objects (others k mine)) (fp : string) (s s' : K) :
  fp <> "" -> map_Forall (fun _ h => h = nativejob dec shortHash) registry ->
  rtc (operator_step objects dec registry k mine) s s' ->
  (forall r, cl_Runs (objects s) !! k = Some r -> anchor r = fp) ->
  forall jk j, mine jk -> cl_Jobs (objects s') !! jk = Some j ->
    (exists j0, cl_Jobs (objects s) !! jk = Some j0 /\ same_pods (ob_Spec j0) (ob_Spec j)) \/
    built_from dec shortHash fp j.
Proof.
  intros Hfp Hreg Hrtc Ha.
  eapply (controller_invariant objects (others k mine) (fun now => Reconcile dec now registry k) (anchored dec shortHash k mine fp (cl_Jobs (objects s))));
    [| | done |].
  - intros now. by apply (reconcile_anchored objects (others k mine) dec now shortHash k mine).
  - by apply (stable_anchored (others k mine) dec shortHash k mine).
  - split; [done |]. intros jk j Hm Hj. left. by exists j.
Qed.

(** An anchored run gets a Job of the anchored image. *)
Lemma jobs_follow_the_anchor_witness :
  let c := sample_cluster (sample_run "img" "sha:img" false MLRunPhasePending) in
  let c' := (Reconcile sample_decoders 200 sample_registry sample_key c).2 in
  exists j, cl_Jobs c' !! sample_job_key = Some j /\ built_from sample_decoders sample_hash "sha:img" j.
Proof.
  intros c c'. destruct (cl_Jobs c' !! sample_job_key) as [j |] eqn:Hj; [| by vm_compute in Hj].
  exists j. split; [reflexivity |].
  destruct (jobs_follow_the_anchor id sample_decoders sample_hash sample_registry sample_key (fun _ => True)
    (sample_laws sample_key (fun _ => True)) (sample_current sample_key (fun _ => True)) "sha:img" c c') with (jk := sample_job_key) (j := j) as [(j0 & Hj0 & _) | Hb].
  - discriminate.
  - apply sample_registry_native.
  - apply rtc_once, (step_pass _ _ (fun now => Reconcile sample_decoders now sample_registry sample_key) 200).
  - by intros r ->%sample_only.
  - exact I.
  - exact Hj.
  - discriminate Hj0.
  - exact Hb.
Defined.

(** Somebody edits the run right after it is read. *)
Definition racing_client (edit : MLRunSpec Z) : OperatorClient Z (cluster Z) := {|
  oc_runs := {| k_Get k c := let '(r, c) := get_object k c in
                  (r, match cl_Runs c !! k with Some o => set_tab (<[k := set_spec edit o]> (cl_Runs c)) c | None => c end);
                k_Create := create_object; k_Patch := patch_object; k_PatchStatus := patch_object_status;
                k_Delete := delete_object; k_List := list_objects |};
  oc_jobs := perfect_client; oc_configmaps := perfect_client |}.

(** The patch that stamps the fingerprint of the spec that was read returns the
    run with the edited spec, and the same pass builds the Job from it: the Job
    does not have the fingerprint the run carries. *)
Example stamping_pass_races :
  let '(_, c) := @Reconcile _ _ _ (racing_client (sample_spec "edited" false)) sample_decoders 200 sample_registry sample_key
                   (sample_cluster (sample_run "img" "" false MLRunPhaseUnset)) in
  (anchor <$> cl_Runs c !! sample_key) = Some "sha:img" /\
  (map ct_Image ∘ pts_Containers ∘ js_Template ∘ ob_Spec <$> cl_Jobs c !! sample_job_key) = Some ["edited"].
Proof. vm_compute. by split. Qed.

(** ** ConfigMaps *)

(** When reads are current and nobody else writes: when the upkeep of a workload's ConfigMaps succeeds, every declared one
    exists with its data and labels under the workload's control and no
    undeclared one is left; whether it succeeds or fails, runs, Jobs and the
    ConfigMaps controlled by others are as before, so a name somebody else
    holds is never taken over; and on the result another upkeep writes
    nothing. *)
Theorem configmaps_converge `{!Machinery} {Q K : Type} `{!OperatorClient Q K} (objects : K -> cluster Q)
    (Hlaws : OperatorLaws objects eq) (Hcurrent : OperatorCurrent objects eq) {B S : Type} (owner : object B S) (gvk : string * string)
    (extra : gmap string string) (configMaps : list ConfigMap) (s : K) :
  NoDup (map cm_Name configMaps) ->
  let '(res, s') := OperatorConfig.Reconcile owner gvk configMaps extra s in
  foreign_kept owner (objects s) (objects s') /\
  (res = inl tt ->
     converged owner extra configMaps (objects s') /\
     objects (OperatorConfig.Reconcile owner gvk configMaps extra s').2 = objects s').
Proof.
  intros Hnd. pose proof (config_converges objects owner gvk extra configMaps (objects s) Hnd s eq_refl) as Hc.
  destruct (OperatorConfig.Reconcile owner gvk configMaps extra s) as [[[] | e] s']; [| by split].
  destruct Hc as [Hf Hc]. split; [done |]. intros _. split; [done |].
  by apply (config_settled objects owner gvk extra configMaps (objects s')).
Qed.

Lemma configmaps_converge_witness :
  let owner := sample_run "img" "" false MLRunPhaseUnset in
  let specs := [{| cm_Name := "settings"; cm_Data := {["LEVEL" := "debug"]} |}] in
  let '(res, c') := OperatorConfig.Reconcile owner (GroupVersion, "MLRun") specs ∅ (sample_cluster owner) in
  res = inl tt /\ converged owner ∅ specs c'.
Proof.
  intros owner specs.
  pose proof (configmaps_converge id (operator_laws Z) (operator_current Z) owner (GroupVersion, "MLRun") ∅ specs (sample_cluster owner)
    ltac:(by apply NoDup_singleton)) as Hc.
  assert ((OperatorConfig.Reconcile owner (GroupVersion, "MLRun") specs ∅ (sample_cluster owner)).1 = inl tt) as Hres
    by (vm_compute; reflexivity).
  destruct (OperatorConfig.Reconcile _ _ _ _ _) as [res c']. simpl in Hres. split; [exact Hres | apply Hc, Hres].
Defined.

(** ** Cancelling *)

(** With reads that are current and nobody else writing: when a pass over a
    run with [runPolicy.suspend] succeeds, the run is
    terminal, or its Job is absent or suspended and the status makes
    compute-service take a run that is being cancelled to Cancelled.  A run
    that is cancelled before its Job exists never gets one. *)
Theorem cancel_takes_effect `{!Machinery} {Q K : Type} `{!OperatorClient Q K} (objects : K -> cluster Q)
    (Hlaws : OperatorLaws objects eq) (Hcurrent : OperatorCurrent objects eq) (dec : Decoders Q) (shortHash : bytes -> bytes)
    (registry : Registry Q K) (now : Z) (k : key) (s s' : K) (res : Result) :
  map_Forall (fun _ h => h = nativejob dec shortHash) registry ->
  (forall r, cl_Runs (objects s) !! k = Some r -> rp_Suspend (rsp_RunPolicy (ob_Spec r)) = true) ->
  Reconcile dec now registry k s = (inl res, s') ->
  forall r, cl_Runs (objects s') !! k = Some r ->
    isTerminal (st_Phase (ob_Status r)) = true \/
    ((forall cur t, (MapRun RunCanceling cur (observed_status (ob_Status r)) t).1 = RunCancelled) /\
     forall j, cl_Jobs (objects s') !! (ob_Namespace r, jobName shortHash r) = Some j -> js_Suspend (ob_Spec j) = Some true).
Proof.
  intros Hreg Hs Heq r Hr. pose proof (reconcile_stops objects dec now shortHash k registry Hreg s Hs) as Hst.
  rw Heq in Hst. destruct (Hst r Hr) as [Ht | [Hc Hj]]; [by left | right]. split; [| done].
  intros cur t. rw /MapRun. rw /cancelled_status in Hc. by case_match; rw bool_decide_true // Hc.
Qed.

Lemma cancel_takes_effect_witness :
  let c := sample_cluster (sample_run "img" "sha:img" true MLRunPhasePending) in
  exists c' r, Reconcile sample_decoders 200 sample_registry sample_key c = (inl 0%Z, c') /\
    cl_Runs c' !! sample_key = Some r /\ no_job sample_job_key c' /\
    (isTerminal (st_Phase (ob_Status r)) = true \/
     (MapRun RunCanceling {| rs_Message := ""; rs_StartedAt := None; rs_FinishedAt := None |}
        (observed_status (ob_Status r)) 300).1 = RunCancelled).
Proof.
  intros c. set (out := Reconcile sample_decoders 200 sample_registry sample_key c).
  assert (out.1 = inl 0%Z) as Hres by (vm_compute; reflexivity).
  destruct (cl_Runs out.2 !! sample_key) as [r |] eqn:Hr; [| by vm_compute in Hr].
  exists out.2, r. split; [rewrite -Hres; apply surjective_pairing |]. split; [exact Hr |]. split; [vm_compute; reflexivity |].
  destruct (cancel_takes_effect id (operator_laws Z) (operator_current Z) sample_decoders sample_hash sample_registry 200 sample_key c out.2 0%Z) with (r := r)
    as [Ht | [Hm _]].
  - apply sample_registry_native.
  - by intros r' ->%sample_only.
  - rewrite -Hres. apply surjective_pairing.
  - exact Hr.
  - by left.
  - right. apply Hm.
Defined.

(** ** Errors that are final *)

(** A merge patch that fails once while the fingerprint is recorded ends
    the run for good: the pass writes Failed, returns no error, and so is not
    retried. *)
Theorem anchor_error_is_final `{!Machinery} {Q K : Type} `{!OperatorClient Q K} (dec : Decoders Q) (now : Z)
    (registry : Registry Q K) (k : key) (s s1 s2 s3 : K) (mlJob fresh : Run Q) (e : api_error) :
  let local := set_anchor (specFingerprint dec mlJob) mlJob in
  let message := error_text (Wrapped "anchor applied-spec annotation" e) in
  let next := mergeStatus now (ob_Status mlJob) (phase_result MLRunPhaseFailed message) ReconcileResult_zero
                (ob_Generation mlJob) in
  k_Get k s = (inl mlJob, s1) -> isTerminal (st_Phase (ob_Status mlJob)) = false -> anchor mlJob = "" ->
  k_Patch mlJob local s1 = (inr e, s2) -> k_PatchStatus local (set_status next local) s2 = (inl fresh, s3) ->
  Reconcile dec now registry k s = (inl 0%Z, s3) /\ st_Phase next = MLRunPhaseFailed /\ st_Message next = message.
Proof.
  intros local message next Hget Ht Ha Hpatch Hstatus.
  assert (st_Phase next = MLRunPhaseFailed) as Hphase by by rw /next /mergeStatus /= Ht.
  split_and!; [| done | by rw /next /mergeStatus].
  rw /Reconcile /bind /try Hget Ht /reconcile_active /bind /assertSpecImmutable Ha /= /bind /try Hpatch /=.
  rw /fail_run /bind /writeStatus. change (ob_Status (set_anchor _ mlJob)) with (ob_Status mlJob).
  change (ob_Generation (set_anchor _ mlJob)) with (ob_Generation mlJob). rw -/message -/next -/local.
  destruct (status_equal _ _) eqn:Heq.
  - apply status_equal_spec in Heq. by rw Heq Hphase in Ht.
  - by rw /wrap Hstatus.
Qed.

Lemma anchor_error_is_final_witness :
  let c := sample_cluster (sample_run "img" "" false MLRunPhasePending) in
  exists c', @Reconcile _ _ _ flaky_client sample_decoders 200 sample_registry sample_key c = (inl 0%Z, c') /\
    (st_Phase ∘ ob_Status <$> cl_Runs c' !! sample_key) = Some MLRunPhaseFailed.
Proof.
  intros c. set (r := sample_run "img" "" false MLRunPhasePending).
  set (local := set_anchor (specFingerprint sample_decoders r) r).
  set (next := mergeStatus 200 (ob_Status r) (phase_result MLRunPhaseFailed "anchor applied-spec annotation: timeout")
    ReconcileResult_zero (ob_Generation r)).
  exists (sample_cluster (set_status next r)). split; [| by rewrite /= lookup_singleton_eq].
  destruct (@anchor_error_is_final _ _ _ flaky_client sample_decoders 200 sample_registry sample_key c c c
    (sample_cluster (set_status next r)) r (set_status next r) (APIError "timeout")) as [Hpass _].
  - by apply sample_get.
  - reflexivity.
  - reflexivity.
  - reflexivity.
  - by apply (sample_patch_status r).
  - exact Hpass.
Defined.

Lemma length_concat (a b : string) : String.length (a +:+ b) = (String.length a + String.length b)%nat.
Proof. induction a as [| x a IH]; [done |]. by rw /= IH. Qed.

(** Warnings are appended to the message that is there, which holds the
    warnings of the pass before: the message grows with every pass. *)
Lemma warnings_accumulate `{!Machinery} (now : Z) (existing : RunStatus) (m : MapStatusResult) (r : ReconcileResult) (g : Z) :
  rr_Warnings r <> [] -> mp_Message m = "" -> st_Message existing <> "" ->
  (String.length (st_Message existing) < String.length (st_Message (mergeStatus now existing m r g)))%nat.
Proof.
  intros Hw Hm He. rw /mergeStatus /= /merge_message Hm /=. destruct (rr_Warnings r) as [| x l]; [done |].
  rw (proj2 (String.eqb_neq _ _)) //. rw !length_concat /=. lia.
Qed.

(** The manager's client reads from a cache.  A pass over an outdated read of a
    run that has succeeded creates the Job again and takes the phase back. *)
Example outdated_read_reruns :
  let '(_, c) := reconcile_active sample_decoders 200 "native" "job" (Some (nativejob sample_decoders sample_hash))
                   (sample_run "img" "sha:img" false MLRunPhaseRunning)
                   (sample_cluster (sample_run "img" "sha:img" false MLRunPhaseSucceeded)) in
  is_Some (cl_Jobs c !! sample_job_key) /\
  (st_Phase ∘ ob_Status <$> cl_Runs c !! sample_key) = Some MLRunPhasePending.
Proof. vm_compute. split; [by eexists | done]. Qed.

(** ** Compute operator: the Job of an admitted run

    Where the operator meets the other components: what the admission
    controller reserved for a run, what the Job's pods request, and the label
    by which the scheduler finds their quota. *)

(** ** Validated runs *)

Section Validated.
Context {Q : Type} (dec : Decoders Q) (shortHash : bytes -> bytes).
Implicit Types mlJob : Run Q.

(** What the checks on the labels guarantee. *)
Lemma labels_present mlJob :
  EnsureRequiredCRLabels mlJob = [] ->
  map_get "" (ob_Labels mlJob) LabelRunID <> "" /\ map_get "" (ob_Labels mlJob) ApiTypes.LabelQuota <> "".
Proof.
  rw /EnsureRequiredCRLabels. case_decide; [done |]. simpl.
  destruct (String.eqb_spec (map_get "" (ob_Labels mlJob) LabelRunID) ""); [done |].
  by destruct (String.eqb_spec (map_get "" (ob_Labels mlJob) ApiTypes.LabelQuota) "").
Qed.

(** A run that passes [Validate] has one role, called worker, with at least one
    replica, a quota and a configuration that decodes. *)
Lemma validated mlJob :
  JobValidate dec mlJob = [] ->
  exists role, rsp_Roles (ob_Spec mlJob) = [role] /\ ro_Name role = DefaultRoleName /\ (1 <= ro_Replicas role)%Z /\
    sc_Quota (rsp_Scheduling (ob_Spec mlJob)) <> "" /\ (exists cfg, decodeConfig dec mlJob = inl cfg) /\
    map_get "" (ob_Labels mlJob) LabelRunID <> "" /\ map_get "" (ob_Labels mlJob) ApiTypes.LabelQuota <> "".
Proof.
  rw /JobValidate. intros [Hlabels Hrest]%app_eq_nil.
  destruct (rsp_Roles (ob_Spec mlJob)) as [| role [| ? ?]]; [done | | done].
  apply app_eq_nil in Hrest as [Hrole [Hquota Hcfg]%app_eq_nil]. rw /validate_role in Hrole.
  apply app_eq_nil in Hrole as [Hname [Hrep _]%app_eq_nil].
  exists role. pose proof (labels_present _ Hlabels) as [? ?]. split_and!; try done.
  - by destruct (String.eqb_spec (ro_Name role) DefaultRoleName).
  - destruct (Z.ltb_spec (ro_Replicas role) 1); [done | lia].
  - by destruct (String.eqb_spec (sc_Quota (rsp_Scheduling (ob_Spec mlJob))) "").
  - move: Hcfg. rw /validate_config /decodeConfig. repeat case_match; try done; by eexists.
Qed.
End Validated.

(** Without a Job the handler creates the one that [buildJob] builds. *)
Lemma creates_job {Q K : Type} (client : OperatorClient Q K) (dec : Decoders Q) (shortHash : bytes -> bytes) (mlJob : Run Q)
    (job : Job Q) (s s1 : K) e :
  buildJob dec shortHash mlJob = inl job -> rp_Suspend (rsp_RunPolicy (ob_Spec mlJob)) = false ->
  k_Get (ob_Namespace mlJob, jobName shortHash mlJob) s = (inr e : Job Q + api_error, s1) -> IsNotFound e = true ->
  match JobReconcile dec shortHash mlJob s, k_Create job s1 with
  | (inl (u, _), s'), (inl made, s2) => u = Some (UnderlyingJob made) /\ s' = s2
  | (inr _, s'), (inr _, s2) => s' = s2
  | _, _ => False
  end.
Proof.
  intros Hb Hs Hg He. rw /JobReconcile {1}/bind /try Hg He Hs Hb /bind /wrap. by destruct (k_Create job s1) as [[made | e'] s2].
Qed.

(** C27: the Job of a run is what admission counted.  Take a run that still has
    the spec compute-service rendered from its row and passes the operator's
    validation: its Job can be built, and has as many pods as the replicas
    reserved for the only role, each requesting the resources that were reserved
    per replica, on the nodes and with the tolerations admission looked at,
    carrying the label under which the scheduler charges the run's quota.  When
    the run is not suspended and its Job is not found, the handler's step is to
    create exactly this Job. *)
Theorem job_is_what_was_admitted {Q : Type} `{!Quantity Q} (dec : Decoders Q) (shortHash : bytes -> bytes)
    (row : Store.MLRun Q) (tenantPrefix : bool) (cr : MLRunCR Q) (mlJob : Run Q) (w : desiredWorkload Q) :
  ToCR shortHash row tenantPrefix = inl cr -> ob_Spec mlJob = rcr_Spec cr ->
  runWorkload row = inl w -> JobValidate dec mlJob = [] ->
  exists job main,
    buildJob dec shortHash mlJob = inl job /\
    (forall (K : Type) (client : OperatorClient Q K) (s s1 : K) e, rp_Suspend (rsp_RunPolicy (ob_Spec mlJob)) = false ->
       k_Get (ob_Namespace mlJob, jobName shortHash mlJob) s = (inr e : Job Q + api_error, s1) -> IsNotFound e = true ->
       match JobReconcile dec shortHash mlJob s, k_Create job s1 with
       | (inl (u, _), s'), (inl made, s2) => u = Some (UnderlyingJob made) /\ s' = s2
       | (inr _, s'), (inr _, s2) => s' = s2
       | _, _ => False
       end) /\
    pts_Containers (js_Template (ob_Spec job)) = [main] /\
    js_Completions (ob_Spec job) = js_Parallelism (ob_Spec job) /\ (1 <= deref32 (js_Parallelism (ob_Spec job)))%Z /\
    dw_roles w = [{| rr_name := DefaultRoleName; rr_replicas := deref32 (js_Parallelism (ob_Spec job));
                     rr_requests := copyList (rq_Requests (ct_Resources main)) |}] /\
    dw_nodeSelector w = pts_NodeSelector (js_Template (ob_Spec job)) /\
    dw_tolerations w = pts_Tolerations (js_Template (ob_Spec job)) /\
    pts_SchedulerName (js_Template (ob_Spec job)) = SchedulerName /\
    (forall (P : Type) (pod : Pod P), pts_Labels (js_Template (ob_Spec job)) ⊆ pod_Labels pod ->
       quota_of pod = sc_Quota (rsp_Scheduling (ob_Spec mlJob)) /\ quota_of pod <> "").
Proof.
  intros Hcr Hspec Hw Hvalid. assert (unmarshal (mr_Spec row) = inl (ob_Spec mlJob)) as Hrow.
  { rw Hspec. rw /ToCR in Hcr. rw /runWorkload in Hw. by destruct (mr_Spec row); simplify_eq/=. }
  clear Hcr Hspec. destruct (validated dec mlJob Hvalid) as (role & Hroles & Hname & Hrep & Hquota & [cfg Hcfg] & Hrun & Hq).
  rw /runWorkload Hrow Hroles in Hw. simplify_eq/=.
  destruct (buildJob dec shortHash mlJob) as [job | err] eqn:Hb; pose proof Hb as Hjob; rw /buildJob Hroles Hcfg /InjectAxisMLLabels in Hjob;
    (do 3 (rw (proj2 (String.eqb_neq _ _)) // in Hjob)).
  exists job. eexists. split; [done |]. split; [intros K client s s1 e; by apply creates_job |]. injection Hjob as <-. simpl.
  split_and!; [done | done | done | | | done | done |].
  - rw (proj2 (Z.ltb_lt _ _)) /=; [lia |]. by rw /role_request Hname.
  - by rw right_id_L.
  - intros P pod Hl. rw /quota_of /map_get. rw left_id_L in Hl.
    by rw (lookup_weaken _ _ _ (sc_Quota (rsp_Scheduling (ob_Spec mlJob))) (lookup_insert_eq _ _ _) Hl).
Qed.

Lemma job_is_what_was_admitted_witness :
  let mlJob := sample_run "img" "" false MLRunPhaseUnset in
  let row := {| mr_ID := "r-1"; mr_Namespace := "team-a"; mr_Name := "smoke"; mr_DisplayName := ""; mr_Description := "";
    mr_Owner := ""; mr_Labels := JEmpty; mr_Annotations := JEmpty; mr_Spec := JVal (ob_Spec mlJob);
    mr_Priority := 0; mr_Phase := RunCreating; mr_StatusJSON := JEmpty; mr_ScheduledAt := None; mr_CreatedAt := 1;
    mr_UpdatedAt := 1; mr_DeletedAt := None |} in
  exists job w, buildJob sample_decoders sample_hash mlJob = inl job /\ runWorkload row = inl w /\
    map rr_replicas (dw_roles w) = [deref32 (js_Parallelism (ob_Spec job))].
Proof.
  intros mlJob row. destruct (runWorkload row) as [w | e] eqn:Hw; [| discriminate Hw].
  destruct (ToCR sample_hash row false) as [cr | e] eqn:Hcr; [| discriminate Hcr].
  destruct (job_is_what_was_admitted sample_decoders sample_hash row false cr mlJob w) as (job & main & Hb & _ & _ & _ & _ & Hr & _).
  - exact Hcr.
  - injection Hcr as <-. reflexivity.
  - exact Hw.
  - vm_compute. reflexivity.
  - exists job, w. split; [exact Hb |]. split; [reflexivity |]. by rewrite Hr.
Defined.
