(* ===== verification/ServingBase.v ===== *)
(** * Serving operator: objects

    What the MLService and MLTrafficPolicy controllers of the compute operator
    read and write: the full statuses of the two custom resources
    ([apis/mlservice/v1alpha1], [apis/mltrafficpolicy/v1alpha1]), the
    Deployments, StatefulSets, Services and HTTPRoutes they derive, and the
    cluster these live in.  JSON texts inside a spec are decoded by
    [ServingDecoders]; what the controllers use of apimachinery beyond
    [Machinery] is [ServingMachinery]. *)

From Stdlib Require Import ssreflect ZArith Ascii String.
From stdpp Require Import base gmap list strings.
From S2P Require Import Prelude Placement ApiTypes Names Strconv Listing Kube OperatorTypes OperatorConfig.

Open Scope string_scope.

Definition PredictorRoleName : string := "predictor".

(** The text of a phase. *)
Definition phase_text (p : Phase) : string :=
  match p with
  | PhaseUnset => "" | PhasePending => "Pending" | PhaseReady => "Ready" | PhaseDegraded => "Degraded"
  | PhaseFailed => "Failed"
  end.

(** ** Statuses *)

(** [RoleStatus] of MLService *)
Record SvcRoleStatus := { sr_Name : string; sr_Replicas : Z; sr_ReadyReplicas : Z }.

#[export] Instance SvcRoleStatus_eq_dec : EqDecision SvcRoleStatus.
Proof. solve_decision. Defined.

Record MLServiceStatus := {
  vst_ObservedGeneration : Z;
  vst_Phase : Phase;
  vst_Message : string;
  vst_Endpoint : string;
  vst_ReadyReplicas : Z;
  vst_Selector : string;
  vst_Conditions : list MetaCondition;
  vst_Roles : list SvcRoleStatus }.

#[export] Instance MLServiceStatus_eq_dec : EqDecision MLServiceStatus.
Proof. solve_decision. Defined.

Definition MLServiceStatus_zero : MLServiceStatus :=
  {| vst_ObservedGeneration := 0; vst_Phase := PhaseUnset; vst_Message := ""; vst_Endpoint := "";
     vst_ReadyReplicas := 0; vst_Selector := ""; vst_Conditions := []; vst_Roles := [] |}.

(** What compute-service reads of it. *)
Definition observed_service (st : MLServiceStatus) : MLServiceCRStatus :=
  {| scs_Phase := vst_Phase st; scs_Message := vst_Message st; scs_Endpoint := vst_Endpoint st;
     scs_ReadyReplicas := vst_ReadyReplicas st |}.

Record MLTrafficPolicyStatus := {
  pst_ObservedGeneration : Z;
  pst_Phase : Phase;
  pst_Message : string;
  pst_Endpoint : string;
  pst_Backends : list BackendStatus;
  pst_Conditions : list MetaCondition }.

#[export] Instance MLTrafficPolicyStatus_eq_dec : EqDecision MLTrafficPolicyStatus.
Proof. solve_decision. Defined.

Definition MLTrafficPolicyStatus_zero : MLTrafficPolicyStatus :=
  {| pst_ObservedGeneration := 0; pst_Phase := PhaseUnset; pst_Message := ""; pst_Endpoint := "";
     pst_Backends := []; pst_Conditions := [] |}.

Definition observed_policy (st : MLTrafficPolicyStatus) : MLTrafficPolicyCRStatus :=
  {| tcs_Phase := pst_Phase st; tcs_Message := pst_Message st; tcs_Endpoint := pst_Endpoint st;
     tcs_Backends := pst_Backends st |}.

(** ** Derived objects *)

(** [appsv1.DeploymentSpec]; the selector is its [MatchLabels]. *)
Record DeploymentSpec {Q : Type} := {
  de_Replicas : option Z;
  de_Selector : gmap string string;
  de_Template : PodTemplateSpec Q;
  de_ProgressDeadlineSeconds : option Z }.
Arguments DeploymentSpec : clear implicits.

(** [appsv1.DeploymentCondition] *)
Record DeploymentCondition := { dc_Type : string; dc_Status : string; dc_Reason : string; dc_Message : string }.

Record DeploymentStatus := { dst_ReadyReplicas : Z; dst_Conditions : list DeploymentCondition }.

(** [appsv1.StatefulSetSpec] *)
Record StatefulSetSpec {Q : Type} := {
  ss_Replicas : option Z;
  ss_Selector : gmap string string;
  ss_ServiceName : string;
  ss_PodManagementPolicy : string;
  ss_Template : PodTemplateSpec Q }.
Arguments StatefulSetSpec : clear implicits.

Record StatefulSetStatus := { stst_ReadyReplicas : Z }.

(** [corev1.ServicePort] *)
Record ServicePort := { sp_Name : string; sp_Port : Z; sp_TargetPort : Z; sp_Protocol : string }.

(** [corev1.ServiceSpec] *)
Record ServiceSpec := {
  sv_Type : string;
  sv_ClusterIP : string;
  sv_ClusterIPs : list string;
  sv_Selector : gmap string string;
  sv_Ports : list ServicePort }.

(** [gwapiv1.ParentReference] *)
Record ParentReference := { pr_Name : string; pr_Namespace : option string }.

(** [gwapiv1.HTTPPathMatch] *)
Record HTTPPathMatch := { hm_Type : string; hm_Value : string }.

(** [gwapiv1.HTTPBackendRef] *)
Record HTTPBackendRef := {
  br_Name : string; br_Kind : option string; br_Port : option Z; br_Weight : option Z }.

(** [gwapiv1.HTTPRouteRule] *)
Record HTTPRouteRule := { hr_Matches : list HTTPPathMatch; hr_BackendRefs : list HTTPBackendRef }.

(** [gwapiv1.HTTPRouteSpec] *)
Record HTTPRouteSpec := {
  ht_ParentRefs : list ParentReference;
  ht_Hostnames : list string;
  ht_Rules : list HTTPRouteRule }.

(** [gwapiv1.HTTPRouteStatus]: the conditions each parent reports. *)
Record HTTPRouteStatus := { hs_Parents : list (list MetaCondition) }.

(** ** The cluster *)

Abbreviation Svc Q := (object (MLServiceSpec Q) MLServiceStatus) (only parsing).
Abbreviation Policy := (object MLTrafficPolicySpec MLTrafficPolicyStatus) (only parsing).
Abbreviation Deployment Q := (object (DeploymentSpec Q) DeploymentStatus) (only parsing).
Abbreviation StatefulSet Q := (object (StatefulSetSpec Q) StatefulSetStatus) (only parsing).
Abbreviation KubeService := (object ServiceSpec unit) (only parsing).
Abbreviation HTTPRoute := (object HTTPRouteSpec HTTPRouteStatus) (only parsing).

Record serving {Q : Type} := {
  sv_Services : gmap key (Svc Q);
  sv_Policies : gmap key Policy;
  sv_Deployments : gmap key (Deployment Q);
  sv_StatefulSets : gmap key (StatefulSet Q);
  sv_KubeServices : gmap key KubeService;
  sv_Routes : gmap key HTTPRoute;
  sv_ConfigMaps : gmap key ConfigMapObject }.
Arguments serving : clear implicits.

#[export] Instance svc_kind Q : Kind (serving Q) (MLServiceSpec Q) MLServiceStatus := {|
  tab := sv_Services;
  set_tab t c := {| sv_Services := t; sv_Policies := sv_Policies c; sv_Deployments := sv_Deployments c;
                    sv_StatefulSets := sv_StatefulSets c; sv_KubeServices := sv_KubeServices c;
                    sv_Routes := sv_Routes c; sv_ConfigMaps := sv_ConfigMaps c |};
  zero_status := MLServiceStatus_zero;
  defaulted := eq;
  spec_merged before after cur new := cur = before -> new = after |}.

#[export] Instance policy_kind Q : Kind (serving Q) MLTrafficPolicySpec MLTrafficPolicyStatus := {|
  tab := sv_Policies;
  set_tab t c := {| sv_Services := sv_Services c; sv_Policies := t; sv_Deployments := sv_Deployments c;
                    sv_StatefulSets := sv_StatefulSets c; sv_KubeServices := sv_KubeServices c;
                    sv_Routes := sv_Routes c; sv_ConfigMaps := sv_ConfigMaps c |};
  zero_status := MLTrafficPolicyStatus_zero;
  defaulted := eq;
  spec_merged before after cur new := cur = before -> new = after |}.

(** The API server fills in what was left unset and keeps what was set. *)
Definition deployed_as {Q} (b b' : DeploymentSpec Q) : Prop :=
  kept (de_Replicas b) (de_Replicas b') /\ de_Selector b' = de_Selector b /\
  pods_as (de_Template b) (de_Template b').

#[export] Instance deployment_kind Q : Kind (serving Q) (DeploymentSpec Q) DeploymentStatus := {|
  tab := sv_Deployments;
  set_tab t c := {| sv_Services := sv_Services c; sv_Policies := sv_Policies c; sv_Deployments := t;
                    sv_StatefulSets := sv_StatefulSets c; sv_KubeServices := sv_KubeServices c;
                    sv_Routes := sv_Routes c; sv_ConfigMaps := sv_ConfigMaps c |};
  zero_status := {| dst_ReadyReplicas := 0; dst_Conditions := [] |};
  defaulted := deployed_as;
  spec_merged before after cur new := cur = before -> deployed_as after new |}.

Definition stateful_as {Q} (b b' : StatefulSetSpec Q) : Prop :=
  kept (ss_Replicas b) (ss_Replicas b') /\ ss_Selector b' = ss_Selector b /\ ss_ServiceName b' = ss_ServiceName b /\
  pods_as (ss_Template b) (ss_Template b').

#[export] Instance statefulset_kind Q : Kind (serving Q) (StatefulSetSpec Q) StatefulSetStatus := {|
  tab := sv_StatefulSets;
  set_tab t c := {| sv_Services := sv_Services c; sv_Policies := sv_Policies c; sv_Deployments := sv_Deployments c;
                    sv_StatefulSets := t; sv_KubeServices := sv_KubeServices c;
                    sv_Routes := sv_Routes c; sv_ConfigMaps := sv_ConfigMaps c |};
  zero_status := {| stst_ReadyReplicas := 0 |};
  defaulted := stateful_as;
  spec_merged before after cur new := cur = before -> stateful_as after new |}.

(** A Service without an address is given one. *)
Definition serves_as (b b' : ServiceSpec) : Prop :=
  sv_Type b' = sv_Type b /\ sv_Selector b' = sv_Selector b /\ sv_Ports b' = sv_Ports b /\
  (sv_ClusterIP b <> "" -> sv_ClusterIP b' = sv_ClusterIP b).

#[export] Instance service_kind Q : Kind (serving Q) ServiceSpec unit := {|
  tab := sv_KubeServices;
  set_tab t c := {| sv_Services := sv_Services c; sv_Policies := sv_Policies c; sv_Deployments := sv_Deployments c;
                    sv_StatefulSets := sv_StatefulSets c; sv_KubeServices := t;
                    sv_Routes := sv_Routes c; sv_ConfigMaps := sv_ConfigMaps c |};
  zero_status := tt;
  defaulted := serves_as;
  spec_merged before after cur new := cur = before -> serves_as after new |}.

(** A reference keeps its name, and its port and weight when they are set. *)
Definition ref_as (r r' : HTTPBackendRef) : Prop :=
  br_Name r' = br_Name r /\ kept (br_Port r) (br_Port r') /\ kept (br_Weight r) (br_Weight r').

Definition rule_as (r r' : HTTPRouteRule) : Prop :=
  hr_Matches r' = hr_Matches r /\ Forall2 ref_as (hr_BackendRefs r) (hr_BackendRefs r').

Definition routes_as (b b' : HTTPRouteSpec) : Prop :=
  ht_Hostnames b' = ht_Hostnames b /\ Forall2 rule_as (ht_Rules b) (ht_Rules b').

(** A merge patch replaces the list of rules as a whole or does not mention
    it. *)
#[export] Instance route_kind Q : Kind (serving Q) HTTPRouteSpec HTTPRouteStatus := {|
  tab := sv_Routes;
  set_tab t c := {| sv_Services := sv_Services c; sv_Policies := sv_Policies c; sv_Deployments := sv_Deployments c;
                    sv_StatefulSets := sv_StatefulSets c; sv_KubeServices := sv_KubeServices c;
                    sv_Routes := t; sv_ConfigMaps := sv_ConfigMaps c |};
  zero_status := {| hs_Parents := [] |};
  defaulted := routes_as;
  spec_merged before after cur new :=
    (cur = before -> routes_as after new) /\
    (ht_Rules new = ht_Rules cur \/ Forall2 rule_as (ht_Rules after) (ht_Rules new)) |}.

#[export] Instance serving_configmap_kind Q : Kind (serving Q) (gmap string string) unit := {|
  tab := sv_ConfigMaps;
  set_tab t c := {| sv_Services := sv_Services c; sv_Policies := sv_Policies c; sv_Deployments := sv_Deployments c;
                    sv_StatefulSets := sv_StatefulSets c; sv_KubeServices := sv_KubeServices c;
                    sv_Routes := sv_Routes c; sv_ConfigMaps := t |};
  zero_status := tt;
  defaulted := eq;
  spec_merged before after cur new := cur = before -> new = after |}.

(** The client of the two controllers. *)
Class ServingClient (Q K : Type) := {
  vc_services :: Client K (MLServiceSpec Q) MLServiceStatus;
  vc_policies :: Client K MLTrafficPolicySpec MLTrafficPolicyStatus;
  vc_deployments :: Client K (DeploymentSpec Q) DeploymentStatus;
  vc_statefulsets :: Client K (StatefulSetSpec Q) StatefulSetStatus;
  vc_kubeservices :: Client K ServiceSpec unit;
  vc_routes :: Client K HTTPRouteSpec HTTPRouteStatus;
  vc_configmaps :: Client K (gmap string string) unit }.

Class ServingLaws {Q K : Type} `{!ServingClient Q K} (objects : K -> serving Q)
    (rely : serving Q -> serving Q -> Prop) := {
  vl_services :: ClientLaws (B := MLServiceSpec Q) (S := MLServiceStatus) objects rely;
  vl_policies :: ClientLaws (B := MLTrafficPolicySpec) (S := MLTrafficPolicyStatus) objects rely;
  vl_deployments :: ClientLaws (B := DeploymentSpec Q) (S := DeploymentStatus) objects rely;
  vl_statefulsets :: ClientLaws (B := StatefulSetSpec Q) (S := StatefulSetStatus) objects rely;
  vl_kubeservices :: ClientLaws (B := ServiceSpec) (S := unit) objects rely;
  vl_routes :: ClientLaws (B := HTTPRouteSpec) (S := HTTPRouteStatus) objects rely;
  vl_configmaps :: ClientLaws (B := gmap string string) (S := unit) objects rely }.

(** What the controllers get of the objects that one pass reads before it writes
    them is current: their cache had caught up when the pass began. *)
Class ServingCurrent {Q K : Type} `{!ServingClient Q K} (objects : K -> serving Q)
    (rely : serving Q -> serving Q -> Prop) := {
  vn_services :: CurrentGets (B := MLServiceSpec Q) (S := MLServiceStatus) objects rely;
  vn_deployments :: CurrentGets (B := DeploymentSpec Q) (S := DeploymentStatus) objects rely;
  vn_statefulsets :: CurrentGets (B := StatefulSetSpec Q) (S := StatefulSetStatus) objects rely;
  vn_kubeservices :: CurrentGets (B := ServiceSpec) (S := unit) objects rely }.

(** ** Inside a spec *)

(** [PodPort] *)
Record PodPort := { pp_Name : string; pp_ContainerPort : Z; pp_Protocol : string }.

(** [Route] of MLService; of [Auth] the type is read, of [RateLimit] whether it
    is there. *)
Record Route := {
  rt_Enabled : bool;
  rt_TargetRole : string;
  rt_PortName : string;
  rt_Hostname : string;
  rt_Path : string;
  rt_Auth : option string;
  rt_RateLimit : option RawJSON;
  rt_Timeout : string }.

(** [Config] of the (native, statefulset) handler *)
Record Config := { cf_PodManagementPolicy : string; cf_ServiceName : string }.

Definition Config_zero : Config := {| cf_PodManagementPolicy := ""; cf_ServiceName := "" |}.

(** Decoding and encoding of JSON: the typed parts of a spec, an environment
    variable from a field, the strict decoding of a backend configuration, its
    canonical form, and the texts that are hashed. *)
Record ServingDecoders {Q : Type} := {
  port_of : RawJSON -> PodPort;
  route_of : RawJSON -> Route;
  svc_volume_name : RawJSON -> string;
  svc_mount_name : RawJSON -> string;
  svc_configmap_of : RawJSON -> ConfigMap;
  env_from_field : string -> string -> string -> RawJSON;
  decode_backend : RawJSON -> Config + api_error;
  canonical_json : RawJSON -> RawJSON + api_error;
  marshal_service : MLServiceSpec Q -> string + api_error;
  marshal_deployment : DeploymentSpec Q -> gmap string string -> string + api_error;
  marshal_statefulset : StatefulSetSpec Q -> gmap string string -> string + api_error;
  svc_sha256_hex : string -> string }.
Arguments ServingDecoders : clear implicits.

(** What the controllers use of apimachinery and controller-runtime besides. *)
Class ServingMachinery := {
  dns1123_label : string -> list string;
  (** [controllerutil.SetControllerReference] on an object without owners *)
  SetControllerReference : string * string -> Meta -> list OwnerReference + api_error;
  controller_reference gvk m refs : SetControllerReference gvk m = inl refs ->
    exists r, refs = [r] /\ ow_Controller r = true /\ ow_UID r = me_UID m;
  (** [equality.Semantic.DeepEqual] *)
  service_status_equal : MLServiceStatus -> MLServiceStatus -> bool;
  service_status_equal_spec a b : service_status_equal a b = true <-> a = b;
  policy_status_equal : MLTrafficPolicyStatus -> MLTrafficPolicyStatus -> bool;
  policy_status_equal_spec a b : policy_status_equal a b = true <-> a = b;
  service_spec_equal : ServiceSpec -> ServiceSpec -> bool;
  service_spec_equal_spec a b : service_spec_equal a b = true <-> a = b;
  route_spec_equal : HTTPRouteSpec -> HTTPRouteSpec -> bool;
  route_spec_equal_spec a b : route_spec_equal a b = true <-> a = b }.

(** ** Serving operator: shared pieces

    What the dispatchers and the native handlers of
    [compute-operator/internal/mlservice] and [.../mltrafficpolicy] each carry a
    copy of: validation results, the merge of conditions, joined errors, label
    merges, create-or-patch of HTTPRoutes, and the reading of an HTTPRoute's
    status. *)

Open Scope string_scope.
Open Scope list_scope.

(** [Validation]; [OK] *)
Record Validation := { va_Errors : list string; va_Warnings : list string }.
Definition validation_ok (v : Validation) : bool := match va_Errors v with [] => true | _ => false end.

(** [joinErrors] *)
Definition joinErrors (errs : list string) : string := Join errs "; ".

(** ** Conditions *)

(** The loop body of [mergeConditions] over the updates. *)
Definition merge_condition (now generation : Z) (byType : gmap string MetaCondition) (u : MetaCondition)
    : gmap string MetaCondition :=
  let since := match byType !! mc_Type u with
               | Some prev => if String.eqb (mc_Status prev) (mc_Status u) then mc_LastTransitionTime prev else Some now
               | None => Some now
               end in
  <[mc_Type u := {| mc_Type := mc_Type u; mc_Status := mc_Status u; mc_ObservedGeneration := generation;
                    mc_LastTransitionTime := since; mc_Reason := mc_Reason u; mc_Message := mc_Message u |}]> byType.

Definition by_type (conds : list MetaCondition) : gmap string MetaCondition :=
  foldl (fun m c => <[mc_Type c := c]> m) ∅ conds.

(** [mergeConditions] *)
Definition mergeConditions (now : Z) (existing updates : list MetaCondition) (generation : Z) : list MetaCondition :=
  sort_slice (fun a b => str_lt (mc_Type a) (mc_Type b))
    (map snd (map_to_list (foldl (merge_condition now generation) (by_type existing) updates))).

(** The only condition the controllers report; [reason] when it is true. *)
Definition available_condition (phase : Phase) (reason message : string) (generation : Z) : MetaCondition :=
  {| mc_Type := "Available"; mc_Status := if decide (phase = PhaseReady) then "True" else "False";
     mc_ObservedGeneration := generation; mc_LastTransitionTime := None;
     mc_Reason := if decide (phase = PhaseReady) then reason else phase_text phase; mc_Message := message |}.

(** ** Labels and selectors *)

(** [mergeLabels] *)
Definition mergeLabels (existing desired : gmap string string) : gmap string string :=
  if decide (existing = ∅) then desired else desired ∪ existing.

(** [formatSelector] *)
Definition formatSelector (labels : gmap string string) : string :=
  Join (sort_slice str_lt (map (fun kv => kv.1 +:+ "=" +:+ kv.2) (map_to_list labels))) ",".

(** A label that is only set when it has a value. *)
Definition set_nonempty (k v : string) (m : gmap string string) : gmap string string :=
  if String.eqb v "" then m else <[k := v]> m.

(** ** HTTPRoutes *)

Definition GatewayParentName : string := "axisml-gateway".
Definition GatewayParentNamespace : string := "axisml-infra".

(** The spec of the routes: the shared gateway, one rule on a path prefix. *)
Definition gateway_route (hostname path : string) (refs : list HTTPBackendRef) : HTTPRouteSpec :=
  {| ht_ParentRefs := [{| pr_Name := GatewayParentName; pr_Namespace := Some GatewayParentNamespace |}];
     ht_Hostnames := if String.eqb hostname "" then [] else [hostname];
     ht_Rules := [{| hr_Matches := [{| hm_Type := "PathPrefix"; hm_Value := if String.eqb path "" then "/" else path |}];
                     hr_BackendRefs := refs |}] |}.

(** [routeConditionTrue] *)
Definition routeConditionTrue (route : option HTTPRoute) (condType : string) : bool :=
  match route with
  | None => false
  | Some r => existsb (existsb (fun c => String.eqb (mc_Type c) condType && String.eqb (mc_Status c) "True"))
                (hs_Parents (ob_Status r))
  end.

(** [routeAccepted] *)
Definition routeAccepted (route : option HTTPRoute) : bool := routeConditionTrue route "Accepted".

(** The external URL of an endpoint. *)
Definition external_url (hostname path : string) : string :=
  "https://" +:+ hostname +:+ (if String.eqb path "" then "/" else path).

Section Upsert.
Context `{!Machinery} `{!ServingMachinery} {K : Type} {B S : Type} (gvk : string * string) (owner : object B S).

(** Create the desired object, or hand the one that is there to [update]. *)
Definition create_or {B' S'} `{!Client K B' S'} (desired : object B' S') (update : object B' S' -> api K unit) : api K unit :=
  (let* r := try (k_Get (ob_key desired)) in
   match r with
   | inr e => if IsNotFound e then let* _ := k_Create desired in ret tt else fail e
   | inl current => update current
   end)%api.

(** The same with the owner reference set first. *)
Definition upsert_with {B' S'} `{!Client K B' S'} (desired : object B' S')
    (update : object B' S' -> object B' S' -> api K unit) : api K unit :=
  match SetControllerReference gvk (ob_Meta owner) with
  | inr e => fail e
  | inl refs => let desired := set_owners refs desired in create_or desired (update desired)
  end.

(** [upsertHTTPRoute] *)
Definition upsertHTTPRoute `{!Client K HTTPRouteSpec HTTPRouteStatus} (desired : HTTPRoute) : api K unit :=
  upsert_with desired (fun desired current =>
    let patched := set_labels (mergeLabels (ob_Labels current) (ob_Labels desired)) (set_spec (ob_Spec desired) current) in
    if route_spec_equal (ob_Spec current) (ob_Spec patched) && map_equal (ob_Labels current) (ob_Labels patched)
    then ret tt else (let* _ := k_Patch current patched in ret tt)%api).
End Upsert.

(** ** Children *)

(** The objects a handler watches, and one of them. *)
Inductive target := WatchDeployments | WatchStatefulSets | WatchServices | WatchHTTPRoutes.

Inductive child {Q : Type} :=
| ChildDeployment (d : Deployment Q)
| ChildStatefulSet (s : StatefulSet Q)
| ChildService (s : KubeService)
| ChildRoute (r : HTTPRoute).
Arguments child : clear implicits.

Section Children.
Context {Q K : Type} `{!ServingClient Q K}.

(** The list call for one target, with its items as children. *)
Definition list_target (namespace : string) (selector : gmap string string) (t : target) : api K (list (child Q)) :=
  match t with
  | WatchDeployments => let* l := (k_List namespace selector : api K (list (Deployment Q))) in ret (map ChildDeployment l)
  | WatchStatefulSets => let* l := (k_List namespace selector : api K (list (StatefulSet Q))) in ret (map ChildStatefulSet l)
  | WatchServices => let* l := (k_List namespace selector : api K (list KubeService)) in ret (map ChildService l)
  | WatchHTTPRoutes => let* l := (k_List namespace selector : api K (list HTTPRoute)) in ret (map ChildRoute l)
  end%api.

(** The loop of [listChildren]: a kind the server does not know is skipped. *)
Fixpoint list_children (namespace : string) (selector : gmap string string) (targets : list target)
    : api K (list (child Q)) :=
  match targets with
  | [] => ret []
  | t :: rest =>
      let* r := try (list_target namespace selector t) in
      match r with
      | inr e => if IsNotFound e then list_children namespace selector rest else fail e
      | inl items => let* more := list_children namespace selector rest in ret (items ++ more)
      end
  end%api.

(** The first child of a kind with this name: [findDeployment] and the like. *)
Definition find_child {B S} (pick : child Q -> option (object B S)) (children : list (child Q)) (name namespace : string)
    : option (object B S) :=
  List.find (fun o => String.eqb (ob_Name o) name && String.eqb (ob_Namespace o) namespace) (omap pick children).

Definition findDeployment : list (child Q) -> string -> string -> option (Deployment Q) :=
  find_child (fun c => match c with ChildDeployment d => Some d | _ => None end).
Definition findStatefulSet : list (child Q) -> string -> string -> option (StatefulSet Q) :=
  find_child (fun c => match c with ChildStatefulSet s => Some s | _ => None end).
Definition findService : list (child Q) -> string -> string -> option KubeService :=
  find_child (fun c => match c with ChildService s => Some s | _ => None end).
Definition findHTTPRoute : list (child Q) -> string -> string -> option HTTPRoute :=
  find_child (fun c => match c with ChildRoute r => Some r | _ => None end).
End Children.
