(* ===== verification/OperatorService.v ===== *)
(** * Compute operator: MLService

    [compute-operator/internal/mlservice]: the handler interface and registry,
    the dispatcher (immutable-spec baseline, status writer, Reconcile), and the
    (native, deployment) and (native, statefulset) handlers.  The dispatcher is
    the only writer of an MLService's status. *)

From Stdlib Require Import ssreflect ZArith Ascii String.
From stdpp Require Import base gmap list strings.
From S2P Require Import Prelude Placement ApiTypes Names Strconv Listing Kube OperatorTypes OperatorConfig ServingBase.

Open Scope string_scope.
Open Scope list_scope.

Definition ServiceGVK : string * string := ("axisml.io/v1alpha1", "MLService").
Definition immutableHashAnnotation : string := "compute.axisml.io/spec-immutable-hash".
Definition appliedSpecHashAnnotation : string := "compute.axisml.io/applied-spec-hash".

(** ** The handler interface *)

(** [StatusUpdate] *)
Record StatusUpdate := {
  su_Phase : Phase;
  su_Message : string;
  su_Endpoint : string;
  su_ReadyReplicas : Z;
  su_Selector : string;
  su_Conditions : list MetaCondition;
  su_Roles : list SvcRoleStatus }.

(** [Handler]; [MapStatus] of a service and its children may panic. *)
Record SvcHandler {Q K : Type} := {
  sh_Key : string * string;
  sh_Validate : MLServiceSpec Q -> Validation;
  sh_Reconcile : Svc Q -> api K unit;
  sh_MapStatus : Svc Q -> list (child Q) -> StatusUpdate + api_error;
  sh_WatchTargets : list target }.
Arguments SvcHandler : clear implicits.

Abbreviation SvcRegistry Q K := (gmap (string * string) (SvcHandler Q K)) (only parsing).

(** [Register] panics on a second handler for a key. *)
Definition register_service {Q K} (h : SvcHandler Q K) (r : SvcRegistry Q K) : SvcRegistry Q K + string :=
  match r !! sh_Key h with
  | Some _ => inr ("handler: duplicate registration for " +:+ (sh_Key h).1 +:+ "/" +:+ (sh_Key h).2)
  | None => inl (<[sh_Key h := h]> r)
  end.

(** [notImplementedHandler] *)
Definition notImplementedHandler {Q K} (backend engine : string) : SvcHandler Q K :=
  {| sh_Key := (backend, engine);
     sh_Validate _ := {| va_Errors := ["backend (" +:+ backend +:+ ", " +:+ engine +:+
       ") not implemented; see axisml-system/docs/compute-operator.md §4 / §5.1"]; va_Warnings := [] |};
     sh_Reconcile _ := ret tt;
     sh_MapStatus _ _ := inl {| su_Phase := PhaseFailed; su_Message := "handler not implemented"; su_Endpoint := "";
       su_ReadyReplicas := 0; su_Selector := ""; su_Conditions := []; su_Roles := [] |};
     sh_WatchTargets := [] |}.

(** [RegisterStubs] *)
Definition service_stubs {Q K} : list (SvcHandler Q K) :=
  [notImplementedHandler "kserve" "inference"; notImplementedHandler "kserve" "llminference"].

(** ** The dispatcher *)

Section Dispatcher.
Context `{!Machinery} `{!ServingMachinery} {Q K : Type} `{!ServingClient Q K} (dec : ServingDecoders Q) (now : Z).
Implicit Types mls : Svc Q.

(** The status [writeStatus] wants. *)
Definition merged_status mls (upd : StatusUpdate) : MLServiceStatus :=
  {| vst_ObservedGeneration := ob_Generation mls; vst_Phase := su_Phase upd; vst_Message := su_Message upd;
     vst_Endpoint := su_Endpoint upd; vst_ReadyReplicas := su_ReadyReplicas upd; vst_Selector := su_Selector upd;
     vst_Conditions := mergeConditions now (vst_Conditions (ob_Status mls)) (su_Conditions upd) (ob_Generation mls);
     vst_Roles := su_Roles upd |}.

(** [writeStatus] *)
Definition writeStatus mls (upd : StatusUpdate) : api K unit :=
  let next := merged_status mls upd in
  if service_status_equal (ob_Status mls) next then ret tt
  else (let* _ := k_PatchStatus mls (set_status next mls) in ret tt)%api.

(** The update [writeFailedStatus] writes. *)
Definition failed_update mls (message : string) : StatusUpdate :=
  {| su_Phase := PhaseFailed; su_Message := message; su_Endpoint := ""; su_ReadyReplicas := 0; su_Selector := "";
     su_Conditions := [available_condition PhaseFailed "" message (ob_Generation mls)]; su_Roles := [] |}.

(** [writeFailedStatus] *)
Definition writeFailedStatus mls (message : string) : api K unit := writeStatus mls (failed_update mls message).

(** The spec without what may change: every [Replicas] is zero. *)
Definition zero_replicas (spec : MLServiceSpec Q) : MLServiceSpec Q :=
  {| ssp_Backend := ssp_Backend spec; ssp_Scheduling := ssp_Scheduling spec; ssp_ConfigMaps := ssp_ConfigMaps spec;
     ssp_Roles := map (fun r => {| ro_Name := ro_Name r; ro_Replicas := 0; ro_RestartPolicy := ro_RestartPolicy r;
                                   ro_Template := ro_Template r |}) (ssp_Roles spec);
     ssp_ProgressDeadlineSeconds := ssp_ProgressDeadlineSeconds spec; ssp_Route := ssp_Route spec |}.

Definition with_config (cfg : option RawJSON) (spec : MLServiceSpec Q) : MLServiceSpec Q :=
  {| ssp_Backend := {| be_Name := be_Name (ssp_Backend spec); be_Engine := be_Engine (ssp_Backend spec); be_Config := cfg |};
     ssp_Scheduling := ssp_Scheduling spec; ssp_ConfigMaps := ssp_ConfigMaps spec; ssp_Roles := ssp_Roles spec;
     ssp_ProgressDeadlineSeconds := ssp_ProgressDeadlineSeconds spec; ssp_Route := ssp_Route spec |}.

(** [immutableSpecHash] *)
Definition immutableSpecHash (spec : MLServiceSpec Q) : string + api_error :=
  let subset := zero_replicas spec in
  let canon := match be_Config (ssp_Backend subset) with
               | None => inl subset
               | Some raw => if String.eqb raw "" then inl subset
                             else match canonical_json dec raw with
                                  | inr e => inr (Wrapped "canonicalize backend.config" e)
                                  | inl c => inl (with_config (Some c) subset)
                                  end
               end in
  match canon with
  | inr e => inr e
  | inl subset => match marshal_service dec subset with
                  | inr e => inr e
                  | inl buf => inl (svc_sha256_hex dec buf)
                  end
  end.

Definition baseline mls : option string := ob_Annotations mls !! immutableHashAnnotation.

Definition immutable_changed : string :=
  "immutable spec field changed after creation; only spec.roles[*].replicas may be modified".

(** [checkImmutability]: a message, or none. *)
Definition checkImmutability mls : option string + api_error :=
  match baseline mls with
  | None => inl None
  | Some prev =>
      match immutableSpecHash (ob_Spec mls) with
      | inr e => inr (Wrapped "hash immutable spec" e)
      | inl hash => inl (if String.eqb prev hash then None else Some immutable_changed)
      end
  end.

Definition set_baseline (hash : string) mls : Svc Q :=
  set_annotations (<[immutableHashAnnotation := hash]> (ob_Annotations mls)) mls.

(** [stampImmutabilityBaseline] *)
Definition stampImmutabilityBaseline mls : api K unit :=
  match baseline mls with
  | Some _ => ret tt
  | None =>
      match immutableSpecHash (ob_Spec mls) with
      | inr e => fail (Wrapped "hash immutable spec" e)
      | inl hash => (let* _ := wrap "stamp immutable hash" (k_Patch mls (set_baseline hash mls)) in ret tt)%api
      end
  end.

Definition service_id mls : string := map_get "" (ob_Labels mls) LabelServiceID.

(** [listChildren] *)
Definition listChildren mls (h : SvcHandler Q K) : api K (list (child Q)) :=
  if String.eqb (service_id mls) "" then ret []
  else list_children (ob_Namespace mls) {[LabelServiceID := service_id mls]} (sh_WatchTargets h).

Definition service_configmaps mls : list ConfigMap := map (svc_configmap_of dec) (ssp_ConfigMaps (ob_Spec mls)).

Definition service_config_labels mls : gmap string string :=
  <[LabelTenant := map_get "" (ob_Labels mls) LabelTenant]> {[LabelServiceID := service_id mls]}.

Definition service_route mls : option Route := route_of dec <$> ssp_Route (ob_Spec mls).

(** [mls.Spec.Route != nil && mls.Spec.Route.Enabled] *)
Definition route_enabled mls : bool := match service_route mls with Some r => rt_Enabled r | None => false end.

(** Kinds whose external routes are refused. *)
Definition protected_kind (kind : string) : bool :=
  String.eqb kind ServiceKindWorkspace || String.eqb kind ServiceKindTensorBoard.

(** The end of a pass: status from the children, then the baseline. *)
Definition report_service (h : SvcHandler Q K) mls : api K unit :=
  (let* children := listChildren mls h in
   let* upd := lift (sh_MapStatus h mls children) in
   let* _ := writeStatus mls upd in
   stampImmutabilityBaseline mls)%api.

(** The handler's turn.  A panic is not an error the dispatcher sees. *)
Definition run_service_handler (h : SvcHandler Q K) mls : api K unit :=
  (let* r := try (sh_Reconcile h mls) in
   match r with
   | inl _ => report_service h mls
   | inr (Panicked msg) => fail (Panicked msg)
   | inr err => let* _ := try (writeFailedStatus mls ("reconcile error: " +:+ error_text err)) in fail err
   end)%api.

(** The ConfigMaps, then the handler. *)
Definition run_service_config (h : SvcHandler Q K) mls : api K unit :=
  (let* r := try (OperatorConfig.Reconcile mls ServiceGVK (service_configmaps mls) (service_config_labels mls)) in
   match r with
   | inl _ => run_service_handler h mls
   | inr err =>
       let* _ := writeFailedStatus mls ("reconcile ConfigMaps: " +:+ error_text err) in
       if IsOwnershipConflict err then ret tt else fail err
   end)%api.

(** The checks on the spec, and what follows when they pass. *)
Definition reconcile_service (registry : SvcRegistry Q K) mls : api K unit :=
  let backend := be_Name (ssp_Backend (ob_Spec mls)) in
  let engine := be_Engine (ssp_Backend (ob_Spec mls)) in
  let kind := map_get "" (ob_Labels mls) LabelServiceKind in
  if String.eqb (service_id mls) "" then
    writeFailedStatus mls ("missing required label '" +:+ LabelServiceID +:+ "'; Compute must stamp it before CR creation")
  else if route_enabled mls && protected_kind kind then
    writeFailedStatus mls (kind +:+ " external routes are disabled until SecurityPolicy derivation is implemented")
  else match registry !! (backend, engine) with
  | None => writeFailedStatus mls ("no handler for backend=" +:+ backend +:+ " engine=" +:+ engine)
  | Some h =>
      match checkImmutability mls with
      | inr e => fail e
      | inl (Some msg) => writeFailedStatus mls msg
      | inl None =>
          if negb (validation_ok (sh_Validate h (ob_Spec mls))) then
            writeFailedStatus mls ("validation failed: " +:+ joinErrors (va_Errors (sh_Validate h (ob_Spec mls))))
          else match Validate (service_configmaps mls) "spec.configMaps" with
          | _ :: _ as errs => writeFailedStatus mls ("validation failed: " +:+ aggregate errs)
          | [] => run_service_config h mls
          end
      end
  end.

(** [Reconcile] *)
Definition Reconcile (registry : SvcRegistry Q K) (req : key) : api K unit :=
  (let* r := try (k_Get req : api K (Svc Q)) in
   match r with
   | inr e => if IsNotFound e then ret tt else fail e
   | inl mls => reconcile_service registry mls
   end)%api.
End Dispatcher.

(** ** What the two native handlers share *)

Section Native.
Context `{!Machinery} `{!ServingMachinery} {Q K : Type} `{!ServingClient Q K} (dec : ServingDecoders Q).
Context (shortHash : bytes -> bytes).
Implicit Types (mls : Svc Q) (role : RoleSpec Q).

Definition role_ports role : list PodPort := map (port_of dec) (pt_Ports (ro_Template role)).

(** The port checks: names are present and distinct, numbers positive. *)
Fixpoint port_errors (i : nat) (seen : gset string) (ports : list PodPort) : list string :=
  match ports with
  | [] => []
  | p :: rest =>
      let path := at_index "roles[0].template.ports" i in
      (if String.eqb (pp_Name p) "" then [path +:+ ".name is required"] else []) ++
      (if decide (pp_Name p ∈ seen) then [path +:+ ": duplicate name '" +:+ pp_Name p +:+ "'"] else []) ++
      (if (pp_ContainerPort p <=? 0)%Z then [path +:+ ".containerPort must be >0"] else []) ++
      port_errors (S i) ({[pp_Name p]} ∪ seen) rest
  end.

(** The checks on the only role, its scheduling and its mounts. *)
Definition role_errors (engine : string) (spec : MLServiceSpec Q) role : list string :=
  let t := ro_Template role in
  let declared := map (svc_volume_name dec) (pt_Volumes t) in
  (if String.eqb (ro_Name role) PredictorRoleName then []
   else ["(native, " +:+ engine +:+ ") role must be named '" +:+ PredictorRoleName +:+ "'; got '" +:+ ro_Name role +:+ "'"]) ++
  (if (ro_Replicas role <? 0)%Z then ["roles[0].replicas must be >=0; got " +:+ decimal (ro_Replicas role)] else []) ++
  (if String.eqb (pt_Image t) "" then ["roles[0].template.image is required"] else []) ++
  (match role_ports role with [] => ["roles[0].template.ports must declare at least one port"] | _ => [] end) ++
  port_errors 0 ∅ (role_ports role) ++
  (if String.eqb (sc_Quota (ssp_Scheduling spec)) "" then ["scheduling.quota is required"] else []) ++
  concat (imap (fun i vm =>
    if bool_decide (svc_mount_name dec vm ∈ declared) then []
    else [at_index "roles[0].template.volumeMounts" i +:+ ".name '" +:+ svc_mount_name dec vm +:+ "' has no matching volume"])
    (pt_VolumeMounts t)).

(** The checks on an enabled route. *)
Definition route_errors role (r : Route) : list string :=
  let names := map pp_Name (role_ports role) in
  (if (1 <? length names)%nat && String.eqb (rt_PortName r) "" then
     ["route.portName must be set when the role exposes multiple ports"] else []) ++
  (if negb (String.eqb (rt_PortName r) "") && negb (bool_decide (rt_PortName r ∈ names)) then
     ["route.portName '" +:+ rt_PortName r +:+ "' does not match any role port"] else []) ++
  (if negb (String.eqb (rt_TargetRole r) "") && negb (String.eqb (rt_TargetRole r) (ro_Name role)) then
     ["route.targetRole '" +:+ rt_TargetRole r +:+ "' does not match the only role '" +:+ ro_Name role +:+ "'"] else []) ++
  (match rt_Auth r with
   | Some t => if String.eqb t "" || String.eqb t "none" then []
               else ["route.auth is not yet supported (SecurityPolicy derivation pending); use auth.type=none"]
   | None => []
   end).

Definition route_warnings (r : Route) : list string :=
  if bool_decide (is_Some (rt_RateLimit r)) || negb (String.eqb (rt_Timeout r) "") then
    ["route.rateLimit/timeout are not yet wired; BackendTrafficPolicy creation deferred to a follow-up"] else [].

(** [Validate]; the handlers differ in what they say about [backend.config] and
    the run policy. *)
Definition validate_native (engine : string) (config_errors warnings : list string) (spec : MLServiceSpec Q) : Validation :=
  match ssp_Roles spec with
  | [role] =>
      let route := match ssp_Route spec with
                   | Some raw => if rt_Enabled (route_of dec raw) then Some (route_of dec raw) else None
                   | None => None
                   end in
      {| va_Errors := role_errors engine spec role ++ config_errors ++
           match route with Some r => route_errors role r | None => [] end;
         va_Warnings := warnings ++ match route with Some r => route_warnings r | None => [] end |}
  | roles => {| va_Errors := ["(native, " +:+ engine +:+ ") requires exactly one role; got " +:+
                  decimal (Z.of_nat (length roles))];
                va_Warnings := [] |}
  end.

(** [mls.Spec.Roles[0]] *)
Definition first_role mls : RoleSpec Q + api_error :=
  match ssp_Roles (ob_Spec mls) with [] => inr (Panicked "index out of range") | role :: _ => inl role end.

Definition mls_label mls (k : string) : string := map_get "" (ob_Labels mls) k.

(** [selectorLabels] *)
Definition selectorLabels mls (role : string) : gmap string string :=
  <[LabelRole := role]> {[LabelServiceID := mls_label mls LabelServiceID]}.

(** [podTemplateLabels] *)
Definition podTemplateLabels mls (role : string) : gmap string string :=
  set_nonempty LabelTenant (mls_label mls LabelTenant) (set_nonempty LabelQuota (mls_label mls LabelQuota)
    (<[LabelSchedulerQuota := sc_Quota (ssp_Scheduling (ob_Spec mls))]> (selectorLabels mls role))).

(** [resourceLabels] *)
Definition resourceLabels mls (role : string) : gmap string string :=
  set_nonempty LabelQuota (mls_label mls LabelQuota) (set_nonempty LabelTenant (mls_label mls LabelTenant)
    (selectorLabels mls role)).

(** [buildContainer]; [extra] are environment variables of the handler's own. *)
Definition buildContainer (extra : list RawJSON) role : Container Q :=
  let t := ro_Template role in
  {| ct_Name := ContainerName; ct_Image := pt_Image t; ct_ImagePullPolicy := pt_ImagePullPolicy t;
     ct_Command := pt_Command t; ct_Args := pt_Args t; ct_Env := pt_Env t ++ extra; ct_EnvFrom := pt_EnvFrom t;
     ct_WorkingDir := pt_WorkingDir t; ct_Resources := pt_Resources t; ct_VolumeMounts := pt_VolumeMounts t;
     ct_Ports := map (fun p => {| cp_Name := pp_Name p; cp_ContainerPort := pp_ContainerPort p; cp_Protocol := pp_Protocol p |})
                   (role_ports role) |}.

(** The pod template of both workloads. *)
Definition pod_template mls role (extra : list RawJSON) : PodTemplateSpec Q :=
  let sched := ssp_Scheduling (ob_Spec mls) in
  {| pts_Labels := podTemplateLabels mls (ro_Name role); pts_RestartPolicy := ""; pts_Volumes := pt_Volumes (ro_Template role);
     pts_Containers := [buildContainer extra role]; pts_SchedulerName := SchedulerName;
     pts_PriorityClassName := sc_PriorityClass sched; pts_NodeSelector := sc_NodeSelector sched;
     pts_Tolerations := sc_Tolerations sched |}.

(** The metadata of a derived object. *)
Definition derived_meta mls (name role : string) : Meta :=
  {| me_Obj := {| om_Name := name; om_Namespace := ob_Namespace mls; om_Labels := resourceLabels mls role; om_Annotations := ∅ |};
     me_UID := ""; me_Generation := 0; me_Owners := [] |}.

Definition workload_name mls : string := Workload (me_Obj (ob_Meta mls)).
Definition role_name mls (role : string) : string := Names.Role shortHash (me_Obj (ob_Meta mls)) role.

(** The Service of either handler. *)
Definition service_for mls role (name clusterIP : string) : KubeService :=
  {| ob_Meta := derived_meta mls name (ro_Name role);
     ob_Spec := {| sv_Type := "ClusterIP"; sv_ClusterIP := clusterIP; sv_ClusterIPs := [];
                   sv_Selector := selectorLabels mls (ro_Name role);
                   sv_Ports := map (fun p => {| sp_Name := pp_Name p; sp_Port := pp_ContainerPort p;
                                                sp_TargetPort := pp_ContainerPort p;
                                                sp_Protocol := if String.eqb (pp_Protocol p) "" then "TCP" else pp_Protocol p |})
                                 (role_ports role) |};
     ob_Status := tt |}.

(** [pickRoutePort] *)
Definition pickRoutePort role (portName : string) : Z :=
  let ports := role_ports role in
  let first := match ports with p :: _ => pp_ContainerPort p | [] => 0%Z end in
  if String.eqb portName "" then first
  else match List.find (fun p => String.eqb (pp_Name p) portName) ports with
       | Some p => pp_ContainerPort p
       | None => first
       end.

(** [buildHTTPRoute] to a Service *)
Definition buildHTTPRoute mls (backendName : string) : HTTPRoute + api_error :=
  match first_role mls, service_route dec mls with
  | inr e, _ => inr e
  | _, None => inr (Panicked "nil pointer dereference")
  | inl role, Some r =>
      inl {| ob_Meta := derived_meta mls (workload_name mls) (ro_Name role);
             ob_Spec := gateway_route (rt_Hostname r) (rt_Path r)
               [{| br_Name := backendName; br_Kind := Some "Service"; br_Port := Some (pickRoutePort role (rt_PortName r));
                   br_Weight := None |}];
             ob_Status := {| hs_Parents := [] |} |}
  end.

(** ** Create or patch *)

(** [upsertDeployment] and [upsertStatefulSet]: nothing is sent when the
    annotation says that this spec was applied. *)
Definition upsert_hashed {B S} `{!Client K B S} mls (hash : string + api_error) (desired : object B S) : api K unit :=
  match SetControllerReference ServiceGVK (ob_Meta mls), hash with
  | inr e, _ => fail e
  | _, inr e => fail (Wrapped "hash desired spec" e)
  | inl refs, inl h =>
      let desired := set_owners refs (set_annotations (<[appliedSpecHashAnnotation := h]> (ob_Annotations desired)) desired) in
      create_or desired (fun current =>
        let labels := mergeLabels (ob_Labels current) (ob_Labels desired) in
        if String.eqb (map_get "" (ob_Annotations current) appliedSpecHashAnnotation) h && map_equal (ob_Labels current) labels
        then ret tt
        else (let* _ := k_Patch current (set_owners (ob_Owners desired) (set_spec (ob_Spec desired)
               (set_annotations (ob_Annotations desired ∪ ob_Annotations current) (set_labels labels current)))) in ret tt)%api)
  end.

(** A Service as desired, with the address the API server gave it. *)
Definition keep_address (current desired : ServiceSpec) : ServiceSpec :=
  {| sv_Type := sv_Type desired; sv_ClusterIP := sv_ClusterIP current; sv_ClusterIPs := sv_ClusterIPs current;
     sv_Selector := sv_Selector desired; sv_Ports := sv_Ports desired |}.

(** The update of [upsertService] and [upsertHeadlessService]. *)
Definition update_service (desired current : KubeService) : api K unit :=
  let patched := set_labels (mergeLabels (ob_Labels current) (ob_Labels desired))
                   (set_spec (keep_address (ob_Spec current) (ob_Spec desired)) current) in
  if service_spec_equal (ob_Spec current) (ob_Spec patched) && map_equal (ob_Labels current) (ob_Labels patched)
  then ret tt else (let* _ := k_Patch current patched in ret tt)%api.

(** [upsertService] *)
Definition upsertService mls (desired : KubeService) : api K unit :=
  upsert_with ServiceGVK mls desired update_service.

(** [upsertHeadlessService] *)
Definition upsertHeadlessService mls (desired : KubeService) : api K unit :=
  upsert_with ServiceGVK mls desired (fun desired current =>
    if controlled_by (ob_UID mls) (ob_Owners current) then update_service desired current
    else fail (Errored ("service " +:+ ob_Namespace desired +:+ "/" +:+ ob_Name desired +:+
                        " already exists and is not owned by this MLService"))).

(** The optional route of either handler. *)
Definition reconcile_route mls (backendName : string) : api K unit :=
  if route_enabled dec mls then
    (let* route := lift (buildHTTPRoute mls backendName) in
     wrap "upsert httproute" (upsertHTTPRoute ServiceGVK mls route))%api
  else ret tt.

(** ** Status *)

(** [pickEndpointPort] *)
Definition pickEndpointPort role : Z :=
  let ports := role_ports role in
  match List.find (fun p => String.eqb (pp_Name p) "http") ports with
  | Some p => pp_ContainerPort p
  | None => match ports with p :: _ => pp_ContainerPort p | [] => 0%Z end
  end.

(** [deriveEndpoint] *)
Definition deriveEndpoint mls role (serviceName : string) (svc : option KubeService) (route : option HTTPRoute) : string :=
  let internal := serviceName +:+ "." +:+ ob_Namespace mls +:+ ".svc.cluster.local:" +:+ decimal (pickEndpointPort role) in
  match svc with
  | None => ""
  | Some _ =>
      match service_route dec mls with
      | Some r => if rt_Enabled r && routeAccepted route && negb (String.eqb (rt_Hostname r) "")
                  then external_url (rt_Hostname r) (rt_Path r) else internal
      | None => internal
      end
  end.

(** [buildConditions] *)
Definition buildConditions (phase : Phase) (message : string) (generation : Z) : list MetaCondition :=
  [available_condition phase "AllReplicasReady" message generation].

(** The rest of [mapStatus], given the phase of the workload. *)
Definition status_update mls role (serviceName : string) (svc : option KubeService) (route : option HTTPRoute)
    (ready : Z) (derived : Phase * string) : StatusUpdate :=
  let down := route_enabled dec mls && negb (routeAccepted route) && bool_decide (derived.1 <> PhaseFailed) in
  let phase := if down then PhaseDegraded else derived.1 in
  let message := if down && String.eqb derived.2 "" then "HTTPRoute not yet Accepted; falling back to in-cluster DNS"
                 else derived.2 in
  {| su_Phase := phase; su_Message := message; su_Endpoint := deriveEndpoint mls role serviceName svc route;
     su_ReadyReplicas := ready; su_Selector := formatSelector (selectorLabels mls (ro_Name role));
     su_Conditions := buildConditions phase message (ob_Generation mls);
     su_Roles := [{| sr_Name := ro_Name role; sr_Replicas := ro_Replicas role; sr_ReadyReplicas := ready |}] |}.

Definition partly_ready (ready desired : Z) : string :=
  "only " +:+ decimal ready +:+ "/" +:+ decimal desired +:+ " replicas ready".

(** ** The (native, deployment) handler *)

(** [Validate] *)
Definition DeploymentValidate (spec : MLServiceSpec Q) : Validation :=
  validate_native "deployment" []
    (match be_Config (ssp_Backend spec) with
     | Some raw => if String.eqb raw "" then []
                   else ["(native, deployment) ignores backend.config; reserved for future fields"]
     | None => []
     end) spec.

(** [buildDeployment] *)
Definition buildDeployment mls : Deployment Q + api_error :=
  match first_role mls with
  | inr e => inr e
  | inl role =>
      inl {| ob_Meta := derived_meta mls (role_name mls (ro_Name role)) (ro_Name role);
             ob_Spec := {| de_Replicas := Some (ro_Replicas role); de_Selector := selectorLabels mls (ro_Name role);
                           de_Template := pod_template mls role [];
                           de_ProgressDeadlineSeconds := ssp_ProgressDeadlineSeconds (ob_Spec mls) |};
             ob_Status := {| dst_ReadyReplicas := 0; dst_Conditions := [] |} |}
  end.

(** [buildService] *)
Definition buildService mls : KubeService + api_error :=
  match first_role mls with inr e => inr e | inl role => inl (service_for mls role (workload_name mls) "") end.

(** [hashDeploymentSpec] *)
Definition hashDeploymentSpec (d : Deployment Q) : string + api_error :=
  match marshal_deployment dec (ob_Spec d) (ob_Labels d) with inr e => inr e | inl raw => inl (svc_sha256_hex dec raw) end.

(** [upsertDeployment] *)
Definition upsertDeployment mls (desired : Deployment Q) : api K unit := upsert_hashed mls (hashDeploymentSpec desired) desired.

(** [Reconcile] of the handler *)
Definition DeploymentReconcile mls : api K unit :=
  (let* dep := lift (buildDeployment mls) in
   let* _ := wrap "upsert deployment" (upsertDeployment mls dep) in
   let* svc := lift (buildService mls) in
   let* _ := wrap "upsert service" (upsertService mls svc) in
   reconcile_route mls (workload_name mls))%api.

(** The loop of [derivePhase] over the conditions of a Deployment. *)
Fixpoint rollout_failure (conds : list DeploymentCondition) : option string :=
  match conds with
  | [] => None
  | c :: rest =>
      if String.eqb (dc_Type c) "ReplicaFailure" && String.eqb (dc_Status c) "True" then
        Some ("ReplicaFailure: " +:+ dc_Message c)
      else if String.eqb (dc_Type c) "Progressing" && String.eqb (dc_Status c) "False" &&
              String.eqb (dc_Reason c) "ProgressDeadlineExceeded" then Some "Deployment progress deadline exceeded"
      else rollout_failure rest
  end.

(** [derivePhase] *)
Definition derive_deployment_phase (dep : option (Deployment Q)) (desired ready : Z) : Phase * string :=
  if (desired =? 0)%Z then (PhasePending, "spec.roles[0].replicas is 0")
  else match dep with
  | None => (PhasePending, "Deployment not yet created")
  | Some d =>
      if (ready =? desired)%Z then (PhaseReady, "")
      else if (0 <? ready)%Z && (ready <? desired)%Z then (PhaseDegraded, partly_ready ready desired)
      else match rollout_failure (dst_Conditions (ob_Status d)) with
           | Some message => (PhaseFailed, message)
           | None => (PhasePending, "Deployment is rolling out")
           end
  end.

(** [mapStatus] *)
Definition DeploymentMapStatus mls (children : list (child Q)) : StatusUpdate + api_error :=
  match first_role mls with
  | inr e => inr e
  | inl role =>
      let dep := findDeployment children (role_name mls (ro_Name role)) (ob_Namespace mls) in
      let svc := findService children (workload_name mls) (ob_Namespace mls) in
      let route := findHTTPRoute children (workload_name mls) (ob_Namespace mls) in
      let ready := match dep with Some d => dst_ReadyReplicas (ob_Status d) | None => 0%Z end in
      inl (status_update mls role (workload_name mls) svc route ready
             (derive_deployment_phase dep (ro_Replicas role) ready))
  end.

Definition nativedeployment : SvcHandler Q K :=
  {| sh_Key := ("native", "deployment"); sh_Validate := DeploymentValidate; sh_Reconcile := DeploymentReconcile;
     sh_MapStatus := DeploymentMapStatus; sh_WatchTargets := [WatchDeployments; WatchServices; WatchHTTPRoutes] |}.

(** ** The (native, statefulset) handler *)

(** [parseBackendConfig] *)
Definition parseBackendConfig (raw : option RawJSON) : Config + api_error :=
  match raw with
  | None => inl Config_zero
  | Some raw =>
      if String.eqb raw "" then inl Config_zero
      else match decode_backend dec raw with
      | inr e => inr e
      | inl c =>
          if negb (bool_decide (cf_PodManagementPolicy c ∈ [""; "OrderedReady"; "Parallel"])) then
            inr (Errored ("podManagementPolicy '" +:+ cf_PodManagementPolicy c +:+ "' must be OrderedReady or Parallel"))
          else if String.eqb (cf_ServiceName c) "" then inl c
          else match dns1123_label (cf_ServiceName c) with
               | [] => inl c
               | errs => inr (Errored ("serviceName '" +:+ cf_ServiceName c +:+ "' invalid: " +:+ Join errs "; "))
               end
      end
  end.

(** [defaultedServiceName] *)
Definition defaultedServiceName mls (c : Config) : string :=
  if String.eqb (cf_ServiceName c) "" then workload_name mls else cf_ServiceName c.

(** [defaultedPodManagementPolicy] *)
Definition defaultedPodManagementPolicy (c : Config) : string :=
  if String.eqb (cf_PodManagementPolicy c) "" then "OrderedReady" else cf_PodManagementPolicy c.

(** [Validate] *)
Definition StatefulSetValidate (spec : MLServiceSpec Q) : Validation :=
  validate_native "statefulset"
    (match parseBackendConfig (be_Config (ssp_Backend spec)) with
     | inr e => ["backend.config invalid: " +:+ error_text e]
     | inl _ => []
     end)
    (match ssp_ProgressDeadlineSeconds spec with
     | Some _ => ["runPolicy.progressDeadlineSeconds has no StatefulSet equivalent; ignored"]
     | None => []
     end) spec.

(** The variable that tells a replica its index. *)
Definition replica_index : RawJSON :=
  env_from_field dec "AXISML_REPLICA_INDEX" "v1" "metadata.labels['apps.kubernetes.io/pod-index']".

(** [buildStatefulSet] *)
Definition buildStatefulSet mls (cfg : Config) : StatefulSet Q + api_error :=
  match first_role mls with
  | inr e => inr e
  | inl role =>
      inl {| ob_Meta := derived_meta mls (role_name mls (ro_Name role)) (ro_Name role);
             ob_Spec := {| ss_Replicas := Some (ro_Replicas role); ss_Selector := selectorLabels mls (ro_Name role);
                           ss_ServiceName := defaultedServiceName mls cfg;
                           ss_PodManagementPolicy := defaultedPodManagementPolicy cfg;
                           ss_Template := pod_template mls role [replica_index] |};
             ob_Status := {| stst_ReadyReplicas := 0 |} |}
  end.

(** [buildHeadlessService] *)
Definition buildHeadlessService mls (cfg : Config) : KubeService + api_error :=
  match first_role mls with
  | inr e => inr e
  | inl role => inl (service_for mls role (defaultedServiceName mls cfg) "None")
  end.

(** [hashStatefulSetSpec] *)
Definition hashStatefulSetSpec (s : StatefulSet Q) : string + api_error :=
  match marshal_statefulset dec (ob_Spec s) (ob_Labels s) with inr e => inr e | inl raw => inl (svc_sha256_hex dec raw) end.

(** [upsertStatefulSet] *)
Definition upsertStatefulSet mls (desired : StatefulSet Q) : api K unit := upsert_hashed mls (hashStatefulSetSpec desired) desired.

(** [Reconcile] of the handler *)
Definition StatefulSetReconcile mls : api K unit :=
  (let* cfg := wrap "parse backend.config" (lift (parseBackendConfig (be_Config (ssp_Backend (ob_Spec mls))))) in
   let* sts := lift (buildStatefulSet mls cfg) in
   let* _ := wrap "upsert statefulset" (upsertStatefulSet mls sts) in
   let* svc := lift (buildHeadlessService mls cfg) in
   let* _ := wrap "upsert headless service" (upsertHeadlessService mls svc) in
   reconcile_route mls (defaultedServiceName mls cfg))%api.

(** [derivePhase] *)
Definition derive_statefulset_phase (sts : option (StatefulSet Q)) (desired ready : Z) : Phase * string :=
  if (desired =? 0)%Z then (PhasePending, "spec.roles[0].replicas is 0")
  else match sts with
  | None => (PhasePending, "StatefulSet not yet created")
  | Some _ =>
      if (ready =? desired)%Z then (PhaseReady, "")
      else if (0 <? ready)%Z && (ready <? desired)%Z then (PhaseDegraded, partly_ready ready desired)
      else (PhasePending, "StatefulSet is rolling out")
  end.

(** [mapStatus] *)
Definition StatefulSetMapStatus mls (children : list (child Q)) : StatusUpdate + api_error :=
  match first_role mls with
  | inr e => inr e
  | inl role =>
      let cfg := match parseBackendConfig (be_Config (ssp_Backend (ob_Spec mls))) with inl c => c | inr _ => Config_zero end in
      let headlessName := defaultedServiceName mls cfg in
      let sts := findStatefulSet children (role_name mls (ro_Name role)) (ob_Namespace mls) in
      let svc := findService children headlessName (ob_Namespace mls) in
      let route := findHTTPRoute children (workload_name mls) (ob_Namespace mls) in
      let ready := match sts with Some s => stst_ReadyReplicas (ob_Status s) | None => 0%Z end in
      inl (status_update mls role headlessName svc route ready
             (derive_statefulset_phase sts (ro_Replicas role) ready))
  end.

Definition nativestatefulset : SvcHandler Q K :=
  {| sh_Key := ("native", "statefulset"); sh_Validate := StatefulSetValidate; sh_Reconcile := StatefulSetReconcile;
     sh_MapStatus := StatefulSetMapStatus; sh_WatchTargets := [WatchStatefulSets; WatchServices; WatchHTTPRoutes] |}.

(** The registry the manager builds. *)
Definition service_registry : SvcRegistry Q K :=
  list_to_map (map (fun h => (sh_Key h, h)) (nativedeployment :: nativestatefulset :: service_stubs)).
End Native.
