(* ===== verification/OperatorPolicy.v ===== *)
(** * Compute operator: MLTrafficPolicy

    [compute-operator/internal/mltrafficpolicy]: the dispatcher and the
    (native, httproute) handler, which turns a policy into one weighted
    HTTPRoute over the Services of its members.  Members are looked up by the
    names the service controller gives them. *)

From Stdlib Require Import ssreflect ZArith Ascii String.
From stdpp Require Import base gmap list strings.
From S2P Require Import Prelude Placement ApiTypes Names Strconv Listing Kube OperatorTypes OperatorConfig ServingBase.

Open Scope string_scope.
Open Scope list_scope.

Definition PolicyGVK : string * string := ("axisml.io/v1alpha1", "MLTrafficPolicy").

(** [StatusUpdate] *)
Record PolicyUpdate := {
  pu_Phase : Phase;
  pu_Message : string;
  pu_Endpoint : string;
  pu_Backends : list BackendStatus;
  pu_Conditions : list MetaCondition }.

(** [Handler] *)
Record PolicyHandler {Q K : Type} := {
  ph_Key : string * string;
  ph_Validate : MLTrafficPolicySpec -> Validation;
  ph_Reconcile : Policy -> api K unit;
  ph_MapStatus : Policy -> list (child Q) -> PolicyUpdate;
  ph_WatchTargets : list target }.
Arguments PolicyHandler : clear implicits.

Abbreviation PolicyRegistry Q K := (gmap (string * string) (PolicyHandler Q K)) (only parsing).

(** [Register] *)
Definition register_policy {Q K} (h : PolicyHandler Q K) (r : PolicyRegistry Q K) : PolicyRegistry Q K + string :=
  match r !! ph_Key h with
  | Some _ => inr ("handler: duplicate registration for " +:+ (ph_Key h).1 +:+ "/" +:+ (ph_Key h).2)
  | None => inl (<[ph_Key h := h]> r)
  end.

(** [notImplementedHandler] *)
Definition notImplementedPolicy {Q K} (backend engine : string) : PolicyHandler Q K :=
  {| ph_Key := (backend, engine);
     ph_Validate _ := {| va_Errors := ["backend (" +:+ backend +:+ ", " +:+ engine +:+
       ") not implemented; see axisml-system/docs/compute-operator.md §4.3 / §9"]; va_Warnings := [] |};
     ph_Reconcile _ := ret tt;
     ph_MapStatus _ _ := {| pu_Phase := PhaseFailed; pu_Message := "handler not implemented"; pu_Endpoint := "";
       pu_Backends := []; pu_Conditions := [] |};
     ph_WatchTargets := [] |}.

(** ** The dispatcher *)

Section Dispatcher.
Context `{!Machinery} `{!ServingMachinery} {Q K : Type} `{!ServingClient Q K} (now : Z).
Implicit Types p : Policy.

Definition merged_policy_status p (upd : PolicyUpdate) : MLTrafficPolicyStatus :=
  {| pst_ObservedGeneration := ob_Generation p; pst_Phase := pu_Phase upd; pst_Message := pu_Message upd;
     pst_Endpoint := pu_Endpoint upd; pst_Backends := pu_Backends upd;
     pst_Conditions := mergeConditions now (pst_Conditions (ob_Status p)) (pu_Conditions upd) (ob_Generation p) |}.

(** [writeStatus] *)
Definition writePolicyStatus p (upd : PolicyUpdate) : api K unit :=
  let next := merged_policy_status p upd in
  if policy_status_equal (ob_Status p) next then ret tt
  else (let* _ := k_PatchStatus p (set_status next p) in ret tt)%api.

(** [writeFailedStatus] *)
Definition writeFailedPolicy p (message : string) : api K unit :=
  writePolicyStatus p {| pu_Phase := PhaseFailed; pu_Message := message; pu_Endpoint := ""; pu_Backends := [];
    pu_Conditions := [available_condition PhaseFailed "" message (ob_Generation p)] |}.

Definition policy_id p : string := map_get "" (ob_Labels p) LabelTrafficPolicyID.

(** [listChildren] *)
Definition listPolicyChildren p (h : PolicyHandler Q K) : api K (list (child Q)) :=
  if String.eqb (policy_id p) "" then ret []
  else list_children (ob_Namespace p) {[LabelTrafficPolicyID := policy_id p]} (ph_WatchTargets h).

(** The handler's turn. *)
Definition run_policy (h : PolicyHandler Q K) p : api K unit :=
  (let* r := try (ph_Reconcile h p) in
   match r with
   | inr err => let* _ := try (writeFailedPolicy p ("reconcile error: " +:+ error_text err)) in fail err
   | inl _ =>
       let* children := listPolicyChildren p h in
       writePolicyStatus p (ph_MapStatus h p children)
   end)%api.

(** [Reconcile] *)
Definition ReconcilePolicy (registry : PolicyRegistry Q K) (req : key) : api K unit :=
  (let* r := try (k_Get req : api K Policy) in
   match r with
   | inr e => if IsNotFound e then ret tt else fail e
   | inl p =>
       let backend := be_Name (tsp_Backend (ob_Spec p)) in
       let engine := be_Engine (tsp_Backend (ob_Spec p)) in
       if String.eqb (policy_id p) "" then
         writeFailedPolicy p ("missing required label '" +:+ LabelTrafficPolicyID +:+
                              "'; compute-service must stamp it before CR creation")
       else match registry !! (backend, engine) with
       | None => writeFailedPolicy p ("no handler for backend=" +:+ backend +:+ " engine=" +:+ engine)
       | Some h =>
           if validation_ok (ph_Validate h (ob_Spec p)) then run_policy h p
           else writeFailedPolicy p ("validation failed: " +:+ joinErrors (va_Errors (ph_Validate h (ob_Spec p))))
       end
   end)%api.
End Dispatcher.

(** ** The (native, httproute) handler *)

Section NativeHTTPRoute.
Context `{!Machinery} `{!ServingMachinery} {Q K : Type} `{!ServingClient Q K} (shortHash : bytes -> bytes).
Implicit Types p : Policy.

Definition count_role (role : string) (backends : list BackendMember) : nat :=
  length (List.filter (fun m => String.eqb (bm_Role m) role) backends).

(** The checks per mode. *)
Definition mode_errors (mode : string) (backends : list BackendMember) : list string :=
  if String.eqb mode TrafficModeWeighted then
    if (length backends <? 2)%nat then ["weighted mode requires at least 2 backends"] else []
  else if String.eqb mode TrafficModeCanary then
    if negb (length backends =? 2)%nat then ["canary mode requires exactly 2 backends"]
    else if negb (count_role RoleStable backends =? 1)%nat || negb (count_role RoleCanary backends =? 1)%nat then
      ["canary mode requires exactly one role=stable and one role=canary backend"] else []
  else if String.eqb mode TrafficModeBlueGreen then
    if negb (length backends =? 2)%nat then ["bluegreen mode requires exactly 2 backends"] else []
  else ["unknown mode '" +:+ mode +:+ "'"].

(** The checks on the members. *)
Fixpoint member_errors (i : nat) (seen : gset string) (backends : list BackendMember) : list string :=
  match backends with
  | [] => []
  | m :: rest =>
      let path := at_index "backends" i in
      (if String.eqb (bm_ServiceName m) "" then [path +:+ ".serviceName is required"] else []) ++
      (if decide (bm_ServiceName m ∈ seen) then [path +:+ ": duplicate serviceName '" +:+ bm_ServiceName m +:+ "'"] else []) ++
      (if (bm_Weight m <? 0)%Z || (100 <? bm_Weight m)%Z then
         [path +:+ ".weight must be 0..100; got " +:+ decimal (bm_Weight m)] else []) ++
      member_errors (S i) ({[bm_ServiceName m]} ∪ seen) rest
  end.

(** [Validate] *)
Definition PolicyValidate (spec : MLTrafficPolicySpec) : Validation :=
  match tsp_Backends spec with
  | [] => {| va_Errors := ["backends must declare at least one member"]; va_Warnings := [] |}
  | backends =>
      {| va_Errors := mode_errors (tsp_Mode spec) backends ++ member_errors 0 ∅ backends ++
           match ep_Auth (tsp_Endpoint spec) with
           | Some a => if String.eqb (ea_Type a) EndpointAuthJWT then
               ["endpoint.auth=jwt is not yet supported (SecurityPolicy derivation pending); use auth.type=none"] else []
           | None => []
           end;
         va_Warnings := match be_Config (tsp_Backend spec) with
           | Some raw => if String.eqb raw "" then []
                         else ["(native, httproute) ignores backend.config; reserved for future fields"]
           | None => []
           end |}
  end.

(** [resolveServicePort] *)
Definition resolveServicePort (namespace name : string) : api K (option Z) :=
  (let* r := try (k_Get (namespace, name) : api K KubeService) in
   match r with
   | inr e => if IsNotFound e then ret None else fail e
   | inl svc =>
       let ports := sv_Ports (ob_Spec svc) in
       ret match List.find (fun po => String.eqb (sp_Name po) "http") ports with
           | Some po => Some (sp_Port po)
           | None => match ports with po :: _ => Some (sp_Port po) | [] => None end
           end
   end)%api.

(** [backendRef] *)
Definition backendRef (serviceName : string) (port weight : Z) : HTTPBackendRef :=
  {| br_Name := serviceName; br_Kind := Some "Service"; br_Port := Some port; br_Weight := Some weight |}.

(** The Service of a member. *)
Definition member_service p (m : BackendMember) : string :=
  Related shortHash (me_Obj (ob_Meta p)) (map_get "" (ob_Labels p) LabelTenant) (bm_ServiceName m).

(** The loop of [Reconcile]: the references, and the members without a port. *)
Fixpoint resolve_members p (members : list BackendMember) : api K (list HTTPBackendRef * list string) :=
  match members with
  | [] => ret ([], [])
  | m :: rest =>
      let* port := wrap ("resolve service " +:+ bm_ServiceName m) (resolveServicePort (ob_Namespace p) (member_service p m)) in
      let* more := resolve_members p rest in
      ret match port with
          | Some n => (backendRef (member_service p m) n (bm_Weight m) :: more.1, more.2)
          | None => (more.1, bm_ServiceName m :: more.2)
          end
  end%api.

(** [resourceLabels] *)
Definition policyLabels p : gmap string string :=
  set_nonempty LabelTenant (map_get "" (ob_Labels p) LabelTenant) {[LabelTrafficPolicyID := policy_id p]}.

(** [buildHTTPRoute] *)
Definition buildPolicyRoute p (refs : list HTTPBackendRef) : HTTPRoute :=
  let endpoint := tsp_Endpoint (ob_Spec p) in
  {| ob_Meta := {| me_Obj := {| om_Name := Workload (me_Obj (ob_Meta p)); om_Namespace := ob_Namespace p;
                                om_Labels := policyLabels p; om_Annotations := ∅ |};
                   me_UID := ""; me_Generation := 0; me_Owners := [] |};
     ob_Spec := gateway_route (ep_Hostname endpoint) (ep_Path endpoint) refs;
     ob_Status := {| hs_Parents := [] |} |}.

Definition holding_message (missing : list string) : string :=
  "not all member services resolve yet (missing: " +:+ Join missing ", " +:+
  "); holding route to avoid shifting weights onto the resolvable subset".

(** [Reconcile] of the handler *)
Definition HTTPRouteReconcile p : api K unit :=
  let members := tsp_Backends (ob_Spec p) in
  (let* found := resolve_members p members in
   let '(refs, missing) := found in
   if (0 <? length missing)%nat && (1 <? length members)%nat then fail (Errored (holding_message missing))
   else match refs with
        | [] => ret tt
        | _ => wrap "upsert httproute" (upsertHTTPRoute PolicyGVK p (buildPolicyRoute p refs))
        end)%api.

(** [routeResolved] *)
Definition routeResolved (route : option HTTPRoute) : bool := routeConditionTrue route "ResolvedRefs".

(** [deriveEndpoint] *)
Definition derivePolicyEndpoint p (accepted : bool) : string :=
  let endpoint := tsp_Endpoint (ob_Spec p) in
  if negb accepted then ""
  else if negb (String.eqb (ep_Hostname endpoint) "") then external_url (ep_Hostname endpoint) (ep_Path endpoint)
  else if String.eqb (ep_Path endpoint) "" then "/" else ep_Path endpoint.

(** The phase and message of [mapStatus]. *)
Definition derive_policy_phase (route : option HTTPRoute) : Phase * string :=
  match route with
  | None => (PhasePending, "HTTPRoute not yet created (waiting for member services)")
  | Some _ =>
      if routeAccepted route && routeResolved route then (PhaseReady, "")
      else if routeAccepted route then (PhaseDegraded, "some backendRefs unresolved")
      else (PhasePending, "HTTPRoute not yet Accepted")
  end.

(** [mapStatus] *)
Definition HTTPRouteMapStatus p (children : list (child Q)) : PolicyUpdate :=
  let route := findHTTPRoute children (Workload (me_Obj (ob_Meta p))) (ob_Namespace p) in
  let '(phase, message) := derive_policy_phase route in
  {| pu_Phase := phase; pu_Message := message; pu_Endpoint := derivePolicyEndpoint p (routeAccepted route);
     pu_Backends := map (fun m => {| bs_ServiceName := bm_ServiceName m; bs_Weight := bm_Weight m;
                                     bs_Ready := routeAccepted route && routeResolved route |}) (tsp_Backends (ob_Spec p));
     pu_Conditions := [available_condition phase "RouteProgrammed" message (ob_Generation p)] |}.

Definition nativehttproute : PolicyHandler Q K :=
  {| ph_Key := (BackendKindNative, EngineHTTPRoute); ph_Validate := PolicyValidate; ph_Reconcile := HTTPRouteReconcile;
     ph_MapStatus := HTTPRouteMapStatus; ph_WatchTargets := [WatchHTTPRoutes] |}.

Definition policy_registry : PolicyRegistry Q K :=
  list_to_map (map (fun h => (ph_Key h, h)) [nativehttproute; notImplementedPolicy BackendKindKServe EngineInference]).
End NativeHTTPRoute.
