(* ===== verification/ServingSample.v ===== *)
(** * Serving operator: a sample cluster

    Instances of the interfaces of the serving controllers, used by the
    witnesses: apimachinery's helpers, a client without interference or
    failures, and a service with its Deployment and a policy over it. *)

From Stdlib Require Import ssreflect ZArith Ascii String.
From stdpp Require Import base gmap list strings.
From S2P Require Import Prelude Placement ApiTypes Names Strconv Listing Kube OperatorTypes OperatorConfig OperatorSample ServingBase OperatorService OperatorPolicy.

#[export] Instance Endpoint_auth_eq_dec : EqDecision EndpointAuth.
Proof. solve_decision. Defined.
#[export] Instance Endpoint_eq_dec : EqDecision Endpoint.
Proof. solve_decision. Defined.
#[export] Instance MLTrafficPolicySpec_eq_dec : EqDecision MLTrafficPolicySpec.
Proof. solve_decision. Defined.
#[export] Instance MLServiceSpec_eq_dec {Q} `{EqDecision Q} : EqDecision (MLServiceSpec Q).
Proof. solve_decision. Defined.
#[export] Instance DeploymentSpec_eq_dec {Q} `{EqDecision Q} : EqDecision (DeploymentSpec Q).
Proof. solve_decision. Defined.
#[export] Instance StatefulSetSpec_eq_dec {Q} `{EqDecision Q} : EqDecision (StatefulSetSpec Q).
Proof. solve_decision. Defined.
#[export] Instance ServicePort_eq_dec : EqDecision ServicePort.
Proof. solve_decision. Defined.
#[export] Instance ServiceSpec_eq_dec : EqDecision ServiceSpec.
Proof. solve_decision. Defined.
#[export] Instance ParentReference_eq_dec : EqDecision ParentReference.
Proof. solve_decision. Defined.
#[export] Instance HTTPPathMatch_eq_dec : EqDecision HTTPPathMatch.
Proof. solve_decision. Defined.
#[export] Instance HTTPBackendRef_eq_dec : EqDecision HTTPBackendRef.
Proof. solve_decision. Defined.
#[export] Instance HTTPRouteRule_eq_dec : EqDecision HTTPRouteRule.
Proof. solve_decision. Defined.
#[export] Instance HTTPRouteSpec_eq_dec : EqDecision HTTPRouteSpec.
Proof. solve_decision. Defined.

#[export] Program Instance plain_serving : ServingMachinery := {|
  dns1123_label _ := [];
  SetControllerReference gvk m := inl [NewControllerRef gvk.1 gvk.2 m];
  service_status_equal a b := bool_decide (a = b);
  policy_status_equal a b := bool_decide (a = b);
  service_spec_equal a b := bool_decide (a = b);
  route_spec_equal a b := bool_decide (a = b) |}.
Next Obligation. intros gvk m refs [= <-]. by eexists. Qed.
Next Obligation. intros a b. apply bool_decide_eq_true. Qed.
Next Obligation. intros a b. apply bool_decide_eq_true. Qed.
Next Obligation. intros a b. apply bool_decide_eq_true. Qed.
Next Obligation. intros a b. apply bool_decide_eq_true. Qed.

#[export] Instance serving_client Q `{EqDecision Q} : ServingClient Q (serving Q) := {|
  vc_services := perfect_client; vc_policies := perfect_client; vc_deployments := perfect_client;
  vc_statefulsets := perfect_client; vc_kubeservices := perfect_client; vc_routes := perfect_client;
  vc_configmaps := perfect_client |}.

Lemma deployed_as_refl {Q} (b : DeploymentSpec Q) : deployed_as b b.
Proof. split_and!; [by intros a | done | apply pods_as_refl]. Qed.

Lemma stateful_as_refl {Q} (b : StatefulSetSpec Q) : stateful_as b b.
Proof. split_and!; [by intros a | done | done | apply pods_as_refl]. Qed.

Lemma serves_as_refl (b : ServiceSpec) : serves_as b b.
Proof. by split_and!. Qed.

Lemma routes_as_refl (b : HTTPRouteSpec) : routes_as b b.
Proof.
  split; [done |]. apply Forall_Forall2_diag, Forall_true. intros r. split; [done |].
  apply Forall_Forall2_diag, Forall_true. intros ref. split_and!; [done | by intros a | by intros a].
Qed.

#[export] Instance serving_laws Q `{EqDecision Q} : ServingLaws (Q := Q) (K := serving Q) id eq.
Proof.
  pose proof (@deployed_as_refl Q). pose proof (@stateful_as_refl Q). pose proof serves_as_refl. pose proof routes_as_refl.
  split; apply perfect_laws; simpl; try done; try (intros ? ? ->); try done.
  - intros before after. split; [done |]. right. by destruct (routes_as_refl after).
  - intros before cur. split; [by intros -> | by left].
Qed.

#[export] Instance serving_current Q `{EqDecision Q} : ServingCurrent (Q := Q) (K := serving Q) id eq.
Proof. split; apply perfect_current. Qed.

Open Scope string_scope.

(** ** A service *)

Definition sample_port (raw : RawJSON) : PodPort :=
  {| pp_Name := raw; pp_ContainerPort := if String.eqb raw "http" then 8080 else 9090; pp_Protocol := "" |}.

Definition sample_route (raw : RawJSON) : Route :=
  {| rt_Enabled := true; rt_TargetRole := ""; rt_PortName := "http"; rt_Hostname := raw; rt_Path := "/chat"; rt_Auth := None;
     rt_RateLimit := None; rt_Timeout := "" |}.

(** A sample spec is marshalled as its first image, a derived one as the image
    and the number of replicas. *)
Definition first_image (t : PodTemplateSpec Z) : string :=
  match pts_Containers t with c :: _ => ct_Image c | [] => "none" end.

Definition sample_serving : ServingDecoders Z := {|
  port_of := sample_port; route_of := sample_route;
  svc_volume_name v := v; svc_mount_name m := m;
  svc_configmap_of name := {| cm_Name := name; cm_Data := {["LEVEL" := "debug"]} |};
  env_from_field name _ path := name ++ "<-" ++ path;
  decode_backend raw := inl {| cf_PodManagementPolicy := ""; cf_ServiceName := raw |};
  canonical_json raw := inl raw;
  marshal_service spec := inl (match ssp_Roles spec with role :: _ => pt_Image (ro_Template role) | [] => "none" end);
  marshal_deployment d _ := inl (first_image (de_Template d) ++ "/" ++ decimal (default 0%Z (de_Replicas d)));
  marshal_statefulset d _ := inl (first_image (ss_Template d) ++ "/" ++ decimal (default 0%Z (ss_Replicas d)));
  svc_sha256_hex raw := "sha:" ++ raw |}.

Definition sample_service_spec (engine image : string) (replicas : Z) (config route : option RawJSON) : MLServiceSpec Z := {|
  ssp_Backend := {| be_Name := "native"; be_Engine := engine; be_Config := config |};
  ssp_Scheduling := {| sc_Quota := "axisml-team-a-gpu"; sc_PriorityClass := ""; sc_NodeSelector := {["pool" := "gpu"]};
                       sc_Tolerations := [] |};
  ssp_ConfigMaps := [];
  ssp_Roles := [{| ro_Name := "predictor"; ro_Replicas := replicas; ro_RestartPolicy := "";
                   ro_Template := {| pt_Image := image; pt_ImagePullPolicy := ""; pt_Command := ["serve"]; pt_Args := [];
                     pt_Env := []; pt_EnvFrom := []; pt_WorkingDir := ""; pt_Ports := ["http"];
                     pt_Resources := {| rq_Requests := {["cpu" := 4%Z]}; rq_Limits := ∅ |};
                     pt_Volumes := []; pt_VolumeMounts := [] |} |}];
  ssp_ProgressDeadlineSeconds := None; ssp_Route := route |}.

Definition sample_meta (name uid : string) (labels annotations : gmap string string) : Meta :=
  {| me_Obj := {| om_Name := name; om_Namespace := "team-a"; om_Labels := labels; om_Annotations := annotations |};
     me_UID := uid; me_Generation := 1; me_Owners := [] |}.

Definition sample_svc (name base : string) (spec : MLServiceSpec Z) : Svc Z := {|
  ob_Meta := sample_meta name ("u-" ++ name) (<[LabelQuota := "gpu"]> {[LabelServiceID := "s-" ++ name]})
               (if String.eqb base "" then ∅ else {[immutableHashAnnotation := base]});
  ob_Spec := spec; ob_Status := MLServiceStatus_zero |}.

Definition chat_key : key := ("team-a", "chat").

Definition empty_serving : serving Z :=
  {| sv_Services := ∅; sv_Policies := ∅; sv_Deployments := ∅; sv_StatefulSets := ∅; sv_KubeServices := ∅;
     sv_Routes := ∅; sv_ConfigMaps := ∅ |}.

Definition with_service (s : Svc Z) (c : serving Z) : serving Z := set_tab (<[ob_key s := s]> (sv_Services c)) c.

Lemma with_service_only (s s' : Svc Z) (c : serving Z) : sv_Services (with_service s c) !! ob_key s = Some s' -> s' = s.
Proof. simpl. rw lookup_insert_eq. by intros [= <-]. Qed.

Definition sample_services : SvcRegistry Z (serving Z) := service_registry sample_serving sample_hash.

Definition chat (base : string) (route : option RawJSON) : Svc Z :=
  sample_svc "chat" base (sample_service_spec "deployment" "img" 2 None route).

(** A first pass creates the Deployment and the Service, and stamps the spec. *)
Example sample_service_pass :
  let '(res, c) := Reconcile sample_serving 100 sample_services chat_key (with_service (chat "" None) empty_serving) in
  res = inl tt /\ is_Some (sv_Deployments c !! ("team-a", "chat-predictor")) /\
  is_Some (sv_KubeServices c !! chat_key) /\ sv_Routes c !! chat_key = None /\
  (baseline <$> sv_Services c !! chat_key) = Some (Some "sha:img") /\
  (vst_Endpoint ∘ ob_Status <$> sv_Services c !! chat_key) = Some "chat.team-a.svc.cluster.local:8080".
Proof. vm_compute. split_and!; try done; by eexists. Qed.

(** ** A policy *)

Definition member (name role : string) (weight : Z) : BackendMember :=
  {| bm_ServiceName := name; bm_Role := role; bm_Weight := weight |}.

Definition sample_policy (name : string) (backends : list BackendMember) : Policy := {|
  ob_Meta := sample_meta name ("p-" ++ name) {[LabelTrafficPolicyID := "t-" ++ name]} ∅;
  ob_Spec := {| tsp_Backend := {| be_Name := "native"; be_Engine := "httproute"; be_Config := None |};
                tsp_Mode := "canary"; tsp_Endpoint := {| ep_Path := "/split"; ep_Hostname := ""; ep_Auth := None |};
                tsp_Backends := backends |};
  ob_Status := MLTrafficPolicyStatus_zero |}.

Definition with_policy (p : Policy) (c : serving Z) : serving Z := set_tab (<[ob_key p := p]> (sv_Policies c)) c.

Lemma with_policy_only (p p' : Policy) (c : serving Z) : sv_Policies (with_policy p c) !! ob_key p = Some p' -> p' = p.
Proof. simpl. rw lookup_insert_eq. by intros [= <-]. Qed.

Definition sample_policies : PolicyRegistry Z (serving Z) := policy_registry sample_hash.

(** A Service of the given name. *)
Definition kube_service (name : string) (owner : string) : KubeService := {|
  ob_Meta := {| me_Obj := {| om_Name := name; om_Namespace := "team-a"; om_Labels := ∅; om_Annotations := ∅ |};
                me_UID := "k-" ++ name; me_Generation := 1;
                me_Owners := [{| ow_APIVersion := "v1"; ow_Kind := "MLService"; ow_Name := name; ow_UID := owner;
                                 ow_Controller := true; ow_BlockOwnerDeletion := true |}] |};
  ob_Spec := {| sv_Type := "ClusterIP"; sv_ClusterIP := "10.0.0.1"; sv_ClusterIPs := ["10.0.0.1"]; sv_Selector := ∅;
                sv_Ports := [{| sp_Name := "http"; sp_Port := 8080; sp_TargetPort := 8080; sp_Protocol := "TCP" |}] |};
  ob_Status := tt |}.

Definition with_kube (s : KubeService) (c : serving Z) : serving Z := set_tab (<[ob_key s := s]> (sv_KubeServices c)) c.

Definition canary_policy : Policy := sample_policy "split" [member "blue" "stable" 95; member "green" "canary" 5].
Definition split_key : key := ("team-a", "split").

(** Without one of its members a policy has no route; with both it has one. *)
Example sample_policy_pass :
  let c0 := with_policy canary_policy (with_kube (kube_service "blue" "u-blue") empty_serving) in
  let '(res0, c1) := ReconcilePolicy 100 sample_policies split_key c0 in
  let '(res, c2) := ReconcilePolicy 100 sample_policies split_key (with_kube (kube_service "green" "u-green") c1) in
  res = inl tt /\ (if res0 is inr _ then true else false) = true /\ sv_Routes c1 !! split_key = None /\
  is_Some (sv_Routes c2 !! split_key).
Proof. vm_compute. split_and!; try done; by eexists. Qed.
