(* ===== verification/ServingFacts.v ===== *)
(** * Serving operator: facts

    Which calls touch which objects: every call of the two controllers keeps
    assertions that do not look at the kind it writes.  With that, the
    invariant behind the immutable spec: under interference, the Deployments
    and StatefulSets of a stamped service are built from specs with the stamped
    hash. *)

From Stdlib Require Import ssreflect ZArith Ascii String Lia.
From stdpp Require Import base gmap list strings.
From S2P Require Import Prelude Placement ApiTypes Names Strconv Listing Kube OperatorTypes OperatorConfig ServingBase OperatorService OperatorPolicy.

(** ** Calls that keep an assertion *)

Section ServingKeeps.
Context `{!Machinery} `{!ServingMachinery} {Q K : Type} `{!ServingClient Q K} (objects : K -> serving Q).
Context (rely : serving Q -> serving Q -> Prop).

Section OneKind.
Context {B S : Type} `{!Kind (serving Q) B S} `{!Client K B S} `{!ClientLaws (B := B) (S := S) objects rely}.
Context (X : serving Q -> Prop) `{!Stable rely X}.
Context (HX : forall c (t : gmap key (object B S)), X c -> X (set_tab t c)).

Lemma keeps_upsert {B' S'} gvk (owner : object B' S') (desired : object B S) update :
  (forall d c, keeps objects X (update d c)) -> keeps objects X (upsert_with gvk owner desired update).
Proof using All.
  intros Hu. rw /upsert_with. case_match; [| apply keeps_fail]. rw /create_or.
  apply keeps_bind; [apply keeps_try, (keeps_get objects rely X) |]. intros [o | e]; [done |]. case_match; [| apply keeps_fail].
  apply keeps_bind; [by apply (keeps_create objects rely X) | by intros ?; apply keeps_ret].
Qed.
End OneKind.

Context `{!ServingLaws objects rely} (X : serving Q -> Prop) `{!Stable rely X}.

Lemma keeps_list_children namespace selector targets : keeps objects X (list_children namespace selector targets).
Proof using All.
  induction targets as [| t rest IH]; simpl; [apply keeps_ret |].
  apply keeps_bind; [apply keeps_try; destruct t; (apply keeps_bind; [by apply (keeps_list objects rely X) | by intros ?; apply keeps_ret]) |].
  intros [items | e]; [| by case_match; [| apply keeps_fail]].
  apply keeps_bind; [done | by intros ?; apply keeps_ret].
Qed.

Lemma keeps_route gvk {B S} (owner : object B S) (desired : HTTPRoute) :
  (forall c (t : gmap key HTTPRoute), X c -> X (set_tab t c)) -> keeps objects X (upsertHTTPRoute gvk owner desired).
Proof using All.
  intros HX. apply (keeps_upsert X HX). intros d c. cbv beta zeta. case_match; [apply keeps_ret |].
  apply keeps_bind; [by apply (keeps_patch objects rely X) | by intros ?; apply keeps_ret].
Qed.

Lemma keeps_update_service (d c : KubeService) :
  (forall c (t : gmap key KubeService), X c -> X (set_tab t c)) -> keeps objects X (update_service d c).
Proof using All.
  intros HX. rw /update_service. case_match; [apply keeps_ret |].
  apply keeps_bind; [by apply (keeps_patch objects rely X) | by intros ?; apply keeps_ret].
Qed.

Lemma keeps_write_status now (mls : Svc Q) upd :
  (forall c (t : gmap key (Svc Q)), X c -> X (set_tab t c)) -> keeps objects X (writeStatus now mls upd).
Proof using All.
  intros HX. rw /writeStatus. case_match; [apply keeps_ret |].
  apply keeps_bind; [by apply (keeps_patch_status objects rely X) | by intros ?; apply keeps_ret].
Qed.

Lemma keeps_reconcile_route dec (mls : Svc Q) name :
  (forall c (t : gmap key HTTPRoute), X c -> X (set_tab t c)) -> keeps objects X (reconcile_route dec mls name).
Proof using All.
  intros HX. rw /reconcile_route. case_match; [| apply keeps_ret].
  apply keeps_bind; [apply keeps_lift | intros r]. by apply keeps_wrap, keeps_route.
Qed.
End ServingKeeps.

(** ** Specs of the operator's own objects *)

Section Specs.
Context `{!Machinery} `{!ServingMachinery} {Q K : Type} `{!ServingClient Q K} (objects : K -> serving Q).
Context (rely : serving Q -> serving Q -> Prop).
Context {B S : Type} `{!Kind (serving Q) B S} `{!Client K B S} `{!ClientLaws (B := B) (S := S) objects rely}.
Context `{!CurrentGets (B := B) (S := S) objects rely}.
Context (mine : key -> Prop) (ok : key -> B -> Prop) (X : serving Q -> Prop) `{!Stable rely X}.
Context (Hrely : forall c c', rely c c' -> specs_stay (B := B) (S := S) mine c c').
Context (Htab : forall (t : gmap key (object B S)) c, tab (set_tab t c) = t).
Context (HX : forall c (t : gmap key (object B S)), X c -> X (set_tab t c)).
Context (Hmerge : forall before after cur new : B,
  spec_merged (C := serving Q) before after cur new -> cur = before -> defaulted (C := serving Q) after new).
Local Notation I := (with_specs (S := S) mine ok X).

Lemma create_or_ok (desired : object B S) update :
  (forall b', defaulted (C := serving Q) (ob_Spec desired) b' -> ok (ob_key desired) b') ->
  (forall cur, ob_key cur = ob_key desired ->
     triple objects (fun c => I c /\ spec_is mine (ob_key cur) (ob_Spec cur) c) (update cur) (fun _ => I)) ->
  triple objects I (create_or desired update) (fun _ => I).
Proof using All.
  intros Hd Hu. rw /create_or. apply (triple_bind objects _ _ _ (fun r c => match r with
    | inl r => read_spec mine ok X (ob_key desired) r c | inr _ => I c end)); [| | done].
  { apply triple_try. by apply (get_ok objects rely mine ok X). }
  intros [cur | e]; [by apply triple_read_spec; auto | apply triple_not_read]. case_match; [| by intros ?].
  apply (triple_bind objects _ _ _ (fun _ => I)); [| by intros ? ? | done]. by apply (create_ok objects rely mine ok X).
Qed.

Lemma upsert_hashed_ok (mls : Svc Q) hash (desired : object B S) :
  (forall b', defaulted (C := serving Q) (ob_Spec desired) b' -> ok (ob_key desired) b') ->
  triple objects I (upsert_hashed mls hash desired) (fun _ => I).
Proof using All.
  intros Hd. rw /upsert_hashed. case_match; [| by intros ?]. case_match; [| by intros ?].
  apply create_or_ok; [done |]. intros cur Hk. case_match; [by intros ? [? _] |].
  apply (triple_bind objects _ _ _ (fun _ => I)); [| by intros ? ? | done]. apply (patch_ok objects rely mine ok X); try done. by rw Hk.
Qed.
End Specs.

(** ** Serving operator: the immutable spec

    The invariant of a service that carries a baseline: the Deployments and
    StatefulSets the operator writes for it are built from specs with the
    stamped hash, whatever users write into the spec and whichever calls
    fail. *)

(** While the operator works on the service [k], others may edit or delete it
    but do not write its baseline and do not create it again within the step;
    they may do anything to ConfigMaps, Services and routes; they may remove
    Deployments and StatefulSets and write anything but their specs, and create
    them under names that are not [mine]. *)
Definition svc_others {Q} (k : key) (mine : key -> Prop) (c c' : serving Q) : Prop :=
  (forall s', sv_Services c' !! k = Some s' -> exists s, sv_Services c !! k = Some s /\ baseline s' = baseline s) /\
  specs_stay (B := DeploymentSpec Q) (S := DeploymentStatus) mine c c' /\
  specs_stay (B := StatefulSetSpec Q) (S := StatefulSetStatus) mine c c'.

Lemma svc_others_refl {Q} (k : key) (mine : key -> Prop) (c : serving Q) : svc_others k mine c c.
Proof. split_and!; [by intros s ?; exists s | by intros dk d _ ?; exists d | by intros dk d _ ?; exists d]. Qed.

(** The handlers of the manager. *)
Lemma registered {Q K} `{!Machinery} `{!ServingMachinery} `{!ServingClient Q K} (dec : ServingDecoders Q) (shortHash : bytes -> bytes)
    (i : string * string) (h : SvcHandler Q K) :
  service_registry dec shortHash !! i = Some h ->
  h = nativedeployment dec shortHash \/ h = nativestatefulset dec shortHash \/ h ∈ service_stubs.
Proof.
  intros Hh%elem_of_list_to_map_2. apply list_elem_of_fmap in Hh as (h' & [= _ <-] & Hin).
  apply elem_of_cons in Hin as [-> | Hin]; [by left |]. apply elem_of_cons in Hin as [-> | Hin]; [by right; left |]. by right; right.
Qed.

Section Baseline.
Context `{!Machinery} `{!ServingMachinery} {Q K : Type} `{!ServingClient Q K} (objects : K -> serving Q).
Context (rely : serving Q -> serving Q -> Prop) `{!ServingLaws objects rely}.
Context `{!CurrentGets (B := DeploymentSpec Q) (S := DeploymentStatus) objects rely}.
Context `{!CurrentGets (B := StatefulSetSpec Q) (S := StatefulSetStatus) objects rely}.
Context (dec : ServingDecoders Q) (shortHash : bytes -> bytes) (now : Z).
Context (k : key) (mine : key -> Prop) (Hrely : forall c c', rely c c' -> svc_others k mine c c').

(** Specs of workloads that were built from a service spec with this hash. *)
Definition built_deployment (h : string) (b : DeploymentSpec Q) : Prop :=
  exists (svc : Svc Q) d0, immutableSpecHash dec (ob_Spec svc) = inl h /\ buildDeployment dec shortHash svc = inl d0 /\
    deployed_as (ob_Spec d0) b.

Definition built_statefulset (h : string) (b : StatefulSetSpec Q) : Prop :=
  exists (svc : Svc Q) cfg s0, immutableSpecHash dec (ob_Spec svc) = inl h /\
    parseBackendConfig dec (be_Config (ssp_Backend (ob_Spec svc))) = inl cfg /\
    buildStatefulSet dec shortHash svc cfg = inl s0 /\ stateful_as (ob_Spec s0) b.

(** As it was in [before], or built. *)
Definition since {B S} (before : gmap key (object B S)) (built : B -> Prop) (dk : key) (b : B) : Prop :=
  (exists d0, before !! dk = Some d0 /\ ob_Spec d0 = b) \/ built b.

Definition stamped (h : string) (c : serving Q) : Prop := forall s, sv_Services c !! k = Some s -> baseline s = Some h.

Definition deployments_follow (h : string) (c0 : serving Q) : serving Q -> Prop :=
  specs_ok (S := DeploymentStatus) mine (since (sv_Deployments c0) (built_deployment h)).

Definition statefulsets_follow (h : string) (c0 : serving Q) : serving Q -> Prop :=
  specs_ok (S := StatefulSetStatus) mine (since (sv_StatefulSets c0) (built_statefulset h)).

Definition based (h : string) (c0 c : serving Q) : Prop :=
  (stamped h c /\ statefulsets_follow h c0 c) /\ deployments_follow h c0 c.

#[export] Instance stable_stamped h : Stable rely (stamped h).
Proof. intros c c' [Hs _]%Hrely Hb s' Hs'. destruct (Hs s' Hs') as (s & Hl & ->). by apply Hb. Qed.

Lemma deployments_stay c c' : rely c c' -> specs_stay (B := DeploymentSpec Q) (S := DeploymentStatus) mine c c'.
Proof. by intros (_ & ? & _)%Hrely. Qed.

Lemma statefulsets_stay c c' : rely c c' -> specs_stay (B := StatefulSetSpec Q) (S := StatefulSetStatus) mine c c'.
Proof. by intros (_ & _ & ?)%Hrely. Qed.

#[export] Instance stable_deployments h c0 : Stable rely (deployments_follow h c0).
Proof. apply stable_specs_ok, deployments_stay. Qed.

#[export] Instance stable_statefulsets h c0 : Stable rely (statefulsets_follow h c0).
Proof. apply stable_specs_ok, statefulsets_stay. Qed.

#[export] Instance stable_based h c0 : Stable rely (based h c0).
Proof. apply _. Qed.

Lemma deployment_upsert_based h c0 mls dep :
  immutableSpecHash dec (ob_Spec mls) = inl h -> buildDeployment dec shortHash mls = inl dep ->
  keeps objects (based h c0) (upsertDeployment dec mls dep).
Proof using All.
  intros Hh Hb. apply (upsert_hashed_ok objects rely mine); try done; [apply _ | apply deployments_stay |].
  intros b' Hd. right. by exists mls, dep.
Qed.

Lemma statefulset_upsert_based h c0 mls cfg sts :
  immutableSpecHash dec (ob_Spec mls) = inl h -> parseBackendConfig dec (be_Config (ssp_Backend (ob_Spec mls))) = inl cfg ->
  buildStatefulSet dec shortHash mls cfg = inl sts ->
  keeps objects (based h c0) (upsertStatefulSet dec mls sts).
Proof using All.
  intros Hh Hc Hb. apply (triple_consequence objects (fun c => (stamped h c /\ deployments_follow h c0 c) /\ statefulsets_follow h c0 c)
    _ _ (fun _ c => (stamped h c /\ deployments_follow h c0 c) /\ statefulsets_follow h c0 c)); [| by intros c [[??]?] | by intros r c [[??]?]].
  apply (upsert_hashed_ok objects rely mine); try done; [apply _ | apply statefulsets_stay |].
  intros b' Hd. right. by exists mls, cfg, sts.
Qed.

(** The two handlers keep it when the spec has the stamped hash. *)
Lemma handler_based h c0 mls hd (i : string * string) :
  immutableSpecHash dec (ob_Spec mls) = inl h -> service_registry dec shortHash !! i = Some hd ->
  keeps objects (based h c0) (sh_Reconcile hd mls).
Proof using All.
  intros Hh Hreg. destruct (registered dec shortHash i hd Hreg) as [-> | [-> | Hstub]]; simpl.
  - apply keeps_lift_bind => dep Hb. apply keeps_bind; [by apply keeps_wrap, deployment_upsert_based | intros _].
    apply keeps_lift_bind => svc _. apply keeps_bind; [| intros _; apply (keeps_reconcile_route objects rely); [apply _ | untouched]].
    apply keeps_wrap, (keeps_upsert objects rely); [apply _ | untouched |]. intros d c. apply (keeps_update_service objects rely); [apply _ | untouched].
  - apply keeps_wrap_lift_bind => cfg Hc. apply keeps_lift_bind => sts Hb.
    apply keeps_bind; [by eapply keeps_wrap, statefulset_upsert_based | intros _].
    apply keeps_lift_bind => svc _. apply keeps_bind; [| intros _; apply (keeps_reconcile_route objects rely); [apply _ | untouched]].
    apply keeps_wrap, (keeps_upsert objects rely); [apply _ | untouched |]. intros d c. case_match; [| apply keeps_fail].
    apply (keeps_update_service objects rely); [apply _ | untouched].
  - apply elem_of_cons in Hstub as [-> | Hstub]; [apply keeps_ret |].
    apply list_elem_of_singleton in Hstub as ->. apply keeps_ret.
Qed.

Lemma write_status_based h c0 mls upd : keeps objects (based h c0) (writeStatus now mls upd).
Proof using All.
  rw /writeStatus. case_match; [apply keeps_ret |]. apply keeps_bind; [| by intros ?; apply keeps_ret].
  apply (triple_patch_status objects rely); [apply _ | apply _ | | done].
  intros c o o' [[Hb Hs] Hd] Hl (Hm & _). assert (based h c0 (set_tab (<[ob_key mls := o']> (sv_Services c)) c)) as HI; [| by split].
  split; [split; [| done] | done]. intros s. simpl.
  change (sv_Services c !! ob_key mls = Some o) in Hl.
  destruct (decide (ob_key mls = k)) as [Hk | ?]; [rw Hk in Hl |- *; rw lookup_insert_eq => [= <-] | by rw lookup_insert_ne //; apply Hb].
  rw -(Hb _ Hl) /baseline /ob_Annotations Hm //.
Qed.

Lemma run_based h c0 mls hd (i : string * string) :
  immutableSpecHash dec (ob_Spec mls) = inl h -> baseline mls = Some h -> service_registry dec shortHash !! i = Some hd ->
  keeps objects (based h c0) (run_service_config dec now hd mls).
Proof using All.
  intros Hh Hb Hreg. pose proof (write_status_based h c0 mls) as Hw. rw /run_service_config.
  apply keeps_bind; [apply keeps_try, (config_keeps objects rely); [apply _ | untouched] |].
  intros [[] | err]; last first.
  { apply keeps_bind; [apply Hw | intros _]. case_match; [apply keeps_ret | apply keeps_fail]. }
  rw /run_service_handler. apply keeps_bind; [by eapply keeps_try, handler_based |].
  intros [[] | err]; last first.
  { case_match; try apply keeps_fail; (apply keeps_bind; [apply keeps_try, Hw | intros _; apply keeps_fail]). }
  rw /report_service. apply keeps_bind; [| intros children].
  { rw /listChildren. case_match; [apply keeps_ret | by apply (keeps_list_children objects rely); try apply _]. }
  apply keeps_lift_bind => upd _. apply keeps_bind; [apply Hw | intros _].
  rw /stampImmutabilityBaseline Hb. apply keeps_ret.
Qed.

(** Reads of a stamped service return versions that carry the stamp: the cache
    has caught up with it.  They may be outdated otherwise. *)
Definition stamp_seen (h : string) : Prop :=
  forall s (o : Svc Q) s', stamped h (objects s) -> k_Get k s = (inl o, s') -> baseline o = Some h.

Lemma reconcile_based h c0 :
  stamp_seen h -> keeps objects (based h c0) (Reconcile dec now (service_registry dec shortHash) k).
Proof using All.
  intros Hseen. rw /Reconcile.
  apply (triple_bind objects _ _ _ (fun r c => based h c0 c /\ forall o, r = inl (inl o) -> baseline o = Some h));
    [| | by intros e c [? _]].
  { apply triple_try. intros s HI. pose proof (keeps_get objects rely (B := MLServiceSpec Q) (S := MLServiceStatus) (based h c0) k s HI) as Hk.
    split; [done |]. intros o [= Ho]. destruct (k_Get k s) as [r s'] eqn:Hg. simpl in Ho. subst r. by apply (Hseen s o s'); [apply HI |]. }
  intros [mls | e]; apply triple_pure; [| intros _; case_match; [apply keeps_ret | apply keeps_fail]].
  intros Ho. pose proof (Ho _ eq_refl) as Hb. clear Ho. pose proof (write_status_based h c0 mls) as Hw.
  rw /reconcile_service. case_match; [apply Hw |]. case_match; [apply Hw |]. case_match eqn:Hreg; [| apply Hw].
  rw /checkImmutability Hb. destruct (immutableSpecHash dec (ob_Spec mls)) as [hash | err] eqn:Hh; [| apply keeps_fail].
  destruct (String.eqb_spec h hash) as [<- | ?]; [| apply Hw].
  case_match; [apply Hw |]. case_match; [by eapply run_based | apply Hw].
Qed.
End Baseline.

(** ** Serving operator: weighted routes

    The invariant of the (native, httproute) handler: the route of a policy
    carries one reference per member, in order, with the member's weight, of a
    version of the policy that was in the cluster.  A member that does not
    resolve holds the route as it is. *)

Section Split.
Context (shortHash : bytes -> bytes) (good : Policy -> Prop).

(** The reference of a member. *)
Definition refers (p : Policy) (m : BackendMember) (ref : HTTPBackendRef) : Prop :=
  br_Name ref = member_service shortHash p m /\ br_Weight ref = Some (bm_Weight m).

(** The rules split traffic as a good policy says. *)
Definition splits (rules : list HTTPRouteRule) : Prop :=
  exists p rule, good p /\ rules = [rule] /\ Forall2 (refers p) (tsp_Backends (ob_Spec p)) (hr_BackendRefs rule).

Lemma splits_stored (p : Policy) refs rules :
  good p -> Forall2 (refers p) (tsp_Backends (ob_Spec p)) refs ->
  Forall2 rule_as (ht_Rules (ob_Spec (buildPolicyRoute p refs))) rules -> splits rules.
Proof.
  intros Hg Hrefs Hrules. apply Forall2_cons_inv_l in Hrules as (rule & rest & [_ Hr] & Hnil & Heq).
  apply Forall2_nil_inv_l in Hnil as ->. exists p, rule. split_and!; [done | done |].
  clear -Hrefs Hr. revert Hr. generalize (hr_BackendRefs rule). simpl.
  induction Hrefs as [| m ref ms refs0 [Hn Hw] _ IH]; intros l Hl; inversion Hl as [| ? ref' ? l' (Hn' & _ & Hw') Hrest]; subst; [done |].
  constructor; [| by apply IH]. split; [congruence | by apply Hw'].
Qed.
End Split.

(** While the operator works on the policy [k], others may edit it, keeping it
    [good], and do anything but write rules of the routes that are [mine]. *)
Definition policy_others {Q} (good : Policy -> Prop) (k : key) (mine : key -> Prop) (c c' : serving Q) : Prop :=
  ((forall p, sv_Policies c !! k = Some p -> good p) -> forall p, sv_Policies c' !! k = Some p -> good p) /\
  (forall rk r', mine rk -> sv_Routes c' !! rk = Some r' ->
     exists r, sv_Routes c !! rk = Some r /\ ht_Rules (ob_Spec r') = ht_Rules (ob_Spec r)).

Lemma policy_others_refl {Q} good (k : key) (mine : key -> Prop) (c : serving Q) : policy_others good k mine c c.
Proof. split; [done | by intros dk d _ ?; exists d]. Qed.

Section Policy.
Context `{!Machinery} `{!ServingMachinery} {Q K : Type} `{!ServingClient Q K} (objects : K -> serving Q).
Context (rely : serving Q -> serving Q -> Prop) `{!ServingLaws objects rely} (shortHash : bytes -> bytes).
Context (good : Policy -> Prop) (k : key) (mine : key -> Prop) (first : gmap key HTTPRoute).
Context (Hrely : forall c c', rely c c' -> policy_others good k mine c c').
Context (Hgood : forall p p' : Policy, ob_Meta p' = ob_Meta p -> ob_Spec p' = ob_Spec p -> good p -> good p').

Definition policies_good (c : serving Q) : Prop := forall p, sv_Policies c !! k = Some p -> good p.

(** While the policy is good, so is every version of it that is read, however
    outdated. *)
Definition good_seen : Prop :=
  forall s (p : Policy) s', policies_good (objects s) -> k_Get k s = (inl p, s') -> good p.

(** A route of ours has the rules it started with, or splits. *)
Definition split_rules (rk : key) (rules : list HTTPRouteRule) : Prop :=
  (exists r0, first !! rk = Some r0 /\ rules = ht_Rules (ob_Spec r0)) \/ splits shortHash good rules.

Definition routes_split (c : serving Q) : Prop :=
  forall rk r, mine rk -> sv_Routes c !! rk = Some r -> split_rules rk (ht_Rules (ob_Spec r)).

#[export] Instance stable_policies_good : Stable rely policies_good.
Proof. by intros c c' [Hp _]%Hrely. Qed.

#[export] Instance stable_routes_split : Stable rely routes_split.
Proof. intros c c' [_ Hs]%Hrely Hr rk r Hm Hl. destruct (Hs rk r Hm Hl) as (r0 & Hl0 & ->). by apply Hr. Qed.

Definition split_inv (c : serving Q) : Prop := policies_good c /\ routes_split c.

#[export] Instance stable_split_inv : Stable rely split_inv.
Proof. apply _. Qed.

Lemma split_inv_set c rk (r : HTTPRoute) :
  split_inv c -> (mine rk -> split_rules rk (ht_Rules (ob_Spec r))) -> split_inv (set_tab (<[rk := r]> (sv_Routes c)) c).
Proof.
  intros [Hp Hs] Hr. split; [exact Hp |]. intros rk' r' Hm. simpl.
  destruct (decide (rk = rk')) as [<- | ?]; [rw lookup_insert_eq => [= <-]; by apply Hr |]. rw lookup_insert_ne //. by apply Hs.
Qed.

(** What the members resolve to: references of the members that have a port. *)
Lemma resolve_members_result (p : Policy) members (X : serving Q -> Prop) :
  Stable rely X ->
  triple objects X (resolve_members shortHash p members)
    (fun r c => X c /\ forall refs missing, r = inl (refs, missing) -> missing = [] -> Forall2 (refers shortHash p) members refs).
Proof using All.
  intros SX. induction members as [| m rest IH]; simpl.
  { intros s HX. split; [done |]. intros refs missing [= <- <-] _. constructor. }
  apply (triple_bind objects _ _ _ (fun _ => X)); [| intros port | intros e c HX; by split].
  { apply keeps_wrap. rw /resolveServicePort. apply keeps_bind; [by apply keeps_try, (keeps_get objects rely) |].
    intros [svc | e]; [apply keeps_ret | case_match; [apply keeps_ret | apply keeps_fail]]. }
  eapply (triple_bind objects _ _ _ _ _ IH); [| intros e c [HX _]; by split].
  intros [refs missing] s [HX Hr]. split; [done |]. intros refs' missing'. simpl.
  destruct port as [n |]; intros [= <- <-]; [intros Hm | done]. constructor; [done | by eapply Hr].
Qed.

Lemma route_upsert_split (p : Policy) refs :
  good p -> Forall2 (refers shortHash p) (tsp_Backends (ob_Spec p)) refs ->
  keeps objects split_inv (upsertHTTPRoute PolicyGVK p (buildPolicyRoute p refs)).
Proof using All.
  intros Hg Hrefs. rw /upsertHTTPRoute /upsert_with. case_match; [| apply keeps_fail]. rw /create_or.
  assert (forall rules, Forall2 rule_as (ht_Rules (ob_Spec (buildPolicyRoute p refs))) rules -> splits shortHash good rules) as Hs
    by (intros; by eapply splits_stored).
  apply keeps_bind; [apply keeps_try, (keeps_get objects rely split_inv) | intros [cur | e]].
  - cbv beta zeta. case_match; [apply keeps_ret |]. apply keeps_bind; [| by intros ?; apply keeps_ret].
    apply (triple_patch objects rely); [apply _ | apply _ | | done]. set (next := set_labels _ _).
    intros c o o' HI Ho (_ & _ & _ & _ & _ & _ & _ & [_ Hrules]).
    assert (split_inv (set_tab (<[ob_key next := o']> (sv_Routes c)) c)) as HI'; [| by split].
    apply split_inv_set; [done |]. intros Hm. destruct Hrules as [-> | Hrules]; [by apply HI | right; by apply Hs].
  - case_match; [| apply keeps_fail]. apply keeps_bind; [| by intros ?; apply keeps_ret].
    assert (forall c o', split_inv c -> stored (C := serving Q) (set_owners l (buildPolicyRoute p refs)) o' -> split_inv (put o' c)) as Hput.
    { intros c o' HI (_ & _ & [_ Hd] & _). apply split_inv_set; [done |]. intros _. right. by apply Hs. }
    by apply (triple_create objects rely); [apply _ | apply _ | intros; apply Hput | intros; apply Hput |].
Qed.

(** The handler: a policy with two or more members gets a complete route or
    keeps the one it has. *)
Lemma httproute_split (p : Policy) :
  good p -> (2 <= length (tsp_Backends (ob_Spec p)))%nat ->
  keeps objects split_inv (HTTPRouteReconcile shortHash p).
Proof using All.
  intros Hg Hlen. rw /HTTPRouteReconcile.
  eapply (triple_bind objects _ _ _ _ _ (resolve_members_result p _ split_inv stable_split_inv)); [| by intros e c [? _]].
  intros [refs missing]. apply triple_pure => Hr. rw (proj2 (Nat.ltb_lt 1 (length (tsp_Backends (ob_Spec p))))) //. rw andb_true_r.
  destruct missing as [| x missing]; [| apply keeps_fail]. simpl. destruct refs as [| r refs]; [apply keeps_ret |].
  apply keeps_wrap, route_upsert_split; [done |]. by apply (Hr _ []).
Qed.

Lemma write_policy_split now (p : Policy) upd : keeps objects split_inv (writePolicyStatus now p upd).
Proof using All.
  rw /writePolicyStatus. case_match; [apply keeps_ret |]. apply keeps_bind; [| by intros ?; apply keeps_ret].
  apply (triple_patch_status objects rely); [apply _ | apply _ | | done].
  intros c o o' [Hp Hs] Hl (Hm & Hsp & _). assert (split_inv (set_tab (<[ob_key p := o']> (sv_Policies c)) c)) as HI; [| by split].
  split; [| done]. intros p'. simpl. change (sv_Policies c !! ob_key p = Some o) in Hl.
  destruct (decide (ob_key p = k)) as [Hk | ?]; [rw Hk in Hl |- *; rw lookup_insert_eq => [= <-] | by rw lookup_insert_ne //; apply Hp].
  eapply Hgood; [done | done | by apply Hp].
Qed.

(** Validated policies of the native handler have two members or are neither
    weighted nor canary nor blue/green. *)
Lemma validated_members (spec : MLTrafficPolicySpec) :
  validation_ok (PolicyValidate spec) = true -> (2 <= length (tsp_Backends spec))%nat.
Proof.
  rw /PolicyValidate /validation_ok. destruct (tsp_Backends spec) as [| m rest] eqn:Hb; [done |].
  cbn [va_Errors]. rw /mode_errors. set (n := length (m :: rest)).
  destruct (Nat.ltb_spec n 2), (Nat.eqb_spec n 2); repeat case_match; by try lia.
Qed.

Lemma reconcile_policy_split now :
  good_seen -> keeps objects split_inv (ReconcilePolicy now (policy_registry shortHash) k).
Proof using All.
  intros Hseen. rw /ReconcilePolicy. pose proof (write_policy_split now) as Hw.
  apply (triple_bind objects _ _ _ (fun r c => split_inv c /\ forall o, r = inl (inl o) -> good o)); [| | by intros e c [? _]].
  { apply triple_try. intros s HI.
    pose proof (keeps_get objects rely (B := MLTrafficPolicySpec) (S := MLTrafficPolicyStatus) split_inv k s HI) as Hk.
    split; [done |]. intros p [= Hp]. destruct (k_Get k s) as [r s'] eqn:Hg. simpl in Hp. subst r. by apply (Hseen s p s'); [apply HI |]. }
  intros [p | e]; apply triple_pure; [| intros _; case_match; [apply keeps_ret | apply keeps_fail]].
  intros Hg. specialize (Hg _ eq_refl). case_match; [apply Hw |]. case_match eqn:Hreg; [| apply Hw].
  case_match eqn:Hv; [| apply Hw]. rw /run_policy.
  apply elem_of_list_to_map_2, elem_of_cons in Hreg as [[= _ _ ->] | [= _ _ ->]%list_elem_of_singleton]; [| done].
  apply keeps_bind; [apply keeps_try, httproute_split; [done | by apply validated_members] |].
  intros [[] | err]; [| apply keeps_bind; [apply keeps_try, Hw | intros _; apply keeps_fail]].
  apply keeps_bind; [| intros children; apply Hw]. rw /listPolicyChildren.
  case_match; [apply keeps_ret | by apply (keeps_list_children objects rely); try apply _].
Qed.
End Policy.
