(* ===== verification/ServingConverge.v ===== *)
(** * Serving operator: a pass that succeeds

    Without interference, a pass of the service controller that returns no
    error leaves the workload, the Service and the status in place.  The lemmas
    follow the pass: create or patch one object, then the next, then the
    status, then the baseline. *)

From Stdlib Require Import ssreflect ZArith Ascii String.
From stdpp Require Import base gmap list strings.
From S2P Require Import Prelude Placement ApiTypes Names Strconv Listing Kube OperatorTypes OperatorConfig OperatorFacts ServingBase OperatorService ServingFacts.

(** ** Labels *)

Lemma mergeLabels_desired (existing desired : gmap string string) : desired ⊆ mergeLabels existing desired.
Proof. rw /mergeLabels. case_decide; [done | apply map_union_subseteq_l]. Qed.

Lemma set_nonempty_subseteq (k v : string) (m : gmap string string) : m !! k = None -> m ⊆ set_nonempty k v m.
Proof. intros Hk. rw /set_nonempty. case_match; [done | by apply insert_subseteq]. Qed.

Section Labels.
Context {Q : Type} (mls : Svc Q) (role : string).

(** Pods carry what the selector asks for. *)
Lemma selector_in_pods : selectorLabels mls role ⊆ podTemplateLabels mls role.
Proof.
  rw /podTemplateLabels. do 2 (etrans; [| by apply set_nonempty_subseteq; rw /set_nonempty; try case_match]).
  by apply insert_subseteq.
Qed.

Lemma selector_in_resource : selectorLabels mls role ⊆ resourceLabels mls role.
Proof. rw /resourceLabels. by do 2 (etrans; [| by apply set_nonempty_subseteq; rw /set_nonempty; try case_match]). Qed.

Lemma resource_service_id : resourceLabels mls role !! LabelServiceID = Some (service_id mls).
Proof. eapply lookup_weaken; [| apply selector_in_resource]. done. Qed.
End Labels.

(** ** Create or patch *)

Section Gets.
Context `{!Machinery} `{!ServingMachinery} {Q K : Type} `{!ServingClient Q K} (objects : K -> serving Q).
Context {B S : Type} `{!Kind (serving Q) B S} `{!Client K B S} `{!ClientLaws (B := B) (S := S) objects eq}.
Context `{!CurrentGets (B := B) (S := S) objects eq}.
Context (Htab : forall (t : gmap key (object B S)) c, tab (set_tab t c) = t).
Context (X : serving Q -> Prop) (HX : forall c (t : gmap key (object B S)), X c -> X (set_tab t c)).
Context (G : object B S -> Prop).

(** The object under this name is as [G] says. *)
Definition there (k : key) (c : serving Q) : Prop := exists o : object B S, tab c !! k = Some o /\ ob_key o = k /\ G o.

Lemma there_set k (o : object B S) c : ob_key o = k -> G o -> there k (set_tab (<[k := o]> (tab c)) c).
Proof using Htab. intros Hk Ho. exists o. by rw Htab lookup_insert_eq. Qed.

Lemma create_or_gets (P : serving Q -> Prop) (want : object B S) update :
  (forall o', stored (C := serving Q) want o' -> G o') ->
  (forall cur, ob_key cur = ob_key want -> triple objects (fun c => (X c /\ P c) /\ tab c !! ob_key want = Some cur)
     (update cur) (either (fun c => X c /\ there (ob_key want) c) X)) ->
  triple objects (fun c => X c /\ P c) (create_or want update) (either (fun c => X c /\ there (ob_key want) c) X).
Proof using All.
  intros Hst Hu. rw /create_or. apply (triple_bind objects _ _ _ (fun r c => (X c /\ P c) /\ forall cur, r = inl (inl cur) ->
    tab c !! ob_key want = Some cur /\ ob_key cur = ob_key want)); [| | by intros e c [[? _] _]].
  { apply triple_try, (triple_get objects eq); [apply _ | apply _ | | by intros; split].
    intros c o HXc Ho Hk. split; [done |]. by intros cur [= <-]. }
  intros [cur | e]; last first.
  { case_match; [| by intros s [[? _] _]].
    apply (triple_bind objects _ _ _ (either (fun c => X c /\ there (ob_key want) c) X)); [| by intros ? s | done].
    apply (triple_create objects eq); [apply _ | apply _ | | | by intros c e' [[? _] _]].
    - intros c o' [[HXc _] _] _ Ho'. assert (ob_key o' = ob_key want) as Hk
        by (destruct Ho' as (Hobj & _); rw /ob_key /ob_Name /ob_Namespace Hobj //).
      split; [by apply HX |]. rw /put Hk. apply there_set; [done | by apply Hst].
    - intros c o' e' [[HXc _] _] _ _. by apply HX. }
  apply (triple_consequence objects (fun c => ((X c /\ P c) /\ tab c !! ob_key want = Some cur) /\ ob_key cur = ob_key want) _ _
    (either (fun c => X c /\ there (ob_key want) c) X)); [| intros c [HXc Hs]; by destruct (Hs cur eq_refl) | done].
  apply triple_pure => Hk. by apply Hu.
Qed.

Lemma patch_gets (k : key) (cur after : object B S) :
  ob_key cur = k -> ob_key after = k ->
  (forall o', patched (spec_merged (C := serving Q)) cur after cur o' -> G o') ->
  triple objects (fun c => X c /\ tab c !! k = Some cur) (let* _ := k_Patch cur after in ret tt)%api
    (either (fun c => X c /\ there k c) X).
Proof using All.
  intros Hc Ha Hp. apply (triple_bind objects _ _ _ (either (fun c => X c /\ there k c) X)); [| by intros ? s | done].
  apply (triple_patch objects eq); [apply _ | apply _ | | by intros c e' [? _]]. rw Ha.
  intros c o o' [HXc Hl] Ho Hpa. rw Hl in Ho. injection Ho as <-. split; [| intros e'; by apply HX]. split; [by apply HX |].
  apply there_set; [| by apply Hp]. destruct Hpa as (_ & _ & Hk & _). congruence.
Qed.
End Gets.

(** ** The two objects of a service *)

Section Objects.
Context `{!Machinery} `{!ServingMachinery} {Q K : Type} `{!ServingClient Q K} (objects : K -> serving Q) `{!ServingLaws objects eq}.
Context `{!ServingCurrent objects eq}.
Context (dec : ServingDecoders Q) (shortHash : bytes -> bytes).

Lemma deployment_tab (t : gmap key (Deployment Q)) (c : serving Q) : tab (set_tab t c) = t.
Proof. done. Qed.

Lemma service_tab (t : gmap key KubeService) (c : serving Q) : tab (set_tab t c) = t.
Proof. done. Qed.

(** A Service that selects the pods and has the ports of [s]. *)
Definition serves (s o : KubeService) : Prop :=
  sv_Selector (ob_Spec o) = sv_Selector (ob_Spec s) /\ sv_Ports (ob_Spec o) = sv_Ports (ob_Spec s) /\
  sv_Type (ob_Spec o) = sv_Type (ob_Spec s) /\ ob_Labels s ⊆ ob_Labels o.

(** A Deployment was there whose annotation claims the spec of [d]. *)
Definition claims (d : Deployment Q) (first : option (Deployment Q)) (o : Deployment Q) : Prop :=
  first = Some o /\ hashDeploymentSpec dec d = inl (map_get "" (ob_Annotations o) appliedSpecHashAnnotation).

(** A Deployment that makes the pods of [d], or the first one, left alone. *)
Definition deploys (d : Deployment Q) (first : option (Deployment Q)) (o : Deployment Q) : Prop :=
  (deployed_as (ob_Spec d) (ob_Spec o) \/ claims d first o) /\ ob_Labels d ⊆ ob_Labels o.

Lemma upsertDeployment_gets (X : serving Q -> Prop) mls d first :
  (forall c (t : gmap key (Deployment Q)), X c -> X (set_tab t c)) ->
  triple objects (fun c => X c /\ sv_Deployments c !! ob_key d = first) (upsertDeployment dec mls d)
    (either (fun c => X c /\ there (deploys d first) (ob_key d) c) X).
Proof using All.
  intros HX. rw /upsertDeployment /upsert_hashed. case_match; [| by intros s [? _]].
  destruct (hashDeploymentSpec dec d) as [h | e] eqn:Hh; [| by intros s [? _]].
  set (want := set_owners _ _). change (ob_key d) with (ob_key want).
  apply (create_or_gets objects deployment_tab X HX (deploys d first)).
  { intros o' (Hobj & _ & Hd & _). split; [by left |]. by rw /(ob_Labels o') Hobj. }
  intros cur Hk. destruct (_ && _) eqn:Heq.
  - apply andb_true_iff in Heq as [Ha%String.eqb_eq Hl%map_equal_spec].
    intros s [[HXc Hfirst] Hcur]. split; [done |]. exists cur. split_and!; [done | done |]. split; [right; split |].
    + rw -Hfirst. exact Hcur. + by rw Hh Ha. + rw Hl. apply mergeLabels_desired.
  - eapply triple_consequence; [apply (patch_gets objects deployment_tab X HX (deploys d first) (ob_key want) cur) | | done];
      [done | done | | by intros c [[? _] ?]].
    intros o' (_ & _ & _ & _ & Hl & _ & _ & Hs). split; [left; by apply Hs |].
    rw (merged_map_fresh _ _ _ Hl). apply mergeLabels_desired.
Qed.

Lemma upsertService_gets (X : serving Q -> Prop) mls s :
  (forall c (t : gmap key KubeService), X c -> X (set_tab t c)) ->
  triple objects X (upsertService mls s) (either (fun c => X c /\ there (serves s) (ob_key s) c) X).
Proof using All.
  intros HX. rw /upsertService /upsert_with. case_match; [| by intros ?].
  set (want := set_owners _ _). change (ob_key s) with (ob_key want).
  eapply (triple_consequence objects (fun c => X c /\ True)); [| by intros c ? | done].
  apply (create_or_gets objects service_tab X HX (serves s)).
  { intros o' (Hobj & _ & (? & ? & ? & _) & _). split_and!; try done. by rw /(ob_Labels o') Hobj. }
  intros cur Hk. rw /update_service. destruct (_ && _) eqn:Heq.
  - apply andb_true_iff in Heq as [Hs%service_spec_equal_spec Hl%map_equal_spec].
    intros s' [[HXc _] Hcur]. split; [done |]. exists cur. split_and!; [done | done |].
    split_and!; [by rw Hs | by rw Hs | by rw Hs |]. rw Hl. apply mergeLabels_desired.
  - eapply triple_consequence; [apply (patch_gets objects service_tab X HX (serves s) (ob_key want) cur) | | done];
      [done | done | | by intros c [[? _] ?]].
    intros o' (_ & _ & _ & _ & Hl & _ & _ & Hs). destruct (Hs eq_refl) as (? & ? & ? & _).
    split_and!; [done | done | done |]. rw (merged_map_fresh _ _ _ Hl). apply mergeLabels_desired.
Qed.

(** The handler: both, and the route does not touch them. *)
Lemma DeploymentReconcile_gets (X : serving Q -> Prop) mls d first s :
  (forall c (t : gmap key (Deployment Q)), X c -> X (set_tab t c)) ->
  (forall c (t : gmap key KubeService), X c -> X (set_tab t c)) ->
  (forall c (t : gmap key HTTPRoute), X c -> X (set_tab t c)) ->
  buildDeployment dec shortHash mls = inl d -> buildService dec mls = inl s ->
  triple objects (fun c => X c /\ sv_Deployments c !! ob_key d = first) (DeploymentReconcile dec shortHash mls)
    (either (fun c => (X c /\ there (deploys d first) (ob_key d) c) /\ there (serves s) (ob_key s) c) (fun _ => True)).
Proof using All.
  intros HXd HXs HXr Hd Hs. set (Y := fun c => X c /\ there (deploys d first) (ob_key d) c).
  rw /DeploymentReconcile Hd Hs. apply triple_lift_bind.
  apply (triple_bind objects _ _ _ (either Y (fun _ => True))); [| intros [] | done].
  { apply (triple_wrap objects _ _ _ (either Y X)); [by apply upsertDeployment_gets | done | done]. }
  apply triple_lift_bind.
  apply (triple_bind objects _ _ _ (either (fun c => Y c /\ there (serves s) (ob_key s) c) (fun _ => True))); [| intros [] | done].
  { apply (triple_wrap objects _ _ _ (either (fun c => Y c /\ there (serves s) (ob_key s) c) Y)); [| done | done].
    apply upsertService_gets. intros c t [HXc Ht]. split; [by apply HXs | exact Ht]. }
  eapply triple_consequence; [apply (keeps_reconcile_route objects eq (fun c => Y c /\ there (serves s) (ob_key s) c)) | done |].
  - intros c t [[HXc Ht] Ht']. split; [split; [by apply HXr | exact Ht] | exact Ht'].
  - by intros [] c Hc.
Qed.
End Objects.

(** ** Serving operator: status and baseline of a pass

    Without interference: the status a pass writes from the children it lists,
    and the baseline it stamps. *)

(** ** Children *)

Lemma find_child_some {Q B S} (pick : child Q -> option (object B S)) (children : list (child Q)) x (o : object B S) :
  x ∈ children -> pick x = Some o ->
  exists o', find_child pick children (ob_Name o) (ob_Namespace o) = Some o' /\ ob_key o' = ob_key o.
Proof.
  intros Hx Hp. rw /find_child. destruct (List.find _ _) as [o' |] eqn:Hf.
  - apply List.find_some in Hf as [_ [Hn%String.eqb_eq Hs%String.eqb_eq]%andb_true_iff]. exists o'. split; [done |]. by rw /ob_key Hn Hs.
  - exfalso. eapply List.find_none in Hf; [| apply list_elem_of_In, list_elem_of_omap; by exists x].
    simpl in Hf. by rw !String.eqb_refl in Hf.
Qed.

Section Report.
Context `{!Machinery} `{!ServingMachinery} {Q K : Type} `{!ServingClient Q K} (objects : K -> serving Q) `{!ServingLaws objects eq}.

(** Lists of Services are current, and Services are a kind the API server has. *)
Definition services_listed : Prop :=
  CurrentLists (B := ServiceSpec) (S := unit) objects eq /\
  forall namespace labels s e s', (k_List namespace labels : api K (list KubeService)) s = (inr e, s') -> IsNotFound e = false.

(** Listing with the watched Services finds a Service that carries the labels. *)
Lemma list_children_finds (X : serving Q -> Prop) namespace selector targets (o : KubeService) :
  services_listed -> (forall c, X c -> sv_KubeServices c !! ob_key o = Some o) -> selected namespace selector o = true ->
  triple objects X (list_children namespace selector targets)
    (fun r c => X c /\ forall children, r = inl children -> WatchServices ∈ targets -> ChildService (Q := Q) o ∈ children).
Proof using All.
  intros [Hlists served] HX Hsel. induction targets as [| t rest IH]; simpl.
  { intros s HXs. split; [done |]. intros children _ Hin. by apply not_elem_of_nil in Hin. }
  apply (triple_bind objects _ _ _ (fun r c => X c /\ forall items, r = inl items -> t = WatchServices ->
    match items with inl items => ChildService (Q := Q) o ∈ items | inr e => IsNotFound e = false end));
    [| | intros e c [HXc _]; by split].
  - apply triple_try. destruct t; simpl.
    1, 2, 4: apply (triple_consequence objects X _ _ (fun _ => X));
      [apply keeps_bind; [apply (keeps_list objects eq X) | by intros ?; apply keeps_ret] | done | by intros r c Hc; split].
    intros s HXs. pose proof (served namespace selector s) as Hserved. pose proof (HX _ HXs) as Ho.
    assert (triple objects X (k_List namespace selector : api K (list KubeService)) (fun r c => X c /\ forall os, r = inl os -> o ∈ os)) as Hlist.
    { apply (triple_list objects eq); [apply _ | apply _ | | by intros; split]. intros c os HXc Hos. split; [done |].
      intros os' [= <-]. apply Hos. split; [by apply HX | done]. }
    specialize (Hlist s HXs). rw /bind. destruct (k_List namespace selector s) as [[os | e] s']; simpl in *.
    + split; [apply Hlist |]. intros items [= <-] _. apply list_elem_of_fmap. exists o. split; [done | by apply Hlist].
    + split; [apply Hlist |]. intros items [= <-] _. by apply (Hserved e s').
  - intros [items | e].
    + apply triple_pure => Hitems. eapply (triple_bind objects _ _ _ _ _ IH); [| intros e c [HXc _]; by split].
      intros more s [HXs Hmore]. split; [done |]. intros children [= <-] [<- | Hin]%elem_of_cons; apply elem_of_app.
      * left. by apply (Hitems (inl items)). * right. by apply (Hmore more).
    + apply triple_pure => Hitems. destruct (IsNotFound e) eqn:He; [| intros s HXs; by split].
      eapply (triple_consequence objects X); [exact IH | done |]. intros r c [HXc Hr]. split; [done |].
      intros children Heq [<- | Hin]%elem_of_cons; [| by apply Hr].
      specialize (Hitems (inr e) eq_refl eq_refl). simpl in Hitems. congruence.
Qed.

Lemma list_children_when_listed (X : serving Q -> Prop) namespace selector targets (o : KubeService) :
  (forall c, X c -> sv_KubeServices c !! ob_key o = Some o) -> selected namespace selector o = true -> WatchServices ∈ targets ->
  triple objects X (list_children namespace selector targets)
    (fun r c => X c /\ (services_listed -> forall children, r = inl children -> ChildService (Q := Q) o ∈ children)).
Proof using All.
  intros HX Hsel Hin s HXs. split; [by apply (keeps_list_children objects eq X) |]. intros Hl children Hr.
  by apply (list_children_finds X namespace selector targets o Hl HX Hsel s HXs).
Qed.
End Report.

(** ** Status and baseline *)

Section Status.
Context `{!Machinery} `{!ServingMachinery} {Q K : Type} `{!ServingClient Q K} (objects : K -> serving Q) `{!ServingLaws objects eq}.
Context (k : key).

(** The service has the metadata and the spec of [mls], and the given status. *)
Definition reported (mls : Svc Q) (st : MLServiceStatus) (c : serving Q) : Prop :=
  exists mls', sv_Services c !! k = Some mls' /\ ob_Meta mls' = ob_Meta mls /\ ob_Spec mls' = ob_Spec mls /\ ob_Status mls' = st.

Lemma write_status_reports now (X : serving Q -> Prop) mls upd :
  ob_key mls = k -> (forall c (t : gmap key (Svc Q)), X c -> X (set_tab t c)) ->
  triple objects (fun c => X c /\ sv_Services c !! k = Some mls) (writeStatus now mls upd)
    (either (fun c => X c /\ reported mls (merged_status now mls upd) c) X).
Proof using All.
  intros Hk HX. rw /writeStatus. case_match eqn:Heq.
  { intros s [HXs Hl]. split; [done |]. exists mls. split_and!; try done. by apply service_status_equal_spec. }
  apply (triple_bind objects _ _ _ (either (fun c => X c /\ reported mls (merged_status now mls upd) c) X)); [| by intros ? s | done].
  apply (triple_patch_status objects eq); [apply _ | apply _ | | by intros c e [? _]].
  change (ob_key (set_status _ mls)) with (ob_key mls). rw Hk. intros c o o' [HXc Hl] Ho (Hm & Hs & Hst).
  change (sv_Services c !! k = Some o) in Ho. simplify_eq. split; [| intros e; by apply HX]. split; [by apply HX |].
  exists o'. rw /= lookup_insert_eq. split_and!; [done | done | done | by apply Hst].
Qed.

(** The service has the spec of [mls], this status, and the hash of its spec as
    its baseline. *)
Definition settled (dec : ServingDecoders Q) (mls : Svc Q) (st : MLServiceStatus) (c : serving Q) : Prop :=
  exists mls' h, sv_Services c !! k = Some mls' /\ ob_Spec mls' = ob_Spec mls /\ ob_Status mls' = st /\
    immutableSpecHash dec (ob_Spec mls) = inl h /\ baseline mls' = Some h.

Lemma stamp_settles dec (X : serving Q -> Prop) mls st :
  ob_key mls = k -> checkImmutability dec mls = inl None -> (forall c (t : gmap key (Svc Q)), X c -> X (set_tab t c)) ->
  triple objects (fun c => X c /\ reported mls st c) (stampImmutabilityBaseline dec mls)
    (either (fun c => X c /\ settled dec mls st c) X).
Proof using All.
  intros Hk Hcheck HX. rw /stampImmutabilityBaseline. rw /checkImmutability in Hcheck.
  destruct (baseline mls) as [prev |] eqn:Hb, (immutableSpecHash dec (ob_Spec mls)) as [hash | e] eqn:Hh; try done.
  - destruct (String.eqb_spec prev hash) as [<- | ?]; [| done].
    intros s [HXs (mls' & Hl & Hm & Hs & Hst)]. split; [done |]. exists mls', prev. split_and!; try done.
    by rw -Hb /baseline /ob_Annotations Hm.
  - apply (triple_bind objects _ _ _ (either (fun c => X c /\ settled dec mls st c) X)); [| by intros ? s | done].
    apply (triple_wrap objects _ _ _ (either (fun c => X c /\ settled dec mls st c) X)); [| done | done].
    apply (triple_patch objects eq); [apply _ | apply _ | | by intros c e [? _]].
    change (ob_key (set_baseline hash mls)) with (ob_key mls). rw Hk.
    intros c o o' [HXc (mls' & Hl & Hm & Hs & Hst)] Ho (Hst' & _ & _ & _ & _ & Ha & Hsp & _).
    change (sv_Services c !! k = Some o) in Ho. simplify_eq. split; [| intros e; by apply HX]. split; [by apply HX |].
    destruct (Hsp eq_refl) as [Hsp' _]. exists o', hash. rw /= lookup_insert_eq. split_and!; try done; [congruence |].
    rw /baseline (Ha immutableHashAnnotation). case_decide as Hd; [| by rw lookup_insert_eq].
    rw /set_baseline /= lookup_insert_eq in Hd. rw /baseline in Hb. by rw Hd in Hb.
  - by intros s [? _].
Qed.
End Status.

(** ** The pass over a service with a Deployment *)

(** A role that passes validation has a port, and the endpoint uses one of its
    ports. *)
Lemma picked_port {Q} (dec : ServingDecoders Q) (role : RoleSpec Q) :
  role_ports dec role <> [] -> exists p, p ∈ role_ports dec role /\ pp_ContainerPort p = pickEndpointPort dec role.
Proof.
  intros Hne. rw /pickEndpointPort. destruct (List.find _ _) as [p |] eqn:Hf.
  - apply List.find_some in Hf as [Hin _]. exists p. split; [by apply list_elem_of_In | done].
  - destruct (role_ports dec role) as [| p ports]; [done |]. exists p. split; [left | done].
Qed.

(** What a service whose spec passes [Validate] of either handler looks like. *)
Lemma validated_native {Q} (dec : ServingDecoders Q) engine errs warns (spec : MLServiceSpec Q) :
  validation_ok (validate_native dec engine errs warns spec) = true ->
  exists role, ssp_Roles spec = [role] /\ ro_Name role = PredictorRoleName /\ (0 <= ro_Replicas role)%Z /\
    role_ports dec role <> [] /\ sc_Quota (ssp_Scheduling spec) <> "".
Proof.
  rw /validate_native. destruct (ssp_Roles spec) as [| role [| ? ?]]; [done | | done].
  rw /validation_ok. cbn [va_Errors]. destruct (role_errors _ _ _ _ ++ _) eqn:He; [intros _ | done].
  apply app_eq_nil in He as [He _]. rw /role_errors in He. apply app_eq_nil in He as [Hname He].
  apply app_eq_nil in He as [Hrep He]. apply app_eq_nil in He as [_ He]. apply app_eq_nil in He as [Hports He].
  apply app_eq_nil in He as [_ He]. apply app_eq_nil in He as [Hquota _]. exists role. split_and!; [done | | | |].
  - by destruct (String.eqb_spec (ro_Name role) PredictorRoleName).
  - destruct (Z.ltb_spec (ro_Replicas role) 0); [done | lia].
  - by intros Hnil; rw Hnil in Hports.
  - by destruct (String.eqb_spec (sc_Quota (ssp_Scheduling spec)) "").
Qed.

Section Pass.
Context `{!Machinery} `{!ServingMachinery} {Q K : Type} `{!ServingClient Q K} (objects : K -> serving Q) `{!ServingLaws objects eq}.
Context `{!ServingCurrent objects eq}.
Context (dec : ServingDecoders Q) (shortHash : bytes -> bytes) (now : Z) (k : key).
Context (mls : Svc Q) (role : RoleSpec Q) (d : Deployment Q) (sv : KubeService) (first : option (Deployment Q)).
Context (Hkey : ob_key mls = k) (Hroles : ssp_Roles (ob_Spec mls) = [role]).
Context (Hd : buildDeployment dec shortHash mls = inl d) (Hsv : buildService dec mls = inl sv).
Context (Hid : String.eqb (service_id mls) "" = false) (Hcheck : checkImmutability dec mls = inl None).

Let h : SvcHandler Q K := nativedeployment dec shortHash.

(** The workload is there; and the Service [o]. *)
Definition workload_there (o : KubeService) (c : serving Q) : Prop :=
  there (deploys dec d first) (ob_key d) c /\ sv_KubeServices c !! ob_key o = Some o.

(** Status from children, among them the Service when lists are current. *)
Definition updated (o : KubeService) (upd : StatusUpdate) : Prop :=
  exists children, DeploymentMapStatus dec shortHash mls children = inl upd /\
    (services_listed objects -> ChildService o ∈ children).

Lemma report_gets (o : KubeService) :
  serves sv o -> ob_key o = ob_key sv ->
  triple objects (fun c => workload_there o c /\ sv_Services c !! k = Some mls) (report_service dec now h mls)
    (either (fun c => exists upd, (workload_there o c /\ settled k dec mls (merged_status now mls upd) c) /\ updated o upd) (fun _ => True)).
Proof using All.
  intros (_ & _ & _ & Hlabels) Hko. set (W := workload_there o).
  assert (service_for dec mls role (workload_name mls) "" = sv) as Hsv'.
  { move: Hsv. rw /buildService /first_role Hroles. by intros [= ->]. }
  assert (selected (ob_Namespace mls) {[LabelServiceID := service_id mls]} o = true) as Hsel.
  { rw -Hsv' in Hlabels Hko. injection Hko as Hns _. rw /selected Hns String.eqb_refl /= bool_decide_eq_true.
    apply map_singleton_subseteq_l. eapply lookup_weaken; [apply resource_service_id | exact Hlabels]. }
  rw /report_service /listChildren Hid.
  eapply (triple_bind objects); [apply (list_children_when_listed objects (fun c => W c /\ sv_Services c !! k = Some mls)
    _ _ _ o); [by intros c [[_ ?] _] | done | right; left] | | by intros e c _].
  intros children. cbv beta. apply triple_pure => Hch.
  destruct (sh_MapStatus h mls children) as [upd | e] eqn:Hupd; [| by intros s _].
  apply triple_lift_bind. apply (triple_bind objects _ _ _ (either (fun c => W c /\ reported k mls (merged_status now mls upd) c) W)); [| | by intros e c _].
  - apply (write_status_reports objects k now W); [done | untouched].
  - intros []. eapply triple_consequence; [apply (stamp_settles objects k dec W); [done | done | untouched] | done |].
    intros [[] | e] c Hc; [| done]. exists upd. split; [exact Hc |]. exists children. split; [done |]. intros Hl. by apply (Hch Hl).
Qed.
(** The outcomes of a pass that returns no error: a ConfigMap belongs to
    somebody else, which is reported; or everything is in place. *)
Definition conflict_reported (c : serving Q) : Prop :=
  exists err, IsOwnershipConflict err = true /\
    reported k mls (merged_status now mls (failed_update mls ("reconcile ConfigMaps: " +:+ error_text err))) c.

Definition in_place (c : serving Q) : Prop :=
  exists o upd, (serves sv o /\ ob_key o = ob_key sv) /\
    (workload_there o c /\ settled k dec mls (merged_status now mls upd) c) /\ updated o upd.

Lemma handler_gets :
  triple objects (fun c => sv_Services c !! k = Some mls /\ sv_Deployments c !! ob_key d = first) (run_service_handler dec now h mls)
    (either in_place (fun _ => True)).
Proof using All.
  set (X := fun c : serving Q => sv_Services c !! k = Some mls). rw /run_service_handler.
  apply (triple_bind objects _ _ _ (fun r c => forall u, r = inl (inl u) ->
    (X c /\ there (deploys dec d first) (ob_key d) c) /\ there (serves sv) (ob_key sv) c)); [| | done].
  { apply triple_try. eapply triple_consequence; [apply (DeploymentReconcile_gets objects dec shortHash X mls d first sv) | done |];
      [untouched | untouched | untouched | done | done |]. intros [[] | e] c Hc u [=]. exact Hc. }
  intros [[] | err]; last first.
  { intros s _. destruct err; try done; rw /bind; by destruct (try _ s) as [[?|?] ?]. }
  apply (triple_consequence objects (fun c => exists o, (workload_there o c /\ X c) /\ (serves sv o /\ ob_key o = ob_key sv)) _ _
    (either in_place (fun _ => True))); [| | done].
  - apply triple_ex => o. apply triple_pure => [[Hs Hk]].
    eapply triple_consequence; [by apply (report_gets o) | done |].
    intros [[] | e] c Hc; [| done]. destruct Hc as (upd & Hc & Hu). by exists o, upd.
  - intros c Hc. destruct (Hc tt eq_refl) as [[HX Hdep] (o & Hl & Hk & Hs)]. exists o. split; [| done].
    split; [split; [done |] | done]. by rw Hk.
Qed.

Lemma config_gets :
  triple objects (fun c => sv_Services c !! k = Some mls /\ sv_Deployments c !! ob_key d = first) (run_service_config dec now h mls)
    (either (fun c => conflict_reported c \/ in_place c) (fun _ => True)).
Proof using All.
  rw /run_service_config. apply (triple_bind objects _ _ _ (fun _ c => sv_Services c !! k = Some mls /\ sv_Deployments c !! ob_key d = first)); [| | done].
  { apply triple_try, (config_keeps objects eq); [apply _ | untouched]. }
  intros [[] | err]; [eapply triple_consequence; [apply handler_gets | done | intros [[] | e] c Hc; [by right | done]] |].
  apply (triple_bind objects _ _ _ (either (fun c => True /\ reported k mls (merged_status now mls
    (failed_update mls ("reconcile ConfigMaps: " +:+ error_text err))) c) (fun _ => True))); [| | done].
  - eapply triple_consequence; [by apply (write_status_reports objects k now (fun _ => True) mls) | by intros c [? _] | done].
  - intros [] s [_ Hr]. case_match eqn:He; [| done]. left. by exists err.
Qed.
End Pass.
