(* ===== verification/ServingProperties.v ===== *)
(** * Serving operator: theorems

    Workloads follow the stamped spec, routes never carry a skewed split, a
    pass that succeeds leaves a service that can be reached, and what
    compute-service accepts and shows is what the operator programs and
    reports. *)

From Stdlib Require Import ssreflect ZArith Ascii String Lia.
From stdpp Require Import base gmap list strings relations.
From S2P Require Import Prelude Placement ApiTypes Store ServiceAdmission Admission StatusMap Names Mlrun Mlservice TrafficPolicy TrafficPolicyFacts QuotaCache ElasticQuota Strconv Listing Kube OperatorTypes OperatorConfig OperatorSample ServingBase OperatorService OperatorPolicy ServingSample ServingFacts ServingConverge.

(** The sample cluster with anybody's interference. *)
Lemma serving_sample_laws (rely : serving Z -> serving Z -> Prop) :
  (forall c, rely c c) -> ServingLaws (Q := Z) (K := serving Z) id rely.
Proof. intros Hr. split; (apply laws_weaken; [done | apply _]). Qed.

Lemma serving_sample_current {B S} `{!Kind (serving Z) B S} `{!EqDecision B} (rely : serving Z -> serving Z -> Prop) :
  (forall c, rely c c) -> CurrentGets (K := serving Z) (B := B) (S := S) id rely.
Proof. intros Hr. apply (current_weaken id rely Hr perfect_current). Qed.

(** Its reads see every stamp. *)
Lemma sample_stamp_seen (k : key) (h : string) : stamp_seen (Q := Z) (K := serving Z) id k h.
Proof.
  intros c o c' Hst. rw /k_Get /= /get_object. destruct (tab c !! k) as [o' |] eqn:Hl; [| done].
  case_decide; [| done]. intros [= <- _]. by apply Hst.
Qed.

(** ** The immutable spec *)

(** C16: once a service carries the hash of a spec as its baseline and the
    operator's cache shows the service with it, every Deployment or StatefulSet
    that passes write for it is built from a spec with exactly this hash,
    whatever users write into the spec before, between and during the passes and
    whichever calls fail; passes do not replace the baseline.  The reads of the
    service may be outdated otherwise; those of its Deployments and StatefulSets
    are current, and nobody else writes the specs of these or the baseline.
    [stale_read_replaces_baseline] shows the pass that needs the first
    condition. *)
Theorem workloads_follow_the_baseline `{!Machinery} `{!ServingMachinery} {Q K : Type} `{!ServingClient Q K}
    (objects : K -> serving Q) (dec : ServingDecoders Q) (shortHash : bytes -> bytes) (k : key) (mine : key -> Prop)
    (Hlaws : ServingLaws objects (svc_others k mine)) (h : string) (s s' : K) :
  stamp_seen objects k h ->
  CurrentGets (B := DeploymentSpec Q) (S := DeploymentStatus) objects (svc_others k mine) ->
  CurrentGets (B := StatefulSetSpec Q) (S := StatefulSetStatus) objects (svc_others k mine) ->
  rtc (controller_step objects (svc_others k mine) (fun now => Reconcile dec now (service_registry dec shortHash) k)) s s' ->
  stamped k h (objects s) ->
  stamped k h (objects s') /\
  (forall dk d, mine dk -> sv_Deployments (objects s') !! dk = Some d ->
     since (sv_Deployments (objects s)) (built_deployment dec shortHash h) dk (ob_Spec d)) /\
  (forall sk d, mine sk -> sv_StatefulSets (objects s') !! sk = Some d ->
     since (sv_StatefulSets (objects s)) (built_statefulset dec shortHash h) sk (ob_Spec d)).
Proof.
  intros Hseen Hcd Hcs Hrtc Hst. assert (based dec shortHash k mine h (objects s) (objects s')) as [[H1 H2] H3]; [| done].
  apply (controller_invariant objects _ _ (based dec shortHash k mine h (objects s)) _ _) in Hrtc; [done | | |].
  - intros now. by apply (reconcile_based objects (svc_others k mine)).
  - by apply (stable_based (svc_others k mine)).
  - split; [split; [done |] |]; intros dk d Hm Hl; left; by exists d.
Qed.

(** The image of a stamped service is edited: the pass writes no Deployment of
    the new image. *)
Lemma workloads_follow_the_baseline_witness :
  let edited := sample_svc "chat" "sha:img" (sample_service_spec "deployment" "other" 2 None None) in
  let c := with_service edited empty_serving in
  let c' := (Reconcile sample_serving 200 sample_services chat_key c).2 in
  stamped chat_key "sha:img" c' /\
  forall dk d, sv_Deployments c' !! dk = Some d -> built_deployment sample_serving sample_hash "sha:img" (ob_Spec d).
Proof.
  intros edited c c'.
  destruct (workloads_follow_the_baseline (Q := Z) (K := serving Z) id sample_serving sample_hash chat_key (fun _ => True)
    (serving_sample_laws _ (svc_others_refl _ _)) "sha:img" c c') as (H1 & H2 & _).
  - apply sample_stamp_seen.
  - apply (serving_sample_current _ (svc_others_refl _ _)).
  - apply (serving_sample_current _ (svc_others_refl _ _)).
  - apply rtc_once, (step_pass _ _ (fun now => Reconcile sample_serving now sample_services chat_key) 200).
  - intros s ->%(with_service_only edited). reflexivity.
  - split; [exact H1 |]. intros dk d Hd. destruct (H2 dk d I Hd) as [(d0 & Hd0 & _) | Hb]; [| exact Hb].
    discriminate Hd0.
Defined.

(** A client whose reads of services answer with this version. *)
Definition lagging_serving (old : Svc Z) : ServingClient Z (serving Z) := {|
  vc_services := {| k_Get _ c := (inl old, c); k_Create := create_object; k_Patch := patch_object; k_PatchStatus := patch_object_status;
                    k_Delete := delete_object; k_List := list_objects |};
  vc_policies := perfect_client; vc_deployments := perfect_client; vc_statefulsets := perfect_client;
  vc_kubeservices := perfect_client; vc_routes := perfect_client; vc_configmaps := perfect_client |}.

(** A pass that reads the service as it was before the stamp: the spec was
    edited since, and the baseline and the Deployment become those of the edit. *)
Example stale_read_replaces_baseline :
  let spec := sample_service_spec "deployment" "other" 2 None None in
  let c := with_service (sample_svc "chat" "sha:img" spec) empty_serving in
  let '(res, c') := @Reconcile _ _ _ _ (lagging_serving (sample_svc "chat" "" spec)) sample_serving 200
                      (@service_registry _ _ _ _ (lagging_serving (sample_svc "chat" "" spec)) sample_serving sample_hash) chat_key c in
  res = inl tt /\ (baseline <$> sv_Services c' !! chat_key) = Some (Some "sha:other"%string) /\
  (first_image ∘ de_Template ∘ ob_Spec <$> sv_Deployments c' !! ("team-a", "chat-predictor")%string) = Some "other"%string.
Proof. vm_compute. by split_and!. Qed.

(** ** Weighted routes *)

(** A policy compute-service stores, below the size where its int32 sum could
    wrap. *)
Definition stored_policy (spec : MLTrafficPolicySpec) : Prop :=
  valid_spec spec /\ (Z.of_nat (length (tsp_Backends spec)) <= max_members)%Z.

(** A version of the policy of this name. *)
Definition version_of (k : key) (versions : MLTrafficPolicySpec -> Prop) (p : Policy) : Prop :=
  ob_key p = k /\ versions (ob_Spec p).

(** The weights of a route's references. *)
Definition ref_weights (refs : list HTTPBackendRef) : list Z := map (fun r => default 1%Z (br_Weight r)) refs.

Lemma refers_weights shortHash p ms refs : Forall2 (refers shortHash p) ms refs -> ref_weights refs = weights ms.
Proof. induction 1 as [| m ref ms refs [_ Hw] _ IH]; [done |]. by rw /= Hw IH. Qed.

Lemma stored_sum spec : stored_policy spec -> zsum (weights (tsp_Backends spec)) = 100%Z.
Proof.
  intros [(Hm & Hs & Hw) Hl]. apply validateModeShape_iff in Hs as (_ & He & _); [| done].
  apply validateWeights_iff in Hw as (_ & Hsum & _); try done.
  intros Hnil. rw Hnil /enough_members /= in He. case_match; simpl in He; lia.
Qed.

(** C8: the passes over a policy never leave its HTTPRoute with a partial or
    skewed split.  Let [versions] be the specs the policy has had, each one that
    compute-service stores, and let nobody else write the rules of the routes
    that are [mine] (so no MLService with a route has the policy's name; compare
    [route_name_is_shared]).  Then at every moment, under any edits of the policy
    and its member services, any failed calls, and reads of the policy and of
    the route however outdated, a route of these has the rules it started with
    or one reference per member of one version, in order, to the member's
    Service and with the member's weight, and the weights add up to 100. *)
Theorem routes_never_skewed `{!Machinery} `{!ServingMachinery} {Q K : Type} `{!ServingClient Q K} (objects : K -> serving Q)
    (shortHash : bytes -> bytes) (k : key) (mine : key -> Prop) (versions : MLTrafficPolicySpec -> Prop)
    (Hlaws : ServingLaws objects (policy_others (version_of k versions) k mine)) (s s' : K) (rk : key) (r : HTTPRoute) :
  (forall spec, versions spec -> stored_policy spec) -> good_seen objects (version_of k versions) k ->
  rtc (controller_step objects (policy_others (version_of k versions) k mine)
         (fun now => ReconcilePolicy now (policy_registry shortHash) k)) s s' ->
  policies_good (version_of k versions) k (objects s) -> mine rk -> sv_Routes (objects s') !! rk = Some r ->
  (exists r0, sv_Routes (objects s) !! rk = Some r0 /\ ht_Rules (ob_Spec r) = ht_Rules (ob_Spec r0)) \/
  exists p rule, ob_key p = k /\ versions (ob_Spec p) /\ ht_Rules (ob_Spec r) = [rule] /\
    Forall2 (refers shortHash p) (tsp_Backends (ob_Spec p)) (hr_BackendRefs rule) /\
    zsum (ref_weights (hr_BackendRefs rule)) = 100%Z.
Proof.
  intros Hstored Hseen Hrtc Hp Hm Hr.
  assert (split_inv shortHash (version_of k versions) k mine (sv_Routes (objects s)) (objects s')) as [_ Hs].
  { apply (controller_invariant objects _ _ (split_inv shortHash (version_of k versions) k mine (sv_Routes (objects s))) _ _) in Hrtc; [done | | |].
    - intros now. apply (reconcile_policy_split objects (policy_others (version_of k versions) k mine)); [done | | done].
      intros p p' Hmeta Hspec [Hk Hv]. rw /version_of Hspec /ob_key /ob_Name /ob_Namespace Hmeta //.
    - by apply (stable_split_inv (policy_others (version_of k versions) k mine)).
    - split; [done |]. intros rk' r' _ Hr'. left. by exists r'. }
  destruct (Hs rk r Hm Hr) as [Hold | (p & rule & [Hk Hv] & Hrules & Hf)]; [by left | right].
  exists p, rule. split_and!; try done. rw (refers_weights _ _ _ _ Hf). by apply stored_sum, Hstored.
Qed.

Lemma sample_good_seen (good : Policy -> Prop) (k : key) : good_seen (Q := Z) (K := serving Z) id good k.
Proof.
  intros c p c' Hg. rw /k_Get /= /get_object. destruct (tab c !! k) as [p' |] eqn:Hl; [| done].
  case_decide; [| done]. intros [= <- _]. by apply Hg.
Qed.

(** The canary policy over its two members. *)
Lemma routes_never_skewed_witness :
  let c := with_policy canary_policy (with_kube (kube_service "blue" "u-blue") (with_kube (kube_service "green" "u-green") empty_serving)) in
  let c' := (ReconcilePolicy 200 sample_policies split_key c).2 in
  exists r rule, sv_Routes c' !! split_key = Some r /\ ht_Rules (ob_Spec r) = [rule] /\
    zsum (ref_weights (hr_BackendRefs rule)) = 100%Z.
Proof.
  intros c c'. destruct (sv_Routes c' !! split_key) as [r |] eqn:Hr; [| by vm_compute in Hr].
  destruct (routes_never_skewed (Q := Z) (K := serving Z) id sample_hash split_key (fun _ => True) (fun spec => spec = ob_Spec canary_policy)
    (serving_sample_laws _ (policy_others_refl _ _ _)) c c' split_key r) as [(r0 & Hr0 & _) | (p & rule & _ & _ & Hrules & _ & Hsum)].
  - intros spec ->. split; [split_and!; vm_compute; reflexivity | vm_compute; discriminate].
  - apply sample_good_seen.
  - apply rtc_once, (step_pass _ _ (fun now => ReconcilePolicy now sample_policies split_key) 200).
  - intros p ->%(with_policy_only canary_policy). split; reflexivity.
  - exact I.
  - exact Hr.
  - discriminate Hr0.
  - exists r, rule. split; [reflexivity |]. split; [exact Hrules | exact Hsum].
Defined.

(** ** A pass that succeeds *)

Lemma native_registered {Q K} `{!Machinery} `{!ServingMachinery} `{!ServingClient Q K} (dec : ServingDecoders Q) (shortHash : bytes -> bytes) :
  service_registry dec shortHash !! ("native", "deployment") = Some (nativedeployment (K := K) dec shortHash).
Proof. by rw /service_registry /= lookup_insert_eq. Qed.

(** The internal endpoint names a port of the Service. *)
Lemma endpoint_port {Q} (dec : ServingDecoders Q) (mls : Svc Q) role name (svc : KubeService) route :
  role_ports dec role <> [] -> route_enabled dec mls = false ->
  exists port, port ∈ sv_Ports (ob_Spec (service_for dec mls role name "")) /\
    deriveEndpoint dec mls role name (Some svc) route =
      (name ++ "." ++ ob_Namespace mls ++ ".svc.cluster.local:" ++ decimal (sp_Port port))%string.
Proof.
  intros Hne Hroute. destruct (picked_port dec role Hne) as (p & Hp & Hport). eexists. split.
  - apply list_elem_of_fmap. exists p. split; [reflexivity | done].
  - rw /= Hport /deriveEndpoint. rw /route_enabled in Hroute. destruct (service_route dec mls) as [r |]; [| done]. by rw Hroute.
Qed.

(** The endpoint is a port of the Service. *)
Definition endpoint_in {Q} (mls : Svc Q) (svc : KubeService) (endpoint : string) : Prop :=
  exists port, port ∈ sv_Ports (ob_Spec svc) /\
    endpoint = (workload_name mls ++ "." ++ ob_Namespace mls ++ ".svc.cluster.local:" ++ decimal (sp_Port port))%string.

(** C28: a pass over a valid service of the (native, deployment) backend that
    returns no error, when nobody interferes and the cache had caught up when the
    pass began, either reports a ConfigMap that belongs to somebody else, or
    leaves the generation observed, the spec stamped as the baseline, a Service
    with the service's selector, and a Deployment: one with the replicas of the
    spec whose pods carry that selector, or the one that was there before with
    the hash of the spec in its annotation, which the short circuit leaves as it
    is.  The endpoint of a service without a route is a port of that Service,
    or empty when the lists of Services lag behind. *)
Theorem service_pass_serves `{!Machinery} `{!ServingMachinery} {Q K : Type} `{!ServingClient Q K} (objects : K -> serving Q)
    (Hlaws : ServingLaws objects eq) (Hcurrent : ServingCurrent objects eq) (dec : ServingDecoders Q) (shortHash : bytes -> bytes)
    (now : Z) (k : key) (mls : Svc Q) (d : Deployment Q) (s s' : K) :
  sv_Services (objects s) !! k = Some mls ->
  be_Name (ssp_Backend (ob_Spec mls)) = "native"%string -> be_Engine (ssp_Backend (ob_Spec mls)) = "deployment"%string ->
  service_id mls <> ""%string -> route_enabled dec mls && protected_kind (map_get "" (ob_Labels mls) LabelServiceKind) = false ->
  checkImmutability dec mls = inl None -> validation_ok (DeploymentValidate dec (ob_Spec mls)) = true ->
  Validate (service_configmaps dec mls) "spec.configMaps" = [] -> buildDeployment dec shortHash mls = inl d ->
  Reconcile dec now (service_registry dec shortHash) k s = (inl tt, s') ->
  conflict_reported now k mls (objects s') \/
  exists role mls' dep svc, ssp_Roles (ob_Spec mls) = [role] /\
    (sv_Services (objects s') !! k = Some mls' /\ ob_Spec mls' = ob_Spec mls /\
     vst_ObservedGeneration (ob_Status mls') = ob_Generation mls /\
     exists h, immutableSpecHash dec (ob_Spec mls) = inl h /\ baseline mls' = Some h) /\
    (sv_KubeServices (objects s') !! (ob_Namespace mls, workload_name mls) = Some svc /\
     sv_Selector (ob_Spec svc) = selectorLabels mls (ro_Name role)) /\
    (sv_Deployments (objects s') !! (ob_Namespace mls, role_name shortHash mls (ro_Name role)) = Some dep /\
     (de_Replicas (ob_Spec dep) = Some (ro_Replicas role) /\ sv_Selector (ob_Spec svc) ⊆ pts_Labels (de_Template (ob_Spec dep)) \/
      claims dec d (sv_Deployments (objects s) !! ob_key d) dep)) /\
    (route_enabled dec mls = false ->
       (vst_Endpoint (ob_Status mls') = "" \/ endpoint_in mls svc (vst_Endpoint (ob_Status mls'))) /\
       (services_listed objects -> endpoint_in mls svc (vst_Endpoint (ob_Status mls')))).
Proof.
  intros Hmls Hn He Hid Hprot Hcheck Hvalid Hcms Hd Hpass. set (first := sv_Deployments (objects s) !! ob_key d).
  destruct (validated_native dec _ _ _ _ Hvalid) as (role & Hroles & _ & _ & Hports & _).
  assert (buildService dec mls = inl (service_for dec mls role (workload_name mls) "")) as Hsv by (rw /buildService /first_role Hroles //).
  apply String.eqb_neq in Hid.
  assert (triple objects (fun c => sv_Services c !! k = Some mls /\ sv_Deployments c !! ob_key d = first)
    (Reconcile dec now (service_registry dec shortHash) k)
    (either (fun c => conflict_reported now k mls c \/
       in_place objects dec shortHash now k mls d (service_for dec mls role (workload_name mls) "") first c) (fun _ => True))) as Ht.
  { rw /Reconcile. apply (triple_bind objects _ _ _ (fun r c => (sv_Services c !! k = Some mls /\ sv_Deployments c !! ob_key d = first) /\
      match r with inl (inl o) => o = mls /\ ob_key o = k | inl (inr e) => IsNotFound e = false | inr _ => True end)); [| | done].
    { apply triple_try, (triple_get objects eq); [apply _ | apply _ | |].
      - intros c o [Hc Hh] Ho Hk. split_and!; try done. change (sv_Services c !! k = Some o) in Ho. congruence.
      - intros c e [Hc Hh] Hnf. split; [done |]. destruct (IsNotFound e); [| done].
        specialize (Hnf eq_refl). change (sv_Services c !! k = None) in Hnf. congruence. }
    intros [o | e]; apply triple_pure => Ho; [| rw Ho; by intros t].
    destruct Ho as [-> Hk]. rw /reconcile_service Hid Hprot Hn He native_registered Hcheck.
    cbn [sh_Validate nativedeployment]. rw Hvalid /= Hcms.
    by apply (config_gets objects dec shortHash now k mls role d). }
  specialize (Ht s (conj Hmls eq_refl)). rw Hpass in Ht. destruct Ht as [Ht | Ht]; [by left | right].
  destruct Ht as (o & upd & [Hserve Hko] & [[(dep & Hdep & Hkd & [Hdas _]) Hsvc] (mls' & h & Hmls' & Hspec & Hstat & Hh & Hb)] & (ch & Hupd & Hin)).
  rw /buildDeployment /first_role Hroles in Hd. injection Hd as Hd. destruct Hserve as (Hsel & Hports' & _ & _).
  exists role, mls', dep, o. split_and!; try done.
  - by rw Hstat.
  - by exists h.
  - by rw Hko in Hsvc.
  - by rw -Hd in Hdep.
  - destruct Hdas as [(Hrep & _ & [Hpods _]) | Hclaims]; [left | by right]. rw -Hd in Hrep Hpods. split; [by apply Hrep |].
    rw Hsel. etrans; [apply selector_in_pods | exact Hpods].
  - intros Hroute. rw Hstat /=. rw /DeploymentMapStatus /first_role Hroles in Hupd. injection Hupd as <-. simpl.
    assert (forall o', endpoint_in mls o (deriveEndpoint dec mls role (workload_name mls) (Some o')
      (findHTTPRoute ch (workload_name mls) (ob_Namespace mls)))) as Hend by (intros o'; rw /endpoint_in Hports'; by apply endpoint_port).
    split; [destruct (findService ch _ _) as [o' |]; [right; apply Hend | by left] |]. intros Hl. injection Hko as Hns Hnm.
    destruct (find_child_some (fun c => match c with ChildService s => Some s | _ => None end) ch (ChildService o) o (Hin Hl) eq_refl)
      as (o' & Hf & _). rw Hns Hnm in Hf. rw /findService Hf. apply Hend.
Qed.

Lemma service_pass_serves_witness :
  let c := with_service (chat "" None) empty_serving in
  let c' := (Reconcile sample_serving 100 sample_services chat_key c).2 in
  conflict_reported 100 chat_key (chat "" None) c' \/
  exists dep svc, sv_Deployments c' !! ("team-a", "chat-predictor")%string = Some dep /\ de_Replicas (ob_Spec dep) = Some 2%Z /\
    sv_KubeServices c' !! chat_key = Some svc.
Proof.
  intros c c'. destruct (buildDeployment sample_serving sample_hash (chat "" None)) as [d | e] eqn:Hd; [| by discriminate Hd].
  destruct (service_pass_serves (K := serving Z) id (serving_laws Z) (serving_current Z) sample_serving sample_hash 100 chat_key
    (chat "" None) d c c') as [Hc | (role & mls' & dep & svc & Hr & _ & [Hsvc _] & [Hdep [[Hrep _] | [Hfirst _]]] & _)].
  - reflexivity.
  - reflexivity.
  - reflexivity.
  - discriminate.
  - reflexivity.
  - reflexivity.
  - vm_compute. reflexivity.
  - reflexivity.
  - exact Hd.
  - rewrite (surjective_pairing (Reconcile _ _ _ _ _)). f_equal.
  - left. exact Hc.
  - right. exists dep, svc. injection Hr as <-. split; [exact Hdep |]. split; [exact Hrep | exact Hsvc].
  - discriminate Hfirst.
Defined.

(** ** Serving operator and compute-service

    Where the serving controllers meet the other components: the replicas that
    were admitted and the pods they become, the policies compute-service
    accepts and the operator's own checks, and the status the operator writes
    as compute-service shows it. *)

(** ** Admitted replicas *)

Lemma pod_quota {Q P} (mls : Svc Q) role (pod : Pod P) :
  podTemplateLabels mls role ⊆ pod_Labels pod -> quota_of pod = sc_Quota (ssp_Scheduling (ob_Spec mls)).
Proof.
  intros Hl. rw /quota_of /map_get.
  assert (podTemplateLabels mls role !! LabelSchedulerQuota = Some (sc_Quota (ssp_Scheduling (ob_Spec mls)))) as Hq.
  { rw /podTemplateLabels /set_nonempty. repeat case_match; reflexivity. }
  by rw (lookup_weaken _ _ _ _ Hq Hl).
Qed.

(** C22: the pods of a service are what admission reserved.  Take the resource
    compute-service renders for a stored service and let it pass the operator's
    validation, for either native engine: the Deployment or StatefulSet asks for
    exactly as many pods as are admitted for the only role, each requesting what
    was reserved per replica, on the nodes and with the tolerations admission
    looked at; nothing is reserved when no replica is admitted; and every pod
    made from its template is charged to the service's quota. *)
Theorem pods_are_what_was_admitted {Q : Type} `{!Quantity Q} `{!ServingMachinery} (dec : ServingDecoders Q) (shortHash : bytes -> bytes)
    (row : Store.MLService Q) (cr : MLServiceCR Q) (tenantPrefix : bool) (mls : Svc Q) (w : desiredWorkload Q) :
  ServiceToCR shortHash row tenantPrefix = inl cr -> ob_Spec mls = scr_Spec cr -> serviceWorkload row = inl w ->
  validation_ok (DeploymentValidate dec (ob_Spec mls)) = true \/ validation_ok (StatefulSetValidate dec (ob_Spec mls)) = true ->
  exists replicas main tmpl dep, forall cfg, exists sts,
    (buildDeployment dec shortHash mls = inl dep /\ de_Replicas (ob_Spec dep) = Some replicas /\ de_Template (ob_Spec dep) = tmpl) /\
    (buildStatefulSet dec shortHash mls cfg = inl sts /\ ss_Replicas (ob_Spec sts) = Some replicas /\
     let tmpl' := ss_Template (ob_Spec sts) in
     pts_Labels tmpl' = pts_Labels tmpl /\ pts_NodeSelector tmpl' = pts_NodeSelector tmpl /\
     pts_Tolerations tmpl' = pts_Tolerations tmpl /\ pts_SchedulerName tmpl' = pts_SchedulerName tmpl /\
     map ct_Resources (pts_Containers tmpl') = [ct_Resources main]) /\
    pts_Containers tmpl = [main] /\ (0 <= replicas)%Z /\
    dw_roles w = (if (0 <? replicas)%Z then
      [{| rr_name := PredictorRoleName; rr_replicas := replicas; rr_requests := copyList (rq_Requests (ct_Resources main)) |}] else []) /\
    dw_nodeSelector w = pts_NodeSelector tmpl /\ dw_tolerations w = pts_Tolerations tmpl /\ pts_SchedulerName tmpl = SchedulerName /\
    (forall (P : Type) (pod : Pod P), pts_Labels tmpl ⊆ pod_Labels pod ->
       quota_of pod = sc_Quota (ssp_Scheduling (ob_Spec mls)) /\ quota_of pod <> "").
Proof.
  intros Hcr Hspec Hw Hvalid.
  assert (exists role, ssp_Roles (ob_Spec mls) = [role] /\ ro_Name role = PredictorRoleName /\
    sc_Quota (ssp_Scheduling (ob_Spec mls)) <> "") as (role & Hroles & Hname & Hquota).
  { destruct Hvalid as [Hv | Hv]; apply validated_native in Hv as (role & ? & ? & _ & _ & ?); by exists role. }
  rw /serviceWorkload in Hw. rw /ServiceToCR in Hcr. destruct (ms_Spec row) as [| | spec0] eqn:Hrow; simplify_eq/=.
  rw Hspec in Hroles Hquota. simpl in Hroles, Hquota.
  destruct (ssp_Roles spec0) as [| role0 [| ? ?]] eqn:Hr0; simplify_eq/=.
  set (n := clip (vget (Decode (ms_AdmittedReplicas row) 1 (Desired spec0)) 0)).
  exists n, (buildContainer dec [] (set_replicas role0 n)), (pod_template dec mls (set_replicas role0 n) []).
  eexists. intros cfg. eexists. rw /buildDeployment /buildStatefulSet /first_role Hspec /= Hr0 /=.
  split_and!; try done.
  - apply clip_nonneg.
  - rw ?app_nil_r.
    assert (n = vget (Decode (ms_AdmittedReplicas row) 1 (Desired spec0)) 0) as ->.
    { rw /n /clip. pose proof (nonneg_Decode (ms_AdmittedReplicas row) 1%nat (Desired spec0) 0%nat) as Hn. case_match; lia. }
    case_match; [| done]. by rw /role_request -Hname.
  - rw /serviceWorkloadFor /= Hspec //.
  - rw /serviceWorkloadFor /= Hspec //.
  - intros P pod Hl. rw (pod_quota mls (ro_Name role0) pod) // Hspec //.
Qed.

(** A row with two admitted replicas out of three wanted. *)
Definition sample_row : Store.MLService Z :=
  {| ms_ID := "s-chat"; ms_Namespace := "team-a"; ms_Kind := "service"; ms_Name := "chat"; ms_DisplayName := "";
     ms_Description := ""; ms_Owner := ""; ms_Labels := JEmpty; ms_Annotations := JEmpty;
     ms_Spec := JVal (sample_service_spec "deployment" "img" 3 None None);
     ms_AdmittedReplicas := JVal [2%Z]; ms_DispatchedReplicas := JVal [2%Z]; ms_Generation := 1; ms_ObservedGeneration := 1;
     ms_Phase := SvcPending; ms_StatusJSON := JEmpty; ms_CreatedAt := 1; ms_UpdatedAt := 1; ms_DeletedAt := None |}.

Lemma pods_are_what_was_admitted_witness :
  exists cr w dep, ServiceToCR sample_hash sample_row false = inl cr /\ serviceWorkload sample_row = inl w /\
    buildDeployment sample_serving sample_hash (sample_svc "chat" "" (scr_Spec cr)) = inl dep /\
    de_Replicas (ob_Spec dep) = Some 2%Z /\ map rr_replicas (dw_roles w) = [2%Z].
Proof.
  destruct (ServiceToCR sample_hash sample_row false) as [cr | e] eqn:Hcr; [| discriminate Hcr].
  destruct (serviceWorkload sample_row) as [w | e] eqn:Hw; [| discriminate Hw].
  destruct (pods_are_what_was_admitted sample_serving sample_hash sample_row cr false (sample_svc "chat" "" (scr_Spec cr)) w)
    as (n & main & tmpl & dep & H).
  - exact Hcr.
  - reflexivity.
  - exact Hw.
  - left. injection Hcr as <-. vm_compute. reflexivity.
  - destruct (H Config_zero) as (sts & (Hb & Hn & _) & _ & _ & _ & Hroles & _). exists cr, w, dep.
    assert (n = 2%Z) as -> by (injection Hcr as <-; injection Hb as <-; injection Hn as <-; vm_compute; reflexivity).
    split; [reflexivity |]. split; [reflexivity |]. split; [exact Hb |]. split; [exact Hn |]. by rewrite Hroles.
Defined.

(** ** Policies *)

Lemma member_errors_none i seen backends :
  percentages backends -> NoDup (names backends) -> (forall n, n ∈ names backends -> n ∉ seen /\ n <> "") ->
  member_errors i seen backends = [].
Proof.
  revert i seen. induction backends as [| m rest IH]; intros i seen Hp Hnd Hn; [done |]. simpl.
  apply Forall_cons in Hp as [[Hlo Hhi] Hp]. apply NoDup_cons in Hnd as [Hm Hnd].
  destruct (Hn (bm_ServiceName m)) as [Hs He]; [left |]. rw (proj2 (String.eqb_neq _ _) He) decide_False //.
  rw (proj2 (Z.ltb_ge _ _) Hlo) (proj2 (Z.ltb_ge _ _) Hhi) /=. apply IH; [done | done |].
  intros n Hin. destruct (Hn n) as [Hn1 Hn2]; [by right |]. split; [| done]. set_solver.
Qed.

Lemma mode_errors_none mode backends :
  PolService.known_mode mode = true -> enough_members mode backends -> (mode = TrafficModeCanary -> canary_pair backends) ->
  mode_errors mode backends = [].
Proof.
  rw /PolService.known_mode /enough_members /mode_errors. intros Hk He Hc.
  destruct (String.eqb_spec mode TrafficModeWeighted) as [-> | Hw].
  { by rw (proj2 (Nat.ltb_ge _ _) He). }
  destruct (String.eqb_spec mode TrafficModeCanary) as [-> | Hcan].
  { destruct (Hc eq_refl) as (s & c & Hs & Hcc & [-> | ->]); by rw /count_role /= Hs Hcc. }
  destruct (String.eqb mode TrafficModeBlueGreen); [by rw He | done].
Qed.

(** Whatever compute-service stores the operator accepts: a policy that
    passed compute-service's shape and weight checks, asks for no JWT (which
    Create refuses) and names its members passes the operator's own
    validation, in every mode. *)
Theorem stored_policies_are_accepted (spec : MLTrafficPolicySpec) :
  valid_spec spec -> (Z.of_nat (length (tsp_Backends spec)) <= max_members)%Z ->
  PolService.wants_jwt (tsp_Endpoint spec) = false -> "" ∉ names (tsp_Backends spec) ->
  validation_ok (PolicyValidate spec) = true.
Proof.
  intros (Hm & Hs & Hw) Hl Hj Hn. apply validateModeShape_iff in Hs as (Hnd & He & Hc); [| done].
  rw /PolicyValidate. destruct (tsp_Backends spec) as [| m rest] eqn:Hb.
  { rw /enough_members /= in He. case_match; simpl in He; lia. }
  rw -Hb in Hl Hw Hnd He Hc Hn |- *. apply validateWeights_iff in Hw as (Hp & _); [| done | by rw Hb | done].
  rw /validation_ok. cbn [va_Errors]. rw mode_errors_none // member_errors_none //; [by intros n Hin; split; [set_solver | congruence] |].
  rw /PolService.wants_jwt in Hj. destruct (ep_Auth _) as [a |]; [| done]. by rw Hj.
Qed.

Lemma stored_policies_are_accepted_witness : validation_ok (PolicyValidate (ob_Spec canary_policy)) = true.
Proof.
  apply (stored_policies_are_accepted (ob_Spec canary_policy)).
  - split_and!; vm_compute; reflexivity.
  - vm_compute. discriminate.
  - reflexivity.
  - intros Hin. apply list_elem_of_In in Hin. destruct Hin as [Hin | [Hin | []]]; discriminate Hin.
Defined.

(** ** Phases *)

(** The phase compute-service shows for a phase of the operator. *)
Definition shown (p : Phase) : option svc_phase :=
  match p with
  | PhasePending => Some SvcPending | PhaseReady => Some SvcReady | PhaseDegraded => Some SvcDegraded
  | PhaseFailed => Some SvcFailed | PhaseUnset => None
  end.

Section Phases.
Context `{!Machinery} `{!ServingMachinery} {Q : Type} (dec : ServingDecoders Q) (shortHash : bytes -> bytes).
Implicit Types (mls : Svc Q) (children : list (child Q)).

(** The status comes from either native handler. *)
Definition native_update mls children (upd : StatusUpdate) : Prop :=
  DeploymentMapStatus dec shortHash mls children = inl upd \/ StatefulSetMapStatus dec shortHash mls children = inl upd.

Definition route_of_service mls children : option HTTPRoute :=
  findHTTPRoute children (workload_name mls) (ob_Namespace mls).

(** A phase derived from a workload: where [ready] lies says which it is. *)
Definition derived (desired ready : Z) (p : Phase) : Prop :=
  (desired = 0 /\ p = PhasePending) \/ (ready = desired /\ 0 < desired /\ p = PhaseReady) \/
  (0 < ready < desired /\ p = PhaseDegraded) \/
  (0 < desired /\ ready <> desired /\ ~ (0 < ready < desired) /\ (p = PhasePending \/ p = PhaseFailed)) \/
  (0 < desired /\ ready = 0 /\ p = PhasePending).

Lemma native_derived mls children upd role :
  native_update mls children upd -> ssp_Roles (ob_Spec mls) = [role] -> (0 <= ro_Replicas role)%Z ->
  exists p msg, derived (ro_Replicas role) (su_ReadyReplicas upd) p /\
    let down := route_enabled dec mls && negb (routeAccepted (route_of_service mls children)) && bool_decide (p <> PhaseFailed) in
    su_Phase upd = (if down then PhaseDegraded else p) /\
    su_Message upd = (if down && String.eqb msg "" then "HTTPRoute not yet Accepted; falling back to in-cluster DNS" else msg).
Proof.
  intros Hu Hr Hd. set (d := ro_Replicas role) in *.
  assert (forall r : Z, (r =? d)%Z = false -> (0 <? r)%Z && (r <? d)%Z = false -> r <> d /\ ~ (0 < r < d)%Z) as Hout by (intros; lia).
  destruct Hu as [Hu | Hu]; rw /DeploymentMapStatus /StatefulSetMapStatus /first_role Hr in Hu; injection Hu as <-; simpl.
  - destruct (findDeployment _ _ _) as [dep |]; rw /derive_deployment_phase -/d; simpl;
      (destruct (Z.eqb_spec d 0); [by do 2 eexists; split; [left | split] |]); simpl.
    + destruct (Z.eqb_spec (dst_ReadyReplicas (ob_Status dep)) d); [do 2 eexists; split; [right; left; split_and!; [done | lia | done] | done] |].
      destruct ((0 <? _)%Z && _) eqn:Hb; [do 2 eexists; split; [right; right; left; split; [lia | done] | done] |].
      destruct (rollout_failure _); [exists PhaseFailed | exists PhasePending]; eexists;
        (split; [right; right; right; left; split_and!; [lia | done | lia | by auto] | done]).
    + exists PhasePending, "Deployment not yet created". split; [do 4 right; split_and!; [lia | done | done] | done].
  - destruct (findStatefulSet _ _ _) as [sts |]; rw /derive_statefulset_phase -/d; simpl;
      (destruct (Z.eqb_spec d 0); [by do 2 eexists; split; [left | split] |]); simpl.
    + destruct (Z.eqb_spec (stst_ReadyReplicas (ob_Status sts)) d); [do 2 eexists; split; [right; left; split_and!; [done | lia | done] | done] |].
      destruct ((0 <? _)%Z && _) eqn:Hb; [do 2 eexists; split; [right; right; left; split; [lia | done] | done] |].
      exists PhasePending, "StatefulSet is rolling out". split; [right; right; right; left; split_and!; [lia | done | lia | by auto] | done].
    + exists PhasePending, "StatefulSet not yet created". split; [do 4 right; split_and!; [lia | done | done] | done].
Qed.

(** The phase a user sees is the phase the operator derived.  For a service
    of either native backend whose route, if it has one, is accepted, and whose
    ready replicas do not exceed the wanted ones, the status the operator
    writes makes compute-service show exactly the operator's phase, whatever it
    showed before, with the operator's ready count and endpoint. *)
Theorem shown_phase_agrees (now : Z) mls children upd role (cur : svc_phase) (st : ServiceStatus) :
  native_update mls children upd -> ssp_Roles (ob_Spec mls) = [role] ->
  (0 <= su_ReadyReplicas upd <= ro_Replicas role)%Z ->
  (route_enabled dec mls = true -> routeAccepted (route_of_service mls children) = true) ->
  let '(phase, next) := MapService cur st (ro_Replicas role) (observed_service (merged_status now mls upd)) in
  shown (su_Phase upd) = Some phase /\ ss_ReadyReplicas next = su_ReadyReplicas upd /\ ss_Endpoint next = su_Endpoint upd.
Proof.
  intros Hu Hr Hle Hroute. destruct (native_derived mls children upd role Hu Hr) as (p & msg & Hd & Hph & _); [lia |].
  assert (su_Phase upd = p) as Hp.
  { rw Hph. destruct (route_enabled dec mls); [by rw Hroute | done]. }
  rw /MapService /= Hp. split; [| done]. set (r := su_ReadyReplicas upd) in *. set (d := ro_Replicas role) in *.
  destruct Hd as [[-> ->] | [(-> & ? & ->) | [[? ->] | [(? & ? & ? & Hpf) | (? & -> & ->)]]]]; simpl.
  - done.
  - rw (proj2 (Z.eqb_neq _ _)); [lia |]. by rw andb_false_r Z.eqb_refl.
  - do 2 (rw (proj2 (Z.eqb_neq _ _)); [lia |]). simpl. rw (proj2 (Z.eqb_neq _ _)); [lia |].
    rw (proj2 (Z.ltb_lt 0 r)); [lia |]. rw (proj2 (Z.ltb_lt r d)) //; lia.
  - assert (r = 0)%Z as -> by lia. rw (proj2 (Z.eqb_neq d 0)); [lia |]. rw (proj2 (Z.eqb_neq 0 d)); [lia |].
    by destruct Hpf as [-> | ->].
  - rw (proj2 (Z.eqb_neq _ _)) //; lia.
Qed.
(** While a route is not accepted the operator reports Degraded; with no ready
    replica left compute-service has no case for that and keeps what it showed,
    Ready included. *)
Lemma unaccepted_route_hides_loss (now : Z) mls children upd role (cur : svc_phase) (st : ServiceStatus) :
  native_update mls children upd -> ssp_Roles (ob_Spec mls) = [role] -> (0 < ro_Replicas role)%Z ->
  route_enabled dec mls = true -> routeAccepted (route_of_service mls children) = false ->
  su_ReadyReplicas upd = 0%Z -> su_Phase upd <> PhaseFailed ->
  su_Phase upd = PhaseDegraded /\
  (MapService cur st (ro_Replicas role) (observed_service (merged_status now mls upd))).1 = cur.
Proof.
  intros Hu Hr Hd He Ha Hz Hf. destruct (native_derived mls children upd role Hu Hr) as (p & msg & _ & Hph & _); [lia |].
  rw He Ha /= in Hph. destruct (decide (p = PhaseFailed)) as [-> | Hp]; [done |]. rw bool_decide_true // in Hph.
  split; [done |]. rw /MapService; cbn [scs_ReadyReplicas scs_Phase observed_service merged_status vst_ReadyReplicas vst_Phase]; rw Hz Hph.
  rw (proj2 (Z.eqb_neq (ro_Replicas role) 0)); [lia |]. rw (proj2 (Z.eqb_neq 0 (ro_Replicas role))) //; lia.
Qed.

(** With all replicas ready and the route not accepted, the operator reports
    Degraded with an explanation and compute-service shows Ready without one. *)
Lemma unaccepted_route_shown_ready (now : Z) mls children upd role (cur : svc_phase) (st : ServiceStatus) :
  native_update mls children upd -> ssp_Roles (ob_Spec mls) = [role] -> (0 < ro_Replicas role)%Z ->
  route_enabled dec mls = true -> routeAccepted (route_of_service mls children) = false ->
  su_ReadyReplicas upd = ro_Replicas role ->
  su_Phase upd = PhaseDegraded /\ su_Message upd <> "" /\
  let '(phase, next) := MapService cur st (ro_Replicas role) (observed_service (merged_status now mls upd)) in
  phase = SvcReady /\ ss_Message next = "".
Proof.
  intros Hu Hr Hd He Ha Hz. destruct (native_derived mls children upd role Hu Hr) as (p & msg & Hder & Hph & Hmsg); [lia |].
  rw Hz in Hder. assert (p = PhaseReady) as -> by (rw /derived in Hder; naive_solver lia).
  rw He Ha /= in Hph Hmsg. split; [done |]. split.
  { rw Hmsg. case_match eqn:Hm; [done |]. by apply String.eqb_neq. }
  rw /MapService; cbn [scs_ReadyReplicas scs_Phase observed_service merged_status vst_ReadyReplicas vst_Phase]; rw Hz Hph.
  rw (proj2 (Z.eqb_neq (ro_Replicas role) 0)); [lia |]. by rw Z.eqb_refl.
Qed.

(** During a scale-down more replicas are ready than wanted: the operator
    reports Pending or Failed although every wanted replica serves. *)
Lemma surplus_is_not_ready mls children upd role :
  native_update mls children upd -> ssp_Roles (ob_Spec mls) = [role] ->
  (0 < ro_Replicas role < su_ReadyReplicas upd)%Z -> route_enabled dec mls = false ->
  su_Phase upd = PhasePending \/ su_Phase upd = PhaseFailed.
Proof.
  intros Hu Hr Hd He. destruct (native_derived mls children upd role Hu Hr) as (p & msg & Hder & Hph & _); [lia |].
  rw He /= in Hph. rw Hph. rw /derived in Hder. naive_solver lia.
Qed.
End Phases.

(** A Deployment of the sample service with one replica ready. *)
Definition chat_deployment (ready : Z) : Deployment Z :=
  {| ob_Meta := sample_meta "chat-predictor" "d-1" ∅ ∅;
     ob_Spec := {| de_Replicas := Some 2%Z; de_Selector := ∅;
                   de_Template := {| pts_Labels := ∅; pts_RestartPolicy := ""; pts_Volumes := []; pts_Containers := [];
                     pts_SchedulerName := ""; pts_PriorityClassName := ""; pts_NodeSelector := ∅; pts_Tolerations := [] |};
                   de_ProgressDeadlineSeconds := None |};
     ob_Status := {| dst_ReadyReplicas := ready; dst_Conditions := [] |} |}.

Lemma chat_update :
  match DeploymentMapStatus sample_serving sample_hash (chat "" None) [ChildDeployment (chat_deployment 1)] with
  | inl upd => su_ReadyReplicas upd = 1%Z /\ su_Phase upd = PhaseDegraded
  | inr _ => False
  end.
Proof. vm_compute. by split. Qed.

Lemma shown_phase_agrees_witness :
  exists upd, DeploymentMapStatus sample_serving sample_hash (chat "" None) [ChildDeployment (chat_deployment 1)] = inl upd /\
    (MapService SvcReady {| ss_Message := ""; ss_ReadyReplicas := 2; ss_Endpoint := "" |} 2
       (observed_service (merged_status 100 (chat "" None) upd))).1 = SvcDegraded.
Proof.
  pose proof chat_update as Hupd.
  destruct (DeploymentMapStatus sample_serving sample_hash (chat "" None) [ChildDeployment (chat_deployment 1)]) as [upd | e] eqn:Hu;
    [| contradiction]. destruct Hupd as [Hready Hphase]. exists upd. split; [reflexivity |].
  pose proof (shown_phase_agrees sample_serving sample_hash 100 (chat "" None) [ChildDeployment (chat_deployment 1)] upd
    _ SvcReady {| ss_Message := ""; ss_ReadyReplicas := 2; ss_Endpoint := "" |} (or_introl Hu) eq_refl) as Hs.
  specialize (Hs ltac:(rewrite Hready; vm_compute; split; discriminate) ltac:(discriminate)).
  change (ro_Replicas _) with 2%Z in Hs. destruct (MapService _ _ _ _) as [phase next]. destruct Hs as [Hs _].
  rewrite Hphase in Hs. injection Hs as <-. reflexivity.
Defined.

(** ** Serving operator: repeated passes and foreign objects

    A repeated status write sends nothing; headless Services of others are
    never taken over.  The examples at the end show where the controllers are
    less careful than that. *)

(** ** Conditions *)

(** Values are filed under their type. *)
Definition filed (m : gmap string MetaCondition) : Prop := map_Forall (fun t c => mc_Type c = t) m.

Lemma filed_insert c (m : gmap string MetaCondition) : filed m -> filed (<[mc_Type c := c]> m).
Proof. intros Hm. by apply map_Forall_insert_2. Qed.

Lemma filed_by_type conds : filed (by_type conds).
Proof.
  rw /by_type. assert (filed ∅) as H0 by done. revert H0. generalize (∅ : gmap string MetaCondition).
  induction conds as [| c conds IH]; intros m Hm; simpl; [done |]. by apply IH, filed_insert.
Qed.

Lemma filed_merge now g upd m : filed m -> filed (foldl (merge_condition now g) m upd).
Proof. revert m. induction upd as [| u upd IH]; intros m Hm; simpl; [done |]. apply IH. by apply map_Forall_insert_2. Qed.

(** Filing the values of a map gives the map back. *)
Lemma foldl_file (l : list MetaCondition) (m : gmap string MetaCondition) : NoDup (map mc_Type l) ->
  foldl (fun m c => <[mc_Type c := c]> m) m l = list_to_map (map (fun c => (mc_Type c, c)) l) ∪ m.
Proof.
  revert m. induction l as [| c l IH]; intros m Hnd; simpl; [by rw left_id_L |]. apply NoDup_cons in Hnd as [Hc Hnd].
  rw IH //. rw -insert_union_l. apply map_eq => t. destruct (decide (mc_Type c = t)) as [<- | Hne].
  - rw lookup_insert_eq lookup_union_r; [| by rw lookup_insert_eq].
    apply not_elem_of_list_to_map_1. intros (kv & Heq & (c' & -> & Hin)%list_elem_of_fmap)%list_elem_of_fmap.
    apply Hc, list_elem_of_fmap. by exists c'.
  - rw lookup_insert_ne // !lookup_union lookup_insert_ne //.
Qed.

Lemma by_type_sorted (m : gmap string MetaCondition) less : filed m -> by_type (sort_slice less (map snd (map_to_list m))) = m.
Proof.
  intros Hm. assert (map (fun kv : string * MetaCondition => mc_Type kv.2) (map_to_list m) = map fst (map_to_list m)) as Hkeys.
  { apply map_ext_in. intros [t c] Hin. apply list_elem_of_In, elem_of_map_to_list in Hin. by apply (Hm _ _ Hin). }
  assert (NoDup (map mc_Type (map snd (map_to_list m)))) as Hnd.
  { rw map_map Hkeys. apply NoDup_fst_map_to_list. }
  assert (map mc_Type (sort_slice less (map snd (map_to_list m))) ≡ₚ map mc_Type (map snd (map_to_list m))) as Hperm
    by apply Permutation_map, sort_slice_perm.
  rw /by_type foldl_file ?right_id_L; [by rewrite Hperm |].
  rw -{2}(list_to_map_to_list m). apply list_to_map_proper.
  { assert (forall l, (map (fun c => (mc_Type c, c)) l).*1 = map mc_Type l) as -> by (intros l; by induction l; f_equal/=).
    by rewrite Hperm. }
  etrans; [apply Permutation_map, sort_slice_perm |]. rw map_map.
  assert (map (fun x : string * MetaCondition => (mc_Type x.2, x.2)) (map_to_list m) = map id (map_to_list m)) as ->.
  { apply map_ext_in. intros [t c] Hin. apply list_elem_of_In, elem_of_map_to_list in Hin. by rw /= (Hm _ _ Hin). }
  by rewrite List.map_id.
Qed.

(** What the fold leaves for each update. *)
Definition merged_in (g : Z) (m : gmap string MetaCondition) (u : MetaCondition) : Prop :=
  exists since, m !! mc_Type u = Some {| mc_Type := mc_Type u; mc_Status := mc_Status u; mc_ObservedGeneration := g;
    mc_LastTransitionTime := since; mc_Reason := mc_Reason u; mc_Message := mc_Message u |}.

Lemma merge_other now g upd m t : t ∉ map mc_Type upd -> foldl (merge_condition now g) m upd !! t = m !! t.
Proof.
  revert m. induction upd as [| u upd IH]; intros m Ht; simpl; [done |]. simpl in Ht. rw IH; [set_solver |].
  rw lookup_insert_ne //. set_solver.
Qed.

Lemma merge_merged now g upd m u : NoDup (map mc_Type upd) -> u ∈ upd -> merged_in g (foldl (merge_condition now g) m upd) u.
Proof.
  revert m. induction upd as [| v upd IH]; intros m Hnd Hu; [by apply not_elem_of_nil in Hu |]. simpl.
  apply NoDup_cons in Hnd as [Hv Hnd]. apply elem_of_cons in Hu as [-> | Hu]; [| by apply IH].
  rw /merged_in merge_other //. rw lookup_insert_eq. by eexists.
Qed.

Lemma merge_again now g upd m : (forall u, u ∈ upd -> merged_in g m u) -> foldl (merge_condition now g) m upd = m.
Proof.
  induction upd as [| u upd IH]; intros Hu; simpl; [done |].
  assert (merge_condition now g m u = m) as ->; [| apply IH; intros v Hv; apply Hu; by right].
  destruct (Hu u) as (since & Hs); [left |]. rw /merge_condition Hs /= String.eqb_refl. by rw insert_id.
Qed.

Lemma mergeConditions_again now now' existing upd g :
  NoDup (map mc_Type upd) ->
  mergeConditions now' (mergeConditions now existing upd g) upd g = mergeConditions now existing upd g.
Proof.
  intros Hnd. rw {1}/mergeConditions by_type_sorted; [apply filed_merge, filed_by_type |].
  rw merge_again //. intros u Hu. by apply merge_merged.
Qed.

(** A status that was written is not written again.  When nothing the
    handler derives has changed, the next pass computes the same status, with
    the transition times the first pass recorded, whatever the clock says, and
    sends no patch. *)
Theorem repeated_status_is_quiet `{!Machinery} `{!ServingMachinery} {Q K : Type} `{!ServingClient Q K} (now now' : Z)
    (mls : Svc Q) (upd : StatusUpdate) :
  NoDup (map mc_Type (su_Conditions upd)) ->
  forall s : K, writeStatus now' (set_status (merged_status now mls upd) mls) upd s = (inl tt, s).
Proof.
  intros Hnd s. rw /writeStatus. set (mls' := set_status _ mls).
  assert (merged_status now' mls' upd = ob_Status mls') as ->.
  { rw {1}/merged_status /=. rw mergeConditions_again //. }
  by rw (proj2 (service_status_equal_spec _ _) eq_refl).
Qed.

Lemma repeated_status_is_quiet_witness :
  let upd := failed_update (chat "" None) "boom" in
  writeStatus 500 (set_status (merged_status 100 (chat "" None) upd) (chat "" None)) upd empty_serving = (inl tt, empty_serving).
Proof.
  intros upd. apply (repeated_status_is_quiet (K := serving Z) 100 500 (chat "" None) upd).
  apply NoDup_singleton.
Defined.

(** ** Foreign Services *)

Section Foreign.
Context `{!Machinery} `{!ServingMachinery} {Q K : Type} `{!ServingClient Q K} (objects : K -> serving Q) `{!ServingLaws objects eq}.
Context `{!ServingCurrent objects eq}.
Context (sk : key) (o : KubeService).

Definition service_kept (c : serving Q) : Prop := sv_KubeServices c !! sk = Some o.

Lemma update_service_keeps (desired current : KubeService) :
  ob_key current <> sk -> keeps objects service_kept (update_service desired current).
Proof using All.
  intros Hk. rw /update_service. case_match; [apply keeps_ret |]. apply keeps_bind; [| by intros ?; apply keeps_ret].
  apply (triple_patch objects eq); [apply _ | apply _ | | done]. set (next := set_labels _ _).
  intros c o1 o' Ho _ _. change (ob_key next) with (ob_key current).
  assert (service_kept (set_tab (<[ob_key current := o']> (sv_KubeServices c)) c)) as HI; [| by split].
  by rw /service_kept /= lookup_insert_ne.
Qed.

Lemma headless_keeps (mls : Svc Q) (desired : KubeService) :
  controlled_by (ob_UID mls) (ob_Owners o) = false -> keeps objects service_kept (upsertHeadlessService mls desired).
Proof using All.
  intros Hc. rw /upsertHeadlessService /upsert_with. case_match; [| apply keeps_fail]. rw /create_or.
  apply (triple_bind objects _ _ _ (fun r c => service_kept c /\ forall cur, r = inl (inl cur) -> ob_key cur = sk -> cur = o));
    [| | by intros e c [? _]].
  { apply triple_try, (triple_get objects eq); [apply _ | apply _ | | by intros; split].
    intros c cur Hk Hl Hkey. split; [done |]. intros cur' [= <-] Hsk. rw -Hkey Hsk in Hl. rw /service_kept in Hk. simpl in Hl. congruence. }
  intros [cur | e]; apply triple_pure => Hcur.
  - destruct (decide (ob_key cur = sk)) as [Hk | Hk]; [rw (Hcur cur eq_refl Hk) Hc; apply keeps_fail |].
    case_match; [by apply update_service_keeps | apply keeps_fail].
  - case_match; [| apply keeps_fail]. apply keeps_bind; [| by intros ?; apply keeps_ret]. set (want := set_owners _ _).
    assert (forall c o', service_kept c -> sv_KubeServices c !! ob_key want = None -> stored (C := serving Q) want o' -> service_kept (put o' c)) as Hput.
    { intros c o' Hk Hn (Hobj & _). rw /service_kept /put /= lookup_insert_ne //.
      assert (ob_key o' = ob_key want) as -> by (rw /ob_key /ob_Name /ob_Namespace Hobj //).
      intros Heq. rw /service_kept in Hk. rw Heq in Hn. congruence. }
    by apply (triple_create objects eq); [apply _ | apply _ | intros; apply Hput | intros; apply Hput |].
Qed.
End Foreign.

(** Without interference and with current reads, the (native, statefulset) handler
    never changes a
    Service that another object controls, whatever serviceName a user picked
    and whichever calls fail. *)
Theorem headless_never_adopts `{!Machinery} `{!ServingMachinery} {Q K : Type} `{!ServingClient Q K} (objects : K -> serving Q)
    (Hlaws : ServingLaws objects eq) (Hcurrent : ServingCurrent objects eq) (dec : ServingDecoders Q) (shortHash : bytes -> bytes)
    (mls : Svc Q) (sk : key) (o : KubeService) (s : K) :
  sv_KubeServices (objects s) !! sk = Some o -> controlled_by (ob_UID mls) (ob_Owners o) = false ->
  sv_KubeServices (objects (StatefulSetReconcile dec shortHash mls s).2) !! sk = Some o.
Proof.
  intros Ho Hc. assert (keeps objects (service_kept sk o) (StatefulSetReconcile dec shortHash mls)) as Hk; [| by apply Hk].
  apply keeps_wrap_lift_bind => cfg _. apply keeps_lift_bind => sts _. apply keeps_bind; [apply keeps_wrap | intros _].
  { rw /upsertStatefulSet /upsert_hashed. case_match; [| apply keeps_fail]. case_match; [| apply keeps_fail]. rw /create_or.
    apply keeps_bind; [apply keeps_try, (keeps_get objects eq (service_kept sk o)) |]. intros [cur | e].
    - case_match; [apply keeps_ret |]. apply keeps_bind; [apply (keeps_patch objects eq (service_kept sk o)); untouched | by intros ?; apply keeps_ret].
    - case_match; [| apply keeps_fail]. apply keeps_bind; [apply (keeps_create objects eq (service_kept sk o)); untouched | by intros ?; apply keeps_ret]. }
  apply keeps_lift_bind => svc _. apply keeps_bind; [by apply keeps_wrap, headless_keeps | intros _].
  apply (keeps_reconcile_route objects eq (service_kept sk o)); untouched.
Qed.

Open Scope string_scope.

Definition db_service (config : option RawJSON) : Svc Z := sample_svc "db" "" (sample_service_spec "statefulset" "img" 2 config None).

(** A user picked the name of somebody else's Service. *)
Lemma headless_never_adopts_witness :
  let c := with_kube (kube_service "peers" "u-other") empty_serving in
  sv_KubeServices (StatefulSetReconcile sample_serving sample_hash (db_service (Some "peers")) c).2 !! ("team-a", "peers")
    = Some (kube_service "peers" "u-other").
Proof.
  intros c. apply (headless_never_adopts (K := serving Z) id (serving_laws Z) (serving_current Z) sample_serving sample_hash (db_service (Some "peers"))
    ("team-a", "peers") (kube_service "peers" "u-other") c); reflexivity.
Defined.

(** ** Where the controllers are less careful *)

(** The (native, deployment) handler does take over a Service of somebody else:
    the selector becomes its own, the owner stays. *)
Example deployment_takes_over_service :
  let c := with_kube (kube_service "chat" "u-other") (with_service (chat "" None) empty_serving) in
  let '(res, c') := DeploymentReconcile sample_serving sample_hash (chat "" None) c in
  res = inl tt /\
  bool_decide ((sv_Selector ∘ ob_Spec <$> sv_KubeServices c' !! chat_key) = Some (selectorLabels (chat "" None) "predictor")) = true /\
  bool_decide ((ob_Owners <$> sv_KubeServices c' !! chat_key) = Some (ob_Owners (kube_service "chat" "u-other"))) = true.
Proof. vm_compute. by split_and!. Qed.

(** The references of the route of this name. *)
Definition route_backends (k : key) (c : serving Z) : list string :=
  match sv_Routes c !! k with
  | Some r => concat (map (fun rule => map br_Name (hr_BackendRefs rule)) (ht_Rules (ob_Spec r)))
  | None => []
  end.

(** A service with a route and a policy of the same name share one HTTPRoute:
    each pass points it at its own backends. *)
Example route_name_is_shared :
  let policy := sample_policy "chat" [member "blue" "stable" 95; member "green" "canary" 5] in
  let c := with_policy policy (with_kube (kube_service "blue" "u-blue") (with_kube (kube_service "green" "u-green")
             (with_service (chat "" (Some "chat.example.com")) empty_serving))) in
  let c1 := (Reconcile sample_serving 100 sample_services chat_key c).2 in
  let c2 := (ReconcilePolicy 110 sample_policies chat_key c1).2 in
  let c3 := (Reconcile sample_serving 120 sample_services chat_key c2).2 in
  route_backends chat_key c1 = ["chat"] /\ route_backends chat_key c2 = ["blue"; "green"] /\ route_backends chat_key c3 = ["chat"].
Proof. intros policy c c1 c2 c3. split; [| split]; vm_compute; reflexivity. Qed.

(** A policy looks for a Service named after the member; the Service of a
    (native, statefulset) member that sets serviceName has another name. *)
Example renamed_member_never_resolves :
  let db := db_service (Some "peers") in
  let policy := sample_policy "split" [member "db" "stable" 95; member "blue" "canary" 5] in
  let c := with_policy policy (with_kube (kube_service "blue" "u-blue") (with_service db empty_serving)) in
  let c1 := (Reconcile sample_serving 100 sample_services ("team-a", "db") c).2 in
  let '(res, c2) := ReconcilePolicy 110 sample_policies split_key c1 in
  is_Some (sv_KubeServices c1 !! ("team-a", "peers")) /\ sv_Routes c2 !! split_key = None /\
  res = inr (Errored (holding_message ["db"])).
Proof. vm_compute. split_and!; try done; by eexists. Qed.

(** A client whose ConfigMap lists time out, and nothing else. *)
Definition flaky_serving : ServingClient Z (serving Z) := {|
  vc_services := perfect_client; vc_policies := perfect_client; vc_deployments := perfect_client;
  vc_statefulsets := perfect_client; vc_kubeservices := perfect_client; vc_routes := perfect_client;
  vc_configmaps := {| k_Get := get_object; k_Create := create_object; k_Patch := patch_object; k_PatchStatus := patch_object_status;
                      k_Delete := delete_object; k_List _ _ c := (inr (APIError "timeout"), c) |} |}.

Definition healthy : MLServiceStatus :=
  {| vst_ObservedGeneration := 1; vst_Phase := PhaseReady; vst_Message := ""; vst_Endpoint := "chat.team-a.svc.cluster.local:8080";
     vst_ReadyReplicas := 2; vst_Selector := ""; vst_Conditions := []; vst_Roles := [] |}.

(** One failed call, and a healthy service is reported Failed with no ready
    replica and no endpoint. *)
Example transient_error_fails_service :
  let c := with_service (set_status healthy (chat "sha:img" None)) empty_serving in
  let '(res, c') := @Reconcile _ _ _ _ flaky_serving sample_serving 200
                      (@service_registry _ _ _ _ flaky_serving sample_serving sample_hash) chat_key c in
  res = inr (Wrapped "list workload ConfigMaps" (APIError "timeout")) /\
  ((fun s => (vst_Phase (ob_Status s), vst_ReadyReplicas (ob_Status s), vst_Endpoint (ob_Status s))) <$> sv_Services c' !! chat_key)
    = Some (PhaseFailed, 0%Z, "").
Proof. vm_compute. by split. Qed.
