(* ===== verification/TenantTypes.v ===== *)
(** * Tenant operator: objects

    The Tenant resource of [apis/tenant/v1alpha1], the objects the tenant
    operator derives from it, and the cluster these live in.  The operator
    reads most kinds through a cache that holds only objects it manages
    ([CacheByObject]); source objects and data volumes are read from the API
    server. *)

From Stdlib Require Import ssreflect ZArith Ascii String.
From stdpp Require Import base gmap list strings.
From S2P Require Import Prelude Placement ApiTypes Kube OperatorTypes.

Open Scope string_scope.

Definition LabelTenantID : string := "tenant.axisml.io/id".
Definition LabelManagedBy : string := "tenant.axisml.io/managed-by".
Definition ManagedByValue : string := "tenant-operator".
Definition ConditionNamespaceReady : string := "NamespaceReady".
Definition ConditionQuotasReady : string := "QuotasReady".
Definition ConditionInitResourcesReady : string := "InitResourcesReady".
Definition ConditionFailed : string := "Failed".

(** [ElasticQuotaName] *)
Definition ElasticQuotaName (tenantName poolName : string) : string := "axisml-" +:+ tenantName +:+ "-" +:+ poolName.

(** ** The Tenant *)

Inductive TenantPhase := TenantPhaseUnset | TenantPhaseActive | TenantPhaseFailed.

#[export] Instance TenantPhase_eq_dec : EqDecision TenantPhase.
Proof. solve_decision. Defined.

Record NamespaceSpec := {
  nsp_Name : string; nsp_Labels : gmap string string; nsp_Annotations : gmap string string }.

(** [QuotaSpec]; only for [Max] does the code tell a nil list from an empty
    one. *)
Record QuotaSpec {Q : Type} := {
  qsp_Pool : string; qsp_Min : gmap string Q; qsp_Max : option (gmap string Q) }.
Arguments QuotaSpec : clear implicits.

(** [SourceSecretRef] and [SourceConfigMapRef] *)
Record SourceRef := { src_Namespace : string; src_Name : string }.

Record ImagePullSecretSpec := { ips_Name : string; ips_Source : SourceRef }.
Record SecretSpec := { sxs_Name : string; sxs_Type : string; sxs_Source : SourceRef }.
Record ConfigMapSpec := { cms_Name : string; cms_Source : SourceRef }.

(** [rbacv1.PolicyRule], without the fields the operator does not look at. *)
Record PolicyRule := { ru_Verbs : list string; ru_APIGroups : list string; ru_Resources : list string; ru_Other : RawJSON }.

#[export] Instance PolicyRule_eq_dec : EqDecision PolicyRule.
Proof. solve_decision. Defined.

Record RBACRoleRef := { rr_Kind : string; rr_Name : string }.
Record RBACSpec := { rb_Rules : list PolicyRule; rb_RoleRef : option RBACRoleRef }.

Record ServiceAccountSpec := {
  sas_Name : string; sas_ImagePullSecrets : list string; sas_RBAC : option RBACSpec }.

Record VolumeSpec := {
  vol_Name : string; vol_Size : string; vol_StorageClass : string; vol_AccessModes : list string;
  vol_Description : string; vol_HostPath : string }.

Record InitResources := {
  ir_ImagePullSecrets : list ImagePullSecretSpec;
  ir_Secrets : list SecretSpec;
  ir_ConfigMaps : list ConfigMapSpec;
  ir_ServiceAccounts : list ServiceAccountSpec;
  ir_Volumes : list VolumeSpec }.

Record TenantSpec {Q : Type} := {
  tns_Namespace : NamespaceSpec; tns_Quotas : list (QuotaSpec Q); tns_InitResources : InitResources }.
Arguments TenantSpec : clear implicits.

Record QuotaStatus {Q : Type} := {
  qst_Pool : string; qst_Ready : bool; qst_Used : gmap string Q; qst_Message : string }.
Arguments QuotaStatus : clear implicits.

Record InitResourceItemStatus := { it_Name : string; it_Ready : bool; it_Message : string }.

Record InitResourcesStatus := {
  irs_ImagePullSecrets : list InitResourceItemStatus;
  irs_Secrets : list InitResourceItemStatus;
  irs_ConfigMaps : list InitResourceItemStatus;
  irs_ServiceAccounts : list InitResourceItemStatus;
  irs_Volumes : list InitResourceItemStatus }.

Record TenantStatus {Q : Type} := {
  tst_ObservedGeneration : Z;
  tst_Phase : TenantPhase;
  tst_Message : string;
  tst_NamespaceReady : bool;
  tst_Quotas : list (QuotaStatus Q);
  tst_InitResources : InitResourcesStatus;
  tst_Conditions : list MetaCondition }.
Arguments TenantStatus : clear implicits.

Definition TenantStatus_zero {Q} : TenantStatus Q :=
  {| tst_ObservedGeneration := 0; tst_Phase := TenantPhaseUnset; tst_Message := ""; tst_NamespaceReady := false;
     tst_Quotas := [];
     tst_InitResources := {| irs_ImagePullSecrets := []; irs_Secrets := []; irs_ConfigMaps := []; irs_ServiceAccounts := [];
                             irs_Volumes := [] |};
     tst_Conditions := [] |}.

(** ** Derived objects *)

(** [ElasticQuotaSpec]; the status is the used list. *)
Record ElasticQuotaSpec {Q : Type} := { eq_Min : gmap string Q; eq_Max : gmap string Q }.
Arguments ElasticQuotaSpec : clear implicits.

(** A Secret's type and data; a ConfigMap's data and binary data. *)
Record SecretBody := { sb_Type : string; sb_Data : gmap string string }.
Record ConfigBody := { cb_Data : gmap string string; cb_BinaryData : gmap string string }.

(** The names of a ServiceAccount's image pull secrets. *)
Record AccountBody := { ab_ImagePullSecrets : list string }.

(** The rules of a Role. *)
Record RoleBody := { ro_Rules : list PolicyRule }.

Record Subject := { su_Kind : string; su_Name : string; su_Namespace : string }.
Record RoleRef := { rf_APIGroup : string; rf_Kind : string; rf_Name : string }.
Record BindingBody := { bi_Subjects : list Subject; bi_RoleRef : RoleRef }.

#[export] Instance Subject_eq_dec : EqDecision Subject.
Proof. solve_decision. Defined.
#[export] Instance RoleRef_eq_dec : EqDecision RoleRef.
Proof. solve_decision. Defined.

(** [corev1.PersistentVolumeClaimSpec]; the status is the phase. *)
Record ClaimSpec {Q : Type} := {
  pc_AccessModes : list string; pc_StorageClassName : option string; pc_Requests : gmap string Q }.
Arguments ClaimSpec : clear implicits.

(** ** The cluster *)

Abbreviation Tenant Q := (object (TenantSpec Q) (TenantStatus Q)) (only parsing).
(** A Namespace is its phase. *)
Abbreviation NamespaceObject := (object unit string) (only parsing).
Abbreviation Quota Q := (object (ElasticQuotaSpec Q) (gmap string Q)) (only parsing).
Abbreviation Secret := (object SecretBody unit) (only parsing).
Abbreviation Config := (object ConfigBody unit) (only parsing).
Abbreviation Account := (object AccountBody unit) (only parsing).
Abbreviation RoleObject := (object RoleBody unit) (only parsing).
Abbreviation RoleBinding := (object BindingBody unit) (only parsing).
Abbreviation Claim Q := (object (ClaimSpec Q) string) (only parsing).

Record tenancy {Q : Type} := {
  tn_Tenants : gmap key (Tenant Q);
  tn_Namespaces : gmap key NamespaceObject;
  tn_Quotas : gmap key (Quota Q);
  tn_Secrets : gmap key Secret;
  tn_ConfigMaps : gmap key Config;
  tn_Accounts : gmap key Account;
  tn_Roles : gmap key RoleObject;
  tn_Bindings : gmap key RoleBinding;
  tn_Claims : gmap key (Claim Q) }.
Arguments tenancy : clear implicits.

(** The patch of a spec nobody else changed gives what was asked for. *)
Definition replaces {B} (before after cur new : B) : Prop := cur = before -> new = after.

#[export] Instance tenant_kind Q : Kind (tenancy Q) (TenantSpec Q) (TenantStatus Q) := {|
  tab := tn_Tenants;
  set_tab t c := {| tn_Tenants := t; tn_Namespaces := tn_Namespaces c; tn_Quotas := tn_Quotas c; tn_Secrets :=
                   tn_Secrets c; tn_ConfigMaps := tn_ConfigMaps c; tn_Accounts := tn_Accounts c; tn_Roles := tn_Roles c;
                   tn_Bindings := tn_Bindings c; tn_Claims := tn_Claims c |};
  zero_status := TenantStatus_zero;
  defaulted := eq;
  spec_merged := replaces |}.

(** A new Namespace is Active. *)
#[export] Instance namespace_kind Q : Kind (tenancy Q) unit string := {|
  tab := tn_Namespaces;
  set_tab t c := {| tn_Tenants := tn_Tenants c; tn_Namespaces := t; tn_Quotas := tn_Quotas c; tn_Secrets := tn_Secrets
                   c; tn_ConfigMaps := tn_ConfigMaps c; tn_Accounts := tn_Accounts c; tn_Roles := tn_Roles c;
                   tn_Bindings := tn_Bindings c; tn_Claims := tn_Claims c |};
  zero_status := "Active";
  defaulted := eq;
  spec_merged := replaces |}.

#[export] Instance quota_kind Q : Kind (tenancy Q) (ElasticQuotaSpec Q) (gmap string Q) := {|
  tab := tn_Quotas;
  set_tab t c := {| tn_Tenants := tn_Tenants c; tn_Namespaces := tn_Namespaces c; tn_Quotas := t; tn_Secrets :=
                   tn_Secrets c; tn_ConfigMaps := tn_ConfigMaps c; tn_Accounts := tn_Accounts c; tn_Roles := tn_Roles c;
                   tn_Bindings := tn_Bindings c; tn_Claims := tn_Claims c |};
  zero_status := ∅;
  defaulted := eq;
  spec_merged := replaces |}.

(** A Secret without a type is given one. *)
Definition secret_as (b b' : SecretBody) : Prop :=
  sb_Data b' = sb_Data b /\ (sb_Type b <> "" -> sb_Type b' = sb_Type b).

#[export] Instance secret_kind Q : Kind (tenancy Q) SecretBody unit := {|
  tab := tn_Secrets;
  set_tab t c := {| tn_Tenants := tn_Tenants c; tn_Namespaces := tn_Namespaces c; tn_Quotas := tn_Quotas c; tn_Secrets
                   := t; tn_ConfigMaps := tn_ConfigMaps c; tn_Accounts := tn_Accounts c; tn_Roles := tn_Roles c;
                   tn_Bindings := tn_Bindings c; tn_Claims := tn_Claims c |};
  zero_status := tt;
  defaulted := secret_as;
  spec_merged := replaces |}.

#[export] Instance config_kind Q : Kind (tenancy Q) ConfigBody unit := {|
  tab := tn_ConfigMaps;
  set_tab t c := {| tn_Tenants := tn_Tenants c; tn_Namespaces := tn_Namespaces c; tn_Quotas := tn_Quotas c; tn_Secrets
                   := tn_Secrets c; tn_ConfigMaps := t; tn_Accounts := tn_Accounts c; tn_Roles := tn_Roles c;
                   tn_Bindings := tn_Bindings c; tn_Claims := tn_Claims c |};
  zero_status := tt;
  defaulted := eq;
  spec_merged := replaces |}.

#[export] Instance account_kind Q : Kind (tenancy Q) AccountBody unit := {|
  tab := tn_Accounts;
  set_tab t c := {| tn_Tenants := tn_Tenants c; tn_Namespaces := tn_Namespaces c; tn_Quotas := tn_Quotas c; tn_Secrets
                   := tn_Secrets c; tn_ConfigMaps := tn_ConfigMaps c; tn_Accounts := t; tn_Roles := tn_Roles c;
                   tn_Bindings := tn_Bindings c; tn_Claims := tn_Claims c |};
  zero_status := tt;
  defaulted := eq;
  spec_merged := replaces |}.

(** The rules of a Role are one list: a merge patch replaces it as a whole or
    does not mention it. *)
#[export] Instance role_kind Q : Kind (tenancy Q) RoleBody unit := {|
  tab := tn_Roles;
  set_tab t c := {| tn_Tenants := tn_Tenants c; tn_Namespaces := tn_Namespaces c; tn_Quotas := tn_Quotas c; tn_Secrets
                   := tn_Secrets c; tn_ConfigMaps := tn_ConfigMaps c; tn_Accounts := tn_Accounts c; tn_Roles := t;
                   tn_Bindings := tn_Bindings c; tn_Claims := tn_Claims c |};
  zero_status := tt;
  defaulted := eq;
  spec_merged before after cur new := replaces before after cur new /\ (new = cur \/ new = after) |}.

#[export] Instance binding_kind Q : Kind (tenancy Q) BindingBody unit := {|
  tab := tn_Bindings;
  set_tab t c := {| tn_Tenants := tn_Tenants c; tn_Namespaces := tn_Namespaces c; tn_Quotas := tn_Quotas c; tn_Secrets
                   := tn_Secrets c; tn_ConfigMaps := tn_ConfigMaps c; tn_Accounts := tn_Accounts c; tn_Roles := tn_Roles
                   c; tn_Bindings := t; tn_Claims := tn_Claims c |};
  zero_status := tt;
  defaulted := eq;
  spec_merged := replaces |}.

(** A claim without a storage class is given the default one. *)
Definition claim_as {Q} (b b' : ClaimSpec Q) : Prop :=
  pc_AccessModes b' = pc_AccessModes b /\ pc_Requests b' = pc_Requests b /\
  kept (pc_StorageClassName b) (pc_StorageClassName b').

#[export] Instance claim_kind Q : Kind (tenancy Q) (ClaimSpec Q) string := {|
  tab := tn_Claims;
  set_tab t c := {| tn_Tenants := tn_Tenants c; tn_Namespaces := tn_Namespaces c; tn_Quotas := tn_Quotas c; tn_Secrets
                   := tn_Secrets c; tn_ConfigMaps := tn_ConfigMaps c; tn_Accounts := tn_Accounts c; tn_Roles := tn_Roles
                   c; tn_Bindings := tn_Bindings c; tn_Claims := t |};
  zero_status := "Pending";
  defaulted := claim_as;
  spec_merged := replaces |}.

(** The writes of the operator, and the reads it makes of the API server. *)
Class TenantClient (Q K : Type) := {
  tc_tenants :: Client K (TenantSpec Q) (TenantStatus Q);
  tc_namespaces :: Client K unit string;
  tc_quotas :: Client K (ElasticQuotaSpec Q) (gmap string Q);
  tc_secrets :: Client K SecretBody unit;
  tc_configs :: Client K ConfigBody unit;
  tc_accounts :: Client K AccountBody unit;
  tc_roles :: Client K RoleBody unit;
  tc_bindings :: Client K BindingBody unit;
  tc_claims :: Client K (ClaimSpec Q) string }.

(** The reads it makes of its cache. *)
Class TenantCache (Q K : Type) := {
  ca_tenants :: CachedReader K (TenantSpec Q) (TenantStatus Q);
  ca_namespaces :: CachedReader K unit string;
  ca_quotas :: CachedReader K (ElasticQuotaSpec Q) (gmap string Q);
  ca_secrets :: CachedReader K SecretBody unit;
  ca_configs :: CachedReader K ConfigBody unit;
  ca_accounts :: CachedReader K AccountBody unit;
  ca_roles :: CachedReader K RoleBody unit;
  ca_bindings :: CachedReader K BindingBody unit }.

(** [CacheByObject]: of six kinds the cache holds the managed objects only. *)
Definition managed {B S} (o : object B S) : bool := bool_decide (ob_Labels o !! LabelManagedBy = Some ManagedByValue).

Definition any {B S} (o : object B S) : bool := true.

Class TenantLaws {Q K : Type} `{!TenantClient Q K} `{!TenantCache Q K} (objects : K -> tenancy Q)
    (rely : tenancy Q -> tenancy Q -> Prop) := {
  tl_tenants :: ClientLaws (B := TenantSpec Q) (S := TenantStatus Q) objects rely;
  tl_namespaces :: ClientLaws (B := unit) (S := string) objects rely;
  tl_quotas :: ClientLaws (B := ElasticQuotaSpec Q) (S := gmap string Q) objects rely;
  tl_secrets :: ClientLaws (B := SecretBody) (S := unit) objects rely;
  tl_configs :: ClientLaws (B := ConfigBody) (S := unit) objects rely;
  tl_accounts :: ClientLaws (B := AccountBody) (S := unit) objects rely;
  tl_roles :: ClientLaws (B := RoleBody) (S := unit) objects rely;
  tl_bindings :: ClientLaws (B := BindingBody) (S := unit) objects rely;
  tl_claims :: ClientLaws (B := ClaimSpec Q) (S := string) objects rely;
  (** claims are read with the APIReader, from the API server *)
  tl_claims_read :: CurrentGets (B := ClaimSpec Q) (S := string) objects rely;
  tk_tenants :: CachedLaws (B := TenantSpec Q) (S := TenantStatus Q) any objects rely;
  tk_namespaces :: CachedLaws (B := unit) (S := string) any objects rely;
  tk_quotas :: CachedLaws (B := ElasticQuotaSpec Q) (S := gmap string Q) managed objects rely;
  tk_secrets :: CachedLaws (B := SecretBody) (S := unit) managed objects rely;
  tk_configs :: CachedLaws (B := ConfigBody) (S := unit) managed objects rely;
  tk_accounts :: CachedLaws (B := AccountBody) (S := unit) managed objects rely;
  tk_roles :: CachedLaws (B := RoleBody) (S := unit) managed objects rely;
  tk_bindings :: CachedLaws (B := BindingBody) (S := unit) managed objects rely }.

(** What the cache returns of these kinds is current. *)
Class TenantCurrent {Q K : Type} `{!TenantCache Q K} (objects : K -> tenancy Q) (rely : tenancy Q -> tenancy Q -> Prop) := {
  tn_current :: CurrentCache (B := TenantSpec Q) (S := TenantStatus Q) any objects rely;
  tn_quotas_current :: CurrentCache (B := ElasticQuotaSpec Q) (S := gmap string Q) managed objects rely;
  tn_secrets_current :: CurrentCache (B := SecretBody) (S := unit) managed objects rely;
  tn_configs_current :: CurrentCache (B := ConfigBody) (S := unit) managed objects rely;
  tn_accounts_current :: CurrentCache (B := AccountBody) (S := unit) managed objects rely }.

(** A cache whose lists of the operator's kinds have caught up. *)
Class TenantCaughtUp {Q K : Type} `{!TenantCache Q K} (objects : K -> tenancy Q) (rely : tenancy Q -> tenancy Q -> Prop) := {
  tu_quotas :: CaughtUp (B := ElasticQuotaSpec Q) (S := gmap string Q) managed objects rely;
  tu_secrets :: CaughtUp (B := SecretBody) (S := unit) managed objects rely;
  tu_configs :: CaughtUp (B := ConfigBody) (S := unit) managed objects rely;
  tu_accounts :: CaughtUp (B := AccountBody) (S := unit) managed objects rely }.

(** ** Code outside the repository *)

(** Two resource lists with the same names and values. *)
Definition same_quantities {Q} `{!Quantity Q} `{!QuantityLaws Q} (a b : gmap string Q) : Prop :=
  forall r, q_val <$> a !! r = q_val <$> b !! r.

Class TenantMachinery (Q : Type) `{!Quantity Q} `{!QuantityLaws Q} := {
  (** [resource.ParseQuantity] *)
  ParseQuantity : string -> Q + string;
  (** [equality.Semantic.DeepEqual] on resource lists *)
  lists_equal : gmap string Q -> gmap string Q -> bool;
  lists_equal_spec a b : lists_equal a b = true <-> same_quantities a b;
  (** [metav1.GetControllerOf] *)
  ControllerOf : list OwnerReference -> option OwnerReference;
  controller_of refs r : ControllerOf refs = Some r -> r ∈ refs /\ ow_Controller r = true;
  (** [controllerutil.SetControllerReference]: the owner becomes the controller;
      an object with a controller of another name is refused *)
  SetController : Meta -> list OwnerReference -> list OwnerReference + api_error;
  set_controller_ok m refs refs' : SetController m refs = inl refs' ->
    exists r, ControllerOf refs' = Some r /\ ow_UID r = me_UID m;
  set_controller_other m refs r : ControllerOf refs = Some r -> ow_Name r <> om_Name (me_Obj m) ->
    exists e, SetController m refs = inr e }.
