(* ===== verification/TenantValidate.v ===== *)
(** * Tenant operator: validation and configuration

    [tenant-operator/internal/validate/validate.go] and
    [internal/config/config.go].  A check returns the message of the first
    problem it finds.  Where the code ranges over a map, which problem comes
    first is up to the runtime; the model takes the order of the map's keys,
    so only the wording of a refusal is fixed here, never the refusal. *)

From Stdlib Require Import ssreflect ZArith Ascii String Lia.
From stdpp Require Import base gmap list strings.
From S2P Require Import Prelude Placement ApiTypes Names Strconv Kube OperatorTypes TenantTypes.

Open Scope string_scope.
Open Scope list_scope.

(** ** Early returns *)

(** [if err := ...; err != nil { return err }], one after the other. *)
Fixpoint first_of (checks : list (option string)) : option string :=
  match checks with [] => None | Some e :: _ => Some e | None :: rest => first_of rest end.

(** A loop over indices and elements that returns at the first error. *)
Fixpoint first_at {A} (f : nat -> A -> option string) (i : nat) (l : list A) : option string :=
  match l with [] => None | a :: rest => first_of [f i a; first_at f (S i) rest] end.

Definition when (b : bool) (e : string) : option string := if b then Some e else None.

Definition quoted (s : string) : string := "'" +:+ s +:+ "'".

(** ** Metadata and namespace *)

(** [Options]: the namespaces tenants must not use. *)
Record Options := { op_NamespaceDenylist : gset string }.

(** The expression [^[a-z0-9]([-a-z0-9]*[a-z0-9])?$]. *)
Definition dns1123LabelRegex (s : string) : bool :=
  match list_ascii_of_string s with
  | [] => false
  | c :: rest => is_alnum c && match rest with [] => true | d :: _ => forallb is_name_char rest && is_alnum (List.last rest d) end
  end.

(** [ValidateMeta] *)
Definition ValidateMeta (labels : gmap string string) : option string :=
  when (String.eqb (map_get "" labels LabelTenantID) "") ("metadata.labels[" +:+ quoted LabelTenantID +:+ "] is required").

(** [validateNamespace] *)
Definition validateNamespace (ns : NamespaceSpec) (opts : Options) : option string :=
  let name := nsp_Name ns in
  let field := "spec.namespace.name " +:+ quoted name in
  first_of [when (String.eqb name "") "spec.namespace.name is required";
            when (63 <? String.length name)%nat (field +:+ " exceeds 63 characters");
            when (negb (dns1123LabelRegex name)) (field +:+ " is not a valid DNS-1123 label");
            when (bool_decide (name ∈ op_NamespaceDenylist opts)) (field +:+ " is in the controller denylist")].

(** ** Quotas *)

Section Quotas.
Context {Q : Type} `{!Quantity Q} `{!QuantityLaws Q} `{!TenantMachinery Q}.

Definition negative (q : Q) : bool := (q_sign q <? 0)%Z.

(** One entry of [min] in [validateMinMax]. *)
Definition min_error (path : string) (max : gmap string Q) (kv : string * Q) : option string :=
  let '(k, v) := kv in
  first_of [when (negative v) (path +:+ ".min[" +:+ k +:+ "] is negative");
            match max !! k with
            | None => Some (path +:+ ".max is missing key " +:+ k +:+ " present in min")
            | Some mv => when (match q_cmp v mv with Gt => true | _ => false end)
                           (path +:+ ".min[" +:+ k +:+ "] exceeds max[" +:+ k +:+ "]")
            end].

(** [validateMinMax] *)
Definition validateMinMax (idx : nat) (min max : gmap string Q) : option string :=
  let path := at_index "spec.quotas" idx in
  first_of (map (fun kv => when (negative kv.2) (path +:+ ".max[" +:+ kv.1 +:+ "] is negative")) (map_to_list max) ++
            map (min_error path max) (map_to_list min)).

(** The loop of [validateQuotas]. *)
Fixpoint quota_errors (i : nat) (seen : gset string) (quotas : list (QuotaSpec Q)) : option string :=
  match quotas with
  | [] => None
  | q :: rest =>
      let path := at_index "spec.quotas" i in
      first_of [when (String.eqb (qsp_Pool q) "") (path +:+ ".pool is required");
                when (bool_decide (qsp_Pool q ∈ seen)) (path +:+ " duplicates pool " +:+ qsp_Pool q);
                match qsp_Max q with
                | None => Some (path +:+ ".max is required")
                | Some max => validateMinMax i (qsp_Min q) max
                end;
                quota_errors (S i) ({[qsp_Pool q]} ∪ seen) rest]
  end.

(** [validateQuotas] *)
Definition validateQuotas (quotas : list (QuotaSpec Q)) : option string := quota_errors 0 ∅ quotas.

(** ** Init resources *)

(** [uniqueNames]: the error; the set it returns is that of the names. *)
Fixpoint unique_from (path : string) (i : nat) (seen : gset string) (names : list string) : option string :=
  match names with
  | [] => None
  | n :: rest =>
      first_of [when (String.eqb n "") (at_index path i +:+ ".name is required");
                when (bool_decide (n ∈ seen)) (at_index path i +:+ ".name " +:+ quoted n +:+ " is duplicated");
                unique_from path (S i) ({[n]} ∪ seen) rest]
  end.

Definition uniqueNames (field : string) (names : list string) : gset string + string :=
  match unique_from ("spec.initResources." +:+ field) 0 ∅ names with Some e => inr e | None => inl (list_to_set names) end.

(** The loop of [validateVolumes]. *)
Fixpoint volume_errors (i : nat) (seen : gset string) (vols : list VolumeSpec) : option string :=
  match vols with
  | [] => None
  | v :: rest =>
      let path := at_index "spec.initResources.volumes" i in
      first_of [when (String.eqb (vol_Name v) "") (path +:+ ".name is required");
                when (negb (String.eqb (vol_HostPath v) ""))
                  (path +:+ " uses hostPath, which is not supported in a multi-tenant Kubernetes deployment");
                when ((63 <? String.length (vol_Name v))%nat || negb (dns1123LabelRegex (vol_Name v)))
                  (path +:+ ".name " +:+ quoted (vol_Name v) +:+ " is not a valid DNS-1123 label");
                when (bool_decide (vol_Name v ∈ seen)) (path +:+ ".name " +:+ quoted (vol_Name v) +:+ " is duplicated");
                when (String.eqb (vol_Size v) "") (path +:+ ".size is required");
                match ParseQuantity (vol_Size v) with
                | inr e => Some (path +:+ ".size " +:+ quoted (vol_Size v) +:+ " is not a valid quantity: " +:+ e)
                | inl q => when (q_sign q <=? 0)%Z (path +:+ ".size " +:+ quoted (vol_Size v) +:+ " must be > 0")
                end;
                volume_errors (S i) ({[vol_Name v]} ∪ seen) rest]
  end.

(** [validateVolumes] *)
Definition validateVolumes (vols : list VolumeSpec) : option string := volume_errors 0 ∅ vols.

(** ** RBAC rules *)

Definition escalationVerbs : list string := ["escalate"; "bind"; "impersonate"].
Definition rbacResources : list string := ["roles"; "rolebindings"; "clusterroles"; "clusterrolebindings"].
Definition writeVerbs : list string := ["create"; "update"; "patch"; "delete"; "deletecollection"].

Definition lower (s : string) : string := string_of_list_ascii (ToLower (list_ascii_of_string s)).

(** [toLowerSet] *)
Definition toLowerSet (l : list string) : gset string := list_to_set (map lower l).

(** [setHas] *)
Definition setHas (set : gset string) (k : string) : bool := bool_decide (k ∈ set).

(** [pickVerb] *)
Definition pickVerb (verbs : gset string) (candidate : string) (wildcard : bool) : string :=
  if setHas verbs candidate then candidate else if wildcard then "*" else candidate.

(** The loop body of [validateRBACRules]. *)
Definition rule_error (path : string) (rule : PolicyRule) : option string :=
  let verbs := toLowerSet (ru_Verbs rule) in
  let groups := toLowerSet (ru_APIGroups rule) in
  let resources := toLowerSet (ru_Resources rule) in
  let wildcardVerb := setHas verbs "*" in
  let touchesRBAC := setHas groups "rbac.authorization.k8s.io" || setHas groups "*" in
  let rbacResource := setHas resources "*" || existsb (setHas resources) rbacResources in
  first_of (
    map (fun v => when (setHas verbs v || wildcardVerb)
      (path +:+ " grants the " +:+ quoted (pickVerb verbs v wildcardVerb) +:+
       " verb, which would let the tenant escalate privileges")) escalationVerbs ++
    map (fun w => when (touchesRBAC && rbacResource && (setHas verbs w || wildcardVerb))
      (path +:+ " grants write access to RBAC resources, which would let the tenant grant itself more permissions"))
      writeVerbs ++
    [when (setHas groups "*" && setHas resources "*" && wildcardVerb)
      (path +:+ " is a full wildcard (apiGroups/resources/verbs all '*'), granting namespace-admin")]).

(** [validateRBACRules] *)
Definition validateRBACRules (saIdx : nat) (rules : list PolicyRule) : option string :=
  first_at (fun j => rule_error (at_index (at_index "spec.initResources.serviceAccounts" saIdx +:+ ".rbac.rules") j)) 0 rules.

(** The checks of [rbac.roleRef]. *)
Definition role_ref_error (path : string) (ref : RBACRoleRef) : option string :=
  first_of [when (negb (String.eqb (rr_Kind ref) "Role" || String.eqb (rr_Kind ref) "ClusterRole"))
              (path +:+ ".rbac.roleRef.kind " +:+ quoted (rr_Kind ref) +:+ " must be Role or ClusterRole");
            when (String.eqb (rr_Name ref) "") (path +:+ ".rbac.roleRef.name is required when roleRef is set")].

(** The loop body over the ServiceAccounts. *)
Definition account_error (pullNames : gset string) (i : nat) (sa : ServiceAccountSpec) : option string :=
  let path := at_index "spec.initResources.serviceAccounts" i in
  first_of [when (String.eqb (sas_Name sa) "") (path +:+ ".name is required");
            first_at (fun j ref => when (bool_decide (ref ∉ pullNames))
              (at_index (path +:+ ".imagePullSecrets") j +:+ "=" +:+ quoted ref +:+
               " is not declared in spec.initResources.imagePullSecrets[]")) 0 (sas_ImagePullSecrets sa);
            match sas_RBAC sa with
            | None => None
            | Some rbac => first_of [match rb_RoleRef rbac with None => None | Some ref => role_ref_error path ref end;
                                     validateRBACRules i (rb_Rules rbac)]
            end].

(** [validateInitResources] *)
Definition validateInitResources (ir : InitResources) : option string :=
  match uniqueNames "imagePullSecrets" (map ips_Name (ir_ImagePullSecrets ir)) with
  | inr e => Some e
  | inl pullNames =>
      match uniqueNames "secrets" (map sxs_Name (ir_Secrets ir)) with
      | inr e => Some e
      | inl secretNames =>
          let names field l := match uniqueNames field l with inr e => Some e | inl _ => None end in
          first_of (
            map (fun n => when (bool_decide (n ∈ pullNames))
              ("spec.initResources.secrets[].name " +:+ quoted n +:+
               " collides with spec.initResources.imagePullSecrets[]: each name must be unique across both lists"))
              (elements secretNames) ++
            [names "configMaps" (map cms_Name (ir_ConfigMaps ir));
             names "serviceAccounts" (map sas_Name (ir_ServiceAccounts ir));
             validateVolumes (ir_Volumes ir);
             first_at (account_error pullNames) 0 (ir_ServiceAccounts ir)])
      end
  end.

(** [Validate] *)
Definition Validate (spec : TenantSpec Q) (opts : Options) : option string :=
  first_of [validateNamespace (tns_Namespace spec) opts; validateQuotas (tns_Quotas spec);
            validateInitResources (tns_InitResources spec)].
End Quotas.

(** [DefaultNamespaceDenylist] *)
Definition DefaultNamespaceDenylist : gset string :=
  list_to_set ["kube-system"; "kube-public"; "kube-node-lease"; "default"; "axisml-system"; "axisml-infra"].

(** ** Configuration *)

(** [Config]; a duration in nanoseconds. *)
Record Config := { co_ResyncPeriod : Z; co_NamespaceDenylist : gset string }.

Definition defaultResyncPeriod : Z := 600 * 1000000000.

(** [parseDenylist] *)
Definition parseDenylist (s : string) : gset string :=
  list_to_set (List.filter (fun n => negb (String.eqb n ""))
    (map (fun item => string_of_list_ascii (TrimSpace item)) (SplitComma (list_ascii_of_string s)))).

(** [Load], over [os.Getenv] and [time.ParseDuration]. *)
Definition Load (Getenv : string -> string) (ParseDuration : string -> option Z) : Config :=
  let resync := Getenv "AXISML_RESYNC_PERIOD" in
  let denied := Getenv "AXISML_NAMESPACE_DENYLIST" in
  {| co_ResyncPeriod :=
       if String.eqb resync "" then defaultResyncPeriod
       else match ParseDuration resync with
            | Some d => if (0 <? d)%Z then d else defaultResyncPeriod
            | None => defaultResyncPeriod
            end;
     co_NamespaceDenylist := if String.eqb denied "" then DefaultNamespaceDenylist else parseDenylist denied |}.

(** ** What an accepted rule grants *)

(** Kubernetes RBAC: a rule grants a request when it names the verb, the API
    group and the resource, or has a star in their place. *)
Definition names_or_all (l : list string) (x : string) : Prop := x ∈ l \/ "*" ∈ l.

Definition grants (rules : list PolicyRule) (verb group resource : string) : Prop :=
  exists rule, rule ∈ rules /\ names_or_all (ru_Verbs rule) verb /\ names_or_all (ru_APIGroups rule) group /\
    names_or_all (ru_Resources rule) resource.

(** Requests with which an account could widen its own rights. *)
Definition escalates (verb group resource : string) : Prop :=
  verb ∈ escalationVerbs \/
  (verb ∈ writeVerbs /\ group = "rbac.authorization.k8s.io" /\ resource ∈ rbacResources).

Definition harmless (rules : list PolicyRule) : Prop :=
  forall verb group resource, grants rules verb group resource -> ~ escalates verb group resource.

Lemma first_of_none l : first_of l = None <-> Forall (fun o => o = None) l.
Proof. induction l as [| [e |] l IH]; simpl; rw ?Forall_cons; [done | naive_solver | naive_solver]. Qed.

Lemma first_of_map {A} (f : A -> option string) l : first_of (map f l) = None <-> forall a, a ∈ l -> f a = None.
Proof. rw first_of_none Forall_fmap Forall_forall. done. Qed.

Lemma first_of_app a b : first_of (a ++ b) = None <-> first_of a = None /\ first_of b = None.
Proof. rw !first_of_none Forall_app. done. Qed.

Lemma first_of_cons a b : first_of (a :: b) = None <-> a = None /\ first_of b = None.
Proof. by rw !first_of_none Forall_cons. Qed.

Lemma first_at_none {A} (f : nat -> A -> option string) l : forall i,
  first_at f i l = None <-> forall j a, l !! j = Some a -> f (i + j)%nat a = None.
Proof.
  induction l as [| a l IH]; intros i; [by split |]. cbn [first_at]. rw !first_of_cons IH. split.
  - intros (H0 & Hr & _) [| j] b Hb; [simplify_eq/=; by rw Nat.add_0_r |]. rw Nat.add_succ_r. by apply (Hr j).
  - intros H. split_and!; [by rw -(Nat.add_0_r i); apply (H 0%nat) | intros j b Hb | done]. rw Nat.add_succ_comm. by apply H.
Qed.

Lemma when_none b e : when b e = None <-> b = false.
Proof. by destruct b. Qed.

Lemma lower_has l x : lower x = x -> x ∈ l -> setHas (toLowerSet l) x = true.
Proof. intros Hx Hin. apply bool_decide_eq_true, elem_of_list_to_set, list_elem_of_fmap. by exists x. Qed.

Lemma rule_harmless path rule : rule_error path rule = None -> harmless [rule].
Proof.
  rw /rule_error !first_of_app !first_of_map. intros (Hesc & Hwr & _) verb group resource (r & ->%list_elem_of_singleton & Hv & Hg & Hr).
  assert (Hverb : forall v, v ∈ escalationVerbs ++ writeVerbs -> names_or_all (ru_Verbs rule) v ->
    setHas (toLowerSet (ru_Verbs rule)) v || setHas (toLowerSet (ru_Verbs rule)) "*" = true).
  { intros v Hin [Hn | Hs]; apply orb_true_iff; [left | right; by apply lower_has].
    apply lower_has; [| done]. by repeat (apply elem_of_cons in Hin as [-> | Hin]; [vm_compute; reflexivity |]); apply not_elem_of_nil in Hin. }
  intros [He | (Hw & -> & Hres)].
  - specialize (Hesc verb He). apply when_none in Hesc. rw Hverb // in Hesc. apply elem_of_app; by left.
  - specialize (Hwr verb Hw). apply when_none in Hwr. rw (Hverb verb) // in Hwr; [apply elem_of_app; by right |].
    rw andb_true_r in Hwr. apply andb_false_iff in Hwr as [Hx | Hx]; apply orb_false_iff in Hx as [Hx1 Hx2].
    + destruct Hg as [Hg | Hg]; [rw (lower_has _ _ eq_refl Hg) // in Hx1 | rw (lower_has _ _ eq_refl Hg) // in Hx2].
    + destruct Hr as [Hr | Hr]; [| rw (lower_has _ _ eq_refl Hr) // in Hx1].
      assert (existsb (setHas (toLowerSet (ru_Resources rule))) rbacResources = true) as Ht; [| by rw Ht in Hx2].
      apply existsb_exists. exists resource. split; [by apply list_elem_of_In |]. apply lower_has; [| done].
      by repeat (apply elem_of_cons in Hres as [-> | Hres]; [vm_compute; reflexivity |]); apply not_elem_of_nil in Hres.
Qed.

Lemma rules_harmless i rules : validateRBACRules i rules = None -> harmless rules.
Proof.
  rw /validateRBACRules first_at_none. intros H verb group resource (r & Hin & Hg).
  apply list_elem_of_lookup in Hin as [j Hj]. apply H, rule_harmless in Hj. apply Hj. exists r. by rw list_elem_of_singleton.
Qed.

(** ** A valid tenant *)

Definition valid_namespace (opts : Options) (ns : NamespaceSpec) : Prop :=
  (String.length (nsp_Name ns) <= 63)%nat /\ dns1123LabelRegex (nsp_Name ns) = true /\ nsp_Name ns ∉ op_NamespaceDenylist opts.

(** Names that are set and distinct. *)
Definition good_names (names : list string) : Prop := "" ∉ names /\ NoDup names.

(** A rule that is not acceptable, whatever the case of its words. *)
Definition refused_rule (r : PolicyRule) : Prop :=
  (exists v, v ∈ ru_Verbs r /\ lower v ∈ "*" :: escalationVerbs) \/
  ((exists v, v ∈ ru_Verbs r /\ lower v ∈ writeVerbs) /\
   (exists g, g ∈ ru_APIGroups r /\ lower g ∈ ["*"; "rbac.authorization.k8s.io"]) /\
   (exists s, s ∈ ru_Resources r /\ lower s ∈ "*" :: rbacResources)).

Definition valid_rbac (rbac : RBACSpec) : Prop :=
  (forall ref, rb_RoleRef rbac = Some ref -> (rr_Kind ref = "Role" \/ rr_Kind ref = "ClusterRole") /\ rr_Name ref <> "") /\
  Forall (fun r => ~ refused_rule r) (rb_Rules rbac).

Definition valid_account (pulls : list string) (sa : ServiceAccountSpec) : Prop :=
  (forall ref, ref ∈ sas_ImagePullSecrets sa -> ref ∈ pulls) /\ (forall rbac, sas_RBAC sa = Some rbac -> valid_rbac rbac).

Section Valid.
Context {Q : Type} `{!Quantity Q} `{!QuantityLaws Q} `{!TenantMachinery Q}.

Definition valid_quota (q : QuotaSpec Q) : Prop :=
  exists max, qsp_Max q = Some max /\ (forall r m, max !! r = Some m -> 0 <= q_val m)%Z /\
    (forall r v, qsp_Min q !! r = Some v -> 0 <= q_val v /\ exists m, max !! r = Some m /\ q_val v <= q_val m)%Z.

Definition valid_volume (v : VolumeSpec) : Prop :=
  vol_HostPath v = "" /\ (String.length (vol_Name v) <= 63)%nat /\ dns1123LabelRegex (vol_Name v) = true /\ vol_Size v <> "" /\
  exists q, ParseQuantity (vol_Size v) = inl q /\ (0 < q_val q)%Z.

Record valid_tenant (opts : Options) (spec : TenantSpec Q) : Prop := {
  vt_namespace : valid_namespace opts (tns_Namespace spec);
  vt_pools : good_names (map qsp_Pool (tns_Quotas spec));
  vt_quotas : Forall valid_quota (tns_Quotas spec);
  (** image pull secrets and secrets become objects of one kind *)
  vt_secrets : good_names (map ips_Name (ir_ImagePullSecrets (tns_InitResources spec)) ++
                           map sxs_Name (ir_Secrets (tns_InitResources spec)));
  vt_configmaps : good_names (map cms_Name (ir_ConfigMaps (tns_InitResources spec)));
  vt_accounts : good_names (map sas_Name (ir_ServiceAccounts (tns_InitResources spec)));
  vt_volume_names : good_names (map vol_Name (ir_Volumes (tns_InitResources spec)));
  vt_volumes : Forall valid_volume (ir_Volumes (tns_InitResources spec));
  vt_access : Forall (valid_account (map ips_Name (ir_ImagePullSecrets (tns_InitResources spec))))
                (ir_ServiceAccounts (tns_InitResources spec)) }.

Lemma unique_from_none path names : forall i seen,
  unique_from path i seen names = None <-> good_names names /\ (forall n, n ∈ names -> n ∉ seen).
Proof.
  induction names as [| n names IH]; intros i seen.
  { split; [intros _; split; [split; [apply not_elem_of_nil | constructor] | set_solver] | done]. }
  cbn [unique_from]. rw !first_of_cons !when_none IH String.eqb_neq bool_decide_eq_false /good_names NoDup_cons. set_solver.
Qed.

Lemma uniqueNames_ok field names s : uniqueNames field names = inl s <-> good_names names /\ s = list_to_set names.
Proof.
  rw /uniqueNames. pose proof (unique_from_none ("spec.initResources." +:+ field) names 0 ∅) as H.
  destruct (unique_from _ _ _ names) as [e |].
  - split; [done |]. intros [Hg _]. destruct H as [_ H]. by discriminate H; split; [| set_solver].
  - destruct H as [H _]. destruct (H eq_refl) as [Hg _]. naive_solver.
Qed.

Lemma validateMinMax_none i (min max : gmap string Q) :
  validateMinMax i min max = None <->
  (forall r m, max !! r = Some m -> 0 <= q_val m)%Z /\
  (forall r v, min !! r = Some v -> 0 <= q_val v /\ exists m, max !! r = Some m /\ q_val v <= q_val m)%Z.
Proof.
  rw /validateMinMax first_of_app !first_of_map /negative. setoid_rewrite when_none.
  assert (forall q, (q_sign q <? 0)%Z = false <-> (0 <= q_val q)%Z) as Hn by (intros q; rw q_sign_val Z.ltb_ge; lia).
  apply ZifyClasses.and_morph.
  - split; [intros H r m Hl; apply Hn, (H (r, m)); by apply elem_of_map_to_list |].
    intros H [r m] Hin%elem_of_map_to_list. by apply Hn, (H r).
  - split.
    + intros H r v Hl. specialize (H (r, v)). rw elem_of_map_to_list in H. specialize (H Hl). rw /min_error !first_of_cons when_none Hn in H.
      destruct H as (Hv & Hm & _). split; [done |]. destruct (max !! r) as [m |]; [| done]. exists m. split; [done |].
      apply when_none in Hm. rw q_cmp_val in Hm. by destruct (Z.compare_spec (q_val v) (q_val m)); [lia | lia |].
    + intros H [r v] Hin%elem_of_map_to_list. destruct (H r v Hin) as (Hv & m & Hm & Hle).
      rw /min_error !first_of_cons when_none Hn Hm when_none q_cmp_val. split_and!; [done | | done].
      destruct (Z.compare_spec (q_val v) (q_val m)); [done | done | lia].
Qed.

Lemma quota_errors_none quotas : forall i seen,
  quota_errors i seen quotas = None <->
  good_names (map qsp_Pool quotas) /\ Forall valid_quota quotas /\ (forall n, n ∈ map qsp_Pool quotas -> n ∉ seen).
Proof.
  induction quotas as [| q quotas IH]; intros i seen.
  { split; [intros _; split_and!; [split; [apply not_elem_of_nil | constructor] | constructor | set_solver] | done]. }
  cbn [quota_errors map]. rw !first_of_cons !when_none IH String.eqb_neq bool_decide_eq_false /good_names NoDup_cons Forall_cons.
  assert (match qsp_Max q with None => Some (at_index "spec.quotas" i +:+ ".max is required") | Some max => validateMinMax i (qsp_Min q) max end
    = None <-> valid_quota q) as ->; [| set_solver].
  rw /valid_quota. destruct (qsp_Max q) as [max |]; [rw validateMinMax_none; naive_solver | naive_solver].
Qed.

Lemma volume_errors_none vols : forall i seen,
  volume_errors i seen vols = None <->
  good_names (map vol_Name vols) /\ Forall valid_volume vols /\ (forall n, n ∈ map vol_Name vols -> n ∉ seen).
Proof.
  induction vols as [| v vols IH]; intros i seen.
  { split; [intros _; split_and!; [split; [apply not_elem_of_nil | constructor] | constructor | set_solver] | done]. }
  cbn [volume_errors map]. rw !first_of_cons !when_none IH !String.eqb_neq bool_decide_eq_false /good_names NoDup_cons Forall_cons.
  assert ((negb (String.eqb (vol_HostPath v) "") = false /\
    (63 <? String.length (vol_Name v))%nat || negb (dns1123LabelRegex (vol_Name v)) = false /\ vol_Size v <> "" /\
    match ParseQuantity (vol_Size v) with
    | inr e => Some (at_index "spec.initResources.volumes" i +:+ ".size " +:+ quoted (vol_Size v) +:+ " is not a valid quantity: " +:+ e)
    | inl q => when (q_sign q <=? 0)%Z (at_index "spec.initResources.volumes" i +:+ ".size " +:+ quoted (vol_Size v) +:+ " must be > 0")
    end = None) <-> valid_volume v) as Hv; last first.
  { split.
    - intros (? & Hh & Hl & Hs & Hz & Hp & ((? & ?) & ? & Hseen) & _). assert (valid_volume v) by (by apply Hv).
      split_and!; try done; set_solver.
    - intros ((Hin & Hnin & ?) & [[Hh [Hl [Hz Hp]]]%Hv ?] & Hseen). split_and!; try done; set_solver. }
  rw /valid_volume negb_false_iff String.eqb_eq orb_false_iff Nat.ltb_ge negb_false_iff.
  destruct (ParseQuantity (vol_Size v)) as [q | e]; [rw when_none Z.leb_gt q_sign_val | naive_solver].
  assert ((0 < Z.sgn (q_val q))%Z <-> (0 < q_val q)%Z) as -> by lia. naive_solver.
Qed.

Lemma lower_set l x : setHas (toLowerSet l) x = true <-> exists s, s ∈ l /\ lower s = x.
Proof. rw bool_decide_eq_true elem_of_list_to_set list_elem_of_fmap. naive_solver. Qed.

Lemma rule_error_none path r : rule_error path r = None <-> ~ refused_rule r.
Proof.
  rw /rule_error !first_of_app !first_of_map first_of_cons. setoid_rewrite when_none. rw /refused_rule.
  set (vs := toLowerSet (ru_Verbs r)). set (gs := toLowerSet (ru_APIGroups r)). set (rs := toLowerSet (ru_Resources r)).
  assert (forall l xs, (exists s, s ∈ l /\ lower s ∈ xs) <-> existsb (setHas (toLowerSet l)) xs = true) as Hex.
  { intros l xs. rw existsb_exists. split.
    - intros (s & Hs & Hx). exists (lower s). split; [by apply list_elem_of_In |]. apply lower_set. by exists s.
    - intros (x & Hx & (s & Hs & <-)%lower_set). exists s. split; [done |]. by apply list_elem_of_In. }
  rw !Hex. fold vs gs rs.
  assert (existsb (setHas gs) ["*"; "rbac.authorization.k8s.io"] = setHas gs "rbac.authorization.k8s.io" || setHas gs "*") as ->
    by (rw /= orb_false_r; apply orb_comm).
  assert (existsb (setHas rs) ("*" :: rbacResources) = setHas rs "*" || existsb (setHas rs) rbacResources) as -> by done.
  set (gb := setHas gs _ || _). set (rb := setHas rs _ || _). rw !existsb_exists. split.
  - intros (He & Hw & _) [(v & Hin%list_elem_of_In & Hv) | ((v & Hin%list_elem_of_In & Hv) & Hg & Hr)].
    + apply elem_of_cons in Hin as [-> | Hin]; [specialize (He "bind" ltac:(set_solver)) | specialize (He v Hin)];
        apply orb_false_iff in He as [? ?]; congruence.
    + specialize (Hw v Hin). by rw Hg Hr Hv in Hw.
  - intros Hn. assert (setHas vs "*" = false) as Hs.
    { apply not_true_iff_false. intros Hs. apply Hn. left. exists "*". split; [by left | done]. }
    split_and!; [| | by rw Hs andb_false_r | done].
    + intros v Hin. rw Hs orb_false_r. apply not_true_iff_false. intros Hv. apply Hn. left. exists v. split; [right; by apply list_elem_of_In | done].
    + intros w Hin. rw Hs orb_false_r. apply not_true_iff_false. rw !andb_true_iff. intros [[Hg Hr] Hw]. apply Hn. right.
      split_and!; [exists w; split; [by apply list_elem_of_In | done] | done | done].
Qed.

Lemma validateRBACRules_none i rules : validateRBACRules i rules = None <-> Forall (fun r => ~ refused_rule r) rules.
Proof.
  rw /validateRBACRules first_at_none Forall_lookup. split; intros H j r Hj; [apply H in Hj | apply rule_error_none; by eapply H].
  by apply rule_error_none in Hj.
Qed.

Lemma account_error_none pulls i sa :
  account_error (list_to_set pulls) i sa = None <-> sas_Name sa <> "" /\ valid_account pulls sa.
Proof.
  rw /account_error !first_of_cons when_none String.eqb_neq first_at_none /valid_account.
  setoid_rewrite when_none. setoid_rewrite bool_decide_eq_false. apply and_iff_compat_l.
  assert ((forall (j : nat) (a : string), sas_ImagePullSecrets sa !! j = Some a -> ~ (a ∉ (list_to_set pulls : gset string))) <->
    (forall ref, ref ∈ sas_ImagePullSecrets sa -> ref ∈ pulls)) as ->.
  { split.
    - intros H ref [j Hj]%list_elem_of_lookup. apply H in Hj. destruct (decide (ref ∈ pulls)); [done |]. set_solver.
    - intros H j a Hj Hn. apply Hn, elem_of_list_to_set, H. by eapply list_elem_of_lookup_2. }
  apply and_iff_compat_l. destruct (sas_RBAC sa) as [rbac |]; [| by split].
  rw !first_of_cons validateRBACRules_none /valid_rbac.
  assert (match rb_RoleRef rbac with None => None | Some ref => role_ref_error (at_index "spec.initResources.serviceAccounts" i) ref end = None <->
    (forall ref, rb_RoleRef rbac = Some ref -> (rr_Kind ref = "Role" \/ rr_Kind ref = "ClusterRole") /\ rr_Name ref <> "")) as ->.
  { destruct (rb_RoleRef rbac) as [ref |]; [| by split]. rw /role_ref_error !first_of_cons !when_none negb_false_iff orb_true_iff !String.eqb_eq String.eqb_neq.
    naive_solver. }
  naive_solver.
Qed.

Lemma validateInitResources_none ir :
  validateInitResources ir = None <->
  good_names (map ips_Name (ir_ImagePullSecrets ir) ++ map sxs_Name (ir_Secrets ir)) /\
  good_names (map cms_Name (ir_ConfigMaps ir)) /\ good_names (map sas_Name (ir_ServiceAccounts ir)) /\
  good_names (map vol_Name (ir_Volumes ir)) /\ Forall valid_volume (ir_Volumes ir) /\
  Forall (valid_account (map ips_Name (ir_ImagePullSecrets ir))) (ir_ServiceAccounts ir).
Proof.
  rw /validateInitResources. set (ps := map ips_Name _). set (ss := map sxs_Name _).
  assert (forall field l, (match uniqueNames field l with inr e => Some e | inl _ => None end) = None <-> good_names l) as Hu.
  { intros field l. pose proof (uniqueNames_ok field l) as H. destruct (uniqueNames field l) as [s | e]; [by destruct (proj1 (H s) eq_refl) |].
    split; [done |]. intros Hg. by discriminate (proj2 (H (list_to_set l)) (conj Hg eq_refl)). }
  destruct (uniqueNames "imagePullSecrets" ps) as [s1 | e] eqn:H1.
  2: { split; [done |]. intros [[Hi Hd] _]. apply NoDup_app in Hd as (Hd & _). pose proof (proj2 (Hu "imagePullSecrets" ps)) as H.
       rw H1 in H. by discriminate H; split; [set_solver |]. }
  apply uniqueNames_ok in H1 as [G1 ->].
  destruct (uniqueNames "secrets" ss) as [s2 | e] eqn:H2.
  2: { split; [done |]. intros [[Hi Hd] _]. apply NoDup_app in Hd as (_ & _ & Hd). pose proof (proj2 (Hu "secrets" ss)) as H.
       rw H2 in H. by discriminate H; split; [set_solver |]. }
  apply uniqueNames_ok in H2 as [G2 ->].
  cbv zeta. rw first_of_app first_of_map !first_of_cons !Hu volume_errors_none first_at_none. setoid_rewrite when_none.
  setoid_rewrite bool_decide_eq_false. setoid_rewrite account_error_none. rw /good_names elem_of_app NoDup_app Forall_lookup.
  destruct G1 as [G1 N1], G2 as [G2 N2]. setoid_rewrite elem_of_elements. setoid_rewrite elem_of_list_to_set. split.
  - intros (Hx & Hc & Ha & (Hvn & Hv & _) & Hacc & _). split_and!; try done; try apply Hc; try apply Ha; try apply Hvn.
    + by intros [? | ?].
    + intros n Hp Hs. by apply (Hx n).
    + apply Forall_lookup. intros j a Hj. by eapply Hacc.
  - intros ((_ & _ & Hx & _) & Hc & [Ha Hn] & Hvn & Hv & Hacc). split_and!; try done; try apply Hc; try apply Hvn.
    + intros n Hs Hp. by apply (Hx n).
    + intros j a Hj. split; [| by eapply (Forall_lookup_1 _ _ _ _ Hacc)]. intros Hnil. apply Ha. rw -Hnil. apply list_elem_of_fmap. exists a. split; [done |].
      by eapply list_elem_of_lookup_2.
Qed.
End Valid.
