(* ===== verification/OperatorTenant.v ===== *)
(** * Tenant operator: reconciliation

    [tenant-operator/internal/reconcile] and [internal/controller].  A
    subreconciler returns what it found out together with an error, so its
    outcome is a value: ready, message, and maybe an error.  Writes go to the
    API server; reads of the operator's own kinds go to its cache ([r_Get],
    [r_List]), reads of source objects and data volumes to the API server
    ([k_Get]). *)

From Stdlib Require Import ssreflect ZArith Ascii String.
From stdpp Require Import base gmap list strings.
From S2P Require Import Prelude Placement ApiTypes Names Strconv Kube OperatorTypes TenantTypes TenantValidate.

Open Scope string_scope.
Open Scope list_scope.

(** Ready, message, error. *)
Abbreviation outcome := (bool * string * option api_error)%type (only parsing).

Definition ok : outcome := (true, "", None).
Definition failed (what : string) (e : api_error) : outcome := (false, what +:+ ": " +:+ error_text e, Some e).

(** ** Names and labels *)

Definition tenantResourcePrefix : string := "axisml-tenant-".

(** [PerTenantResourceName] *)
Definition PerTenantResourceName (tenantName sub : string) : string := tenantResourcePrefix +:+ tenantName +:+ "-" +:+ sub.

(** [stripPrefix] *)
Definition stripPrefix (s prefix : string) : string :=
  match strip_prefix (list_ascii_of_string prefix) (list_ascii_of_string s) with
  | Some rest => string_of_list_ascii rest
  | None => s
  end.

(** The labels of [labels] that [existing] does not carry with this value. *)
Definition label_changes (labels existing : gmap string string) : gmap string string :=
  filter (fun kv => map_get "" existing kv.1 <> kv.2) labels.

(** [withManagedByLabel] *)
Definition withManagedByLabel (labels : gmap string string) : gmap string string := <[LabelManagedBy := ManagedByValue]> labels.

Section Tenant.
Context {Q : Type} `{!Quantity Q} `{!QuantityLaws Q} `{!TenantMachinery Q}.
Context {K : Type} `{!TenantClient Q K} `{!TenantCache Q K}.
Implicit Types t : Tenant Q.

Definition tenant_id t : string := map_get "" (ob_Labels t) LabelTenantID.
Definition target_ns t : string := nsp_Name (tns_Namespace (ob_Spec t)).
Definition resources t : InitResources := tns_InitResources (ob_Spec t).

(** [TenantLabels] *)
Definition TenantLabels t : gmap string string := <[LabelTenantID := tenant_id t]> {[LabelManagedBy := ManagedByValue]}.

(** [ApplyTenantLabels] *)
Definition ApplyTenantLabels t (m : gmap string string) : gmap string string := TenantLabels t ∪ m.

(** [hasOwner] *)
Definition hasOwner (refs : list OwnerReference) t : bool := existsb (fun r => String.eqb (ow_UID r) (ob_UID t)) refs.

Definition tenant_name t (sub : string) : string := PerTenantResourceName (ob_Name t) sub.

Definition new_meta t (name : string) (labels : gmap string string) (owners : list OwnerReference) : Meta :=
  {| me_Obj := {| om_Name := name; om_Namespace := target_ns t; om_Labels := labels; om_Annotations := ∅ |};
     me_UID := ""; me_Generation := 0; me_Owners := owners |}.

(** ** Namespace *)

Definition new_namespace t : NamespaceObject :=
  {| ob_Meta := {| me_Obj := {| om_Name := target_ns t; om_Namespace := "";
                                om_Labels := withManagedByLabel (nsp_Labels (tns_Namespace (ob_Spec t)));
                                om_Annotations := nsp_Annotations (tns_Namespace (ob_Spec t)) |};
                   me_UID := ""; me_Generation := 0; me_Owners := [] |};
     ob_Spec := tt; ob_Status := "" |}.

(** The first part of [Namespace]: the outcome when it returns early. *)
Definition ensure_namespace t : api K (option outcome) :=
  (let* got := try (r_Get ("", target_ns t) : api K NamespaceObject) in
   match got with
   | inr e =>
       if IsNotFound e then
         let* r := try (k_Create (new_namespace t)) in
         ret (match r with
              | inr e => if IsAlreadyExists e then None else Some (failed "create namespace failed" e)
              | inl _ => None
              end)
       else ret (Some (failed "get namespace failed" e))
   | inl ns =>
       match ob_Labels ns !! LabelManagedBy with
       | Some _ => ret None
       | None =>
           let* r := try (k_Patch ns (set_labels (withManagedByLabel (ob_Labels ns)) ns)) in
           ret (match r with inr e => Some (failed "label namespace failed" e) | inl _ => None end)
       end
   end)%api.

(** [Namespace] *)
Definition Namespace t : api K outcome :=
  if String.eqb (target_ns t) "" then ret (false, "spec.namespace.name is empty", Some (Errored "namespace name empty"))
  else
    (let* early := ensure_namespace t in
     match early with
     | Some o => ret o
     | None =>
         let* got := try (r_Get ("", target_ns t) : api K NamespaceObject) in
         ret (match got with
              | inr e => failed "get namespace after upsert failed" e
              | inl ns => if String.eqb (ob_Status ns) "Active" then ok else (false, "namespace phase=" +:+ ob_Status ns, None)
              end)
     end)%api.

(** ** Owned objects

    What the upserts of ElasticQuotas, Secrets, ConfigMaps, ServiceAccounts,
    Roles and RoleBindings have in common.  The stage at which one failed
    decides its message. *)

Inductive stage := StageGet | StageRef | StageCreate | StagePatch.

Section Owned.
Context {B S : Type} `{!Client K B S} `{!CachedReader K B S}.

(** A new object, controlled by the tenant. *)
Definition create_owned t (name : string) (labels : gmap string string) (body : B) (st : S) : api K (option (stage * api_error)) :=
  match SetController (ob_Meta t) [] with
  | inr e => ret (Some (StageRef, e))
  | inl refs =>
      (let* r := try (k_Create {| ob_Meta := new_meta t name labels refs; ob_Spec := body; ob_Status := st |}) in
       ret (match r with inr e => Some (StageCreate, e) | inl _ => None end))%api
  end.

(** An existing one: the body where it changed, missing labels, and the owner
    reference; a patch when any of them is new. *)
Definition sync_owned t (labels : gmap string string) (body : B) (changed : bool) (existing : object B S)
    : api K (option (stage * api_error)) :=
  let relabel := label_changes labels (ob_Labels existing) in
  let next := set_labels (relabel ∪ ob_Labels existing) (if changed then set_spec body existing else existing) in
  let patch o := (let* r := try (k_Patch existing o) in
                  ret (match r with inr e => Some (StagePatch, e) | inl _ => None end))%api in
  if hasOwner (ob_Owners existing) t then
    if changed || bool_decide (relabel <> ∅) then patch next else ret None
  else match SetController (ob_Meta t) (ob_Owners existing) with
       | inr e => ret (Some (StageRef, e))
       | inl refs => patch (set_owners refs next)
       end.

(** Get, then create or update. *)
Definition upsert_owned t (name : string) (labels : gmap string string) (body : B) (st : S) (same : B -> bool)
    : api K (option (stage * api_error)) :=
  (let* got := try (r_Get (target_ns t, name) : api K (object B S)) in
   match got with
   | inr e => if IsNotFound e then create_owned t name labels body st else ret (Some (StageGet, e))
   | inl existing => sync_owned t labels body (negb (same (ob_Spec existing))) existing
   end)%api.

(** [deleteIfExists], on an object of which only the key matters. *)
Definition deleteIfExists (o : object B S) : api K unit :=
  (let* r := try (k_Delete o) in match r with inr e => if IsNotFound e then ret tt else fail e | inl _ => ret tt end)%api.

(** The loop bodies and loops of the [gcOrphan] functions: objects of the
    tenant under names that are not declared go; [before] is what is removed
    first. *)
Definition delete_orphan t (what : string) (keep : string -> bool) (before : object B S -> api K unit) (o : object B S)
    : api K unit :=
  if negb (hasOwner (ob_Owners o) t) then ret tt
  else if keep (ob_Name o) then ret tt
  else
    (let* _ := before o in
     let* r := try (k_Delete o) in
     match r with
     | inr e => if IsNotFound e then ret tt else fail (Wrapped ("delete orphan " +:+ what +:+ " " +:+ ob_Name o) e)
     | inl _ => ret tt
     end)%api.

Definition gc_orphans t (what : string) (labels : gmap string string) (keep : string -> bool)
    (before : object B S -> api K unit) : api K unit :=
  (let* items := wrap ("list " +:+ what +:+ "s") (r_List (target_ns t) labels : api K (list (object B S))) in
   each (delete_orphan t what keep before) items)%api.
End Owned.

Definition stage_text (kind : string) (s : stage) : string :=
  match s with
  | StageGet => "get target " +:+ kind +:+ " failed"
  | StageRef => "set ownerRef failed"
  | StageCreate => "create " +:+ kind +:+ " failed"
  | StagePatch => "patch " +:+ kind +:+ " failed"
  end.

(** The name of a per-tenant object is one of the declared names. *)
Definition declared t (names : list string) (name : string) : bool :=
  bool_decide (stripPrefix name (tenant_name t "") ∈ names).

(** ** Elastic quotas *)

(** [upsertElasticQuota] *)
Definition upsertElasticQuota t (q : QuotaSpec Q) : api K (bool * gmap string Q * string * option api_error) :=
  let name := ElasticQuotaName (ob_Name t) (qsp_Pool q) in
  let max := default ∅ (qsp_Max q) in
  let failure what e := (false, ∅, what +:+ ": " +:+ error_text e, Some e) in
  (let* r := upsert_owned t name (TenantLabels t) {| eq_Min := qsp_Min q; eq_Max := max |} (∅ : gmap string Q)
     (fun eq => lists_equal (eq_Min eq) (qsp_Min q) && lists_equal (eq_Max eq) max) in
   match r with
   | Some (StageGet, e) => ret (failure "get elasticquota failed" e)
   | Some (s, e) => ret (failure (stage_text "elasticquota" s) e)
   | None =>
       let* got := try (r_Get (target_ns t, name) : api K (Quota Q)) in
       ret (match got with
            | inr e => failure "get elasticquota after upsert failed" e
            | inl eq => (true, ob_Status eq, "", None)
            end)
   end)%api.

(** The loop of [ElasticQuotas]. *)
Fixpoint quota_loop t (quotas : list (QuotaSpec Q)) : api K (list (QuotaStatus Q) * option api_error) :=
  match quotas with
  | [] => ret ([], None)
  | q :: rest =>
      (let* r := upsertElasticQuota t q in
       let '(ready, used, msg, err) := r in
       let status := {| qst_Pool := qsp_Pool q; qst_Ready := ready; qst_Used := used; qst_Message := msg |} in
       match err with
       | Some e => ret ([status], Some e)
       | None => let* more := quota_loop t rest in ret (status :: more.1, more.2)
       end)%api
  end.

Definition quota_names t : list string := map (fun q => ElasticQuotaName (ob_Name t) (qsp_Pool q)) (tns_Quotas (ob_Spec t)).

(** [gcOrphanElasticQuotas] *)
Definition gcOrphanElasticQuotas t : api K unit :=
  gc_orphans (B := ElasticQuotaSpec Q) (S := gmap string Q) t "elasticquota" {[LabelTenantID := tenant_id t]}
    (fun name => bool_decide (name ∈ quota_names t)) (fun _ => ret tt).

(** [ElasticQuotas] *)
Definition ElasticQuotas t : api K (list (QuotaStatus Q) * option api_error) :=
  (let* gc := try (gcOrphanElasticQuotas t) in
   match gc with inr e => ret ([], Some e) | inl _ => quota_loop t (tns_Quotas (ob_Spec t)) end)%api.

(** ** Init resources *)

(** The loop over declared items: it ends at the first error. *)
Fixpoint items_loop {A} (name : A -> string) (f : A -> api K outcome) (l : list A)
    : api K (list InitResourceItemStatus * option api_error) :=
  match l with
  | [] => ret ([], None)
  | a :: rest =>
      (let* r := f a in
       let '(ready, msg, err) := r in
       let status := {| it_Name := name a; it_Ready := ready; it_Message := msg |} in
       match err with
       | Some e => ret ([status], Some e)
       | None => let* more := items_loop name f rest in ret (status :: more.1, more.2)
       end)%api
  end.

(** Items first, then the removal of orphans. *)
Definition items_then_gc (items : api K (list InitResourceItemStatus * option api_error)) (gc : api K unit)
    : api K (list InitResourceItemStatus * option api_error) :=
  (let* r := items in
   match r.2 with
   | Some _ => ret r
   | None => let* g := try gc in ret (r.1, match g with inr e => Some e | inl _ => None end)
   end)%api.

Definition labelSecretRole : string := "tenant.axisml.io/secret-role".
Definition secretRoleImagePull : string := "imagepull".
Definition secretRoleGeneric : string := "generic".
Definition SecretTypeDockerConfigJson : string := "kubernetes.io/dockerconfigjson".
Definition SecretTypeOpaque : string := "Opaque".

(** [warnIfTypeMismatch] *)
Definition warnIfTypeMismatch (srcType desired : string) : string :=
  if negb (String.eqb srcType "") && negb (String.eqb srcType desired)
  then "source secret type=" +:+ srcType +:+ " differs from spec.type=" +:+ desired +:+ "; using spec.type" else "".

(** The type of an existing Secret; none is Opaque. *)
Definition existing_type (b : SecretBody) : string := if String.eqb (sb_Type b) "" then SecretTypeOpaque else sb_Type b.

(** [upsertCopiedSecret] once the source has been read. *)
Definition write_secret t (subName desiredType role : string) (src : SecretBody) : api K outcome :=
  let name := tenant_name t subName in
  let labels := ApplyTenantLabels t {[labelSecretRole := role]} in
  let body := {| sb_Type := desiredType; sb_Data := sb_Data src |} in
  let finish text r := match r with
                       | Some (s, e) => failed (text s) e
                       | None => (true, warnIfTypeMismatch (sb_Type src) desiredType, None)
                       end in
  (let* got := try (r_Get (target_ns t, name) : api K Secret) in
   match got with
   | inr e =>
       if IsNotFound e then let* r := create_owned t name labels body tt in ret (finish (stage_text "secret") r)
       else ret (failed "get target secret failed" e)
   | inl existing =>
       if negb (String.eqb (existing_type (ob_Spec existing)) desiredType) then
         let* d := try (deleteIfExists existing) in
         match d with
         | inr e => ret (failed "delete on type change failed" e)
         | inl _ =>
             let* r := create_owned t name labels body tt in
             ret (finish (fun s => match s with StageCreate => "recreate after type change failed" | _ => stage_text "secret" s end) r)
         end
       else
         let* r := sync_owned t labels {| sb_Type := sb_Type (ob_Spec existing); sb_Data := sb_Data src |}
           (negb (bool_decide (sb_Data (ob_Spec existing) = sb_Data src))) existing in
         ret (finish (stage_text "secret") r)
   end)%api.

(** [upsertCopiedSecret] *)
Definition upsertCopiedSecret t (subName desiredType role : string) (src : SourceRef) : api K outcome :=
  if String.eqb (src_Namespace src) "" || String.eqb (src_Name src) "" then
    ret (false, "sourceSecretRef.namespace and .name are required", None)
  else
    (let* got := try (k_Get (src_Namespace src, src_Name src) : api K Secret) in
     match got with
     | inr e => ret (if IsNotFound e
                     then (false, "source secret " +:+ src_Namespace src +:+ "/" +:+ src_Name src +:+ " not found", None)
                     else failed "get source secret failed" e)
     | inl srcSecret => write_secret t subName desiredType role (ob_Spec srcSecret)
     end)%api.

(** [gcOrphanSecrets] *)
Definition gcOrphanSecrets t (names : list string) (role : string) : api K unit :=
  gc_orphans (B := SecretBody) (S := unit) t "secret" (<[labelSecretRole := role]> {[LabelTenantID := tenant_id t]})
    (declared t names) (fun _ => ret tt).

(** [ImagePullSecrets] *)
Definition ImagePullSecrets t : api K (list InitResourceItemStatus * option api_error) :=
  let secrets := ir_ImagePullSecrets (resources t) in
  items_then_gc
    (items_loop ips_Name
       (fun s => upsertCopiedSecret t (ips_Name s) SecretTypeDockerConfigJson secretRoleImagePull (ips_Source s)) secrets)
    (gcOrphanSecrets t (map ips_Name secrets) secretRoleImagePull).

(** [Secrets] *)
Definition Secrets t : api K (list InitResourceItemStatus * option api_error) :=
  let secrets := ir_Secrets (resources t) in
  items_then_gc
    (items_loop sxs_Name
       (fun s => upsertCopiedSecret t (sxs_Name s) (if String.eqb (sxs_Type s) "" then SecretTypeOpaque else sxs_Type s)
                   secretRoleGeneric (sxs_Source s)) secrets)
    (gcOrphanSecrets t (map sxs_Name secrets) secretRoleGeneric).

(** [upsertCopiedConfigMap] *)
Definition upsertCopiedConfigMap t (spec : ConfigMapSpec) : api K outcome :=
  let src := cms_Source spec in
  if String.eqb (src_Namespace src) "" || String.eqb (src_Name src) "" then
    ret (false, "sourceConfigMapRef.namespace and .name are required", None)
  else
    (let* got := try (k_Get (src_Namespace src, src_Name src) : api K (object ConfigBody unit)) in
     match got with
     | inr e => ret (if IsNotFound e
                     then (false, "source configmap " +:+ src_Namespace src +:+ "/" +:+ src_Name src +:+ " not found", None)
                     else failed "get source configmap failed" e)
     | inl srcCM =>
         let* r := upsert_owned t (tenant_name t (cms_Name spec)) (ApplyTenantLabels t ∅) (ob_Spec srcCM) tt
           (fun b => bool_decide (cb_Data b = cb_Data (ob_Spec srcCM)) && bool_decide (cb_BinaryData b = cb_BinaryData (ob_Spec srcCM))) in
         ret (match r with Some (s, e) => failed (stage_text "configmap" s) e | None => ok end)
     end)%api.

(** [gcOrphanConfigMaps] *)
Definition gcOrphanConfigMaps t (names : list string) : api K unit :=
  gc_orphans (B := ConfigBody) (S := unit) t "configmap" {[LabelTenantID := tenant_id t]} (declared t names) (fun _ => ret tt).

(** [ConfigMaps] *)
Definition ConfigMaps t : api K (list InitResourceItemStatus * option api_error) :=
  let configMaps := ir_ConfigMaps (resources t) in
  items_then_gc (items_loop cms_Name (upsertCopiedConfigMap t) configMaps)
    (gcOrphanConfigMaps t (map cms_Name configMaps)).

(** ** Service accounts *)

Definition bare {B S} t (name : string) (body : B) (st : S) : object B S :=
  {| ob_Meta := new_meta t name ∅ []; ob_Spec := body; ob_Status := st |}.

Definition bare_binding t (name : string) : RoleBinding :=
  bare t name {| bi_Subjects := []; bi_RoleRef := {| rf_APIGroup := ""; rf_Kind := ""; rf_Name := "" |} |} tt.

Definition bare_role t (name : string) : RoleObject := bare t name {| ro_Rules := [] |} tt.

Definition raise (r : option (stage * api_error)) : api K unit := match r with Some (_, e) => fail e | None => ret tt end.

(** [upsertServiceAccountObj] *)
Definition upsertServiceAccountObj t (name : string) (pullRefs : list string) : api K unit :=
  (let* r := upsert_owned t name (ApplyTenantLabels t ∅) {| ab_ImagePullSecrets := pullRefs |} tt
     (fun b => bool_decide (ab_ImagePullSecrets b = pullRefs)) in raise r)%api.

(** [upsertRole] *)
Definition upsertRole t (name : string) (rules : list PolicyRule) : api K unit :=
  (let* r := upsert_owned t name (ApplyTenantLabels t ∅) {| ro_Rules := rules |} tt (fun b => bool_decide (ro_Rules b = rules)) in
   raise r)%api.

Definition rbacGroup : string := "rbac.authorization.k8s.io".

(** The role a binding refers to. *)
Definition desired_role_ref (saName : string) (rbac : RBACSpec) : RoleRef :=
  match rb_RoleRef rbac with
  | Some ref => if String.eqb (rr_Kind ref) "ClusterRole" then {| rf_APIGroup := rbacGroup; rf_Kind := "ClusterRole"; rf_Name := rr_Name ref |}
                else {| rf_APIGroup := rbacGroup; rf_Kind := "Role"; rf_Name := saName |}
  | None => {| rf_APIGroup := rbacGroup; rf_Kind := "Role"; rf_Name := saName |}
  end.

Definition useClusterRole (rbac : RBACSpec) : bool :=
  match rb_RoleRef rbac with Some ref => String.eqb (rr_Kind ref) "ClusterRole" | None => false end.

(** [upsertRoleBinding] *)
Definition upsertRoleBinding t (saName : string) (rbac : RBACSpec) : api K unit :=
  let labels := ApplyTenantLabels t ∅ in
  let body := {| bi_Subjects := [{| su_Kind := "ServiceAccount"; su_Name := saName; su_Namespace := target_ns t |}];
                 bi_RoleRef := desired_role_ref saName rbac |} in
  (let* got := try (r_Get (target_ns t, saName) : api K RoleBinding) in
   match got with
   | inr e => if IsNotFound e then let* r := create_owned t saName labels body tt in raise r else fail e
   | inl existing =>
       if bool_decide (bi_RoleRef (ob_Spec existing) = bi_RoleRef body) then
         let* r := sync_owned t labels body (negb (bool_decide (bi_Subjects (ob_Spec existing) = bi_Subjects body))) existing in raise r
       else
         let* _ := deleteIfExists existing in
         let* r := create_owned t saName labels body tt in raise r
   end)%api.

(** A step of [upsertSA] or [upsertRoleAndBinding]: its failure ends the
    account. *)
Definition step (what : string) (m : api K unit) (rest : api K outcome) : api K outcome :=
  (let* r := try m in match r with inr e => ret (failed what e) | inl _ => rest end)%api.

(** [upsertSA], with [upsertRoleAndBinding] *)
Definition upsertSA t (sa : ServiceAccountSpec) : api K outcome :=
  let saName := tenant_name t (sas_Name sa) in
  step "upsert service account failed" (upsertServiceAccountObj t saName (map (tenant_name t) (sas_ImagePullSecrets sa)))
    match sas_RBAC sa with
    | Some rbac =>
        (if useClusterRole rbac then step "cleanup stale role failed" (deleteIfExists (bare_role t saName))
         else step "upsert role failed" (upsertRole t saName (rb_Rules rbac)))
          (step "upsert rolebinding failed" (upsertRoleBinding t saName rbac) (ret ok))
    | None =>
        step "cleanup rolebinding failed" (deleteIfExists (bare_binding t saName))
          (step "cleanup role failed" (deleteIfExists (bare_role t saName)) (ret ok))
    end.

(** What [gcOrphanSAs] removes before an account, best effort. *)
Definition before_account t (sa : Account) : api K unit :=
  (let* _ := try (deleteIfExists (bare_binding t (ob_Name sa))) in
   let* _ := try (deleteIfExists (bare_role t (ob_Name sa))) in ret tt)%api.

(** [gcOrphanSAs] *)
Definition gcOrphanSAs t (names : list string) : api K unit :=
  gc_orphans (B := AccountBody) (S := unit) t "service account" {[LabelTenantID := tenant_id t]} (declared t names) (before_account t).

(** [ServiceAccounts] *)
Definition ServiceAccounts t : api K (list InitResourceItemStatus * option api_error) :=
  let accounts := ir_ServiceAccounts (resources t) in
  items_then_gc (items_loop sas_Name (upsertSA t) accounts) (gcOrphanSAs t (map sas_Name accounts)).

(** ** Data volumes *)

Definition volumeManagedByLabel : string := "app.kubernetes.io/managed-by".
Definition volumeManagedByValue : string := "axisml-cluster-manager".
Definition volumeDescriptionAnnotation : string := "resource.axisml.io/description".

(** [isManagedVolume] *)
Definition isManagedVolume (pvc : Claim Q) : bool := String.eqb (map_get "" (ob_Labels pvc) volumeManagedByLabel) volumeManagedByValue.

(** [phaseMessage] *)
Definition phaseMessage (phase : string) : string :=
  if String.eqb phase "Bound" || String.eqb phase "" then "" else "volume phase=" +:+ phase.

(** [buildVolumePVC] *)
Definition buildVolumePVC (ns : string) (spec : VolumeSpec) (labels : gmap string string) : Claim Q + string :=
  let claim requests :=
    {| ob_Meta := {| me_Obj := {| om_Name := vol_Name spec; om_Namespace := ns; om_Labels := labels;
                                  om_Annotations := if String.eqb (vol_Description spec) "" then ∅
                                                    else {[volumeDescriptionAnnotation := vol_Description spec]} |};
                     me_UID := ""; me_Generation := 0; me_Owners := [] |};
       ob_Spec := {| pc_AccessModes := match vol_AccessModes spec with [] => ["ReadWriteOnce"] | modes => modes end;
                     pc_StorageClassName := if String.eqb (vol_StorageClass spec) "" then None else Some (vol_StorageClass spec);
                     pc_Requests := requests |};
       ob_Status := "" |} in
  if String.eqb (vol_Size spec) "" then inl (claim ∅)
  else match ParseQuantity (vol_Size spec) with
       | inr e => inr ("volume " +:+ quoted (vol_Name spec) +:+ ": invalid size " +:+ quoted (vol_Size spec) +:+ ": " +:+ e)
       | inl q => inl (claim {["storage" := q]})
       end.

(** [syncVolumeMeta] *)
Definition syncVolumeMeta (pvc : Claim Q) (labels : gmap string string) (description : string) : api K unit :=
  let relabel := label_changes labels (ob_Labels pvc) in
  let describe := negb (String.eqb description "") &&
                  negb (String.eqb (map_get "" (ob_Annotations pvc) volumeDescriptionAnnotation) description) in
  let next := set_labels (relabel ∪ ob_Labels pvc) pvc in
  let next := if describe then set_annotations (<[volumeDescriptionAnnotation := description]> (ob_Annotations pvc)) next else next in
  if bool_decide (relabel <> ∅) || describe then (let* _ := k_Patch pvc next in ret tt)%api else ret tt.

(** [ensureVolumePVC] *)
Definition ensureVolumePVC t (spec : VolumeSpec) : api K outcome :=
  if negb (String.eqb (vol_HostPath spec) "") then
    ret (false, "hostPath volumes are not supported in Standard (multi-tenant)", None)
  else
    let ns := target_ns t in
    let labels := ApplyTenantLabels t {[volumeManagedByLabel := volumeManagedByValue]} in
    (let* got := try (k_Get (ns, vol_Name spec) : api K (Claim Q)) in
     match got with
     | inr e =>
         if IsNotFound e then
           match buildVolumePVC ns spec labels with
           | inr message => ret (false, message, None)
           | inl pvc =>
               let* r := try (k_Create pvc) in
               ret (match r with
                    | inr e => if IsAlreadyExists e then ok else failed "create pvc failed" e
                    | inl _ => (true, phaseMessage "Pending", None)
                    end)
           end
         else ret (failed "get pvc failed" e)
     | inl existing =>
         if negb (isManagedVolume existing) then
           ret (false, "a PersistentVolumeClaim " +:+ quoted (vol_Name spec) +:+
                       " already exists and is not managed by AxisML; refusing to adopt it", None)
         else
           let* r := try (syncVolumeMeta existing labels (vol_Description spec)) in
           ret (match r with
                | inr e => failed "sync pvc metadata failed" e
                | inl _ => (true, phaseMessage (ob_Status existing), None)
                end)
     end)%api.

(** [Volumes] *)
Definition Volumes t : api K (list InitResourceItemStatus * option api_error) :=
  items_loop vol_Name (ensureVolumePVC t) (ir_Volumes (resources t)).

(** ** Status *)

Record Aggregate := {
  ag_NamespaceReady : bool;
  ag_NamespaceMsg : string;
  ag_Quotas : list (QuotaStatus Q);
  ag_Items : InitResourcesStatus;
  ag_CriticalFailure : bool;
  ag_FailureMessage : string }.

(** [AllInitResourcesReady] *)
Definition AllInitResourcesReady (a : Aggregate) : bool :=
  let i := ag_Items a in
  forallb it_Ready (irs_ImagePullSecrets i) && forallb it_Ready (irs_Secrets i) && forallb it_Ready (irs_ConfigMaps i) &&
  forallb it_Ready (irs_ServiceAccounts i) && forallb it_Ready (irs_Volumes i).

(** [AllQuotasReady] *)
Definition AllQuotasReady (a : Aggregate) : bool := forallb qst_Ready (ag_Quotas a).

(** [DerivePhase] *)
Definition DerivePhase (a : Aggregate) (previous : TenantPhase) : TenantPhase * string :=
  if ag_CriticalFailure a then (TenantPhaseFailed, ag_FailureMessage a)
  else if ag_NamespaceReady a && AllQuotasReady a && AllInitResourcesReady a then (TenantPhaseActive, "")
  else
    (previous,
     if negb (String.eqb (ag_FailureMessage a) "") then ag_FailureMessage a
     else if negb (ag_NamespaceReady a) then "namespace not ready: " +:+ ag_NamespaceMsg a
     else if negb (AllQuotasReady a) then "quotas not ready"
     else if negb (AllInitResourcesReady a) then "init resources not ready"
     else "").

(** [condition] *)
Definition tenant_condition (now : Z) (prev : list MetaCondition) (typ : string) (good : bool) (reason message : string) (gen : Z)
    : MetaCondition :=
  let status := if good then "True" else "False" in
  {| mc_Type := typ; mc_Status := status; mc_ObservedGeneration := gen;
     mc_LastTransitionTime :=
       match List.find (fun c => String.eqb (mc_Type c) typ) prev with
       | Some p => if String.eqb (mc_Status p) status
                   then match mc_LastTransitionTime p with Some since => Some since | None => Some now end
                   else Some now
       | None => Some now
       end;
     mc_Reason := reason; mc_Message := message |}.

(** [BuildStatus] *)
Definition BuildStatus (now : Z) t (a : Aggregate) (phase : TenantPhase) (message : string) : TenantStatus Q :=
  let gen := ob_Generation t in
  let cond := tenant_condition now (tst_Conditions (ob_Status t)) in
  {| tst_ObservedGeneration := gen; tst_Phase := phase; tst_Message := message; tst_NamespaceReady := ag_NamespaceReady a;
     tst_Quotas := ag_Quotas a; tst_InitResources := ag_Items a;
     tst_Conditions :=
       [cond ConditionNamespaceReady (ag_NamespaceReady a) "NamespaceReconciled" (ag_NamespaceMsg a) gen;
        cond ConditionQuotasReady (AllQuotasReady a) "QuotasReconciled" "" gen;
        cond ConditionInitResourcesReady (AllInitResourcesReady a) "InitResourcesReconciled" "" gen] ++
       (if decide (phase = TenantPhaseFailed) then [cond ConditionFailed true "ReconcileFailed" message gen] else []) |}.

(** ** The controller *)

(** [patchStatus] *)
Definition patchStatus (now : Z) t (a : Aggregate) (phase : TenantPhase) (message : string) : api K unit :=
  (let* _ := k_PatchStatus t (set_status (BuildStatus now t a phase message) t) in ret tt)%api.

(** [patchStatusFailed] *)
Definition patchStatusFailed t (message : string) : api K unit :=
  let st := ob_Status t in
  (let* _ := k_PatchStatus t (set_status
     {| tst_ObservedGeneration := ob_Generation t; tst_Phase := TenantPhaseFailed; tst_Message := message;
        tst_NamespaceReady := tst_NamespaceReady st; tst_Quotas := tst_Quotas st; tst_InitResources := tst_InitResources st;
        tst_Conditions := tst_Conditions st |} t) in ret tt)%api.

(** Write the status the aggregate stands for. *)
Definition report (now : Z) t (a : Aggregate) : api K unit :=
  let '(phase, msg) := DerivePhase a (tst_Phase (ob_Status t)) in patchStatus now t a phase msg.

(** [recordAndRequeue] *)
Definition recordAndRequeue (now : Z) t (a : Aggregate) (cause : api_error) : api K bool :=
  (let* _ := report now t a in fail cause)%api.

Definition set_ready (ready : bool) (msg : string) (a : Aggregate) : Aggregate :=
  {| ag_NamespaceReady := ready; ag_NamespaceMsg := msg; ag_Quotas := ag_Quotas a; ag_Items := ag_Items a;
     ag_CriticalFailure := ag_CriticalFailure a; ag_FailureMessage := ag_FailureMessage a |}.

Definition set_quotas (quotas : list (QuotaStatus Q)) (a : Aggregate) : Aggregate :=
  {| ag_NamespaceReady := ag_NamespaceReady a; ag_NamespaceMsg := ag_NamespaceMsg a; ag_Quotas := quotas; ag_Items := ag_Items a;
     ag_CriticalFailure := ag_CriticalFailure a; ag_FailureMessage := ag_FailureMessage a |}.

Definition set_items (items : InitResourcesStatus) (a : Aggregate) : Aggregate :=
  {| ag_NamespaceReady := ag_NamespaceReady a; ag_NamespaceMsg := ag_NamespaceMsg a; ag_Quotas := ag_Quotas a; ag_Items := items;
     ag_CriticalFailure := ag_CriticalFailure a; ag_FailureMessage := ag_FailureMessage a |}.

Definition set_failure (critical : bool) (msg : string) (a : Aggregate) : Aggregate :=
  {| ag_NamespaceReady := ag_NamespaceReady a; ag_NamespaceMsg := ag_NamespaceMsg a; ag_Quotas := ag_Quotas a; ag_Items := ag_Items a;
     ag_CriticalFailure := critical; ag_FailureMessage := msg |}.

(** The subreconcilers of init resources, in order, with the field of the
    aggregate each of them fills. *)
Definition init_steps : list (string * (Tenant Q -> api K (list InitResourceItemStatus * option api_error)) *
                             (list InitResourceItemStatus -> InitResourcesStatus -> InitResourcesStatus)) :=
  [("imagePullSecrets", ImagePullSecrets, fun l i =>
      {| irs_ImagePullSecrets := l; irs_Secrets := irs_Secrets i; irs_ConfigMaps := irs_ConfigMaps i;
         irs_ServiceAccounts := irs_ServiceAccounts i; irs_Volumes := irs_Volumes i |});
   ("secrets", Secrets, fun l i =>
      {| irs_ImagePullSecrets := irs_ImagePullSecrets i; irs_Secrets := l; irs_ConfigMaps := irs_ConfigMaps i;
         irs_ServiceAccounts := irs_ServiceAccounts i; irs_Volumes := irs_Volumes i |});
   ("configMaps", ConfigMaps, fun l i =>
      {| irs_ImagePullSecrets := irs_ImagePullSecrets i; irs_Secrets := irs_Secrets i; irs_ConfigMaps := l;
         irs_ServiceAccounts := irs_ServiceAccounts i; irs_Volumes := irs_Volumes i |});
   ("serviceAccounts", ServiceAccounts, fun l i =>
      {| irs_ImagePullSecrets := irs_ImagePullSecrets i; irs_Secrets := irs_Secrets i; irs_ConfigMaps := irs_ConfigMaps i;
         irs_ServiceAccounts := l; irs_Volumes := irs_Volumes i |});
   ("volumes", Volumes, fun l i =>
      {| irs_ImagePullSecrets := irs_ImagePullSecrets i; irs_Secrets := irs_Secrets i; irs_ConfigMaps := irs_ConfigMaps i;
         irs_ServiceAccounts := irs_ServiceAccounts i; irs_Volumes := l |})].

(** Steps 3 and 4 of [Reconcile], then the final status; true asks for the
    resync of volumes. *)
Fixpoint run_init (now : Z) t (a : Aggregate)
    (steps : list (string * (Tenant Q -> api K (list InitResourceItemStatus * option api_error)) *
                  (list InitResourceItemStatus -> InitResourcesStatus -> InitResourcesStatus))) : api K bool :=
  match steps with
  | [] => (let* _ := report now t a in ret (negb (bool_decide (ir_Volumes (resources t) = []))))%api
  | (name, f, put) :: rest =>
      (let* r := f t in
       let a := set_items (put r.1 (ag_Items a)) a in
       match r.2 with
       | Some e => recordAndRequeue now t (set_failure false (name +:+ " reconcile failed: " +:+ error_text e) a) e
       | None => run_init now t a rest
       end)%api
  end.

(** The part of [Reconcile] behind the validation. *)
Definition reconcile_tenant (now : Z) t : api K bool :=
  let st := ob_Status t in
  let a := {| ag_NamespaceReady := tst_NamespaceReady st; ag_NamespaceMsg := ""; ag_Quotas := tst_Quotas st;
              ag_Items := tst_InitResources st; ag_CriticalFailure := false; ag_FailureMessage := "" |} in
  (let* ns := Namespace t in
   let '(nsReady, nsMsg, nsErr) := ns in
   let a := set_ready nsReady nsMsg a in
   match nsErr with
   | Some e => recordAndRequeue now t (set_failure true ("namespace reconcile failed: " +:+ error_text e) a) e
   | None =>
       let* q := ElasticQuotas t in
       let a := set_quotas q.1 a in
       match q.2 with
       | Some e => recordAndRequeue now t (set_failure true ("elasticquota reconcile failed: " +:+ error_text e) a) e
       | None => run_init now t a init_steps
       end
   end)%api.

(** [Reconcile]; the result is whether the pass asks to be repeated after the
    resync interval. *)
Definition Reconcile (opts : Options) (now : Z) (name : string) : api K bool :=
  (let* got := try (r_Get ("", name) : api K (Tenant Q)) in
   match got with
   | inr e => if IsNotFound e then ret false else fail e
   | inl t =>
       match ValidateMeta (ob_Labels t) with
       | Some e => let* _ := patchStatusFailed t e in ret false
       | None =>
           match Validate (ob_Spec t) opts with
           | Some e => let* _ := patchStatusFailed t e in ret false
           | None => reconcile_tenant now t
           end
       end
   end)%api.
End Tenant.
