(* ===== verification/TenantFacts.v ===== *)
(** * Tenant operator: facts

    Which subreconciler touches which objects, and what an upsert of an owned
    object leaves behind. *)

From Stdlib Require Import ssreflect ZArith Ascii String.
From stdpp Require Import base gmap list strings.
From S2P Require Import Prelude Placement ApiTypes Names Strconv Kube OperatorTypes TenantTypes TenantValidate OperatorTenant.

(** ** Calls that keep an assertion *)

(** [X] does not look at the objects of a kind. *)
Class Blind {C} (X : C -> Prop) (B S : Type) `{!Kind C B S} : Prop :=
  blind : forall c (t : gmap key (object B S)), X c -> X (set_tab t c).

Section Keeps.
Context {Q : Type} `{!Quantity Q} `{!QuantityLaws Q} `{!TenantMachinery Q}.
Context {K : Type} `{!TenantClient Q K} `{!TenantCache Q K} (objects : K -> tenancy Q).
Context (rely : tenancy Q -> tenancy Q -> Prop) `{!TenantLaws objects rely}.
Context (X : tenancy Q -> Prop) `{!Stable rely X}.
Implicit Types t : Tenant Q.

(** One step through a program; the calls themselves are left. *)
Ltac keep_step :=
  lazymatch goal with
  | |- keeps _ _ (ret _) => apply keeps_ret
  | |- keeps _ _ (fail _) => apply keeps_fail
  | |- keeps _ _ (bind _ _) => apply keeps_bind; [| intros ?]
  | |- keeps _ _ (try _) => apply keeps_try
  | |- keeps _ _ (wrap _ _) => apply keeps_wrap
  | |- keeps _ _ (each _ _) => apply keeps_each; intros ? _
  | |- keeps _ _ (match ?x with _ => _ end) => destruct x
  | |- keeps _ _ (k_Get _) => by apply (keeps_get objects rely X)
  | |- keeps _ _ (r_Get _) => first [by apply (keeps_cached_get objects rely any X) | by apply (keeps_cached_get objects rely managed X)]
  | |- keeps _ _ (r_List _ _) => by apply (keeps_cached_list objects rely managed X)
  | |- keeps _ _ (k_Create _) => by apply (keeps_create objects rely X)
  | |- keeps _ _ (k_Patch _ _) => by apply (keeps_patch objects rely X)
  | |- keeps _ _ (k_PatchStatus _ _) => by apply (keeps_patch_status objects rely X)
  | |- keeps _ _ (k_Delete _) => by apply (keeps_delete objects rely X)
  | |- keeps _ _ (raise _) => rw /raise
  end.
Ltac keep := repeat (cbv beta zeta; keep_step).

Section OneKind.
Context {B S : Type} `{!Kind (tenancy Q) B S} `{!Client K B S} `{!CachedReader K B S}.
Context `{!ClientLaws (B := B) (S := S) objects rely} `{!CachedLaws (B := B) (S := S) managed objects rely} `{!Blind X B S}.

Lemma keeps_create_owned t name labels (body : B) (st : S) : keeps objects X (create_owned t name labels body st).
Proof using All. rw /create_owned. keep. Qed.

Lemma keeps_sync_owned t labels (body : B) changed (existing : object B S) :
  keeps objects X (sync_owned t labels body changed existing).
Proof using All. rw /sync_owned. keep. Qed.

Lemma keeps_upsert_owned t name labels (body : B) (st : S) same : keeps objects X (upsert_owned t name labels body st same).
Proof using All. rw /upsert_owned. keep; [apply keeps_sync_owned | apply keeps_create_owned]. Qed.

Lemma keeps_deleteIfExists (o : object B S) : keeps objects X (deleteIfExists o).
Proof using All. rw /deleteIfExists. keep. Qed.

Lemma keeps_gc t what labels keep (before : object B S -> api K unit) :
  (forall o, keeps objects X (before o)) -> keeps objects X (gc_orphans t what labels keep before).
Proof using All. intros Hb. rw /gc_orphans /delete_orphan. keep. apply Hb. Qed.
End OneKind.

Lemma keeps_step what (m : api K unit) rest : keeps objects X m -> keeps objects X rest -> keeps objects X (step what m rest).
Proof using All. intros ? ?. rw /step. by keep. Qed.

Lemma keeps_items {A} (name : A -> string) f (l : list A) :
  (forall a, a ∈ l -> keeps objects X (f a)) -> keeps objects X (items_loop name f l).
Proof using All.
  induction l as [| a l IH]; intros Hf; simpl; keep; [apply Hf; constructor |].
  apply IH. intros x Hx. apply Hf. by constructor.
Qed.

Lemma keeps_items_gc items gc : keeps objects X items -> keeps objects X gc -> keeps objects X (items_then_gc items gc).
Proof using All. intros ? ?. rw /items_then_gc. by keep. Qed.

Lemma keeps_namespace t : Blind X unit string -> keeps objects X (Namespace t).
Proof using All. intros ?. rw /Namespace /ensure_namespace. keep. Qed.

Lemma keeps_quotas t : Blind X (ElasticQuotaSpec Q) (gmap string Q) -> keeps objects X (ElasticQuotas t).
Proof using All.
  intros HX. rw /ElasticQuotas. keep; [by apply keeps_gc; intros ?; keep |].
  induction (tns_Quotas (ob_Spec t)) as [| q l IH]; simpl; keep; [| done]. rw /upsertElasticQuota. keep. by apply keeps_upsert_owned.
Qed.

Section Secrets.
Context `{!Blind X SecretBody unit}.

Lemma keeps_secret t sub typ role src : keeps objects X (upsertCopiedSecret t sub typ role src).
Proof using All.
  rw /upsertCopiedSecret /write_secret. keep; try apply keeps_create_owned; [apply keeps_deleteIfExists | apply keeps_sync_owned].
Qed.

Lemma keeps_pull_secrets t : keeps objects X (ImagePullSecrets t).
Proof using All.
  apply keeps_items_gc; [apply keeps_items; intros ? _; apply keeps_secret | apply keeps_gc; intros ?; keep].
Qed.

Lemma keeps_secrets t : keeps objects X (Secrets t).
Proof using All.
  apply keeps_items_gc; [apply keeps_items; intros ? _; apply keeps_secret | apply keeps_gc; intros ?; keep].
Qed.
End Secrets.

Lemma keeps_configmaps t : Blind X ConfigBody unit -> keeps objects X (ConfigMaps t).
Proof using All.
  intros HX. apply keeps_items_gc; [| apply keeps_gc; intros ?; keep]. apply keeps_items. intros ? _.
  rw /upsertCopiedConfigMap. keep. apply keeps_upsert_owned.
Qed.

Lemma keeps_binding t name rbac : Blind X BindingBody unit -> keeps objects X (upsertRoleBinding t name rbac).
Proof using All.
  intros HX. rw /upsertRoleBinding. keep; try apply keeps_create_owned; try apply keeps_deleteIfExists; apply keeps_sync_owned.
Qed.

(** The accounts: [X] may look at Roles, as long as the writes of this tenant's
    Roles keep it. *)
Section Accounts.
Context `{!Blind X AccountBody unit} `{!Blind X BindingBody unit}.
Context (t : Tenant Q).
Context (Hrole : forall sa rbac, sa ∈ ir_ServiceAccounts (resources t) -> sas_RBAC sa = Some rbac ->
  keeps objects X (upsertRole t (tenant_name t (sas_Name sa)) (rb_Rules rbac))).
Context (Hgone : forall o : RoleObject, keeps objects X (k_Delete o)).

Lemma keeps_role_gone (o : RoleObject) : keeps objects X (deleteIfExists o).
Proof using All. rw /deleteIfExists. keep_step; [keep_step; apply Hgone |]. keep. Qed.

Lemma keeps_account sa : sa ∈ ir_ServiceAccounts (resources t) -> keeps objects X (upsertSA t sa).
Proof using All.
  intros Hin. rw /upsertSA. cbv zeta. apply keeps_step.
  { rw /upsertServiceAccountObj. keep. apply keeps_upsert_owned. }
  destruct (sas_RBAC sa) as [rbac |] eqn:Hr.
  - destruct (useClusterRole rbac); (apply keeps_step; [| apply keeps_step; [by apply keeps_binding | keep]]).
    + apply keeps_role_gone. + by apply Hrole.
  - apply keeps_step; [apply keeps_deleteIfExists |]. apply keeps_step; [apply keeps_role_gone | keep].
Qed.

Lemma keeps_accounts : keeps objects X (ServiceAccounts t).
Proof using All.
  apply keeps_items_gc; [apply keeps_items; intros sa ?; by apply keeps_account |].
  apply keeps_gc. intros o. rw /before_account. keep; [apply keeps_deleteIfExists | apply keeps_role_gone].
Qed.
End Accounts.

Lemma keeps_volumes t :
  (forall v, v ∈ ir_Volumes (resources t) -> keeps objects X (ensureVolumePVC t v)) -> keeps objects X (Volumes t).
Proof using All. intros Hv. by apply keeps_items. Qed.

Lemma keeps_volume t v : Blind X (ClaimSpec Q) string -> keeps objects X (ensureVolumePVC t v).
Proof using All. intros HX. rw /ensureVolumePVC /syncVolumeMeta. keep. Qed.

(** ** The whole pass *)

Section Pass.
Context `{!Blind X (TenantSpec Q) (TenantStatus Q)}.

Lemma keeps_report now t a : keeps objects X (report now t a).
Proof using All. rw /report /patchStatus. keep. Qed.

Lemma keeps_requeue now t a e : keeps objects X (recordAndRequeue now t a e).
Proof using All. rw /recordAndRequeue. keep_step; [apply keeps_report | keep]. Qed.

Lemma keeps_init now t steps : Forall (fun s => keeps objects X (s.1.2 t)) steps -> forall a, keeps objects X (run_init now t a steps).
Proof using All.
  induction 1 as [| [[name f] put] rest Hf _ IH]; intros a; simpl.
  - keep_step; [apply keeps_report | keep].
  - keep_step; [done |]. cbv zeta. keep_step; [apply keeps_requeue | apply IH].
Qed.

Lemma keeps_tenant now t :
  keeps objects X (Namespace t) -> keeps objects X (ElasticQuotas t) -> keeps objects X (ImagePullSecrets t) ->
  keeps objects X (Secrets t) -> keeps objects X (ConfigMaps t) -> keeps objects X (ServiceAccounts t) ->
  keeps objects X (Volumes t) -> keeps objects X (reconcile_tenant now t).
Proof using All.
  intros. rw /reconcile_tenant. cbv zeta. keep_step; [done |]. destruct a as [[ready msg] [e |]]; [apply keeps_requeue |].
  keep_step; [done |]. keep_step; [apply keeps_requeue |]. apply keeps_init. by repeat constructor.
Qed.

Lemma keeps_reconcile opts now name :
  (forall t, ValidateMeta (ob_Labels t) = None -> Validate (ob_Spec t) opts = None -> keeps objects X (reconcile_tenant now t)) ->
  keeps objects X (Reconcile opts now name).
Proof using All.
  intros Ht. rw /Reconcile /patchStatusFailed. keep_step; [keep |]. destruct a as [t | e]; [| keep].
  destruct (ValidateMeta (ob_Labels t)) eqn:Hm; [keep |]. destruct (Validate (ob_Spec t) opts) eqn:Hv; [keep | by apply Ht].
Qed.
End Pass.
End Keeps.

(** ** Specs of owned objects *)

Section OwnedSpecs.
Context {Q : Type} `{!Quantity Q} `{!QuantityLaws Q} `{!TenantMachinery Q}.
Context {K : Type} (objects : K -> tenancy Q) (rely : tenancy Q -> tenancy Q -> Prop).
Context {B S : Type} `{!Kind (tenancy Q) B S} `{!Client K B S} `{!CachedReader K B S}.
Context `{!ClientLaws (B := B) (S := S) objects rely} `{!CachedLaws (B := B) (S := S) managed objects rely}.
Context (mine : key -> Prop) (good : key -> B -> Prop) (X : tenancy Q -> Prop) `{!Stable rely X}.
Context (Hrely : forall c c', rely c c' -> specs_stay (B := B) (S := S) mine c c').
Context (Htab : forall (t : gmap key (object B S)) c, tab (set_tab t c) = t).
Context (HX : forall c (t : gmap key (object B S)), X c -> X (set_tab t c)).
(** A spec of this kind is replaced as a whole. *)
Context (Hmerge : forall before after cur new : B,
  spec_merged (C := tenancy Q) before after cur new -> new = cur \/ defaulted (C := tenancy Q) after new).
Implicit Types t : Tenant Q.
Local Notation I := (with_specs (S := S) mine good X).

#[local] Instance stable_owned : Stable rely I.
Proof using All. apply stable_and; [done | by apply stable_specs_ok]. Qed.

Lemma create_owned_ok t name labels (body : B) (st : S) :
  (forall b', defaulted (C := tenancy Q) body b' -> good (target_ns t, name) b') ->
  keeps objects I (create_owned t name labels body st).
Proof using All.
  intros Hd. rw /create_owned. case_match; [| apply keeps_ret]. apply keeps_bind; [| intros ?; apply keeps_ret].
  set (want := {| ob_Meta := _ |}). assert (forall c o', I c -> stored want o' -> I (put o' c)) as Hput.
  { intros c o' [HXc Hok] (Hobj & _ & Hdef & _). split; [by apply HX |]. apply specs_ok_set; [done | done |]. intros _.
    assert (ob_key o' = (target_ns t, name)) as -> by (rw /ob_key /ob_Name /ob_Namespace Hobj //). by apply Hd. }
  by apply keeps_try, (triple_create objects rely); [apply _ | apply _ | intros; apply Hput | intros; apply Hput |].
Qed.

(** A patch that leaves the spec alone or sends one that is good, whatever
    version of the object it starts from. *)
Lemma keeps_good_patch (before after : object B S) :
  ob_Spec after = ob_Spec before \/ (forall b', defaulted (C := tenancy Q) (ob_Spec after) b' -> good (ob_key after) b') ->
  keeps objects I (k_Patch before after).
Proof using All.
  intros Hg. apply (triple_patch objects rely); [apply _ | apply _ | | done].
  intros c o o' [HXc Hok] Ho (_ & _ & _ & _ & _ & _ & Hkeep & Hm).
  assert (I (set_tab (<[ob_key after := o']> (tab c)) c)) as HI; [| by split].
  split; [by apply HX |]. apply specs_ok_set; [done | done |]. intros Hmine. pose proof (Hok _ _ Hmine Ho) as Hold.
  destruct Hg as [Hs | Hg]; [by destruct (Hkeep (eq_sym Hs)) as [-> _] |].
  apply Hmerge in Hm as [-> | Hm]; [done | by apply Hg].
Qed.

Lemma sync_owned_ok t labels (body : B) (changed : bool) (existing : object B S) :
  (forall b', defaulted (C := tenancy Q) body b' -> good (ob_key existing) b') ->
  keeps objects I (sync_owned t labels body changed existing).
Proof using All.
  intros Hd. rw /sync_owned. cbv zeta.
  destruct (hasOwner _ _); [destruct (changed || _) | destruct (SetController _ _)]; try apply keeps_ret;
    (apply keeps_bind; [apply keeps_try, keeps_good_patch; destruct changed; [by right | by left] | intros ?; apply keeps_ret]).
Qed.

Lemma upsert_owned_ok t name labels (body : B) (st : S) same :
  (forall b', defaulted (C := tenancy Q) body b' -> good (target_ns t, name) b') ->
  keeps objects I (upsert_owned t name labels body st same).
Proof using All.
  intros Hd. rw /upsert_owned. apply (triple_bind objects _ _ _ (fun r c => I c /\ forall cur, r = inl (inl cur) -> ob_key cur = (target_ns t, name)));
    [| | by intros e c [? _]].
  { apply triple_try, (triple_cached_read objects rely managed); [apply _ | apply _ | | by intros; split].
    intros c cur Hc Hk _. split; [done |]. by intros cur' [= <-]. }
  intros [cur | e]; apply triple_pure => Hk.
  - apply sync_owned_ok. by rw (Hk cur).
  - case_match; [by apply create_owned_ok | apply keeps_ret].
Qed.
End OwnedSpecs.

(** ** Roles *)

(** Others may do anything but write the rules of Roles under our names or
    create such Roles. *)
Definition roles_stay {Q} (mine : key -> Prop) (c c' : tenancy Q) : Prop := specs_stay (B := RoleBody) (S := unit) mine c c'.

Definition roles_harmless {Q} (mine : key -> Prop) : tenancy Q -> Prop :=
  specs_ok (B := RoleBody) (S := unit) mine (fun _ b => harmless (ro_Rules b)).

Section Roles.
Context {Q : Type} `{!Quantity Q} `{!QuantityLaws Q} `{!TenantMachinery Q}.
Context {K : Type} `{!TenantClient Q K} `{!TenantCache Q K} (objects : K -> tenancy Q) (mine : key -> Prop).
Context (Hlaws : TenantLaws objects (roles_stay mine)).
Local Notation rely := (roles_stay (Q := Q) mine).
Local Notation X := (roles_harmless (Q := Q) mine).

#[local] Instance stable_roles : Stable rely X.
Proof. by apply stable_specs_ok. Qed.

Lemma keeps_harmless_role (t : Tenant Q) name rules : harmless rules -> keeps objects X (upsertRole t name rules).
Proof using All.
  intros Hr. rw /upsertRole. apply keeps_bind; [| intros r; rw /raise; repeat case_match; (apply keeps_fail || apply keeps_ret)].
  eapply triple_consequence.
  - apply (upsert_owned_ok objects rely mine (fun _ b => harmless (ro_Rules b)) (fun _ => True)); try done; try apply _.
    + by intros before after cur new [_ [-> | ->]]; [left | right].
    + by intros b' <-.
  - by intros c Hc; split.
  - by intros r c [_ Hc].
Qed.

Lemma keeps_roles (opts : Options) now name : keeps objects X (Reconcile opts now name).
Proof using All.
  assert (forall o : RoleObject, keeps objects X (k_Delete o)) as Hgone.
  { intros o. eapply triple_consequence; [apply (delete_ok objects rely mine (fun _ b => harmless (ro_Rules b)) (fun _ => True)); try done; try apply _ |
      by intros c Hc; split | by intros r c [_ Hc]]. by intros before after cur new [H _] ->; rewrite (H eq_refl). }
  apply (keeps_reconcile objects rely); [apply _ | by intros ? | intros t _ Hv].
  rw /Validate !first_of_cons in Hv. destruct Hv as (_ & _ & Hi & _). apply validateInitResources_none in Hi as (_ & _ & _ & _ & _ & Hacc).
  apply (keeps_tenant objects rely); try apply _; try (by intros ?).
  - by apply (keeps_namespace objects rely); [apply _ | intros ?].
  - by apply (keeps_quotas objects rely); [apply _ | intros ?].
  - by apply (keeps_pull_secrets objects rely); [apply _ | intros ?].
  - by apply (keeps_secrets objects rely); [apply _ | intros ?].
  - by apply (keeps_configmaps objects rely); [apply _ | intros ?].
  - apply (keeps_accounts objects rely); try apply _; try (by intros ?); try done. intros sa rbac Hin Hr. apply keeps_harmless_role.
    rw Forall_forall in Hacc. destruct (Hacc _ Hin) as [_ Hrb]. destruct (Hrb _ Hr) as [_ Hrules].
    eapply (rules_harmless 0), validateRBACRules_none; done.
  - apply (keeps_volumes objects rely); [apply _ |]. intros v Hv. by apply (keeps_volume objects rely); [apply _ | intros ?].
Qed.
End Roles.

(** ** Data volumes *)

(** A claim is still there with its spec and owners; one that is not a managed
    volume is the same. *)
Definition claim_kept {Q} (o o' : Claim Q) : Prop :=
  ob_Spec o' = ob_Spec o /\ ob_Owners o' = ob_Owners o /\ (isManagedVolume o = false -> o' = o).

Definition claims_kept {Q} (c c' : tenancy Q) : Prop :=
  forall k o, tn_Claims c !! k = Some o -> exists o', tn_Claims c' !! k = Some o' /\ claim_kept o o'.

Lemma claims_kept_trans {Q} (a b c : tenancy Q) : claims_kept a b -> claims_kept b c -> claims_kept a c.
Proof.
  intros Hab Hbc k o Ho. destruct (Hab k o Ho) as (o1 & Ho1 & Hs1 & Hw1 & Hu1). destruct (Hbc k o1 Ho1) as (o2 & Ho2 & Hs2 & Hw2 & Hu2).
  exists o2. split; [done |]. split_and!; [congruence | congruence |]. intros Hm. rw -(Hu1 Hm). apply Hu2. by rw (Hu1 Hm).
Qed.

Section Claims.
Context {Q : Type} `{!Quantity Q} `{!QuantityLaws Q} `{!TenantMachinery Q}.
Context {K : Type} `{!TenantClient Q K} `{!TenantCache Q K} (objects : K -> tenancy Q).
Context (Hlaws : TenantLaws objects claims_kept) (c0 : tenancy Q).
Local Notation X := (claims_kept c0).

#[local] Instance stable_claims : Stable claims_kept X.
Proof. intros c c' Hr Hk. by eapply claims_kept_trans. Qed.

(** A patch that leaves spec and owners alone, of a claim that was not there
    at the start or was a managed volume. *)
Lemma keeps_claim_patch (cur after : Claim Q) :
  ob_key after = ob_key cur -> ob_Spec after = ob_Spec cur -> ob_Owners after = ob_Owners cur ->
  (forall o, tn_Claims c0 !! ob_key cur = Some o -> isManagedVolume o = true) -> keeps objects X (k_Patch cur after).
Proof using All.
  intros Hk Hs Hw Hm. apply (triple_patch objects claims_kept); [apply _ | apply _ | | done].
  intros c o o' Hc Ho (_ & _ & _ & How & _ & _ & Hspec & _). rw Hk in Ho |- *.
  assert (X (set_tab (<[ob_key cur := o']> (tab c)) c)) as HX; [| by split].
  intros k x Hx. destruct (Hc k x Hx) as (x' & Hx' & Hxs & Hxo & Hxu). destruct (decide (k = ob_key cur)) as [-> | Hne].
  - simpl in Ho. simplify_eq. exists o'. split; [apply lookup_insert_eq |]. rw /claim_kept (Hm x Hx). split_and!; [| | done].
    + rw -Hxs. by apply Hspec. + by rw How decide_True.
  - exists x'. split; [by rw /= lookup_insert_ne | done].
Qed.

Lemma keeps_new_claim (o : Claim Q) : keeps objects X (k_Create o).
Proof using All.
  assert (forall c o', X c -> tab c !! ob_key o = None -> stored o o' -> X (put o' c)) as Hput.
  { intros c o' Hc Hn (Hobj & _). assert (ob_key o' = ob_key o) as Hk by (rw /ob_key /ob_Name /ob_Namespace Hobj //).
    intros k x Hx. destruct (Hc k x Hx) as (x' & Hx' & Hxk). exists x'. split; [| done]. rw /put /= lookup_insert_ne //.
    intros <-. rw Hk in Hx'. simpl in Hn. congruence. }
  by apply (triple_create objects claims_kept); [apply _ | apply _ | intros; apply Hput | intros; apply Hput |].
Qed.

Lemma keeps_claim (t : Tenant Q) v : keeps objects X (ensureVolumePVC t v).
Proof using All.
  rw /ensureVolumePVC. case_match; [apply keeps_ret |]. cbv zeta.
  apply (triple_bind objects _ _ _ (fun r c => X c /\ forall cur, r = inl (inl cur) ->
    forall o, tn_Claims c0 !! ob_key cur = Some o -> isManagedVolume o = false -> cur = o)); [| | by intros e c [? _]].
  { apply triple_try, (triple_get objects claims_kept); [apply _ | apply _ | | by intros; split].
    intros c cur Hc Hcur Hk. split; [done |]. intros cur' [= <-] o Ho Hu. rw Hk in Ho. destruct (Hc _ _ Ho) as (o' & Ho' & _ & _ & Heq).
    simpl in Hcur. rw -(Heq Hu). congruence. }
  intros [cur | e]; last first.
  { eapply (triple_consequence objects X _ _ (fun _ => X)); [| by intros c [? _] | done]. case_match; [| apply keeps_ret]. case_match; [| apply keeps_ret].
    apply keeps_bind; [apply keeps_try, keeps_new_claim | intros ?; apply keeps_ret]. }
  apply (triple_consequence objects (fun c => X c /\ (forall o, tn_Claims c0 !! ob_key cur = Some o -> isManagedVolume o = false -> cur = o))
    _ _ (fun _ => X)); [| intros c [Hc Hi]; split; [done | by apply Hi] | done].
  apply triple_pure => Hi. destruct (isManagedVolume cur) eqn:Hm; simpl; [| apply keeps_ret].
  apply keeps_bind; [apply keeps_try | intros ?; apply keeps_ret]. rw /syncVolumeMeta. cbv zeta. case_match; [| apply keeps_ret].
  apply keeps_bind; [| intros ?; apply keeps_ret]. apply keeps_claim_patch; [by case_match | by case_match | by case_match |].
  intros o Ho. destruct (isManagedVolume o) eqn:Hu; [done |]. by rw (Hi o Ho Hu) Hu in Hm.
Qed.

Lemma keeps_claims (opts : Options) now name : keeps objects X (Reconcile opts now name).
Proof using All.
  apply (keeps_reconcile objects claims_kept); [apply _ | by intros ? | intros t _ _].
  apply (keeps_tenant objects claims_kept); try apply _; try (by intros ?).
  - by apply (keeps_namespace objects claims_kept); [apply _ | intros ?].
  - by apply (keeps_quotas objects claims_kept); [apply _ | intros ?].
  - by apply (keeps_pull_secrets objects claims_kept); [apply _ | intros ?].
  - by apply (keeps_secrets objects claims_kept); [apply _ | intros ?].
  - by apply (keeps_configmaps objects claims_kept); [apply _ | intros ?].
  - apply (keeps_accounts objects claims_kept); try apply _; try (by intros ?).
    + intros sa rbac _ _. assert (Blind X RoleBody unit) by (by intros ?). rw /upsertRole.
      apply keeps_bind; [apply (keeps_upsert_owned objects claims_kept X) |].
      intros [[? ?] |]; [apply keeps_fail | apply keeps_ret].
    + intros o. by apply (keeps_delete objects claims_kept); [apply _ | intros ?].
  - apply (keeps_volumes objects claims_kept); [apply _ |]. intros v _. apply keeps_claim.
Qed.
End Claims.

(** ** Objects of others *)

(** Controlled by an object of another name, and not owned by the tenant. *)
Definition foreign {Q} `{!Quantity Q} `{!QuantityLaws Q} `{!TenantMachinery Q} {B S} (t : Tenant Q) (o : object B S) : Prop :=
  (exists r, ControllerOf (ob_Owners o) = Some r /\ ow_Name r <> ob_Name t) /\ hasOwner (ob_Owners o) t = false.

Section Foreign.
Context {Q : Type} `{!Quantity Q} `{!QuantityLaws Q} `{!TenantMachinery Q}.
Context {K : Type} (objects : K -> tenancy Q) {B S : Type} `{!Kind (tenancy Q) B S} `{!Client K B S} `{!CachedReader K B S}.
Context `{!ClientLaws (B := B) (S := S) objects eq} `{!CachedLaws (B := B) (S := S) managed objects eq}.
Context `{!CurrentCache (B := B) (S := S) managed objects eq}.
Context (Htab : forall (t : gmap key (object B S)) c, tab (set_tab t c) = t) (t : Tenant Q) (k : key) (o : object B S).

Definition stands (c : tenancy Q) : Prop := tab c !! k = Some o.
Local Notation X := stands.

Lemma stands_create (x : object B S) : keeps objects X (k_Create x).
Proof using ClientLaws0 Htab.
  assert (forall c x', X c -> tab c !! ob_key x = None -> stored x x' -> X (put x' c)) as Hput.
  { intros c x' Hc Hn (Hobj & _). assert (ob_key x' = ob_key x) as Hk by (rw /ob_key /ob_Name /ob_Namespace Hobj //).
    rw /stands /put Htab lookup_insert_ne // Hk. intros Heq. rw Heq in Hn. rw /stands in Hc. congruence. }
  by apply (triple_create objects eq); [apply _ | apply _ | intros; apply Hput | intros; apply Hput |].
Qed.

Lemma stands_patch (before after : object B S) : ob_key after <> k -> keeps objects X (k_Patch before after).
Proof using ClientLaws0 Htab.
  intros Hne. apply (triple_patch objects eq); [apply _ | apply _ | | done]. intros c x x' Hc _ _.
  assert (X (set_tab (<[ob_key after := x']> (tab c)) c)); [| done]. by rw /stands Htab lookup_insert_ne.
Qed.

Lemma stands_delete (x : object B S) : ob_key x <> k -> keeps objects X (k_Delete x).
Proof using ClientLaws0 Htab.
  intros Hne. apply (triple_delete objects eq); [apply _ | apply _ | | done]. intros c _ Hc. by rw /stands Htab lookup_delete_ne.
Qed.

Lemma stands_delete_if (x : object B S) : ob_key x <> k -> keeps objects X (deleteIfExists x).
Proof using ClientLaws0 Htab.
  intros Hne. rw /deleteIfExists. apply keeps_bind; [by apply keeps_try, stands_delete | intros r].
  repeat case_match; (apply keeps_ret || apply keeps_fail).
Qed.

(** What a read through the cache can return for it. *)
Lemma stands_get gk {A} (f : object B S + api_error -> api K A) :
  (forall cur, ob_key cur = gk -> managed cur = true -> (gk = k -> cur = o) -> keeps objects X (f (inl cur))) ->
  (forall e, keeps objects X (f (inr e))) -> keeps objects X (bind (try (r_Get gk : api K (object B S))) f).
Proof using CachedLaws0 CurrentCache0.
  intros Hf He. apply (triple_bind objects _ _ _ (fun r c => X c /\ forall cur, r = inl (inl cur) ->
    ob_key cur = gk /\ managed cur = true /\ (gk = k -> cur = o))); [| | by intros e c [? _]].
  { apply triple_try, (triple_cached_get objects eq managed); [apply _ | apply _ | | by intros; split].
    intros c cur Hc Hcur Hk Hm. split; [done |]. intros cur' [= <-]. split_and!; [done | done |]. intros ->. rw /stands in Hc. congruence. }
  intros [cur | e]; [| by intros s [Hc _]; apply He].
  intros s [Hc Hi]. destruct (Hi cur eq_refl) as (? & ? & ?). by apply Hf.
Qed.

Context (Hsafe : managed o = true -> foreign t o).

Lemma stands_create_owned name labels (body : B) (st : S) : keeps objects X (create_owned t name labels body st).
Proof using ClientLaws0 Htab. rw /create_owned. case_match; [| apply keeps_ret]. apply keeps_bind; [apply keeps_try, stands_create | intros ?; apply keeps_ret]. Qed.

Lemma stands_sync labels (body : B) changed (cur : object B S) :
  managed cur = true -> (ob_key cur = k -> cur = o) -> keeps objects X (sync_owned t labels body changed cur).
Proof using ClientLaws0 Htab Hsafe.
  intros Hm Hk. rw /sync_owned. cbv zeta.
  destruct (decide (ob_key cur = k)) as [He | Hne].
  { rw (Hk He) in Hm |- *. destruct (Hsafe Hm) as [(r & Hr & Hn) ->].
    destruct (set_controller_other (ob_Meta t) _ _ Hr Hn) as [e ->]. apply keeps_ret. }
  destruct (hasOwner _ _); [destruct (changed || _) | destruct (SetController _ _)]; try apply keeps_ret;
    (apply keeps_bind; [apply keeps_try, stands_patch; by destruct changed | intros ?; apply keeps_ret]).
Qed.

Lemma stands_upsert name labels (body : B) (st : S) same : keeps objects X (upsert_owned t name labels body st same).
Proof using All.
  rw /upsert_owned. apply stands_get; [| intros e; case_match; [apply stands_create_owned | apply keeps_ret]].
  intros cur Hck Hm Hk. apply stands_sync; [done |]. by rw Hck.
Qed.

Lemma stands_gc what labels keep (before : object B S -> api K unit) :
  (forall x, keeps objects X (before x)) -> keeps objects X (gc_orphans t what labels keep before).
Proof using All.
  intros Hb. rw /gc_orphans. apply (triple_bind objects _ _ _ (fun r c => X c /\ forall os, r = inl os ->
    forall x, x ∈ os -> ob_key x = k -> x = o /\ managed o = true)); [| | by intros e c [? _]].
  { apply (triple_wrap objects _ _ _ (fun r c => X c /\ forall os, r = inl os -> forall x, x ∈ os -> ob_key x = k -> x = o /\ managed o = true));
      [| done | by intros e c [? _]].
    apply (triple_cached_list objects eq managed); [apply _ | apply _ | | by intros; split]. intros c os Hc Hos. split; [done |].
    intros os' [= <-] x Hx Hk. destruct (Hos x Hx) as (Hl & _ & Hv). rw Hk in Hl. rw /stands in Hc. by simplify_eq. }
  intros os s [Hc Hos]. refine (keeps_each objects X _ os _ s Hc). intros x Hx. rw /delete_orphan.
  destruct (hasOwner (ob_Owners x) t) eqn:Ho; simpl; [| apply keeps_ret]. case_match; [apply keeps_ret |].
  apply keeps_bind; [apply Hb | intros _]. apply keeps_bind; [| intros r; repeat case_match; (apply keeps_ret || apply keeps_fail)].
  apply keeps_try, stands_delete. intros Hk. destruct (Hos os eq_refl x Hx Hk) as [-> Hm]. destruct (Hsafe Hm) as [_ Hn]. congruence.
Qed.
End Foreign.

(** A subreconciler that does not write what the assertion is about. *)
Ltac blind_step objects rely :=
  lazymatch goal with
  | |- keeps _ _ (Namespace _) => apply (keeps_namespace objects rely)
  | |- keeps _ _ (ElasticQuotas _) => apply (keeps_quotas objects rely)
  | |- keeps _ _ (ImagePullSecrets _) => apply (keeps_pull_secrets objects rely)
  | |- keeps _ _ (Secrets _) => apply (keeps_secrets objects rely)
  | |- keeps _ _ (ConfigMaps _) => apply (keeps_configmaps objects rely)
  | |- keeps _ _ (Volumes _) => apply (keeps_volumes objects rely); [apply _ | intros ? _; apply (keeps_volume objects rely)]
  end; try apply _; by intros ?.

Section TenantForeign.
Context {Q : Type} `{!Quantity Q} `{!QuantityLaws Q} `{!TenantMachinery Q}.
Context {K : Type} `{!TenantClient Q K} `{!TenantCache Q K} (objects : K -> tenancy Q) (Hlaws : TenantLaws objects eq).
Context (Hcurrent : TenantCurrent objects eq) (t : Tenant Q).

Lemma blind_accounts (X : tenancy Q -> Prop) :
  Blind X AccountBody unit -> Blind X BindingBody unit -> Blind X RoleBody unit -> keeps objects X (ServiceAccounts t).
Proof using All.
  intros H1 H2 H3. apply (keeps_accounts objects eq); try apply _.
  - intros sa rbac _ _. rw /upsertRole. apply keeps_bind; [apply (keeps_upsert_owned objects eq X) |].
    intros [[? ?] |]; [apply keeps_fail | apply keeps_ret].
  - intros o. apply (keeps_delete objects eq X). exact H3.
Qed.

Lemma foreign_quota now k (o : Quota Q) :
  (managed o = true -> foreign t o) -> keeps objects (stands k o) (reconcile_tenant now t).
Proof using All.
  intros Hs. apply (keeps_tenant objects eq); try apply _; try (by intros ?);
    try blind_step objects (@eq (tenancy Q)); [| by apply blind_accounts; intros ?].
  rw /ElasticQuotas. apply keeps_bind; [apply keeps_try, stands_gc; try apply _; [done | done | intros ?; apply keeps_ret] |]. intros [_ | e]; [| apply keeps_ret].
  induction (tns_Quotas (ob_Spec t)) as [| q l IH]; simpl; [apply keeps_ret |].
  apply keeps_bind; [| intros [[[ready used] msg] [e |]]; [apply keeps_ret | apply keeps_bind; [done | intros ?; apply keeps_ret]]].
  rw /upsertElasticQuota. cbv zeta. apply keeps_bind; [apply stands_upsert; try apply _; done |]. intros [[[] e] |]; try apply keeps_ret.
  apply keeps_bind; [| intros ?; apply keeps_ret]. apply keeps_try, (keeps_cached_get objects eq managed); apply _.
Qed.

Lemma foreign_config now k (o : object ConfigBody unit) :
  (managed o = true -> foreign t o) -> keeps objects (stands k o) (reconcile_tenant now t).
Proof using All.
  intros Hs. apply (keeps_tenant objects eq); try apply _; try (by intros ?);
    try blind_step objects (@eq (tenancy Q)); [| by apply blind_accounts; intros ?].
  apply (keeps_items_gc objects eq); [apply _ | | apply stands_gc; try apply _; [done | done | intros ?; apply keeps_ret]]. apply (keeps_items objects eq); [apply _ |]. intros spec _.
  rw /upsertCopiedConfigMap. cbv zeta. case_match; [apply keeps_ret |].
  apply keeps_bind; [apply keeps_try, (keeps_get objects eq); apply _ |]. intros [src | e]; [| apply keeps_ret].
  apply keeps_bind; [apply stands_upsert; try apply _; done | intros ?; apply keeps_ret].
Qed.

Lemma foreign_account now k (o : Account) :
  (managed o = true -> foreign t o) -> keeps objects (stands k o) (reconcile_tenant now t).
Proof using All.
  intros Hs. assert (Blind (stands (Q := Q) k o) BindingBody unit) by (by intros ?). assert (Blind (stands (Q := Q) k o) RoleBody unit) by (by intros ?).
  apply (keeps_tenant objects eq); try apply _; try (by intros ?); try blind_step objects (@eq (tenancy Q)).
  apply (keeps_items_gc objects eq); [apply _ | |].
  - apply (keeps_items objects eq); [apply _ |]. intros sa _. rw /upsertSA. cbv zeta. apply (keeps_step objects eq); [apply _ | |].
    { rw /upsertServiceAccountObj. apply keeps_bind; [apply stands_upsert; try apply _; done | intros [[? ?] |]; [apply keeps_fail | apply keeps_ret]]. }
    destruct (sas_RBAC sa) as [rbac |].
    + destruct (useClusterRole rbac); (apply (keeps_step objects eq); [apply _ | | apply (keeps_step objects eq); [apply _ | apply (keeps_binding objects eq); apply _ | apply keeps_ret]]);
        try (by intros ?); [refine (keeps_deleteIfExists objects eq (stands k o) _) |].
      rw /upsertRole. apply keeps_bind; [refine (keeps_upsert_owned objects eq (stands k o) _ _ _ _ _ _) | intros [[? ?] |]; [apply keeps_fail | apply keeps_ret]].
    + apply (keeps_step objects eq); [apply _ | refine (keeps_deleteIfExists objects eq (stands k o) _) |].
      apply (keeps_step objects eq); [apply _ | refine (keeps_deleteIfExists objects eq (stands k o) _) | apply keeps_ret].
  - apply stands_gc; try apply _; [done | done |]. intros x. rw /before_account.
    apply keeps_bind; [apply keeps_try; refine (keeps_deleteIfExists objects eq (stands k o) _) | intros _].
    apply keeps_bind; [apply keeps_try; refine (keeps_deleteIfExists objects eq (stands k o) _) | intros _; apply keeps_ret].
Qed.

Lemma foreign_secret now k (o : Secret) : managed o = false -> keeps objects (stands k o) (reconcile_tenant now t).
Proof using All.
  intros Hm. assert (forall sub typ role src, keeps objects (stands k o) (upsertCopiedSecret t sub typ role src)) as Hup.
  { intros sub typ role src. rw /upsertCopiedSecret. case_match; [apply keeps_ret |].
    apply keeps_bind; [apply keeps_try, (keeps_get objects eq); apply _ |]. intros [x | e]; [| apply keeps_ret]. rw /write_secret. cbv zeta.
    apply stands_get; [apply _ | apply _ | |].
    - intros cur Hck Hv Hk. assert (ob_key cur <> k) as Hne by (intros He; rw -Hck in Hk; rw (Hk He) in Hv; congruence).
      case_match.
      + apply keeps_bind; [apply keeps_try, stands_delete_if; try apply _; done | intros [_ | e]; [| apply keeps_ret]].
        apply keeps_bind; [apply stands_create_owned; try apply _; done | intros ?; apply keeps_ret].
      + apply keeps_bind; [| intros ?; apply keeps_ret]. apply stands_sync; try apply _; try done; congruence.
    - intros e. case_match; [| apply keeps_ret]. apply keeps_bind; [apply stands_create_owned; try apply _; done | intros ?; apply keeps_ret]. }
  assert (forall names role, keeps objects (stands k o) (gcOrphanSecrets t names role)) as Hgc.
  { intros names role. apply stands_gc; try apply _; [done | congruence | intros ?; apply keeps_ret]. }
  apply (keeps_tenant objects eq); try apply _; try (by intros ?); try blind_step objects (@eq (tenancy Q)).
  - apply (keeps_items_gc objects eq); [apply _ | apply (keeps_items objects eq); [apply _ | intros s _; apply Hup] | apply Hgc].
  - apply (keeps_items_gc objects eq); [apply _ | apply (keeps_items objects eq); [apply _ | intros s _; apply Hup] | apply Hgc].
  - by apply blind_accounts; intros ?.
Qed.
End TenantForeign.

(** ** Tenant operator: quotas

    Without interference: what a pass that succeeds leaves behind of the
    tenant's elastic quotas, and the status it writes. *)

(** ** Placing an owned object *)

Section Placing.
Context {Q : Type} `{!Quantity Q} `{!QuantityLaws Q} `{!TenantMachinery Q}.
Context {K : Type} (objects : K -> tenancy Q) {B S : Type} `{!Kind (tenancy Q) B S} `{!Client K B S} `{!CachedReader K B S}.
Context `{!ClientLaws (B := B) (S := S) objects eq} `{!CachedLaws (B := B) (S := S) managed objects eq}.
Context `{!CurrentCache (B := B) (S := S) managed objects eq}.
Context (Htab : forall (t : gmap key (object B S)) c, tab (set_tab t c) = t).
Context (Hmerge : forall before after cur new : B, spec_merged (C := tenancy Q) before after cur new -> replaces before after cur new).
Context (t : Tenant Q) (name : string) (labels : gmap string string) (good : B -> Prop).
Context (Hlabels : forall k v, labels !! k = Some v -> v <> "").

Definition placed (c : tenancy Q) : Prop :=
  exists o : object B S, tab c !! (target_ns t, name) = Some o /\ good (ob_Spec o) /\ labels ⊆ ob_Labels o /\ hasOwner (ob_Owners o) t = true.

(** An assertion that survives writes of this object. *)
Context (Y : tenancy Q -> Prop).
Context (HY : forall c (o : object B S), ob_key o = (target_ns t, name) -> Y c -> Y (set_tab (<[(target_ns t, name) := o]> (tab c)) c)).

Local Notation post := (fun (r : option (stage * api_error) + api_error) c => Y c /\ (r = inl None -> placed c)).

Lemma set_controller_owns m refs refs' : m = ob_Meta t -> SetController m refs = inl refs' -> hasOwner refs' t = true.
Proof.
  intros -> H. destruct (set_controller_ok _ _ _ H) as (r & Hr & Hu). apply controller_of in Hr as [Hin _]. apply existsb_exists. exists r.
  split; [by apply list_elem_of_In |]. rw Hu. apply String.eqb_refl.
Qed.

Lemma relabelled (existing : gmap string string) : labels ⊆ label_changes labels existing ∪ existing.
Proof using Hlabels.
  apply map_subseteq_spec. intros k v Hk. destruct (label_changes labels existing !! k) as [v' |] eqn:Hc.
  - rw (lookup_union_Some_l _ _ _ _ Hc). apply map_lookup_filter_Some in Hc as [Hc _]. congruence.
  - rw lookup_union_r //. apply map_lookup_filter_None in Hc as [Hc | Hc]; [congruence |]. specialize (Hc v Hk). simpl in Hc.
    apply dec_stable in Hc. specialize (Hlabels k v Hk). rw /map_get in Hc. destruct (existing !! k) as [x |]; simpl in Hc; congruence.
Qed.

Lemma create_places (body : B) (st : S) :
  (forall b', defaulted (C := tenancy Q) body b' -> good b') -> triple objects Y (create_owned t name labels body st) post.
Proof using All.
  intros Hd. rw /create_owned. destruct (SetController (ob_Meta t) []) as [refs | e] eqn:Hs; [| by intros s HYs; split].
  set (want := {| ob_Meta := _ |}).
  assert (forall c o', Y c -> stored want o' -> Y (put o' c) /\ placed (put o' c)) as Hput.
  { intros c o' Hc (Hobj & Hown & Hdef & _). assert (ob_key o' = (target_ns t, name)) as Hk by (rw /ob_key /ob_Name /ob_Namespace Hobj //).
    rw /put Hk. split; [by apply HY |]. exists o'. rw Htab lookup_insert_eq. split_and!; [done | by apply Hd | rw /ob_Labels Hobj // |].
    rw Hown. by eapply set_controller_owns. }
  apply (triple_bind objects _ _ _ (fun r c => Y c /\ forall o, r = inl (inl o) -> placed c)); [| | by intros e c [? _]].
  - apply triple_try, (triple_create objects eq); [apply _ | apply _ | | | by intros; split].
    + intros c o' Hc _ Hst. destruct (Hput c o' Hc Hst). by split.
    + intros c o' e Hc _ Hst. destruct (Hput c o' Hc Hst). by split.
  - intros [o | e] s [HYs Hp]; (split; [done |]); [intros _; by apply (Hp o) | done].
Qed.

Lemma sync_places (body : B) (changed : bool) (existing : object B S) :
  ob_key existing = (target_ns t, name) -> good (if changed then body else ob_Spec existing) ->
  triple objects (fun c => Y c /\ tab c !! ob_key existing = Some existing) (sync_owned t labels body changed existing) post.
Proof using All.
  intros Hk Hg. rw /sync_owned. cbv zeta.
  assert (forall o : object B S, ob_key o = ob_key existing -> good (ob_Spec o) -> labels ⊆ ob_Labels o -> hasOwner (ob_Owners o) t = true ->
    triple objects (fun c => Y c /\ tab c !! ob_key existing = Some existing)
      (bind (try (k_Patch existing o)) (fun r => ret match r with inr e => Some (StagePatch, e) | inl _ => @None (stage * api_error) end)) post) as Hp.
  { intros o Hko Hgo Hlo Hoo.
    assert (forall c o', Y c -> tab c !! ob_key existing = Some existing -> patched (spec_merged (C := tenancy Q)) existing o existing o' ->
      Y (set_tab (<[ob_key o := o']> (tab c)) c) /\ placed (set_tab (<[ob_key o := o']> (tab c)) c)) as Hput.
    { intros c o' Hc Hl (_ & _ & Hk' & How & Hlab & _ & _ & Hm). rw Hko Hk. rw Hk in Hk'. split; [by apply HY |].
      exists o'. rw Htab lookup_insert_eq. apply Hmerge in Hm. rw (Hm eq_refl). split_and!; [done | done | |].
      - apply map_subseteq_spec. intros k v Hv. rw (Hlab k). assert (ob_Labels o !! k = Some v) as Hov by (by eapply map_subseteq_spec). by destruct (decide (ob_Labels existing !! k = ob_Labels o !! k)) as [He |]; [rw He |].
      - rw How. destruct (decide _) as [He |]; [| done]. by rw He. }
    apply (triple_bind objects _ _ _ (fun r c => Y c /\ forall o, r = inl (inl o) -> placed c)); [| | by intros e c [? _]].
    - apply triple_try, (triple_patch objects eq); [apply _ | apply _ | | by intros c e [? _]; split].
      intros c x x' [Hc Hl] Hx Hpx. rw Hko in Hx. assert (x = existing) as -> by congruence.
      destruct (Hput c x' Hc Hl Hpx). split; [| intros e]; by split.
    - intros [x | e] s [HYs Hpl]; (split; [done |]); [intros _; by apply (Hpl x) | done]. }
  assert (good (ob_Spec (set_labels (label_changes labels (ob_Labels existing) ∪ ob_Labels existing)
    (if changed then set_spec body existing else existing)))) as Hgood by (by destruct changed).
  destruct (hasOwner (ob_Owners existing) t) eqn:Ho.
  - destruct (changed || bool_decide _) eqn:Hc; [by apply Hp; [destruct changed | | apply relabelled | destruct changed] |].
    apply orb_false_iff in Hc as [-> Hc]. apply bool_decide_eq_false, dec_stable in Hc.
    intros s [HYs Hl]. split; [done |]. intros _. exists existing. rw -Hk. split_and!; [done | done | | done].
    pose proof (relabelled (ob_Labels existing)) as Hr. by rw Hc map_empty_union in Hr.
  - destruct (SetController (ob_Meta t) (ob_Owners existing)) as [refs | e] eqn:Hs; [| by intros s [HYs _]; split].
    apply Hp; [by destruct changed | by destruct changed | apply relabelled |]. by eapply set_controller_owns.
Qed.

Lemma upsert_places (body : B) (st : S) same :
  (forall b', defaulted (C := tenancy Q) body b' -> good b') -> good body -> (forall b, same b = true -> good b) ->
  triple objects Y (upsert_owned t name labels body st same) post.
Proof using All.
  intros Hd Hb Hs. rw /upsert_owned. apply (triple_bind objects _ _ _ (fun r c => Y c /\ forall cur, r = inl (inl cur) ->
    ob_key cur = (target_ns t, name) /\ tab c !! ob_key cur = Some cur)); [| | by intros e c [? _]; split].
  { apply triple_try, (triple_cached_get objects eq managed); [apply _ | apply _ | | by intros; split].
    intros c cur Hc Hcur Hk _. split; [done |]. intros cur' [= <-]. by rw Hk. }
  intros [cur | e].
  - intros s [HYs Hi]. destruct (Hi cur eq_refl) as [Hk Hl]. apply (sync_places body); [done | | done].
    destruct (same (ob_Spec cur)) eqn:Hsame; simpl; [by apply Hs | done].
  - intros s [HYs _]. case_match; [by apply create_places | by split].
Qed.
End Placing.

(** ** The quotas of a tenant *)

Section Quotas.
Context {Q : Type} `{!Quantity Q} `{!QuantityLaws Q} `{!TenantMachinery Q}.
Context {K : Type} `{!TenantClient Q K} `{!TenantCache Q K} (objects : K -> tenancy Q) (Hlaws : TenantLaws objects eq).
Context (Hcurrent : TenantCurrent objects eq) (Hfresh : TenantCaughtUp objects eq) (t : Tenant Q).

Definition quota_key (q : QuotaSpec Q) : key := (target_ns t, ElasticQuotaName (ob_Name t) (qsp_Pool q)).

(** The ElasticQuota of a pool is as the tenant declares it. *)
Definition quota_placed (q : QuotaSpec Q) : tenancy Q -> Prop :=
  placed (B := ElasticQuotaSpec Q) (S := gmap string Q) t (ElasticQuotaName (ob_Name t) (qsp_Pool q)) (TenantLabels t)
    (fun b => same_quantities (eq_Min b) (qsp_Min q) /\ same_quantities (eq_Max b) (default ∅ (qsp_Max q))).

(** A managed quota of the tenant in its namespace. *)
Definition tenant_quota (o : Quota Q) : Prop :=
  selected (target_ns t) {[LabelTenantID := tenant_id t]} o = true /\ managed o = true /\ hasOwner (ob_Owners o) t = true.

(** No quota of the tenant is left that it does not declare. *)
Definition only_declared (c : tenancy Q) : Prop :=
  forall o, tn_Quotas c !! ob_key o = Some o -> tenant_quota o -> ob_Name o ∈ quota_names t.

Lemma gc_quotas (Z : tenancy Q -> Prop) :
  (forall c (x : gmap key (Quota Q)), Z c -> Z (set_tab x c)) ->
  triple objects Z (gcOrphanElasticQuotas t) (fun r c => Z c /\ (r = inl tt -> only_declared c)).
Proof using All.
  intros HZ. rw /gcOrphanElasticQuotas /gc_orphans.
  set (I := fun (rest : list (Quota Q)) (c : tenancy Q) => Z c /\
    forall o, tn_Quotas c !! ob_key o = Some o -> tenant_quota o -> ob_Name o ∉ quota_names t -> o ∈ rest).
  apply (triple_bind objects _ _ _ (fun r c => match r with inl os => I os c | inr _ => Z c end)).
  - apply (triple_wrap objects _ _ _ (fun r c => match r with inl os => I os c | inr _ => Z c end)); [| done | done].
    apply (triple_caught_up objects eq managed); [apply _ | apply _ | | done]. intros c os Hc Hos. split; [done |].
    intros o Ho (Hs & Hm & _) _. by apply Hos.
  - intros os. eapply triple_consequence; [apply (triple_each_rest objects I Z) | done |].
    2: { intros [[] | e] c; simpl; [| by intros HZc; split]. intros [Hc Hno]. split; [done |]. intros _ o Ho Ht.
         destruct (decide (ob_Name o ∈ quota_names t)) as [? | Hn]; [done |]. by destruct (not_elem_of_nil o (Hno o Ho Ht Hn)). }
    intros a rest. rw /delete_orphan.
    assert (forall c, I (a :: rest) c -> (forall o, tn_Quotas c !! ob_key o = Some o -> tenant_quota o -> ob_Name o ∉ quota_names t -> o <> a) -> I rest c) as Hskip.
    { intros c [Hc Hno] Hne. split; [done |]. intros o Ho Ht Hn. pose proof (Hno o Ho Ht Hn) as [? | ?]%elem_of_cons; [| done]. by destruct (Hne o Ho Ht Hn). }
    destruct (hasOwner (ob_Owners a) t) eqn:Hown; simpl.
    2: { intros s HI. apply Hskip; [done |]. intros o _ (_ & _ & Ho) _ ->. congruence. }
    case_bool_decide as Hkeep; [intros s HI; apply Hskip; [done |]; by intros o _ _ Hn -> |].
    change (triple objects (I (a :: rest)) (bind (try (k_Delete a)) (fun r => match r with
      | inr e => if IsNotFound e then ret tt else fail (Wrapped ("delete orphan elasticquota " +:+ ob_Name a) e)
      | inl _ => ret tt end)) (either (I rest) Z)).
    apply (triple_bind objects _ _ _ (fun r c => match r with inl r => match r with
      | inl _ => I rest c | inr e => Z c /\ (IsNotFound e = true -> I rest c) end | inr _ => Z c end)); [| | done].
    + apply triple_try, (triple_delete objects eq); [apply _ | apply _ | |].
      * intros c r [Hc Hno].
        assert (I rest (set_tab (delete (ob_key a) (tn_Quotas c)) c)) as HI.
        { split; [by apply HZ |]. intros o Ho Ht Hn. simpl in Ho. apply lookup_delete_Some in Ho as [Hne Ho].
          pose proof (Hno o Ho Ht Hn) as [-> | ?]%elem_of_cons; done. }
        destruct r; [done |]. split; [apply HI | done].
      * intros c e HI Hnf. split; [apply HI |]. intros He. apply Hskip; [done |]. intros o Ho _ _ ->. rw (Hnf He) in Ho. done.
    + intros [u | e]; [by intros s HI |]. destruct (IsNotFound e); intros s [HZs HI]; [by apply HI | done].
  - by intros e c Hc; split.
Qed.

Lemma append_inj (p a b : string) : (p +:+ a)%string = (p +:+ b)%string -> a = b.
Proof. induction p as [| x p IH]; simpl; [done |]. intros [= H]. by apply IH. Qed.

Lemma quota_key_inj q q' : quota_key q = quota_key q' -> qsp_Pool q = qsp_Pool q'.
Proof. rw /quota_key /ElasticQuotaName. intros [= H]. apply append_inj in H. by simplify_eq/=. Qed.

Context (Hid : tenant_id t <> "").

Lemma tenant_labels_set k v : TenantLabels t !! k = Some v -> v <> "".
Proof using Hid. rw /TenantLabels lookup_insert_Some lookup_singleton_Some. by intros [[_ <-] | (_ & _ & <-)]. Qed.

(** The results of the loop, quota by quota. *)
Definition reported (quotas : list (QuotaSpec Q)) (sts : list (QuotaStatus Q)) : Prop :=
  map qst_Pool sts = map qsp_Pool quotas /\ Forall (fun st => qst_Ready st = true) sts.

Lemma quota_loop_places quotas : forall Y : tenancy Q -> Prop,
  NoDup (map qsp_Pool quotas) ->
  (forall q c (o : Quota Q), q ∈ quotas -> ob_key o = quota_key q -> Y c -> Y (set_tab (<[quota_key q := o]> (tn_Quotas c)) c)) ->
  triple objects Y (quota_loop t quotas) (fun r c => Y c /\
    forall sts, r = inl (sts, None) -> reported quotas sts /\ forall q, q ∈ quotas -> quota_placed q c).
Proof using All.
  induction quotas as [| q quotas IH]; intros Y Hnd HY.
  { intros s HYs. split; [done |]. intros sts [= <-]. split; [by split; [| constructor] |]. by intros q ?%not_elem_of_nil. }
  apply NoDup_cons in Hnd as [Hnin Hnd]. simpl.
  apply (triple_bind objects _ _ _ (fun r c => Y c /\ forall ready used msg, r = inl (ready, used, msg, None) -> ready = true /\ quota_placed q c)).
  - rw /upsertElasticQuota. cbv zeta. apply (triple_bind objects _ _ _ (fun r c => Y c /\ (r = inl None -> quota_placed q c))).
    + apply upsert_places; try apply _; [done | done | apply tenant_labels_set | | | |].
      * intros c o Hk Hc. apply (HY q); [by left | done | done].
      * by intros b' <-.
      * done.
      * intros b [H1 H2]%andb_true_iff. split; by apply lists_equal_spec.
    + intros [[[] e] |]; try (by intros s [HYs _]; split).
      apply (triple_bind objects _ _ _ (fun _ c => Y c /\ quota_placed q c)).
      * apply triple_try, (triple_consequence objects (fun c => Y c /\ quota_placed q c) _ _ (fun _ c => Y c /\ quota_placed q c));
          [by apply (keeps_cached_get objects eq managed); apply _ | by intros c [? H]; split; [| apply H] | done].
      * intros [o | e] s [HYs Hp]; (split; [done |]); [by intros ready used msg [= <- _ _] | done].
      * by intros e c [? _]; split.
    + by intros e c [? _]; split.
  - intros [[[ready used] msg] [e |]]; [by intros s [HYs _]; split; [| intros sts] |].
    apply (triple_consequence objects (fun c => (Y c /\ quota_placed q c) /\ ready = true) _ _ (fun r c => Y c /\
      forall sts, r = inl (sts, None) -> reported (q :: quotas) sts /\ forall x, x ∈ q :: quotas -> quota_placed x c)); [| | done].
    2: { intros c [Hc Hr]. destruct (Hr ready used msg eq_refl) as [-> ?]. done. }
    apply triple_pure => ->.
    apply (triple_bind objects _ _ _ (fun r c => (Y c /\ quota_placed q c) /\
      forall sts, r = inl (sts, None) -> reported quotas sts /\ forall x, x ∈ quotas -> quota_placed x c)).
    + apply (IH (fun c => Y c /\ quota_placed q c)); [done |]. intros x c o Hx Hk [Hc (p & Hp & Hgood)]. split.
      * apply HY; [by right | done | done].
      * exists p. split; [| done]. simpl. rw lookup_insert_ne //. intros He. apply Hnin. apply (quota_key_inj x q) in He as <-.
        apply list_elem_of_fmap. by exists x.
    + intros [sts err] s [[HYs Hp] Hi]. split; [done |]. intros l. simpl. intros [= <- ->]. destruct (Hi sts eq_refl) as [[Hm Hf] Hr].
      split; [split; [by rw /= Hm | by constructor] |]. intros x [-> | ?]%elem_of_cons; [done | by apply Hr].
    + intros e c [[? _] _]. by split.
  - by intros e c [? _]; split.
Qed.

Lemma quotas_place (Z : tenancy Q -> Prop) :
  NoDup (map qsp_Pool (tns_Quotas (ob_Spec t))) -> (forall c (x : gmap key (Quota Q)), Z c -> Z (set_tab x c)) ->
  triple objects Z (ElasticQuotas t) (fun r c => Z c /\ forall sts, r = inl (sts, None) ->
    reported (tns_Quotas (ob_Spec t)) sts /\ only_declared c /\ forall q, q ∈ tns_Quotas (ob_Spec t) -> quota_placed q c).
Proof using All.
  intros Hnd HZ. rw /ElasticQuotas. apply (triple_bind objects _ _ _ (fun r c => Z c /\ (r = inl (inl tt) -> only_declared c))).
  - apply triple_try. eapply triple_consequence; [by apply gc_quotas | done |]. intros r c [? Hr]. split; [done |]. intros [= ->]. by apply Hr.
  - intros [[] | e]; [| by intros s [? _]; split; [| intros sts]].
    apply (triple_consequence objects (fun c => Z c /\ only_declared c) _ _ (fun r c => (Z c /\ only_declared c) /\ forall sts, r = inl (sts, None) ->
      reported (tns_Quotas (ob_Spec t)) sts /\ forall q, q ∈ tns_Quotas (ob_Spec t) -> quota_placed q c)).
    + apply quota_loop_places; [done |]. intros q c o Hq Hk [Hc Hd]. split; [by apply HZ |]. intros x Hx Ht. simpl in Hx.
      destruct (decide (quota_key q = ob_key x)) as [He | Hne]; [| rw lookup_insert_ne // in Hx; by apply Hd].
      apply list_elem_of_fmap. exists q. split; [| done]. rw /quota_key /ob_key in He. congruence.
    + intros c [? Hx]. split; [done | by apply Hx].
    + intros r c [[? ?] Hx]. split; [done |]. intros sts Hr. destruct (Hx sts Hr). done.
  - intros e c [? _]. by split; [| intros sts].
Qed.

(** ** The pass *)

(** The tenant as the pass read it, and what it reports in the end. *)
Definition quotas_stand (c : tenancy Q) : Prop := only_declared c /\ forall q, q ∈ tns_Quotas (ob_Spec t) -> quota_placed q c.

Definition here (c : tenancy Q) : Prop := tn_Tenants c !! ob_key t = Some t.

Definition settled (now : Z) (quotas : list (QuotaStatus Q)) (c : tenancy Q) : Prop :=
  exists t' a phase msg, tn_Tenants c !! ob_key t = Some t' /\ ob_Meta t' = ob_Meta t /\ ob_Spec t' = ob_Spec t /\
    ob_Status t' = BuildStatus now t a phase msg /\ ag_Quotas a = quotas /\ DerivePhase a (tst_Phase (ob_Status t)) = (phase, msg).

Lemma requeue_fails now a e (s : K) b : (recordAndRequeue now t a e s).1 = inl b -> False.
Proof. rw /recordAndRequeue /bind. by destruct (report now t a s) as [[u | e'] s']. Qed.

Lemma report_settles now a :
  triple objects (fun c => here c /\ quotas_stand c) (report now t a)
    (fun r c => quotas_stand c /\ (r = inl tt -> settled now (ag_Quotas a) c)).
Proof using All.
  rw /report. destruct (DerivePhase a (tst_Phase (ob_Status t))) as [phase msg] eqn:Hph. rw /patchStatus.
  apply (triple_bind objects _ _ _ (fun r c => quotas_stand c /\ forall o, r = inl o -> settled now (ag_Quotas a) c)).
  - apply (triple_patch_status objects eq); [apply _ | apply _ | | by intros c e [_ ?]; split].
    intros c o o' [Hh Hq] Ho (Hm & Hs & Hst). split; [split; [done |] | intros e; by split]. intros _ _.
    assert (o = t) as -> by (change (tn_Tenants c !! ob_key t = Some o) in Ho; rw /here in Hh; congruence). exists o', a, phase, msg. simpl. rw lookup_insert_eq.
    split_and!; try done. by apply Hst.
  - intros o s [Hq Ho]. split; [done |]. intros _. by eapply Ho.
  - intros e c [? _]. by split.
Qed.

Lemma init_settles now steps : Forall (fun s => keeps objects (fun c => here c /\ quotas_stand c) (s.1.2 t)) steps -> forall a,
  triple objects (fun c => here c /\ quotas_stand c) (run_init now t a steps)
    (fun r c => forall b, r = inl b -> quotas_stand c /\ settled now (ag_Quotas a) c).
Proof using All.
  induction 1 as [| [[name f] put] rest Hf _ IH]; intros a; simpl.
  - apply (triple_bind objects _ _ _ (fun r c => quotas_stand c /\ (r = inl tt -> settled now (ag_Quotas a) c))); [apply report_settles | | done].
    intros [] s [Hq Hr] b _. split; [done | by apply Hr].
  - apply (triple_bind objects _ _ _ (fun _ c => here c /\ quotas_stand c)); [done | | done]. intros [items [e |]]; simpl.
    + intros s _ b Hb. by apply requeue_fails in Hb.
    + apply (IH (set_items (put items (ag_Items a)) a)).
Qed.

Lemma pass_settles now :
  NoDup (map qsp_Pool (tns_Quotas (ob_Spec t))) ->
  triple objects here (reconcile_tenant now t) (fun r c => forall b, r = inl b -> quotas_stand c /\
    exists sts, reported (tns_Quotas (ob_Spec t)) sts /\ settled now sts c).
Proof using All.
  intros Hnd. rw /reconcile_tenant. cbv zeta. apply (triple_bind objects _ _ _ (fun _ => here)); [by apply (keeps_namespace objects eq); [apply _ | intros ?] | | done].
  intros [[ready msg] [e |]].
  { intros s _ b Hb. by apply requeue_fails in Hb. }
  set (a := set_ready ready msg _).
  apply (triple_bind objects _ _ _ (fun r c => here c /\ forall sts, r = inl (sts, None) ->
    reported (tns_Quotas (ob_Spec t)) sts /\ only_declared c /\ forall q, q ∈ tns_Quotas (ob_Spec t) -> quota_placed q c));
    [by apply quotas_place | | done].
  intros [sts [e |]]; simpl.
  { intros s _ b Hb. by apply requeue_fails in Hb. }
  apply (triple_consequence objects (fun c => (here c /\ quotas_stand c) /\ reported (tns_Quotas (ob_Spec t)) sts) _ _ (fun r c => forall b, r = inl b ->
    quotas_stand c /\ exists sts, reported (tns_Quotas (ob_Spec t)) sts /\ settled now sts c)); [| | done].
  2: { intros c [Hh Hi]. destruct (Hi sts eq_refl) as (? & ? & ?). done. }
  apply triple_pure => Hrep. eapply triple_consequence; [apply (init_settles now init_steps) | done |].
  - assert (Blind (fun c => here c /\ quotas_stand c) RoleBody unit) by (by intros ?).
    repeat (apply Forall_cons_2; [cbn [fst snd]; try blind_step objects (@eq (tenancy Q)) |]); [| apply Forall_nil_2].
    by apply blind_accounts; try (by intros ?).
  - intros r c Hr b Hb. destruct (Hr b Hb) as [? ?]. split; [done |]. exists sts. by split.
Qed.
End Quotas.
