(* ===== verification/TenantProperties.v ===== *)
(** * Tenant operator: theorems

    What the tenant operator accepts, what it never does to data volumes, roles
    and the objects of others, and that a pass that reports success leaves the
    declared quotas; then the places where its reports or removals go further
    than its comments say. *)

From Stdlib Require Import ssreflect ZArith Ascii String Lia.
From stdpp Require Import base gmap list strings relations.
From S2P Require Import Prelude Placement ApiTypes Names Strconv Kube OperatorTypes OperatorSample TenantTypes TenantValidate OperatorTenant TenantFacts.

Open Scope string_scope.
Open Scope list_scope.

(** ** A sample operator *)

(** The controller reference of a tenant. *)
Definition tenant_ref (m : Meta) : OwnerReference :=
  {| ow_APIVersion := "axisml.io/v1alpha1"; ow_Kind := "Tenant"; ow_Name := om_Name (me_Obj m); ow_UID := me_UID m;
     ow_Controller := true; ow_BlockOwnerDeletion := true |}.

#[export] Program Instance plain_tenant_machinery : TenantMachinery Z := {|
  ParseQuantity s := match Atoi (list_ascii_of_string s) with Some n => inl n | None => inr "not a quantity" end;
  lists_equal a b := bool_decide (a = b);
  ControllerOf := List.find ow_Controller;
  SetController m refs :=
    match List.find ow_Controller refs with
    | Some r => if String.eqb (ow_Name r) (om_Name (me_Obj m)) then inl (tenant_ref m :: refs)
                else inr (Errored "already owned by another controller")
    | None => inl (tenant_ref m :: refs)
    end |}.
Next Obligation.
  intros a b. rw bool_decide_eq_true /same_quantities /=. split; [by intros -> |].
  intros H. apply map_eq => r. specialize (H r). by rw !option_fmap_id in H.
Qed.
Next Obligation. intros refs r [Hin Hc]%List.find_some. split; [by apply list_elem_of_In | done]. Qed.
Next Obligation. intros m refs refs'. simpl. repeat case_match; intros [= <-]; by eexists. Qed.
Next Obligation. intros m refs r Hr Hn. rw /= Hr (proj2 (String.eqb_neq _ _)) //. by eexists. Qed.

#[export] Instance ElasticQuotaSpec_eq_dec {Q} `{EqDecision Q} : EqDecision (ElasticQuotaSpec Q).
Proof. solve_decision. Defined.
#[export] Instance ClaimSpec_eq_dec {Q} `{EqDecision Q} : EqDecision (ClaimSpec Q).
Proof. solve_decision. Defined.
#[export] Instance SecretBody_eq_dec : EqDecision SecretBody.
Proof. solve_decision. Defined.
#[export] Instance ConfigBody_eq_dec : EqDecision ConfigBody.
Proof. solve_decision. Defined.
#[export] Instance AccountBody_eq_dec : EqDecision AccountBody.
Proof. solve_decision. Defined.
#[export] Instance RoleBody_eq_dec : EqDecision RoleBody.
Proof. solve_decision. Defined.
#[export] Instance BindingBody_eq_dec : EqDecision BindingBody.
Proof. solve_decision. Defined.
#[export] Instance NamespaceSpec_eq_dec : EqDecision NamespaceSpec.
Proof. solve_decision. Defined.
#[export] Instance QuotaSpec_eq_dec {Q} `{EqDecision Q} : EqDecision (QuotaSpec Q).
Proof. solve_decision. Defined.
#[export] Instance SourceRef_eq_dec : EqDecision SourceRef.
Proof. solve_decision. Defined.
#[export] Instance ImagePullSecretSpec_eq_dec : EqDecision ImagePullSecretSpec.
Proof. solve_decision. Defined.
#[export] Instance SecretSpec_eq_dec : EqDecision SecretSpec.
Proof. solve_decision. Defined.
#[export] Instance ConfigMapSpec_eq_dec : EqDecision ConfigMapSpec.
Proof. solve_decision. Defined.
#[export] Instance RBACRoleRef_eq_dec : EqDecision RBACRoleRef.
Proof. solve_decision. Defined.
#[export] Instance RBACSpec_eq_dec : EqDecision RBACSpec.
Proof. solve_decision. Defined.
#[export] Instance ServiceAccountSpec_eq_dec : EqDecision ServiceAccountSpec.
Proof. solve_decision. Defined.
#[export] Instance VolumeSpec_eq_dec : EqDecision VolumeSpec.
Proof. solve_decision. Defined.
#[export] Instance InitResources_eq_dec : EqDecision InitResources.
Proof. solve_decision. Defined.
#[export] Instance TenantSpec_eq_dec {Q} `{EqDecision Q} : EqDecision (TenantSpec Q).
Proof. solve_decision. Defined.

(** A cache that is always up to date, restricted to visible objects. *)
Section Cache.
Context {C B S : Type} `{!Kind C B S} (visible : object B S -> bool).

Definition cached_get (k : key) (c : C) : (object B S + api_error) * C :=
  (match tab c !! k with
   | Some o => if decide (ob_key o = k /\ visible o = true) then inl o else inr APINotFound
   | None => inr APINotFound
   end, c).

Definition cached_list (namespace : string) (labels : gmap string string) (c : C) : (list (object B S) + api_error) * C :=
  (inl (map snd (List.filter (fun kv => bool_decide (ob_key kv.2 = kv.1) && selected namespace labels kv.2 && visible kv.2)
          (map_to_list (tab c)))), c).

Definition fresh_cache : CachedReader C B S := {| r_Get := cached_get; r_List := cached_list |}.

Lemma cached_list_spec namespace labels (c : C) o :
  o ∈ map snd (List.filter (fun kv => bool_decide (ob_key kv.2 = kv.1) && selected namespace labels kv.2 && visible kv.2) (map_to_list (tab c))) <->
  tab c !! ob_key o = Some o /\ selected namespace labels o = true /\ visible o = true.
Proof.
  rw list_elem_of_In in_map_iff. split.
  - intros ([k o'] & <- & [Hin [[Hk%bool_decide_eq_true Hsel]%andb_true_iff Hv]%andb_true_iff]%filter_In). simpl in *. subst k.
    split; [| done]. by apply elem_of_map_to_list, list_elem_of_In.
  - intros (Hl & Hsel & Hv). exists (ob_key o, o). split; [done |]. apply filter_In.
    split; [by apply list_elem_of_In, elem_of_map_to_list | by rw /= bool_decide_true // Hsel Hv].
Qed.

Lemma fresh_laws (rely : C -> C -> Prop) : (forall c, rely c c) ->
  @CachedLaws C C B S _ fresh_cache visible id rely /\ @CurrentCache C C B S _ fresh_cache visible id rely /\
  @CaughtUp C C B S _ fresh_cache visible id rely.
Proof.
  intros Hr. assert (forall (eff : C -> C -> Prop) c, eff c c -> did rely id eff c c) as Hdid by (intros eff c He; by exists c, c).
  split; [split | split; [split |]].
  - intros k c. simpl. rw /cached_get. destruct (tab c !! k) eqn:Hl; [case_decide |]; apply Hdid; naive_solver.
  - intros namespace labels c. apply Hdid. split; [done |]. intros o Ho. by apply cached_list_spec in Ho as (_ & ? & ?).
  - intros k c o c'. rw /r_Get /= /cached_get. destruct (tab c !! k) eqn:Hl; [case_decide |]; intros [= <- <-]; apply Hdid; naive_solver.
  - intros namespace labels c os c' [= <- <-]. apply Hdid. split; [done |]. intros o Ho. by apply cached_list_spec.
  - intros namespace labels s os s' [= <- <-]. apply Hdid. split; [done |]. intros o. apply cached_list_spec.
Qed.
End Cache.

#[export] Instance tenant_client : TenantClient Z (tenancy Z) := {|
  tc_tenants := perfect_client; tc_namespaces := perfect_client; tc_quotas := perfect_client; tc_secrets := perfect_client;
  tc_configs := perfect_client; tc_accounts := perfect_client; tc_roles := perfect_client; tc_bindings := perfect_client;
  tc_claims := perfect_client |}.

#[export] Instance tenant_cache : TenantCache Z (tenancy Z) := {|
  ca_tenants := fresh_cache any; ca_namespaces := fresh_cache any; ca_quotas := fresh_cache managed;
  ca_secrets := fresh_cache managed; ca_configs := fresh_cache managed; ca_accounts := fresh_cache managed;
  ca_roles := fresh_cache managed; ca_bindings := fresh_cache managed |}.

Lemma replaces_ok {B} (before after : B) : replaces before after before after.
Proof. by intros _. Qed.

Lemma replaces_keep {B} (before cur : B) : replaces before before cur cur.
Proof. by intros ->. Qed.

Lemma tenant_laws (rely : tenancy Z -> tenancy Z -> Prop) : (forall c, rely c c) -> TenantLaws (K := tenancy Z) id rely.
Proof.
  intros Hr. split; try exact (proj1 (fresh_laws _ rely Hr)); try exact (current_gets (CurrentReads := current_weaken id rely Hr perfect_current));
    (apply laws_weaken; [done |]); apply perfect_laws; try done; intros;
    first [apply replaces_ok | apply replaces_keep | split; [apply replaces_ok | by right] | split; [apply replaces_keep | by left] |
      by split_and!; try done; intros a].
Qed.

Lemma tenant_current : TenantCurrent (K := tenancy Z) id eq.
Proof. split; exact (proj1 (proj2 (fresh_laws _ eq (fun c => eq_refl)))). Qed.

Lemma tenant_caught_up : TenantCaughtUp (K := tenancy Z) id eq.
Proof. split; exact (proj2 (proj2 (fresh_laws _ eq (fun c => eq_refl)))). Qed.

(** A tenant with one quota, one account and one volume, in its namespace. *)
Definition sample_rule : PolicyRule :=
  {| ru_Verbs := ["get"; "list"]; ru_APIGroups := [""]; ru_Resources := ["pods"]; ru_Other := "" |}.

Definition sample_account (name : string) (rbac : option RBACSpec) : ServiceAccountSpec :=
  {| sas_Name := name; sas_ImagePullSecrets := []; sas_RBAC := rbac |}.

Definition sample_volume : VolumeSpec :=
  {| vol_Name := "data"; vol_Size := "10"; vol_StorageClass := ""; vol_AccessModes := []; vol_Description := "";
     vol_HostPath := "" |}.

Definition tenant_spec (quotas : list (QuotaSpec Z)) (accounts : list ServiceAccountSpec) (volumes : list VolumeSpec) : TenantSpec Z :=
  {| tns_Namespace := {| nsp_Name := "team-a"; nsp_Labels := ∅; nsp_Annotations := ∅ |}; tns_Quotas := quotas;
     tns_InitResources := {| ir_ImagePullSecrets := []; ir_Secrets := []; ir_ConfigMaps := []; ir_ServiceAccounts := accounts;
                             ir_Volumes := volumes |} |}.

Definition tenant_meta (name : string) : Meta :=
  {| me_Obj := {| om_Name := name; om_Namespace := ""; om_Labels := {[LabelTenantID := name]}; om_Annotations := ∅ |};
     me_UID := "uid-" +:+ name; me_Generation := 1; me_Owners := [] |}.

Definition sample_tenant (name : string) (spec : TenantSpec Z) : Tenant Z :=
  {| ob_Meta := tenant_meta name; ob_Spec := spec; ob_Status := TenantStatus_zero |}.

Definition gpu_quota (min max : Z) : QuotaSpec Z := {| qsp_Pool := "gpu"; qsp_Min := {["cpu" := min]}; qsp_Max := Some {["cpu" := max]} |}.

Definition full_spec : TenantSpec Z :=
  tenant_spec [gpu_quota 2 4] [sample_account "runner" (Some {| rb_Rules := [sample_rule]; rb_RoleRef := None |})] [sample_volume].

Definition empty_tenancy : tenancy Z :=
  {| tn_Tenants := ∅; tn_Namespaces := ∅; tn_Quotas := ∅; tn_Secrets := ∅; tn_ConfigMaps := ∅; tn_Accounts := ∅;
     tn_Roles := ∅; tn_Bindings := ∅; tn_Claims := ∅ |}.

(** A cluster with one tenant. *)
Definition with_tenant (t : Tenant Z) : tenancy Z := set_tab {[ob_key t := t]} empty_tenancy.

Definition no_denylist : Options := {| op_NamespaceDenylist := ∅ |}.

Definition status_of (name : string) (c : tenancy Z) : option (TenantStatus Z) := ob_Status <$> tn_Tenants c !! ("", name).

(** A first pass creates the namespace, the quota, the account with its role
    and binding, and the volume, and reports the tenant Active. *)
Example sample_tenant_pass :
  let '(res, c) := Reconcile no_denylist 100 "a" (with_tenant (sample_tenant "a" full_spec)) in
  res = inl true /\ (tst_Phase <$> status_of "a" c) = Some TenantPhaseActive /\
  is_Some (tn_Namespaces c !! ("", "team-a")) /\ is_Some (tn_Quotas c !! ("team-a", "axisml-a-gpu")) /\
  is_Some (tn_Accounts c !! ("team-a", "axisml-tenant-a-runner")) /\ is_Some (tn_Roles c !! ("team-a", "axisml-tenant-a-runner")) /\
  is_Some (tn_Bindings c !! ("team-a", "axisml-tenant-a-runner")) /\ is_Some (tn_Claims c !! ("team-a", "data")).
Proof. vm_compute. split_and!; by eexists || done. Qed.

(** ** What is accepted *)

(** C29: a tenant spec passes validation exactly when its namespace is an
    allowed DNS label, its pools are distinct with quantities in
    [0 <= min <= max] for every resource of min, the names of its init
    resources are set and distinct (image pull secrets and secrets together),
    its volumes have a positive size and no host path, and its accounts refer
    to declared pull secrets and have no rule that would let them widen their
    rights, whatever the case of its words. *)
Theorem validation_exact {Q : Type} `{!Quantity Q} `{!QuantityLaws Q} `{!TenantMachinery Q} (spec : TenantSpec Q) (opts : Options) :
  Validate spec opts = None <-> valid_tenant opts spec.
Proof.
  assert (validateNamespace (tns_Namespace spec) opts = None <-> valid_namespace opts (tns_Namespace spec)) as Hns.
  { rw /validateNamespace !first_of_cons !when_none String.eqb_neq Nat.ltb_ge negb_false_iff bool_decide_eq_false /valid_namespace.
    split; [by intros (_ & ? & ? & ? & _) |]. intros (? & Hd & ?). split_and!; try done. by intros Hn; rw Hn in Hd. }
  rw /Validate first_of_cons Hns first_of_cons first_of_cons /validateQuotas quota_errors_none validateInitResources_none. split.
  - intros (? & (? & ? & _) & (? & ? & ? & ? & ? & ?) & _). by split.
  - intros []. split_and!; try done; set_solver.
Qed.

(** ** Data volumes *)

(** C12: whichever tenants are reconciled in whatever order, with any calls
    failing or taking effect late, no PersistentVolumeClaim that was there is
    ever removed, none changes its spec or owners, and one that is not a
    managed volume is not touched at all. *)
Theorem volumes_are_safe {Q : Type} `{!Quantity Q} `{!QuantityLaws Q} `{!TenantMachinery Q} {K : Type} `{!TenantClient Q K}
    `{!TenantCache Q K} (objects : K -> tenancy Q) (Hlaws : TenantLaws objects claims_kept) (opts : Options)
    (who : Z -> string) (s s' : K) :
  rtc (controller_step objects claims_kept (fun now => Reconcile opts now (who now))) s s' ->
  claims_kept (objects s) (objects s').
Proof.
  intros Hrun. apply (controller_invariant objects claims_kept _ (claims_kept (objects s)) s s' ) in Hrun; [done | | |].
  - intros now. by apply keeps_claims.
  - apply stable_claims.
  - intros k o Ho. by exists o.
Qed.

Lemma claims_kept_refl {Q} (c : tenancy Q) : claims_kept c c.
Proof. intros k o Ho. by exists o. Qed.

(** A claim somebody made by hand under the name of a declared volume. *)
Definition hand_made : Claim Z :=
  {| ob_Meta := {| me_Obj := {| om_Name := "data"; om_Namespace := "team-a"; om_Labels := ∅; om_Annotations := ∅ |};
                   me_UID := "u-9"; me_Generation := 1; me_Owners := [] |};
     ob_Spec := {| pc_AccessModes := []; pc_StorageClassName := None; pc_Requests := ∅ |}; ob_Status := "Bound" |}.

Definition claimed : tenancy Z := set_tab {[ob_key hand_made := hand_made]} (with_tenant (sample_tenant "a" full_spec)).

Lemma volumes_are_safe_witness :
  let c' := (Reconcile no_denylist 100 "a" claimed).2 in
  claims_kept claimed c' /\ tn_Claims c' !! ("team-a", "data") = Some hand_made.
Proof.
  intros c'. split; [| vm_compute; reflexivity].
  apply (volumes_are_safe (K := tenancy Z) id (tenant_laws claims_kept claims_kept_refl) no_denylist (fun _ => "a") claimed c').
  apply rtc_once, (step_pass _ _ (fun now => Reconcile no_denylist now "a") 100).
Defined.

(** ** Roles *)

(** C17: as long as nobody else writes rules of Roles under the operator's
    names, no Role there ever grants an account a verb that escalates, binds or
    impersonates, or a write to roles and bindings, whichever tenants are
    reconciled, whichever calls fail and however outdated the reads are. *)
Theorem roles_never_escalate {Q : Type} `{!Quantity Q} `{!QuantityLaws Q} `{!TenantMachinery Q} {K : Type} `{!TenantClient Q K}
    `{!TenantCache Q K} (objects : K -> tenancy Q) (mine : key -> Prop) (Hlaws : TenantLaws objects (roles_stay mine))
    (opts : Options) (who : Z -> string) (s s' : K) :
  rtc (controller_step objects (roles_stay mine) (fun now => Reconcile opts now (who now))) s s' ->
  roles_harmless mine (objects s) -> roles_harmless mine (objects s').
Proof.
  apply controller_invariant; [| apply stable_roles]. intros now. by apply keeps_roles.
Qed.

Lemma roles_never_escalate_witness :
  let c := with_tenant (sample_tenant "a" full_spec) in
  let c' := (Reconcile no_denylist 100 "a" c).2 in
  roles_harmless (fun _ => True) c' /\
  (ob_Spec <$> tn_Roles c' !! ("team-a", "axisml-tenant-a-runner")) = Some {| ro_Rules := [sample_rule] |}.
Proof.
  intros c c'. split; [| vm_compute; reflexivity].
  assert (forall c : tenancy Z, roles_stay (fun _ => True) c c) as Hr by (intros x k o _ Ho; by exists o).
  apply (roles_never_escalate (K := tenancy Z) id (fun _ => True) (tenant_laws _ Hr) no_denylist (fun _ => "a") c c').
  - apply rtc_once, (step_pass _ _ (fun now => Reconcile no_denylist now "a") 100).
  - intros k o _ Ho. by rw /= lookup_empty in Ho.
Defined.

(** ** Passes over one tenant, alone *)

Section Alone.
Context {Q : Type} `{!Quantity Q} `{!QuantityLaws Q} `{!TenantMachinery Q}.
Context {K : Type} `{!TenantClient Q K} `{!TenantCache Q K} (objects : K -> tenancy Q) (Hlaws : TenantLaws objects eq).
Context (Hcurrent : TenantCurrent objects eq).

(** The tenant a pass reads is the one in the cluster. *)
Lemma tenant_read name s t s1 : (r_Get ("", name) : api K (Tenant Q)) s = (inl t, s1) ->
  objects s1 = objects s /\ tn_Tenants (objects s) !! ("", name) = Some t /\ ob_key t = ("", name).
Proof using Hcurrent.
  intros Hg. apply (current_cached_get (visible := any) (objects := objects) (rely := eq)) in Hg as H. destruct H as (c & c' & <- & (-> & Ht & Hk & _) & He). by split_and!; [symmetry | |].
Qed.

(** What the pass over the tenant in the cluster keeps, the controller keeps. *)
Lemma reconcile_keeps (X : tenancy Q -> Prop) opts now name s :
  Blind X (TenantSpec Q) (TenantStatus Q) ->
  (forall t, tn_Tenants (objects s) !! ("", name) = Some t -> keeps objects X (reconcile_tenant now t)) ->
  X (objects s) -> X (objects (Reconcile opts now name s).2).
Proof using All.
  intros HX Ht HXs. rw /Reconcile /bind /try.
  pose proof (law_cached_get (B := TenantSpec Q) (S := TenantStatus Q) (visible := any) (objects := objects) (rely := eq) ("", name) s) as H.
  destruct (r_Get ("", name) s) as [[t | e] s1] eqn:Hg.
  - destruct (tenant_read _ _ _ _ Hg) as (He & Hl & _). rw -He in HXs. clear H.
    assert (forall m, X (objects (patchStatusFailed t m s1).2)) as Hf.
    { intros m. apply (keeps_bind objects X); [| by intros ?; apply keeps_ret | done]. by apply (keeps_patch_status objects eq X). }
    destruct (ValidateMeta (ob_Labels t)) as [m |]; [pose proof (Hf m) as Hm; by destruct (patchStatusFailed t m s1) as [[[] | ?] ?] |].
    destruct (Validate (ob_Spec t) opts) as [m |]; [pose proof (Hf m) as Hm; by destruct (patchStatusFailed t m s1) as [[[] | ?] ?] |].
    by apply Ht.
  - destruct H as (c & c' & <- & -> & He). rw He in HXs. by destruct (IsNotFound e).
Qed.
End Alone.

(** C23: when a pass over a valid tenant succeeds while nobody interferes, what
    it reads from its cache is current and its lists are complete, then for every declared pool there is an ElasticQuota
    with exactly the declared min and max, labelled and owned; no quota of the
    tenant is left that it does not declare; and the status reports every
    declared pool, in order, as ready, with the phase derived from the rest. *)
Theorem tenant_quotas_converge {Q : Type} `{!Quantity Q} `{!QuantityLaws Q} `{!TenantMachinery Q} {K : Type} `{!TenantClient Q K}
    `{!TenantCache Q K} (objects : K -> tenancy Q) (Hlaws : TenantLaws objects eq) (Hcurrent : TenantCurrent objects eq)
    (Hfresh : TenantCaughtUp objects eq) (opts : Options) (now : Z) (name : string) (t : Tenant Q) (s s1 s' : K) (again : bool) :
  (r_Get ("", name) : api K (Tenant Q)) s = (inl t, s1) ->
  ValidateMeta (ob_Labels t) = None -> Validate (ob_Spec t) opts = None ->
  Reconcile opts now name s = (inl again, s') ->
  quotas_stand t (objects s') /\
  exists sts, reported (tns_Quotas (ob_Spec t)) sts /\ settled t now sts (objects s').
Proof.
  intros Hg Hm Hv Hr. destruct (tenant_read objects Hcurrent name s t s1 Hg) as (He & Hl & Hk).
  assert (NoDup (map qsp_Pool (tns_Quotas (ob_Spec t)))) as Hnd.
  { rw /Validate first_of_cons first_of_cons /validateQuotas quota_errors_none in Hv. apply Hv. }
  assert (tenant_id t <> "") as Hid by (by apply when_none, String.eqb_neq in Hm).
  rw /Reconcile /bind /try Hg Hm Hv in Hr.
  pose proof (pass_settles objects Hlaws Hcurrent Hfresh t Hid now Hnd s1) as H. rw Hr in H. refine (H _ again eq_refl).
  by rw /here Hk He.
Qed.

Lemma tenant_quotas_converge_witness :
  let t := sample_tenant "a" (tenant_spec [gpu_quota 2 4] [] []) in
  let c' := (Reconcile no_denylist 100 "a" (with_tenant t)).2 in
  quotas_stand t c' /\ (ob_Spec <$> tn_Quotas c' !! ("team-a", "axisml-a-gpu")) = Some {| eq_Min := {["cpu" := 2%Z]}; eq_Max := {["cpu" := 4%Z]} |}.
Proof.
  intros t c'. split; [| vm_compute; reflexivity].
  destruct (tenant_quotas_converge (K := tenancy Z) id (tenant_laws eq (fun c => eq_refl)) tenant_current tenant_caught_up no_denylist 100 "a" t
    (with_tenant t) (with_tenant t) c' false) as [H _]; [vm_compute; reflexivity .. | exact H].
Defined.

(** C33: a pass over a tenant whose cached reads are current leaves ElasticQuotas, ConfigMaps and
    ServiceAccounts that are controlled by somebody else as they are, and every
    Secret, ElasticQuota, ConfigMap and ServiceAccount the operator does not
    manage, also under a name the tenant declares and whatever the outcome of
    the pass. *)
Theorem others_objects_survive {Q : Type} `{!Quantity Q} `{!QuantityLaws Q} `{!TenantMachinery Q} {K : Type} `{!TenantClient Q K}
    `{!TenantCache Q K} (objects : K -> tenancy Q) (Hlaws : TenantLaws objects eq) (Hcurrent : TenantCurrent objects eq)
    (opts : Options) (now : Z) (name : string) (s : K) (k : key) :
  let others {B S} (o : object B S) :=
    managed o = true -> forall t, tn_Tenants (objects s) !! ("", name) = Some t -> foreign t o in
  let c' := objects (Reconcile opts now name s).2 in
  (forall o, tn_Quotas (objects s) !! k = Some o -> others o -> tn_Quotas c' !! k = Some o) /\
  (forall o, tn_ConfigMaps (objects s) !! k = Some o -> others o -> tn_ConfigMaps c' !! k = Some o) /\
  (forall o, tn_Accounts (objects s) !! k = Some o -> others o -> tn_Accounts c' !! k = Some o) /\
  (forall o, tn_Secrets (objects s) !! k = Some o -> managed o = false -> tn_Secrets c' !! k = Some o).
Proof.
  intros others c'. split_and!; intros o Ho Hx; pose proof (reconcile_keeps objects Hlaws Hcurrent (stands (Q := Q) k o) opts now name s) as H;
    (apply H; [by intros ? | intros t Ht | done]).
  - apply foreign_quota; [done | done |]. intros Hm. by apply Hx.
  - apply foreign_config; [done | done |]. intros Hm. by apply Hx.
  - apply foreign_account; [done | done |]. intros Hm. by apply Hx.
  - by apply foreign_secret.
Qed.

(** An object of tenant [owner] in the namespace the samples share. *)
Definition held_by {B S} (owner name : string) (labels : gmap string string) (body : B) (st : S) : object B S :=
  {| ob_Meta := {| me_Obj := {| om_Name := name; om_Namespace := "team-a";
                                om_Labels := labels ∪ <[LabelTenantID := owner]> {[LabelManagedBy := ManagedByValue]};
                                om_Annotations := ∅ |};
                   me_UID := "u-5"; me_Generation := 1; me_Owners := [tenant_ref (tenant_meta owner)] |};
     ob_Spec := body; ob_Status := st |}.

(** Pool [b-gpu] of tenant [a] and pool [gpu] of tenant [a-b] share a name. *)
Lemma others_objects_survive_witness :
  let o : Quota Z := held_by "a-b" (ElasticQuotaName "a-b" "gpu") ∅ {| eq_Min := ∅; eq_Max := {["cpu" := 7%Z]} |} ∅ in
  let q : QuotaSpec Z := {| qsp_Pool := "b-gpu"; qsp_Min := ∅; qsp_Max := Some {["cpu" := 1%Z]} |} in
  let c := set_tab {[ob_key o := o]} (with_tenant (sample_tenant "a" (tenant_spec [q] [] []))) in
  let c' := (Reconcile no_denylist 100 "a" c).2 in
  tn_Quotas c' !! ("team-a", ElasticQuotaName "a" "b-gpu") = Some o.
Proof.
  intros o q c c'.
  destruct (others_objects_survive (K := tenancy Z) id (tenant_laws eq (fun c => eq_refl)) tenant_current no_denylist 100 "a" c
    ("team-a", ElasticQuotaName "a" "b-gpu")) as [H _].
  refine (H o _ _); [vm_compute; reflexivity |].
  intros _ t Ht. change (({[("", "a") := sample_tenant "a" (tenant_spec [q] [] [])]} : gmap key (Tenant Z)) !! ("", "a") = Some t) in Ht.
  apply lookup_singleton_Some in Ht as [_ <-].
  split; [exists (tenant_ref (tenant_meta "a-b")); split; [reflexivity | discriminate] | vm_compute; reflexivity].
Defined.

(** ** Where it goes further than it says *)

(** When the type of a Secret changes, the old one is removed without a look at
    its owner: secret [b-c] of tenant [a] replaces secret [c] of tenant
    [a-b]. *)
Example secret_of_another_replaced :
  let mine := {| sxs_Name := "b-c"; sxs_Type := "example.com/token"; sxs_Source := {| src_Namespace := "shared"; src_Name := "src" |} |} in
  let t := sample_tenant "a" {| tns_Namespace := tns_Namespace full_spec; tns_Quotas := [];
             tns_InitResources := {| ir_ImagePullSecrets := []; ir_Secrets := [mine]; ir_ConfigMaps := []; ir_ServiceAccounts := []; ir_Volumes := [] |} |} in
  let src : Secret := {| ob_Meta := {| me_Obj := {| om_Name := "src"; om_Namespace := "shared"; om_Labels := ∅; om_Annotations := ∅ |};
               me_UID := "u-6"; me_Generation := 1; me_Owners := [] |};
             ob_Spec := {| sb_Type := "example.com/token"; sb_Data := {["k" := "of a"]} |}; ob_Status := tt |} in
  let held : Secret := held_by "a-b" (PerTenantResourceName "a-b" "c") {[labelSecretRole := secretRoleGeneric]}
             {| sb_Type := SecretTypeOpaque; sb_Data := {["k" := "of a-b"]} |} tt in
  let c' := (Reconcile no_denylist 100 "a" (set_tab (<[ob_key src := src]> {[ob_key held := held]}) (with_tenant t))).2 in
  (sb_Data ∘ ob_Spec <$> tn_Secrets c' !! ob_key held) = Some {["k" := "of a"]} /\
  (map ow_Name ∘ ob_Owners <$> tn_Secrets c' !! ob_key held) = Some ["a"].
Proof. vm_compute. done. Qed.

(** A cache that cannot list one kind. *)
Definition listless {C B S} `{!Kind C B S} (visible : object B S -> bool) : CachedReader C B S :=
  {| r_Get := cached_get visible; r_List _ _ c := (inr (APIError "timeout"), c) |}.

Definition cache_with (secrets : CachedReader (tenancy Z) SecretBody unit)
    (quotas : CachedReader (tenancy Z) (ElasticQuotaSpec Z) (gmap string Z)) (namespaces : CachedReader (tenancy Z) unit string)
    : TenantCache Z (tenancy Z) := {|
  ca_tenants := fresh_cache any; ca_namespaces := namespaces; ca_quotas := quotas;
  ca_secrets := secrets; ca_configs := fresh_cache managed; ca_accounts := fresh_cache managed;
  ca_roles := fresh_cache managed; ca_bindings := fresh_cache managed |}.

(** When the orphans of the first init resource cannot be listed, a new tenant
    is reported Active with its init resources ready, although its account and
    volume were never created. *)
Example active_without_resources :
  let '(res, c) := Reconcile (TenantCache0 := cache_with (listless managed) (fresh_cache managed) (fresh_cache any)) no_denylist 100 "a"
                     (with_tenant (sample_tenant "a" full_spec)) in
  res = inr (Wrapped "list secrets" (APIError "timeout")) /\ (tst_Phase <$> status_of "a" c) = Some TenantPhaseActive /\
  (tst_Message <$> status_of "a" c) = Some "" /\ tn_Accounts c = ∅ /\ tn_Claims c = ∅.
Proof. vm_compute. done. Qed.

(** When the ElasticQuotas cannot be listed, the quotas an earlier pass
    reported, with their usage, are dropped from the status, and no quotas are
    reported as all ready. *)
Example quota_usage_dropped :
  let t := sample_tenant "a" full_spec in
  let known := {| tst_ObservedGeneration := 1; tst_Phase := TenantPhaseActive; tst_Message := ""; tst_NamespaceReady := true;
                  tst_Quotas := [{| qst_Pool := "gpu"; qst_Ready := true; qst_Used := {["cpu" := 3%Z]}; qst_Message := "" |}];
                  tst_InitResources := tst_InitResources (ob_Status t); tst_Conditions := [] |} in
  let '(res, c) := Reconcile (TenantCache0 := cache_with (fresh_cache managed) (listless managed) (fresh_cache any)) no_denylist 100 "a"
                     (with_tenant (set_status known t)) in
  res = inr (Wrapped "list elasticquotas" (APIError "timeout")) /\ (tst_Quotas <$> status_of "a" c) = Some [] /\
  (map mc_Status ∘ List.filter (fun x => String.eqb (mc_Type x) ConditionQuotasReady) ∘ tst_Conditions <$> status_of "a" c) = Some ["True"].
Proof. vm_compute. done. Qed.

(** A cache that has not yet seen the namespace the pass just created: the
    first pass over a tenant reports it as Failed. *)
Example first_pass_fails_on_lag :
  let blind_cache : CachedReader (tenancy Z) unit string := {| r_Get _ c := (inr APINotFound, c); r_List _ _ c := (inl [], c) |} in
  let '(res, c) := Reconcile (TenantCache0 := cache_with (fresh_cache managed) (fresh_cache managed) blind_cache) no_denylist 100 "a"
                     (with_tenant (sample_tenant "a" full_spec)) in
  is_Some (tn_Namespaces c !! ("", "team-a")) /\ (tst_Phase <$> status_of "a" c) = Some TenantPhaseFailed.
Proof. vm_compute. split; [by eexists | done]. Qed.

(** The guard looks at inline rules only: a reference to a ClusterRole is bound
    in the namespace as it is. *)
Example cluster_role_bound :
  let ref := {| rr_Kind := "ClusterRole"; rr_Name := "cluster-admin" |} in
  let t := sample_tenant "a" (tenant_spec [] [sample_account "root" (Some {| rb_Rules := []; rb_RoleRef := Some ref |})] []) in
  let c' := (Reconcile no_denylist 100 "a" (with_tenant t)).2 in
  (rf_Name ∘ bi_RoleRef ∘ ob_Spec <$> tn_Bindings c' !! ("team-a", "axisml-tenant-a-root")) = Some "cluster-admin".
Proof. vm_compute. done. Qed.
