(* ===== verification/CatalogStore.v ===== *)
(** * Cluster manager: stores with optimistic locks

    The seam [cluster-manager/pkg/extensions] between the REST handlers and a
    store of pools and tenants: a Kubernetes API server
    ([internal/k8sstore/store.go]) or the standalone edition's database.  An
    object carries a version that every write changes; a patch names the
    version it was computed from.  The two retry loops of the handlers are
    here too, with the theorem that an edit which succeeds is one atomic edit
    of the object as it stood at that moment. *)

From Stdlib Require Import ssreflect ZArith Ascii String.
From stdpp Require Import base gmap list strings.
From S2P Require Import Prelude ApiTypes Kube.

(** ** Objects with versions *)

(** An object with its [metadata.resourceVersion] and creation time. *)
Record versioned {B S : Type} := { vr_Object : object B S; vr_Version : string; vr_CreatedAt : Z }.
Arguments versioned : clear implicits.

Definition vr_key {B S} (v : versioned B S) : key := ob_key (vr_Object v).
Definition vr_Spec {B S} (v : versioned B S) : B := ob_Spec (vr_Object v).
Definition vr_Name {B S} (v : versioned B S) : string := ob_Name (vr_Object v).

Definition edit {B S} (f : object B S -> object B S) (v : versioned B S) : versioned B S :=
  {| vr_Object := f (vr_Object v); vr_Version := vr_Version v; vr_CreatedAt := vr_CreatedAt v |}.

(** A collection: what is there, and the versions every key has had so far. *)
Record catalog {B S : Type} := { ct_Items : gmap key (versioned B S); ct_Spent : gset (key * string) }.
Arguments catalog : clear implicits.

Definition items {B S} (c : catalog B S) : gmap key (versioned B S) := ct_Items c.
Definition spent {B S} (c : catalog B S) : gset (key * string) := ct_Spent c.

(** Put an object on the shelf; its version is spent from then on. *)
Definition shelve {B S} (k : key) (o : versioned B S) (c : catalog B S) : catalog B S :=
  {| ct_Items := <[k := o]> (items c); ct_Spent := {[(k, vr_Version o)]} ∪ spent c |}.

Definition unshelve {B S} (k : key) (c : catalog B S) : catalog B S :=
  {| ct_Items := delete k (items c); ct_Spent := spent c |}.

(** ** The provider *)

(** [metav1.ListOptions], as far as used *)
Record ListOptions := { lo_LabelSelector : string; lo_Limit : Z; lo_Continue : string }.

(** [ResourcePoolProvider], [TenantProvider] and the claims of a namespace.
    [p_Create] and [p_Patch] return the object as stored, which Go writes back
    into the argument; [p_List] a page and the token of the next one. *)
Class Provider (K B S : Type) := {
  p_Get : key -> api K (versioned B S);
  p_List : string -> ListOptions -> api K (list (versioned B S) * string);
  p_Create : versioned B S -> api K (versioned B S);
  p_Patch : versioned B S -> versioned B S -> api K (versioned B S);
  p_Delete : key -> api K unit }.

(** The stored object says what was asked for. *)
Definition renders {B S} (o o' : versioned B S) : Prop :=
  me_Obj (ob_Meta (vr_Object o')) = me_Obj (ob_Meta (vr_Object o)) /\ vr_Spec o' = vr_Spec o.

Section Laws.
Context {K B S : Type} `{!Provider K B S}.
(** The catalog in a state, what everybody else may do to it, the states the
    program can be in, and the keys of the collection. *)
Context (objects : K -> catalog B S) (rely : catalog B S -> catalog B S -> Prop) (good : K -> Prop) (in_scope : key -> Prop).
Implicit Types o : versioned B S.

(** A call answers [r] and does something that [Φ r] allows, at one moment. *)
Definition does {A} (m : api K A) (s : K) (Φ : A + api_error -> catalog B S -> catalog B S -> Prop) : Prop :=
  let '(r, s') := m s in good s' /\ did rely objects (Φ r) s s'.

Definition created o (o' : versioned B S) (c c' : catalog B S) : Prop :=
  items c !! vr_key o = None /\ renders o o' /\ c' = shelve (vr_key o) o' c.

(** A patch is applied to an object that still has the version of its base. *)
Definition replaced_at (obj base : versioned B S) (o' : versioned B S) (c c' : catalog B S) : Prop :=
  exists cur, items c !! vr_key obj = Some cur /\ vr_Version cur = vr_Version base /\
    (cur = base -> renders obj o' /\
       (ob_Status (vr_Object obj) = ob_Status (vr_Object base) -> ob_Status (vr_Object o') = ob_Status (vr_Object base))) /\
    c' = shelve (vr_key obj) o' c.

(** A conflict, like a missing or existing object, is an error that leaves the
    collection as it is; any other error may come after the effect.  The laws
    are about the collection only: the standalone tenant store creates the
    Docker volumes of a tenant before it finds out that the name was taken or
    the version has changed ([tenant_store.go], [Create] and [Patch]), and they
    stay. *)
Definition refused (e : api_error) : bool := IsConflict e || IsNotFound e || IsAlreadyExists e.

Definition maybe (e : api_error) (eff : catalog B S -> Prop) (c c' : catalog B S) : Prop := c' = c \/ (refused e = false /\ eff c').

Class ProviderLaws := {
  law_p_get k s : good s -> in_scope k -> does (p_Get k) s (fun r c c' => c' = c /\
    match r with
    | inl o => items c !! k = Some o /\ vr_key o = k /\ (k, vr_Version o) ∈ spent c
    | inr e => IsNotFound e = true -> items c !! k = None
    end);
  law_p_list ns opts s : good s -> does (p_List ns opts) s (fun r c c' => c' = c /\
    match r with
    | inl (os, _) => forall o, o ∈ os -> items c !! vr_key o = Some o
    | inr _ => True
    end);
  law_p_create o s : good s -> in_scope (vr_key o) -> does (p_Create o) s (fun r c c' =>
    match r with
    | inl o' => created o o' c c'
    | inr e => maybe e (fun c' => exists o', created o o' c c') c c'
    end);
  law_p_patch obj base s : good s -> in_scope (vr_key obj) -> vr_key obj = vr_key base ->
    (vr_key base, vr_Version base) ∈ spent (objects s) -> does (p_Patch obj base) s (fun r c c' =>
    match r with
    | inl o' => replaced_at obj base o' c c'
    | inr e => maybe e (fun c' => exists o', replaced_at obj base o' c c') c c' /\ (IsNotFound e = true -> items c !! vr_key obj = None)
    end);
  law_p_delete k s : good s -> in_scope k -> does (p_Delete (B := B) (S := S) k) s (fun r c c' =>
    match r with
    | inl _ => c' = unshelve k c
    | inr e => maybe e (fun c' => c' = unshelve k c) c c' /\ (IsNotFound e = true -> items c !! k = None)
    end) }.
End Laws.
Arguments does {K B S} objects rely good {A}.
Arguments law_p_get {K B S _ objects rely good in_scope _}.
Arguments law_p_list {K B S _ objects rely good in_scope _}.
Arguments law_p_create {K B S _ objects rely good in_scope _}.
Arguments law_p_patch {K B S _ objects rely good in_scope _}.
Arguments law_p_delete {K B S _ objects rely good in_scope _}.

(** As long as an object has the version it had, it is the object it was.  A
    Kubernetes API server never gives a version twice.  The standalone stores
    count from 1 again when a name is deleted and created anew
    ([resourcepool_store.go], [newResourcePoolRecord]): there this holds of
    everything the others do but for that. *)
Definition moves_at {B S} (k : key) (c c' : catalog B S) : Prop :=
  spent c ⊆ spent c' /\
  forall o o' : versioned B S, items c !! k = Some o -> items c' !! k = Some o' -> vr_Version o' = vr_Version o -> o' = o.

Definition moves {B S} (c c' : catalog B S) : Prop := forall k, moves_at k c c'.

(** ** Programs over a provider *)

Section Programs.
Context {K B S : Type} `{!Provider K B S}.

(** What a mutation makes of an object: the edited object with a by-product, a
    reason to stop, or nothing to do ([errNoMutationNeeded]). *)
Inductive mutation (A : Type) :=
| Mutated (o : versioned B S) (a : A)
| Stopped (e : api_error)
| NoMutationNeeded.
Arguments Mutated {A}.
Arguments Stopped {A}.
Arguments NoMutationNeeded {A}.

(** [mutateWithRetry] of the pools: a second attempt on a fresh read when the
    patch meets a conflict. *)
Fixpoint mutate_attempts {A} (n : nat) (k : key) (mutate : versioned B S -> mutation A) : api K (option (versioned B S * A)) :=
  match n with
  | 0%nat => fail APIConflict
  | Datatypes.S n =>
      (let* pool := p_Get k in
       match mutate pool with
       | Stopped e => fail e
       | NoMutationNeeded => ret None
       | Mutated next a =>
           let* r := try (p_Patch next pool) in
           match r with
           | inl o => ret (Some (o, a))
           | inr e => if IsConflict e then mutate_attempts n k mutate else fail e
           end
       end)%api
  end.

Definition mutateWithRetry {A} (k : key) (mutate : versioned B S -> mutation A) : api K (option (versioned B S * A)) :=
  mutate_attempts 2 k mutate.

(** [retry.RetryOnConflict]: the closure again as long as it fails with a
    conflict, then the last one. *)
Fixpoint retry {A} (n : nat) (last : api_error) (m : api K A) : api K A :=
  match n with
  | 0%nat => fail last
  | Datatypes.S n =>
      (let* r := try m in
       match r with
       | inl a => ret a
       | inr e => if IsConflict e then retry n e m else fail e
       end)%api
  end.

(** [retry.DefaultRetry] makes five attempts. *)
Definition RetryOnConflict {A} (m : api K A) : api K A := retry 5 APIConflict m.
End Programs.
Arguments Mutated {B S A}.
Arguments Stopped {B S A}.
Arguments NoMutationNeeded {B S A}.

(** ** Edits are atomic *)

Section Atomic.
Context {K B S : Type} `{!Provider K B S} (objects : K -> catalog B S) (rely : catalog B S -> catalog B S -> Prop).
Context (good : K -> Prop) (in_scope : key -> Prop).
Context `{!ProviderLaws objects rely good in_scope} `{!PreOrder rely}.
Implicit Types o : versioned B S.

Local Notation does := (does objects rely good).

(** The edit in one step: of the object as it is, to what the mutation makes of
    it. *)
Definition atomic {A} (k : key) (f : versioned B S -> mutation A) (o' : versioned B S) (a : A) (c c' : catalog B S) : Prop :=
  exists cur next, items c !! k = Some cur /\ f cur = Mutated next a /\ renders next o' /\
    ob_Status (vr_Object o') = ob_Status (vr_Object cur) /\ c' = shelve k o' c.

(** A mutation that leaves the key and the status alone. *)
Definition local_edit {A} (f : versioned B S -> mutation A) : Prop :=
  forall (cur next : versioned B S) a, f cur = Mutated next a -> vr_key next = vr_key cur /\ ob_Status (vr_Object next) = ob_Status (vr_Object cur).

Lemma does_mono {A} (m : api K A) s (Φ Ψ : A + api_error -> catalog B S -> catalog B S -> Prop) :
  (forall r c c', Φ r c c' -> Ψ r c c') -> does m s Φ -> does m s Ψ.
Proof using Type.
  rw /CatalogStore.does. destruct (m s) as [r s']. intros Hi (Hg & c & c' & H1 & He & H2).
  split; [done |]. exists c, c'. split_and!; [done | by apply Hi | done].
Qed.

Lemma does_ret {A} (a : A) s (Φ : A + api_error -> catalog B S -> catalog B S -> Prop) :
  good s -> Φ (inl a) (objects s) (objects s) -> does (ret a) s Φ.
Proof using PreOrder0. intros Hg HΦ. split; [done |]. by exists (objects s), (objects s). Qed.

Lemma does_fail {A} e s (Φ : A + api_error -> catalog B S -> catalog B S -> Prop) :
  good s -> Φ (inr e) (objects s) (objects s) -> does (fail e) s Φ.
Proof using PreOrder0. intros Hg HΦ. split; [done |]. by exists (objects s), (objects s). Qed.

(** A call after a time in which nothing was done here. *)
Lemma did_after (eff : catalog B S -> catalog B S -> Prop) s s1 s' :
  rely (objects s) (objects s1) -> did rely objects eff s1 s' -> did rely objects eff s s'.
Proof using PreOrder0. intros Hr (c & c' & H1 & He & H2). exists c, c'. split_and!; [by etrans | done | done]. Qed.

(** Read, change, patch: the patch is an edit of the current object. *)
Lemma patch_after_read {A} k base next (a : A) f s1 c0 :
  good s1 -> in_scope k -> items c0 !! k = Some base -> vr_key base = k -> (k, vr_Version base) ∈ spent c0 -> rely c0 (objects s1) ->
  f base = Mutated next a -> local_edit f -> (forall c c', rely c c' -> moves_at k c c') ->
  does (p_Patch next base) s1 (fun r c c' =>
    match r with
    | inl o' => atomic k f o' a c c'
    | inr e => (c' = c \/ (refused e = false /\ exists o', atomic k f o' a c c')) /\ (IsNotFound e = true -> items c !! k = None)
    end).
Proof using All.
  intros Hg Hsc Hb Hbk Hsp Hr Hf Hl Hmoves. destruct (Hl _ _ _ Hf) as [Hk Hst].
  assert (forall c c' o', rely (objects s1) c -> replaced_at next base o' c c' -> atomic k f o' a c c') as Hat.
  { intros c c' o' Hc (cur & Hcur & Hv & Hre & ->). rw Hk Hbk in Hcur |- *.
    assert (cur = base) as -> by (eapply (proj2 (Hmoves c0 c ltac:(by etrans))); done).
    destruct (Hre eq_refl) as [Hren Hs']. exists base, next. split_and!; [done | done | done | by apply Hs' | done]. }
  assert ((vr_key base, vr_Version base) ∈ spent (objects s1)) as Hs1.
  { destruct (Hmoves _ _ Hr) as [Hsub _]. rw Hbk. by apply Hsub. }
  assert (in_scope (vr_key next)) as Hsn by (by rw Hk Hbk).
  pose proof (law_p_patch (objects := objects) (rely := rely) (good := good) (in_scope := in_scope) next base s1 Hg Hsn Hk Hs1) as Hp.
  rw /CatalogStore.does in Hp |- *. destruct (p_Patch next base s1) as [r s']. destruct Hp as (Hg' & c & c' & H1 & He & H2).
  split; [done |]. exists c, c'. split_and!; [done | | done]. destruct r as [o' | e]; [by apply Hat |].
  destruct He as [He Hn]. rw Hk Hbk in Hn. split; [| done].
  destruct He as [-> | (Hx & o' & He)]; [by left | right]. split; [done |]. exists o'. by apply Hat.
Qed.

Lemma mutate_attempts_atomic {A} n k (f : versioned B S -> mutation A) s : good s -> in_scope k -> local_edit f ->
  (forall c c', rely c c' -> moves_at k c c') ->
  does (mutate_attempts n k f) s (fun r c c' =>
    match r with
    | inl (Some (o', a)) => atomic k f o' a c c'
    | inl None => c' = c /\ exists cur, items c !! k = Some cur /\ f cur = NoMutationNeeded
    | inr e => (c' = c \/ (refused e = false /\ exists o' a, atomic k f o' a c c')) /\
        (IsNotFound e = true -> items c !! k = None \/ exists cur, items c !! k = Some cur /\ f cur = Stopped e)
    end).
Proof using All.
  intros Hg Hsc Hl Hmoves. revert s Hg. induction n as [| n IH]; intros s Hg; simpl; [apply does_fail; [done | by split; [left |]] |].
  pose proof (law_p_get (objects := objects) (rely := rely) (good := good) (in_scope := in_scope) k s Hg Hsc) as Hget.
  rw /CatalogStore.does /bind in Hget |- *. destruct (p_Get k s) as [[base | e] s1]; simpl.
  2: { destruct Hget as (Hg1 & c & c' & H1 & [-> Hn] & H2). split; [done |]. exists c, c. split_and!; [done | by left | intros He; left; by apply Hn | done]. }
  destruct Hget as (Hg1 & c0 & c & Hr0 & (-> & Hb & Hbk & Hsp) & Hr1).
  destruct (f base) as [next a | e |] eqn:Hf; simpl; [| split; [done |]; exists c0, c0; split_and!; [done | by left | by eauto | done] | split; [done |]; exists c0, c0; by eauto 10].
  pose proof (patch_after_read k base next a f s1 c0 Hg1 Hsc Hb Hbk Hsp Hr1 Hf Hl Hmoves) as Hp.
  assert (rely (objects s) (objects s1)) as Hr by (by etrans).
  rw /CatalogStore.does /try in Hp |- *. destruct (p_Patch next base s1) as [r s2]. destruct Hp as (Hg2 & c & c' & H1 & He & H2).
  destruct r as [o' | e]; simpl.
  { split; [done |]. exists c, c'. split_and!; [by etrans | done | done]. }
  destruct (IsConflict e) eqn:Hc; simpl.
  - specialize (IH s2 Hg2). destruct He as [[-> | [Hx _]] _]; [| by rw /refused Hc in Hx].
    assert (rely (objects s) (objects s2)) as Hr2 by (etrans; [exact Hr |]; etrans; [exact H1 | exact H2]).
    rw /CatalogStore.does in IH. destruct (mutate_attempts n k f s2) as [r' s3]. destruct IH as [Hg3 IH].
    split; [done |]. by eapply did_after.
  - split; [done |]. destruct He as [He Hn]. exists c, c'. split_and!; [by etrans | | by intros Hx; left; apply Hn | done].
    destruct He as [-> | (Hx & o' & He)]; [by left | right]. split; [done |]. by exists o', a.
Qed.

(** A loop of attempts that leave no trace when they meet a conflict ends like
    one attempt. *)
Lemma retry_elim {A} n last (m : api K A) (Φ : A + api_error -> catalog B S -> catalog B S -> Prop) :
  (forall s, good s -> does m s (fun r c c' => match r with inr e => if IsConflict e then c' = c else Φ r c c' | inl _ => Φ r c c' end)) ->
  (forall e c, IsConflict e = true -> Φ (inr e) c c) -> IsConflict last = true ->
  forall s, good s -> does (retry n last m) s Φ.
Proof using All.
  intros Hm Hc. revert last. induction n as [| n IH]; intros last Hl s Hg; simpl; [apply does_fail; [done | by apply Hc] |].
  specialize (Hm s Hg). rw /CatalogStore.does /bind /try in Hm |- *. destruct (m s) as [r s1]. destruct Hm as (Hg1 & c & c' & H1 & He & H2).
  destruct r as [a | e]; simpl; [split; [done |]; by exists c, c' |]. destruct (IsConflict e) eqn:Hce; simpl; [| split; [done |]; by exists c, c'].
  assert (rely (objects s) (objects s1)) as Hr by (subst c'; by etrans).
  specialize (IH e Hce s1 Hg1). rw /CatalogStore.does in IH. destruct (retry n e m s1) as [r s2]. destruct IH as [Hg2 IH].
  split; [done |]. by eapply did_after.
Qed.
End Atomic.
