(* ===== verification/CatalogApi.v ===== *)
(** * Cluster manager: requests, answers and conversions

    [cluster-manager/internal/server]: validation, the REST form of pools,
    units, tenants, quotas and volumes, and the folding of quota selections
    into what the tenant operator reads.  A request field that may be left out
    is an option where the code tells it from an empty one. *)

From Stdlib Require Import ssreflect ZArith Ascii String.
From stdpp Require Import base gmap list strings.
From S2P Require Import Prelude Placement ApiTypes Names Strconv Listing Kube OperatorTypes TenantTypes TenantValidate CatalogStore.

Open Scope string_scope.
Open Scope list_scope.

Definition LastModifiedByAnnotation : string := "resource.axisml.io/last-modified-by".
Definition DescriptionAnnotation : string := "resource.axisml.io/description".
Definition QuotasAnnotation : string := "tenant.axisml.io/quotas".

(** ** Validation *)

(** [ValidateDNS1123Name] *)
Definition ValidateDNS1123Name (field value : string) : option string :=
  let n := String.length value in
  first_of [when ((n <? 3)%nat || (40 <? n)%nat) (field +:+ " length must be 3-40 (got " +:+ decimal (Z.of_nat n) +:+ ")");
            when (negb (dns1123LabelRegex value)) (field +:+ " " +:+ quoted value +:+ " does not match DNS-1123")].

(** [strings.Contains] for one character, and [strings.HasPrefix] *)
Definition has_char (c : ascii) (s : string) : bool := existsb (Ascii.eqb c) (list_ascii_of_string s).
Definition has_prefix (p s : string) : bool :=
  match strip_prefix (list_ascii_of_string p) (list_ascii_of_string s) with Some _ => true | None => false end.

(** Functions of libraries. *)
Class CatalogMachinery (Q : Type) `{!Quantity Q} `{!QuantityLaws Q} := {
  (** [content.IsLabelKey] *)
  IsLabelKey : string -> list string;
  (** [Quantity.AsInt64], when it is exact *)
  AsInt64 : Q -> option Z;
  as_int64_exact q n : AsInt64 q = Some n -> q_val q = (n * 1000000000)%Z;
  (** [Quantity.String] *)
  QuantityString : Q -> string }.

Section Api.
Context {Q : Type} `{!Quantity Q} `{!QuantityLaws Q} `{!TenantMachinery Q} `{!CatalogMachinery Q}.

Definition native_resource (raw : string) : bool :=
  String.eqb raw "cpu" || String.eqb raw "memory" || String.eqb raw "ephemeral-storage" || has_prefix "hugepages-" raw.

(** One resource of [ValidateResourceList]. *)
Definition resource_error (field : string) (resources : gmap string Q) (raw : string) : option string :=
  let what := field +:+ " resource " +:+ quoted raw in
  let quantity := map_get q_zero resources raw in
  first_of [match IsLabelKey raw with
            | [] => None
            | problems => Some (what +:+ " is invalid: " +:+ Join problems "; ")
            end;
            when (negb (has_char "/" raw) && negb (native_resource raw))
              (what +:+ " must be cpu, memory, ephemeral-storage, hugepages-*, or a qualified extended resource");
            when (negative quantity) (what +:+ " must be non-negative");
            when (String.eqb raw "nvidia.com/gpu" && match AsInt64 quantity with Some _ => false | None => true end)
              (what +:+ " must be a whole number")].

Definition sorted_names (resources : gmap string Q) : list string := sort_slice str_lt (elements (dom resources)).

(** [ValidateResourceList] *)
Definition ValidateResourceList (field : string) (resources : gmap string Q) : option string :=
  first_of (map (resource_error field resources) (sorted_names resources)).

(** ** Pools *)

(** [ResourcePoolSpec] *)
Record PoolSpec := {
  psp_NodeSelector : gmap string string; psp_Capacity : gmap string Q; psp_Units : list (ResourceUnit Q) }.

Abbreviation Pool := (versioned PoolSpec unit) (only parsing).

Record UnitAPI := {
  uap_Name : string; uap_Description : string; uap_Requests : gmap string Q; uap_Limits : gmap string Q;
  uap_NodeSelector : gmap string string; uap_Annotations : gmap string string }.

Record PoolAPI := {
  pap_Name : string; pap_Description : string; pap_NodeSelector : gmap string string; pap_Capacity : gmap string Q;
  pap_Units : list UnitAPI; pap_Labels : gmap string string; pap_Annotations : gmap string string;
  pap_ResourceVersion : string; pap_CreatedAt : Z }.

Record CreateUnitRequest := {
  cur_Name : string; cur_Description : string; cur_Requests : gmap string Q; cur_Limits : gmap string Q;
  cur_NodeSelector : gmap string string; cur_Annotations : gmap string string }.

Record CreatePoolRequest := {
  cpr_Name : string; cpr_Description : string; cpr_NodeSelector : gmap string string; cpr_Capacity : option (gmap string Q);
  cpr_Units : list CreateUnitRequest; cpr_Labels : gmap string string; cpr_Annotations : gmap string string }.

Record PatchPoolRequest := {
  ppr_Description : option string; ppr_NodeSelector : option (gmap string string); ppr_Capacity : option (gmap string Q);
  ppr_Labels : option (gmap string string); ppr_Annotations : option (gmap string string) }.

Record PatchUnitRequest := {
  pur_Description : option string; pur_Requests : option (gmap string Q); pur_Limits : option (gmap string Q);
  pur_NodeSelector : option (gmap string string); pur_Annotations : option (gmap string string) }.

(** Set a key unless the value is empty. *)
Definition set_if (k v : string) (m : gmap string string) : gmap string string := if String.eqb v "" then m else <[k := v]> m.

(** [mergeAnnotations] *)
Definition mergeAnnotations (user : gmap string string) (description lastModifiedBy : string) : gmap string string :=
  set_if LastModifiedByAnnotation lastModifiedBy (set_if DescriptionAnnotation description user).

Definition reservedAnnotations : list string := [DescriptionAnnotation; LastModifiedByAnnotation; QuotasAnnotation].

(** [stripReservedAnnotations] *)
Definition stripReservedAnnotations (m : gmap string string) : gmap string string :=
  filter (fun kv => kv.1 ∉ reservedAnnotations) m.

(** [UnitToAPI] *)
Definition UnitToAPI (u : ResourceUnit Q) : UnitAPI :=
  {| uap_Name := ru_Name u; uap_Description := map_get "" (ru_Annotations u) DescriptionAnnotation;
     uap_Requests := ru_Requests u; uap_Limits := ru_Limits u; uap_NodeSelector := ru_NodeSelector u;
     uap_Annotations := stripReservedAnnotations (ru_Annotations u) |}.

(** [PoolToAPI] *)
Definition PoolToAPI (p : Pool) : PoolAPI :=
  let o := vr_Object p in
  {| pap_Name := ob_Name o; pap_Description := map_get "" (ob_Annotations o) DescriptionAnnotation;
     pap_NodeSelector := psp_NodeSelector (ob_Spec o); pap_Capacity := psp_Capacity (ob_Spec o);
     pap_Units := map UnitToAPI (psp_Units (ob_Spec o)); pap_Labels := ob_Labels o;
     pap_Annotations := stripReservedAnnotations (ob_Annotations o);
     pap_ResourceVersion := vr_Version p; pap_CreatedAt := vr_CreatedAt p |}.

(** [APIToUnit] *)
Definition APIToUnit (req : CreateUnitRequest) : ResourceUnit Q :=
  {| ru_Name := cur_Name req; ru_Requests := cur_Requests req; ru_Limits := cur_Limits req;
     ru_NodeSelector := cur_NodeSelector req; ru_Annotations := mergeAnnotations (cur_Annotations req) (cur_Description req) "" |}.

(** An object as it is before it is stored. *)
Definition fresh {B S} (ns name : string) (labels annotations : gmap string string) (spec : B) (st : S) : versioned B S :=
  {| vr_Object := {| ob_Meta := {| me_Obj := {| om_Name := name; om_Namespace := ns; om_Labels := labels;
                                                om_Annotations := annotations |};
                                   me_UID := ""; me_Generation := 0; me_Owners := [] |};
                     ob_Spec := spec; ob_Status := st |};
     vr_Version := ""; vr_CreatedAt := 0 |}.

(** [APIToPool] *)
Definition APIToPool (req : CreatePoolRequest) (lastModifiedBy : string) : Pool :=
  fresh "" (cpr_Name req) (cpr_Labels req) (mergeAnnotations (cpr_Annotations req) (cpr_Description req) lastModifiedBy)
    {| psp_NodeSelector := cpr_NodeSelector req; psp_Capacity := default ∅ (cpr_Capacity req);
       psp_Units := map APIToUnit (cpr_Units req) |} tt.

(** The new annotations of an edited object: what the user gives replaces what
    the user sees, the reserved ones stay. *)
Definition replace_annotations (reserved : list string) (given : option (gmap string string)) (old : gmap string string)
    : gmap string string :=
  match given with
  | None => old
  | Some user => foldr (fun k m => set_if k (map_get "" old k) m) user reserved
  end.

(** [applyPoolPatch] *)
Definition applyPoolPatch (req : PatchPoolRequest) (user : string) (p : Pool) : Pool :=
  let spec := vr_Spec p in
  let ann := replace_annotations [LastModifiedByAnnotation; DescriptionAnnotation] (ppr_Annotations req) (ob_Annotations (vr_Object p)) in
  let ann := match ppr_Description req with Some d => <[DescriptionAnnotation := d]> ann | None => ann end in
  let ann := set_if LastModifiedByAnnotation user ann in
  edit (fun o => set_annotations ann (set_labels (default (ob_Labels o) (ppr_Labels req)) (set_spec
    {| psp_NodeSelector := default (psp_NodeSelector spec) (ppr_NodeSelector req);
       psp_Capacity := default (psp_Capacity spec) (ppr_Capacity req);
       psp_Units := psp_Units spec |} o))) p.

(** [applyUnitPatch] *)
Definition applyUnitPatch (req : PatchUnitRequest) (u : ResourceUnit Q) : ResourceUnit Q :=
  let ann := replace_annotations [DescriptionAnnotation] (pur_Annotations req) (ru_Annotations u) in
  {| ru_Name := ru_Name u;
     ru_Requests := default (ru_Requests u) (pur_Requests req);
     ru_Limits := default (ru_Limits u) (pur_Limits req);
     ru_NodeSelector := default (ru_NodeSelector u) (pur_NodeSelector req);
     ru_Annotations := match pur_Description req with Some d => <[DescriptionAnnotation := d]> ann | None => ann end |}.

(** [firstDuplicateUnit] *)
Fixpoint first_duplicate (seen : gset string) (names : list string) : option string :=
  match names with
  | [] => None
  | n :: rest => if bool_decide (n ∈ seen) then Some n else first_duplicate ({[n]} ∪ seen) rest
  end.

Definition firstDuplicateUnit (units : list CreateUnitRequest) : option string := first_duplicate ∅ (map cur_Name units).

(** ** Quotas *)

Record QuotaUnit := { qu_UnitName : string; qu_Quantity : Z }.
Record QuotaResources := { qr_Min : gmap string Q; qr_Max : gmap string Q }.

(** [Quota]: units and direct resources are both optional; a nil list of units
    is not an empty one. *)
Record QuotaInput := { qi_Pool : string; qi_Units : option (list QuotaUnit); qi_Quota : option QuotaResources }.

Inductive QuotaErrorReason :=
| QuotaPoolNotFound | QuotaUnitNotFound | QuotaBadQuantity | QuotaDuplicatePool | QuotaModeConflict | QuotaModeRequired
| QuotaMaxRequired | QuotaInvalidResource | QuotaNegativeResource | QuotaMinWithoutMax | QuotaMinExceedsMax.

Record QuotaError := { qe_Reason : QuotaErrorReason; qe_Pool : string; qe_Unit : string; qe_Resource : string }.

Definition quota_error (r : QuotaErrorReason) (pool unit resource : string) : QuotaError :=
  {| qe_Reason := r; qe_Pool := pool; qe_Unit := unit; qe_Resource := resource |}.

(** [QuotaError.Error] *)
Definition quota_error_text (e : QuotaError) : string :=
  match qe_Reason e with
  | QuotaPoolNotFound => "resource pool not found: " +:+ qe_Pool e
  | QuotaUnitNotFound => "unit not found in pool " +:+ qe_Pool e +:+ ": " +:+ qe_Unit e
  | QuotaBadQuantity => "quantity must be >= 0 for unit " +:+ qe_Unit e +:+ " in pool " +:+ qe_Pool e
  | QuotaDuplicatePool => "duplicate quota for pool " +:+ qe_Pool e
  | QuotaModeConflict => "quota for pool " +:+ qe_Pool e +:+ " must use either units or quota, not both"
  | QuotaModeRequired => "quota for pool " +:+ qe_Pool e +:+ " must specify either units or quota"
  | QuotaMaxRequired => "quota.max is required for pool " +:+ qe_Pool e
  | QuotaInvalidResource => "invalid quota resources for pool " +:+ qe_Pool e +:+ ": " +:+ qe_Resource e
  | QuotaNegativeResource => "quota resource " +:+ qe_Resource e +:+ " must be >= 0 in pool " +:+ qe_Pool e
  | QuotaMinWithoutMax => "quota.min resource " +:+ qe_Resource e +:+ " must also be present in quota.max for pool " +:+ qe_Pool e
  | QuotaMinExceedsMax => "quota.min resource " +:+ qe_Resource e +:+ " exceeds quota.max in pool " +:+ qe_Pool e
  end.

(** The first error of a list of checks. *)
Fixpoint first_error {E} (l : list (option E)) : option E :=
  match l with [] => None | Some e :: _ => Some e | None :: rest => first_error rest end.

Definition direct_min_error (pool : string) (max : gmap string Q) (kv : string * Q) : option QuotaError :=
  let '(name, v) := kv in
  if negative v then Some (quota_error QuotaNegativeResource pool "" name)
  else match max !! name with
       | None => Some (quota_error QuotaMinWithoutMax pool "" name)
       | Some mv => match q_cmp v mv with Gt => Some (quota_error QuotaMinExceedsMax pool "" name) | _ => None end
       end.

(** [validateDirectQuota] *)
Definition validateDirectQuota (pool : string) (q : QuotaResources) : option QuotaError :=
  if bool_decide (qr_Max q = ∅) then Some (quota_error QuotaMaxRequired pool "" "")
  else first_error (
    map (fun kv => if negative kv.2 then Some (quota_error QuotaNegativeResource pool "" kv.1) else None) (map_to_list (qr_Max q)) ++
    map (direct_min_error pool (qr_Max q)) (map_to_list (qr_Min q))).

(** [findUnit] *)
Definition findUnit (units : list (ResourceUnit Q)) (name : string) : option (ResourceUnit Q) :=
  List.find (fun u => String.eqb (ru_Name u) name) units.

(** [Quantity.Add], [n] times *)
Definition add_times (n : nat) (qty cur : Q) : Q := Nat.iter n (fun c => q_add c qty) cur.

(** [addScaled] *)
Definition addScaled (acc src : gmap string Q) (n : Z) : gmap string Q :=
  merge (fun cur qty => match qty with
                        | None => cur
                        | Some q => Some (add_times (Z.to_nat n) q (default q_zero cur))
                        end) acc src.

(** [emptyToNil] *)
Definition emptyToNil (rl : gmap string Q) : option (gmap string Q) := if bool_decide (rl = ∅) then None else Some rl.

(** The loop over the selected units. *)
Fixpoint fold_units (pool : string) (units : list (ResourceUnit Q)) (min max : gmap string Q) (sels : list QuotaUnit)
    : (gmap string Q * gmap string Q) + QuotaError :=
  match sels with
  | [] => inl (min, max)
  | sel :: rest =>
      if (qu_Quantity sel <? 0)%Z then inr (quota_error QuotaBadQuantity pool (qu_UnitName sel) "")
      else match findUnit units (qu_UnitName sel) with
           | None => inr (quota_error QuotaUnitNotFound pool (qu_UnitName sel) "")
           | Some u => fold_units pool units (addScaled min (ru_Requests u) (qu_Quantity sel))
                         (addScaled max (ru_Limits u) (qu_Quantity sel)) rest
           end
  end.

(** One selection of [FoldQuotas]. *)
Definition fold_quota (units : list (ResourceUnit Q)) (q : QuotaInput) : QuotaSpec Q + QuotaError :=
  match qi_Units q, qi_Quota q with
  | Some _, Some _ => inr (quota_error QuotaModeConflict (qi_Pool q) "" "")
  | None, None => inr (quota_error QuotaModeRequired (qi_Pool q) "" "")
  | None, Some direct =>
      match validateDirectQuota (qi_Pool q) direct with
      | Some e => inr e
      | None => inl {| qsp_Pool := qi_Pool q; qsp_Min := qr_Min direct; qsp_Max := emptyToNil (qr_Max direct) |}
      end
  | Some sels, None =>
      match fold_units (qi_Pool q) units ∅ ∅ sels with
      | inr e => inr e
      | inl (min, max) => inl {| qsp_Pool := qi_Pool q; qsp_Min := min; qsp_Max := emptyToNil max |}
      end
  end.

Fixpoint fold_quotas (pools : gmap string (list (ResourceUnit Q))) (seen : gset string) (sels : list QuotaInput)
    : list (QuotaSpec Q) + QuotaError :=
  match sels with
  | [] => inl []
  | q :: rest =>
      if bool_decide (qi_Pool q ∈ seen) then inr (quota_error QuotaDuplicatePool (qi_Pool q) "" "")
      else match pools !! qi_Pool q with
           | None => inr (quota_error QuotaPoolNotFound (qi_Pool q) "" "")
           | Some units =>
               match fold_quota units q with
               | inr e => inr e
               | inl spec =>
                   match fold_quotas pools ({[qi_Pool q]} ∪ seen) rest with
                   | inr e => inr e
                   | inl specs => inl (spec :: specs)
                   end
               end
           end
  end.

(** [FoldQuotas]; of the pools only their units are read. *)
Definition FoldQuotas (sels : list QuotaInput) (pools : gmap string (list (ResourceUnit Q))) : list (QuotaSpec Q) + QuotaError :=
  fold_quotas pools ∅ sels.

(** [PoolNames] *)
Fixpoint pool_names (seen : gset string) (sels : list QuotaInput) : list string :=
  match sels with
  | [] => []
  | q :: rest => if bool_decide (qi_Pool q ∈ seen) then pool_names seen rest else qi_Pool q :: pool_names ({[qi_Pool q]} ∪ seen) rest
  end.

Definition PoolNames (sels : list QuotaInput) : list string := pool_names ∅ sels.
End Api.
Arguments PoolSpec : clear implicits.
Arguments UnitAPI : clear implicits.
Arguments PoolAPI : clear implicits.
Arguments CreateUnitRequest : clear implicits.
Arguments CreatePoolRequest : clear implicits.
Arguments PatchPoolRequest : clear implicits.
Arguments PatchUnitRequest : clear implicits.
Arguments QuotaResources : clear implicits.
Arguments QuotaInput : clear implicits.
Abbreviation Pool Q := (versioned (PoolSpec Q) unit) (only parsing).

(** ** Tenants *)

(** [json.Marshal] and [json.Unmarshal] of quota selections.  [Quota.MarshalJSON]
    keeps an empty list of units apart from an absent one, so selections by
    units come back as they were. *)
Class QuotaCodec (Q : Type) := {
  marshal_quotas : list (QuotaInput Q) -> string;
  unmarshal_quotas : string -> option (list (QuotaInput Q));
  codec_roundtrip l : Forall (fun q => is_Some (qi_Units q) /\ qi_Quota q = None) l -> unmarshal_quotas (marshal_quotas l) = Some l;
  codec_nonempty l : marshal_quotas l <> "" }.

Section TenantApi.
Context {Q : Type} `{!Quantity Q} `{!QuantityLaws Q} `{!TenantMachinery Q} `{!CatalogMachinery Q} `{!QuotaCodec Q}.

Abbreviation TenantItem := (versioned (TenantSpec Q) (TenantStatus Q)) (only parsing).

Record QuotaStatusAPI := { qsa_Pool : string; qsa_Ready : bool; qsa_Used : gmap string Q }.

Record TenantStatusAPI := {
  tsa_ObservedGeneration : Z; tsa_Phase : TenantPhase; tsa_Message : string; tsa_NamespaceReady : bool;
  tsa_Quotas : list QuotaStatusAPI }.

Record TenantAPI := {
  tap_Name : string; tap_Namespace : NamespaceSpec; tap_Quotas : list (QuotaInput Q); tap_InitResources : option InitResources;
  tap_Labels : gmap string string; tap_Annotations : gmap string string; tap_ResourceVersion : string; tap_Phase : TenantPhase;
  tap_Status : option TenantStatusAPI; tap_CreatedAt : Z }.

Record CreateTenantRequest := {
  ctr_Name : string; ctr_Namespace : option NamespaceSpec; ctr_Quotas : list (QuotaInput Q);
  ctr_InitResources : option InitResources; ctr_Labels : gmap string string; ctr_Annotations : gmap string string }.

Record PatchTenantRequest := {
  ptr_NamespaceLabels : option (gmap string string); ptr_NamespaceAnnotations : option (gmap string string);
  ptr_InitResources : option InitResources; ptr_Labels : option (gmap string string);
  ptr_Annotations : option (gmap string string) }.

(** [QuotasToAnnotation]; encoding such a list does not fail. *)
Definition QuotasToAnnotation (quotas : list (QuotaInput Q)) : string :=
  match List.filter (fun q => match qi_Units q with Some _ => true | None => false end) quotas with
  | [] => ""
  | l => marshal_quotas (map (fun q => {| qi_Pool := qi_Pool q; qi_Units := qi_Units q; qi_Quota := None |}) l)
  end.

(** [quotasFromAnnotation] *)
Definition quotasFromAnnotation (ann : gmap string string) : list (QuotaInput Q) :=
  let raw := map_get "" ann QuotasAnnotation in
  if String.eqb raw "" then [] else default [] (unmarshal_quotas raw).

(** The map of selections by pool in [quotasToAPI]; of two entries for a pool
    the later one stays. *)
Definition units_by_pool (l : list (QuotaInput Q)) : gmap string (list QuotaUnit) :=
  foldl (fun m q => match qi_Units q with
                    | Some units => if String.eqb (qi_Pool q) "" then m else <[qi_Pool q := units]> m
                    | None => m
                    end) ∅ l.

(** One entry of [quotasToAPI]. *)
Definition quota_to_api (by_pool : gmap string (list QuotaUnit)) (spec : QuotaSpec Q) : QuotaInput Q :=
  match by_pool !! qsp_Pool spec with
  | Some units => {| qi_Pool := qsp_Pool spec; qi_Units := Some units; qi_Quota := None |}
  | None =>
      let max := default ∅ (qsp_Max spec) in
      if bool_decide (max = ∅) then {| qi_Pool := qsp_Pool spec; qi_Units := Some []; qi_Quota := None |}
      else {| qi_Pool := qsp_Pool spec; qi_Units := None; qi_Quota := Some {| qr_Min := qsp_Min spec; qr_Max := max |} |}
  end.

(** [quotasToAPI] *)
Definition quotasToAPI (specs : list (QuotaSpec Q)) (ann : gmap string string) : list (QuotaInput Q) :=
  map (quota_to_api (units_by_pool (quotasFromAnnotation ann))) specs.

(** [isZeroInitResources] *)
Definition isZeroInitResources (ir : InitResources) : bool :=
  match ir_ImagePullSecrets ir, ir_Secrets ir, ir_ConfigMaps ir, ir_ServiceAccounts ir, ir_Volumes ir with
  | [], [], [], [], [] => true
  | _, _, _, _, _ => false
  end.

(** [tenantStatusToAPI] *)
Definition tenantStatusToAPI (s : TenantStatus Q) : option TenantStatusAPI :=
  if bool_decide (tst_Phase s = TenantPhaseUnset) && (tst_ObservedGeneration s =? 0)%Z && negb (tst_NamespaceReady s) &&
     String.eqb (tst_Message s) "" && match tst_Quotas s with [] => true | _ => false end then None
  else Some {| tsa_ObservedGeneration := tst_ObservedGeneration s; tsa_Phase := tst_Phase s; tsa_Message := tst_Message s;
               tsa_NamespaceReady := tst_NamespaceReady s;
               tsa_Quotas := map (fun q => {| qsa_Pool := qst_Pool q; qsa_Ready := qst_Ready q; qsa_Used := qst_Used q |}) (tst_Quotas s) |}.

(** [TenantToAPI] *)
Definition TenantToAPI (t : TenantItem) : TenantAPI :=
  let o := vr_Object t in
  {| tap_Name := ob_Name o; tap_Namespace := tns_Namespace (ob_Spec o);
     tap_Quotas := quotasToAPI (tns_Quotas (ob_Spec o)) (ob_Annotations o);
     tap_InitResources := let ir := tns_InitResources (ob_Spec o) in if isZeroInitResources ir then None else Some ir;
     tap_Labels := ob_Labels o; tap_Annotations := stripReservedAnnotations (ob_Annotations o);
     tap_ResourceVersion := vr_Version t; tap_Phase := tst_Phase (ob_Status o);
     tap_Status := tenantStatusToAPI (ob_Status o); tap_CreatedAt := vr_CreatedAt t |}.

(** [tenantAnnotations] *)
Definition tenantAnnotations (user : gmap string string) (lastModifiedBy quotaAnno : string) : gmap string string :=
  set_if QuotasAnnotation quotaAnno (set_if LastModifiedByAnnotation lastModifiedBy user).

Definition no_init_resources : InitResources :=
  {| ir_ImagePullSecrets := []; ir_Secrets := []; ir_ConfigMaps := []; ir_ServiceAccounts := []; ir_Volumes := [] |}.

(** [APIToTenant] *)
Definition APIToTenant (req : CreateTenantRequest) (folded : list (QuotaSpec Q)) (quotaAnno lastModifiedBy : string) : TenantItem :=
  let ns := match ctr_Namespace req with
            | None => {| nsp_Name := ctr_Name req; nsp_Labels := ∅; nsp_Annotations := ∅ |}
            | Some ns => {| nsp_Name := if String.eqb (nsp_Name ns) "" then ctr_Name req else nsp_Name ns;
                            nsp_Labels := nsp_Labels ns; nsp_Annotations := nsp_Annotations ns |}
            end in
  fresh "" (ctr_Name req) (ctr_Labels req) (tenantAnnotations (ctr_Annotations req) lastModifiedBy quotaAnno)
    {| tns_Namespace := ns; tns_Quotas := folded; tns_InitResources := default no_init_resources (ctr_InitResources req) |}
    TenantStatus_zero.

(** [applyTenantPatch] *)
Definition applyTenantPatch (req : PatchTenantRequest) (user : string) (t : TenantItem) : TenantItem :=
  let spec := vr_Spec t in
  let ns := tns_Namespace spec in
  let ann := replace_annotations [QuotasAnnotation; LastModifiedByAnnotation] (ptr_Annotations req) (ob_Annotations (vr_Object t)) in
  edit (fun o => set_annotations (set_if LastModifiedByAnnotation user ann) (set_labels (default (ob_Labels o) (ptr_Labels req)) (set_spec
    {| tns_Namespace := {| nsp_Name := nsp_Name ns; nsp_Labels := default (nsp_Labels ns) (ptr_NamespaceLabels req);
                           nsp_Annotations := default (nsp_Annotations ns) (ptr_NamespaceAnnotations req) |};
       tns_Quotas := tns_Quotas spec;
       tns_InitResources := default (tns_InitResources spec) (ptr_InitResources req) |} o))) t.

(** [setQuotaAnnotation] *)
Definition setQuotaAnnotation (anno : string) (ann : gmap string string) : gmap string string :=
  if String.eqb anno "" then delete QuotasAnnotation ann else <[QuotasAnnotation := anno]> ann.

(** ** Usage *)

(** [ResourceMeter] over floating point numbers [F]. *)
Section Meters.
Context {F : Type} (AsApproximateFloat64 : Q -> F) (zero : F) (per_GiB : F -> F).

Record ResourceMeter := { rm_Resource : string; rm_Used : F; rm_Total : F; rm_Unit : string }.

(** [strings.Contains] *)
Fixpoint Contains (needle hay : list ascii) : bool :=
  match strip_prefix needle hay with
  | Some _ => true
  | None => match hay with [] => false | _ :: rest => Contains needle rest end
  end.

(** [meterValue] *)
Definition meterValue (name : string) (rl : gmap string Q) : F * string :=
  let v := match rl !! name with Some q => AsApproximateFloat64 q | None => zero end in
  if String.eqb name "cpu" then (v, "cores")
  else if String.eqb name "memory" then (per_GiB v, "GiB")
  else if Contains (list_ascii_of_string "gpu") (list_ascii_of_string name) then (v, "cards")
  else (v, "").

(** [buildMeters] *)
Definition buildMeters (total used : gmap string Q) : list ResourceMeter :=
  map (fun n => let '(usedV, unit) := meterValue n used in
                {| rm_Resource := n; rm_Used := usedV; rm_Total := (meterValue n total).1; rm_Unit := unit |})
    (sort_slice str_lt (elements (dom total ∪ dom used))).

(** [TenantPoolUsage] *)
Definition TenantPoolUsage (t : TenantItem) (pool : string) : string * string * list ResourceMeter :=
  let total := match List.find (fun q => String.eqb (qsp_Pool q) pool) (tns_Quotas (vr_Spec t)) with
               | Some q => let max := default ∅ (qsp_Max q) in if bool_decide (max = ∅) then qsp_Min q else max
               | None => ∅
               end in
  let used := match List.find (fun q => String.eqb (qst_Pool q) pool) (tst_Quotas (ob_Status (vr_Object t))) with
              | Some q => qst_Used q
              | None => ∅
              end in
  (pool, vr_Name t, buildMeters total used).
End Meters.

(** ** Volumes *)

(** A PersistentVolumeClaim: its spec, and phase and bound capacity as status. *)
Record ClaimStatus := { pcs_Phase : string; pcs_Capacity : gmap string Q }.

Abbreviation ClaimItem := (versioned (ClaimSpec Q) ClaimStatus) (only parsing).

Record CreateVolumeRequest := {
  cvr_Namespace : string; cvr_Name : string; cvr_Size : string; cvr_StorageClass : string; cvr_AccessModes : list string;
  cvr_Description : string; cvr_Labels : gmap string string }.

(** [PatchVolumeRequest] and [extensions.VolumePatch] *)
Record VolumePatch := { vpr_Size : option string; vpr_Description : option string; vpr_Labels : option (gmap string string) }.

Record VolumeMount := { vmo_Workload : string; vmo_Kind : string; vmo_MountPath : string; vmo_Running : bool }.

Record VolumeStatusAPI := { vsa_Phase : string; vsa_BoundCapacity : string; vsa_Mounts : list VolumeMount }.

Record VolumeAPI := {
  vap_Namespace : string; vap_Name : string; vap_Size : string; vap_StorageClass : string; vap_AccessModes : list string;
  vap_Description : string; vap_Labels : gmap string string; vap_Status : VolumeStatusAPI; vap_CreatedAt : Z }.

(** [APIToPVC] *)
Definition APIToPVC (req : CreateVolumeRequest) : ClaimItem + string :=
  match ParseQuantity (cvr_Size req) with
  | inr e => inr e
  | inl q => inl (fresh (cvr_Namespace req) (cvr_Name req) (cvr_Labels req) (set_if DescriptionAnnotation (cvr_Description req) ∅)
      {| pc_AccessModes := cvr_AccessModes req;
         pc_StorageClassName := if String.eqb (cvr_StorageClass req) "" then None else Some (cvr_StorageClass req);
         pc_Requests := {["storage" := q]} |}
      {| pcs_Phase := ""; pcs_Capacity := ∅ |})
  end.

Definition managedByLabel : string := "app.kubernetes.io/managed-by".
Definition managedByValue : string := "axisml-cluster-manager".

(** [userLabels] *)
Definition userLabels (labels : gmap string string) : gmap string string := delete managedByLabel labels.

Definition storage_text (rl : gmap string Q) : string := match rl !! "storage" with Some q => QuantityString q | None => "" end.

(** [VolumeToAPI] *)
Definition VolumeToAPI (pvc : ClaimItem) : VolumeAPI :=
  let o := vr_Object pvc in
  {| vap_Namespace := ob_Namespace o; vap_Name := ob_Name o; vap_Size := storage_text (pc_Requests (ob_Spec o));
     vap_StorageClass := default "" (pc_StorageClassName (ob_Spec o)); vap_AccessModes := pc_AccessModes (ob_Spec o);
     vap_Description := map_get "" (ob_Annotations o) DescriptionAnnotation; vap_Labels := userLabels (ob_Labels o);
     vap_Status := {| vsa_Phase := pcs_Phase (ob_Status o); vsa_BoundCapacity := storage_text (pcs_Capacity (ob_Status o)); vsa_Mounts := [] |};
     vap_CreatedAt := vr_CreatedAt pvc |}.
End TenantApi.
Arguments TenantAPI : clear implicits.
Arguments CreateTenantRequest : clear implicits.
Arguments PatchTenantRequest : clear implicits.
Arguments ClaimStatus : clear implicits.
Arguments ResourceMeter : clear implicits.
Abbreviation TenantItem Q := (versioned (TenantSpec Q) (TenantStatus Q)) (only parsing).
Abbreviation ClaimItem Q := (versioned (ClaimSpec Q) (ClaimStatus Q)) (only parsing).
