(* ===== verification/CatalogHandlers.v ===== *)
(** * Cluster manager: the REST handlers

    [cluster-manager/internal/resourcepool], [tenant] and [volume], and the
    Kubernetes volume store.  A handler is a function of the parsed request
    that answers once, after calls on the stores; a request body is what
    [ShouldBindJSON] makes of it, or its error.  The metrics query of
    [internal/promql] is here up to the query that is sent. *)

From Stdlib Require Import ssreflect ZArith Ascii String.
From stdpp Require Import base gmap list strings.
From S2P Require Import Prelude Placement ApiTypes Names Strconv Listing Kube OperatorTypes TenantTypes TenantValidate CatalogStore CatalogApi.

Open Scope string_scope.
Open Scope list_scope.

(** ** Answers *)

(** [c.JSON], [c.Status] and [AbortWithProblem] *)
Inductive reply {A : Type} :=
| JSON (status : Z) (body : A)
| Status (status : Z)
| AbortWithProblem (status : Z) (code title detail : string).
Arguments reply : clear implicits.

Definition reply_status {A} (r : reply A) : Z :=
  match r with JSON s _ => s | Status s => s | AbortWithProblem s _ _ _ => s end.

Section Answers.
Context {K : Type}.

Definition answer (A : Type) : Type := K -> reply A * K.

Definition send {A} (r : reply A) : answer A := fun s => (r, s).

(** [if err != nil { ...; return }] *)
Definition on {A B} (m : api K A) (bad : api_error -> reply B) (f : A -> answer B) : answer B := fun s =>
  match m s with (inl a, s') => f a s' | (inr e, s') => (bad e, s') end.

(** [c.ShouldBindJSON(&req)] *)
Definition bound {A B} (body : A + string) (f : A -> answer B) : answer B :=
  match body with
  | inl req => f req
  | inr e => send (AbortWithProblem 400 "InvalidBody" "request body malformed" e)
  end.

(** A check of the request. *)
Definition unless {A E} (err : option E) (bad : E -> reply A) (next : answer A) : answer A :=
  match err with Some e => send (bad e) | None => next end.
End Answers.
Arguments answer : clear implicits.

(** [writeK8sError] of pools and of tenants. *)
Definition writeK8sError {A} (err : api_error) (name : string) : reply A :=
  if IsUnavailable err then AbortWithProblem 409 "CapabilityUnavailable" "operation not supported in this deployment form" name
  else if IsAlreadyExists err then AbortWithProblem 409 "AlreadyExists" "resource already exists" name
  else if IsNotFound err then AbortWithProblem 404 "NotFound" "resource not found" name
  else if IsConflict err then AbortWithProblem 409 "OptimisticLockConflict" "resource was modified concurrently — retry" name
  else if IsInvalid err then AbortWithProblem 422 "Invalid" "K8s API rejected the resource" (error_text err)
  else if IsBadRequest err then AbortWithProblem 400 "BadRequest" (error_text err) ""
  else AbortWithProblem 500 "K8sError" "unexpected error from Kubernetes API" (error_text err).

(** [writeK8sError] of volumes. *)
Definition volume_writeK8sError {A} (err : api_error) (name : string) : reply A :=
  if IsUnavailable err then AbortWithProblem 409 "CapabilityUnavailable" "operation not supported in this deployment form" name
  else if IsNotFound err then AbortWithProblem 404 "NotFound" "resource not found" name
  else if IsConflict err then AbortWithProblem 409 "OptimisticLockConflict" "resource was modified concurrently — retry" name
  else if IsInvalid err then AbortWithProblem 422 "Invalid" "K8s API rejected the volume" (error_text err)
  else if IsForbidden err then AbortWithProblem 422 "Forbidden" "K8s API forbade the change (e.g. volume shrink)" (error_text err)
  else if IsBadRequest err then AbortWithProblem 400 "BadRequest" (error_text err) ""
  else AbortWithProblem 500 "K8sError" "unexpected error from Kubernetes API" (error_text err).

(** [ResourcePoolList], [ResourceUnitList], [TenantList], [QuotaList], [VolumeList] *)
Record listing {A : Type} := { li_Items : list A; li_Count : Z; li_ContinueToken : string }.
Arguments listing : clear implicits.

Definition listed {A} (items : list A) (token : string) : listing A :=
  {| li_Items := items; li_Count := Z.of_nat (length items); li_ContinueToken := token |}.

(** [labels.Parse]: the requirements, or the text of the error. *)
Class SelectorParser := { labels_Parse : string -> list Requirement + string }.

Definition selector_error `{!SelectorParser} (sel : string) : option string :=
  if String.eqb sel "" then None else match labels_Parse sel with inl _ => None | inr e => Some e end.

(** The query parameter [limit]. *)
Definition page_limit (v : string) : option Z :=
  if String.eqb v "" then Some 0%Z
  else match Atoi (list_ascii_of_string v) with
       | Some n => if ((n <? 1) || (500 <? n))%Z then None else Some n
       | None => None
       end.

Definition with_list_options `{!SelectorParser} {K A} (sel limit cont : string) (f : ListOptions -> answer K A) : answer K A :=
  unless (selector_error sel) (fun e => AbortWithProblem 400 "InvalidSelector" "labelSelector parse error" e)
    match page_limit limit with
    | None => send (AbortWithProblem 400 "InvalidLimit" "limit must be an integer in [1, 500]" limit)
    | Some n => f {| lo_LabelSelector := sel; lo_Limit := n; lo_Continue := cont |}
    end.

(** [validateUserHeader]; [has_bad_rune] says that a rune of the value is white
    space or a control character, by the tables of [unicode]. *)
Definition validateUserHeader (has_bad_rune : string -> bool) (v : string) : option string :=
  if (253 <? String.length v)%nat then Some "value exceeds 253 chars"
  else if has_bad_rune v then Some "value contains whitespace or control characters"
  else None.

(** [RequireUser] in front of a handler *)
Definition RequireUser (has_bad_rune : string -> bool) {K A} (user : string) (next : answer K A) : answer K A :=
  if String.eqb user "" then send (AbortWithProblem 401 "MissingUser" "X-Axisml-User header required" "")
  else unless (validateUserHeader has_bad_rune user) (fun e => AbortWithProblem 400 "InvalidUser" "X-Axisml-User header malformed" e) next.

(** ** Pools *)

(** Cluster-scoped objects have no namespace. *)
Definition named (name : string) : key := ("", name).

Section Pools.
Context {Q : Type} `{!Quantity Q} `{!QuantityLaws Q} `{!SelectorParser}.
Context {K : Type} `{!Provider K (PoolSpec Q) unit} `{!Provider K (TenantSpec Q) (TenantStatus Q)}.
(** [h.validateResources] *)
Context (validateResources : string -> gmap string Q -> option string).
Implicit Types p : Pool Q.

Definition getPool (name : string) : api K (Pool Q) := p_Get (named name).

(** [validateUnitResources] *)
Definition validateUnitResources (field : string) (requests limits : gmap string Q) : option string :=
  first_of [validateResources (field +:+ ".requests") requests; validateResources (field +:+ ".limits") limits].

Definition bad_resources {A} (e : string) : reply A := AbortWithProblem 400 "InvalidResources" e "".

(** The checks of one unit of a new pool. *)
Definition new_unit_problem (i : nat) (u : CreateUnitRequest Q) : option (string * string) :=
  match ValidateDNS1123Name ("units[" +:+ cur_Name u +:+ "].name") (cur_Name u) with
  | Some e => Some ("InvalidUnitName", e)
  | None =>
      match validateUnitResources (at_index "units" i) (cur_Requests u) (cur_Limits u) with
      | Some e => Some ("InvalidResources", e)
      | None => None
      end
  end.

(** [Handler.Create] *)
Definition pool_Create (user : string) (body : CreatePoolRequest Q + string) : answer K (PoolAPI Q) :=
  bound body (fun req =>
  unless (ValidateDNS1123Name "name" (cpr_Name req)) (fun e => AbortWithProblem 400 "InvalidName" e "") (
  unless (firstDuplicateUnit (cpr_Units req)) (fun name =>
    AbortWithProblem 400 "DuplicateUnit" "unit names must be unique within a pool" ("duplicate: " +:+ name)) (
  unless (match cpr_Capacity req with Some rl => validateResources "capacity" rl | None => None end) bad_resources (
  unless (first_error (imap new_unit_problem (cpr_Units req))) (fun e => AbortWithProblem 400 e.1 e.2 "") (
  on (p_Create (APIToPool req user)) (fun e => writeK8sError e (cpr_Name req)) (fun pool =>
  send (JSON 201 (PoolToAPI pool)))))))).

(** [Handler.Get] *)
Definition pool_Get (name : string) : answer K (PoolAPI Q) :=
  on (getPool name) (fun e => writeK8sError e name) (fun pool => send (JSON 200 (PoolToAPI pool))).

(** [Handler.List] *)
Definition pool_List (sel limit cont : string) : answer K (listing (PoolAPI Q)) :=
  with_list_options sel limit cont (fun opts =>
  on (p_List "" opts) (fun e => writeK8sError e "") (fun page =>
  send (JSON 200 (listed (map (fun p : Pool Q => PoolToAPI p) page.1) page.2)))).

(** The answer to an edit of a pool; [errNoMutationNeeded] is no error. *)
Definition on_edit {A B} (name : string) (f : Pool Q -> mutation A) (bad : api_error -> reply B) (good : option (Pool Q * A) -> reply B)
    : answer K B :=
  on (mutateWithRetry (named name) f) bad (fun r => send (good r)).

(** [Handler.Patch] *)
Definition patch_pool (req : PatchPoolRequest Q) (user : string) p : mutation unit := Mutated (applyPoolPatch req user p) tt.

Definition pool_Patch (user name : string) (body : PatchPoolRequest Q + string) : answer K (PoolAPI Q) :=
  bound body (fun req =>
  unless (match ppr_Capacity req with Some rl => validateResources "capacity" rl | None => None end) bad_resources (
  on_edit name (patch_pool req user) (fun e => writeK8sError e name) (fun r =>
    match r with Some (pool, _) => JSON 200 (PoolToAPI pool) | None => Status 200 end))).

(** [Handler.Delete] *)
Definition pool_Delete (name : string) : answer K unit := fun s =>
  match p_Delete (B := PoolSpec Q) (S := unit) (named name) s with
  | (inl _, s') => (Status 204, s')
  | (inr e, s') => (if IsNotFound e then Status 204 else writeK8sError e name, s')
  end.

(** [Handler.Usage] *)
Definition pool_Usage {F} (AsApproximateFloat64 : Q -> F) (zero : F) (per_GiB : F -> F) (pool tenant : string)
    : answer K (string * string * list (ResourceMeter F)) :=
  if String.eqb tenant "" then send (AbortWithProblem 400 "MissingTenant" "tenant query parameter is required" "")
  else on (getPool pool) (fun e => writeK8sError e pool) (fun _ =>
       on (p_Get (named tenant)) (fun e => writeK8sError e tenant) (fun t : TenantItem Q =>
       send (JSON 200 (TenantPoolUsage AsApproximateFloat64 zero per_GiB t pool)))).

(** *** Units *)

Definition pool_units p : list (ResourceUnit Q) := psp_Units (vr_Spec p).

(** A pool with other units, touched by a user. *)
Definition set_units (units : list (ResourceUnit Q)) (user : string) p : Pool Q :=
  let spec := vr_Spec p in
  edit (fun o => set_annotations (set_if LastModifiedByAnnotation user (ob_Annotations o)) (set_spec
    {| psp_NodeSelector := psp_NodeSelector spec; psp_Capacity := psp_Capacity spec; psp_Units := units |} o)) p.

(** The closure of [CreateUnit]. *)
Definition add_unit (req : CreateUnitRequest Q) (user : string) p : mutation (ResourceUnit Q) :=
  if existsb (fun u => String.eqb (ru_Name u) (cur_Name req)) (pool_units p) then Stopped APIAlreadyExists
  else Mutated (set_units (pool_units p ++ [APIToUnit req]) user p) (APIToUnit req).

(** [Handler.CreateUnit] *)
Definition pool_CreateUnit (user poolName : string) (body : CreateUnitRequest Q + string) : answer K (UnitAPI Q) :=
  bound body (fun req =>
  unless (ValidateDNS1123Name "name" (cur_Name req)) (fun e => AbortWithProblem 400 "InvalidName" e "") (
  unless (validateUnitResources "unit" (cur_Requests req) (cur_Limits req)) bad_resources (
  on_edit poolName (add_unit req user) (fun e => writeK8sError e poolName) (fun r =>
    match r with Some (_, added) => JSON 201 (UnitToAPI added) | None => Status 201 end)))).

(** [Handler.ListUnits] *)
Definition pool_ListUnits (pool : string) : answer K (listing (UnitAPI Q)) :=
  on (getPool pool) (fun e => writeK8sError e pool) (fun p => send (JSON 200 (listed (map UnitToAPI (pool_units p)) ""))).

(** [Handler.GetUnit] *)
Definition pool_GetUnit (pool unit : string) : answer K (UnitAPI Q) :=
  on (getPool pool) (fun e => writeK8sError e pool) (fun p =>
  send match List.find (fun u => String.eqb (ru_Name u) unit) (pool_units p) with
       | Some u => JSON 200 (UnitToAPI u)
       | None => AbortWithProblem 404 "UnitNotFound" "unit not found in pool" unit
       end).

(** The first unit of a name, with what stands before and after it. *)
Fixpoint split_unit (name : string) (units : list (ResourceUnit Q)) : option (list (ResourceUnit Q) * ResourceUnit Q * list (ResourceUnit Q)) :=
  match units with
  | [] => None
  | u :: rest =>
      if String.eqb (ru_Name u) name then Some ([], u, rest)
      else match split_unit name rest with Some (before, x, after) => Some (u :: before, x, after) | None => None end
  end.

(** The closure of [PatchUnit]. *)
Definition patch_unit (req : PatchUnitRequest Q) (user unit : string) p : mutation (ResourceUnit Q) :=
  match split_unit unit (pool_units p) with
  | None => Stopped APINotFound
  | Some (before, u, after) =>
      let u' := applyUnitPatch req u in Mutated (set_units (before ++ u' :: after) user p) u'
  end.

(** [Handler.PatchUnit]; what the request leaves out is validated as empty. *)
Definition pool_PatchUnit (user poolName unitName : string) (body : PatchUnitRequest Q + string) : answer K (UnitAPI Q) :=
  bound body (fun req =>
  unless (validateUnitResources "unit" (default ∅ (pur_Requests req)) (default ∅ (pur_Limits req))) bad_resources (
  on_edit poolName (patch_unit req user unitName) (fun e => writeK8sError e poolName) (fun r =>
    match r with Some (_, patched) => JSON 200 (UnitToAPI patched) | None => Status 200 end))).

(** The closure of [DeleteUnit]. *)
Definition remove_unit (user unit : string) p : mutation Datatypes.unit :=
  match split_unit unit (pool_units p) with
  | None => NoMutationNeeded
  | Some (before, _, after) => Mutated (set_units (before ++ after) user p) tt
  end.

(** [Handler.DeleteUnit] *)
Definition pool_DeleteUnit (user poolName unitName : string) : answer K unit :=
  on_edit poolName (remove_unit user unitName)
    (fun e => if IsNotFound e then Status 204 else writeK8sError e poolName) (fun _ => Status 204).
End Pools.

(** ** Tenants *)

Section Tenants.
Context {Q : Type} `{!Quantity Q} `{!QuantityLaws Q} `{!QuotaCodec Q} `{!SelectorParser}.
Context {K : Type} `{!Provider K (PoolSpec Q) unit} `{!Provider K (TenantSpec Q) (TenantStatus Q)}.
Context (validateResources : string -> gmap string Q -> option string).
Implicit Types t : TenantItem Q.

Definition getTenant (name : string) : api K (TenantItem Q) := p_Get (named name).

(** Errors of the quota routes that are not the store's. *)
Inductive quota_failure := QuotaNotFound | BadQuota (e : QuotaError).

(** [fetchPools] *)
Fixpoint fetchPools (names : list string) : api K (gmap string (Pool Q) + quota_failure) :=
  match names with
  | [] => ret (inl ∅)
  | n :: rest =>
      (let* r := try (getPool n) in
       match r with
       | inr e => if IsNotFound e then ret (inr (BadQuota (quota_error QuotaPoolNotFound n "" ""))) else fail e
       | inl pool =>
           let* more := fetchPools rest in
           ret match more with inl pools => inl (<[n := pool]> pools) | inr f => inr f end
       end)%api
  end.

Definition invalid_resource (pool : string) (err : option string) : option QuotaError :=
  match err with Some e => Some (quota_error QuotaInvalidResource pool "" e) | None => None end.

(** The resources of direct quotas. *)
Definition direct_resource_error (i : nat) (q : QuotaInput Q) : option QuotaError :=
  match qi_Quota q with
  | None => None
  | Some direct => invalid_resource (qi_Pool q) (first_of [
      validateResources (at_index "quotas" i +:+ ".quota.min") (qr_Min direct);
      validateResources (at_index "quotas" i +:+ ".quota.max") (qr_Max direct)])
  end.

(** The resources of a pool's units. *)
Definition unit_resource_error (poolName : string) (i : nat) (u : ResourceUnit Q) : option QuotaError :=
  let field := "resource pool " +:+ quoted poolName +:+ " " +:+ at_index "units" i in
  invalid_resource poolName (validateUnitResources validateResources field (ru_Requests u) (ru_Limits u)).

(** The checks of [foldQuotas]; the pools come in the order of a map. *)
Definition quota_resource_error (quotas : list (QuotaInput Q)) (pools : gmap string (Pool Q)) : option QuotaError :=
  first_error (imap direct_resource_error quotas ++
    concat (map (fun np => imap (unit_resource_error np.1) (pool_units np.2)) (map_to_list pools))).

(** [foldQuotas] *)
Definition foldQuotas (quotas : list (QuotaInput Q)) : api K ((list (QuotaSpec Q) * string) + quota_failure) :=
  match quotas with
  | [] => ret (inl ([], ""))
  | _ =>
      (let* r := fetchPools (PoolNames quotas) in
       ret match r with
           | inr f => inr f
           | inl pools =>
               match quota_resource_error quotas pools with
               | Some e => inr (BadQuota e)
               | None =>
                   match FoldQuotas quotas (pool_units <$> pools) with
                   | inr e => inr (BadQuota e)
                   | inl folded => inl (folded, QuotasToAnnotation quotas)
                   end
               end
           end)%api
  end.

(** [isBadQuotaInput] *)
Definition isBadQuotaInput (r : QuotaErrorReason) : bool :=
  match r with QuotaPoolNotFound | QuotaUnitNotFound => false | _ => true end.

(** [writeQuotaError] *)
Definition quota_problem {A} (f : quota_failure) : reply A :=
  match f with
  | QuotaNotFound => AbortWithProblem 404 "QuotaNotFound" "quota for pool not found" ""
  | BadQuota e => AbortWithProblem (if isBadQuotaInput (qe_Reason e) then 400 else 422) "InvalidQuota" (quota_error_text e) ""
  end.

Definition on_quota {A B} (tenant : string) (m : api K (A + quota_failure)) (f : A -> answer K B) : answer K B :=
  on m (fun e => writeK8sError e tenant) (fun r => match r with inl a => f a | inr qf => send (quota_problem qf) end).

(** The tenant id every tenant carries. *)
Definition with_tenant_id (uuid : string) t : TenantItem Q :=
  if String.eqb (map_get "" (ob_Labels (vr_Object t)) LabelTenantID) ""
  then edit (fun o => set_labels (<[LabelTenantID := uuid]> (ob_Labels o)) o) t
  else t.

(** [Handler.Create]; the route has no parameter [tenant]. *)
Definition tenant_Create (uuid user : string) (body : CreateTenantRequest Q + string) : answer K (TenantAPI Q) :=
  bound body (fun req =>
  unless (ValidateDNS1123Name "name" (ctr_Name req)) (fun e => AbortWithProblem 400 "InvalidName" e "") (
  on_quota "" (foldQuotas (ctr_Quotas req)) (fun fa =>
  on (p_Create (with_tenant_id uuid (APIToTenant req fa.1 fa.2 user))) (fun e => writeK8sError e (ctr_Name req)) (fun cr =>
  send (JSON 201 (TenantToAPI cr)))))).

(** [Handler.Get] *)
Definition tenant_Get (name : string) : answer K (TenantAPI Q) :=
  on (getTenant name) (fun e => writeK8sError e name) (fun cr => send (JSON 200 (TenantToAPI cr))).

(** [Handler.List] *)
Definition tenant_List (sel limit cont : string) : answer K (listing (TenantAPI Q)) :=
  with_list_options sel limit cont (fun opts =>
  on (p_List "" opts) (fun e => writeK8sError e "") (fun page =>
  send (JSON 200 (listed (map (fun t : TenantItem Q => TenantToAPI t) page.1) page.2)))).

(** [mutateWithRetry]: read, change and patch, again after a conflict. *)
Definition tenant_mutateWithRetry (name : string) (mutate : TenantItem Q -> TenantItem Q) : api K (TenantItem Q) :=
  RetryOnConflict (let* cr := getTenant name in p_Patch (mutate cr) cr)%api.

(** [Handler.Patch] *)
Definition tenant_Patch (user name : string) (body : PatchTenantRequest + string) : answer K (TenantAPI Q) :=
  bound body (fun req =>
  on (tenant_mutateWithRetry name (applyTenantPatch req user)) (fun e => writeK8sError e name) (fun cr =>
  send (JSON 200 (TenantToAPI cr)))).

(** [Handler.Delete] *)
Definition tenant_Delete (name : string) : answer K unit := fun s =>
  match p_Delete (B := TenantSpec Q) (S := TenantStatus Q) (named name) s with
  | (inl _, s') => (Status 204, s')
  | (inr e, s') => (if IsNotFound e then Status 204 else writeK8sError e name, s')
  end.

(** *** Quotas *)

(** [Handler.ListQuotas] *)
Definition tenant_ListQuotas (tenant : string) : answer K (listing (QuotaInput Q)) :=
  on (getTenant tenant) (fun e => writeK8sError e tenant) (fun cr => send (JSON 200 (listed (tap_Quotas (TenantToAPI cr)) ""))).

(** A tenant with other quotas, touched by a user. *)
Definition set_quotas (folded : list (QuotaSpec Q)) (anno user : string) t : TenantItem Q :=
  let spec := vr_Spec t in
  edit (fun o => set_annotations (set_if LastModifiedByAnnotation user (setQuotaAnnotation anno (ob_Annotations o))) (set_spec
    {| tns_Namespace := tns_Namespace spec; tns_Quotas := folded; tns_InitResources := tns_InitResources spec |} o)) t.

(** [mutateQuotas]; the transform also gives the quota to answer with. *)
Definition mutateQuotas {A} (name user : string) (transform : list (QuotaInput Q) -> (list (QuotaInput Q) * A) + quota_failure)
    : api K ((TenantItem Q * A) + quota_failure) :=
  RetryOnConflict (let* cr := getTenant name in
    match transform (tap_Quotas (TenantToAPI cr)) with
    | inr f => ret (inr f)
    | inl (next, a) =>
        let* r := foldQuotas next in
        match r with
        | inr f => ret (inr f)
        | inl (folded, anno) => let* cr' := p_Patch (set_quotas folded anno user cr) cr in ret (inl (cr', a))
        end
    end)%api.

(** [indexOfPool] *)
Fixpoint indexOfPool (quotas : list (QuotaInput Q)) (pool : string) : option nat :=
  match quotas with
  | [] => None
  | q :: rest => if String.eqb (qi_Pool q) pool then Some 0%nat else option_map S (indexOfPool rest pool)
  end.

(** [replacePoolQuota] *)
Definition replacePoolQuota (quotas : list (QuotaInput Q)) (q : QuotaInput Q) : list (QuotaInput Q) :=
  match indexOfPool quotas (qi_Pool q) with Some i => <[i := q]> quotas | None => quotas ++ [q] end.

(** [Handler.SetQuota] *)
Definition tenant_SetQuota (user tenant : string) (body : QuotaInput Q + string) : answer K (QuotaInput Q) :=
  bound body (fun q =>
  if String.eqb (qi_Pool q) "" then send (AbortWithProblem 400 "InvalidQuota" "pool is required" "")
  else on_quota tenant (mutateQuotas tenant user (fun quotas => inl (replacePoolQuota quotas q, q))) (fun r => send (JSON 200 r.2))).

(** The transform of [PatchQuota]. *)
Definition patch_quota (pool : string) (units : option (list QuotaUnit)) (direct : option (QuotaResources Q)) (quotas : list (QuotaInput Q))
    : (list (QuotaInput Q) * QuotaInput Q) + quota_failure :=
  match indexOfPool quotas pool with
  | None => inr QuotaNotFound
  | Some i =>
      let q := {| qi_Pool := pool; qi_Units := units; qi_Quota := direct |} in
      match units, direct, quotas !! i with
      | None, None, Some old => inl (quotas, old)
      | _, _, _ => inl (<[i := q]> quotas, q)
      end
  end.

(** [Handler.PatchQuota] *)
Definition tenant_PatchQuota (user tenant pool : string) (body : option (list QuotaUnit) * option (QuotaResources Q) + string)
    : answer K (QuotaInput Q) :=
  bound body (fun req =>
  on_quota tenant (mutateQuotas tenant user (patch_quota pool req.1 req.2)) (fun r => send (JSON 200 r.2))).

(** [Handler.DeleteQuota] *)
Definition tenant_DeleteQuota (user tenant pool : string) : answer K unit :=
  on_quota tenant (mutateQuotas tenant user (fun quotas =>
    inl (List.filter (fun q => negb (String.eqb (qi_Pool q) pool)) quotas, tt))) (fun _ => send (Status 204)).
End Tenants.

(** ** Volumes *)

(** [extensions.StorageClass] *)
Record StorageClass := { scl_Name : string; scl_Provisioner : string; scl_Default : bool; scl_AllowVolumeExpansion : bool }.

(** [VolumeManager] *)
Class VolumeManager (K Q : Type) := {
  v_Ensure : ClaimItem Q -> api K unit;
  v_Get : key -> api K (ClaimItem Q);
  v_List : string -> string -> api K (list (ClaimItem Q));
  v_Patch : key -> VolumePatch -> api K (ClaimItem Q);
  v_Mounts : key -> api K (list VolumeMount);
  v_Delete : key -> api K unit;
  v_ListStorageClasses : api K (list StorageClass) }.

Section Volumes.
Context {Q : Type} `{!Quantity Q} `{!QuantityLaws Q} `{!TenantMachinery Q} `{!CatalogMachinery Q}.
Context {K : Type} `{!VolumeManager K Q}.

(** [NamespacedName.String] *)
Definition key_text (k : key) : string := k.1 +:+ "/" +:+ k.2.

(** [Handler.ListStorageClasses] *)
Definition volume_ListStorageClasses : answer K (listing StorageClass) :=
  on v_ListStorageClasses (fun e => volume_writeK8sError e "") (fun l => send (JSON 200 (listed l ""))).

(** [Handler.Create]; the claim is answered as it was asked for. *)
Definition volume_Create (body : CreateVolumeRequest + string) : answer K VolumeAPI :=
  bound body (fun req =>
  if String.eqb (cvr_Namespace req) "" || String.eqb (cvr_Name req) "" then
    send (AbortWithProblem 400 "InvalidVolume" "namespace and name are required" "")
  else if String.eqb (cvr_Size req) "" then send (AbortWithProblem 400 "InvalidSize" "size is required" "")
  else match APIToPVC req with
       | inr e => send (AbortWithProblem 400 "InvalidSize" "size is not a valid Kubernetes Quantity" e)
       | inl pvc =>
           on (v_Ensure pvc) (fun e => volume_writeK8sError e (cvr_Namespace req +:+ "/" +:+ cvr_Name req)) (fun _ =>
           send (JSON 201 (VolumeToAPI pvc)))
       end).

(** [Handler.List] *)
Definition volume_List (namespace sel : string) : answer K (listing VolumeAPI) :=
  on (v_List namespace sel) (fun e => volume_writeK8sError e "") (fun pvcs => send (JSON 200 (listed (map VolumeToAPI pvcs) ""))).

Definition with_mounts (mounts : list VolumeMount) (v : VolumeAPI) : VolumeAPI :=
  {| vap_Namespace := vap_Namespace v; vap_Name := vap_Name v; vap_Size := vap_Size v; vap_StorageClass := vap_StorageClass v;
     vap_AccessModes := vap_AccessModes v; vap_Description := vap_Description v; vap_Labels := vap_Labels v;
     vap_Status := {| vsa_Phase := vsa_Phase (vap_Status v); vsa_BoundCapacity := vsa_BoundCapacity (vap_Status v); vsa_Mounts := mounts |};
     vap_CreatedAt := vap_CreatedAt v |}.

(** [Handler.Get]; an error of the scan for mounts is dropped. *)
Definition volume_Get (k : key) : answer K VolumeAPI :=
  on (v_Get k) (fun e => volume_writeK8sError e (key_text k)) (fun pvc s =>
  match v_Mounts k s with
  | (inl mounts, s') => (JSON 200 (with_mounts mounts (VolumeToAPI pvc)), s')
  | (inr _, s') => (JSON 200 (VolumeToAPI pvc), s')
  end).

(** [Handler.Patch] *)
Definition volume_Patch (k : key) (body : VolumePatch + string) : answer K VolumeAPI :=
  bound body (fun req =>
  on (v_Patch k req) (fun e => volume_writeK8sError e (key_text k)) (fun pvc => send (JSON 200 (VolumeToAPI pvc)))).

Definition volume_in_use (k : key) : reply unit :=
  AbortWithProblem 409 "VolumeInUse" "volume is mounted by running workloads; stop them or use force=true" (key_text k).

(** [Handler.Delete] *)
Definition volume_Delete (k : key) (force : string) : answer K unit :=
  let remove : answer K unit := fun s =>
    match v_Delete k s with
    | (inl _, s') => (Status 204, s')
    | (inr e, s') => (if IsNotFound e then Status 204 else volume_writeK8sError e (key_text k), s')
    end in
  if String.eqb force "true" then remove
  else on (v_Mounts k) (fun e => volume_writeK8sError e (key_text k)) (fun mounts =>
       if existsb vmo_Running mounts then send (volume_in_use k) else remove).
End Volumes.

(** *** The volume store over Kubernetes *)

(** A pod, as far as the scan for mounts reads it. *)
Record PodItem := {
  pod_Name : string; pod_Owners : list OwnerReference; pod_Phase : string;
  pod_Claims : list (string * option string);
  pod_InitMounts : list (list (string * string)); pod_Mounts : list (list (string * string)) }.

(** [storagev1.StorageClass] *)
Record StorageClassObject := {
  sco_Name : string; sco_Provisioner : string; sco_Annotations : gmap string string; sco_AllowVolumeExpansion : option bool }.

(** Listings with the API client; an empty namespace is every namespace. *)
Class ClusterLists (K Q : Type) := {
  list_claims : string -> list Requirement -> api K (list (ClaimItem Q));
  list_pods : string -> api K (list PodItem);
  list_classes : api K (list StorageClassObject) }.

Section VolumeStore.
Context {Q : Type} `{!Quantity Q} `{!QuantityLaws Q} `{!TenantMachinery Q} `{!SelectorParser}.
Context {K : Type} `{!Provider K (ClaimSpec Q) (ClaimStatus Q)} `{!ClusterLists K Q}.

(** What [Ensure] adds to a claim. *)
Definition owned_claim (pvc : ClaimItem Q) : ClaimItem Q :=
  let spec := vr_Spec pvc in
  edit (fun o => set_labels (<[managedByLabel := managedByValue]> (ob_Labels o)) (set_spec
    {| pc_AccessModes := match pc_AccessModes spec with [] => ["ReadWriteOnce"] | modes => modes end;
       pc_StorageClassName := pc_StorageClassName spec; pc_Requests := pc_Requests spec |} o)) pvc.

(** [Ensure] *)
Definition k8s_Ensure (pvc : ClaimItem Q) : api K unit :=
  (let* r := try (p_Create (owned_claim pvc)) in
   match r with
   | inl _ => ret tt
   | inr e => if IsAlreadyExists e then ret tt else fail e
   end)%api.

Definition managed : Requirement := {| rq_Key := managedByLabel; rq_Operator := Equals; rq_Values := [managedByValue] |}.

(** [List] *)
Definition k8s_List (namespace sel : string) : api K (list (ClaimItem Q)) :=
  if String.eqb sel "" then list_claims namespace [managed]
  else match labels_Parse sel with
       | inr e => fail (Errored e)
       | inl extra => list_claims namespace (managed :: extra)
       end.

(** The edit of [Patch]. *)
Definition patched_claim (patch : VolumePatch) (q : option Q) (base : ClaimItem Q) : ClaimItem Q :=
  let spec := vr_Spec base in
  edit (fun o =>
    set_labels match vpr_Labels patch with Some l => <[managedByLabel := managedByValue]> l | None => ob_Labels o end (
    set_annotations match vpr_Description patch with
                    | Some d => if String.eqb d "" then delete DescriptionAnnotation (ob_Annotations o)
                                else <[DescriptionAnnotation := d]> (ob_Annotations o)
                    | None => ob_Annotations o
                    end (
    set_spec {| pc_AccessModes := pc_AccessModes spec; pc_StorageClassName := pc_StorageClassName spec;
                pc_Requests := match q with Some q => <["storage" := q]> (pc_Requests spec) | None => pc_Requests spec end |} o))) base.

(** [Patch] *)
Definition k8s_Patch (k : key) (patch : VolumePatch) : api K (ClaimItem Q) :=
  (let* base := p_Get k in
   let* q := match vpr_Size patch with
             | None => ret None
             | Some size => match ParseQuantity size with inl q => ret (Some q) | inr e => fail (Errored e) end
             end in
   p_Patch (patched_claim patch q base) base)%api.

(** [metav1.GetControllerOf] *)
Definition GetControllerOf (p : PodItem) : option OwnerReference := List.find ow_Controller (pod_Owners p).

(** [workloadName], [workloadKind] *)
Definition workloadName (p : PodItem) : string := match GetControllerOf p with Some o => ow_Name o | None => pod_Name p end.
Definition workloadKind (p : PodItem) : string := match GetControllerOf p with Some o => ow_Kind o | None => "Pod" end.

(** [mountPathFor] *)
Definition mountPathFor (p : PodItem) (volName : string) : string :=
  match List.find (fun m => String.eqb m.1 volName) (concat (pod_InitMounts p ++ pod_Mounts p)) with
  | Some m => m.2
  | None => ""
  end.

Definition claim_volume (claim : string) (p : PodItem) : string :=
  match List.find (fun v => match v.2 with Some c => String.eqb c claim | None => false end) (pod_Claims p) with
  | Some v => v.1
  | None => ""
  end.

(** [Mounts] *)
Definition mounts_of (claim : string) (pods : list PodItem) : list VolumeMount :=
  omap (fun p => let volName := claim_volume claim p in
                 if String.eqb volName "" then None
                 else Some {| vmo_Workload := workloadName p; vmo_Kind := workloadKind p; vmo_MountPath := mountPathFor p volName;
                              vmo_Running := String.eqb (pod_Phase p) "Running" |}) pods.

Definition k8s_Mounts (k : key) : api K (list VolumeMount) := (let* pods := list_pods k.1 in ret (mounts_of k.2 pods))%api.

(** [ListStorageClasses] *)
Definition storage_class (sc : StorageClassObject) : StorageClass :=
  {| scl_Name := sco_Name sc; scl_Provisioner := sco_Provisioner sc;
     scl_Default := String.eqb (map_get "" (sco_Annotations sc) "storageclass.kubernetes.io/is-default-class") "true";
     scl_AllowVolumeExpansion := default false (sco_AllowVolumeExpansion sc) |}.

Definition k8s_ListStorageClasses : api K (list StorageClass) := (let* l := list_classes in ret (map storage_class l))%api.

(** [Delete] *)
Definition k8s_Delete (k : key) : api K unit :=
  (let* r := try (p_Delete (B := ClaimSpec Q) (S := ClaimStatus Q) k) in
   match r with
   | inl _ => ret tt
   | inr e => if IsNotFound e then ret tt else fail e
   end)%api.

#[export] Instance VolumeStore : VolumeManager K Q := {
  v_Ensure := k8s_Ensure; v_Get := p_Get; v_List := k8s_List; v_Patch := k8s_Patch; v_Mounts := k8s_Mounts; v_Delete := k8s_Delete;
  v_ListStorageClasses := k8s_ListStorageClasses }.
End VolumeStore.

(** ** Metrics *)

Section Metrics.
Open Scope Z_scope.

Definition Second : Z := 1000000000.
Definition Minute : Z := 60 * Second.
Definition Hour : Z := 60 * Minute.

(** *** [time.ParseDuration] *)

(** The nanoseconds that the digits after a point contribute in a unit, a
    computation in floating point; none without digits. *)
Context (fraction_ns : bytes -> Z -> Z).

Definition is_digit (c : ascii) : bool := match char_digit c with Some _ => true | None => false end.

(** [leadingInt]; an error when the number is beyond 2^63. *)
Fixpoint leadingInt (x : Z) (s : bytes) : option (Z * bytes) :=
  match s with
  | [] => Some (x, [])
  | c :: rest =>
      match char_digit c with
      | None => Some (x, s)
      | Some d => if 2 ^ 63 / 10 <? x then None else if 2 ^ 63 <? x * 10 + d then None else leadingInt (x * 10 + d) rest
      end
  end.

Fixpoint span (p : ascii -> bool) (s : bytes) : bytes * bytes :=
  match s with
  | [] => ([], [])
  | c :: rest => if p c then let '(a, b) := span p rest in (c :: a, b) else ([], s)
  end.

Definition unitMap (u : string) : option Z :=
  if String.eqb u "ns" then Some 1
  else if String.eqb u "us" || String.eqb u "µs" || String.eqb u "μs" then Some 1000
  else if String.eqb u "ms" then Some 1000000
  else if String.eqb u "s" then Some Second
  else if String.eqb u "m" then Some Minute
  else if String.eqb u "h" then Some Hour
  else None.

(** One number with its unit, in nanoseconds, and what follows. *)
Definition duration_part (s : bytes) : option (Z * bytes) :=
  match leadingInt 0 s with
  | None => None
  | Some (v, s1) =>
      let pre := negb (Nat.eqb (length s) (length s1)) in
      let '(frac, s2) := match s1 with
                         | c :: rest => if Ascii.eqb c "." then span is_digit rest else ([], s1)
                         | [] => ([], s1)
                         end in
      let '(u, s3) := span (fun c => negb (Ascii.eqb c "." || is_digit c)) s2 in
      if negb pre && match frac with [] => true | _ => false end then None
      else match u, unitMap (string_of_list_ascii u) with
           | [], _ | _, None => None
           | _, Some unit =>
               if 2 ^ 63 / unit <? v then None
               else let v := v * unit + fraction_ns frac unit in if 2 ^ 63 <? v then None else Some (v, s3)
           end
  end.

(** The sum of the parts, an unsigned number of 64 bits; every part takes at
    least two characters. *)
Fixpoint duration_parts (fuel : nat) (d : Z) (s : bytes) : option Z :=
  match s, fuel with
  | [], _ => Some d
  | _, O => None
  | _, S fuel =>
      match duration_part s with
      | None => None
      | Some (v, rest) => let d := (d + v) mod 2 ^ 64 in if 2 ^ 63 <? d then None else duration_parts fuel d rest
      end
  end.

Definition ParseDuration (s : string) : option Z :=
  let s := list_ascii_of_string s in
  let '(neg, s) := match s with
                   | c :: rest => if Ascii.eqb c "-" then (true, rest) else if Ascii.eqb c "+" then (false, rest) else (false, s)
                   | [] => (false, s)
                   end in
  if String.eqb (string_of_list_ascii s) "0" then Some 0
  else match s with
       | [] => None
       | _ => match duration_parts (length s) 0 s with
              | None => None
              | Some d => if neg then Some (- d) else if 2 ^ 63 - 1 <? d then None else Some d
              end
       end.

(** *** [internal/promql] *)

(** [strings.CutSuffix] for one character *)
Definition CutSuffix (c : ascii) (s : bytes) : option bytes :=
  match rev s with x :: rest => if Ascii.eqb x c then Some (rev rest) else None | [] => None end.

(** [parseWindow]; products of durations wrap around. *)
Definition parseWindow (s : string) : option Z :=
  let s := TrimSpace (list_ascii_of_string s) in
  match s, CutSuffix "d" s, CutSuffix "w" s with
  | [], _, _ => None
  | _, Some n, _ => days ← Atoi n; Some (wrap64 (wrap64 (days * 24) * Hour))
  | _, None, Some n => weeks ← Atoi n; Some (wrap64 (wrap64 (wrap64 (weeks * 7) * 24) * Hour))
  | _, None, None => ParseDuration (string_of_list_ascii s)
  end.

Definition maxPoints : Z := 11000.

(** [resolveStep] *)
Definition resolveStep (s : string) (rng : Z) : option Z :=
  match TrimSpace (list_ascii_of_string s) with
  | _ :: _ =>
      step ← parseWindow s;
      if (0 <? step) && (maxPoints <? Z.quot rng step) then None else Some step
  | [] =>
      let step := Z.quot rng 50 in
      let step := if step <? 15 * Second then 15 * Second else step in
      Some (if 10 * Minute <? step then 10 * Minute else step)
  end.

(** [ksmLabelName] *)
Definition ksmLabelName (k : string) : string :=
  "label_" +:+ string_of_list_ascii (map (fun c =>
    if in_range 97 122 c || in_range 65 90 c || in_range 48 57 c || Ascii.eqb c "_" then c else "_"%char) (list_ascii_of_string k)).

(** The body of [nodeMatcher]: label names with their values. *)
Definition nodeMatcher (sel : gmap string string) : list (string * string) :=
  map (fun k => (ksmLabelName k, map_get "" sel k)) (sort_slice str_lt (elements (dom sel))).

(** The queries of [specs]: a sum over the pods of a namespace, on the nodes
    that match if there is a matcher, or the mean over its GPUs. *)
Inductive query :=
| SumNodeScoped (series : string) (ns : string) (nodes : list (string * string))
| AvgGPU (ns : string).

Definition specs (metric : string) : option (string * (string -> list (string * string) -> query)) :=
  if String.eqb metric "cpu_util" then Some ("cores", SumNodeScoped "rate(container_cpu_usage_seconds_total[5m])")
  else if String.eqb metric "mem_util" then Some ("bytes", SumNodeScoped "container_memory_working_set_bytes")
  else if String.eqb metric "gpu_util" then Some ("percent", fun ns _ => AvgGPU ns)
  else None.

Inductive metrics_error := ErrUnavailable | ErrBadRequest (msg : string) | QueryFailed (e : api_error).

(** [PoolMetricSeries], with the step as a duration *)
Record PoolMetricSeries {F : Type} := {
  pms_Metric : string; pms_Range : string; pms_Step : Z; pms_Unit : string; pms_Series : list (Z * F) }.

Context {K F : Type} {Q : Type} `{!Provider K (PoolSpec Q) unit}.
(** [QueryRange] with start, end and step; a result that is no matrix has no series. *)
Context (QueryRange : query -> Z -> Z -> Z -> api K (list (list (Z * F)))).

Definition bad_request (what value : string) : metrics_error :=
  ErrBadRequest ("invalid metrics request: " +:+ what +:+ " " +:+ quoted value).

(** [Querier.Series] *)
Definition Series (enabled : bool) (now : Z) (namespace : string) (nodeSelector : gmap string string) (metric rangeStr stepStr : string)
    : api K (PoolMetricSeries (F := F) + metrics_error) :=
  if negb enabled then ret (inr ErrUnavailable)
  else match specs metric with
  | None => ret (inr (bad_request "unsupported metric" metric))
  | Some (unit, build) =>
      match parseWindow rangeStr with
      | None => ret (inr (bad_request "invalid range" rangeStr))
      | Some rng =>
          if rng <=? 0 then ret (inr (bad_request "invalid range" rangeStr))
          else match resolveStep stepStr rng with
          | None => ret (inr (bad_request "invalid step" stepStr))
          | Some step =>
              if step <=? 0 then ret (inr (bad_request "invalid step" stepStr))
              else (let* r := try (QueryRange (build namespace (nodeMatcher nodeSelector)) (now - rng) now step) in
                    ret match r with
                        | inr e => inr (QueryFailed e)
                        | inl m => inl {| pms_Metric := metric; pms_Range := rangeStr; pms_Step := step; pms_Unit := unit;
                                          pms_Series := match m with [] => [] | points :: _ => points end |}
                        end)%api
          end
      end
  end.

(** [writeMetricsError] *)
Definition writeMetricsError {A} (e : metrics_error) : reply A :=
  match e with
  | ErrUnavailable => AbortWithProblem 503 "MetricsUnavailable" "cluster metrics backend is not configured" ""
  | ErrBadRequest msg => AbortWithProblem 400 "InvalidMetricsRequest" msg ""
  | QueryFailed e => AbortWithProblem 502 "MetricsQueryFailed" "metrics query failed" (error_text e)
  end.

(** [Handler.Metrics] *)
Definition pool_Metrics (enabled : bool) (now : Z) (pool tenant metric rangeStr stepStr : string) : answer K (PoolMetricSeries (F := F)) :=
  if String.eqb tenant "" then send (AbortWithProblem 400 "MissingTenant" "tenant query parameter is required" "")
  else if negb enabled then send (writeMetricsError ErrUnavailable)
  else on (p_Get (named pool)) (fun e => writeK8sError e pool) (fun p : Pool Q =>
       on (Series enabled now tenant (psp_NodeSelector (vr_Spec p)) metric rangeStr stepStr)
         (fun e => writeMetricsError (QueryFailed e)) (fun r =>
       send match r with inl series => JSON 200 series | inr e => writeMetricsError e end)).
End Metrics.
