(* ===== verification/StandaloneCatalog.v ===== *)
(** * The standalone edition's catalog of pools and tenants

    [axisml-standalone]: startup configuration and its validation
    ([loader.go], [resource_validation.go], [seed.go]), the two stores over a
    database ([resourcepool_store.go], [tenant_store.go]), which the cluster
    manager and compute-service use, and the read-only snapshots
    ([providers.go]).  The stores are over the SQL statements they issue, the
    class [RowStore]; that they implement the provider of [CatalogStore] is
    proved from what each statement does. *)

From Stdlib Require Import ssreflect ZArith Lia Ascii String.
From stdpp Require Import base gmap list strings.
From S2P Require Import Prelude Placement ApiTypes Names Strconv Listing Kube OperatorTypes TenantTypes TenantValidate CatalogStore CatalogApi CatalogHandlers.

Open Scope string_scope.
Open Scope list_scope.

(** ** Startup configuration *)

Section Config.
Context {Q : Type} `{!Quantity Q} `{!QuantityLaws Q} `{!TenantMachinery Q} `{!CatalogMachinery Q}.

Definition standaloneResourceNames : list string := ["cpu"; "memory"; "nvidia.com/gpu"].

Definition standalone_resource_error (field : string) (resources : gmap string Q) (raw : string) : option string :=
  let what := field +:+ " resource " +:+ quoted raw in
  let quantity := map_get q_zero resources raw in
  first_of [when (negb (bool_decide (raw ∈ standaloneResourceNames)))
              (what +:+ " is not supported in standalone; supported resources are cpu, memory, nvidia.com/gpu");
            when (negative quantity) (what +:+ " must be non-negative");
            when (String.eqb raw "nvidia.com/gpu" && match AsInt64 quantity with Some _ => false | None => true end)
              (what +:+ " must be a whole number")].

(** [validateStandaloneResourceList] *)
Definition validateStandaloneResourceList (field : string) (resources : gmap string Q) : option string :=
  first_of (map (standalone_resource_error field resources) (sorted_names resources)).

(** The loop over the units in [validatePools]. *)
Fixpoint unit_problem (pool : string) (seen : gset string) (units : list (ResourceUnit Q)) : option string :=
  match units with
  | [] => None
  | u :: rest =>
      let field := "resource pool " +:+ quoted pool +:+ " resource unit " +:+ quoted (ru_Name u) in
      first_of [when (String.eqb (ru_Name u) "") ("resource pool " +:+ quoted pool +:+ ": resource unit name must not be empty");
                when (bool_decide (ru_Name u ∈ seen))
                  ("resource pool " +:+ quoted pool +:+ ": duplicate resource unit " +:+ quoted (ru_Name u));
                when (negb (bool_decide (ru_NodeSelector u = ∅)))
                  ("resource pool " +:+ quoted pool +:+ ": resource unit " +:+ quoted (ru_Name u) +:+
                   " nodeSelector must be empty in standalone");
                validateStandaloneResourceList (field +:+ " requests") (ru_Requests u);
                validateStandaloneResourceList (field +:+ " limits") (ru_Limits u);
                unit_problem pool ({[ru_Name u]} ∪ seen) rest]
  end.

(** One pool of [validatePools], after its name. *)
Definition pool_problem (p : Pool Q) : option string :=
  let name := vr_Name p in
  first_of [when (negb (bool_decide (psp_NodeSelector (vr_Spec p) = ∅)))
              ("resource pool " +:+ quoted name +:+ " nodeSelector must be empty in standalone");
            validateStandaloneResourceList ("resource pool " +:+ quoted name +:+ " capacity") (psp_Capacity (vr_Spec p));
            unit_problem name ∅ (psp_Units (vr_Spec p))].

(** [validatePools]: the names of the pools, or the first problem. *)
Fixpoint validate_pools (seen : gset string) (pools : list (Pool Q)) : gset string + string :=
  match pools with
  | [] => inl seen
  | p :: rest =>
      match first_of [when (String.eqb (vr_Name p) "") "resource pool name must not be empty";
                      when (bool_decide (vr_Name p ∈ seen)) ("duplicate resource pool " +:+ quoted (vr_Name p));
                      pool_problem p] with
      | Some e => inr e
      | None => validate_pools ({[vr_Name p]} ∪ seen) rest
      end
  end.

Definition validatePools (pools : list (Pool Q)) : gset string + string := validate_pools ∅ pools.

(** [credentialInitResourcesEmpty] *)
Definition credentialInitResourcesEmpty (ir : InitResources) : bool :=
  match ir_ImagePullSecrets ir, ir_Secrets ir, ir_ConfigMaps ir, ir_ServiceAccounts ir with
  | [], [], [], [] => true
  | _, _, _, _ => false
  end.

(** [filepath.IsAbs] *)
Definition IsAbs (path : string) : bool := has_prefix "/" path.

(** [validateTenantVolumes]: the owners of host paths afterwards, or the
    problem. *)
Fixpoint validate_volumes (tenant : string) (i : nat) (seen : gset string) (owners : gmap string string) (vols : list VolumeSpec)
    : gmap string string + string :=
  match vols with
  | [] => inl owners
  | v :: rest =>
      let at_i := "tenant " +:+ quoted tenant +:+ " " +:+ at_index "initResources.volumes" i in
      let host := negb (String.eqb (vol_HostPath v) "") in
      match first_of [when (String.eqb (vol_Name v) "") (at_i +:+ ".name is required");
                      when (bool_decide (vol_Name v ∈ seen)) ("tenant " +:+ quoted tenant +:+ " duplicate volume " +:+ quoted (vol_Name v));
                      when (host && negb (IsAbs (vol_HostPath v)))
                        (at_i +:+ ".hostPath " +:+ quoted (vol_HostPath v) +:+ " must be an absolute path");
                      match owners !! vol_Name v with
                      | Some other => when host ("hostPath volume name " +:+ quoted (vol_Name v) +:+ " is declared by tenants " +:+
                          quoted other +:+ " and " +:+ quoted tenant +:+ "; hostPath volume names must be unique across tenants")
                      | None => None
                      end] with
      | Some e => inr e
      | None => validate_volumes tenant (S i) ({[vol_Name v]} ∪ seen) (if host then <[vol_Name v := tenant]> owners else owners) rest
      end
  end.

Definition validateTenantVolumes (tenant : string) (vols : list VolumeSpec) (owners : gmap string string) : gmap string string + string :=
  validate_volumes tenant 0 ∅ owners vols.

(** The quotas of one tenant in [validateTenants]. *)
Definition tenant_quota_problem (tenant : string) (pools : gset string) (q : QuotaSpec Q) : option string :=
  let field := "tenant " +:+ quoted tenant +:+ " quota for pool " +:+ quoted (qsp_Pool q) in
  first_of [when (negb (bool_decide (qsp_Pool q ∈ pools)))
              ("tenant " +:+ quoted tenant +:+ " quota references unknown pool " +:+ quoted (qsp_Pool q));
            validateStandaloneResourceList (field +:+ " min") (qsp_Min q);
            validateStandaloneResourceList (field +:+ " max") (default ∅ (qsp_Max q))].

(** [validateTenants] *)
Fixpoint validate_tenants (pools : gset string) (seen : gset string) (owners : gmap string string) (tenants : list (TenantItem Q)) : option string :=
  match tenants with
  | [] => None
  | t :: rest =>
      let name := vr_Name t in
      let spec := vr_Spec t in
      let ns := nsp_Name (tns_Namespace spec) in
      match first_of [when (String.eqb name "") "tenant name must not be empty";
                      when (bool_decide (name ∈ seen)) ("duplicate tenant " +:+ quoted name);
                      when (negb (String.eqb ns name))
                        ("tenant " +:+ quoted name +:+ " namespace " +:+ quoted ns +:+ " must equal the tenant name");
                      when (negb (credentialInitResourcesEmpty (tns_InitResources spec)))
                        ("tenant " +:+ quoted name +:+ " initResources secrets/configMaps/serviceAccounts must be empty in standalone; only volumes are supported")] with
      | Some e => Some e
      | None =>
          match validateTenantVolumes name (ir_Volumes (tns_InitResources spec)) owners with
          | inr e => Some e
          | inl owners =>
              first_of [when (match tns_Quotas spec with [] => true | _ => false end)
                          ("tenant " +:+ quoted name +:+ " must declare at least one quota");
                        first_of (map (tenant_quota_problem name pools) (tns_Quotas spec));
                        validate_tenants pools ({[name]} ∪ seen) owners rest]
          end
      end
  end.

Definition validateTenants (tenants : list (TenantItem Q)) (pools : gset string) : option string := validate_tenants pools ∅ ∅ tenants.

(** [StaticConfig.Validate] *)
Definition StaticConfig_Validate (pools : list (Pool Q)) (tenants : list (TenantItem Q)) : option string :=
  first_of [when (match pools with [] => true | _ => false end) "at least one resource pool must be defined";
            when (match tenants with [] => true | _ => false end) "at least one tenant must be defined";
            match validatePools pools with inr e => Some e | inl names => validateTenants tenants names end].

(** [tenantsHostPathVolumes] *)
Definition tenantsHostPathVolumes (tenants : list (TenantItem Q)) : gmap string string :=
  foldl (fun m v => if String.eqb (vol_HostPath v) "" then m else <[vol_Name v := vol_HostPath v]> m) ∅
    (concat (map (fun t => ir_Volumes (tns_InitResources (vr_Spec t))) tenants)).

(** [buildSeedPVC] *)
Definition buildSeedPVC (ns : string) (v : VolumeSpec) : ClaimItem Q :=
  fresh ns (vol_Name v) ∅ (set_if DescriptionAnnotation (vol_Description v) ∅)
    {| pc_AccessModes := vol_AccessModes v;
       pc_StorageClassName := if String.eqb (vol_StorageClass v) "" then None else Some (vol_StorageClass v);
       pc_Requests := if String.eqb (vol_Size v) "" then ∅
                      else match ParseQuantity (vol_Size v) with inl q => {["storage" := q]} | inr _ => ∅ end |}
    {| pcs_Phase := ""; pcs_Capacity := ∅ |}.

(** *** Environment references *)

Definition env_start (c : ascii) : bool := in_range 65 90 c || in_range 97 122 c || Ascii.eqb c "_".
Definition env_char (c : ascii) : bool := env_start c || in_range 48 57 c.

(** A reference [${NAME}] at the front: its name and what follows. *)
Definition env_reference (s : bytes) : option (bytes * bytes) :=
  match strip_prefix (list_ascii_of_string "${") s with
  | Some (c :: rest) =>
      if env_start c then
        let '(name, after) := span env_char rest in
        match after with b :: after => if Ascii.eqb b "}" then Some (c :: name, after) else None | [] => None end
      else None
  | _ => None
  end.

(** [expandEnvironment]; every step consumes a character. *)
Fixpoint expand (fuel : nat) (LookupEnv : string -> option string) (s : bytes) : bytes + string :=
  match s, fuel with
  | [], _ => inl []
  | _, O => inl s
  | c :: rest, S fuel =>
      match env_reference s with
      | Some (name, after) =>
          let name := string_of_list_ascii name in
          match LookupEnv name with
          | None | Some "" => inr ("environment variable " +:+ quoted name +:+ " is unset or empty")
          | Some value => match expand fuel LookupEnv after with
                          | inl out => inl (list_ascii_of_string value ++ out)
                          | inr e => inr e
                          end
          end
      | None => match expand fuel LookupEnv rest with inl out => inl (c :: out) | inr e => inr e end
      end
  end.

Definition expandEnvironment (LookupEnv : string -> option string) (s : bytes) : bytes + string := expand (length s) LookupEnv s.
End Config.

(** *** Files *)

Section Loader.
Context {T : Type} (ReadDir : string -> list (string * bool) + string) (ReadFile : string -> bytes + string).
(** The YAML decoders: whether there is a second document, and the strict one. *)
Context (second_document : bytes -> bool) (UnmarshalStrict : bytes -> T + string) (LookupEnv : string -> option string).

Definition has_suffix (suf s : string) : bool :=
  match strip_prefix (rev (list_ascii_of_string suf)) (rev (list_ascii_of_string s)) with Some _ => true | None => false end.

(** [yamlFiles] *)
Definition yamlFiles (dir : string) : list string + string :=
  match ReadDir dir with
  | inr e => inr e
  | inl entries => inl (sort_slice str_lt (map (fun e => dir +:+ "/" +:+ e.1)
      (List.filter (fun e => negb e.2 && (has_suffix ".yaml" e.1 || has_suffix ".yml" e.1)) entries)))
  end.

(** [decodeObject] *)
Definition decodeObject (path kind : string) : T + string :=
  match ReadFile path with
  | inr e => inr ("read " +:+ kind +:+ " config " +:+ path +:+ ": " +:+ e)
  | inl b =>
      match expandEnvironment LookupEnv b with
      | inr e => inr ("expand " +:+ kind +:+ " config " +:+ path +:+ ": " +:+ e)
      | inl b =>
          if second_document b then
            inr (kind +:+ " config " +:+ path +:+ " must contain exactly one object (found multiple YAML documents)")
          else match UnmarshalStrict b with
               | inr e => inr ("decode " +:+ kind +:+ " config " +:+ path +:+ ": " +:+ e)
               | inl obj => inl obj
               end
      end
  end.

Fixpoint decode_all (kind : string) (paths : list string) : list T + string :=
  match paths with
  | [] => inl []
  | p :: rest => match decodeObject p kind with
                 | inr e => inr e
                 | inl obj => match decode_all kind rest with inl out => inl (obj :: out) | inr e => inr e end
                 end
  end.

(** [loadDir] *)
Definition loadDir (dir kind : string) : list T + string :=
  match yamlFiles dir with
  | inr e => inr ("read " +:+ kind +:+ " config dir " +:+ dir +:+ ": " +:+ e)
  | inl [] => inr ("no " +:+ kind +:+ " config found in " +:+ dir)
  | inl paths => decode_all kind paths
  end.
End Loader.

(** ** The database *)

(** [resourcePoolRecord], [tenantRecord]; the object is a JSON document, of
    type [J]. *)
Record row {J : Type} := {
  row_Name : string; row_Object : J; row_ResourceVersion : Z; row_Deleted : bool; row_CreatedAt : Z; row_UpdatedAt : Z }.
Arguments row : clear implicits.

(** A table, with the versions under which an object has been readable, which
    the database does not keep. *)
Record table {J : Type} := { tb_Rows : gmap string (row J); tb_Past : gset (string * Z) }.
Arguments table : clear implicits.

Definition put_row {J} (n : string) (r : row J) (t : table J) : table J :=
  {| tb_Rows := <[n := r]> (tb_Rows t);
     tb_Past := if row_Deleted r then tb_Past t else {[(n, row_ResourceVersion r)]} ∪ tb_Past t |}.

(** The statements of the stores, with the number of rows affected as a bool. *)
Class RowStore (K J : Type) := {
  (** [INSERT ... ON CONFLICT DO NOTHING] *)
  r_insert : row J -> api K bool;
  (** [UPDATE ... WHERE name = ? AND ...] *)
  r_update : string -> (row J -> bool) -> (row J -> row J) -> api K bool;
  (** [SELECT ... WHERE name = ? AND deleted = false] *)
  r_take : string -> api K (option (row J));
  (** [SELECT ... WHERE deleted = false ORDER BY name ASC] *)
  r_find : api K (list (row J));
  (** [time.Now] in seconds, and a new UUID *)
  r_now : K -> Z;
  r_uuid : K -> string }.
Arguments r_now {K J _}.
Arguments r_uuid {K J _}.

Definition reads {K A} (f : K -> A) : api K A := fun s => (inl (f s), s).

(** [json.Marshal] and [json.Unmarshal] of an object, whose times have the
    resolution of a second. *)
Class ObjectCodec (J B S : Type) := {
  encode : versioned B S -> J;
  decode : J -> option (versioned B S);
  decode_encode o : decode (encode o) = Some o }.

(** What pools and tenants differ in. *)
Record store_config {K B S : Type} := {
  sc_Kind : string;
  (** [validatePersistentResourcePool] or [validatePersistentTenantResources] *)
  sc_ValidateNew : versioned B S -> option api_error;
  (** the check of a patch *)
  sc_ValidatePatch : versioned B S -> option api_error;
  (** [s.materialize] *)
  sc_Materialize : option (versioned B S -> api K unit);
  (** [equality.Semantic.DeepEqual] on specs *)
  sc_SameSpec : B -> B -> bool }.
Arguments store_config : clear implicits.

Section Store.
Context {K J B S : Type} `{!RowStore K J} `{!ObjectCodec J B S} `{!SelectorParser} (cfg : store_config K B S).
Implicit Types o : versioned B S.

(** [resourcePoolFromRecord] *)
Definition from_record (r : row J) : versioned B S + api_error :=
  match decode (row_Object r) with
  | None => inr (Errored ("decode " +:+ sc_Kind cfg +:+ " " +:+ quoted (row_Name r)))
  | Some o => inl {| vr_Object := vr_Object o; vr_Version := decimal (row_ResourceVersion r); vr_CreatedAt := vr_CreatedAt o |}
  end.

(** [getRecord] *)
Definition getRecord (name : string) : api K (row J) :=
  (let* r := r_take name in match r with Some r => ret r | None => fail APINotFound end)%api.

(** [Get] *)
Definition store_Get (name : string) : api K (versioned B S) :=
  (let* r := getRecord name in lift (from_record r))%api.

(** The object as it is stored first. *)
Definition prepared (now : Z) (uuid : string) o : versioned B S :=
  let m := ob_Meta (vr_Object o) in
  {| vr_Object := {| ob_Meta := {| me_Obj := me_Obj m; me_UID := if String.eqb (me_UID m) "" then uuid else me_UID m;
                                   me_Generation := if (me_Generation m =? 0)%Z then 1 else me_Generation m; me_Owners := me_Owners m |};
                     ob_Spec := vr_Spec o; ob_Status := ob_Status (vr_Object o) |};
     vr_Version := "1"; vr_CreatedAt := if (vr_CreatedAt o =? 0)%Z then now else vr_CreatedAt o |}.

(** [newResourcePoolRecord] *)
Definition new_record o : api K (versioned B S * row J) :=
  if String.eqb (vr_Name o) "" then fail (APIBadRequest (sc_Kind cfg +:+ " name is required"))
  else match sc_ValidateNew cfg o with
       | Some e => fail e
       | None =>
           (let* now := reads (r_now (J := J)) in
            let* uuid := reads (r_uuid (J := J)) in
            let p := prepared now uuid o in
            ret (p, {| row_Name := vr_Name o; row_Object := encode p; row_ResourceVersion := 1; row_Deleted := false;
                       row_CreatedAt := vr_CreatedAt p; row_UpdatedAt := now |}))%api
       end.

(** [Seed] *)
Definition seed_one o : api K unit :=
  (let* pr := wrap ("seed " +:+ sc_Kind cfg) (new_record o) in
   let* _ := wrap ("seed " +:+ sc_Kind cfg +:+ " " +:+ quoted (vr_Name o)) (r_insert pr.2) in ret tt)%api.

Definition Seed (os : list (versioned B S)) : api K unit := each seed_one os.

Definition run_materialize o : api K unit := match sc_Materialize cfg with Some m => m o | None => ret tt end.

(** The columns a new record gives to a deleted row. *)
Definition revive (record r : row J) : row J :=
  {| row_Name := row_Name r; row_Object := row_Object record; row_ResourceVersion := row_ResourceVersion record; row_Deleted := false;
     row_CreatedAt := row_CreatedAt record; row_UpdatedAt := row_UpdatedAt record |}.

(** [Create] *)
Definition store_Create o : api K (versioned B S) :=
  (let* pr := new_record o in
   let* r := try (store_Get (vr_Name o)) in
   match r with
   | inl _ => fail APIAlreadyExists
   | inr e =>
       if negb (IsNotFound e) then fail e
       else let* _ := run_materialize pr.1 in
            let* inserted := r_insert pr.2 in
            if (inserted : bool) then ret pr.1
            else let* revived := r_update (vr_Name o) row_Deleted (revive pr.2) in
                 if (revived : bool) then ret pr.1 else fail APIAlreadyExists
   end)%api.

(** The object as a patch stores it. *)
Definition bumped (expected : Z) (obj base : versioned B S) : versioned B S :=
  let o := vr_Object obj in
  let gen := ob_Generation (vr_Object base) in
  {| vr_Object := {| ob_Meta := {| me_Obj := me_Obj (ob_Meta o); me_UID := ob_UID o;
                                   me_Generation := if sc_SameSpec cfg (vr_Spec base) (vr_Spec obj) then gen else wrap64 (gen + 1);
                                   me_Owners := ob_Owners o |};
                     ob_Spec := ob_Spec o; ob_Status := ob_Status o |};
     vr_Version := decimal (wrap64 (expected + 1));
     vr_CreatedAt := if (vr_CreatedAt obj =? 0)%Z then vr_CreatedAt base else vr_CreatedAt obj |}.

Definition at_version (v : Z) (r : row J) : bool := negb (row_Deleted r) && (row_ResourceVersion r =? v)%Z.

Definition overwrite (object : J) (v now : Z) (r : row J) : row J :=
  {| row_Name := row_Name r; row_Object := object; row_ResourceVersion := v; row_Deleted := row_Deleted r;
     row_CreatedAt := row_CreatedAt r; row_UpdatedAt := now |}.

(** [Patch] *)
Definition store_Patch (obj base : versioned B S) : api K (versioned B S) :=
  if String.eqb (vr_Name obj) "" || negb (String.eqb (vr_Name obj) (vr_Name base)) then
    fail (APIBadRequest (sc_Kind cfg +:+ " patch requires matching non-empty names"))
  else match Atoi (list_ascii_of_string (vr_Version base)) with
       | None => fail APIConflict
       | Some expected =>
           if (expected <? 1)%Z then fail APIConflict
           else match sc_ValidatePatch cfg obj with
                | Some e => fail e
                | None =>
                    (let next := bumped expected obj base in
                     let* _ := run_materialize next in
                     let* now := reads (r_now (J := J)) in
                     let* hit := r_update (vr_Name obj) (at_version expected) (overwrite (encode next) (wrap64 (expected + 1)) now) in
                     if (hit : bool) then ret next
                     else let* _ := getRecord (vr_Name obj) in fail APIConflict)%api
                end
       end.

(** A tombstone. *)
Definition bury (now : Z) (r : row J) : row J :=
  {| row_Name := row_Name r; row_Object := row_Object r; row_ResourceVersion := row_ResourceVersion r + 1; row_Deleted := true;
     row_CreatedAt := row_CreatedAt r; row_UpdatedAt := now |}.

(** [Delete] *)
Definition store_Delete (name : string) : api K unit :=
  (let* now := reads (r_now (J := J)) in
   let* hit := r_update name (fun r => negb (row_Deleted r)) (bury now) in
   if (hit : bool) then ret tt else fail APINotFound)%api.

(** The name after which a page starts. *)
Definition continue_after (token : string) : option string :=
  if String.eqb token "" then Some ""
  else match b64_decode (list_ascii_of_string token) with
       | None | Some [] => None
       | Some name => Some (string_of_list_ascii name)
       end.

(** The loop of [List] over the records. *)
Fixpoint matching (after : string) (reqs : list Requirement) (rs : list (row J)) : list (versioned B S) + api_error :=
  match rs with
  | [] => inl []
  | r :: rest =>
      if negb (str_lt after (row_Name r)) then matching after reqs rest
      else match from_record r with
           | inr e => inr e
           | inl o =>
               match matching after reqs rest with
               | inr e => inr e
               | inl os => inl (if forallb (fun q => Matches q (ob_Labels (vr_Object o))) reqs then o :: os else os)
               end
           end
  end.

(** The page and its token. *)
Definition cut_page (limit : Z) (os : list (versioned B S)) : list (versioned B S) * string :=
  if ((0 <? limit) && (limit <? Z.of_nat (length os)))%Z then
    let page := take (Z.to_nat limit) os in
    (page, match last page with
           | Some o => string_of_list_ascii (b64_encode (list_ascii_of_string (vr_Name o)))
           | None => ""
           end)
  else (os, "").

(** [List] *)
Definition store_List (opts : ListOptions) : api K (list (versioned B S) * string) :=
  match (if String.eqb (lo_LabelSelector opts) "" then inl [] else labels_Parse (lo_LabelSelector opts)) with
  | inr e => fail (APIBadRequest ("invalid label selector: " +:+ e))
  | inl reqs =>
      match continue_after (lo_Continue opts) with
      | None => fail (APIBadRequest "invalid continue token")
      | Some after =>
          (let* rs := r_find in
           let* os := lift (matching after reqs rs) in
           ret (cut_page (lo_Limit opts) os))%api
      end
  end.

#[local] Instance StandaloneStore : Provider K B S := {
  p_Get k := store_Get k.2; p_List _ opts := store_List opts; p_Create := store_Create; p_Patch := store_Patch;
  p_Delete k := store_Delete k.2 }.
End Store.

(** ** Pools and tenants *)

Section Stores.
Context {Q : Type} `{!Quantity Q} `{!QuantityLaws Q} `{!TenantMachinery Q} `{!CatalogMachinery Q} `{!SelectorParser}.
Context {K J : Type} `{!ObjectCodec J (PoolSpec Q) unit} `{!ObjectCodec J (TenantSpec Q) (TenantStatus Q)}.
Context (same_pool : PoolSpec Q -> PoolSpec Q -> bool) (same_tenant : TenantSpec Q -> TenantSpec Q -> bool).

(** [validatePersistentResourcePool] *)
Definition validatePersistentResourcePool (p : Pool Q) : option api_error :=
  match validatePools [p] with inr e => Some (APIInvalid e) | inl _ => None end.

Definition pool_store : store_config K (PoolSpec Q) unit :=
  {| sc_Kind := "resource pool"; sc_ValidateNew := validatePersistentResourcePool; sc_ValidatePatch := validatePersistentResourcePool;
     sc_Materialize := None; sc_SameSpec := same_pool |}.

Definition persistent_quota_problem (i : nat) (q : QuotaSpec Q) : option string :=
  let base := at_index "spec.quotas" i in
  first_of [validateStandaloneResourceList (base +:+ ".min") (qsp_Min q);
            validateStandaloneResourceList (base +:+ ".max") (default ∅ (qsp_Max q))].

(** [validatePersistentTenantResources] *)
Definition validatePersistentTenantResources (t : TenantItem Q) : option api_error :=
  match first_of (imap persistent_quota_problem (tns_Quotas (vr_Spec t))) with
  | Some e => Some (APIInvalid e)
  | None => None
  end.

(** [rt.Ensure] of the runtime *)
Context (Ensure : ClaimItem Q -> api K unit).

Definition ensure_volume (t : TenantItem Q) (v : VolumeSpec) : api K unit :=
  if negb (String.eqb (vol_HostPath v) "") then fail (APIInvalid "hostPath volumes may only be declared in trusted startup config")
  else wrap ("ensure predefined tenant volume " +:+ quoted (vol_Name v)) (Ensure (buildSeedPVC (vr_Name t) v)).

(** [materializeTenantVolumes] *)
Definition materializeTenantVolumes (t : TenantItem Q) : api K unit :=
  let ir := tns_InitResources (vr_Spec t) in
  if negb (credentialInitResourcesEmpty ir) then fail (APIInvalid "secrets, configMaps and serviceAccounts are unavailable in standalone")
  else match validateTenantVolumes (vr_Name t) (ir_Volumes ir) ∅ with
       | inr e => fail (APIInvalid e)
       | inl _ => each (ensure_volume t) (ir_Volumes ir)
       end.

(** [seedTenantVolumes]; errors are logged. *)
Definition seedTenantVolumes (t : TenantItem Q) : api K unit :=
  each (fun v => if negb (String.eqb (vol_HostPath v) "") then ret tt
                 else (let* _ := try (Ensure (buildSeedPVC (vr_Name t) v)) in ret tt)%api) (ir_Volumes (tns_InitResources (vr_Spec t))).

Definition tenant_store : store_config K (TenantSpec Q) (TenantStatus Q) :=
  {| sc_Kind := "tenant"; sc_ValidateNew := validatePersistentTenantResources; sc_ValidatePatch := fun _ => None;
     sc_Materialize := Some materializeTenantVolumes; sc_SameSpec := same_tenant |}.

(** The two tables. *)
Context (pools_db tenants_db : RowStore K J).

(** The store of tenants. *)
Definition tenants_Seed : list (TenantItem Q) -> api K unit := Seed (RowStore0 := tenants_db) tenant_store.
Definition tenants_Get : string -> api K (TenantItem Q) := store_Get (RowStore0 := tenants_db) tenant_store.
Definition tenants_List : ListOptions -> api K (list (TenantItem Q) * string) := store_List (RowStore0 := tenants_db) tenant_store.
Definition tenants_Create : TenantItem Q -> api K (TenantItem Q) := store_Create (RowStore0 := tenants_db) tenant_store.
Definition tenants_Patch : TenantItem Q -> TenantItem Q -> api K (TenantItem Q) := store_Patch (RowStore0 := tenants_db) tenant_store.
Definition tenants_Delete : string -> api K unit := store_Delete (RowStore0 := tenants_db).

(** Errors of resolution: compute-service's validation error, or one passed on. *)
Inductive resolve_error := CodeValidationError (msg : string) | PassedOn (e : api_error).

(** [ResolveResourcePool] *)
Definition ResolveResourcePool (name : string) (s : K) : (Pool Q + resolve_error) * K :=
  if String.eqb name "" then (inr (CodeValidationError "poolName is required"), s)
  else match store_Get (RowStore0 := pools_db) pool_store name s with
       | (inl p, s') => (inl p, s')
       | (inr e, s') => (inr (if IsNotFound e then CodeValidationError ("resource pool " +:+ quoted name +:+ " not found") else PassedOn e), s')
       end.

(** [ResolveResourceUnit] *)
Definition ResolveResourceUnit (poolName unitName : string) (s : K) : (ResourceUnit Q + resolve_error) * K :=
  if String.eqb unitName "" then (inr (CodeValidationError "unitName is required"), s)
  else match ResolveResourcePool poolName s with
       | (inr e, s') => (inr e, s')
       | (inl p, s') =>
           (match findUnit (pool_units p) unitName with
            | Some u => inl u
            | None => inr (CodeValidationError ("resource unit " +:+ quoted unitName +:+ " not found in pool " +:+ quoted poolName))
            end, s')
       end.

(** The quota of a pool. *)
Definition quota_of (t : TenantItem Q) (pool : string) : option (gmap string Q) :=
  match List.find (fun q => String.eqb (qsp_Pool q) pool) (tns_Quotas (vr_Spec t)) with
  | Some q => Some (default ∅ (qsp_Max q))
  | None => None
  end.

Definition no_quota (tenant pool : string) : resolve_error :=
  PassedOn (Errored ("tenant " +:+ quoted tenant +:+ " has no quota for resource pool " +:+ quoted pool)).

(** [ResolveQuota] *)
Definition ResolveQuota (tenant pool : string) (s : K) : (gmap string Q + resolve_error) * K :=
  if String.eqb tenant "" then (inr (CodeValidationError "tenant is required"), s)
  else if String.eqb pool "" then (inr (CodeValidationError "pool is required"), s)
  else match tenants_Get tenant s with
       | (inr e, s') => (inr (PassedOn (Wrapped ("tenant " +:+ quoted tenant +:+ " not found") e)), s')
       | (inl t, s') => (match quota_of t pool with Some max => inl max | None => inr (no_quota tenant pool) end, s')
       end.
End Stores.

(** ** Read-only snapshots *)

Section Snapshots.
Context {Q : Type} `{!Quantity Q} `{!QuantityLaws Q} {K : Type}.

(** [NewConfigResourceCatalog], [NewStaticTenantStore]: the first of a name
    stays. *)
Fixpoint first_of_name {B S} (seen : gset string) (os : list (versioned B S)) : list (versioned B S) :=
  match os with
  | [] => []
  | o :: rest => if bool_decide (vr_Name o ∈ seen) then first_of_name seen rest
                 else o :: first_of_name ({[vr_Name o]} ∪ seen) rest
  end.

Definition snapshot {B S} (os : list (versioned B S)) : list (versioned B S) := first_of_name ∅ os.

Definition by_name {B S} (os : list (versioned B S)) (name : string) : option (versioned B S) :=
  List.find (fun o => String.eqb (vr_Name o) name) os.

Definition snapshot_Get {B S} (os : list (versioned B S)) (name : string) : api K (versioned B S) :=
  match by_name os name with Some o => ret o | None => fail APINotFound end.

(** [ConfigResourceCatalog] *)
Definition ConfigResourceCatalog (os : list (Pool Q)) : Provider K (PoolSpec Q) unit := {|
  p_Get k := snapshot_Get os k.2; p_List _ _ := ret (os, ""); p_Create _ := fail CapabilityUnavailable;
  p_Patch _ _ := fail CapabilityUnavailable; p_Delete _ := fail CapabilityUnavailable |}.

(** [StaticTenantStore]; creating a configured tenant does nothing. *)
Definition StaticTenantStore (os : list (TenantItem Q)) : Provider K (TenantSpec Q) (TenantStatus Q) := {|
  p_Get k := snapshot_Get os k.2; p_List _ _ := ret (os, "");
  p_Create t := match by_name os (vr_Name t) with Some _ => ret t | None => fail CapabilityUnavailable end;
  p_Patch _ _ := fail CapabilityUnavailable; p_Delete _ := fail CapabilityUnavailable |}.

(** [ResolveQuota] of the snapshot *)
Definition static_ResolveQuota (os : list (TenantItem Q)) (tenant pool : string) : gmap string Q + resolve_error :=
  match by_name os tenant with
  | None => inr (PassedOn (Errored ("tenant " +:+ quoted tenant +:+ " not found")))
  | Some t => match quota_of t pool with Some max => inl max | None => inr (no_quota tenant pool) end
  end.
End Snapshots.
