(* ===== verification/StandaloneFacts.v ===== *)
(** * The standalone stores implement the provider

    What the SQL statements promise ([RowStoreLaws]), the catalog that a table
    stands for, and the laws of [CatalogStore] for the stores over it. *)

From Stdlib Require Import ssreflect ZArith Lia Ascii String.
From stdpp Require Import base gmap list strings relations.
From S2P Require Import Prelude Placement ApiTypes Names Strconv Listing Kube OperatorTypes TenantTypes TenantValidate CatalogStore CatalogApi CatalogHandlers StandaloneCatalog.

Open Scope string_scope.
Open Scope list_scope.

(** ** Statements *)

Section RowLaws.
Context {K J : Type} `{!RowStore K J} (tables : K -> table J) (trely : table J -> table J -> Prop).

Definition runs {A} (m : api K A) (s : K) (Φ : A + api_error -> table J -> table J -> Prop) : Prop :=
  let '(r, s') := m s in did trely tables (Φ r) s s'.

Definition inserted (r : row J) (t t' : table J) : Prop := tb_Rows t !! row_Name r = None /\ t' = put_row (row_Name r) r t.

(** A number that does not fit the column is an error. *)
Definition updated (n : string) (cond : row J -> bool) (f : row J -> row J) (t t' : table J) : Prop :=
  exists r, tb_Rows t !! n = Some r /\ cond r = true /\ in_int64 (row_ResourceVersion (f r)) /\ t' = put_row n (f r) t.

(** Every statement is atomic; one that reports an error may have taken
    effect, and its errors are none of the API's. *)
Class RowStoreLaws := {
  law_insert r s : runs (r_insert r) s (fun res t t' =>
    match res with
    | inl true => inserted r t t'
    | inl false => t' = t /\ is_Some (tb_Rows t !! row_Name r)
    | inr e => refused e = false /\ (t' = t \/ inserted r t t')
    end);
  law_update n cond f s : runs (r_update n cond f) s (fun res t t' =>
    match res with
    | inl true => updated n cond f t t'
    | inl false => t' = t /\ forall r, tb_Rows t !! n = Some r -> cond r = false
    | inr e => refused e = false /\ (t' = t \/ updated n cond f t t')
    end);
  law_take n s : runs (r_take n) s (fun res t t' => t' = t /\
    match res with
    | inl (Some r) => tb_Rows t !! n = Some r /\ row_Deleted r = false
    | inl None => forall r, tb_Rows t !! n = Some r -> row_Deleted r = true
    | inr e => refused e = false
    end);
  law_find s : runs r_find s (fun res t t' => t' = t /\
    match res with
    | inl rs => forall r, r ∈ rs <-> tb_Rows t !! row_Name r = Some r /\ row_Deleted r = false
    | inr e => refused e = false
    end) }.

Context `{!PreOrder trely}.

Lemma runs_mono {A} (m : api K A) s (Φ Ψ : A + api_error -> table J -> table J -> Prop) :
  (forall r t t', Φ r t t' -> Ψ r t t') -> runs m s Φ -> runs m s Ψ.
Proof using Type.
  rw /runs. destruct (m s) as [r s']. intros Hi (t & t' & H1 & He & H2). exists t, t'. split_and!; [done | by apply Hi | done].
Qed.

Lemma runs_ret {A} (a : A) s (Φ : A + api_error -> table J -> table J -> Prop) : (forall t, Φ (inl a) t t) -> runs (ret a) s Φ.
Proof using PreOrder0. intros HΦ. by exists (tables s), (tables s). Qed.

Lemma runs_fail {A} e s (Φ : A + api_error -> table J -> table J -> Prop) : (forall t, Φ (inr e) t t) -> runs (fail e) s Φ.
Proof using PreOrder0. intros HΦ. by exists (tables s), (tables s). Qed.

(** First a call that changes nothing. *)
Lemma runs_bind {A A'} (m : api K A) (f : A -> api K A') s (Φ : A' + api_error -> table J -> table J -> Prop) :
  runs m s (fun r t t' => t' = t /\ match r with inr e => Φ (inr e) t t | inl _ => True end) ->
  (forall a s1, runs (f a) s1 Φ) -> runs (bind m f) s Φ.
Proof using PreOrder0.
  rw /runs /bind. destruct (m s) as [[a | e] s1]; intros (t & t' & H1 & [-> He] & H2) Hf.
  - specialize (Hf a s1). destruct (f a s1) as [r s2]. destruct Hf as (t1 & t2 & H3 & He' & H4).
    exists t1, t2. split_and!; [| done | done]. etrans; [exact H1 |]. by etrans.
  - by exists t, t.
Qed.

(** First a call whose effect is that of the whole, whatever it answers. *)
Lemma runs_bind_last {A A'} (m : api K A) (f : A -> api K A') s (Φ : A' + api_error -> table J -> table J -> Prop) :
  runs m s (fun r t t' => match r with inr e => Φ (inr e) t t' | inl a => (exists res, (forall s1, f a s1 = (res, s1)) /\ Φ res t t') \/ (t' = t /\ forall s1, runs (f a) s1 Φ) end) ->
  runs (bind m f) s Φ.
Proof using PreOrder0.
  rw /runs /bind. destruct (m s) as [[a | e] s1]; intros (t & t' & H1 & He & H2); [| by exists t, t'].
  destruct He as [(res & Hf & He) | [-> Hf]]; [rw Hf; by exists t, t' |].
  specialize (Hf s1). destruct (f a s1) as [r s2]. destruct Hf as (t1 & t2 & H3 & He' & H4).
  exists t1, t2. split_and!; [| done | done]. etrans; [exact H1 |]. by etrans.
Qed.

(** The outcome of a call that changes nothing. *)
Lemma runs_try {A} (m : api K A) s (P : A + api_error -> Prop) :
  runs m s (fun r t t' => t' = t /\ P r) -> runs (try m) s (fun r t t' => t' = t /\ match r with inl r => P r | inr _ => False end).
Proof using Type. rw /runs /try. by destruct (m s). Qed.

Lemma runs_reads {A A'} (g : K -> A) (f : A -> api K A') s (Φ : A' + api_error -> table J -> table J -> Prop) :
  runs (f (g s)) s Φ -> runs (bind (reads g) f) s Φ.
Proof using Type. done. Qed.
End RowLaws.
Arguments law_insert {K J _ tables trely _}.
Arguments law_update {K J _ tables trely _}.
Arguments law_take {K J _ tables trely _}.
Arguments law_find {K J _ tables trely _}.

(** ** The catalog of a table *)

Section View.
Context {K J B S : Type} `{!ObjectCodec J B S} (cfg : store_config K B S).

Definition live_of (r : row J) : option (versioned B S) :=
  if row_Deleted r then None else match from_record cfg r with inl o => Some o | inr _ => None end.

Definition past_key (nv : string * Z) : key * string := (("", nv.1), decimal nv.2).

Definition view (t : table J) : catalog B S :=
  {| ct_Items := kmap (pair "") (omap live_of (tb_Rows t)); ct_Spent := set_map past_key (tb_Past t) |}.

(** What is kept of a table by everybody who writes to it. *)
Definition kept (t : table J) : Prop :=
  (forall n r, tb_Rows t !! n = Some r -> row_Name r = n /\ in_int64 (row_ResourceVersion r) /\
     (exists o : versioned B S, decode (row_Object r) = Some o /\ vr_key o = ("", n)) /\
     (row_Deleted r = false -> (n, row_ResourceVersion r) ∈ tb_Past t)) /\
  (forall n v, (n, v) ∈ tb_Past t -> in_int64 v).

Lemma view_lookup t n : items (view t) !! ("", n) = tb_Rows t !! n ≫= live_of.
Proof. by rw /items /= lookup_kmap lookup_omap. Qed.

Lemma view_lookup_key t k : k.1 = "" -> items (view t) !! k = tb_Rows t !! k.2 ≫= live_of.
Proof. destruct k as [ns n]. simpl. intros ->. apply view_lookup. Qed.

Lemma from_record_version r o : from_record cfg r = inl o -> vr_Version o = decimal (row_ResourceVersion r).
Proof. rw /from_record. destruct (decode _); [| done]. by intros [= <-]. Qed.

Lemma view_put_live t n r o : row_Deleted r = false -> from_record cfg r = inl o -> view (put_row n r t) = shelve ("", n) o (view t).
Proof.
  intros Hd Ho. rw /view /put_row /shelve /items /spent /= Hd. f_equal.
  - rw (omap_insert_Some _ _ _ _ o); [by rw /live_of Hd Ho | by rw kmap_insert].
  - rw set_map_union_L set_map_singleton_L /past_key /=. by rw (from_record_version r o Ho).
Qed.

Lemma view_put_dead t n r : row_Deleted r = true -> view (put_row n r t) = unshelve ("", n) (view t).
Proof.
  intros Hd. rw /view /put_row /unshelve /items /spent /= Hd. f_equal. rw omap_insert_None; [by rw /live_of Hd |].
  by rw kmap_delete.
Qed.

Lemma kept_from_record t n r : kept t -> tb_Rows t !! n = Some r ->
  exists o, from_record cfg r = inl o /\ vr_key o = ("", n) /\ vr_Version o = decimal (row_ResourceVersion r).
Proof.
  intros [Hk _] Hr. destruct (Hk n r Hr) as (_ & _ & (o & Ho & Hkey) & _). rw /from_record Ho.
  by exists {| vr_Object := vr_Object o; vr_Version := decimal (row_ResourceVersion r); vr_CreatedAt := vr_CreatedAt o |}.
Qed.

Lemma kept_put t n r (o : versioned B S) : kept t -> row_Name r = n -> in_int64 (row_ResourceVersion r) ->
  decode (row_Object r) = Some o -> vr_key o = ("", n) -> kept (put_row n r t).
Proof.
  intros [Hk Hp] Hn Hv Ho Hkey. split.
  - intros n' r'. rw /put_row /= lookup_insert_Some. intros [[<- <-] | [Hne Hr]].
    + split_and!; [done | done | by exists o |]. intros ->. set_solver.
    + destruct (Hk n' r' Hr) as (H1 & H2 & H3 & H4). split_and!; [done.. |]. intros Hd. destruct (row_Deleted r); set_solver.
  - intros n' v'. rw /put_row /=. destruct (row_Deleted r); [apply Hp |]. intros [[= -> ->]%elem_of_singleton | Hin]%elem_of_union; [done | by eapply Hp].
Qed.

Lemma decimal_back v : in_int64 v -> Atoi (list_ascii_of_string (decimal v)) = Some v.
Proof. intros Hv. rw /decimal list_ascii_of_string_of_list_ascii. by apply Atoi_Itoa. Qed.

Lemma spent_version t n v : kept t -> (("", n), v) ∈ spent (view t) -> exists z, v = decimal z /\ in_int64 z.
Proof.
  intros [_ Hp] [[n' z] [Heq Hin]]%elem_of_map. unfold past_key in Heq. simplify_eq/=. exists z. split; [done | by eapply Hp].
Qed.

(** What other calls may do to the table while one edits [n], but for creating
    [n] anew: patch it, which counts its version up, delete it, and write to
    other names. *)
Inductive competes (n : string) (t : table J) : table J -> Prop :=
| cp_patch r r' : tb_Rows t !! n = Some r -> row_Deleted r = false -> row_Deleted r' = false ->
    row_ResourceVersion r' = (row_ResourceVersion r + 1)%Z -> in_int64 (row_ResourceVersion r') ->
    competes n t (put_row n r' t)
| cp_delete r r' : tb_Rows t !! n = Some r -> row_Deleted r' = true -> competes n t (put_row n r' t)
| cp_other m r : m <> n -> competes n t (put_row m r t).

Lemma put_row_past m (r : row J) t : tb_Past t ⊆ tb_Past (put_row m r t).
Proof. rw /put_row /=. destruct (row_Deleted r); set_solver. Qed.

(** What that makes of a row: the same, a tombstone, or a later version. *)
Definition outlives (r r' : row J) : Prop :=
  r' = r \/ row_Deleted r' = true \/
  (row_Deleted r = false /\ in_int64 (row_ResourceVersion r') /\ (row_ResourceVersion r < row_ResourceVersion r')%Z).

Lemma outlives_trans r1 r2 r3 : outlives r1 r2 -> outlives r2 r3 -> outlives r1 r3.
Proof.
  intros [-> | [Hd | (Hd & Hv & Hlt)]] [-> | [Hd' | (Hd' & Hv' & Hlt')]]; rw /outlives; try (by eauto 6); [congruence |].
  right. right. split_and!; [done | done | lia].
Qed.

Lemma competes_row n t t' r : competes n t t' -> tb_Rows t !! n = Some r ->
  tb_Past t ⊆ tb_Past t' /\ exists r', tb_Rows t' !! n = Some r' /\ outlives r r'.
Proof.
  intros [r0 r1 Hr0 Hd0 Hd1 Hs Hv1 | r0 r1 Hr0 Hd1 | m rm Hm] Hr; (split; [apply put_row_past |]); rw /put_row /=.
  - exists r1. rw lookup_insert_eq. split; [done |]. right. right. rw Hr in Hr0. injection Hr0 as <-. split_and!; [done | done | lia].
  - exists r1. rw lookup_insert_eq. split; [done |]. right. by left.
  - exists r. rw lookup_insert_ne //. split; [done | by left].
Qed.

Lemma competes_rows n t t' r : rtc (competes n) t t' -> tb_Rows t !! n = Some r ->
  tb_Past t ⊆ tb_Past t' /\ exists r', tb_Rows t' !! n = Some r' /\ outlives r r'.
Proof.
  intros Hrun. revert r. induction Hrun as [t | t t1 t' Hc _ IH]; intros r Hr; [split; [done | exists r; split; [done | by left]] |].
  destruct (competes_row n t t1 r Hc Hr) as (Hp1 & r1 & Hr1 & O1). destruct (IH r1 Hr1) as (Hp' & r' & Hr' & O').
  split; [by etrans |]. exists r'. split; [done | by eapply outlives_trans].
Qed.

(** Under such writers an object that still has its version is unchanged. *)
Lemma competes_moves n t t' : kept t -> rtc (competes n) t t' -> items (view t) !! ("", n) <> None ->
  moves_at ("", n) (view t) (view t').
Proof.
  intros [Hk _] Hrun. rw view_lookup. destruct (tb_Rows t !! n) as [r |] eqn:Hr; [| done]. intros _.
  destruct (Hk n r Hr) as (_ & Hv & _). destruct (competes_rows n t t' r Hrun Hr) as (Hp & r' & Hr' & O).
  split; [rw /spent /=; set_solver |]. intros o o'. rw !view_lookup Hr Hr' /=.
  rw /live_of. destruct (row_Deleted r) eqn:Hd; [done |]. destruct (row_Deleted r') eqn:Hd'; [done |].
  destruct (from_record cfg r) as [x |] eqn:Hx; [| done]. destruct (from_record cfg r') as [x' |] eqn:Hx'; [| done].
  intros [= <-] [= <-]. rw (from_record_version _ _ Hx) (from_record_version _ _ Hx'). intros Ev.
  destruct O as [-> | [? | (_ & Hv' & Hlt)]]; [congruence | congruence |].
  pose proof (decimal_back _ Hv) as E1. pose proof (decimal_back _ Hv') as E2. rw Ev E1 in E2. injection E2. lia.
Qed.
End View.

(** ** The operations *)

Section Operations.
Context {K J B S : Type} `{!RowStore K J} `{!ObjectCodec J B S} `{!SelectorParser} (cfg : store_config K B S).
Context (tables : K -> table J) (trely : table J -> table J -> Prop) `{!RowStoreLaws tables trely} `{!PreOrder trely}.
(** Materialising volumes does not write to the table; neither it nor the check
    of a patch says that an object is missing. *)
Context (Hmat : forall o s, runs tables trely (run_materialize cfg o) s (fun r t t' => t' = t /\
  match r with inr e => IsNotFound e = false | inl _ => True end)).
Context (Hval : forall o e, sc_ValidatePatch cfg o = Some e -> IsNotFound e = false).
Implicit Types o : versioned B S.

Local Notation runs := (runs tables trely).

Definition no_live (n : string) (t : table J) : Prop := forall r, tb_Rows t !! n = Some r -> row_Deleted r = true.

Lemma not_refused e : refused e = false -> IsConflict e = false /\ IsNotFound e = false /\ IsAlreadyExists e = false.
Proof using Type. rw /refused. destruct (IsConflict e), (IsNotFound e), (IsAlreadyExists e); done. Qed.

Lemma getRecord_runs n s : runs (getRecord n) s (fun res t t' => t' = t /\
  match res with
  | inl r => tb_Rows t !! n = Some r /\ row_Deleted r = false
  | inr e => IsConflict e = false /\ (IsNotFound e = true -> no_live n t)
  end).
Proof using RowStoreLaws0 PreOrder0.
  pose proof (law_take (tables := tables) (trely := trely) n s) as Ht. rw /StandaloneFacts.runs /getRecord /bind in Ht |- *.
  destruct (r_take n s) as [[[r |] | e] s1]; simpl; [done | |]; destruct Ht as (t & t' & H1 & [-> He] & H2); exists t, t; split_and!; try done.
  - by destruct (not_refused e He) as (-> & _).
  - by destruct (not_refused e He) as (_ & -> & _).
Qed.

Lemma store_Get_runs n s : runs (store_Get cfg n) s (fun res t t' => t' = t /\
  match res with
  | inl o => exists r, tb_Rows t !! n = Some r /\ row_Deleted r = false /\ from_record cfg r = inl o
  | inr e => IsConflict e = false /\ (IsNotFound e = true -> no_live n t)
  end).
Proof using RowStoreLaws0 PreOrder0.
  pose proof (getRecord_runs n s) as Hg. rw /StandaloneFacts.runs /store_Get /bind in Hg |- *.
  destruct (getRecord n s) as [[r | e] s1]; simpl; [| done]. destruct Hg as (t & t' & H1 & (-> & Hr & Hd) & H2).
  rw /from_record /lift. destruct (decode (row_Object r)) as [o |] eqn:Ho; simpl; exists t, t; split_and!; try done.
  exists r. by rw /from_record Ho.
Qed.

(** A record comes with the object that it stores. *)
Lemma new_record_ok o s :
  match new_record cfg o s with
  | (inl (p, r), s') => s' = s /\ row_Name r = vr_Name o /\ row_Object r = encode p /\ row_ResourceVersion r = 1%Z /\ row_Deleted r = false /\
      vr_key p = vr_key o /\ vr_Version p = "1" /\ renders o p
  | (inr _, s') => s' = s
  end.
Proof using Type.
  rw /new_record. destruct (String.eqb _ _); [done |]. destruct (sc_ValidateNew cfg o); [done |]. by split_and!.
Qed.

(** A new live row for an object whose name has none. *)
Definition fresh_row (n : string) (p : versioned B S) (t t' : table J) : Prop :=
  no_live n t /\ exists r, (row_Name r = n \/ exists r0, tb_Rows t !! n = Some r0 /\ row_Name r = row_Name r0) /\
    row_Object r = encode p /\ row_ResourceVersion r = 1%Z /\ row_Deleted r = false /\ t' = put_row n r t.

Lemma insert_or_revive p r s : row_Object r = encode p -> row_ResourceVersion r = 1%Z -> row_Deleted r = false ->
  runs (let* b := r_insert r in if (b : bool) then ret p else let* b := r_update (row_Name r) row_Deleted (revive r) in
        if (b : bool) then ret p else fail APIAlreadyExists)%api s
    (fun res t t' => match res with
                     | inl p' => p' = p /\ fresh_row (row_Name r) p t t'
                     | inr e => t' = t \/ (refused e = false /\ fresh_row (row_Name r) p t t')
                     end).
Proof using RowStoreLaws0 PreOrder0.
  intros Ho Hv Hd.
  assert (forall t t', inserted r t t' -> fresh_row (row_Name r) p t t') as Hins.
  { intros t t' [Hn ->]. split; [intros r0; congruence |]. exists r. by split_and!; [left | ..]. }
  assert (forall t t', updated (row_Name r) row_Deleted (revive r) t t' -> fresh_row (row_Name r) p t t') as Hupd.
  { intros t t' (r0 & Hr0 & Hdel & _ & ->). split; [intros r1; congruence |]. exists (revive r r0). split_and!; [right; by exists r0 | done..]. }
  apply runs_bind_last; [done |]. eapply runs_mono; [| apply law_insert].
  intros [[] | e] t t' Hx; [left; exists (inl p); by split; [| split; [| apply Hins]] | | destruct Hx as [He [-> | Hi]]; [by left | right; split; [done | by apply Hins]]].
  destruct Hx as [-> _]. right. split; [done |]. intros s1. apply runs_bind_last; [done |]. eapply runs_mono; [| apply law_update].
  clear t. intros [[] | e] t t' Hx; [left; exists (inl p); by split; [| split; [| apply Hupd]] | | destruct Hx as [He [-> | Hi]]; [by left | right; split; [done | by apply Hupd]]].
  destruct Hx as [-> _]. right. split; [done |]. intros s2. apply runs_fail; [done |]. by left.
Qed.

Lemma store_Create_runs o s : runs (store_Create cfg o) s (fun res t t' =>
  match res with
  | inl p => renders o p /\ vr_key p = vr_key o /\ vr_Version p = "1" /\ fresh_row (vr_Name o) p t t'
  | inr e => t' = t \/ (refused e = false /\ exists p, renders o p /\ vr_key p = vr_key o /\ vr_Version p = "1" /\ fresh_row (vr_Name o) p t t')
  end).
Proof using All.
  pose proof (new_record_ok o s) as Hn. rw /store_Create {1}/bind.
  unfold StandaloneFacts.runs at 1. destruct (new_record cfg o s) as [[[p r] | e] s']; [| subst s'; exists (tables s), (tables s); by split_and!; [| left |]].
  destruct Hn as (-> & Hname & Hobj & Hver & Hdel & Hkey & Hvers & Hren).
  change (runs (let* res := try (store_Get cfg (vr_Name o)) in
    match res with
    | inl _ => fail APIAlreadyExists
    | inr e => if negb (IsNotFound e) then fail e
               else let* _ := run_materialize cfg p in
                    let* b := r_insert r in if (b : bool) then ret p
                    else let* b := r_update (vr_Name o) row_Deleted (revive r) in if (b : bool) then ret p else fail APIAlreadyExists
    end)%api s (fun res t t' =>
  match res with
  | inl p => renders o p /\ vr_key p = vr_key o /\ vr_Version p = "1" /\ fresh_row (vr_Name o) p t t'
  | inr e => t' = t \/ (refused e = false /\ exists p, renders o p /\ vr_key p = vr_key o /\ vr_Version p = "1" /\ fresh_row (vr_Name o) p t t')
  end)).
  apply runs_bind; [done | |].
  - rw /StandaloneFacts.runs /try. pose proof (store_Get_runs (vr_Name o) s) as Hg. rw /StandaloneFacts.runs in Hg.
    destruct (store_Get cfg (vr_Name o) s) as [res s1]. destruct Hg as (t & t' & H1 & [-> _] & H2). by exists t, t.
  - intros [x | e] s1; [apply runs_fail; [done |]; by left |]. destruct (negb (IsNotFound e)); [apply runs_fail; [done |]; by left |].
    apply runs_bind; [done | eapply runs_mono; [| apply Hmat]; intros [] t t' [-> _]; split; [done | done | done | by left] |].
    intros _ s2. rw -Hname. eapply runs_mono; [| by apply (insert_or_revive p r)].
    intros [p' | e'] t t' Hx; [by destruct Hx as [-> Hf] |]. destruct Hx as [-> | [He Hf]]; [by left | right]. split; [done |]. by exists p.
Qed.

(** A live row of the expected version, overwritten. *)
Definition swapped (n : string) (expected : Z) (next : versioned B S) (t t' : table J) : Prop :=
  exists r r', tb_Rows t !! n = Some r /\ row_Deleted r = false /\ row_ResourceVersion r = expected /\
    row_Name r' = row_Name r /\ row_Object r' = encode next /\ row_ResourceVersion r' = wrap64 (expected + 1) /\ row_Deleted r' = false /\
    in_int64 (row_ResourceVersion r') /\ t' = put_row n r' t.

Lemma store_Patch_runs obj base expected s :
  Atoi (list_ascii_of_string (vr_Version base)) = Some expected ->
  runs (store_Patch cfg obj base) s (fun res t t' =>
    match res with
    | inl o' => o' = bumped cfg expected obj base /\ swapped (vr_Name obj) expected o' t t'
    | inr e => (t' = t \/ (refused e = false /\ swapped (vr_Name obj) expected (bumped cfg expected obj base) t t')) /\
        (IsNotFound e = true -> no_live (vr_Name obj) t)
    end).
Proof using All.
  intros Hexp. rw /store_Patch Hexp. destruct (_ || _); [apply runs_fail; [done | by split; [left |]] |]. destruct (expected <? 1)%Z; [apply runs_fail; [done | by split; [left |]] |].
  destruct (sc_ValidatePatch cfg obj) as [e |] eqn:Hpv; [apply runs_fail; [done |]; split; [by left | by rw (Hval obj e Hpv)] |]. set (next := bumped cfg expected obj base).
  assert (forall now t t', updated (vr_Name obj) (at_version expected) (overwrite (encode next) (wrap64 (expected + 1)) now) t t' ->
            swapped (vr_Name obj) expected next t t') as Hsw.
  { intros now t t' (r & Hr & Hat & Hv & ->). apply andb_prop in Hat as [Hd Hver]. apply negb_true_iff in Hd. apply Z.eqb_eq in Hver.
    exists r, (overwrite (encode next) (wrap64 (expected + 1)) now r). by split_and!. }
  apply runs_bind; [done | eapply runs_mono; [| apply Hmat]; intros [a | e] t t' [-> He]; [done | split; [done |]; split; [by left | by rw He]] |].
  intros _ s1. apply runs_reads. apply runs_bind_last; [done |]. eapply runs_mono; [| apply law_update].
  intros [[] | e] t t' Hu.
  - left. exists (inl next). split; [done |]. split; [done | by eapply Hsw].
  - destruct Hu as [-> _]. right. split; [done |]. intros s2. apply runs_bind; [done | |].
    + eapply runs_mono; [| apply getRecord_runs]. intros [r | e] t1 t2 [-> Hx]; [done |]. split; [done |]. split; [by left | apply Hx].
    + intros _ s3. apply runs_fail; [done | by split; [left |]].
  - destruct Hu as [He Hu]. destruct (not_refused e He) as (_ & Hnf & _). split; [| by rw Hnf].
    destruct Hu as [-> | Hu]; [by left | right]. split; [done | by eapply Hsw].
Qed.

Definition buried (n : string) (t t' : table J) : Prop :=
  exists r r', tb_Rows t !! n = Some r /\ row_Deleted r = false /\ row_Name r' = row_Name r /\ row_Object r' = row_Object r /\
    in_int64 (row_ResourceVersion r') /\ row_Deleted r' = true /\ t' = put_row n r' t.

Lemma store_Delete_runs n s : runs (store_Delete n) s (fun res t t' =>
  match res with
  | inl _ => buried n t t'
  | inr e => (t' = t \/ (refused e = false /\ buried n t t')) /\ (IsNotFound e = true -> no_live n t)
  end).
Proof using RowStoreLaws0 PreOrder0.
  rw /store_Delete. apply runs_reads. set (now := r_now (J := J) s). apply runs_bind_last; [done |]. eapply runs_mono; [| apply law_update].
  assert (forall t t', updated n (fun r => negb (row_Deleted r)) (bury now) t t' -> buried n t t') as Hb.
  { intros t t' (r & Hr & Hd & Hv & ->). apply negb_true_iff in Hd. exists r, (bury now r). by split_and!. }
  intros [[] | e] t t' Hu.
  - left. exists (inl tt). split; [done | by apply Hb].
  - destruct Hu as [-> Hn]. left. exists (inr APINotFound). split; [done |]. split; [by left |]. intros _ r Hr. by apply negb_false_iff, Hn.
  - destruct Hu as [He Hu]. destruct (not_refused e He) as (_ & Hnf & _). split; [| by rw Hnf].
    destruct Hu as [-> | Hu]; [by left | right]. split; [done | by apply Hb].
Qed.

(** ** The provider *)

Context (rely : catalog B S -> catalog B S -> Prop) (Hview : forall t t', trely t t' -> rely (view cfg t) (view cfg t')).
Context (Hkept : forall t t', trely t t' -> kept (J := J) (B := B) (S := S) t -> kept (J := J) (B := B) (S := S) t').

Definition catalog_of (s : K) : catalog B S := view cfg (tables s).
Definition kept_state (s : K) : Prop := kept (J := J) (B := B) (S := S) (tables s).
Definition cluster_scoped (k : key) : Prop := k.1 = "".

Local Notation does := (does catalog_of rely kept_state).

(** From the table to the catalog. *)
Lemma runs_does {A} (m : api K A) s (Φ : A + api_error -> table J -> table J -> Prop) (Ψ : A + api_error -> catalog B S -> catalog B S -> Prop) :
  kept_state s -> runs m s Φ ->
  (forall r t t', kept (J := J) (B := B) (S := S) t -> Φ r t t' -> kept (J := J) (B := B) (S := S) t' /\ Ψ r (view cfg t) (view cfg t')) -> does m s Ψ.
Proof using Hview Hkept.
  rw /StandaloneFacts.runs /CatalogStore.does. destruct (m s) as [r s']. intros Hs (t & t' & H1 & He & H2) HΨ.
  destruct (HΨ r t t') as [Hk Hp]; [by eapply Hkept | done |]. split; [by eapply Hkept |].
  exists (view cfg t), (view cfg t'). split_and!; [by apply Hview | done | by apply Hview].
Qed.

Lemma no_live_view n t : no_live n t -> items (view cfg t) !! ("", n) = None.
Proof using Type.
  intros Hn. rw view_lookup. destruct (tb_Rows t !! n) as [r |] eqn:Hr; [| done]. by rw /= /live_of (Hn r Hr).
Qed.

Lemma live_view n t r o : tb_Rows t !! n = Some r -> row_Deleted r = false -> from_record cfg r = inl o -> items (view cfg t) !! ("", n) = Some o.
Proof using Type. intros Hr Hd Ho. by rw view_lookup Hr /= /live_of Hd Ho. Qed.

Lemma scoped_key o : cluster_scoped (vr_key o) -> vr_key o = ("", vr_Name o).
Proof using Type. rw /cluster_scoped /vr_key /vr_Name /ob_key /=. by intros ->. Qed.

(** A stored object reads back with the version of its row. *)
Lemma from_encoded r o : row_Object r = encode o -> vr_Version o = decimal (row_ResourceVersion r) -> from_record cfg r = inl o.
Proof using Type. intros Hr Hv. rw /from_record Hr decode_encode -Hv. by destruct o. Qed.

Lemma put_encoded n t r o : kept (J := J) (B := B) (S := S) t -> row_Name r = n -> row_Object r = encode o -> vr_Version o = decimal (row_ResourceVersion r) ->
  in_int64 (row_ResourceVersion r) -> row_Deleted r = false -> vr_key o = ("", n) ->
  kept (J := J) (B := B) (S := S) (put_row n r t) /\ view cfg (put_row n r t) = shelve ("", n) o (view cfg t).
Proof using Type.
  intros Hk Hn Hr Hv Hi Hd Hkey. split; [eapply (kept_put _ _ _ o); [done.. | by rw Hr decode_encode | done] |].
  by apply view_put_live; [| apply from_encoded].
Qed.

Lemma fresh_row_view o p t t' : kept (J := J) (B := B) (S := S) t -> cluster_scoped (vr_key o) -> renders o p -> vr_key p = vr_key o -> vr_Version p = "1" ->
  fresh_row (vr_Name o) p t t' -> kept (J := J) (B := B) (S := S) t' /\ created o p (view cfg t) (view cfg t').
Proof using Type.
  intros Hk Hsc Hren Hkey Hv (Hn & r & Hname & Hobj & Hver & Hdel & ->). rw (scoped_key o Hsc) in Hkey.
  assert (row_Name r = vr_Name o) as Hrn.
  { destruct Hname as [-> | (r0 & Hr0 & ->)]; [done |]. by destruct Hk as [Hk _]; destruct (Hk _ _ Hr0). }
  destruct (put_encoded (vr_Name o) t r p) as [Hk' Hsh]; [done | done | done | by rw Hv Hver | by rw Hver | done | done |].
  split; [done |]. rw /created (scoped_key o Hsc). split_and!; [by apply no_live_view | done | done].
Qed.

Lemma swapped_view obj base expected t t' : kept (J := J) (B := B) (S := S) t -> cluster_scoped (vr_key obj) -> vr_Version base = decimal expected ->
  swapped (vr_Name obj) expected (bumped cfg expected obj base) t t' ->
  kept (J := J) (B := B) (S := S) t' /\ replaced_at obj base (bumped cfg expected obj base) (view cfg t) (view cfg t').
Proof using Type.
  intros Hk Hsc Hbase (r & r' & Hr & Hd & Hver & Hname & Hobj & Hver' & Hd' & Hi & ->).
  assert (vr_key (bumped cfg expected obj base) = ("", vr_Name obj)) as Hkey by (by rw -(scoped_key obj Hsc)).
  assert (row_Name r' = vr_Name obj) as Hrn by (rw Hname; destruct Hk as [Hk _]; by destruct (Hk _ _ Hr)).
  destruct (put_encoded (vr_Name obj) t r' (bumped cfg expected obj base)) as [Hk' Hsh]; [done | done | done | by rw Hver' | done | done | done |].
  split; [done |]. destruct (kept_from_record cfg t _ r Hk Hr) as (cur & Hcur & Hck & Hcv).
  exists cur. rw (scoped_key obj Hsc). split_and!; [by eapply live_view | by rw Hcv Hver | | done]. intros _. split; [by split | done].
Qed.

Lemma buried_view n t t' : kept (J := J) (B := B) (S := S) t -> buried n t t' -> kept (J := J) (B := B) (S := S) t' /\ view cfg t' = unshelve ("", n) (view cfg t).
Proof using Type.
  intros Hk (r & r' & Hr & Hd & Hname & Hobj & Hi & Hd' & ->). split; [| by apply view_put_dead].
  destruct Hk as [Hk Hp]. destruct (Hk _ _ Hr) as (Hn & _ & (o & Ho & Hkey) & _).
  eapply (kept_put _ _ _ o); [done | by rw Hname | done | by rw Hobj | done].
Qed.

(** Every item of a page stands in the table. *)
Lemma matching_live after reqs rs os : matching cfg after reqs rs = inl os -> forall o, o ∈ os -> exists r, r ∈ rs /\ from_record cfg r = inl o.
Proof using Type.
  revert os. induction rs as [| r rs IH]; intros os; simpl; [intros [= <-] o Ho; by apply elem_of_nil in Ho |].
  destruct (negb _).
  { intros Hm o Ho. destruct (IH os Hm o Ho) as (r' & Hin & Hr'). exists r'. by split; [right |]. }
  destruct (from_record cfg r) as [x | e] eqn:Hx; [| done]. destruct (matching cfg after reqs rs) as [os' | e]; [| done].
  intros [= <-] o Ho. assert (o = x \/ o ∈ os') as [-> | Hin].
  { destruct (forallb _ _); [by apply elem_of_cons in Ho | by right]. }
  - exists r. by split; [left |].
  - destruct (IH os' eq_refl o Hin) as (r' & Hr' & Hf). exists r'. by split; [right |].
Qed.

Lemma cut_page_sub limit (os : list (versioned B S)) o : o ∈ (cut_page limit os).1 -> o ∈ os.
Proof using Type. rw /cut_page. destruct (_ && _); simpl; [| done]. apply subseteq_take. Qed.

Lemma standalone_get k s : kept_state s -> cluster_scoped k -> does (store_Get cfg k.2) s (fun r c c' => c' = c /\
  match r with
  | inl o => items c !! k = Some o /\ vr_key o = k /\ (k, vr_Version o) ∈ spent c
  | inr e => IsNotFound e = true -> items c !! k = None
  end).
Proof using Hview Hkept RowStoreLaws0 PreOrder0.
  destruct k as [ns n]. rw /cluster_scoped /=. intros Hs ->. eapply runs_does; [done | apply store_Get_runs |].
  intros [o | e] t t' Hk [-> Hx]; [| split; [done |]; split; [done |]; intros He; by apply no_live_view, Hx].
  destruct Hx as (r & Hr & Hd & Hf). split; [done |]. destruct (kept_from_record cfg t n r Hk Hr) as (o' & Hf' & Hkey & Hv).
  rw Hf in Hf'. injection Hf' as <-. split_and!; [done | by eapply live_view | done |].
  rw /spent /= Hv. apply elem_of_map. exists (n, row_ResourceVersion r). split; [done |].
  destruct Hk as [Hk _]. destruct (Hk n r Hr) as (_ & _ & _ & Hp). by apply Hp.
Qed.

Lemma standalone_list opts s : kept_state s -> does (store_List cfg opts) s (fun r c c' => c' = c /\
  match r with inl (os, _) => forall o, o ∈ os -> items c !! vr_key o = Some o | inr _ => True end).
Proof using Hview Hkept RowStoreLaws0 PreOrder0.
  intros Hs. eapply (runs_does _ _ (fun r t t' => t' = t /\ match r with
    | inl (os, _) => forall o, o ∈ os -> exists r, tb_Rows t !! row_Name r = Some r /\ row_Deleted r = false /\ from_record cfg r = inl o
    | inr _ => True end)); [done | |].
  - rw /store_List. destruct (if String.eqb _ _ then _ else _) as [reqs | e]; [| by apply runs_fail].
    destruct (continue_after _) as [after |]; [| by apply runs_fail].
    pose proof (law_find (tables := tables) (trely := trely) s) as Hf. rw /StandaloneFacts.runs /bind in Hf |- *.
    destruct (r_find s) as [[rs | e] s1]; destruct Hf as (t & t' & H1 & [-> Hrs] & H2); [| exists t, t; by split_and!]. rw /lift.
    destruct (matching cfg after reqs rs) as [os | e] eqn:Hm; simpl; exists t, t; split_and!; try done.
    destruct (cut_page (lo_Limit opts) os) as [page token] eqn:Hc. intros o Ho.
    assert (o ∈ os) as Hin by (apply (cut_page_sub (lo_Limit opts)); by rw Hc).
    destruct (matching_live after reqs rs os Hm o Hin) as (r & Hr & Hfr). apply Hrs in Hr as [Hr Hd]. by exists r.
  - intros [[os token] | e] t t' Hk [-> Hx]; [| done]. split; [done |]. split; [done |]. intros o Ho.
    destruct (Hx o Ho) as (r & Hr & Hd & Hf). destruct (kept_from_record cfg t _ r Hk Hr) as (o' & Hf' & Hkey & _).
    rw Hf in Hf'. injection Hf' as <-. rw Hkey. by eapply live_view.
Qed.

Lemma standalone_create o s : kept_state s -> cluster_scoped (vr_key o) -> does (store_Create cfg o) s (fun r c c' =>
  match r with
  | inl o' => created o o' c c'
  | inr e => maybe e (fun c' => exists o', created o o' c c') c c'
  end).
Proof using All.
  intros Hs Hsc. eapply runs_does; [done | by apply store_Create_runs |].
  intros [p | e] t t' Hk Hx; [destruct Hx as (Hren & Hkey & Hv & Hf); by apply fresh_row_view |].
  destruct Hx as [-> | (He & p & Hren & Hkey & Hv & Hf)]; [by split; [| left] |].
  destruct (fresh_row_view o p t t') as [Hk' Hcr]; [done.. |]. split; [done |]. right. split; [done |]. by exists p.
Qed.

Lemma standalone_patch obj base s : kept_state s -> cluster_scoped (vr_key obj) -> vr_key obj = vr_key base ->
  (vr_key base, vr_Version base) ∈ spent (catalog_of s) -> does (store_Patch cfg obj base) s (fun r c c' =>
  match r with
  | inl o' => replaced_at obj base o' c c'
  | inr e => maybe e (fun c' => exists o', replaced_at obj base o' c c') c c' /\ (IsNotFound e = true -> items c !! vr_key obj = None)
  end).
Proof using All.
  intros Hs Hsc Hkey Hsp. rw -Hkey (scoped_key obj Hsc) in Hsp. destruct (spent_version cfg _ _ _ Hs Hsp) as (v & Hv & Hi).
  eapply runs_does; [done | apply (store_Patch_runs _ _ v); by rw Hv decimal_back |].
  intros [o' | e] t t' Hk Hx; [destruct Hx as [-> Hsw]; by apply swapped_view |].
  destruct Hx as [Hx Hn]. assert (IsNotFound e = true -> items (view cfg t) !! vr_key obj = None) as Hn'.
  { intros He. rw (scoped_key obj Hsc). by apply no_live_view, Hn. }
  destruct Hx as [-> | [He Hsw]]; [split; [done |]; by split; [left |] |].
  destruct (swapped_view obj base v t t') as [Hk' Hr]; [done.. |]. split; [done |]. split; [right; split; [done | by eexists] | done].
Qed.

Lemma standalone_delete k s : kept_state s -> cluster_scoped k -> does (store_Delete k.2) s (fun r c c' =>
  match r with
  | inl _ => c' = unshelve k c
  | inr e => maybe e (fun c' => c' = unshelve k c) c c' /\ (IsNotFound e = true -> items c !! k = None)
  end).
Proof using Hview Hkept RowStoreLaws0 PreOrder0.
  destruct k as [ns n]. rw /cluster_scoped /=. intros Hs ->. eapply runs_does; [done | apply store_Delete_runs |].
  intros [[] | e] t t' Hk Hx; [by apply buried_view |]. destruct Hx as [Hx Hn].
  assert (kept (J := J) (B := B) (S := S) t' /\ maybe e (fun c' => c' = unshelve ("", n) (view cfg t)) (view cfg t) (view cfg t')) as [Hk' Hm].
  { destruct Hx as [-> | [He Hb]]; [by split; [| left] |]. destruct (buried_view n t t' Hk Hb). by split; [| right]. }
  split; [done |]. split; [done |]. intros He. by apply no_live_view, Hn.
Qed.

Lemma standalone_laws : ProviderLaws (Provider0 := StandaloneStore cfg) catalog_of rely kept_state cluster_scoped.
Proof using All.
  split.
  - apply standalone_get.
  - intros ns opts. apply standalone_list.
  - apply standalone_create.
  - apply standalone_patch.
  - apply standalone_delete.
Qed.

(** Seeding touches no row there is. *)
Lemma Seed_keeps os s n r : (forall t t', trely t t' -> tb_Rows t !! n = Some r -> tb_Rows t' !! n = Some r) ->
  tb_Rows (tables s) !! n = Some r -> tb_Rows (tables (Seed cfg os s).2) !! n = Some r.
Proof using RowStoreLaws0.
  intros Hst. revert s. induction os as [| o os IH]; intros s Hr; simpl; [done |]. rw /Seed /= in IH |- *. unfold bind at 1.
  assert (tb_Rows (tables (seed_one cfg o s).2) !! n = Some r) as H1.
  { rw /seed_one /bind /wrap. pose proof (new_record_ok o s) as Hn. destruct (new_record cfg o s) as [[[p rw] | e] s']; [| by subst s'].
    destruct Hn as [-> _]. simpl. pose proof (law_insert (tables := tables) (trely := trely) rw s) as Hi. rw /StandaloneFacts.runs in Hi.
    destruct (r_insert rw s) as [res s1]. destruct Hi as (t & t' & H1 & He & H2). apply (Hst _ _ H1) in Hr.
    assert (tb_Rows t' !! n = Some r) as Hr'.
    { assert (forall t', inserted rw t t' -> tb_Rows t' !! n = Some r) as Hins.
      { intros t2 [Hnone ->]. rw /put_row /= lookup_insert_ne; [congruence | done]. }
      destruct res as [[] | e]; [by apply Hins | by destruct He as [-> _] |]. destruct He as [_ [-> | Hi]]; [done | by apply Hins]. }
    apply (Hst _ _ H2) in Hr'. by destruct res. }
  destruct (seed_one cfg o s) as [[[] | e] s1]; [by apply IH | done].
Qed.
End Operations.
