(* ===== verification/CatalogFacts.v ===== *)
(** * Cluster manager: facts about the handlers

    The edits of pools as edits of the object at one moment, what they make of
    the list of units, and quota folding in terms of values. *)

From Stdlib Require Import ssreflect ZArith Lia Ascii String.
From stdpp Require Import base gmap list strings.
From S2P Require Import Prelude Placement ApiTypes Names Strconv Listing Kube OperatorTypes TenantTypes TenantValidate CatalogStore CatalogApi CatalogHandlers.

Open Scope string_scope.
Open Scope list_scope.

(** ** Units of a pool *)

Section Units.
Context {Q : Type} `{!Quantity Q} `{!QuantityLaws Q}.
Implicit Types (p : Pool Q) (us : list (ResourceUnit Q)).

Definition unit_names us : list string := map ru_Name us.

Lemma split_unit_some name us before u after : split_unit name us = Some (before, u, after) ->
  us = before ++ u :: after /\ ru_Name u = name /\ name ∉ unit_names before.
Proof.
  revert before. induction us as [| x us IH]; intros before; simpl; [done |]. destruct (String.eqb_spec (ru_Name x) name) as [He | Hne].
  - intros [= <- <- <-]. split_and!; [done | done | apply not_elem_of_nil].
  - destruct (split_unit name us) as [[[b v] a] |]; [| done]. intros [= <- <- <-]. destruct (IH b eq_refl) as (-> & Hn & Hb).
    split_and!; [done | done |]. rw /unit_names /= not_elem_of_cons. by split; [| apply Hb].
Qed.

Lemma split_unit_none name us : split_unit name us = None -> name ∉ unit_names us.
Proof.
  induction us as [| x us IH]; simpl; [intros _; apply not_elem_of_nil |]. destruct (String.eqb_spec (ru_Name x) name) as [He | Hne]; [done |].
  destruct (split_unit name us) as [[[b v] a] |]; [done |]. intros _. rw /unit_names /= not_elem_of_cons. by split; [| apply IH].
Qed.

Lemma existsb_unit name us : existsb (fun u => String.eqb (ru_Name u) name) us = false <-> name ∉ unit_names us.
Proof.
  induction us as [| x us IH]; simpl; [split; [intros _; apply not_elem_of_nil | done] |].
  rw orb_false_iff String.eqb_neq IH /unit_names /= not_elem_of_cons. split; intros [? ?]; by split.
Qed.

(** An edit of units leaves the rest of the pool alone, but for who did it. *)
Lemma set_units_rest us user p :
  vr_key (set_units us user p) = vr_key p /\ pool_units (set_units us user p) = us /\
  ob_Status (vr_Object (set_units us user p)) = ob_Status (vr_Object p) /\
  ob_Labels (vr_Object (set_units us user p)) = ob_Labels (vr_Object p) /\
  psp_NodeSelector (vr_Spec (set_units us user p)) = psp_NodeSelector (vr_Spec p) /\
  psp_Capacity (vr_Spec (set_units us user p)) = psp_Capacity (vr_Spec p) /\
  (forall k, k <> LastModifiedByAnnotation -> ob_Annotations (vr_Object (set_units us user p)) !! k = ob_Annotations (vr_Object p) !! k).
Proof.
  split_and!; [done.. |]. intros k Hk. rw /set_units /edit /ob_Annotations /= /set_if. destruct (String.eqb user ""); [done |].
  by rw lookup_insert_ne.
Qed.

(** The edits, as the routes ask for them. *)
Inductive pool_edit :=
| EditPool (req : PatchPoolRequest Q)
| AddUnit (req : CreateUnitRequest Q)
| EditUnit (name : string) (req : PatchUnitRequest Q)
| RemoveUnit (name : string).

(** What each makes of a pool. *)
Definition rest_kept p (next : Pool Q) : Prop :=
  ob_Labels (vr_Object next) = ob_Labels (vr_Object p) /\ psp_NodeSelector (vr_Spec next) = psp_NodeSelector (vr_Spec p) /\
  psp_Capacity (vr_Spec next) = psp_Capacity (vr_Spec p) /\
  (forall k, k <> LastModifiedByAnnotation -> ob_Annotations (vr_Object next) !! k = ob_Annotations (vr_Object p) !! k).

Definition edited (e : pool_edit) (user : string) p (next : Pool Q) : Prop :=
  match e with
  | EditPool req => next = applyPoolPatch req user p /\ pool_units next = pool_units p
  | AddUnit req => cur_Name req ∉ unit_names (pool_units p) /\ pool_units next = pool_units p ++ [APIToUnit req] /\ rest_kept p next
  | EditUnit name req => exists before u after, pool_units p = before ++ u :: after /\ ru_Name u = name /\ name ∉ unit_names before /\
      pool_units next = before ++ applyUnitPatch req u :: after /\ rest_kept p next
  | RemoveUnit name => exists before u after, pool_units p = before ++ u :: after /\ ru_Name u = name /\ name ∉ unit_names before /\
      pool_units next = before ++ after /\ rest_kept p next
  end.

(** An edit keeps unit names distinct. *)
Lemma edited_unique e user p next : edited e user p next -> NoDup (unit_names (pool_units p)) -> NoDup (unit_names (pool_units next)).
Proof.
  rw /unit_names. destruct e as [req | req | name req | name]; simpl.
  - by intros [_ ->].
  - intros (Hn & -> & _) Hd. rw map_app. apply NoDup_app. split_and!; [done | | apply NoDup_singleton].
    intros x Hx [-> | Hx']%elem_of_cons; [done | by apply elem_of_nil in Hx'].
  - intros (before & u & after & -> & _ & _ & -> & _). by rw !map_app.
  - intros (before & u & after & -> & _ & _ & -> & _). rw !map_app /=. rw !NoDup_app NoDup_cons.
    intros (Hb & Hba & Hu & Ha). split_and!; [done | | done]. intros x Hx Hx'. apply (Hba x Hx). by right.
Qed.

Lemma add_unit_edited req user p next a : add_unit req user p = Mutated next a -> edited (AddUnit req) user p next /\ a = APIToUnit req.
Proof.
  rw /add_unit. destruct (existsb _ _) eqn:Hx; [done |]. apply existsb_unit in Hx. intros [= <- <-].
  destruct (set_units_rest (pool_units p ++ [APIToUnit req]) user p) as (_ & Hu & _ & Hrest). by split.
Qed.

Lemma patch_unit_edited req user name p next a : patch_unit req user name p = Mutated next a -> edited (EditUnit name req) user p next.
Proof.
  rw /patch_unit. destruct (split_unit name (pool_units p)) as [[[b u] af] |] eqn:Hs; [| done]. intros [= <- <-].
  apply split_unit_some in Hs as (Hp & Hn & Hb). destruct (set_units_rest (b ++ applyUnitPatch req u :: af) user p) as (_ & Hu & _ & Hrest).
  by exists b, u, af.
Qed.

Lemma remove_unit_edited user name p next a : remove_unit user name p = Mutated next a -> edited (RemoveUnit name) user p next.
Proof.
  rw /remove_unit. destruct (split_unit name (pool_units p)) as [[[b u] af] |] eqn:Hs; [| done]. intros [= <- <-].
  apply split_unit_some in Hs as (Hp & Hn & Hb). destruct (set_units_rest (b ++ af) user p) as (_ & Hu & _ & Hrest).
  by exists b, u, af.
Qed.

Lemma patch_pool_local req user : local_edit (patch_pool (Q := Q) req user).
Proof. intros cur next a [= <- <-]. done. Qed.

Lemma add_unit_local req user : local_edit (add_unit (Q := Q) req user).
Proof. intros cur next a. rw /add_unit. destruct (existsb _ _); [done |]. by intros [= <- <-]. Qed.

Lemma patch_unit_local req user name : local_edit (patch_unit (Q := Q) req user name).
Proof. intros cur next a. rw /patch_unit. destruct (split_unit _ _) as [[[b u] af] |]; [| done]. by intros [= <- <-]. Qed.

Lemma remove_unit_local user name : local_edit (remove_unit (Q := Q) user name).
Proof. intros cur next a. rw /remove_unit. destruct (split_unit _ _) as [[[b u] af] |]; [| done]. by intros [= <- <-]. Qed.

(** ** Duplicates in a request *)

Lemma first_duplicate_none seen names : first_duplicate seen names = None <-> NoDup names /\ forall n, n ∈ names -> n ∉ seen.
Proof.
  revert seen. induction names as [| n names IH]; intros seen; simpl.
  { split; [intros _; split; [constructor | intros n Hn; by apply elem_of_nil in Hn] | done]. }
  destruct (bool_decide_reflect (n ∈ seen)) as [Hin | Hin].
  { split; [done |]. intros [_ Hs]. exfalso. by apply (Hs n); [left |]. }
  rw IH NoDup_cons. split.
  - intros [Hd Hs]. split_and!; [| done |].
    + intros Hn. apply (Hs n Hn). set_solver.
    + intros m [-> | Hm]%elem_of_cons; [done |]. specialize (Hs m Hm). set_solver.
  - intros [[Hn Hd] Hs]. split; [done |]. intros m Hm. specialize (Hs m ltac:(by right)). set_solver.
Qed.
End Units.

(** ** Answers of the pool routes *)

Section Routes.
Context {Q : Type} `{!Quantity Q} `{!QuantityLaws Q} `{!SelectorParser}.
Context {K : Type} `{!Provider K (PoolSpec Q) unit} (validateResources : string -> gmap string Q -> option string).
Context (objects : K -> catalog (PoolSpec Q) unit) (rely : catalog (PoolSpec Q) unit -> catalog (PoolSpec Q) unit -> Prop) (good : K -> Prop).
Context `{!ProviderLaws objects rely good (fun k => k.1 = "")} `{!PreOrder rely}.

Definition answers {A} (h : answer K A) (s : K) (Φ : reply A -> catalog (PoolSpec Q) unit -> catalog (PoolSpec Q) unit -> Prop) : Prop :=
  let '(r, s') := h s in good s' /\ did rely objects (Φ r) s s'.

Lemma answers_send {A} (r : reply A) s Φ : good s -> Φ r (objects s) (objects s) -> answers (send r) s Φ.
Proof using PreOrder0. intros Hg HΦ. split; [done |]. by exists (objects s), (objects s). Qed.

Lemma answers_unless {A E} (err : option E) bad (next : answer K A) s Φ :
  good s -> (forall e, err = Some e -> Φ (bad e) (objects s) (objects s)) -> (err = None -> answers next s Φ) -> answers (unless err bad next) s Φ.
Proof using PreOrder0. intros Hg Hbad Hnext. destruct err as [e |]; [by apply answers_send, Hbad | by apply Hnext]. Qed.

Lemma answers_on {A B} (m : api K A) (bad : api_error -> reply B) (good_reply : A -> reply B) s (Ψ : A + api_error -> _ -> _ -> Prop) Φ :
  does objects rely good m s Ψ -> (forall a c c', Ψ (inl a) c c' -> Φ (good_reply a) c c') -> (forall e c c', Ψ (inr e) c c' -> Φ (bad e) c c') ->
  answers (on m bad (fun a => send (good_reply a))) s Φ.
Proof using Type.
  rw /does /answers /on. destruct (m s) as [[a | e] s']; intros (Hg & c & c' & H1 & He & H2) Ha Hb; (split; [done |]); exists c, c'; split_and!; auto.
Qed.

(** The reply without its body. *)
Definition erase {A} (r : reply A) : reply unit :=
  match r with JSON st _ => JSON st tt | Status st => Status st | AbortWithProblem st code title detail => AbortWithProblem st code title detail end.

(** The codes with which nothing has happened. *)
Definition inert (code : string) : bool :=
  String.eqb code "AlreadyExists" || String.eqb code "NotFound" || String.eqb code "OptimisticLockConflict".

Lemma writeK8sError_inert {A} e name : exists st code title detail,
  writeK8sError (A := A) e name = AbortWithProblem st code title detail /\ (refused e = false -> inert code = false) /\ (400 <= st)%Z.
Proof using Type.
  rw /writeK8sError /refused.
  destruct (IsUnavailable e), (IsAlreadyExists e), (IsNotFound e), (IsConflict e), (IsInvalid e), (IsBadRequest e);
    do 4 eexists; (split; [reflexivity |]); done.
Qed.

(** One edit of the stored pool, and nothing else. *)
Definition edit_effect (e : pool_edit) (user pool : string) (c c' : catalog (PoolSpec Q) unit) : Prop :=
  exists cur next o', items c !! named pool = Some cur /\ edited e user cur next /\ renders next o' /\ c' = shelve (named pool) o' c.

(** What a reply to an edit tells. *)
Definition edit_outcome (e : pool_edit) (user pool : string) (r : reply unit) (c c' : catalog (PoolSpec Q) unit) : Prop :=
  match r with
  | AbortWithProblem _ code _ _ => c' = c \/ (inert code = false /\ edit_effect e user pool c c')
  | _ => edit_effect e user pool c c' \/
      (c' = c /\ exists name, e = RemoveUnit name /\ forall cur, items c !! named pool = Some cur -> name ∉ unit_names (pool_units cur))
  end.

Lemma on_edit_outcome {A B} (e : pool_edit) (f : Pool Q -> mutation A) user pool (bad : api_error -> reply B) (ok : option (Pool Q * A) -> reply B) s :
  good s -> (forall c c', rely c c' -> moves_at (named pool) c c') ->
  local_edit f -> (forall cur next a, f cur = Mutated next a -> edited e user cur next) ->
  (forall r, exists st, erase (ok r) = JSON st tt \/ erase (ok r) = Status st) ->
  (forall cur, f cur = NoMutationNeeded -> exists name, e = RemoveUnit name /\ name ∉ unit_names (pool_units cur)) ->
  (forall err, bad err = writeK8sError err pool \/
     (bad err = Status 204 /\ IsNotFound err = true /\ (exists name, e = RemoveUnit name) /\ forall cur, f cur <> Stopped err)) ->
  answers (on_edit pool f bad ok) s (fun r => edit_outcome e user pool (erase r)).
Proof using All.
  intros Hg Hmoves Hl Hed Hok Hno Hbad. eapply answers_on; [by eapply (mutate_attempts_atomic objects rely good) | |].
  - intros r c c' Hr. destruct (Hok r) as [st Hst]. rw /edit_outcome.
    assert (edit_effect e user pool c c' \/ (c' = c /\ exists name, e = RemoveUnit name /\ forall cur, items c !! named pool = Some cur -> name ∉ unit_names (pool_units cur))) as Ho.
    { destruct r as [[o' a] |].
      - left. destruct Hr as (cur & next & Hc & Hf & Hren & _ & ->). exists cur, next, o'. by eauto.
      - right. destruct Hr as [-> (cur & Hc & Hf)]. split; [done |]. destruct (Hno cur Hf) as (name & -> & Hn). exists name. split; [done |].
        intros cur' Hc'. congruence. }
    by destruct Hst as [-> | ->].
  - intros err c c' [He Hn]. destruct (Hbad err) as [-> | (-> & Hnf & (name & ->) & Hst)]; simpl.
    + destruct (writeK8sError_inert (A := B) err pool) as (st & code & title & detail & -> & Hin & _). simpl.
      destruct He as [-> | (Hx & o' & a & cur & next & Hc & Hf & Hren & _ & ->)]; [by left | right]. split; [by apply Hin |].
      exists cur, next, o'. by eauto.
    + right. destruct He as [-> | (Hx & _)]; [| by rw /refused Hnf orb_true_r in Hx]. split; [done |]. exists name. split; [done |].
      intros cur Hc. destruct (Hn Hnf) as [Hnone | (cur' & Hc' & Hs)]; [congruence | by apply Hst in Hs].
Qed.

(** The route of an edit. *)
Definition serve_edit (user pool : string) (e : pool_edit) : answer K unit := fun s =>
  match e with
  | EditPool req => let '(r, s') := pool_Patch validateResources user pool (inl req) s in (erase r, s')
  | AddUnit req => let '(r, s') := pool_CreateUnit validateResources user pool (inl req) s in (erase r, s')
  | EditUnit name req => let '(r, s') := pool_PatchUnit validateResources user pool name (inl req) s in (erase r, s')
  | RemoveUnit name => pool_DeleteUnit user pool name s
  end.

Lemma answers_erase {A} (h : answer K A) s Φ : answers h s (fun r => Φ (erase r)) -> answers (fun s => let '(r, s') := h s in (erase r, s')) s Φ.
Proof using Type. rw /answers. by destruct (h s). Qed.

Lemma serve_edit_outcome user pool e s :
  good s -> (forall c c', rely c c' -> moves_at (named pool) c c') -> answers (serve_edit user pool e) s (edit_outcome e user pool).
Proof using All.
  intros Hg Hmoves. assert (forall (B : Type) (err : option string) (bad : string -> reply B) next,
    (forall x, exists st code title detail, bad x = AbortWithProblem st code title detail) ->
    answers next s (fun r => edit_outcome e user pool (erase r)) -> answers (unless err bad next) s (fun r => edit_outcome e user pool (erase r))) as Hun.
  { intros B err bad next Hbad Hn. apply answers_unless; [done | | done]. intros x _. destruct (Hbad x) as (st & code & ti & de & ->). by left. }
  destruct e as [req | req | name req | name]; rw /serve_edit.
  - apply answers_erase. rw /pool_Patch /bound. apply Hun; [by eauto |].
    apply on_edit_outcome; [done | done | apply patch_pool_local | | | done | by left].
    + by intros cur next a [= <- <-].
    + intros [[p []] |]; exists 200%Z; by eauto.
  - apply answers_erase. rw /pool_CreateUnit /bound. apply Hun; [by eauto |]. apply Hun; [by eauto |].
    apply on_edit_outcome; [done | done | apply add_unit_local | | | | by left].
    + intros cur next a Hf. by eapply add_unit_edited in Hf as [Hf _].
    + intros [[p u] |]; exists 201%Z; by eauto.
    + intros cur. rw /add_unit. by destruct (existsb _ _).
  - apply answers_erase. rw /pool_PatchUnit /bound. apply Hun; [by eauto |].
    apply on_edit_outcome; [done | done | apply patch_unit_local | | | | by left].
    + intros cur next a Hf. by eapply patch_unit_edited in Hf.
    + intros [[p u] |]; exists 200%Z; by eauto.
    + intros cur. rw /patch_unit. by destruct (split_unit _ _) as [[[]] |].
  - rw /pool_DeleteUnit. assert (answers (on_edit (B := unit) pool (remove_unit user name)
      (fun e => if IsNotFound e then Status 204 else writeK8sError e pool) (fun _ => Status 204)) s (fun r : reply unit => edit_outcome (RemoveUnit name) user pool (erase r))) as Hr.
    { apply on_edit_outcome; [done | done | apply remove_unit_local | | by intros r; exists 204%Z; right | |].
      + intros cur next a Hf. by eapply remove_unit_edited in Hf.
      + intros cur. rw /remove_unit. destruct (split_unit _ _) as [[[]] |] eqn:Hs; [done |]. intros _. exists name. split; [done | by apply split_unit_none].
      + intros err. destruct (IsNotFound err) eqn:Hnf; [right | by left]. split_and!; [done | done | by exists name |].
        intros cur. rw /remove_unit. by destruct (split_unit _ _) as [[[]] |]. }
    rw /answers in Hr |- *. destruct (on_edit _ _ _ _ s) as [r s']. destruct Hr as (Hg' & c & c' & H1 & He & H2).
    split; [done |]. exists c, c'. split_and!; [done | by destruct r as [? [] | |] | done].
Qed.
End Routes.

(** ** Folding quotas *)

Section Folding.
Context {Q : Type} `{!Quantity Q} `{!QuantityLaws Q}.
Implicit Types (units : list (ResourceUnit Q)) (sels : list QuotaUnit).

Lemma add_times_val n (qty cur : Q) : q_val (add_times n qty cur) = (q_val cur + Z.of_nat n * q_val qty)%Z.
Proof. rw /add_times. induction n as [| n IH]; simpl; [lia |]. rw q_val_add IH. lia. Qed.

Lemma addScaled_val (acc src : gmap string Q) n r : (0 <= n)%Z -> rl_val (addScaled acc src n) r = (rl_val acc r + n * rl_val src r)%Z.
Proof.
  intros Hn. rw /addScaled /rl_val /rl_get /map_get lookup_merge. destruct (src !! r) as [q |], (acc !! r) as [a |]; simpl;
    rw ?add_times_val ?q_val_zero ?Z2Nat.id; lia.
Qed.

Lemma addScaled_dom (acc src : gmap string Q) n r : is_Some (addScaled acc src n !! r) <-> is_Some (acc !! r) \/ is_Some (src !! r).
Proof. rw /addScaled lookup_merge. destruct (src !! r), (acc !! r); simpl; rw !is_Some_alt /=; tauto. Qed.

(** What a selection adds up to: quantity times unit, over the selected units. *)
Fixpoint units_total (f : ResourceUnit Q -> gmap string Q) units sels (r : string) : Z :=
  match sels with
  | [] => 0
  | sel :: rest => (match findUnit units (qu_UnitName sel) with Some u => qu_Quantity sel * rl_val (f u) r | None => 0 end
                    + units_total f units rest r)%Z
  end.

Definition sel_ok units (sel : QuotaUnit) : Prop := (0 <= qu_Quantity sel)%Z /\ is_Some (findUnit units (qu_UnitName sel)).

(** A resource that some selected unit mentions. *)
Definition mentioned (f : ResourceUnit Q -> gmap string Q) units sels (r : string) : Prop :=
  exists sel u, sel ∈ sels /\ findUnit units (qu_UnitName sel) = Some u /\ is_Some (f u !! r).

Lemma mentioned_cons f units sel u sels r : findUnit units (qu_UnitName sel) = Some u ->
  mentioned f units (sel :: sels) r <-> is_Some (f u !! r) \/ mentioned f units sels r.
Proof.
  intros Hu. split.
  - intros (sel' & u' & [-> | Hin]%elem_of_cons & Hu' & Hs); [left; congruence | right; by exists sel', u'].
  - intros [Hs | (sel' & u' & Hin & Hu' & Hs)]; [exists sel, u; split_and!; [by left | done | done] | exists sel', u'; split_and!; [by right | done | done]].
Qed.

Lemma fold_units_exact pool units sels min max :
  match fold_units pool units min max sels with
  | inl (min', max') => Forall (sel_ok units) sels /\ forall r,
      rl_val min' r = (rl_val min r + units_total ru_Requests units sels r)%Z /\
      rl_val max' r = (rl_val max r + units_total ru_Limits units sels r)%Z /\
      (is_Some (min' !! r) <-> is_Some (min !! r) \/ mentioned ru_Requests units sels r) /\
      (is_Some (max' !! r) <-> is_Some (max !! r) \/ mentioned ru_Limits units sels r)
  | inr _ => ~ Forall (sel_ok units) sels
  end.
Proof.
  revert min max. induction sels as [| sel sels IH]; intros min max; simpl.
  { split; [constructor |]. intros r. split_and!; [lia | lia | |]; (split; [by left | by intros [? | (? & ? & []%elem_of_nil & _)]]). }
  destruct (Z.ltb_spec (qu_Quantity sel) 0) as [Hneg | Hpos]; [rw Forall_cons /sel_ok; intros [[? _] _]; lia |].
  destruct (findUnit units (qu_UnitName sel)) as [u |] eqn:Hu; [| rw Forall_cons /sel_ok Hu; by intros [[_ []%is_Some_None] _]].
  specialize (IH (addScaled min (ru_Requests u) (qu_Quantity sel)) (addScaled max (ru_Limits u) (qu_Quantity sel))).
  destruct (fold_units _ _ _ _ _) as [[min' max'] | e]; [| rw Forall_cons; tauto].
  destruct IH as [Hok IH]. split; [rw Forall_cons /sel_ok Hu; by split_and!; [| eexists |] |].
  intros r. destruct (IH r) as (H1 & H2 & H3 & H4). rw H1 H2 H3 H4 !addScaled_val; [done | done |].
  rw !addScaled_dom (mentioned_cons ru_Requests units sel u sels r Hu) (mentioned_cons ru_Limits units sel u sels r Hu).
  split_and!; [lia | lia | tauto | tauto].
Qed.

(** A direct quota that is accepted. *)
Definition direct_ok (d : QuotaResources Q) : Prop :=
  qr_Max d <> ∅ /\ (forall r m, qr_Max d !! r = Some m -> 0 <= q_val m)%Z /\
  (forall r v, qr_Min d !! r = Some v -> 0 <= q_val v /\ exists m, qr_Max d !! r = Some m /\ q_val v <= q_val m)%Z.

Lemma first_error_app {E} (a b : list (option E)) : first_error (a ++ b) = None <-> first_error a = None /\ first_error b = None.
Proof. induction a as [| [e |] a IH]; simpl; [tauto | split; [done | by intros [? _]] | done]. Qed.

Lemma first_error_map {A E} (f : A -> option E) l : first_error (map f l) = None <-> forall a, a ∈ l -> f a = None.
Proof.
  induction l as [| x l IH]; simpl; [split; [intros _ a []%elem_of_nil | done] |].
  destruct (f x) as [e |] eqn:Hx; [split; [done | intros H; specialize (H x ltac:(by left)); congruence] |].
  rw IH. split; [intros H a [-> | Ha]%elem_of_cons; [done | by apply H] | intros H a Ha; apply H; by right].
Qed.

Lemma negative_val (q : Q) : negative q = false <-> (0 <= q_val q)%Z.
Proof. rw /negative q_sign_val Z.ltb_ge. lia. Qed.

Lemma direct_min_error_none pool max kv : direct_min_error (Q := Q) pool max kv = None <->
  (0 <= q_val kv.2)%Z /\ exists m, max !! kv.1 = Some m /\ (q_val kv.2 <= q_val m)%Z.
Proof.
  destruct kv as [n v]. rw /direct_min_error /=. destruct (negative v) eqn:Hneg.
  { split; [done |]. intros [Hv _]. apply negative_val in Hv. congruence. }
  apply negative_val in Hneg. destruct (max !! n) as [m |]; [| split; [done | by intros [_ (m & ? & _)]]].
  rw q_cmp_val. split; [| intros [_ (m' & [= <-] & Hle)]; by destruct (Z.compare_spec (q_val v) (q_val m)); [| | lia]].
  intros Hc. split; [done |]. exists m. split; [done |]. destruct (Z.compare_spec (q_val v) (q_val m)); [lia | lia | done].
Qed.

Lemma validateDirectQuota_none pool d : validateDirectQuota (Q := Q) pool d = None <-> direct_ok d.
Proof.
  rw /validateDirectQuota /direct_ok. destruct (bool_decide_reflect (qr_Max d = ∅)) as [He | He]; [split; [done | by intros [? _]] |].
  rw first_error_app !first_error_map. setoid_rewrite direct_min_error_none. split.
  - intros [Hmax Hmin]. split_and!; [done | |].
    + intros r m Hm. specialize (Hmax (r, m)). rw elem_of_map_to_list /= in Hmax. specialize (Hmax Hm).
      destruct (negative m) eqn:Hn; [done | by apply negative_val].
    + intros r v Hv. specialize (Hmin (r, v)). rw elem_of_map_to_list /= in Hmin. by apply Hmin.
  - intros (_ & Hmax & Hmin). split.
    + intros [r m] Hm%elem_of_map_to_list. simpl. specialize (Hmax r m Hm). apply negative_val in Hmax. by rw Hmax.
    + intros [r v] Hv%elem_of_map_to_list. by apply Hmin.
Qed.

(** A selection that is accepted, and what it becomes. *)
Definition quota_ok units (q : QuotaInput Q) : Prop :=
  match qi_Units q, qi_Quota q with
  | Some sels, None => Forall (sel_ok units) sels
  | None, Some d => direct_ok d
  | _, _ => False
  end.

Definition folded units (q : QuotaInput Q) (spec : QuotaSpec Q) : Prop :=
  qsp_Pool spec = qi_Pool q /\
  match qi_Units q, qi_Quota q with
  | Some sels, None => forall r,
      rl_val (qsp_Min spec) r = units_total ru_Requests units sels r /\
      rl_val (default ∅ (qsp_Max spec)) r = units_total ru_Limits units sels r /\
      (is_Some (qsp_Min spec !! r) <-> mentioned ru_Requests units sels r) /\
      (is_Some (default ∅ (qsp_Max spec) !! r) <-> mentioned ru_Limits units sels r)
  | None, Some d => qsp_Min spec = qr_Min d /\ qsp_Max spec = Some (qr_Max d)
  | _, _ => False
  end.

Lemma default_emptyToNil (rl : gmap string Q) : default ∅ (emptyToNil rl) = rl.
Proof. rw /emptyToNil. by destruct (bool_decide_reflect (rl = ∅)) as [-> |]. Qed.

Lemma fold_quota_exact units q :
  match fold_quota units q with inl spec => quota_ok units q /\ folded units q spec | inr _ => ~ quota_ok units q end.
Proof.
  rw /fold_quota /quota_ok /folded. destruct (qi_Units q) as [sels |], (qi_Quota q) as [d |]; [tauto | | | tauto].
  - pose proof (fold_units_exact (qi_Pool q) units sels ∅ ∅) as Hf. destruct (fold_units _ _ _ _ _) as [[min max] | e]; [| done].
    destruct Hf as [Hok Hf]. split; [done |]. split; [done |]. intros r. destruct (Hf r) as (H1 & H2 & H3 & H4). simpl.
    rw default_emptyToNil H1 H2 !rl_val_empty H3 H4 !lookup_empty. split_and!; [lia | lia | |]; rw is_Some_alt /=; tauto.
  - destruct (validateDirectQuota (qi_Pool q) d) as [e |] eqn:Hv.
    + intros Hd. apply (validateDirectQuota_none (qi_Pool q)) in Hd. congruence.
    + apply validateDirectQuota_none in Hv. split; [done |]. split_and!; [done | done |]. rw /emptyToNil bool_decide_false; [by destruct Hv | done].
Qed.

Definition selections_ok (pools : gmap string (list (ResourceUnit Q))) (seen : gset string) (qs : list (QuotaInput Q)) : Prop :=
  NoDup (map qi_Pool qs) /\ Forall (fun q => qi_Pool q ∉ seen /\ exists units, pools !! qi_Pool q = Some units /\ quota_ok units q) qs.

Lemma fold_quotas_exact pools seen qs :
  match fold_quotas pools seen qs with
  | inl specs => selections_ok pools seen qs /\ Forall2 (fun q spec => exists units, pools !! qi_Pool q = Some units /\ folded units q spec) qs specs
  | inr _ => ~ selections_ok pools seen qs
  end.
Proof.
  rw /selections_ok. revert seen. induction qs as [| q qs IH]; intros seen; simpl; [by repeat constructor |].
  destruct (bool_decide_reflect (qi_Pool q ∈ seen)) as [Hin | Hin]; [rw NoDup_cons Forall_cons; by intros [_ [[? _] _]] |].
  destruct (pools !! qi_Pool q) as [units |] eqn:Hp; [| rw NoDup_cons Forall_cons Hp; by intros [_ [[_ (? & ? & _)] _]]].
  pose proof (fold_quota_exact units q) as Hq. destruct (fold_quota units q) as [spec | e].
  2: { rw NoDup_cons Forall_cons Hp. intros [_ [[_ (u' & [= <-] & Hok)] _]]. done. }
  destruct Hq as [Hok Hfo]. specialize (IH ({[qi_Pool q]} ∪ seen)). destruct (fold_quotas _ _ _) as [specs | e]; rw NoDup_cons Forall_cons.
  - destruct IH as [[Hd Hall] Hf2]. rw Forall_forall in Hall. split; [| constructor; [by exists units | done]]. split_and!.
    + intros Hx. apply list_elem_of_fmap in Hx as (q' & Heq & Hq'). destruct (Hall q' Hq') as [Hns _]. set_solver.
    + done.
    + done.
    + by exists units.
    + apply Forall_forall. intros q' Hq'. destruct (Hall q' Hq') as [Hns Hu]. split; [set_solver | done].
  - intros [[Hnin Hd] [_ Hall]]. apply IH. split; [done |]. rw Forall_forall in Hall. apply Forall_forall. intros q' Hq'.
    destruct (Hall q' Hq') as [Hns Hu]. split; [| done]. rw not_elem_of_union not_elem_of_singleton. split; [| done]. intros Heq. apply Hnin. rw -Heq. by apply list_elem_of_fmap_2.
Qed.
End Folding.

(** ** Quotas through the annotation *)

Section Roundtrip.
Context {Q : Type} `{!Quantity Q} `{!QuantityLaws Q} `{!QuotaCodec Q}.
Implicit Types (qs : list (QuotaInput Q)).

Definition by_units (q : QuotaInput Q) : bool := match qi_Units q with Some _ => true | None => false end.

Definition note_units (m : gmap string (list QuotaUnit)) (q : QuotaInput Q) : gmap string (list QuotaUnit) :=
  match qi_Units q with
  | Some units => if String.eqb (qi_Pool q) "" then m else <[qi_Pool q := units]> m
  | None => m
  end.

Lemma units_by_pool_other qs m p : p ∉ map qi_Pool qs -> foldl note_units m qs !! p = m !! p.
Proof.
  revert m. induction qs as [| q qs IH]; intros m; simpl; [done |]. rw not_elem_of_cons. intros [Hp Hn]. rw IH; [done |].
  rw /note_units. destruct (qi_Units q); [| done]. destruct (String.eqb _ _); [done |]. by rw lookup_insert_ne.
Qed.

Lemma units_by_pool_in qs m q units : NoDup (map qi_Pool qs) -> q ∈ qs -> qi_Units q = Some units -> qi_Pool q <> "" ->
  foldl note_units m qs !! qi_Pool q = Some units.
Proof.
  revert m. induction qs as [| x qs IH]; intros m; simpl; [by intros _ []%elem_of_nil |]. rw NoDup_cons. intros [Hx Hd] Hin Hu Hp.
  apply elem_of_cons in Hin as [-> | Hin]; [| by apply IH].
  rw units_by_pool_other; [done |]. rw /note_units Hu. destruct (String.eqb_spec (qi_Pool x) ""); [done |]. by rw lookup_insert_eq.
Qed.

(** What an accepted list of selections leaves in the annotation. *)
Lemma annotation_back qs ann : Forall (fun q => by_units q = true -> qi_Quota q = None) qs ->
  map_get "" ann QuotasAnnotation = QuotasToAnnotation qs -> quotasFromAnnotation ann = List.filter by_units qs.
Proof.
  intros Hmode Ha. rw /quotasFromAnnotation Ha /QuotasToAnnotation. change (List.filter (fun q => match qi_Units q with Some _ => true | None => false end) qs) with (List.filter by_units qs).
  destruct (List.filter by_units qs) as [| q l] eqn:Hf; [done |].
  assert (Forall (fun q => is_Some (qi_Units q) /\ qi_Quota q = None) (q :: l)) as Hall.
  { rw -Hf. apply Forall_forall. intros x Hx. apply list_elem_of_In, filter_In in Hx as [Hx Hb]. rw Forall_forall in Hmode.
    split; [| apply Hmode; [by apply list_elem_of_In | done]]. rw /by_units in Hb. destruct (qi_Units x); [by eexists | done]. }
  assert (map (fun q => {| qi_Pool := qi_Pool q; qi_Units := qi_Units q; qi_Quota := None |}) (q :: l) = q :: l) as ->.
  { rw -{2}(map_id (q :: l)). apply map_ext_in. intros x Hx. rw Forall_forall in Hall. destruct (Hall x) as [_ Hn]; [by apply list_elem_of_In |].
    destruct x. simpl in *. by rw Hn. }
  destruct (String.eqb_spec (marshal_quotas (q :: l)) "") as [He | _]; [by apply codec_nonempty in He |]. by rw codec_roundtrip.
Qed.

Lemma pool_unique qs q q' : NoDup (map qi_Pool qs) -> q ∈ qs -> q' ∈ qs -> qi_Pool q = qi_Pool q' -> q = q'.
Proof.
  induction qs as [| x qs IH]; simpl; [by intros _ []%elem_of_nil |]. rw NoDup_cons !elem_of_cons. intros [Hx Hd] [-> | H1] [-> | H2] He.
  - done.
  - exfalso. apply Hx. rw He. by apply list_elem_of_fmap_2.
  - exfalso. apply Hx. rw -He. by apply list_elem_of_fmap_2.
  - by apply IH.
Qed.

Lemma filter_pools qs : NoDup (map qi_Pool qs) -> NoDup (map qi_Pool (List.filter by_units qs)).
Proof.
  induction qs as [| q qs IH]; simpl; [done |]. rw NoDup_cons. intros [Hn Hd]. destruct (by_units q); simpl; [| by apply IH].
  rw NoDup_cons. split; [| by apply IH]. intros Hin. apply Hn. apply list_elem_of_fmap in Hin as (x & Hx & Hin). rw Hx.
  apply list_elem_of_In, filter_In in Hin as [Hin _]. apply list_elem_of_fmap_2. by apply list_elem_of_In.
Qed.

Lemma quotas_read_back (pools : gmap string (list (ResourceUnit Q))) qs specs ann :
  FoldQuotas qs pools = inl specs -> pools !! "" = None -> map_get "" ann QuotasAnnotation = QuotasToAnnotation qs -> quotasToAPI specs ann = qs.
Proof.
  intros Hfold Hempty Hann. pose proof (fold_quotas_exact pools ∅ qs) as Hex. rw /FoldQuotas in Hfold. rw Hfold in Hex.
  destruct Hex as [[Hd Hok] Hf2]. rw /quotasToAPI.
  assert (forall q, q ∈ qs -> qi_Pool q <> "" /\ exists units, pools !! qi_Pool q = Some units /\ quota_ok units q) as Hq.
  { intros q Hin. rw Forall_forall in Hok. destruct (Hok q Hin) as (_ & units & Hp & Ho). split; [intros He; rw He in Hp; congruence | by exists units]. }
  rw (annotation_back qs); [| done |].
  { apply Forall_forall. intros q Hin Hb. destruct (Hq q Hin) as (_ & units & _ & Ho). rw /quota_ok /by_units in Ho Hb.
    destruct (qi_Units q); [| done]. by destruct (qi_Quota q). }
  set (by_pool := units_by_pool (List.filter by_units qs)).
  assert (forall q, q ∈ qs -> by_pool !! qi_Pool q = qi_Units q) as Hby.
  { intros q Hin. destruct (Hq q Hin) as [Hne _]. destruct (qi_Units q) as [units |] eqn:Hu.
    - apply (units_by_pool_in (List.filter by_units qs) ∅ q units); [by apply filter_pools | | done | done].
      apply list_elem_of_In, filter_In. split; [by apply list_elem_of_In | by rw /by_units Hu].
    - rw /by_pool /units_by_pool. erewrite (units_by_pool_other (List.filter by_units qs) ∅); [apply lookup_empty |].
      intros Hx. apply list_elem_of_fmap in Hx as (x & Hpx & Hinx). apply list_elem_of_In, filter_In in Hinx as [Hinx Hbx].
      assert (x = q) as -> by (apply (pool_unique qs); [done | by apply list_elem_of_In | done | done]).
      by rw /by_units Hu in Hbx. }
  clear Hann Hfold Hd Hok. clearbody by_pool. induction Hf2 as [| q spec qs specs (units & Hp & Hpool & Hfo) Hf2 IH]; simpl; [done |]. f_equal.
  - rw /quota_to_api Hpool (Hby q ltac:(by left)). destruct (Hq q ltac:(by left)) as (_ & units' & Hp' & Ho). rw Hp in Hp'. injection Hp' as <-.
    rw /quota_ok in Ho. destruct q as [pool us d]; simpl in *. destruct us as [sels |], d as [d |]; [done | done | | done].
    destruct Hfo as [Hmin Hmax]. rw Hmin Hmax /=. destruct Ho as [Hne _]. rw bool_decide_false; [done |]. by destruct d.
  - apply IH; intros q' Hin; [apply Hq | apply Hby]; by right.
Qed.
End Roundtrip.
