(* ===== verification/CatalogProperties.v ===== *)
(** * Cluster manager and standalone catalog: properties

    Edits of pools, quota selections and what becomes of them, the standalone
    stores as an implementation of the provider, and volumes in use. *)

From Stdlib Require Import ssreflect ZArith Lia Ascii String.
From stdpp Require Import base countable gmap list strings.
From S2P Require Import Prelude Placement ApiTypes Names Strconv Listing Kube OperatorTypes TenantTypes TenantValidate TenantProperties CatalogStore CatalogApi CatalogHandlers StandaloneCatalog StandaloneFacts CatalogFacts.

Open Scope string_scope.
Open Scope list_scope.

(** ** A database in memory *)

Section Memory.
Context {K J : Type} (get : K -> table J) (set : table J -> K -> K) (get_set : forall t s, get (set t s) = t).

Definition fits (z : Z) : bool := ((int64_min <=? z) && (z <=? int64_max))%Z.

Definition memory_db : RowStore K J := {|
  r_insert r s := match tb_Rows (get s) !! row_Name r with
                  | None => (inl true, set (put_row (row_Name r) r (get s)) s)
                  | Some _ => (inl false, s)
                  end;
  r_update n cond f s := match tb_Rows (get s) !! n with
                         | Some r => if cond r then
                                       if fits (row_ResourceVersion (f r)) then (inl true, set (put_row n (f r) (get s)) s)
                                       else (inr (Errored "bigint out of range"), s)
                                     else (inl false, s)
                         | None => (inl false, s)
                         end;
  r_take n s := (inl match tb_Rows (get s) !! n with Some r => if row_Deleted r then None else Some r | None => None end, s);
  r_find s := (inl (map snd (List.filter (fun nr => String.eqb nr.1 (row_Name nr.2) && negb (row_Deleted nr.2)) (map_to_list (tb_Rows (get s))))), s);
  r_now _ := 100%Z; r_uuid _ := "uid-1" |}.

Lemma did_memory (eff : table J -> table J -> Prop) s s' : eff (get s) (get s') -> did eq get eff s s'.
Proof. intros He. by exists (get s), (get s'). Qed.

Lemma memory_laws : RowStoreLaws (RowStore0 := memory_db) get eq.
Proof using get_set.
  split; intros; rw /runs /=.
  - destruct (tb_Rows (get s) !! row_Name r) as [r0 |] eqn:Hr; apply did_memory; [split; [done | by exists r0] | by split; [| rw get_set]].
  - destruct (tb_Rows (get s) !! n) as [r |] eqn:Hr; [| apply did_memory; split; [done | by rw Hr]].
    destruct (cond r) eqn:Hc; [| apply did_memory; split; [done |]; rw Hr; by intros r' [= <-]].
    destruct (fits _) eqn:Hf; apply did_memory; [| by split; [| left]]. rw get_set. exists r. split_and!; [done | done | | done].
    rw /fits andb_true_iff !Z.leb_le in Hf. by rw /in_int64.
  - apply did_memory. split; [done |]. destruct (tb_Rows (get s) !! n) as [r |]; [| done]. destruct (row_Deleted r) eqn:Hd; [by intros r' [= <-] | done].
  - apply did_memory. split; [done |]. intros r. rw list_elem_of_fmap. split.
    + intros ([n r'] & -> & Hin). apply list_elem_of_In, filter_In in Hin as [Hin Hb]. simpl in *. apply list_elem_of_In, elem_of_map_to_list in Hin.
      apply andb_prop in Hb as [Hn Hd]. apply String.eqb_eq in Hn. apply negb_true_iff in Hd. by subst n.
    + intros [Hr Hd]. exists (row_Name r, r). split; [done |]. apply list_elem_of_In, filter_In. split; [by apply list_elem_of_In, elem_of_map_to_list |].
      by rw /= String.eqb_refl Hd.
Qed.
End Memory.

(** ** Edits of pools *)

Section PoolEdits.
Context {Q : Type} `{!Quantity Q} `{!QuantityLaws Q} `{!SelectorParser}.
Context {K : Type} `{!Provider K (PoolSpec Q) unit} (validateResources : string -> gmap string Q -> option string).
Context (objects : K -> catalog (PoolSpec Q) unit) (rely : catalog (PoolSpec Q) unit -> catalog (PoolSpec Q) unit -> Prop) (good : K -> Prop).

(** C13: However many clients edit a pool at the same time, every edit that is
    answered with success is one edit of the pool as it stood at one moment:
    a new unit is appended to the units there were, a changed or removed unit
    is the first of its name and the others stay, and nothing else of the pool
    changes but for who did it; success without an effect is only reported for
    the removal of a unit that is not there; and an edit that is refused
    because of a conflict, a missing object or an existing unit changes
    nothing.  The store must keep the provider's laws, and while the call runs
    the pool, when it still has the version it had, must be unchanged.  On a
    Kubernetes API server it is.  On the standalone store it is under any
    patches, deletions and writes to other pools ([competes_moves]), but not
    when others delete the pool and create it anew between the read and the
    patch: versions count from 1 again, and the stale edit replaces the new
    pool with success ([recreated_pool_is_overwritten]). *)
Theorem pool_edits_are_atomic user pool e s :
  ProviderLaws objects rely good (fun k => k.1 = "") -> PreOrder rely ->
  (forall c c', rely c c' -> moves_at (named pool) c c') -> good s ->
  let '(r, s') := serve_edit validateResources user pool e s in
  good s' /\ did rely objects (edit_outcome e user pool r) s s'.
Proof. intros HL HP HM Hg. exact (serve_edit_outcome validateResources objects rely good user pool e s Hg HM). Qed.

(** The calls on pools. *)
Inductive pool_call :=
| CallCreate (body : CreatePoolRequest Q + string)
| CallEdit (pool : string) (e : pool_edit (Q := Q))
| CallDelete (pool : string)
| CallGet (pool : string)
| CallList (sel limit cont : string).

Definition serve_pool (user : string) (call : pool_call) : answer K unit := fun s =>
  match call with
  | CallCreate body => let '(r, s') := pool_Create validateResources user body s in (erase r, s')
  | CallEdit pool e => serve_edit validateResources user pool e s
  | CallDelete pool => pool_Delete (Q := Q) pool s
  | CallGet pool => let '(r, s') := pool_Get pool s in (erase r, s')
  | CallList sel limit cont => let '(r, s') := pool_List sel limit cont s in (erase r, s')
  end.

Definition unique_units (c : catalog (PoolSpec Q) unit) : Prop :=
  forall k p, items c !! k = Some p -> NoDup (unit_names (pool_units p)).

Lemma unique_shelve k (o : Pool Q) c : unique_units c -> NoDup (unit_names (pool_units o)) -> unique_units (shelve k o c).
Proof using Type. intros Hu Ho k' p. rw /shelve /items /= lookup_insert_Some. intros [[_ <-] | [_ Hp]]; [done | by eapply Hu]. Qed.

Lemma unique_edit e user pool c c' : unique_units c -> edit_effect e user pool c c' -> unique_units c'.
Proof using Type.
  intros Hu (cur & next & o' & Hc & Hed & [_ Hsp] & ->). apply unique_shelve; [done |]. rw /pool_units Hsp.
  eapply edited_unique; [done | by eapply Hu].
Qed.

Lemma unique_outcome e user pool r c c' : unique_units c -> edit_outcome e user pool r c c' -> unique_units c'.
Proof using Type.
  intros Hu. destruct r; simpl; [intros [He | [-> _]] | intros [He | [-> _]] | intros [-> | [_ He]]]; try done; by eapply unique_edit.
Qed.

(** A new pool has no two units of one name. *)
Lemma created_unique (req : CreatePoolRequest Q) user o' c c' : firstDuplicateUnit (cpr_Units req) = None ->
  unique_units c -> created (APIToPool req user) o' c c' -> unique_units c'.
Proof using Type.
  intros Hd Hu (_ & [_ Hsp] & ->). apply unique_shelve; [done |]. rw /pool_units Hsp /= /unit_names map_map /=.
  apply first_duplicate_none in Hd as [Hd _]. exact Hd.
Qed.

Section Keep.
Context `{!ProviderLaws objects rely good (fun k => k.1 = "")} `{!PreOrder rely}.

Local Notation keeps := (fun (_ : reply unit) c c' => unique_units c -> unique_units c').

Lemma answers_keep {A} (m : api K A) (bad : api_error -> reply unit) (ok : A -> reply unit) s (Ψ : A + api_error -> _ -> _ -> Prop) :
  does objects rely good m s Ψ -> (forall r c c', Ψ r c c' -> unique_units c -> unique_units c') ->
  answers objects rely good (on m bad (fun a => send (ok a))) s keeps.
Proof using Type. intros Hm Hk. eapply answers_on; [exact Hm | |]; intros ? c c'; apply Hk. Qed.

Lemma create_keeps user body s : good s -> answers objects rely good (serve_pool user (CallCreate body)) s keeps.
Proof using All.
  intros Hg. rw /serve_pool. apply (answers_erase _ _ _ (pool_Create validateResources user body)). rw /pool_Create /bound.
  assert (forall r, answers objects rely good (send (A := PoolAPI Q) r) s (fun _ c c' => unique_units c -> unique_units c')) as Hsend
    by (intros r; by apply answers_send).
  destruct body as [req | e]; [| apply Hsend]. destruct (ValidateDNS1123Name _ _); [apply Hsend |]. simpl.
  destruct (firstDuplicateUnit (cpr_Units req)) as [n |] eqn:Hd; [apply Hsend |]. simpl.
  destruct (match cpr_Capacity req with Some rl => _ | None => None end); [apply Hsend |]. simpl. destruct (first_error _); [apply Hsend |]. simpl.
  eapply answers_on; [by apply (law_p_create (objects := objects) (rely := rely) (in_scope := fun k => k.1 = "")) | |].
  - intros o' c c' Hcr Hu. exact (created_unique req user o' c c' Hd Hu Hcr).
  - intros e c c' [-> | (_ & o' & Hcr)] Hu; [done | exact (created_unique req user o' c c' Hd Hu Hcr)].
Qed.

Lemma delete_keeps user pool s : good s -> answers objects rely good (serve_pool user (CallDelete pool)) s keeps.
Proof using All.
  intros Hg. rw /serve_pool /pool_Delete /answers.
  pose proof (law_p_delete (objects := objects) (rely := rely) (good := good) (in_scope := fun k => k.1 = "") (named pool) s Hg eq_refl) as Hd.
  assert (forall c, unique_units c -> unique_units (unshelve (named pool) c)) as Hun.
  { intros c Hu k p. rw /unshelve /items /= lookup_delete_Some. intros [_ Hp]. by eapply Hu. }
  rw /does in Hd. destruct (p_Delete (named pool) s) as [[[] | e] s']; destruct Hd as (Hg' & c & c' & H1 & He & H2); (split; [done |]); exists c, c'; split_and!; try done.
  - subst c'. apply Hun.
  - destruct He as [[-> | [_ ->]] _]; [done | apply Hun].
Qed.

Lemma read_keeps user call s : good s -> match call with CallGet _ | CallList _ _ _ => True | _ => False end ->
  answers objects rely good (serve_pool user call) s keeps.
Proof using All.
  intros Hg Hc. destruct call as [| | | pool | sel limit cont]; try done; rw /serve_pool.
  - apply (answers_erase _ _ _ (pool_Get pool)). eapply answers_on;
      [by apply (law_p_get (objects := objects) (rely := rely) (in_scope := fun k => k.1 = "")) | by intros o c c' [-> _] | by intros e c c' [-> _]].
  - apply (answers_erase _ _ _ (pool_List sel limit cont)). rw /pool_List /with_list_options.
    destruct (selector_error sel); [by apply answers_send |]. simpl. destruct (page_limit limit); [| by apply answers_send].
    eapply answers_on; [by apply (law_p_list (objects := objects) (rely := rely) (in_scope := fun k => k.1 = "")) | by intros o c c' [-> _] | by intros e c c' [-> _]].
Qed.
End Keep.

End PoolEdits.

(** ** Quotas *)

Section Quotas.
Context {Q : Type} `{!Quantity Q} `{!QuantityLaws Q}.
Implicit Types (pools : gmap string (list (ResourceUnit Q))) (qs : list (QuotaInput Q)).

(** The selections the API documents: one per pool, each for a pool that is
    there, and either units of that pool in quantities that are not negative,
    or resources with 0 <= min <= max. *)
Definition acceptable pools qs : Prop :=
  NoDup (map qi_Pool qs) /\ Forall (fun q => exists units, pools !! qi_Pool q = Some units /\ quota_ok units q) qs.

Lemma acceptable_fresh pools qs : selections_ok pools ∅ qs <-> acceptable pools qs.
Proof using Type.
  rw /selections_ok /acceptable. split; intros [Hd Hall]; (split; [done |]); refine (Forall_impl _ _ _ Hall _).
  - by intros q [_ Hq].
  - intros q Hq. split; [apply not_elem_of_empty | done].
Qed.

(** C24: Quota selections are folded exactly when they are acceptable, and then
    into one specification per selection, in order: for units, min and max are
    for every resource the sums of quantity times requests and of quantity
    times limits over the selected units, and mention exactly the resources
    these units mention; resources given directly are taken as they are. *)
Theorem fold_quotas_is_exact pools qs :
  match FoldQuotas qs pools with
  | inl specs => acceptable pools qs /\ Forall2 (fun q spec => exists units, pools !! qi_Pool q = Some units /\ folded units q spec) qs specs
  | inr _ => ~ acceptable pools qs
  end.
Proof.
  rw /FoldQuotas. pose proof (fold_quotas_exact pools ∅ qs) as Hf. destruct (fold_quotas pools ∅ qs) as [specs | e].
  - destruct Hf as [Hok Hf]. split; [by apply acceptable_fresh | done].
  - by rw -acceptable_fresh.
Qed.

(** A unit the scheduler can place: it does not ask for more than its limits. *)
Definition sane_unit (u : ResourceUnit Q) : Prop :=
  (forall r m, ru_Limits u !! r = Some m -> 0 <= q_val m)%Z /\
  (forall r v, ru_Requests u !! r = Some v -> 0 <= q_val v /\ exists m, ru_Limits u !! r = Some m /\ q_val v <= q_val m)%Z.

(** A selection that limits something. *)
Definition limits_something pools (q : QuotaInput Q) : Prop :=
  forall units sels, pools !! qi_Pool q = Some units -> qi_Units q = Some sels -> exists r, mentioned ru_Limits units sels r.

Lemma sane_val (u : ResourceUnit Q) r : sane_unit u -> (0 <= rl_val (ru_Requests u) r <= rl_val (ru_Limits u) r)%Z.
Proof using Type.
  intros [Hl Hr]. destruct (ru_Requests u !! r) as [v |] eqn:Hv.
  - destruct (Hr r v Hv) as (H0 & m & Hm & Hle). rw (rl_val_lookup _ _ _ Hv) (rl_val_lookup _ _ _ Hm). lia.
  - rw (rl_val_None _ _ Hv). destruct (ru_Limits u !! r) as [m |] eqn:Hm.
    + rw (rl_val_lookup _ _ _ Hm). specialize (Hl r m Hm). lia.
    + rw (rl_val_None _ _ Hm). lia.
Qed.

Lemma findUnit_in (units : list (ResourceUnit Q)) name u : findUnit units name = Some u -> u ∈ units.
Proof using Type. intros [Hin _]%List.find_some. by apply list_elem_of_In. Qed.

Lemma totals_sane units sels r : Forall sane_unit units -> Forall (sel_ok units) sels ->
  (0 <= units_total ru_Requests units sels r <= units_total ru_Limits units sels r)%Z.
Proof using Type.
  intros Hs. induction 1 as [| sel sels [Hq (u & Hu)] Hall IH]; simpl; [lia |]. rw Hu. rw Forall_forall in Hs.
  pose proof (sane_val u r (Hs u (findUnit_in units _ u Hu))). nia.
Qed.

Lemma folded_valid pools units q spec : pools !! qi_Pool q = Some units -> Forall sane_unit units -> quota_ok units q -> limits_something pools q ->
  folded units q spec -> valid_quota spec.
Proof using Type.
  intros Hp Hs Hok Hlim [_ Hf]. rw /quota_ok in Hok. destruct (qi_Units q) as [sels |] eqn:Hu, (qi_Quota q) as [d |]; [done | | | done].
  - destruct (Hlim units sels Hp Hu) as (r0 & Hr0). destruct (qsp_Max spec) as [max |] eqn:Hmax; simpl in Hf.
    2: { destruct (Hf r0) as (_ & _ & _ & Hd). apply Hd in Hr0. rw lookup_empty in Hr0. by apply is_Some_None in Hr0. }
    exists max. split; [done |].
    assert (forall r, 0 <= rl_val (qsp_Min spec) r <= rl_val max r)%Z as Hle.
    { intros r. destruct (Hf r) as (-> & -> & _). by apply totals_sane. }
    split.
    + intros r m Hm. specialize (Hle r). rw (rl_val_lookup _ _ _ Hm) in Hle. lia.
    + intros r v Hv. specialize (Hle r). rw (rl_val_lookup _ _ _ Hv) in Hle. split; [lia |].
      assert (is_Some (max !! r)) as [m Hm].
      { destruct (Hf r) as (_ & _ & H3 & H4). apply H4. destruct H3 as [H3 _]. destruct (H3 ltac:(by rw Hv; eexists)) as (sel & u & Hin & Hfu & (x & Hx)).
        exists sel, u. split_and!; [done | done |]. rw Forall_forall in Hs. destruct (Hs u (findUnit_in units _ u Hfu)) as [_ Hreq].
        destruct (Hreq r x Hx) as (_ & m & Hm & _). by exists m. }
      exists m. split; [done |]. rw (rl_val_lookup _ _ _ Hm) in Hle. lia.
  - destruct Hf as [Hmin Hmax]. destruct Hok as (_ & H1 & H2). exists (qr_Max d). by rw Hmin Hmax.
Qed.

(** C36: What the cluster manager folds passes the tenant operator's check of
    quotas, when no pool has an empty name, no unit of the pools requests more
    than its limits and every selection by units limits some resource. *)
Theorem folded_quotas_pass_the_operator pools qs specs :
  FoldQuotas qs pools = inl specs -> pools !! "" = None -> map_Forall (fun _ units => Forall sane_unit units) pools ->
  Forall (limits_something pools) qs -> validateQuotas specs = None.
Proof.
  intros Hfold Hempty Hsane Hlim. pose proof (fold_quotas_exact pools ∅ qs) as Hex. rw /FoldQuotas in Hfold. rw Hfold in Hex. destruct Hex as [[Hd Hok] Hf2].
  apply quota_errors_none. rw !Forall_forall in Hok Hlim.
  assert (map qsp_Pool specs = map qi_Pool qs) as Hpools.
  { clear Hok Hlim Hd Hfold. induction Hf2 as [| q spec qs specs (units & _ & Hn & _) Hf2 IH]; simpl; congruence. }
  split_and!.
  - rw Hpools. split; [| done]. intros Hin. apply list_elem_of_fmap in Hin as (q & He & Hin). destruct (Hok q Hin) as (_ & units & Hp & _). congruence.
  - apply Forall_forall. intros spec Hin. apply list_elem_of_lookup in Hin as [i Hi].
    destruct (Forall2_lookup_r _ _ _ _ _ Hf2 Hi) as (q & Hq%list_elem_of_lookup_2 & units & Hp & Hf).
    destruct (Hok q Hq) as (_ & units' & Hp' & Hqo). rw Hp in Hp'. injection Hp' as <-.
    by eapply folded_valid; [| eapply Hsane | | apply Hlim |].
  - intros n _. apply not_elem_of_empty.
Qed.

Context `{!QuotaCodec Q}.

(** C31: The quotas of a tenant read back are the selections they were set from:
    after an accepted list of selections, by units or by resources, has been
    folded into a tenant with its annotation, reading the tenant returns exactly
    this list, where no pool has the empty name.  A tenant created with it does
    so too when the request brings no annotation of its own under the reserved
    name; when it does, the tenant may read back as other selections than were
    set ([smuggled_units]). *)
Theorem quota_selections_roundtrip pools qs specs :
  FoldQuotas qs pools = inl specs -> pools !! "" = None ->
  (forall user (t : TenantItem Q), tap_Quotas (TenantToAPI (set_quotas specs (QuotasToAnnotation qs) user t)) = qs) /\
  (forall uuid user req, ctr_Annotations req !! QuotasAnnotation = None ->
     tap_Quotas (TenantToAPI (with_tenant_id uuid (APIToTenant req specs (QuotasToAnnotation qs) user))) = qs).
Proof.
  intros Hf He. split.
  - intros user t. apply (quotas_read_back pools); [done | done |]. rw /set_quotas /edit /ob_Annotations /= /set_if /setQuotaAnnotation /map_get.
    assert (LastModifiedByAnnotation <> QuotasAnnotation) by done.
    destruct (String.eqb user ""); [| rw lookup_insert_ne; [done |]]; (destruct (String.eqb_spec (QuotasToAnnotation qs) "") as [-> |];
      [by rw lookup_delete_eq | by rw lookup_insert_eq]).
  - intros uuid user req Hr.
    assert (tap_Quotas (TenantToAPI (with_tenant_id uuid (APIToTenant req specs (QuotasToAnnotation qs) user))) =
      quotasToAPI specs (tenantAnnotations (ctr_Annotations req) user (QuotasToAnnotation qs))) as -> by (rw /with_tenant_id; by destruct (String.eqb _ _)).
    apply (quotas_read_back pools); [done | done |].
    rw /tenantAnnotations /set_if /map_get. destruct (String.eqb_spec (QuotasToAnnotation qs) "") as [Hn | _]; [| by rw lookup_insert_eq].
    rw Hn. assert (LastModifiedByAnnotation <> QuotasAnnotation) by done.
    destruct (String.eqb user ""); [by rw Hr | rw lookup_insert_ne; [done |]; by rw Hr].
Qed.
End Quotas.

(** ** The standalone stores *)

(** A table with what its writers keep of it, seen as a catalog. *)
Record kept_db {K J B S : Type} `{!ObjectCodec J B S} (db : RowStore K J) (cfg : store_config K B S) (tables : K -> table J)
    (trely : table J -> table J -> Prop) (rely : catalog B S -> catalog B S -> Prop) : Prop := {
  kd_laws : RowStoreLaws (RowStore0 := db) tables trely;
  kd_order : PreOrder trely;
  kd_view t t' : trely t t' -> rely (view cfg t) (view cfg t');
  kd_kept t t' : trely t t' -> kept (B := B) (S := S) t -> kept (B := B) (S := S) t' }.

Section Standalone.
Context {Q : Type} `{!Quantity Q} `{!QuantityLaws Q} `{!TenantMachinery Q} `{!CatalogMachinery Q} `{!SelectorParser}.
Context {K J : Type} `{!ObjectCodec J (PoolSpec Q) unit} `{!ObjectCodec J (TenantSpec Q) (TenantStatus Q)}.
Context (same_pool : PoolSpec Q -> PoolSpec Q -> bool) (same_tenant : TenantSpec Q -> TenantSpec Q -> bool) (Ensure : ClaimItem Q -> api K unit).
Context (pools_db tenants_db : RowStore K J).

Local Notation pool_cfg := (pool_store (K := K) same_pool).
Local Notation tenant_cfg := (tenant_store same_tenant Ensure).

(** A call that leaves a table alone and does not report a missing object. *)
Definition harmless {A} (tables : K -> table J) (trely : table J -> table J -> Prop) (m : api K A) : Prop :=
  forall s, runs tables trely m s (fun r t t' => t' = t /\ match r with inr e => IsNotFound e = false | inl _ => True end).

Lemma harmless_each {A} tables trely `{!PreOrder trely} (f : A -> api K unit) l :
  (forall a, harmless tables trely (f a)) -> harmless tables trely (each f l).
Proof using Type.
  intros Hf. induction l as [| a l IH]; intros s; simpl; [by apply runs_ret |]. apply runs_bind; [done | | intros []; apply IH].
  eapply runs_mono; [| apply Hf]. by intros [[] | e] t t' [-> He].
Qed.

Lemma materialize_harmless tables trely `{!PreOrder trely} t :
  (forall pvc, harmless tables trely (Ensure pvc)) -> harmless tables trely (materializeTenantVolumes Ensure t).
Proof using Type.
  intros HE s. rw /materializeTenantVolumes. destruct (negb _); [by apply runs_fail |]. destruct (validateTenantVolumes _ _ _); [| by apply runs_fail].
  apply harmless_each; [done |]. intros v s1. rw /ensure_volume. destruct (negb _); [by apply runs_fail |].
  specialize (HE (buildSeedPVC (vr_Name t) v) s1). rw /runs /wrap in HE |- *. by destruct (Ensure _ s1) as [[] s2].
Qed.

(** C19: The standalone edition's stores of pools and tenants implement the
    provider that the cluster manager's handlers are written against: reads
    return what is stored under the name, a page has stored objects only, a
    creation succeeds exactly where nothing live stands and stores what was
    asked for, also over the tombstone of a deleted object, a patch replaces
    the object only at the version it was computed from, a deletion removes
    it, and the errors for a conflict, a missing and an existing object leave
    the table as it is, while any other error may come before or after the
    effect.  This follows from what each SQL statement does, with other writers
    before and after every statement.  It is about the tables only: the tenant
    store creates the Docker volumes of a tenant before its statement finds a
    conflict or an existing row, and they stay ([volumes_before_conflict]).
    Creating a volume ([Ensure], which is not the store's) must not write to
    the tenants table nor fail as if an object were missing. *)
Theorem standalone_implements_provider ptables ptrely prely ttables ttrely trely :
  kept_db pools_db pool_cfg ptables ptrely prely -> kept_db tenants_db tenant_cfg ttables ttrely trely ->
  (forall pvc, harmless ttables ttrely (Ensure pvc)) ->
  ProviderLaws (Provider0 := StandaloneStore (RowStore0 := pools_db) pool_cfg) (catalog_of pool_cfg ptables) prely
    (kept_state (B := PoolSpec Q) (S := unit) ptables) cluster_scoped /\
  ProviderLaws (Provider0 := StandaloneStore (RowStore0 := tenants_db) tenant_cfg) (catalog_of tenant_cfg ttables) trely
    (kept_state (B := TenantSpec Q) (S := TenantStatus Q) ttables) cluster_scoped.
Proof.
  intros [HL1 HO1 HV1 HK1] [HL2 HO2 HV2 HK2] HE. split.
  - eapply standalone_laws; [done | done | | | done | done].
    + intros o s. by apply runs_ret.
    + intros o e. rw /= /validatePersistentResourcePool. destruct (validatePools [o]); [done |]. by intros [= <-].
  - eapply standalone_laws; [done | done | | | done | done].
    + intros o s. by apply materialize_harmless.
    + done.
Qed.

(** C34: Importing the startup configuration never changes a pool or tenant that
    has been there before: what was edited through the API stays edited, and
    what was deleted stays deleted across restarts. *)
Theorem deletions_survive_seeding {B S} `{!ObjectCodec J B S} (cfg : store_config K B S) tables trely os s n r :
  RowStoreLaws (RowStore0 := pools_db) tables trely -> (forall t t', trely t t' -> tb_Rows t !! n = Some r -> tb_Rows t' !! n = Some r) ->
  tb_Rows (tables s) !! n = Some r ->
  let c' := catalog_of cfg tables (Seed (RowStore0 := pools_db) cfg os s).2 in
  items c' !! ("", n) = items (catalog_of cfg tables s) !! ("", n) /\ (row_Deleted r = true -> items c' !! ("", n) = None).
Proof.
  intros HL Hst Hr. simpl. pose proof (Seed_keeps (RowStore0 := pools_db) cfg tables trely os s n r Hst Hr) as Hr'.
  rw /catalog_of !view_lookup Hr Hr' /=. split; [done |]. intros Hd. by rw /live_of Hd.
Qed.
End Standalone.

(** ** Volumes in use *)

Section Volumes.
Context {Q : Type} `{!Quantity Q} `{!QuantityLaws Q} `{!TenantMachinery Q} `{!SelectorParser}.
Context {K : Type} `{!Provider K (ClaimSpec Q) (ClaimStatus Q)} `{!ClusterLists K Q}.

(** A running pod with a volume of the claim; volumes of pods have names. *)
Definition runs_on (claim : string) (p : PodItem) : Prop :=
  pod_Phase p = "Running" /\ (exists v, (v, Some claim) ∈ pod_Claims p) /\ Forall (fun v => v.1 <> "") (pod_Claims p).

Lemma mounts_running claim pods p : p ∈ pods -> runs_on claim p -> existsb vmo_Running (mounts_of claim pods) = true.
Proof using Type.
  intros Hin (Hph & (v & Hv) & Hne). apply existsb_exists.
  assert (claim_volume claim p <> "") as Hcv.
  { rw /claim_volume. destruct (List.find _ (pod_Claims p)) as [w |] eqn:Hf.
    - apply List.find_some in Hf as [Hw _]. rw Forall_forall in Hne. apply Hne. by apply list_elem_of_In.
    - apply list_elem_of_In in Hv. pose proof (List.find_none _ _ Hf _ Hv) as Hn. by rw /= String.eqb_refl in Hn. }
  exists {| vmo_Workload := workloadName p; vmo_Kind := workloadKind p; vmo_MountPath := mountPathFor p (claim_volume claim p); vmo_Running := true |}.
  split; [| done]. apply list_elem_of_In, list_elem_of_omap. exists p. split; [done |].
  cbv zeta. rw (proj2 (String.eqb_neq _ _) Hcv) Hph. reflexivity.
Qed.

(** C35: A volume that a running pod of its namespace uses is not deleted unless
    the caller forces it: the answer is the conflict VolumeInUse, and nothing
    is called after the listing of the pods; when the pods cannot be listed,
    nothing is deleted either. *)
Theorem running_volumes_survive k force s :
  force <> "true" ->
  match list_pods k.1 s with
  | (inl pods, s1) => (exists p, p ∈ pods /\ runs_on k.2 p) -> volume_Delete (VolumeManager0 := VolumeStore) k force s = (volume_in_use k, s1)
  | (inr e, s1) => volume_Delete (VolumeManager0 := VolumeStore) k force s = (volume_writeK8sError e (key_text k), s1)
  end.
Proof.
  intros Hf. rw /volume_Delete /= /k8s_Mounts /on /bind. destruct (String.eqb_spec force "true"); [done |].
  destruct (list_pods k.1 s) as [[pods | e] s1]; [| done]. intros (p & Hp & Hr). rw /=. by rw (mounts_running k.2 pods p Hp Hr).
Qed.
End Volumes.

(** ** Metrics *)

(** The number of steps in a query is at most [maxPoints], when the step is
    given, or when it is derived and the window is at most 76 days. *)
Lemma metric_points_bounded (fraction_ns : bytes -> Z -> Z) stepStr rng step : (0 < rng)%Z -> (0 < step)%Z ->
  (TrimSpace (list_ascii_of_string stepStr) <> [] \/ (rng <= 76 * 24 * Hour)%Z) ->
  resolveStep fraction_ns stepStr rng = Some step -> (Z.quot rng step <= maxPoints)%Z.
Proof.
  intros Hr Hs Hc. rw /resolveStep. destruct (TrimSpace (list_ascii_of_string stepStr)) as [| c l].
  - destruct Hc as [? | Hc]; [done |]. intros [= <-]. rw /maxPoints /Hour /Minute /Second in Hc Hs |- *. rw (Z.quot_div_nonneg rng 50); [lia | lia |].
    pose proof (Z.div_mod rng 50 ltac:(lia)) as Hm. pose proof (Z.mod_pos_bound rng 50 ltac:(lia)) as Hb.
    assert (forall st, (0 < st)%Z -> (rng <= st * 11000)%Z -> (Z.quot rng st <= 11000)%Z) as Hq.
    { intros st Hst Hle. rw Z.quot_div_nonneg; [lia | lia |]. by apply Z.div_le_upper_bound. }
    clear Hs. apply Hq; destruct (Z.ltb_spec (rng / 50) (15 * 1000000000)) as [H1 | H1];
      [destruct (Z.ltb_spec (10 * (60 * 1000000000)) (15 * 1000000000)) as [H2 | H2] | destruct (Z.ltb_spec (10 * (60 * 1000000000)) (rng / 50)) as [H2 | H2] |
       destruct (Z.ltb_spec (10 * (60 * 1000000000)) (15 * 1000000000)) as [H2 | H2] | destruct (Z.ltb_spec (10 * (60 * 1000000000)) (rng / 50)) as [H2 | H2]]; lia.
  - destruct (parseWindow fraction_ns stepStr) as [st |]; simpl; [| done].
    destruct (_ && _) eqn:Hx; [done |]. intros [= <-]. apply andb_false_iff in Hx as [Hx | Hx]; unbool; lia.
Qed.

(** The step derived for 77 days is ten minutes, and there are too many. *)
Example derived_step_too_fine : resolveStep (fun _ _ => 0%Z) "" (77 * 24 * Hour) = Some (10 * Minute)%Z /\
  (maxPoints < Z.quot (77 * 24 * Hour) (10 * Minute))%Z.
Proof. by split; vm_compute. Qed.

(** 220000 days wrap around to a window of less than 6500. *)
Example window_wraps : parseWindow (fun _ _ => 0%Z) "220000d" = Some 561255926290448384%Z /\ (561255926290448384 < 6500 * 24 * Hour)%Z.
Proof. by split; vm_compute. Qed.

(** ** Samples *)

Module CatalogSample.
#[local] Program Instance plain_catalog_machinery : CatalogMachinery Z := {|
  IsLabelKey := fun _ => [];
  AsInt64 q := if (q mod 1000000000 =? 0)%Z then Some (q / 1000000000)%Z else None;
  QuantityString q := decimal q |}.
Next Obligation.
  intros q n. simpl. destruct (Z.eqb_spec (q mod 1000000000) 0) as [Hm |]; [| done]. intros [= <-].
  pose proof (Z.div_mod q 1000000000 ltac:(lia)). lia.
Qed.

#[local] Instance any_selector : SelectorParser := {| labels_Parse := fun _ => inl [] |}.

(** Both tables, with objects as their own documents. *)
Abbreviation document := (Pool Z + TenantItem Z)%type.
Abbreviation world := (table document * table document)%type.

#[local] Program Instance pool_codec : ObjectCodec document (PoolSpec Z) unit := {|
  encode := inl; decode d := match d with inl p => Some p | inr _ => None end |}.
Next Obligation. done. Qed.
#[local] Program Instance tenant_codec : ObjectCodec document (TenantSpec Z) (TenantStatus Z) := {|
  encode := inr; decode d := match d with inr t => Some t | inl _ => None end |}.
Next Obligation. done. Qed.

Definition pools_table : RowStore world document := memory_db fst (fun t w => (t, w.2)).
Definition tenants_table : RowStore world document := memory_db snd (fun t w => (w.1, t)).
Definition no_ensure (pvc : ClaimItem Z) : api world unit := ret tt.
Definition pools : store_config world (PoolSpec Z) unit := pool_store (fun _ _ => true).
Definition tenants : store_config world (TenantSpec Z) (TenantStatus Z) := tenant_store (fun _ _ => true) no_ensure.

Lemma kept_pools : kept_db pools_table pools fst eq eq.
Proof. split; [by apply memory_laws | apply _ | by intros t t' -> | by intros t t' ->]. Qed.

Lemma kept_tenants : kept_db tenants_table tenants snd eq eq.
Proof. split; [by apply memory_laws | apply _ | by intros t t' -> | by intros t t' ->]. Qed.

Lemma no_ensure_harmless pvc : harmless snd eq (no_ensure pvc).
Proof. intros s. apply runs_ret; [apply _ | done]. Qed.

(** The provider over an empty database, and its laws. *)
#[local] Instance pool_provider : Provider world (PoolSpec Z) unit := StandaloneStore (RowStore0 := pools_table) pools.

Definition empty_table : table document := {| tb_Rows := ∅; tb_Past := ∅ |}.
Definition empty_world : world := (empty_table, empty_table).

Lemma empty_kept : kept_state (B := PoolSpec Z) (S := unit) fst empty_world.
Proof. split; [intros n r; by rw /= lookup_empty | intros n v []%not_elem_of_empty]. Qed.

Lemma pool_provider_laws : ProviderLaws (catalog_of pools fst) eq (kept_state (B := PoolSpec Z) (S := unit) fst) (fun k => k.1 = "").
Proof.
  destruct kept_pools as [HL HO HV HK]. eapply (standalone_laws (RowStore0 := pools_table)); [done | done | | | done | done].
  - intros o s. apply runs_ret; [apply _ | done].
  - intros o e. rw /= /validatePersistentResourcePool. destruct (validatePools [o]); [done |]. by intros [= <-].
Qed.

Lemma still_moves {B S} (c c' : catalog B S) : c = c' -> moves c c'.
Proof. intros -> k. split; [done |]. intros o o' Ho Ho' _. congruence. Qed.

(** A pool with one unit. *)
Definition G : Z := 1000000000.
Definition small_request : CreateUnitRequest Z :=
  {| cur_Name := "small"; cur_Description := ""; cur_Requests := {["cpu" := G]}; cur_Limits := {["cpu" := (2 * G)%Z]};
     cur_NodeSelector := ∅; cur_Annotations := ∅ |}.
Definition large_request : CreateUnitRequest Z :=
  {| cur_Name := "large"; cur_Description := "big"; cur_Requests := {["cpu" := (4 * G)%Z]}; cur_Limits := {["cpu" := (8 * G)%Z]};
     cur_NodeSelector := ∅; cur_Annotations := ∅ |}.
Definition gpu_request : CreatePoolRequest Z :=
  {| cpr_Name := "gpu"; cpr_Description := "the pool"; cpr_NodeSelector := ∅; cpr_Capacity := Some {["cpu" := (64 * G)%Z]};
     cpr_Units := [small_request]; cpr_Labels := ∅; cpr_Annotations := ∅ |}.

Definition accept (field : string) (rl : gmap string Z) : option string := None.

Definition gpu_world : world := (pool_Create accept "ann" (inl gpu_request) empty_world).2.

Lemma gpu_kept : kept_state (B := PoolSpec Z) (S := unit) fst gpu_world.
Proof.
  pose proof pool_provider_laws as HL.
  pose proof (law_p_create (objects := catalog_of pools fst) (rely := eq) (in_scope := fun k => k.1 = "") (APIToPool gpu_request "ann") empty_world empty_kept eq_refl) as Hc.
  rw /does in Hc. change gpu_world with (p_Create (APIToPool gpu_request "ann") empty_world).2.
  destruct (p_Create (APIToPool gpu_request "ann") empty_world) as [r s']. by destruct Hc.
Qed.

(** The route creates and edits units. *)
Example edit_statuses : map (fun e => reply_status (serve_edit accept "bob" "gpu" e gpu_world).1)
  [AddUnit large_request; AddUnit small_request; RemoveUnit "small"; RemoveUnit "tiny"] = [201; 409; 204; 204]%Z.
Proof. by vm_compute. Qed.

Lemma pool_edits_are_atomic_witness :
  let '(r, s') := serve_edit accept "bob" "gpu" (AddUnit large_request) gpu_world in
  kept_state (B := PoolSpec Z) (S := unit) fst s' /\ did eq (catalog_of pools fst) (edit_outcome (AddUnit large_request) "bob" "gpu" r) gpu_world s'.
Proof.
  apply (pool_edits_are_atomic accept (catalog_of pools fst) eq (kept_state (B := PoolSpec Z) (S := unit) fst) "bob" "gpu" (AddUnit large_request) gpu_world).
  - apply pool_provider_laws.
  - apply _.
  - intros c c' E. by apply still_moves.
  - apply gpu_kept.
Defined.

Lemma gpu_unique : unique_units (catalog_of pools fst gpu_world).
Proof.
  intros k p Hp. assert (p ∈ (map_to_list (items (catalog_of pools fst gpu_world))).*2) as Hin.
  { apply list_elem_of_fmap. exists (k, p). split; [done | by apply elem_of_map_to_list]. }
  apply (list_elem_of_fmap_2 (fun p : Pool Z => unit_names (pool_units p))) in Hin.
  assert ((fun p : Pool Z => unit_names (pool_units p)) <$> (map_to_list (items (catalog_of pools fst gpu_world))).*2 = [["small"]]) as Hs by (by vm_compute).
  rw Hs in Hin. apply list_elem_of_singleton in Hin. rw Hin. apply NoDup_singleton.
Qed.


Lemma standalone_implements_provider_witness :
  ProviderLaws (Provider0 := StandaloneStore (RowStore0 := pools_table) pools) (catalog_of pools fst) eq
    (kept_state (B := PoolSpec Z) (S := unit) fst) cluster_scoped /\
  ProviderLaws (Provider0 := StandaloneStore (RowStore0 := tenants_table) tenants) (catalog_of tenants snd) eq
    (kept_state (B := TenantSpec Z) (S := TenantStatus Z) snd) cluster_scoped.
Proof.
  apply (standalone_implements_provider (fun _ _ => true) (fun _ _ => true) no_ensure pools_table tenants_table fst eq eq snd eq eq).
  - apply kept_pools.
  - apply kept_tenants.
  - apply no_ensure_harmless.
Defined.

(** *** Seeding *)

(** The pool deleted; then the startup configuration is imported again. *)
Definition deleted_world : world := (pool_Delete (Q := Z) "gpu" gpu_world).2.

Definition tombstone : row document :=
  {| row_Name := "gpu"; row_Object := inl (prepared 100 "uid-1" (APIToPool gpu_request "ann")); row_ResourceVersion := 2; row_Deleted := true;
     row_CreatedAt := 100; row_UpdatedAt := 100 |}.

Lemma deletions_survive_seeding_witness :
  let c' := catalog_of pools fst (Seed (RowStore0 := pools_table) pools [APIToPool gpu_request "ann"] deleted_world).2 in
  items c' !! ("", "gpu") = items (catalog_of pools fst deleted_world) !! ("", "gpu") /\ (row_Deleted tombstone = true -> items c' !! ("", "gpu") = None).
Proof.
  apply (deletions_survive_seeding pools_table pools fst eq [APIToPool gpu_request "ann"] deleted_world "gpu" tombstone).
  - apply kept_pools.
  - by intros t t' ->.
  - vm_compute. reflexivity.
Defined.

(** A pool deleted and created again starts at version 1 again, so a patch that
    was computed from the old pool passes as one of the new. *)
Definition old_pool : option (Pool Z) := items (catalog_of pools fst gpu_world) !! ("", "gpu").
Definition new_request : CreatePoolRequest Z :=
  {| cpr_Name := "gpu"; cpr_Description := "another pool"; cpr_NodeSelector := ∅; cpr_Capacity := None; cpr_Units := [large_request];
     cpr_Labels := ∅; cpr_Annotations := ∅ |}.
Definition recreated_world : world := (pool_Create accept "cat" (inl new_request) deleted_world).2.

Example recreated_pool_is_overwritten : match old_pool with
  | None => False
  | Some old =>
      match p_Patch (set_units [] "bob" old) old recreated_world with
      | (inl o', w') => map ru_Name (pool_units o') = [] /\ map_get "" (ob_Annotations (vr_Object o')) DescriptionAnnotation = "the pool"
      | (inr _, _) => False
      end
  end.
Proof. vm_compute. by split. Qed.

(** A listing in the order of a collation that passes over hyphens, resumed in
    the order of bytes, skips a pool. *)
Definition plain_row (name : string) : row document :=
  {| row_Name := name; row_Object := inl (fresh "" name ∅ ∅ {| psp_NodeSelector := ∅; psp_Capacity := ∅; psp_Units := [] |} tt);
     row_ResourceVersion := 1; row_Deleted := false; row_CreatedAt := 1; row_UpdatedAt := 1 |}.

Example collation_skips :
  let collated := [plain_row "aa"; plain_row "a-b"] in
  match matching pools "" [] collated with
  | inr _ => False
  | inl os =>
      let '(page, token) := cut_page 1 os in
      map vr_Name page = ["aa"] /\ continue_after token = Some "aa" /\ matching pools "aa" [] collated = inl []
  end.
Proof. by vm_compute. Qed.

(** *** Quotas *)

Definition unit_of (req : CreateUnitRequest Z) : ResourceUnit Z := APIToUnit req.
Definition two_pools : gmap string (list (ResourceUnit Z)) := {["gpu" := [unit_of small_request; unit_of large_request]; "cpu" := []]}.
Definition some_quotas : list (QuotaInput Z) :=
  [{| qi_Pool := "gpu"; qi_Units := Some [{| qu_UnitName := "small"; qu_Quantity := 3 |}; {| qu_UnitName := "large"; qu_Quantity := 2 |}]; qi_Quota := None |};
   {| qi_Pool := "cpu"; qi_Units := None; qi_Quota := Some {| qr_Min := ∅; qr_Max := {["cpu" := (10 * G)%Z]} |} |}].
Definition folded_quotas : list (QuotaSpec Z) :=
  [{| qsp_Pool := "gpu"; qsp_Min := {["cpu" := (11 * G)%Z]}; qsp_Max := Some {["cpu" := (22 * G)%Z]} |};
   {| qsp_Pool := "cpu"; qsp_Min := ∅; qsp_Max := Some {["cpu" := (10 * G)%Z]} |}].

Lemma some_folded : FoldQuotas some_quotas two_pools = inl folded_quotas.
Proof. by vm_compute. Qed.

Lemma one_cpu_sane (req : CreateUnitRequest Z) a b : (0 <= a <= b)%Z -> cur_Requests req = {["cpu" := a]} -> cur_Limits req = {["cpu" := b]} -> sane_unit (unit_of req).
Proof.
  intros Hab Ha Hb. rw /sane_unit /= Ha Hb. split.
  - intros r m [<- <-]%lookup_singleton_Some. simpl. lia.
  - intros r v [<- <-]%lookup_singleton_Some. simpl. split; [lia |]. exists b. split; [by rw lookup_singleton_eq | lia].
Qed.

Lemma pools_sane : map_Forall (fun _ units => Forall sane_unit units) two_pools.
Proof.
  apply map_Forall_insert_2; [| apply map_Forall_singleton; constructor].
  apply Forall_cons. split; [apply (one_cpu_sane _ G (2 * G)); [rw /G; lia | done | done] |].
  apply Forall_cons. split; [apply (one_cpu_sane _ (4 * G) (8 * G)); [rw /G; lia | done | done] | constructor].
Qed.

Lemma folded_quotas_pass_the_operator_witness : validateQuotas folded_quotas = None.
Proof.
  apply (folded_quotas_pass_the_operator two_pools some_quotas folded_quotas).
  - apply some_folded.
  - by vm_compute.
  - apply pools_sane.
  - repeat constructor; intros units sels; [| done]. intros [= <-] [= <-]. exists "cpu", {| qu_UnitName := "small"; qu_Quantity := 3 |}, (unit_of small_request).
    split_and!; [by left | done | by eexists].
Defined.

(** An annotation that spells the number of a list in binary. *)
Fixpoint bits (p : positive) : string := match p with xH => "" | xO p => String "0" (bits p) | xI p => String "1" (bits p) end.
Fixpoint of_bits (s : string) : positive :=
  match s with EmptyString => xH | String c s => if Ascii.eqb c "0" then xO (of_bits s) else xI (of_bits s) end.

Lemma of_bits_bits p : of_bits (bits p) = p.
Proof. induction p as [p IH | p IH |]; simpl; by rw ?IH. Qed.

Definition to_code (q : QuotaInput Z) : string * list (string * Z) :=
  (qi_Pool q, map (fun u => (qu_UnitName u, qu_Quantity u)) (default [] (qi_Units q))).
Definition of_code (c : string * list (string * Z)) : QuotaInput Z :=
  {| qi_Pool := c.1; qi_Units := Some (map (fun u => {| qu_UnitName := u.1; qu_Quantity := u.2 |}) c.2); qi_Quota := None |}.

#[local] Program Instance binary_codec : QuotaCodec Z := {|
  marshal_quotas l := String "b" (bits (countable.encode (map to_code l)));
  unmarshal_quotas s := match s with String _ s => map of_code <$> countable.decode (of_bits s) | EmptyString => None end |}.
Next Obligation.
  intros l Hl. rw /= of_bits_bits countable.decode_encode /=. f_equal. rw map_map. rw -{2}(map_id l). apply map_ext_in. intros q Hq.
  rw Forall_forall in Hl. destruct (Hl q) as [[us Hu] Hn]; [by apply list_elem_of_In |]. destruct q as [pool units direct]. simpl in *. subst.
  rw /of_code /to_code /= map_map. do 2 f_equal. rw -{2}(map_id us). apply map_ext. by intros [].
Qed.
Next Obligation. done. Qed.

Definition a_tenant : TenantItem Z :=
  fresh "" "acme" {[LabelTenantID := "t-1"]} ∅
    {| tns_Namespace := {| nsp_Name := "acme"; nsp_Labels := ∅; nsp_Annotations := ∅ |}; tns_Quotas := []; tns_InitResources := no_init_resources |} TenantStatus_zero.

Lemma quota_selections_roundtrip_witness :
  tap_Quotas (TenantToAPI (set_quotas folded_quotas (QuotasToAnnotation some_quotas) "bob" a_tenant)) = some_quotas.
Proof.
  assert (two_pools !! "" = None) as Hempty by (by vm_compute).
  exact (proj1 (quota_selections_roundtrip two_pools some_quotas folded_quotas some_folded Hempty) "bob" a_tenant).
Defined.

(** *** Volumes before the conflict

    The tenants table and the volumes that exist.  A patch from an outdated
    version is refused with a conflict and leaves the table as it is, but the
    volume it declares is there. *)
Abbreviation volume_world := (table document * list string)%type.

Definition volumes_table : RowStore volume_world document := memory_db fst (fun t w => (t, w.2)).
Definition make_volume (pvc : ClaimItem Z) : api volume_world unit := fun w => (inl tt, (w.1, vr_Name pvc :: w.2)).
Definition volume_store : store_config volume_world (TenantSpec Z) (TenantStatus Z) := tenant_store (fun _ _ => true) make_volume.

Definition with_volume (t : TenantItem Z) : TenantItem Z :=
  edit (fun o => {| ob_Meta := ob_Meta o; ob_Status := ob_Status o;
    ob_Spec := {| tns_Namespace := tns_Namespace (ob_Spec o); tns_Quotas := tns_Quotas (ob_Spec o);
      tns_InitResources := {| ir_ImagePullSecrets := []; ir_Secrets := []; ir_ConfigMaps := []; ir_ServiceAccounts := [];
        ir_Volumes := [{| vol_Name := "scratch"; vol_Size := ""; vol_StorageClass := ""; vol_AccessModes := [];
                          vol_Description := ""; vol_HostPath := "" |}] |} |} |}) t.

Example volumes_before_conflict :
  let create := p_Create (Provider := StandaloneStore (RowStore0 := volumes_table) volume_store) in
  let patch := p_Patch (Provider := StandaloneStore (RowStore0 := volumes_table) volume_store) in
  match create a_tenant (empty_table, []) with
  | (inl first, w1) =>
      match patch first first w1 with
      | (inl _, w2) => patch (with_volume first) first w2 = (inr APIConflict, (w2.1, ["scratch"])) /\ w2.2 = []
      | _ => False
      end
  | _ => False
  end.
Proof. vm_compute. by split. Qed.

(** An empty list of units is folded into a quota without a maximum, which the
    tenant operator refuses. *)
Example empty_units_are_refused :
  match FoldQuotas [{| qi_Pool := "gpu"; qi_Units := Some []; qi_Quota := None |}] two_pools with
  | inl specs => validateQuotas specs <> None
  | inr _ => False
  end.
Proof. by vm_compute. Qed.

(** A unit that requests more than its limit, which [CreateUnit] accepts, folds
    into a quota that the tenant operator refuses. *)
Definition greedy_request : CreateUnitRequest Z :=
  {| cur_Name := "greedy"; cur_Description := ""; cur_Requests := {["cpu" := (2 * G)%Z]}; cur_Limits := {["cpu" := G]};
     cur_NodeSelector := ∅; cur_Annotations := ∅ |}.

Example greedy_units_are_refused :
  reply_status (serve_edit ValidateResourceList "bob" "gpu" (AddUnit greedy_request) gpu_world).1 = 201%Z /\
  match FoldQuotas [{| qi_Pool := "gpu"; qi_Units := Some [{| qu_UnitName := "greedy"; qu_Quantity := 1 |}]; qi_Quota := None |}]
          {["gpu" := [unit_of greedy_request]]} with
  | inl specs => validateQuotas specs <> None
  | inr _ => False
  end.
Proof. by vm_compute. Qed.

(** New labels for a tenant take the id away that the operator needs. *)
Definition relabel : PatchTenantRequest :=
  {| ptr_NamespaceLabels := None; ptr_NamespaceAnnotations := None; ptr_InitResources := None; ptr_Labels := Some {["team" := "a"]}; ptr_Annotations := None |}.

Example patch_drops_tenant_id : ob_Labels (vr_Object (applyTenantPatch relabel "bob" a_tenant)) !! LabelTenantID = None.
Proof. by vm_compute. Qed.

(** The reserved annotation in a request to create a tenant stays when the
    quotas are given as resources, and reads back as the units it lists. *)
Definition smuggled : CreateTenantRequest Z :=
  {| ctr_Name := "acme"; ctr_Namespace := None; ctr_Quotas := []; ctr_InitResources := None; ctr_Labels := ∅;
     ctr_Annotations := {[QuotasAnnotation := marshal_quotas
       [{| qi_Pool := "cpu"; qi_Units := Some [{| qu_UnitName := "huge"; qu_Quantity := 99 |}]; qi_Quota := None |}]]} |}.

Example smuggled_units :
  map qi_Units (tap_Quotas (TenantToAPI (APIToTenant smuggled
    [{| qsp_Pool := "cpu"; qsp_Min := ∅; qsp_Max := Some {["cpu" := G]} |}] "" "bob"))) = [Some [{| qu_UnitName := "huge"; qu_Quantity := 99 |}]].
Proof. by vm_compute. Qed.

(** *** Volumes *)

Definition a_pod : PodItem :=
  {| pod_Name := "train-0"; pod_Owners := []; pod_Phase := "Running"; pod_Claims := [("data", Some "disk")]; pod_InitMounts := [];
     pod_Mounts := [[("data", "/data")]] |}.

#[local] Instance no_claims : Provider unit (ClaimSpec Z) (ClaimStatus Z) := {|
  p_Get _ := fail APINotFound; p_List _ _ := ret ([], ""); p_Create o := ret o; p_Patch _ _ := fail APINotFound; p_Delete _ := ret tt |}.
#[local] Instance one_pod : ClusterLists unit Z := {|
  list_claims _ _ := ret []; list_pods _ := ret [a_pod]; list_classes := ret [] |}.

Lemma running_volumes_survive_witness : volume_Delete (VolumeManager0 := VolumeStore) ("acme", "disk") "" tt = (volume_in_use ("acme", "disk"), tt).
Proof.
  pose proof (running_volumes_survive ("acme", "disk") "" tt ltac:(done)) as Hs. apply Hs. exists a_pod. split; [by left |]. split_and!; [done | by exists "data"; left |].
  repeat constructor. done.
Defined.

(** A selector that does not parse is a server error in the listing of volumes,
    and a client error in the other listings. *)
Example volume_selector_status :
  let bad := {| labels_Parse := fun _ => inr "bad selector" |} in
  reply_status (volume_List (VolumeManager0 := VolumeStore (H := bad)) "acme" "a==" tt).1 = 500%Z /\
  reply_status (pool_List (H := bad) "a==" "" "" gpu_world).1 = 400%Z.
Proof. by vm_compute. Qed.
End CatalogSample.
