(* ===== verification/KubeRuntime.v ===== *)
(** * The Kubernetes adapters of compute-service

    What compute-service runs on in a cluster: [internal/kuberuntime] (the
    compute runtime over the API server), [internal/tenantresolver] (the
    namespace and the quotas of a tenant), [internal/poolcache] (pools and
    units) and [internal/kubeinventory] (the capacity snapshot of admission).

    The runtime reads from the informer cache of its manager, a
    [CachedReader], and writes to the API server; the resolver reads from the
    API server.  An update carries the version its object was read at, so
    [k_Update] takes the object that was read and the one to store.  Pods,
    events and logs are read through classes of their own. *)

From Stdlib Require Import ssreflect ZArith Ascii String Lia.
From stdpp Require Import base gmap list strings.
From S2P Require Import Prelude Placement ApiTypes Store Runtime Admission Names Strconv Listing Kube OperatorTypes ServingBase TenantTypes.

Open Scope string_scope.

(** ** Clients *)

(** [client.Update] of an object that was read before. *)
Class Updater (K B S : Type) := k_Update : object B S -> object B S -> api K (object B S).

(** A JSON merge patch as a document. *)
Inductive document := DBool (b : bool) | DObj (fields : list (string * document)).

(** [client.RawPatch(types.MergePatchType, doc)] *)
Class RawPatcher (K B S : Type) := k_RawPatch : key -> document -> api K (object B S).

(** [equality.Semantic.DeepEqual] on specs *)
Class SemanticEquality (B : Type) := {
  semantic_equal : B -> B -> bool;
  semantic_equal_refl b : semantic_equal b b = true }.

(** [corev1.Pod]: what the runtime and the inventory read.  A container is its
    requests. *)
Record Pod {Q : Type} := {
  pod_Name : string;
  pod_Namespace : string;
  pod_Labels : gmap string string;
  pod_ResourceVersion : string;
  pod_NodeName : string;
  pod_Phase : string;
  pod_Containers : list (gmap string Q);
  pod_InitContainers : list (gmap string Q);
  pod_Overhead : gmap string Q }.
Arguments Pod : clear implicits.

(** [eventsv1.Event]: the kind and name of [Regarding], and the rest. *)
Record Event := { ev_Kind : string; ev_Name : string; ev_Body : RawJSON }.

(** Lists come with their resource version; no namespace is all of them. *)
Class PodReader (Q K : Type) := {
  get_pod : key -> api K (Pod Q);
  list_pods : string -> gmap string string -> api K (string * list (Pod Q)) }.

Class EventReader (K : Type) := list_events : string -> api K (list Event).

(** [Pods(namespace).GetLogs(instance, opts).Stream] *)
Class LogStreamer (K O L : Type) := { no_options : O; stream_pod : string -> string -> O -> api K L }.

(** ** Naming *)

Definition quote (s : string) : string := String "034" (s ++ String "034" "").

(** [NamespaceResolver] *)
Class NamespaceResolver (K : Type) := ResolveNamespace : string -> api K string.

(** [identityNamespaceResolver] *)
Definition identityNamespaceResolver {K} : NamespaceResolver K := fun tenant => ret tenant.

(** [ignoreNotFound] of the error of a call. *)
Definition ignoreNotFound {K A} (m : api K A) : api K unit := (
  let* r := try m in
  match r with
  | inl _ => ret tt
  | inr e => if IsNotFound e then ret tt else fail e
  end)%api.

(** [labelsMerged]: a missing label reads as the empty string. *)
Definition labelsMerged (cur desired : gmap string string) : bool :=
  forallb (fun kv => String.eqb (map_get "" cur kv.1) kv.2) (map_to_list desired).

(** [mergeLabels] *)
Definition mergeLabels (dst src : gmap string string) : gmap string string :=
  map_fold (fun k v l => <[k := v]> l) dst src.

(** [eventTarget] *)
Record eventTarget := { tg_kind : string; tg_name : string }.

Section Runtime.
Context {Q K O L : Type} (shortHash : bytes -> bytes) (workloadTenantPrefix : bool).
Context `{!NamespaceResolver K}.

(** [physicalKey] *)
Definition physicalKey (logical : key) : api K key := (
  let* namespace := wrap ("resolve tenant " ++ quote logical.1 ++ " namespace") (ResolveNamespace logical.1) in
  if String.eqb namespace "" then fail (Errored ("resolve tenant " ++ quote logical.1 ++ " namespace: empty namespace"))
  else ret (namespace, Base shortHash logical.1 logical.2 workloadTenantPrefix))%api.

(** The copy with the physical name: annotations first, from the logical
    names, then name and namespace. *)
Definition physical_at {B S} (m : ObjectMeta) (spec : B) (zero : S) (k : key) : object B S :=
  let a := Annotate shortHash m (om_Namespace m) (om_Name m) workloadTenantPrefix in
  {| ob_Meta := {| me_Obj := {| om_Name := k.2; om_Namespace := k.1; om_Labels := om_Labels a;
                                om_Annotations := om_Annotations a |};
                   me_UID := ""; me_Generation := 0; me_Owners := [] |};
     ob_Spec := spec; ob_Status := zero |}.

Definition physical_object {B S} (m : ObjectMeta) (spec : B) (zero : S) : api K (object B S) := (
  let* k := physicalKey (om_Namespace m, om_Name m) in ret (physical_at m spec zero k))%api.

(** [physicalMLRun], [physicalMLService], [physicalMLTrafficPolicy] *)
Definition physicalMLRun (cr : MLRunCR Q) : api K (Run Q) := physical_object (rcr_Meta cr) (rcr_Spec cr) RunStatus_zero.

Definition physicalMLService (cr : MLServiceCR Q) : api K (Svc Q) :=
  physical_object (scr_Meta cr) (scr_Spec cr) MLServiceStatus_zero.

Definition physicalMLTrafficPolicy (cr : MLTrafficPolicyCR) : api K Policy :=
  physical_object (tcr_Meta cr) (tcr_Spec cr) MLTrafficPolicyStatus_zero.

(** An object with nothing but its key. *)
Definition named {B S} (k : key) (spec : B) (zero : S) : object B S :=
  {| ob_Meta := {| me_Obj := {| om_Name := k.2; om_Namespace := k.1; om_Labels := ∅; om_Annotations := ∅ |};
                   me_UID := ""; me_Generation := 0; me_Owners := [] |}; ob_Spec := spec; ob_Status := zero |}.

(** The reading half of the Apply methods: create what is absent, otherwise go
    on with what is there. *)
Definition create_or {B S} `{!CachedReader K B S} `{!Client K B S} (desired : object B S)
    (converge : object B S -> api K unit) : api K unit := (
  let* r := try (r_Get (ob_key desired)) in
  match r with
  | inl cur => converge cur
  | inr e => if IsNotFound e then let* _ := k_Create desired in ret tt else fail e
  end)%api.

(** What [runLabelID] and [serviceLabelID] do for their kind: the id label of
    the object, and its physical key. *)
Definition labelID {B S} `{!CachedReader K B S} (what label : string) (logical : key) : api K (string * key) := (
  let* k := physicalKey logical in
  let* cr := (r_Get k : api K (object B S)) in
  let id := map_get "" (ob_Labels cr) label in
  if String.eqb id "" then
    fail (Errored (what ++ " " ++ logical.1 ++ "/" ++ logical.2 ++ " missing " ++ label ++ " label"))
  else ret (id, k))%api.

(** ** Runs *)

Section Runs.
Context `{!CachedReader K (MLRunSpec Q) RunStatus} `{!Client K (MLRunSpec Q) RunStatus}
  `{!RawPatcher K (MLRunSpec Q) RunStatus}.

(** [ApplyMLRun] *)
Definition ApplyMLRun (desired : MLRunCR Q) : api K unit := (
  let* desired := physicalMLRun desired in create_or desired (fun _ => ret tt))%api.

(** [ObserveMLRun] *)
Definition ObserveMLRun (k : key) : api K RunStatus := (
  let* k := physicalKey k in
  let* cr := (r_Get k : api K (Run Q)) in ret (ob_Status cr))%api.

Definition suspend_patch (b : bool) : document := DObj [("spec", DObj [("runPolicy", DObj [("suspend", DBool b)])])].

(** [CancelMLRun] *)
Definition CancelMLRun (k : key) : api K unit := (
  let* k := physicalKey k in ignoreNotFound (k_RawPatch k (suspend_patch true) : api K (Run Q)))%api.

(** The spec of an object that only names what to delete. *)
Definition no_run : MLRunSpec Q :=
  {| rsp_Backend := {| be_Name := ""; be_Engine := ""; be_Config := None |};
     rsp_Scheduling := {| sc_Quota := ""; sc_PriorityClass := ""; sc_NodeSelector := ∅; sc_Tolerations := [] |};
     rsp_ConfigMaps := []; rsp_Roles := []; rsp_RunPolicy := RunPolicySpec_zero |}.

(** [DeleteMLRun] *)
Definition DeleteMLRun (k : key) : api K unit := (
  let* k := physicalKey k in ignoreNotFound (k_Delete (named k no_run RunStatus_zero)))%api.

(** [runLabelID] *)
Definition runLabelID : key -> api K (string * key) := labelID (B := MLRunSpec Q) (S := RunStatus) "mlrun" LabelRunID.
End Runs.

(** ** Services *)

Section Services.
Context `{!CachedReader K (MLServiceSpec Q) MLServiceStatus} `{!Client K (MLServiceSpec Q) MLServiceStatus}
  `{!Updater K (MLServiceSpec Q) MLServiceStatus} `{!SemanticEquality (MLServiceSpec Q)}.

(** [ApplyMLService]: nothing is written when nothing changed. *)
Definition ApplyMLService (desired : MLServiceCR Q) : api K unit := (
  let* desired := physicalMLService desired in
  create_or desired (fun cur =>
    if semantic_equal (ob_Spec cur) (ob_Spec desired) && labelsMerged (ob_Labels cur) (ob_Labels desired) then ret tt
    else
      let* _ := k_Update cur (set_labels (mergeLabels (ob_Labels cur) (ob_Labels desired)) (set_spec (ob_Spec desired) cur)) in
      ret tt))%api.

(** [ObserveMLService] *)
Definition ObserveMLService (k : key) : api K MLServiceStatus := (
  let* k := physicalKey k in
  let* cr := (r_Get k : api K (Svc Q)) in ret (ob_Status cr))%api.

Definition no_service : MLServiceSpec Q :=
  {| ssp_Backend := {| be_Name := ""; be_Engine := ""; be_Config := None |};
     ssp_Scheduling := {| sc_Quota := ""; sc_PriorityClass := ""; sc_NodeSelector := ∅; sc_Tolerations := [] |};
     ssp_ConfigMaps := []; ssp_Roles := []; ssp_ProgressDeadlineSeconds := None; ssp_Route := None |}.

(** [DeleteMLService] *)
Definition DeleteMLService (k : key) : api K unit := (
  let* k := physicalKey k in ignoreNotFound (k_Delete (named k no_service MLServiceStatus_zero)))%api.

(** [serviceLabelID] *)
Definition serviceLabelID : key -> api K (string * key) :=
  labelID (B := MLServiceSpec Q) (S := MLServiceStatus) "mlservice" LabelServiceID.
End Services.

(** ** Policies *)

Section Policies.
Context `{!CachedReader K MLTrafficPolicySpec MLTrafficPolicyStatus} `{!Client K MLTrafficPolicySpec MLTrafficPolicyStatus}
  `{!Updater K MLTrafficPolicySpec MLTrafficPolicyStatus}.

(** [ApplyMLTrafficPolicy] *)
Definition ApplyMLTrafficPolicy (desired : MLTrafficPolicyCR) : api K unit := (
  let* desired := physicalMLTrafficPolicy desired in
  create_or desired (fun cur =>
    let* _ := k_Update cur (set_labels (mergeLabels (ob_Labels cur) (ob_Labels desired)) (set_spec (ob_Spec desired) cur)) in
    ret tt))%api.

(** [ObserveMLTrafficPolicy] *)
Definition ObserveMLTrafficPolicy (k : key) : api K MLTrafficPolicyStatus := (
  let* k := physicalKey k in
  let* cr := (r_Get k : api K Policy) in ret (ob_Status cr))%api.

Definition no_policy : MLTrafficPolicySpec :=
  {| tsp_Backend := {| be_Name := ""; be_Engine := ""; be_Config := None |}; tsp_Mode := "";
     tsp_Endpoint := {| ep_Path := ""; ep_Hostname := ""; ep_Auth := None |}; tsp_Backends := [] |}.

(** [DeleteMLTrafficPolicy] *)
Definition DeleteMLTrafficPolicy (k : key) : api K unit := (
  let* k := physicalKey k in ignoreNotFound (k_Delete (named k no_policy MLTrafficPolicyStatus_zero)))%api.
End Policies.

(** ** Instances, logs and events *)

Section Instances.
Context `{!PodReader Q K} `{!EventReader K} `{!LogStreamer K O L}.

(** [listPodsByLabel] *)
Definition listPodsByLabel (namespace labelKey labelValue : string) : api K (list (Pod Q)) := (
  let* pods := list_pods namespace {[labelKey := labelValue]} in ret pods.2)%api.

Definition ErrInstanceNotOwned : api_error := Errored "instance does not belong to this workload".

(** [verifyInstance] *)
Definition verifyInstance (namespace instance labelKey labelValue : string) : api K unit := (
  let* p := get_pod (Q := Q) (namespace, instance) in
  if negb (String.eqb (map_get "" (pod_Labels p) labelKey) labelValue)
  then fail (Wrapped ("instance " ++ namespace ++ "/" ++ instance) ErrInstanceNotOwned) else ret tt)%api.

(** [streamLogs] *)
Definition streamLogs (namespace instance : string) (opts : option O) : api K L :=
  stream_pod namespace instance (default no_options opts).

(** [eventsFor]: an event that several targets name is taken once. *)
Definition regards (targets : list eventTarget) (e : Event) : bool :=
  existsb (fun t => String.eqb (ev_Kind e) (tg_kind t) && String.eqb (ev_Name e) (tg_name t)) targets.

Definition eventsFor (namespace : string) (targets : list eventTarget) : api K (list Event) := (
  let* all := list_events namespace in ret (List.filter (regards targets) all))%api.

(** What the instance methods of both kinds do once they know the id. *)
Definition list_instances (labelKey : string) (ident : api K (string * key)) : api K (list (Pod Q)) := (
  let* r := try ident in
  match r with
  | inr e => if IsNotFound e then ret [] else fail e
  | inl (id, physical) => listPodsByLabel physical.1 labelKey id
  end)%api.

Definition instance_logs (labelKey : string) (ident : api K (string * key)) (instance : string) (opts : option O) : api K L := (
  let* found := ident in
  let* _ := verifyInstance found.2.1 instance labelKey found.1 in
  streamLogs found.2.1 instance opts)%api.

Definition instance_events (labelKey : string) (ident : api K (string * key)) (instance : string) : api K (list Event) := (
  let* found := ident in
  let* _ := verifyInstance found.2.1 instance labelKey found.1 in
  eventsFor found.2.1 [{| tg_kind := "Pod"; tg_name := instance |}])%api.

(** A read in which a missing object is an empty one with its key. *)
Definition get_or_named {B S} `{!CachedReader K B S} (k : key) (spec : B) (zero : S) : api K (object B S) := (
  let* r := try (r_Get k) in
  match r with
  | inl o => ret o
  | inr e => if IsNotFound e then ret (named k spec zero) else fail e
  end)%api.

Section RunInstances.
Context `{!CachedReader K (MLRunSpec Q) RunStatus}.

(** [ListMLRunInstances], [GetMLRunInstanceLogs], [GetMLRunInstanceEvents] *)
Definition ListMLRunInstances (k : key) : api K (list (Pod Q)) := list_instances LabelRunID (runLabelID k).

Definition GetMLRunInstanceLogs (k : key) (instance : string) (opts : option O) : api K L :=
  instance_logs LabelRunID (runLabelID k) instance opts.

Definition GetMLRunInstanceEvents (k : key) (instance : string) : api K (list Event) :=
  instance_events LabelRunID (runLabelID k) instance.

(** The name of the first role, or the default one. *)
Definition first_role_name (roles : list (RoleSpec Q)) (default_name : string) : string :=
  match roles with
  | role :: _ => if negb (String.eqb (ro_Name role) "") then ro_Name role else default_name
  | [] => default_name
  end.

(** [GetMLRunEvents] *)
Definition GetMLRunEvents (k : key) : api K (list Event) := (
  let* physical := physicalKey k in
  let* cr := (get_or_named physical no_run RunStatus_zero : api K (Run Q)) in
  let role := first_role_name (rsp_Roles (ob_Spec cr)) DefaultRoleName in
  eventsFor physical.1
    [{| tg_kind := "MLRun"; tg_name := physical.2 |};
     {| tg_kind := "Job"; tg_name := Role shortHash (me_Obj (ob_Meta cr)) role |};
     {| tg_kind := "PodGroup"; tg_name := physical.2 |}])%api.
End RunInstances.

Section ServiceInstances.
Context `{!CachedReader K (MLServiceSpec Q) MLServiceStatus}.

(** [ListMLServiceInstances], [GetMLServiceInstanceLogs],
    [GetMLServiceInstanceEvents] *)
Definition ListMLServiceInstances (k : key) : api K (list (Pod Q)) := list_instances LabelServiceID (serviceLabelID k).

Definition GetMLServiceInstanceLogs (k : key) (instance : string) (opts : option O) : api K L :=
  instance_logs LabelServiceID (serviceLabelID k) instance opts.

Definition GetMLServiceInstanceEvents (k : key) (instance : string) : api K (list Event) :=
  instance_events LabelServiceID (serviceLabelID k) instance.

(** [GetMLServiceEvents] *)
Definition GetMLServiceEvents (k : key) : api K (list Event) := (
  let* physical := physicalKey k in
  let* cr := (get_or_named physical no_service MLServiceStatus_zero : api K (Svc Q)) in
  let role := first_role_name (ssp_Roles (ob_Spec cr)) PredictorRoleName in
  let workload := Workload (me_Obj (ob_Meta cr)) in
  let roleWorkload := Role shortHash (me_Obj (ob_Meta cr)) role in
  eventsFor physical.1
    [{| tg_kind := "MLService"; tg_name := physical.2 |}; {| tg_kind := "Deployment"; tg_name := roleWorkload |};
     {| tg_kind := "StatefulSet"; tg_name := roleWorkload |}; {| tg_kind := "Service"; tg_name := workload |};
     {| tg_kind := "HTTPRoute"; tg_name := workload |}])%api.
End ServiceInstances.

(** [GetMLTrafficPolicyEvents] *)
Definition GetMLTrafficPolicyEvents `{!CachedReader K MLTrafficPolicySpec MLTrafficPolicyStatus} (k : key) : api K (list Event) := (
  let* physical := physicalKey k in
  let* cr := (get_or_named physical no_policy MLTrafficPolicyStatus_zero : api K Policy) in
  eventsFor physical.1
    [{| tg_kind := "MLTrafficPolicy"; tg_name := physical.2 |};
     {| tg_kind := "HTTPRoute"; tg_name := Workload (me_Obj (ob_Meta cr)) |}])%api.
End Instances.
End Runtime.

(** ** internal/tenantresolver *)

Section TenantResolver.
Context {Q K : Type} `{!Client K (TenantSpec Q) (TenantStatus Q)}.

(** [ResolveNamespace]: without a Tenant the logical name is the namespace. *)
Definition tenant_namespace (tenant : string) : api K string := (
  let* r := try (k_Get ("", tenant) : api K (Tenant Q)) in
  match r with
  | inr e => if IsNotFound e then ret tenant else fail (Wrapped ("read Tenant " ++ quote tenant) e)
  | inl cr =>
      if String.eqb (nsp_Name (tns_Namespace (ob_Spec cr))) ""
      then fail (Errored ("tenant " ++ quote tenant ++ " has empty spec.namespace.name"))
      else ret (nsp_Name (tns_Namespace (ob_Spec cr)))
  end)%api.

#[export] Instance tenantresolver : NamespaceResolver K := tenant_namespace.

(** [ResolveQuota] *)
Definition ResolveQuota (tenant pool : string) : api K (gmap string Q) := (
  let* cr := wrap ("read Tenant " ++ quote tenant) (k_Get ("", tenant) : api K (Tenant Q)) in
  match List.find (fun q => String.eqb (qsp_Pool q) pool) (tns_Quotas (ob_Spec cr)) with
  | Some quota => ret (default ∅ (qsp_Max quota))
  | None => fail (Errored ("tenant " ++ quote tenant ++ " has no quota for resource pool " ++ quote pool))
  end)%api.
End TenantResolver.

(** ** internal/poolcache *)

(** The API error under an error of compute-service: that an object is missing
    is looked for, of everything else the text is kept. *)
Definition lowered (e : api_error) : error := if IsNotFound e then ErrAPINotFound else ErrOther (error_text e).

Section PoolCache.
Context {Q : Type} (get_pool : string -> ResourcePool Q + api_error).

(** [ResolveResourcePool] *)
Definition cached_pool (name : string) : ResourcePool Q + error :=
  if String.eqb name "" then inr (New CodeValidation "poolName is required")
  else match get_pool name with
       | inl pool => inl pool
       | inr e => if IsNotFound e then inr (New CodeValidation ("resource pool " ++ quote name ++ " not found"))
                  else inr (Wrap CodeUnavailable ("read ResourcePool " ++ quote name) (lowered e))
       end.

(** [ResolveResourceUnit] *)
Definition cached_unit (poolName unitName : string) : ResourceUnit Q + error :=
  if String.eqb unitName "" then inr (New CodeValidation "unitName is required")
  else match cached_pool poolName with
       | inr e => inr e
       | inl pool =>
           match List.find (fun u => String.eqb (ru_Name u) unitName) (po_Units pool) with
           | Some u => inl u
           | None => inr (New CodeValidation ("resource unit " ++ quote unitName ++ " not found in pool " ++ quote poolName))
           end
       end.

Definition poolcache : ResourceResolver Q := {| ResolveResourcePool := cached_pool; ResolveResourceUnit := cached_unit |}.
End PoolCache.

(** ** internal/kubeinventory *)

(** [corev1.Node] *)
Record NodeCondition := { nc_Type : string; nc_Status : string }.

Record Node {Q : Type} := {
  nd_Name : string;
  nd_Labels : gmap string string;
  nd_ResourceVersion : string;
  nd_Unschedulable : bool;
  nd_Taints : list Taint;
  nd_Allocatable : gmap string Q;
  nd_Conditions : list NodeCondition }.
Arguments Node : clear implicits.

Class NodeReader (Q K : Type) := list_nodes : api K (string * list (Node Q)).

Section Inventory.
Context {Q K : Type} `{!Quantity Q} `{!NodeReader Q K} `{!PodReader Q K}.
(** The first eight bytes of a SHA-256 sum, in hexadecimal. *)
Context (sum8 : string -> string).

(** [nodeReady]: the first condition of the type decides. *)
Definition nodeReady (node : Node Q) : bool :=
  match List.find (fun c => String.eqb (nc_Type c) "Ready") (nd_Conditions node) with
  | Some c => String.eqb (nc_Status c) "True"
  | None => false
  end.

(** [add] *)
Definition add (dst src : gmap string Q) : gmap string Q := sumLists dst src.

(** One init container: every name of it is raised on its own. *)
Definition raise_entry (current quantity : option Q) : option Q :=
  match quantity with
  | None => current
  | Some q => match q_cmp q (default q_zero current) with Gt => Some q | _ => current end
  end.

Definition raise (requests init : gmap string Q) : gmap string Q := merge raise_entry requests init.

(** [podRequests] *)
Definition podRequests (pod : Pod Q) : gmap string Q :=
  let requests := foldl add ∅ (pod_Containers pod) in
  let requests := foldl raise requests (pod_InitContainers pod) in
  add requests (pod_Overhead pod).

(** The loop bodies of [Snapshot]. *)
Definition snapshot_node (node : Node Q) : option (ResourceNode Q) :=
  if nd_Unschedulable node || negb (nodeReady node) then None
  else Some {| rn_Name := nd_Name node; rn_Labels := nd_Labels node; rn_Taints := nd_Taints node;
               rn_Allocatable := copyList (nd_Allocatable node) |}.

Definition bound (pod : Pod Q) : bool :=
  negb (String.eqb (pod_NodeName pod) "" || String.eqb (pod_Phase pod) "Succeeded" || String.eqb (pod_Phase pod) "Failed").

Definition pod_allocation (pod : Pod Q) : ResourceAllocation Q :=
  let run := map_get "" (pod_Labels pod) LabelRunID in
  {| ra_NodeName := pod_NodeName pod;
     ra_WorkloadID := if String.eqb run "" then map_get "" (pod_Labels pod) LabelServiceID else run;
     ra_Role := map_get "" (pod_Labels pod) LabelRole; ra_Replica := pod_Name pod; ra_Requests := podRequests pod |}.

Definition snapshot_pod (pod : Pod Q) : option (ResourceAllocation Q) :=
  if bound pod then Some (pod_allocation pod) else None.

(** [snapshotVersion]; every version is followed by a zero byte. *)
Definition snapshotVersion (nodes : string * list (Node Q)) (pods : string * list (Pod Q)) : string :=
  let node_version n := "node/" ++ nd_Name n ++ "=" ++ nd_ResourceVersion n in
  let pod_version (p : Pod Q) := "pod/" ++ pod_Namespace p ++ "/" ++ pod_Name p ++ "=" ++ pod_ResourceVersion p in
  let versions := (["nodes=" ++ nodes.1; "pods=" ++ pods.1]%string ++ map node_version nodes.2 ++ map pod_version pods.2)%list in
  "kubernetes:" ++ sum8 (foldr (fun v rest => v ++ String "000" rest) "" (sort_slice str_lt versions)).

(** [Snapshot], without its time stamp. *)
Definition Snapshot : api K (ResourceSnapshot Q * string) := (
  let* nodes := list_nodes in
  let* pods := list_pods "" ∅ in
  ret ({| rs_Nodes := omap snapshot_node nodes.2; rs_Allocations := omap snapshot_pod pods.2 |},
       snapshotVersion nodes pods))%api.
End Inventory.

(** ** The seam

    The adapter as the [ComputeRuntime] compute-service is written against:
    its state is the one the calls made so far have led to. *)

Section Seam.
Context {Q K : Type} (shortHash : bytes -> bytes) (prefix : bool) `{!NamespaceResolver K}.
Context `{!CachedReader K (MLRunSpec Q) RunStatus} `{!Client K (MLRunSpec Q) RunStatus} `{!RawPatcher K (MLRunSpec Q) RunStatus}.
Context `{!CachedReader K (MLServiceSpec Q) MLServiceStatus} `{!Client K (MLServiceSpec Q) MLServiceStatus}
  `{!Updater K (MLServiceSpec Q) MLServiceStatus} `{!SemanticEquality (MLServiceSpec Q)}.
Context `{!CachedReader K MLTrafficPolicySpec MLTrafficPolicyStatus} `{!Client K MLTrafficPolicySpec MLTrafficPolicyStatus}
  `{!Updater K MLTrafficPolicySpec MLTrafficPolicyStatus}.
Context `{!PodReader Q K}.

Definition perform (c : call Q) (s : K) : K :=
  match c with
  | CApplyMLRun cr => (ApplyMLRun shortHash prefix cr s).2
  | CObserveMLRun k => (ObserveMLRun (Q := Q) shortHash prefix k s).2
  | CCancelMLRun k => (CancelMLRun (Q := Q) shortHash prefix k s).2
  | CDeleteMLRun k => (DeleteMLRun (Q := Q) shortHash prefix k s).2
  | CListMLRunInstances k => (ListMLRunInstances (Q := Q) shortHash prefix k s).2
  | CApplyMLService cr => (ApplyMLService shortHash prefix cr s).2
  | CObserveMLService k => (ObserveMLService (Q := Q) shortHash prefix k s).2
  | CDeleteMLService k => (DeleteMLService (Q := Q) shortHash prefix k s).2
  | CListMLServiceInstances k => (ListMLServiceInstances (Q := Q) shortHash prefix k s).2
  | CApplyMLTrafficPolicy cr => (ApplyMLTrafficPolicy shortHash prefix cr s).2
  | CObserveMLTrafficPolicy k => (ObserveMLTrafficPolicy shortHash prefix k s).2
  | CDeleteMLTrafficPolicy k => (DeleteMLTrafficPolicy shortHash prefix k s).2
  end.

Definition replay (s : K) (calls : list (call Q)) : K := foldl (fun s c => perform c s) s calls.

Definition answered (r : (unit + api_error) * K) : option error :=
  match r.1 with inl _ => None | inr e => Some (lowered e) end.

Definition observed {A A'} (f : A -> A') (r : (A + api_error) * K) : A' + error :=
  match r.1 with inl a => inl (f a) | inr e => inr (lowered e) end.

Definition kubernetes_runtime (s : K) : ComputeRuntime Q := {|
  rt_ApplyMLRun h cr := answered (ApplyMLRun shortHash prefix cr (replay s h));
  rt_ObserveMLRun h k := observed observed_status (ObserveMLRun (Q := Q) shortHash prefix k (replay s h));
  rt_CancelMLRun h k := answered (CancelMLRun (Q := Q) shortHash prefix k (replay s h));
  rt_DeleteMLRun h k := answered (DeleteMLRun (Q := Q) shortHash prefix k (replay s h));
  rt_ListMLRunInstances h k := observed length (ListMLRunInstances (Q := Q) shortHash prefix k (replay s h));
  rt_ApplyMLService h cr := answered (ApplyMLService shortHash prefix cr (replay s h));
  rt_ObserveMLService h k := observed observed_service (ObserveMLService (Q := Q) shortHash prefix k (replay s h));
  rt_DeleteMLService h k := answered (DeleteMLService (Q := Q) shortHash prefix k (replay s h));
  rt_ListMLServiceInstances h k := observed length (ListMLServiceInstances (Q := Q) shortHash prefix k (replay s h));
  rt_ApplyMLTrafficPolicy h cr := answered (ApplyMLTrafficPolicy shortHash prefix cr (replay s h));
  rt_ObserveMLTrafficPolicy h k := observed observed_policy (ObserveMLTrafficPolicy shortHash prefix k (replay s h));
  rt_DeleteMLTrafficPolicy h k := answered (DeleteMLTrafficPolicy shortHash prefix k (replay s h)) |}.
End Seam.
