(* ===== verification/KubeRuntimeProperties.v ===== *)
(** * The Kubernetes adapters: theorems

    What the runtime over the API server promises to compute-service, that the
    answers about instances concern the workload's own pods, and what the
    inventory counts.  The laws of the clients are those of [Kube], together
    with updates at a version, the one raw patch, and the reads of pods. *)

From Stdlib Require Import ssreflect ZArith Ascii String Lia.
From stdpp Require Import base gmap list strings sorting.
From S2P Require Import Prelude Placement ApiTypes Store Runtime Names Strconv Listing Kube OperatorTypes OperatorRun OperatorSample ServingBase OperatorService OperatorPolicy ServingSample TenantTypes KubeRuntime.

Open Scope string_scope.

(** ** What the runtime promises *)

(** The labels of [desired] read from [l] as they are there. *)
Definition shows (desired l : gmap string string) : Prop := forall k v, desired !! k = Some v -> map_get "" l k = v.

Lemma labelsMerged_shows cur desired : labelsMerged cur desired = true <-> shows desired cur.
Proof.
  rw /labelsMerged forallb_forall /shows. split.
  - intros H k v Hk. apply String.eqb_eq, (H (k, v)), list_elem_of_In, elem_of_map_to_list, Hk.
  - intros H [k v] Hin%list_elem_of_In%elem_of_map_to_list. by apply String.eqb_eq, H.
Qed.

Lemma mergeLabels_union dst src : mergeLabels dst src = src ∪ dst.
Proof.
  rw /mergeLabels. apply (map_fold_weak_ind (fun out src => out = src ∪ dst)).
  - by rw map_empty_union.
  - intros k v m out Hk ->. by rw insert_union_l.
Qed.

Lemma mergeLabels_shows dst src : shows src (mergeLabels dst src).
Proof. intros k v Hk. by rw mergeLabels_union /map_get (lookup_union_Some_l _ _ _ _ Hk). Qed.

Lemma shows_refl l : shows l l.
Proof. intros k v Hk. by rw /map_get Hk. Qed.

Section Contract.
Context {C K : Type} (objects : K -> C) (rely : C -> C -> Prop) `{!Reflexive rely} `{!Transitive rely}.
#[local] Abbreviation did := (did rely objects).

(** Resolving a namespace reads only. *)
Class ResolverLaws `{!NamespaceResolver K} : Prop :=
  law_resolve tenant s : did unchanged s (ResolveNamespace tenant s).2.

(** An update succeeds on the object it was read from: the version is part of
    it.  Its metadata is stored, the status is a subresource and stays. *)
Definition updated {B S} `{!Kind C B S} (before after o' : object B S) (c c' : C) : Prop :=
  tab c !! ob_key before = Some before /\ me_Obj (ob_Meta o') = me_Obj (ob_Meta after) /\
  defaulted (C := C) (ob_Spec after) (ob_Spec o') /\ ob_Status o' = ob_Status before /\
  c' = set_tab (<[ob_key before := o']> (tab c)) c.

Class UpdaterLaws {B S} `{!Kind C B S} `{!Updater K B S} : Prop :=
  law_update (before after : object B S) s : ob_key after = ob_key before ->
    match k_Update before after s with
    | (inl o', s') => did (updated before after o') s s'
    | (inr _, s') => did (fun c c' => c' = c \/ exists o', updated before after o' c c') s s'
    end.

Definition suspended {Q} (b : bool) (spec : MLRunSpec Q) : MLRunSpec Q :=
  let p := rsp_RunPolicy spec in
  {| rsp_Backend := rsp_Backend spec; rsp_Scheduling := rsp_Scheduling spec; rsp_ConfigMaps := rsp_ConfigMaps spec;
     rsp_Roles := rsp_Roles spec;
     rsp_RunPolicy := {| rp_Suspend := b; rp_ActiveDeadlineSeconds := rp_ActiveDeadlineSeconds p;
                         rp_TTLSecondsAfterFinished := rp_TTLSecondsAfterFinished p; rp_BackoffLimit := rp_BackoffLimit p |} |}.

(** A merge patch sets the one field its document mentions. *)
Definition suspended_at {Q} `{!Kind C (MLRunSpec Q) RunStatus} (b : bool) (k : key) (c c' : C) : Prop :=
  exists o o' : Run Q, tab c !! k = Some o /\ ob_Spec o' = suspended b (ob_Spec o) /\ me_Obj (ob_Meta o') = me_Obj (ob_Meta o) /\
    ob_Owners o' = ob_Owners o /\ ob_UID o' = ob_UID o /\ ob_Status o' = ob_Status o /\ c' = set_tab (<[k := o']> (tab c)) c.

Class RunPatchLaws {Q} `{!Kind C (MLRunSpec Q) RunStatus} `{!RawPatcher K (MLRunSpec Q) RunStatus} : Prop :=
  law_suspend b k s :
    match k_RawPatch k (suspend_patch b) s with
    | (inl _, s') => did (suspended_at (Q := Q) b k) s s'
    | (inr e, s') => did (fun c c' => if IsNotFound e then c' = c /\ tab c !! k = None
                                      else c' = c \/ suspended_at (Q := Q) b k c c') s s'
    end.

Lemma did_refl s : did unchanged s s.
Proof. by exists (objects s), (objects s). Qed.

Lemma did_then E s s1 s2 : did unchanged s s1 -> did E s1 s2 -> did E s s2.
Proof.
  intros (c & c' & H1 & -> & H2) (d & d' & H3 & He & H4). exists d, d'. split_and!; [| done | done].
  etrans; [exact H1 |]. by etrans.
Qed.

Lemma did_weaken (E E' : C -> C -> Prop) s s' : (forall c c', E c c' -> E' c c') -> did E s s' -> did E' s s'.
Proof. intros HE (c & c' & H1 & He & H2). exists c, c'. by auto. Qed.

(** At most the object under [k] changes. *)
Definition touched {B S} `{!Kind C B S} (k : key) (c c' : C) : Prop :=
  c' = c \/ exists t : gmap key (object B S), (forall k', k' <> k -> t !! k' = tab c !! k') /\ c' = set_tab t c.

Lemma touched_insert {B S} `{!Kind C B S} k (o : object B S) c : touched (B := B) (S := S) k c (set_tab (<[k := o]> (tab c)) c).
Proof. right. eexists. split; [| done]. intros k' Hk. by rw lookup_insert_ne. Qed.

Lemma touched_delete {B S} `{!Kind C B S} k c : touched (B := B) (S := S) k c (set_tab (delete k (tab c)) c).
Proof. right. eexists. split; [| done]. intros k' Hk. by rw lookup_delete_ne. Qed.

(** The physical key of a logical one, when its namespace resolves. *)
Definition physical `{!NamespaceResolver K} (shortHash : bytes -> bytes) (prefix : bool) (l : key) (s : K) : option key :=
  match (ResolveNamespace l.1 s).1 with
  | inl namespace => if String.eqb namespace "" then None else Some (namespace, Base shortHash l.1 l.2 prefix)
  | inr _ => None
  end.

(** A call answered from the cache, which showed [P] under this key. *)
Definition shown {B S} `{!CachedReader K B S} (k : key) (P : object B S -> Prop) (s s' : K) : Prop :=
  exists s1 cur, did unchanged s s1 /\ r_Get k s1 = (inl cur, s') /\ P cur.

(** Reading first makes no difference. *)
Class Prefixed (good : K -> K -> Prop) : Prop := prefixed s s1 s2 : did unchanged s s1 -> good s1 s2 -> good s s2.

#[export] Instance prefixed_did E : Prefixed (did E).
Proof. intros s s1 s2. apply did_then. Qed.

#[export] Instance prefixed_shown {B S} `{!CachedReader K B S} k (P : object B S -> Prop) : Prefixed (shown k P).
Proof. intros s s1 s2 H1 (s3 & cur & H2 & Hg & HP). exists s3, cur. split_and!; [by eapply did_then | done | done]. Qed.

#[export] Instance prefixed_or (E F : K -> K -> Prop) : Prefixed E -> Prefixed F -> Prefixed (fun s s' => E s s' \/ F s s').
Proof. intros HE HF s s1 s2 H1 [H2 | H2]; [left; by eapply HE | right; by eapply HF]. Qed.

(** What a call on one object does: [good] when it succeeds; otherwise it may
    or may not have happened to this object.  Without a physical key it fails
    and nothing happens. *)
Definition outcome_at {A B S} `{!Kind C B S} (k : key) (good : A -> K -> K -> Prop) (s : K) (r : (A + api_error) * K) : Prop :=
  match r with
  | (inl a, s') => good a s s'
  | (inr _, s') => did (touched (B := B) (S := S) k) s s'
  end.

Definition outcome {A B S} `{!Kind C B S} (k : option key) (good : key -> A -> K -> K -> Prop) (s : K) (r : (A + api_error) * K) : Prop :=
  match k with
  | Some k => outcome_at (B := B) (S := S) k (good k) s r
  | None => (exists e, r.1 = inr e) /\ did unchanged s r.2
  end.

Lemma outcome_then {A B S} `{!Kind C B S} k (good : A -> K -> K -> Prop) `{!forall a, Prefixed (good a)} s s1 r :
  did unchanged s s1 -> outcome_at (B := B) (S := S) k good s1 r -> outcome_at (B := B) (S := S) k good s r.
Proof. intros H1. destruct r as [[a | e] s2]; simpl; [by apply prefixed | by apply did_then]. Qed.

Lemma outcome_weaken {A B S} `{!Kind C B S} k (good good' : key -> A -> K -> K -> Prop) s r :
  (forall k a s s', good k a s s' -> good' k a s s') -> outcome (B := B) (S := S) k good s r -> outcome (B := B) (S := S) k good' s r.
Proof. intros Hg. rw /outcome /outcome_at. destruct k, r as [[a | e] s2]; simpl; auto. Qed.

Section Physical.
Context `{!NamespaceResolver K} `{!ResolverLaws} (shortHash : bytes -> bytes) (prefix : bool).

Lemma outcome_physical {A B S} `{!Kind C B S} (f : key -> api K A) good `{!forall k a, Prefixed (good k a)} l s :
  (forall k s, outcome_at (B := B) (S := S) k (good k) s (f k s)) ->
  outcome (B := B) (S := S) (physical shortHash prefix l s) good s (bind (physicalKey shortHash prefix l) f s).
Proof.
  intros Hf. pose proof (law_resolve l.1 s) as Hr. rw /physical /physicalKey /bind /wrap.
  destruct (ResolveNamespace l.1 s) as [[namespace | e] s1]; simpl in *; [| by split; [eexists |]].
  destruct (String.eqb namespace ""); simpl; [by split; [eexists |] |]. eapply outcome_then; [apply _ | done | apply Hf].
Qed.

Lemma bind_physical_object {A B S} m (spec : B) (zero : S) (f : object B S -> api K A) s :
  bind (physical_object shortHash prefix m spec zero) f s =
  bind (physicalKey shortHash prefix (om_Namespace m, om_Name m)) (fun k => f (physical_at shortHash prefix m spec zero k)) s.
Proof. rw /physical_object /bind. by destruct (physicalKey _ _ _ s) as [[k | e] s1]. Qed.
End Physical.

Section OneKind.
Context {B S : Type} `{!Kind C B S} `{!CachedReader K B S} `{!Client K B S}.
Context `{!CachedLaws (B := B) (S := S) (fun _ => true) objects rely} `{!ClientLaws (B := B) (S := S) objects rely}.
#[local] Abbreviation outcome_at := (outcome_at (B := B) (S := S)).

Lemma create_or_outcome (desired : object B S) converge (E : C -> C -> Prop) (P : object B S -> Prop) s :
  let k := ob_key desired in let good := fun (_ : unit) s s' => did E s s' \/ shown k P s s' in
  (forall c o', tab c !! k = None -> stored desired o' -> E c (put o' c)) ->
  (forall cur s1 s2, did unchanged s1 s2 -> r_Get k s1 = (inl cur, s2) -> ob_key cur = k -> outcome_at k good s1 (converge cur s2)) ->
  outcome_at k good s (create_or desired converge s).
Proof.
  intros k good Hnew Hold. rw /create_or /bind /try. pose proof (law_cached_get (visible := fun _ : object B S => true) k s) as Hg.
  fold k. destruct (r_Get k s) as [[cur | e] s1] eqn:Hr.
  - assert (ob_key cur = k) by by destruct Hg as (? & ? & _ & (_ & ? & _) & _).
    apply (Hold cur s s1); [| done | done]. eapply did_weaken; [| exact Hg]. by intros c c' (-> & _).
  - assert (did unchanged s s1) as Hu by done. destruct (IsNotFound e); last first.
    { eapply did_weaken; [| exact Hu]. intros c c' ->. by left. }
    eapply outcome_then; [apply _ | exact Hu |]. pose proof (law_create desired s1) as Hc.
    destruct (k_Create desired s1) as [[o' | e'] s2]; simpl in *.
    + left. eapply did_weaken; [| exact Hc]. intros c c' (Hn & Hs & ->). by apply Hnew.
    + eapply did_weaken; [| exact Hc]. intros c c'. assert (forall o', stored desired o' -> ob_key o' = k) as Hk.
      { intros o' [Ho _]. rw /ob_key /ob_Name /ob_Namespace Ho //. }
      destruct (IsAlreadyExists e'); [intros [-> _]; by left | intros [-> | (o' & _ & Hs & ->)]; [by left |]].
      rw /put (Hk o' Hs). apply touched_insert.
Qed.

Lemma delete_outcome (k : key) (spec : B) (zero : S) s :
  outcome_at k (fun _ => did (fun c c' => c' = set_tab (delete k (tab c)) c \/ (c' = c /\ tab c !! k = None))) s
    (ignoreNotFound (k_Delete (named k spec zero)) s).
Proof.
  rw /ignoreNotFound /bind /try. pose proof (law_delete (named k spec zero) s) as Hl.
  assert (ob_key (named k spec zero) = k) as Hk by by destruct k. rw Hk in Hl.
  destruct (k_Delete (named k spec zero) s) as [[[] | e] s1]; simpl in *; [eapply did_weaken; [| exact Hl]; by left |].
  destruct (IsNotFound e); (eapply did_weaken; [| exact Hl]); [by right |].
  intros c c' [-> | ->]; [by left | apply touched_delete].
Qed.

Lemma observe_outcome (k : key) s :
  outcome_at k (fun st => shown k (fun o : object B S => ob_Status o = st)) s (bind (r_Get k) (fun cr => ret (ob_Status cr)) s).
Proof.
  rw /bind. pose proof (law_cached_get (visible := fun _ : object B S => true) k s) as Hg. destruct (r_Get k s) as [[cur | e] s1] eqn:Hr; simpl.
  - exists s, cur. split_and!; [apply did_refl | done | done].
  - eapply did_weaken; [| exact Hg]. intros c c' ->. by left.
Qed.

(** What a current cache shows is in the cluster. *)
Lemma shown_current `{!CurrentCache (B := B) (S := S) (fun _ => true) objects rely} k P s s' :
  shown k P s s' -> did (fun c c' => c' = c /\ exists o : object B S, tab c !! k = Some o /\ P o) s s'.
Proof.
  intros (s1 & cur & H1 & Hg%(current_cached_get (visible := fun _ : object B S => true)) & HP).
  eapply did_then; [exact H1 |]. eapply did_weaken; [| exact Hg]. intros c c' (-> & Hc & _). split; [done | by exists cur].
Qed.
End OneKind.
End Contract.

Section Workloads.
Context {Q C K : Type} (objects : K -> C) (rely : C -> C -> Prop) `{!Reflexive rely} `{!Transitive rely}.
Context (shortHash : bytes -> bytes) (prefix : bool) `{!NamespaceResolver K} `{!ResolverLaws objects rely}.
Context `{!Kind C (MLRunSpec Q) RunStatus} `{!CachedReader K (MLRunSpec Q) RunStatus} `{!Client K (MLRunSpec Q) RunStatus}
  `{!RawPatcher K (MLRunSpec Q) RunStatus}
  `{!CachedLaws (B := MLRunSpec Q) (S := RunStatus) (fun _ => true) objects rely}
  `{!ClientLaws (B := MLRunSpec Q) (S := RunStatus) objects rely} `{!RunPatchLaws (Q := Q) objects rely}.
Context `{!Kind C (MLServiceSpec Q) MLServiceStatus} `{!CachedReader K (MLServiceSpec Q) MLServiceStatus}
  `{!Client K (MLServiceSpec Q) MLServiceStatus} `{!Updater K (MLServiceSpec Q) MLServiceStatus}
  `{!SemanticEquality (MLServiceSpec Q)}
  `{!CachedLaws (B := MLServiceSpec Q) (S := MLServiceStatus) (fun _ => true) objects rely}
  `{!ClientLaws (B := MLServiceSpec Q) (S := MLServiceStatus) objects rely}
  `{!UpdaterLaws (B := MLServiceSpec Q) (S := MLServiceStatus) objects rely}.
Context `{!Kind C MLTrafficPolicySpec MLTrafficPolicyStatus} `{!CachedReader K MLTrafficPolicySpec MLTrafficPolicyStatus}
  `{!Client K MLTrafficPolicySpec MLTrafficPolicyStatus} `{!Updater K MLTrafficPolicySpec MLTrafficPolicyStatus}
  `{!CachedLaws (B := MLTrafficPolicySpec) (S := MLTrafficPolicyStatus) (fun _ => true) objects rely}
  `{!ClientLaws (B := MLTrafficPolicySpec) (S := MLTrafficPolicyStatus) objects rely}
  `{!UpdaterLaws (B := MLTrafficPolicySpec) (S := MLTrafficPolicyStatus) objects rely}.
#[local] Abbreviation outcome B S := (outcome objects rely (B := B) (S := S)).
#[local] Abbreviation outcome_at B S := (outcome_at objects rely (B := B) (S := S)).
#[local] Abbreviation physical := (physical shortHash prefix).

(** Tables are records of the cluster, and the server stores specs of services
    and policies as they are. *)
Class PlainKind (B S : Type) `{!Kind C B S} : Prop := {
  plain_tab (t : gmap key (object B S)) (c : C) : tab (set_tab t c) = t;
  plain_stored (b b' : B) : defaulted (C := C) b b' -> b' = b }.

(** Afterwards the object under [k] has this spec and shows these labels, and
    nothing else has changed. *)
Definition settled {B S} `{!Kind C B S} (same : B -> Prop) (m : ObjectMeta) (k : key) (c c' : C) : Prop :=
  touched (B := B) (S := S) k c c' /\
  exists o : object B S, tab c' !! k = Some o /\ same (ob_Spec o) /\ shows (om_Labels m) (ob_Labels o).

(** What Apply needs to see to leave an object alone. *)
Definition matches {B S} (same : B -> Prop) (m : ObjectMeta) (o : object B S) : Prop :=
  same (ob_Spec o) /\ shows (om_Labels m) (ob_Labels o).

(** A run is created with the desired metadata and spec, or was there. *)
Definition run_applied (cr : MLRunCR Q) (k : key) (c c' : C) : Prop :=
  (c' = c /\ is_Some (tab (B := MLRunSpec Q) (S := RunStatus) c !! k)) \/
  (tab (B := MLRunSpec Q) (S := RunStatus) c !! k = None /\
   exists o' : Run Q, stored (physical_at shortHash prefix (rcr_Meta cr) (rcr_Spec cr) RunStatus_zero k) o' /\ c' = put o' c).

(** The contract of [extensions.ComputeRuntime] for one kind: what Apply,
    Observe and Delete do when they succeed.  Apply may leave alone an object
    that the cache shows as [enough]. *)
Record contract {B S CR : Type} `{!Kind C B S} `{!CachedReader K B S} (meta : CR -> ObjectMeta) (apply : CR -> api K unit)
    (observe : key -> api K S) (remove : key -> api K unit) (applied : CR -> key -> C -> C -> Prop)
    (enough : CR -> object B S -> Prop) : Prop := {
  contract_apply cr s :
    outcome B S (physical (om_Namespace (meta cr), om_Name (meta cr)) s)
      (fun k _ s s' => did rely objects (applied cr k) s s' \/ shown objects rely k (enough cr) s s') s (apply cr s);
  contract_observe l s :
    outcome B S (physical l s) (fun k st => shown objects rely k (fun o : object B S => ob_Status o = st)) s (observe l s);
  contract_delete l s :
    outcome B S (physical l s)
      (fun k _ => did rely objects (fun c c' => c' = set_tab (delete k (tab (B := B) (S := S) c)) c \/
                                                (c' = c /\ tab (B := B) (S := S) c !! k = None)))
      s (remove l s) }.

(** Over a cache that is current, Apply has applied and Observe tells what is in
    the cluster. *)
Definition current_contract {B S CR : Type} `{!Kind C B S} `{!CachedReader K B S} (meta : CR -> ObjectMeta) (apply : CR -> api K unit)
    (observe : key -> api K S) (applied : CR -> key -> C -> C -> Prop) : Prop :=
  CurrentCache (B := B) (S := S) (fun _ => true) objects rely ->
  (forall cr s, outcome B S (physical (om_Namespace (meta cr), om_Name (meta cr)) s) (fun k _ => did rely objects (applied cr k)) s (apply cr s)) /\
  (forall l s, outcome B S (physical l s)
     (fun k st => did rely objects (fun c c' => c' = c /\ exists o : object B S, tab c !! k = Some o /\ ob_Status o = st)) s (observe l s)).

Lemma contract_current {B S CR : Type} `{!Kind C B S} `{!CachedReader K B S} (meta : CR -> ObjectMeta) apply observe remove applied enough :
  (forall cr k (o : object B S) c, tab c !! k = Some o -> enough cr o -> applied cr k c c) ->
  contract (B := B) (S := S) meta apply observe remove applied enough -> current_contract (B := B) (S := S) meta apply observe applied.
Proof.
  intros Hen [Ha Ho _] Hcur. split.
  - intros cr s. eapply outcome_weaken; [| apply Ha]. intros k [] s1 s2 [H | H]; [done |].
    eapply did_weaken; [| exact (shown_current objects rely k _ s1 s2 H)]. intros c c' (-> & o & Hl & He). by eapply Hen.
  - intros l s. eapply outcome_weaken; [| apply Ho]. intros k st s1 s2. by apply shown_current.
Qed.

Lemma update_settled {B S} `{!Kind C B S} `{!PlainKind B S} `{!Updater K B S} `{!UpdaterLaws (B := B) (S := S) objects rely}
    (same : B -> Prop) m (cur desired : object B S) k (F : K -> K -> Prop) s s1 :
  did rely objects unchanged s s1 -> ob_key cur = k -> same (ob_Spec desired) -> ob_Labels desired = om_Labels m ->
  Prefixed objects rely F -> outcome_at B S k (fun _ s s' => did rely objects (settled same m k) s s' \/ F s s') s
    (bind (k_Update cur (set_labels (mergeLabels (ob_Labels cur) (ob_Labels desired)) (set_spec (ob_Spec desired) cur)))
       (fun _ => ret tt) s1).
Proof.
  intros Hd <- Hs Hl HF. eapply outcome_then; [done | apply _ | exact Hd |].
  rw /bind. set (after := set_labels _ _). pose proof (law_update objects rely cur after s1 eq_refl) as Hu.
  destruct (k_Update cur after s1) as [[o' | e] s2]; simpl; [left |]; (eapply did_weaken; [| exact Hu]).
  - intros c c' (Hc & Hm & Hdef & Hst & ->). split; [apply touched_insert |]. exists o'. rw plain_tab lookup_insert_eq.
    split_and!; [done | by rw (plain_stored _ _ Hdef) |]. rw /ob_Labels Hm /= Hl. apply mergeLabels_shows.
  - intros c c' [-> | (o' & _ & _ & _ & _ & ->)]; [by left | apply touched_insert].
Qed.

Lemma create_settled {B S} `{!Kind C B S} `{!PlainKind B S} (same : B -> Prop) m spec (zero : S) k c (o' : object B S) :
  same spec -> stored (physical_at shortHash prefix m spec zero k) o' -> settled same m k c (put o' c).
Proof.
  intros Hs (Hm & _ & Hd & _). assert (ob_key o' = k) as Hk by (rw /ob_key /ob_Name /ob_Namespace Hm /=; by destruct k).
  rw /put Hk. split; [apply touched_insert |]. exists o'. rw plain_tab lookup_insert_eq.
  split_and!; [done | by rw (plain_stored _ _ Hd) |]. rw /ob_Labels Hm. apply shows_refl.
Qed.

Lemma physical_at_key {B S} m (spec : B) (zero : S) k : ob_key (physical_at shortHash prefix m spec zero k) = k.
Proof. by destruct k. Qed.

(** The three contracts: what a run, a service and a policy are applied as, and
    what Apply needs to see to leave them alone.  A policy is always written. *)
Definition run_contract : Prop :=
  contract (B := MLRunSpec Q) rcr_Meta (ApplyMLRun shortHash prefix) (ObserveMLRun (Q := Q) shortHash prefix)
    (DeleteMLRun (Q := Q) shortHash prefix) run_applied (fun _ _ => True).

Definition service_applied (cr : MLServiceCR Q) : key -> C -> C -> Prop :=
  settled (S := MLServiceStatus) (fun spec => semantic_equal spec (scr_Spec cr) = true) (scr_Meta cr).

Definition service_contract : Prop :=
  contract (B := MLServiceSpec Q) scr_Meta (ApplyMLService shortHash prefix) (ObserveMLService (Q := Q) shortHash prefix)
    (DeleteMLService (Q := Q) shortHash prefix) service_applied
    (fun cr => matches (fun spec => semantic_equal spec (scr_Spec cr) = true) (scr_Meta cr)).

Definition policy_applied (cr : MLTrafficPolicyCR) : key -> C -> C -> Prop :=
  settled (S := MLTrafficPolicyStatus) (fun spec => spec = tcr_Spec cr) (tcr_Meta cr).

Definition policy_contract : Prop :=
  contract (B := MLTrafficPolicySpec) tcr_Meta (ApplyMLTrafficPolicy shortHash prefix) (ObserveMLTrafficPolicy shortHash prefix)
    (DeleteMLTrafficPolicy shortHash prefix) policy_applied (fun _ _ => False).

Lemma run_contract_holds : run_contract.
Proof using All.
  split; intros l s; [| apply outcome_physical; [done | done | apply _ |]; intros k s1 ..].
  - rw /ApplyMLRun /physicalMLRun bind_physical_object. apply outcome_physical; [done | done | apply _ |]. intros k s1.
    set (desired := physical_at _ _ _ _ _ k). rw -{1 2 3}(physical_at_key (rcr_Meta l) (rcr_Spec l) RunStatus_zero k) -/desired.
    apply create_or_outcome; [done | done | done | |]; rw /desired physical_at_key.
    + intros c o' Hn Hs. right. by split; [| exists o'].
    + intros cur s2 s3 _ Hg _. right. exists s2, cur. split_and!; [by apply did_refl | done | done].
  - by apply observe_outcome.
  - by apply delete_outcome.
Qed.

Lemma service_contract_holds `{!PlainKind (MLServiceSpec Q) MLServiceStatus} : service_contract.
Proof using All.
  split; intros l s; [| apply outcome_physical; [done | done | apply _ |]; intros k s1 ..].
  - rw /ApplyMLService /physicalMLService bind_physical_object. apply outcome_physical; [done | done | apply _ |]. intros k s1.
    set (desired := physical_at _ _ _ _ _ k). rw -{1 2 3}(physical_at_key (scr_Meta l) (scr_Spec l) MLServiceStatus_zero k) -/desired.
    apply create_or_outcome; [done | done | done | |]; rw /desired physical_at_key.
    + intros c o' Hn Hs. eapply create_settled; [apply semantic_equal_refl | exact Hs].
    + intros cur s2 s3 Hd Hg Hk. destruct (semantic_equal _ _ && _) eqn:He.
      * apply andb_true_iff in He as [He Hl]. right. exists s2, cur. split_and!; [by apply did_refl | done |].
        split; [done | by apply labelsMerged_shows].
      * eapply update_settled; [exact Hd | done | apply semantic_equal_refl | done | apply _].
  - by apply observe_outcome.
  - by apply delete_outcome.
Qed.

Lemma policy_contract_holds `{!PlainKind MLTrafficPolicySpec MLTrafficPolicyStatus} : policy_contract.
Proof using All.
  split; intros l s; [| apply outcome_physical; [done | done | apply _ |]; intros k s1 ..].
  - rw /ApplyMLTrafficPolicy /physicalMLTrafficPolicy bind_physical_object. apply outcome_physical; [done | done | apply _ |]. intros k s1.
    set (desired := physical_at _ _ _ _ _ k). rw -{1 2 3}(physical_at_key (tcr_Meta l) (tcr_Spec l) MLTrafficPolicyStatus_zero k) -/desired.
    apply create_or_outcome; [done | done | done | |]; rw /desired physical_at_key.
    + intros c o' Hn Hs. by eapply create_settled; [| exact Hs].
    + intros cur s2 s3 Hd Hg Hk. by eapply update_settled; [exact Hd | done | | | apply _].
  - by apply observe_outcome.
  - by apply delete_outcome.
Qed.

(** C14: what compute-service gets from its Kubernetes adapter, whatever else
    happens in the cluster and however far the adapter's cache lags behind.
    Every call works on the one object that the namespace of the tenant and the
    workload's base name give.  Apply, when it succeeds, has written a policy
    with the desired spec and labels; a service so, or its cache showed one with
    a spec that is semantically equal and these labels; a run created as
    desired, or its cache showed one.  Observe returns the status the cache
    shows; Delete leaves none; Cancel leaves a run with only its suspend flag
    set, or found none.  A call that fails has touched nothing but this object,
    and nothing at all when the tenant's namespace does not resolve.  Over a
    cache that is current, Apply has settled the desired state in the cluster
    and Observe tells the status that is there; [stale_hit_is_success] shows an
    Apply over one that is not. *)
Theorem kubernetes_runtime_contract `{!PlainKind (MLServiceSpec Q) MLServiceStatus}
    `{!PlainKind MLTrafficPolicySpec MLTrafficPolicyStatus} :
  (run_contract /\ service_contract /\ policy_contract) /\
  (forall l s, outcome (MLRunSpec Q) RunStatus (physical l s)
    (fun k _ => did rely objects (fun c c' => suspended_at (Q := Q) true k c c' \/
                                              (c' = c /\ tab (B := MLRunSpec Q) (S := RunStatus) c !! k = None)))
    s (CancelMLRun (Q := Q) shortHash prefix l s)) /\
  (current_contract (B := MLRunSpec Q) rcr_Meta (ApplyMLRun shortHash prefix) (ObserveMLRun (Q := Q) shortHash prefix) run_applied /\
   current_contract (B := MLServiceSpec Q) scr_Meta (ApplyMLService shortHash prefix) (ObserveMLService (Q := Q) shortHash prefix) service_applied /\
   current_contract (B := MLTrafficPolicySpec) tcr_Meta (ApplyMLTrafficPolicy shortHash prefix) (ObserveMLTrafficPolicy shortHash prefix) policy_applied).
Proof.
  pose proof run_contract_holds as Hr. pose proof service_contract_holds as Hs. pose proof policy_contract_holds as Hp.
  split; [done | split; [| split_and!]].
  - intros l s. apply outcome_physical; [done | done | apply _ |]. intros k s1. rw /ignoreNotFound /bind /try.
    pose proof (law_suspend objects rely (Q := Q) true k s1) as Hl. destruct (k_RawPatch _ _ _) as [[o | e] s2]; simpl in *.
    + eapply did_weaken; [| exact Hl]. by left.
    + destruct (IsNotFound e); (eapply did_weaken; [| exact Hl]); [by right |].
      intros c c' [-> | (o & o' & _ & _ & _ & _ & _ & _ & ->)]; [by left | apply touched_insert].
  - eapply contract_current; [| exact Hr]. intros cr k o c Hl _. left. by split; [| exists o].
  - eapply contract_current; [| exact Hs]. intros cr k o c Hl [H1 H2]. split; [by left | by exists o].
  - eapply contract_current; [| exact Hp]. by intros cr k o c _ [].
Qed.
End Workloads.

(** Both resolvers only read. *)
Lemma identity_reads {C K} (objects : K -> C) (rely : C -> C -> Prop) `{!Reflexive rely} :
  ResolverLaws objects rely (NamespaceResolver0 := identityNamespaceResolver).
Proof. intros tenant s. by apply did_refl. Qed.

Lemma tenantresolver_reads {Q C K} (objects : K -> C) (rely : C -> C -> Prop) `{!Kind C (TenantSpec Q) (TenantStatus Q)}
    `{!Client K (TenantSpec Q) (TenantStatus Q)} `{!ClientLaws (B := TenantSpec Q) (S := TenantStatus Q) objects rely} :
  ResolverLaws objects rely (NamespaceResolver0 := tenantresolver (Q := Q)).
Proof.
  intros tenant s. rw /ResolveNamespace /tenantresolver /tenant_namespace /bind /try.
  pose proof (law_get (B := TenantSpec Q) (S := TenantStatus Q) ("", tenant) s) as Hg.
  destruct (k_Get ("", tenant) s) as [[cr | e] s1].
  - assert (did rely objects unchanged s s1) by (eapply did_weaken; [| exact Hg]; by intros c c' [-> _]).
    by destruct (String.eqb _ _).
  - assert (did rely objects unchanged s s1) by (eapply did_weaken; [| exact Hg]; by intros c c' ->).
    by destruct (IsNotFound e).
Qed.

(** ** Instances belong to their workload *)

Section Owned.
Context {Q K O L : Type} (shortHash : bytes -> bytes) (prefix : bool) `{!NamespaceResolver K}.
Context `{!PodReader Q K} `{!EventReader K} `{!LogStreamer K O L}.

(** What is asked for is what is returned. *)
Class PodReaderLaws : Prop := {
  law_get_pod k s p s' : get_pod (Q := Q) k s = (inl p, s') -> (pod_Namespace p, pod_Name p) = k;
  law_list_pods namespace labels s r s' p : list_pods (Q := Q) namespace labels s = (inl r, s') -> p ∈ r.2 ->
    (namespace = "" \/ pod_Namespace p = namespace) /\ labels ⊆ pod_Labels p }.

(** The id of the workload under [l], from the object read under its physical
    key, and the state after reading it. *)
Definition identified {B S} `{!CachedReader K B S} (label : string) (l : key) (s : K) (id : string) (k : key) (s' : K) : Prop :=
  id <> "" /\ k.1 <> "" /\ physical shortHash prefix l s = Some k /\
  exists s0 (cr : object B S), r_Get k s0 = (inl cr, s') /\ ob_Labels cr !! label = Some id.

Definition owned (label id namespace : string) (p : Pod Q) : Prop :=
  pod_Namespace p = namespace /\ pod_Labels p !! label = Some id.

Lemma lookup_nonempty (m : gmap string string) i v : map_get "" m i = v -> v <> "" -> m !! i = Some v.
Proof. rw /map_get. destruct (m !! i) as [x |]; simpl; congruence. Qed.

Lemma physicalKey_inv l s k s' : physicalKey shortHash prefix l s = (inl k, s') -> physical shortHash prefix l s = Some k /\ k.1 <> "".
Proof.
  rw /physicalKey /physical /bind /wrap. destruct (ResolveNamespace l.1 s) as [[n | e] s1]; simpl; [| done].
  destruct (String.eqb_spec n ""); [done |]. by intros [= <- _].
Qed.

Lemma labelID_finds {B S} `{!CachedReader K B S} what label l s id k s' :
  labelID (B := B) (S := S) shortHash prefix what label l s = (inl (id, k), s') -> identified (B := B) (S := S) label l s id k s'.
Proof.
  rw /labelID {1}/bind. destruct (physicalKey _ _ l s) as [[k0 | e] s1] eqn:Hk; [| done].
  rw /bind. destruct (r_Get k0 s1) as [[cr | e] s2] eqn:Hg; [| done].
  destruct (String.eqb_spec (map_get "" (ob_Labels cr) label) ""); [done |]. intros [= <- <- <-].
  apply physicalKey_inv in Hk as [Hk Hn]. split_and!; [done | done | done |]. exists s1, cr. split; [done | by apply lookup_nonempty].
Qed.

Lemma verifyInstance_inv namespace inst label id s u s' : id <> "" ->
  verifyInstance (Q := Q) namespace inst label id s = (inl u, s') ->
  exists p, get_pod (namespace, inst) s = (inl p, s') /\ pod_Labels p !! label = Some id.
Proof.
  intros Hid. rw /verifyInstance /bind. destruct (get_pod _ s) as [[p | e] s1]; [| done].
  destruct (String.eqb_spec (map_get "" (pod_Labels p) label) id); simpl; [| done]. intros [= <- <-]. exists p.
  split; [done | by apply lookup_nonempty].
Qed.

(** The answers about instances of the workload under [l], which [ident]
    identifies, concern its own pods. *)
Definition guarded {B S} `{!CachedReader K B S} (label : string) (l : key) (ident : api K (string * key))
    (instances : api K (list (Pod Q))) (logs : string -> option O -> api K L) (events : string -> api K (list Event)) : Prop :=
  let own inst s s2 := exists id k s1 p, identified (B := B) (S := S) label l s id k s1 /\
    get_pod (k.1, inst) s1 = (inl p, s2) /\ owned label id k.1 p in
  (forall s pods s', instances s = (inl pods, s') ->
     pods = [] \/ exists id k s1, identified (B := B) (S := S) label l s id k s1 /\ Forall (owned label id k.1) pods) /\
  (forall inst opts s log s', logs inst opts s = (inl log, s') -> exists s2, own inst s s2) /\
  (forall inst s evs s', events inst s = (inl evs, s') ->
     (exists s2, own inst s s2) /\ Forall (fun e => ev_Kind e = "Pod" /\ ev_Name e = inst) evs) /\
  (forall inst opts s id k s1 p s2, ident s = (inl (id, k), s1) -> get_pod (k.1, inst) s1 = (inl p, s2) ->
     pod_Labels p !! label <> Some id ->
     let refused := Wrapped ("instance " ++ k.1 ++ "/" ++ inst) ErrInstanceNotOwned in
     logs inst opts s = (inr refused, s2) /\ events inst s = (inr refused, s2)).

Lemma labelID_guarded {B S} `{!CachedReader K B S} `{!PodReaderLaws} what label l :
  let ident := labelID (B := B) (S := S) shortHash prefix what label l in
  guarded (B := B) (S := S) label l ident (list_instances label ident) (instance_logs (Q := Q) label ident)
    (instance_events (Q := Q) label ident).
Proof.
  intros ident. assert (forall inst s id k s1 u s2, ident s = (inl (id, k), s1) ->
    verifyInstance (Q := Q) k.1 inst label id s1 = (inl u, s2) ->
    exists id k s1 p, identified (B := B) (S := S) label l s id k s1 /\ get_pod (k.1, inst) s1 = (inl p, s2) /\ owned label id k.1 p) as Hown.
  { intros inst s id k s1 u s2 Hi%labelID_finds Hv. destruct (verifyInstance_inv _ _ _ _ _ _ _ (proj1 Hi) Hv) as (p & Hp & Hl).
    exists id, k, s1, p. split_and!; [done | done |]. split; [| done]. by apply law_get_pod in Hp as [= ->]. }
  split_and!.
  - intros s pods s'. rw /list_instances {1}/bind /try. destruct (ident s) as [[[id k] | e] s1] eqn:Hi; [| destruct (IsNotFound e); [intros [= <- _]; by left | done]].
    rw /listPodsByLabel /bind. destruct (list_pods _ _ s1) as [[r | e] s2] eqn:Hr; [| done]. intros [= <- <-]. right.
    exists id, k, s1. apply labelID_finds in Hi. split; [done |]. apply Forall_forall. intros p Hp.
    destruct (law_list_pods _ _ _ _ _ p Hr Hp) as [Hn Hl]. destruct Hi as (_ & Hk & _). split; [naive_solver |].
    apply (lookup_weaken _ _ _ _ (lookup_singleton_eq _ _) Hl).
  - intros inst opts s log s'. rw /instance_logs {1}/bind. destruct (ident s) as [[[id k] | e] s1] eqn:Hi; [| done].
    rw /bind /=. destruct (verifyInstance _ _ _ _ s1) as [[u | e] s2] eqn:Hv; [| done]. intros _. exists s2. by eapply Hown.
  - intros inst s evs s'. rw /instance_events {1}/bind. destruct (ident s) as [[[id k] | e] s1] eqn:Hi; [| done].
    rw /bind /=. destruct (verifyInstance _ _ _ _ s1) as [[u | e] s2] eqn:Hv; [| done].
    rw /eventsFor /bind. destruct (list_events k.1 s2) as [[all | e] s3]; [| done]. intros [= <- _].
    split; [exists s2; by eapply Hown |]. apply Forall_forall. intros e [_ He]%list_elem_of_In%filter_In.
    simpl in He. rw orb_false_r in He. apply andb_true_iff in He. by rw !String.eqb_eq in He.
  - intros inst opts s id k s1 p s2 Hi Hp Hne. assert (map_get "" (pod_Labels p) label <> id) as He.
    { apply labelID_finds in Hi as [Hid _]. intros He. by apply lookup_nonempty in He. }
    rw /instance_logs /instance_events /bind Hi /= /verifyInstance /bind Hp. by rw (proj2 (String.eqb_neq _ _) He).
Qed.

(** C25: no workload can be used to look at the pods of another.  The instances
    listed for a run or service are pods of its namespace that carry the id its
    object carries; logs and events are answered only for such a pod, events
    regarding exactly this pod; and an existing pod with another id is refused
    as not owned, not as missing. *)
Theorem instances_are_owned `{!PodReaderLaws} `{!CachedReader K (MLRunSpec Q) RunStatus}
    `{!CachedReader K (MLServiceSpec Q) MLServiceStatus} (l : key) :
  guarded (B := MLRunSpec Q) (S := RunStatus) LabelRunID l (runLabelID (Q := Q) shortHash prefix l)
    (ListMLRunInstances shortHash prefix l) (GetMLRunInstanceLogs (Q := Q) shortHash prefix l)
    (GetMLRunInstanceEvents (Q := Q) shortHash prefix l) /\
  guarded (B := MLServiceSpec Q) (S := MLServiceStatus) LabelServiceID l (serviceLabelID (Q := Q) shortHash prefix l)
    (ListMLServiceInstances shortHash prefix l) (GetMLServiceInstanceLogs (Q := Q) shortHash prefix l)
    (GetMLServiceInstanceEvents (Q := Q) shortHash prefix l).
Proof. split; apply labelID_guarded. Qed.
End Owned.

(** ** What the inventory counts *)

Section InventoryFacts.
Context {Q K : Type} `{!Quantity Q} `{!QuantityLaws Q} `{!NodeReader Q K} `{!PodReader Q K} (sum8 : string -> string).
Implicit Types pod : Pod Q.

Lemma rl_val_raise requests init n : (0 <= rl_val requests n)%Z ->
  rl_val (raise requests init) n = Z.max (rl_val requests n) (rl_val init n).
Proof.
  rw /rl_val /rl_get /map_get /raise lookup_merge. intros H0.
  destruct (requests !! n) as [a |], (init !! n) as [b |]; simpl in *; rw ?q_cmp_val ?q_val_zero;
    try (destruct (Z.compare_spec (q_val b) (q_val a)) as [?|?|?]); try (destruct (Z.compare_spec (q_val b) 0) as [?|?|?]);
    simpl; rw ?q_val_zero; lia.
Qed.

(** What the scheduler reserves of a resource for a pod: its containers
    together or its largest init container, whatever is more, and the
    overhead. *)
Definition reservation (n : string) pod : Z :=
  Z.max (zsum (map (fun l => rl_val l n) (pod_Containers pod)))
        (foldr Z.max 0%Z (map (fun l => rl_val l n) (pod_InitContainers pod))) + rl_val (pod_Overhead pod) n.

Definition sane pod : Prop := Forall (fun l : gmap string Q => forall n, 0 <= rl_val l n)%Z (pod_Containers pod).

Lemma foldl_add_val (ls : list (gmap string Q)) acc n : rl_val (foldl add acc ls) n = (rl_val acc n + zsum (map (fun l => rl_val l n) ls))%Z.
Proof. revert acc. induction ls as [| l ls IH]; intros acc; simpl; [lia |]. rw IH rl_val_sum. lia. Qed.

Lemma foldl_raise_val (ls : list (gmap string Q)) acc n : (0 <= rl_val acc n)%Z ->
  rl_val (foldl raise acc ls) n = Z.max (rl_val acc n) (foldr Z.max 0%Z (map (fun l => rl_val l n) ls)).
Proof.
  revert acc. induction ls as [| l ls IH]; intros acc H0; simpl; [lia |].
  rw IH; rw rl_val_raise //; lia.
Qed.

Lemma podRequests_val pod n : sane pod -> rl_val (podRequests pod) n = reservation n pod.
Proof.
  intros Hs. assert (rl_val (foldl add ∅ (pod_Containers pod)) n = zsum (map (fun l => rl_val l n) (pod_Containers pod))) as Hsum
    by (rw foldl_add_val rl_val_empty; lia).
  rw /podRequests rl_val_sum foldl_raise_val; rw Hsum //. clear Hsum.
  induction Hs as [| l ls Hl Hs IH]; simpl; [done |]. specialize (Hl n). lia.
Qed.

(** Usage of a node in a list of allocations. *)
Definition node_usage (node n : string) (allocs : list (ResourceAllocation Q)) : Z :=
  zsum (map (fun a => rl_val (ra_Requests a) n) (List.filter (fun a => String.eqb (ra_NodeName a) node) allocs)).

(** Admission sees the cluster as the scheduler fills it: the snapshot offers
    exactly the ready nodes that accept pods, with what they allocate, and
    charges each node, for every resource, with the reservations of the pods
    bound to it that have not finished; pods of nobody's workload included. *)
Theorem inventory_exact s snap version s' :
  Snapshot sum8 s = (inl (snap, version), s') ->
  exists nodes s1 pods, list_nodes s = (inl nodes, s1) /\ list_pods "" ∅ s1 = (inl pods, s') /\
    map rn_Name (rs_Nodes snap) = map nd_Name (List.filter (fun n => negb (nd_Unschedulable n) && nodeReady n) nodes.2) /\
    (Forall sane pods.2 -> forall node n, node_usage node n (rs_Allocations snap) =
      zsum (map (reservation n) (List.filter (fun p => bound p && String.eqb (pod_NodeName p) node) pods.2))).
Proof.
  rw /Snapshot {1}/bind. destruct (list_nodes s) as [[nodes | e] s1]; [| done].
  rw /bind. destruct (list_pods "" ∅ s1) as [[pods | e] s2] eqn:Hp; [| done]. intros [= <- <- <-]. exists nodes, s1, pods.
  split_and!; [done | done | |]; simpl.
  - induction nodes.2 as [| n ns IH]; [done |]. simpl. rw /snapshot_node. destruct (nd_Unschedulable n), (nodeReady n); simpl; by rw ?IH.
  - intros Hs node n. induction Hs as [| p ps Hsane Hs IH]; [done |]. simpl. rw /snapshot_pod. destruct (bound p); simpl; [| done].
    rw /node_usage /=. destruct (String.eqb (pod_NodeName p) node); simpl; [| done]. rw podRequests_val //. by rw -/(node_usage node n _) IH.
Qed.

Lemma sort_slice_unique l1 l2 : Permutation l1 l2 -> sort_slice str_lt l1 = sort_slice str_lt l2.
Proof.
  intros Hp. set (R a b := str_lt b a = false). assert (Transitive R) as HT.
  { intros a b c Hab Hbc. rw /R. destruct (str_lt c a) eqn:Hca; [| done].
    destruct (str_lt b c) eqn:Hb; [rw /R in Hab; by rw (str_lt_trans _ _ _ Hb Hca) in Hab |].
    pose proof (str_lt_total _ _ Hb Hbc) as ->. rw /R in Hab. congruence. }
  assert (AntiSymm (=) R) by (intros a b Hab Hba; by apply str_lt_total).
  apply (StronglySorted_unique R); [by apply sort_slice_strongly_sorted; [apply str_lt_asym | done | auto] .. |].
  by rw !sort_slice_perm.
Qed.

(** The version of a snapshot does not depend on the order of the lists. *)
Lemma snapshotVersion_perm rv rv' (nodes nodes' : list (Node Q)) (pods pods' : list (Pod Q)) :
  Permutation nodes nodes' -> Permutation pods pods' ->
  snapshotVersion sum8 (rv, nodes) (rv', pods) = snapshotVersion sum8 (rv, nodes') (rv', pods').
Proof.
  intros Hn Hp. rw /snapshotVersion /=. do 2 f_equal. do 3 f_equal. apply sort_slice_unique.
  by apply Permutation_app; apply Permutation_map.
Qed.
End InventoryFacts.

(** ** A small cluster *)

Module KubeSample.
Record kube := {
  ku_Runs : gmap key (Run Z); ku_Services : gmap key (Svc Z); ku_Policies : gmap key Policy; ku_Pods : list (Pod Z) }.

#[export] Instance kube_runs : Kind kube (MLRunSpec Z) RunStatus := {|
  tab := ku_Runs;
  set_tab t c := {| ku_Runs := t; ku_Services := ku_Services c; ku_Policies := ku_Policies c; ku_Pods := ku_Pods c |};
  zero_status := RunStatus_zero; defaulted := eq; spec_merged before after cur new := cur = before -> new = after |}.

#[export] Instance kube_services : Kind kube (MLServiceSpec Z) MLServiceStatus := {|
  tab := ku_Services;
  set_tab t c := {| ku_Runs := ku_Runs c; ku_Services := t; ku_Policies := ku_Policies c; ku_Pods := ku_Pods c |};
  zero_status := MLServiceStatus_zero; defaulted := eq; spec_merged before after cur new := cur = before -> new = after |}.

#[export] Instance kube_policies : Kind kube MLTrafficPolicySpec MLTrafficPolicyStatus := {|
  tab := ku_Policies;
  set_tab t c := {| ku_Runs := ku_Runs c; ku_Services := ku_Services c; ku_Policies := t; ku_Pods := ku_Pods c |};
  zero_status := MLTrafficPolicyStatus_zero; defaulted := eq; spec_merged before after cur new := cur = before -> new = after |}.

#[export] Instance ObjectMeta_eq_dec : EqDecision ObjectMeta.
Proof. solve_decision. Defined.
#[export] Instance Meta_eq_dec : EqDecision Meta.
Proof. solve_decision. Defined.
#[export] Instance object_eq_dec {B S} `{EqDecision B} `{EqDecision S} : EqDecision (object B S).
Proof. solve_decision. Defined.

Section OneTable.
Context {B S : Type} `{!Kind kube B S} `{!EqDecision B} `{!EqDecision S}.
Context (Hdefault : forall b b' : B, defaulted (C := kube) b b' <-> b = b').
Context (Hmerge : forall before after cur new : B, spec_merged (C := kube) before after cur new <-> (cur = before -> new = after)).

#[export] Instance kube_reader : CachedReader kube B S := {| r_Get := get_object; r_List := list_objects |}.

#[export] Instance kube_updater : Updater kube B S := fun before after c =>
  match tab c !! ob_key before with
  | None => (inr APINotFound, c)
  | Some o =>
      if decide (o = before) then
        let o' := set_status (ob_Status before) after in (inl o', set_tab (<[ob_key before := o']> (tab c)) c)
      else (inr APIConflict, c)
  end.

Lemma kube_client_laws : ClientLaws (K := kube) (B := B) (S := S) id eq.
Proof. apply perfect_laws; [intros b; by apply Hdefault | intros; by apply Hmerge | intros; by apply Hmerge]. Qed.

Lemma kube_reader_laws : CachedLaws (K := kube) (B := B) (S := S) (fun _ => true) id eq.
Proof.
  pose proof kube_client_laws as Hl. split.
  - intros k s. simpl. rw /get_object. destruct (tab s !! k) eqn:Hk; [case_decide |]; apply did_eq; naive_solver.
  - intros namespace labels s. pose proof (law_list (objects := id) (rely := eq) namespace labels s) as H. simpl in *.
    eapply did_weaken; [| exact H]. intros c c' [-> Ho]. split; [done |]. intros o Hin. by split; [apply Ho |].
Qed.

Lemma kube_reader_current : CurrentCache (K := kube) (B := B) (S := S) (fun _ => true) id eq.
Proof using EqDecision0.
  clear Hdefault Hmerge. split.
  - intros k s o s'. rw /r_Get /= /get_object. destruct (tab s !! k) eqn:Hk; [case_decide |]; intros [= <- <-]; apply did_eq; naive_solver.
  - intros namespace labels s os s' Hr. pose proof (current_list (CurrentLists := current_lists (CurrentReads := perfect_current (C := kube))) namespace labels s) as H.
    change (k_List namespace labels s) with (r_List namespace labels s : (list (object B S) + api_error) * kube) in H. rw Hr in H.
    eapply did_weaken; [| exact H]. intros c c' [-> Ho]. split; [done |]. intros o Hin. apply Ho in Hin as [? ?]. by split_and!.
Qed.

Lemma kube_updater_laws : UpdaterLaws (B := B) (S := S) (@id kube) eq.
Proof.
  intros before after s _. rw /k_Update /kube_updater. destruct (tab s !! ob_key before) as [o |] eqn:Ho; [| apply did_eq; by left].
  case_decide as He; apply did_eq; [| by left]. subst o. split_and!; [done | done | by apply Hdefault | done | done].
Qed.
End OneTable.

#[export] Instance kube_patcher : RawPatcher kube (MLRunSpec Z) RunStatus := fun k doc c =>
  match doc, ku_Runs c !! k with
  | DObj [("spec", DObj [("runPolicy", DObj [("suspend", DBool b)])])], Some o =>
      let o' := set_spec (suspended b (ob_Spec o)) o in (inl o', set_tab (<[k := o']> (ku_Runs c)) c)
  | _, None => (inr APINotFound, c)
  | _, _ => (inr (APIError "unknown patch"), c)
  end.

#[export] Instance kube_patcher_laws : RunPatchLaws (Q := Z) (@id kube) eq.
Proof.
  intros b k s. rw /k_RawPatch /kube_patcher /=. destruct (ku_Runs s !! k) as [o |] eqn:Ho; apply did_eq; [| done].
  exists o, (set_spec (suspended b (ob_Spec o)) o). by split_and!.
Qed.

#[export] Instance Z_semantic : SemanticEquality (MLServiceSpec Z).
Proof. refine {| semantic_equal a b := bool_decide (a = b) |}. intros b. by apply bool_decide_eq_true. Defined.

#[export] Instance team_namespace : NamespaceResolver kube := fun tenant =>
  if String.eqb tenant "team-a" then ret "ns-shared" else fail (APIError "timeout").

Definition chat_cr : MLServiceCR Z :=
  {| scr_Meta := {| om_Name := "chat"; om_Namespace := "team-a"; om_Labels := {[LabelServiceID := "s-1"]}; om_Annotations := ∅ |};
     scr_Spec := sample_service_spec "deployment" "img" 2 None None |}.

Definition empty_kube : kube := {| ku_Runs := ∅; ku_Services := ∅; ku_Policies := ∅; ku_Pods := [] |}.

#[export] Instance team_namespace_reads : ResolverLaws (@id kube) eq.
Proof. intros tenant s. apply did_eq. rw /ResolveNamespace /team_namespace. by destruct (String.eqb _ _). Qed.

#[export] Instance kube_services_plain : PlainKind (MLServiceSpec Z) MLServiceStatus.
Proof. by split; [| intros b b' ->]. Qed.

#[export] Instance kube_policies_plain : PlainKind MLTrafficPolicySpec MLTrafficPolicyStatus.
Proof. by split; [| intros b b' ->]. Qed.

#[export] Instance runs_client_laws : ClientLaws (B := MLRunSpec Z) (S := RunStatus) (@id kube) eq.
Proof. by apply kube_client_laws. Qed.
#[export] Instance runs_reader_laws : CachedLaws (B := MLRunSpec Z) (S := RunStatus) (fun _ => true) (@id kube) eq.
Proof. by apply kube_reader_laws. Qed.
#[export] Instance services_client_laws : ClientLaws (B := MLServiceSpec Z) (S := MLServiceStatus) (@id kube) eq.
Proof. by apply kube_client_laws. Qed.
#[export] Instance services_reader_laws : CachedLaws (B := MLServiceSpec Z) (S := MLServiceStatus) (fun _ => true) (@id kube) eq.
Proof. by apply kube_reader_laws. Qed.
#[export] Instance services_updater_laws : UpdaterLaws (B := MLServiceSpec Z) (S := MLServiceStatus) (@id kube) eq.
Proof. by apply kube_updater_laws. Qed.
#[export] Instance policies_client_laws : ClientLaws (B := MLTrafficPolicySpec) (S := MLTrafficPolicyStatus) (@id kube) eq.
Proof. by apply kube_client_laws. Qed.
#[export] Instance policies_reader_laws : CachedLaws (B := MLTrafficPolicySpec) (S := MLTrafficPolicyStatus) (fun _ => true) (@id kube) eq.
Proof. by apply kube_reader_laws. Qed.
#[export] Instance policies_updater_laws : UpdaterLaws (B := MLTrafficPolicySpec) (S := MLTrafficPolicyStatus) (@id kube) eq.
Proof. by apply kube_updater_laws. Qed.

Lemma kubernetes_runtime_contract_witness :
  exists s', ApplyMLService sample_hash false chat_cr empty_kube = (inl tt, s') /\
    service_applied chat_cr ("ns-shared", "chat") empty_kube s'.
Proof.
  destruct (kubernetes_runtime_contract (Q := Z) (@id kube) eq sample_hash false) as (_ & _ & _ & Hsvc & _).
  destruct (Hsvc (kube_reader_current (B := MLServiceSpec Z) (S := MLServiceStatus))) as [H _]. specialize (H chat_cr empty_kube).
  rewrite /outcome in H.
  assert (physical sample_hash false (om_Namespace (scr_Meta chat_cr), om_Name (scr_Meta chat_cr)) empty_kube = Some ("ns-shared", "chat"))
    as Hk by (vm_compute; reflexivity).
  rewrite Hk in H. destruct (ApplyMLService sample_hash false chat_cr empty_kube) as [[[] | e] s'] eqn:E.
  - exists s'. split; [reflexivity |]. destruct H as (c & c' & Hc & Hs & Hc'). simpl in Hc, Hc'. by subst c c'.
  - exfalso. clear H Hsvc. vm_compute in E. discriminate E.
Defined.

(** A cache that still shows a service which is gone: Apply succeeds and
    writes nothing. *)
Example stale_hit_is_success :
  let old := (ApplyMLService sample_hash false chat_cr empty_kube).2 in
  let lagging : CachedReader kube (MLServiceSpec Z) MLServiceStatus := {| r_Get k c := ((r_Get k old).1, c); r_List n l c := ((r_List n l old).1, c) |} in
  ApplyMLService (CachedReader0 := lagging) sample_hash false chat_cr empty_kube = (inl tt, empty_kube).
Proof. vm_compute. reflexivity. Qed.

(** A run, with a pod of its own and one of another run. *)
Definition pod (name id : string) : Pod Z :=
  {| pod_Name := name; pod_Namespace := "ns-shared"; pod_Labels := {[LabelRunID := id]}; pod_ResourceVersion := "1";
     pod_NodeName := "n1"; pod_Phase := "Running"; pod_Containers := [{["cpu" := 4%Z]}; {["cpu" := 1%Z]}];
     pod_InitContainers := [{["cpu" := 6%Z; "memory" := 2%Z]}]; pod_Overhead := ∅ |}.

#[export] Instance kube_pods : PodReader Z kube := {|
  get_pod k c := (match List.find (fun p => bool_decide ((pod_Namespace p, pod_Name p) = k)) (ku_Pods c) with
                  | Some p => inl p | None => inr APINotFound end, c);
  list_pods namespace labels c :=
    (inl ("9", List.filter (fun p => (String.eqb namespace "" || String.eqb (pod_Namespace p) namespace) &&
                                     bool_decide (labels ⊆ pod_Labels p)) (ku_Pods c)), c) |}.

#[export] Instance kube_pod_laws : PodReaderLaws (Q := Z) (K := kube).
Proof.
  split.
  - intros k s p s'. simpl. destruct (List.find _ _) as [q |] eqn:Hf; [| done]. intros [= <- _].
    apply List.find_some in Hf as [_ Hf]. by apply bool_decide_eq_true in Hf.
  - intros namespace labels s r s' p [= <- _] Hp. apply list_elem_of_In, filter_In in Hp as [_ [Hn Hl]%andb_true_iff].
    apply bool_decide_eq_true in Hl. split; [| done]. by rw orb_true_iff !String.eqb_eq in Hn.
Qed.

#[export] Instance kube_events : EventReader kube := fun _ => ret [].

#[export] Instance kube_logs : LogStreamer kube unit string := {| no_options := tt; stream_pod namespace name _ := ret ("log of " ++ name) |}.

Definition two_pods : kube :=
  {| ku_Runs := {[("ns-shared", "smoke") :=
       {| ob_Meta := {| me_Obj := {| om_Name := "smoke"; om_Namespace := "ns-shared"; om_Labels := {[LabelRunID := "r-1"]};
                                     om_Annotations := ∅ |}; me_UID := "u"; me_Generation := 1; me_Owners := [] |};
          ob_Spec := sample_spec "img" false; ob_Status := RunStatus_zero |}]};
     ku_Services := ∅; ku_Policies := ∅; ku_Pods := [pod "smoke-0" "r-1"; pod "other-0" "r-2"] |}.

(** Its own pod is listed and has its log; the other one is refused. *)
Lemma instances_are_owned_witness :
  ListMLRunInstances sample_hash false ("team-a", "smoke") two_pods = (inl [pod "smoke-0" "r-1"], two_pods) /\
  Forall (owned LabelRunID "r-1" "ns-shared") [pod "smoke-0" "r-1"] /\
  GetMLRunInstanceLogs (Q := Z) sample_hash false ("team-a", "smoke") "smoke-0" None two_pods = (inl "log of smoke-0", two_pods) /\
  GetMLRunInstanceLogs (Q := Z) sample_hash false ("team-a", "smoke") "other-0" None two_pods =
    (inr (Wrapped "instance ns-shared/other-0" ErrInstanceNotOwned), two_pods).
Proof.
  destruct (instances_are_owned (Q := Z) (K := kube) (O := unit) (L := string) sample_hash false ("team-a", "smoke"))
    as [(Hlist & _ & _ & Hrefuse) _].
  assert (ListMLRunInstances sample_hash false ("team-a", "smoke") two_pods = (inl [pod "smoke-0" "r-1"], two_pods)) as Hl
    by (vm_compute; reflexivity).
  split; [exact Hl |]. split; [| split].
  - destruct (Hlist _ _ _ Hl) as [[=] | (id & k & s1 & (_ & _ & Hk & s0 & cr & Hg & Hid) & Hown)].
    assert (k = ("ns-shared", "smoke")) as -> by (vm_compute in Hk; congruence).
    assert (id = "r-1") as ->; [| exact Hown]. apply Forall_cons in Hown as [[_ Hl'] _]. simpl in Hl'.
    rewrite lookup_singleton_eq in Hl'. congruence.
  - vm_compute. reflexivity.
  - apply (Hrefuse "other-0" None two_pods "r-1" ("ns-shared", "smoke") two_pods (pod "other-0" "r-2") two_pods);
      [vm_compute; reflexivity | vm_compute; reflexivity | vm_compute; discriminate].
Defined.

#[export] Instance kube_nodes : NodeReader Z kube := fun c =>
  (inl ("7", [{| nd_Name := "n1"; nd_Labels := ∅; nd_ResourceVersion := "1"; nd_Unschedulable := false; nd_Taints := [];
                 nd_Allocatable := {["cpu" := 16%Z]}; nd_Conditions := [{| nc_Type := "Ready"; nc_Status := "True" |}] |};
              {| nd_Name := "n2"; nd_Labels := ∅; nd_ResourceVersion := "1"; nd_Unschedulable := false; nd_Taints := [];
                 nd_Allocatable := {["cpu" := 16%Z]}; nd_Conditions := [] |}]), c).

(** Each pod reserves the 6 of its init container, not the 5 of its
    containers; the node that is not ready is left out. *)
Example inventory_of_two_pods :
  match (Snapshot (fun v => v) two_pods).1 with
  | inl (snap, _) => map rn_Name (rs_Nodes snap) = ["n1"] /\ node_usage "n1" "cpu" (rs_Allocations snap) = 12%Z /\
      node_usage "n1" "memory" (rs_Allocations snap) = 4%Z
  | inr _ => False
  end.
Proof. vm_compute. by split_and!. Qed.

(** Two tenants that share a namespace, without the tenant prefix: applying the
    second one's service of the same name replaces the spec and the tenant
    label of the first one's. *)
Definition shared : NamespaceResolver kube := fun _ => ret "ns-shared".

Definition named_alike (tenant image : string) : MLServiceCR Z :=
  {| scr_Meta := {| om_Name := "chat"; om_Namespace := tenant; om_Labels := {[LabelTenant := tenant]}; om_Annotations := ∅ |};
     scr_Spec := sample_service_spec "deployment" image 2 None None |}.

Example shared_namespace_collides :
  let apply cr s := (ApplyMLService (NamespaceResolver0 := shared) sample_hash false cr s).2 in
  let s := apply (named_alike "team-b" "theirs") (apply (named_alike "team-a" "ours") empty_kube) in
  (fun o => (ob_Labels o !! LabelTenant, map (fun r => pt_Image (ro_Template r)) (ssp_Roles (ob_Spec o))))
    <$> ku_Services s !! ("ns-shared", "chat") = Some (Some "team-b", ["theirs"]).
Proof. vm_compute. reflexivity. Qed.
End KubeSample.
